(* ===== verification/_CoqProject ===== *)
-Q . S2P
Prelude.v
PyDict.v
Bytes.v
File.v
SlabHeader.v
SlabIO.v
SlabIOProps.v
SlabManager.v
SlabInv.v
SlabOps.v
SlabAlloc.v
SlabAttach.v
SlabSession.v
SlabManagerProps.v
Bounce.v
BounceInv.v
BounceOps.v
BounceRun.v
BounceSystem.v
BounceProps.v
SlabSpec.v
SlabSpecProps.v
FsBlocks.v
Connector.v
ConnectorProps.v
NvmeTransport.v
NvmeTransportInv.v
NvmeTransportProps.v
NvmeArtifact.v
NvmeArtifactProps.v
KvBlocks.v
KvBlocksInv.v
KvBlocksProps.v
KvHash.v
KvHashProps.v
KvSpec.v
KvSpecProps.v
KvLayout.v
KvGroups.v
KvGroupsProps.v
KvConfig.v
KvConfigProps.v
KvPlacement.v
KvPlacementProps.v
KvWorkersProps.v
KvCoordinator.v
KvCoordinatorProps.v
PyNum.v
SpecSink.v
SpecConfidence.v
AdaptiveSpec.v
AdaptivePolicy.v
AdaptiveProps.v
NvmePrefetch.v
NvmeCheckpoint.v
NvmeStreaming.v
NvmeStreamingProps.v
NvmeCoalesced.v
NvmeCoalescedPlan.v
NvmeRange.v
NvmeCoalescedProps.v
NvmeAligned.v
OffConfig.v
OffScheduler.v
OffJobs.v
OffLookup.v
OffConfigProps.v
OffSession.v
OffSteps.v
OffStore.v
OffProps.v
CpBuffers.v
CpTables.v
CpIndex.v
CpStaged.v
CpTablesInv.v
CpSessions.v
CpSlots.v
CpIndexSpec.v
CpProps.v
