(* ===== verification/Prelude.v ===== *)
(** * Verification of the KV offload, cache planning and drafting code

    The repository serves a large model on four DGX Spark hosts.  Its own
    logic, beside patched copies of vLLM files, is a cache tier that keeps
    attention KV blocks on the local NVMe drives of every host, the planning of
    the GPU's KV cache for context parallelism and speculative drafting, a
    policy that decides how many drafted tokens are verified, and a loader that
    streams model weights from NVMe.  This library models these parts and
    proves what they promise.

    ** Parts, files, and their code

    Slab tier, [src/runtime/vllm029/overlay/vllm/v1/kv_offload/tiering/multinode.py].
    Every host keeps fixed-size slots in preallocated slab files; the scheduler
    decides which slot holds which block, and workers copy bytes through pinned
    bounce buffers.
    - [File], [SlabHeader], [SlabIO]: a file as a list of bytes and an
      adversarial kernel (short and failing system calls), the slot header
      ([_SLAB_HDR], [parse_header], [header]) and [SlabIO]'s reads, writes and
      scans.  [SlabIOProps]: a slot reads back what was written; an interrupted
      write is never taken for valid data; a read refines a check of the slot
      as a value; bursts of corruption are detected.
    - [SlabManager]: [SlabOffloadingManager] (attach, lookup, prepare, complete
      and fail stores and loads, reset) over its dictionaries.  [SlabInv],
      [SlabOps], [SlabAlloc], [SlabAttach], [SlabSession] carry its invariant
      through every call; [SlabManagerProps]: slots are never lost nor shared,
      a block being loaded keeps its slot through any sequence of calls until
      it completes or the cache is reset, what a load left running by a reset
      would read of later blocks is refused, a prepared store gets exactly the free and evicted slots an abstract
      allocation gives, an attach finds the newest copies and only those of the
      epoch of every host.
    - [Bounce]: [BounceController] and its job table, sub-jobs and the five
      phases of [pump], with the copy engine and the file threads as queues of
      work that finish in any order.  [BounceInv], [BounceOps], [BounceRun]
      keep its invariant; [BounceSystem] joins it with devices and
      slab files.  [BounceProps]: every job is reported once, bounce slots are
      never shared or lost, [wait_all] ends, a store followed by a load gives
      the bytes back.
    - [SlabSpec]: the worker's start ([slab_geometry], wiping, epochs).
      [SlabSpecProps]: a crash at any step of a start never leaves slots of
      another identity valid.
    - [FsBlocks]: the tier with one file per block; a block file appears whole
      or not at all.
    - [Connector]: how failures travel from workers to the scheduler.
      [ConnectorProps]: no failed load is reported as loaded.

    Weight loader, [src/runtime/nvme_loader/spark_nvme/].
    - [NvmeTransport] ([transport.py]): the read pipeline as a step relation
      over reader threads, the main thread and the copy engine.
      [NvmeTransportInv] keeps its invariant; [NvmeTransportProps]: a completed
      stream delivered every extent, nothing unverified reaches a destination,
      and it cannot stall.
    - [NvmeArtifact] ([artifact.py]): inventory, publication, inspection and
      restore plan.  [NvmeArtifactProps]: publication is atomic, an inspected
      plan is within bounds, and restoring gives back what was published.
    - [NvmePrefetch] ([streaming.py]): the budget of owned storages, and the
      lookahead of one value as a step relation over any generator: values
      arrive in order and once, and the stream cannot stall.
    - [NvmeCheckpoint] (same file): the inspection of original checkpoints over
      a storage that changes with time.  [NvmeStreaming]: the stream of owning
      tensors.  [NvmeStreamingProps]: a stream that completes gave the model
      every wanted tensor once and put the environment back, and the bytes
      the model holds of the yielded tensors never exceed the budget.
    - [NvmeCoalesced] ([coalesced.py]): the plan of batches, concurrent aligned
      reads through two host tiles, asynchronous uploads with their events, and
      the generator of batches.  [NvmeCoalescedPlan]: every tensor with bytes
      lies in exactly one batch; [NvmeRange]: the reader fills an output with
      the bytes of the file under every order of reads and every pace of the
      copy engine; [NvmeCoalescedProps]: the stream delivers every tensor with
      its bytes, if a file whose stamp did not change did not change; [NvmeAligned]: direct reads are aligned and inside their tile.

    Cache planning, [src/runtime/vllm029/overlay/vllm/v1/].
    - [KvBlocks] ([core/kv_cache_utils.py]): blocks, their linked free queue
      over a heap, and block keys.  [KvBlocksProps]: the queue refines a list.
    - [KvHash] (same file): extra keys, seeds, the incremental block hasher and
      coarser views of the hashes.  [KvHashProps]: hashing is incremental, and
      a hash binds its whole prefix.
    - [KvSpec] ([kv_cache_interface.py]): specifications of layers, sizes,
      merging and memory needs.  [KvSpecProps]: a merged specification accounts
      for each layer it replaces; needs grow with the model length.
    - [KvLayout] (same file): shapes, strides, views and transfer groups.
    - [KvGroups] ([core/kv_cache_utils.py]): layers into cache groups.
      [KvGroupsProps]: page-aligned groups partition the layers, unification
      gives one page size, the packed width is the best one.
    - [KvConfig] (same file): block sizes, memory checks, the search for the
      longest model length, and every worker's configuration.
      [KvConfigProps]: block sizes fit each other, the search is exact and
      restores the configuration.  [KvPlacement], [KvPlacementProps]: pages lie
      inside the allocation and stay apart.  [KvWorkersProps]: the workers'
      configurations agree and are affordable.
    - [KvCoordinator] ([core/kv_cache_coordinator.py]): the three coordinators
      over the managers of the groups.  [KvCoordinatorProps]: spec groups
      partition the cacheable groups, and the search for the longest common
      prefix ends, and with at most one look-ahead group it ends with the
      greatest length that all groups can serve.

    Offloading connector, scheduler side,
    [src/overlay/vllm/distributed/kv_transfer/kv_connector/v1/offloading/scheduler.py].
    - [OffConfig]: [GroupOffloadConfig], [storable_blocks] and
      [SchedulerOffloadConfig.from_spec].  [OffScheduler]: request states, offload
      keys and [_lookup].  [OffJobs]: loads, store jobs, the metadata of a step,
      worker reports, ends of requests, resets.  Request objects belong to the
      engine and are reached by reference.
    - [OffLookup], [OffConfigProps]: the search ends, and what it answers every
      group can load; offload keys are incremental; a connector made from sound
      sizes is sound.  [OffStore]: one step of storing on each of its branches,
      and runs of steps, declined ones among them, that leave no hole.
    - The ledger of [OffJobs]: the calls to the manager, written down.
      [OffSession], [OffSteps]: an invariant through every operation, and sessions of engine
      calls as a step relation, with resets at any time.  [OffProps]: the books
      of a session are straight, reused blocks and the jobs a reset discarded are
      flushed, and the theorems above for the operations as the engine calls
      them.

    Block tables of a worker,
    [src/runtime/vllm029/overlay/vllm/v1/worker/gpu/block_table.py], with
    [src/baseline/vllm/v1/worker/gpu/buffer_utils.py] and
    [src/overlay/vllm/v1/attention/backends/mla/sparse_utils.py].  The scheduler
    names the blocks of a request; the worker keeps them in tables on the GPU,
    computes the slots where a step's tokens are written, and turns the
    positions that sparse attention picks into slots to read.
    - [CpBuffers]: tensors, launches of kernels, buffer pools and staged
      writes, alone and fused.  [CpTables]: [BlockTables] with its gather and
      slot kernels.  [CpIndex]: the filter that keeps the positions of a
      context-parallel rank, and the compaction.
    - The end of [CpBuffers]: the result of a launch does not depend on the order
      in which the hardware runs the programs.  [CpStaged]: what applying staged writes
      leaves.  [CpTablesInv], [CpSessions]: through any session of appends and
      applications the tables refine lists of blocks, refused appends included.
      [CpSlots]: the arithmetic of placement and the slots of a step.
      [CpIndexSpec]: the filter and the compaction as functions of a row.
    - [CpProps]: in sessions with one append per request between two
      applications, gathered tables hold the blocks of their requests, a token
      whose block is in its row is read where it was written, no two such
      tokens share a slot, and the ranks share out the candidates.

    Drafting, [src/overlay/vllm/v1/spec_decode/], adaptive.py and
    confidence_trace.py.
    - [PyNum]: Python's floats (binary64, the rounding functions of the
      standard library's [SpecFloat]) with their signs and rounding, the
      values of parsed JSON, and the limit on the digits of integers that
      [int] and [str] have.
    - [AdaptiveSpec]: prior and cost tables, their validation, interpolation,
      the acceptance statistics and the choice of a cap ([PrefixStats]).
    - [AdaptivePolicy]: [VerificationPolicy]: construction from environment and
      files, [begin], [select], [scheduled], [complete], and the states of
      request objects that are collected.  [AdaptiveProps]: after any calls a
      decision is a legal cap and raises at most what the theorem lists; a
      shortened verification has the best estimated rate.
    - [SpecSink]: [JsonlSink], its queue, thread and [close] as a step
      relation; every row is written in order, counted as dropped, or lost with
      the write that failed.
    - [SpecConfidence]: [ConfidenceCollector], which samples the drafter's scores
      of a lone request, and the packets it hands on.  Through any calls, a
      packet pairs a verification with the proposal of the step before, of the
      same request, and proposals are not captured twice.

    Shared: this file (results, the state-and-error monad, integer and list
    lemmas), [PyDict] (insertion-ordered dictionaries), [Bytes] (bytes,
    little-endian integers, CRC-32).

    ** Conventions

    A Python expression that may raise has type [res]; a statement has type
    [M S A] and keeps the state it reached when it raises.  Definitions carry
    the names of the code; helpers that stand for a loop or a part of a
    function are described where they are declared.  Nondeterminism of the
    environment (short reads and writes, failures, the order of completions)
    is data: a list of what the kernel does next, or the choice of a step.
    Loops run on fuel or on a list: the fuel of a read or write is the number
    of bytes left plus one (every system call that does not fail moves a byte),
    that of the hasher the number of tokens, that of the length search the
    model length, that of the prefix search the length it starts from, that of an aligned read
    the bytes it must get, that of the connector's lookup the tokens of the
    request; [OutOfFuel] is shown not to be reached.  Integers are
    unbounded as in Python; header fields and keys have their widths, and the
    functions that pack them fail outside.

    ** Parameters

    Code that is not in the repository is a parameter: the hash functions and
    JSON text of the loader, the environment, files and number text of the
    drafting policy (the class [SpecWorld]), the storage with its history (the
    class [Disk] of [NvmeCheckpoint]; that a stamp tells whether a file changed
    is the hypothesis [stamps_tell]), the safetensors parser and torch's types
    ([TensorLib]), the contents of a fresh torch buffer, the hash of block hashing (assumed free of
    collisions only where a theorem says so), and, for cache planning, the
    class [KvLib] of [KvSpec] (torch element sizes, [cdiv], [round_up], the
    registry of specification classes) with the laws [KvLaws] that the vLLM
    functions document; [KVCacheLayout] is a record of what the code reads of
    it.  The class [KvManagers] of [KvCoordinator] is the managers and the block
    pool, also of the vLLM package; what the search relies on is the record
    [lookups_ok].  The manager of the connector is the class
    [OffloadingManager] of [OffScheduler], key functions are [OffLib] with
    [OffLaws].  The GPU, torch and Triton are the class [Gpu] of [CpBuffers]
    with [GpuLaws]: the order of the programs of a launch, the copy of a list
    to the device, the contents of fresh memory, the next power of two; the
    padding slot is an argument.  [KvSpecProps.sample_lib] and
    [KvCoordinatorProps.sample_managers] are instances, with which the
    witnesses compute.

    ** Not modelled

    Log messages and metrics; the reuse of a pinned buffer while a kernel of an
    earlier step still reads it (the pools are shown to keep a view through the
    next [max_concurrency - 1] copies); the floating-point concurrency reports of
    [kv_cache_utils.py]; CUDA streams, thread pools and descriptors beyond the
    queues and steps above; constructors that wire vLLM objects.  Of the
    repository: patched copies of vLLM files that are numeric kernels or model
    code (attention backends, model runners, speculators), the upstream
    scheduler, platform and configuration classes, the loader's command-line
    and container glue, benchmarks, experiments, recorded results, and earlier
    snapshots ([src/baseline], [src/stage], [src/overlay]) of the same files.

    ** Plan

    Done; what is left out is listed above with its reason.
*)
From stdpp Require Import base list list_numbers gmap sets numbers.
From Stdlib Require Import ZArith Lia.

Declare Scope py_scope.
Delimit Scope py_scope with py.
#[global] Open Scope Z_scope.

(** * Python exceptions and the two effect monads *)

(** The exception classes the modelled code raises. *)
Inductive exn :=
  | OSError | EOFError | ValueError | KeyError | IndexError | TypeError
  | RuntimeError | AssertionError | MemoryError | TimeoutError
  | OutOfFuel (* not a Python exception: the loop bound of the model was reached *)
  | OverflowError | StructError | FileExistsError | UnsupportedStream
  | NotImplementedError | ZeroDivisionError | AttributeError | StopIteration
  | RecursionError | GeneratorExit.

#[export] Instance exn_eq_dec : EqDecision exn.
Proof. solve_decision. Defined.

(** Result of an expression: a value or a raised exception. *)
Inductive res (A : Type) :=
  | Ok (a : A)
  | Err (e : exn).
Arguments Ok {A} a.
Arguments Err {A} e.

#[export] Instance res_ret : MRet res := @Ok.
#[export] Instance res_bind : MBind res :=
  λ A B k m, match m with Ok a => k a | Err e => Err e end.
#[export] Instance res_fmap : FMap res :=
  λ A B f m, match m with Ok a => Ok (f a) | Err e => Err e end.

(** A statement: it may raise, and it keeps the state it reached when it
    raises, as Python does. *)
Definition M (S A : Type) : Type := S → res A * S.

#[export] Instance M_ret S : MRet (M S) := λ A a s, (Ok a, s).
#[export] Instance M_bind S : MBind (M S) :=
  λ A B k m s, match m s with
               | (Ok a, s') => k a s'
               | (Err e, s') => (Err e, s')
               end.

Definition raise {S A} (e : exn) : M S A := λ s, (Err e, s).
Definition get {S} : M S S := λ s, (Ok s, s).
Definition gets {S A} (f : S → A) : M S A := λ s, (Ok (f s), s).
Definition modify {S} (f : S → S) : M S unit := λ s, (Ok tt, f s).
Definition lift {S A} (r : res A) : M S A := λ s, (r, s).
(** [assert c]: raises when the condition is false. *)
Definition assert_ {S} (b : bool) : M S unit := if b then mret tt else raise AssertionError.
(** [if b: raise e]. *)
Definition raise_if {S} (b : bool) (e : exn) : M S unit := if b then raise e else mret tt.
(** [try: m except e when h: ...]. *)
Definition catch {S A} (m : M S A) (h : exn → M S A) : M S A :=
  λ s, match m s with (Ok a, s') => (Ok a, s') | (Err e, s') => h e s' end.

(** [for x in l: f x]. *)
Fixpoint for_each {S A} (l : list A) (f : A → M S unit) : M S unit :=
  match l with
  | [] => mret tt
  | x :: l => f x ≫= λ _, for_each l f
  end.

(** [[f x for x in l]] with an effectful [f]. *)
Fixpoint map_m {S A B} (f : A → M S B) (l : list A) : M S (list B) :=
  match l with
  | [] => mret []
  | x :: l => y ← f x; ys ← map_m f l; mret (y :: ys)
  end.

Definition res_of_option {A} (e : exn) (o : option A) : res A :=
  match o with Some a => Ok a | None => Err e end.

Definition is_ok {A} (r : res A) : bool := match r with Ok _ => true | Err _ => false end.

Section monad_lemmas.
Context {S A B : Type}.

Lemma M_bind_ok (m : M S A) (k : A → M S B) s b s' :
  (m ≫= k) s = (Ok b, s') ↔ ∃ a s1, m s = (Ok a, s1) ∧ k a s1 = (Ok b, s').
Proof.
  unfold mbind, M_bind. destruct (m s) as [[a|e] s1]; naive_solver.
Qed.

Lemma M_bind_run (m : M S A) (k : A → M S B) s a s1 :
  m s = (Ok a, s1) → (m ≫= k) s = k a s1.
Proof. unfold mbind, M_bind. by intros ->. Qed.

Lemma M_bind_err (m : M S A) (k : A → M S B) s e s1 :
  m s = (Err e, s1) → (m ≫= k) s = (Err e, s1).
Proof. unfold mbind, M_bind. by intros ->. Qed.

(** A property of the state that every iteration keeps holds after the
    loop, whether it ends normally or raises. *)
Lemma for_each_inv (P : S → Prop) (l : list A) (f : A → M S unit) s :
  (∀ x s, x ∈ l → P s → P (f x s).2) → P s → P (for_each l f s).2.
Proof.
  revert s. induction l as [|x l IH]; intros s Hf Hs; [done|].
  simpl. unfold mbind, M_bind. pose proof (Hf x s ltac:(left) Hs) as Hx.
  destruct (f x s) as [[[]|e] s1]; [|done].
  apply IH; [|done]. intros y s2 Hy. apply Hf. by right.
Qed.

(** A loop whose passes never raise while [R] holds, and keep it. *)
Lemma for_each_ok (R : S → Prop) (l : list A) (f : A → M S unit) s :
  (∀ x s, x ∈ l → R s → ∃ s', f x s = (Ok tt, s') ∧ R s') → R s →
  ∃ s', for_each l f s = (Ok tt, s') ∧ R s'.
Proof.
  revert s. induction l as [|x l IH]; intros s Hf Hs; [by exists s|].
  simpl. unfold mbind, M_bind. destruct (Hf x s ltac:(left) Hs) as (s1 & -> & Hs1).
  apply IH; [|done]. intros y s2 Hy. apply Hf. by right.
Qed.

(** One step of the interpreter, for the rewriting base [monad]. *)
Lemma run_lift_ok a (k : A → M S B) s : (lift (Ok a) ≫= k) s = k a s.
Proof. done. Qed.
Lemma run_lift_err e (k : A → M S B) s : (lift (Err e) ≫= k) s = (Err e, s).
Proof. done. Qed.
Lemma run_ret a (k : A → M S B) s : (mret a ≫= k) s = k a s.
Proof. done. Qed.
Lemma run_raise e (k : A → M S B) s : (raise e ≫= k) s = (Err e, s).
Proof. done. Qed.
Lemma run_gets (f : S → A) (k : A → M S B) s : (gets f ≫= k) s = k (f s) s.
Proof. done. Qed.
Lemma run_get (k : S → M S B) s : (get ≫= k) s = k s s.
Proof. done. Qed.
Lemma run_modify (f : S → S) (k : unit → M S B) s : (modify f ≫= k) s = k tt (f s).
Proof. done. Qed.
Lemma run_assert_true (k : unit → M S B) s : (assert_ true ≫= k) s = k tt s.
Proof. done. Qed.
Lemma run_assert_false (k : unit → M S B) s : (assert_ false ≫= k) s = (Err AssertionError, s).
Proof. done. Qed.
Lemma run_raise_if_true e (k : unit → M S B) s : (raise_if true e ≫= k) s = (Err e, s).
Proof. done. Qed.
Lemma run_raise_if_false e (k : unit → M S B) s : (raise_if false e ≫= k) s = k tt s.
Proof. done. Qed.

Lemma run_assoc {C} (m : M S C) (f : C → M S A) (k : A → M S B) s :
  ((m ≫= f) ≫= k) s = (m ≫= λ c, f c ≫= k) s.
Proof. unfold mbind, M_bind. by destruct (m s) as [[c|e] s1]. Qed.

Lemma res_bind_ok (m : res A) (k : A → res B) b :
  m ≫= k = Ok b ↔ ∃ a, m = Ok a ∧ k a = Ok b.
Proof. destruct m; unfold mbind, res_bind; naive_solver. Qed.
End monad_lemmas.

(** What an operation may leave: a result or exception, and a state. *)
Definition wp {S A} (m : M S A) (Q : res A → S → Prop) (s : S) : Prop := Q (m s).1 (m s).2.
Lemma wp_bind {S A B} (m : M S A) (k : A → M S B) Q s :
  wp m (λ r s', match r with Ok a => wp (k a) Q s' | Err e => Q (Err e) s' end) s → wp (m ≫= k) Q s.
Proof. unfold wp, mbind, M_bind. by destruct (m s) as [[a|e] s']. Qed.
Lemma wp_mono {S A} (m : M S A) (Q Q' : res A → S → Prop) s : (∀ r s', Q r s' → Q' r s') → wp m Q s → wp m Q' s.
Proof. unfold wp. auto. Qed.
Lemma wp_lift {S A} (r : res A) (Q : res A → S → Prop) s : Q r s → wp (lift r) Q s.
Proof. done. Qed.
Lemma wp_ret {S A} (a : A) (Q : res A → S → Prop) s : Q (Ok a) s → wp (mret a) Q s.
Proof. done. Qed.
Lemma wp_modify {S} (f : S → S) (Q : res unit → S → Prop) s : Q (Ok tt) (f s) → wp (modify f) Q s.
Proof. done. Qed.
Lemma wp_get {S} (Q : res S → S → Prop) s : Q (Ok s) s → wp get Q s.
Proof. done. Qed.
Lemma wp_raise_if {S} (b : bool) e (Q : res unit → S → Prop) s : (if b then Q (Err e) s else Q (Ok tt) s) → wp (raise_if b e) Q s.
Proof. unfold wp, raise_if. by destruct b. Qed.
Lemma wp_ok {S A} (m : M S A) (Q : A → S → Prop) s a s' :
  wp m (λ r s', match r with Ok a => Q a s' | Err _ => True end) s → m s = (Ok a, s') → Q a s'.
Proof. unfold wp. by intros H E; rewrite E in H. Qed.
(** A loop keeps [I], which may speak of what it has done and what is left. *)
Lemma wp_for_each {S A} (I : list A → list A → S → Prop) (l : list A) (f : A → M S unit) (Q : res unit → S → Prop) s :
  (∀ l1 x l2 s, l = l1 ++ x :: l2 → I l1 (x :: l2) s →
     wp (f x) (λ r s', match r with Ok _ => I (l1 ++ [x]) l2 s' | Err e => Q (Err e) s' end) s) →
  (∀ s', I l [] s' → Q (Ok tt) s') → I [] l s → wp (for_each l f) Q s.
Proof.
  intros Hf HQ. assert (H : ∀ l1 l2 s, l = l1 ++ l2 → I l1 l2 s → wp (for_each l2 f) Q s); [|by apply (H [])].
  clear s. intros l1 l2. revert l1. induction l2 as [|x l2 IH]; intros l1 s Hl HI; cbn [for_each].
  { rewrite app_nil_r in Hl. subst l1. by apply wp_ret, HQ. }
  apply wp_bind. eapply wp_mono; [|by eapply Hf]. intros [[]|e] s'; [|done]. intros HI'. apply (IH (l1 ++ [x])); [|done].
  by rewrite <- app_assoc.
Qed.

Lemma Ok_inj {A} (a b : A) : Ok a = Ok b → a = b.
Proof. by intros [= ->]. Qed.

Create Rewrite HintDb monad.
#[export] Hint Rewrite @run_assoc @run_lift_ok @run_lift_err @run_ret @run_raise @run_gets @run_get
  @run_modify @run_assert_true @run_assert_false @run_raise_if_true @run_raise_if_false : monad.

(** Split [H : x ← m; k = Ok b] (of either monad) into the run of [m] and the
    rest, which stays named [H]. *)
Tactic Notation "inv_res" hyp(H) "as" simple_intropattern(p) :=
  apply res_bind_ok in H;
  let E := fresh "E" in destruct H as (? & E & H); revert E; intros p.
Tactic Notation "inv_M" hyp(H) "as" simple_intropattern(a) simple_intropattern(p) :=
  apply M_bind_ok in H;
  let E := fresh "E" in destruct H as (a & ? & E & H); revert E; intros p.

(** Evaluate the [bool_decide]s that a hypothesis settles, whatever instance
    they carry. *)
Ltac rewrite_decide :=
  repeat match goal with
  | |- context [@bool_decide ?P ?D] =>
    first [rewrite (@bool_decide_eq_true_2 P D) by (done || lia)
          |rewrite (@bool_decide_eq_false_2 P D) by (done || lia)]
  end.

(** [[f(x) for x in l]] with an [f] that may raise. *)
Fixpoint map_res {A B} (f : A → res B) (l : list A) : res (list B) :=
  match l with [] => Ok [] | x :: l => y ← f x; ys ← map_res f l; Ok (y :: ys) end.

Lemma map_res_ok {A B} (f : A → res B) (g : A → B) l : (∀ x, x ∈ l → f x = Ok (g x)) → map_res f l = Ok (g <$> l).
Proof.
  induction l as [|x l IH]; intros Hf; [done|]. cbn [map_res]. rewrite (Hf x ltac:(by left)). cbn [mbind res_bind].
  rewrite IH; [done|]. intros y Hy. apply Hf. by right.
Qed.
Lemma map_res_inv {A B} (f : A → res B) l ys : map_res f l = Ok ys → Forall2 (λ x y, f x = Ok y) l ys.
Proof.
  revert ys. induction l as [|x l IH]; intros ys; cbn [map_res]; [by intros [= <-]|].
  intros (y&Hy&H)%res_bind_ok. apply res_bind_ok in H as (ys'&Hys&H). injection H as <-. constructor; auto.
Qed.

(** [all(f(x) for x in l)] where [f] may raise: stops at the first false. *)
Fixpoint all_res {A} (f : A → res bool) (l : list A) : res bool :=
  match l with [] => Ok true | x :: l => b ← f x; if (b : bool) then all_res f l else Ok false end.

Lemma existsb_false {A} (f : A → bool) l x : existsb f l = false → x ∈ l → f x = false.
Proof.
  induction l as [|y l IH]; [set_solver|]. cbn. intros [Hy Hl]%orb_false_iff [->|Hx]%elem_of_cons; [done|by apply IH].
Qed.
Lemma filter_all {A} (P : A → Prop) `{∀ x, Decision (P x)} (l : list A) : (∀ x, x ∈ l → P x) → filter P l = l.
Proof.
  induction l as [|x l IH]; [done|]. intros Hl. rewrite filter_cons_True by (apply Hl; by left).
  f_equal. apply IH. intros y Hy. apply Hl. by right.
Qed.
Lemma filter_none {A} (P : A → Prop) `{∀ x, Decision (P x)} (l : list A) : (∀ x, x ∈ l → ¬ P x) → filter P l = [].
Proof.
  induction l as [|x l IH]; [done|]. intros Hl. rewrite filter_cons_False by (apply Hl; by left). apply IH. intros y Hy. apply Hl. by right.
Qed.

(** [assert] and [raise] in expressions. *)
Definition check (b : bool) : res unit := if b then Ok tt else Err AssertionError.
Lemma check_ok b : check b = Ok tt ↔ b = true.
Proof. by destruct b. Qed.

(** [sum] and [max] of a list; [max] of nothing is an error. *)
Definition zsum (l : list Z) : Z := foldr Z.add 0 l.
Definition zmax (l : list Z) : res Z := match l with [] => Err ValueError | x :: l => Ok (foldr Z.max x l) end.
Definition zmin (l : list Z) : res Z := match l with [] => Err ValueError | x :: l => Ok (foldr Z.min x l) end.

Lemma zsum_app l1 l2 : zsum (l1 ++ l2) = zsum l1 + zsum l2.
Proof. induction l1 as [|x l1 IH]; simpl; [done|]. rewrite IH. lia. Qed.
Lemma zsum_nonneg l : (∀ x, x ∈ l → 0 ≤ x) → 0 ≤ zsum l.
Proof.
  induction l as [|x l IH]; intros H; simpl; [done|]. pose proof (H x ltac:(by left)).
  assert (0 ≤ zsum l) by (apply IH; intros y Hy; apply H; by right). lia.
Qed.
Lemma zsum_perm l l' : l ≡ₚ l' → zsum l = zsum l'.
Proof. induction 1; cbn; try change (foldr Z.add 0 ?l) with (zsum l); lia. Qed.
#[export] Instance zsum_proper : Proper ((≡ₚ) ==> (=)) zsum.
Proof. intros l l'. apply zsum_perm. Qed.
Lemma foldr_max_spec x l : foldr Z.max x l ∈ x :: l ∧ ∀ y, y ∈ x :: l → y ≤ foldr Z.max x l.
Proof.
  induction l as [|z l [H1 H2]]; simpl; [split; [by left|intros y ->%list_elem_of_singleton; done]|]. split.
  - destruct (Z.max_spec z (foldr Z.max x l)) as [[_ ->]|[_ ->]]; set_solver.
  - intros y Hy. assert (y = z ∨ y ∈ x :: l) as [->|H] by set_solver; [lia|]. specialize (H2 y H). lia.
Qed.
Lemma foldr_min_spec x l : foldr Z.min x l ∈ x :: l ∧ ∀ y, y ∈ x :: l → foldr Z.min x l ≤ y.
Proof.
  induction l as [|z l [H1 H2]]; simpl; [split; [by left|intros y ->%list_elem_of_singleton; done]|]. split.
  - destruct (Z.min_spec z (foldr Z.min x l)) as [[_ ->]|[_ ->]]; set_solver.
  - intros y Hy. assert (y = z ∨ y ∈ x :: l) as [->|H] by set_solver; [lia|]. specialize (H2 y H). lia.
Qed.
Lemma zmax_spec l m : zmax l = Ok m → m ∈ l ∧ ∀ x, x ∈ l → x ≤ m.
Proof. destruct l as [|x l]; [done|]. intros [= <-]. apply foldr_max_spec. Qed.
Lemma zmin_spec l m : zmin l = Ok m → m ∈ l ∧ ∀ x, x ∈ l → m ≤ x.
Proof. destruct l as [|x l]; [done|]. intros [= <-]. apply foldr_min_spec. Qed.

(** * Integer helpers of the code base *)

(** [a // b] of Python integers. *)
Definition floordiv (a b : Z) : res Z := if b =? 0 then Err ZeroDivisionError else Ok (a / b).

(** [-(-n // m) * m]. *)
Definition round_up (n m : Z) : Z := - ((- n) / m) * m.

Lemma round_up_spec n m :
  0 < m → n ≤ round_up n m < n + m ∧ (m | round_up n m).
Proof.
  intros Hm. unfold round_up. split; [|eexists; reflexivity].
  pose proof (Z.div_mod (- n) m ltac:(lia)). pose proof (Z.mod_pos_bound (- n) m Hm). lia.
Qed.

Lemma round_up_least n m x :
  0 < m → n ≤ x → (m | x) → round_up n m ≤ x.
Proof.
  intros Hm Hn [k ->]. destruct (round_up_spec n m Hm) as [[_ Hlt] [q Hq]].
  rewrite Hq in *. destruct (Z.le_gt_cases q k); nia.
Qed.
