(* ===== verification/PyDict.v ===== *)
(** Insertion-ordered dictionaries: Python's [dict] and
    [collections.OrderedDict] where the code depends on their order (the LRU
    index of the slab store, the job table of the bounce controller). *)
From S2P Require Import Prelude.
From stdpp Require Import base list gmap sorting.

(** An ordered dictionary, oldest entry first. *)
Abbreviation odict K V := (list (K * V)).

Section odict.
Context {K V : Type} `{EqDecision K}.
Implicit Types (d : odict K V) (k : K) (v : V).

(** [d.get(k)] *)
Fixpoint od_get k d : option V :=
  match d with
  | [] => None
  | (k', v) :: d => if decide (k = k') then Some v else od_get k d
  end.

(** [k in d] *)
Definition od_mem k d : bool := bool_decide (is_Some (od_get k d)).

(** [del d[k]] / [d.pop(k, None)] *)
Fixpoint od_pop k d : odict K V :=
  match d with
  | [] => []
  | (k', v) :: d => if decide (k = k') then d else (k', v) :: od_pop k d
  end.

(** [d[k] = v]: in place when present, else at the end. *)
Fixpoint od_set k v d : odict K V :=
  match d with
  | [] => [(k, v)]
  | (k', v') :: d => if decide (k = k') then (k, v) :: d else (k', v') :: od_set k v d
  end.

(** [OrderedDict.move_to_end(k)] for a present key. *)
Definition od_move_to_end k d : odict K V :=
  match od_get k d with
  | Some v => od_pop k d ++ [(k, v)]
  | None => d
  end.

Definition od_keys d : list K := d.*1.
Definition od_vals d : list V := d.*2.

Lemma od_get_elem k v d : od_get k d = Some v → (k, v) ∈ d.
Proof.
  induction d as [|[k' v'] d IH]; simpl; [done|]. case_decide; [|set_solver].
  intros [= ->]. subst. left.
Qed.

Lemma od_get_None k d : od_get k d = None ↔ k ∉ od_keys d.
Proof.
  induction d as [|[k' v'] d IH]; simpl; [set_solver|].
  case_decide; subst; set_solver.
Qed.

Lemma od_get_Some_key k v d : od_get k d = Some v → k ∈ od_keys d.
Proof. intros H. destruct (decide (k ∈ od_keys d)); [done|]. apply od_get_None in n. congruence. Qed.

Lemma od_elem_get k v d : NoDup (od_keys d) → (k, v) ∈ d → od_get k d = Some v.
Proof.
  induction d as [|[k' v'] d IH]; simpl; [set_solver|].
  intros [Hn Hd]%NoDup_cons [[= -> ->]|Hin]%elem_of_cons; [by rewrite decide_True|].
  rewrite decide_False; [by apply IH|]. intros ->. apply Hn.
  apply list_elem_of_fmap. by exists (k', v).
Qed.

Lemma od_mem_spec k d : od_mem k d = true ↔ k ∈ od_keys d.
Proof.
  unfold od_mem. rewrite bool_decide_eq_true. destruct (od_get k d) eqn:E.
  - split; [|by eauto]. intros _. by eapply od_get_Some_key.
  - split; [by intros [? ?]|]. by intros ?%od_get_None.
Qed.

Lemma od_pop_perm k v d : od_get k d = Some v → d ≡ₚ (k, v) :: od_pop k d.
Proof.
  induction d as [|[k' v'] d IH]; simpl; [done|]. case_decide.
  - intros [= ->]. by subst.
  - intros H'. rewrite (IH H') at 1. apply Permutation_swap.
Qed.

Lemma od_pop_sublist k d : od_pop k d `sublist_of` d.
Proof. induction d as [|[k' v'] d IH]; simpl; [done|]. case_decide; by constructor. Qed.

Lemma od_pop_None k d : od_get k d = None → od_pop k d = d.
Proof. induction d as [|[k' v'] d IH]; simpl; [done|]. case_decide; [done|]. intros. f_equal; auto. Qed.

Lemma od_set_fresh k v d : od_get k d = None → od_set k v d = d ++ [(k, v)].
Proof. induction d as [|[k' v'] d IH]; simpl; [done|]. case_decide; [done|]. intros. f_equal; auto. Qed.

Lemma od_get_set k v d : od_get k (od_set k v d) = Some v.
Proof.
  induction d as [|[k' v'] d IH]; simpl; [by rewrite decide_True|].
  destruct (decide (k = k')) as [->|]; simpl; [by rewrite decide_True|by rewrite decide_False].
Qed.

Lemma od_get_set_ne k k' v d : k ≠ k' → od_get k (od_set k' v d) = od_get k d.
Proof.
  intros Hne. induction d as [|[k2 v2] d IH]; simpl; [by rewrite decide_False|].
  repeat (case_decide; simplify_eq/=); done.
Qed.

Lemma od_get_pop_ne k k' d : k ≠ k' → od_get k (od_pop k' d) = od_get k d.
Proof.
  intros Hne. induction d as [|[k2 v2] d IH]; simpl; [done|].
  repeat (case_decide; simplify_eq/=); done.
Qed.

Lemma od_get_pop k d : NoDup (od_keys d) → od_get k (od_pop k d) = None.
Proof.
  induction d as [|[k2 v2] d IH]; simpl; [done|]. intros [Hn Hd]%NoDup_cons.
  case_decide; subst; [by apply od_get_None|]. simpl. rewrite decide_False by done. auto.
Qed.

Lemma od_get_app k d1 d2 :
  od_get k (d1 ++ d2) = match od_get k d1 with Some v => Some v | None => od_get k d2 end.
Proof. induction d1 as [|[k2 v2] d1 IH]; simpl; [done|]. by case_decide. Qed.

Lemma od_move_perm k d : od_move_to_end k d ≡ₚ d.
Proof.
  unfold od_move_to_end. destruct (od_get k d) eqn:E; [|done].
  rewrite (od_pop_perm _ _ _ E) at 2. rewrite Permutation_app_comm. done.
Qed.

Lemma od_keys_perm d1 d2 : d1 ≡ₚ d2 → od_keys d1 ≡ₚ od_keys d2.
Proof. intros Hp. by apply Permutation_map. Qed.
Lemma od_vals_perm d1 d2 : d1 ≡ₚ d2 → od_vals d1 ≡ₚ od_vals d2.
Proof. intros Hp. by apply Permutation_map. Qed.

Lemma od_get_perm k d1 d2 : NoDup (od_keys d1) → d1 ≡ₚ d2 → od_get k d1 = od_get k d2.
Proof.
  intros Hn Hp. assert (NoDup (od_keys d2)) as Hn2 by by rewrite <- (od_keys_perm _ _ Hp).
  apply option_eq. intros v. split; intros H; apply od_get_elem in H; apply od_elem_get; auto.
  - by rewrite <- Hp.
  - by rewrite Hp.
Qed.

Lemma od_move_nodup k d : NoDup (od_keys d) → NoDup (od_keys (od_move_to_end k d)).
Proof. by rewrite (od_keys_perm _ _ (od_move_perm k d)). Qed.

Lemma od_get_move k k' d : NoDup (od_keys d) → od_get k (od_move_to_end k' d) = od_get k d.
Proof. intros Hn. apply od_get_perm; [by apply od_move_nodup|apply od_move_perm]. Qed.

Lemma od_pop_nodup k d : NoDup (od_keys d) → NoDup (od_keys (od_pop k d)).
Proof.
  intros Hn. eapply sublist_NoDup; [exact Hn|]. apply fmap_sublist, od_pop_sublist.
Qed.

Lemma od_set_nodup k v d : NoDup (od_keys d) → NoDup (od_keys (od_set k v d)).
Proof.
  intros Hn. induction d as [|[k2 v2] d IH]; simpl in *; [repeat constructor; set_solver|].
  apply NoDup_cons in Hn as [Hn Hd]. case_decide; simpl; subst.
  - by constructor.
  - constructor; [|by apply IH]. intros Hin. apply Hn. clear -Hin H.
    induction d as [|[k3 v3] d IH]; simpl in *; [set_solver|].
    case_decide; simpl in *; subst; set_solver.
Qed.
End odict.

Create HintDb pydict.
Create Rewrite HintDb pydict.
#[export] Hint Resolve od_move_nodup od_pop_nodup od_set_nodup : pydict.
#[export] Hint Rewrite @od_get_set @od_get_pop_ne @od_get_set_ne using done : pydict.
