(* ===== verification/Bytes.v ===== *)
(** Bytes, little-endian integers ([struct]'s [I] and [Q] fields) and the
    CRC-32 of [zlib.crc32], the checksum of the slab store. *)
From S2P Require Import Prelude.
From stdpp Require Import base list list_numbers countable.
From Stdlib Require Import ZArith Lia Strings.Byte.
#[local] Open Scope Z_scope.

Abbreviation byte := Byte.byte.

#[export] Instance byte_eq_dec : EqDecision byte := Byte.byte_eq_dec.
#[export] Program Instance byte_countable : Countable byte :=
  {| encode b := encode (Byte.to_N b);
     decode p := n ← decode p; Byte.of_N n |}.
Next Obligation.
  intros b. simpl. rewrite (decode_encode (Byte.to_N b)). apply Byte.of_to_N.
Qed.

(** A byte as an integer, and the low byte of an integer. *)
Definition b2z (b : byte) : Z := Z.of_N (Byte.to_N b).
Definition z2b (z : Z) : byte := default Byte.x00 (Byte.of_N (Z.to_N (z `mod` 256))).

Lemma b2z_range b : 0 ≤ b2z b < 256.
Proof. unfold b2z. pose proof (Byte.to_N_bounded b). lia. Qed.

Lemma b2z_z2b z : b2z (z2b z) = z `mod` 256.
Proof.
  unfold b2z, z2b. pose proof (Z.mod_pos_bound z 256 ltac:(lia)) as Hb.
  destruct (Byte.of_N _) as [b|] eqn:E; simpl.
  - apply Byte.to_of_N in E. rewrite E. lia.
  - apply Byte.of_N_None_iff in E. lia.
Qed.

Lemma z2b_b2z b : z2b (b2z b) = b.
Proof.
  unfold z2b. rewrite Z.mod_small by apply b2z_range. unfold b2z.
  by rewrite N2Z.id, Byte.of_to_N.
Qed.

#[export] Instance b2z_inj : Inj (=) (=) b2z.
Proof. intros a b H. by rewrite <- (z2b_b2z a), H, z2b_b2z. Qed.

(** * Little-endian fields *)

(** [struct.pack('<I'...)]: the [n] low bytes, least significant first. *)
Fixpoint le_bytes (n : nat) (z : Z) : list byte :=
  match n with
  | O => []
  | S n => z2b z :: le_bytes n (z / 256)
  end.

(** [struct.unpack]: the integer a field holds. *)
Fixpoint le_int (bs : list byte) : Z :=
  match bs with
  | [] => 0
  | b :: bs => b2z b + 256 * le_int bs
  end.

Lemma le_bytes_length n z : length (le_bytes n z) = n.
Proof. revert z. induction n; intros; simpl; [done|]. f_equal. apply IHn. Qed.

Lemma pow256_S n : 256 ^ Z.of_nat (S n) = 256 * 256 ^ Z.of_nat n.
Proof. rewrite Nat2Z.inj_succ, Z.pow_succ_r by lia. done. Qed.

Lemma le_int_bytes n z : 0 ≤ z < 256 ^ Z.of_nat n → le_int (le_bytes n z) = z.
Proof.
  revert z. induction n as [|n IH]; intros z Hz; simpl; [simpl in Hz; lia|].
  rewrite pow256_S in Hz. rewrite b2z_z2b, IH.
  - pose proof (Z.div_mod z 256). lia.
  - split; [apply Z.div_pos; lia|]. apply Z.div_lt_upper_bound; lia.
Qed.

Lemma le_int_range bs : 0 ≤ le_int bs < 256 ^ Z.of_nat (length bs).
Proof.
  induction bs as [|b bs IH]; [simpl; lia|]. cbn [le_int length].
  rewrite pow256_S. pose proof (b2z_range b). lia.
Qed.

Lemma le_bytes_int bs : le_bytes (length bs) (le_int bs) = bs.
Proof.
  induction bs as [|b bs IH]; simpl; [done|]. pose proof (b2z_range b).
  rewrite (Z.mul_comm 256), Z.div_add, Z.div_small by lia. rewrite Z.add_0_l, IH.
  f_equal. apply (inj b2z). rewrite b2z_z2b, Z.mod_add by lia. apply Z.mod_small. lia.
Qed.

Lemma le_int_zero n : le_int (replicate n Byte.x00) = 0.
Proof. induction n; simpl; [done|]. rewrite IHn. reflexivity. Qed.

(** * CRC-32 ([zlib.crc32], reflected polynomial 0xEDB88320) *)

Definition crc_poly : Z := 0xEDB88320.
Definition crc_mask : Z := 0xFFFFFFFF.

Definition crc_bit (c : Z) : Z :=
  if Z.odd c then Z.lxor (c / 2) crc_poly else c / 2.

Definition crc_bits (n : nat) (c : Z) : Z := Nat.iter n crc_bit c.

Definition crc_byte (c : Z) (b : byte) : Z := crc_bits 8 (Z.lxor c (b2z b)).

(** [zlib.crc32(data, value)] *)
Definition crc32 (data : list byte) (value : Z) : Z :=
  Z.lxor (fold_left crc_byte data (Z.lxor value crc_mask)) crc_mask.

Example crc32_check_value :
  crc32 (z2b <$> [49; 50; 51; 52; 53; 54; 55; 56; 57]) 0 = 0xCBF43926.
Proof. vm_compute. reflexivity. Qed.

(** ** Widths *)

Lemma lxor_range n a b :
  0 ≤ n → 0 ≤ a < 2 ^ n → 0 ≤ b < 2 ^ n → 0 ≤ Z.lxor a b < 2 ^ n.
Proof.
  intros Hn [Ha Ha'] [Hb Hb'].
  assert (0 ≤ Z.lxor a b) as H0 by (apply Z.lxor_nonneg; lia).
  split; [done|]. destruct (Z.eq_dec (Z.lxor a b) 0) as [->|Hne]; [lia|].
  apply Z.log2_lt_pow2; [lia|]. pose proof (Z.log2_lxor a b Ha Hb).
  destruct (Z.eq_dec n 0) as [->|]; [exfalso; assert (a = 0) by lia; assert (b = 0) by lia; subst; done|].
  enough (Z.log2 a < n ∧ Z.log2 b < n) by lia.
  split; (destruct (Z.eq_dec a 0), (Z.eq_dec b 0); subst; simpl; try lia;
    try (apply Z.log2_lt_pow2; lia)).
Qed.

Lemma crc_bit_range c : 0 ≤ c < 2 ^ 32 → 0 ≤ crc_bit c < 2 ^ 32.
Proof.
  intros Hc. unfold crc_bit. assert (0 ≤ c / 2 < 2 ^ 32).
  { split; [apply Z.div_pos; lia|]. apply Z.div_lt_upper_bound; lia. }
  destruct (Z.odd c); [|done]. apply lxor_range; [lia|done|]. unfold crc_poly. lia.
Qed.

Lemma crc_bits_range n c : 0 ≤ c < 2 ^ 32 → 0 ≤ crc_bits n c < 2 ^ 32.
Proof. intros. induction n; simpl; [done|]. by apply crc_bit_range. Qed.

Lemma crc_byte_range c b : 0 ≤ c < 2 ^ 32 → 0 ≤ crc_byte c b < 2 ^ 32.
Proof.
  intros. apply crc_bits_range, lxor_range; [lia|done|]. pose proof (b2z_range b). lia.
Qed.

Lemma crc_fold_range data c :
  0 ≤ c < 2 ^ 32 → 0 ≤ fold_left crc_byte data c < 2 ^ 32.
Proof. revert c. induction data; simpl; intros; [done|]. by apply IHdata, crc_byte_range. Qed.

Lemma crc32_range data v : 0 ≤ v < 2 ^ 32 → 0 ≤ crc32 data v < 2 ^ 32.
Proof.
  intros. unfold crc32, crc_mask. repeat (apply lxor_range || apply crc_fold_range); lia.
Qed.

(** Chaining calls is the checksum of the concatenation. *)
Lemma crc32_app d1 d2 v : crc32 (d1 ++ d2) v = crc32 d2 (crc32 d1 v).
Proof.
  unfold crc32. rewrite fold_left_app. f_equal. f_equal.
  rewrite Z.lxor_assoc, Z.lxor_nilpotent, Z.lxor_0_r. done.
Qed.

(** ** Error detection: the register update is injective *)

Lemma lxor_inj_l a b c : Z.lxor a c = Z.lxor b c → a = b.
Proof.
  intros H. rewrite <- (Z.lxor_0_r a), <- (Z.lxor_0_r b), <- (Z.lxor_nilpotent c).
  by rewrite <- !Z.lxor_assoc, H.
Qed.

Lemma crc_bit_top c : 0 ≤ c < 2 ^ 32 → Z.testbit (crc_bit c) 31 = Z.odd c.
Proof.
  intros Hc. assert (Z.testbit (c / 2) 31 = false) as Hhalf.
  { rewrite Z.div2_bits by lia.
    destruct (Z.eq_dec c 0) as [->|]; [apply Z.bits_0|].
    apply Z.bits_above_log2; [lia|]. apply Z.log2_lt_pow2; simpl; lia. }
  unfold crc_bit. destruct (Z.odd c) eqn:E; [|done].
  rewrite Z.lxor_spec, Hhalf. reflexivity.
Qed.

Lemma crc_bit_inj c1 c2 :
  0 ≤ c1 < 2 ^ 32 → 0 ≤ c2 < 2 ^ 32 → crc_bit c1 = crc_bit c2 → c1 = c2.
Proof.
  intros H1 H2 Heq. assert (Z.odd c1 = Z.odd c2) as Ho
    by by rewrite <- (crc_bit_top c1), <- (crc_bit_top c2), Heq.
  unfold crc_bit in Heq. rewrite Ho in Heq.
  assert (c1 / 2 = c2 / 2) as Hd by (destruct (Z.odd c2); [by apply lxor_inj_l in Heq|done]).
  by rewrite (Z.div_mod c1 2), (Z.div_mod c2 2), Hd, !Zmod_odd, Ho by lia.
Qed.

Lemma crc_bits_inj n c1 c2 :
  0 ≤ c1 < 2 ^ 32 → 0 ≤ c2 < 2 ^ 32 → crc_bits n c1 = crc_bits n c2 → c1 = c2.
Proof.
  intros H1 H2. induction n as [|n IH]; simpl; [done|]. intros Heq.
  apply IH, crc_bit_inj, Heq; by apply crc_bits_range.
Qed.

Lemma lxor_byte_range c b : 0 ≤ c < 2 ^ 32 → 0 ≤ Z.lxor c (b2z b) < 2 ^ 32.
Proof. intros. apply lxor_range; [lia|done|]. pose proof (b2z_range b). lia. Qed.

Lemma crc_byte_inj_state c1 c2 b :
  0 ≤ c1 < 2 ^ 32 → 0 ≤ c2 < 2 ^ 32 → crc_byte c1 b = crc_byte c2 b → c1 = c2.
Proof.
  intros H1 H2 Heq%crc_bits_inj; [|by apply lxor_byte_range..].
  by apply lxor_inj_l in Heq.
Qed.

Lemma crc_byte_inj_byte c b1 b2 :
  0 ≤ c < 2 ^ 32 → crc_byte c b1 = crc_byte c b2 → b1 = b2.
Proof.
  intros H Heq%crc_bits_inj; [|by apply lxor_byte_range..].
  rewrite !(Z.lxor_comm c) in Heq. by apply lxor_inj_l, (inj b2z) in Heq.
Qed.

Lemma crc_fold_inj data c1 c2 :
  0 ≤ c1 < 2 ^ 32 → 0 ≤ c2 < 2 ^ 32 →
  fold_left crc_byte data c1 = fold_left crc_byte data c2 → c1 = c2.
Proof.
  revert c1 c2. induction data as [|b data IH]; simpl; intros c1 c2 H1 H2 Heq; [done|].
  eapply crc_byte_inj_state; [done..|]. apply IH; [by apply crc_byte_range..|done].
Qed.

(** ** Bursts: the register is linear, so any change confined to at most
    four consecutive bytes changes the checksum. *)

Lemma crc_bit_lxor a b : crc_bit (Z.lxor a b) = Z.lxor (crc_bit a) (crc_bit b).
Proof.
  unfold crc_bit. rewrite <- !Z.bit0_odd, Z.lxor_spec.
  assert (Z.lxor a b / 2 = Z.lxor (a / 2) (b / 2)) as ->.
  { change 2 with (2 ^ 1). rewrite <- !Z.shiftr_div_pow2 by lia. apply Z.shiftr_lxor. }
  destruct (Z.testbit a 0), (Z.testbit b 0); simpl xorb; apply Z.bits_inj; intros i;
    rewrite !Z.lxor_spec; destruct (Z.testbit (a / 2) i), (Z.testbit (b / 2) i),
    (Z.testbit crc_poly i); done.
Qed.

Lemma crc_bits_lxor n a b : crc_bits n (Z.lxor a b) = Z.lxor (crc_bits n a) (crc_bits n b).
Proof. unfold crc_bits. induction n as [|n IH]; simpl; [done|]. by rewrite IH, crc_bit_lxor. Qed.

Lemma crc_bits_add n m c : crc_bits (n + m) c = crc_bits n (crc_bits m c).
Proof. apply Nat.iter_add. Qed.

Lemma crc_bits_shift n x : crc_bits n (2 ^ Z.of_nat n * x) = x.
Proof.
  revert x. induction n as [|n IH]; intros x; [simpl; lia|].
  replace (S n) with (n + 1)%nat by lia. rewrite crc_bits_add. simpl.
  replace (2 ^ Z.of_nat (n + 1) * x) with (2 ^ Z.of_nat n * x * 2)
    by (rewrite Nat2Z.inj_add, Z.pow_add_r by lia; lia).
  unfold crc_bit. rewrite Z.odd_mul, Bool.andb_false_r, Z.div_mul by lia. apply IH.
Qed.

Lemma byte_word_lxor b x : b2z b + 256 * x = Z.lxor (b2z b) (256 * x).
Proof.
  pose proof (b2z_range b). apply Z.add_nocarry_lxor, Z.bits_inj. intros i.
  rewrite Z.land_spec, Z.bits_0. destruct (Z.lt_ge_cases i 8) as [Hi|Hi].
  - change 256 with (2 ^ 8). rewrite (Z.mul_comm _ x), Z.mul_pow2_bits_low by done.
    apply Bool.andb_false_r.
  - destruct (Z.eq_dec (b2z b) 0) as [->|]; [by rewrite Z.bits_0|].
    rewrite (Z.bits_above_log2 (b2z b)); [done|lia|].
    enough (Z.log2 (b2z b) < 8) by lia. apply Z.log2_lt_pow2; lia.
Qed.

Lemma crc_fold_word w c :
  fold_left crc_byte w c = crc_bits (8 * length w) (Z.lxor c (le_int w)).
Proof.
  revert c. induction w as [|b w IH]; intros c; cbn [fold_left le_int length].
  - rewrite Z.lxor_0_r. done.
  - rewrite IH, byte_word_lxor, <- Z.lxor_assoc.
    replace (8 * S (length w))%nat with (8 * length w + 8)%nat by lia.
    rewrite crc_bits_add. f_equal. rewrite (crc_bits_lxor 8 (Z.lxor c (b2z b))).
    unfold crc_byte. f_equal. symmetry. apply (crc_bits_shift 8).
Qed.

Lemma crc_mask_range : 0 ≤ crc_mask < 2 ^ 32.
Proof. unfold crc_mask. lia. Qed.

Lemma crc32_value_inj d v1 v2 :
  0 ≤ v1 < 2 ^ 32 → 0 ≤ v2 < 2 ^ 32 → crc32 d v1 = crc32 d v2 → v1 = v2.
Proof.
  intros H1 H2 Heq. apply lxor_inj_l, crc_fold_inj, lxor_inj_l in Heq; [done|..];
    (apply lxor_range; [lia|done|apply crc_mask_range]).
Qed.

Lemma le_int_word_range w : (length w ≤ 4)%nat → 0 ≤ le_int w < 2 ^ 32.
Proof.
  intros Hw. pose proof (le_int_range w).
  pose proof (Z.pow_le_mono_r 256 (Z.of_nat (length w)) 4 ltac:(lia) ltac:(lia)). lia.
Qed.

Lemma crc32_word_inj w1 w2 v :
  0 ≤ v < 2 ^ 32 → length w1 = length w2 → (length w1 ≤ 4)%nat →
  crc32 w1 v = crc32 w2 v → w1 = w2.
Proof.
  intros Hv Hl H4 Heq. apply lxor_inj_l in Heq. rewrite !crc_fold_word, Hl in Heq.
  apply crc_bits_inj in Heq; [|apply lxor_range; [lia| |];
    [apply lxor_range; [lia|done|apply crc_mask_range]|apply le_int_word_range; lia]..].
  rewrite !(Z.lxor_comm (Z.lxor v _)) in Heq. apply lxor_inj_l in Heq.
  by rewrite <- (le_bytes_int w1), <- (le_bytes_int w2), Hl, Heq.
Qed.

Lemma crc32_burst_neq d1 w1 w2 d2 v :
  0 ≤ v < 2 ^ 32 → length w1 = length w2 → (length w1 ≤ 4)%nat → w1 ≠ w2 →
  crc32 (d1 ++ w1 ++ d2) v ≠ crc32 (d1 ++ w2 ++ d2) v.
Proof.
  intros Hv Hl H4 Hne Heq. apply Hne. rewrite !crc32_app in Heq.
  apply crc32_value_inj in Heq; [|by repeat apply crc32_range..].
  by apply crc32_word_inj in Heq; [|apply crc32_range|..].
Qed.

Create HintDb bytes.
#[export] Hint Resolve b2z_range crc32_range crc_fold_range le_int_range : bytes.
