(* ===== verification/File.v ===== *)
(** The operating system as the storage code sees it: regular files written
    and read by positioned system calls that may transfer fewer bytes than
    asked, or fail.  Loops of the modelled code run over this interface. *)
From S2P Require Import Prelude Bytes.
From stdpp Require Import base list.
From Stdlib Require Import Lia.
#[local] Open Scope nat_scope.

(** A file is its bytes; holes read as zero. *)
Abbreviation file := (list byte).

Definition zeros (n : nat) : list byte := replicate n Byte.x00.

(** Bytes [data] placed at offset [off]; writing past the end fills the gap
    with zeros, writing no byte leaves the file alone. *)
Definition file_write (f : file) (off : nat) (data : list byte) : file :=
  match data with
  | [] => f
  | _ => take off (f ++ zeros (off - length f)) ++ data ++ drop (off + length data) f
  end.

(** Up to [n] bytes from offset [off]; short at the end of the file. *)
Definition file_read (f : file) (off n : nat) : list byte := take n (drop off f).

(** What the kernel does with one call: transfer at most [n] bytes, or fail. *)
Inductive sys := Xfer (n : nat) | Fail.

(** When the schedule is used up, calls complete in full. *)
(** Bytes a call moves out of [want]; [None] is an [OSError]. *)
Definition xfer (k : list sys) (want : nat) : option nat * list sys :=
  match k with
  | [] => (Some want, [])
  | Xfer n :: k => (Some (n `min` want), k)
  | Fail :: k => (None, k)
  end.

Section file_lemmas.
Implicit Types (f : file) (d : list byte).

Lemma zeros_length n : length (zeros n) = n.
Proof. apply length_replicate. Qed.

Lemma file_write_lookup f off d i :
  d ≠ [] →
  file_write f off d !! i =
    if decide (i < off) then (if decide (i < length f) then f !! i else Some Byte.x00)
    else if decide (i < off + length d) then d !! (i - off) else f !! i.
Proof.
  intros Hd. unfold file_write. destruct d as [|b d']; [done|].
  set (d := b :: d') in *.
  assert (length (take off (f ++ zeros (off - length f))) = off) as Hl
    by (rewrite length_take, length_app, zeros_length; lia).
  case_decide as H1.
  - rewrite lookup_app_l by lia. rewrite lookup_take_lt by lia. case_decide as H2.
    + by rewrite lookup_app_l.
    + rewrite lookup_app_r by lia. apply lookup_replicate_2. lia.
  - rewrite lookup_app_r, Hl by lia. case_decide as H2.
    + by rewrite lookup_app_l by lia.
    + rewrite lookup_app_r, lookup_drop by lia. f_equal. lia.
Qed.

Lemma file_write_app f off d1 d2 :
  file_write (file_write f off d1) (off + length d1) d2 = file_write f off (d1 ++ d2).
Proof.
  destruct (decide (d1 = [])) as [->|H1]; [by rewrite Nat.add_0_r|].
  destruct (decide (d2 = [])) as [->|H2]; [by rewrite app_nil_r|].
  assert (d1 ++ d2 ≠ []) by (destruct d1; naive_solver).
  assert (0 < length d1) by (destruct d1; simpl; [done|lia]).
  assert (0 < length d2) by (destruct d2; simpl; [done|lia]).
  apply list_eq. intros i. rewrite !file_write_lookup by done. rewrite length_app.
  assert (length (file_write f off d1) = max (length f) (off + length d1)) as Hlen.
  { unfold file_write. destruct d1; [done|].
    rewrite !length_app, length_take, length_app, length_drop, zeros_length. lia. }
  rewrite Hlen. repeat case_decide; try lia; try done.
  - by rewrite lookup_app_l by lia.
  - rewrite lookup_app_r by lia. f_equal. lia.
Qed.

Lemma file_write_length f off d :
  d ≠ [] → length (file_write f off d) = max (length f) (off + length d).
Proof.
  intros Hd. unfold file_write. destruct d; [done|].
  rewrite !length_app, length_take, length_app, length_drop, zeros_length. lia.
Qed.

(** A read inside what was written returns it. *)
Lemma file_read_write f off d i n :
  i + n ≤ length d → file_read (file_write f off d) (off + i) n = take n (drop i d).
Proof.
  intros Hi. destruct (decide (n = 0)) as [->|]; [done|].
  assert (d ≠ []) by (destruct d; simpl in *; [lia|done]).
  apply list_eq. intros j. unfold file_read.
  destruct (decide (j < n)).
  - rewrite !lookup_take_lt, !lookup_drop by done.
    rewrite file_write_lookup by done. rewrite decide_False by lia.
    rewrite decide_True by lia. f_equal. lia.
  - rewrite !lookup_take_ge by lia. done.
Qed.

Lemma file_read_here f off d n :
  n ≤ length d → file_read (file_write f off d) off n = take n d.
Proof.
  intros H. pose proof (file_read_write f off d 0 n H) as E. by rewrite Nat.add_0_r in E.
Qed.

(** A read of existing bytes that the write does not touch is unchanged. *)
Lemma file_read_write_other f off d i n :
  i + n ≤ length f → i + n ≤ off ∨ off + length d ≤ i →
  file_read (file_write f off d) i n = file_read f i n.
Proof.
  intros Hf Hd. destruct (decide (d = [])) as [->|]; [done|].
  apply list_eq. intros j. unfold file_read.
  destruct (decide (j < n)).
  - rewrite !lookup_take_lt, !lookup_drop by done. rewrite file_write_lookup by done.
    repeat case_decide; try lia; done.
  - rewrite !lookup_take_ge by lia. done.
Qed.

Lemma file_read_length f off n : length (file_read f off n) = min n (length f - off).
Proof. unfold file_read. rewrite length_take, length_drop. done. Qed.

Lemma file_read_app f off n m :
  file_read f off n ++ file_read f (off + n) m = file_read f off (n + m).
Proof.
  unfold file_read. rewrite <- drop_drop. apply take_take_drop.
Qed.
End file_lemmas.

Create HintDb file.
Create Rewrite HintDb file.
#[export] Hint Rewrite zeros_length file_read_length @length_app @length_take @length_drop : file.
