(* ===== verification/SlabHeader.v ===== *)
(** The 128-byte slot header of the slab store: [_SLAB_HDR], [_crc],
    [SlabIO.header] and [SlabIO.parse_header] of
    src/runtime/vllm029/overlay/vllm/v1/kv_offload/tiering/multinode.py. *)
From S2P Require Import Prelude Bytes File.
From stdpp Require Import base list.
From Stdlib Require Import ZArith Lia.
#[local] Open Scope Z_scope.

(** An [OffloadKey]: 32 bytes of block hash and 4 bytes of group index. *)
Abbreviation OffloadKey := (list byte).

(** * Constants *)

(** [b"GLMSLAB1"] *)
Definition SLAB_MAGIC : list byte := z2b <$> [71; 76; 77; 83; 76; 65; 66; 49].
Definition SLAB_HEADER_BYTES : nat := 128.
Definition SLAB_VERSION : Z := 2.

(** [_crc]: [c = zlib.crc32(b, c)] over the buffers, from 0. *)
Definition _crc (bufs : list (list byte)) : Z :=
  Z.land (fold_left (λ c b, crc32 b c) bufs 0) 0xFFFFFFFF.

(** * [struct.Struct("<8sIIIIQ36sII52x")] *)

(** An unsigned field of [n] bytes; out of range is a [struct.error]. *)
Definition pack_uint (n : nat) (z : Z) : res (list byte) :=
  if (0 <=? z) && (z <? 256 ^ Z.of_nat n) then Ok (le_bytes n z) else Err StructError.

(** [8s] and [36s]: cut or padded with zeros to the width. *)
Definition pack_str (n : nat) (s : list byte) : list byte := take n (s ++ zeros n).

Definition hdr_pack (magic : list byte) (version group epoch length seq : Z)
    (key : list byte) (pcrc hcrc : Z) : res (list byte) :=
  v ← pack_uint 4 version; g ← pack_uint 4 group; e ← pack_uint 4 epoch;
  l ← pack_uint 4 length; s ← pack_uint 8 seq; p ← pack_uint 4 pcrc;
  h ← pack_uint 4 hcrc;
  mret (pack_str 8 magic ++ v ++ g ++ e ++ l ++ s ++ pack_str 36 key ++ p ++ h ++ zeros 52).

(** What [parse_header] returns for a valid header. *)
Record hdr := Hdr {
  h_group : Z; h_epoch : Z; h_length : Z; h_seq : Z; h_key : OffloadKey; h_pcrc : Z }.

#[export] Instance hdr_eq_dec : EqDecision hdr.
Proof. solve_decision. Defined.

Definition fld (off n : nat) (raw : list byte) : list byte := take n (drop off raw).

(** [SlabIO.parse_header(raw)] *)
Definition parse_header (raw : list byte) : res (option hdr) :=
  if bool_decide (length raw < SLAB_HEADER_BYTES)%nat then Ok None else
  let raw := take SLAB_HEADER_BYTES raw in
  let magic := fld 0 8 raw in let version := le_int (fld 8 4 raw) in
  let group := le_int (fld 12 4 raw) in let epoch := le_int (fld 16 4 raw) in
  let len := le_int (fld 20 4 raw) in let seq := le_int (fld 24 8 raw) in
  let key := fld 32 36 raw in let pcrc := le_int (fld 68 4 raw) in
  let hcrc := le_int (fld 72 4 raw) in
  if negb (bool_decide (magic = SLAB_MAGIC)) || negb (version =? SLAB_VERSION) then Ok None else
  base ← hdr_pack magic version group epoch len seq key pcrc 0;
  if negb (_crc [base] =? hcrc) then Ok None
  else Ok (Some (Hdr group epoch len seq key pcrc)).

Section header.
(** [get_offload_group_idx] of [vllm.v1.kv_offload.base]. *)
Context (get_offload_group_idx : OffloadKey → Z).

(** [SlabIO.header(key, length, seq, payload_crc, epoch)]; [ep] is the epoch
    after the [None] default has been resolved. *)
Definition header (key : OffloadKey) (length seq payload_crc ep : Z) : res (list byte) :=
  if negb (bool_decide (List.length key = 36%nat)) then Err AssertionError else
  base ← hdr_pack SLAB_MAGIC SLAB_VERSION (get_offload_group_idx key) ep length seq key
           payload_crc 0;
  hdr_pack SLAB_MAGIC SLAB_VERSION (get_offload_group_idx key) ep length seq key
    payload_crc (_crc [base]).
End header.

(** * Facts about checksums and fields *)

Lemma land_mask32 x : 0 ≤ x < 2 ^ 32 → Z.land x 0xFFFFFFFF = x.
Proof. intros. change 0xFFFFFFFF with (Z.ones 32). rewrite Z.land_ones by lia. by apply Z.mod_small. Qed.

Lemma crc_fold_concat bufs c :
  0 ≤ c < 2 ^ 32 → fold_left (λ c b, crc32 b c) bufs c = crc32 (concat bufs) c.
Proof.
  revert c. induction bufs as [|b bufs IH]; intros c Hc; simpl.
  - unfold crc32. simpl. by rewrite Z.lxor_assoc, Z.lxor_nilpotent, Z.lxor_0_r.
  - rewrite IH by by apply crc32_range. by rewrite crc32_app.
Qed.

Lemma _crc_concat bufs : _crc bufs = crc32 (concat bufs) 0.
Proof.
  unfold _crc. rewrite crc_fold_concat by lia. apply land_mask32, crc32_range. lia.
Qed.

Lemma _crc_range bufs : 0 ≤ _crc bufs < 2 ^ 32.
Proof. rewrite _crc_concat. apply crc32_range. lia. Qed.

Lemma pack_uint_ok n z bs : pack_uint n z = Ok bs → bs = le_bytes n z ∧ 0 ≤ z < 256 ^ Z.of_nat n.
Proof. unfold pack_uint. destruct (_ && _) eqn:E; [|done]. intros [= <-]. split; [done|lia]. Qed.

Lemma pack_uint_in n z : 0 ≤ z < 256 ^ Z.of_nat n → pack_uint n z = Ok (le_bytes n z).
Proof. intros. unfold pack_uint. destruct (Z.leb_spec 0 z), (Z.ltb_spec z (256 ^ Z.of_nat n)); [done|lia..]. Qed.

Lemma pack_str_exact n s : length s = n → pack_str n s = s.
Proof. intros <-. unfold pack_str. by rewrite take_app_length. Qed.

(** The header as a plain concatenation, for values in range. *)
Definition hdr_bytes (magic : list byte) (version group epoch len seq : Z)
    (key : list byte) (pcrc hcrc : Z) : list byte :=
  pack_str 8 magic ++ le_bytes 4 version ++ le_bytes 4 group ++ le_bytes 4 epoch ++
  le_bytes 4 len ++ le_bytes 8 seq ++ pack_str 36 key ++ le_bytes 4 pcrc ++
  le_bytes 4 hcrc ++ zeros 52.

Lemma pack_str_length n s : length (pack_str n s) = n.
Proof. unfold pack_str. rewrite length_take, length_app, zeros_length. lia. Qed.

Lemma hdr_bytes_length m v g e l s k p h : length (hdr_bytes m v g e l s k p h) = 128%nat.
Proof. unfold hdr_bytes. rewrite !length_app, !pack_str_length, !le_bytes_length, zeros_length. lia. Qed.

Definition hdr_in_range (v g e l s p h : Z) : Prop :=
  0 ≤ v < 256 ^ 4 ∧ 0 ≤ g < 256 ^ 4 ∧ 0 ≤ e < 256 ^ 4 ∧ 0 ≤ l < 256 ^ 4 ∧
  0 ≤ s < 256 ^ 8 ∧ 0 ≤ p < 256 ^ 4 ∧ 0 ≤ h < 256 ^ 4.

Lemma hdr_pack_ok m v g e l s k p h bs :
  hdr_pack m v g e l s k p h = Ok bs ↔
    hdr_in_range v g e l s p h ∧ bs = hdr_bytes m v g e l s k p h.
Proof.
  unfold hdr_pack, hdr_in_range. split.
  - intros H. do 7 inv_res H as [-> ?]%pack_uint_ok. injection H as <-. done.
  - intros [(?&?&?&?&?&?&?) ->]. rewrite !pack_uint_in by done. reflexivity.
Qed.

(** Packing fails with [struct.error] only. *)
Lemma hdr_pack_err m v g e l s k p h ex : hdr_pack m v g e l s k p h = Err ex → ex = StructError.
Proof.
  unfold hdr_pack, mbind, res_bind.
  repeat match goal with
  | |- context [pack_uint ?n ?z] => unfold pack_uint at 1; destruct (_ && _); [|by intros [=]]
  end. by intros [=].
Qed.

(** Each field of a packed header is where [unpack] looks for it. *)
Lemma fld_skip off n a b : (length a ≤ off)%nat → fld off n (a ++ b) = fld (off - length a) n b.
Proof. intros. unfold fld. by rewrite drop_app_ge. Qed.

Lemma fld_here n a b : length a = n → fld 0 n (a ++ b) = a.
Proof. intros <-. unfold fld. by rewrite drop_0, take_app_length. Qed.

Ltac solve_fld :=
  repeat (rewrite fld_skip by (rewrite ?pack_str_length, ?le_bytes_length; lia);
    rewrite ?pack_str_length, ?le_bytes_length;
    change (?a - ?b)%nat with (Nat.sub a b); cbn [Nat.sub]);
  rewrite fld_here by (rewrite ?pack_str_length, ?le_bytes_length; done).

Lemma hdr_bytes_fields m v g e l s k p h (b := hdr_bytes m v g e l s k p h) :
  fld 0 8 b = pack_str 8 m ∧ fld 8 4 b = le_bytes 4 v ∧ fld 12 4 b = le_bytes 4 g ∧
  fld 16 4 b = le_bytes 4 e ∧ fld 20 4 b = le_bytes 4 l ∧ fld 24 8 b = le_bytes 8 s ∧
  fld 32 36 b = pack_str 36 k ∧ fld 68 4 b = le_bytes 4 p ∧ fld 72 4 b = le_bytes 4 h.
Proof. subst b. unfold hdr_bytes. repeat split; solve_fld; done. Qed.

Lemma fld_length off n raw : (off + n ≤ length raw)%nat → length (fld off n raw) = n.
Proof. intros. unfold fld. rewrite length_take, length_drop. lia. Qed.

Lemma le_int_fld_range off n raw :
  (off + n ≤ length raw)%nat → 0 ≤ le_int (fld off n raw) < 256 ^ Z.of_nat n.
Proof. intros H. rewrite <- (fld_length off n raw H) at 3. apply le_int_range. Qed.

(** * What [parse_header] accepts *)

Lemma fld_split off n m raw : fld off (n + m) raw = fld off n raw ++ fld (off + n) m raw.
Proof. unfold fld. by rewrite <- drop_drop, take_take_drop. Qed.

Lemma fld_0 n raw : fld 0 n raw = take n raw.
Proof. done. Qed.

Lemma fld_take off n m raw : (off + n ≤ m)%nat → fld off n (take m raw) = fld off n raw.
Proof.
  intros H. unfold fld. rewrite <- take_drop_commute || rewrite skipn_firstn_comm.
  rewrite take_take. f_equal. lia.
Qed.

Lemma le_bytes_fld off n raw :
  (off + n ≤ length raw)%nat → le_bytes n (le_int (fld off n raw)) = fld off n raw.
Proof. intros H. rewrite <- (fld_length off n raw H) at 1. apply le_bytes_int. Qed.

(** The checksummed part: the first 72 bytes, checksum field and padding zero. *)
Definition hdr_base (raw : list byte) : list byte := take 72 raw ++ zeros 56.

Definition hdr_of (raw : list byte) : hdr :=
  Hdr (le_int (fld 12 4 raw)) (le_int (fld 16 4 raw)) (le_int (fld 20 4 raw))
    (le_int (fld 24 8 raw)) (fld 32 36 raw) (le_int (fld 68 4 raw)).

Definition hdr_valid (raw : list byte) : bool :=
  bool_decide (take 8 raw = SLAB_MAGIC) && (le_int (fld 8 4 raw) =? SLAB_VERSION) &&
  (crc32 (hdr_base raw) 0 =? le_int (fld 72 4 raw)).

Lemma hdr_pack_unpacked raw :
  length raw = 128%nat →
  hdr_pack (fld 0 8 raw) (le_int (fld 8 4 raw)) (le_int (fld 12 4 raw)) (le_int (fld 16 4 raw))
    (le_int (fld 20 4 raw)) (le_int (fld 24 8 raw)) (fld 32 36 raw) (le_int (fld 68 4 raw)) 0
  = Ok (hdr_base raw).
Proof.
  intros Hl. apply hdr_pack_ok. split.
  - repeat split; try lia; apply le_int_fld_range; rewrite Hl; lia.
  - unfold hdr_bytes, hdr_base. rewrite !le_bytes_fld by (rewrite Hl; lia).
    rewrite !pack_str_exact by (apply fld_length; rewrite Hl; lia).
    change (le_bytes 4 0) with (zeros 4). rewrite <- fld_0.
    change 72%nat with (8 + (4 + (4 + (4 + (4 + (8 + (36 + 4)))))))%nat.
    rewrite !fld_split, <- !(assoc_L (++)). reflexivity.
Qed.

(** [parse_header] never raises, and this is what it accepts. *)
Lemma parse_header_spec raw :
  parse_header raw =
    Ok (if bool_decide (SLAB_HEADER_BYTES ≤ length raw)%nat && hdr_valid raw
        then Some (hdr_of raw) else None).
Proof.
  unfold parse_header. case_bool_decide as Hs; [by rewrite bool_decide_eq_false_2 by lia|].
  rewrite (bool_decide_eq_true_2 (SLAB_HEADER_BYTES ≤ length raw)%nat) by lia. unfold SLAB_HEADER_BYTES in *.
  set (r := take 128 raw). assert (length r = 128%nat) as Hr
    by (unfold r; rewrite length_take; lia).
  assert (∀ off n, (off + n ≤ 128)%nat → fld off n r = fld off n raw) as Hf
    by (intros; by apply fld_take).
  assert (hdr_base r = hdr_base raw) as Hb.
  { unfold hdr_base, r. by rewrite take_take. }
  assert (hdr_pack (fld 0 8 raw) (le_int (fld 8 4 raw)) (le_int (fld 12 4 raw))
    (le_int (fld 16 4 raw)) (le_int (fld 20 4 raw)) (le_int (fld 24 8 raw)) (fld 32 36 raw)
    (le_int (fld 68 4 raw)) 0 = Ok (hdr_base raw)) as Hp.
  { rewrite <- Hb, <- hdr_pack_unpacked by done. by rewrite !Hf by lia. }
  cbv zeta. rewrite !Hf by lia. rewrite Hp. unfold hdr_valid. rewrite <- (fld_0 8 raw).
  case_bool_decide; simpl; [|done]. destruct (_ =? SLAB_VERSION); simpl; [|done].
  unfold mbind, res_bind. rewrite _crc_concat. simpl. rewrite app_nil_r.
  by destruct (crc32 _ _ =? _).
Qed.

Lemma parse_header_total raw : ∃ o, parse_header raw = Ok o.
Proof. rewrite parse_header_spec. eauto. Qed.

Lemma parse_header_Some raw h :
  parse_header raw = Ok (Some h) ↔
    (SLAB_HEADER_BYTES ≤ length raw)%nat ∧ hdr_valid raw = true ∧ h = hdr_of raw.
Proof.
  rewrite parse_header_spec. case_bool_decide; destruct (hdr_valid raw); naive_solver.
Qed.

(** ** Headers the writer produces *)

Lemma hdr_base_bytes m v g e l s k p h :
  hdr_base (hdr_bytes m v g e l s k p h) = hdr_bytes m v g e l s k p 0.
Proof.
  unfold hdr_base, hdr_bytes. rewrite !(assoc_L (++)).
  rewrite take_app_le, take_app_length'
    by (rewrite ?length_app, ?pack_str_length, ?le_bytes_length; lia).
  by rewrite <- (assoc_L (++) _ (le_bytes 4 0) (zeros 52)).
Qed.
Section header_facts.
Context (get_offload_group_idx : OffloadKey → Z).
Local Abbreviation header := (header get_offload_group_idx).

Lemma header_ok key len seq pcrc ep raw :
  header key len seq pcrc ep = Ok raw →
  length key = 36%nat ∧
  (∃ hcrc, hdr_in_range SLAB_VERSION (get_offload_group_idx key) ep len seq pcrc hcrc ∧
    raw = hdr_bytes SLAB_MAGIC SLAB_VERSION (get_offload_group_idx key) ep len seq key pcrc hcrc ∧
    hcrc = crc32 (hdr_base raw) 0).
Proof.
  unfold header. case_bool_decide as Hk; [|done]. simpl. intros H.
  inv_res H as [? ->]%hdr_pack_ok. apply hdr_pack_ok in H as [Hr ->].
  split; [done|]. eexists; split; [exact Hr|]. split; [done|].
  rewrite _crc_concat. simpl. rewrite app_nil_r. f_equal.
  symmetry. apply hdr_base_bytes.
Qed.

Lemma header_length key len seq pcrc ep raw :
  header key len seq pcrc ep = Ok raw → length raw = 128%nat.
Proof. intros (_ & h & _ & -> & _)%header_ok. apply hdr_bytes_length. Qed.

Lemma header_valid key len seq pcrc ep raw rest :
  header key len seq pcrc ep = Ok raw →
  hdr_valid (raw ++ rest) = true ∧
  hdr_of (raw ++ rest) = Hdr (get_offload_group_idx key) ep len seq key pcrc.
Proof.
  intros H. pose proof (header_length _ _ _ _ _ _ H) as Hl.
  apply header_ok in H as (Hk & h & Hr & Hraw & Hh).
  destruct Hr as (?&?&?&?&?&?&?).
  assert (∀ off n, (off + n ≤ 128)%nat → fld off n (raw ++ rest) = fld off n raw) as Hf.
  { intros off n Hn. rewrite <- (fld_take off n 128 (raw ++ rest)) by done.
    by rewrite take_app_length' by done. }
  pose proof (hdr_bytes_fields SLAB_MAGIC SLAB_VERSION (get_offload_group_idx key) ep len seq
    key pcrc h) as (F0&F1&F2&F3&F4&F5&F6&F7&F8).
  rewrite <- Hraw in *. unfold hdr_valid, hdr_of.
  rewrite <- (fld_0 8), !Hf, F0, F1, F2, F3, F4, F5, F6, F7, F8, !le_int_bytes by (done || lia).
  rewrite !pack_str_exact by done.
  assert (hdr_base (raw ++ rest) = hdr_base raw) as ->.
  { unfold hdr_base. by rewrite take_app_le by lia. }
  rewrite <- Hh, !Z.eqb_refl. split; [|done]. by rewrite bool_decide_eq_true_2 by done.
Qed.
End header_facts.

(** ** Rejection *)

Lemma parse_header_bad_magic raw : take 8 raw ≠ SLAB_MAGIC → parse_header raw = Ok None.
Proof.
  intros H. rewrite parse_header_spec. unfold hdr_valid.
  rewrite (bool_decide_eq_false_2 (_ = SLAB_MAGIC)) by done. by rewrite Bool.andb_false_r.
Qed.

Lemma parse_header_zeros n raw : (1 ≤ n)%nat → parse_header (zeros n ++ raw) = Ok None.
Proof. intros Hn. apply parse_header_bad_magic. destruct n; [lia|]. simpl. by intros [=]. Qed.
