(* ===== verification/SlabIO.v ===== *)
(** [SlabIO]: slot-level reads and writes of one rank's slab files, over the
    system calls of File.  [fds] of the class are the files of the state, one
    per KV-cache group; the geometry is fixed at construction. *)
From S2P Require Import Prelude Bytes File SlabHeader.
From stdpp Require Import base list list_numbers sets.
From Stdlib Require Import ZArith Lia.
#[local] Open Scope Z_scope.

(** The disk of one rank and what the kernel will do next. *)
Record Os := mkOs { files : list file; kern : list sys }.

Definition set_file (g : nat) (f : file) (o : Os) : Os := mkOs (<[g := f]> (files o)) (kern o).

(** [os.pwrite(fds[g], data, off)]: bytes written, or [OSError]. *)
Definition os_pwrite (g : nat) (data : list byte) (off : nat) : M Os nat := λ o,
  match files o !! g with
  | None => (Err IndexError, o)
  | Some f =>
    match xfer (kern o) (length data) with
    | (None, k) => (Err OSError, mkOs (files o) k)
    | (Some n, k) => (Ok n, mkOs (<[g := file_write f off (take n data)]> (files o)) k)
    end
  end.

(** [os.pread(fds[g], n, off)] *)
Definition os_pread (g : nat) (n off : nat) : M Os (list byte) := λ o,
  match files o !! g with
  | None => (Err IndexError, o)
  | Some f =>
    match xfer (kern o) (length (file_read f off n)) with
    | (None, k) => (Err OSError, mkOs (files o) k)
    | (Some m, k) => (Ok (take m (file_read f off n)), mkOs (files o) k)
    end
  end.

(** [_drain_iov(views, n)] *)
Fixpoint _drain_iov (views : list (list byte)) (n : nat) : list (list byte) :=
  match views with
  | [] => []
  | v :: vs =>
    if bool_decide (length v ≤ n)%nat then _drain_iov vs (n - length v)
    else if bool_decide (0 < n)%nat then drop n v :: vs else v :: vs
  end.

(** [_pwrite_all(fd, data, off)]; [fuel] bounds the calls. *)
Fixpoint pwrite_all_loop (fuel : nat) (g : nat) (view : list byte) (off : nat) : M Os unit :=
  match view with
  | [] => mret tt
  | _ => match fuel with
         | O => raise OutOfFuel
         | S fuel =>
           n ← os_pwrite g view off;
           if bool_decide (n ≤ 0)%nat then raise OSError
           else pwrite_all_loop fuel g (drop n view) (off + n)
         end
  end.

Definition _pwrite_all (g : nat) (data : list byte) (off : nat) : M Os unit :=
  pwrite_all_loop (S (length data)) g data off.

(** The payload loop of [write]: [os.pwritev] until no buffer remains. *)
Fixpoint pwritev_loop (fuel : nat) (g : nat) (remaining : list (list byte)) (pos : nat) : M Os unit :=
  match remaining with
  | [] => mret tt
  | _ => match fuel with
         | O => raise OutOfFuel
         | S fuel =>
           n ← os_pwrite g (concat remaining) pos;
           if bool_decide (n ≤ 0)%nat then raise OSError
           else pwritev_loop fuel g (_drain_iov remaining n) (pos + n)
         end
  end.

(** The payload loop of [read]: [os.preadv] into the buffers, whose bytes are
    returned in order. *)
Fixpoint preadv_loop (fuel : nat) (g : nat) (remaining : list (list byte)) (pos : nat) : M Os (list byte) :=
  match remaining with
  | [] => mret []
  | _ => match fuel with
         | O => raise OutOfFuel
         | S fuel =>
           got ← os_pread g (length (concat remaining)) pos;
           if bool_decide (length got ≤ 0)%nat then raise OSError
           else rest ← preadv_loop fuel g (_drain_iov remaining (length got)) (pos + length got);
                mret (got ++ rest)
         end
  end.

(** The object's fields that do not live on disk. *)
Record SlabIO := mkSlab { slot_bytes : list Z; slot_counts : list Z; io_epoch : Z }.

Section slab.
Context (get_offload_group_idx : OffloadKey → Z).
Context (io : SlabIO).

Definition grp (key : OffloadKey) : nat := Z.to_nat (get_offload_group_idx key).

(** [_off(group, slot)] *)
Definition _off (group : nat) (slot : Z) : res nat :=
  n ← res_of_option IndexError (slot_counts io !! group);
  if negb ((0 <=? slot) && (slot <? n)) then Err AssertionError
  else sb ← res_of_option IndexError (slot_bytes io !! group);
       mret (Z.to_nat (slot * sb)).

Definition total_len (views : list (list byte)) : nat := length (concat views).

(** [write(key, slot, views, seq, epoch)] *)
Definition write (key : OffloadKey) (slot : Z) (views : list (list byte)) (seq : Z)
    (epoch : option Z) : M Os unit :=
  let g := grp key in
  off ← lift (_off g slot);
  let len := total_len views in
  sb ← lift (res_of_option IndexError (slot_bytes io !! g));
  assert_ (Z.of_nat (SLAB_HEADER_BYTES + len) <=? sb) ≫= λ _,
  let payload_crc := _crc views in
  _pwrite_all g (zeros SLAB_HEADER_BYTES) off ≫= λ _,
  pwritev_loop (S len) g views (off + SLAB_HEADER_BYTES) ≫= λ _,
  hdr ← lift (header get_offload_group_idx key (Z.of_nat len) seq payload_crc
                (default (io_epoch io) epoch));
  _pwrite_all g hdr off.

(** [read(key, slot, views, epoch)]: returns the bytes put into [views]. *)
Definition read (key : OffloadKey) (slot : Z) (views : list (list byte))
    (epoch : option Z) : M Os (list byte) :=
  let g := grp key in
  off ← lift (_off g slot);
  raw ← os_pread g SLAB_HEADER_BYTES off;
  hdr ← lift (parse_header raw);
  let expected := total_len views in
  match hdr with
  | None => raise OSError
  | Some h =>
    raise_if (negb (bool_decide (h_key h = key)) || negb (h_length h =? Z.of_nat expected))
      OSError ≫= λ _,
    raise_if (match epoch with Some e => negb (h_epoch h =? e) | None => false end)
      OSError ≫= λ _,
    data ← preadv_loop (S expected) g views (off + SLAB_HEADER_BYTES);
    if negb (_crc [data] =? h_pcrc h) then raise OSError else mret data
  end.

(** [scan(group, epoch)]: slot, sequence number and key of the valid slots of
    the epoch, in slot order; a short header read ends the scan. *)
Fixpoint scan_from (n : nat) (slot : Z) (group : nat) (sb epoch : Z) : M Os (list (Z * Z * OffloadKey)) :=
  match n with
  | O => mret []
  | S n =>
    raw ← os_pread group SLAB_HEADER_BYTES (Z.to_nat (slot * sb));
    if bool_decide (length raw < SLAB_HEADER_BYTES)%nat then mret [] else
    hdr ← lift (parse_header raw);
    rest ← scan_from n (slot + 1) group sb epoch;
    match hdr with
    | Some h => if (h_group h =? Z.of_nat group) && (h_epoch h =? epoch)
                then mret ((slot, h_seq h, h_key h) :: rest) else mret rest
    | None => mret rest
    end
  end.

Definition scan (group : nat) (epoch : Z) : M Os (list (Z * Z * OffloadKey)) :=
  sb ← lift (res_of_option IndexError (slot_bytes io !! group));
  n ← lift (res_of_option IndexError (slot_counts io !! group));
  scan_from (Z.to_nat n) 0 group sb epoch.

(** [max_epoch()] *)
Fixpoint max_epoch_from (n : nat) (slot : Z) (group : nat) (sb : Z) (best : option Z) : M Os (option Z) :=
  match n with
  | O => mret best
  | S n =>
    raw ← os_pread group SLAB_HEADER_BYTES (Z.to_nat (slot * sb));
    if bool_decide (length raw < SLAB_HEADER_BYTES)%nat then mret best else
    hdr ← lift (parse_header raw);
    max_epoch_from n (slot + 1) group sb
      (match hdr with
       | Some h => match best with
                   | Some b => if b <? h_epoch h then Some (h_epoch h) else best
                   | None => Some (h_epoch h)
                   end
       | None => best
       end)
  end.

Fixpoint max_epoch_groups (gs : list nat) (best : option Z) : M Os (option Z) :=
  match gs with
  | [] => mret best
  | g :: gs =>
    sb ← lift (res_of_option IndexError (slot_bytes io !! g));
    n ← lift (res_of_option IndexError (slot_counts io !! g));
    best ← max_epoch_from (Z.to_nat n) 0 g sb best;
    max_epoch_groups gs best
  end.

Definition max_epoch : M Os (option Z) := λ o,
  max_epoch_groups (seq 0 (length (files o))) None o.

(** [wipe()] *)
Definition wipe : M Os unit := modify (λ o, mkOs (replicate (length (files o)) []) (kern o)).

(** [__init__]: open (create) one file per group and cut what a smaller
    budget no longer covers. *)
Definition open_slab (disk : list file) : list file :=
  zip_with (λ '(sb, n) f, take (Z.to_nat (sb * n)) f) (zip (slot_bytes io) (slot_counts io))
    (disk ++ replicate (length (slot_bytes io) - length disk) []).
End slab.

(** * The transfer loops *)

Lemma drain_concat vs n : concat (_drain_iov vs n) = drop n (concat vs).
Proof.
  revert n. induction vs as [|v vs IH]; intros n; simpl; [by rewrite drop_nil|].
  case_bool_decide as H1; [by rewrite IH, drop_app_ge|].
  case_bool_decide as H2; simpl; [by rewrite drop_app_le by lia|].
  by replace n with 0%nat by lia.
Qed.

Lemma drain_all vs n : (length (concat vs) ≤ n)%nat → _drain_iov vs n = [].
Proof.
  revert n. induction vs as [|v vs IH]; intros n; simpl; [done|]. rewrite length_app.
  intros H. rewrite bool_decide_eq_true_2 by lia. apply IH. lia.
Qed.

(** What a write loop may leave behind: a prefix of the data is in the file,
    all of it on success, and the only exception is [OSError]. *)
Definition prefix_written (g : nat) (f : file) (off : nat) (d : list byte) (o : Os)
    (out : res unit * Os) : Prop :=
  ∃ j, (j ≤ length d)%nat ∧
    files out.2 = <[g := file_write f off (take j d)]> (files o) ∧
    (out.1 = Ok tt ∧ j = length d ∨ out.1 = Err OSError) ∧
    (kern o = [] → kern out.2 = []).

Lemma os_pwrite_run g d off o f :
  files o !! g = Some f →
  ∃ r j k, os_pwrite g d off o = (r, mkOs (<[g := file_write f off (take j d)]> (files o)) k) ∧
    (j ≤ length d)%nat ∧ (r = Ok j ∨ r = Err OSError ∧ j = 0%nat) ∧
    (kern o = [] → r = Ok (length d) ∧ k = []).
Proof.
  intros Hf. unfold os_pwrite. rewrite Hf. unfold xfer.
  destruct (kern o) as [|[n|] k] eqn:Ek.
  - exists (Ok (length d)), (length d), []. naive_solver lia.
  - exists (Ok (n `min` length d)%nat), (n `min` length d)%nat, k. split; [done|].
    split; [lia|]. by split; [left|].
  - exists (Err OSError), 0%nat, k. simpl. rewrite list_insert_id by done.
    split; [done|]. split; [lia|]. by split; [right|].
Qed.

Lemma prefix_written_none g f off d o k :
  files o !! g = Some f → (kern o = [] → k = []) →
  prefix_written g f off d o (Err OSError, mkOs (files o) k).
Proof.
  intros Hf Hk. exists 0%nat. simpl. rewrite list_insert_id by done.
  repeat split; auto; lia.
Qed.

Lemma prefix_written_step g f off d o n k out :
  files o !! g = Some f → (n ≤ length d)%nat →
  (kern o = [] → k = []) →
  prefix_written g (file_write f off (take n d)) (off + n) (drop n d)
    (mkOs (<[g := file_write f off (take n d)]> (files o)) k) out →
  prefix_written g f off d o out.
Proof.
  intros Hf Hn Hk (j & Hj & Hfs & Hr & Hk'). simpl in *. rewrite length_drop in *.
  exists (n + j)%nat. split; [lia|]. split.
  - rewrite Hfs, list_insert_insert_eq. f_equal.
    assert (length (take n d) = n) as Hl by (rewrite length_take; lia).
    rewrite <- Hl at 2. rewrite file_write_app. by rewrite take_take_drop.
  - split; [|by auto]. destruct Hr as [[? ->]|]; [left; split; [done|lia]|by right].
Qed.

Lemma pwrite_all_loop_spec fuel g d off o f :
  files o !! g = Some f → (length d ≤ fuel)%nat →
  prefix_written g f off d o (pwrite_all_loop fuel g d off o) ∧
  (kern o = [] → (pwrite_all_loop fuel g d off o).1 = Ok tt).
Proof.
  revert d off o f. induction fuel as [|fuel IH]; intros d off o f Hf Hlen.
  { destruct d; [|simpl in Hlen; lia]. simpl. split; [|done]. exists 0%nat. simpl.
    rewrite list_insert_id by done. repeat split; auto. }
  destruct d as [|b d'].
  { split; [|done]. exists 0%nat. simpl. rewrite list_insert_id by done. repeat split; auto. }
  set (d := b :: d') in *. change (pwrite_all_loop (S fuel) g d off) with
    (n ← os_pwrite g d off;
     if bool_decide (n ≤ 0)%nat then raise OSError
     else pwrite_all_loop fuel g (drop n d) (off + n)).
  destruct (os_pwrite_run g d off o f Hf) as (r & n & k & Hrun & Hn & Hr & Hk).
  unfold mbind, M_bind. rewrite Hrun.
  destruct Hr as [->|[-> ->]]; simpl.
  - case_bool_decide as Hz.
    + replace n with 0%nat in * by lia. rewrite take_0. simpl.
      rewrite list_insert_id by done. split.
      * apply prefix_written_none; [done|naive_solver].
      * intros [[=] _]%Hk.
    + assert (Hf1 : <[g:=file_write f off (take n d)]> (files o) !! g
                 = Some (file_write f off (take n d)))
        by (apply list_lookup_insert_eq; by eapply lookup_lt_Some).
      destruct (IH (drop n d) (off + n)%nat
        (mkOs (<[g:=file_write f off (take n d)]> (files o)) k) _ Hf1) as [IH1 IH2].
      { rewrite length_drop. simpl in *. lia. }
      split; [|naive_solver]. eapply prefix_written_step; [done..| |done]. naive_solver.
  - rewrite list_insert_id by done. split; [|by intros [[=] _]%Hk].
    apply prefix_written_none; [done|naive_solver].
Qed.

Lemma pwritev_loop_spec fuel g vs off o f :
  files o !! g = Some f → (length (concat vs) < fuel)%nat →
  prefix_written g f off (concat vs) o (pwritev_loop fuel g vs off o) ∧
  (kern o = [] → vs = [] ∨ concat vs ≠ [] → (pwritev_loop fuel g vs off o).1 = Ok tt).
Proof.
  revert vs off o f. induction fuel as [|fuel IH]; intros vs off o f Hf Hlen; [lia|].
  destruct vs as [|v vs'].
  { split; [|done]. exists 0%nat. simpl. rewrite list_insert_id by done. repeat split; auto. }
  set (vs := v :: vs') in *. change (pwritev_loop (S fuel) g vs off) with
    (n ← os_pwrite g (concat vs) off;
     if bool_decide (n ≤ 0)%nat then raise OSError
     else pwritev_loop fuel g (_drain_iov vs n) (off + n)).
  destruct (os_pwrite_run g (concat vs) off o f Hf) as (r & n & k & Hrun & Hn & Hr & Hk).
  unfold mbind, M_bind. rewrite Hrun.
  destruct Hr as [->|[-> ->]]; simpl.
  - case_bool_decide as Hz.
    + replace n with 0%nat in * by lia. rewrite take_0. simpl.
      rewrite list_insert_id by done. split.
      * apply prefix_written_none; [done|naive_solver].
      * intros [[= Hl] _]%Hk [?|Hne]; [done|].
        exfalso. by apply Hne, nil_length_inv.
    + assert (Hf1 : <[g:=file_write f off (take n (concat vs))]> (files o) !! g
                 = Some (file_write f off (take n (concat vs))))
        by (apply list_lookup_insert_eq; by eapply lookup_lt_Some).
      destruct (IH (_drain_iov vs n) (off + n)%nat
        (mkOs (<[g:=file_write f off (take n (concat vs))]> (files o)) k) _ Hf1) as [IH1 IH2].
      { rewrite drain_concat, length_drop. simpl in *. lia. }
      rewrite drain_concat in IH1.
      split; [eapply prefix_written_step; [done..| |done]; naive_solver|].
      intros [[= ->] ->]%Hk _. apply IH2; [done|]. left. by apply drain_all.
  - rewrite list_insert_id by done. split; [|by intros [[=] _]%Hk].
    apply prefix_written_none; [done|naive_solver].
Qed.

Lemma take_min_eq {A} a b (l : list A) :
  (a `min` length l = b `min` length l)%nat → take a l = take b l.
Proof.
  intros H. destruct (decide (a < length l)%nat).
  - f_equal. lia.
  - by rewrite !take_ge by lia.
Qed.

Lemma os_pread_run g n off o f :
  files o !! g = Some f →
  ∃ r k, os_pread g n off o = (r, mkOs (files o) k) ∧
    (r = Err OSError ∨ ∃ m, (m ≤ n)%nat ∧ r = Ok (file_read f off m)) ∧
    (kern o = [] → r = Ok (file_read f off n) ∧ k = []).
Proof.
  intros Hf. unfold os_pread. rewrite Hf. unfold xfer.
  destruct (kern o) as [|[m|] k] eqn:Ek.
  - exists (Ok (file_read f off n)), []. rewrite take_ge by done.
    split; [done|]. split; [|done]. right. by exists n.
  - exists (Ok (file_read f off (m `min` n))), k. split.
    { do 3 f_equal. unfold file_read. rewrite take_take. apply take_min_eq.
      rewrite length_take. lia. }
    split; [|done]. right. exists (m `min` n)%nat. split; [lia|done].
  - exists (Err OSError), k. split; [done|]. split; [by left|done].
Qed.

Lemma file_read_cut f off n :
  file_read f off n = file_read f off (length (file_read f off n)).
Proof. unfold file_read. apply take_min_eq. rewrite length_take. lia. Qed.

(** What a read loop returns: the bytes asked for, all of them, or
    [OSError]; files are not touched. *)
Lemma preadv_loop_spec fuel g vs off o f :
  files o !! g = Some f → (length (concat vs) < fuel)%nat →
  ∃ r k, preadv_loop fuel g vs off o = (r, mkOs (files o) k) ∧
    (r = Err OSError ∨
     r = Ok (file_read f off (length (concat vs))) ∧
     length (file_read f off (length (concat vs))) = length (concat vs)) ∧
    (kern o = [] → k = [] ∧
     (vs = [] ∨ concat vs ≠ [] ∧ (off + length (concat vs) ≤ length f)%nat →
      r = Ok (file_read f off (length (concat vs))))).
Proof.
  revert vs off o. induction fuel as [|fuel IH]; intros vs off o Hf Hlen; [lia|].
  destruct vs as [|v vs'].
  { exists (Ok []), (kern o). destruct o. unfold file_read. simpl. auto. }
  set (vs := v :: vs') in *. change (preadv_loop (S fuel) g vs off) with
    (got ← os_pread g (length (concat vs)) off;
     if bool_decide (length got ≤ 0)%nat then raise OSError
     else rest ← preadv_loop fuel g (_drain_iov vs (length got)) (off + length got);
          mret (got ++ rest)).
  destruct (os_pread_run g (length (concat vs)) off o f Hf) as (r & k & Hrun & Hr & Hk).
  unfold mbind, M_bind. rewrite Hrun. destruct Hr as [->|(m & Hm & ->)].
  { exists (Err OSError), k. split; [done|]. split; [by left|]. by intros [[=] _]%Hk. }
  case_bool_decide as Hz.
  { exists (Err OSError), k. split; [done|]. split; [by left|].
    intros [[= Hread] ->]%Hk. split; [done|]. intros [?|[Hne Hlf]]; [done|]. rewrite Hread, file_read_length in Hz.
    destruct Hne. apply nil_length_inv. subst vs; simpl in *; lia. }
  set (got := file_read f off m) in *.
  assert (Hgl : (length got ≤ length (concat vs))%nat)
    by (unfold got; rewrite file_read_length; lia).
  assert (Hgot : got = file_read f off (length got)) by apply file_read_cut.
  assert (Hfr : file_read f off (length got) ++
      file_read f (off + length got) (length (concat vs) - length got)
      = file_read f off (length (concat vs))).
  { rewrite file_read_app. f_equal. lia. }
  destruct (IH (_drain_iov vs (length got)) (off + length got)%nat (mkOs (files o) k))
    as (r' & k' & Hrun' & Hr' & Hk'); [done|rewrite drain_concat, length_drop; simpl in *; lia|].
  rewrite drain_concat, length_drop in Hr', Hk'. rewrite Hrun'.
  destruct Hr' as [->|[-> Hl']].
  - exists (Err OSError), k'. split; [done|]. split; [by left|]. intros Hk0.
    apply Hk in Hk0 as [[= Hread] ->]. destruct Hk' as [-> Hk']; [done|]. split; [done|].
    intros [?|[_ Hlf]]; [done|]. exfalso. discriminate Hk'. left. apply drain_all.
    rewrite Hread, file_read_length. unfold vs in *. simpl in *. lia.
  - exists (Ok (file_read f off (length (concat vs)))), k'. rewrite <- Hfr, <- Hgot. split; [done|].
    split; [right; split; [done|rewrite length_app; lia]|].
    intros Hk0. apply Hk in Hk0 as [_ ->]. by destruct Hk' as [-> _].
Qed.

(** * The slot writer *)

Definition blanked (f : file) (off : nat) : file := file_write f off (zeros SLAB_HEADER_BYTES).
Definition with_payload (f : file) (off : nat) (p : list byte) : file :=
  file_write (blanked f off) (off + SLAB_HEADER_BYTES) p.
Definition sealed (f : file) (off : nat) (p hdr : list byte) : file :=
  file_write (with_payload f off p) off hdr.

(** The files a [write] of payload [p] can leave: cut in the blanking, in the
    payload, in the sealing header, or complete. *)
Inductive written (f : file) (off : nat) (p : list byte) (hd : res (list byte)) :
    res unit → file → Prop :=
  | W_blank j : (j ≤ SLAB_HEADER_BYTES)%nat →
      written f off p hd (Err OSError) (file_write f off (take j (zeros SLAB_HEADER_BYTES)))
  | W_payload j : (j ≤ length p)%nat →
      written f off p hd (Err OSError) (with_payload f off (take j p))
  | W_header e : hd = Err e → written f off p hd (Err e) (with_payload f off p)
  | W_seal h j : hd = Ok h → (j ≤ length h)%nat →
      written f off p hd (Err OSError) (sealed f off p (take j h))
  | W_done h : hd = Ok h → written f off p hd (Ok tt) (sealed f off p h).

(** One write loop inside a larger operation. *)
Lemma loop_then {A} (m : M Os unit) (k : M Os A) g f off d o :
  files o !! g = Some f → prefix_written g f off d o (m o) →
  (∃ j kk, (j ≤ length d)%nat ∧ (kern o = [] → kk = []) ∧ m o = (Err OSError, mkOs (<[g := file_write f off (take j d)]> (files o)) kk)) ∨
  (∃ kk, (kern o = [] → kk = []) ∧ m o = (Ok tt, mkOs (<[g := file_write f off d]> (files o)) kk)).
Proof.
  intros Hf (j & Hj & Hfs & Hr & Hk). destruct (m o) as [r [fs kk]]. simpl in *. subst fs.
  destruct Hr as [[-> ->]| ->]; [right|left].
  - exists kk. by rewrite take_ge by done.
  - by exists j, kk.
Qed.

Section slab_facts.
Context (gi : OffloadKey → Z) (io : SlabIO).
Implicit Types (key : OffloadKey) (slot : Z) (views : list (list byte)).

Lemma _off_ok g slot off :
  _off io g slot = Ok off →
  ∃ n sb, slot_counts io !! g = Some n ∧ slot_bytes io !! g = Some sb ∧
          0 ≤ slot < n ∧ off = Z.to_nat (slot * sb).
Proof.
  unfold _off. intros H. inv_res H as Hn. destruct (slot_counts io !! g) as [n|]; [|done].
  injection Hn as <-. destruct ((0 <=? slot) && (slot <? n)) eqn:E; [|done]. simpl in H.
  inv_res H as Hsb. destruct (slot_bytes io !! g) as [sb|]; [|done].
  injection Hsb as <-. injection H as <-. exists n, sb. repeat split; lia.
Qed.

(** Nothing is written unless the slot is in range and the payload fits. *)
Lemma write_guard key slot views seq epoch o r o' :
  write gi io key slot views seq epoch o = (r, o') →
  (∃ e, r = Err e ∧ o' = o ∧ e ≠ OutOfFuel) ∨
  ∃ off f sb, _off io (grp gi key) slot = Ok off ∧ files o !! grp gi key = Some f ∧
    slot_bytes io !! grp gi key = Some sb ∧
    Z.of_nat (SLAB_HEADER_BYTES + total_len views) ≤ sb.
Proof.
  unfold write. cbv zeta. set (g := grp gi key). intros H.
  destruct (_off io g slot) as [off|e] eqn:Eo; last first.
  { left. cbv [lift mbind M_bind] in H. simplify_eq. exists e. repeat split.
    intros ->. revert Eo. unfold _off. destruct (slot_counts io !! g); simpl; [|done].
    destruct (_ && _); simpl; [|done]. by destruct (slot_bytes io !! g). }
  destruct (_off_ok _ _ _ Eo) as (n & sb & Hn & Hsb & _).
  rewrite Hsb in H. cbn [res_of_option] in H. autorewrite with monad in H.
  destruct (Z.leb_spec (Z.of_nat (SLAB_HEADER_BYTES + total_len views)) sb) as [Hle|Hgt];
    autorewrite with monad in H; [|left; simplify_eq; by exists AssertionError].
  destruct (files o !! g) as [f|] eqn:Ef; [right; by exists off, f, sb|left].
  assert (Hw : os_pwrite g (zeros SLAB_HEADER_BYTES) off o = (Err IndexError, o))
    by (unfold os_pwrite; by rewrite Ef).
  unfold _pwrite_all in H. change (zeros SLAB_HEADER_BYTES) with
    (Byte.x00 :: zeros 127) in *. cbn [pwrite_all_loop] in H.
  rewrite (M_bind_err _ _ _ IndexError o) in H by by apply M_bind_err.
  simplify_eq. by exists IndexError.
Qed.

(** The states a started write can stop in, and that it completes when the
    kernel transfers everything. *)
Lemma write_run key slot views seq epoch o off f sb :
  _off io (grp gi key) slot = Ok off → files o !! grp gi key = Some f →
  slot_bytes io !! grp gi key = Some sb →
  Z.of_nat (SLAB_HEADER_BYTES + total_len views) ≤ sb →
  let hd := header gi key (Z.of_nat (total_len views)) seq (_crc views) (default (io_epoch io) epoch) in
  ∃ r f' k, write gi io key slot views seq epoch o = (r, mkOs (<[grp gi key := f']> (files o)) k) ∧
    written f off (concat views) hd r f' ∧
    (kern o = [] → views = [] ∨ concat views ≠ [] →
     k = [] ∧ r = match hd with Ok _ => Ok tt | Err e => Err e end).
Proof.
  intros Hoff Hf Hsb Hle hd. set (g := grp gi key) in *.
  unfold write. cbv zeta. fold g. rewrite Hoff, Hsb. cbn [res_of_option].
  autorewrite with monad. rewrite (proj2 (Z.leb_le _ _) Hle). autorewrite with monad.
  destruct (pwrite_all_loop_spec (S (length (zeros SLAB_HEADER_BYTES))) g
    (zeros SLAB_HEADER_BYTES) off o f Hf ltac:(lia)) as [P1 C1].
  fold (_pwrite_all g (zeros SLAB_HEADER_BYTES) off) in P1, C1.
  unfold mbind at 1, M_bind at 1.
  destruct (loop_then (A:=unit) _ (mret tt) _ _ _ _ _ Hf P1) as [(j & k & Hj & Hk & E)|(k & Hk & E)];
    rewrite E in *.
  { do 3 eexists. split; [done|]. split; [by apply W_blank|]. intros Hk0 _. by discriminate C1. }
  fold (blanked f off). clear P1 C1 E.
  set (o1 := mkOs (<[g:=blanked f off]> (files o)) k).
  assert (Hf1 : files o1 !! g = Some (blanked f off))
    by (apply list_lookup_insert_eq; by eapply lookup_lt_Some).
  destruct (pwritev_loop_spec (S (total_len views)) g views (off + SLAB_HEADER_BYTES) o1 _ Hf1
    ltac:(unfold total_len; lia)) as [P2 C2].
  unfold mbind at 1, M_bind at 1.
  destruct (loop_then (A:=unit) _ (mret tt) _ _ _ _ _ Hf1 P2) as [(j & k2 & Hj & Hk2 & E)|(k2 & Hk2 & E)];
    rewrite E in C2 |- *; change (files o1) with (<[g:=blanked f off]> (files o));
    rewrite list_insert_insert_eq.
  { do 3 eexists. split; [done|]. split; [by apply W_payload|]. intros Hk0 Hv.
    discriminate C2; auto. }
  fold (with_payload f off (concat views)). clear P2 C2 E. fold hd.
  destruct hd as [h|e] eqn:Eh; autorewrite with monad; rewrite ?run_lift_err; last first.
  { do 3 eexists. split; [done|]. split; [by constructor|]. auto. }
  set (o2 := mkOs (<[g:=with_payload f off (concat views)]> (files o)) k2).
  assert (Hf2 : files o2 !! g = Some (with_payload f off (concat views)))
    by (apply list_lookup_insert_eq; by eapply lookup_lt_Some).
  destruct (pwrite_all_loop_spec (S (length h)) g h off o2 _ Hf2 ltac:(lia)) as [P3 C3].
  fold (_pwrite_all g h off) in P3, C3.
  destruct (loop_then (A:=unit) _ (mret tt) _ _ _ _ _ Hf2 P3) as [(j & k3 & Hj & Hk3 & E)|(k3 & Hk3 & E)];
    rewrite E in C3 |- *;
    change (files o2) with (<[g:=with_payload f off (concat views)]> (files o));
    rewrite list_insert_insert_eq.
  - do 3 eexists. split; [done|]. split; [by eapply W_seal|]. intros Hk0 _.
    discriminate C3; auto.
  - do 3 eexists. split; [done|]. split; [by eapply W_done|]. auto.
Qed.
End slab_facts.

(** * Abstract contents of a slot *)

Definition header_at (f : file) (off : nat) : option hdr :=
  let raw := file_read f off SLAB_HEADER_BYTES in
  if bool_decide (SLAB_HEADER_BYTES ≤ length raw)%nat && hdr_valid raw then Some (hdr_of raw)
  else None.

Definition payload_at (f : file) (off : nat) (h : hdr) : list byte :=
  file_read f (off + SLAB_HEADER_BYTES) (Z.to_nat (h_length h)).

Definition seals (h : hdr) (p : list byte) : bool :=
  bool_decide (Z.of_nat (length p) = h_length h) && (crc32 p 0 =? h_pcrc h).

(** The block a slot holds: a valid header and the payload it seals. *)
Definition block_at (f : file) (off : nat) : option (hdr * list byte) :=
  match header_at f off with
  | Some h => if seals h (payload_at f off h) then Some (h, payload_at f off h) else None
  | None => None
  end.

(** The check [read] makes before it serves a block. *)
Definition serves (key : OffloadKey) (len : nat) (epoch : option Z) (h : hdr) : bool :=
  bool_decide (h_key h = key) && (h_length h =? Z.of_nat len) &&
  match epoch with Some e => h_epoch h =? e | None => true end.

Definition read_spec (f : file) (off : nat) (key : OffloadKey) (len : nat) (epoch : option Z) :
    res (list byte) :=
  match block_at f off with
  | Some (h, p) => if serves key len epoch h then Ok p else Err OSError
  | None => Err OSError
  end.

Lemma read_spec_checks f off key len epoch :
  read_spec f off key len epoch =
    match header_at f off with
    | Some h => if serves key len epoch h && seals h (payload_at f off h)
                then Ok (payload_at f off h) else Err OSError
    | None => Err OSError
    end.
Proof.
  unfold read_spec, block_at. destruct (header_at f off) as [h|]; [|done].
  destruct (seals _ _); [by rewrite andb_true_r|by rewrite andb_false_r].
Qed.

Lemma hdr_length_nonneg raw : 0 ≤ h_length (hdr_of raw).
Proof. simpl. pose proof (le_int_range (fld 20 4 raw)). lia. Qed.

Lemma header_run g off o f :
  files o !! g = Some f →
  ∃ r k, (os_pread g SLAB_HEADER_BYTES off ≫= λ raw, lift (parse_header raw)) o
           = (r, mkOs (files o) k) ∧
    (r = Err OSError ∨ r = Ok None ∨ r = Ok (header_at f off)) ∧
    (kern o = [] → k = [] ∧ r = Ok (header_at f off)).
Proof.
  intros Hf.
  destruct (os_pread_run g SLAB_HEADER_BYTES off o f Hf) as (r & k & E & Hr & Hk).
  unfold mbind, M_bind. rewrite E. destruct Hr as [->|(m & Hm & ->)].
  { do 2 eexists. split; [done|]. split; [by left|]. by intros [[=] _]%Hk. }
  do 2 eexists. split; [done|]. rewrite parse_header_spec. unfold header_at. cbv zeta.
  split.
  - case_bool_decide as Hl; [|by right; left]. right; right.
    rewrite file_read_length in Hl. replace m with SLAB_HEADER_BYTES by lia.
    rewrite bool_decide_eq_true_2; [done|]. rewrite file_read_length. lia.
  - intros [[= ->] ->]%Hk. done.
Qed.

Lemma payload_run g views off o f h :
  files o !! g = Some f → h_length h = Z.of_nat (total_len views) →
  ∃ r k, (data ← preadv_loop (S (total_len views)) g views (off + SLAB_HEADER_BYTES);
          if negb (_crc [data] =? h_pcrc h) then raise OSError else mret data) o
           = (r, mkOs (files o) k) ∧
    (r = Err OSError ∨ r = Ok (payload_at f off h) ∧ seals h (payload_at f off h) = true) ∧
    (kern o = [] → views = [] ∨ concat views ≠ [] → k = [] ∧
     r = if seals h (payload_at f off h) then Ok (payload_at f off h) else Err OSError).
Proof.
  intros Hf Hh.
  destruct (preadv_loop_spec (S (total_len views)) g views (off + SLAB_HEADER_BYTES) o f Hf
      ltac:(unfold total_len; lia)) as (r & k & E & Hr & Hk).
  unfold mbind, M_bind. rewrite E. fold (total_len views) in Hr, Hk.
  assert (Hp : file_read f (off + SLAB_HEADER_BYTES) (total_len views) = payload_at f off h)
    by (unfold payload_at; by rewrite Hh, Nat2Z.id).
  rewrite Hp in Hr, Hk. unfold seals. rewrite Hh. destruct Hr as [->|[-> Hlen]].
  - do 2 eexists. split; [done|]. split; [by left|].
    intros [-> Hfull]%Hk Hvs. split; [done|].
    rewrite bool_decide_eq_false_2; [done|]. rewrite <- Hp, file_read_length. intros Hl.
    unfold total_len in *. discriminate Hfull. destruct Hvs as [->|Hvs]; [by left|right].
    split; [done|]. assert (length (concat views) ≠ 0%nat) by by intros ?%nil_length_inv. lia.
  - rewrite _crc_concat. cbn [concat]. rewrite app_nil_r. rewrite Hlen.
    rewrite bool_decide_eq_true_2 by done. cbn [andb].
    destruct (crc32 _ 0 =? h_pcrc h); do 2 eexists; (split; [done|]); (split; [auto|]);
      intros [-> _]%Hk _; done.
Qed.

Section read_facts.
Context (gi : OffloadKey → Z) (io : SlabIO).
Implicit Types (key : OffloadKey) (slot : Z) (views : list (list byte)).

Lemma read_run key slot views epoch o off f :
  _off io (grp gi key) slot = Ok off → files o !! grp gi key = Some f →
  ∃ r k, read gi io key slot views epoch o = (r, mkOs (files o) k) ∧
    (r = Err OSError ∨ r = read_spec f off key (total_len views) epoch) ∧
    (kern o = [] → views = [] ∨ concat views ≠ [] →
     k = [] ∧ r = read_spec f off key (total_len views) epoch).
Proof.
  intros Hoff Hf. set (g := grp gi key) in *.
  destruct (header_run g off o f Hf) as (r0 & k0 & E0 & Hr0 & Hk0).
  assert (Hread : read gi io key slot views epoch o =
    ((hdr ← (raw ← os_pread g SLAB_HEADER_BYTES off; lift (parse_header raw));
     match hdr with
     | None => raise OSError
     | Some h =>
       raise_if (negb (bool_decide (h_key h = key)) || negb (h_length h =? Z.of_nat (total_len views)))
         OSError ≫= λ _,
       raise_if (match epoch with Some e => negb (h_epoch h =? e) | None => false end)
         OSError ≫= λ _,
       data ← preadv_loop (S (total_len views)) g views (off + SLAB_HEADER_BYTES);
       if negb (_crc [data] =? h_pcrc h) then raise OSError else mret data
     end) o)).
  { unfold read. cbv zeta. fold g. rewrite Hoff. autorewrite with monad.
    unfold mbind, M_bind. destruct (os_pread _ _ _ o) as [[raw|e] o1]; [|done].
    by destruct (lift (parse_header raw) o1) as [[]]. }
  rewrite Hread. clear Hread. unfold mbind at 1, M_bind at 1. rewrite E0. rewrite read_spec_checks.
  destruct Hr0 as [->|[->| ->]].
  { do 2 eexists. split; [done|]. split; [by left|]. by intros [_ [=]]%Hk0. }
  { do 2 eexists. split; [done|]. split; [by left|]. by intros [-> [= <-]]%Hk0. }
  destruct (header_at f off) as [h|]; [|do 2 eexists; split; [done|]; split; [by left|]; by intros [-> _]%Hk0].
  unfold serves. destruct (decide (h_key h = key)) as [Hkey|Hkey];
    rewrite_decide;
    cbn [negb orb andb]; autorewrite with monad; last first.
  { do 2 eexists. split; [done|]. split; [by left|]. by intros [-> _]%Hk0. }
  destruct (h_length h =? Z.of_nat (total_len views)) eqn:El; cbn [negb orb andb];
    autorewrite with monad; last first.
  { do 2 eexists. split; [done|]. split; [by left|]. by intros [-> _]%Hk0. }
  destruct (match epoch with Some e => negb (h_epoch h =? e) | None => false end) eqn:Ee;
    autorewrite with monad.
  { do 2 eexists. split; [done|]. split; [by left|]. intros [-> _]%Hk0 _.
    destruct epoch; [|done]. apply negb_true_iff in Ee. by rewrite Ee. }
  assert (match epoch with Some e => h_epoch h =? e | None => true end = true) as ->
    by (destruct epoch; [by apply negb_false_iff|done]).
  destruct (payload_run g views off (mkOs (files o) k0) f h Hf) as (r1 & k1 & E1 & Hr1 & Hk1);
    [by apply Z.eqb_eq|].
  rewrite E1. do 2 eexists. split; [done|]. split.
  - destruct Hr1 as [->|[-> ->]]; [by left|by right].
  - intros [-> _]%Hk0 Hvs. by destruct Hk1 as [-> ->].
Qed.

(** Without a slot in range and an open file, [read] raises and reads nothing. *)
Lemma read_guard key slot views epoch o r o' :
  read gi io key slot views epoch o = (r, o') →
  (∃ e, r = Err e ∧ o' = o ∧ e ≠ OutOfFuel) ∨
  ∃ off f, _off io (grp gi key) slot = Ok off ∧ files o !! grp gi key = Some f.
Proof.
  unfold read. cbv zeta. intros H. destruct (_off io (grp gi key) slot) as [off|e] eqn:Eo.
  - destruct (files o !! grp gi key) as [f|] eqn:Ef; [right; eauto|left].
    autorewrite with monad in H. unfold mbind, M_bind, os_pread in H. rewrite Ef in H.
    simplify_eq. by exists IndexError.
  - left. autorewrite with monad in H. simplify_eq. exists e. split; [done|]. split; [done|].
    intros ->. revert Eo. unfold _off. destruct (slot_counts io !! _); simpl; [|done].
    destruct (_ && _); simpl; [|done]. by destruct (slot_bytes io !! _).
Qed.
End read_facts.

(** * What the writer leaves, read back *)

Lemma file_read_ext f f' i n :
  length (file_read f i n) = n →
  (∀ j b, (i ≤ j < i + n)%nat → f !! j = Some b → f' !! j = Some b) →
  file_read f' i n = file_read f i n.
Proof.
  intros Hl Hb. rewrite file_read_length in Hl. apply list_eq. intros k. unfold file_read.
  destruct (decide (k < n)%nat); [|by rewrite !lookup_take_ge by lia].
  rewrite !lookup_take_lt, !lookup_drop by done.
  destruct (lookup_lt_is_Some_2 f (i + k)) as [b Eb]; [lia|]. rewrite Eb. apply Hb; [lia|done].
Qed.

Lemma file_write_frame f off d i b :
  (i < off ∨ off + length d ≤ i)%nat → f !! i = Some b → file_write f off d !! i = Some b.
Proof.
  intros Hi Hb. destruct d as [|x d]; [done|]. rewrite file_write_lookup by done.
  pose proof (lookup_lt_Some _ _ _ Hb). repeat case_decide; try lia; done.
Qed.

(** Replacing some bytes in the middle of what a read returns. *)
Lemma file_read_splice f off d1 w1 d2 w2 :
  file_read f off (length (d1 ++ w1 ++ d2)) = d1 ++ w1 ++ d2 → length w1 = length w2 →
  file_read (file_write f (off + length d1) w2) off (length (d1 ++ w1 ++ d2)) = d1 ++ w2 ++ d2.
Proof.
  intros Hf Hl. assert (off + length (d1 ++ w1 ++ d2) ≤ length f ∨ length (d1 ++ w1 ++ d2) = 0)%nat as Hb
    by (apply (f_equal length) in Hf; rewrite file_read_length in Hf; lia).
  destruct Hb as [Hb|Hb]; last first.
  { apply nil_length_inv in Hb. destruct d1, w1, d2, w2; simplify_eq/=; done. }
  revert Hf Hb. rewrite !length_app. intros Hf Hb.
  rewrite <- !file_read_app in Hf |- *.
  assert (length (file_read f off (length d1)) = length d1) as L1 by (rewrite file_read_length; lia).
  assert (length (file_read f (off + length d1) (length w1)) = length w1) as L2
    by (rewrite file_read_length; lia).
  apply app_inj_1 in Hf as [H1 Hf]; [|done]. apply app_inj_1 in Hf as [H2 H3]; [|done].
  rewrite (file_read_write_other _ _ _ off) by lia.
  rewrite (file_read_write_other _ _ _ (off + length d1 + length w1)) by lia. rewrite H1, H3. f_equal. f_equal.
  rewrite Hl, file_read_here by done. by apply take_ge.
Qed.

Lemma header_at_zero f off b : f !! off = Some b → b2z b = 0 → header_at f off = None.
Proof.
  intros Hb Hz. unfold header_at. cbv zeta.
  assert (hdr_valid (file_read f off SLAB_HEADER_BYTES) = false) as ->; [|by rewrite andb_false_r].
  unfold hdr_valid. rewrite bool_decide_eq_false_2; [done|]. intros Hm.
  assert (take 8 (file_read f off SLAB_HEADER_BYTES) !! 0%nat = SLAB_MAGIC !! 0%nat) as H0 by by rewrite Hm.
  unfold file_read in H0. rewrite lookup_take_lt, lookup_take_lt, lookup_drop, Nat.add_0_r, Hb in H0
    by (unfold SLAB_HEADER_BYTES; lia).
  assert (Hm0 : SLAB_MAGIC !! 0%nat = Some (z2b 71)) by reflexivity.
  rewrite Hm0 in H0. injection H0 as ->. done.
Qed.

Lemma blanked_length f off :
  length (blanked f off) = Nat.max (length f) (off + SLAB_HEADER_BYTES).
Proof. unfold blanked. by rewrite file_write_length, zeros_length. Qed.

Lemma with_payload_header f off p :
  file_read (with_payload f off p) off SLAB_HEADER_BYTES = zeros SLAB_HEADER_BYTES.
Proof.
  unfold with_payload. rewrite file_read_write_other by (rewrite ?blanked_length; lia).
  unfold blanked. by rewrite file_read_here.
Qed.

Lemma with_payload_length f off p :
  length (with_payload f off p) = Nat.max (length f) (off + SLAB_HEADER_BYTES + length p).
Proof.
  unfold with_payload. destruct p as [|b p]; [simpl; rewrite blanked_length; lia|].
  rewrite file_write_length, blanked_length by done. lia.
Qed.

Lemma sealed_payload f off p h n :
  (length h ≤ SLAB_HEADER_BYTES)%nat → (n ≤ length p)%nat →
  file_read (sealed f off p h) (off + SLAB_HEADER_BYTES) n = take n p.
Proof.
  intros Hh Hn. unfold sealed.
  rewrite file_read_write_other by (rewrite ?with_payload_length; lia).
  unfold with_payload. by rewrite file_read_here.
Qed.

(** A header cut after [j] bytes, over the blanked header. *)
Lemma sealed_header f off p h j :
  length h = SLAB_HEADER_BYTES → (j ≤ SLAB_HEADER_BYTES)%nat →
  file_read (sealed f off p (take j h)) off SLAB_HEADER_BYTES = take j h ++ zeros (SLAB_HEADER_BYTES - j).
Proof.
  intros Hh Hj. destruct (decide (j = 0)%nat) as [->|Hj0].
  { rewrite take_0. simpl app. unfold sealed. simpl. by rewrite with_payload_header. }
  assert (length (take j h) = j) as Hl by (rewrite length_take; lia).
  assert (SLAB_HEADER_BYTES = j + (SLAB_HEADER_BYTES - j))%nat as Hs by lia.
  rewrite Hs at 1. rewrite <- file_read_app. f_equal.
  - unfold sealed. rewrite file_read_here by lia. apply take_ge. lia.
  - unfold sealed. rewrite file_read_write_other; [|rewrite ?with_payload_length, ?length_take; lia..].
    pose proof (with_payload_header f off p) as Hz. rewrite Hs, <- file_read_app in Hz at 1.
    apply (f_equal (drop j)) in Hz. rewrite drop_app_length' in Hz; [|rewrite file_read_length, with_payload_length; lia].
    rewrite Hz. unfold zeros. by rewrite drop_replicate.
Qed.

Lemma header_at_raw f off raw :
  file_read f off SLAB_HEADER_BYTES = raw → length raw = SLAB_HEADER_BYTES →
  header_at f off = if hdr_valid raw then Some (hdr_of raw) else None.
Proof. intros <- Hl. unfold header_at. rewrite_decide. done. Qed.

(** ** A sealing header cut short *)

Section torn.
Context (gi : OffloadKey → Z).

Lemma header_tail key len seq pcrc ep h :
  header gi key len seq pcrc ep = Ok h → drop 76 h = zeros 52.
Proof.
  intros (_ & hcrc & _ & -> & _)%header_ok. unfold hdr_bytes. rewrite !(assoc_L (++)).
  apply drop_app_length'. rewrite !length_app, !pack_str_length, !le_bytes_length. reflexivity.
Qed.

Lemma header_crc_field key len seq pcrc ep h :
  header gi key len seq pcrc ep = Ok h → crc32 (hdr_base h) 0 = le_int (fld 72 4 h).
Proof.
  intros Hh. destruct (header_valid gi _ _ _ _ _ _ [] Hh) as [Hv _].
  rewrite app_nil_r in Hv. unfold hdr_valid in Hv. lia.
Qed.

Definition torn_raw (h : list byte) (j : nat) : list byte :=
  take j h ++ zeros (SLAB_HEADER_BYTES - j).

Lemma torn_raw_length h j :
  length h = SLAB_HEADER_BYTES → (j ≤ SLAB_HEADER_BYTES)%nat →
  length (torn_raw h j) = SLAB_HEADER_BYTES.
Proof. intros. unfold torn_raw. rewrite length_app, length_take, zeros_length. lia. Qed.

Lemma torn_magic h j :
  length h = SLAB_HEADER_BYTES → (j < 8)%nat → hdr_valid (torn_raw h j) = false.
Proof.
  intros Hl Hj. unfold hdr_valid. rewrite bool_decide_eq_false_2; [done|]. intros Hm.
  assert (take 8 (torn_raw h j) !! 7%nat = SLAB_MAGIC !! 7%nat) as H0 by by rewrite Hm.
  unfold torn_raw in H0. rewrite lookup_take_lt in H0 by lia.
  rewrite lookup_app_r in H0 by (rewrite length_take; lia).
  rewrite length_take in H0. unfold zeros in H0. rewrite lookup_replicate_2 in H0
    by (unfold SLAB_HEADER_BYTES in *; lia). discriminate H0.
Qed.

Lemma torn_base h j :
  length h = SLAB_HEADER_BYTES → (j < 72)%nat →
  hdr_base (torn_raw h j) = torn_raw h j ∧ le_int (fld 72 4 (torn_raw h j)) = 0.
Proof.
  intros Hl Hj. unfold SLAB_HEADER_BYTES in *.
  assert (Ht : torn_raw h j = (take j h ++ zeros (72 - j)) ++ zeros 56).
  { unfold torn_raw, zeros. rewrite <- (assoc_L (++)), <- replicate_add. do 2 f_equal.
    unfold SLAB_HEADER_BYTES. lia. }
  assert (length (take j h ++ zeros (72 - j)) = 72%nat) as H72
    by (rewrite length_app, length_take, zeros_length; lia).
  rewrite Ht. split.
  - unfold hdr_base. by rewrite take_app_length'.
  - rewrite fld_skip, H72 by lia. reflexivity.
Qed.

Lemma torn_late key len seq pcrc ep h j :
  header gi key len seq pcrc ep = Ok h → (72 ≤ j ≤ SLAB_HEADER_BYTES)%nat →
  hdr_valid (torn_raw h j) = true → torn_raw h j = h.
Proof.
  intros Hh Hj Hv. pose proof (header_length gi _ _ _ _ _ _ Hh) as Hl.
  pose proof (torn_raw_length h j Hl ltac:(lia)) as Hlr. unfold SLAB_HEADER_BYTES in *.
  assert (take 72 (torn_raw h j) = take 72 h) as H72.
  { unfold torn_raw. rewrite take_app_le by (rewrite length_take; lia).
    rewrite take_take. f_equal. lia. }
  assert (fld 72 4 (torn_raw h j) = fld 72 4 h) as Hf.
  { rewrite <- (le_bytes_fld 72 4 h), <- (le_bytes_fld 72 4 (torn_raw h j)) by lia.
    rewrite <- (header_crc_field _ _ _ _ _ _ Hh). unfold hdr_valid in Hv.
    replace (hdr_base h) with (hdr_base (torn_raw h j)) by (unfold hdr_base; by rewrite H72).
    f_equal. lia. }
  assert (drop 76 (torn_raw h j) = drop 76 h) as Hd.
  { rewrite (header_tail _ _ _ _ _ _ Hh). unfold torn_raw, SLAB_HEADER_BYTES, zeros.
    destruct (decide (j ≤ 76)%nat).
    - rewrite drop_app_ge by (rewrite length_take; lia).
      rewrite drop_replicate, length_take. f_equal. lia.
    - rewrite drop_app_le by (rewrite length_take; lia).
      replace (take j h) with (take (76 + (j - 76)) h) by (f_equal; lia).
      rewrite <- take_drop_commute, (header_tail _ _ _ _ _ _ Hh). unfold zeros. rewrite take_replicate, <- replicate_add.
      f_equal. lia. }
  etrans; [symmetry; apply (take_drop 76)|]. etrans; [|apply (take_drop 76 h)].
  rewrite Hd. f_equal.
  rewrite <- !fld_0. change 76%nat with (72 + 4)%nat. rewrite !fld_split, !fld_0. simpl.
  by rewrite H72, Hf.
Qed.

(** When a cut header can still be accepted: never before the magic is
    complete; from the checksum field on only when the header is the whole
    one; in between only if the checksum of what is there is zero, the value
    the blanked checksum field holds. *)
Lemma torn_valid key len seq pcrc ep h j :
  header gi key len seq pcrc ep = Ok h → (j ≤ SLAB_HEADER_BYTES)%nat →
  hdr_valid (torn_raw h j) = true →
  torn_raw h j = h ∨ (8 ≤ j < 72)%nat ∧ crc32 (torn_raw h j) 0 = 0.
Proof.
  intros Hh Hj Hv. pose proof (header_length gi _ _ _ _ _ _ Hh) as Hl.
  destruct (decide (j < 8)%nat) as [H8|H8]; [by rewrite torn_magic in Hv|].
  destruct (decide (j < 72)%nat) as [H72|H72]; [right|left; eapply torn_late; eauto; lia].
  split; [lia|]. destruct (torn_base h j Hl H72) as [Hb Hz].
  unfold hdr_valid in Hv. rewrite Hb, Hz in Hv. lia.
Qed.
End torn.

(** * What a writer leaves in its slot *)

Section outcomes.
Context (gi : OffloadKey → Z) (io : SlabIO).
Implicit Types (key : OffloadKey) (slot : Z) (views : list (list byte)).

(** The block a completed write puts in its slot. *)
Definition new_block (key : OffloadKey) (seq ep : Z) (p : list byte) : hdr * list byte :=
  (Hdr (gi key) ep (Z.of_nat (length p)) seq key (crc32 p 0), p).

Definition hdr_for key seq ep (p : list byte) : res (list byte) :=
  header gi key (Z.of_nat (length p)) seq (crc32 p 0) ep.

Lemma block_at_sealed f off p key seq ep h :
  hdr_for key seq ep p = Ok h →
  block_at (sealed f off p h) off = Some (new_block key seq ep p).
Proof.
  intros Hh. pose proof (header_length gi _ _ _ _ _ _ Hh) as Hl.
  destruct (header_valid gi _ _ _ _ _ _ [] Hh) as [Hv Ho]. rewrite app_nil_r in Hv, Ho.
  unfold block_at. rewrite (header_at_raw _ _ h), Hv, Ho; [|..|done].
  - assert (payload_at (sealed f off p h) off
      (Hdr (gi key) ep (Z.of_nat (length p)) seq key (crc32 p 0)) = p) as ->.
    { unfold payload_at. simpl h_length. rewrite Nat2Z.id, sealed_payload by (rewrite ?Hl; done).
      by apply take_ge. }
    unfold seals. simpl. rewrite_decide. by rewrite Z.eqb_refl.
  - rewrite <- (take_ge h (length h)) at 1 by done.
    rewrite Hl. pose proof (sealed_header f off p h 128 Hl ltac:(done)) as E.
    rewrite E. simpl. rewrite app_nil_r. apply take_ge. by rewrite Hl.
Qed.

Lemma block_at_with_payload f off p : block_at (with_payload f off p) off = None.
Proof.
  unfold block_at. by rewrite (header_at_raw _ _ _ (with_payload_header f off p)).
Qed.

Lemma block_at_blanking f off j :
  (j ≤ SLAB_HEADER_BYTES)%nat →
  file_write f off (take j (zeros SLAB_HEADER_BYTES)) = f ∨
  block_at (file_write f off (take j (zeros SLAB_HEADER_BYTES))) off = None.
Proof.
  intros Hj. destruct j as [|j]; [by left|right]. unfold block_at.
  rewrite (header_at_zero _ _ Byte.x00); [done| |done].
  rewrite file_write_lookup by done. rewrite decide_False by lia. rewrite decide_True.
  - by rewrite Nat.sub_diag.
  - rewrite length_take, zeros_length. unfold SLAB_HEADER_BYTES in *. lia.
Qed.

(** The slot of a torn write, for each point the writer can stop at. *)
Lemma written_block f off key seq ep p r f' :
  written f off p (hdr_for key seq ep p) r f' →
  match r with
  | Ok _ => block_at f' off = Some (new_block key seq ep p)
  | Err _ =>
    f' = f ∨ block_at f' off = None ∨ block_at f' off = Some (new_block key seq ep p) ∨
    ∃ h j, hdr_for key seq ep p = Ok h ∧ (8 ≤ j < 72)%nat ∧ crc32 (torn_raw h j) 0 = 0 ∧
           f' = sealed f off p (take j h)
  end.
Proof.
  intros Hw. inversion Hw as [j Hj|j Hj|e He|h j Hh Hj|h Hh]; subst.
  - destruct (block_at_blanking f off j Hj) as [->|]; auto.
  - right; left. apply block_at_with_payload.
  - right; left. apply block_at_with_payload.
  - right. pose proof (header_length gi _ _ _ _ _ _ Hh) as Hl. rewrite Hl in Hj.
    pose proof (sealed_header f off p h j Hl Hj) as Hs.
    pose proof (torn_raw_length h j Hl Hj) as Htl. fold (torn_raw h j) in Hs.
    destruct (hdr_valid (torn_raw h j)) eqn:Hv.
    + destruct (torn_valid gi _ _ _ _ _ h j Hh Hj Hv) as [Heq|Hc]; [|naive_solver].
      right; left. rewrite <- (block_at_sealed f off _ _ _ _ _ Hh).
      assert (Hfull : file_read (sealed f off p h) off SLAB_HEADER_BYTES = h).
      { rewrite <- (take_ge h SLAB_HEADER_BYTES) at 1 by (rewrite Hl; done).
        rewrite (sealed_header f off p h SLAB_HEADER_BYTES) by done.
        rewrite Nat.sub_diag, app_nil_r. apply take_ge. by rewrite Hl. }
      unfold block_at. rewrite (header_at_raw _ _ _ Hs), (header_at_raw _ _ _ Hfull), Heq by done.
      destruct (header_valid gi _ _ _ _ _ _ [] Hh) as [Hv' Ho]. rewrite app_nil_r in Hv', Ho.
      rewrite Hv', Ho. unfold payload_at. simpl h_length. rewrite Nat2Z.id.
      by rewrite !sealed_payload by (rewrite ?length_take, ?Hl; unfold SLAB_HEADER_BYTES in *; lia).
    + left. unfold block_at. by rewrite (header_at_raw _ _ _ Hs), Hv by done.
  - by apply block_at_sealed.
Qed.

(** Bytes outside the slot's header and payload survive a write, finished
    or not. *)
Lemma written_frame f off p key seq ep r f' i b :
  written f off p (hdr_for key seq ep p) r f' →
  (i < off ∨ off + SLAB_HEADER_BYTES + length p ≤ i)%nat →
  f !! i = Some b → f' !! i = Some b.
Proof.
  intros Hw Hi Hb.
  assert (Hbl : blanked f off !! i = Some b)
    by (apply file_write_frame; [rewrite zeros_length; lia|done]).
  assert (Hwp : ∀ n, with_payload f off (take n p) !! i = Some b).
  { intros n. apply file_write_frame; [rewrite length_take; lia|done]. }
  pose proof (Hwp (length p)) as Hp. rewrite take_ge in Hp by done.
  inversion Hw as [j Hj|j Hj|e He|h j Hh Hj|h Hh]; subst; try done.
  - apply file_write_frame; [rewrite length_take, zeros_length; lia|done].
  - pose proof (header_length gi _ _ _ _ _ _ Hh) as Hl.
    apply file_write_frame; [rewrite length_take; unfold SLAB_HEADER_BYTES in *; lia|done].
  - pose proof (header_length gi _ _ _ _ _ _ Hh) as Hl.
    apply file_write_frame; [unfold SLAB_HEADER_BYTES in *; lia|done].
Qed.

(** [write_run] with the header the run seals with. *)
Lemma write_outcome key slot views seq epoch o r o' :
  write gi io key slot views seq epoch o = (r, o') →
  (∃ e, r = Err e ∧ o' = o ∧ e ≠ OutOfFuel) ∨
  ∃ off f f' sb, _off io (grp gi key) slot = Ok off ∧ files o !! grp gi key = Some f ∧
    slot_bytes io !! grp gi key = Some sb ∧ Z.of_nat (SLAB_HEADER_BYTES + total_len views) ≤ sb ∧
    files o' = <[grp gi key := f']> (files o) ∧
    written f off (concat views) (hdr_for key seq (default (io_epoch io) epoch) (concat views)) r f'.
Proof.
  intros H. destruct (write_guard gi io _ _ _ _ _ _ _ _ H) as [?|(off&f&sb&Hoff&Hf&Hsb&Hle)]; [by left|right].
  destruct (write_run gi io key slot views seq epoch o off f sb) as (r1&f'&k&E&Hw&_); try done.
  rewrite E in H. simplify_eq. exists off, f, f', sb. rewrite _crc_concat in Hw. done.
Qed.

Lemma hdr_for_not_fuel key seq ep p : hdr_for key seq ep p ≠ Err OutOfFuel.
Proof.
  unfold hdr_for, header. case_bool_decide; [|done]. cbn [negb].
  destruct (hdr_pack _ _ _ _ _ _ _ _ 0) as [base|e] eqn:E0; unfold mbind, res_bind.
  - by intros ?%hdr_pack_err.
  - apply hdr_pack_err in E0 as ->. done.
Qed.

(** A held block is in the file in full. *)
Lemma block_at_bytes f off h p :
  block_at f off = Some (h, p) →
  length (file_read f off SLAB_HEADER_BYTES) = SLAB_HEADER_BYTES ∧
  length p = Z.to_nat (h_length h) ∧ p = payload_at f off h.
Proof.
  unfold block_at. destruct (header_at f off) as [h'|] eqn:Eh; [|done].
  destruct (seals h' _) eqn:Es; [|done]. intros [= <- <-]. unfold header_at in Eh.
  case_bool_decide as Hl; [|done]. rewrite file_read_length in *. split; [lia|].
  unfold seals in Es. apply andb_true_iff in Es as [Es _]. apply bool_decide_eq_true in Es.
  split; [lia|done].
Qed.

Lemma block_at_ext f f' off h p :
  block_at f off = Some (h, p) →
  (∀ i b, (off ≤ i < off + SLAB_HEADER_BYTES + length p)%nat → f !! i = Some b → f' !! i = Some b) →
  block_at f' off = Some (h, p).
Proof.
  intros Hb Hext. destruct (block_at_bytes _ _ _ _ Hb) as (Hhl & Hpl & Hp).
  assert (Hr : file_read f' off SLAB_HEADER_BYTES = file_read f off SLAB_HEADER_BYTES).
  { apply file_read_ext; [done|]. intros j b Hj. apply Hext. lia. }
  rewrite <- Hb. unfold block_at, header_at. rewrite Hr.
  destruct (_ && _) eqn:E; [|done]. cbv zeta.
  assert (h = hdr_of (file_read f off SLAB_HEADER_BYTES)) as <-.
  { unfold block_at, header_at in Hb. rewrite E in Hb. cbv zeta in Hb.
    destruct (seals _ _); [|done]. congruence. }
  assert (payload_at f' off h = payload_at f off h) as ->; [|done].
  unfold payload_at. apply file_read_ext.
  - fold (payload_at f off h). by rewrite <- Hp.
  - intros j b Hj. apply Hext. lia.
Qed.

(** A short burst inside the payload leaves no block. *)
Lemma block_at_corrupt f off d1 w1 d2 w2 p key seq ep h :
  p = d1 ++ w1 ++ d2 → hdr_for key seq ep p = Ok h →
  length w1 = length w2 → (length w1 ≤ 4)%nat → w1 ≠ w2 →
  block_at (file_write (sealed f off p h) (off + SLAB_HEADER_BYTES + length d1) w2) off = None.
Proof.
  intros Hp Hh Hl H4 Hne. pose proof (block_at_sealed f off p key seq ep h Hh) as Hb.
  destruct (block_at_bytes _ _ _ _ Hb) as (Hhl & _ & _).
  set (s := sealed f off p h) in *. set (f2 := file_write s _ w2).
  assert (Hr : file_read f2 off SLAB_HEADER_BYTES = file_read s off SLAB_HEADER_BYTES).
  { apply file_read_ext; [done|]. intros j b Hj. apply file_write_frame. lia. }
  pose proof (header_length gi _ _ _ _ _ _ Hh) as Hhlen.
  assert (Hread : file_read f2 (off + SLAB_HEADER_BYTES) (length p) = d1 ++ w2 ++ d2).
  { assert (Hs : file_read s (off + SLAB_HEADER_BYTES) (length p) = d1 ++ w1 ++ d2).
    { unfold s. rewrite sealed_payload by (rewrite ?Hhlen; done). by rewrite take_ge, <- Hp. }
    assert (Hlp : length p = length (d1 ++ w1 ++ d2)) by by rewrite Hp.
    rewrite Hlp in Hs |- *. by apply (file_read_splice s _ d1 w1 d2 w2). }
  unfold block_at in Hb |- *. unfold header_at in Hb |- *. rewrite Hr.
  destruct (_ && _); [|done]. cbv zeta in *. destruct (seals _ _) eqn:Es in Hb; [|done].
  assert (hdr_of (file_read s off SLAB_HEADER_BYTES) = (new_block key seq ep p).1) as ->
    by (unfold new_block in *; simpl; congruence).
  unfold seals, payload_at. simpl.
  rewrite Nat2Z.id, Hread, Hp. rewrite (proj2 (Z.eqb_neq _ _)); [by rewrite andb_false_r|].
  intros Heq. by eapply (crc32_burst_neq d1 w1 w2 d2 0); [lia|..|symmetry].
Qed.
End outcomes.

(** * Scans *)

(** What [scan] should report of one slot. *)
Definition slot_entry (f : file) (group : nat) (sb epoch slot : Z) : option (Z * Z * OffloadKey) :=
  match header_at f (Z.to_nat (slot * sb)) with
  | Some h => if (h_group h =? Z.of_nat group) && (h_epoch h =? epoch)
              then Some (slot, h_seq h, h_key h) else None
  | None => None
  end.

Definition better (best : option Z) (h : hdr) : option Z :=
  match best with
  | Some b => if b <? h_epoch h then Some (h_epoch h) else best
  | None => Some (h_epoch h)
  end.

(** A header read that comes back short means no slot from here on has one. *)
Lemma short_tail f sb slot s :
  0 ≤ sb → slot ≤ s →
  (length (file_read f (Z.to_nat (slot * sb)) SLAB_HEADER_BYTES) < SLAB_HEADER_BYTES)%nat →
  header_at f (Z.to_nat (s * sb)) = None.
Proof.
  intros Hsb Hs Hl. unfold header_at. rewrite bool_decide_eq_false_2; [done|].
  rewrite !file_read_length in *. assert (Z.to_nat (slot * sb) ≤ Z.to_nat (s * sb))%nat; [|lia].
  assert (slot * sb ≤ s * sb) by nia. lia.
Qed.

Lemma scan_step f fs g off :
  fs !! g = Some f →
  os_pread g SLAB_HEADER_BYTES off (mkOs fs []) =
    (Ok (file_read f off SLAB_HEADER_BYTES), mkOs fs []).
Proof. intros Hf. unfold os_pread. simpl. rewrite Hf. simpl. by rewrite take_ge. Qed.

Lemma header_at_parse f off :
  (SLAB_HEADER_BYTES ≤ length (file_read f off SLAB_HEADER_BYTES))%nat →
  parse_header (file_read f off SLAB_HEADER_BYTES) = Ok (header_at f off).
Proof. intros Hl. rewrite parse_header_spec. unfold header_at. by rewrite_decide. Qed.

Lemma scan_from_spec n slot g sb epoch f fs :
  fs !! g = Some f → 0 ≤ sb →
  scan_from n slot g sb epoch (mkOs fs []) =
    (Ok (omap (slot_entry f g sb epoch) (seqZ slot (Z.of_nat n))), mkOs fs []).
Proof.
  intros Hf Hsb. revert slot. induction n as [|n IH]; intros slot; [done|].
  rewrite seqZ_cons by lia. cbn [scan_from]. rewrite (M_bind_run _ _ _ _ _ (scan_step _ _ _ _ Hf)).
  case_bool_decide as Hl.
  - cbn. unfold mret, M_ret. do 2 f_equal. symmetry.
    assert (∀ s, slot ≤ s → slot_entry f g sb epoch s = None) as Hn.
    { intros s Hs. unfold slot_entry. by rewrite (short_tail f sb slot s). }
    rewrite Hn by lia. generalize (Z.pred (Z.of_nat (S n))). intros m.
    assert (∀ l, Forall (λ s, slot ≤ s) l → omap (slot_entry f g sb epoch) l = []) as Ho.
    { induction 1 as [|s l Hs _ IHl]; [done|]. cbn. by rewrite Hn. }
    apply Ho, Forall_forall. intros s ?%elem_of_seqZ. lia.
  - rewrite header_at_parse by lia. autorewrite with monad.
    rewrite (M_bind_run _ _ _ _ _ (IH (slot + 1))). cbn [omap list_omap].
    replace (Z.pred (Z.of_nat (S n))) with (Z.of_nat n) by lia.
    change (Z.succ slot) with (slot + 1).
    assert (Hse : slot_entry f g sb epoch slot = match header_at f (Z.to_nat (slot * sb)) with
      | Some h => if (h_group h =? Z.of_nat g) && (h_epoch h =? epoch)
                  then Some (slot, h_seq h, h_key h) else None
      | None => None end) by done.
    rewrite Hse. destruct (header_at f _) as [h|]; [|done]. by destruct (_ && _).
Qed.

Lemma max_epoch_from_spec n slot g sb best f fs :
  fs !! g = Some f → 0 ≤ sb →
  max_epoch_from n slot g sb best (mkOs fs []) =
    (Ok (fold_left better (omap (λ s, header_at f (Z.to_nat (s * sb))) (seqZ slot (Z.of_nat n))) best),
     mkOs fs []).
Proof.
  intros Hf Hsb. revert slot best. induction n as [|n IH]; intros slot best; [done|].
  rewrite seqZ_cons by lia. cbn [max_epoch_from]. rewrite (M_bind_run _ _ _ _ _ (scan_step _ _ _ _ Hf)).
  case_bool_decide as Hl.
  - cbn. rewrite (short_tail f sb slot slot) by (done || lia).
    assert (∀ l, Forall (λ s, slot ≤ s) l → omap (λ s, header_at f (Z.to_nat (s * sb))) l = []) as Ho.
    { induction 1 as [|s l Hs _ IHl]; [done|]. cbn. by rewrite (short_tail f sb slot s). }
    rewrite Ho; [done|]. apply Forall_forall. intros s ?%elem_of_seqZ. lia.
  - rewrite header_at_parse by lia. autorewrite with monad. cbn [omap list_omap].
    replace (Z.pred (Z.of_nat (S n))) with (Z.of_nat n) by lia.
    change (Z.succ slot) with (slot + 1).
    destruct (header_at f _) as [h|]; cbn [fold_left]; [|apply IH].
    rewrite <- IH. done.
Qed.

Lemma better_fold hs best :
  match fold_left better hs best with
  | None => best = None ∧ hs = []
  | Some e => (best = Some e ∨ ∃ h, h ∈ hs ∧ h_epoch h = e) ∧
              (∀ b, best = Some b → b ≤ e) ∧ (∀ h, h ∈ hs → h_epoch h ≤ e)
  end.
Proof.
  revert best. induction hs as [|h hs IH]; intros best; simpl.
  { destruct best; [|done]. split; [auto|]. split; [by intros ? [= ->]|]. by intros ? ?%not_elem_of_nil. }
  specialize (IH (better best h)). destruct (fold_left better hs (better best h)) as [e|].
  - destruct IH as (Hin & Hb & Hall).
    assert (h_epoch h ≤ e ∧ ∀ b, best = Some b → b ≤ e) as [Hh Hbest].
    { unfold better in Hb. destruct best as [b|].
      - destruct (Z.ltb_spec b (h_epoch h)); specialize (Hb _ eq_refl); split; try lia;
          intros ? [= <-]; lia.
      - specialize (Hb _ eq_refl). by split. }
    split; [|split; [done|set_solver]].
    destruct Hin as [Hb'|(h' & Hin & He)]; [|right; exists h'; set_solver].
    unfold better in Hb'. destruct best as [b|].
    + destruct (b <? h_epoch h); [|by left]. injection Hb' as <-. right. exists h. set_solver.
    + injection Hb' as <-. right. exists h. set_solver.
  - destruct IH as [Hb _]. unfold better in Hb. destruct best; [|done]. by destruct (_ <? _).
Qed.

(** The valid headers of a group's file, in slot order. *)
Definition slot_headers (io : SlabIO) (fs : list file) (g : nat) : list hdr :=
  match fs !! g, slot_bytes io !! g, slot_counts io !! g with
  | Some f, Some sb, Some n => omap (λ s, header_at f (Z.to_nat (s * sb))) (seqZ 0 n)
  | _, _, _ => []
  end.

(** One file, one slot size and one slot count per group. *)
Definition geometry_ok (io : SlabIO) (fs : list file) : Prop :=
  length (slot_bytes io) = length fs ∧ length (slot_counts io) = length fs ∧
  Forall (λ sb, 0 ≤ sb) (slot_bytes io) ∧ Forall (λ n, 0 ≤ n) (slot_counts io).

Lemma geometry_lookup io fs g :
  geometry_ok io fs → (g < length fs)%nat →
  ∃ f sb n, fs !! g = Some f ∧ slot_bytes io !! g = Some sb ∧ slot_counts io !! g = Some n ∧
            0 ≤ sb ∧ 0 ≤ n.
Proof.
  intros (Hb & Hc & Hsb & Hn) Hg.
  destruct (lookup_lt_is_Some_2 fs g Hg) as [f Hf].
  destruct (lookup_lt_is_Some_2 (slot_bytes io) g) as [sb Esb]; [lia|].
  destruct (lookup_lt_is_Some_2 (slot_counts io) g) as [n En]; [lia|].
  exists f, sb, n. repeat split; try done.
  - eapply (Forall_lookup_1 _ _ _ _ Hsb); done.
  - eapply (Forall_lookup_1 _ _ _ _ Hn); done.
Qed.

Lemma max_epoch_groups_spec io fs gs best :
  geometry_ok io fs → Forall (λ g, (g < length fs)%nat) gs →
  max_epoch_groups io gs best (mkOs fs []) =
    (Ok (fold_left better (gs ≫= slot_headers io fs) best), mkOs fs []).
Proof.
  intros Hgeo Hgs. revert best. induction Hgs as [|g gs Hg _ IH]; intros best; [done|].
  destruct (geometry_lookup io fs g Hgeo Hg) as (f & sb & n & Hf & Esb & En & Hsb & Hn).
  cbn [max_epoch_groups]. rewrite Esb, En. cbn [res_of_option]. autorewrite with monad.
  rewrite (M_bind_run _ _ _ _ _ (max_epoch_from_spec _ _ _ _ _ _ _ Hf Hsb)).
  rewrite IH. do 2 f_equal. cbn [mbind list_bind]. rewrite fold_left_app.
  unfold slot_headers at 3. rewrite Hf, Esb, En. by rewrite Z2Nat.id by done.
Qed.
