(* ===== verification/SlabIOProps.v ===== *)
(** What the slab I/O promises its callers: every block served is the block
    that was written, whatever the kernel cuts short and whenever the writer
    dies; other slots are not disturbed; the scans report exactly the sealed
    slots. *)
From S2P Require Import Prelude Bytes File SlabHeader SlabIO.
From stdpp Require Import base list list_numbers sets.
From Stdlib Require Import ZArith Lia.
#[local] Open Scope Z_scope.

(** A concrete rank for the witnesses: group index in the key's last four
    bytes, two groups of two and three slots. *)
Definition gi0 (key : OffloadKey) : Z := le_int (rev (drop 32 key)).
Definition io0 : SlabIO := mkSlab [160; 144] [2; 3] 7.
Definition key0 (b : Z) (g : Z) : OffloadKey := z2b <$> (replicate 32 b ++ [0; 0; 0; g]).
Definition os0 (k : list sys) : Os := mkOs [[]; []] k.
Definition views0 : list (list byte) := [z2b <$> [1; 2; 3]; z2b <$> [250; 251]].

Section props.
Context (gi : OffloadKey → Z) (io : SlabIO).

(** C10: [SlabIO.write] then [SlabIO.read]: after a completed write, a read of the
    same key, length and epoch returns the bytes written, or raises
    [OSError] when the kernel cuts its reads short or fails them; when the
    kernel transfers what is asked, it returns the bytes. *)
Theorem slab_read_after_write key slot views rviews seq epoch o o1 k :
  write gi io key slot views seq epoch o = (Ok tt, o1) →
  total_len rviews = total_len views →
  ∃ r k', read gi io key slot rviews (Some (default (io_epoch io) epoch)) (mkOs (files o1) k)
            = (r, mkOs (files o1) k') ∧
    (r = Ok (concat views) ∨ r = Err OSError) ∧
    (k = [] → rviews = [] ∨ concat rviews ≠ [] → r = Ok (concat views)).
Proof.
  intros Hw Hlen.
  destruct (write_outcome _ _ _ _ _ _ _ _ _ _ Hw) as [(e&[=]&_)|(off&f&f'&sb&Hoff&Hf&Hsb&Hle&Hfs&Hwr)].
  apply written_block in Hwr.
  assert (Hf' : files o1 !! grp gi key = Some f')
    by (rewrite Hfs; apply list_lookup_insert_eq; by eapply lookup_lt_Some).
  destruct (read_run gi io key slot rviews (Some (default (io_epoch io) epoch))
    (mkOs (files o1) k) off f' Hoff Hf') as (r & k' & E & Hr & Hk).
  assert (Hs : read_spec f' off key (total_len rviews) (Some (default (io_epoch io) epoch))
               = Ok (concat views)).
  { unfold read_spec. rewrite Hwr. unfold new_block, serves. simpl.
    rewrite Hlen. unfold total_len. rewrite_decide. by rewrite !Z.eqb_refl. }
  rewrite Hs in Hr, Hk. exists r, k'. split; [done|]. split; [tauto|]. intros ? ?. by apply Hk.
Qed.


(** C2: A [SlabIO.write] that raises (interrupted at any byte: a failed or
    zero-length transfer, a crash) leaves its slot as it was, or empty for
    every reader, or holding the complete new block (only header padding was
    missing); the one exception is a header cut between byte 8 and byte 71
    whose own CRC happens to be zero. *)
Theorem slab_interrupted_write key slot views seq epoch o e o' :
  write gi io key slot views seq epoch o = (Err e, o') →
  files o' = files o ∨
  ∃ off f', _off io (grp gi key) slot = Ok off ∧ files o' = <[grp gi key := f']> (files o) ∧
    (block_at f' off = None ∨
     block_at f' off = Some (new_block gi key seq (default (io_epoch io) epoch) (concat views)) ∨
     ∃ h j, hdr_for gi key seq (default (io_epoch io) epoch) (concat views) = Ok h ∧
            (8 ≤ j < 72)%nat ∧ crc32 (torn_raw h j) 0 = 0).
Proof.
  intros Hw.
  destruct (write_outcome _ _ _ _ _ _ _ _ _ _ Hw) as [(?&_&->&_)|(off&f&f'&sb&Hoff&Hf&Hsb&Hle&Hfs&Hwr)];
    [by left|].
  apply written_block in Hwr as [->|[Hn|[Hs|(h&j&Hh&Hj&Hc&_)]]].
  - left. by rewrite Hfs, list_insert_id.
  - right. exists off, f'. auto.
  - right. exists off, f'. auto.
  - right. exists off, f'. split; [done|]. split; [done|]. right; right. by exists h, j.
Qed.

(** [SlabIO.write], finished or not, touches its own slot only: the other
    groups' files are unchanged, and in its own file every block held by a
    slot whose bytes do not overlap the written ones is still held. *)
Theorem slab_write_frame key slot views seq epoch o r o' g f off :
  write gi io key slot views seq epoch o = (r, o') →
  files o !! g = Some f →
  (∀ woff, _off io (grp gi key) slot = Ok woff → g = grp gi key →
    (∀ h p, block_at f off = Some (h, p) → (off + SLAB_HEADER_BYTES + length p ≤ woff)%nat) ∨
    (woff + SLAB_HEADER_BYTES + total_len views ≤ off)%nat) →
  ∃ f', files o' !! g = Some f' ∧
    (g ≠ grp gi key → f' = f) ∧
    (∀ h p, block_at f off = Some (h, p) → block_at f' off = Some (h, p)).
Proof.
  intros Hw Hg Hsep.
  destruct (write_outcome _ _ _ _ _ _ _ _ _ _ Hw) as [(?&_&->&_)|(wo&f0&f'&sb&Hoff&Hf&Hsb&Hle&Hfs&Hwr)];
    [by exists f|].
  destruct (decide (g = grp gi key)) as [->|Hne]; last first.
  { exists f. rewrite Hfs, list_lookup_insert_ne by done. auto. }
  assert (f0 = f) as -> by congruence.
  exists f'. split; [rewrite Hfs; apply list_lookup_insert_eq; by eapply lookup_lt_Some|].
  split; [done|]. intros h p Hb.
  destruct (block_at_bytes _ _ _ _ Hb) as (Hhl & Hpl & Hp).
  apply (block_at_ext f); [done|]. intros i b Hi. eapply written_frame; [exact Hwr|].
  fold (total_len views). destruct (Hsep wo Hoff eq_refl) as [Hs|Hs]; [|lia].
  specialize (Hs _ _ Hb). lia.
Qed.

(** C16: [SlabIO.read] serves only what the slot verifiably holds: whatever the
    kernel does, it raises [OSError] or returns what the specification says
    (the payload under a valid header with the key, the length, the epoch of
    the request and a matching CRC, [OSError] otherwise), and it returns
    that when the kernel transfers what is asked; it never writes. *)
Theorem slab_read_refines key slot views epoch o off f :
  _off io (grp gi key) slot = Ok off → files o !! grp gi key = Some f →
  ∃ r k, read gi io key slot views epoch o = (r, mkOs (files o) k) ∧
    (r = Err OSError ∨ r = read_spec f off key (total_len views) epoch) ∧
    (kern o = [] → views = [] ∨ concat views ≠ [] →
     r = read_spec f off key (total_len views) epoch).
Proof.
  intros Hoff Hf. destruct (read_run gi io key slot views epoch o off f Hoff Hf) as (r&k&E&Hr&Hk).
  exists r, k. split; [done|]. split; [done|]. intros ? ?. by apply Hk.
Qed.

(** Bit rot under a valid header is caught: after a completed write, if up
    to four adjacent payload bytes are overwritten by different ones, no
    read of that slot returns data. *)
Theorem slab_burst_detected key slot views rviews seq epoch repoch o o1 d1 w1 d2 w2 off f1 k :
  write gi io key slot views seq epoch o = (Ok tt, o1) →
  concat views = d1 ++ w1 ++ d2 → length w1 = length w2 → (length w1 ≤ 4)%nat → w1 ≠ w2 →
  _off io (grp gi key) slot = Ok off → files o1 !! grp gi key = Some f1 →
  (read gi io key slot rviews repoch
     (mkOs (<[grp gi key := file_write f1 (off + SLAB_HEADER_BYTES + length d1) w2]> (files o1)) k)).1
    = Err OSError.
Proof.
  intros Hw Hd Hl H4 Hne Hoff Hf1.
  destruct (write_outcome _ _ _ _ _ _ _ _ _ _ Hw) as [(e&[=]&_)|(wo&f&f'&sb&Hoff'&Hf&Hsb&Hle&Hfs&Hwr)].
  assert (wo = off) as -> by congruence.
  rewrite Hfs, list_lookup_insert_eq in Hf1 by by eapply lookup_lt_Some. injection Hf1 as ->.
  inversion Hwr as [| | | |h Hh]; subst.
  set (f2 := file_write (sealed f off (concat views) h) (off + SLAB_HEADER_BYTES + length d1) w2).
  destruct (read_run gi io key slot rviews repoch (mkOs (<[grp gi key:=f2]> (files o1)) k) off f2 Hoff)
    as (r & k' & E & Hr & _).
  { apply list_lookup_insert_eq. rewrite Hfs, length_insert. by eapply lookup_lt_Some. }
  rewrite E. simpl. destruct Hr as [->| ->]; [done|]. unfold read_spec, f2.
  by rewrite (block_at_corrupt gi f off d1 w1 d2 w2 _ _ _ _ h) by done.
Qed.

(** [SlabIO.scan] reports exactly the slots of the group whose header is
    valid and of the asked epoch, in slot order: stopping at the first short
    read loses none of them. *)
Theorem slab_scan_complete fs g epoch :
  geometry_ok io fs → (g < length fs)%nat →
  ∃ f sb n, fs !! g = Some f ∧ slot_bytes io !! g = Some sb ∧ slot_counts io !! g = Some n ∧
    scan io g epoch (mkOs fs []) = (Ok (omap (slot_entry f g sb epoch) (seqZ 0 n)), mkOs fs []).
Proof.
  intros Hgeo Hg. destruct (geometry_lookup io fs g Hgeo Hg) as (f & sb & n & Hf & Esb & En & Hsb & Hn).
  exists f, sb, n. repeat split; try done. unfold scan. rewrite Esb, En.
  cbn [res_of_option]. autorewrite with monad. rewrite (scan_from_spec _ _ _ _ _ _ _ Hf Hsb).
  by rewrite Z2Nat.id.
Qed.

(** [SlabIO.max_epoch] is above every epoch any later scan could report:
    it returns [None] exactly when no slot of any group has a valid header,
    and otherwise the largest epoch among them. *)
Theorem slab_max_epoch fs :
  geometry_ok io fs →
  ∃ b, max_epoch io (mkOs fs []) = (Ok b, mkOs fs []) ∧
    (b = None → ∀ g h, h ∉ slot_headers io fs g) ∧
    (∀ e, b = Some e → (∃ g h, h ∈ slot_headers io fs g ∧ h_epoch h = e) ∧
                       ∀ g h, h ∈ slot_headers io fs g → h_epoch h ≤ e).
Proof.
  intros Hgeo. unfold max_epoch. simpl files. eexists. split.
  { apply max_epoch_groups_spec; [done|]. apply Forall_forall. intros g ?%elem_of_seq. lia. }
  set (hs := seq 0 (length fs) ≫= slot_headers io fs).
  assert (Hin : ∀ g h, h ∈ slot_headers io fs g → h ∈ hs).
  { intros g h Hh. apply list_elem_of_bind. exists g. split; [done|]. apply elem_of_seq.
    unfold slot_headers in Hh. destruct (fs !! g) eqn:E; [|set_solver].
    apply lookup_lt_Some in E. lia. }
  pose proof (better_fold hs None) as Hf. destruct (fold_left better hs None) as [e|].
  - destruct Hf as ([[=]|(h & Hh & He)] & _ & Hall). split; [done|]. intros e' [= <-].
    split; [|by eauto]. apply list_elem_of_bind in Hh as (g & Hh & _). eauto.
  - destruct Hf as [_ Hf]. split; [|done]. intros _ g h Hh%Hin. rewrite Hf in Hh. set_solver.
Qed.

(** Neither [write] nor [read] can loop for ever: whatever short or failing
    transfers the kernel makes, the retry loops end within their bound (each
    pass moves at least one byte or raises). *)
Theorem slab_io_terminates key slot views seq epoch o :
  (write gi io key slot views seq epoch o).1 ≠ Err OutOfFuel ∧
  (read gi io key slot views epoch o).1 ≠ Err OutOfFuel.
Proof.
  split.
  - destruct (write gi io key slot views seq epoch o) as [r o'] eqn:E. simpl. intros ->.
    destruct (write_outcome _ _ _ _ _ _ _ _ _ _ E) as [(e&[= <-]&_&He)|(off&f&f'&sb&_&_&_&_&_&Hw)]; [done|].
    inversion Hw as [| |e He| |]; subst; by apply hdr_for_not_fuel in He.
  - destruct (read gi io key slot views epoch o) as [r o'] eqn:E. simpl. intros ->.
    destruct (read_guard gi io _ _ _ _ _ _ _ E) as [(e&[= <-]&_&He)|(off&f&Hoff&Hf)]; [done|].
    destruct (read_run gi io key slot views epoch o off f Hoff Hf) as (r&k&E'&Hr&_).
    rewrite E in E'. injection E' as <- _. destruct Hr as [[=]|Hr]. revert Hr. unfold read_spec.
    destruct (block_at f off) as [[h p]|]; [destruct (serves _ _ _ _)|]; done.
Qed.
End props.

(** * Instances *)

Definition os1 : Os := (write gi0 io0 (key0 9 1) 2 views0 5 None (os0 [])).2.

Lemma slab_read_after_write_witness :
  write gi0 io0 (key0 9 1) 2 views0 5 None (os0 [Xfer 3; Xfer 125; Xfer 2; Xfer 7]) = (Ok tt, os1) ∧
  ∃ r k', read gi0 io0 (key0 9 1) 2 [zeros 5] (Some 7) (mkOs (files os1) [Xfer 128; Xfer 4])
            = (r, mkOs (files os1) k') ∧
    (r = Ok (concat views0) ∨ r = Err OSError) ∧
    ([Xfer 128; Xfer 4] = [] → [zeros 5] = [] ∨ concat [zeros 5] ≠ [] → r = Ok (concat views0)).
Proof.
  split; [vm_compute; reflexivity|].
  apply (slab_read_after_write gi0 io0 (key0 9 1) 2 views0 [zeros 5] 5 None
           (os0 [Xfer 3; Xfer 125; Xfer 2; Xfer 7]) os1 [Xfer 128; Xfer 4]); vm_compute; reflexivity.
Defined.

Definition os_cut : Os :=
  (write gi0 io0 (key0 9 1) 2 views0 6 None (mkOs (files os1) [Xfer 128; Xfer 5; Xfer 70; Fail])).2.

Lemma slab_interrupted_write_witness :
  write gi0 io0 (key0 9 1) 2 views0 6 None (mkOs (files os1) [Xfer 128; Xfer 5; Xfer 70; Fail])
    = (Err OSError, os_cut) ∧
  (files os_cut = files os1 ∨
    ∃ off f', _off io0 (grp gi0 (key0 9 1)) 2 = Ok off ∧
      files os_cut = <[grp gi0 (key0 9 1) := f']> (files os1) ∧
      (block_at f' off = None ∨
       block_at f' off = Some (new_block gi0 (key0 9 1) 6 (default (io_epoch io0) None) (concat views0)) ∨
       ∃ h j, hdr_for gi0 (key0 9 1) 6 (default (io_epoch io0) None) (concat views0) = Ok h ∧
              (8 ≤ j < 72)%nat ∧ crc32 (torn_raw h j) 0 = 0)).
Proof.
  split; [vm_compute; reflexivity|].
  apply (slab_interrupted_write gi0 io0 (key0 9 1) 2 views0 6 None
    (mkOs (files os1) [Xfer 128; Xfer 5; Xfer 70; Fail]) OSError os_cut).
  vm_compute. reflexivity.
Defined.

Definition os_two : res unit * Os :=
  write gi0 io0 (key0 3 1) 1 views0 6 None (mkOs (files os1) [Xfer 128; Fail]).
Definition file1 : file := default [] (files os1 !! 1%nat).

Lemma slab_write_frame_witness :
  os_two = (Err OSError, os_two.2) ∧ files os1 !! 1%nat = Some file1 ∧ block_at file1 288 ≠ None ∧
  ∃ f', files os_two.2 !! 1%nat = Some f' ∧ (1%nat ≠ grp gi0 (key0 3 1) → f' = file1) ∧
    (∀ h p, block_at file1 288 = Some (h, p) → block_at f' 288 = Some (h, p)).
Proof.
  split; [vm_compute; reflexivity|]. split; [vm_compute; reflexivity|].
  split; [vm_compute; discriminate|].
  apply (slab_write_frame gi0 io0 (key0 3 1) 1 views0 6 None (mkOs (files os1) [Xfer 128; Fail])
           (Err OSError) os_two.2 1%nat file1 288%nat); [vm_compute; reflexivity..|].
  intros woff Hw _. right. vm_compute in Hw. injection Hw as <-. vm_compute. lia.
Defined.

Lemma slab_read_refines_witness :
  _off io0 (grp gi0 (key0 9 1)) 2 = Ok 288%nat ∧ files os1 !! grp gi0 (key0 9 1) = Some file1 ∧
  ∃ r k, read gi0 io0 (key0 9 1) 2 [zeros 5] (Some 8) os1 = (r, mkOs (files os1) k) ∧
    (r = Err OSError ∨ r = read_spec file1 288 (key0 9 1) (total_len [zeros 5]) (Some 8)) ∧
    (kern os1 = [] → [zeros 5] = [] ∨ concat [zeros 5] ≠ [] →
     r = read_spec file1 288 (key0 9 1) (total_len [zeros 5]) (Some 8)).
Proof.
  split; [vm_compute; reflexivity|]. split; [vm_compute; reflexivity|].
  apply (slab_read_refines gi0 io0 (key0 9 1) 2 [zeros 5] (Some 8) os1 288%nat file1);
    vm_compute; reflexivity.
Defined.

Lemma slab_burst_detected_witness :
  files os1 !! 1%nat = Some file1 ∧
  (read gi0 io0 (key0 9 1) 2 [zeros 5] None
    (mkOs (<[grp gi0 (key0 9 1) := file_write file1 (288 + SLAB_HEADER_BYTES + length (z2b <$> [1]))
                        (z2b <$> [7; 7])]> (files os1)) [])).1
    = Err OSError.
Proof.
  split; [vm_compute; reflexivity|].
  apply (slab_burst_detected gi0 io0 (key0 9 1) 2 views0 [zeros 5] 5 None None (os0 []) os1
    (z2b <$> [1]) (z2b <$> [2; 3]) (z2b <$> [250; 251]) (z2b <$> [7; 7]) 288%nat file1 []);
    vm_compute; (reflexivity || lia || discriminate).
Defined.

Lemma slab_scan_complete_witness :
  geometry_ok io0 (files os1) ∧ (1 < length (files os1))%nat ∧
  ∃ f sb n, files os1 !! 1%nat = Some f ∧ slot_bytes io0 !! 1%nat = Some sb ∧
    slot_counts io0 !! 1%nat = Some n ∧
    scan io0 1 7 (mkOs (files os1) []) =
      (Ok (omap (slot_entry f 1 sb 7) (seqZ 0 n)), mkOs (files os1) []).
Proof.
  assert (Hg : geometry_ok io0 (files os1)) by (repeat split; try reflexivity; repeat constructor; lia).
  split; [done|]. split; [vm_compute; lia|]. apply (slab_scan_complete io0 (files os1) 1 7 Hg).
  vm_compute. lia.
Defined.

Lemma slab_max_epoch_witness :
  geometry_ok io0 (files os1) ∧
  ∃ b, max_epoch io0 (mkOs (files os1) []) = (Ok b, mkOs (files os1) []) ∧
    (b = None → ∀ g h, h ∉ slot_headers io0 (files os1) g) ∧
    (∀ e, b = Some e → (∃ g h, h ∈ slot_headers io0 (files os1) g ∧ h_epoch h = e) ∧
                       ∀ g h, h ∈ slot_headers io0 (files os1) g → h_epoch h ≤ e).
Proof.
  assert (Hg : geometry_ok io0 (files os1)) by (repeat split; try reflexivity; repeat constructor; lia).
  split; [done|]. apply (slab_max_epoch io0 (files os1) Hg).
Defined.
