(* ===== verification/SlabManager.v ===== *)
(** [SlabOffloadingManager]: the scheduler-side index of the slab store, from
    src/runtime/vllm029/overlay/vllm/v1/kv_offload/tiering/multinode.py.  One
    Definition per method; a method's state is the object and rank 0's disk. *)
From S2P Require Import Prelude PyDict Bytes File SlabHeader SlabIO.
From stdpp Require Import base list list_numbers gmap sets.
From Stdlib Require Import ZArith Lia.
#[local] Open Scope Z_scope.

Definition DRAFTER_PER_TARGET : nat := 4.

(** * State *)

Record Stats := mkStats {
  hits : Z; misses : Z; evictions : Z; stores : Z; load_failures : Z }.

(** The object.  [index] is one LRU dictionary per group (oldest first),
    [free] one queue of slots per group; [io] is [None] until attached. *)
Record Mgr := mkMgr {
  io : option SlabIO;
  counts : list Z;
  index : list (odict OffloadKey Z);
  free : list (list Z);
  inflight_store : gmap OffloadKey Z;
  inflight_load : gmap OffloadKey Z;
  condemned : gmap OffloadKey Z;
  failed_store : gset OffloadKey;
  siblings : gmap OffloadKey (list OffloadKey);
  seq : Z;
  epoch : Z;
  _pending_reset : bool;
  _rebuild : bool;
  stats : Stats }.

Definition set_io x m := mkMgr x (counts m) (index m) (free m) (inflight_store m) (inflight_load m) (condemned m) (failed_store m) (siblings m) (seq m) (epoch m) (_pending_reset m) (_rebuild m) (stats m).
Definition set_counts x m := mkMgr (io m) x (index m) (free m) (inflight_store m) (inflight_load m) (condemned m) (failed_store m) (siblings m) (seq m) (epoch m) (_pending_reset m) (_rebuild m) (stats m).
Definition set_index x m := mkMgr (io m) (counts m) x (free m) (inflight_store m) (inflight_load m) (condemned m) (failed_store m) (siblings m) (seq m) (epoch m) (_pending_reset m) (_rebuild m) (stats m).
Definition set_free x m := mkMgr (io m) (counts m) (index m) x (inflight_store m) (inflight_load m) (condemned m) (failed_store m) (siblings m) (seq m) (epoch m) (_pending_reset m) (_rebuild m) (stats m).
Definition set_inflight_store x m := mkMgr (io m) (counts m) (index m) (free m) x (inflight_load m) (condemned m) (failed_store m) (siblings m) (seq m) (epoch m) (_pending_reset m) (_rebuild m) (stats m).
Definition set_inflight_load x m := mkMgr (io m) (counts m) (index m) (free m) (inflight_store m) x (condemned m) (failed_store m) (siblings m) (seq m) (epoch m) (_pending_reset m) (_rebuild m) (stats m).
Definition set_condemned x m := mkMgr (io m) (counts m) (index m) (free m) (inflight_store m) (inflight_load m) x (failed_store m) (siblings m) (seq m) (epoch m) (_pending_reset m) (_rebuild m) (stats m).
Definition set_failed_store x m := mkMgr (io m) (counts m) (index m) (free m) (inflight_store m) (inflight_load m) (condemned m) x (siblings m) (seq m) (epoch m) (_pending_reset m) (_rebuild m) (stats m).
Definition set_siblings x m := mkMgr (io m) (counts m) (index m) (free m) (inflight_store m) (inflight_load m) (condemned m) (failed_store m) x (seq m) (epoch m) (_pending_reset m) (_rebuild m) (stats m).
Definition set_seq x m := mkMgr (io m) (counts m) (index m) (free m) (inflight_store m) (inflight_load m) (condemned m) (failed_store m) (siblings m) x (epoch m) (_pending_reset m) (_rebuild m) (stats m).
Definition set_epoch x m := mkMgr (io m) (counts m) (index m) (free m) (inflight_store m) (inflight_load m) (condemned m) (failed_store m) (siblings m) (seq m) x (_pending_reset m) (_rebuild m) (stats m).
Definition set_pending_reset x m := mkMgr (io m) (counts m) (index m) (free m) (inflight_store m) (inflight_load m) (condemned m) (failed_store m) (siblings m) (seq m) (epoch m) x (_rebuild m) (stats m).
Definition set_stats x m := mkMgr (io m) (counts m) (index m) (free m) (inflight_store m) (inflight_load m) (condemned m) (failed_store m) (siblings m) (seq m) (epoch m) (_pending_reset m) (_rebuild m) x.

(** [__init__]: nothing attached. *)
Definition new_mgr (rebuild : bool) : Mgr :=
  mkMgr None [] [] [] ∅ ∅ ∅ ∅ ∅ 0 0 false rebuild (mkStats 0 0 0 0 0).

(** Rank 0's directory: the two small files and the slabs. *)
Inductive MetaFile := MetaAbsent | MetaUnreadable | Meta (slot_bytes slot_counts : list Z).
Inductive EpochFile := EpochAbsent | EpochCorrupt | EpochIs (e : Z).
Record Disk := mkDisk { base_found : bool; meta_file : MetaFile; epoch_file : EpochFile; slabs : Os }.

(** The world a method runs in. *)
Record World := mkWorld { mg : Mgr; dk : Disk }.

Inductive LookupResult := MISS | HIT | HIT_PENDING.

(** [SlabLoadStoreSpec] *)
Record SlabSpec := mkSpec { sp_keys : list OffloadKey; sp_slots : list Z; sp_epoch : Z; sp_seq : Z }.

Record PrepareStoreOutput := mkPSO {
  keys_to_store : list OffloadKey; store_spec : SlabSpec; evicted_keys : list OffloadKey }.

(** * Access to the per-group structures *)

Definition idx_of (g : nat) : M Mgr (odict OffloadKey Z) := λ m, (res_of_option IndexError (index m !! g), m).
Definition free_of (g : nat) : M Mgr (list Z) := λ m, (res_of_option IndexError (free m !! g), m).
Definition set_idx (g : nat) (d : odict OffloadKey Z) : M Mgr unit := modify (λ m, set_index (<[g := d]> (index m)) m).
Definition set_free_of (g : nat) (l : list Z) : M Mgr unit := modify (λ m, set_free (<[g := l]> (free m)) m).
Definition count_hit : M Mgr unit := modify (λ m, let s := stats m in set_stats (mkStats (hits s + 1) (misses s) (evictions s) (stores s) (load_failures s)) m).
Definition count_miss : M Mgr unit := modify (λ m, let s := stats m in set_stats (mkStats (hits s) (misses s + 1) (evictions s) (stores s) (load_failures s)) m).
Definition count_eviction : M Mgr unit := modify (λ m, let s := stats m in set_stats (mkStats (hits s) (misses s) (evictions s + 1) (stores s) (load_failures s)) m).
Definition count_stores (n : Z) : M Mgr unit := modify (λ m, let s := stats m in set_stats (mkStats (hits s) (misses s) (evictions s) (stores s + n) (load_failures s)) m).
Definition count_load_failure : M Mgr unit := modify (λ m, let s := stats m in set_stats (mkStats (hits s) (misses s) (evictions s) (stores s) (load_failures s + 1)) m).

(** [list(dict.fromkeys(keys))] *)
Fixpoint fromkeys (seen : gset OffloadKey) (keys : list OffloadKey) : list OffloadKey :=
  match keys with
  | [] => []
  | k :: keys => if decide (k ∈ seen) then fromkeys seen keys else k :: fromkeys ({[k]} ∪ seen) keys
  end.

(** [sorted(..., key=seq)]: stable insertion sort. *)
Fixpoint insert_seq (x : Z * Z * OffloadKey) (l : list (Z * Z * OffloadKey)) : list (Z * Z * OffloadKey) :=
  match l with
  | [] => [x]
  | y :: l => if y.1.2 <=? x.1.2 then y :: insert_seq x l else x :: y :: l
  end.
Definition sort_seq (l : list (Z * Z * OffloadKey)) : list (Z * Z * OffloadKey) :=
  fold_left (λ acc x, insert_seq x acc) l [].

Section manager.
Context (get_offload_group_idx : OffloadKey → Z).
Local Abbreviation grp := (grp get_offload_group_idx).

(** * Methods on an attached index *)

(** Body of [lookup] after [_attach]. *)
Definition lookup_attached (key : OffloadKey) : M Mgr LookupResult :=
  let g := grp key in
  idx ← idx_of g;
  if od_mem key idx then
    set_idx g (od_move_to_end key idx);;
    sibs ← gets (λ m, default [] (siblings m !! key));
    for_each sibs (λ sib, let gs := grp sib in
      i ← idx_of gs;
      if od_mem sib i then set_idx gs (od_move_to_end sib i) else mret tt);;
    count_hit;; mret HIT
  else
    pending ← gets (λ m, bool_decide (is_Some (inflight_store m !! key)));
    if (pending : bool) then mret HIT_PENDING else count_miss;; mret MISS.

Definition loads_of (m : Mgr) (k : OffloadKey) : Z := default 0 (inflight_load m !! k).

(** The test both [_evictable] and [_take_slot] make of a key. *)
Definition can_evict (m : Mgr) (protect : gset OffloadKey) (k : OffloadKey) : bool :=
  (loads_of m k =? 0) && negb (bool_decide (k ∈ protect)).

(** [_evictable(g, protect)] *)
Definition _evictable (g : nat) (protect : gset OffloadKey) : M Mgr nat := λ m,
  match index m !! g with
  | Some d => (Ok (length (filter (λ k, can_evict m protect k = true) (od_keys d))), m)
  | None => (Err IndexError, m)
  end.

(** The loop of [_take_slot] over the index, least recently used first:
    [inflight_load.get(key, 0) > 0 or key in protect] skips the key. *)
Fixpoint first_victim (m : Mgr) (protect : gset OffloadKey) (ks : list OffloadKey) : option OffloadKey :=
  match ks with
  | [] => None
  | k :: ks => if (0 <? loads_of m k) || bool_decide (k ∈ protect) then first_victim m protect ks
               else Some k
  end.

(** [_take_slot(g, protect, evicted)]: the slot and the grown [evicted]. *)
Definition _take_slot (g : nat) (protect : gset OffloadKey) (evicted : list OffloadKey) :
    M Mgr (Z * list OffloadKey) :=
  fr ← free_of g;
  match fr with
  | s :: fr => set_free_of g fr;; mret (s, evicted)
  | [] =>
    d ← idx_of g;
    victim ← gets (λ m, first_victim m protect (od_keys d));
    match victim with
    | None => raise RuntimeError
    | Some key =>
      slot ← lift (res_of_option KeyError (od_get key d));
      set_idx g (od_pop key d);;
      modify (λ m, set_siblings (delete key (siblings m)) m);;
      count_eviction;;
      mret (slot, evicted ++ [key])
    end
  end.

(** [need[g] = need.get(g, 0) + 1] over the new keys. *)
Definition need_of (new : list OffloadKey) : odict nat nat :=
  fold_left (λ need k, od_set (grp k) (S (default 0%nat (od_get (grp k) need))) need) new [].

(** [k not in index[group] and k not in inflight_store] *)
Fixpoint new_keys (keys : list OffloadKey) : M Mgr (list OffloadKey) :=
  match keys with
  | [] => mret []
  | k :: keys =>
    d ← idx_of (grp k);
    here ← gets (λ m, negb (od_mem k d) && negb (bool_decide (is_Some (inflight_store m !! k))));
    rest ← new_keys keys;
    mret (if (here : bool) then k :: rest else rest)
  end.

(** The preflight: [true] when every group has enough slots. *)
Fixpoint preflight (need : odict nat nat) (protect : gset OffloadKey) : M Mgr bool :=
  match need with
  | [] => mret true
  | (g, n) :: need =>
    fr ← free_of g;
    ev ← _evictable g protect;
    if bool_decide (length fr + ev < n)%nat then mret false else preflight need protect
  end.

(** [[(k, self._take_slot(...)) for k in new]] *)
Fixpoint take_all (new : list OffloadKey) (protect : gset OffloadKey) (evicted : list OffloadKey) :
    M Mgr (list (OffloadKey * Z) * list OffloadKey) :=
  match new with
  | [] => mret ([], evicted)
  | k :: new =>
    p ← _take_slot (grp k) protect evicted;
    q ← take_all new protect p.2;
    mret ((k, p.1) :: q.1, q.2)
  end.

Definition put_inflight (taken : list (OffloadKey * Z)) : M Mgr unit :=
  for_each taken (λ ks, modify (λ m, set_inflight_store (<[ks.1 := ks.2]> (inflight_store m)) m)).

(** The [enumerate(targets)] loop. *)
Fixpoint link_siblings (i : nat) (targets drafters : list OffloadKey) : M Mgr unit :=
  match targets with
  | [] => mret tt
  | t :: targets =>
    (let sib := take DRAFTER_PER_TARGET (drop (DRAFTER_PER_TARGET * i) drafters) in
     match sib with
     | [] => mret tt
     | _ => modify (λ m, set_siblings (<[t := sib]> (siblings m)) m)
     end);;
    link_siblings (S i) targets drafters
  end.

(** Body of [prepare_store] after [_attach]. *)
Definition prepare_store_attached (keys0 : list OffloadKey) : M Mgr (option PrepareStoreOutput) :=
  let keys := fromkeys ∅ keys0 in
  let protect : gset OffloadKey := list_to_set keys in
  new ← new_keys keys;
  fits ← preflight (need_of new) protect;
  if negb fits then mret None else
  te ← take_all new protect [];
  let '(taken, evicted) := (te : list (OffloadKey * Z) * list OffloadKey) in
  put_inflight taken;;
  link_siblings 0 (filter (λ k, grp k = 0%nat) new) (filter (λ k, grp k ≠ 0%nat) keys);;
  modify (λ m, set_seq (seq m + 1) m);;
  count_stores (Z.of_nat (length taken));;
  sp ← gets (λ m, mkSpec taken.*1 taken.*2 (epoch m) (seq m));
  mret (Some (mkPSO taken.*1 sp evicted)).

(** [mark_store_failed] *)
Definition mark_store_failed (keys : list OffloadKey) : M Mgr unit :=
  modify (λ m, set_failed_store (failed_store m ∪ list_to_set keys) m).

(** One pass of [complete_store]'s loop. *)
Definition complete_store_one (success : bool) (k : OffloadKey) : M Mgr unit :=
  popped ← gets (λ m, inflight_store m !! k);
  match popped with
  | None => mret tt
  | Some slot =>
    modify (λ m, set_inflight_store (delete k (inflight_store m)) m);;
    let g := grp k in
    failed ← gets (λ m, bool_decide (k ∈ failed_store m));
    (if success && negb failed then
       d ← idx_of g; set_idx g (od_set k slot d)
     else
       fr ← free_of g; set_free_of g (fr ++ [slot]);;
       modify (λ m, set_siblings (delete k (siblings m)) m));;
    modify (λ m, set_failed_store (failed_store m ∖ {[k]}) m)
  end.

Definition complete_store (keys : list OffloadKey) (success : bool) : M Mgr unit :=
  idx ← gets index;
  match idx with
  | [] => mret tt
  | _ => for_each keys (complete_store_one success)
  end.

(** One pass of [prepare_load]'s loop: the slot appended. *)
Definition prepare_load_one (attached : bool) (k : OffloadKey) : M Mgr Z :=
  slot ← (if attached then d ← idx_of (grp k); mret (default (-1) (od_get k d)) else mret (-1));
  modify (λ m, set_inflight_load (<[k := loads_of m k + 1]> (inflight_load m)) m);;
  mret slot.

(** Body of [prepare_load] after [_attach]. *)
Definition prepare_load_with (attached : bool) (keys : list OffloadKey) : M Mgr SlabSpec :=
  slots ← map_m (prepare_load_one attached) keys;
  gets (λ m, mkSpec keys slots (epoch m) (seq m)).

(** One pass of [complete_load]'s loop. *)
Definition complete_load_one (k : OffloadKey) : M Mgr unit :=
  n ← gets (λ m, loads_of m k - 1);
  if n <=? 0 then
    modify (λ m, set_inflight_load (delete k (inflight_load m)) m);;
    slot ← gets (λ m, condemned m !! k);
    modify (λ m, set_condemned (delete k (condemned m)) m);;
    match slot with
    | None => mret tt
    | Some slot => fr ← free_of (grp k); set_free_of (grp k) (fr ++ [slot])
    end
  else modify (λ m, set_inflight_load (<[k := n]> (inflight_load m)) m).

Definition complete_load (keys : list OffloadKey) : M Mgr unit :=
  idx ← gets index;
  match idx with
  | [] => mret tt
  | _ => for_each keys complete_load_one
  end.

(** One pass of [mark_load_failed]'s loop. *)
Definition mark_load_failed_one (k : OffloadKey) : M Mgr unit :=
  let g := grp k in
  d ← idx_of g;
  match od_get k d with
  | None => mret tt
  | Some slot =>
    set_idx g (od_pop k d);;
    count_load_failure;;
    busy ← gets (λ m, 0 <? loads_of m k);
    (if (busy : bool) then modify (λ m, set_condemned (<[k := slot]> (condemned m)) m)
     else fr ← free_of g; set_free_of g (fr ++ [slot]));;
    modify (λ m, set_siblings (delete k (siblings m)) m)
  end.

Definition mark_load_failed (keys : list OffloadKey) : M Mgr unit :=
  idx ← gets index;
  match idx with
  | [] => mret tt
  | _ => for_each keys mark_load_failed_one
  end.

(** [touch] *)
Definition touch_one (k : OffloadKey) : M Mgr unit :=
  d ← idx_of (grp k);
  if od_mem k d then set_idx (grp k) (od_move_to_end k d) else mret tt.

Definition touch (keys : list OffloadKey) : M Mgr unit :=
  idx ← gets index;
  match idx with
  | [] => mret tt
  | _ => for_each keys touch_one
  end.

Definition has_pending_work (m : Mgr) : bool :=
  negb (bool_decide (inflight_store m = ∅)) || negb (bool_decide (inflight_load m = ∅)).

(** * Attaching to rank 0's slabs *)

Definition on_mgr {A} (f : M Mgr A) : M World A := λ w,
  match f (mg w) with (r, m) => (r, mkWorld m (dk w)) end.
Definition on_slabs {A} (f : M Os A) : M World A := λ w,
  match f (slabs (dk w)) with
  | (r, o) => (r, mkWorld (mg w) (mkDisk (base_found (dk w)) (meta_file (dk w)) (epoch_file (dk w)) o))
  end.
Definition write_epoch (e : Z) : M World unit :=
  modify (λ w, mkWorld (mg w) (mkDisk (base_found (dk w)) (meta_file (dk w)) (EpochIs e) (slabs (dk w)))).

(** One entry of the rebuild loop: the newer write of a key wins. *)
Definition index_entry (d : odict OffloadKey Z) (slot : Z) (key : OffloadKey) : odict OffloadKey Z :=
  od_set key slot (if od_mem key d then od_pop key d else d).

Definition index_entries (entries : list (Z * Z * OffloadKey)) : odict OffloadKey Z :=
  fold_left (λ d '(slot, _, key), index_entry d slot key) (sort_seq entries) [].

(** The rebuild of one group from what its scan yields. *)
Definition attach_group (g : nat) (n : Z) (entries : list (Z * Z * OffloadKey)) : M Mgr unit :=
  let d := index_entries entries in
  modify (λ m, set_seq (fold_left (λ s '(_, q, _), Z.max s q) (sort_seq entries) (seq m)) m);;
  set_idx g d;;
  set_free_of g (filter (λ s, s ∉ od_vals d) (seqZ 0 n)).

Fixpoint attach_groups (g : nat) (cs : list Z) (sl : SlabIO) : M World unit :=
  match cs with
  | [] => mret tt
  | n :: cs =>
    m ← gets mg;
    entries ← (if _rebuild m then on_slabs (scan sl g (epoch m)) else mret []);
    on_mgr (attach_group g n entries);;
    attach_groups (S g) cs sl
  end.

Definition with_epoch (e : Z) (sl : SlabIO) : SlabIO := mkSlab (slot_bytes sl) (slot_counts sl) e.

(** [_attach()] *)
Definition _attach : M World bool :=
  w ← get;
  if bool_decide (is_Some (io (mg w))) then mret true else
  if negb (base_found (dk w)) then mret false else
  match meta_file (dk w) with
  | MetaAbsent | MetaUnreadable => mret false
  | Meta sbs cnts =>
    on_mgr (modify (set_counts cnts));;
    known ← (match epoch_file (dk w) with
             | EpochIs e => on_mgr (modify (set_epoch e));; mret true
             | _ => mret false
             end);
    m ← gets mg;
    (if _pending_reset m then
       on_mgr (modify (set_pending_reset false));;
       on_mgr (modify (λ m, set_epoch (epoch m + 1) m));;
       write_epoch (epoch m + 1)
     else mret tt);;
    m ← gets mg;
    on_slabs (modify (λ o, mkOs (open_slab (mkSlab sbs cnts (epoch m)) (files o)) (kern o)));;
    on_mgr (modify (set_io (Some (mkSlab sbs cnts (epoch m)))));;
    (if (known : bool) then mret tt else
       top ← on_slabs (max_epoch (mkSlab sbs cnts (epoch m)));
       let e := match top with None => 0 | Some t => t + 1 end in
       on_mgr (modify (set_epoch e));;
       on_mgr (modify (set_io (Some (mkSlab sbs cnts e))));;
       write_epoch e);;
    on_mgr (modify (λ m, set_free ((λ _, []) <$> counts m) (set_index ((λ _, []) <$> counts m) m)));;
    m ← gets mg;
    attach_groups 0 cnts (mkSlab sbs cnts (epoch m));;
    mret true
  end.

(** * The methods the scheduler calls *)

Definition lookup (key : OffloadKey) : M World LookupResult :=
  ok ← _attach; if (ok : bool) then on_mgr (lookup_attached key) else mret MISS.

Definition prepare_store (keys : list OffloadKey) : M World (option PrepareStoreOutput) :=
  ok ← _attach; if (ok : bool) then on_mgr (prepare_store_attached keys) else mret None.

Definition prepare_load (keys : list OffloadKey) : M World SlabSpec :=
  ok ← _attach; on_mgr (prepare_load_with ok keys).

(** [reset_cache] *)
Fixpoint clear_groups (g : nat) (cs : list Z) : M Mgr unit :=
  match cs with
  | [] => mret tt
  | n :: cs =>
    _ ← idx_of g;
    set_idx g [];;
    set_free_of g (seqZ 0 n);;
    clear_groups (S g) cs
  end.

Definition reset_cache : M World unit :=
  w ← get;
  match io (mg w) with
  | None => on_mgr (modify (set_pending_reset true))
  | Some sl =>
    on_mgr (modify (λ m, set_epoch (epoch m + 1) m));;
    write_epoch (epoch (mg w) + 1);;
    on_mgr (modify (set_io (Some (with_epoch (epoch (mg w) + 1) sl))));;
    on_mgr (clear_groups 0 (counts (mg w)));;
    on_mgr (modify (λ m, set_failed_store ∅ (set_condemned ∅ (set_siblings ∅
                     (set_inflight_load ∅ (set_inflight_store ∅ m))))))
  end.
End manager.
