(* ===== verification/SlabInv.v ===== *)
(** The slot accounting of the slab manager: every slot of a group is free,
    indexed, being stored or condemned, once; and how each elementary change
    of the manager moves slots between these. *)
From S2P Require Import Prelude PyDict Bytes File SlabHeader SlabIO SlabManager.
From stdpp Require Import base list list_numbers gmap sets.
From Stdlib Require Import ZArith Lia.
#[local] Open Scope Z_scope.

Create HintDb slab.

(** Steps of the manager's own primitives, for the base [monad]. *)
Lemma run_set_idx {B} g d (k : unit → M Mgr B) m :
  (set_idx g d ≫= k) m = k tt (set_index (<[g := d]> (index m)) m).
Proof. done. Qed.
Lemma run_set_free_of {B} g l (k : unit → M Mgr B) m :
  (set_free_of g l ≫= k) m = k tt (set_free (<[g := l]> (free m)) m).
Proof. done. Qed.
#[export] Hint Rewrite @run_set_idx @run_set_free_of : monad.

Section inv.
Context (gi : OffloadKey → Z).
Local Abbreviation grp := (grp gi).
Implicit Types (m : Mgr) (k : OffloadKey) (s : Z) (g : nat).

(** Slots a key-to-slot dictionary holds in group [g]. *)
Definition slots_in g (mp : gmap OffloadKey Z) : list Z :=
  (filter (λ ks, grp ks.1 = g) (map_to_list mp)).*2.

Definition group_slots m g : list Z :=
  default [] (free m !! g) ++ od_vals (default [] (index m !! g)) ++
  slots_in g (inflight_store m) ++ slots_in g (condemned m).

Record wf m : Prop := {
  wf_index : length (index m) = length (counts m);
  wf_free : length (free m) = length (counts m);
  wf_keys g d : index m !! g = Some d → NoDup (od_keys d);
  wf_fresh k s d : inflight_store m !! k = Some s → index m !! grp k = Some d → od_get k d = None;
  wf_store_grp k s : inflight_store m !! k = Some s → (grp k < length (counts m))%nat;
  wf_cond_grp k s : condemned m !! k = Some s → (grp k < length (counts m))%nat;
  wf_loads k n : inflight_load m !! k = Some n → 0 < n;
  wf_cond_busy k s : condemned m !! k = Some s → 0 < loads_of m k;
  wf_sibs t l : siblings m !! t = Some l → Forall (λ k, (grp k < length (counts m))%nat) l }.

(** [leak g]: slots of group [g] outside the four places: in the hands of
    the method being run, or lost. *)
Definition accounted (leak : nat → list Z) m : Prop :=
  ∀ g n, counts m !! g = Some n → group_slots m g ++ leak g ≡ₚ seqZ 0 n.

Definition Inv leak m : Prop := wf m ∧ accounted leak m.

Definition hold g s (leak : nat → list Z) : nat → list Z :=
  λ g', if decide (g' = g) then s :: leak g' else leak g'.

Lemma hold_same g s leak : hold g s leak g = s :: leak g.
Proof. unfold hold. by rewrite decide_True. Qed.
Lemma hold_other g g' s leak : g' ≠ g → hold g s leak g' = leak g'.
Proof. intros. unfold hold. by rewrite decide_False. Qed.

(** ** Slots of a dictionary *)

Lemma slots_in_insert g mp k s :
  mp !! k = None →
  slots_in g (<[k := s]> mp) ≡ₚ (if decide (grp k = g) then [s] else []) ++ slots_in g mp.
Proof.
  intros Hk. unfold slots_in. rewrite (map_to_list_insert mp k s Hk), filter_cons.
  simpl. by case_decide.
Qed.

Lemma slots_in_delete g mp k s :
  mp !! k = Some s →
  slots_in g mp ≡ₚ (if decide (grp k = g) then [s] else []) ++ slots_in g (delete k mp).
Proof.
  intros Hk. rewrite <- (insert_delete_id mp k s Hk) at 1. apply slots_in_insert, lookup_delete_eq.
Qed.

Lemma slots_in_empty g : slots_in g ∅ = [].
Proof. unfold slots_in. by rewrite map_to_list_empty. Qed.

Lemma elem_slots_in g mp s : s ∈ slots_in g mp ↔ ∃ k, mp !! k = Some s ∧ grp k = g.
Proof.
  unfold slots_in. rewrite list_elem_of_fmap. split.
  - intros ([k s'] & -> & [Hg Hin]%list_elem_of_filter). exists k. by apply elem_of_map_to_list in Hin.
  - intros (k & Hk & Hg). exists (k, s). split; [done|]. apply list_elem_of_filter. split; [done|].
    by apply elem_of_map_to_list.
Qed.

(** ** Changes that move no slot *)

(** The fields the accounting is about. *)
Definition core m :=
  (counts m, index m, free m, inflight_store m, inflight_load m, condemned m, siblings m).

Lemma Inv_core leak m m' : core m' = core m → Inv leak m → Inv leak m'.
Proof.
  unfold core. intros [= H1 H2 H3 H4 H5 H6 H7] [Hw Ha]. destruct m, m'. simpl in *. subst.
  split; [|exact Ha]. destruct Hw. split; auto.
Qed.

Lemma Inv_leak leak leak' m :
  (∀ g, (g < length (counts m))%nat → leak g ≡ₚ leak' g) → Inv leak m → Inv leak' m.
Proof.
  intros Hl [Hw Ha]. split; [done|]. intros g n Hn. rewrite <- (Ha g n Hn).
  apply Permutation_app_head. symmetry. apply Hl. by eapply lookup_lt_Some.
Qed.

Lemma Inv_idx leak m g : Inv leak m → (g < length (counts m))%nat → ∃ d, index m !! g = Some d.
Proof. intros [Hw _] Hg. apply lookup_lt_is_Some_2. by rewrite (wf_index m Hw). Qed.
Lemma Inv_free leak m g : Inv leak m → (g < length (counts m))%nat → ∃ d, free m !! g = Some d.
Proof. intros [Hw _] Hg. apply lookup_lt_is_Some_2. by rewrite (wf_free m Hw). Qed.

Lemma idx_of_ok m g d : index m !! g = Some d → idx_of g m = (Ok d, m).
Proof. intros H. unfold idx_of. by rewrite H. Qed.
Lemma free_of_ok m g l : free m !! g = Some l → free_of g m = (Ok l, m).
Proof. intros H. unfold free_of. by rewrite H. Qed.

(** ** Elementary moves *)

Ltac wf_solve Hw :=
  destruct Hw; split; simpl in *; rewrite ?length_insert; auto.

Lemma Inv_free_pop leak m g s fr :
  Inv leak m → free m !! g = Some (s :: fr) →
  Inv (hold g s leak) (set_free (<[g := fr]> (free m)) m).
Proof.
  intros [Hw Ha] Hf. split; [wf_solve Hw|]. intros g' n Hn. rewrite <- (Ha g' n Hn).
  unfold group_slots. simpl. destruct (decide (g' = g)) as [->|Hne].
  - rewrite list_lookup_insert_eq by by eapply lookup_lt_Some. rewrite Hf, hold_same. simpl.
    symmetry. apply Permutation_middle.
  - by rewrite list_lookup_insert_ne, hold_other by done.
Qed.

Lemma Inv_free_push leak m g s fr :
  Inv (hold g s leak) m → free m !! g = Some fr →
  Inv leak (set_free (<[g := fr ++ [s]]> (free m)) m).
Proof.
  intros [Hw Ha] Hf. split; [wf_solve Hw|]. intros g' n Hn. rewrite <- (Ha g' n Hn).
  unfold group_slots. simpl. destruct (decide (g' = g)) as [->|Hne].
  - rewrite list_lookup_insert_eq by by eapply lookup_lt_Some. rewrite Hf, hold_same. simpl.
    rewrite <- !(assoc_L (++)). apply Permutation_app_head. simpl.
    rewrite !(assoc_L (++)). apply Permutation_middle.
  - by rewrite list_lookup_insert_ne, hold_other by done.
Qed.

Lemma Inv_index_pop leak m g d k s :
  Inv leak m → index m !! g = Some d → od_get k d = Some s →
  Inv (hold g s leak) (set_index (<[g := od_pop k d]> (index m)) m).
Proof.
  intros [Hw Ha] Hd Hk. assert (Hlt := lookup_lt_Some _ _ _ Hd). split.
  - wf_solve Hw.
    + intros g' d' Hd'. destruct (decide (g' = g)) as [->|].
      * rewrite list_lookup_insert_eq in Hd' by done. simplify_eq. eauto with pydict.
      * rewrite list_lookup_insert_ne in Hd' by done. eauto.
    + intros k' s' d' Hs Hd'. destruct (decide (g = grp k')) as [->|].
      * rewrite list_lookup_insert_eq in Hd' by done. simplify_eq.
        apply od_get_None. intros Hin. eapply wf_fresh0 in Hs; [|done].
        apply od_get_None in Hs. apply Hs. eapply elem_of_sublist; [exact Hin|].
        apply fmap_sublist, od_pop_sublist.
      * rewrite list_lookup_insert_ne in Hd' by done. eauto.
  - intros g' n Hn. rewrite <- (Ha g' n Hn). unfold group_slots. simpl.
    destruct (decide (g' = g)) as [->|Hne].
    + rewrite list_lookup_insert_eq, Hd, hold_same by done. simpl.
      rewrite (od_vals_perm _ _ (od_pop_perm _ _ _ Hk)). simpl.
      rewrite <- !(assoc_L (++)). apply Permutation_app_head.
      rewrite !(assoc_L (++)). symmetry. apply Permutation_middle.
    + by rewrite list_lookup_insert_ne, hold_other by done.
Qed.

Lemma Inv_index_add leak m k d s :
  Inv (hold (grp k) s leak) m → index m !! grp k = Some d →
  od_get k d = None → inflight_store m !! k = None →
  Inv leak (set_index (<[grp k := od_set k s d]> (index m)) m).
Proof.
  intros [Hw Ha] Hd Hk Hfr. assert (Hlt := lookup_lt_Some _ _ _ Hd). split.
  - wf_solve Hw.
    + intros g' d' Hd'. destruct (decide (g' = grp k)) as [->|].
      * rewrite list_lookup_insert_eq in Hd' by done. simplify_eq. eauto with pydict.
      * rewrite list_lookup_insert_ne in Hd' by done. eauto.
    + intros k' s' d' Hs Hd'. assert (k' ≠ k) by congruence.
      destruct (decide (grp k' = grp k)) as [He|].
      * rewrite He, list_lookup_insert_eq in Hd' by done. simplify_eq.
        rewrite od_get_set_ne by done. apply (wf_fresh0 _ _ _ Hs). by rewrite He.
      * rewrite list_lookup_insert_ne in Hd' by done. eauto.
  - intros g' n Hn. rewrite <- (Ha g' n Hn). unfold group_slots. simpl.
    destruct (decide (g' = grp k)) as [->|Hne].
    + rewrite list_lookup_insert_eq, Hd, hold_same by done. simpl.
      rewrite od_set_fresh by done. unfold od_vals. rewrite fmap_app. simpl.
      rewrite <- !(assoc_L (++)). apply Permutation_app_head, Permutation_app_head. simpl.
      rewrite !(assoc_L (++)). apply Permutation_middle.
    + by rewrite list_lookup_insert_ne, hold_other by done.
Qed.

Lemma Inv_index_perm leak m g d d' :
  Inv leak m → index m !! g = Some d → d' ≡ₚ d →
  Inv leak (set_index (<[g := d']> (index m)) m).
Proof.
  intros [Hw Ha] Hd Hp. assert (Hlt := lookup_lt_Some _ _ _ Hd).
  pose proof (wf_keys _ Hw _ _ Hd) as Hnd.
  assert (NoDup (od_keys d')) as Hnd' by by rewrite (od_keys_perm _ _ Hp). split.
  - wf_solve Hw.
    + intros g' d2 Hd'. destruct (decide (g' = g)) as [->|].
      * rewrite list_lookup_insert_eq in Hd' by done. by simplify_eq.
      * rewrite list_lookup_insert_ne in Hd' by done. eauto.
    + intros k' s' d2 Hs Hd'. destruct (decide (g = grp k')) as [->|].
      * rewrite list_lookup_insert_eq in Hd' by done. simplify_eq.
        rewrite (od_get_perm _ d2 d) by done. eauto.
      * rewrite list_lookup_insert_ne in Hd' by done. eauto.
  - intros g' n Hn. rewrite <- (Ha g' n Hn). unfold group_slots. simpl.
    destruct (decide (g' = g)) as [->|Hne].
    + rewrite list_lookup_insert_eq, Hd by done. simpl. by rewrite (od_vals_perm _ _ Hp).
    + by rewrite list_lookup_insert_ne by done.
Qed.

(** In a group's four places, moving a slot into the third or the fourth. *)
Lemma move_third (x : list Z) (a b c e lk : list Z) :
  (a ++ b ++ (x ++ c) ++ e) ++ lk ≡ₚ (a ++ b ++ c ++ e) ++ x ++ lk.
Proof. solve_Permutation. Qed.
Lemma move_fourth (x : list Z) (a b c e lk : list Z) :
  (a ++ b ++ c ++ (x ++ e)) ++ lk ≡ₚ (a ++ b ++ c ++ e) ++ x ++ lk.
Proof. solve_Permutation. Qed.

Lemma hold_app k s leak g :
  hold (grp k) s leak g = (if decide (grp k = g) then [s] else []) ++ leak g.
Proof. unfold hold. destruct (decide (grp k = g)), (decide (g = grp k)); congruence || done. Qed.

Lemma Inv_store_add leak m k s d :
  Inv (hold (grp k) s leak) m → inflight_store m !! k = None →
  index m !! grp k = Some d → od_get k d = None →
  Inv leak (set_inflight_store (<[k := s]> (inflight_store m)) m).
Proof.
  intros [Hw Ha] Hk Hd Hg. assert (Hlt := lookup_lt_Some _ _ _ Hd). split.
  - wf_solve Hw.
    + intros k' s' d' Hs Hd'. destruct (decide (k = k')) as [<-|Hne]; [congruence|].
      rewrite lookup_insert_ne in Hs by done. eauto.
    + intros k' s' Hs. destruct (decide (k = k')) as [<-|Hne]; [congruence|].
      rewrite lookup_insert_ne in Hs by done. eauto.
  - intros g n Hn. rewrite <- (Ha g n Hn), hold_app. unfold group_slots. simpl.
    rewrite (slots_in_insert g _ _ s Hk). apply move_third.
Qed.

Lemma Inv_store_del leak m k s :
  Inv leak m → inflight_store m !! k = Some s →
  Inv (hold (grp k) s leak) (set_inflight_store (delete k (inflight_store m)) m).
Proof.
  intros [Hw Ha] Hk. split.
  - wf_solve Hw.
    + intros k' s' d' [_ Hs]%lookup_delete_Some Hd'. eauto.
    + intros k' s' [_ Hs]%lookup_delete_Some. eauto.
  - intros g n Hn. rewrite <- (Ha g n Hn), hold_app. unfold group_slots. simpl.
    rewrite (slots_in_delete g _ _ s Hk). symmetry. apply move_third.
Qed.

(** Condemning a slot; the slot condemned under the same key before, if any,
    is left outside. *)
Lemma Inv_cond_add leak m k s :
  Inv (hold (grp k) s leak) m → (grp k < length (counts m))%nat → 0 < loads_of m k →
  Inv (match condemned m !! k with Some s0 => hold (grp k) s0 leak | None => leak end)
      (set_condemned (<[k := s]> (condemned m)) m).
Proof.
  intros [Hw Ha] Hg Hl. split.
  - wf_solve Hw.
    + intros k' s' Hs. destruct (decide (k = k')) as [<-|Hne]; [done|].
      rewrite lookup_insert_ne in Hs by done. eauto.
    + intros k' s' Hs. destruct (decide (k = k')) as [<-|Hne]; [done|].
      rewrite lookup_insert_ne in Hs by done. eauto.
  - intros g n Hn. rewrite <- (Ha g n Hn), hold_app. unfold group_slots. simpl.
    destruct (condemned m !! k) as [s0|] eqn:Hc.
    + rewrite <- insert_delete_eq, (slots_in_insert g _ _ s) by apply lookup_delete_eq.
      rewrite hold_app, move_fourth, (slots_in_delete g (condemned m) k s0 Hc), move_fourth.
      solve_Permutation.
    + rewrite (slots_in_insert g _ _ s Hc). apply move_fourth.
Qed.

(** The last reader of [k] leaves: its condemned slot comes out. *)
Lemma Inv_load_end leak m k :
  Inv leak m →
  Inv (match condemned m !! k with Some s => hold (grp k) s leak | None => leak end)
    (set_condemned (delete k (condemned m)) (set_inflight_load (delete k (inflight_load m)) m)).
Proof.
  intros [Hw Ha]. split.
  - wf_solve Hw.
    + intros k' s' [_ Hs]%lookup_delete_Some. eauto.
    + intros k' n [_ Hs]%lookup_delete_Some. eauto.
    + intros k' s' [Hne Hs]%lookup_delete_Some. unfold loads_of in *. simpl.
      rewrite lookup_delete_ne by done. eauto.
  - intros g n Hn. rewrite <- (Ha g n Hn). unfold group_slots. simpl.
    destruct (condemned m !! k) as [s|] eqn:Hc.
    + rewrite hold_app, (slots_in_delete g _ _ s Hc). symmetry. apply move_fourth.
    + by rewrite delete_id.
Qed.

Lemma Inv_load_set leak m k n :
  Inv leak m → 0 < n →
  Inv leak (set_inflight_load (<[k := n]> (inflight_load m)) m).
Proof.
  intros [Hw Ha] Hn. split; [|exact Ha]. wf_solve Hw.
  - intros k' n' Hs. destruct (decide (k = k')) as [<-|Hne].
    + rewrite lookup_insert_eq in Hs. by simplify_eq.
    + rewrite lookup_insert_ne in Hs by done. eauto.
  - intros k' s' Hs. unfold loads_of in *. simpl. destruct (decide (k = k')) as [<-|Hne].
    + by rewrite lookup_insert_eq.
    + rewrite lookup_insert_ne by done. eauto.
Qed.

Lemma loads_nonneg leak m k : Inv leak m → 0 ≤ loads_of m k.
Proof.
  intros [Hw _]. unfold loads_of. destruct (inflight_load m !! k) eqn:E; simpl; [|done].
  apply (wf_loads _ Hw) in E. lia.
Qed.

Lemma Inv_sibs_delete leak m k :
  Inv leak m → Inv leak (set_siblings (delete k (siblings m)) m).
Proof.
  intros [Hw Ha]. split; [|exact Ha]. wf_solve Hw. intros t l [_ Ht]%lookup_delete_Some. eauto.
Qed.

Lemma Inv_sibs_insert leak m t l :
  Inv leak m → Forall (λ k, (grp k < length (counts m))%nat) l →
  Inv leak (set_siblings (<[t := l]> (siblings m)) m).
Proof.
  intros [Hw Ha] Hl. split; [|exact Ha]. wf_solve Hw. intros t' l'.
  destruct (decide (t = t')) as [<-|Hne]; [by rewrite lookup_insert_eq; intros [= <-]|].
  rewrite lookup_insert_ne by done. eauto.
Qed.

(** No slot is in two places, and every slot is in range. *)
Lemma Inv_NoDup leak m g n :
  Inv leak m → counts m !! g = Some n → NoDup (group_slots m g ++ leak g).
Proof. intros [_ Ha] Hn. rewrite (Ha g n Hn). apply NoDup_seqZ. Qed.

Lemma Inv_range leak m g n s :
  Inv leak m → counts m !! g = Some n → s ∈ group_slots m g ++ leak g → 0 ≤ s < n.
Proof. intros [_ Ha] Hn. rewrite (Ha g n Hn), elem_of_seqZ. lia. Qed.
End inv.

#[export] Hint Resolve Inv_sibs_delete Inv_sibs_insert : slab.
