(* ===== verification/SlabOps.v ===== *)
(** What each method of the slab manager does, under the slot accounting:
    it does not raise, keeps the accounting, leaves the slots readers hold
    alone, and returns what its specification says. *)
From S2P Require Import Prelude PyDict Bytes File SlabHeader SlabIO SlabManager SlabInv.
From stdpp Require Import base list list_numbers gmap sets.
From Stdlib Require Import ZArith Lia.
#[local] Open Scope Z_scope.

Section ops.
Context (gi : OffloadKey → Z).
Local Abbreviation grp := (grp gi).
Local Abbreviation Inv := (Inv gi).
Implicit Types (m : Mgr) (k : OffloadKey) (s : Z) (g : nat).

(** * Readers *)

(** Where the slot [s] that a load of [k] was given may be: still under
    [k] in the index, condemned under [k], or lost. *)
Definition held (lost : nat → list Z) m k s : Prop :=
  (∃ d, index m !! grp k = Some d ∧ od_get k d = Some s) ∨
  condemned m !! k = Some s ∨ s ∈ lost (grp k).

(** A change that leaves the loads and the slots they hold alone. *)
Record keeps (lost : nat → list Z) m m' : Prop := {
  keeps_counts : counts m' = counts m;
  keeps_io : io m' = io m;
  keeps_loads : inflight_load m' = inflight_load m;
  keeps_held k s : 0 < loads_of m k → held lost m k s → held lost m' k s }.

#[export] Instance keeps_preorder lost : PreOrder (keeps lost).
Proof.
  split; [by split|]. intros m1 m2 m3 [C1 I1 L1 H1] [C2 I2 L2 H2].
  split; [congruence..|]. intros k s Hl Hh. apply H2; [|by apply H1].
  unfold loads_of in *. by rewrite L1.
Qed.

Lemma keeps_same lost m m' :
  counts m' = counts m → io m' = io m → inflight_load m' = inflight_load m → index m' = index m →
  condemned m' = condemned m → keeps lost m m'.
Proof. intros H1 H0 H2 H3 H4. split; [done..|]. unfold held. by rewrite H3, H4. Qed.

Lemma keeps_index lost m g d d' :
  index m !! g = Some d →
  (∀ k s, grp k = g → 0 < loads_of m k → od_get k d = Some s → od_get k d' = Some s) →
  keeps lost m (set_index (<[g := d']> (index m)) m).
Proof.
  intros Hd Hget. split; [done..|]. intros k s Hl [(d2 & Hd2 & Hk)|Hr]; [|by right].
  left. simpl. destruct (decide (grp k = g)) as [Hg|Hne].
  - subst g. exists d'. rewrite list_lookup_insert_eq by by eapply lookup_lt_Some.
    split; [done|]. simplify_eq. by apply Hget.
  - exists d2. by rewrite list_lookup_insert_ne.
Qed.

(** * Touching *)

Lemma move_ok lost m g d k :
  Inv lost m → index m !! g = Some d →
  Inv lost (set_index (<[g := od_move_to_end k d]> (index m)) m) ∧
  keeps lost m (set_index (<[g := od_move_to_end k d]> (index m)) m).
Proof.
  intros HI Hd. split; [by eapply Inv_index_perm, od_move_perm|].
  apply (keeps_index _ _ _ d); [done|]. intros k' s _ _ Hk. rewrite od_get_move; [done|].
  destruct HI as [Hw _]. by eapply wf_keys.
Qed.

(** Every key still has the slot it had: only the order may differ. *)
Definition same_map m m' : Prop :=
  inflight_store m' = inflight_store m ∧ condemned m' = condemned m ∧
  siblings m' = siblings m ∧ free m' = free m ∧
  ∀ g, (∃ d d', index m !! g = Some d ∧ index m' !! g = Some d' ∧ d' ≡ₚ d) ∨
       index m !! g = None ∧ index m' !! g = None.

#[export] Instance same_map_preorder : PreOrder same_map.
Proof.
  split.
  - intros m. repeat split. intros g. destruct (index m !! g) as [d|]; [left; eauto|by right].
  - intros m1 m2 m3 (A1&B1&C1&D1&E1) (A2&B2&C2&D2&E2). repeat split; try congruence.
    intros g. destruct (E1 g) as [(d&d'&H1&H2&Hp)|[H1 H2]], (E2 g) as [(e&e'&H3&H4&Hq)|[H3 H4]];
      simplify_eq; [left|right; done]. exists d, e'. split; [done|]. split; [done|].
    by rewrite Hq.
Qed.

Lemma same_map_move m g d k :
  index m !! g = Some d → same_map m (set_index (<[g := od_move_to_end k d]> (index m)) m).
Proof.
  intros Hd. repeat split. intros g'. simpl. destruct (decide (g' = g)) as [->|].
  - left. exists d, (od_move_to_end k d). split; [done|]. split; [|apply od_move_perm].
    apply list_lookup_insert_eq. by eapply lookup_lt_Some.
  - rewrite list_lookup_insert_ne by done. destruct (index m !! g') as [d'|]; [left; eauto|by right].
Qed.

(** The bundle the reordering methods keep. *)
Definition reordered lost m m' : Prop := Inv lost m' ∧ keeps lost m m' ∧ same_map m m'.

Lemma reordered_refl lost m : Inv lost m → reordered lost m m.
Proof. intros. split; [done|]. split; reflexivity. Qed.

Lemma reordered_move lost m g d k :
  Inv lost m → index m !! g = Some d →
  reordered lost m (set_index (<[g := od_move_to_end k d]> (index m)) m).
Proof.
  intros HI Hd. destruct (move_ok lost m g d k HI Hd). split; [done|]. split; [done|].
  by apply same_map_move.
Qed.

Lemma reordered_trans lost m1 m2 m3 :
  reordered lost m1 m2 → reordered lost m2 m3 → reordered lost m1 m3.
Proof. intros (_&K1&S1) (I2&K2&S2). split; [done|]. split; by etrans. Qed.

Lemma touch_one_ok lost m k :
  Inv lost m → (grp k < length (counts m))%nat →
  ∃ m', touch_one gi k m = (Ok tt, m') ∧ reordered lost m m'.
Proof.
  intros HI Hg. destruct (Inv_idx _ _ _ _ HI Hg) as [d Hd].
  unfold touch_one. rewrite (M_bind_run _ _ _ _ _ (idx_of_ok _ _ _ Hd)).
  destruct (od_mem k d); [|exists m; auto using reordered_refl].
  eexists; split; [done|]. by apply reordered_move.
Qed.

(** Any loop of such passes. *)
Lemma reorder_loop lost m (l : list OffloadKey) (f : OffloadKey → M Mgr unit) :
  (∀ k m', k ∈ l → Inv lost m' → counts m' = counts m →
     ∃ m2, f k m' = (Ok tt, m2) ∧ reordered lost m' m2) →
  Inv lost m →
  ∃ m', for_each l f m = (Ok tt, m') ∧ reordered lost m m'.
Proof.
  intros Hf HI. apply (for_each_ok (λ m', reordered lost m m')); [|by apply reordered_refl].
  intros k m1 Hk Hr1. assert (Hr := Hr1). destruct Hr as (HI1 & HK1 & HS1).
  destruct (Hf k m1 Hk HI1 (keeps_counts _ _ _ HK1)) as (m2 & E & Hr2).
  exists m2. split; [done|]. by eapply reordered_trans.
Qed.

Lemma touch_ok lost m keys :
  Inv lost m → Forall (λ k, (grp k < length (counts m))%nat) keys →
  ∃ m', touch gi keys m = (Ok tt, m') ∧ reordered lost m m'.
Proof.
  intros HI Hk. unfold touch. autorewrite with monad.
  destruct (index m) as [|d0 ds] eqn:Ei; [exists m; auto using reordered_refl|].
  apply reorder_loop; [|done]. intros k m' Hin HI' Hc. apply touch_one_ok; [done|].
  rewrite Hc. by eapply Forall_forall in Hk.
Qed.

(** * Looking up *)

Definition status m k : LookupResult :=
  if od_mem k (default [] (index m !! grp k)) then HIT
  else if decide (is_Some (inflight_store m !! k)) then HIT_PENDING else MISS.

Lemma reordered_core lost m m1 m2 :
  reordered lost m m1 → core m2 = core m1 → io m2 = io m1 → reordered lost m m2.
Proof.
  intros (HI & HK & HS) Hc Hio. split; [by eapply Inv_core|]. unfold core in Hc. injection Hc as ? ? ? ? ? ? ?.
  split.
  - etrans; [exact HK|]. by apply keeps_same.
  - etrans; [exact HS|]. repeat split; try done. intros g.
    replace (index m2) with (index m1) by congruence.
    destruct (index m1 !! g) as [d|]; [left; eauto|by right].
Qed.

Lemma lookup_attached_ok lost m k :
  Inv lost m → (grp k < length (counts m))%nat →
  ∃ m', lookup_attached gi k m = (Ok (status m k), m') ∧ reordered lost m m'.
Proof.
  intros HI Hg. destruct (Inv_idx _ _ _ _ HI Hg) as [d Hd].
  unfold lookup_attached, status. rewrite (M_bind_run _ _ _ _ _ (idx_of_ok _ _ _ Hd)), Hd. simpl default.
  destruct (od_mem k d); last first.
  { autorewrite with monad. destruct (decide (is_Some _)); rewrite_decide.
    - exists m. split; [done|]. by apply reordered_refl.
    - eexists. split; [done|]. eapply reordered_core; [by apply reordered_refl|done|done]. }
  pose proof (reordered_move lost m (grp k) d k HI Hd) as Hm1.
  set (m1 := set_index _ m) in Hm1. destruct Hm1 as (HI1 & HK1 & HS1).
  autorewrite with monad. fold m1.
  set (sibs := default [] (siblings m1 !! k)).
  assert (Hsr : Forall (λ k, (grp k < length (counts m1))%nat) sibs).
  { unfold sibs. destruct (siblings m1 !! k) as [l|] eqn:El; [|constructor].
    destruct HI1 as [Hw _]. by apply (wf_sibs _ _ Hw) in El. }
  match goal with |- context [for_each sibs ?f] => destruct (reorder_loop lost m1 sibs f) as (m2 & E2 & Hr2) end.
  { intros k' m' Hin HI' Hc. destruct (touch_one_ok lost m' k' HI') as (m3 & E3 & Hr3).
    - rewrite Hc. by eapply Forall_forall in Hsr.
    - exists m3. split; [|done]. exact E3. }
  { done. }
  rewrite (M_bind_run _ _ _ _ _ E2). unfold count_hit. autorewrite with monad.
  eexists. split; [done|]. apply (reordered_core _ _ m2); [|done|done].
  apply (reordered_trans _ _ m1); [|exact Hr2]. by split_and!.
Qed.

(** * Completing stores *)

(** What completing one key's store does to the tables. *)
Definition stored_one (success : bool) m k m' : Prop :=
  match inflight_store m !! k with
  | None => m' = m
  | Some s =>
    inflight_store m' = delete k (inflight_store m) ∧
    failed_store m' = failed_store m ∖ {[k]} ∧
    if success && negb (bool_decide (k ∈ failed_store m)) then
      (∃ d, index m !! grp k = Some d ∧ index m' = <[grp k := d ++ [(k, s)]]> (index m)) ∧
      free m' = free m
    else
      index m' = index m ∧
      ∃ fr, free m !! grp k = Some fr ∧ free m' = <[grp k := fr ++ [s]]> (free m)
  end.

Lemma complete_store_one_ok lost m success k :
  Inv lost m →
  ∃ m', complete_store_one gi success k m = (Ok tt, m') ∧ Inv lost m' ∧ keeps lost m m' ∧
        stored_one success m k m'.
Proof.
  intros HI. unfold complete_store_one, stored_one. autorewrite with monad.
  destruct (inflight_store m !! k) as [s|] eqn:Hs; [|exists m; by split_and!].
  assert (Hg : (grp k < length (counts m))%nat) by (destruct HI as [Hw _]; by eapply wf_store_grp).
  destruct (Inv_idx _ _ _ _ HI Hg) as [d Hd]. destruct (Inv_free _ _ _ _ HI Hg) as [fr Hfr].
  assert (Hnone : od_get k d = None) by (destruct HI as [Hw _]; by eapply wf_fresh).
  pose proof (Inv_store_del gi lost m k s HI Hs) as HI1. autorewrite with monad.
  set (m1 := set_inflight_store (delete k (inflight_store m)) m) in *.
  change (failed_store m1) with (failed_store m).
  destruct (success && negb (bool_decide (k ∈ failed_store m))).
  - unfold mbind, M_bind. rewrite (idx_of_ok m1 (grp k) d Hd).
    eexists. split; [done|].
    assert (Hf : inflight_store m1 !! k = None) by apply lookup_delete_eq.
    pose proof (Inv_index_add gi lost m1 k d s HI1 Hd Hnone Hf) as HI2.
    split; [by eapply Inv_core; [|exact HI2]|]. split.
    + etrans; [apply (keeps_same _ m m1); done|].
      transitivity (set_index (<[grp k := od_set k s d]> (index m1)) m1); [|by apply keeps_same].
      apply (keeps_index lost m1 (grp k) d); [done|]. intros k' s' _ _ Hk'.
      rewrite od_set_fresh, od_get_app, Hk' by done. done.
    + split; [done|]. split; [done|]. split; [|done]. exists d. split; [done|]. simpl.
      by rewrite od_set_fresh.
  - unfold mbind, M_bind. rewrite (free_of_ok m1 (grp k) fr Hfr).
    eexists. split; [done|].
    pose proof (Inv_free_push gi lost m1 (grp k) s fr HI1 Hfr) as HI2.
    split; [eapply Inv_core; [|exact (Inv_sibs_delete gi lost _ k HI2)]; done|].
    split; [by apply keeps_same|].
    split; [done|]. split; [done|]. split; [done|]. by exists fr.
Qed.

Lemma complete_store_ok lost m keys success :
  Inv lost m →
  ∃ m', complete_store gi keys success m = (Ok tt, m') ∧ Inv lost m' ∧ keeps lost m m'.
Proof.
  intros HI. unfold complete_store. autorewrite with monad.
  destruct (index m) as [|d0 ds] eqn:Ei; [exists m; split_and!; [done..|reflexivity]|].
  apply (for_each_ok (λ m', Inv lost m' ∧ keeps lost m m')); [|by split].
  intros k m1 _ [HI1 HK1]. destruct (complete_store_one_ok lost m1 success k HI1) as (m2&E&HI2&HK2&_).
  exists m2. split; [done|]. split; [done|]. by etrans.
Qed.

Lemma mark_store_failed_ok lost m keys :
  Inv lost m →
  ∃ m', mark_store_failed keys m = (Ok tt, m') ∧ Inv lost m' ∧ keeps lost m m' ∧
        failed_store m' = failed_store m ∪ list_to_set keys.
Proof.
  intros HI. eexists. split; [done|]. split; [by eapply Inv_core; [|exact HI]|].
  split; [by apply keeps_same|done].
Qed.

(** * Loads *)

(** The slot [prepare_load] gives a key; [-1] when it is not indexed. *)
Definition slot_of m k : Z := default (-1) (od_get k (default [] (index m !! grp k))).

Definition add_load m k : Mgr := set_inflight_load (<[k := loads_of m k + 1]> (inflight_load m)) m.

Lemma loads_add m k k' : loads_of (add_load m k) k' = loads_of m k' + if decide (k' = k) then 1 else 0.
Proof.
  unfold add_load, loads_of. simpl. destruct (decide (k' = k)) as [->|Hne].
  - by rewrite lookup_insert_eq.
  - rewrite lookup_insert_ne by done. lia.
Qed.

Lemma Inv_add_load lost m k : Inv lost m → Inv lost (add_load m k).
Proof. intros HI. apply Inv_load_set; [done|]. pose proof (loads_nonneg _ _ _ k HI). lia. Qed.

Lemma prepare_load_one_ok lost m k :
  Inv lost m → (grp k < length (counts m))%nat →
  prepare_load_one gi true k m = (Ok (slot_of m k), add_load m k).
Proof.
  intros HI Hg. destruct (Inv_idx _ _ _ _ HI Hg) as [d Hd].
  unfold prepare_load_one, slot_of. unfold mbind, M_bind. by rewrite (idx_of_ok _ _ _ Hd), Hd.
Qed.

Lemma prepare_load_loop lost m keys :
  Inv lost m → Forall (λ k, (grp k < length (counts m))%nat) keys →
  map_m (prepare_load_one gi true) keys m =
    (Ok (slot_of m <$> keys), fold_left add_load keys m) ∧
  Inv lost (fold_left add_load keys m).
Proof.
  intros HI Hk. revert m HI Hk. induction keys as [|k keys IH]; intros m HI Hk; [done|].
  apply Forall_cons in Hk as [Hg Hk]. simpl.
  rewrite (M_bind_run _ _ _ _ _ (prepare_load_one_ok lost m k HI Hg)).
  destruct (IH (add_load m k)) as [E HI']; [by apply Inv_add_load|done|].
  rewrite (M_bind_run _ _ _ _ _ E). by split.
Qed.

Lemma fold_add_load keys m :
  io (fold_left add_load keys m) = io m ∧
  index (fold_left add_load keys m) = index m ∧ counts (fold_left add_load keys m) = counts m ∧
  condemned (fold_left add_load keys m) = condemned m ∧
  epoch (fold_left add_load keys m) = epoch m ∧
  SlabManager.seq (fold_left add_load keys m) = SlabManager.seq m ∧
  ∀ k, loads_of (fold_left add_load keys m) k = loads_of m k + Z.of_nat (length (filter (λ k', k' = k) keys)).
Proof.
  revert m. induction keys as [|k keys IH]; intros m; simpl; [split_and!; try done; intros; lia|].
  destruct (IH (add_load m k)) as (H0&H1&H2&H3&H4&H5&H6). split_and!; [done..|].
  intros k'. rewrite H6, loads_add, filter_cons. destruct (decide (k = k')), (decide (k' = k)); simpl; congruence || lia.
Qed.

Lemma complete_load_one_ok lost m k :
  Inv lost m →
  ∃ m', complete_load_one gi k m = (Ok tt, m') ∧ Inv lost m' ∧ counts m' = counts m ∧ io m' = io m ∧
    (∀ k', loads_of m' k' = if decide (k' = k) then Z.max 0 (loads_of m k - 1) else loads_of m k') ∧
    (∀ k' s, 0 < loads_of m' k' → held lost m k' s → held lost m' k' s).
Proof.
  intros HI. pose proof (loads_nonneg _ _ _ k HI) as Hn. unfold complete_load_one. autorewrite with monad.
  destruct (Z.leb_spec (loads_of m k - 1) 0) as [Hle|Hgt]; autorewrite with monad.
  - pose proof (Inv_load_end gi lost m k HI) as HI1.
    change (condemned (set_inflight_load (delete k (inflight_load m)) m)) with (condemned m).
    set (m1 := set_condemned _ _) in *.
    assert (Hl : ∀ k', loads_of m1 k' = if decide (k' = k) then Z.max 0 (loads_of m k - 1) else loads_of m k').
    { intros k'. unfold loads_of at 1. simpl. destruct (decide (k' = k)) as [->|Hne].
      - rewrite lookup_delete_eq. simpl. lia.
      - by rewrite lookup_delete_ne. }
    assert (Hh : ∀ m' k' s, index m' = index m → condemned m' = delete k (condemned m) →
      0 < loads_of m1 k' → held lost m k' s → held lost m' k' s).
    { intros m' k' s Hi Hc. rewrite Hl. unfold held. rewrite Hi, Hc. destruct (decide (k' = k)) as [->|Hne]; [lia|].
      by rewrite lookup_delete_ne. }
    destruct (condemned m !! k) as [s|] eqn:Hc.
    + assert (Hg : (grp k < length (counts m))%nat) by (destruct HI as [Hw _]; by eapply wf_cond_grp).
      destruct (Inv_free _ _ _ _ HI1 Hg) as [fr Hfr].
      unfold mbind, M_bind. rewrite (free_of_ok m1 (grp k) fr Hfr). eexists. split; [done|].
      split; [by apply Inv_free_push|]. do 3 (split; [done|]). intros k' s' Hk'. by apply Hh.
    + exists m1. do 5 (split; [done|]). intros k' s' Hk'. by apply Hh.
  - eexists. split; [done|]. split; [by apply Inv_load_set; [|lia]|]. split; [done|]. split; [done|]. split; [|done].
    intros k'. unfold loads_of at 1. simpl. destruct (decide (k' = k)) as [->|Hne].
    + rewrite lookup_insert_eq. simpl. lia.
    + by rewrite lookup_insert_ne.
Qed.

Definition drop_loads (keys : list OffloadKey) m k : Z :=
  fold_left (λ n k', if decide (k = k') then Z.max 0 (n - 1) else n) keys (loads_of m k).

Lemma drop_loads_le keys k n :
  0 ≤ n → fold_left (λ n k', if decide (k = k') then Z.max 0 (n - 1) else n) keys n ≤ n.
Proof.
  revert n. induction keys as [|k' keys IH]; intros n Hn; simpl; [lia|].
  case_decide; [|by apply IH]. pose proof (IH (Z.max 0 (n - 1)) ltac:(lia)). lia.
Qed.

Lemma complete_load_loop lost m keys :
  Inv lost m →
  ∃ m', for_each keys (complete_load_one gi) m = (Ok tt, m') ∧ Inv lost m' ∧ counts m' = counts m ∧ io m' = io m ∧
    (∀ k, loads_of m' k = drop_loads keys m k) ∧
    (∀ k s, 0 < loads_of m' k → held lost m k s → held lost m' k s).
Proof.
  revert m. induction keys as [|k keys IH]; intros m HI; [exists m; by split_and!|].
  destruct (complete_load_one_ok lost m k HI) as (m1&E1&HI1&C1&I1&L1&H1).
  destruct (IH m1 HI1) as (m2&E2&HI2&C2&I2&L2&H2).
  exists m2. cbn [for_each]. rewrite (M_bind_run _ _ _ _ _ E1). split; [done|]. split; [done|].
  split; [congruence|]. split; [congruence|]. split.
  - intros k'. rewrite L2. unfold drop_loads. rewrite L1. simpl. by destruct (decide (k' = k)) as [->|].
  - intros k' s Hl Hh. apply H2; [done|]. apply H1; [|done].
    rewrite L2 in Hl. unfold drop_loads in Hl.
    pose proof (drop_loads_le keys k' (loads_of m1 k') ltac:(by eapply loads_nonneg)). lia.
Qed.

Lemma complete_load_ok lost m keys :
  Inv lost m → counts m ≠ [] →
  ∃ m', complete_load gi keys m = (Ok tt, m') ∧ Inv lost m' ∧ counts m' = counts m ∧ io m' = io m ∧
    (∀ k, loads_of m' k = drop_loads keys m k) ∧
    (∀ k s, 0 < loads_of m' k → held lost m k s → held lost m' k s).
Proof.
  intros HI Hc. unfold complete_load. autorewrite with monad.
  destruct (index m) as [|d0 ds] eqn:Ei; [|by apply complete_load_loop].
  destruct HI as [Hw _]. apply wf_index in Hw. rewrite Ei in Hw. by destruct (counts m).
Qed.

(** * Failed loads *)

(** The slot that condemning [k] once more pushes out of the accounting. *)
Definition lost_after lost m k : nat → list Z :=
  match od_get k (default [] (index m !! grp k)), 0 <? loads_of m k, condemned m !! k with
  | Some _, true, Some s0 => hold (grp k) s0 lost
  | _, _, _ => lost
  end.

Definition indexed m k : Prop := is_Some (od_get k (default [] (index m !! grp k))).

Lemma status_hit m k : status m k = HIT ↔ indexed m k.
Proof.
  unfold status, indexed, od_mem. case_bool_decide; [done|]. by destruct (decide _).
Qed.

Lemma indexed_pop m g d k k' :
  index m !! g = Some d →
  ∀ m', index m' = <[g := od_pop k d]> (index m) → indexed m' k' → indexed m k'.
Proof.
  intros Hd m' Hi. unfold indexed. rewrite Hi. destruct (decide (grp k' = g)) as [Hg|Hg].
  - rewrite Hg, list_lookup_insert_eq, Hd by by eapply lookup_lt_Some. simpl.
    intros [s Hs]. apply od_get_Some_key in Hs. destruct (od_get k' d) eqn:E; [done|].
    apply od_get_None in E. destruct E. eapply elem_of_sublist; [exact Hs|].
    apply fmap_sublist, od_pop_sublist.
  - by rewrite list_lookup_insert_ne.
Qed.

Record carries lost m lost' m' : Prop := {
  carries_counts : counts m' = counts m;
  carries_io : io m' = io m;
  carries_loads : inflight_load m' = inflight_load m;
  carries_held k s : 0 < loads_of m k → held lost m k s → held lost' m' k s }.

Lemma carries_trans lost1 m1 lost2 m2 lost3 m3 :
  carries lost1 m1 lost2 m2 → carries lost2 m2 lost3 m3 → carries lost1 m1 lost3 m3.
Proof.
  intros [C1 I1 L1 H1] [C2 I2 L2 H2]. split; [congruence..|]. intros k s Hl Hh.
  apply H2; [|by apply H1]. unfold loads_of in *. by rewrite L1.
Qed.

Lemma mark_load_failed_one_ok lost m k :
  Inv lost m → (grp k < length (counts m))%nat →
  ∃ m', mark_load_failed_one gi k m = (Ok tt, m') ∧
    Inv (lost_after lost m k) m' ∧ carries lost m (lost_after lost m k) m' ∧
    ¬ indexed m' k ∧ (∀ k', indexed m' k' → indexed m k') ∧
    (∀ k', k' ≠ k → condemned m' !! k' = condemned m !! k').
Proof.
  intros HI Hg. destruct (Inv_idx _ _ _ _ HI Hg) as [d Hd].
  assert (Hnd : NoDup (od_keys d)) by (destruct HI as [Hw _]; by eapply wf_keys).
  unfold mark_load_failed_one, lost_after. unfold mbind at 1, M_bind at 1.
  rewrite (idx_of_ok _ _ _ Hd), Hd. simpl default.
  destruct (od_get k d) as [s|] eqn:Hk; last first.
  { exists m. split; [done|]. split; [done|]. split; [by split|].
    split; [|done]. unfold indexed. rewrite Hd. simpl. rewrite Hk. by intros [? [=]]. }
  pose proof (Inv_index_pop gi lost m (grp k) d k s HI Hd Hk) as HI1.
  unfold count_load_failure. autorewrite with monad.
  assert (Hst : ∀ m', index m' = <[grp k:=od_pop k d]> (index m) →
    ¬ indexed m' k ∧ (∀ k', indexed m' k' → indexed m k')).
  { intros m' Hi. split; [|intros k'; by eapply indexed_pop].
    unfold indexed. rewrite Hi, list_lookup_insert_eq by by eapply lookup_lt_Some.
    simpl. rewrite od_get_pop by done. by intros [? [=]]. }
  match goal with |- context [set_stats ?x ?m0] => set (m1 := set_stats x m0) end.
  assert (HI2 : Inv (hold (grp k) s lost) m1) by (by eapply Inv_core; [|exact HI1]).
  change (loads_of m1 k) with (loads_of m k).
  assert (Hpop : ∀ k' s', k' ≠ k → (∃ d', index m !! grp k' = Some d' ∧ od_get k' d' = Some s') →
    ∃ d', <[grp k:=od_pop k d]> (index m) !! grp k' = Some d' ∧ od_get k' d' = Some s').
  { intros k' s' Hne (d' & Hd' & Hk'). destruct (decide (grp k' = grp k)) as [He|He].
    - rewrite He in *. rewrite list_lookup_insert_eq by by eapply lookup_lt_Some. eexists; split; [done|].
      simplify_eq. by rewrite od_get_pop_ne.
    - rewrite list_lookup_insert_ne by done. eauto. }
  destruct (Z.ltb_spec 0 (loads_of m k)) as [Hb|Hb].
  - autorewrite with monad. eexists. split; [done|].
    pose proof (Inv_cond_add gi lost m1 k s HI2 Hg Hb) as HI3. change (condemned m1) with (condemned m) in HI3.
    split; [eapply Inv_core; [|exact (Inv_sibs_delete gi _ _ k HI3)]; done|].
    split; [|destruct (Hst m1 eq_refl); split_and!; [done..|]; intros k' Hne; simpl; by rewrite ?lookup_insert_ne].
    split; [done..|]. intros k' s' Hl Hh. unfold held in *. simpl.
    destruct (decide (k' = k)) as [->|Hne].
    + rewrite lookup_insert_eq. destruct Hh as [(d'&Hd'&Hk')|[Hc|Hls]].
      * right; left. congruence.
      * right; right. rewrite Hc, hold_same. left.
      * right; right. destruct (condemned m !! k); [rewrite hold_same; by right|done].
    + rewrite lookup_insert_ne by done. destruct Hh as [Hi|[Hc|Hls]]; [left; by apply Hpop|by right; left|].
      right; right. destruct (condemned m !! k); [|done]. rewrite hold_app. set_solver.
  - autorewrite with monad.
    assert (Hfg : ∃ fr, free m1 !! grp k = Some fr) by (by eapply Inv_free). destruct Hfg as [fr Hfr].
    unfold mbind, M_bind. rewrite (free_of_ok m1 (grp k) fr Hfr). eexists. split; [done|].
    pose proof (Inv_free_push gi lost m1 (grp k) s fr HI2 Hfr) as HI3.
    split; [eapply Inv_core; [|exact (Inv_sibs_delete gi _ _ k HI3)]; done|].
    split; [|destruct (Hst m1 eq_refl); split_and!; [done..|]; intros k' Hne; simpl; by rewrite ?lookup_insert_ne].
    split; [done..|]. intros k' s' Hl Hh. unfold held in *. simpl.
    assert (k' ≠ k) as Hne by (intros ->; lia).
    destruct Hh as [Hi|[Hc|Hls]]; [left; by apply Hpop|by right; left|by right; right].
Qed.

(** The whole loop: nothing is lost unless a failed key already has a
    condemned slot. *)
Lemma mark_load_failed_loop lost m keys :
  Inv lost m → Forall (λ k, (grp k < length (counts m))%nat) keys →
  ∃ m' lost', for_each keys (mark_load_failed_one gi) m = (Ok tt, m') ∧
    Inv lost' m' ∧ carries lost m lost' m' ∧
    (∀ k, k ∈ keys → ¬ indexed m' k) ∧ (∀ k, indexed m' k → indexed m k) ∧
    ((∀ k, k ∈ keys → condemned m !! k = None ∨ ¬ indexed m k) → lost' = lost).
Proof.
  revert lost m. induction keys as [|k keys IH]; intros lost m HI Hk.
  { exists m, lost. split_and!; [done|done|by split|set_solver|done|done]. }
  apply Forall_cons in Hk as [Hg Hk].
  destruct (mark_load_failed_one_ok lost m k HI Hg) as (m1&E1&HI1&HC1&Hn1&Hx1&Hc1).
  destruct (IH _ m1 HI1) as (m2&lost2&E2&HI2&HC2&Hn2&Hx2&Hl2).
  { by rewrite (carries_counts _ _ _ _ HC1). }
  exists m2, lost2. cbn [for_each]. rewrite (M_bind_run _ _ _ _ _ E1).
  split; [done|]. split; [done|]. split; [by eapply carries_trans|]. split.
  { intros k' [->|Hin]%elem_of_cons; [|by apply Hn2]. intros ?%Hx2. done. }
  split; [auto|]. intros Hcond. rewrite Hl2.
  - unfold lost_after. destruct (Hcond k ltac:(left)) as [Hc|Hni].
    + rewrite Hc. by destruct (od_get _ _), (0 <? loads_of m k).
    + unfold indexed in Hni. destruct (od_get _ _); [|done]. by destruct Hni.
  - intros k' Hin. destruct (decide (k' = k)) as [->|Hne]; [by right|].
    rewrite Hc1 by done. destruct (Hcond k' ltac:(by right)); auto.
Qed.

Lemma mark_load_failed_ok lost m keys :
  Inv lost m → counts m ≠ [] → Forall (λ k, (grp k < length (counts m))%nat) keys →
  ∃ m' lost', mark_load_failed gi keys m = (Ok tt, m') ∧
    Inv lost' m' ∧ carries lost m lost' m' ∧
    (∀ k, k ∈ keys → ¬ indexed m' k) ∧ (∀ k, indexed m' k → indexed m k) ∧
    ((∀ k, k ∈ keys → condemned m !! k = None ∨ ¬ indexed m k) → lost' = lost).
Proof.
  intros HI Hc Hk. unfold mark_load_failed. autorewrite with monad.
  destruct (index m) as [|d0 ds] eqn:Ei; [|by apply mark_load_failed_loop].
  destruct HI as [Hw _]. apply wf_index in Hw. rewrite Ei in Hw. by destruct (counts m).
Qed.
End ops.
