(* ===== verification/SlabAlloc.v ===== *)
(** [prepare_store]: the allocation it performs, as a pure function of the
    free queues and the recency order, and the proof that the method computes
    it, never raises after its preflight and changes nothing when it declines. *)
From S2P Require Import Prelude PyDict Bytes File SlabHeader SlabIO SlabManager SlabInv SlabOps.
From stdpp Require Import base list list_numbers gmap sets.
From Stdlib Require Import ZArith Lia.
#[local] Open Scope Z_scope.

Section alloc.
Context (gi : OffloadKey → Z).
Local Abbreviation grp := (grp gi).
Local Abbreviation Inv := (Inv gi).
Implicit Types (m : Mgr) (k : OffloadKey) (s : Z) (g : nat) (protect : gset OffloadKey).

(** * Specification *)

(** The entries of a group that may be evicted, least recently used first. *)
Definition evictable m protect g : list (OffloadKey * Z) :=
  filter (λ e, can_evict m protect e.1 = true) (default [] (index m !! g)).

(** The slots a group can hand out, in the order it does: the free queue,
    then the evictable entries (with the key that goes). *)
Definition stock m protect g : list (option OffloadKey * Z) :=
  ((λ s, (None, s)) <$> default [] (free m !! g)) ++
  ((λ e, (Some e.1, e.2)) <$> evictable m protect g).

(** Serving the groups [gs] in order from their stocks. *)
Fixpoint draws (st : nat → list (option OffloadKey * Z)) (gs : list nat) : list (option OffloadKey * Z) :=
  match gs with
  | [] => []
  | g :: gs =>
    match st g with
    | [] => []
    | x :: rest => x :: draws (λ g', if decide (g' = g) then rest else st g') gs
    end
  end.

Definition demand (gs : list nat) g : nat := length (filter (λ g', g' = g) gs).

Lemma draws_ext st st' gs : (∀ g, st g = st' g) → draws st gs = draws st' gs.
Proof.
  revert st st'. induction gs as [|g gs IH]; intros st st' He; [done|]. simpl.
  rewrite He. destruct (st' g); [done|]. f_equal. apply IH. intros g'. by case_decide.
Qed.

Lemma draws_length st gs :
  (∀ g, (demand gs g ≤ length (st g))%nat) → length (draws st gs) = length gs.
Proof.
  revert st. induction gs as [|g gs IH]; intros st Hd; [done|]. simpl.
  pose proof (Hd g) as Hg. unfold demand in Hg. rewrite filter_cons, decide_True in Hg by done. simpl in Hg.
  destruct (st g) as [|x rest] eqn:E; simpl in *; [lia|]. rewrite IH; [done|].
  intros g'. specialize (Hd g'). unfold demand in *. rewrite filter_cons in Hd.
  destruct (decide (g' = g)) as [->|Hne]; [lia|]. by rewrite decide_False in Hd.
Qed.

(** * One slot *)

Lemma first_victim_head lost m protect ks :
  Inv lost m →
  first_victim m protect ks = head (filter (λ k, can_evict m protect k = true) ks).
Proof.
  intros HI. induction ks as [|k ks IH]; [done|]. cbn [first_victim]. rewrite filter_cons.
  assert (Hc : can_evict m protect k = negb ((0 <? loads_of m k) || bool_decide (k ∈ protect))).
  { pose proof (loads_nonneg _ _ _ k HI) as Hn. unfold can_evict.
    destruct (Z.ltb_spec 0 (loads_of m k)), (Z.eqb_spec (loads_of m k) 0); try lia; done. }
  destruct ((0 <? loads_of m k) || bool_decide (k ∈ protect)); simpl in Hc.
  - by rewrite decide_False by by rewrite Hc.
  - by rewrite decide_True.
Qed.

Lemma evictable_head (P : OffloadKey → Prop) `{!∀ k, Decision (P k)} (d : odict OffloadKey Z) k s rest :
  NoDup (od_keys d) → filter (λ e, P e.1) d = (k, s) :: rest →
  head (filter P (od_keys d)) = Some k ∧ od_get k d = Some s ∧
  filter (λ e, P e.1) (od_pop k d) = rest.
Proof.
  intros Hnd. revert rest. induction d as [|[k' s'] d IH]; intros rest; [done|].
  apply NoDup_cons in Hnd as [Hk' Hnd]. simpl. rewrite !filter_cons. simpl.
  destruct (decide (P k')) as [HP|HP].
  - intros [= -> -> <-]. rewrite !decide_True by done. by split_and!.
  - intros Hf. destruct (IH Hnd _ Hf) as (H1&H2&H3). split; [done|].
    assert (k ≠ k') as Hne by (intros ->; apply Hk'; by eapply od_get_Some_key).
    rewrite !decide_False by done. split; [done|]. rewrite filter_cons. simpl. rewrite decide_False by done. exact H3.
Qed.

(** What drawing slots leaves alone. *)
Record drawn protect m m' : Prop := {
  dr_counts : counts m' = counts m;
  dr_store : inflight_store m' = inflight_store m;
  dr_loads : inflight_load m' = inflight_load m;
  dr_cond : condemned m' = condemned m;
  dr_failed : failed_store m' = failed_store m;
  dr_epoch : epoch m' = epoch m;
  dr_seq : SlabManager.seq m' = SlabManager.seq m;
  dr_prot k : k ∈ protect →
    od_get k (default [] (index m' !! grp k)) = od_get k (default [] (index m !! grp k)) }.

#[export] Instance drawn_preorder protect : PreOrder (drawn protect).
Proof.
  split; [by split|]. intros m1 m2 m3 [] []. split; try congruence.
  intros k Hk. rewrite dr_prot1, dr_prot0; done.
Qed.

Lemma evictable_same protect m m' g :
  inflight_load m' = inflight_load m → index m' !! g = index m !! g →
  evictable m' protect g = evictable m protect g.
Proof.
  intros Hl Hi. unfold evictable, can_evict, loads_of. by rewrite Hl, Hi.
Qed.

Lemma take_slot_ok L m protect g ev o s rest :
  Inv L m → (g < length (counts m))%nat → stock m protect g = (o, s) :: rest →
  ∃ m', _take_slot g protect ev m = (Ok (s, ev ++ option_list o), m') ∧
    Inv (hold g s L) m' ∧ (∀ lost, keeps gi lost m m') ∧ drawn protect m m' ∧
    (∀ g', stock m' protect g' = if decide (g' = g) then rest else stock m protect g') ∧
    (∀ k, o = Some k → (k ∉ protect) ∧ loads_of m k = 0).
Proof.
  intros HI Hg Hst. destruct (Inv_idx _ _ _ _ HI Hg) as [d Hd]. destruct (Inv_free _ _ _ _ HI Hg) as [fr Hfr].
  unfold _take_slot. rewrite (M_bind_run _ _ _ _ _ (free_of_ok _ _ _ Hfr)).
  unfold stock in Hst. rewrite Hfr in Hst. simpl default in Hst. destruct fr as [|s0 fr]; simpl in Hst.
  - destruct (evictable m protect g) as [|[k s'] rest'] eqn:Hev; [done|]. simpl in Hst.
    injection Hst as <- -> <-. unfold evictable in Hev. rewrite Hd in Hev. simpl in Hev.
    assert (Hnd : NoDup (od_keys d)) by (destruct HI as [Hw _]; by eapply wf_keys).
    destruct (evictable_head (λ k, can_evict m protect k = true) d k s rest' Hnd Hev) as (Hh&Hget&Hpop).
    assert (Hk : (k, s) ∈ filter (λ e, can_evict m protect e.1 = true) d) by (rewrite Hev; left).
    apply list_elem_of_filter in Hk as [Hcan _]. unfold can_evict in Hcan. simpl in Hcan.
    apply andb_true_iff in Hcan as [Hl0%Z.eqb_eq Hnp%negb_true_iff%bool_decide_eq_false].
    rewrite (M_bind_run _ _ _ _ _ (idx_of_ok _ _ _ Hd)). autorewrite with monad.
    rewrite (first_victim_head L) by done. rewrite Hh, Hget. cbn [res_of_option].
    unfold count_eviction. autorewrite with monad. eexists. split; [done|].
    pose proof (Inv_index_pop gi L m g d k s HI Hd Hget) as HI1.
    split; [eapply Inv_core; [|exact (Inv_sibs_delete gi _ _ k HI1)]; done|].
    assert (Hne : ∀ k', 0 < loads_of m k' ∨ k' ∈ protect → k' ≠ k) by (intros k' [?|?] ->; [lia|done]).
    split_and!.
    + intros lost. transitivity (set_index (<[g:=od_pop k d]> (index m)) m); [|by apply keeps_same].
      apply (keeps_index gi lost m g d); [done|]. intros k' s' _ Hl Hk'.
      rewrite od_get_pop_ne; [done|]. apply Hne. by left.
    + split; [done..|]. intros k' Hk'. simpl. destruct (decide (grp k' = g)) as [->|Hg'].
      * rewrite list_lookup_insert_eq, Hd by by eapply lookup_lt_Some. simpl.
        rewrite od_get_pop_ne; [done|]. apply Hne. by right.
      * by rewrite list_lookup_insert_ne.
    + intros g'. unfold stock, evictable, can_evict, loads_of. simpl. destruct (decide (g' = g)) as [->|Hg'].
      * rewrite Hfr, list_lookup_insert_eq by by eapply lookup_lt_Some. simpl. by rewrite <- Hpop.
      * by rewrite list_lookup_insert_ne.
    + intros k' [= <-]. done.
  - injection Hst as <- -> <-. autorewrite with monad. rewrite app_nil_r. eexists. split; [done|].
    split; [by apply Inv_free_pop|]. split; [intros; by apply keeps_same|]. split; [by split|].
    split; [|done]. intros g'. unfold stock. simpl. destruct (decide (g' = g)) as [->|Hg'].
    + by rewrite list_lookup_insert_eq by by eapply lookup_lt_Some.
    + by rewrite list_lookup_insert_ne.
Qed.

(** * All slots of a call *)

Definition hands (taken : list (OffloadKey * Z)) (L : nat → list Z) : nat → list Z :=
  foldr (λ ks, hold (grp ks.1) ks.2) L taken.

Lemma hands_hold taken g0 s L g : hands taken (hold g0 s L) g ≡ₚ hold g0 s (hands taken L) g.
Proof.
  induction taken as [|[k s1] t IH]; [done|]. simpl. unfold hold in *. simpl.
  destruct (decide (g = grp k)), (decide (g = g0)); rewrite IH; done || constructor.
Qed.

Lemma demand_cons g gs g' : demand (g :: gs) g' = ((if decide (g' = g) then 1 else 0) + demand gs g')%nat.
Proof.
  unfold demand. rewrite filter_cons. destruct (decide (g = g')), (decide (g' = g)); congruence || done.
Qed.

Lemma take_all_ok L m protect new ev :
  Inv L m → Forall (λ k, (grp k < length (counts m))%nat) new →
  (∀ g, (demand (grp <$> new) g ≤ length (stock m protect g))%nat) →
  ∃ m', let D := draws (stock m protect) (grp <$> new) in
    take_all gi new protect ev m = (Ok (zip new D.*2, ev ++ omap fst D), m') ∧
    Inv (hands (zip new D.*2) L) m' ∧ (∀ lost, keeps gi lost m m') ∧ drawn protect m m' ∧
    (∀ k, k ∈ omap fst D → (k ∉ protect) ∧ loads_of m k = 0).
Proof.
  revert L m ev. induction new as [|k new IH]; intros L m ev HI Hr Hd.
  { exists m. simpl. rewrite app_nil_r. split; [done|]. split; [done|].
    split; [intros; reflexivity|]. split; [reflexivity|set_solver]. }
  apply Forall_cons in Hr as [Hg Hr]. cbn [fmap list_fmap] in Hd.
  assert (Hne : (1 ≤ length (stock m protect (grp k)))%nat).
  { specialize (Hd (grp k)). rewrite demand_cons, decide_True in Hd by done. lia. }
  destruct (stock m protect (grp k)) as [|[o s] rest] eqn:Est; [simpl in Hne; lia|].
  destruct (take_slot_ok L m protect (grp k) ev o s rest HI Hg Est) as (m1&E1&HI1&HK1&HD1&Hs1&Ho1).
  destruct (IH (hold (grp k) s L) m1 (ev ++ option_list o) HI1) as (m2&E2&HI2&HK2&HD2&Ho2).
  { by rewrite (dr_counts _ _ _ HD1). }
  { intros g. rewrite Hs1. specialize (Hd g). rewrite demand_cons in Hd.
    destruct (decide (g = grp k)) as [->|]; [|lia]. rewrite Est in Hd. simpl in Hd. lia. }
  assert (HD : draws (stock m protect) (grp <$> k :: new) =
               (o, s) :: draws (stock m1 protect) (grp <$> new)).
  { simpl. rewrite Est. f_equal. apply draws_ext. intros g'. by rewrite Hs1. }
  exists m2. cbv zeta. rewrite HD. cbn [take_all]. rewrite (M_bind_run _ _ _ _ _ E1). cbn [fst snd].
  rewrite (M_bind_run _ _ _ _ _ E2). cbn [fmap list_fmap zip zip_with fst snd omap list_omap].
  split.
  { unfold mret, M_ret. rewrite <- (assoc_L (++)). by destruct o. }
  split; [eapply Inv_leak; [|exact HI2]; intros g _; simpl; by rewrite hands_hold|].
  split; [intros; by transitivity m1|]. split; [by transitivity m1|].
  intros k'. destruct o as [k0|]; simpl; [|intros Hin].
  - intros [->|Hin]%elem_of_cons; [by apply Ho1|]. destruct (Ho2 k' Hin) as [H1 H2]. split; [done|].
    unfold loads_of in *. by rewrite <- (dr_loads _ _ _ HD1).
  - destruct (Ho2 k' Hin) as [H1 H2]. split; [done|]. unfold loads_of in *. by rewrite <- (dr_loads _ _ _ HD1).
Qed.

(** * The preflight *)

Lemma need_of_get new g :
  od_get g (need_of gi new) = if decide (demand (grp <$> new) g = 0%nat) then None
                              else Some (demand (grp <$> new) g).
Proof.
  unfold need_of. set (step := λ (need : odict nat nat) k, od_set (grp k) (S (default 0%nat (od_get (grp k) need))) need).
  assert (Hgen : ∀ need, od_get g (fold_left step new need) =
    match od_get g need with
    | Some n => Some (n + demand (grp <$> new) g)%nat
    | None => if decide (demand (grp <$> new) g = 0%nat) then None else Some (demand (grp <$> new) g)
    end); [|by rewrite Hgen].
  induction new as [|k new IH]; intros need; [simpl|cbn [fold_left]; rewrite fmap_cons].
  { destruct (od_get g need); [f_equal; change (demand [] g) with 0%nat; lia|done]. }
  rewrite IH. unfold step. rewrite demand_cons. destruct (decide (g = grp k)) as [->|Hne].
  - rewrite od_get_set. destruct (od_get (grp k) need); simpl.
    + f_equal. lia.
    + done.
  - by rewrite od_get_set_ne.
Qed.

Lemma need_of_nodup new : NoDup (od_keys (need_of gi new)).
Proof.
  unfold need_of. assert (H : ∀ need : odict nat nat, NoDup (od_keys need) → NoDup (od_keys (fold_left
    (λ (need : odict nat nat) k, od_set (grp k) (S (default 0%nat (od_get (grp k) need))) need) new need))).
  { induction new as [|k new IH]; intros need Hn; [done|]. simpl. apply IH. by apply od_set_nodup. }
  apply H. constructor.
Qed.

Lemma evictable_count m protect g d :
  index m !! g = Some d →
  _evictable g protect m = (Ok (length (evictable m protect g)), m).
Proof.
  intros Hd. unfold _evictable, evictable. rewrite Hd. simpl. do 2 f_equal.
  clear Hd. induction d as [|[k s] d IH]; [done|]. simpl. rewrite !filter_cons. simpl.
  case_decide; simpl; congruence.
Qed.

Lemma stock_length m protect g :
  length (stock m protect g) = (length (default [] (free m !! g)) + length (evictable m protect g))%nat.
Proof. unfold stock. by rewrite length_app, !length_fmap. Qed.

Lemma preflight_ok L m protect need :
  Inv L m → Forall (λ gn, (gn.1 < length (counts m))%nat) need →
  preflight need protect m =
    (Ok (bool_decide (Forall (λ gn, (gn.2 ≤ length (stock m protect gn.1))%nat) need)), m).
Proof.
  intros HI. induction need as [|[g n] need IH]; intros Hr; [done|].
  apply Forall_cons in Hr as [Hg Hr]. simpl in Hg. cbn [preflight].
  destruct (Inv_idx _ _ _ _ HI Hg) as [d Hd]. destruct (Inv_free _ _ _ _ HI Hg) as [fr Hfr].
  rewrite (M_bind_run _ _ _ _ _ (free_of_ok _ _ _ Hfr)).
  rewrite (M_bind_run _ _ _ _ _ (evictable_count _ _ _ _ Hd)).
  pose proof (stock_length m protect g) as Hs. rewrite Hfr in Hs. simpl in Hs.
  destruct (decide (length fr + length (evictable m protect g) < n)%nat) as [Hlt|Hlt].
  - rewrite (bool_decide_eq_true_2 (_ < n)%nat) by done. rewrite bool_decide_eq_false_2; [done|].
    intros [Hle _]%Forall_cons. simpl in Hle. lia.
  - rewrite (bool_decide_eq_false_2 (_ < n)%nat), IH by done. do 2 f_equal. apply bool_decide_ext.
    rewrite Forall_cons. simpl. split; [|tauto]. intros. split; [lia|done].
Qed.

(** * The keys of a call *)

Definition is_new m k : bool :=
  negb (od_mem k (default [] (index m !! grp k))) && negb (bool_decide (is_Some (inflight_store m !! k))).

Lemma is_new_spec m k :
  is_new m k = true ↔ od_get k (default [] (index m !! grp k)) = None ∧ inflight_store m !! k = None.
Proof.
  unfold is_new, od_mem. rewrite andb_true_iff, !negb_true_iff, !bool_decide_eq_false.
  by rewrite !eq_None_not_Some.
Qed.

Lemma new_keys_ok L m keys :
  Inv L m → Forall (λ k, (grp k < length (counts m))%nat) keys →
  new_keys gi keys m = (Ok (filter (λ k, is_new m k = true) keys), m).
Proof.
  intros HI. induction keys as [|k keys IH]; intros Hr; [done|].
  apply Forall_cons in Hr as [Hg Hr]. destruct (Inv_idx _ _ _ _ HI Hg) as [d Hd]. cbn [new_keys].
  rewrite (M_bind_run _ _ _ _ _ (idx_of_ok _ _ _ Hd)). autorewrite with monad.
  rewrite (M_bind_run _ _ _ _ _ (IH Hr)). rewrite filter_cons.
  assert (Hn : is_new m k = negb (od_mem k d) && negb (bool_decide (is_Some (inflight_store m !! k))))
    by (unfold is_new; by rewrite Hd).
  rewrite <- Hn. destruct (is_new m k); [by rewrite decide_True|by rewrite decide_False].
Qed.

Lemma fromkeys_spec keys seen :
  NoDup (fromkeys seen keys) ∧ ∀ k, k ∈ fromkeys seen keys ↔ k ∈ keys ∧ k ∉ seen.
Proof.
  revert seen. induction keys as [|k keys IH]; intros seen; simpl.
  { split; [constructor|set_solver]. }
  case_decide as Hk.
  - destruct (IH seen) as [Hn Hs]. split; [done|]. intros k'. rewrite Hs. set_solver.
  - destruct (IH ({[k]} ∪ seen)) as [Hn Hs]. split.
    + constructor; [|done]. rewrite Hs. set_solver.
    + intros k'. rewrite elem_of_cons, Hs. destruct (decide (k' = k)) as [->|]; set_solver.
Qed.

Lemma put_inflight_ok L m taken :
  Inv (hands taken L) m → NoDup taken.*1 →
  Forall (λ ks, (grp ks.1 < length (counts m))%nat ∧ is_new m ks.1 = true) taken →
  ∃ m', put_inflight taken m = (Ok tt, m') ∧ Inv L m' ∧ (∀ lost, keeps gi lost m m') ∧
    epoch m' = epoch m ∧ SlabManager.seq m' = SlabManager.seq m ∧ counts m' = counts m ∧
    index m' = index m ∧ failed_store m' = failed_store m ∧ siblings m' = siblings m ∧
    (∀ k s, (k, s) ∈ taken → inflight_store m' !! k = Some s) ∧
    (∀ k, k ∉ taken.*1 → inflight_store m' !! k = inflight_store m !! k).
Proof.
  revert m. induction taken as [|[k s] taken IH]; intros m HI Hnd Hn.
  { exists m. split_and!; try done; set_solver. }
  apply NoDup_cons in Hnd as [Hk Hnd]. apply Forall_cons in Hn as [[Hg Hkn] Hn]. simpl in *.
  apply is_new_spec in Hkn as [Hi Hs]. destruct (Inv_idx _ _ _ _ HI Hg) as [d Hd].
  rewrite Hd in Hi. simpl in Hi.
  pose proof (Inv_store_add gi (hands taken L) m k s d HI Hs Hd Hi) as HI1.
  set (m1 := set_inflight_store (<[k:=s]> (inflight_store m)) m) in *.
  destruct (IH m1 HI1 Hnd) as (m2&E&HI2&HK2&?&?&?&?&?&?&Hin&Hout).
  { apply Forall_forall. intros [k' s'] Hks. rewrite Forall_forall in Hn.
    destruct (Hn _ Hks) as [Hg' Hk']. simpl in *. split; [done|].
    apply is_new_spec in Hk' as [H1 H2]. apply is_new_spec. split; [done|]. simpl.
    rewrite lookup_insert_ne; [done|]. intros <-. apply Hk. apply list_elem_of_fmap. by exists (k, s'). }
  exists m2. unfold put_inflight in *. cbn [for_each]. autorewrite with monad. split; [exact E|].
  split; [done|]. split; [intros lost; transitivity m1; [by apply keeps_same|done]|].
  split_and!; try assumption.
  - intros k' s' [[= -> ->]|Hks]%elem_of_cons; [|by apply Hin].
    rewrite Hout by done. apply lookup_insert_eq.
  - intros k' Hk'. rewrite Hout by set_solver. apply lookup_insert_ne. set_solver.
Qed.

Lemma link_siblings_ok L m i targets drafters :
  Inv L m → Forall (λ k, (grp k < length (counts m))%nat) drafters →
  ∃ m', link_siblings i targets drafters m = (Ok tt, m') ∧ Inv L m' ∧ m' = set_siblings (siblings m') m.
Proof.
  revert i m. induction targets as [|t targets IH]; intros i m HI Hr.
  { exists m. split; [done|]. split; [done|]. by destruct m. }
  cbn [link_siblings]. set (sib := take _ _).
  assert (Hsib : Forall (λ k, (grp k < length (counts m))%nat) sib) by by apply Forall_take, Forall_drop.
  destruct sib as [|s0 sib]; autorewrite with monad; [by apply IH|].
  pose proof (Inv_sibs_insert gi L m t (s0 :: sib) HI Hsib) as HI1.
  destruct (IH (S i) _ HI1 Hr) as (m2&E&HI2&Heq). exists m2. split; [done|]. split; [done|].
  rewrite Heq. done.
Qed.

(** * The method *)

(** The keys a call stores. *)
Definition store_keys m (keys : list OffloadKey) : list OffloadKey :=
  filter (λ k, is_new m k = true) (fromkeys ∅ keys).

(** What it draws for them. *)
Definition plan m keys : list (option OffloadKey * Z) :=
  draws (stock m (list_to_set (fromkeys ∅ keys))) (grp <$> store_keys m keys).

Definition fits m keys : bool :=
  bool_decide (Forall (λ gn, (gn.2 ≤ length (stock m (list_to_set (fromkeys ∅ keys)) gn.1))%nat)
    (need_of gi (store_keys m keys))).

Lemma store_keys_spec m keys :
  NoDup (store_keys m keys) ∧ Forall (λ k, k ∈ keys ∧ is_new m k = true) (store_keys m keys).
Proof.
  destruct (fromkeys_spec keys ∅) as [Hn Hs]. split; [by apply NoDup_filter|].
  apply Forall_forall. intros k [Hk Hin]%list_elem_of_filter. apply Hs in Hin. tauto.
Qed.

Lemma store_keys_range m keys n :
  Forall (λ k, (grp k < n)%nat) keys → Forall (λ k, (grp k < n)%nat) (store_keys m keys).
Proof.
  intros Hr. destruct (store_keys_spec m keys) as [_ Hs]. rewrite Forall_forall in Hr, Hs.
  apply Forall_forall. intros k Hk. apply Hr. by apply (Hs k Hk).
Qed.

Lemma fits_demand m keys :
  fits m keys = true →
  ∀ g, (demand (grp <$> store_keys m keys) g ≤ length (stock m (list_to_set (fromkeys ∅ keys)) g))%nat.
Proof.
  unfold fits. rewrite bool_decide_eq_true, Forall_forall. intros H g.
  pose proof (need_of_get (store_keys m keys) g) as Hn. case_decide as Hz; [lia|].
  apply od_get_elem in Hn. exact (H _ Hn).
Qed.

Lemma need_range m keys n :
  Forall (λ k, (grp k < n)%nat) keys →
  Forall (λ gn, (gn.1 < n)%nat) (need_of gi (store_keys m keys)).
Proof.
  intros Hr%(store_keys_range m). apply Forall_forall. intros [g c] Hin.
  apply od_elem_get in Hin; [|apply need_of_nodup]. rewrite need_of_get in Hin. case_decide as Hz; [done|].
  assert (∃ g', g' ∈ filter (λ g', g' = g) (grp <$> store_keys m keys)) as [g' Hg'].
  { unfold demand in Hz. destruct (filter _ _) as [|g' l]; [done|]. exists g'. left. }
  apply list_elem_of_filter in Hg' as [-> (k & -> & Hk)%list_elem_of_fmap].
  rewrite Forall_forall in Hr. by apply Hr.
Qed.

Lemma prepare_store_ok L m keys :
  Inv L m → Forall (λ k, (grp k < length (counts m))%nat) keys →
  let new := store_keys m keys in let D := plan m keys in
  if fits m keys then
    length D = length new ∧
    ∃ m', prepare_store_attached gi keys m =
        (Ok (Some (mkPSO new (mkSpec new D.*2 (epoch m) (SlabManager.seq m + 1)) (omap fst D))), m') ∧
      Inv L m' ∧ (∀ lost, keeps gi lost m m') ∧
      (∀ k, k ∈ omap fst D → (k ∉ keys) ∧ loads_of m k = 0) ∧
      (∀ k s, (k, s) ∈ zip new D.*2 → inflight_store m' !! k = Some s) ∧
      epoch m' = epoch m ∧ SlabManager.seq m' = SlabManager.seq m + 1
  else prepare_store_attached gi keys m = (Ok None, m).
Proof.
  intros HI Hr new D. unfold prepare_store_attached. cbv zeta.
  destruct (fromkeys_spec keys ∅) as [Hnd Hfk]. set (uniq := fromkeys ∅ keys) in *.
  assert (Hru : Forall (λ k, (grp k < length (counts m))%nat) uniq).
  { rewrite Forall_forall in Hr |- *. intros k Hk%Hfk. apply Hr. tauto. }
  rewrite (M_bind_run _ _ _ _ _ (new_keys_ok L m uniq HI Hru)).
  change (filter (λ k, is_new m k = true) uniq) with new.
  rewrite (M_bind_run _ _ _ _ _ (preflight_ok L m _ _ HI (need_range m keys _ Hr))).
  fold uniq in (value of D). change (bool_decide _) with (fits m keys).
  destruct (fits m keys) eqn:Hfit; [|done]. cbn [negb].
  pose proof (fits_demand m keys Hfit) as Hdem. change (store_keys m keys) with new in Hdem.
  assert (HlD : length D = length new).
  { unfold D, plan. rewrite draws_length by done. apply length_fmap. }
  split; [done|].
  destruct (take_all_ok L m (list_to_set uniq) new [] HI (store_keys_range m keys _ Hr) Hdem)
    as (m1&E1&HI1&HK1&HD1&Ho1). change (draws _ _) with D in E1, HI1, Ho1.
  rewrite (M_bind_run _ _ _ _ _ E1). simpl app.
  set (taken := zip new D.*2) in *.
  assert (Ht1 : taken.*1 = new) by (apply fst_zip; rewrite length_fmap; lia).
  assert (Ht2 : taken.*2 = D.*2) by (apply snd_zip; rewrite length_fmap; lia).
  destruct (store_keys_spec m keys) as [Hnn Hns]. change (store_keys m keys) with new in Hnn, Hns.
  destruct (put_inflight_ok L m1 taken HI1) as (m2&E2&HI2&HK2&He2&Hs2&Hc2&_&_&_&Hin&_).
  { by rewrite Ht1. }
  { apply Forall_forall. intros [k s] Hks. apply (list_elem_of_fmap_2 fst) in Hks. rewrite Ht1 in Hks.
    simpl in *. pose proof (store_keys_range m keys _ Hr) as Hsr. rewrite Forall_forall in Hsr, Hns.
    split; [rewrite (dr_counts _ _ _ HD1); by apply Hsr|]. destruct (Hns k Hks) as [Hkk Hkn].
    apply is_new_spec in Hkn as [H1 H2]. apply is_new_spec. rewrite (dr_store _ _ _ HD1), (dr_prot _ _ _ HD1).
    - done.
    - apply elem_of_list_to_set, Hfk. set_solver. }
  rewrite (M_bind_run _ _ _ _ _ E2).
  destruct (link_siblings_ok L m2 0 (filter (λ k, grp k = 0%nat) new) (filter (λ k, grp k ≠ 0%nat) uniq) HI2)
    as (m3&E3&HI3&Hm3).
  { rewrite Hc2, (dr_counts _ _ _ HD1). apply Forall_forall. intros k [_ Hk]%list_elem_of_filter.
    rewrite Forall_forall in Hru. by apply Hru. }
  rewrite (M_bind_run _ _ _ _ _ E3). unfold count_stores. autorewrite with monad.
  assert (He3 : epoch m3 = epoch m) by (rewrite Hm3; simpl; by rewrite He2, (dr_epoch _ _ _ HD1)).
  assert (Hs3 : SlabManager.seq m3 = SlabManager.seq m)
    by (rewrite Hm3; simpl; by rewrite Hs2, (dr_seq _ _ _ HD1)).
  eexists. split.
  { unfold mret, M_ret. rewrite Ht1, Ht2. simpl. by rewrite He3, Hs3. }
  split; [eapply Inv_core; [|exact HI3]; done|].
  assert (Hst3 : inflight_store m3 = inflight_store m2) by by rewrite Hm3.
  assert (K3 : ∀ lost, keeps gi lost m2 m3) by (intros lost; rewrite Hm3; by apply keeps_same).
  simpl. rewrite Hst3. split_and!.
  - intros lost. transitivity m1; [done|]. transitivity m2; [done|].
    transitivity m3; [done|]. by apply keeps_same.
  - intros k Hk. destruct (Ho1 k Hk) as [H1 H2]. split; [|done]. intros Hin'. apply H1.
    apply elem_of_list_to_set, Hfk. set_solver.
  - done.
  - done.
  - simpl; congruence.
Qed.
End alloc.
