(* ===== verification/SlabAttach.v ===== *)
(** [_attach]: the index rebuilt from the slot headers of rank 0, and the
    epoch it starts from. *)
From S2P Require Import Prelude PyDict Bytes File SlabHeader SlabIO SlabManager SlabInv SlabOps.
From stdpp Require Import base list list_numbers gmap sets sorting.
From Stdlib Require Import ZArith Lia.
#[local] Open Scope Z_scope.

(** * Sorting by sequence number *)

Section sort.
Implicit Types (l : list (Z * Z * OffloadKey)).

Definition seq_le (x y : Z * Z * OffloadKey) : Prop := x.1.2 ≤ y.1.2.

Lemma insert_seq_perm x l : insert_seq x l ≡ₚ x :: l.
Proof.
  induction l as [|y l IH]; simpl; [done|]. destruct (_ <=? _); [|done].
  rewrite IH. apply Permutation_swap.
Qed.

Lemma sort_seq_acc l acc : fold_left (λ acc x, insert_seq x acc) l acc ≡ₚ l ++ acc.
Proof.
  revert acc. induction l as [|x l IH]; intros acc; simpl; [done|].
  rewrite IH, insert_seq_perm. symmetry. apply Permutation_middle.
Qed.

Lemma sort_seq_perm l : sort_seq l ≡ₚ l.
Proof. unfold sort_seq. by rewrite sort_seq_acc, app_nil_r. Qed.

Lemma insert_seq_sorted x l : StronglySorted seq_le l → StronglySorted seq_le (insert_seq x l).
Proof.
  induction 1 as [|y l Hl IH Hy]; simpl; [repeat constructor|].
  destruct (Z.leb_spec y.1.2 x.1.2).
  - constructor; [done|]. apply Forall_forall. intros z. rewrite insert_seq_perm.
    intros [->|Hz]%elem_of_cons; [done|]. rewrite Forall_forall in Hy. by apply Hy.
  - constructor; [by constructor|]. constructor; [unfold seq_le; lia|].
    eapply Forall_impl; [exact Hy|]. unfold seq_le. intros z ?. lia.
Qed.

Lemma sort_seq_sorted l : StronglySorted seq_le (sort_seq l).
Proof.
  unfold sort_seq. assert (H : ∀ acc, StronglySorted seq_le acc →
    StronglySorted seq_le (fold_left (λ acc x, insert_seq x acc) l acc)); [|apply H; constructor].
  induction l as [|x l IH]; intros acc Ha; simpl; [done|]. by apply IH, insert_seq_sorted.
Qed.
End sort.

(** * The index of one group *)

Section entries.
Implicit Types (l es : list (Z * Z * OffloadKey)) (k : OffloadKey).

Definition build l : odict OffloadKey Z := fold_left (λ d '(slot, _, key), index_entry d slot key) l [].

Lemma index_entry_get d slot key k :
  NoDup (od_keys d) →
  od_get k (index_entry d slot key) = if decide (k = key) then Some slot else od_get k d.
Proof.
  intros Hn. unfold index_entry. destruct (decide (k = key)) as [->|Hne]; [by rewrite od_get_set|].
  rewrite od_get_set_ne by done. destruct (od_mem key d); [|done]. by rewrite od_get_pop_ne.
Qed.

Lemma index_entry_nodup d slot key : NoDup (od_keys d) → NoDup (od_keys (index_entry d slot key)).
Proof. intros Hn. unfold index_entry. destruct (od_mem key d); auto with pydict. Qed.

Lemma index_entry_app d slot key :
  NoDup (od_keys d) → index_entry d slot key = od_pop key d ++ [(key, slot)].
Proof.
  intros Hn. unfold index_entry. destruct (od_mem key d) eqn:E.
  - apply od_set_fresh, od_get_pop, Hn.
  - assert (Hg : od_get key d = None).
    { apply od_get_None. intros Hin. apply od_mem_spec in Hin. congruence. }
    rewrite od_set_fresh, od_pop_None by done. done.
Qed.

Lemma build_snoc l x : build (l ++ [x]) = index_entry (build l) x.1.1 x.2.
Proof. unfold build. rewrite fold_left_app. by destruct x as [[slot q] key]. Qed.

Lemma build_nodup l : NoDup (od_keys (build l)).
Proof.
  induction l as [|x l IH] using rev_ind; [constructor|]. rewrite build_snoc.
  by apply index_entry_nodup.
Qed.

(** Slots: a sublist of those of the entries. *)
Lemma build_vals l : od_vals (build l) ⊆+ (λ x, x.1.1) <$> l.
Proof.
  induction l as [|x l IH] using rev_ind; [done|]. rewrite build_snoc, fmap_app.
  rewrite index_entry_app by apply build_nodup. unfold od_vals in *. rewrite fmap_app. simpl.
  apply submseteq_app; [|done]. etrans; [|exact IH]. apply sublist_submseteq, fmap_sublist, od_pop_sublist.
Qed.

(** The last entry of a key wins. *)
Lemma build_get l k s :
  od_get k (build l) = Some s →
  ∃ l1 q l2, l = l1 ++ (s, q, k) :: l2 ∧ Forall (λ x, x.2 ≠ k) l2.
Proof.
  induction l as [|x l IH] using rev_ind; [done|]. rewrite build_snoc.
  rewrite index_entry_get by apply build_nodup. destruct (decide (k = x.2)) as [->|Hne].
  - intros [= <-]. exists l, x.1.2, []. by destruct x as [[? ?] ?].
  - intros (l1&q&l2&->&Hl2)%IH. exists l1, q, (l2 ++ [x]). split; [by rewrite <- (assoc_L (++))|].
    apply Forall_app. split; [done|]. by constructor.
Qed.

Lemma build_has l k : is_Some (od_get k (build l)) ↔ k ∈ l.*2.
Proof.
  induction l as [|x l IH] using rev_ind.
  { simpl. split; [by intros [? [=]]|set_solver]. }
  rewrite build_snoc, index_entry_get by apply build_nodup. rewrite fmap_app. simpl.
  destruct (decide (k = x.2)); set_solver.
Qed.

Lemma index_entries_newest es k s :
  od_get k (index_entries es) = Some s →
  ∃ q, (s, q, k) ∈ es ∧ ∀ s' q', (s', q', k) ∈ es → q' ≤ q.
Proof.
  intros (l1&q&l2&Hl&Hl2)%build_get. pose proof (sort_seq_sorted es) as Hs. rewrite Hl in Hs.
  exists q. split.
  - rewrite <- (sort_seq_perm es), Hl. set_solver.
  - intros s' q' Hin. rewrite <- (sort_seq_perm es), Hl in Hin.
    apply elem_of_app in Hin as [Hin|[[= -> ->]|Hin]%elem_of_cons]; [|done|].
    + apply StronglySorted_app in Hs as [Hs _]. exact (Hs _ _ Hin ltac:(left)).
    + rewrite Forall_forall in Hl2. by destruct (Hl2 _ Hin).
Qed.

Lemma index_entries_has es k : is_Some (od_get k (index_entries es)) ↔ k ∈ es.*2.
Proof. unfold index_entries. fold (build (sort_seq es)). by rewrite build_has, (sort_seq_perm es). Qed.

Lemma index_entries_nodup es : NoDup (od_keys (index_entries es)).
Proof. apply build_nodup. Qed.

Lemma index_entries_vals es n :
  NoDup ((λ x, x.1.1) <$> es) → Forall (λ x, 0 ≤ x.1.1 < n) es →
  NoDup (od_vals (index_entries es)) ∧ ∀ s, s ∈ od_vals (index_entries es) → 0 ≤ s < n.
Proof.
  intros Hn Hr. pose proof (build_vals (sort_seq es)) as Hv. change (build _) with (index_entries es) in Hv.
  rewrite (sort_seq_perm es) in Hv. split.
  - apply submseteq_Permutation in Hv as [r Hp]. rewrite Hp in Hn. by apply NoDup_app in Hn as [? _].
  - intros s Hs. eapply elem_of_submseteq in Hs; [|done].
    apply list_elem_of_fmap in Hs as (x & -> & Hx). rewrite Forall_forall in Hr. by apply Hr.
Qed.

(** Free and indexed slots partition the group. *)
Lemma index_entries_partition es n :
  NoDup ((λ x, x.1.1) <$> es) → Forall (λ x, 0 ≤ x.1.1 < n) es →
  filter (λ s, s ∉ od_vals (index_entries es)) (seqZ 0 n) ++ od_vals (index_entries es) ≡ₚ seqZ 0 n.
Proof.
  intros Hn Hr. destruct (index_entries_vals es n Hn Hr) as [Hnv Hv]. apply NoDup_Permutation.
  - apply NoDup_app. split; [apply NoDup_filter, NoDup_seqZ|]. split; [|done].
    intros s [Hs _]%list_elem_of_filter. done.
  - apply NoDup_seqZ.
  - intros s. rewrite elem_of_app, list_elem_of_filter, elem_of_seqZ.
    destruct (decide (s ∈ od_vals (index_entries es))) as [Hin|Hin]; [|tauto].
    pose proof (Hv s Hin). split; [lia|auto].
Qed.

Lemma scan_slots f g sb e n :
  NoDup ((λ x, x.1.1) <$> omap (slot_entry f g sb e) (seqZ 0 n)) ∧
  Forall (λ x, 0 ≤ x.1.1 < n) (omap (slot_entry f g sb e) (seqZ 0 n)).
Proof.
  assert (H : ∀ ss : list Z, (λ x, x.1.1) <$> omap (slot_entry f g sb e) ss `sublist_of` ss).
  { induction ss as [|s ss IH]; [done|]. simpl. unfold slot_entry at 1.
    destruct (header_at f _) as [h|]; [|by constructor].
    destruct (_ && _); simpl; by constructor. }
  split; [eapply sublist_NoDup; [|apply H]; apply NoDup_seqZ|].
  apply Forall_forall. intros x Hx. assert (x.1.1 ∈ seqZ 0 n) as Hs%elem_of_seqZ; [|lia].
  eapply elem_of_sublist; [|apply H]. by apply (list_elem_of_fmap_2 (λ x, x.1.1)).
Qed.
End entries.

(** * Attaching *)

Section attach.
Context (gi : OffloadKey → Z).
Local Abbreviation Inv := (Inv gi).
Implicit Types (m : Mgr) (g : nat).

(** What the scan of group [g] gives the rebuild. *)
Definition entries_for (rebuild : bool) (fs : list file) (sl : SlabIO) (e : Z) g : list (Z * Z * OffloadKey) :=
  match rebuild, fs !! g, slot_bytes sl !! g, slot_counts sl !! g with
  | true, Some f, Some sb, Some n => omap (slot_entry f g sb e) (seqZ 0 n)
  | _, _, _, _ => []
  end.

(** The fields a rebuild leaves alone. *)
Definition rebuilt_frame m m' : Prop :=
  io m' = io m ∧ counts m' = counts m ∧ inflight_store m' = inflight_store m ∧
  inflight_load m' = inflight_load m ∧ condemned m' = condemned m ∧
  failed_store m' = failed_store m ∧ siblings m' = siblings m ∧ epoch m' = epoch m ∧
  _rebuild m' = _rebuild m ∧ _pending_reset m' = _pending_reset m ∧
  length (index m') = length (index m) ∧ length (free m') = length (free m).

Definition group_built (es : list (Z * Z * OffloadKey)) n m g : Prop :=
  index m !! g = Some (index_entries es) ∧
  free m !! g = Some (filter (λ s, s ∉ od_vals (index_entries es)) (seqZ 0 n)).

Lemma attach_group_run g n es m :
  (g < length (index m))%nat → (g < length (free m))%nat →
  ∃ m', attach_group g n es m = (Ok tt, m') ∧ rebuilt_frame m m' ∧ group_built es n m' g ∧
    (∀ g', g' ≠ g → index m' !! g' = index m !! g' ∧ free m' !! g' = free m !! g').
Proof.
  intros Hi Hf. unfold attach_group. autorewrite with monad. unfold set_free_of, modify.
  eexists. split; [done|]. split; [|split; [split|]]; simpl.
  - repeat split; simpl; by rewrite length_insert.
  - by rewrite list_lookup_insert_eq.
  - by rewrite list_lookup_insert_eq.
  - intros g' Hne. by rewrite !list_lookup_insert_ne.
Qed.

Lemma attach_groups_run sl cs g w :
  kern (slabs (dk w)) = [] → geometry_ok sl (files (slabs (dk w))) →
  cs = drop g (slot_counts sl) →
  length (index (mg w)) = length (slot_counts sl) → length (free (mg w)) = length (slot_counts sl) →
  ∃ w', attach_groups g cs sl w = (Ok tt, w') ∧ dk w' = dk w ∧ rebuilt_frame (mg w) (mg w') ∧
    (∀ g', (g' < g)%nat → index (mg w') !! g' = index (mg w) !! g' ∧ free (mg w') !! g' = free (mg w) !! g') ∧
    (∀ g' n, (g ≤ g')%nat → slot_counts sl !! g' = Some n →
       group_built (entries_for (_rebuild (mg w)) (files (slabs (dk w))) sl (epoch (mg w)) g') n (mg w') g').
Proof.
  revert g w. induction cs as [|n cs IH]; intros g w Hk Hgeo Hcs Hi Hf.
  { exists w. split_and!; try done. intros g' n Hg Hn. exfalso. apply lookup_lt_Some in Hn.
    apply (f_equal length) in Hcs. rewrite length_drop in Hcs. simpl in Hcs. lia. }
  assert (Hn : slot_counts sl !! g = Some n).
  { rewrite <- (Nat.add_0_r g), <- lookup_drop, <- Hcs. done. }
  assert (Hcs' : cs = drop (S g) (slot_counts sl)).
  { apply (f_equal (drop 1)) in Hcs. rewrite drop_drop, Nat.add_1_r in Hcs. done. }
  pose proof (lookup_lt_Some _ _ _ Hn) as Hlt.
  set (es := entries_for (_rebuild (mg w)) (files (slabs (dk w))) sl (epoch (mg w)) g).
  assert (Hes : (if _rebuild (mg w) then on_slabs (scan sl g (epoch (mg w))) else mret []) w = (Ok es, w)).
  { unfold es, entries_for. destruct (_rebuild (mg w)); [|done].
    assert (g < length (files (slabs (dk w))))%nat as Hlf by (destruct Hgeo as (?&?&_); lia).
    destruct (geometry_lookup _ _ _ Hgeo Hlf) as (f & sb & n' & Ef & Esb & En & Hsb & Hn').
    unfold on_slabs. destruct w as [m [b mf ef [fs kk]]]. simpl in *. subst kk.
    unfold scan. rewrite Esb, En, Ef. cbn [res_of_option]. autorewrite with monad.
    rewrite (scan_from_spec _ _ _ _ _ _ _ Ef Hsb). by rewrite Z2Nat.id by done. }
  cbn [attach_groups]. autorewrite with monad. rewrite (M_bind_run _ _ _ _ _ Hes).
  destruct (attach_group_run g n es (mg w)) as (m1&E1&F1&B1&O1); [lia..|].
  unfold mbind at 1, M_bind at 1, on_mgr at 1. rewrite E1.
  assert (F1' := F1). destruct F1' as (_&_&_&_&_&_&_&Fe&Fr&_&Fi&Ff).
  destruct (IH (S g) (mkWorld m1 (dk w))) as (w2&E2&D2&F2&L2&B2); simpl; try done; [congruence..|].
  exists w2. split; [done|]. split; [done|]. simpl in *. split_and!.
  - unfold rebuilt_frame in *. naive_solver congruence.
  - intros g' Hg'. destruct (L2 g' ltac:(lia)) as [-> ->]. apply O1. lia.
  - intros g' n' Hg' Hn'. destruct (decide (g' = g)) as [->|Hne].
    + unfold group_built in *. destruct (L2 g ltac:(lia)) as [-> ->]. by simplify_eq.
    + rewrite Fe, Fr in B2. apply B2; [lia|done].
Qed.

(** The manager before it is attached: loads may already have been counted
    (with slot -1), nothing else has. *)
Record unattached m : Prop := {
  ua_io : io m = None; ua_store : inflight_store m = ∅; ua_cond : condemned m = ∅;
  ua_sibs : siblings m = ∅; ua_loads k n : inflight_load m !! k = Some n → 0 < n }.

(** The epoch [_attach] settles on. *)
Definition attach_epoch m (d : Disk) (top : option Z) : Z :=
  match epoch_file d with
  | EpochIs e => if _pending_reset m then e + 1 else e
  | _ => match top with None => 0 | Some t => t + 1 end
  end.

Lemma rebuilt_Inv sl m m' fs :
  length (index m') = length (counts m') → length (free m') = length (counts m') →
  counts m' = slot_counts sl → geometry_ok sl fs → unattached m →
  inflight_store m' = inflight_store m → inflight_load m' = inflight_load m →
  condemned m' = condemned m → siblings m' = siblings m →
  (∀ g n, slot_counts sl !! g = Some n →
     group_built (entries_for (_rebuild m) fs sl (epoch m') g) n m' g) →
  Inv (λ _, []) m'.
Proof.
  intros Hi Hf Hc Hgeo [_ Us Uc Ub Ul] Es El Ec Eb HB. split.
  - split; try congruence.
    + intros g d Hd. assert (g < length (slot_counts sl))%nat as Hlt
        by (apply lookup_lt_Some in Hd; congruence || lia).
      apply lookup_lt_is_Some_2 in Hlt as [n Hn]. destruct (HB g n Hn) as [HB1 _].
      rewrite HB1 in Hd. simplify_eq. apply index_entries_nodup.
    + intros k s d. rewrite Es, Us. by rewrite lookup_empty.
    + intros k s. rewrite Es, Us. by rewrite lookup_empty.
    + intros k s. rewrite Ec, Uc. by rewrite lookup_empty.
    + intros k n. rewrite El. apply Ul.
    + intros k s. rewrite Ec, Uc. by rewrite lookup_empty.
    + intros t l. rewrite Eb, Ub. by rewrite lookup_empty.
  - intros g n Hn. rewrite Hc in Hn. destruct (HB g n Hn) as [HB1 HB2]. unfold group_slots.
    rewrite HB1, HB2, Es, Us, Ec, Uc, !slots_in_empty, !app_nil_r. simpl.
    assert (Hes : NoDup ((λ x, x.1.1) <$> entries_for (_rebuild m) fs sl (epoch m') g) ∧
      Forall (λ x, 0 ≤ x.1.1 < n) (entries_for (_rebuild m) fs sl (epoch m') g)).
    { unfold entries_for. destruct (_rebuild m), (fs !! g), (slot_bytes sl !! g);
        try (split; constructor). rewrite Hn. apply scan_slots. }
    destruct Hes. by apply index_entries_partition.
Qed.

Definition opened (sbs cnts : list Z) (w : World) : list file :=
  open_slab (mkSlab sbs cnts 0) (files (slabs (dk w))).

Lemma run_on_modify {B} f (k : unit → M World B) w :
  (on_mgr (modify f) ≫= k) w = k tt (mkWorld (f (mg w)) (dk w)).
Proof. done. Qed.
Lemma run_write_epoch {B} e (k : unit → M World B) w :
  (write_epoch e ≫= k) w =
    k tt (mkWorld (mg w) (mkDisk (base_found (dk w)) (meta_file (dk w)) (EpochIs e) (slabs (dk w)))).
Proof. done. Qed.
Lemma run_on_slabs {A B} (f : M Os A) (k : A → M World B) w a o :
  f (slabs (dk w)) = (Ok a, o) →
  (on_slabs f ≫= k) w =
    k a (mkWorld (mg w) (mkDisk (base_found (dk w)) (meta_file (dk w)) (epoch_file (dk w)) o)).
Proof. intros H. unfold on_slabs, mbind, M_bind. by rewrite H. Qed.

Lemma run_on_slabs_modify {B} (f : Os → Os) (k : unit → M World B) w :
  (on_slabs (modify f) ≫= k) w =
    k tt (mkWorld (mg w) (mkDisk (base_found (dk w)) (meta_file (dk w)) (epoch_file (dk w)) (f (slabs (dk w))))).
Proof. done. Qed.

Lemma max_epoch_any sbs cnts e e' o :
  max_epoch (mkSlab sbs cnts e) o = max_epoch (mkSlab sbs cnts e') o.
Proof.
  unfold max_epoch. assert (H : ∀ gs b o, max_epoch_groups (mkSlab sbs cnts e) gs b o =
    max_epoch_groups (mkSlab sbs cnts e') gs b o); [|by rewrite H]. clear o.
  induction gs as [|g gs IH]; intros b o; [done|]. cbn [max_epoch_groups slot_bytes slot_counts].
  destruct (sbs !! g); cbn [res_of_option]; rewrite ?run_lift_err, ?run_lift_ok; [|done].
  destruct (cnts !! g); cbn [res_of_option]; rewrite ?run_lift_err, ?run_lift_ok; [|done].
  unfold mbind, M_bind. destruct (max_epoch_from _ _ _ _ _ o) as [[r|x] o']; [apply IH|done].
Qed.

(** The tail of [_attach], from the reset of the two tables. *)
Lemma attach_tail sl w :
  kern (slabs (dk w)) = [] → geometry_ok sl (files (slabs (dk w))) →
  counts (mg w) = slot_counts sl → unattached (set_io None (mg w)) →
  ∃ w', (on_mgr (modify (λ m, set_free ((λ _, []) <$> counts m) (set_index ((λ _, []) <$> counts m) m)));;
         m ← gets mg; attach_groups 0 (slot_counts sl) sl;; mret true) w = (Ok true, w') ∧
    dk w' = dk w ∧ io (mg w') = io (mg w) ∧ epoch (mg w') = epoch (mg w) ∧
    counts (mg w') = slot_counts sl ∧ inflight_load (mg w') = inflight_load (mg w) ∧
    Inv (λ _, []) (mg w') ∧
    (∀ g n, slot_counts sl !! g = Some n →
      group_built (entries_for (_rebuild (mg w)) (files (slabs (dk w))) sl (epoch (mg w)) g) n (mg w') g).
Proof.
  intros Hk Hgeo Hc Hu. unfold mbind at 1, M_bind at 1, on_mgr at 1, modify at 1. simpl.
  autorewrite with monad.
  set (w1 := mkWorld (set_free ((λ _, []) <$> counts (mg w)) (set_index ((λ _, []) <$> counts (mg w)) (mg w))) (dk w)).
  destruct (attach_groups_run sl (slot_counts sl) 0 w1) as (w2&E&D&F&_&B); simpl; try done.
  { by rewrite length_fmap, Hc. }
  { by rewrite length_fmap, Hc. }
  rewrite (M_bind_run _ _ _ _ _ E). exists w2. split; [done|].
  destruct F as (F1&F2&F3&F4&F5&F6&F7&F8&F9&F10&F11&F12). simpl in F2, F8.
  assert (L1 : length (index (mg w2)) = length (counts (mg w))) by (rewrite F11; apply length_fmap).
  assert (L2 : length (free (mg w2)) = length (counts (mg w))) by (rewrite F12; apply length_fmap).
  assert (Hc2 : counts (mg w2) = slot_counts sl) by congruence.
  split; [exact D|]. split; [exact F1|]. split; [exact F8|]. split; [exact Hc2|].
  split; [exact F4|]. split.
  - apply (rebuilt_Inv sl (set_io None (mg w)) (mg w2) (files (slabs (dk w)))); try done; try congruence.
    intros g n Hn. simpl. rewrite F8. by apply B; [lia|].
  - intros g n Hn. by apply B; [lia|].
Qed.

(** One step of the run: the first statement decides which lemma applies. *)
Ltac attach_step Hmax Hfs :=
  cbn [mg dk base_found meta_file epoch_file slabs files kern epoch _pending_reset
       set_counts set_epoch set_pending_reset set_io];
  lazymatch goal with
  | |- mbind ?k ?c ?w = _ =>
    lazymatch c with
    | on_mgr (modify _) => refine (eq_trans (run_on_modify _ _ _) _)
    | write_epoch _ => refine (eq_trans (run_write_epoch _ _ _) _)
    | on_slabs (modify _) =>
      refine (eq_trans (run_on_slabs_modify _ _ _) _); cbn [files kern slabs dk]; rewrite Hfs
    | on_slabs (max_epoch (mkSlab _ _ ?e)) => refine (eq_trans (run_on_slabs (max_epoch (mkSlab _ _ e)) k w _ _ (Hmax e)) _)
    | mbind _ _ => refine (eq_trans (run_assoc _ _ _ _) _)
    | mret _ => refine (eq_trans (run_ret _ _ _) _)
    | gets _ => refine (eq_trans (run_gets _ _ _) _)
    end
  end; cbv beta.

Lemma attach_run sbs cnts w :
  base_found (dk w) = true → meta_file (dk w) = Meta sbs cnts → unattached (mg w) →
  kern (slabs (dk w)) = [] → geometry_ok (mkSlab sbs cnts 0) (opened sbs cnts w) →
  ∃ w' top, max_epoch (mkSlab sbs cnts 0) (mkOs (opened sbs cnts w) []) =
      (Ok top, mkOs (opened sbs cnts w) []) ∧
    _attach w = (Ok true, w') ∧
    let E := attach_epoch (mg w) (dk w) top in
    epoch (mg w') = E ∧ epoch_file (dk w') = EpochIs E ∧ counts (mg w') = cnts ∧
    io (mg w') = Some (mkSlab sbs cnts E) ∧ slabs (dk w') = mkOs (opened sbs cnts w) [] ∧
    inflight_load (mg w') = inflight_load (mg w) ∧ Inv (λ _, []) (mg w') ∧
    ∀ g n, cnts !! g = Some n →
      group_built (entries_for (_rebuild (mg w)) (opened sbs cnts w) (mkSlab sbs cnts E) E g) n (mg w') g.
Proof.
  intros Hb Hm Hu Hk Hgeo.
  assert (Hmax : ∃ top, ∀ e, max_epoch (mkSlab sbs cnts e) (mkOs (opened sbs cnts w) []) =
      (Ok top, mkOs (opened sbs cnts w) [])).
  { eexists. intros e. rewrite (max_epoch_any sbs cnts e 0). unfold max_epoch.
    apply max_epoch_groups_spec; [done|]. apply Forall_forall. intros g ?%elem_of_seq. simpl in *. lia. }
  destruct Hmax as [top Hmax].
  destruct w as [m [b mf ef [fs kk]]]. simpl in *. subst b mf kk.
  set (fs' := opened sbs cnts _) in *.
  set (E := attach_epoch m (mkDisk true (Meta sbs cnts) ef (mkOs fs [])) top).
  pose proof (ua_io _ Hu) as Hio.
  destruct (attach_tail (mkSlab sbs cnts E)
    (mkWorld (set_io (Some (mkSlab sbs cnts E)) (set_epoch E (set_pending_reset
       (match ef with EpochIs _ => false | _ => false end) (set_counts cnts m))))
       (mkDisk true (Meta sbs cnts) (EpochIs E) (mkOs fs' [])))) as (w'&EQ&D&I&EP&C&L&HI&B); try done.
  { destruct Hu. by split. }
  exists w', top. split; [done|]. split; last first.
  { cbv zeta. simpl in *. rewrite D. split_and!; done. }
  assert (Hfs : ∀ e, open_slab (mkSlab sbs cnts e) fs = fs') by done.
  clearbody fs'. unfold E, attach_epoch in EQ. unfold _attach. autorewrite with monad. cbn [io mg].
  destruct m as [io0 c0 i0 f0 s0 l0 cd0 fl0 sb0 sq0 e0 pr0 rb0 st0]. simpl in Hio. subst io0.
  rewrite bool_decide_eq_false_2 by (intros [? [=]]). cbn [base_found dk negb meta_file epoch_file].
  rewrite run_on_modify.
  destruct ef as [| |e], pr0; (repeat attach_step Hmax Hfs); exact EQ.
Qed.

(** A slot reported by a scan, as its header. *)
Lemma elem_scan f g sb e n s q k :
  (s, q, k) ∈ omap (slot_entry f g sb e) (seqZ 0 n) ↔
  0 ≤ s < n ∧ ∃ h, header_at f (Z.to_nat (s * sb)) = Some h ∧ h_group h = Z.of_nat g ∧
    h_epoch h = e ∧ h_seq h = q ∧ h_key h = k.
Proof.
  rewrite list_elem_of_omap. unfold slot_entry. split.
  - intros (s'&Hs%elem_of_seqZ&He). destruct (header_at f _) as [h|] eqn:Eh; [|done].
    destruct (_ && _) eqn:Ec; [|done]. injection He as <- <- <-. apply andb_true_iff in Ec as [H1 H2].
    split; [lia|]. exists h. split; [done|]. repeat split; lia.
  - intros (Hs&h&Eh&Hg&He&<-&<-). exists s. split; [apply elem_of_seqZ; lia|].
    rewrite Eh, Hg, He, !Z.eqb_refl. done.
Qed.

(** [reset_cache]'s loop. *)
Lemma clear_groups_run cs g m :
  length (index m) = (g + length cs)%nat → length (free m) = (g + length cs)%nat →
  ∃ m', clear_groups g cs m = (Ok tt, m') ∧ counts m' = counts m ∧ epoch m' = epoch m ∧ io m' = io m ∧
    length (index m') = length (index m) ∧ length (free m') = length (free m) ∧
    (∀ g', (g' < g)%nat → index m' !! g' = index m !! g' ∧ free m' !! g' = free m !! g') ∧
    (∀ i n, cs !! i = Some n → index m' !! (g + i)%nat = Some [] ∧ free m' !! (g + i)%nat = Some (seqZ 0 n)).
Proof.
  revert g m. induction cs as [|n cs IH]; intros g m Hi Hf; [by exists m|]. cbn [clear_groups]. simpl in Hi, Hf.
  destruct (lookup_lt_is_Some_2 (index m) g) as [d Hd]; [lia|].
  rewrite (M_bind_run _ _ _ _ _ (idx_of_ok _ _ _ Hd)). autorewrite with monad.
  set (m1 := set_free _ _). destruct (IH (S g) m1) as (m2&E&C&Ee&I&Li&Lf&Lo&Hi2).
  { simpl. rewrite length_insert. lia. }
  { simpl. rewrite length_insert. lia. }
  exists m2. split; [done|]. split; [done|]. split; [done|]. split; [done|].
  split; [rewrite Li; simpl; by rewrite length_insert|].
  split; [rewrite Lf; simpl; by rewrite length_insert|]. split.
  - intros g' Hg'. destruct (Lo g' ltac:(lia)) as [-> ->]. simpl. by rewrite !list_lookup_insert_ne by lia.
  - intros [|i] n' Hn'; simplify_eq/=.
    + rewrite Nat.add_0_r. destruct (Lo g ltac:(lia)) as [-> ->]. simpl.
      by rewrite !list_lookup_insert_eq by lia.
    + rewrite <- Nat.add_succ_comm. by apply Hi2.
Qed.
End attach.
