(* ===== verification/SlabSession.v ===== *)
(** A scheduler session with the slab manager: the calls the scheduler makes
    between two resets, as a step relation, and what holds in every state it
    reaches; and the life of a manager, sessions with resets at any time. *)
From S2P Require Import Prelude PyDict Bytes File SlabHeader SlabIO SlabManager SlabInv SlabOps SlabAlloc SlabAttach.
From stdpp Require Import base list list_numbers gmap sets relations.
From Stdlib Require Import ZArith Lia.
#[local] Open Scope Z_scope.

Section session.
Context (gi : OffloadKey → Z).
Local Abbreviation grp := (grp gi).
Local Abbreviation Inv := (Inv gi).

(** * Methods once attached *)

Lemma attach_again w : io (mg w) ≠ None → _attach w = (Ok true, w).
Proof.
  intros Hio. unfold _attach. autorewrite with monad.
  rewrite bool_decide_eq_true_2; [done|]. by destruct (io (mg w)).
Qed.

Lemma attached_lookup w k : io (mg w) ≠ None → SlabManager.lookup gi k w = on_mgr (lookup_attached gi k) w.
Proof. intros H. unfold SlabManager.lookup. by rewrite (M_bind_run _ _ _ _ _ (attach_again w H)). Qed.
Lemma attached_store w ks :
  io (mg w) ≠ None → prepare_store gi ks w = on_mgr (prepare_store_attached gi ks) w.
Proof. intros H. unfold prepare_store. by rewrite (M_bind_run _ _ _ _ _ (attach_again w H)). Qed.
Lemma attached_load w ks :
  io (mg w) ≠ None → prepare_load gi ks w = on_mgr (prepare_load_with gi true ks) w.
Proof. intros H. unfold prepare_load. by rewrite (M_bind_run _ _ _ _ _ (attach_again w H)). Qed.

(** * The session *)

(** A load in flight: each key with the slot its readers were given. *)
Abbreviation job := (list (OffloadKey * Z)).

(** The calls of the scheduler; [S_complete_load] ends a load that is in
    flight. Keys belong to the groups of the store. *)
Inductive call :=
  | Lookup (k : OffloadKey)
  | PrepareStore (ks : list OffloadKey)
  | StoreFailed (ks : list OffloadKey)
  | CompleteStore (ks : list OffloadKey) (success : bool)
  | PrepareLoad (ks : list OffloadKey)
  | CompleteLoad (i : nat)
  | LoadFailed (ks : list OffloadKey)
  | Touch (ks : list OffloadKey).

Definition call_keys (c : call) : list OffloadKey :=
  match c with
  | Lookup k => [k]
  | PrepareStore ks | StoreFailed ks | CompleteStore ks _ | PrepareLoad ks | LoadFailed ks | Touch ks => ks
  | CompleteLoad _ => []
  end.

(** One call: what it returns (a unit for each value) and the new state. *)
Definition run_call (c : call) (st : World * list job) : res unit * (World * list job) :=
  let '(w, js) := st in
  match c with
  | Lookup k => let '(r, w') := SlabManager.lookup gi k w in ((λ _, tt) <$> r, (w', js))
  | PrepareStore ks => let '(r, w') := prepare_store gi ks w in ((λ _, tt) <$> r, (w', js))
  | StoreFailed ks => let '(r, w') := on_mgr (mark_store_failed ks) w in (r, (w', js))
  | CompleteStore ks ok => let '(r, w') := on_mgr (complete_store gi ks ok) w in (r, (w', js))
  | PrepareLoad ks =>
    let '(r, w') := prepare_load gi ks w in
    ((λ _, tt) <$> r,
     (w', match r with Ok sp => zip (sp_keys sp) (sp_slots sp) :: js | Err _ => js end))
  | CompleteLoad i =>
    match js !! i with
    | None => (Ok tt, st)
    | Some j => let '(r, w') := on_mgr (complete_load gi j.*1) w in (r, (w', delete i js))
    end
  | LoadFailed ks => let '(r, w') := on_mgr (mark_load_failed gi ks) w in (r, (w', js))
  | Touch ks => let '(r, w') := on_mgr (touch gi ks) w in (r, (w', js))
  end.

Inductive session_step : World * list job → World * list job → Prop :=
  | session_call c st r st' :
      Forall (λ k, (grp k < length (counts (mg st.1)))%nat) (call_keys c) →
      run_call c st = (r, st') → session_step st st'.

(** How many readers of [k] the jobs are. *)
Definition readers (js : list job) k : Z := Z.of_nat (length (filter (λ k', k' = k) (concat js).*1)).

(** The invariant, with the slots lost so far. *)
Record SInv (lost : nat → list Z) (st : World * list job) : Prop := {
  si_io : io (mg st.1) ≠ None;
  si_counts : counts (mg st.1) ≠ [];
  si_inv : Inv lost (mg st.1);
  si_loads k : loads_of (mg st.1) k = readers st.2 k;
  si_grp k s : (k, s) ∈ concat st.2 → (grp k < length (counts (mg st.1)))%nat;
  si_held k s : (k, s) ∈ concat st.2 → s ≠ -1 → held gi lost (mg st.1) k s }.

Lemma readers_pos js k s : (k, s) ∈ concat js → 0 < readers js k.
Proof.
  intros Hin. unfold readers. assert (k ∈ filter (λ k', k' = k) (concat js).*1) as Hk.
  { apply list_elem_of_filter. split; [done|]. by apply (list_elem_of_fmap_2 fst) in Hin. }
  destruct (filter _ _); [by apply not_elem_of_nil in Hk|]. simpl. lia.
Qed.

(** A call that moves no reader. *)
Lemma SInv_carries lost lost' w w' js :
  SInv lost (w, js) → Inv lost' (mg w') →
  carries gi lost (mg w) lost' (mg w') → SInv lost' (w', js).
Proof.
  intros [Hio Hc HI Hl Hg Hh] HI' [C I L H]. simpl in *. split; simpl; try congruence; try done.
  - intros k. unfold loads_of in *. rewrite L. apply Hl.
  - intros k s Hin. rewrite C. by eapply Hg.
  - intros k s Hin Hs. apply H; [|by apply Hh]. rewrite Hl. by eapply readers_pos.
Qed.

Lemma keeps_carries lost m m' : keeps gi lost m m' → carries gi lost m lost m'.
Proof. intros [C I L H]. by split. Qed.

(** ** Ending a load *)

Lemma concat_delete (js : list job) i j : js !! i = Some j → concat js ≡ₚ j ++ concat (delete i js).
Proof.
  revert i. induction js as [|j0 js IH]; intros [|i] Hi; simplify_eq/=; [done|].
  rewrite (IH i Hi). rewrite !(assoc_L (++)). apply Permutation_app_tail, Permutation_app_comm.
Qed.

Definition count_key (ks : list OffloadKey) k : Z := Z.of_nat (length (filter (λ k', k' = k) ks)).

Lemma readers_delete js i j k :
  js !! i = Some j → readers js k = count_key j.*1 k + readers (delete i js) k.
Proof.
  intros Hi. unfold readers, count_key. rewrite (concat_delete js i j Hi), fmap_app, filter_app, length_app. lia.
Qed.

Lemma drop_loads_count ks k n :
  count_key ks k ≤ n →
  fold_left (λ n k', if decide (k = k') then Z.max 0 (n - 1) else n) ks n = n - count_key ks k.
Proof.
  revert n. induction ks as [|k' ks IH]; intros n Hn; [unfold count_key; simpl; lia|].
  unfold count_key in *. rewrite filter_cons in Hn |- *. cbn [fold_left].
  destruct (decide (k = k')), (decide (k' = k)); try congruence; simpl in *; rewrite IH; lia.
Qed.

Lemma count_key_nonneg ks k : 0 ≤ count_key ks k.
Proof. unfold count_key. lia. Qed.

Lemma SInv_complete_load lost w js i j :
  SInv lost (w, js) → js !! i = Some j →
  ∃ w', on_mgr (complete_load gi j.*1) w = (Ok tt, w') ∧ SInv lost (w', delete i js).
Proof.
  intros [Hio Hc HI Hl Hg Hh] Hi. simpl in *.
  destruct (complete_load_ok gi lost (mg w) j.*1 HI Hc) as (m'&E&HI'&C&I&L&H).
  exists (mkWorld m' (dk w)). unfold on_mgr. rewrite E. split; [done|].
  assert (Hsub : ∀ ks, ks ∈ concat (delete i js) → ks ∈ concat js).
  { intros ks Hks. rewrite (concat_delete js i j Hi). set_solver. }
  assert (Hload : ∀ k, loads_of m' k = readers (delete i js) k).
  { intros k. rewrite L. unfold drop_loads. rewrite Hl, (readers_delete js i j k Hi), drop_loads_count.
    - lia.
    - unfold readers. lia. }
  split; simpl; try congruence; try done.
  - intros k s Hin. rewrite C. eauto.
  - intros k s Hin Hs. apply H; [|by eauto]. rewrite Hload. by eapply readers_pos.
Qed.

(** ** Starting a load *)

Lemma zip_slot (f : OffloadKey → Z) ks k s : (k, s) ∈ zip ks (f <$> ks) → s = f k.
Proof. induction ks as [|k0 ks IH]; simpl; [set_solver|]. intros [[= -> ->]|?]%elem_of_cons; auto. Qed.

Lemma readers_cons ks (slots : list Z) js k :
  length slots = length ks → readers (zip ks slots :: js) k = count_key ks k + readers js k.
Proof.
  intros Hl. unfold readers, count_key. simpl. rewrite fmap_app, filter_app, length_app.
  rewrite fst_zip by lia. lia.
Qed.

Lemma SInv_prepare_load lost w js ks :
  SInv lost (w, js) → Forall (λ k, (grp k < length (counts (mg w)))%nat) ks →
  ∃ w', prepare_load gi ks w =
      (Ok (mkSpec ks (slot_of gi (mg w) <$> ks) (epoch (mg w)) (SlabManager.seq (mg w))), w') ∧
    SInv lost (w', zip ks (slot_of gi (mg w) <$> ks) :: js).
Proof.
  intros [Hio Hc HI Hl Hg Hh] Hk. simpl in *.
  destruct (prepare_load_loop gi lost (mg w) ks HI Hk) as [E HI'].
  destruct (fold_add_load ks (mg w)) as (FI&F1&F2&F3&F4&F5&F6).
  exists (mkWorld (fold_left add_load ks (mg w)) (dk w)). split.
  { rewrite attached_load by done. unfold on_mgr, prepare_load_with.
    rewrite (M_bind_run _ _ _ _ _ E). unfold gets. by rewrite F4, F5. }
  split; simpl; try congruence; try done.
  - intros k. rewrite F6, Hl, readers_cons by by rewrite length_fmap. unfold count_key. lia.
  - intros k s [Hin|Hin]%elem_of_app; rewrite F2; [|by eauto].
    apply elem_of_zip_l in Hin. rewrite Forall_forall in Hk. by apply Hk.
  - intros k s [Hin|Hin]%elem_of_app Hs.
    + apply zip_slot in Hin as ->. left. rewrite F1. unfold slot_of in *.
      destruct (index (mg w) !! grp k) as [d|]; simpl in *; [|done].
      exists d. split; [done|]. by destruct (od_get k d).
    + unfold held. rewrite F1, F3. by apply Hh.
Qed.

(** ** Every call *)

Lemma carries_inv {A} lost w js (f : M Mgr A) r m' :
  SInv lost (w, js) → f (mg w) = (Ok r, m') → Inv lost m' → keeps gi lost (mg w) m' →
  ∃ w', on_mgr f w = (Ok r, w') ∧ SInv lost (w', js).
Proof.
  intros HS E HI HK. exists (mkWorld m' (dk w)). unfold on_mgr. rewrite E. split; [done|].
  by apply (SInv_carries lost lost w _ js HS); [|apply keeps_carries].
Qed.

(** A failed load may push one slot out per key that is condemned already. *)
Definition condemned_again (w : World) (c : call) : Prop :=
  ∃ ks k, c = LoadFailed ks ∧ k ∈ ks ∧ is_Some (condemned (mg w) !! k) ∧ indexed gi (mg w) k.

Lemma SInv_call lost c w js r st' :
  SInv lost (w, js) → Forall (λ k, (grp k < length (counts (mg w)))%nat) (call_keys c) →
  run_call c (w, js) = (r, st') →
  r = Ok tt ∧ ∃ lost', SInv lost' st' ∧ (¬ condemned_again w c → lost' = lost).
Proof.
  intros HS Hk Hrun. assert (HS' := HS). destruct HS' as [Hio Hc HI _ _ _]. simpl in Hio, Hc, HI.
  destruct c as [k|ks|ks|ks ok|ks|i|ks|ks]; cbn [call_keys] in Hk; cbn [mg] in Hk; cbn [run_call] in Hrun.
  - apply Forall_cons in Hk as [Hk _].
    destruct (lookup_attached_ok gi lost (mg w) k HI Hk) as (m'&E&HI'&HK&_).
    destruct (carries_inv lost w js _ _ _ HS E HI' HK) as (w'&Ew&HS').
    rewrite attached_lookup, Ew in Hrun by done. simplify_eq/=. split; [done|]. by exists lost.
  - pose proof (prepare_store_ok gi lost (mg w) ks HI Hk) as Hps. cbv zeta in Hps.
    rewrite attached_store in Hrun by done. destruct (fits gi (mg w) ks).
    + destruct Hps as (_&m'&E&HI'&HK&_).
      destruct (carries_inv lost w js _ _ _ HS E HI' (HK lost)) as (w'&Ew&HS').
      rewrite Ew in Hrun. simplify_eq/=. split; [done|]. by exists lost.
    + assert (HK : keeps gi lost (mg w) (mg w)) by reflexivity.
      destruct (carries_inv lost w js _ _ _ HS Hps HI HK) as (w'&Ew&HS').
      rewrite Ew in Hrun. simplify_eq/=. split; [done|]. by exists lost.
  - destruct (mark_store_failed_ok gi lost (mg w) ks HI) as (m'&E&HI'&HK&_).
    destruct (carries_inv lost w js _ _ _ HS E HI' HK) as (w'&Ew&HS').
    rewrite Ew in Hrun. simplify_eq/=. split; [done|]. by exists lost.
  - destruct (complete_store_ok gi lost (mg w) ks ok HI) as (m'&E&HI'&HK).
    destruct (carries_inv lost w js _ _ _ HS E HI' HK) as (w'&Ew&HS').
    rewrite Ew in Hrun. simplify_eq/=. split; [done|]. by exists lost.
  - destruct (SInv_prepare_load lost w js ks HS Hk) as (w'&Ew&HS'). rewrite Ew in Hrun.
    simplify_eq/=. split; [done|]. by exists lost.
  - destruct (js !! i) as [j|] eqn:Ej.
    + destruct (SInv_complete_load lost w js i j HS Ej) as (w'&Ew&HS'). rewrite Ew in Hrun.
      simplify_eq/=. split; [done|]. by exists lost.
    + simplify_eq. split; [done|]. by exists lost.
  - destruct (mark_load_failed_ok gi lost (mg w) ks HI Hc Hk) as (m'&lost'&E&HI'&HC&_&_&Hl).
    unfold on_mgr in Hrun. rewrite E in Hrun. simplify_eq. split; [done|]. exists lost'. split.
    + by eapply SInv_carries.
    + intros Hn. apply Hl. intros k Hin. destruct (condemned (mg w) !! k) eqn:Ec; [|by left].
      right. intros Hi. apply Hn. exists ks, k. rewrite Ec. eauto.
  - destruct (touch_ok gi lost (mg w) ks HI Hk) as (m'&E&HI'&HK&_).
    destruct (carries_inv lost w js _ _ _ HS E HI' HK) as (w'&Ew&HS').
    rewrite Ew in Hrun. simplify_eq/=. split; [done|]. by exists lost.
Qed.

Lemma SInv_steps lost st st' :
  SInv lost st → rtc session_step st st' → ∃ lost', SInv lost' st'.
Proof.
  intros HS Hs. revert lost HS. induction Hs as [st|st1 st2 st3 Hstep _ IH]; intros lost HS; [eauto|].
  inversion Hstep as [c [w js] r st' Hk Hrun]; subst.
  destruct (SInv_call lost c w js r st2 HS Hk Hrun) as (_&lost'&HS'&_). by eapply IH.
Qed.

(** A freshly attached store, no load in flight. *)
Lemma SInv_init w :
  io (mg w) ≠ None → counts (mg w) ≠ [] → Inv (λ _, []) (mg w) → inflight_load (mg w) = ∅ →
  SInv (λ _, []) (w, []).
Proof.
  intros Hio Hc HI Hl. split; simpl; try done.
  - intros k. unfold loads_of, readers. rewrite Hl, lookup_empty. done.
  - intros k s []%not_elem_of_nil.
  - intros k s []%not_elem_of_nil.
Qed.

(** What holding a slot excludes. *)
Lemma held_excl lost m k s n :
  Inv lost m → counts m !! grp k = Some n → held gi lost m k s →
  (s ∉ default [] (free m !! grp k)) ∧
  (∀ k', inflight_store m !! k' = Some s → grp k' ≠ grp k).
Proof.
  intros HI Hn Hh. pose proof (Inv_NoDup gi lost m (grp k) n HI Hn) as Hnd.
  unfold group_slots in Hnd. rewrite <- !(assoc_L (++)) in Hnd.
  assert (Hin : s ∈ od_vals (default [] (index m !! grp k)) ++ slots_in gi (grp k) (condemned m) ++ lost (grp k)).
  { destruct Hh as [(d&Hd&Hk)|[Hc|Hls]].
    - rewrite Hd. apply elem_of_app. left. apply od_get_elem in Hk. by apply (list_elem_of_fmap_2 snd) in Hk.
    - apply elem_of_app. right. apply elem_of_app. left. apply elem_slots_in. eauto.
    - set_solver. }
  assert (Hp : default [] (free m !! grp k) ++ od_vals (default [] (index m !! grp k)) ++
      slots_in gi (grp k) (inflight_store m) ++ slots_in gi (grp k) (condemned m) ++ lost (grp k) ≡ₚ
      (default [] (free m !! grp k) ++ slots_in gi (grp k) (inflight_store m)) ++
      (od_vals (default [] (index m !! grp k)) ++ slots_in gi (grp k) (condemned m) ++ lost (grp k)))
    by solve_Permutation.
  rewrite Hp in Hnd. apply NoDup_app in Hnd as (_&Hdis&_). split.
  - intros Hf. apply (Hdis s); [set_solver|done].
  - intros k' Hk' Hg. apply (Hdis s); [|done]. apply elem_of_app. right. apply elem_slots_in. eauto.
Qed.

(** * Sessions from a cold start *)

(** A rank directory a manager can attach to: the metadata is readable, the
    files have its geometry, the disk transfers what is asked. *)
Record attachable (sbs cnts : list Z) (w : World) : Prop := {
  at_base : base_found (dk w) = true;
  at_meta : meta_file (dk w) = Meta sbs cnts;
  at_kern : kern (slabs (dk w)) = [];
  at_geo : geometry_ok (mkSlab sbs cnts 0) (opened sbs cnts w);
  at_groups : cnts ≠ [];
  at_new : unattached (mg w);
  at_idle : inflight_load (mg w) = ∅ }.

(** The states of a session: attach, then any calls of the scheduler. *)
Definition reachable (st : World * list job) : Prop :=
  ∃ w sbs cnts w0, attachable sbs cnts w ∧ _attach w = (Ok true, w0) ∧ rtc session_step (w0, []) st.

Lemma attached_SInv sbs cnts w w0 :
  attachable sbs cnts w → _attach w = (Ok true, w0) → SInv (λ _, []) (w0, []).
Proof.
  intros [Hb Hm Hk Hgeo Hne Hu Hl] E.
  destruct (attach_run gi sbs cnts w Hb Hm Hu Hk Hgeo) as (w'&top&_&E'&_&_&C&I&_&L&HI&_).
  rewrite E in E'. simplify_eq. apply SInv_init; try done; congruence.
Qed.

Lemma reachable_SInv st : reachable st → ∃ lost, SInv lost st.
Proof.
  intros (w&sbs&cnts&w0&Ha&E&Hs). eapply SInv_steps; [|exact Hs]. by eapply attached_SInv.
Qed.

(** Calls that condemn no key twice. *)
Inductive clean_step : World * list job → World * list job → Prop :=
  | clean_call c st r st' :
      Forall (λ k, (grp k < length (counts (mg st.1)))%nat) (call_keys c) →
      ¬ condemned_again st.1 c →
      run_call c st = (r, st') → clean_step st st'.

Lemma SInv_clean st st' : SInv (λ _, []) st → rtc clean_step st st' → SInv (λ _, []) st'.
Proof.
  intros HS Hs. induction Hs as [st|st1 st2 st3 Hstep _ IH]; [done|]. apply IH.
  inversion Hstep as [c [w js] r st' Hk Hn Hrun]; subst.
  destruct (SInv_call _ c w js r st2 HS Hk Hrun) as (_&lost'&HS'&Hl). by rewrite <- Hl.
Qed.

(** * Across resets *)

(** A session with its resets: the loads of before a reset are dropped from
    the live ones (the offloading scheduler ignores what becomes of the jobs
    it discarded) but their workers may still be reading, so each is kept
    with the epoch its spec carries. *)
Abbreviation life := ((World * list job) * list (job * Z))%type.

Inductive life_step : life → life → Prop :=
  | life_call st st' stale : session_step st st' → life_step (st, stale) (st', stale)
  | life_reset w js stale r w' :
      reset_cache w = (r, w') →
      life_step ((w, js), stale) ((w', []), ((λ j, (j, epoch (mg w))) <$> js) ++ stale).

(** Attach, then any calls and resets. *)
Definition lives (s : life) : Prop :=
  ∃ w sbs cnts w0, attachable sbs cnts w ∧ _attach w = (Ok true, w0) ∧ rtc life_step ((w0, []), []) s.

(** ** The calls leave the epoch alone *)

Definition same_epoch {A} (f : M Mgr A) : Prop := ∀ m, epoch (f m).2 = epoch m.

Lemma same_epoch_bind {A B} (f : M Mgr A) (k : A → M Mgr B) :
  same_epoch f → (∀ a, same_epoch (k a)) → same_epoch (f ≫= k).
Proof.
  intros Hf Hk m. unfold mbind, M_bind. specialize (Hf m). destruct (f m) as [[a|e] m']; simpl in *; [|done].
  by rewrite Hk.
Qed.
Lemma same_epoch_for_each {A} (l : list A) (f : A → M Mgr unit) :
  (∀ a, same_epoch (f a)) → same_epoch (for_each l f).
Proof. intros Hf. induction l as [|a l IH]; [done|]. by apply same_epoch_bind. Qed.

Ltac epoch_step :=
  first [ apply same_epoch_bind; [|intros ?] | apply same_epoch_for_each; intros ?
        | match goal with |- same_epoch (match ?x with _ => _ end) => destruct x end
        | by intros m; unfold idx_of, free_of, set_idx, set_free_of, lift, raise, gets, modify; simpl ].
Ltac epoch_solve := repeat epoch_step.

Lemma epoch_lookup k : same_epoch (lookup_attached gi k).
Proof. unfold lookup_attached. epoch_solve. Qed.
Lemma epoch_take_slot g protect ev : same_epoch (_take_slot g protect ev).
Proof. unfold _take_slot. epoch_solve. Qed.
Lemma epoch_take_all ks protect ev : same_epoch (take_all gi ks protect ev).
Proof.
  revert ev. induction ks as [|k ks IH]; intros ev; cbn [take_all]; [done|].
  apply same_epoch_bind; [apply epoch_take_slot|]. intros p.
  apply same_epoch_bind; [apply IH|done].
Qed.
Lemma epoch_new_keys ks : same_epoch (new_keys gi ks).
Proof. induction ks; cbn [new_keys]; [done|]. repeat (apply same_epoch_bind; [|intros ?]); done. Qed.
Lemma epoch_preflight need protect : same_epoch (preflight need protect).
Proof.
  induction need as [|[g n] need IH]; cbn [preflight]; [done|].
  apply same_epoch_bind; [epoch_solve|]. intros fr.
  apply same_epoch_bind; [intros m; unfold _evictable; by case_match|]. intros ev. by case_match.
Qed.
Lemma epoch_link i ts ds : same_epoch (link_siblings i ts ds).
Proof.
  revert i. induction ts as [|t ts IH]; intros i; cbn [link_siblings]; [done|].
  apply same_epoch_bind; [cbv zeta; epoch_solve|]. intros _. apply IH.
Qed.
Lemma epoch_prepare_store ks : same_epoch (prepare_store_attached gi ks).
Proof.
  unfold prepare_store_attached. cbv zeta. apply same_epoch_bind; [apply epoch_new_keys|]. intros new.
  apply same_epoch_bind; [apply epoch_preflight|]. intros [|]; cbn [negb]; [|done].
  apply same_epoch_bind; [apply epoch_take_all|]. intros [taken ev].
  apply same_epoch_bind; [unfold put_inflight; epoch_solve|]. intros _.
  apply same_epoch_bind; [apply epoch_link|]. intros _. unfold count_stores. epoch_solve.
Qed.
Lemma epoch_complete_store ks ok : same_epoch (complete_store gi ks ok).
Proof. unfold complete_store, complete_store_one. cbv zeta. epoch_solve. Qed.
Lemma epoch_complete_load ks : same_epoch (complete_load gi ks).
Proof. unfold complete_load, complete_load_one. epoch_solve. Qed.
Lemma epoch_mark_load_failed ks : same_epoch (mark_load_failed gi ks).
Proof. unfold mark_load_failed, mark_load_failed_one, count_load_failure. cbv zeta. epoch_solve. Qed.
Lemma epoch_touch ks : same_epoch (touch gi ks).
Proof. unfold touch, touch_one. epoch_solve. Qed.
Lemma epoch_prepare_load b ks : same_epoch (prepare_load_with gi b ks).
Proof.
  unfold prepare_load_with. apply same_epoch_bind; [|done].
  induction ks as [|k ks IH]; cbn [map_m]; [done|].
  apply same_epoch_bind; [unfold prepare_load_one; epoch_solve|]. intros s.
  by apply same_epoch_bind.
Qed.

Lemma on_mgr_epoch {A} (f : M Mgr A) w : same_epoch f → epoch (mg (on_mgr f w).2) = epoch (mg w).
Proof. intros Hf. unfold on_mgr. specialize (Hf (mg w)). by destruct (f (mg w)). Qed.

Lemma run_call_epoch c w js :
  io (mg w) ≠ None → epoch (mg (run_call c (w, js)).2.1) = epoch (mg w).
Proof.
  intros Hio. destruct c as [k|ks|ks|ks ok|ks|i|ks|ks]; cbn [run_call].
  - rewrite attached_lookup by done. pose proof (on_mgr_epoch _ w (epoch_lookup k)). by destruct (on_mgr _ w).
  - rewrite attached_store by done. pose proof (on_mgr_epoch _ w (epoch_prepare_store ks)). by destruct (on_mgr _ w).
  - done.
  - pose proof (on_mgr_epoch _ w (epoch_complete_store ks ok)). by destruct (on_mgr _ w).
  - rewrite attached_load by done. pose proof (on_mgr_epoch _ w (epoch_prepare_load true ks)). by destruct (on_mgr _ w).
  - destruct (js !! i) as [j|]; [|done].
    pose proof (on_mgr_epoch _ w (epoch_complete_load j.*1)). by destruct (on_mgr _ w).
  - pose proof (on_mgr_epoch _ w (epoch_mark_load_failed ks)). by destruct (on_mgr _ w).
  - pose proof (on_mgr_epoch _ w (epoch_touch ks)). by destruct (on_mgr _ w).
Qed.

(** ** A reset *)

Lemma reset_run lost w js :
  SInv lost (w, js) →
  ∃ w', reset_cache w = (Ok tt, w') ∧ epoch (mg w') = epoch (mg w) + 1 ∧ SInv (λ _, []) (w', []).
Proof.
  intros [Hio Hc [Hw _] _ _ _]. destruct w as [m d]. simpl in *.
  unfold reset_cache. autorewrite with monad. simpl. destruct (io m) as [sl|] eqn:Esl; [|done].
  rewrite run_on_modify, run_write_epoch, run_on_modify. simpl.
  set (m1 := set_io _ _). destruct (clear_groups_run (counts m) 0 m1) as (m2&E&C&Ee&I&Li&Lf&_&Hg).
  { simpl. apply (wf_index _ _ Hw). }
  { simpl. apply (wf_free _ _ Hw). }
  unfold mbind, M_bind, on_mgr, modify. simpl. rewrite E. eexists. split; [done|]. simpl.
  split; [by rewrite Ee|]. apply SInv_init; simpl; try done; [by rewrite I|by rewrite C|].
  simpl in C, Li, Lf. split.
  - split; simpl; rewrite ?C, ?Li, ?Lf; try done; try (intros *; by rewrite lookup_empty).
    + apply (wf_index _ _ Hw).
    + apply (wf_free _ _ Hw).
    + intros g dd Hd. assert (g < length (counts m))%nat as [n Hn]%lookup_lt_is_Some_2.
      { rewrite <- (wf_index _ _ Hw), <- Li. by eapply lookup_lt_Some. }
      destruct (Hg g n Hn) as [Hi _]. simpl in Hi. rewrite Hi in Hd. simplify_eq. constructor.
  - intros g n Hn. simpl in Hn. rewrite C in Hn. destruct (Hg g n Hn) as [Hi Hf]. simpl in Hi, Hf.
    unfold group_slots. simpl. rewrite Hi, Hf. simpl. by rewrite !slots_in_empty, !app_nil_r.
Qed.

(** Loads of before a reset carry an older epoch. *)
Definition life_inv (s : life) : Prop :=
  (∃ lost, SInv lost s.1) ∧ ∀ j e, (j, e) ∈ s.2 → e < epoch (mg s.1.1).

Lemma life_step_inv s s' : life_inv s → life_step s s' → life_inv s'.
Proof.
  intros [[lost HS] Hst] Hstep. destruct Hstep as [st st' stale Hs|w js stale r w' E]; simpl in *.
  - inversion Hs as [c [w js] r st'' Hk Hrun]; subst.
    destruct (SInv_call lost c w js r st' HS Hk Hrun) as (_&lost'&HS'&_). split; [by exists lost'|].
    pose proof (run_call_epoch c w js (si_io _ _ HS)) as He. rewrite Hrun in He.
    intros j e Hin. cbn in He |- *. rewrite He. by eapply Hst.
  - destruct (reset_run lost w js HS) as (w2&E2&He&HS2). rewrite E in E2. simplify_eq.
    split; [by exists (λ _, [])|]. simpl. intros j e [Hin|Hin]%elem_of_app; rewrite He.
    + apply list_elem_of_fmap in Hin as (?&?&_). simplify_eq. lia.
    + specialize (Hst j e Hin). simpl in Hst. lia.
Qed.

Lemma lives_inv s : lives s → life_inv s.
Proof.
  intros (w&sbs&cnts&w0&Ha&E&Hs).
  assert (H0 : life_inv ((w0, []), [])).
  { split; [by eexists; eapply attached_SInv|]. intros j e []%not_elem_of_nil. }
  revert H0. induction Hs as [s|s1 s2 s3 Hstep _ IH]; [done|]. eauto using life_step_inv.
Qed.

(** ** Completing a store *)

Lemma od_get_snoc_ne (d : odict OffloadKey Z) k k' s : k ≠ k' → od_get k (d ++ [(k', s)]) = od_get k d.
Proof. intros Hne. rewrite od_get_app. destruct (od_get k d); [done|]. simpl. by rewrite decide_False. Qed.

(** A key's entry is left alone by the completion of the others. *)
Lemma stored_one_other success m k0 m' k :
  stored_one gi success m k0 m' → k ≠ k0 →
  od_get k (default [] (index m' !! grp k)) = od_get k (default [] (index m !! grp k)) ∧
  inflight_store m' !! k = inflight_store m !! k ∧ (k ∈ failed_store m' → k ∈ failed_store m).
Proof.
  unfold stored_one. intros H Hne. destruct (inflight_store m !! k0) as [s0|]; [|by subst].
  destruct H as (Hs&Hf&H). rewrite Hs, lookup_delete_ne, Hf by done.
  split; [|split; [done|set_solver]]. destruct (success && _).
  - destruct H as ((d&Hd&Hi)&_). rewrite Hi. destruct (decide (grp k = grp k0)) as [He|].
    + rewrite He, list_lookup_insert_eq, Hd by by eapply lookup_lt_Some. simpl.
      by rewrite od_get_snoc_ne.
    + by rewrite list_lookup_insert_ne.
  - destruct H as (Hi&_). by rewrite Hi.
Qed.

Lemma complete_store_indexes lost m ks k s :
  Inv lost m → k ∈ ks → inflight_store m !! k = Some s → k ∉ failed_store m →
  ∃ m', for_each ks (complete_store_one gi true) m = (Ok tt, m') ∧
    od_get k (default [] (index m' !! grp k)) = Some s ∧ Inv lost m' ∧ keeps gi lost m m'.
Proof.
  intros HI Hin Hs Hf.
  assert (Hgen : ∀ ks m, Inv lost m →
    (k ∈ ks ∧ inflight_store m !! k = Some s ∧ k ∉ failed_store m ∨
     inflight_store m !! k = None ∧ od_get k (default [] (index m !! grp k)) = Some s) →
    ∃ m', for_each ks (complete_store_one gi true) m = (Ok tt, m') ∧
      od_get k (default [] (index m' !! grp k)) = Some s ∧ Inv lost m' ∧ keeps gi lost m m');
    [|by apply Hgen; [|left]].
  clear m HI Hin Hs Hf ks. induction ks as [|k0 ks IH]; intros m HI Hor.
  { destruct Hor as [[Hin _]|[_ Hk]]; [by apply not_elem_of_nil in Hin|]. exists m. by split_and!. }
  destruct (complete_store_one_ok gi lost m true k0 HI) as (m1&E1&HI1&HK1&HS1).
  destruct (IH m1 HI1) as (m2&E2&Hk2&HI2&HK2).
  - destruct (decide (k = k0)) as [<-|Hne].
    + right. unfold stored_one in HS1. destruct Hor as [(_&Hs&Hf)|[Hs Hk]].
      * rewrite Hs in HS1. destruct HS1 as (HS&_&HD). rewrite HS. split; [apply lookup_delete_eq|].
        rewrite bool_decide_eq_false_2 in HD by done. simpl in HD. destruct HD as ((d&Hd&Hi)&_).
        rewrite Hi, list_lookup_insert_eq by by eapply lookup_lt_Some. simpl.
        assert (od_get k d = None) by (destruct HI as [Hw _]; by eapply wf_fresh).
        rewrite <- od_set_fresh by done. apply od_get_set.
      * rewrite Hs in HS1. by subst m1.
    + destruct (stored_one_other true m k0 m1 k HS1 Hne) as (H1&H2&H3).
      rewrite H1, H2. destruct Hor as [(Hin&Hs&Hf)|Hr]; [left|by right].
      split; [|split; [done|auto]]. by apply elem_of_cons in Hin as [->|].
  - exists m2. cbn [for_each]. rewrite (M_bind_run _ _ _ _ _ E1). split; [done|]. split; [done|].
    split; [done|]. by transitivity m1.
Qed.
End session.
