(* ===== verification/SlabManagerProps.v ===== *)
(** What the slab manager promises the scheduler and the workers. *)
From S2P Require Import Prelude PyDict Bytes File SlabHeader SlabIO SlabIOProps SlabManager SlabInv SlabOps SlabAlloc SlabAttach SlabSession.
From stdpp Require Import base list list_numbers gmap sets relations.
From Stdlib Require Import ZArith Lia.
#[local] Open Scope Z_scope.

Section props.
Context (gi : OffloadKey → Z).
Local Abbreviation grp := (grp gi).


(** C15: Slots are neither duplicated nor leaked: as long as no key that is
    still condemned fails again, the free, indexed, in-store and condemned
    slots of each group are exactly its slots, each once. *)
Theorem manager_slots_conserved sbs cnts w w0 st g n :
  attachable sbs cnts w → _attach w = (Ok true, w0) → rtc (clean_step gi) (w0, []) st →
  counts (mg st.1) !! g = Some n →
  group_slots gi (mg st.1) g ≡ₚ seqZ 0 n.
Proof.
  intros Ha E Hs Hn. pose proof (SInv_clean gi _ _ (attached_SInv gi _ _ _ _ Ha E) Hs) as HS.
  destruct (si_inv _ _ _ HS) as [_ Hacc]. specialize (Hacc g n Hn). by rewrite app_nil_r in Hacc.
Qed.

(** C11: [prepare_store] computes its specification: the new keys (not indexed,
    not being stored, first occurrences in order) get the slots at the head
    of their group's stock, free slots first, then those of the least
    recently used keys that no load holds and that the call does not name;
    it reports exactly the evicted keys; and when some group's stock is too
    small it answers [None] and changes nothing. It never raises. *)
Theorem manager_prepare_store st keys :
  reachable gi st → Forall (λ k, (grp k < length (counts (mg st.1)))%nat) keys →
  let m := mg st.1 in let new := store_keys gi m keys in let D := plan gi m keys in
  if fits gi m keys then
    ∃ w', prepare_store gi keys st.1 =
        (Ok (Some (mkPSO new (mkSpec new D.*2 (epoch m) (SlabManager.seq m + 1)) (omap fst D))), w') ∧
      length D = length new ∧
      (∀ k, k ∈ omap fst D → (k ∉ keys) ∧ loads_of m k = 0) ∧
      (∀ k s, (k, s) ∈ zip new D.*2 → inflight_store (mg w') !! k = Some s)
  else prepare_store gi keys st.1 = (Ok None, st.1).
Proof.
  intros [lost [Hio _ HI _ _ _]]%reachable_SInv Hk. cbv zeta.
  pose proof (prepare_store_ok gi lost (mg st.1) keys HI Hk) as H. cbv zeta in H.
  rewrite (attached_store gi) by done. unfold on_mgr.
  destruct (fits gi (mg st.1) keys).
  - destruct H as (Hl&m'&E&_&_&Hev&Hin&_). rewrite E. by eexists.
  - rewrite H. by destruct st as [[m d] js].
Qed.

(** A completed store is found again: after [prepare_store] assigned slots
    and [complete_store] reported success, a lookup of each stored key hits,
    and a load of it is sent to the very slot it was written to. *)
Theorem manager_store_lookup st keys out w1 k s :
  reachable gi st → Forall (λ k, (grp k < length (counts (mg st.1)))%nat) keys →
  prepare_store gi keys st.1 = (Ok (Some out), w1) →
  (k, s) ∈ zip (keys_to_store out) (sp_slots (store_spec out)) →
  k ∉ failed_store (mg w1) →
  ∃ w2 w3, on_mgr (complete_store gi (keys_to_store out) true) w1 = (Ok tt, w2) ∧
    SlabManager.lookup gi k w2 = (Ok HIT, w3) ∧
    ∃ sp w4, prepare_load gi [k] w3 = (Ok sp, w4) ∧ sp_slots sp = [s].
Proof.
  intros [lost HS]%reachable_SInv Hk E Hin Hf. assert (HS' := HS). destruct HS' as [Hio Hc HI _ _ _].
  pose proof (prepare_store_ok gi lost (mg st.1) keys HI Hk) as H. cbv zeta in H.
  rewrite (attached_store gi) in E by done. unfold on_mgr in E.
  destruct (fits gi (mg st.1) keys); [|by rewrite H in E].
  destruct H as (Hl&m1&E1&HI1&HK1&_&Hst&_). rewrite E1 in E. simplify_eq/=.
  pose proof (Hst k s Hin) as Hs. pose proof (elem_of_zip_l _ _ _ _ Hin) as Hkk.
  destruct (complete_store_indexes gi lost m1 _ k s HI1 Hkk Hs Hf) as (m2&E2&Hk2&HI2&HK2).
  specialize (HK1 lost). assert (Hio1 : io m1 ≠ None) by by rewrite (keeps_io _ _ _ _ HK1).
  assert (Hio2 : io m2 ≠ None) by by rewrite (keeps_io _ _ _ _ HK2).
  assert (Hidx : index m1 ≠ []).
  { destruct HI1 as [Hw _]. intros Hi. apply wf_index in Hw. rewrite Hi in Hw.
    rewrite (keeps_counts _ _ _ _ HK1) in Hw. simpl in Hw. by destruct (counts (mg st.1)). }
  assert (Hg : (grp k < length (counts m2))%nat).
  { rewrite (keeps_counts _ _ _ _ HK2), (keeps_counts _ _ _ _ HK1).
    pose proof (store_keys_range gi (mg st.1) keys _ Hk) as Hr. rewrite Forall_forall in Hr. by apply Hr. }
  assert (Hstat : status gi m2 k = HIT) by (apply status_hit; eexists; exact Hk2).
  destruct (lookup_attached_ok gi lost m2 k HI2 Hg) as (m3&E3&HI3&HK3&HM3).
  exists (mkWorld m2 (dk st.1)), (mkWorld m3 (dk st.1)).
  split; [|split].
  - unfold on_mgr, complete_store. autorewrite with monad. simpl.
    destruct (index m1) eqn:Ei; [done|]. by rewrite E2.
  - rewrite (attached_lookup gi) by done. unfold on_mgr. simpl. by rewrite E3, Hstat.
  - assert (Hio3 : io m3 ≠ None) by by rewrite (keeps_io _ _ _ _ HK3).
    assert (Hg3 : Forall (λ k, (grp k < length (counts m3))%nat) [k])
      by (constructor; [by rewrite (keeps_counts _ _ _ _ HK3)|constructor]).
    destruct (prepare_load_loop gi lost m3 [k] HI3 Hg3) as [E4 _].
    eexists _, _. split.
    + rewrite (attached_load gi) by done. unfold on_mgr, prepare_load_with.
      rewrite (M_bind_run _ _ _ _ _ E4). reflexivity.
    + simpl. f_equal. unfold slot_of.
      destruct HM3 as (_&_&_&_&Hperm). destruct (Hperm (grp k)) as [(d&d'&Hd&Hd'&Hp)|[Hn _]].
      * rewrite Hd'. rewrite Hd in Hk2. simpl in *.
        assert (NoDup (od_keys d')) by (destruct HI3 as [Hw _]; by eapply wf_keys).
        by rewrite (od_get_perm k d' d), Hk2 by done.
      * by rewrite Hn in Hk2.
Qed.

(** A block a rank could not serve is a miss from then on: after
    [mark_load_failed], no lookup of its key hits, although loads of it may
    still be in flight. *)
Theorem manager_load_failed st keys k :
  reachable gi st → Forall (λ k, (grp k < length (counts (mg st.1)))%nat) keys → k ∈ keys →
  ∃ w1 r w2, on_mgr (mark_load_failed gi keys) st.1 = (Ok tt, w1) ∧
    SlabManager.lookup gi k w1 = (Ok r, w2) ∧ r ≠ HIT.
Proof.
  intros [lost [Hio Hc HI _ _ _]]%reachable_SInv Hk Hin.
  destruct (mark_load_failed_ok gi lost (mg st.1) keys HI Hc Hk) as (m1&lost1&E1&HI1&HC1&Hn&_).
  assert (Hg : (grp k < length (counts m1))%nat).
  { rewrite (carries_counts _ _ _ _ _ HC1). rewrite Forall_forall in Hk. by apply Hk. }
  destruct (lookup_attached_ok gi lost1 m1 k HI1 Hg) as (m2&E2&_).
  exists (mkWorld m1 (dk st.1)), (status gi m1 k), (mkWorld m2 (dk st.1)).
  split; [unfold on_mgr; by rewrite E1|]. split.
  - rewrite (attached_lookup gi) by (simpl; by rewrite (carries_io _ _ _ _ _ HC1)).
    unfold on_mgr. simpl. by rewrite E2.
  - rewrite status_hit. by apply Hn.
Qed.

(** C35: The index [_attach] rebuilds from the slot headers is the newest
    write of every key: a key is indexed exactly when some slot of the group
    has a valid header for it in the current epoch, and at a slot whose
    header has the highest sequence number of those. *)
Theorem manager_attach_newest sbs cnts w w0 g f sb n :
  attachable sbs cnts w → _attach w = (Ok true, w0) → _rebuild (mg w) = true →
  opened sbs cnts w !! g = Some f → sbs !! g = Some sb → cnts !! g = Some n →
  let holds s q k := 0 ≤ s < n ∧ ∃ h, header_at f (Z.to_nat (s * sb)) = Some h ∧
    h_group h = Z.of_nat g ∧ h_epoch h = epoch (mg w0) ∧ h_seq h = q ∧ h_key h = k in
  ∃ d, index (mg w0) !! g = Some d ∧
    (∀ k, is_Some (od_get k d) ↔ ∃ s q, holds s q k) ∧
    (∀ k s, od_get k d = Some s → ∃ q, holds s q k ∧ ∀ s' q', holds s' q' k → q' ≤ q).
Proof.
  intros [Hb Hm Hk Hgeo Hne Hu Hl] E Hr Hf Hsb Hn holds.
  destruct (attach_run gi sbs cnts w Hb Hm Hu Hk Hgeo) as (w'&top&_&E'&He&_&_&_&_&_&_&B).
  rewrite E in E'. simplify_eq. destruct (B g n Hn) as [Hi _]. eexists; split; [exact Hi|].
  rewrite <- He. unfold entries_for. rewrite Hr, Hf. simpl. rewrite Hsb, Hn. split.
  - intros k. rewrite index_entries_has. rewrite list_elem_of_fmap. split.
    + intros ([[s q] k']&->&Hin). exists s, q. by apply elem_scan in Hin.
    + intros (s&q&Hh). exists (s, q, k). split; [done|]. by apply elem_scan.
  - intros k s (q&Hin&Hmax)%index_entries_newest. exists q. apply elem_scan in Hin. split; [done|].
    intros s' q' Hh. apply (Hmax s' q'). by apply elem_scan.
Qed.

(** When the epoch file is missing or corrupt, [_attach] starts above every
    epoch found on disk and publishes it, so no block left on disk is
    indexed, and none would be served to a load of the new epoch. *)
Theorem manager_attach_lost_epoch sbs cnts w w0 g f sb n :
  attachable sbs cnts w → _attach w = (Ok true, w0) → (∀ e, epoch_file (dk w) ≠ EpochIs e) →
  opened sbs cnts w !! g = Some f → sbs !! g = Some sb → cnts !! g = Some n →
  epoch_file (dk w0) = EpochIs (epoch (mg w0)) ∧
  index (mg w0) !! g = Some [] ∧
  ∀ s key len, 0 ≤ s < n →
    read_spec f (Z.to_nat (s * sb)) key len (Some (epoch (mg w0))) = Err OSError.
Proof.
  intros [Hb Hm Hk Hgeo Hne Hu Hl] E Hep Hf Hsb Hn.
  destruct (attach_run gi sbs cnts w Hb Hm Hu Hk Hgeo) as (w'&top&Hmax&E'&He&Hpub&_&_&_&_&_&B).
  rewrite E in E'. simplify_eq. rewrite He. split; [done|].
  assert (Hgt : ∀ s h, 0 ≤ s < n → header_at f (Z.to_nat (s * sb)) = Some h →
    h_epoch h < attach_epoch (mg w) (dk w) top).
  { intros s h Hs Hh. unfold max_epoch in Hmax. simpl files in Hmax.
    rewrite max_epoch_groups_spec in Hmax; [|done|apply Forall_forall; intros ? ?%elem_of_seq; lia].
    pose proof (better_fold (seq 0 (length (opened sbs cnts w)) ≫=
      slot_headers (mkSlab sbs cnts 0) (opened sbs cnts w)) None) as Hbf.
    injection Hmax as Htop. rewrite Htop in Hbf.
    assert (Hin : h ∈ seq 0 (length (opened sbs cnts w)) ≫=
      slot_headers (mkSlab sbs cnts 0) (opened sbs cnts w)).
    { apply list_elem_of_bind. exists g. split.
      - unfold slot_headers. simpl. rewrite Hf, Hsb, Hn. apply list_elem_of_omap. exists s.
        split; [apply elem_of_seqZ; lia|done].
      - apply elem_of_seq. apply lookup_lt_Some in Hf. lia. }
    unfold attach_epoch. destruct (epoch_file (dk w)) as [| |e]; [..|by destruct (Hep e)];
      (destruct top as [t|]; [destruct Hbf as (_&_&Hall); specialize (Hall h Hin); lia|]);
      destruct Hbf as [_ Hnil]; rewrite Hnil in Hin; by apply not_elem_of_nil in Hin. }
  split.
  - destruct (B g n Hn) as [Hi _]. rewrite Hi. do 2 f_equal. unfold entries_for. rewrite Hf. simpl. rewrite Hsb, Hn.
    destruct (_rebuild (mg w)); [|done].
    assert (Hnone : ∀ ss, Forall (λ s, 0 ≤ s < n) ss →
      omap (slot_entry f g sb (attach_epoch (mg w) (dk w) top)) ss = []).
    { induction 1 as [|s ss Hs _ IH]; [done|]. cbn. unfold slot_entry at 1.
      destruct (header_at f _) as [h|] eqn:Eh; [|done]. specialize (Hgt s h Hs Eh).
      rewrite (proj2 (Z.eqb_neq (h_epoch h) _)) by lia. by rewrite andb_false_r. }
    rewrite Hnone; [done|]. apply Forall_forall. intros s ?%elem_of_seqZ. lia.
  - intros s key len Hs. unfold read_spec, block_at.
    destruct (header_at f (Z.to_nat (s * sb))) as [h|] eqn:Eh; [|done].
    destruct (seals h _); [|done]. unfold serves.
    rewrite (proj2 (Z.eqb_neq (h_epoch h) _)); [by rewrite andb_false_r|].
    specialize (Hgt s h Hs Eh). lia.
Qed.

(** [reset_cache] forgets everything: the epoch grows by one and is
    published before the tables are emptied, every slot is free, nothing is
    in flight, and a block sealed under the old epoch or an earlier one is
    never served to a load of the new epoch. *)
Theorem manager_reset st :
  reachable gi st →
  ∃ w', reset_cache st.1 = (Ok tt, w') ∧
    epoch (mg w') = epoch (mg st.1) + 1 ∧ epoch_file (dk w') = EpochIs (epoch (mg w')) ∧
    (∀ g n, counts (mg st.1) !! g = Some n →
       index (mg w') !! g = Some [] ∧ free (mg w') !! g = Some (seqZ 0 n)) ∧
    has_pending_work (mg w') = false ∧ condemned (mg w') = ∅ ∧
    (∀ f off key len h p, block_at f off = Some (h, p) → h_epoch h ≤ epoch (mg st.1) →
       read_spec f off key len (Some (epoch (mg w'))) = Err OSError).
Proof.
  intros [lost [Hio _ [Hw _] _ _ _]]%reachable_SInv. destruct st as [[m d] js]. simpl in *.
  unfold reset_cache. autorewrite with monad. simpl. destruct (io m) as [sl|] eqn:Esl; [|done].
  rewrite run_on_modify, run_write_epoch, run_on_modify. simpl.
  set (m1 := set_io _ _). destruct (clear_groups_run (counts m) 0 m1) as (m2&E&C&Ee&_&_&_&_&Hg).
  { simpl. apply (wf_index _ _ Hw). }
  { simpl. apply (wf_free _ _ Hw). }
  unfold mbind, M_bind, on_mgr, modify. simpl. rewrite E. eexists. split; [done|]. simpl.
  rewrite Ee. simpl. split; [done|]. split; [done|]. split; [intros g n Hn; by apply (Hg g)|].
  split; [by unfold has_pending_work|]. split; [done|].
  intros f off key len h p Hb He. unfold read_spec. rewrite Hb. unfold serves.
  rewrite (proj2 (Z.eqb_neq (h_epoch h) _)) by lia. by rewrite andb_false_r.
Qed.
End props.

(** * A concrete store *)

(** Rank 0 of [os1]: one block of epoch 7 in slot 2 of group 1. *)
Definition world0 : World :=
  mkWorld (new_mgr true) (mkDisk true (Meta [160; 144] [2; 3]) (EpochIs 7) (mkOs (files os1) [])).
Definition world1 : World := (_attach world0).2.

Lemma world0_attachable : attachable [160; 144] [2; 3] world0.
Proof.
  split; try reflexivity; try done.
  - repeat split; try reflexivity; repeat constructor; lia.
Qed.

Lemma world1_attach : _attach world0 = (Ok true, world1).
Proof. vm_compute. reflexivity. Qed.

Definition run_calls (cs : list call) (st : World * list (list (OffloadKey * Z))) :=
  fold_left (λ st c, (run_call gi0 c st).2) cs st.

Fixpoint calls_ok (cs : list call) (st : World * list (list (OffloadKey * Z))) : bool :=
  match cs with
  | [] => true
  | c :: cs => forallb (λ k, (grp gi0 k <? length (counts (mg st.1)))%nat) (call_keys c) &&
               calls_ok cs (run_call gi0 c st).2
  end.

Lemma calls_ok_steps cs st : calls_ok cs st = true → rtc (session_step gi0) st (run_calls cs st).
Proof.
  revert st. induction cs as [|c cs IH]; intros st; simpl; [reflexivity|].
  intros [Hk Hc]%andb_true_iff. eapply rtc_l; [|by apply IH].
  eapply session_call; [|apply surjective_pairing]. apply Forall_forall. intros k Hin.
  rewrite forallb_forall in Hk. apply Nat.ltb_lt, Hk. by apply list_elem_of_In.
Qed.

Lemma run_calls_reachable cs : calls_ok cs (world1, []) = true → reachable gi0 (run_calls cs (world1, [])).
Proof.
  intros H. exists world0, [160; 144], [2; 3], world1. split; [apply world0_attachable|].
  split; [apply world1_attach|]. by apply calls_ok_steps.
Qed.

(** A target of group 0 and three drafter keys are stored, two of them over
    the only free slots of group 1; one is loaded. *)
Definition script0 : list call :=
  [PrepareStore [key0 1 0; key0 2 1]; CompleteStore [key0 1 0; key0 2 1] true;
   SlabSession.Lookup (key0 9 1); PrepareLoad [key0 9 1]; PrepareStore [key0 3 1; key0 4 1]].
Definition state0 := run_calls script0 (world1, []).

Lemma state0_reachable : reachable gi0 state0.
Proof. apply run_calls_reachable. vm_compute. reflexivity. Qed.

(** A reset while that load runs; then the key's slot is stored again. *)
Definition world_reset : World := (reset_cache state0.1).2.
Definition script_reset : list call := [PrepareStore [key0 5 1; key0 6 1; key0 7 1]; PrepareLoad [key0 5 1]].
Definition state_reset := run_calls script_reset (world_reset, []).
Definition stale_reset := (λ j, (j, epoch (mg state0.1))) <$> state0.2.

Lemma calls_life st st' stale :
  rtc (session_step gi0) st st' → rtc (life_step gi0) (st, stale) (st', stale).
Proof. induction 1 as [|st1 st2 st3 Hs _ IH]; [done|]. eapply rtc_l; [by apply life_call|done]. Qed.

Lemma state_reset_lives : lives gi0 (state_reset, stale_reset).
Proof.
  destruct state0_reachable as (w&sbs&cnts&w0&Ha&E&Hs). exists w, sbs, cnts, w0. split; [done|]. split; [done|].
  etrans; [by apply calls_life|]. apply rtc_l with ((world_reset, []), stale_reset).
  - rewrite (surjective_pairing state0) at 1. unfold stale_reset. rewrite <- (app_nil_r (_ <$> _)).
    apply life_reset with (Ok tt). vm_compute. reflexivity.
  - apply calls_life, calls_ok_steps. vm_compute. reflexivity.
Qed.


(** A key fails while loaded, is stored again, and completes. *)
Definition script1 : list call := [PrepareLoad [key0 9 1]; LoadFailed [key0 9 1]; CompleteLoad 0].
Definition state1 := run_calls script1 (world1, []).

(** No call fails a key that is condemned. *)
Fixpoint clean_ok (cs : list call) (st : World * list (list (OffloadKey * Z))) : bool :=
  match cs with
  | [] => true
  | c :: cs =>
    match c with
    | LoadFailed ks => forallb (λ k, bool_decide (condemned (mg st.1) !! k = None)) ks
    | _ => true
    end && clean_ok cs (run_call gi0 c st).2
  end.

Lemma clean_ok_steps cs st :
  calls_ok cs st = true → clean_ok cs st = true → rtc (clean_step gi0) st (run_calls cs st).
Proof.
  revert st. induction cs as [|c cs IH]; intros st; simpl; [reflexivity|].
  intros [Hk Hc]%andb_true_iff [Hn Hc']%andb_true_iff. eapply rtc_l; [|by apply IH].
  eapply clean_call; [..|apply surjective_pairing].
  - apply Forall_forall. intros k Hin. rewrite forallb_forall in Hk.
    apply Nat.ltb_lt, Hk. by apply list_elem_of_In.
  - intros (ks&k&->&Hin&[s Hs]&_). rewrite forallb_forall in Hn.
    apply list_elem_of_In, Hn, bool_decide_eq_true in Hin. congruence.
Qed.

Lemma state1_clean : rtc (clean_step gi0) (world1, []) state1.
Proof. apply clean_ok_steps; vm_compute; reflexivity. Qed.

Lemma manager_slots_conserved_witness :
  rtc (clean_step gi0) (world1, []) state1 ∧ counts (mg state1.1) !! 1%nat = Some 3 ∧
  group_slots gi0 (mg state1.1) 1 ≡ₚ seqZ 0 3.
Proof.
  split; [exact state1_clean|]. split; [reflexivity|].
  apply (manager_slots_conserved gi0 [160; 144] [2; 3] world0 world1 state1 1 3
    world0_attachable world1_attach state1_clean). reflexivity.
Defined.

Definition state2 := run_calls (take 4 script0) (world1, []).
Lemma state2_reachable : reachable gi0 state2.
Proof. apply run_calls_reachable. vm_compute. reflexivity. Qed.

Lemma manager_prepare_store_witness :
  let keys := [key0 3 1; key0 4 1; key0 3 1] in
  let m := mg state2.1 in let new := store_keys gi0 m keys in let D := plan gi0 m keys in
  (new = [key0 3 1; key0 4 1] ∧ D = [(None, 1); (Some (key0 2 1), 0)]) ∧
  if fits gi0 m keys then
    ∃ w', prepare_store gi0 keys state2.1 =
        (Ok (Some (mkPSO new (mkSpec new D.*2 (epoch m) (SlabManager.seq m + 1)) (omap fst D))), w') ∧
      length D = length new ∧
      (∀ k, k ∈ omap fst D → (k ∉ keys) ∧ loads_of m k = 0) ∧
      (∀ k s, (k, s) ∈ zip new D.*2 → inflight_store (mg w') !! k = Some s)
  else prepare_store gi0 keys state2.1 = (Ok None, state2.1).
Proof.
  cbv zeta. split; [split; vm_compute; reflexivity|].
  apply (manager_prepare_store gi0 state2 [key0 3 1; key0 4 1; key0 3 1] state2_reachable).
  repeat constructor; vm_compute; lia.
Defined.

Definition out2 : option PrepareStoreOutput :=
  match (prepare_store gi0 [key0 3 1; key0 4 1] state2.1).1 with Ok (Some o) => Some o | _ => None end.
Definition world2 : World := (prepare_store gi0 [key0 3 1; key0 4 1] state2.1).2.
Definition pso2 : PrepareStoreOutput :=
  mkPSO [key0 3 1; key0 4 1] (mkSpec [key0 3 1; key0 4 1] [1; 0] 7 7) [key0 2 1].

Lemma manager_store_lookup_witness :
  prepare_store gi0 [key0 3 1; key0 4 1] state2.1 = (Ok (Some pso2), world2) ∧
  ∃ w2 w3, on_mgr (complete_store gi0 (keys_to_store pso2) true) world2 = (Ok tt, w2) ∧
    SlabManager.lookup gi0 (key0 4 1) w2 = (Ok HIT, w3) ∧
    ∃ sp w4, prepare_load gi0 [key0 4 1] w3 = (Ok sp, w4) ∧ sp_slots sp = [0].
Proof.
  assert (E : prepare_store gi0 [key0 3 1; key0 4 1] state2.1 = (Ok (Some pso2), world2))
    by (vm_compute; reflexivity).
  split; [exact E|].
  apply (manager_store_lookup gi0 state2 [key0 3 1; key0 4 1] pso2 world2 (key0 4 1) 0 state2_reachable).
  - repeat constructor; vm_compute; lia.
  - exact E.
  - vm_compute. right. left.
  - apply (bool_decide_eq_false_1 (key0 4 1 ∈ failed_store (mg world2))). vm_compute. reflexivity.
Defined.

Lemma manager_load_failed_witness :
  SlabManager.lookup gi0 (key0 9 1) state2.1 = (Ok HIT, (SlabManager.lookup gi0 (key0 9 1) state2.1).2) ∧
  ∃ w1 r w2, on_mgr (mark_load_failed gi0 [key0 9 1]) state2.1 = (Ok tt, w1) ∧
    SlabManager.lookup gi0 (key0 9 1) w1 = (Ok r, w2) ∧ r ≠ HIT.
Proof.
  split; [vm_compute; reflexivity|].
  apply (manager_load_failed gi0 state2 [key0 9 1] (key0 9 1) state2_reachable).
  - repeat constructor; vm_compute; lia.
  - left.
Defined.

Lemma manager_reset_witness :
  reachable gi0 state2 ∧ has_pending_work (mg state2.1) = true ∧
  ∃ w', reset_cache state2.1 = (Ok tt, w') ∧
    epoch (mg w') = epoch (mg state2.1) + 1 ∧ epoch_file (dk w') = EpochIs (epoch (mg w')) ∧
    (∀ g n, counts (mg state2.1) !! g = Some n →
       index (mg w') !! g = Some [] ∧ free (mg w') !! g = Some (seqZ 0 n)) ∧
    has_pending_work (mg w') = false ∧ condemned (mg w') = ∅ ∧
    (∀ f off key len h p, block_at f off = Some (h, p) → h_epoch h ≤ epoch (mg state2.1) →
       read_spec f off key len (Some (epoch (mg w'))) = Err OSError).
Proof.
  split; [exact state2_reachable|]. split; [vm_compute; reflexivity|].
  apply (manager_reset gi0 state2 state2_reachable).
Defined.

Definition file0_1 : file := default [] (opened [160; 144] [2; 3] world0 !! 1%nat).

Lemma manager_attach_newest_witness :
  let holds s q k := 0 ≤ s < 3 ∧ ∃ h, header_at file0_1 (Z.to_nat (s * 144)) = Some h ∧
    h_group h = Z.of_nat 1 ∧ h_epoch h = epoch (mg world1) ∧ h_seq h = q ∧ h_key h = k in
  ∃ d, index (mg world1) !! 1%nat = Some d ∧
    (∀ k, is_Some (od_get k d) ↔ ∃ s q, holds s q k) ∧
    (∀ k s, od_get k d = Some s → ∃ q, holds s q k ∧ ∀ s' q', holds s' q' k → q' ≤ q).
Proof.
  apply (manager_attach_newest gi0 [160; 144] [2; 3] world0 world1 1 file0_1 144 3
    world0_attachable world1_attach); vm_compute; reflexivity.
Defined.

Definition world0' : World :=
  mkWorld (new_mgr true) (mkDisk true (Meta [160; 144] [2; 3]) EpochCorrupt (mkOs (files os1) [])).
Definition world1' : World := (_attach world0').2.

Lemma world0'_attachable : attachable [160; 144] [2; 3] world0'.
Proof.
  split; try reflexivity; try done.
  - repeat split; try reflexivity; repeat constructor; lia.
Qed.

Lemma manager_attach_lost_epoch_witness :
  _attach world0' = (Ok true, world1') ∧ epoch (mg world1') = 8 ∧
  (epoch_file (dk world1') = EpochIs (epoch (mg world1')) ∧
   index (mg world1') !! 1%nat = Some [] ∧
   ∀ s key len, 0 ≤ s < 3 →
     read_spec file0_1 (Z.to_nat (s * 144)) key len (Some (epoch (mg world1'))) = Err OSError).
Proof.
  assert (E : _attach world0' = (Ok true, world1')) by (vm_compute; reflexivity).
  split; [exact E|]. split; [vm_compute; reflexivity|].
  apply (manager_attach_lost_epoch gi0 [160; 144] [2; 3] world0' world1' 1 file0_1 144 3
    world0'_attachable E); [intros e; discriminate|vm_compute; reflexivity..].
Defined.

(** * A leak *)

(** A key fails while a load of it is in flight, is stored and loaded again,
    and fails again before the first load has completed. *)
Definition leak_script : list call :=
  [PrepareLoad [key0 9 1]; LoadFailed [key0 9 1];
   PrepareStore [key0 9 1]; CompleteStore [key0 9 1] true;
   PrepareLoad [key0 9 1]; LoadFailed [key0 9 1];
   CompleteLoad 0; CompleteLoad 0].
Definition leaked := run_calls leak_script (world1, []).

(** [mark_load_failed] overwrites [condemned[k]] when a key that is still
    condemned fails again: after all loads and stores have completed, slot 2
    of group 1 is neither free, indexed, in a store nor condemned, and stays
    out of use until the next reset. *)
Theorem manager_double_failure_leaks :
  reachable gi0 leaked ∧ leaked.2 = [] ∧ has_pending_work (mg leaked.1) = false ∧
  counts (mg leaked.1) !! 1%nat = Some 3 ∧ group_slots gi0 (mg leaked.1) 1 = [1; 0].
Proof.
  split; [apply run_calls_reachable; vm_compute; reflexivity|]. repeat split; vm_compute; reflexivity.
Qed.
