(* ===== verification/Bounce.v ===== *)
(** [BounceController] and [SlabBounceController]: the worker-side state
    machine that moves blocks GPU -> bounce -> disk and back, from
    src/runtime/vllm029/overlay/vllm/v1/kv_offload/tiering/multinode.py.  The
    copy engines and the thread pools are outside: they appear as the queues
    of transfers they were given and as the completions they report. *)
From S2P Require Import Prelude PyDict Bytes File SlabHeader SlabIO SlabManager.
From stdpp Require Import base list list_numbers gmap sets.
From Stdlib Require Import ZArith Lia.
#[local] Open Scope Z_scope.

(** * State *)

(** [_DirectJob], without its clock. *)
Record DirectJob := mkJob {
  job_id : Z;
  store : bool;
  items : list (OffloadKey * Z);
  next_item : nat;
  done_items : nat;
  failed : bool;
  nbytes : Z;
  copies : odict Z (list (Z * OffloadKey));
  reads : odict Z (list Z * list Z * list OffloadKey);
  disk_slots : odict OffloadKey Z;
  job_epoch : Z;
  job_seq : Z }.

Definition set_next n j := mkJob (job_id j) (store j) (items j) n (done_items j) (failed j) (nbytes j) (copies j) (reads j) (disk_slots j) (job_epoch j) (job_seq j).
Definition add_done n j := mkJob (job_id j) (store j) (items j) (next_item j) (done_items j + n) (failed j) (nbytes j) (copies j) (reads j) (disk_slots j) (job_epoch j) (job_seq j).
Definition set_failed b j := mkJob (job_id j) (store j) (items j) (next_item j) (done_items j) b (nbytes j) (copies j) (reads j) (disk_slots j) (job_epoch j) (job_seq j).
Definition set_copies c j := mkJob (job_id j) (store j) (items j) (next_item j) (done_items j) (failed j) (nbytes j) c (reads j) (disk_slots j) (job_epoch j) (job_seq j).
Definition set_reads r j := mkJob (job_id j) (store j) (items j) (next_item j) (done_items j) (failed j) (nbytes j) (copies j) r (disk_slots j) (job_epoch j) (job_seq j).

(** [TransferResult], without its duration. *)
Record TransferResult := mkResult { r_job : Z; r_success : bool; r_size : option Z }.

(** What the controller hands out. [sizes] is the per-group split of
    [GPULoadStoreSpec]. *)
Inductive work :=
  | CopyToBounce (sid : Z) (gpu_ids : list Z) (sizes : list Z) (slots : list Z)
  | StoreTasks (wid jid : Z) (slots_keys : list (Z * OffloadKey))
  | LoadTasks (sid jid : Z) (keys : list OffloadKey) (slots : list Z)
  | CopyToGpu (cid : Z) (slots : list Z) (gpu_ids : list Z) (sizes : list Z).

(** The controller, with the four queues of sub-jobs that are outside. *)
Record BC := mkBC {
  num_groups : nat;
  free : list Z;
  jobs : odict Z DirectJob;
  sub_counter : Z;
  results_store : list TransferResult;
  results_load : list TransferResult;
  sub_to_job : gmap Z Z;
  failed_gpu_blocks : gset Z;
  q_g2b : gset Z; q_files : gset Z; q_read : gset Z; q_b2g : gset Z;
  sent : list work }.

Definition set_free x b := mkBC (num_groups b) x (jobs b) (sub_counter b) (results_store b) (results_load b) (sub_to_job b) (failed_gpu_blocks b) (q_g2b b) (q_files b) (q_read b) (q_b2g b) (sent b).
Definition set_jobs x b := mkBC (num_groups b) (free b) x (sub_counter b) (results_store b) (results_load b) (sub_to_job b) (failed_gpu_blocks b) (q_g2b b) (q_files b) (q_read b) (q_b2g b) (sent b).
Definition set_counter x b := mkBC (num_groups b) (free b) (jobs b) x (results_store b) (results_load b) (sub_to_job b) (failed_gpu_blocks b) (q_g2b b) (q_files b) (q_read b) (q_b2g b) (sent b).
Definition set_results (st : bool) x b :=
  if st then mkBC (num_groups b) (free b) (jobs b) (sub_counter b) x (results_load b) (sub_to_job b) (failed_gpu_blocks b) (q_g2b b) (q_files b) (q_read b) (q_b2g b) (sent b)
  else mkBC (num_groups b) (free b) (jobs b) (sub_counter b) (results_store b) x (sub_to_job b) (failed_gpu_blocks b) (q_g2b b) (q_files b) (q_read b) (q_b2g b) (sent b).
Definition results (st : bool) b := if st then results_store b else results_load b.
Definition set_sub x b := mkBC (num_groups b) (free b) (jobs b) (sub_counter b) (results_store b) (results_load b) x (failed_gpu_blocks b) (q_g2b b) (q_files b) (q_read b) (q_b2g b) (sent b).
Definition set_failed_gpu x b := mkBC (num_groups b) (free b) (jobs b) (sub_counter b) (results_store b) (results_load b) (sub_to_job b) x (q_g2b b) (q_files b) (q_read b) (q_b2g b) (sent b).
Definition set_q_g2b x b := mkBC (num_groups b) (free b) (jobs b) (sub_counter b) (results_store b) (results_load b) (sub_to_job b) (failed_gpu_blocks b) x (q_files b) (q_read b) (q_b2g b) (sent b).
Definition set_q_files x b := mkBC (num_groups b) (free b) (jobs b) (sub_counter b) (results_store b) (results_load b) (sub_to_job b) (failed_gpu_blocks b) (q_g2b b) x (q_read b) (q_b2g b) (sent b).
Definition set_q_read x b := mkBC (num_groups b) (free b) (jobs b) (sub_counter b) (results_store b) (results_load b) (sub_to_job b) (failed_gpu_blocks b) (q_g2b b) (q_files b) x (q_b2g b) (sent b).
Definition set_q_b2g x b := mkBC (num_groups b) (free b) (jobs b) (sub_counter b) (results_store b) (results_load b) (sub_to_job b) (failed_gpu_blocks b) (q_g2b b) (q_files b) (q_read b) x (sent b).
Definition send w b := mkBC (num_groups b) (free b) (jobs b) (sub_counter b) (results_store b) (results_load b) (sub_to_job b) (failed_gpu_blocks b) (q_g2b b) (q_files b) (q_read b) (q_b2g b) (sent b ++ [w]).

(** [__init__] *)
Definition new_bc (n_bounce : Z) (num_groups : nat) : BC :=
  mkBC num_groups (seqZ 0 n_bounce) [] 0 [] [] ∅ ∅ ∅ ∅ ∅ ∅ [].

(** The bounce tensors: tensor, then bounce slot, then bytes. *)
Abbreviation Bounced := (list (list (list byte))).

(** [group_layout]: per group, the tensors a block touches with the bytes of each. *)
Abbreviation Layout := (list (list (nat * Z))).

Section bounce.
Context (get_offload_group_idx : OffloadKey → Z).
Local Abbreviation grp := (grp get_offload_group_idx).

(** * Helpers *)

(** [_sub_id()] *)
Definition _sub_id : M BC Z := λ b, (Ok (sub_counter b + 1), set_counter (sub_counter b + 1) b).

(** The group sizes of [_gpu_spec(keys, gpu_ids)]. *)
Fixpoint group_sizes (keys : list OffloadKey) (sizes : list Z) : res (list Z) :=
  match keys with
  | [] => mret sizes
  | k :: keys =>
    match sizes !! grp k with
    | None => Err IndexError
    | Some n => group_sizes keys (<[grp k := n + 1]> sizes)
    end
  end.

Definition _gpu_spec (keys : list OffloadKey) : M BC (list Z) := λ b,
  (group_sizes keys (replicate (num_groups b) 0), b).

(** Mutation of the job object, in place in [self.jobs]. *)
Definition put_job (j : DirectJob) : M BC unit := modify (λ b, set_jobs (od_set (job_id j) j (jobs b)) b).

(** [self.jobs.get(self._sub_to_job.pop(sid, -1))] *)
Definition pop_sub (sid : Z) : M BC (option DirectJob) := λ b,
  (Ok (od_get (default (-1) (sub_to_job b !! sid)) (jobs b)), set_sub (delete sid (sub_to_job b)) b).

(** [_finish(job)] *)
Definition _finish (j : DirectJob) : M BC unit := modify (λ b,
  let b := set_jobs (od_pop (job_id j) (jobs b)) b in
  set_results (store j) (results (store j) b ++
    [mkResult (job_id j) (negb (failed j)) (if failed j then None else Some (nbytes j))]) b).

Definition finish_if_done (j : DirectJob) : M BC unit :=
  if bool_decide (done_items j = length (items j)) then _finish j else mret tt.

Definition free_slots (slots : list Z) : M BC unit := modify (λ b, set_free (free b ++ slots) b).

(** * The five phases of [pump] *)

(** 1. A GPU->bounce copy is done: hand the slots to the file writers. *)
Definition on_copied (sid : Z) : M BC unit :=
  modify (λ b, set_q_g2b (q_g2b b ∖ {[sid]}) b);;
  oj ← pop_sub sid;
  match oj with
  | None => mret tt
  | Some j =>
    slots_keys ← lift (res_of_option KeyError (od_get sid (copies j)));
    wid ← _sub_id;
    modify (λ b, set_sub (<[wid := job_id j]> (sub_to_job b)) b);;
    put_job (set_copies (od_set wid slots_keys (od_pop sid (copies j))) j);;
    modify (λ b, send (StoreTasks wid (job_id j) slots_keys) (set_q_files ({[wid]} ∪ q_files b) b))
  end.

(** 2. A file write is done: free the slots, count. *)
Definition on_written (r : Z * bool) : M BC unit :=
  let '(wid, ok) := r in
  modify (λ b, set_q_files (q_files b ∖ {[wid]}) b);;
  oj ← pop_sub wid;
  match oj with
  | None => mret tt
  | Some j =>
    slots_keys ← lift (res_of_option KeyError (od_get wid (copies j)));
    free_slots slots_keys.*1;;
    let j := set_failed (failed j || negb ok)
               (add_done (length slots_keys) (set_copies (od_pop wid (copies j)) j)) in
    put_job j;;
    finish_if_done j
  end.

(** 3. A file read is done: copy bounce->GPU, or give up its blocks. *)
Definition on_read (r : Z * bool) : M BC unit :=
  let '(rid, ok) := r in
  modify (λ b, set_q_read (q_read b ∖ {[rid]}) b);;
  oj ← pop_sub rid;
  match oj with
  | None => mret tt
  | Some j =>
    e ← lift (res_of_option KeyError (od_get rid (reads j)));
    let '(slots, gpu_ids, keys) := e in
    let j := set_reads (od_pop rid (reads j)) j in
    if negb ok then
      modify (λ b, set_failed_gpu (failed_gpu_blocks b ∪ list_to_set gpu_ids) b);;
      free_slots slots;;
      let j := add_done (length slots) (set_failed true j) in
      put_job j;;
      finish_if_done j
    else
      cid ← _sub_id;
      modify (λ b, set_sub (<[cid := job_id j]> (sub_to_job b)) b);;
      put_job (set_reads (od_set cid (slots, gpu_ids, keys) (reads j)) j);;
      sizes ← _gpu_spec keys;
      modify (λ b, send (CopyToGpu cid slots gpu_ids sizes) (set_q_b2g ({[cid]} ∪ q_b2g b) b))
  end.

(** 4. A bounce->GPU copy is done: free the slots, count. *)
Definition on_loaded (sid : Z) : M BC unit :=
  modify (λ b, set_q_b2g (q_b2g b ∖ {[sid]}) b);;
  oj ← pop_sub sid;
  match oj with
  | None => mret tt
  | Some j =>
    e ← lift (res_of_option KeyError (od_get sid (reads j)));
    let '(slots, _, _) := e in
    free_slots slots;;
    let j := add_done (length slots) (set_reads (od_pop sid (reads j)) j) in
    put_job j;;
    finish_if_done j
  end.

(** 5. Start a chunk of one job while slots are free. *)
Definition start_chunk (store_pass : bool) (jid : Z) : M BC unit :=
  b ← get;
  match od_get jid (jobs b) with
  | None => mret tt
  | Some j =>
    if negb (eqb (store j) store_pass) || bool_decide (length (items j) ≤ next_item j)%nat ||
       bool_decide (free b = []) then mret tt else
    let n := Nat.min (length (free b)) (length (items j) - next_item j) in
    let chunk := take n (drop (next_item j) (items j)) in
    let slots := take n (free b) in
    modify (λ b, set_free (drop n (free b)) b);;
    let keys := chunk.*1 in
    let gpu_ids := chunk.*2 in
    sid ← _sub_id;
    modify (λ b, set_sub (<[sid := job_id j]> (sub_to_job b)) b);;
    let j := set_next (next_item j + n) j in
    if store j then
      put_job (set_copies (od_set sid (zip slots keys) (copies j)) j);;
      sizes ← _gpu_spec keys;
      modify (λ b, send (CopyToBounce sid gpu_ids sizes slots) (set_q_g2b ({[sid]} ∪ q_g2b b) b))
    else
      put_job (set_reads (od_set sid (slots, gpu_ids, keys) (reads j)) j);;
      modify (λ b, send (LoadTasks sid (job_id j) keys slots) (set_q_read ({[sid]} ∪ q_read b) b))
  end.

(** [for job in list(self.jobs.values())] of one pass; no pass removes a job. *)
Definition start_pass (store_pass : bool) : M BC unit :=
  ids ← gets (λ b, od_keys (jobs b));
  for_each ids (start_chunk store_pass).

Definition start_chunks : M BC unit := start_pass false;; start_pass true.

(** What the copy engines and the thread pools answer when they are polled. *)
Record Engines := mkEngines {
  e_copied : BC → list Z;
  e_written : BC → list (Z * bool);
  e_read : BC → list (Z * bool);
  e_loaded : BC → list Z }.

(** [pump()] *)
Definition pump (e : Engines) : M BC unit :=
  copied ← gets (e_copied e);
  for_each copied on_copied;;
  written ← gets (e_written e);
  for_each written on_written;;
  read ← gets (e_read e);
  for_each read on_read;;
  loaded ← gets (e_loaded e);
  for_each loaded on_loaded;;
  start_chunks.

(** [wait_all(timeout)]: [env n] are the engines at the [n]-th turn of the
    loop, [expired n] says whether the timeout has passed then. *)
Fixpoint wait_all (fuel : nat) (env : nat → Engines) (expired : nat → bool) (n : nat) : M BC unit :=
  match fuel with
  | O => raise OutOfFuel
  | S fuel =>
    js ← gets jobs;
    if bool_decide (js = []) then mret tt else
    pump (env n);;
    if expired n then raise TimeoutError else wait_all fuel env expired (S n)
  end.

(** [take_results(store)] *)
Definition take_results (st : bool) : M BC (list TransferResult) := λ b,
  (Ok (results st b), set_results st [] b).

(** [take_failed_gpu_blocks()] *)
Definition take_failed_gpu_blocks : M BC (gset Z) := λ b,
  (Ok (failed_gpu_blocks b), set_failed_gpu ∅ b).

(** * Submitting *)

(** [block_nbytes(key)] of the file handlers. *)
Definition block_nbytes (layout : Layout) (key : OffloadKey) : res Z :=
  refs ← res_of_option IndexError (layout !! grp key);
  mret (foldr (λ r acc, r.2 + acc) 0 refs).

Fixpoint sum_nbytes (layout : Layout) (keys : list OffloadKey) : res Z :=
  match keys with
  | [] => mret 0
  | k :: keys => n ← block_nbytes layout k; t ← sum_nbytes layout keys; mret (n + t)
  end.

(** [SlabBounceController.submit(job_id, store, spec)] *)
Definition submit (layout : Layout) (jid : Z) (st : bool) (gpu_ids : list Z) (sp : SlabSpec) : M BC bool :=
  if negb (bool_decide (length gpu_ids = length (sp_keys sp))) || bool_decide (sp_keys sp = []) then mret false
  else
    n ← lift (sum_nbytes layout (sp_keys sp));
    modify (λ b, set_jobs (od_set jid
      (mkJob jid st (zip (sp_keys sp) gpu_ids) 0 0 false n [] []
         (fold_left (λ d ks, od_set ks.1 ks.2 d) (zip (sp_keys sp) (sp_slots sp)) [])
         (sp_epoch sp) (sp_seq sp)) (jobs b)) b);;
    mret true.

(** [BounceController.submit], whose spec carries keys only. *)
Definition submit_direct (layout : Layout) (jid : Z) (st : bool) (gpu_ids : list Z) (keys : list OffloadKey) : M BC bool :=
  if negb (bool_decide (length gpu_ids = length keys)) || bool_decide (keys = []) then mret false
  else
    n ← lift (sum_nbytes layout keys);
    modify (λ b, set_jobs (od_set jid (mkJob jid st (zip keys gpu_ids) 0 0 false n [] [] [] 0 0) (jobs b)) b);;
    mret true.

(** * The disk layer of [SlabBounceController] *)

(** [block_views(key, slot)] *)
Definition block_views (layout : Layout) (mem : Bounced) (key : OffloadKey) (slot : Z) : res (list (list byte)) :=
  refs ← res_of_option IndexError (layout !! grp key);
  foldr (λ r acc,
    t ← res_of_option IndexError (mem !! r.1);
    row ← res_of_option IndexError (t !! Z.to_nat slot);
    vs ← acc; mret (take (Z.to_nat r.2) row :: vs)) (mret []) refs.

(** [_store_chunk(job, slots_keys)]: one task, slots written in order. *)
Fixpoint _store_chunk (io : SlabIO) (layout : Layout) (mem : Bounced) (j : DirectJob)
    (slots_keys : list (Z * OffloadKey)) : M Os unit :=
  match slots_keys with
  | [] => mret tt
  | (bounce_slot, key) :: rest =>
    disk_slot ← lift (res_of_option KeyError (od_get key (disk_slots j)));
    views ← lift (block_views layout mem key bounce_slot);
    write get_offload_group_idx io key disk_slot views (job_seq j) (Some (job_epoch j));;
    _store_chunk io layout mem j rest
  end.

(** [_load_one(job, key, bounce_slot)]: the bytes put in the views. *)
Definition _load_one (io : SlabIO) (layout : Layout) (mem : Bounced) (j : DirectJob)
    (key : OffloadKey) (bounce_slot : Z) : M Os (list byte) :=
  disk_slot ← lift (res_of_option KeyError (od_get key (disk_slots j)));
  views ← lift (block_views layout mem key bounce_slot);
  SlabIO.read get_offload_group_idx io key disk_slot views (Some (job_epoch j)).
End bounce.
