(* ===== verification/BounceInv.v ===== *)
(** The bounce controller's invariant: every bounce slot is free or belongs to
    exactly one sub-job in flight, the counters of a job add up, and the
    outstanding transfers are exactly the sub-jobs recorded. *)
From S2P Require Import Prelude PyDict Bytes File SlabHeader SlabIO SlabManager Bounce.
From stdpp Require Import base list list_numbers gmap sets.
From Stdlib Require Import ZArith Lia.
#[local] Open Scope Z_scope.

Section inv.
Context (gi : OffloadKey → Z) (n_bounce : Z).
Local Abbreviation grp := (grp gi).
Implicit Types (b : BC) (j : DirectJob) (sid jid : Z).

(** * What a job has in flight *)

Definition copy_slots j : list Z := concat ((λ e, e.*1) <$> od_vals (copies j)).
Definition read_slots j : list Z := concat ((λ e, e.1.1) <$> od_vals (reads j)).
Definition job_slots j : list Z := copy_slots j ++ read_slots j.
Definition all_slots (js : odict Z DirectJob) : list Z := concat (job_slots <$> od_vals js).

Definition in_flight sid j : Prop := is_Some (od_get sid (copies j)) ∨ is_Some (od_get sid (reads j)).

(** One read's three lists have the same length and its groups exist. *)
Definition read_ok (ng : nat) (e : list Z * list Z * list OffloadKey) : Prop :=
  e.1.1 ≠ [] ∧ length e.1.2 = length e.1.1 ∧ length e.2 = length e.1.1 ∧ Forall (λ k, (grp k < ng)%nat) e.2.

Record job_wf (ng : nat) j : Prop := {
  jo_copies : NoDup (od_keys (copies j));
  jo_reads : NoDup (od_keys (reads j));
  jo_count : (done_items j + length (job_slots j) = next_item j)%nat;
  jo_next : (next_item j ≤ length (items j))%nat;
  jo_groups : Forall (λ k, (grp k < ng)%nat) (items j).*1;
  jo_copy_ok : Forall (λ e, e ≠ []) (od_vals (copies j));
  jo_read_ok : Forall (read_ok ng) (od_vals (reads j));
  jo_kind : if store j then reads j = [] else copies j = [] }.

(** A job of the table is well formed and not finished. *)
Definition job_ok ng j : Prop := job_wf ng j ∧ (done_items j < length (items j))%nat.

Record Inv b : Prop := {
  bi_nodup : NoDup (od_keys (jobs b));
  bi_id jid j : od_get jid (jobs b) = Some j → job_id j = jid;
  bi_job jid j : od_get jid (jobs b) = Some j → job_ok (num_groups b) j;
  bi_slots : free b ++ all_slots (jobs b) ≡ₚ seqZ 0 n_bounce;
  bi_sub sid jid : sub_to_job b !! sid = Some jid ↔ ∃ j, od_get jid (jobs b) = Some j ∧ in_flight sid j;
  bi_fresh sid jid : sub_to_job b !! sid = Some jid → sid ≤ sub_counter b;
  bi_copy sid : sid ∈ q_g2b b ∪ q_files b ↔
    ∃ jid j, od_get jid (jobs b) = Some j ∧ is_Some (od_get sid (copies j));
  bi_read sid : sid ∈ q_read b ∪ q_b2g b ↔
    ∃ jid j, od_get jid (jobs b) = Some j ∧ is_Some (od_get sid (reads j));
  bi_stage1 : q_g2b b ## q_files b;
  bi_stage2 : q_read b ## q_b2g b;
  bi_valid jid : is_Some (od_get jid (jobs b)) → jid ≠ -1 }.

Lemma job_in_flight_copy ng j sid : job_ok ng j → is_Some (od_get sid (copies j)) → store j = true.
Proof.
  intros Hj [x Hx]. pose proof (jo_kind _ _ (proj1 Hj)) as Hk. destruct (store j); [done|].
  rewrite Hk in Hx. done.
Qed.

Lemma job_in_flight_read ng j sid : job_ok ng j → is_Some (od_get sid (reads j)) → store j = false.
Proof.
  intros Hj [x Hx]. pose proof (jo_kind _ _ (proj1 Hj)) as Hk. destruct (store j); [|done].
  rewrite Hk in Hx. done.
Qed.

(** ** Slots *)

Lemma all_slots_pop js jid j :
  od_get jid js = Some j → all_slots js ≡ₚ job_slots j ++ all_slots (od_pop jid js).
Proof.
  intros Hj. unfold all_slots. induction js as [|[jid' j'] js IH]; [done|]. simpl in *.
  case_decide; [by simplify_eq|]. simpl. rewrite IH by done. solve_Permutation.
Qed.

Lemma od_pop_set {V} jid (j : V) (js : odict Z V) : od_pop jid (od_set jid j js) = od_pop jid js.
Proof.
  induction js as [|[k v] js IH]; simpl; [by rewrite decide_True|].
  case_decide; simpl; [by rewrite decide_True|]. rewrite decide_False by done. by rewrite IH.
Qed.

Lemma all_slots_set js jid j :
  all_slots (od_set jid j js) ≡ₚ job_slots j ++ all_slots (od_pop jid js).
Proof. rewrite (all_slots_pop _ jid j) by apply od_get_set. by rewrite od_pop_set. Qed.

Lemma copy_slots_pop (c : odict Z (list (Z * OffloadKey))) sid e :
  od_get sid c = Some e →
  concat ((λ e, e.*1) <$> od_vals c) ≡ₚ e.*1 ++ concat ((λ e, e.*1) <$> od_vals (od_pop sid c)).
Proof.
  intros Hc. induction c as [|[k v] c IH]; [done|]. simpl in *.
  case_decide; [by simplify_eq|]. simpl. rewrite IH by done. solve_Permutation.
Qed.

Lemma read_slots_pop (c : odict Z (list Z * list Z * list OffloadKey)) sid e :
  od_get sid c = Some e →
  concat ((λ e, e.1.1) <$> od_vals c) ≡ₚ e.1.1 ++ concat ((λ e, e.1.1) <$> od_vals (od_pop sid c)).
Proof.
  intros Hc. induction c as [|[k v] c IH]; [done|]. simpl in *.
  case_decide; [by simplify_eq|]. simpl. rewrite IH by done. solve_Permutation.
Qed.

Lemma copy_slots_fresh (c : odict Z (list (Z * OffloadKey))) sid e :
  od_get sid c = None →
  concat ((λ e, e.*1) <$> od_vals (od_set sid e c)) ≡ₚ e.*1 ++ concat ((λ e, e.*1) <$> od_vals c).
Proof.
  intros Hc. rewrite od_set_fresh by done. unfold od_vals. rewrite !fmap_app, concat_app. simpl.
  rewrite app_nil_r. apply Permutation_app_comm.
Qed.

Lemma read_slots_fresh (c : odict Z (list Z * list Z * list OffloadKey)) sid e :
  od_get sid c = None →
  concat ((λ e, e.1.1) <$> od_vals (od_set sid e c)) ≡ₚ e.1.1 ++ concat ((λ e, e.1.1) <$> od_vals c).
Proof.
  intros Hc. rewrite od_set_fresh by done. unfold od_vals. rewrite !fmap_app, concat_app. simpl.
  rewrite app_nil_r. apply Permutation_app_comm.
Qed.

(** ** The rest of the tables when one job changes *)

Lemma jobs_set_get js jid j jid' j' :
  od_get jid' (od_set jid j js) = Some j' ↔
    (jid' = jid ∧ j' = j) ∨ (jid' ≠ jid ∧ od_get jid' js = Some j').
Proof.
  destruct (decide (jid' = jid)) as [->|Hne].
  - rewrite od_get_set. naive_solver.
  - rewrite od_get_set_ne by done. naive_solver.
Qed.

Lemma jobs_pop_get (js : odict Z DirectJob) jid jid' j' :
  NoDup (od_keys js) →
  od_get jid' (od_pop jid js) = Some j' ↔ jid' ≠ jid ∧ od_get jid' js = Some j'.
Proof.
  intros Hn. destruct (decide (jid' = jid)) as [->|Hne].
  - rewrite od_get_pop by done. naive_solver.
  - rewrite od_get_pop_ne by done. naive_solver.
Qed.

Lemma od_get_pop_iff {V} (d : odict Z V) k k' :
  NoDup (od_keys d) → is_Some (od_get k' (od_pop k d)) ↔ k' ≠ k ∧ is_Some (od_get k' d).
Proof.
  intros Hn. destruct (decide (k' = k)) as [->|Hne].
  - rewrite od_get_pop by done. split; [by intros [? [=]]|by intros [? _]].
  - rewrite od_get_pop_ne by done. naive_solver.
Qed.

Lemma od_get_set_iff {V} (d : odict Z V) k v k' :
  is_Some (od_get k' (od_set k v d)) ↔ k' = k ∨ is_Some (od_get k' d).
Proof.
  destruct (decide (k' = k)) as [->|Hne].
  - rewrite od_get_set. split; [by left|by eexists].
  - rewrite od_get_set_ne by done. naive_solver.
Qed.

(** A sub-job belongs to one job. *)
Lemma in_flight_job b sid jid1 j1 jid2 j2 :
  Inv b → od_get jid1 (jobs b) = Some j1 → in_flight sid j1 →
  od_get jid2 (jobs b) = Some j2 → in_flight sid j2 → jid1 = jid2 ∧ j1 = j2.
Proof.
  intros HI H1 F1 H2 F2.
  assert (S1 : sub_to_job b !! sid = Some jid1) by (apply (bi_sub _ HI); eauto).
  assert (S2 : sub_to_job b !! sid = Some jid2) by (apply (bi_sub _ HI); eauto).
  split; congruence.
Qed.

(** The job a queued copy or read belongs to. *)
Lemma queued_copy b sid :
  Inv b → sid ∈ q_g2b b ∪ q_files b →
  ∃ jid j sks, sub_to_job b !! sid = Some jid ∧ od_get jid (jobs b) = Some j ∧ jid ≠ -1 ∧
    od_get sid (copies j) = Some sks ∧ store j = true ∧ job_ok (num_groups b) j ∧ job_id j = jid.
Proof.
  intros HI (jid&j&Hj&[sks Hs])%(bi_copy _ HI). exists jid, j, sks.
  assert (job_ok (num_groups b) j) by (by eapply bi_job).
  split_and!; try done.
  - apply (bi_sub _ HI). exists j. split; [done|]. left. by eexists.
  - apply (bi_valid _ HI). by eexists.
  - eapply job_in_flight_copy; [done|by eexists].
  - by eapply bi_id.
Qed.

Lemma queued_read b sid :
  Inv b → sid ∈ q_read b ∪ q_b2g b →
  ∃ jid j e, sub_to_job b !! sid = Some jid ∧ od_get jid (jobs b) = Some j ∧ jid ≠ -1 ∧
    od_get sid (reads j) = Some e ∧ store j = false ∧ job_ok (num_groups b) j ∧ job_id j = jid.
Proof.
  intros HI (jid&j&Hj&[e He])%(bi_read _ HI). exists jid, j, e.
  assert (job_ok (num_groups b) j) by (by eapply bi_job).
  split_and!; try done.
  - apply (bi_sub _ HI). exists j. split; [done|]. right. by eexists.
  - apply (bi_valid _ HI). by eexists.
  - eapply job_in_flight_read; [done|by eexists].
  - by eapply bi_id.
Qed.

(** * One job changes *)

Definition q_copy b : gset Z := q_g2b b ∪ q_files b.
Definition q_load b : gset Z := q_read b ∪ q_b2g b.

(** The tables around a job [j] that becomes [j'], or leaves. *)
Record around b j j' b' : Prop := {
  ar_groups : num_groups b' = num_groups b;
  ar_sub sid jid : sub_to_job b' !! sid = Some jid ↔
    (jid ≠ job_id j ∧ sub_to_job b !! sid = Some jid) ∨ (jid = job_id j ∧ in_flight sid j');
  ar_fresh sid : in_flight sid j' → sid ≤ sub_counter b';
  ar_counter : sub_counter b ≤ sub_counter b';
  ar_slots : free b' ++ job_slots j' ≡ₚ free b ++ job_slots j;
  ar_copy sid : sid ∈ q_copy b' ↔
    (sid ∈ q_copy b ∧ ¬ is_Some (od_get sid (copies j))) ∨ is_Some (od_get sid (copies j'));
  ar_read sid : sid ∈ q_load b' ↔
    (sid ∈ q_load b ∧ ¬ is_Some (od_get sid (reads j))) ∨ is_Some (od_get sid (reads j'));
  ar_stage1 : q_g2b b' ## q_files b';
  ar_stage2 : q_read b' ## q_b2g b' }.

Lemma around_queue b j (P : Z → DirectJob → Prop) (Q Q' : gset Z) (P' : Z → Prop) js' :
  Inv b → od_get (job_id j) (jobs b) = Some j →
  (∀ sid j, P sid j → in_flight sid j) →
  (∀ sid, sid ∈ Q ↔ ∃ jid j, od_get jid (jobs b) = Some j ∧ P sid j) →
  (∀ sid, sid ∈ Q' ↔ (sid ∈ Q ∧ ¬ P sid j) ∨ P' sid) →
  (∀ sid, (∃ jid j2, od_get jid js' = Some j2 ∧ P sid j2) ↔
     (∃ jid j2, jid ≠ job_id j ∧ od_get jid (jobs b) = Some j2 ∧ P sid j2) ∨ P' sid) →
  ∀ sid, sid ∈ Q' ↔ ∃ jid j2, od_get jid js' = Some j2 ∧ P sid j2.
Proof.
  intros HI Hj HP HQ HQ' Hjs sid. rewrite HQ', Hjs, HQ. split.
  - intros [[(jid&j2&H2&P2) Hn]|H]; [left|by right]. exists jid, j2. split; [|done].
    intros ->. simplify_eq. done.
  - intros [(jid&j2&Hne&H2&P2)|H]; [left|by right]. split; [by exists jid, j2|].
    intros Pj. apply Hne. by destruct (in_flight_job b sid jid j2 (job_id j) j HI H2 (HP _ _ P2) Hj (HP _ _ Pj)).
Qed.

Lemma Inv_set b j j' b' :
  Inv b → od_get (job_id j) (jobs b) = Some j → job_id j' = job_id j →
  jobs b' = od_set (job_id j) j' (jobs b) → job_ok (num_groups b) j' → around b j j' b' → Inv b'.
Proof.
  intros HI Hj Hid Hjs Hok [Hng Hsub Hfr Hcnt Hsl Hqc Hqr Hs1 Hs2].
  assert (Hget := λ jid j2, jobs_set_get (jobs b) (job_id j) j' jid j2). rewrite <- Hjs in Hget.
  assert (HPP : ∀ (P : Z → DirectJob → Prop) sid,
    (∃ jid j2, od_get jid (jobs b') = Some j2 ∧ P sid j2) ↔
     (∃ jid j2, jid ≠ job_id j ∧ od_get jid (jobs b) = Some j2 ∧ P sid j2) ∨ P sid j').
  { intros P sid. setoid_rewrite Hget. split.
    - intros (jid&j2&[[-> ->]|[Hne H2]]&HP); [by right|left; eauto].
    - intros [(jid&j2&Hne&H2&HP)|HP]; [exists jid, j2; auto|exists (job_id j), j'; auto]. }
  split.
  - rewrite Hjs. apply od_set_nodup, HI.
  - intros jid j2 [[-> ->]|[_ H2]]%Hget; [done|by eapply bi_id].
  - rewrite Hng. intros jid j2 [[-> ->]|[_ H2]]%Hget; [done|by eapply bi_job].
  - rewrite Hjs, all_slots_set, (assoc_L (++)), Hsl, <- (assoc_L (++)), <- (all_slots_pop _ _ _ Hj). apply HI.
  - intros sid jid. rewrite Hsub, (bi_sub _ HI). setoid_rewrite Hget. split.
    + intros [[Hne (j2&H2&HF)]|[-> HF]]; [exists j2; auto|exists j'; auto].
    + intros (j2&[[-> ->]|[Hne H2]]&HF); [by right|left; eauto].
  - intros sid jid [[_ Hx]|[_ HF]]%Hsub; [|by apply Hfr]. apply (bi_fresh _ HI) in Hx. lia.
  - apply (around_queue b j (λ sid j, is_Some (od_get sid (copies j))) (q_copy b) (q_copy b')
      (λ sid, is_Some (od_get sid (copies j'))) (jobs b') HI Hj); try done.
    + intros. by left.
    + apply HI.
    + intros sid. apply (HPP (λ sid j, is_Some (od_get sid (copies j)))).
  - apply (around_queue b j (λ sid j, is_Some (od_get sid (reads j))) (q_load b) (q_load b')
      (λ sid, is_Some (od_get sid (reads j'))) (jobs b') HI Hj); try done.
    + intros. by right.
    + apply HI.
    + intros sid. apply (HPP (λ sid j, is_Some (od_get sid (reads j)))).
  - done.
  - done.
  - intros jid [j2 [[-> ->]|[_ H2]]%Hget]; apply (bi_valid _ HI); by eexists.
Qed.

Lemma Inv_pop b j j' b' :
  Inv b → od_get (job_id j) (jobs b) = Some j → jobs b' = od_pop (job_id j) (jobs b) →
  copies j' = [] → reads j' = [] → around b j j' b' → Inv b'.
Proof.
  intros HI Hj Hjs Hc Hr [Hng Hsub Hfr Hcnt Hsl Hqc Hqr Hs1 Hs2].
  assert (Hget := λ jid j2, jobs_pop_get (jobs b) (job_id j) jid j2 (bi_nodup _ HI)). rewrite <- Hjs in Hget.
  assert (HnoF : ∀ sid, ¬ in_flight sid j').
  { intros sid [H|H]; [rewrite Hc in H|rewrite Hr in H]; by destruct H as [? [=]]. }
  assert (HPP : ∀ (P : Z → DirectJob → Prop) (P' : Z → Prop) sid, ¬ P' sid →
    (∃ jid j2, od_get jid (jobs b') = Some j2 ∧ P sid j2) ↔
     (∃ jid j2, jid ≠ job_id j ∧ od_get jid (jobs b) = Some j2 ∧ P sid j2) ∨ P' sid).
  { intros P P' sid HP'. setoid_rewrite Hget. split.
    - intros (jid&j2&[Hne H2]&HP); left; eauto.
    - intros [(jid&j2&Hne&H2&HP)|HP]; [exists jid, j2; auto|done]. }
  split.
  - rewrite Hjs. apply od_pop_nodup, HI.
  - intros jid j2 [_ H2]%Hget. by eapply bi_id.
  - rewrite Hng. intros jid j2 [_ H2]%Hget. by eapply bi_job.
  - assert (Hjz : job_slots j' = []) by (unfold job_slots, copy_slots, read_slots; by rewrite Hc, Hr).
    rewrite Hjz, app_nil_r in Hsl. rewrite Hjs, Hsl, <- (assoc_L (++)), <- (all_slots_pop _ _ _ Hj). apply HI.
  - intros sid jid. rewrite Hsub, (bi_sub _ HI). setoid_rewrite Hget. split.
    + intros [[Hne (j2&H2&HF)]|[-> HF]]; [exists j2; auto|by destruct (HnoF sid)].
    + intros (j2&[Hne H2]&HF). left. eauto.
  - intros sid jid [[_ Hx]|[_ HF]]%Hsub; [|by apply Hfr]. apply (bi_fresh _ HI) in Hx. lia.
  - apply (around_queue b j (λ sid j, is_Some (od_get sid (copies j))) (q_copy b) (q_copy b')
      (λ sid, is_Some (od_get sid (copies j'))) (jobs b') HI Hj); try done.
    + intros. by left.
    + apply HI.
    + intros sid. apply (HPP (λ sid j, is_Some (od_get sid (copies j))) (λ sid, is_Some (od_get sid (copies j')))).
      intros ?. apply (HnoF sid). by left.
  - apply (around_queue b j (λ sid j, is_Some (od_get sid (reads j))) (q_load b) (q_load b')
      (λ sid, is_Some (od_get sid (reads j'))) (jobs b') HI Hj); try done.
    + intros. by right.
    + apply HI.
    + intros sid. apply (HPP (λ sid j, is_Some (od_get sid (reads j))) (λ sid, is_Some (od_get sid (reads j')))).
      intros ?. apply (HnoF sid). by right.
  - done.
  - done.
  - intros jid [j2 [_ H2]%Hget]; apply (bi_valid _ HI); by eexists.
Qed.

(** * Counting a chunk as done *)

Lemma job_wf_closed ng j :
  job_wf ng j → done_items j = length (items j) → copies j = [] ∧ reads j = [].
Proof.
  intros [_ _ Hc Hn _ Hco Hro _] Hd.
  assert (Hz : length (job_slots j) = 0%nat) by lia. unfold job_slots in Hz. rewrite length_app in Hz.
  unfold copy_slots, read_slots in Hz. split.
  - destruct (copies j) as [|[k e] c]; [done|]. simpl in *. apply Forall_cons in Hco as [He _].
    rewrite length_app, length_fmap in Hz. destruct e; [done|]. simpl in Hz. lia.
  - destruct (reads j) as [|[k e] c]; [done|]. simpl in *. apply Forall_cons in Hro as [[He _] _].
    rewrite length_app in Hz. simpl in *. destruct e.1.1; [done|]. simpl in Hz. lia.
Qed.

(** The result a finished job reports. *)
Definition result_of j : TransferResult :=
  mkResult (job_id j) (negb (failed j)) (if failed j then None else Some (nbytes j)).

(** What a phase may do to the job table and the results: nothing, or one job
    that is completely done leaves with its result. *)
Definition reported b j' b' : Prop :=
  if decide (done_items j' = length (items j'))
  then results (store j') b' = results (store j') b ++ [result_of j'] ∧
       results (negb (store j')) b' = results (negb (store j')) b ∧
       jobs b' = od_pop (job_id j') (jobs b)
  else results_store b' = results_store b ∧ results_load b' = results_load b ∧
       jobs b' = od_set (job_id j') j' (jobs b).

Lemma put_finish b j j' b1 :
  Inv b → od_get (job_id j) (jobs b) = Some j → job_id j' = job_id j →
  jobs b1 = jobs b → job_wf (num_groups b) j' → around b j j' b1 →
  ∃ b', (put_job j';; finish_if_done j') b1 = (Ok tt, b') ∧ Inv b' ∧ reported b1 j' b' ∧
    num_groups b' = num_groups b ∧ (∀ sid, sid ∈ q_g2b b' ↔ sid ∈ q_g2b b1) ∧
    q_files b' = q_files b1 ∧ q_read b' = q_read b1 ∧ q_b2g b' = q_b2g b1.
Proof.
  intros HI Hj Hid Hjs Hwf Har. unfold put_job. autorewrite with monad. unfold finish_if_done, reported.
  pose proof (ar_groups _ _ _ _ Har) as Hng.
  destruct (decide (done_items j' = length (items j'))) as [Hd|Hd];
    [rewrite bool_decide_eq_true_2 by done|rewrite bool_decide_eq_false_2 by done].
  - unfold _finish, modify. eexists. split; [done|].
    destruct (job_wf_closed _ _ Hwf Hd) as [Hc Hr]. split; [|split].
    + apply (Inv_pop b j j'); try done.
      * destruct (store j'); simpl; rewrite Hid, Hjs; apply od_pop_set.
      * destruct Har. destruct (store j'); by split.
    + destruct (store j'); simpl; split_and!; try done; by rewrite od_pop_set.
    + by destruct (store j').
  - eexists. split; [done|]. split; [|by split_and!].
    apply (Inv_set b j j'); try done; simpl.
    + by rewrite Hid, Hjs.
    + split; [done|]. pose proof (jo_count _ _ Hwf). pose proof (jo_next _ _ Hwf). lia.
    + destruct Har. by split.
Qed.

(** * Building [around] *)

Lemma sub_of_job b j sid :
  Inv b → od_get (job_id j) (jobs b) = Some j →
  sub_to_job b !! sid = Some (job_id j) ↔ in_flight sid j.
Proof.
  intros HI Hj. rewrite (bi_sub _ HI). split; [|eauto]. intros (j2&H2&HF). by simplify_eq.
Qed.

(** The sub-job table after [rem] was popped and [add] registered. *)
Definition resub (rem add : option Z) jid (m : gmap Z Z) : gmap Z Z :=
  let m := match rem with Some x => delete x m | None => m end in
  match add with Some y => <[y := jid]> m | None => m end.

Lemma around_sub b j j' rem add m c :
  Inv b → od_get (job_id j) (jobs b) = Some j →
  (∀ sid, in_flight sid j' ↔ (Some sid ≠ rem ∧ in_flight sid j) ∨ Some sid = add) →
  (∀ x, rem = Some x → in_flight x j) →
  m = resub rem add (job_id j) (sub_to_job b) →
  (add = None ∧ c = sub_counter b ∨ add = Some (sub_counter b + 1) ∧ c = sub_counter b + 1) →
  (∀ sid jid, m !! sid = Some jid ↔
    (jid ≠ job_id j ∧ sub_to_job b !! sid = Some jid) ∨ (jid = job_id j ∧ in_flight sid j')) ∧
  (∀ sid, in_flight sid j' → sid ≤ c) ∧ sub_counter b ≤ c.
Proof.
  intros HI Hj HF Hrem -> Hadd.
  assert (Hnew : sub_to_job b !! (sub_counter b + 1) = None).
  { destruct (sub_to_job b !! (sub_counter b + 1)) as [jid|] eqn:E; [|done].
    apply (bi_fresh _ HI) in E. lia. }
  assert (Hold : ∀ sid, in_flight sid j → sid ≤ sub_counter b).
  { intros sid Hs. apply (sub_of_job b j sid HI Hj) in Hs. by apply (bi_fresh _ HI) in Hs. }
  assert (Hdel : ∀ sid jid, (match rem with Some x => delete x (sub_to_job b) | None => sub_to_job b end) !! sid
     = Some jid ↔ Some sid ≠ rem ∧ sub_to_job b !! sid = Some jid).
  { intros sid jid. destruct rem as [x|]; [rewrite lookup_delete_Some|]; naive_solver. }
  assert (Hother : ∀ sid jid, jid ≠ job_id j → sub_to_job b !! sid = Some jid → Some sid ≠ rem).
  { intros sid jid Hne H Hs. symmetry in Hs. apply Hrem in Hs.
    apply (sub_of_job b j sid HI Hj) in Hs. congruence. }
  split; [|split].
  - intros sid jid. rewrite HF. unfold resub. destruct Hadd as [[-> _]|[-> _]]; cbv zeta.
    + rewrite Hdel. destruct (decide (jid = job_id j)) as [->|Hne].
      * rewrite (sub_of_job b j sid HI Hj).
        split; [intros H; right; split; [done|by left]|by intros [[? _]|[_ [H|[=]]]]].
      * split; [intros [_ H]; by left|]. intros [[_ H]|[? _]]; [|done]. split; [|done].
        by apply (Hother sid jid).
    + rewrite lookup_insert_Some, Hdel. destruct (decide (jid = job_id j)) as [->|Hne].
      * rewrite (sub_of_job b j sid HI Hj). split.
        -- intros [[<- _]|(_&H1&H2)]; right; (split; [done|]); [by right|by left].
        -- intros [[? _]|(_&[[H1 H2]|[= ->]])]; [done| |by left]. right. split; [|done].
           intros <-. apply Hold in H2. lia.
      * split; [intros [[_ ?]|(_&_&H)]; [done|by left]|]. intros [[_ H]|[? _]]; [|done]. right.
        assert (sub_counter b + 1 ≠ sid) by congruence. split; [done|]. split; [|done].
        by apply (Hother sid jid).
  - intros sid [[_ H]|H]%HF; destruct Hadd as [[-> ->]|[-> ->]]; try done; [by apply Hold| |].
    + apply Hold in H. lia.
    + injection H as ->. lia.
  - destruct Hadd as [[_ ->]|[_ ->]]; lia.
Qed.

(** A queue after [rem] left it and [add] entered. *)
Lemma around_queue_set (Q Q' : gset Z) (P P' : Z → Prop) (rem add : option Z) :
  (∀ sid, Decision (P sid)) →
  (∀ sid, P sid → sid ∈ Q) → (∀ sid, P' sid ↔ (Some sid ≠ rem ∧ P sid) ∨ Some sid = add) →
  (∀ x, rem = Some x → P x) →
  (∀ sid, sid ∈ Q' ↔ (sid ∈ Q ∧ Some sid ≠ rem) ∨ Some sid = add) →
  ∀ sid, sid ∈ Q' ↔ (sid ∈ Q ∧ ¬ P sid) ∨ P' sid.
Proof.
  intros Hdec HPQ HP' Hrem HQ' sid. rewrite HQ', HP'. split.
  - intros [[HQ Hn]|Ha]; [|by right; right]. destruct (decide (P sid)); [right; left; done|by left].
  - intros [[HQ Hn]|[[Hn HP]|Ha]]; [left|left|by right].
    + split; [done|]. intros Hs. symmetry in Hs. by apply Hn, Hrem.
    + split; [by apply HPQ|done].
Qed.

Lemma copy_queued b j sid :
  Inv b → od_get (job_id j) (jobs b) = Some j → is_Some (od_get sid (copies j)) → sid ∈ q_copy b.
Proof. intros HI Hj Hs. apply (bi_copy _ HI). eauto. Qed.
Lemma read_queued b j sid :
  Inv b → od_get (job_id j) (jobs b) = Some j → is_Some (od_get sid (reads j)) → sid ∈ q_load b.
Proof. intros HI Hj Hs. apply (bi_read _ HI). eauto. Qed.

(** One store's sub-job [rem] gives way to [add]. *)
Lemma around_copy b j j' b' (rem add : option Z) :
  Inv b → od_get (job_id j) (jobs b) = Some j → reads j' = reads j →
  (∀ sid, is_Some (od_get sid (copies j')) ↔
     (Some sid ≠ rem ∧ is_Some (od_get sid (copies j))) ∨ Some sid = add) →
  (∀ x, rem = Some x → is_Some (od_get x (copies j)) ∧ od_get x (reads j) = None) →
  num_groups b' = num_groups b →
  sub_to_job b' = resub rem add (job_id j) (sub_to_job b) →
  (add = None ∧ sub_counter b' = sub_counter b ∨
   add = Some (sub_counter b + 1) ∧ sub_counter b' = sub_counter b + 1) →
  free b' ++ job_slots j' ≡ₚ free b ++ job_slots j →
  (∀ sid, sid ∈ q_copy b' ↔ (sid ∈ q_copy b ∧ Some sid ≠ rem) ∨ Some sid = add) →
  q_read b' = q_read b → q_b2g b' = q_b2g b → q_g2b b' ## q_files b' →
  around b j j' b'.
Proof.
  intros HI Hj Hr Hc Hrem Hng Hsub Hadd Hsl Hq Hqr Hqb Hst.
  destruct (around_sub b j j' rem add (sub_to_job b') (sub_counter b') HI Hj) as (A1&A2&A3); try done.
  { intros sid. unfold in_flight. rewrite Hc, Hr. split.
    - intros [[[H1 H2]|H]|H]; [left; tauto|by right|left]. split; [|by right].
      intros Hs. symmetry in Hs. apply Hrem in Hs as [_ Hs]. rewrite Hs in H. by destruct H as [? [=]].
    - intros [[H1 [H2|H2]]|H]; tauto. }
  { intros x Hx. left. by apply Hrem in Hx as [? _]. }
  split; try done.
  - apply (around_queue_set (q_copy b) (q_copy b') (λ sid, is_Some (od_get sid (copies j)))
      (λ sid, is_Some (od_get sid (copies j'))) rem add); try done.
    + intros sid. apply _.
    + intros sid. by apply copy_queued.
    + intros x Hx. by apply Hrem in Hx as [? _].
  - apply (around_queue_set (q_load b) (q_load b') (λ sid, is_Some (od_get sid (reads j)))
      (λ sid, is_Some (od_get sid (reads j'))) None None); try done.
    + intros sid. apply _.
    + intros sid. by apply read_queued.
    + intros sid. rewrite Hr. naive_solver.
    + intros sid. unfold q_load. rewrite Hqr, Hqb. naive_solver.
  - rewrite Hqr, Hqb. apply HI.
Qed.

(** One load's sub-job [rem] gives way to [add]. *)
Lemma around_read b j j' b' (rem add : option Z) :
  Inv b → od_get (job_id j) (jobs b) = Some j → copies j' = copies j →
  (∀ sid, is_Some (od_get sid (reads j')) ↔
     (Some sid ≠ rem ∧ is_Some (od_get sid (reads j))) ∨ Some sid = add) →
  (∀ x, rem = Some x → is_Some (od_get x (reads j)) ∧ od_get x (copies j) = None) →
  num_groups b' = num_groups b →
  sub_to_job b' = resub rem add (job_id j) (sub_to_job b) →
  (add = None ∧ sub_counter b' = sub_counter b ∨
   add = Some (sub_counter b + 1) ∧ sub_counter b' = sub_counter b + 1) →
  free b' ++ job_slots j' ≡ₚ free b ++ job_slots j →
  (∀ sid, sid ∈ q_load b' ↔ (sid ∈ q_load b ∧ Some sid ≠ rem) ∨ Some sid = add) →
  q_g2b b' = q_g2b b → q_files b' = q_files b → q_read b' ## q_b2g b' →
  around b j j' b'.
Proof.
  intros HI Hj Hr Hc Hrem Hng Hsub Hadd Hsl Hq Hqr Hqb Hst.
  destruct (around_sub b j j' rem add (sub_to_job b') (sub_counter b') HI Hj) as (A1&A2&A3); try done.
  { intros sid. unfold in_flight. rewrite Hc, Hr. split.
    - intros [H|[[H1 H2]|H]]; [left|left; tauto|by right]. split; [|by left].
      intros Hs. symmetry in Hs. apply Hrem in Hs as [_ Hs]. rewrite Hs in H. by destruct H as [? [=]].
    - intros [[H1 [H2|H2]]|H]; tauto. }
  { intros x Hx. right. by apply Hrem in Hx as [? _]. }
  split; try done.
  - apply (around_queue_set (q_copy b) (q_copy b') (λ sid, is_Some (od_get sid (copies j)))
      (λ sid, is_Some (od_get sid (copies j'))) None None); try done.
    + intros sid. apply _.
    + intros sid. by apply copy_queued.
    + intros sid. rewrite Hr. naive_solver.
    + intros sid. unfold q_copy. rewrite Hqr, Hqb. naive_solver.
  - apply (around_queue_set (q_load b) (q_load b') (λ sid, is_Some (od_get sid (reads j)))
      (λ sid, is_Some (od_get sid (reads j'))) rem add); try done.
    + intros sid. apply _.
    + intros sid. by apply read_queued.
    + intros x Hx. by apply Hrem in Hx as [? _].
  - rewrite Hqr, Hqb. apply HI.
Qed.
End inv.
