(* ===== verification/BounceOps.v ===== *)
(** Each phase of [pump] on one completion: it does not raise, keeps the
    invariant, and either updates one job in place or reports it finished. *)
From S2P Require Import Prelude PyDict Bytes File SlabHeader SlabIO SlabManager Bounce BounceInv.
From stdpp Require Import base list list_numbers gmap sets.
From Stdlib Require Import ZArith Lia.
#[local] Open Scope Z_scope.

Section ops.
Context (gi : OffloadKey → Z) (n_bounce : Z).
Local Abbreviation grp := (grp gi).
Local Abbreviation Inv := (Inv gi n_bounce).
Implicit Types (b : BC) (j : DirectJob) (sid jid : Z).

(** One completion, reported [ok] or not, of a sub-job of [jid]. *)
Definition effect b jid (ok : bool) b' : Prop :=
  ∃ j j', od_get jid (jobs b) = Some j ∧ job_id j' = jid ∧ store j' = store j ∧
    failed j' = failed j || negb ok ∧ items j' = items j ∧ nbytes j' = nbytes j ∧
    next_item j' = next_item j ∧ (done_items j < done_items j')%nat ∧ reported b j' b'.

Lemma pop_sub_run sid jid j b :
  sub_to_job b !! sid = Some jid → od_get jid (jobs b) = Some j →
  pop_sub sid b = (Ok (Some j), set_sub (delete sid (sub_to_job b)) b).
Proof. intros H1 H2. unfold pop_sub. rewrite H1. simpl. by rewrite H2. Qed.

Lemma job_slots_copy j : reads j = [] → job_slots j = copy_slots j.
Proof. intros H. unfold job_slots, read_slots. rewrite H. simpl. by rewrite app_nil_r. Qed.
Lemma job_slots_read j : copies j = [] → job_slots j = read_slots j.
Proof. intros H. unfold job_slots, copy_slots. by rewrite H. Qed.

Lemma store_reads ng j : job_ok gi ng j → store j = true → reads j = [].
Proof. intros Hj Hs. pose proof (jo_kind _ _ _ (proj1 Hj)) as Hk. by rewrite Hs in Hk. Qed.
Lemma load_copies ng j : job_ok gi ng j → store j = false → copies j = [].
Proof. intros Hj Hs. pose proof (jo_kind _ _ _ (proj1 Hj)) as Hk. by rewrite Hs in Hk. Qed.

Lemma od_pop_vals_sub {V} (d : odict Z V) k : od_vals (od_pop k d) `sublist_of` od_vals d.
Proof. apply fmap_sublist, od_pop_sublist. Qed.

Lemma Forall_pop {V} (P : V → Prop) (d : odict Z V) k : Forall P (od_vals d) → Forall P (od_vals (od_pop k d)).
Proof.
  rewrite !Forall_forall. intros H x Hx. apply H. eapply elem_of_submseteq; [exact Hx|].
  apply sublist_submseteq, od_pop_vals_sub.
Qed.

Lemma Forall_set_fresh {V} (P : V → Prop) (d : odict Z V) k v :
  od_get k d = None → P v → Forall P (od_vals d) → Forall P (od_vals (od_set k v d)).
Proof.
  intros Hk Hv H. rewrite od_set_fresh by done. unfold od_vals. rewrite fmap_app, Forall_app.
  split; [done|]. by repeat constructor.
Qed.

(** Membership after a pop, for the sets [around_copy] and [around_read] ask about. *)
Lemma pop_mem {V} (d : odict Z V) x sid :
  NoDup (od_keys d) →
  is_Some (od_get sid (od_pop x d)) ↔ (Some sid ≠ Some x ∧ is_Some (od_get sid d)) ∨ Some sid = None.
Proof. intros Hn. rewrite od_get_pop_iff by done. naive_solver. Qed.

(** The chunks in flight are not empty. *)
Lemma copies_entry ng j sid e : job_wf gi ng j → od_get sid (copies j) = Some e → e ≠ [].
Proof.
  intros Hwf He. pose proof (jo_copy_ok _ _ _ Hwf) as HF. rewrite Forall_forall in HF. apply HF.
  unfold od_vals. apply list_elem_of_fmap. exists (sid, e). split; [done|]. by apply od_get_elem.
Qed.

Lemma reads_entry ng j sid e : job_wf gi ng j → od_get sid (reads j) = Some e → read_ok gi ng e.
Proof.
  intros Hwf He. pose proof (jo_read_ok _ _ _ Hwf) as HF. rewrite Forall_forall in HF. apply HF.
  unfold od_vals. apply list_elem_of_fmap. exists (sid, e). split; [done|]. by apply od_get_elem.
Qed.

Lemma read_counts ng j sid slots gids keys :
  job_ok gi ng j → od_get sid (reads j) = Some (slots, gids, keys) →
  (done_items j < done_items j + length slots)%nat.
Proof.
  intros [Hwf _] He. apply (reads_entry _ _ _ _ Hwf) in He as [Hz _]. simpl in Hz.
  destruct slots; [done|]. simpl. lia.
Qed.

(** ** 2. Writes *)

Lemma on_written_ok b wid ok :
  Inv b → wid ∈ q_files b →
  ∃ b' jid, on_written (wid, ok) b = (Ok tt, b') ∧ Inv b' ∧ sub_to_job b !! wid = Some jid ∧
    effect b jid ok b' ∧ num_groups b' = num_groups b ∧
    q_g2b b' = q_g2b b ∧ q_files b' = q_files b ∖ {[wid]} ∧ q_read b' = q_read b ∧ q_b2g b' = q_b2g b.
Proof.
  intros HI Hin. destruct (queued_copy gi n_bounce b wid HI ltac:(set_solver))
    as (jid&j&sks&Hsub&Hj&Hne&Hs&Hst&Hok&Hid).
  pose proof (store_reads _ _ Hok Hst) as Hr. assert (Hwf := proj1 Hok).
  unfold on_written. autorewrite with monad.
  set (b0 := set_q_files (q_files b ∖ {[wid]}) b).
  rewrite (M_bind_run _ _ _ _ _ (pop_sub_run wid jid j b0 Hsub Hj)). rewrite Hs. cbn [res_of_option].
  autorewrite with monad. unfold free_slots. autorewrite with monad. cbv zeta.
  set (j' := set_failed _ _). set (b1 := set_free _ _).
  destruct (put_finish gi n_bounce b j j' b1) as (b'&E&HI'&Hrep&Hng&Q1&Q2&Q3&Q4); try done.
  - by rewrite Hid.
  - split; simpl; try apply Hwf.
    + apply od_pop_nodup, Hwf.
    + pose proof (jo_count _ _ _ Hwf) as Hc. rewrite job_slots_copy in Hc by done. unfold copy_slots in Hc.
      rewrite (copy_slots_pop _ _ _ Hs), length_app, length_fmap in Hc.
      rewrite job_slots_copy by done. unfold copy_slots. simpl. lia.
    + apply Forall_pop, Hwf.
    + rewrite Hst. done.
  - apply (around_copy gi n_bounce b j j' b1 (Some wid) None); try done.
    + by rewrite Hid.
    + intros sid. apply pop_mem, Hwf.
    + intros x [= <-]. rewrite Hr. split; [by eexists|done].
    + by left.
    + rewrite !job_slots_copy by done. unfold copy_slots. simpl. rewrite (copy_slots_pop _ _ _ Hs).
      by rewrite <- (assoc_L (++)).
    + intros sid. pose proof (bi_stage1 _ _ _ HI). unfold q_copy. simpl. split.
      * intros Hu. left. split; [set_solver|]. intros [= ->]. set_solver.
      * intros [[Hu Hn]|[=]]. assert (sid ≠ wid) by congruence. set_solver.
    + pose proof (bi_stage1 _ _ _ HI). simpl. set_solver.
  - exists b', jid. split; [exact E|]. split; [done|]. split; [done|]. split.
    { exists j, j'. split_and!; try done.
      { simpl. pose proof (copies_entry _ _ _ _ Hwf Hs) as Hz. destruct sks; [done|]. simpl. lia. } }
    split_and!; try done. apply leibniz_equiv. intros sid. apply Q1.
Qed.

(** ** 1. Copies to the bounce buffer *)

(** A hand-over: the job stays, its next transfer is queued. *)
Definition moved b jid b' : Prop :=
  ∃ j j', od_get jid (jobs b) = Some j ∧ job_id j' = jid ∧ store j' = store j ∧ failed j' = failed j ∧
    items j' = items j ∧ nbytes j' = nbytes j ∧ next_item j' = next_item j ∧ done_items j' = done_items j ∧
    jobs b' = od_set jid j' (jobs b) ∧ results_store b' = results_store b ∧ results_load b' = results_load b.

Lemma fresh_copy b jid j : Inv b → od_get jid (jobs b) = Some j →
  od_get (sub_counter b + 1) (copies j) = None ∧ od_get (sub_counter b + 1) (reads j) = None.
Proof.
  intros HI Hj.
  assert (H : ¬ in_flight (sub_counter b + 1) j).
  { intros HF. assert (Hs : sub_to_job b !! (sub_counter b + 1) = Some jid) by (apply (bi_sub _ _ _ HI); eauto).
    apply (bi_fresh _ _ _ HI) in Hs. lia. }
  split; apply eq_None_not_Some; intros H'; apply H; [by left|by right].
Qed.

Lemma on_copied_ok b sid :
  Inv b → sid ∈ q_g2b b →
  ∃ b' jid, on_copied sid b = (Ok tt, b') ∧ Inv b' ∧ sub_to_job b !! sid = Some jid ∧
    moved b jid b' ∧ num_groups b' = num_groups b ∧ free b' = free b ∧
    q_g2b b' = q_g2b b ∖ {[sid]} ∧ q_files b' = {[sub_counter b + 1]} ∪ q_files b ∧
    q_read b' = q_read b ∧ q_b2g b' = q_b2g b.
Proof.
  intros HI Hin. destruct (queued_copy gi n_bounce b sid HI ltac:(set_solver))
    as (jid&j&sks&Hsub&Hj&Hne&Hs&Hst&Hok&Hid).
  pose proof (store_reads _ _ Hok Hst) as Hr. assert (Hwf := proj1 Hok).
  destruct (fresh_copy b jid j HI Hj) as [Hf _].
  unfold on_copied. autorewrite with monad.
  set (b0 := set_q_g2b (q_g2b b ∖ {[sid]}) b).
  rewrite (M_bind_run _ _ _ _ _ (pop_sub_run sid jid j b0 Hsub Hj)). rewrite Hs. cbn [res_of_option].
  autorewrite with monad. erewrite M_bind_run by reflexivity. unfold put_job. autorewrite with monad.
  set (j' := set_copies _ j). eexists _, jid. split; [reflexivity|].
  assert (Hne' : sub_counter b + 1 ≠ sid) by (intros H; rewrite H in Hf; congruence).
  assert (Hf' : od_get (sub_counter b + 1) (od_pop sid (copies j)) = None) by (by rewrite od_get_pop_ne).
  assert (Hslots : job_slots j' ≡ₚ job_slots j).
  { rewrite !job_slots_copy by done. unfold copy_slots. simpl. rewrite copy_slots_fresh by done.
    by rewrite <- (copy_slots_pop _ _ _ Hs). }
  split; [|split_and!; try done].
  - apply (Inv_set gi n_bounce b j j'); try done; simpl; try by rewrite ?Hid.
    + split; [|apply Hok]. split; simpl; try apply Hwf.
      * apply od_set_nodup, od_pop_nodup, Hwf.
      * rewrite Hslots. apply Hwf.
      * apply Forall_set_fresh; [done| |by apply Forall_pop, Hwf].
        by eapply copies_entry.
      * by rewrite Hst, Hr.
    + apply (around_copy gi n_bounce b j j' _ (Some sid) (Some (sub_counter b + 1))); try done; simpl.
      * by rewrite Hid.
      * intros x. rewrite od_get_set_iff, od_get_pop_iff by apply Hwf. naive_solver.
      * intros x [= <-]. rewrite Hr. split; [by eexists|done].
      * by right.
      * by rewrite Hslots.
      * intros x. unfold q_copy. simpl. pose proof (bi_stage1 _ _ _ HI). split.
        -- intros Hu. destruct (decide (x = sub_counter b + 1)) as [->|Hx]; [by right|].
           left. split; [set_solver|]. intros [= ->]. set_solver.
        -- intros [[Hu Hn]|[= ->]]; [|set_solver]. assert (x ≠ sid) by congruence. set_solver.
      * assert (sub_counter b + 1 ∉ q_g2b b).
        { intros Hu. destruct (queued_copy gi n_bounce b (sub_counter b + 1) HI ltac:(set_solver))
            as (jid2&?&?&Hs2&_). apply (bi_fresh _ _ _ HI) in Hs2. lia. }
        pose proof (bi_stage1 _ _ _ HI). set_solver.
  - exists j, j'. split_and!; try done. simpl. by rewrite Hid.
Qed.

(** ** 3 and 4. Reads and copies to the GPU *)

(** The tables when the transfer [rid] of a load ended and its slots were freed. *)
Lemma around_closed b rid jid j e j' b1 :
  Inv b → od_get jid (jobs b) = Some j → job_id j = jid → store j = false → job_ok gi (num_groups b) j →
  od_get rid (reads j) = Some e → copies j' = copies j → reads j' = od_pop rid (reads j) →
  num_groups b1 = num_groups b → sub_to_job b1 = delete rid (sub_to_job b) →
  sub_counter b1 = sub_counter b → free b1 = free b ++ e.1.1 →
  q_g2b b1 = q_g2b b → q_files b1 = q_files b →
  q_read b1 = q_read b ∖ {[rid]} → q_b2g b1 = q_b2g b ∖ {[rid]} →
  around b j j' b1.
Proof.
  intros HI Hj Hid Hst Hok He Hc Hr H1 H2 H3 H4 H5 H6 H7 H8.
  pose proof (load_copies _ _ Hok Hst) as Hc0. assert (Hwf := proj1 Hok).
  apply (around_read gi n_bounce b j j' b1 (Some rid) None); try done.
  - by rewrite Hid.
  - intros x. rewrite Hr. apply pop_mem, Hwf.
  - intros x [= <-]. rewrite Hc0. split; [by eexists|done].
  - by left.
  - rewrite !job_slots_read by (by rewrite ?Hc). unfold read_slots. rewrite Hr, H4, (read_slots_pop _ _ _ He).
    by rewrite <- (assoc_L (++)).
  - intros x. unfold q_load. rewrite H7, H8. split.
    + intros Hu. left. split; [set_solver|]. intros [= ->]. set_solver.
    + intros [[Hu Hn]|[=]]. assert (x ≠ rid) by congruence. set_solver.
  - rewrite H7, H8. pose proof (bi_stage2 _ _ _ HI). set_solver.
Qed.

Lemma job_wf_closed_read ng rid j e j' :
  job_ok gi ng j → store j = false → od_get rid (reads j) = Some e →
  copies j' = copies j → reads j' = od_pop rid (reads j) → store j' = store j → items j' = items j →
  next_item j' = next_item j → done_items j' = (done_items j + length e.1.1)%nat →
  job_wf gi ng j'.
Proof.
  intros Hok Hst He Hc Hr Hs Hi Hn Hd. pose proof (load_copies _ _ Hok Hst) as Hc0.
  assert (Hwf := proj1 Hok). split; rewrite ?Hc, ?Hr, ?Hs, ?Hi, ?Hn; try apply Hwf.
  - apply od_pop_nodup, Hwf.
  - pose proof (jo_count _ _ _ Hwf) as Hcnt. rewrite job_slots_read in Hcnt by done. unfold read_slots in Hcnt.
    rewrite (read_slots_pop _ _ _ He), length_app in Hcnt.
    rewrite job_slots_read by (by rewrite Hc). unfold read_slots. rewrite Hr. lia.
  - apply Forall_pop, Hwf.
  - by rewrite Hst.
Qed.

Lemma not_both b rid : Inv b → rid ∈ q_read b → rid ∉ q_b2g b.
Proof. intros HI. pose proof (bi_stage2 _ _ _ HI). set_solver. Qed.

Lemma on_loaded_ok b sid :
  Inv b → sid ∈ q_b2g b →
  ∃ b' jid, on_loaded sid b = (Ok tt, b') ∧ Inv b' ∧ sub_to_job b !! sid = Some jid ∧
    effect b jid true b' ∧ num_groups b' = num_groups b ∧
    q_g2b b' = q_g2b b ∧ q_files b' = q_files b ∧ q_read b' = q_read b ∧ q_b2g b' = q_b2g b ∖ {[sid]}.
Proof.
  intros HI Hin. destruct (queued_read gi n_bounce b sid HI ltac:(set_solver))
    as (jid&j&[[slots gids] keys]&Hsub&Hj&Hne&He&Hst&Hok&Hid).
  pose proof (not_both b sid HI) as Hnb.
  unfold on_loaded. autorewrite with monad.
  set (b0 := set_q_b2g (q_b2g b ∖ {[sid]}) b).
  rewrite (M_bind_run _ _ _ _ _ (pop_sub_run sid jid j b0 Hsub Hj)). rewrite He. cbn [res_of_option].
  autorewrite with monad. unfold free_slots. autorewrite with monad. cbv zeta.
  set (j' := add_done _ _). set (b1 := set_free _ _).
  destruct (put_finish gi n_bounce b j j' b1) as (b'&E&HI'&Hrep&Hng&Q1&Q2&Q3&Q4); try done.
  - by rewrite Hid.
  - by eapply job_wf_closed_read.
  - eapply around_closed; try done. apply leibniz_equiv. simpl. set_solver.
  - exists b', jid. split; [exact E|]. split; [done|]. split; [done|]. split.
    { exists j, j'. split_and!; try done; [by rewrite orb_false_r|exact (read_counts _ _ _ _ _ _ Hok He)]. }
    split_and!; try done. apply leibniz_equiv. intros x. apply Q1.
Qed.

Lemma put_finish_failed_gpu j b : failed_gpu_blocks ((put_job j;; finish_if_done j) b).2 = failed_gpu_blocks b.
Proof.
  unfold put_job. autorewrite with monad. unfold finish_if_done. case_bool_decide; [|done].
  unfold _finish, modify. simpl. by destruct (store j).
Qed.

(** A read that failed: its GPU blocks are reported, its slots are free again. *)
Lemma on_read_failed b rid :
  Inv b → rid ∈ q_read b →
  ∃ b' jid j slots gids keys, on_read gi (rid, false) b = (Ok tt, b') ∧ Inv b' ∧ sub_to_job b !! rid = Some jid ∧
    od_get jid (jobs b) = Some j ∧ od_get rid (reads j) = Some (slots, gids, keys) ∧
    effect b jid false b' ∧ num_groups b' = num_groups b ∧
    failed_gpu_blocks b' = failed_gpu_blocks b ∪ list_to_set gids ∧
    q_g2b b' = q_g2b b ∧ q_files b' = q_files b ∧ q_read b' = q_read b ∖ {[rid]} ∧ q_b2g b' = q_b2g b.
Proof.
  intros HI Hin. destruct (queued_read gi n_bounce b rid HI ltac:(set_solver))
    as (jid&j&[[slots gids] keys]&Hsub&Hj&Hne&He&Hst&Hok&Hid).
  pose proof (not_both b rid HI Hin) as Hnb.
  unfold on_read. autorewrite with monad.
  set (b0 := set_q_read (q_read b ∖ {[rid]}) b).
  rewrite (M_bind_run _ _ _ _ _ (pop_sub_run rid jid j b0 Hsub Hj)). rewrite He. cbn [res_of_option].
  autorewrite with monad. cbn [negb]. autorewrite with monad. unfold free_slots. autorewrite with monad. cbv zeta.
  set (j' := add_done _ _). set (b1 := set_free _ _).
  destruct (put_finish gi n_bounce b j j' b1) as (b'&E&HI'&Hrep&Hng&Q1&Q2&Q3&Q4); try done.
  - by rewrite Hid.
  - by eapply job_wf_closed_read.
  - eapply around_closed; try done. apply leibniz_equiv. simpl. set_solver.
  - assert (Hfg : failed_gpu_blocks b' = failed_gpu_blocks b1).
    { pose proof (put_finish_failed_gpu j' b1) as H. by rewrite E in H. }
    exists b', jid, j, slots, gids, keys. split; [exact E|]. split; [done|]. split; [done|]. split; [done|].
    split; [done|]. split.
    { exists j, j'. split_and!; try done; [simpl; by rewrite orb_true_r|exact (read_counts _ _ _ _ _ _ Hok He)]. }
    split_and!; try done. apply leibniz_equiv. intros x. apply Q1.
Qed.

Lemma group_sizes_ok keys sizes :
  Forall (λ k, (grp k < length sizes)%nat) keys → ∃ out, group_sizes gi keys sizes = Ok out.
Proof.
  revert sizes. induction keys as [|k keys IH]; intros sizes; simpl; [by eexists|].
  intros [Hk Hks]%Forall_cons. destruct (lookup_lt_is_Some_2 _ _ Hk) as [n ->].
  apply IH. by rewrite length_insert.
Qed.

Lemma gpu_spec_ok b keys :
  Forall (λ k, (grp k < num_groups b)%nat) keys → ∃ out, _gpu_spec gi keys b = (Ok out, b).
Proof.
  intros H. unfold _gpu_spec. destruct (group_sizes_ok keys (replicate (num_groups b) 0)) as [out ->].
  - by rewrite length_replicate.
  - by exists out.
Qed.

Lemma queued_fresh b : Inv b →
  (sub_counter b + 1 ∉ q_g2b b ∪ q_files b) ∧ (sub_counter b + 1 ∉ q_read b ∪ q_b2g b).
Proof.
  intros HI. split; intros Hu.
  - destruct (queued_copy gi n_bounce b _ HI Hu) as (jid&?&?&Hs&_). apply (bi_fresh _ _ _ HI) in Hs. lia.
  - destruct (queued_read gi n_bounce b _ HI Hu) as (jid&?&?&Hs&_). apply (bi_fresh _ _ _ HI) in Hs. lia.
Qed.

(** A read that succeeded: its copy to the GPU is queued. *)
Lemma on_read_ok b rid :
  Inv b → rid ∈ q_read b →
  ∃ b' jid, on_read gi (rid, true) b = (Ok tt, b') ∧ Inv b' ∧ sub_to_job b !! rid = Some jid ∧
    moved b jid b' ∧ num_groups b' = num_groups b ∧ free b' = free b ∧ failed_gpu_blocks b' = failed_gpu_blocks b ∧
    q_g2b b' = q_g2b b ∧ q_files b' = q_files b ∧ q_read b' = q_read b ∖ {[rid]} ∧
    q_b2g b' = {[sub_counter b + 1]} ∪ q_b2g b.
Proof.
  intros HI Hin. destruct (queued_read gi n_bounce b rid HI ltac:(set_solver))
    as (jid&j&[[slots gids] keys]&Hsub&Hj&Hne&He&Hst&Hok&Hid).
  pose proof (load_copies _ _ Hok Hst) as Hc. assert (Hwf := proj1 Hok).
  destruct (fresh_copy b jid j HI Hj) as [_ Hf]. pose proof (reads_entry _ _ _ _ Hwf He) as Hro.
  unfold on_read. autorewrite with monad.
  set (b0 := set_q_read (q_read b ∖ {[rid]}) b).
  rewrite (M_bind_run _ _ _ _ _ (pop_sub_run rid jid j b0 Hsub Hj)). rewrite He. cbn [res_of_option].
  autorewrite with monad. cbn [negb]. erewrite M_bind_run by reflexivity. unfold put_job. autorewrite with monad.
  set (j' := set_reads _ (set_reads _ j)). set (b1 := set_jobs _ _).
  destruct (gpu_spec_ok b1 keys) as [sizes Hgs]; [apply Hro|].
  rewrite (M_bind_run _ _ _ _ _ Hgs). unfold modify. eexists _, jid. split; [reflexivity|].
  assert (Hne' : sub_counter b + 1 ≠ rid) by (intros H; rewrite H in Hf; congruence).
  assert (Hf' : od_get (sub_counter b + 1) (od_pop rid (reads j)) = None) by (by rewrite od_get_pop_ne).
  assert (Hslots : job_slots j' ≡ₚ job_slots j).
  { rewrite !job_slots_read by done. unfold read_slots. simpl. rewrite read_slots_fresh by done.
    by rewrite <- (read_slots_pop _ _ _ He). }
  destruct (queued_fresh b HI) as [_ Hqf]. pose proof (bi_stage2 _ _ _ HI) as Hs2.
  split; [|split_and!; try done].
  - apply (Inv_set gi n_bounce b j j'); try done; simpl; try by rewrite ?Hid.
    + split; [|apply Hok]. split; simpl; try apply Hwf.
      * apply od_set_nodup, od_pop_nodup, Hwf.
      * rewrite Hslots. apply Hwf.
      * apply Forall_set_fresh; [done|done|by apply Forall_pop, Hwf].
      * by rewrite Hst, Hc.
    + apply (around_read gi n_bounce b j j' _ (Some rid) (Some (sub_counter b + 1))); try done; simpl.
      * by rewrite Hid.
      * intros x. rewrite od_get_set_iff, od_get_pop_iff by apply Hwf. naive_solver.
      * intros x [= <-]. rewrite Hc. split; [by eexists|done].
      * by right.
      * by rewrite Hslots.
      * intros x. unfold q_load. simpl. split.
        -- intros Hu. destruct (decide (x = sub_counter b + 1)) as [->|Hx]; [by right|].
           left. split; [set_solver|]. intros [= ->]. set_solver.
        -- intros [[Hu Hn]|[= ->]]; [|set_solver]. assert (x ≠ rid) by congruence. set_solver.
      * set_solver.
  - exists j, j'. split_and!; try done. simpl. by rewrite Hid.
Qed.

(** ** 5. Starting a chunk *)

(** The length of the chunk one pass starts for [j]. *)
Definition chunk_len b j : nat := Nat.min (length (free b)) (length (items j) - next_item j).

(** A chunk of [jid] was started: [chunk_len] items took as many bounce slots. *)
Definition started b jid b' : Prop :=
  ∃ j j', od_get jid (jobs b) = Some j ∧ jobs b' = od_set jid j' (jobs b) ∧
    job_id j' = jid ∧ store j' = store j ∧ failed j' = failed j ∧ items j' = items j ∧ nbytes j' = nbytes j ∧
    done_items j' = done_items j ∧ next_item j' = (next_item j + chunk_len b j)%nat ∧ (0 < chunk_len b j)%nat ∧
    free b' = drop (chunk_len b j) (free b) ∧
    results_store b' = results_store b ∧ results_load b' = results_load b ∧
    failed_gpu_blocks b' = failed_gpu_blocks b ∧ q_files b' = q_files b ∧ q_b2g b' = q_b2g b ∧
    (if store j then q_g2b b' = {[sub_counter b + 1]} ∪ q_g2b b ∧ q_read b' = q_read b
     else q_read b' = {[sub_counter b + 1]} ∪ q_read b ∧ q_g2b b' = q_g2b b).

Lemma chunk_len_pos b j : free b ≠ [] → (next_item j < length (items j))%nat → (0 < chunk_len b j)%nat.
Proof.
  intros Hf Hn. unfold chunk_len. apply Nat.min_glb_lt; [|lia].
  destruct (free b); [done|]. simpl. lia.
Qed.

Lemma take_free_perm (n : nat) (fr l l' : list Z) :
  l' ≡ₚ take n fr ++ l → drop n fr ++ l' ≡ₚ fr ++ l.
Proof. intros ->. rewrite <- (take_drop n fr) at 3. solve_Permutation. Qed.

Lemma start_store_chunk b jid j :
  Inv b → od_get jid (jobs b) = Some j → store j = true →
  (next_item j < length (items j))%nat → free b ≠ [] →
  ∃ b', start_chunk gi true jid b = (Ok tt, b') ∧ Inv b' ∧ num_groups b' = num_groups b ∧ started b jid b'.
Proof.
  intros HI Hj Hst Hnext Hfree.
  pose proof (bi_job _ _ _ HI _ _ Hj) as Hok. pose proof (bi_id _ _ _ HI _ _ Hj) as Hid.
  pose proof (store_reads _ _ Hok Hst) as Hr. assert (Hwf := proj1 Hok).
  destruct (fresh_copy b jid j HI Hj) as [Hf _]. destruct (queued_fresh b HI) as [Hqf _].
  unfold start_chunk. autorewrite with monad. rewrite Hj, Hst. rewrite bool_decide_eq_false_2 by lia.
  rewrite bool_decide_eq_false_2 by done. cbn [negb eqb orb]. fold (chunk_len b j).
  autorewrite with monad. erewrite M_bind_run by reflexivity. cbn [store set_next]. rewrite Hst.
  unfold put_job. autorewrite with monad. set (n := chunk_len b j).
  set (chunk := take n (drop (next_item j) (items j))). set (j' := set_copies _ _). set (b1 := set_jobs _ _).
  assert (Hn : (0 < n)%nat) by (by apply chunk_len_pos).
  assert (Hlen : length chunk = n ∧ length (take n (free b)) = n).
  { unfold chunk. rewrite !length_take, length_drop. unfold n, chunk_len. lia. }
  destruct Hlen as [Hlc Hls].
  destruct (gpu_spec_ok b1 chunk.*1) as [sizes Hgs].
  { pose proof (jo_groups _ _ _ Hwf) as HF. unfold chunk. rewrite fmap_take, fmap_drop.
    by apply Forall_take, Forall_drop. }
  rewrite (M_bind_run _ _ _ _ _ Hgs). unfold modify. eexists. split; [reflexivity|].
  assert (Hslots : job_slots j' ≡ₚ take n (free b) ++ job_slots j).
  { rewrite !job_slots_copy by done. unfold copy_slots. simpl. rewrite copy_slots_fresh by done.
    rewrite fst_zip by (rewrite length_fmap; lia). done. }
  split; [|split; [done|]].
  - apply (Inv_set gi n_bounce b j j'); try done; simpl; try by rewrite ?Hid.
    + split; [split; simpl; try apply Hwf|apply Hok].
      * apply od_set_nodup, Hwf.
      * rewrite Hslots, length_app, Hls. pose proof (jo_count _ _ _ Hwf). lia.
      * unfold n, chunk_len. lia.
      * apply Forall_set_fresh; [done| |apply Hwf]. intros Hz. apply (f_equal length) in Hz.
        rewrite length_zip, length_fmap in Hz. simpl in Hz. lia.
      * by rewrite Hst, Hr.
    + apply (around_copy gi n_bounce b j j' _ None (Some (sub_counter b + 1))); try done; simpl.
      * by rewrite Hid.
      * intros x. rewrite od_get_set_iff. naive_solver.
      * by right.
      * by apply take_free_perm.
      * intros x. unfold q_copy. simpl. split; [|set_solver].
        intros Hu. destruct (decide (x = sub_counter b + 1)) as [->|Hx]; [by right|left; set_solver].
      * pose proof (bi_stage1 _ _ _ HI). set_solver.
  - exists j, j'. rewrite Hst. split_and!; try done. simpl. by rewrite Hid.
Qed.

Lemma start_load_chunk b jid j :
  Inv b → od_get jid (jobs b) = Some j → store j = false →
  (next_item j < length (items j))%nat → free b ≠ [] →
  ∃ b', start_chunk gi false jid b = (Ok tt, b') ∧ Inv b' ∧ num_groups b' = num_groups b ∧ started b jid b'.
Proof.
  intros HI Hj Hst Hnext Hfree.
  pose proof (bi_job _ _ _ HI _ _ Hj) as Hok. pose proof (bi_id _ _ _ HI _ _ Hj) as Hid.
  pose proof (load_copies _ _ Hok Hst) as Hc. assert (Hwf := proj1 Hok).
  destruct (fresh_copy b jid j HI Hj) as [_ Hf]. destruct (queued_fresh b HI) as [_ Hqf].
  unfold start_chunk. autorewrite with monad. rewrite Hj, Hst. rewrite bool_decide_eq_false_2 by lia.
  rewrite bool_decide_eq_false_2 by done. cbn [negb eqb orb]. fold (chunk_len b j).
  autorewrite with monad. erewrite M_bind_run by reflexivity. cbn [store set_next]. rewrite Hst.
  unfold put_job. autorewrite with monad. set (n := chunk_len b j).
  set (chunk := take n (drop (next_item j) (items j))). set (j' := set_reads _ _). set (b1 := set_jobs _ _).
  assert (Hn : (0 < n)%nat) by (by apply chunk_len_pos).
  assert (Hlen : length chunk = n ∧ length (take n (free b)) = n).
  { unfold chunk. rewrite !length_take, length_drop. unfold n, chunk_len. lia. }
  destruct Hlen as [Hlc Hls]. unfold modify. eexists. split; [reflexivity|].
  assert (Hslots : job_slots j' ≡ₚ take n (free b) ++ job_slots j).
  { rewrite !job_slots_read by done. unfold read_slots. simpl. by rewrite read_slots_fresh by done. }
  split; [|split; [done|]].
  - apply (Inv_set gi n_bounce b j j'); try done; simpl; try by rewrite ?Hid.
    + split; [split; simpl; try apply Hwf|apply Hok].
      * apply od_set_nodup, Hwf.
      * rewrite Hslots, length_app, Hls. pose proof (jo_count _ _ _ Hwf). lia.
      * unfold n, chunk_len. lia.
      * apply Forall_set_fresh; [done| |apply Hwf]. split_and!; simpl.
        -- intros Hz. apply (f_equal length) in Hz. simpl in Hz. lia.
        -- rewrite length_fmap. lia.
        -- rewrite length_fmap. lia.
        -- pose proof (jo_groups _ _ _ Hwf) as HF. unfold chunk. rewrite fmap_take, fmap_drop.
           by apply Forall_take, Forall_drop.
      * by rewrite Hst, Hc.
    + apply (around_read gi n_bounce b j j' _ None (Some (sub_counter b + 1))); try done; simpl.
      * by rewrite Hid.
      * intros x. rewrite od_get_set_iff. naive_solver.
      * by right.
      * by apply take_free_perm.
      * intros x. unfold q_load. simpl. split; [|set_solver].
        intros Hu. destruct (decide (x = sub_counter b + 1)) as [->|Hx]; [by right|left; set_solver].
      * pose proof (bi_stage2 _ _ _ HI). set_solver.
  - exists j, j'. rewrite Hst. split_and!; try done. simpl. by rewrite Hid.
Qed.
End ops.
