(* ===== verification/BounceRun.v ===== *)
(** The bounce controller run against its environment: completions, passes,
    submissions and deliveries as steps, and what each of them keeps. *)
From S2P Require Import Prelude PyDict Bytes File SlabHeader SlabIO SlabManager Bounce BounceInv BounceOps.
From stdpp Require Import base list list_numbers gmap sets relations.
From Stdlib Require Import ZArith Lia.
#[local] Open Scope Z_scope.

(** * Completions *)

Inductive completion :=
  | Copied (sid : Z) | Written (wid : Z) (ok : bool)
  | ReadDone (rid : Z) (ok : bool) | Loaded (sid : Z).

Definition c_id (c : completion) : Z :=
  match c with Copied i | Written i _ | ReadDone i _ | Loaded i => i end.
(** Did the transfer succeed? *)
Definition c_ok (c : completion) : bool :=
  match c with Written _ ok | ReadDone _ ok => ok | _ => true end.
(** The transfer is with its engine. *)
Definition pending (b : BC) (c : completion) : Prop :=
  match c with
  | Copied i => i ∈ q_g2b b
  | Written i _ => i ∈ q_files b
  | ReadDone i _ => i ∈ q_read b
  | Loaded i => i ∈ q_b2g b
  end.

Section run.
Context (gi : OffloadKey → Z) (n_bounce : Z).
Local Abbreviation grp := (grp gi).
Local Abbreviation Inv := (Inv gi n_bounce).
Implicit Types (b : BC) (j : DirectJob) (sid jid : Z).

Definition complete (c : completion) : M BC unit :=
  match c with
  | Copied i => on_copied i
  | Written i ok => on_written (i, ok)
  | ReadDone i ok => on_read gi (i, ok)
  | Loaded i => on_loaded i
  end.

(** ** Work left *)

Definition to_finish (js : odict Z DirectJob) : nat :=
  sum_list ((λ j, length (items j) - done_items j)%nat <$> od_vals js).
Definition to_start (js : odict Z DirectJob) : nat :=
  sum_list ((λ j, length (items j) - next_item j)%nat <$> od_vals js).
Definition work_left b : nat :=
  to_finish (jobs b) + 2 * to_start (jobs b) + size (q_g2b b) + size (q_read b).

Lemma sum_list_perm (l l' : list nat) : l ≡ₚ l' → sum_list l = sum_list l'.
Proof. induction 1; simpl; lia. Qed.

Lemma sum_pop (f : DirectJob → nat) jid j js :
  od_get jid js = Some j → sum_list (f <$> od_vals js) = (f j + sum_list (f <$> od_vals (od_pop jid js)))%nat.
Proof.
  intros Hj. rewrite (sum_list_perm _ (f <$> od_vals ((jid, j) :: od_pop jid js))); [done|].
  apply fmap_Permutation, od_vals_perm. by apply od_pop_perm.
Qed.

Lemma sum_set (f : DirectJob → nat) jid j' js :
  sum_list (f <$> od_vals (od_set jid j' js)) = (f j' + sum_list (f <$> od_vals (od_pop jid js)))%nat.
Proof. rewrite (sum_pop f jid j') by apply od_get_set. by rewrite od_pop_set. Qed.

Lemma size_remove (X : gset Z) x : x ∈ X → size X = S (size (X ∖ {[x]})).
Proof.
  intros Hx. assert (Hs : {[x]} ⊆ X) by set_solver. pose proof (subseteq_size _ _ Hs) as Hle.
  rewrite size_difference by done. rewrite size_singleton in *. lia.
Qed.

Lemma moved_work b jid b' : moved b jid b' →
  to_finish (jobs b') = to_finish (jobs b) ∧ to_start (jobs b') = to_start (jobs b).
Proof.
  intros (j&j'&Hj&_&_&_&Hi&_&Hn&Hd&->&_). unfold to_finish, to_start.
  rewrite !sum_set, !(sum_pop _ _ _ _ Hj), Hi, Hn, Hd. done.
Qed.

Lemma effect_work b jid ok b' : Inv b → effect b jid ok b' →
  (to_finish (jobs b') < to_finish (jobs b) ∧ to_start (jobs b') ≤ to_start (jobs b))%nat.
Proof.
  intros HI (j&j'&Hj&Hid&_&_&Hi&_&Hn&Hd&Hrep). destruct (bi_job _ _ _ HI _ _ Hj) as [_ Hlt].
  unfold to_finish, to_start. unfold reported in Hrep. rewrite Hid in Hrep.
  destruct (decide (done_items j' = length (items j'))) as [He|He].
  - destruct Hrep as (_&_&->). rewrite !(sum_pop _ _ _ _ Hj). lia.
  - destruct Hrep as (_&_&->). rewrite !sum_set, !(sum_pop _ _ _ _ Hj), Hi, Hn. lia.
Qed.

Lemma started_work b jid b' : started b jid b' → (work_left b' < work_left b)%nat.
Proof.
  intros (j&j'&Hj&Hjs&_&_&_&Hi&_&Hd&Hn&Hpos&_&_&_&_&_&_&Hq). unfold work_left, to_finish, to_start.
  rewrite Hjs, !sum_set, !(sum_pop _ _ _ _ Hj), Hi, Hn, Hd.
  assert (Hs : ∀ X : gset Z, (size ({[(sub_counter b + 1)%Z]} ∪ X) ≤ S (size X))%nat).
  { intros X. rewrite size_union_alt, size_singleton.
    assert (X ∖ {[(sub_counter b + 1)%Z]} ⊆ X) as Hsub by set_solver. apply subseteq_size in Hsub. lia. }
  assert ((next_item j + chunk_len b j ≤ length (items j))%nat) by (unfold chunk_len in *; lia).
  destruct (store j); destruct Hq as [-> ->]; [pose proof (Hs (q_g2b b))|pose proof (Hs (q_read b))]; lia.
Qed.

(** ** One completion *)

Lemma complete_spec c b :
  Inv b → pending b c →
  ∃ b' jid, complete c b = (Ok tt, b') ∧ Inv b' ∧ num_groups b' = num_groups b ∧
    sub_to_job b !! c_id c = Some jid ∧
    (moved b jid b' ∧ c_ok c = true ∨ effect b jid (c_ok c) b') ∧ (work_left b' < work_left b)%nat ∧
    (∀ c', pending b c' → c_id c' ≠ c_id c → pending b' c').
Proof.
  intros HI Hp.
  assert (Hq : ∀ b' : BC, q_g2b b ∖ {[c_id c]} ⊆ q_g2b b' → q_files b ∖ {[c_id c]} ⊆ q_files b' →
    q_read b ∖ {[c_id c]} ⊆ q_read b' → q_b2g b ∖ {[c_id c]} ⊆ q_b2g b' →
    ∀ c', pending b c' → c_id c' ≠ c_id c → pending b' c').
  { intros b' H1 H2 H3 H4 c' Hc Hne. destruct c'; simpl in *; set_solver. }
  destruct c as [i|i ok|i ok|i]; simpl in *.
  - destruct (on_copied_ok gi n_bounce b i HI Hp) as (b'&jid&E&HI'&Hs&Hm&Hng&_&Q1&Q2&Q3&Q4).
    exists b', jid. split_and!; try done; [by left| |apply Hq; set_solver]. unfold work_left.
    destruct (moved_work _ _ _ Hm) as [-> ->]. rewrite Q1, Q3. pose proof (size_remove _ _ Hp). lia.
  - destruct (on_written_ok gi n_bounce b i ok HI Hp) as (b'&jid&E&HI'&Hs&Hm&Hng&Q1&Q2&Q3&Q4).
    exists b', jid. split_and!; try done; [by right| |apply Hq; set_solver]. unfold work_left.
    destruct (effect_work _ _ _ _ HI Hm). rewrite Q1, Q3. lia.
  - destruct ok.
    + destruct (on_read_ok gi n_bounce b i HI Hp) as (b'&jid&E&HI'&Hs&Hm&Hng&_&_&Q1&Q2&Q3&Q4).
      exists b', jid. split_and!; try done; [by left| |apply Hq; set_solver]. unfold work_left.
      destruct (moved_work _ _ _ Hm) as [-> ->]. rewrite Q1, Q3. pose proof (size_remove _ _ Hp). lia.
    + destruct (on_read_failed gi n_bounce b i HI Hp) as (b'&jid&?&?&?&?&E&HI'&Hs&_&_&Hm&Hng&_&Q1&Q2&Q3&Q4).
      exists b', jid. split_and!; try done; [by right| |apply Hq; set_solver]. unfold work_left.
      destruct (effect_work _ _ _ _ HI Hm). rewrite Q1, Q3. pose proof (size_remove _ _ Hp). lia.
  - destruct (on_loaded_ok gi n_bounce b i HI Hp) as (b'&jid&E&HI'&Hs&Hm&Hng&Q1&Q2&Q3&Q4).
    exists b', jid. split_and!; try done; [by right| |apply Hq; set_solver]. unfold work_left.
    destruct (effect_work _ _ _ _ HI Hm). rewrite Q1, Q3. lia.
Qed.

(** ** One pass *)

(** Every item of [jid] is in flight or done. *)
Definition full b jid : Prop := ∀ j, od_get jid (jobs b) = Some j → (length (items j) ≤ next_item j)%nat.

Definition starts b b' : Prop := ∃ jid, started b jid b'.

Lemma start_chunk_cases b sp jid :
  Inv b →
  (start_chunk gi sp jid b = (Ok tt, b) ∧
     (free b = [] ∨ ∀ j, od_get jid (jobs b) = Some j → store j = sp → full b jid)) ∨
  (∃ b', start_chunk gi sp jid b = (Ok tt, b') ∧ Inv b' ∧ num_groups b' = num_groups b ∧
     started b jid b' ∧ (free b' = [] ∨ full b' jid)).
Proof.
  intros HI. destruct (od_get jid (jobs b)) as [j|] eqn:Hj.
  2: { left. unfold start_chunk. autorewrite with monad. rewrite Hj. split; [done|]. by right. }
  destruct (decide (store j = sp ∧ (next_item j < length (items j))%nat ∧ free b ≠ [])) as [(Hs&Hn&Hf)|Hno].
  - right. assert (∃ b', start_chunk gi sp jid b = (Ok tt, b') ∧ Inv b' ∧ num_groups b' = num_groups b ∧
      started b jid b') as (b'&E&HI'&Hng&Hst).
    { destruct sp; [by apply (start_store_chunk gi n_bounce b jid j)|by apply (start_load_chunk gi n_bounce b jid j)]. }
    exists b'. split_and!; try done.
    destruct Hst as (j0&j'&Hj0&Hjs&_&_&_&Hi&_&_&Hnx&_&Hfr&_). simplify_eq.
    destruct (decide (length (free b) ≤ length (items j) - next_item j)%nat) as [Hle|Hle].
    + left. rewrite Hfr. apply drop_ge. unfold chunk_len. lia.
    + right. intros j2. rewrite Hjs, od_get_set. intros [= <-]. rewrite Hi, Hnx. unfold chunk_len. lia.
  - left. split.
    + unfold start_chunk. autorewrite with monad. rewrite Hj.
      destruct (decide (store j = sp)) as [Hs|Hs].
      2: { assert (eqb (store j) sp = false) as -> by (destruct (store j), sp; done). done. }
      destruct (decide (free b = [])) as [Hf|Hf].
      { rewrite (bool_decide_eq_true_2 (free b = [])) by done. by rewrite orb_true_r. }
      assert (length (items j) ≤ next_item j)%nat as Hle.
      { destruct (decide (next_item j < length (items j))%nat); [|lia]. exfalso. apply Hno. by split_and!. }
      rewrite (bool_decide_eq_true_2 (length (items j) ≤ next_item j)%nat) by done.
      by rewrite orb_true_r.
    + destruct (decide (free b = [])) as [Hf|Hf]; [by left|]. right. intros j2 [= <-] Hs j3 Hj3. simplify_eq.
      destruct (decide (next_item j < length (items j))%nat); [|lia]. exfalso. apply Hno. by split_and!.
Qed.

Lemma full_dec_started b b' jid jid2 : started b jid b' → full b jid2 → full b' jid2.
Proof.
  intros (j&j'&Hj&Hjs&_&_&_&Hi&_&_&Hn&Hpos&_) Hf j2. rewrite Hjs, jobs_set_get.
  intros [[-> ->]|[_ H2]]; [|by apply Hf].
  pose proof (Hf j Hj). unfold chunk_len in Hpos. lia.
Qed.

Lemma starts_full b b' jid : rtc starts b b' → full b jid → full b' jid.
Proof. induction 1 as [|b1 b2 b3 [jid1 H1] _ IH]; [done|]. intros Hf. apply IH. by eapply full_dec_started. Qed.

Lemma starts_free b b' : rtc starts b b' → free b = [] → free b' = [].
Proof.
  induction 1 as [|b1 b2 b3 [jid1 H1] _ IH]; [done|]. intros Hf. apply IH.
  destruct H1 as (j&j'&_&_&_&_&_&_&_&_&_&Hpos&_). unfold chunk_len in Hpos. rewrite Hf in Hpos. simpl in Hpos. lia.
Qed.

Lemma starts_work b b' : rtc starts b b' → b' = b ∨ (work_left b' < work_left b)%nat.
Proof.
  induction 1 as [|b1 b2 b3 [jid1 H1] _ IH]; [by left|]. right. apply started_work in H1.
  destruct IH as [->|?]; lia.
Qed.

(** Starting keeps the jobs and their kinds. *)
Lemma starts_jobs b b' jid j' : rtc starts b b' → od_get jid (jobs b') = Some j' →
  ∃ j, od_get jid (jobs b) = Some j ∧ store j = store j'.
Proof.
  intros H. revert j'. induction H as [|b1 b2 b3 [jid1 H1] _ IH]; intros j' Hj'; [by exists j'|].
  destruct (IH _ Hj') as (j2&Hj2&Hs2). destruct H1 as (j&j1&Hj&Hjs&_&Hs&_).
  rewrite Hjs, jobs_set_get in Hj2. destruct Hj2 as [[-> ->]|[_ H2]]; [|by exists j2].
  exists j. split; [done|]. congruence.
Qed.

Lemma start_each sp ids b :
  Inv b →
  ∃ b', for_each ids (start_chunk gi sp) b = (Ok tt, b') ∧ Inv b' ∧ num_groups b' = num_groups b ∧
    rtc starts b b' ∧
    (free b' = [] ∨ ∀ jid j, jid ∈ ids → od_get jid (jobs b') = Some j → store j = sp → full b' jid).
Proof.
  revert b. induction ids as [|jid ids IH]; intros b HI.
  { exists b. split_and!; try done. right. intros jid j Hin. by apply not_elem_of_nil in Hin. }
  simpl. destruct (start_chunk_cases b sp jid HI) as [[E Hd]|(b1&E&HI1&Hng1&Hst&Hd)].
  - rewrite (M_bind_run _ _ _ _ _ E). destruct (IH b HI) as (b'&E'&HI'&Hng&Hrtc&Hd').
    exists b'. split_and!; try done. destruct Hd as [Hd|Hd]; [left; by eapply starts_free|].
    destruct Hd' as [Hd'|Hd']; [by left|right]. intros jid2 j2 [->|Hin]%elem_of_cons H2 Hs; [|by eapply Hd'].
    destruct (starts_jobs _ _ _ _ Hrtc H2) as (j&Hj&Hsj). eapply starts_full; [exact Hrtc|].
    eapply Hd; [exact Hj|congruence].
  - rewrite (M_bind_run _ _ _ _ _ E). destruct (IH b1 HI1) as (b'&E'&HI'&Hng&Hrtc&Hd').
    exists b'. split_and!; try done; [congruence|eapply rtc_l; [by exists jid|done]|].
    destruct Hd as [Hd|Hd]; [left; by eapply starts_free|].
    destruct Hd' as [Hd'|Hd']; [by left|right]. intros jid2 j2 [->|Hin]%elem_of_cons H2 Hs; [|by eapply Hd'].
    by eapply starts_full.
Qed.

Lemma start_chunks_spec b :
  Inv b →
  ∃ b', start_chunks gi b = (Ok tt, b') ∧ Inv b' ∧ num_groups b' = num_groups b ∧ rtc starts b b' ∧
    (free b' = [] ∨ ∀ jid, full b' jid).
Proof.
  intros HI. unfold start_chunks, start_pass. autorewrite with monad.
  destruct (start_each false (od_keys (jobs b)) b HI) as (b1&E1&HI1&Hng1&Hr1&Hd1).
  rewrite (M_bind_run _ _ _ _ _ E1). autorewrite with monad.
  destruct (start_each true (od_keys (jobs b1)) b1 HI1) as (b2&E2&HI2&Hng2&Hr2&Hd2).
  exists b2. split_and!; try done; [congruence|by etrans|].
  destruct Hd1 as [Hd1|Hd1]; [left; by eapply starts_free|]. destruct Hd2 as [Hd2|Hd2]; [by left|right].
  intros jid j Hj. destruct (starts_jobs _ _ _ _ Hr2 Hj) as (j1&Hj1&Hs1).
  destruct (starts_jobs _ _ _ _ Hr1 Hj1) as (j0&Hj0&Hs0).
  destruct (store j) eqn:Hs.
  - eapply Hd2; [by eapply od_get_Some_key|done..].
  - eapply (starts_full b1 b2); [done| |done]. eapply Hd1; [by eapply od_get_Some_key|exact Hj1|congruence].
Qed.

(** ** Progress *)

Definition idle b : Prop := q_g2b b ∪ q_files b ∪ q_read b ∪ q_b2g b = ∅.

Lemma idle_job b jid j : Inv b → idle b → od_get jid (jobs b) = Some j → copies j = [] ∧ reads j = [].
Proof.
  intros HI Hid Hj. split.
  - destruct (copies j) as [|[sid e] c] eqn:E; [done|]. exfalso.
    assert (sid ∈ q_g2b b ∪ q_files b); [|unfold idle in Hid; set_solver].
    apply (bi_copy _ _ _ HI). exists jid, j. split; [done|]. rewrite E. simpl. rewrite decide_True by done. by eexists.
  - destruct (reads j) as [|[sid e] c] eqn:E; [done|]. exfalso.
    assert (sid ∈ q_read b ∪ q_b2g b); [|unfold idle in Hid; set_solver].
    apply (bi_read _ _ _ HI). exists jid, j. split; [done|]. rewrite E. simpl. rewrite decide_True by done. by eexists.
Qed.

Lemma all_full_idle b : Inv b → idle b → (∀ jid, full b jid) → jobs b = [].
Proof.
  intros HI Hid Hf. destruct (jobs b) as [|[jid j] js] eqn:Hjs; [done|]. exfalso.
  assert (Hj : od_get jid (jobs b) = Some j) by (rewrite Hjs; simpl; by rewrite decide_True).
  destruct (bi_job _ _ _ HI _ _ Hj) as [Hwf Hlt]. pose proof (Hf jid j Hj) as Hn.
  pose proof (jo_count _ _ _ Hwf) as Hc. destruct (idle_job _ _ _ HI Hid Hj) as [Hcz Hrz].
  unfold job_slots, copy_slots, read_slots in Hc. rewrite Hcz, Hrz in Hc. simpl in Hc. lia.
Qed.

(** With no transfer in flight every bounce slot is free. *)
Lemma idle_free b : Inv b → idle b → free b ≡ₚ seqZ 0 n_bounce.
Proof.
  intros HI Hid. assert (Hz : all_slots (jobs b) = []).
  { unfold all_slots. assert (Forall (λ j, job_slots j = []) (od_vals (jobs b))) as HF.
    { apply Forall_forall. intros j ([jid j2]&->&Hin)%list_elem_of_fmap. simpl.
      destruct (idle_job b jid j2 HI Hid) as [Hc Hr]; [apply od_elem_get; [apply HI|done]|].
      unfold job_slots, copy_slots, read_slots. by rewrite Hc, Hr. }
    induction HF as [|j js Hj _ IH]; [done|]. simpl. rewrite Hj. exact IH. }
  rewrite <- (bi_slots _ _ _ HI), Hz. by rewrite app_nil_r.
Qed.

(** A pass leaves the controller without jobs, or with a transfer in flight. *)
Lemma start_chunks_progress b :
  Inv b → 0 < n_bounce → ∃ b', start_chunks gi b = (Ok tt, b') ∧ Inv b' ∧ num_groups b' = num_groups b ∧
    rtc starts b b' ∧ (jobs b' = [] ∨ ¬ idle b').
Proof.
  intros HI Hn. destruct (start_chunks_spec b HI) as (b'&E&HI'&Hng&Hr&Hd). exists b'. split_and!; try done.
  destruct (decide (idle b')) as [Hid|Hid]; [left|by right].
  apply all_full_idle; [done..|]. destruct Hd as [Hd|Hd]; [|done]. exfalso.
  pose proof (idle_free _ HI' Hid) as Hp. rewrite Hd in Hp. apply Permutation_nil in Hp.
  rewrite seqZ_cons in Hp by done. done.
Qed.

(** ** One pump *)

(** Completions polled together: distinct transfers their engine has. *)
Definition polled b (cs : list completion) : Prop :=
  NoDup (c_id <$> cs) ∧ Forall (pending b) cs.

Lemma for_each_fmap {S A B} (f : A → B) (l : list A) (g : B → M S unit) s :
  for_each (f <$> l) g s = for_each l (λ x, g (f x)) s.
Proof.
  revert s. induction l as [|x l IH]; intros s; [done|]. simpl. unfold mbind, M_bind.
  destruct (g (f x) s) as [[[]|e] s1]; [apply IH|done].
Qed.

Lemma complete_all cs b :
  Inv b → polled b cs →
  ∃ b', for_each cs complete b = (Ok tt, b') ∧ Inv b' ∧ num_groups b' = num_groups b ∧
    (work_left b' + length cs ≤ work_left b)%nat.
Proof.
  revert b. induction cs as [|c cs IH]; intros b HI [Hnd Hp]; [exists b; split_and!; simpl; lia || done|].
  simpl in Hnd. apply NoDup_cons in Hnd as [Hni Hnd]. apply Forall_cons in Hp as [Hc Hp].
  destruct (complete_spec c b HI Hc) as (b1&jid&E&HI1&Hng1&_&_&Hw&Hkeep).
  destruct (IH b1 HI1) as (b'&E'&HI'&Hng&Hw').
  { split; [done|]. rewrite Forall_forall in Hp |- *. intros c' Hin. apply Hkeep; [by apply Hp|].
    intros Heq. apply Hni. rewrite <- Heq. by apply list_elem_of_fmap_2. }
  exists b'. simpl. rewrite (M_bind_run _ _ _ _ _ E). split_and!; [done..|congruence|simpl; lia].
Qed.

(** Engines answer with distinct transfers they were given, and with at least
    one of them when they have any. *)
Record engines_ok (e : Engines) : Prop := {
  eo_copied b : NoDup (e_copied e b) ∧ (∀ i, i ∈ e_copied e b → i ∈ q_g2b b) ∧ (q_g2b b ≠ ∅ → e_copied e b ≠ []);
  eo_written b : NoDup (e_written e b).*1 ∧ (∀ r, r ∈ e_written e b → r.1 ∈ q_files b) ∧ (q_files b ≠ ∅ → e_written e b ≠ []);
  eo_read b : NoDup (e_read e b).*1 ∧ (∀ r, r ∈ e_read e b → r.1 ∈ q_read b) ∧ (q_read b ≠ ∅ → e_read e b ≠ []);
  eo_loaded b : NoDup (e_loaded e b) ∧ (∀ i, i ∈ e_loaded e b → i ∈ q_b2g b) ∧ (q_b2g b ≠ ∅ → e_loaded e b ≠ []) }.

(** One phase of the pump. *)
Lemma phase {A} (l : list A) (con : A → completion) (f : A → M BC unit) b :
  (∀ x s, f x s = complete (con x) s) → NoDup (c_id ∘ con <$> l) → (∀ x, x ∈ l → pending b (con x)) → Inv b →
  ∃ b', for_each l f b = (Ok tt, b') ∧ Inv b' ∧ num_groups b' = num_groups b ∧
    (work_left b' + length l ≤ work_left b)%nat.
Proof.
  intros Hf Hnd Hp HI. destruct (complete_all (con <$> l) b HI) as (b'&E&HI'&Hng&Hw).
  { split; [by rewrite <- list_fmap_compose|]. rewrite Forall_fmap, Forall_forall. intros x Hx. by apply Hp. }
  rewrite length_fmap in Hw. rewrite for_each_fmap in E. exists b'. split_and!; try done.
  rewrite <- E. clear -Hf. revert b. induction l as [|x l IH]; intros b; [done|].
  simpl. unfold mbind, M_bind. rewrite Hf. destruct (complete (con x) b) as [[[]|?] ?]; [apply IH|done].
Qed.

(** One [pump] never raises; unless there is nothing to do it lowers the work left. *)
Lemma pump_spec e b :
  Inv b → engines_ok e →
  ∃ b', pump gi e b = (Ok tt, b') ∧ Inv b' ∧ num_groups b' = num_groups b ∧
    (work_left b' ≤ work_left b)%nat ∧ (0 < n_bounce → jobs b ≠ [] → (work_left b' < work_left b)%nat).
Proof.
  intros HI He. unfold pump. autorewrite with monad.
  destruct (eo_copied e He b) as (N1&P1&L1).
  destruct (phase (e_copied e b) Copied on_copied b) as (b1&E1&HI1&G1&W1); try done.
  { rewrite (list_fmap_ext _ id) by done. by rewrite list_fmap_id. }
  rewrite (M_bind_run _ _ _ _ _ E1). autorewrite with monad.
  destruct (eo_written e He b1) as (N2&P2&L2).
  destruct (phase (e_written e b1) (λ r, Written r.1 r.2) on_written b1) as (b2&E2&HI2&G2&W2); try done.
  { by intros []. }
  rewrite (M_bind_run _ _ _ _ _ E2). autorewrite with monad.
  destruct (eo_read e He b2) as (N3&P3&L3).
  destruct (phase (e_read e b2) (λ r, ReadDone r.1 r.2) (on_read gi) b2) as (b3&E3&HI3&G3&W3); try done.
  { by intros []. }
  rewrite (M_bind_run _ _ _ _ _ E3). autorewrite with monad.
  destruct (eo_loaded e He b3) as (N4&P4&L4).
  destruct (phase (e_loaded e b3) Loaded on_loaded b3) as (b4&E4&HI4&G4&W4); try done.
  { rewrite (list_fmap_ext _ id) by done. by rewrite list_fmap_id. }
  rewrite (M_bind_run _ _ _ _ _ E4).
  destruct (start_chunks_spec b4 HI4) as (b'&E5&HI5&G5&R5&_).
  exists b'. split_and!; try done; [congruence| |].
  { apply starts_work in R5. destruct R5 as [->|?]; lia. }
  intros Hn Hj. destruct (start_chunks_progress b4 HI4 Hn) as (b5&E6&_&_&_&Hprog).
  rewrite E5 in E6. injection E6 as <-.
  destruct (starts_work _ _ R5) as [->|?]; [|lia].
  assert (Hcnt : (length (e_copied e b) + length (e_written e b1) + length (e_read e b2) + length (e_loaded e b3) = 0
    ∨ work_left b4 < work_left b)%nat) by lia.
  destruct Hcnt as [Hcnt|?]; [|lia]. exfalso.
  assert (Z1 : e_copied e b = []) by (apply length_zero_iff_nil; lia).
  assert (Z2 : e_written e b1 = []) by (apply length_zero_iff_nil; lia).
  assert (Z3 : e_read e b2 = []) by (apply length_zero_iff_nil; lia).
  assert (Z4 : e_loaded e b3 = []) by (apply length_zero_iff_nil; lia).
  rewrite Z1 in E1. rewrite Z2 in E2. rewrite Z3 in E3. rewrite Z4 in E4.
  injection E1 as <-. injection E2 as <-. injection E3 as <-. injection E4 as <-.
  destruct Hprog as [?|Hni]; [done|]. apply Hni. unfold idle.
  assert (q_g2b b = ∅) as -> by (destruct (decide (q_g2b b = ∅)); [done|exfalso; by apply L1]).
  assert (q_files b = ∅) as -> by (destruct (decide (q_files b = ∅)); [done|exfalso; by apply L2]).
  assert (q_read b = ∅) as -> by (destruct (decide (q_read b = ∅)); [done|exfalso; by apply L3]).
  assert (q_b2g b = ∅) as -> by (destruct (decide (q_b2g b = ∅)); [done|exfalso; by apply L4]).
  set_solver.
Qed.

Lemma wait_all_spec fuel env n b :
  Inv b → (∀ k, engines_ok (env k)) → 0 < n_bounce → (work_left b < fuel)%nat →
  ∃ b', wait_all gi fuel env (λ _, false) n b = (Ok tt, b') ∧ Inv b' ∧ jobs b' = [].
Proof.
  revert n b. induction fuel as [|fuel IH]; intros n b HI He Hn Hf; [lia|].
  simpl. autorewrite with monad. case_bool_decide as Hj; [by exists b|].
  destruct (pump_spec (env n) b HI (He n)) as (b1&E&HI1&_&_&Hw). specialize (Hw Hn Hj).
  rewrite (M_bind_run _ _ _ _ _ E). apply IH; try done. lia.
Qed.
End run.
