(* ===== verification/BounceSystem.v ===== *)
(** The controller with its callers: what was submitted, which jobs met a
    failed transfer, and which results were delivered; and its disk side. *)
From S2P Require Import Prelude PyDict Bytes File SlabHeader SlabIO SlabManager Bounce BounceInv BounceOps BounceRun.
From stdpp Require Import base list list_numbers gmap sets relations.
From Stdlib Require Import ZArith Lia.
#[local] Open Scope Z_scope.

(** The controller, the jobs accepted so far with their direction, the jobs
    with a failed transfer, and the results taken. *)
Record Sys := mkSys {
  y_bc : BC;
  y_accepted : list (Z * bool);
  y_bad : gset Z;
  y_taken : list (Z * bool * bool) }.

(** Job, direction and success of a result. *)
Definition tag (st : bool) (r : TransferResult) : Z * bool * bool := (r_job r, st, r_success r).

Section system.
Context (gi : OffloadKey → Z) (n_bounce : Z) (layout : Layout).
Local Abbreviation grp := (grp gi).
Local Abbreviation Inv := (Inv gi n_bounce).
Implicit Types (b : BC) (j : DirectJob) (sid jid : Z) (y : Sys).

(** The job a completion belongs to failed, if the transfer did. *)
Definition bad_after b (c : completion) (bad : gset Z) : gset Z :=
  match sub_to_job b !! c_id c with
  | Some jid => if c_ok c then bad else {[jid]} ∪ bad
  | None => bad
  end.

Inductive sys_step : Sys → Sys → Prop :=
  | step_submit y jid st gpu_ids sp r b' :
      jid ∉ (y_accepted y).*1 → jid ≠ -1 →
      submit gi layout jid st gpu_ids sp (y_bc y) = (Ok r, b') →
      sys_step y (mkSys b' (if r then y_accepted y ++ [(jid, st)] else y_accepted y) (y_bad y) (y_taken y))
  | step_complete y c r b' :
      pending (y_bc y) c → complete gi c (y_bc y) = (r, b') →
      sys_step y (mkSys b' (y_accepted y) (bad_after (y_bc y) c (y_bad y)) (y_taken y))
  | step_start y r b' :
      start_chunks gi (y_bc y) = (r, b') →
      sys_step y (mkSys b' (y_accepted y) (y_bad y) (y_taken y))
  | step_take y st rs b' :
      take_results st (y_bc y) = (Ok rs, b') →
      sys_step y (mkSys b' (y_accepted y) (y_bad y) (y_taken y ++ (tag st <$> rs)))
  | step_take_failed y gpus b' :
      take_failed_gpu_blocks (y_bc y) = (Ok gpus, b') →
      sys_step y (mkSys b' (y_accepted y) (y_bad y) (y_taken y)).

Definition sys0 : Sys := mkSys (new_bc n_bounce (length layout)) [] ∅ [].

Definition sys_reachable y : Prop := rtc sys_step sys0 y.

(** Jobs reported so far: waiting for [take_results] or taken. *)
Definition reported_jobs y : list (Z * bool * bool) :=
  (tag true <$> results_store (y_bc y)) ++ (tag false <$> results_load (y_bc y)) ++ y_taken y.

Definition kinds (js : odict Z DirectJob) : list (Z * bool) := (λ e, (e.1, store e.2)) <$> js.

(** The accounts: every accepted job is in the table or reported, once, and
    failed exactly when one of its transfers did. *)
Record Acct y : Prop := {
  ac_nodup : NoDup (y_accepted y).*1;
  ac_accepted : y_accepted y ≡ₚ kinds (jobs (y_bc y)) ++ (reported_jobs y).*1;
  ac_bad jid : jid ∈ y_bad y → jid ∈ (y_accepted y).*1;
  ac_failed jid j : od_get jid (jobs (y_bc y)) = Some j → failed j = bool_decide (jid ∈ y_bad y);
  ac_success : Forall (λ t, t.2 = bool_decide (t.1.1 ∉ y_bad y)) (reported_jobs y) }.

Record SysInv y : Prop := {
  si_inv : Inv (y_bc y);
  si_groups : num_groups (y_bc y) = length layout;
  si_acct : Acct y }.

(** ** Submitting *)

Lemma sum_nbytes_groups keys n :
  sum_nbytes gi layout keys = Ok n → Forall (λ k, (grp k < length layout)%nat) keys.
Proof.
  revert n. induction keys as [|k keys IH]; intros n H; [done|]. simpl in H.
  inv_res H as Hk. inv_res H as Hks. constructor; [|by eapply IH].
  unfold block_nbytes in Hk. destruct (layout !! grp k) eqn:E; [|done]. by eapply lookup_lt_Some.
Qed.

Lemma submit_cases jid st gpu_ids sp b r b' :
  submit gi layout jid st gpu_ids sp b = (Ok r, b') →
  (r = false ∧ b' = b) ∨
  (r = true ∧ ∃ j, b' = set_jobs (od_set jid j (jobs b)) b ∧ job_id j = jid ∧ store j = st ∧ failed j = false ∧
     copies j = [] ∧ reads j = [] ∧ done_items j = 0%nat ∧ next_item j = 0%nat ∧ items j ≠ [] ∧
     items j = zip (sp_keys sp) gpu_ids ∧
     Forall (λ k, (grp k < length layout)%nat) (items j).*1).
Proof.
  unfold submit. destruct (negb _ || _) eqn:E; [by intros [= <- <-]; left|].
  apply orb_false_iff in E as [E1 E2]. apply negb_false_iff, bool_decide_eq_true in E1.
  apply bool_decide_eq_false in E2.
  intros H. apply M_bind_ok in H as (n&b1&Hn&H). unfold lift in Hn. injection Hn as Hn <-.
  autorewrite with monad in H. injection H as <- <-. right. split; [done|]. eexists. split; [done|]. simpl.
  split_and!; try done.
  - destruct (sp_keys sp), gpu_ids; done.
  - rewrite fst_zip by lia. by eapply sum_nbytes_groups.
Qed.

Lemma Inv_submit b jid j :
  Inv b → od_get jid (jobs b) = None → job_id j = jid → jid ≠ -1 → copies j = [] → reads j = [] →
  done_items j = 0%nat → next_item j = 0%nat → items j ≠ [] → Forall (λ k, (grp k < num_groups b)%nat) (items j).*1 →
  Inv (set_jobs (od_set jid j (jobs b)) b).
Proof.
  intros HI Hn Hid Hv Hc Hr Hd Hnx Hi HF.
  assert (Hslots : job_slots j = []) by (unfold job_slots, copy_slots, read_slots; by rewrite Hc, Hr).
  assert (HPP : ∀ (P : DirectJob → Prop), ¬ P j →
    (∃ jid2 j2, od_get jid2 (od_set jid j (jobs b)) = Some j2 ∧ P j2) ↔ (∃ jid2 j2, od_get jid2 (jobs b) = Some j2 ∧ P j2)).
  { intros P HP. setoid_rewrite jobs_set_get. split.
    - intros (jid2&j2&[[-> ->]|[Hne H2]]&HP2); [done|by exists jid2, j2].
    - intros (jid2&j2&H2&HP2). exists jid2, j2. split; [|done]. right. split; [|done]. intros ->. congruence. }
  assert (Hf : ∀ sid, ¬ in_flight sid j) by (intros sid [[? H]|[? H]]; rewrite ?Hc, ?Hr in H; done).
  split; simpl; try apply HI.
  - apply od_set_nodup, HI.
  - intros jid2 j2. rewrite jobs_set_get. intros [[-> ->]|[_ H2]]; [done|by eapply bi_id].
  - intros jid2 j2. rewrite jobs_set_get. intros [[-> ->]|[_ H2]]; [|by eapply bi_job].
    split; [|destruct (items j); simpl; [done|lia]].
    split; rewrite ?Hc, ?Hr, ?Hslots; simpl; try done; try constructor; [lia|lia|by destruct (store j)].
  - rewrite all_slots_set, Hslots, od_pop_None by done. apply HI.
  - intros sid jid2. rewrite (bi_sub _ _ _ HI). setoid_rewrite jobs_set_get. split.
    + intros (j2&H2&HF2). exists j2. split; [|done]. right. split; [|done]. intros ->. congruence.
    + intros (j2&[[-> ->]|[_ H2]]&HF2); [by apply Hf in HF2|by exists j2].
  - intros sid. rewrite (bi_copy _ _ _ HI sid), (HPP (λ j, is_Some (od_get sid (copies j)))); [done|].
    intros H. apply (Hf sid). by left.
  - intros sid. rewrite (bi_read _ _ _ HI sid), (HPP (λ j, is_Some (od_get sid (reads j)))); [done|].
    intros H. apply (Hf sid). by right.
  - intros jid2 [j2 H2]. rewrite jobs_set_get in H2. destruct H2 as [[-> ->]|[_ H2]]; [done|].
    apply (bi_valid _ _ _ HI). by eexists.
Qed.

(** ** What every step keeps *)

Lemma kinds_pop js jid j : od_get jid js = Some j → kinds js ≡ₚ (jid, store j) :: kinds (od_pop jid js).
Proof.
  intros Hj. unfold kinds. rewrite (od_pop_perm jid j js Hj) at 1. done.
Qed.

Lemma kinds_set js jid j : kinds (od_set jid j js) ≡ₚ (jid, store j) :: kinds (od_pop jid js).
Proof. rewrite (kinds_pop _ jid j) by apply od_get_set. by rewrite od_pop_set. Qed.

(** A job of the table was not reported. *)
Lemma reported_absent y t jid j :
  Acct y → od_get jid (jobs (y_bc y)) = Some j → t ∈ reported_jobs y → t.1.1 ≠ jid.
Proof.
  intros HS Hj Ht Heq. pose proof (ac_nodup _ HS) as Hnd.
  assert (H2 : (jid, store j) ∈ kinds (jobs (y_bc y))) by (rewrite (kinds_pop _ _ _ Hj); by left).
  rewrite (ac_accepted _ HS), fmap_app in Hnd. apply NoDup_app in Hnd as (_&Hd&_).
  apply (Hd jid); [by apply (list_elem_of_fmap_2 fst) in H2|].
  rewrite <- list_fmap_compose. apply list_elem_of_fmap. by exists t.
Qed.

Lemma job_accepted y jid j : Acct y → od_get jid (jobs (y_bc y)) = Some j → jid ∈ (y_accepted y).*1.
Proof.
  intros HS Hj. rewrite (ac_accepted _ HS), fmap_app. apply elem_of_app. left.
  rewrite (kinds_pop _ _ _ Hj). by left.
Qed.

(** A step that touches the job [jid] only, whose failure flag follows [bad']. *)
Section one_job.
Context (y : Sys) (b' : BC) (bad' : gset Z) (jid : Z) (j j' : DirectJob).
Hypothesis HS : Acct y.
Hypothesis Hj : od_get jid (jobs (y_bc y)) = Some j.
Hypothesis Hst : store j' = store j.
Hypothesis Hf : failed j' = bool_decide (jid ∈ bad').
Hypothesis Hbad : ∀ x, x ≠ jid → x ∈ bad' ↔ x ∈ y_bad y.

Lemma one_job_bad x : x ∈ bad' → x ∈ (y_accepted y).*1.
Proof.
  intros Hx. destruct (decide (x = jid)) as [->|Hne]; [by eapply job_accepted|].
  apply (ac_bad _ HS). by apply Hbad.
Qed.

Lemma one_job_success : Forall (λ t, t.2 = bool_decide (t.1.1 ∉ bad')) (reported_jobs y).
Proof.
  pose proof (ac_success _ HS) as Hsu. rewrite Forall_forall in Hsu |- *. intros t Ht. rewrite (Hsu t Ht).
  apply bool_decide_ext. rewrite Hbad; [done|]. by eapply reported_absent.
Qed.

(** The job stays. *)
Lemma Acct_tracks :
  jobs b' = od_set jid j' (jobs (y_bc y)) →
  results_store b' = results_store (y_bc y) → results_load b' = results_load (y_bc y) →
  Acct (mkSys b' (y_accepted y) bad' (y_taken y)).
Proof.
  intros Hjs Hrs Hrl.
  assert (Hrep : reported_jobs (mkSys b' (y_accepted y) bad' (y_taken y)) = reported_jobs y).
  { unfold reported_jobs. simpl. by rewrite Hrs, Hrl. }
  split; simpl.
  - apply HS.
  - rewrite Hrep, (ac_accepted _ HS), Hjs, kinds_set, Hst. by rewrite <- kinds_pop.
  - apply one_job_bad.
  - intros jid2 j2. rewrite Hjs, jobs_set_get. intros [[-> ->]|[Hne H2]]; [done|].
    rewrite (ac_failed _ HS _ _ H2). apply bool_decide_ext. by rewrite Hbad.
  - rewrite Hrep. apply one_job_success.
Qed.

(** The job leaves with its result. *)
Lemma Acct_reports :
  NoDup (od_keys (jobs (y_bc y))) → jobs b' = od_pop jid (jobs (y_bc y)) → job_id j' = jid →
  results (store j') b' = results (store j') (y_bc y) ++ [result_of j'] →
  results (negb (store j')) b' = results (negb (store j')) (y_bc y) →
  Acct (mkSys b' (y_accepted y) bad' (y_taken y)).
Proof.
  intros Hk Hjs Hid Hr1 Hr2.
  assert (Hrep : reported_jobs (mkSys b' (y_accepted y) bad' (y_taken y)) ≡ₚ
    tag (store j') (result_of j') :: reported_jobs y).
  { unfold reported_jobs. simpl. destruct (store j'); simpl in *; rewrite Hr1, Hr2, fmap_app; simpl;
      solve_Permutation. }
  split; simpl.
  - apply HS.
  - rewrite Hrep, (ac_accepted _ HS), Hjs, (kinds_pop _ _ _ Hj). simpl. rewrite Hid, Hst. solve_Permutation.
  - apply one_job_bad.
  - intros jid2 j2. rewrite Hjs, jobs_pop_get by done. intros [Hne H2].
    rewrite (ac_failed _ HS _ _ H2). apply bool_decide_ext. by rewrite Hbad.
  - rewrite Hrep. constructor; [|apply one_job_success].
    simpl. rewrite Hf, Hid. by rewrite <- bool_decide_not.
Qed.
End one_job.

(** ** Steps *)

Lemma Acct_starts y b' : Acct y → rtc starts (y_bc y) b' → Acct (mkSys b' (y_accepted y) (y_bad y) (y_taken y)).
Proof.
  destruct y as [b acc bad taken]. simpl. intros HS H. revert HS.
  induction H as [b|b1 b2 b3 [jid Hs] _ IH]; intros HS; [done|]. apply IH.
  destruct Hs as (j&j'&Hj&Hjs&Hid&Hst&Hf&_&_&_&_&_&_&Hr1&Hr2&_).
  apply (Acct_tracks (mkSys b1 acc bad taken) b2 bad jid j j'); try done.
  rewrite Hf. by apply (ac_failed _ HS).
Qed.

Lemma SysInv_complete y c : SysInv y → pending (y_bc y) c →
  ∃ b', complete gi c (y_bc y) = (Ok tt, b') ∧
    SysInv (mkSys b' (y_accepted y) (bad_after (y_bc y) c (y_bad y)) (y_taken y)).
Proof.
  intros [HI Hg HA] Hp. destruct (complete_spec gi n_bounce c (y_bc y) HI Hp)
    as (b'&jid&E&HI'&Hng&Hsub&Hcase&_&_).
  exists b'. split; [done|]. split; simpl; [done|congruence|]. unfold bad_after. rewrite Hsub.
  destruct Hcase as [[(j&j'&Hj&Hid&Hst&Hf&_&_&_&_&Hjs&Hr1&Hr2) ->]|(j&j'&Hj&Hid&Hst&Hf&_&_&_&_&Hrep)].
  - eapply Acct_tracks; try done. rewrite Hf. by apply (ac_failed _ HA).
  - assert (Hf' : failed j' = bool_decide (jid ∈ (if c_ok c then y_bad y else {[jid]} ∪ y_bad y))).
    { rewrite Hf, (ac_failed _ HA _ _ Hj). destruct (c_ok c); simpl; [by rewrite orb_false_r|].
      rewrite orb_true_r. symmetry. apply bool_decide_eq_true. set_solver. }
    assert (Hb : ∀ x, x ≠ jid → x ∈ (if c_ok c then y_bad y else {[jid]} ∪ y_bad y) ↔ x ∈ y_bad y).
    { intros x Hx. destruct (c_ok c); [done|set_solver]. }
    unfold reported in Hrep. rewrite Hid in Hrep. destruct (decide _).
    + destruct Hrep as (R1&R2&R3). eapply Acct_reports; try done. apply HI.
    + destruct Hrep as (R1&R2&R3). by eapply Acct_tracks.
Qed.

Lemma SysInv_submit y jid st gpu_ids sp r b' :
  SysInv y → jid ∉ (y_accepted y).*1 → jid ≠ -1 →
  submit gi layout jid st gpu_ids sp (y_bc y) = (Ok r, b') →
  SysInv (mkSys b' (if r then y_accepted y ++ [(jid, st)] else y_accepted y) (y_bad y) (y_taken y)).
Proof.
  intros [HI Hg HA] Hn Hv H. destruct y as [b acc bad taken]. simpl in *.
  apply submit_cases in H as [[-> ->]|[-> (j&->&Hid&Hst&Hf&Hc&Hr&Hd&Hnx&Hi&_&Hgr)]]; [done|].
  assert (Hj : od_get jid (jobs b) = None).
  { destruct (od_get jid (jobs b)) eqn:E; [|done]. destruct Hn. by eapply (job_accepted (mkSys b acc bad taken)). }
  split; simpl; [|done|].
  - apply Inv_submit; try done. by rewrite Hg.
  - split; simpl.
    + rewrite fmap_app. apply NoDup_app. split_and!; [apply HA| |apply NoDup_singleton].
      intros x Hx Hx2%list_elem_of_singleton. by subst.
    + rewrite kinds_set, Hst, od_pop_None by done. pose proof (ac_accepted _ HA) as Hp. simpl in Hp.
      rewrite Hp at 1. unfold reported_jobs. simpl. solve_Permutation.
    + intros x Hx. rewrite fmap_app. apply elem_of_app. left. by apply (ac_bad _ HA).
    + intros jid2 j2. rewrite jobs_set_get. intros [[-> ->]|[_ H2]]; [|by apply (ac_failed _ HA)].
      rewrite Hf. symmetry. apply bool_decide_eq_false. intros Hb. apply Hn. by apply (ac_bad _ HA).
    + apply (ac_success _ HA).
Qed.

Lemma SysInv_take y st rs b' :
  SysInv y → take_results st (y_bc y) = (Ok rs, b') →
  SysInv (mkSys b' (y_accepted y) (y_bad y) (y_taken y ++ (tag st <$> rs))).
Proof.
  intros [HI Hg [A1 A2 A3 A4 A5]]. unfold take_results. intros [= <- <-]. destruct y as [b acc bad taken]. simpl in *.
  assert (Hrep : reported_jobs (mkSys (set_results st [] b) acc bad (taken ++ (tag st <$> results st b)))
    ≡ₚ reported_jobs (mkSys b acc bad taken)).
  { unfold reported_jobs. simpl. destruct st; simpl; solve_Permutation. }
  split; simpl.
  - destruct HI. destruct st; by split.
  - by destruct st.
  - split; simpl; try done.
    + rewrite Hrep. by destruct st.
    + destruct st; apply A4.
    + by rewrite Hrep.
Qed.

Lemma SysInv_step y y' : SysInv y → sys_step y y' → SysInv y'.
Proof.
  intros HS H. destruct H as [y jid st gpus sp r b' Hn Hv E|y c r b' Hp E|y r b' E|y st rs b' E|y gpus b' E].
  - by eapply SysInv_submit.
  - destruct (SysInv_complete y c HS Hp) as (b2&E2&HS2). rewrite E in E2. by simplify_eq.
  - destruct HS as [HI Hg HA]. destruct (start_chunks_spec gi n_bounce (y_bc y) HI) as (b2&E2&HI2&Hng&Hr&_).
    rewrite E in E2. simplify_eq. split; simpl; [done|congruence|by apply Acct_starts].
  - by eapply SysInv_take.
  - destruct HS as [HI Hg HA]. unfold take_failed_gpu_blocks in E. injection E as <- <-.
    split; simpl; [destruct HI; by split|done|destruct HA; by split].
Qed.

Lemma Inv_new : Inv (new_bc n_bounce (length layout)).
Proof.
  split; simpl; try done; try set_solver.
  - constructor.
  - unfold all_slots. simpl. by rewrite app_nil_r.
Qed.

Lemma sys_reachable_inv y : sys_reachable y → SysInv y.
Proof.
  intros H. refine (rtc_ind_r SysInv sys0 _ _ y H); [|by intros; eapply SysInv_step].
  split; simpl; [apply Inv_new|done|]. split; simpl; try done; constructor.
Qed.
End system.

(** * The disk

    The disk side of [SlabBounceController]: what [_store_chunk] leaves in the
    slab and what [_load_one] gets back from it. *)

Section disk.
Context (gi : OffloadKey → Z) (io : SlabIO).
Local Abbreviation grp := (grp gi).
Implicit Types (key : OffloadKey) (slot : Z) (o : Os) (j : DirectJob).

(** The slab holds the block [p] of [key] in [slot], sealed. *)
Definition saved o key slot seq ep (p : list byte) : Prop :=
  ∃ f off sb, _off io (grp key) slot = Ok off ∧ files o !! grp key = Some f ∧
    slot_bytes io !! grp key = Some sb ∧ Z.of_nat (SLAB_HEADER_BYTES + length p) ≤ sb ∧
    block_at f off = Some (new_block gi key seq ep p).

Lemma saved_write key slot views seq epoch o o1 :
  write gi io key slot views seq epoch o = (Ok tt, o1) →
  saved o1 key slot seq (default (io_epoch io) epoch) (concat views).
Proof.
  intros Hw.
  destruct (write_outcome _ _ _ _ _ _ _ _ _ _ Hw) as [(e&[=]&_)|(off&f&f'&sb&Hoff&Hf&Hsb&Hle&Hfs&Hwr)].
  apply written_block in Hwr. exists f', off, sb. split_and!; try done.
  rewrite Hfs. apply list_lookup_insert_eq. by eapply lookup_lt_Some.
Qed.

(** Different slots of a group do not overlap. *)
Lemma slots_apart g slot1 slot2 off1 off2 sb (n1 : nat) :
  _off io g slot1 = Ok off1 → _off io g slot2 = Ok off2 → slot_bytes io !! g = Some sb →
  Z.of_nat n1 ≤ sb → slot1 < slot2 → (off1 + n1 ≤ off2)%nat.
Proof.
  intros H1 H2 Hsb Hn Hlt. apply _off_ok in H1 as (c1&sb1&_&Hs1&Hr1&->).
  apply _off_ok in H2 as (c2&sb2&_&Hs2&Hr2&->). simplify_eq. nia.
Qed.

Lemma saved_keep key slot seq ep p key2 slot2 views seq2 epoch2 o r o' :
  saved o key slot seq ep p → write gi io key2 slot2 views seq2 epoch2 o = (r, o') →
  (grp key2, slot2) ≠ (grp key, slot) → saved o' key slot seq ep p.
Proof.
  intros (f&off&sb&Hoff&Hf&Hsb&Hle&Hb) Hw Hne.
  destruct (write_outcome _ _ _ _ _ _ _ _ _ _ Hw) as [(?&_&->&_)|(wo&f0&f'&sb'&Hoff'&Hf0&Hsb'&Hle'&Hfs&Hwr)].
  { by exists f, off, sb. }
  destruct (decide (grp key2 = grp key)) as [Hg|Hg]; last first.
  { exists f, off, sb. split_and!; try done. by rewrite Hfs, list_lookup_insert_ne. }
  rewrite Hg in *. simplify_eq. assert (Hs : slot2 ≠ slot) by congruence.
  exists f', off, sb. split_and!; try done.
  { rewrite Hfs. apply list_lookup_insert_eq. by eapply lookup_lt_Some. }
  apply (block_at_ext f); [done|]. intros i b Hi. eapply written_frame; [exact Hwr|].
  unfold total_len in Hle'.
  destruct (Z.lt_total slot slot2) as [Hlt|[?|Hlt]]; [left|done|right].
  - pose proof (slots_apart _ _ _ _ _ _ _ Hoff Hoff' Hsb Hle Hlt) as Ha. cbn in Hi. lia.
  - pose proof (slots_apart _ _ _ _ _ _ _ Hoff' Hoff Hsb Hle' Hlt) as Ha. lia.
Qed.

(** A saved block is served, or the read fails. *)
Lemma saved_read o key slot seq ep p rviews k :
  saved o key slot seq ep p → total_len rviews = length p →
  ∃ r k', read gi io key slot rviews (Some ep) (mkOs (files o) k) = (r, mkOs (files o) k') ∧
    (r = Ok p ∨ r = Err OSError) ∧ (k = [] → rviews = [] ∨ concat rviews ≠ [] → r = Ok p).
Proof.
  intros (f&off&sb&Hoff&Hf&Hsb&Hle&Hb) Hlen.
  destruct (read_run gi io key slot rviews (Some ep) (mkOs (files o) k) off f Hoff Hf) as (r & k' & E & Hr & Hk).
  assert (Hs : read_spec f off key (total_len rviews) (Some ep) = Ok p).
  { unfold read_spec. rewrite Hb. unfold new_block, serves. simpl. rewrite Hlen. rewrite_decide. by rewrite !Z.eqb_refl. }
  rewrite Hs in Hr, Hk. exists r, k'. split; [done|]. split; [tauto|]. intros ? ?. by apply Hk.
Qed.

(** ** The bounce memory *)

(** Every tensor the layout names has its [n] bounce rows, long enough. *)
Definition mem_ok (layout : Layout) (mem : Bounced) (n : Z) : Prop :=
  ∀ refs t nb, refs ∈ layout → (t, nb) ∈ refs → 0 ≤ nb ∧
    ∃ rows, mem !! t = Some rows ∧ length rows = Z.to_nat n ∧ Forall (λ row : list byte, nb ≤ Z.of_nat (length row)) rows.

Lemma block_views_ok layout mem n key slot :
  mem_ok layout mem n → (grp key < length layout)%nat → 0 ≤ slot < n →
  ∃ vs len, block_views gi layout mem key slot = Ok vs ∧ block_nbytes gi layout key = Ok len ∧
    total_len vs = Z.to_nat len.
Proof.
  intros Hmem Hg Hs. destruct (lookup_lt_is_Some_2 _ _ Hg) as [refs Hrefs].
  unfold block_views, block_nbytes. rewrite Hrefs. simpl.
  assert (HF : Forall (λ r, 0 ≤ r.2 ∧ ∃ rows, mem !! r.1 = Some rows ∧ length rows = Z.to_nat n ∧
      Forall (λ row : list byte, r.2 ≤ Z.of_nat (length row)) rows) refs).
  { apply Forall_forall. intros [t nb] Hin. by apply (Hmem refs t nb); [eapply list_elem_of_lookup_2|]. }
  assert (H : ∃ vs, foldr (λ r acc, t ← res_of_option IndexError (mem !! r.1);
      row ← res_of_option IndexError (t !! Z.to_nat slot); vs ← acc; mret (take (Z.to_nat r.2) row :: vs))
      (mret []) refs = Ok vs ∧
      Z.of_nat (total_len vs) = foldr (λ r acc, r.2 + acc) 0 refs); last first.
  { destruct H as (vs&E&Hl). exists vs, (foldr (λ r acc, r.2 + acc) 0 refs). split; [exact E|]. split; [done|lia]. }
  clear Hrefs. induction HF as [|r refs (Hr&rows&Hm&Hlr&Hrows) _ IH]; [by exists []|].
  destruct IH as (vs&E&Hl). cbn [foldr]. rewrite Hm. cbn [res_of_option mbind res_bind].
  destruct (lookup_lt_is_Some_2 rows (Z.to_nat slot)) as [row Hrow]; [lia|].
  rewrite Hrow. cbn [res_of_option mbind res_bind]. rewrite E. eexists. split; [done|].
  rewrite Forall_forall in Hrows. specialize (Hrows row ltac:(by eapply list_elem_of_lookup_2)).
  unfold total_len in *. cbn [concat]. rewrite length_app, length_take. cbn [foldr]. lia.
Qed.

(** ** A chunk *)

(** The group and disk slot a job uses for a key. *)
Definition place j key : nat * option Z := (grp key, od_get key (disk_slots j)).

Lemma store_chunk_keep layout mem j sks key slot seq ep p o r o' :
  _store_chunk gi io layout mem j sks o = (r, o') → saved o key slot seq ep p →
  Forall (λ e, place j e.2 ≠ (grp key, Some slot)) sks → saved o' key slot seq ep p.
Proof.
  revert o. induction sks as [|[bs k] sks IH]; intros o H Hs HF; [by injection H as _ <-|].
  apply Forall_cons in HF as [Hne HF]. simpl in Hne. cbn [_store_chunk] in H. unfold place in Hne.
  destruct (od_get k (disk_slots j)) as [ds|]; cbn [res_of_option] in H; autorewrite with monad in H;
    [|by injection H as _ <-].
  destruct (block_views gi layout mem k bs) as [vs|e]; autorewrite with monad in H; [|by injection H as _ <-].
  destruct (write gi io k ds vs (job_seq j) (Some (job_epoch j)) o) as [[[]|e] o1] eqn:Ew.
  - rewrite (M_bind_run _ _ _ _ _ Ew) in H. apply (IH o1 H); [|done].
    eapply saved_keep; [done..|]. congruence.
  - rewrite (M_bind_err _ _ _ _ _ Ew) in H. injection H as _ <-. eapply saved_keep; [done..|]. congruence.
Qed.

Lemma store_chunk_saved layout mem j sks o o' :
  _store_chunk gi io layout mem j sks o = (Ok tt, o') → NoDup (place j <$> sks.*2) →
  ∀ bs key, (bs, key) ∈ sks → ∃ ds vs, od_get key (disk_slots j) = Some ds ∧
    block_views gi layout mem key bs = Ok vs ∧ saved o' key ds (job_seq j) (job_epoch j) (concat vs).
Proof.
  revert o. induction sks as [|[b k] sks IH]; intros o H Hnd bs key Hin; [by apply not_elem_of_nil in Hin|].
  cbn [_store_chunk] in H. simpl in Hnd. apply NoDup_cons in Hnd as [Hni Hnd].
  apply M_bind_ok in H as (ds&o1&Hds&H). unfold lift in Hds. injection Hds as Hds <-.
  apply M_bind_ok in H as (vs&o1&Hvs&H). unfold lift in Hvs. injection Hvs as Hvs <-.
  apply M_bind_ok in H as ([]&o1&Hw&H).
  destruct (od_get k (disk_slots j)) as [ds'|] eqn:Ed; [|done]. injection Hds as ->.
  apply elem_of_cons in Hin as [[= -> ->]|Hin]; [|by eapply IH].
  exists ds, vs. split_and!; try done.
  eapply store_chunk_keep; [done|by apply saved_write in Hw|].
  apply Forall_forall. intros [b' k'] Hin' Heq. apply Hni. simpl in Heq.
  unfold place at 1. rewrite Ed, <- Heq. apply list_elem_of_fmap_2. by apply (list_elem_of_fmap_2 snd) in Hin'.
Qed.
End disk.
