(* ===== verification/BounceProps.v ===== *)
(** What the bounce controller promises the connector: blocks survive the trip
    through the slab, bounce slots are conserved, every job is reported once
    with the right verdict, and waiting for all jobs ends. *)
From S2P Require Import Prelude PyDict Bytes File SlabHeader SlabIO SlabIOProps SlabManager Bounce BounceInv BounceOps BounceRun BounceSystem.
From stdpp Require Import base list list_numbers gmap sets relations.
From Stdlib Require Import ZArith Lia.
#[local] Open Scope Z_scope.

Section props.
Context (gi : OffloadKey → Z) (n_bounce : Z) (layout : Layout).
Local Abbreviation grp := (grp gi).

(** C31: A chunk stored through the bounce buffer comes back: once
    [_store_chunk] returned, [_load_one] of any of its keys, by any job that
    has the same disk slot and epoch for the key, through any bounce slot,
    returns the very bytes the stored bounce slot held, or raises [OSError]
    when the kernel cuts its reads short. *)
Theorem bounce_store_load io mem mem' j j' sks o o' bs key bs' n n' k :
  _store_chunk gi io layout mem j sks o = (Ok tt, o') →
  NoDup (place gi j <$> sks.*2) → mem_ok layout mem n → mem_ok layout mem' n' →
  Forall (λ s, 0 ≤ s < n) sks.*1 → Forall (λ key, (grp key < length layout)%nat) sks.*2 →
  (bs, key) ∈ sks → od_get key (disk_slots j') = od_get key (disk_slots j) → job_epoch j' = job_epoch j →
  0 ≤ bs' < n' →
  ∃ vs r k', block_views gi layout mem key bs = Ok vs ∧
    _load_one gi io layout mem' j' key bs' (mkOs (files o') k) = (r, mkOs (files o') k') ∧
    (r = Ok (concat vs) ∨ r = Err OSError) ∧ (k = [] → concat vs ≠ [] → r = Ok (concat vs)).
Proof.
  intros Hst Hnd Hm Hm' Hbs Hg Hin Hds Hep Hbs'. rewrite Forall_forall in Hbs. rewrite Forall_forall in Hg.
  specialize (Hbs bs ltac:(by apply (list_elem_of_fmap_2 fst) in Hin)).
  specialize (Hg key ltac:(by apply (list_elem_of_fmap_2 snd) in Hin)).
  destruct (store_chunk_saved gi io layout mem j sks o o' Hst Hnd bs key Hin) as (ds&vs&Ed&Ev&Hsaved).
  destruct (block_views_ok gi layout mem n key bs Hm Hg Hbs) as (vs2&len&Ev2&El&Hl).
  rewrite Ev in Ev2. injection Ev2 as <-.
  destruct (block_views_ok gi layout mem' n' key bs' Hm' Hg Hbs') as (rv&len'&Erv&El'&Hl').
  rewrite El in El'. injection El' as <-.
  destruct (saved_read gi io o' key ds (job_seq j) (job_epoch j) (concat vs) rv k Hsaved) as (r&k'&E&Hr&Hk).
  { unfold total_len in Hl, Hl' |- *. lia. }
  exists vs, r, k'. split; [done|]. split.
  - unfold _load_one. rewrite Hds, Ed, Erv, Hep. cbn [res_of_option]. by autorewrite with monad.
  - split; [done|]. intros -> Hne. apply Hk; [done|]. right. intros Hz. apply Hne.
    apply nil_length_inv. unfold total_len in *. rewrite Hz in Hl'. simpl in Hl'. lia.
Qed.

(** C17: Whatever completions the copy engines and file threads report, in
    whatever order, and whatever is submitted between them: every accepted job is
    either still in the table or was reported exactly once; it was reported
    as a success exactly when none of its transfers failed; and once it is reported no
    transfer of it is in flight any more. *)
Theorem bounce_reports_once y :
  sys_reachable gi n_bounce layout y →
  NoDup (y_accepted y).*1 ∧
  y_accepted y ≡ₚ kinds (jobs (y_bc y)) ++ (reported_jobs y).*1 ∧
  (∀ jid st ok, (jid, st, ok) ∈ reported_jobs y → ok = bool_decide (jid ∉ y_bad y)) ∧
  (∀ sid jid, sub_to_job (y_bc y) !! sid = Some jid → jid ∉ (reported_jobs y).*1.*1).
Proof.
  intros [HI _ HA]%sys_reachable_inv. split; [apply HA|]. split; [apply HA|]. split.
  - intros jid st ok Hin. pose proof (ac_success _ HA) as HF. rewrite Forall_forall in HF. apply (HF _ Hin).
  - intros sid jid (j&Hj&_)%(bi_sub _ _ _ HI) Hin. rewrite <- list_fmap_compose in Hin.
    apply list_elem_of_fmap in Hin as (t&Heq&Ht). by eapply reported_absent.
Qed.

(** C18: In every reachable state the bounce slots are conserved: the free ones
    and those of the transfers in flight are the slots [0 .. n-1], each once
    (no two transfers share a slot); every completion an engine can report is
    handled without an exception, and so is a pass that starts chunks. *)
Theorem bounce_run_safe y :
  sys_reachable gi n_bounce layout y →
  free (y_bc y) ++ all_slots (jobs (y_bc y)) ≡ₚ seqZ 0 n_bounce ∧
  NoDup (free (y_bc y) ++ all_slots (jobs (y_bc y))) ∧
  (∀ c, pending (y_bc y) c → (complete gi c (y_bc y)).1 = Ok tt) ∧
  (start_chunks gi (y_bc y)).1 = Ok tt.
Proof.
  intros HS%sys_reachable_inv. pose proof (si_inv _ _ _ _ HS) as HI.
  pose proof (bi_slots _ _ _ HI) as Hp. split; [done|]. split; [rewrite Hp; apply NoDup_seqZ|]. split.
  - intros c Hc. by destruct (SysInv_complete gi n_bounce layout y c HS Hc) as (b'&->&_).
  - by destruct (start_chunks_spec gi n_bounce (y_bc y) HI) as (b'&->&_).
Qed.

(** [wait_all] ends: with at least one bounce slot, and engines that
    answer every poll with at least one of the transfers they hold, the loop
    returns with no job left after at most [work_left] turns. *)
Theorem bounce_wait_all env y :
  sys_reachable gi n_bounce layout y → 0 < n_bounce → (∀ k, engines_ok (env k)) →
  ∃ b', wait_all gi (S (work_left (y_bc y))) env (λ _, false) 0 (y_bc y) = (Ok tt, b') ∧
    jobs b' = [] ∧ free b' ≡ₚ seqZ 0 n_bounce.
Proof.
  intros [HI _ _]%sys_reachable_inv Hn He.
  destruct (wait_all_spec gi n_bounce (S (work_left (y_bc y))) env 0 (y_bc y) HI He Hn ltac:(lia))
    as (b'&E&HI'&Hj).
  exists b'. split; [done|]. split; [done|]. pose proof (bi_slots _ _ _ HI') as Hp.
  by rewrite Hj, app_nil_r in Hp.
Qed.

(** A failed read gives up its GPU blocks and nothing else: they are added
    to the failed blocks, the bounce slots return to the pool, the job is
    marked failed and counts the chunk as done, and no copy to the GPU starts. *)
Theorem bounce_read_failed y rid :
  sys_reachable gi n_bounce layout y → rid ∈ q_read (y_bc y) →
  ∃ b' jid j slots gids keys, on_read gi (rid, false) (y_bc y) = (Ok tt, b') ∧
    od_get jid (jobs (y_bc y)) = Some j ∧ od_get rid (reads j) = Some (slots, gids, keys) ∧
    failed_gpu_blocks b' = failed_gpu_blocks (y_bc y) ∪ list_to_set gids ∧
    effect (y_bc y) jid false b' ∧
    free b' ++ all_slots (jobs b') ≡ₚ free (y_bc y) ++ all_slots (jobs (y_bc y)) ∧
    q_b2g b' = q_b2g (y_bc y).
Proof.
  intros [HI _ _]%sys_reachable_inv Hr.
  destruct (on_read_failed gi n_bounce (y_bc y) rid HI Hr)
    as (b'&jid&j&slots&gids&keys&E&HI'&_&Hj&He&Hef&_&Hf&_&_&_&Hq).
  exists b', jid, j, slots, gids, keys. split_and!; try done.
  rewrite (bi_slots _ _ _ HI). apply HI'.
Qed.
End props.

(** * Instances *)

Definition layout0 : Layout := [[(0%nat, 3); (1%nat, 2)]; [(0%nat, 2)]].
Definition n0 : Z := 1.
Definition spec0 : SlabSpec := mkSpec [key0 1 0; key0 2 1] [0; 2] 7 5.

Definition ysubmit jid st gpus sp y : Sys :=
  mkSys (submit gi0 layout0 jid st gpus sp (y_bc y)).2 (y_accepted y ++ [(jid, st)]) (y_bad y) (y_taken y).
Definition ystart y : Sys := mkSys (start_chunks gi0 (y_bc y)).2 (y_accepted y) (y_bad y) (y_taken y).
Definition ycomplete c y : Sys :=
  mkSys (complete gi0 c (y_bc y)).2 (y_accepted y) (bad_after (y_bc y) c (y_bad y)) (y_taken y).

Lemma ystart_step y : sys_step gi0 layout0 y (ystart y).
Proof.
  unfold ystart. destruct (start_chunks gi0 (y_bc y)) as [r b'] eqn:E. by eapply step_start.
Qed.
Lemma ycomplete_step c y : pending (y_bc y) c → sys_step gi0 layout0 y (ycomplete c y).
Proof.
  intros Hp. unfold ycomplete. destruct (complete gi0 c (y_bc y)) as [r b'] eqn:E. by eapply step_complete.
Qed.
Lemma ysubmit_step jid st gpus sp y :
  jid ∉ (y_accepted y).*1 → jid ≠ -1 → (submit gi0 layout0 jid st gpus sp (y_bc y)).1 = Ok true →
  sys_step gi0 layout0 y (ysubmit jid st gpus sp y).
Proof.
  intros Hn Hv Hr. unfold ysubmit. destruct (submit gi0 layout0 jid st gpus sp (y_bc y)) as [r b'] eqn:E.
  simpl in *. subst r. by eapply (step_submit _ _ _ _ _ _ _ true).
Qed.

(** One bounce slot: the load of two blocks runs in two chunks, the second of
    which fails; a store waits behind it. *)
Definition ya : Sys := ystart (ysubmit 4 false [11; 12] spec0 (ysubmit 3 true [21; 22] spec0 (sys0 n0 layout0))).
Definition yb : Sys := ystart (ycomplete (Loaded 2) (ycomplete (ReadDone 1 true) ya)).
Definition yc : Sys := ystart (ycomplete (ReadDone 3 false) yb).

Lemma ya_reachable : sys_reachable gi0 n0 layout0 ya.
Proof.
  eapply rtc_l; [apply (ysubmit_step 3 true [21; 22] spec0); [set_solver|done|by vm_compute]|].
  eapply rtc_l; [apply (ysubmit_step 4 false [11; 12] spec0); [simpl; set_solver|done|by vm_compute]|].
  apply rtc_once, ystart_step.
Qed.

Lemma yb_reachable : sys_reachable gi0 n0 layout0 yb.
Proof.
  unfold sys_reachable. etransitivity; [exact ya_reachable|].
  eapply rtc_l; [apply (ycomplete_step (ReadDone 1 true)); by vm_compute|].
  eapply rtc_l; [apply (ycomplete_step (Loaded 2)); by vm_compute|]. apply rtc_once, ystart_step.
Qed.

Lemma yc_reachable : sys_reachable gi0 n0 layout0 yc.
Proof.
  unfold sys_reachable. etransitivity; [exact yb_reachable|].
  eapply rtc_l; [apply (ycomplete_step (ReadDone 3 false)); by vm_compute|]. apply rtc_once, ystart_step.
Qed.

Lemma bounce_reports_once_witness :
  reported_jobs yc = [(4, false, false)] ∧
  NoDup (y_accepted yc).*1 ∧
  y_accepted yc ≡ₚ kinds (jobs (y_bc yc)) ++ (reported_jobs yc).*1 ∧
  (∀ jid st ok, (jid, st, ok) ∈ reported_jobs yc → ok = bool_decide (jid ∉ y_bad yc)) ∧
  (∀ sid jid, sub_to_job (y_bc yc) !! sid = Some jid → jid ∉ (reported_jobs yc).*1.*1).
Proof.
  split; [by vm_compute|]. apply (bounce_reports_once gi0 n0 layout0 yc). apply yc_reachable.
Defined.

Lemma bounce_run_safe_witness :
  free (y_bc yb) ++ all_slots (jobs (y_bc yb)) ≡ₚ seqZ 0 n0 ∧
  NoDup (free (y_bc yb) ++ all_slots (jobs (y_bc yb))) ∧
  (∀ c, pending (y_bc yb) c → (complete gi0 c (y_bc yb)).1 = Ok tt) ∧
  (start_chunks gi0 (y_bc yb)).1 = Ok tt.
Proof. apply (bounce_run_safe gi0 n0 layout0 yb). apply yb_reachable. Defined.

(** Engines that finish the least transfer they hold, reads failing. *)
Definition first_of (X : gset Z) : list Z := take 1 (elements X).
Definition eng0 : Engines := mkEngines (λ b, first_of (q_g2b b)) (λ b, (λ i, (i, true)) <$> first_of (q_files b))
  (λ b, (λ i, (i, false)) <$> first_of (q_read b)) (λ b, first_of (q_b2g b)).

Lemma first_of_ok X : NoDup (first_of X) ∧ (∀ i, i ∈ first_of X → i ∈ X) ∧ (X ≠ ∅ → first_of X ≠ []).
Proof.
  unfold first_of. split; [eapply (sublist_NoDup _ (elements X)); [apply NoDup_elements|apply sublist_take]|]. split.
  - intros i Hi. apply elem_of_elements. eapply (elem_of_submseteq _ (elements X)); [exact Hi|]. apply sublist_submseteq, sublist_take.
  - intros Hne Hz. apply Hne. apply leibniz_equiv, elements_empty_iff. by destruct (elements X).
Qed.

Lemma eng0_ok : engines_ok eng0.
Proof.
  assert (H : ∀ (c : bool) (X : gset Z), NoDup ((λ i, (i, c)) <$> first_of X).*1 ∧
    (∀ r, r ∈ ((λ i, (i, c)) <$> first_of X) → r.1 ∈ X) ∧ (X ≠ ∅ → (λ i, (i, c)) <$> first_of X ≠ [])).
  { intros c X. destruct (first_of_ok X) as (H1&H2&H3). rewrite <- list_fmap_compose, list_fmap_id. split_and!; [done| |].
    - intros r (i&->&Hi)%list_elem_of_fmap. by apply H2.
    - intros Hne Hz%fmap_nil_inv. by apply H3. }
  split; intros b; try apply first_of_ok; apply H.
Qed.

Lemma bounce_wait_all_witness :
  work_left (y_bc yb) = 8%nat ∧
  ∃ b', wait_all gi0 (S (work_left (y_bc yb))) (λ _, eng0) (λ _, false) 0 (y_bc yb) = (Ok tt, b') ∧
    jobs b' = [] ∧ free b' ≡ₚ seqZ 0 n0.
Proof.
  split; [by vm_compute|]. apply (bounce_wait_all gi0 n0 layout0 (λ _, eng0) yb); [apply yb_reachable|done|].
  intros _. apply eng0_ok.
Defined.

Lemma bounce_read_failed_witness :
  3 ∈ q_read (y_bc yb) ∧
  ∃ b' jid j slots gids keys, on_read gi0 (3, false) (y_bc yb) = (Ok tt, b') ∧
    od_get jid (jobs (y_bc yb)) = Some j ∧ od_get 3 (reads j) = Some (slots, gids, keys) ∧
    failed_gpu_blocks b' = failed_gpu_blocks (y_bc yb) ∪ list_to_set gids ∧
    effect (y_bc yb) jid false b' ∧
    free b' ++ all_slots (jobs b') ≡ₚ free (y_bc yb) ++ all_slots (jobs (y_bc yb)) ∧
    q_b2g b' = q_b2g (y_bc yb).
Proof.
  split; [by vm_compute|].
  apply (bounce_read_failed gi0 n0 layout0 yb 3); [apply yb_reachable|by vm_compute].
Defined.

(** Two bounce rows of two tensors, and a job that stores both. *)
Definition mem0 : Bounced := [[z2b <$> [1; 2; 3; 4]; z2b <$> [5; 6; 7; 8]]; [z2b <$> [9; 10]; z2b <$> [11; 12]]].
Definition job0 : DirectJob := mkJob 3 true [] 2 0 false 0 [] [] [(key0 1 0, 0); (key0 2 1, 2)] 7 5.
Definition sks0 : list (Z * OffloadKey) := [(1, key0 1 0); (0, key0 2 1)].
Definition stored0 : res unit * Os := _store_chunk gi0 io0 layout0 mem0 job0 sks0 (os0 [Xfer 128; Xfer 3]).

Lemma mem0_ok : mem_ok layout0 mem0 2.
Proof.
  intros refs t nb Hr Hin. unfold layout0 in Hr.
  repeat (apply elem_of_cons in Hr as [->|Hr]; [repeat (apply elem_of_cons in Hin as [[= -> ->]|Hin];
    [split; [lia|]; eexists; split; [reflexivity|]; split; [reflexivity|]; repeat constructor; simpl; lia|]); by apply not_elem_of_nil in Hin|]).
  by apply not_elem_of_nil in Hr.
Qed.

Lemma bounce_store_load_witness :
  ∃ vs r k', block_views gi0 layout0 mem0 (key0 1 0) 1 = Ok vs ∧
    _load_one gi0 io0 layout0 mem0 job0 (key0 1 0) 0 (mkOs (files stored0.2) []) = (r, mkOs (files stored0.2) k') ∧
    (r = Ok (concat vs) ∨ r = Err OSError) ∧ (@nil sys = [] → concat vs ≠ [] → r = Ok (concat vs)).
Proof.
  apply (bounce_store_load gi0 layout0 io0 mem0 mem0 job0 job0 sks0 (os0 [Xfer 128; Xfer 3]) stored0.2 1 (key0 1 0) 0 2 2 []).
  - vm_compute. reflexivity.
  - apply (bool_decide_unpack _). vm_compute. done.
  - apply mem0_ok.
  - apply mem0_ok.
  - repeat constructor; simpl; lia.
  - apply Forall_forall. intros k [->|[->|[]%not_elem_of_nil]%elem_of_cons]%elem_of_cons; vm_compute; lia.
  - by left.
  - done.
  - done.
  - lia.
Defined.
