(* ===== verification/SlabSpec.v ===== *)
(** Starting a worker on its rank's slabs: the geometry, the decision to keep
    or wipe what is on disk, and the order of the disk operations
    ([slab_geometry], [_slab_should_wipe] and
    [MultiNodeSlabOffloadingSpec.get_worker] of multinode.py).  JSON values and
    their Python equality are parameters; a crash is a disk operation that
    does not happen. *)
From S2P Require Import Prelude Bytes File SlabHeader SlabIO SlabManager.
From stdpp Require Import base list list_numbers gmap sets strings.
From Stdlib Require Import ZArith Lia Ascii.
#[local] Open Scope string_scope.
#[local] Open Scope list_scope.
#[local] Open Scope Z_scope.

(** * Geometry *)

(** [slab_geometry(group_bytes, disk_bytes_per_rank)] *)
Definition slab_geometry (group_bytes : list Z) (disk_bytes_per_rank : Z) : res (list Z * list Z) :=
  let slot_bytes := (λ b, round_up (Z.of_nat SLAB_HEADER_BYTES + b) 4096) <$> group_bytes in
  match slot_bytes with
  | [] => Err IndexError
  | b0 :: rest =>
    let per_row := b0 + foldr Z.add 0 ((λ b, Z.of_nat DRAFTER_PER_TARGET * b) <$> rest) in
    let n := Z.max 1 (disk_bytes_per_rank / per_row) in
    Ok (slot_bytes, n :: replicate (length group_bytes - 1) (Z.of_nat DRAFTER_PER_TARGET * n))
  end.

(** What the slabs of a geometry take on disk when full. *)
Definition disk_bytes (geo : list Z * list Z) : Z :=
  foldr Z.add 0 (zip_with Z.mul geo.1 geo.2).

(** * The persist flag *)

Inductive flag := FStr (s : string) | FBool (b : bool) | FInt (n : Z) | FNone.

Definition is_space (c : ascii) : bool :=
  let n := nat_of_ascii c in
  bool_decide (n = 32%nat) || (bool_decide (9 ≤ n)%nat && bool_decide (n ≤ 13)%nat) ||
  (bool_decide (28 ≤ n)%nat && bool_decide (n ≤ 31)%nat).
Definition lower_char (c : ascii) : ascii :=
  let n := nat_of_ascii c in
  if bool_decide (65 ≤ n)%nat && bool_decide (n ≤ 90)%nat then ascii_of_nat (n + 32) else c.
(** [s.lstrip()], [s.strip()] and [s.lower()] on ASCII text. *)
Fixpoint lstrip (s : list ascii) : list ascii :=
  match s with
  | [] => []
  | c :: s' => if is_space c then lstrip s' else s
  end.
Definition strip (s : list ascii) : list ascii := reverse (lstrip (reverse (lstrip s))).
Definition lower (s : list ascii) : list ascii := lower_char <$> s.

(** [_slab_persist_value(v)] *)
Definition _slab_persist_value (v : flag) : bool :=
  match v with
  | FStr s =>
    negb (bool_decide (String.string_of_list_ascii (lower (strip (String.list_ascii_of_string s)))
                       ∈ ["0"; "false"; "no"; "off"; ""]))
  | FBool b => b
  | FInt n => negb (n =? 0)
  | FNone => false
  end.

(** [_slab_persist_default()], given the environment variable. *)
Definition _slab_persist_default (env : option string) : bool :=
  _slab_persist_value (FStr (default "1" env)).

Section spec.
(** JSON values with Python's [==], and the values the code puts in the meta. *)
Context {J : Type} (py_eq : J → J → bool) (j_none : J) (j_int : Z → J) (j_ints : list Z → J).

Definition MetaObj : Type := gmap string J.
(** [slab-meta.json]: not there, not JSON or not readable, or an object. *)
Inductive MetaW := WAbsent | WUnreadable | WMeta (m : MetaObj).

Definition SLAB_META_VERSION : Z := 3.

(** [old.get(key)] *)
Definition mget (m : MetaObj) (k : string) : J := default j_none (m !! k).

(** [_slab_should_wipe(old, ...)] *)
Definition _slab_should_wipe (old : option MetaObj) (slot_bytes slot_counts run_config engine_version boot_id : J)
    (persist : bool) (content_identity : J) : bool :=
  match old with
  | None => true
  | Some old =>
    if negb (py_eq (mget old "version") (j_int SLAB_META_VERSION)) ||
       negb (py_eq (mget old "slot_bytes") slot_bytes) ||
       negb (py_eq (mget old "slot_counts") slot_counts) ||
       negb (py_eq (mget old "engine_version") engine_version) ||
       negb (py_eq (mget old "run_config") run_config) ||
       negb (py_eq (mget old "content_identity") content_identity) then true
    else if negb persist && negb (py_eq (mget old "boot_id") boot_id) then true
    else false
  end.

(** * [get_worker] *)

(** What a start depends on. *)
Record Cfg := mkCfg {
  c_group_bytes : list Z; c_disk_bytes : Z; c_boot : J; c_run_config : J; c_engine : J; c_identity : J;
  c_persist : flag; c_env : option string }.

(** The rank directory; [w_life] disk operations are left before the process dies. *)
Record WDisk := mkW { w_meta : MetaW; w_slabs : list file; w_epoch : EpochFile; w_life : nat }.

Definition disk_op (f : WDisk → WDisk) : M WDisk unit := λ d,
  match w_life d with
  | O => (Err OSError, d)
  | S n => (Ok tt, f (mkW (w_meta d) (w_slabs d) (w_epoch d) n))
  end.
Definition w_set_slabs x d := mkW (w_meta d) x (w_epoch d) (w_life d).
Definition w_set_meta x d := mkW x (w_slabs d) (w_epoch d) (w_life d).

(** [SlabIO.__init__] on one group: [O_CREAT], then cut to the capacity. *)
Definition open_group (g : nat) (cap : Z) : M WDisk unit :=
  disk_op (λ d, w_set_slabs (w_slabs d ++ replicate (S g - length (w_slabs d)) []) d);;
  fs ← gets w_slabs;
  let f := default [] (fs !! g) in
  if cap <? Z.of_nat (length f)
  then disk_op (λ d, w_set_slabs (<[g := take (Z.to_nat cap) f]> (w_slabs d)) d) else mret tt.

Definition open_groups (sb counts : list Z) : M WDisk unit :=
  for_each (zip (seq 0 (length sb)) (zip_with Z.mul sb counts)) (λ e, open_group e.1 e.2).

(** [SlabIO.wipe] *)
Definition wipe_groups (n : nat) : M WDisk unit :=
  for_each (seq 0 n) (λ g, disk_op (λ d, w_set_slabs (<[g := []]> (w_slabs d)) d)).

Definition new_meta (cfg : Cfg) (sb counts : list Z) : MetaObj :=
  list_to_map [("version", j_int SLAB_META_VERSION); ("boot_id", c_boot cfg); ("slot_bytes", j_ints sb);
    ("slot_counts", j_ints counts); ("group_bytes", j_ints (c_group_bytes cfg));
    ("disk_bytes_per_rank", j_int (c_disk_bytes cfg)); ("engine_version", c_engine cfg);
    ("run_config", c_run_config cfg); ("content_identity", c_identity cfg)].

Definition old_meta (w : MetaW) : option MetaObj := match w with WMeta m => Some m | _ => None end.
Definition persist_of (cfg : Cfg) : bool :=
  match c_persist cfg with FNone => _slab_persist_default (c_env cfg) | v => _slab_persist_value v end.
Definition should_wipe (cfg : Cfg) (w : MetaW) (sb counts : list Z) : bool :=
  _slab_should_wipe (old_meta w) (j_ints sb) (j_ints counts) (c_run_config cfg) (c_engine cfg) (c_boot cfg)
    (persist_of cfg) (c_identity cfg).

(** [get_worker(kv_caches)]: the slab object the controller gets, and whether
    older slabs were wiped. *)
Definition get_worker (cfg : Cfg) : M WDisk (SlabIO * bool) :=
  geo ← lift (slab_geometry (c_group_bytes cfg) (c_disk_bytes cfg));
  let '(sb, counts) := geo in
  old ← gets w_meta;
  open_groups sb counts;;
  let wipe := should_wipe cfg old sb counts in
  (if wipe then wipe_groups (length sb) else mret tt);;
  disk_op (w_set_meta (WMeta (new_meta cfg sb counts)));;
  e ← gets w_epoch;
  mret (mkSlab sb counts (match e with EpochIs n => n | _ => 0 end),
        wipe && bool_decide (is_Some (old_meta old))).
End spec.
Arguments WAbsent {J}.
Arguments WUnreadable {J}.
