(* ===== verification/SlabSpecProps.v ===== *)
(** What starting a worker guarantees: the slabs fit the budget and every
    block fits its slot, a crash never relabels old blocks, and a restart
    keeps the slabs exactly when they still mean the same. *)
From S2P Require Import Prelude Bytes File SlabHeader SlabIO SlabManager SlabSpec.
From stdpp Require Import base list list_numbers gmap sets strings.
From Stdlib Require Import ZArith Lia Ascii.
#[local] Open Scope string_scope.
#[local] Open Scope list_scope.
#[local] Open Scope Z_scope.

(** * Geometry *)

Lemma sum_scaled n (l : list Z) :
  foldr Z.add 0 (zip_with Z.mul l (replicate (length l) (4 * n))) = n * foldr Z.add 0 ((λ b, 4 * b) <$> l).
Proof.
  induction l as [|x l IH]; [simpl; lia|].
  cbn [length replicate zip_with foldr fmap list_fmap]. rewrite IH. unfold fmap. lia.
Qed.

Lemma sum_nonneg (l : list Z) : Forall (λ x, 0 ≤ x) l → 0 ≤ foldr Z.add 0 l.
Proof. induction 1; simpl; lia. Qed.

(** The disk bytes of one row: one target slot and its drafter slots. *)
Definition row_bytes (sb : list Z) : Z := disk_bytes (sb, 1 :: replicate (length sb - 1) 4).

Lemma disk_bytes_rows b0 rest n :
  disk_bytes (b0 :: rest, n :: replicate (length rest) (4 * n)) = n * row_bytes (b0 :: rest).
Proof.
  unfold row_bytes, disk_bytes. cbn [fst snd zip_with foldr length]. rewrite sum_scaled.
  replace (S (length rest) - 1)%nat with (length rest) by lia.
  pose proof (sum_scaled 1 rest) as H1. replace (4 * 1) with 4 in H1 by lia. rewrite H1. lia.
Qed.

(** [slab_geometry] gives every group 4 KB aligned slots that hold the
    header and the group's whole payload with less than a page to spare, and
    as many rows (one slot of group 0, four of every other group) as the
    budget holds: at least one row, never more than the budget if more than
    one, and one more row would not fit. *)
Theorem slab_geometry_fits group_bytes budget sb counts :
  Forall (λ b, 0 ≤ b) group_bytes → slab_geometry group_bytes budget = Ok (sb, counts) →
  length sb = length group_bytes ∧ length counts = length group_bytes ∧
  (∀ g b, group_bytes !! g = Some b → ∃ s n, sb !! g = Some s ∧ counts !! g = Some n ∧ 1 ≤ n ∧
     (4096 | s) ∧ Z.of_nat SLAB_HEADER_BYTES + b ≤ s < Z.of_nat SLAB_HEADER_BYTES + b + 4096) ∧
  ∃ n, counts = n :: replicate (length group_bytes - 1) (4 * n) ∧ 1 ≤ n ∧
    disk_bytes (sb, counts) = n * row_bytes sb ∧
    (n = 1 ∨ disk_bytes (sb, counts) ≤ budget) ∧ budget < (n + 1) * row_bytes sb.
Proof.
  intros Hnn. unfold slab_geometry. destruct group_bytes as [|g0 gs]; [done|]. cbn [fmap list_fmap].
  set (f := λ b, round_up (Z.of_nat SLAB_HEADER_BYTES + b) 4096).
  set (rest := list_fmap _ _ f gs). intros [<- <-]%Ok_inj%pair_eq.
  assert (Hf : ∀ b, 0 ≤ b → (4096 | f b) ∧ Z.of_nat SLAB_HEADER_BYTES + b ≤ f b < Z.of_nat SLAB_HEADER_BYTES + b + 4096).
  { intros b Hb. destruct (round_up_spec (Z.of_nat SLAB_HEADER_BYTES + b) 4096 ltac:(lia)) as [H1 H2]. done. }
  assert (Hlr : length rest = length gs) by apply length_fmap.
  set (per_row := f g0 + foldr Z.add 0 ((λ b, Z.of_nat DRAFTER_PER_TARGET * b) <$> rest)).
  set (n := Z.max 1 (budget / per_row)). replace (length (g0 :: gs) - 1)%nat with (length gs) by (simpl; lia).
  change (Z.of_nat DRAFTER_PER_TARGET) with 4 in *.
  assert (Hrow : row_bytes (f g0 :: rest) = per_row).
  { unfold row_bytes, disk_bytes. cbn [fst snd zip_with foldr length].
    replace (S (length rest) - 1)%nat with (length rest) by lia.
    pose proof (sum_scaled 1 rest) as H1. replace (4 * 1) with 4 in H1 by lia. rewrite H1. unfold per_row. lia. }
  apply Forall_cons in Hnn as [H0 Hnn].
  assert (Hpos : 0 < per_row).
  { destruct (Hf g0 H0) as [_ H]. assert (0 ≤ foldr Z.add 0 ((λ b, 4 * b) <$> rest)).
    { apply sum_nonneg. apply Forall_fmap, Forall_fmap. eapply Forall_impl; [exact Hnn|].
      intros b Hb. simpl. destruct (Hf b Hb). unfold SLAB_HEADER_BYTES in *. lia. }
    unfold per_row, SLAB_HEADER_BYTES in *. lia. }
  split; [exact (f_equal S Hlr)|]. split; [cbn [length]; by rewrite length_replicate|]. split.
  - intros g b Hg. destruct g as [|g]; simpl in Hg.
    + injection Hg as <-. destruct (Hf g0 H0) as [H1 H2]. exists (f g0), n. split_and!; try done; lia.
    + assert (Hb : 0 ≤ b) by (rewrite Forall_forall in Hnn; apply Hnn; by eapply list_elem_of_lookup_2).
      destruct (Hf b Hb) as [H1 H2]. exists (f b), (4 * n). simpl.
      pose proof (lookup_lt_Some _ _ _ Hg). split_and!; try done; try lia.
      * unfold rest. change (list_fmap _ _ f gs) with (f <$> gs). by rewrite list_lookup_fmap, Hg.
      * by apply lookup_replicate_2.
  - exists n. split; [done|]. split; [lia|]. pose proof (disk_bytes_rows (f g0) rest n) as Hd.
    rewrite Hlr in Hd.
    set (geo := (f g0 :: rest, n :: replicate (length gs) (4 * n))) in Hd.
    change (disk_bytes geo = n * row_bytes (f g0 :: rest) ∧ (n = 1 ∨ disk_bytes geo ≤ budget) ∧
      budget < (n + 1) * row_bytes (f g0 :: rest)).
    rewrite Hd, Hrow.
    split; [done|]. pose proof (Z.div_mod budget per_row ltac:(lia)).
    pose proof (Z.mod_pos_bound budget per_row Hpos). split; [|nia].
    destruct (Z.le_gt_cases (budget / per_row) 1) as [Hle|Hgt]; [left; lia|right].
    assert (n = budget / per_row) as -> by lia. nia.
Qed.

(** * Starting *)

Section start.
Context {J : Type} (py_eq : J → J → bool) (j_none : J) (j_int : Z → J) (j_ints : list Z → J).
Local Abbreviation WDisk := (@WDisk J).
Local Abbreviation get_worker := (get_worker py_eq j_none j_int j_ints).
Local Abbreviation should_wipe := (should_wipe py_eq j_none j_int j_ints).
Local Abbreviation new_meta := (new_meta j_int j_ints).
Implicit Types (d : WDisk).

Definition slab_of d g : file := default [] (w_slabs d !! g).

(** Files were only cut (or created empty). *)
Definition cut d d' : Prop :=
  w_epoch d' = w_epoch d ∧ ∀ g, slab_of d' g `prefix_of` slab_of d g.

Lemma cut_refl d : cut d d.
Proof. by split. Qed.
Lemma cut_trans d1 d2 d3 : cut d1 d2 → cut d2 d3 → cut d1 d3.
Proof. intros [E1 P1] [E2 P2]. split; [congruence|]. intros g. by transitivity (slab_of d2 g). Qed.

(** A disk operation happens, or the process dies. *)
Lemma disk_op_run f d :
  disk_op f d = (Err OSError, d) ∨
  ∃ n, w_life d = S n ∧ disk_op f d = (Ok tt, f (mkW (w_meta d) (w_slabs d) (w_epoch d) n)).
Proof. unfold disk_op. destruct (w_life d) as [|n]; [by left|right; by exists n]. Qed.

Lemma disk_op_live f d n : w_life d = S n →
  disk_op f d = (Ok tt, f (mkW (w_meta d) (w_slabs d) (w_epoch d) n)).
Proof. intros H. unfold disk_op. by rewrite H. Qed.

Lemma slab_of_insert d g f g' n : (g < length (w_slabs d))%nat →
  slab_of (mkW (w_meta d) (<[g := f]> (w_slabs d)) (w_epoch d) n) g' = if decide (g' = g) then f else slab_of d g'.
Proof.
  intros Hg. unfold slab_of. simpl. case_decide as Hd.
  - subst. by rewrite list_lookup_insert_eq.
  - by rewrite list_lookup_insert_ne.
Qed.

Lemma slab_of_extend d k g n : slab_of (mkW (w_meta d) (w_slabs d ++ replicate k []) (w_epoch d) n) g = slab_of d g.
Proof.
  unfold slab_of. simpl. destruct (decide (g < length (w_slabs d))%nat) as [Hl|Hl].
  - by rewrite lookup_app_l.
  - rewrite lookup_app_r by lia. rewrite (lookup_ge_None_2 (w_slabs d)) by lia.
    destruct (replicate k [] !! _) eqn:E; [|done]. by apply lookup_replicate in E as [-> _].
Qed.

(** What opening and wiping keep of the starting disk [d0]. *)
Definition opening (d0 d : WDisk) : Prop := w_meta d = w_meta d0 ∧ cut d0 d.

Lemma open_group_cut d0 d g cap : opening d0 d → opening d0 (open_group g cap d).2.
Proof.
  intros [Hm Hc]. unfold open_group. autorewrite with monad.
  destruct (disk_op_run (λ d, w_set_slabs (w_slabs d ++ replicate (S g - length (w_slabs d)) []) d) d)
    as [E|(n&_&E)]; [by rewrite (M_bind_err _ _ _ _ _ E)|]. rewrite (M_bind_run _ _ _ _ _ E). clear E.
  unfold w_set_slabs. simpl. set (d1 := mkW _ _ _ n).
  assert (H1 : opening d0 d1).
  { split; [done|]. split; [apply Hc|]. intros g'. unfold d1. rewrite slab_of_extend. apply Hc. }
  autorewrite with monad. destruct (cap <? _); [|done].
  match goal with |- context [disk_op ?f d1] => destruct (disk_op_run f d1) as [E|(n2&_&E)] end; rewrite E; simpl; [done|].
  split; [apply H1|]. split; [apply H1|]. intros g'.
  assert (Hg : (g < length (w_slabs d1))%nat) by (unfold d1; simpl; rewrite length_app, length_replicate; lia).
  unfold w_set_slabs. simpl.
  change (slab_of (mkW (w_meta d1) (<[g:=take (Z.to_nat cap) (slab_of d1 g)]> (w_slabs d1)) (w_epoch d1) n2) g'
    `prefix_of` slab_of d0 g').
  rewrite slab_of_insert by done.
  case_decide as Hd; [subst|apply H1]. etrans; [|apply H1].
  exists (drop (Z.to_nat cap) (slab_of d1 g)). by rewrite take_drop.
Qed.

Lemma open_groups_cut d sb counts : opening d (open_groups sb counts d).2.
Proof.
  unfold open_groups. apply for_each_inv; [|split; [done|apply cut_refl]].
  intros x s _ Hs. by apply open_group_cut.
Qed.

Lemma wipe_groups_cut d0 n d : opening d0 d → opening d0 (wipe_groups n d).2.
Proof.
  intros H. unfold wipe_groups. apply for_each_inv; [|done]. clear d H. intros g d _ H.
  destruct (disk_op_run (λ d, w_set_slabs (<[g := []]> (w_slabs d)) d) d) as [E|(k&_&E)]; rewrite E; simpl; [done|].
  split; [apply H|]. split; [apply H|]. intros g'. unfold slab_of, w_set_slabs. simpl.
  destruct (decide (g' = g)) as [->|Hne].
  - destruct (decide (g < length (w_slabs d))%nat).
    + rewrite list_lookup_insert_eq by done. simpl. apply prefix_nil.
    + rewrite list_insert_ge by lia. apply H.
  - rewrite list_lookup_insert_ne by done. apply H.
Qed.

(** A wipe that returns leaves the groups empty. *)
Lemma wipe_groups_empty n d d' : wipe_groups n d = (Ok tt, d') → ∀ g, (g < n)%nat → slab_of d' g = [].
Proof.
  unfold wipe_groups. assert (H : ∀ l d, for_each l (λ g, disk_op (λ d, w_set_slabs (<[g := []]> (w_slabs d)) d)) d = (Ok tt, d') →
    ∀ g, g ∈ l ∨ slab_of d g = [] → slab_of d' g = []).
  { induction l as [|x l IH]; intros d1 E g Hg.
    { injection E as <-. by destruct Hg as [?%not_elem_of_nil|?]. }
    simpl in E. destruct (disk_op_run (λ d, w_set_slabs (<[x := []]> (w_slabs d)) d) d1) as [E1|(k&_&E1)].
    { by rewrite (M_bind_err _ _ _ _ _ E1) in E. }
    rewrite (M_bind_run _ _ _ _ _ E1) in E. apply (IH _ E). unfold slab_of, w_set_slabs. simpl.
    destruct (decide (g = x)) as [->|Hne]; [right|].
    - destruct (decide (x < length (w_slabs d1))%nat); [by rewrite list_lookup_insert_eq|].
      rewrite list_insert_ge by lia. by rewrite lookup_ge_None_2 by lia.
    - rewrite list_lookup_insert_ne by done. destruct Hg as [[?|?]%elem_of_cons|?]; [done|by left|by right]. }
  intros E g Hg. apply (H _ _ E). left. apply elem_of_seq. lia.
Qed.

Definition wiped_groups n d : Prop := ∀ g, (g < n)%nat → slab_of d g = [].

(** The outcomes of the statements of a start. *)
Lemma wipe_if_outcome (wipe : bool) n d r d' :
  (if wipe then wipe_groups n else mret tt) d = (r, d') →
  opening d d' ∧ (r = Ok tt → wipe = true → wiped_groups n d').
Proof.
  destruct wipe.
  - intros E. split; [pose proof (wipe_groups_cut d n d) as H; rewrite E in H; apply H; split; [done|apply cut_refl]|].
    intros -> _. intros g. by apply (wipe_groups_empty n d).
  - intros [= <- <-]. split; [split; [done|apply cut_refl]|done].
Qed.

(** Every outcome of a start: the process died before the new meta was
    published, or it was published and the slot data means what it says. *)
Lemma get_worker_outcome cfg d r d' sb counts :
  slab_geometry (c_group_bytes cfg) (c_disk_bytes cfg) = Ok (sb, counts) →
  get_worker cfg d = (r, d') →
  cut d d' ∧
  ((∃ e, r = Err e) ∧ w_meta d' = w_meta d ∨
   r = Ok (mkSlab sb counts (match w_epoch d with EpochIs n => n | _ => 0 end),
           should_wipe cfg (w_meta d) sb counts && bool_decide (is_Some (old_meta (w_meta d)))) ∧
   w_meta d' = WMeta (new_meta cfg sb counts) ∧
   (should_wipe cfg (w_meta d) sb counts = true → wiped_groups (length sb) d')).
Proof.
  intros Hgeo. unfold SlabSpec.get_worker. rewrite Hgeo. autorewrite with monad.
  pose proof (open_groups_cut d sb counts) as H1.
  destruct (open_groups sb counts d) as [[[]|e] d1] eqn:E1; simpl in H1.
  2: { rewrite (M_bind_err _ _ _ _ _ E1). intros [= <- <-]. split; [apply H1|]. left. split; [by eexists|apply H1]. }
  rewrite (M_bind_run _ _ _ _ _ E1). set (wipe := should_wipe cfg (w_meta d) sb counts).
  destruct ((if wipe then wipe_groups (length sb) else mret tt) d1) as [r2 d2] eqn:E2.
  destruct (wipe_if_outcome _ _ _ _ _ E2) as [H2 H2'].
  assert (Hc : cut d d2) by (eapply cut_trans; [apply H1|apply H2]).
  assert (Hm : w_meta d2 = w_meta d) by (etrans; [apply H2|apply H1]).
  destruct r2 as [[]|e].
  2: { rewrite (M_bind_err _ _ _ _ _ E2). intros [= <- <-]. split; [done|]. left. split; [by eexists|done]. }
  rewrite (M_bind_run _ _ _ _ _ E2).
  destruct (disk_op_run (w_set_meta (WMeta (new_meta cfg sb counts))) d2) as [E3|(n&_&E3)].
  { rewrite (M_bind_err _ _ _ _ _ E3). intros [= <- <-]. split; [done|]. left. split; [by eexists|done]. }
  rewrite (M_bind_run _ _ _ _ _ E3). autorewrite with monad. simpl. intros [= <- <-].
  split; [done|]. right. split; [by rewrite (proj1 Hc)|]. split; [done|]. intros Hw. by apply H2'.
Qed.

(** C34: A start never relabels old blocks: wherever the process dies during
    [get_worker], the slab files were only cut, and the metadata on disk
    either is the old one, or describes the new configuration while the
    slabs are empty unless the old metadata already meant the same. *)
Theorem worker_start_crash_safe cfg d r d' sb counts :
  slab_geometry (c_group_bytes cfg) (c_disk_bytes cfg) = Ok (sb, counts) →
  get_worker cfg d = (r, d') →
  (∀ g, slab_of d' g `prefix_of` slab_of d g) ∧
  (w_meta d' = w_meta d ∨
   w_meta d' = WMeta (new_meta cfg sb counts) ∧
   (should_wipe cfg (w_meta d) sb counts = false ∨ ∀ g, (g < length sb)%nat → slab_of d' g = [])).
Proof.
  intros Hgeo E. destruct (get_worker_outcome cfg d r d' sb counts Hgeo E) as [Hc H]. split; [apply Hc|].
  destruct H as [[_ Hm]|(_&Hm&Hw)]; [by left|right]. split; [done|].
  destruct (should_wipe cfg (w_meta d) sb counts); [right; by apply Hw|by left].
Qed.

(** Slabs as a worker of the geometry leaves them. *)
Definition fits d (sb counts : list Z) : Prop :=
  ∀ g cap, zip_with Z.mul sb counts !! g = Some cap →
    (g < length (w_slabs d))%nat ∧ Z.of_nat (length (slab_of d g)) ≤ cap.

Lemma open_group_same g cap d n :
  (g < length (w_slabs d))%nat → Z.of_nat (length (slab_of d g)) ≤ cap → w_life d = S n →
  open_group g cap d = (Ok tt, mkW (w_meta d) (w_slabs d) (w_epoch d) n).
Proof.
  intros Hg Hl Hn. unfold open_group.
  rewrite (M_bind_run _ _ _ _ _ (disk_op_live _ d n Hn)). autorewrite with monad. unfold w_set_slabs. simpl.
  replace (S g - length (w_slabs d))%nat with 0%nat by lia. simpl. rewrite app_nil_r.
  fold (slab_of d g). rewrite (proj2 (Z.ltb_ge _ _)) by done. done.
Qed.

Lemma open_groups_same sb counts d :
  fits d sb counts → (length sb ≤ w_life d)%nat →
  ∃ n, open_groups sb counts d = (Ok tt, mkW (w_meta d) (w_slabs d) (w_epoch d) n) ∧ (w_life d ≤ n + length sb)%nat.
Proof.
  intros Hf Hl. unfold open_groups.
  assert (H : ∀ (l : list (nat * Z)) d, Forall (λ e, (e.1 < length (w_slabs d))%nat ∧ Z.of_nat (length (slab_of d e.1)) ≤ e.2) l →
    (length l ≤ w_life d)%nat →
    ∃ n, for_each l (λ e, open_group e.1 e.2) d = (Ok tt, mkW (w_meta d) (w_slabs d) (w_epoch d) n) ∧ (n + length l = w_life d)%nat).
  { clear. induction l as [|[g cap] l IH]; intros d HF Hl.
    { exists (w_life d). simpl. destruct d. split; [done|lia]. }
    apply Forall_cons in HF as [[Hg Hc] HF]. simpl in Hl, Hg, Hc. destruct (w_life d) as [|n] eqn:En; [lia|].
    simpl. rewrite (M_bind_run _ _ _ _ _ (open_group_same g cap d n Hg Hc En)).
    destruct (IH (mkW (w_meta d) (w_slabs d) (w_epoch d) n)) as (n'&E&Hn'); [done|simpl; lia|].
    exists n'. split; [exact E|]. simpl in Hn'. lia. }
  set (l := zip _ _). assert (Hlen : (length l ≤ length sb)%nat) by (unfold l; rewrite length_zip, length_seq; lia).
  destruct (H l d) as (n&E&Hn); [|lia|exists n; split; [done|lia]].
  apply Forall_forall. intros [g cap] Hin. apply list_elem_of_lookup in Hin as [i Hi].
  apply lookup_zip_Some in Hi as [Hg Hc]. apply lookup_seq in Hg as [-> _]. by apply Hf.
Qed.

Lemma new_meta_get cfg sb counts : let m := new_meta cfg sb counts in
  mget j_none m "version" = j_int SLAB_META_VERSION ∧ mget j_none m "slot_bytes" = j_ints sb ∧
  mget j_none m "slot_counts" = j_ints counts ∧ mget j_none m "engine_version" = c_engine cfg ∧
  mget j_none m "run_config" = c_run_config cfg ∧ mget j_none m "content_identity" = c_identity cfg ∧
  mget j_none m "boot_id" = c_boot cfg.
Proof. vm_compute. repeat split. Qed.

Lemma should_wipe_new cfg cfg' sb counts sb' counts' :
  (∀ x y, py_eq (j_ints x) (j_ints y) = true ↔ x = y) → py_eq (j_int SLAB_META_VERSION) (j_int SLAB_META_VERSION) = true →
  should_wipe cfg' (WMeta (new_meta cfg sb counts)) sb' counts' =
  negb (bool_decide (sb = sb' ∧ counts = counts') && py_eq (c_engine cfg) (c_engine cfg') &&
    py_eq (c_run_config cfg) (c_run_config cfg') && py_eq (c_identity cfg) (c_identity cfg') &&
    (persist_of cfg' || py_eq (c_boot cfg) (c_boot cfg'))).
Proof.
  intros Hints Hver. unfold SlabSpec.should_wipe, _slab_should_wipe. cbn [old_meta].
  destruct (new_meta_get cfg sb counts) as (->&->&->&->&->&->&->). rewrite Hver. simpl.
  assert (H : ∀ x y, py_eq (j_ints x) (j_ints y) = bool_decide (x = y)).
  { intros x y. symmetry. destruct (py_eq (j_ints x) (j_ints y)) eqn:E; [apply bool_decide_eq_true; by apply Hints|].
    apply bool_decide_eq_false. intros ->. by rewrite (proj2 (Hints y y) eq_refl) in E. }
  rewrite !H, bool_decide_and. destruct (bool_decide (sb = sb')), (bool_decide (counts = counts')),
    (py_eq (c_engine cfg) _), (py_eq (c_run_config cfg) _), (py_eq (c_identity cfg) _), (persist_of cfg'),
    (py_eq (c_boot cfg) _); done.
Qed.

Lemma wipe_groups_run n d :
  (n ≤ w_life d)%nat → ∃ d', wipe_groups n d = (Ok tt, d') ∧ (w_life d ≤ w_life d' + n)%nat.
Proof.
  unfold wipe_groups.
  assert (H : ∀ (l : list nat) d, (length l ≤ w_life d)%nat →
    ∃ d', for_each l (λ g, disk_op (λ d, w_set_slabs (<[g := []]> (w_slabs d)) d)) d = (Ok tt, d') ∧
      (w_life d ≤ w_life d' + length l)%nat).
  { clear d. induction l as [|g l IH]; intros d Hl; [exists d; split; [done|lia]|].
    simpl in Hl. destruct (w_life d) as [|k] eqn:Ek; [lia|]. simpl.
    rewrite (M_bind_run _ _ _ _ _ (disk_op_live _ d k Ek)).
    destruct (IH (w_set_slabs (<[g := []]> (w_slabs d)) (mkW (w_meta d) (w_slabs d) (w_epoch d) k))) as (d'&E&Hk);
      [simpl; lia|].
    exists d'. split; [exact E|]. simpl in Hk. lia. }
  intros Hl. destruct (H (seq 0 n) d) as (d'&E&Hk); rewrite ?length_seq in *; [done|]. by exists d'.
Qed.

(** A restart keeps the slabs exactly when they still mean the same. On a
    disk whose metadata an earlier start published, a complete second start
    leaves every slab untouched when format, geometry, engine, run
    configuration and content identity are equal (and, unless persistence
    is on, the boot too), and empties all of them otherwise. *)
Theorem worker_restart cfg cfg' sb counts sb' counts' d :
  (∀ x y, py_eq (j_ints x) (j_ints y) = true ↔ x = y) → py_eq (j_int SLAB_META_VERSION) (j_int SLAB_META_VERSION) = true →
  slab_geometry (c_group_bytes cfg) (c_disk_bytes cfg) = Ok (sb, counts) →
  slab_geometry (c_group_bytes cfg') (c_disk_bytes cfg') = Ok (sb', counts') →
  w_meta d = WMeta (new_meta cfg sb counts) → fits d sb' counts' → (2 * length sb' < w_life d)%nat →
  let same := bool_decide (sb = sb' ∧ counts = counts') && py_eq (c_engine cfg) (c_engine cfg') &&
    py_eq (c_run_config cfg) (c_run_config cfg') && py_eq (c_identity cfg) (c_identity cfg') &&
    (persist_of cfg' || py_eq (c_boot cfg) (c_boot cfg')) in
  ∃ io d', get_worker cfg' d = (Ok (io, negb same), d') ∧ slot_bytes io = sb' ∧ slot_counts io = counts' ∧
    w_meta d' = WMeta (new_meta cfg' sb' counts') ∧
    (if same then w_slabs d' = w_slabs d else ∀ g, (g < length sb')%nat → slab_of d' g = []).
Proof.
  intros Hints Hver Hgeo Hgeo' Hm Hf Hlife same.
  assert (Hw : should_wipe cfg' (w_meta d) sb' counts' = negb same).
  { rewrite Hm. by apply should_wipe_new. }
  destruct (open_groups_same sb' counts' d Hf ltac:(lia)) as (n&E1&Hn).
  destruct (get_worker cfg' d) as [r d'] eqn:E.
  pose proof (get_worker_outcome cfg' d r d' sb' counts' Hgeo' E) as [_ Hout].
  rewrite Hw in Hout. rewrite Hm in Hout. cbn [old_meta] in Hout. rewrite bool_decide_eq_true_2, andb_true_r in Hout by by eexists.
  unfold SlabSpec.get_worker in E. rewrite Hgeo' in E. autorewrite with monad in E.
  rewrite (M_bind_run _ _ _ _ _ E1), Hw in E. set (d1 := mkW _ _ _ n) in E.
  assert (∃ d2, (if negb same then wipe_groups (length sb') else mret tt) d1 = (Ok tt, d2) ∧ (0 < w_life d2)%nat ∧
    (same = true → d2 = d1)) as (d2&E2&Hl2&Hs2).
  { destruct same; simpl; [exists d1; split; [done|]; split; [simpl; lia|done]|].
    destruct (wipe_groups_run (length sb') d1) as (d2&E2&Hl2); [simpl; lia|].
    exists d2. split; [done|]. split; [simpl in Hl2; lia|done]. }
  rewrite (M_bind_run _ _ _ _ _ E2) in E. destruct (w_life d2) as [|k] eqn:Ek; [lia|].
  rewrite (M_bind_run _ _ _ _ _ (disk_op_live _ d2 k Ek)) in E. autorewrite with monad in E.
  injection E as Er Ed'. destruct Hout as [[[e He] _]|(Hr&Hmeta&Hwiped)]; [congruence|].
  eexists _, d'. split; [by rewrite Hr|]. split; [done|]. split; [done|]. split; [done|].
  destruct same; [|by apply Hwiped]. rewrite <- Ed', Hs2 by done. done.
Qed.
End start.

(** * Instances *)

Lemma slab_geometry_fits_witness :
  let sb := [61440; 8192] in let counts := [10; 40] in
  Forall (λ b, 0 ≤ b) [61000; 8064] ∧
  length sb = length [61000; 8064] ∧ length counts = length [61000; 8064] ∧
  (∀ g b, [61000; 8064] !! g = Some b → ∃ s n, sb !! g = Some s ∧ counts !! g = Some n ∧ 1 ≤ n ∧
     (4096 | s) ∧ Z.of_nat SLAB_HEADER_BYTES + b ≤ s < Z.of_nat SLAB_HEADER_BYTES + b + 4096) ∧
  ∃ n, counts = n :: replicate (length [61000; 8064] - 1) (4 * n) ∧ 1 ≤ n ∧
    disk_bytes (sb, counts) = n * row_bytes sb ∧
    (n = 1 ∨ disk_bytes (sb, counts) ≤ 1000000) ∧ 1000000 < (n + 1) * row_bytes sb.
Proof.
  intros sb counts. split; [repeat constructor; lia|].
  apply (slab_geometry_fits [61000; 8064] 1000000 sb counts); [repeat constructor; lia|vm_compute; reflexivity].
Defined.

(** JSON values as lists of numbers. *)
Definition eqb0 (x y : list Z) : bool := bool_decide (x = y).
Definition cfg0 (boot engine : Z) (persist : flag) : @Cfg (list Z) :=
  mkCfg [100; 20] 30000 [boot] [4] [engine] [77] persist None.
Definition geo0 : list Z * list Z := ([4096; 4096], [1; 4]).
Definition wdisk0 : @WDisk (list Z) :=
  mkW (WMeta (new_meta (λ n, [n]) (λ l, l) (cfg0 1 29 FNone) geo0.1 geo0.2))
    [z2b <$> [1; 2; 3]; z2b <$> [4]] (EpochIs 5) 50.
Definition get_worker0 := get_worker eqb0 [] (λ n, [n]) (λ l, l).

(** The process dies in the middle of a wipe, and before the new meta. *)
Lemma worker_start_crash_safe_witness :
  let d := mkW (w_meta wdisk0) (w_slabs wdisk0) (w_epoch wdisk0) 3 in
  let d' := (get_worker0 (cfg0 1 30 FNone) d).2 in
  w_slabs d' = [[]; z2b <$> [4]] ∧
  (∀ g, slab_of d' g `prefix_of` slab_of d g) ∧
  (w_meta d' = w_meta d ∨
   w_meta d' = WMeta (new_meta (λ n, [n]) (λ l, l) (cfg0 1 30 FNone) geo0.1 geo0.2) ∧
   (should_wipe eqb0 [] (λ n, [n]) (λ l, l) (cfg0 1 30 FNone) (w_meta d) geo0.1 geo0.2 = false ∨
    ∀ g, (g < length geo0.1)%nat → slab_of d' g = [])).
Proof.
  intros d d'. split; [vm_compute; reflexivity|].
  apply (worker_start_crash_safe eqb0 [] (λ n, [n]) (λ l, l) (cfg0 1 30 FNone) d
    (get_worker0 (cfg0 1 30 FNone) d).1 d' geo0.1 geo0.2).
  - vm_compute. reflexivity.
  - apply surjective_pairing.
Defined.

(** A new boot keeps the slabs by default, and drops them without persistence. *)
Lemma worker_restart_witness :
  (∃ io d', get_worker0 (cfg0 2 29 FNone) wdisk0 = (Ok (io, false), d') ∧ slot_bytes io = geo0.1 ∧
    slot_counts io = geo0.2 ∧
    w_meta d' = WMeta (new_meta (λ n, [n]) (λ l, l) (cfg0 2 29 FNone) geo0.1 geo0.2) ∧ w_slabs d' = w_slabs wdisk0) ∧
  (∃ io d', get_worker0 (cfg0 2 29 (FStr " Off ")) wdisk0 = (Ok (io, true), d') ∧ slot_bytes io = geo0.1 ∧
    slot_counts io = geo0.2 ∧
    w_meta d' = WMeta (new_meta (λ n, [n]) (λ l, l) (cfg0 2 29 (FStr " Off ")) geo0.1 geo0.2) ∧
    ∀ g, (g < length geo0.1)%nat → slab_of d' g = []).
Proof.
  assert (Hints : ∀ x y : list Z, eqb0 x y = true ↔ x = y) by (intros x y; apply bool_decide_eq_true).
  assert (Hf : fits wdisk0 geo0.1 geo0.2).
  { intros [|[|g]] cap; simpl; [intros [= <-]|intros [= <-]|done]; vm_compute; (split; [lia|done]). }
  split.
  - apply (worker_restart eqb0 [] (λ n, [n]) (λ l, l) (cfg0 1 29 FNone) (cfg0 2 29 FNone)
      geo0.1 geo0.2 geo0.1 geo0.2 wdisk0); try done; vm_compute; lia.
  - apply (worker_restart eqb0 [] (λ n, [n]) (λ l, l) (cfg0 1 29 FNone) (cfg0 2 29 (FStr " Off "))
      geo0.1 geo0.2 geo0.1 geo0.2 wdisk0); try done; vm_compute; lia.
Defined.
