(* ===== verification/FsBlocks.v ===== *)
(** The per-key file tier: [write_block_file], [read_block_file],
    [WorkerFsHandler] and [discover_rank0_base_path] of multinode.py, over a
    file system with a schedule of system calls, and what the files guarantee. *)
From S2P Require Import Prelude PyDict Bytes File SlabHeader SlabIO SlabIOProps SlabManager Bounce.
From stdpp Require Import base list list_numbers gmap sets strings.
From Stdlib Require Import ZArith Lia Ascii.
#[local] Open Scope string_scope.
#[local] Open Scope list_scope.
#[local] Open Scope Z_scope.

(** * The file system *)

(** The files by path, and what the next system calls will do. *)
Record FileSys := mkFs { fs_files : gmap string file; fs_kern : list sys }.

(** A call that may fail: [mkdir], [open], [fdatasync], [rename], [unlink]. *)
Definition sys_call : M FileSys unit := λ s,
  match fs_kern s with
  | [] => (Ok tt, s)
  | Fail :: k => (Err OSError, mkFs (fs_files s) k)
  | Xfer _ :: k => (Ok tt, mkFs (fs_files s) k)
  end.
Definition set_fs (f : gmap string file → gmap string file) : M FileSys unit := modify (λ s, mkFs (f (fs_files s)) (fs_kern s)).

Definition exists_ (path : string) : M FileSys bool := gets (λ s, bool_decide (is_Some (fs_files s !! path))).
(** [os.open(path, O_CREAT | O_EXCL | O_WRONLY)] *)
Definition open_excl (path : string) : M FileSys unit :=
  ex ← exists_ path;
  if (ex : bool) then raise FileExistsError else sys_call;; set_fs (<[path := []]>).
Definition replace_ (src dst : string) : M FileSys unit :=
  sys_call;; set_fs (λ m, match m !! src with Some f => <[dst := f]> (delete src m) | None => m end).
Definition os_remove (path : string) : M FileSys unit :=
  ex ← exists_ path;
  if (ex : bool) then sys_call;; set_fs (delete path) else raise OSError.

(** [os.writev(fd, views)] at the end of [path]; [os.readv] from [off]. *)
Definition os_writev (path : string) (data : list byte) : M FileSys nat := λ s,
  match fs_kern s with
  | Fail :: k => (Err OSError, mkFs (fs_files s) k)
  | Xfer n :: k => let n := Nat.min n (length data) in
    (Ok n, mkFs (alter (λ f, f ++ take n data) path (fs_files s)) k)
  | [] => (Ok (length data), mkFs (alter (λ f, f ++ data) path (fs_files s)) [])
  end.
Definition os_readv (path : string) (off want : nat) : M FileSys (list byte) := λ s,
  let f := default [] (fs_files s !! path) in
  match fs_kern s with
  | Fail :: k => (Err OSError, mkFs (fs_files s) k)
  | Xfer n :: k => (Ok (file_read f off (Nat.min n want)), mkFs (fs_files s) k)
  | [] => (Ok (file_read f off want), s)
  end.

(** * Block files *)

(** [while remaining: n = os.writev(...)] *)
Fixpoint writev_loop (fuel : nat) (path : string) (remaining : list (list byte)) : M FileSys unit :=
  match remaining with
  | [] => mret tt
  | _ => match fuel with
         | O => raise OutOfFuel
         | S fuel =>
           n ← os_writev path (concat remaining);
           if bool_decide (n ≤ 0)%nat then raise OSError
           else writev_loop fuel path (_drain_iov remaining n)
         end
  end.

(** [try: os.remove(p) except OSError: pass], then re-raise. *)
Definition cleanup {A} (path : string) (e : exn) : M FileSys A :=
  catch (os_remove path) (λ _, mret tt);; raise e.

(** [write_block_file(path, views)], with the temporary name *)
Definition write_block_file (path tmp : string) (views : list (list byte)) : M FileSys unit :=
  ex ← exists_ path;
  if (ex : bool) then mret tt else
  sys_call;;
  open_excl tmp;;
  catch (writev_loop (S (total_len views)) tmp views;; sys_call;; replace_ tmp path) (cleanup tmp).

(** [while remaining: n = os.readv(...)], returning what was read. *)
Fixpoint readv_loop (fuel : nat) (path : string) (remaining : list (list byte)) (pos : nat) : M FileSys (list byte) :=
  match remaining with
  | [] => mret []
  | _ => match fuel with
         | O => raise OutOfFuel
         | S fuel =>
           got ← os_readv path pos (length (concat remaining));
           if bool_decide (length got ≤ 0)%nat then raise OSError
           else rest ← readv_loop fuel path (_drain_iov remaining (length got)) (pos + length got);
                mret (got ++ rest)
         end
  end.

(** [read_block_file(path, views)] *)
Definition read_block_file (path : string) (views : list (list byte)) : M FileSys (list byte) :=
  ex ← exists_ path;
  if negb ex then raise OSError else
  sys_call;;
  catch (size ← gets (λ s, length (default [] (fs_files s !! path)));
         if negb (bool_decide (size = total_len views)) then raise OSError
         else readv_loop (S (total_len views)) path views 0)
    (cleanup path).

Section handler.
Context (get_offload_group_idx : OffloadKey → Z) (get_file_name : OffloadKey → string) (tmp_suffix : string).

(** [WorkerFsHandler._do_one(key, cpu_block_id)] of a store and of a load. *)
Definition _do_one_store (layout : Layout) (mem : Bounced) (key : OffloadKey) (block : Z) : M FileSys unit :=
  views ← lift (block_views get_offload_group_idx layout mem key block);
  write_block_file (get_file_name key) (get_file_name key +:+ tmp_suffix) views.
Definition _do_one_load (layout : Layout) (mem : Bounced) (key : OffloadKey) (block : Z) : M FileSys (list byte) :=
  views ← lift (block_views get_offload_group_idx layout mem key block);
  read_block_file (get_file_name key) views.
End handler.

(** * Finding rank 0's directory *)

(** One entry of [os.listdir]: name, is it a directory, modification time. *)
Definition Entry : Type := string * bool * Z.

Fixpoint replace_char (a b : ascii) (s : string) : string :=
  match s with
  | EmptyString => EmptyString
  | String c s => String (if bool_decide (c = a) then b else c) (replace_char a b s)
  end.
Definition has_suffix (suf s : string) : bool :=
  bool_decide ((String.length suf ≤ String.length s)%nat ∧
    String.substring (String.length s - String.length suf) (String.length suf) s = suf).

(** [max(cands, key=mtime)]: the first of the largest. *)
Fixpoint newest_of (best : Entry) (l : list Entry) : Entry :=
  match l with
  | [] => best
  | e :: l => newest_of (if best.2 <? e.2 then e else best) l
  end.

(** [discover_rank0_base_path(root_dir, model_name)], given [os.listdir(root_dir)]. *)
Definition discover_rank0_base_path (root_dir model_name : string) (listing : option (list Entry)) : option string :=
  let safe := replace_char "/" "_" model_name in
  match listing with
  | None => None
  | Some names =>
    match filter (λ n : Entry, String.prefix (safe +:+ "_") n.1.1 && has_suffix "_r0" n.1.1 && n.1.2 = true) names with
    | [] => None
    | c :: cs =>
      let newest := (newest_of c cs).1.1 in
      Some (root_dir +:+ "/" +:+ String.substring 0 (String.length newest - 3) newest)
    end
  end.

(** * Guarantees

    What the per-key files guarantee: a block file appears whole or not at
    all, and is read back as it was written or given up. *)

(** Only the file [p] may differ. *)
Definition only (p : string) (s s' : FileSys) : Prop := ∀ q, q ≠ p → fs_files s' !! q = fs_files s !! q.

Lemma only_refl p s : only p s s.
Proof. done. Qed.
Lemma only_trans p s1 s2 s3 : only p s1 s2 → only p s2 s3 → only p s1 s3.
Proof. intros H1 H2 q Hq. by rewrite H2, H1. Qed.

Lemma sys_call_run s : ∃ r k, sys_call s = (r, mkFs (fs_files s) k) ∧ (r = Ok tt ∨ r = Err OSError) ∧
  (fs_kern s = [] → r = Ok tt ∧ k = []).
Proof. unfold sys_call. destruct s as [fs [|[n|] k]]; simpl; do 2 eexists; (split; [reflexivity|]); (split; [by left + by right|done]). Qed.

Lemma os_writev_run p d s f :
  fs_files s !! p = Some f →
  ∃ r j k, os_writev p d s = (r, mkFs (<[p := f ++ take j d]> (fs_files s)) k) ∧ (j ≤ length d)%nat ∧
    (r = Ok j ∨ r = Err OSError ∧ j = 0%nat) ∧ (fs_kern s = [] → r = Ok (length d) ∧ k = []).
Proof.
  intros Hf. unfold os_writev.
  assert (Ha : ∀ j, alter (λ f, f ++ take j d) p (fs_files s) = <[p := f ++ take j d]> (fs_files s)).
  { intros j. apply map_eq. intros q. destruct (decide (q = p)) as [->|Hne].
    - by rewrite lookup_alter_eq, lookup_insert_eq, Hf.
    - by rewrite lookup_alter_ne, lookup_insert_ne. }
  destruct (fs_kern s) as [|[n|] k] eqn:Ek.
  - exists (Ok (length d)), (length d), []. rewrite <- Ha, take_ge by lia. split; [done|]. split; [lia|].
    split; [by left|done].
  - exists (Ok (n `min` length d)%nat), (n `min` length d)%nat, k. rewrite <- Ha. split; [done|]. split; [lia|].
    split; [by left|done].
  - exists (Err OSError), 0%nat, k. rewrite take_0, app_nil_r, insert_id by done. split; [done|]. split; [lia|].
    split; [by right|done].
Qed.

Lemma writev_loop_spec fuel p views s f :
  fs_files s !! p = Some f → (length (concat views) < fuel)%nat →
  ∃ r j k, writev_loop fuel p views s = (r, mkFs (<[p := f ++ take j (concat views)]> (fs_files s)) k) ∧
    (r = Ok tt ∧ j = length (concat views) ∨ r = Err OSError) ∧
    (fs_kern s = [] → k = [] ∧ (views = [] ∨ concat views ≠ [] → r = Ok tt)).
Proof.
  revert views s f. induction fuel as [|fuel IH]; intros views s f Hf Hl; [lia|].
  destruct views as [|v vs'].
  { exists (Ok tt), 0%nat, (fs_kern s). simpl. rewrite app_nil_r, insert_id by done. destruct s. split; [done|].
    split; [by left|done]. }
  set (vs := v :: vs') in *. change (writev_loop (S fuel) p vs) with
    (n ← os_writev p (concat vs);
     if bool_decide (n ≤ 0)%nat then raise OSError else writev_loop fuel p (_drain_iov vs n)).
  destruct (os_writev_run p (concat vs) s f Hf) as (r & n & k & Hrun & Hn & Hr & Hk).
  unfold mbind, M_bind. rewrite Hrun. assert (Hvs : vs ≠ []) by done. clearbody vs. destruct Hr as [->|[-> ->]]; simpl.
  - case_bool_decide as Hz.
    + exists (Err OSError), n, k. split; [done|]. split; [by right|]. intros Hk0.
      destruct (Hk Hk0) as [[= Hn'] ->]. split; [done|]. intros [?|Hne]; [done|]. destruct Hne. apply nil_length_inv. lia.
    + set (s1 := mkFs _ k). assert (Hf1 : fs_files s1 !! p = Some (f ++ take n (concat vs))) by apply lookup_insert_eq.
      destruct (IH (_drain_iov vs n) s1 _ Hf1) as (r & j & k' & E & Hr & Hk').
      { rewrite drain_concat, length_drop. lia. }
      rewrite drain_concat in *. exists r, (n + j)%nat, k'. split.
      { rewrite E. unfold s1. simpl. rewrite insert_insert_eq, <- (assoc_L (++)). by rewrite take_take_drop. }
      split. { destruct Hr as [[-> ->]|?]; [left|by right]. rewrite length_drop. split; [done|lia]. }
      intros Hk0. destruct (Hk Hk0) as [[= ->] ->]. destruct (Hk' eq_refl) as [-> Hd]. split; [done|].
      intros _. apply Hd. left. by apply drain_all.
  - exists (Err OSError), 0%nat, k. split; [done|]. split; [by right|]. by intros [[=] _]%Hk.
Qed.

Lemma remove_run p s : ∃ r s', os_remove p s = (r, s') ∧ only p s s' ∧
  (fs_files s' !! p = fs_files s !! p ∨ fs_files s' !! p = None) ∧ (fs_kern s = [] → fs_files s' !! p = None).
Proof.
  unfold os_remove, exists_. autorewrite with monad. case_bool_decide as He; last first.
  { exists (Err OSError), s. split; [done|]. split; [done|]. split; [by left|].
    intros _. destruct (fs_files s !! p); [|done]. destruct He. by eexists. }
  destruct (sys_call_run s) as (r&k&E&Hr&Hk). destruct Hr as [->| ->].
  - rewrite (M_bind_run _ _ _ _ _ E). eexists _, _. split; [reflexivity|]. simpl. split.
    { intros q Hq. simpl. by rewrite lookup_delete_ne. }
    rewrite lookup_delete_eq. split; [by right|done].
  - rewrite (M_bind_err _ _ _ _ _ E). eexists _, _. split; [reflexivity|]. split; [done|]. split; [by left|].
    by intros [[=] _]%Hk.
Qed.

Lemma cleanup_run {A} p e s : ∃ s', cleanup (A:=A) p e s = (Err e, s') ∧ only p s s' ∧
  (fs_files s' !! p = fs_files s !! p ∨ fs_files s' !! p = None) ∧ (fs_kern s = [] → fs_files s' !! p = None).
Proof.
  unfold cleanup. destruct (remove_run p s) as (r&s'&E&H1&H2&H3). exists s'.
  assert (E' : catch (os_remove p) (λ _, mret tt) s = (Ok tt, s')) by (unfold catch; rewrite E; by destruct r as [[]|]).
  rewrite (M_bind_run _ _ _ _ _ E'). done.
Qed.

(** The [try] body of a write: it publishes, or leaves the target alone. *)
Lemma write_body path tmp views s :
  path ≠ tmp → fs_files s !! tmp = Some [] →
  ∃ r s', (writev_loop (S (total_len views)) tmp views;; sys_call;; replace_ tmp path) s = (r, s') ∧
    (r = Ok tt ∧ fs_files s' !! path = Some (concat views) ∧ fs_files s' !! tmp = None ∧
       (∀ q, q ≠ path → q ≠ tmp → fs_files s' !! q = fs_files s !! q) ∨
     r = Err OSError ∧ only tmp s s') ∧
    (fs_kern s = [] → views = [] ∨ concat views ≠ [] → r = Ok tt ∧ fs_kern s' = []).
Proof.
  intros Hne Ht. destruct (writev_loop_spec (S (total_len views)) tmp views s [] Ht ltac:(unfold total_len; lia))
    as (r&j&k&E&Hr&Hk). set (s1 := mkFs _ k) in E.
  assert (Ho1 : only tmp s s1) by (intros q Hq; unfold s1; simpl; by rewrite lookup_insert_ne).
  destruct Hr as [[-> ->]| ->]; last first.
  { rewrite (M_bind_err _ _ _ _ _ E). exists (Err OSError), s1. split; [done|]. split; [by right|].
    intros Hk0 Hv. destruct (Hk Hk0) as [_ Hd]. by discriminate Hd. }
  rewrite (M_bind_run _ _ _ _ _ E). destruct (sys_call_run s1) as (r2&k2&E2&Hr2&Hk2).
  destruct Hr2 as [->| ->]; last first.
  { rewrite (M_bind_err _ _ _ _ _ E2). eexists _, _. split; [done|]. split; [right; split; [done|exact Ho1]|].
    intros Hk0 _. destruct (Hk Hk0) as [-> _]. by destruct (Hk2 eq_refl). }
  rewrite (M_bind_run _ _ _ _ _ E2). unfold replace_. set (s2 := mkFs _ k2).
  destruct (sys_call_run s2) as (r3&k3&E3&Hr3&Hk3). destruct Hr3 as [->| ->]; last first.
  { rewrite (M_bind_err _ _ _ _ _ E3). eexists _, _. split; [done|]. split; [right; split; [done|exact Ho1]|].
    intros Hk0 _. destruct (Hk Hk0) as [-> _]. destruct (Hk2 eq_refl) as [_ ->]. by destruct (Hk3 eq_refl). }
  rewrite (M_bind_run _ _ _ _ _ E3). eexists _, _. split; [reflexivity|]. simpl.
  rewrite lookup_insert_eq. rewrite take_ge by done. split.
  - left. split; [done|]. split; [by rewrite lookup_insert_eq|]. split.
    + by rewrite lookup_insert_ne, lookup_delete_eq.
    + intros q H1 H2. rewrite lookup_insert_ne, lookup_delete_ne, lookup_insert_ne by done. done.
  - intros Hk0 Hv. split; [done|]. destruct (Hk Hk0) as [-> _]. destruct (Hk2 eq_refl) as [_ ->]. by destruct (Hk3 eq_refl).
Qed.

(** C40: [write_block_file] is atomic. Whatever system call fails, the block's
    file is either as before or holds the whole block; it holds the whole
    block (or was there already, untouched) when the call returns, and is
    unchanged when it raises; no other file but the temporary one changes. *)
Theorem block_file_atomic path tmp views s r s' :
  path ≠ tmp → write_block_file path tmp views s = (r, s') →
  (∀ q, q ≠ path → q ≠ tmp → fs_files s' !! q = fs_files s !! q) ∧
  (∀ f, fs_files s !! path = Some f → s' = s ∧ r = Ok tt) ∧
  (fs_files s !! path = None →
     (r = Ok tt ∧ fs_files s' !! path = Some (concat views) ∧ fs_files s' !! tmp = None) ∨
     (r = Err OSError ∨ r = Err FileExistsError) ∧ fs_files s' !! path = None).
Proof.
  intros Hne. unfold write_block_file, exists_. autorewrite with monad. case_bool_decide as Hex.
  { intros [= <- <-]. destruct Hex as [f0 Hf]. split; [done|]. split; [done|]. congruence. }
  assert (Hnone : fs_files s !! path = None) by (by apply eq_None_not_Some).
  destruct (sys_call_run s) as (r0&k0&E0&Hr0&_). destruct Hr0 as [->| ->]; last first.
  { rewrite (M_bind_err _ _ _ _ _ E0). intros [= <- <-]. split; [done|]. split; [congruence|]. right. auto. }
  rewrite (M_bind_run _ _ _ _ _ E0). unfold open_excl, exists_. autorewrite with monad. set (s0 := mkFs _ k0).
  case_bool_decide as Htmp.
  { unfold mbind, M_bind, raise. intros [= <- <-]. split; [done|]. split; [congruence|]. right. auto. }
  destruct (sys_call_run s0) as (r1&k1&E1&Hr1&_). destruct Hr1 as [->| ->]; last first.
  { autorewrite with monad. rewrite (M_bind_err _ _ _ _ _ E1). intros [= <- <-]. split; [done|].
    split; [congruence|]. right. auto. }
  autorewrite with monad. rewrite (M_bind_run _ _ _ _ _ E1). unfold set_fs. autorewrite with monad. cbn [fs_files fs_kern].
  set (s1 := mkFs _ k1). destruct (write_body path tmp views s1 Hne (lookup_insert_eq _ _ _)) as (r2&s2&E2&Hcase&_).
  unfold catch. rewrite E2. destruct Hcase as [(->&H1&H2&H3)|[-> Ho]].
  - intros [= <- <-]. split; [|split; [congruence|by left]].
    intros q Hq1 Hq2. rewrite H3 by done. unfold s1. simpl. by rewrite lookup_insert_ne.
  - destruct (cleanup_run (A:=unit) tmp OSError s2) as (s3&E3&Ho3&_). rewrite E3. intros [= <- <-].
    assert (Hq : ∀ q, q ≠ tmp → fs_files s3 !! q = fs_files s !! q).
    { intros q Hq. rewrite Ho3, Ho by done. unfold s1. simpl. by rewrite lookup_insert_ne. }
    split; [intros q _; apply Hq|]. split; [congruence|]. right. split; [by left|]. by rewrite Hq.
Qed.

(** ** Reading *)

Lemma readv_loop_spec fuel p views pos s f :
  fs_files s !! p = Some f → (length (concat views) < fuel)%nat → (pos + length (concat views) = length f)%nat →
  ∃ r k, readv_loop fuel p views pos s = (r, mkFs (fs_files s) k) ∧
    (r = Ok (drop pos f) ∨ r = Err OSError) ∧
    (fs_kern s = [] → views = [] ∨ concat views ≠ [] → r = Ok (drop pos f)).
Proof.
  revert views pos s. induction fuel as [|fuel IH]; intros views pos s Hf Hl Hlen; [lia|].
  destruct views as [|v vs'].
  { exists (Ok []), (fs_kern s). simpl in *. rewrite drop_ge by lia. destruct s. split; [done|]. split; [by left|done]. }
  set (vs := v :: vs') in *. change (readv_loop (S fuel) p vs pos) with
    (got ← os_readv p pos (length (concat vs));
     if bool_decide (length got ≤ 0)%nat then raise OSError
     else rest ← readv_loop fuel p (_drain_iov vs (length got)) (pos + length got); mret (got ++ rest)).
  assert (H : ∃ r k, os_readv p pos (length (concat vs)) s = (r, mkFs (fs_files s) k) ∧
    ((∃ n, r = Ok (take n (drop pos f)) ∧ (n ≤ length (concat vs))%nat) ∨ r = Err OSError) ∧
    (fs_kern s = [] → r = Ok (drop pos f) ∧ k = [])).
  { unfold os_readv. rewrite Hf. change (default [] (Some f)) with f. unfold file_read. destruct s as [fs [|[n|] k]]; cbn [fs_kern fs_files].
    - eexists _, _. split; [done|]. rewrite take_ge by (rewrite length_drop; lia). split; [|done].
      left. exists (length (drop pos f)). rewrite take_ge by done. split; [done|]. rewrite length_drop. lia.
    - eexists _, _. split; [done|]. split; [|done]. left. exists (n `min` length (concat vs))%nat. split; [done|lia].
    - eexists _, _. split; [done|]. split; [by right|done]. }
  destruct H as (r&k&E&Hr&Hk). unfold mbind, M_bind. rewrite E. assert (Hvs : vs ≠ []) by done. clearbody vs. destruct Hr as [(n&->&Hn)| ->]; last first.
  { exists (Err OSError), k. split; [done|]. split; [by right|]. by intros [[=] _]%Hk. }
  assert (Hlt : length (take n (drop pos f)) = n) by (rewrite length_take, length_drop; lia).
  rewrite Hlt. case_bool_decide as Hz.
  { exists (Err OSError), k. split; [done|]. split; [by right|]. intros [[= Hd] _]%Hk [?|Hne]; [done|].
    destruct Hne. apply nil_length_inv. apply (f_equal length) in Hd. rewrite Hlt, length_drop in Hd. lia. }
  destruct (IH (_drain_iov vs n) (pos + n)%nat (mkFs (fs_files s) k) Hf) as (r2&k2&E2&Hr2&Hk2).
  { rewrite drain_concat, length_drop. lia. } { rewrite drain_concat, length_drop. lia. }
  rewrite E2. assert (Hcat : take n (drop pos f) ++ drop (pos + n) f = drop pos f).
  { rewrite <- drop_drop. by rewrite take_drop. }
  destruct Hr2 as [->| ->].
  - eexists _, _. split; [done|]. rewrite Hcat. split; [by left|done].
  - eexists _, _. split; [done|]. split; [by right|]. intros Hk0 _. destruct (Hk Hk0) as [[= Hd] ->].
    discriminate Hk2; [done|]. left. apply drain_all. apply (f_equal length) in Hd.
    rewrite Hlt, length_drop in Hd. lia.
Qed.

(** [read_block_file] serves a file only when it has the expected size,
    and then its exact bytes; when it raises after opening, the file is
    removed (so the next lookup misses) unless the removal itself fails; no
    other file changes. *)
Theorem block_file_read path views s :
  ∃ r s', read_block_file path views s = (r, s') ∧
    (∀ q, q ≠ path → fs_files s' !! q = fs_files s !! q) ∧
    (∀ data, r = Ok data → s' = mkFs (fs_files s) (fs_kern s') ∧ fs_files s !! path = Some data ∧ length data = total_len views) ∧
    (∀ e, r = Err e → e = OSError ∧ (fs_files s' !! path = fs_files s !! path ∨ fs_files s' !! path = None)) ∧
    (fs_kern s = [] → ∀ f, fs_files s !! path = Some f →
       (length f = total_len views → views = [] ∨ concat views ≠ [] → r = Ok f) ∧
       (length f ≠ total_len views → r = Err OSError ∧ fs_files s' !! path = None)).
Proof.
  unfold read_block_file, exists_. autorewrite with monad. destruct (fs_files s !! path) as [f|] eqn:Hf; last first.
  { rewrite bool_decide_eq_false_2 by (by intros [? ?]). cbn [negb]. exists (Err OSError), s.
    split; [done|]. split; [done|]. split; [done|]. split; [|done]. intros e [= <-]. split; [done|]. by left. }
  rewrite bool_decide_eq_true_2 by by eexists. cbn [negb].
  destruct (sys_call_run s) as (r0&k0&E0&Hr0&Hk0). destruct Hr0 as [->| ->]; last first.
  { rewrite (M_bind_err _ _ _ _ _ E0). exists (Err OSError), (mkFs (fs_files s) k0). split; [done|].
    split; [done|]. split; [done|]. split; [intros e [= <-]; split; [done|]; by left|]. intros Hk f2 [= <-]. by destruct (Hk0 Hk). }
  rewrite (M_bind_run _ _ _ _ _ E0). unfold catch. autorewrite with monad. cbn [fs_files]. rewrite Hf.
  change (default [] (Some f)) with f. set (s0 := mkFs (fs_files s) k0).
  assert (Hclean : ∃ s', cleanup path OSError s0 = (Err (A:=list byte) OSError, s') ∧
    (∀ q, q ≠ path → fs_files s' !! q = fs_files s !! q) ∧
    (fs_files s' !! path = Some f ∨ fs_files s' !! path = None) ∧
    (fs_kern s0 = [] → fs_files s' !! path = None)).
  { destruct (cleanup_run (A:=list byte) path OSError s0) as (s'&E&Ho&H1&H2). exists s'.
    split; [exact E|]. split; [exact Ho|]. unfold s0 in H1. simpl in H1. rewrite Hf in H1. done. }
  case_bool_decide as Hsz; cbn [negb]; last first.
  { destruct Hclean as (s'&E&Ho&H1&H2). exists (Err OSError), s'. split; [exact E|]. split; [done|]. split; [done|].
    split; [intros e [= <-]; done|]. intros Hk f2 [= <-]. split; [done|]. intros _. split; [done|]. apply H2.
    by destruct (Hk0 Hk). }
  destruct (readv_loop_spec (S (total_len views)) path views 0 s0 f Hf) as (r&k&E&Hr&Hk);
    [unfold total_len; lia|unfold total_len in Hsz; lia|].
  rewrite E. rewrite drop_0 in *. destruct Hr as [->| ->].
  - exists (Ok f), (mkFs (fs_files s) k). split; [done|]. split; [done|]. split.
    { intros data [= <-]. done. }
    split; [done|]. intros _ f2 [= <-]. split; [done|congruence].
  - destruct (cleanup_run (A:=list byte) path OSError (mkFs (fs_files s0) k)) as (s'&Ec&Ho&H1&H2).
    exists (Err OSError), s'. split; [exact Ec|]. split; [exact Ho|]. split; [done|]. split.
    { intros e [= <-]. split; [done|]. simpl in H1. by rewrite Hf in H1. }
    intros Hk1 f2 [= <-]. split; [|congruence]. intros _ Hv. destruct (Hk0 Hk1) as [_ ->]. by apply Hk.
Qed.

(** ** Rank 0's directory *)

Lemma newest_of_spec best l :
  newest_of best l ∈ best :: l ∧ ∀ e, e ∈ best :: l → e.2 ≤ (newest_of best l).2.
Proof.
  revert best. induction l as [|x l IH]; intros best; simpl.
  { split; [by left|]. intros e [->|[]%not_elem_of_nil]%elem_of_cons. done. }
  destruct (IH (if best.2 <? x.2 then x else best)) as [Hin Hle]. split.
  - apply elem_of_cons in Hin as [->|Hin]; [|by do 2 right]. destruct (best.2 <? x.2); [by right; left|by left].
  - intros e He. destruct (Z.ltb_spec best.2 x.2) as [Hlt|Hge].
    + apply elem_of_cons in He as [->|He]; [|by apply Hle]. specialize (Hle x ltac:(by left)). lia.
    + apply elem_of_cons in He as [->|[->|He]%elem_of_cons]; [apply Hle; by left| |apply Hle; by right].
      specialize (Hle best ltac:(by left)). lia.
Qed.

(** * Instances *)

Definition fs0 (k : list sys) : FileSys := mkFs (<["m_ab_r0/k1.bin" := z2b <$> [9; 9]]> ∅) k.

Lemma block_file_atomic_witness :
  let run := write_block_file "k2.bin" "k2.bin.7.1.tmp" views0 (fs0 [Xfer 0; Xfer 0; Xfer 2; Xfer 1; Fail]) in
  run.1 = Err OSError ∧
  (∀ q, q ≠ "k2.bin" → q ≠ "k2.bin.7.1.tmp" → fs_files run.2 !! q = fs_files (fs0 []) !! q) ∧
  (∀ f, fs_files (fs0 []) !! "k2.bin" = Some f → run.2 = fs0 [Xfer 0; Xfer 0; Xfer 2; Xfer 1; Fail] ∧ run.1 = Ok tt) ∧
  (fs_files (fs0 []) !! "k2.bin" = None →
     (run.1 = Ok tt ∧ fs_files run.2 !! "k2.bin" = Some (concat views0) ∧ fs_files run.2 !! "k2.bin.7.1.tmp" = None) ∨
     (run.1 = Err OSError ∨ run.1 = Err FileExistsError) ∧ fs_files run.2 !! "k2.bin" = None).
Proof.
  intros run. split; [vm_compute; reflexivity|].
  apply (block_file_atomic "k2.bin" "k2.bin.7.1.tmp" views0 (fs0 [Xfer 0; Xfer 0; Xfer 2; Xfer 1; Fail]) run.1 run.2);
    [done|apply surjective_pairing].
Defined.

Example discover_newest :
  discover_rank0_base_path "/d" "org/m" (Some [("org_m_aa_r0", true, 5); ("org_m_bb_r1", true, 9);
    ("org_m_cc_r0", true, 7); ("org_m_dd_r0", false, 9)]) = Some "/d/org_m_cc".
Proof. vm_compute. reflexivity. Qed.
