(* ===== verification/Connector.v ===== *)
(** The connector around the slab store: [SlabWorker], the worker's
    [get_finished] and metadata, their aggregation over the ranks and
    [_FailureAwareScheduler] (multinode.py).  The base scheduler's completion
    path is not in the repository's runtime: it is a parameter. *)
From S2P Require Import Prelude PyDict Bytes File SlabHeader SlabIO SlabManager Bounce.
From stdpp Require Import base list list_numbers gmap sets.
From Stdlib Require Import ZArith Lia.
#[local] Open Scope Z_scope.

Section connector.
Context (get_offload_group_idx : OffloadKey → Z).
Local Abbreviation gi := get_offload_group_idx.

(** * Worker side *)

(** [SlabWorker.get_finished()]: pump, then the finished stores and loads. *)
Definition slab_get_finished (e : Engines) : M BC (list TransferResult) :=
  pump gi e;;
  st ← take_results true;
  ld ← take_results false;
  mret (st ++ ld).

(** [MultiNodeWorkerMetadata]: the completion counts per job, what was
    recorded in the transfer statistics (load?, bytes), and the failed jobs. *)
Record WorkerMeta := mkMeta {
  completed_jobs : gmap Z nat; transfer_stats : list (bool * Z); failed_jobs : gset Z }.
Definition empty_meta : WorkerMeta := mkMeta ∅ [] ∅.

(** [mark_completed(job_id)] *)
Definition mark_completed (jid : Z) (w : WorkerMeta) : WorkerMeta :=
  mkMeta (<[jid := S (default 0%nat (completed_jobs w !! jid))]> (completed_jobs w)) (transfer_stats w) (failed_jobs w).

(** [MultiNodeWorkerMetadata.aggregate(other)] *)
Definition aggregate (a b : WorkerMeta) : WorkerMeta :=
  mkMeta (union_with (λ x y, Some (x + y)%nat) (completed_jobs a) (completed_jobs b))
    (transfer_stats a ++ transfer_stats b) (failed_jobs a ∪ failed_jobs b).

(** The worker's connector: its controller, the loads by job, the metadata
    being built and the GPU blocks whose load failed. *)
Record CW := mkCW {
  cw_bc : BC; _load_jobs : gmap Z Z; cw_meta : WorkerMeta; _invalid_block_ids : gset Z }.

(** One pass of [get_finished]'s loop: the request whose load finished, if any. *)
Definition finish_one (r : TransferResult) (w : CW) : CW * option Z :=
  let jid := r_job r in
  let meta := cw_meta w in
  let meta := match r_success r, r_size r with
              | true, Some n => mkMeta (completed_jobs meta)
                  (transfer_stats meta ++ [(bool_decide (is_Some (_load_jobs w !! jid)), n)]) (failed_jobs meta)
              | true, None => meta
              | false, _ => mkMeta (completed_jobs meta) (transfer_stats meta) ({[jid]} ∪ failed_jobs meta)
              end in
  (mkCW (cw_bc w) (delete jid (_load_jobs w)) (mark_completed jid meta) (_invalid_block_ids w),
   _load_jobs w !! jid).

Fixpoint finish_all (rs : list TransferResult) (w : CW) (recving : gset Z) : CW * gset Z :=
  match rs with
  | [] => (w, recving)
  | r :: rs =>
    let '(w, req) := finish_one r w in
    finish_all rs w (match req with Some q => {[q]} ∪ recving | None => recving end)
  end.

(** [MultiNodeSlabConnectorWorker.get_finished(...)]: the requests received. *)
Definition get_finished (e : Engines) : M CW (gset Z) := λ w,
  match slab_get_finished e (cw_bc w) with
  | (Err x, b) => (Err x, mkCW b (_load_jobs w) (cw_meta w) (_invalid_block_ids w))
  | (Ok rs, b) =>
    let '(w, recving) := finish_all rs (mkCW b (_load_jobs w) (cw_meta w) (_invalid_block_ids w)) ∅ in
    (Ok recving, mkCW (set_failed_gpu ∅ (cw_bc w)) (_load_jobs w) (cw_meta w)
       (_invalid_block_ids w ∪ failed_gpu_blocks (cw_bc w)))
  end.

(** [take_invalid_block_ids()] *)
Definition take_invalid_block_ids : M CW (gset Z) := λ w,
  (Ok (_invalid_block_ids w), mkCW (cw_bc w) (_load_jobs w) (cw_meta w) ∅).

(** [build_connector_worker_meta()] *)
Definition build_connector_worker_meta : M CW (option WorkerMeta) := λ w,
  if bool_decide (completed_jobs (cw_meta w) = ∅) then (Ok None, w)
  else (Ok (Some (cw_meta w)), mkCW (cw_bc w) (_load_jobs w) empty_meta (_invalid_block_ids w)).

(** * Scheduler side *)

(** What the scheduler keeps of a transfer job. *)
Record JobStatus := mkStatus { is_store : bool; keys : list OffloadKey }.
Record Sched := mkSched { _jobs : gmap Z JobStatus; manager : Mgr }.

Definition on_manager (f : M Mgr unit) : M Sched unit := λ s,
  match f (manager s) with (r, m) => (r, mkSched (_jobs s) m) end.

(** One pass of the loop over the failed jobs. *)
Definition mark_failed_job (jid : Z) : M Sched unit :=
  s ← get;
  match _jobs s !! jid with
  | None => mret tt
  | Some st => if is_store st then on_manager (mark_store_failed (keys st))
               else on_manager (mark_load_failed gi (keys st))
  end.

(** [_FailureAwareScheduler.update_connector_output(output)]; [base] is the
    base class's method, [order] the order in which the failed set is walked. *)
Definition update_connector_output (base : option WorkerMeta → M Sched unit) (order : gset Z → list Z)
    (meta : option WorkerMeta) : M Sched unit :=
  for_each (order (default ∅ (failed_jobs <$> meta))) mark_failed_job;;
  base meta.
End connector.
