(* ===== verification/ConnectorProps.v ===== *)
(** Failures travel: a failed transfer of any rank reaches the manager before
    the completion of its job is handled. *)
From S2P Require Import Prelude PyDict Bytes File SlabHeader SlabIO SlabIOProps SlabManager SlabInv SlabOps SlabSession SlabManagerProps Bounce BounceInv BounceOps BounceRun BounceSystem BounceProps Connector.
From stdpp Require Import base list list_numbers gmap sets.
From Stdlib Require Import ZArith Lia.
#[local] Open Scope Z_scope.

Section props.
Context (gi : OffloadKey → Z).
Local Abbreviation grp := (grp gi).

(** ** Worker *)

Lemma finish_all_spec rs w recv w' recv' :
  finish_all rs w recv = (w', recv') →
  cw_bc w' = cw_bc w ∧ _invalid_block_ids w' = _invalid_block_ids w ∧
  (∀ j, j ∈ failed_jobs (cw_meta w') ↔ j ∈ failed_jobs (cw_meta w) ∨ ∃ r, r ∈ rs ∧ r_job r = j ∧ r_success r = false) ∧
  (∀ j, default 0%nat (completed_jobs (cw_meta w') !! j) =
     (default 0%nat (completed_jobs (cw_meta w) !! j) + length (filter (λ r, r_job r = j) rs))%nat) ∧
  (∀ j, _load_jobs w' !! j = if decide (j ∈ r_job <$> rs) then None else _load_jobs w !! j) ∧
  (∀ q, q ∈ recv' ↔ q ∈ recv ∨ ∃ j, j ∈ r_job <$> rs ∧ _load_jobs w !! j = Some q).
Proof.
  revert w recv. induction rs as [|r rs IH]; intros w recv; cbn [finish_all].
  { intros [= <- <-]. split_and!; try done.
    - intros j. split; [by left|]. intros [?|(r&Hr&_)]; [done|]. by apply not_elem_of_nil in Hr.
    - intros q. split; [by left|]. intros [?|(j&Hj&_)]; [done|]. by apply not_elem_of_nil in Hj. }
  destruct (finish_one r w) as [w1 req] eqn:E1. intros H. destruct (IH _ _ H) as (B&I&F&C&L&R). clear IH H.
  unfold finish_one in E1. injection E1 as <- <-. cbn [cw_bc cw_meta _load_jobs _invalid_block_ids] in *.
  split; [done|]. split; [done|]. split; [|split; [|split]].
  - intros j. rewrite F. setoid_rewrite elem_of_cons.
    assert (Hf : j ∈ failed_jobs (mark_completed (r_job r) match r_success r, r_size r with
      | true, Some n => mkMeta (completed_jobs (cw_meta w)) (transfer_stats (cw_meta w) ++ [(bool_decide (is_Some (_load_jobs w !! r_job r)), n)]) (failed_jobs (cw_meta w))
      | true, None => cw_meta w
      | false, _ => mkMeta (completed_jobs (cw_meta w)) (transfer_stats (cw_meta w)) ({[r_job r]} ∪ failed_jobs (cw_meta w))
      end) ↔ j ∈ failed_jobs (cw_meta w) ∨ r_job r = j ∧ r_success r = false).
    { destruct (r_success r), (r_size r); simpl; set_solver. }
    rewrite Hf. naive_solver.
  - intros j. rewrite C. rewrite filter_cons. destruct (r_success r), (r_size r); simpl;
      (destruct (decide (r_job r = j)) as [->|Hne]; [rewrite lookup_insert_eq|rewrite lookup_insert_ne by done]; simpl; lia).
  - intros j. rewrite L. rewrite fmap_cons. destruct (decide (j = r_job r)) as [->|Hne].
    + rewrite lookup_delete_eq, (decide_True (P:=r_job r ∈ r_job r :: _)) by by left. by destruct (decide _).
    + rewrite lookup_delete_ne by done. destruct (decide (j ∈ r_job <$> rs)) as [Hj|Hj].
      * by rewrite decide_True by by right.
      * rewrite decide_False; [done|]. by intros [?|?]%elem_of_cons.
  - intros q. rewrite R, fmap_cons. setoid_rewrite elem_of_cons. split.
    + intros [Hq|(j&Hj&Hl)].
      * destruct (_load_jobs w !! r_job r) as [q0|] eqn:E; [|by left].
        apply elem_of_union in Hq as [->%elem_of_singleton|Hq]; [right|by left]. exists (r_job r). by split; [left|].
      * right. exists j. split; [by right|]. by apply lookup_delete_Some in Hl as [_ ?].
    + intros [Hq|(j&[->|Hj]&Hl)].
      * left. destruct (_load_jobs w !! r_job r); set_solver.
      * left. rewrite Hl. set_solver.
      * destruct (decide (j = r_job r)) as [->|Hne]; [left; rewrite Hl; set_solver|].
        right. exists j. split; [done|]. by rewrite lookup_delete_ne.
Qed.

(** [get_finished] of a rank never raises; it reports every job the
    controller finished once: each result counts as one completion of its
    job, exactly the failed ones are added to the failed jobs of the
    metadata, the requests returned are those whose load is among them (and
    they are forgotten), and the GPU blocks the controller gave up become
    invalid blocks. *)
Theorem connector_worker_reports n_bounce e w :
  BounceInv.Inv gi n_bounce (cw_bc w) → engines_ok e →
  ∃ b rs recv w', slab_get_finished gi e (cw_bc w) = (Ok rs, b) ∧ get_finished gi e w = (Ok recv, w') ∧
    results_store b = [] ∧ results_load b = [] ∧ cw_bc w' = set_failed_gpu ∅ b ∧
    (∀ j, j ∈ failed_jobs (cw_meta w') ↔
       j ∈ failed_jobs (cw_meta w) ∨ ∃ r, r ∈ rs ∧ r_job r = j ∧ r_success r = false) ∧
    (∀ j, default 0%nat (completed_jobs (cw_meta w') !! j) =
       (default 0%nat (completed_jobs (cw_meta w) !! j) + length (filter (λ r, r_job r = j) rs))%nat) ∧
    (∀ q, q ∈ recv ↔ ∃ j, j ∈ r_job <$> rs ∧ _load_jobs w !! j = Some q) ∧
    (∀ j, j ∈ r_job <$> rs → _load_jobs w' !! j = None) ∧
    _invalid_block_ids w' = _invalid_block_ids w ∪ failed_gpu_blocks b.
Proof.
  intros HI He. destruct (pump_spec gi n_bounce e (cw_bc w) HI He) as (b1&E&_).
  set (b := set_results false [] (set_results true [] b1)).
  set (rs := results_store b1 ++ results_load b1).
  assert (Eb : slab_get_finished gi e (cw_bc w) = (Ok rs, b)).
  { unfold slab_get_finished. by rewrite (M_bind_run _ _ _ _ _ E). }
  destruct (finish_all rs (mkCW b (_load_jobs w) (cw_meta w) (_invalid_block_ids w)) ∅) as [w1 recv] eqn:Ef.
  destruct (finish_all_spec _ _ _ _ _ Ef) as (B&I&F&C&L&R). cbn [cw_bc cw_meta _load_jobs _invalid_block_ids] in *.
  eexists b, rs, recv, _. split; [done|]. split; [unfold get_finished; by rewrite Eb, Ef|].
  cbn [cw_bc cw_meta _load_jobs _invalid_block_ids]. rewrite B, I.
  split_and!; try done.
  - intros q. rewrite R. set_solver.
  - intros j Hj. rewrite L. by rewrite decide_True.
Qed.

(** ** Scheduler *)

Lemma mark_load_failed_keeps_failed ks m : failed_store (mark_load_failed gi ks m).2 = failed_store m.
Proof.
  unfold mark_load_failed. autorewrite with monad. destruct (index m); [done|].
  apply (for_each_inv (λ m', failed_store m' = failed_store m)); [|done]. intros k m' _ <-.
  unfold mark_load_failed_one, idx_of, free_of, mbind, M_bind, count_load_failure, set_idx, set_free_of, modify, gets.
  repeat (case_match; simplify_eq; simpl; try done).
Qed.

Lemma failed_jobs_fold metas jid :
  jid ∈ failed_jobs (foldr aggregate empty_meta metas) ↔ ∃ m, m ∈ metas ∧ jid ∈ failed_jobs m.
Proof.
  induction metas as [|m metas IH]; simpl.
  - split; [set_solver|]. intros (m&Hm&_). by apply not_elem_of_nil in Hm.
  - rewrite elem_of_union, IH. setoid_rewrite elem_of_cons. naive_solver.
Qed.

(** What the marks leave: the failed stores are marked, the failed loads
    are no longer indexed. *)
Definition marked (m : Mgr) (st : JobStatus) : Prop :=
  if is_store st then ∀ k, k ∈ keys st → k ∈ failed_store m else ∀ k, k ∈ keys st → ¬ indexed gi m k.

Definition sched_ok (s : Sched) : Prop :=
  counts (manager s) ≠ [] ∧
  ∀ jid st, _jobs s !! jid = Some st → Forall (λ k, (grp k < length (counts (manager s)))%nat) (keys st).

Lemma mark_failed_job_ok lost s jid :
  SlabInv.Inv gi lost (manager s) → sched_ok s →
  ∃ s' lost', mark_failed_job gi jid s = (Ok tt, s') ∧ _jobs s' = _jobs s ∧
    SlabInv.Inv gi lost' (manager s') ∧ sched_ok s' ∧ counts (manager s') = counts (manager s) ∧
    (∀ st, _jobs s !! jid = Some st → marked (manager s') st) ∧
    (∀ st, marked (manager s) st → marked (manager s') st).
Proof.
  intros HI [Hc Hk]. unfold mark_failed_job. autorewrite with monad.
  destruct (_jobs s !! jid) as [st|] eqn:Hj; [|exists s, lost; by split_and!].
  destruct (is_store st) eqn:Hst; unfold on_manager.
  - destruct (mark_store_failed_ok gi lost (manager s) (keys st) HI) as (m'&E&HI'&HK&Hf). rewrite E.
    assert (Hcnt : counts m' = counts (manager s)) by apply HK.
    assert (Hidx : index m' = index (manager s)) by (injection E as <-; done).
    exists (mkSched (_jobs s) m'), lost. split_and!; try done.
    + split; simpl; by rewrite Hcnt.
    + intros st2 [= <-]. unfold marked. rewrite Hst. intros k Hin. simpl. rewrite Hf.
      apply elem_of_union_r, elem_of_list_to_set, Hin.
    + intros st2. unfold marked, indexed. simpl. rewrite Hidx, Hf. destruct (is_store st2); set_solver.
  - destruct (mark_load_failed_ok gi lost (manager s) (keys st) HI Hc (Hk _ _ Hj)) as (m'&lost'&E&HI'&HC&Hn&Hi&_).
    pose proof (mark_load_failed_keeps_failed (keys st) (manager s)) as Hf. rewrite E in Hf. simpl in Hf. rewrite E.
    assert (Hcnt : counts m' = counts (manager s)) by apply HC.
    exists (mkSched (_jobs s) m'), lost'. split_and!; try done.
    + split; simpl; by rewrite Hcnt.
    + intros st2 [= <-]. unfold marked. rewrite Hst. exact Hn.
    + intros st2. unfold marked. simpl. rewrite Hf. destruct (is_store st2); [done|]. intros H k Hin Hx. by apply (H k Hin), Hi.
Qed.

Lemma mark_failed_jobs_ok l lost s :
  SlabInv.Inv gi lost (manager s) → sched_ok s →
  ∃ s' lost', for_each l (mark_failed_job gi) s = (Ok tt, s') ∧ _jobs s' = _jobs s ∧
    SlabInv.Inv gi lost' (manager s') ∧ (∀ jid st, jid ∈ l → _jobs s !! jid = Some st → marked (manager s') st) ∧
    (∀ st, marked (manager s) st → marked (manager s') st).
Proof.
  revert lost s. induction l as [|jid l IH]; intros lost s HI Hok.
  { exists s, lost. split_and!; try done. intros jid st Hin. by apply not_elem_of_nil in Hin. }
  destruct (mark_failed_job_ok lost s jid HI Hok) as (s1&lost1&E&Hj1&HI1&Hok1&_&Hm1&Hk1).
  destruct (IH lost1 s1 HI1 Hok1) as (s2&lost2&E2&Hj2&HI2&Hm2&Hk2). exists s2, lost2. simpl.
  rewrite (M_bind_run _ _ _ _ _ E). split_and!; try done; [congruence| |by auto].
  intros jid2 st [->|Hin]%elem_of_cons Hst; [by apply Hk2, Hm1|]. eapply Hm2; [done|congruence].
Qed.

(** A store marked as failed is dropped when it completes. *)
Lemma dropped_store ks lost m :
  SlabInv.Inv gi lost m → (∀ k, k ∈ ks → k ∈ failed_store m ∨ inflight_store m !! k = None) →
  ∃ m', for_each ks (complete_store_one gi true) m = (Ok tt, m') ∧ SlabInv.Inv gi lost m' ∧
    (∀ k, indexed gi m' k → indexed gi m k) ∧ (∀ k, k ∈ ks → inflight_store m' !! k = None) ∧
    (∀ k, inflight_store m !! k = None → inflight_store m' !! k = None).
Proof.
  revert m. induction ks as [|k ks IH]; intros m HI Hf.
  { exists m. split_and!; try done. intros k Hin. by apply not_elem_of_nil in Hin. }
  destruct (complete_store_one_ok gi lost m true k HI) as (m1&E&HI1&_&Hone). unfold stored_one in Hone.
  assert (H1 : (∀ k2, indexed gi m1 k2 → indexed gi m k2) ∧ inflight_store m1 !! k = None ∧
    (∀ k2, inflight_store m !! k2 = None → inflight_store m1 !! k2 = None) ∧
    (∀ k2, k2 ≠ k → k2 ∈ failed_store m → k2 ∈ failed_store m1)).
  { destruct (inflight_store m !! k) as [s|] eqn:Es; [|by subst m1].
    destruct Hone as (Hi&Hfs&Hrest). destruct (Hf k ltac:(left)) as [Hk|?]; [|congruence].
    rewrite (bool_decide_eq_true_2 _ Hk) in Hrest. simpl in Hrest. destruct Hrest as (Hidx&_).
    unfold indexed. rewrite Hidx, Hi, Hfs. split_and!; [done|by rewrite lookup_delete_eq| |set_solver].
    intros k2 Hk2. apply lookup_delete_None. by right. }
  destruct H1 as (A1&A2&A3&A4). destruct (IH m1 HI1) as (m2&E2&HI2&B1&B2&B3).
  { intros k2 Hin. destruct (decide (k2 = k)) as [->|Hne]; [by right|].
    destruct (Hf k2 ltac:(by right)) as [?|?]; [left; by apply A4|right; by apply A3]. }
  exists m2. simpl. rewrite (M_bind_run _ _ _ _ _ E). split_and!; try done; [by auto| |by auto].
  intros k2 [->|Hin]%elem_of_cons; [by apply B3|by apply B2].
Qed.

(** A failure on any rank reaches the manager before the completion is
    handled: when [update_connector_output] hands the merged metadata to the
    base class, every job some rank reported as failed is marked (the keys
    of a failed load are no longer indexed, those of a failed store are
    marked), and completing such a store indexes none of its keys. *)
Theorem connector_failure_marked base order metas lost s :
  (∀ X, order X ≡ₚ elements X) → SlabInv.Inv gi lost (manager s) → sched_ok s →
  let merged := foldr aggregate empty_meta metas in
  ∃ s1 lost1, update_connector_output gi base order (Some merged) s = base (Some merged) s1 ∧
    _jobs s1 = _jobs s ∧ SlabInv.Inv gi lost1 (manager s1) ∧
    ∀ m jid st, m ∈ metas → jid ∈ failed_jobs m → _jobs s !! jid = Some st →
      marked (manager s1) st ∧
      (is_store st = true → ∃ m', complete_store gi (keys st) true (manager s1) = (Ok tt, m') ∧
         (∀ k, indexed gi m' k → indexed gi (manager s1) k)).
Proof.
  intros Hord HI Hok merged.
  destruct (mark_failed_jobs_ok (order (failed_jobs merged)) lost s HI Hok) as (s1&lost1&E&Hj&HI1&Hm&_).
  exists s1, lost1. split; [|split; [done|split; [done|]]].
  { unfold update_connector_output. simpl. by rewrite (M_bind_run _ _ _ _ _ E). }
  intros m jid st Hin Hf Hst.
  assert (Hmk : marked (manager s1) st).
  { eapply Hm; [|exact Hst]. rewrite Hord. apply elem_of_elements, failed_jobs_fold. by exists m. }
  split; [done|]. intros Hs. unfold marked in Hmk. rewrite Hs in Hmk.
  destruct (dropped_store (keys st) lost1 (manager s1) HI1) as (m'&E'&_&Hi&_); [intros k Hk; left; by apply Hmk|].
  unfold complete_store. autorewrite with monad.
  destruct (index (manager s1)); [by exists (manager s1)|]. by exists m'.
Qed.
End props.

(** * Instances *)

Definition cw0 : CW := mkCW (y_bc yb) {[4 := 900]} empty_meta ∅.

(** The second chunk of job 4 fails: the job is reported as failed. *)
Lemma connector_worker_reports_witness :
  ∃ b rs recv w', slab_get_finished gi0 eng0 (cw_bc cw0) = (Ok rs, b) ∧ get_finished gi0 eng0 cw0 = (Ok recv, w') ∧
    results_store b = [] ∧ results_load b = [] ∧ cw_bc w' = set_failed_gpu ∅ b ∧
    (∀ j, j ∈ failed_jobs (cw_meta w') ↔
       j ∈ failed_jobs (cw_meta cw0) ∨ ∃ r, r ∈ rs ∧ r_job r = j ∧ r_success r = false) ∧
    (∀ j, default 0%nat (completed_jobs (cw_meta w') !! j) =
       (default 0%nat (completed_jobs (cw_meta cw0) !! j) + length (filter (λ r, r_job r = j) rs))%nat) ∧
    (∀ q, q ∈ recv ↔ ∃ j, j ∈ r_job <$> rs ∧ _load_jobs cw0 !! j = Some q) ∧
    (∀ j, j ∈ r_job <$> rs → _load_jobs w' !! j = None) ∧
    _invalid_block_ids w' = _invalid_block_ids cw0 ∪ failed_gpu_blocks b.
Proof.
  apply (connector_worker_reports gi0 n0 eng0 cw0); [|apply eng0_ok].
  apply (BounceSystem.si_inv _ _ layout0), sys_reachable_inv, yb_reachable.
Defined.

(** Job 1 stores two keys, job 2 loads one; one rank saw job 1 fail, another job 2. *)
Definition sched0 : Sched :=
  mkSched {[1 := mkStatus true [key0 3 1; key0 4 1]; 2 := mkStatus false [key0 9 1]]} (mg state0.1).
Definition metas0 : list WorkerMeta := [mkMeta {[1 := 1%nat]} [] {[1]}; mkMeta {[2 := 1%nat]} [] {[2]}].

Lemma connector_failure_marked_witness :
  let merged := foldr aggregate empty_meta metas0 in
  ∃ lost s1 lost1, SlabInv.Inv gi0 lost (mg state0.1) ∧
    update_connector_output gi0 (λ _, mret tt) elements (Some merged) sched0 = (Ok tt, s1) ∧
    _jobs s1 = _jobs sched0 ∧ SlabInv.Inv gi0 lost1 (manager s1) ∧
    ∀ m jid st, m ∈ metas0 → jid ∈ failed_jobs m → _jobs sched0 !! jid = Some st →
      marked gi0 (manager s1) st ∧
      (is_store st = true → ∃ m', complete_store gi0 (keys st) true (manager s1) = (Ok tt, m') ∧
         (∀ k, indexed gi0 m' k → indexed gi0 (manager s1) k)).
Proof.
  intros merged. destruct (reachable_SInv gi0 state0 state0_reachable) as [lost HS].
  pose proof (SlabSession.si_inv _ _ _ HS) as HI.
  destruct (connector_failure_marked gi0 (λ _, mret tt) elements metas0 lost sched0) as (s1&lost1&H).
  - done.
  - exact HI.
  - split; [by vm_compute|]. intros jid st. unfold sched0. cbn [_jobs].
    intros [[<- <-]|[_ [<- <-]%lookup_singleton_Some]]%lookup_insert_Some; repeat constructor; vm_compute; lia.
  - exists lost, s1, lost1. split; [exact HI|exact H].
Defined.
