(* ===== verification/NvmeTransport.v ===== *)
(** The weight transport of the NVMe loader: concurrent exact reads into
    reusable staging slots, digest checks, asynchronous copies to their
    destinations, and the fence that keeps a slot from being refilled before
    its copy ran (src/runtime/nvme_loader/spark_nvme/transport.py).  Reader
    threads and the copy engine are the steps of a relation; SHA-256 is a
    parameter. *)
From S2P Require Import Prelude Bytes File.
From stdpp Require Import base list list_numbers gmap sets strings.
From Stdlib Require Import ZArith Lia.
#[local] Open Scope Z_scope.

Definition ALIGN : Z := 4096.

(** [align(n)] *)
Definition align (n : Z) : Z := (n + ALIGN - 1) / ALIGN * ALIGN.

(** A destination tensor: a view of a storage. *)
Record Dest := mkDest { d_store : nat; d_start : nat; d_numel : Z; d_uint8 : bool; d_device : Z }.

(** [Extent] *)
Record Extent := mkExtent { e_offset : Z; e_length : Z; e_digest : string; e_dest : Dest }.

(** * Reading *)

(** A buffer being filled, and what the kernel will do next. *)
Record Filling := mkFilling { f_view : list byte; f_kern : list sys }.

(** [os.preadv(fd, [view[pos:pos + want]], off)] *)
Definition os_preadv (f : file) (off pos want : nat) : M Filling nat := λ s,
  let avail := file_read f off want in
  match xfer (f_kern s) (length avail) with
  | (None, k) => (Err OSError, mkFilling (f_view s) k)
  | (Some m, k) => (Ok m, mkFilling (file_write (f_view s) pos (take m avail)) k)
  end.

(** [read_exact(fd, view[:len], offset)] *)
Fixpoint read_loop (fuel : nat) (f : file) (len offset done : nat) : M Filling unit :=
  if bool_decide (done < len)%nat then
    match fuel with
    | O => raise OutOfFuel
    | S fuel =>
      n ← os_preadv f (offset + done) done (len - done);
      if bool_decide (n = 0)%nat then raise EOFError else read_loop fuel f len offset (done + n)
    end
  else mret tt.

Definition read_exact (f : file) (len : nat) (offset : Z) : M Filling unit :=
  if offset <? 0 then raise OSError else read_loop len f len (Z.to_nat offset) 0.

Section transport.
(** [hashlib.sha256(...).hexdigest()] *)
Context (sha256 : list byte → string).

(** [read(slot, extent)] of [stream], after the fence. *)
Definition read_extent (f : file) (chunk_bytes : Z) (e : Extent) : M Filling unit :=
  if negb (e_offset e mod ALIGN =? 0) || negb ((0 <? e_length e) && (e_length e <=? chunk_bytes))
  then raise ValueError else
  v ← gets f_view;
  read_exact f (Nat.min (length v) (Z.to_nat (align (e_length e)))) (e_offset e);;
  v ← gets f_view;
  if negb (bool_decide (sha256 (take (Z.to_nat (e_length e)) v) = e_digest e)) then raise ValueError else mret tt.

(** * The pipeline *)

(** [tail_] holds the extents not submitted yet; [events] the copies enqueued
    and not run; [finished_reads] what the reader threads returned and the
    main thread has not taken. [handled] and [lost] are bookkeeping: the
    extents whose copy was enqueued, and those whose read or checks failed. *)
Record Stream := mkStream {
  slots : list (list byte);
  events : gmap nat Dest;
  pending : gmap nat Extent;
  finished_reads : list (nat * Extent * res unit);
  tail_ : list Extent;
  memory : list (list byte);
  total_ : Z;
  failure : option exn;
  handled : list Extent;
  lost : list Extent }.

(** [destination.copy_(tensor[:length])] *)
Definition copy_into (d : Dest) (data : list byte) (mem : list (list byte)) : list (list byte) :=
  alter (λ m, file_write m (d_start d) data) (d_store d) mem.

(** [pool.submit(read, slot, next_extent())] *)
Definition submit_next (slot : nat) (s : Stream) : Stream :=
  match tail_ s with
  | [] => s
  | e :: tl => mkStream (slots s) (events s) (<[slot := e]> (pending s)) (finished_reads s) tl (memory s)
                 (total_ s) (failure s) (handled s) (lost s)
  end.

(** The state before the first wait: [depth] slots, as many reads submitted. *)
Definition stream_start (buffers : list (list byte)) (extents : list Extent) (mem : list (list byte)) : Stream :=
  fold_left (λ s slot, submit_next slot s) (seq 0 (length buffers))
    (mkStream buffers ∅ ∅ [] extents mem 0 None [] []).

(** The argument checks of [stream]. *)
Definition stream_args_ok (chunk_bytes depth : Z) : bool :=
  negb ((chunk_bytes <=? 0) || negb (chunk_bytes mod ALIGN =? 0) || negb ((1 <=? depth) && (depth <=? 128))).

Definition fail_with (x : exn) (e : Extent) (s : Stream) : Stream :=
  mkStream (slots s) (events s) (pending s) (finished_reads s) (tail_ s) (memory s) (total_ s) (Some x)
    (handled s) (lost s ++ [e]).

(** The main thread's handling of one finished read. *)
Definition handle (cuda : bool) (device : Z) (slot : nat) (e : Extent) (r : res unit) (s : Stream) : Stream :=
  match r with
  | Err x => fail_with x e s
  | Ok _ =>
    let d := e_dest e in
    if negb (d_numel d =? e_length e) || negb (d_uint8 d) then fail_with ValueError e s
    else if negb (d_device d =? device) then fail_with ValueError e s
    else
      let data := take (Z.to_nat (e_length e)) (default [] (slots s !! slot)) in
      submit_next slot
        (mkStream (slots s) (if cuda then <[slot := d]> (events s) else events s) (pending s) (finished_reads s)
           (tail_ s) (if cuda then memory s else copy_into d data (memory s)) (total_ s + e_length e) (failure s)
           (handled s ++ [e]) (lost s))
  end.

Inductive stream_step (f : file) (chunk_bytes : Z) (cuda : bool) (device : Z) : Stream → Stream → Prop :=
  (** a reader thread runs one read; the fence waits for the slot's copy *)
  | step_read s slot e buf k r fl :
      pending s !! slot = Some e → events s !! slot = None → slots s !! slot = Some buf →
      read_extent f chunk_bytes e (mkFilling buf k) = (r, fl) →
      stream_step f chunk_bytes cuda device s
        (mkStream (<[slot := f_view fl]> (slots s)) (events s) (delete slot (pending s))
           (finished_reads s ++ [(slot, e, r)]) (tail_ s) (memory s) (total_ s) (failure s) (handled s) (lost s))
  (** the main thread takes a finished read, in any order *)
  | step_handle s slot e r l1 l2 :
      failure s = None → finished_reads s = l1 ++ (slot, e, r) :: l2 →
      stream_step f chunk_bytes cuda device s
        (handle cuda device slot e r
           (mkStream (slots s) (events s) (pending s) (l1 ++ l2) (tail_ s) (memory s) (total_ s) (failure s)
              (handled s) (lost s)))
  (** the copy engine runs an enqueued copy *)
  | step_copy s slot d buf :
      events s !! slot = Some d → slots s !! slot = Some buf →
      stream_step f chunk_bytes cuda device s
        (mkStream (slots s) (delete slot (events s)) (pending s) (finished_reads s) (tail_ s)
           (copy_into d (take (Z.to_nat (d_numel d)) buf) (memory s)) (total_ s) (failure s) (handled s) (lost s)).

(** [stream] returned: no read is outstanding and the copy stream was synchronized. *)
Definition stream_done (s : Stream) : Prop :=
  failure s = None ∧ pending s = ∅ ∧ finished_reads s = [] ∧ events s = ∅.
End transport.
