(* ===== verification/NvmeTransportInv.v ===== *)
(** The transport's invariant: what a finished read left in its slot stays
    there until its copy ran, and a destination changes only to the verified
    bytes of its own extent. *)
From S2P Require Import Prelude Bytes File NvmeTransport.
From stdpp Require Import base list list_numbers gmap sets strings.
From Stdlib Require Import ZArith Lia.
#[local] Open Scope Z_scope.

Section inv.
Context (sha256 : list byte → string) (f : file) (chunk_bytes : Z) (cuda : bool) (device : Z).
Implicit Types (s : Stream) (e : Extent) (d : Dest) (mem : list (list byte)).

(** The bytes of an extent, and that they are what its digest says. *)
Definition data e : list byte := file_read f (Z.to_nat (e_offset e)) (Z.to_nat (e_length e)).
Definition verified e : Prop :=
  0 ≤ e_offset e ∧ 0 < e_length e ≤ chunk_bytes ∧ length (data e) = Z.to_nat (e_length e) ∧ sha256 (data e) = e_digest e.

(** What a destination holds. *)
Definition slice mem d : list byte := file_read (default [] (mem !! d_store d)) (d_start d) (Z.to_nat (d_numel d)).
Definition apart d1 d2 : Prop :=
  d_store d1 ≠ d_store d2 ∨ (d_start d1 + Z.to_nat (d_numel d1) ≤ d_start d2)%nat ∨
  (d_start d2 + Z.to_nat (d_numel d2) ≤ d_start d1)%nat.
Definition in_mem mem d : Prop :=
  ∃ m, mem !! d_store d = Some m ∧ (d_start d + Z.to_nat (d_numel d) ≤ length m)%nat.

(** ** One read *)

Lemma align_spec n : 0 ≤ n → n ≤ align n ∧ (ALIGN | align n) ∧ align n < n + ALIGN.
Proof.
  intros Hn. unfold align, ALIGN. pose proof (Z.div_mod (n + 4096 - 1) 4096 ltac:(lia)).
  pose proof (Z.mod_pos_bound (n + 4096 - 1) 4096 ltac:(lia)). split; [lia|]. split; [by eexists|lia].
Qed.

Lemma align_fits n c : 0 ≤ n ≤ c → c mod ALIGN = 0 → align n ≤ c.
Proof.
  intros Hn Hc. destruct (align_spec n ltac:(lia)) as (_&[k Hk]&Hlt). unfold ALIGN in *.
  pose proof (Z.div_mod c 4096 ltac:(lia)) as Hd. rewrite Hc in Hd. rewrite Hk in *. nia.
Qed.

Lemma os_preadv_run off pos want st :
  (pos + want ≤ length (f_view st))%nat →
  ∃ r m k, os_preadv f off pos want st = (r, mkFilling (file_write (f_view st) pos (take m (file_read f off want))) k) ∧
    (m ≤ length (file_read f off want))%nat ∧ (r = Ok m ∨ r = Err OSError ∧ m = 0%nat).
Proof.
  intros Hl. unfold os_preadv. destruct (xfer (f_kern st) _) as [[m|] k] eqn:E.
  - assert ((m ≤ length (file_read f off want))%nat).
    { unfold xfer in E. destruct (f_kern st) as [|[n|] k']; simplify_eq; lia. }
    exists (Ok m), m, k. split; [done|]. split; [done|]. by left.
  - exists (Err OSError), 0%nat, k. rewrite take_0. simpl. split; [done|]. split; [lia|]. by right.
Qed.

Lemma write_prefix (view d : list byte) pos :
  (pos + length d ≤ length view)%nat →
  length (file_write view pos d) = length view ∧
  take (pos + length d) (file_write view pos d) = take pos view ++ d.
Proof.
  intros Hl. destruct (decide (d = [])) as [->|Hd].
  { simpl. rewrite Nat.add_0_r, app_nil_r. done. }
  split; [rewrite file_write_length by done; lia|].
  unfold file_write. destruct d as [|b d']; [done|]. set (d := b :: d') in *.
  replace (pos - length view)%nat with 0%nat by lia. change (zeros 0) with (@nil byte).
  rewrite app_nil_r, app_assoc.
  rewrite take_app_le by (rewrite length_app, length_take; lia).
  rewrite take_ge; [done|]. rewrite length_app, length_take. lia.
Qed.

Lemma read_loop_spec fuel len off done_ st r st' :
  (len ≤ length (f_view st))%nat → (done_ ≤ len)%nat → (len - done_ ≤ fuel)%nat →
  take done_ (f_view st) = file_read f off done_ →
  read_loop fuel f len off done_ st = (r, st') →
  length (f_view st') = length (f_view st) ∧ r ≠ Err OutOfFuel ∧ (r = Ok tt → take len (f_view st') = file_read f off len).
Proof.
  revert done_ st. induction fuel as [|fuel IH]; intros dn st Hl Hd Hf Ht; simpl.
  { case_bool_decide; [lia|]. intros [= <- <-]. split; [done|]. split; [done|]. intros _. by replace len with dn by lia. }
  case_bool_decide as Hlt; [|intros [= <- <-]; split; [done|]; split; [done|]; intros _; by replace len with dn by lia].
  destruct (os_preadv_run (off + dn) dn (len - dn) st ltac:(lia)) as (r0&m&k&E&Hm&Hr).
  unfold mbind, M_bind. rewrite E. rewrite file_read_length in Hm.
  assert (Hlm : length (take m (file_read f (off + dn) (len - dn))) = m) by (rewrite length_take, file_read_length; lia).
  destruct (write_prefix (f_view st) (take m (file_read f (off + dn) (len - dn))) dn ltac:(lia)) as [Hw1 Hw2].
  destruct Hr as [->|[-> ->]]; [|intros [= <- <-]; split; [done|]; split; [done|]; done].
  case_bool_decide as Hz.
  { intros [= <- <-]. split; [done|]. by split. }
  intros H. apply IH in H; simpl in *; try lia.
  - destruct H as (H1&H2&H3). split; [lia|]. by split.
  - rewrite Hlm in Hw2. rewrite Hw2, Ht. unfold file_read at 2. rewrite take_take.
    replace (m `min` (len - dn))%nat with m by lia. apply (file_read_app f off dn m).
Qed.

Lemma read_extent_spec e st r st' :
  Z.of_nat (length (f_view st)) = chunk_bytes → chunk_bytes mod ALIGN = 0 →
  read_extent sha256 f chunk_bytes e st = (r, st') →
  length (f_view st') = length (f_view st) ∧ r ≠ Err OutOfFuel ∧
  (r = Ok tt → verified e ∧ take (Z.to_nat (e_length e)) (f_view st') = data e).
Proof.
  intros Hlen Hmod. unfold read_extent.
  destruct (e_offset e mod ALIGN =? 0); [|intros [= <- <-]; done]. cbn [negb orb].
  destruct ((0 <? e_length e) && (e_length e <=? chunk_bytes)) eqn:El; [|intros [= <- <-]; done]. cbn [negb].
  apply andb_true_iff in El as [El1%Z.ltb_lt El2%Z.leb_le]. autorewrite with monad.
  pose proof (align_fits (e_length e) chunk_bytes ltac:(lia) Hmod) as Hal.
  destruct (align_spec (e_length e) ltac:(lia)) as (Hge&_&_).
  replace (length (f_view st) `min` Z.to_nat (align (e_length e)))%nat with (Z.to_nat (align (e_length e))) by lia.
  unfold read_exact. destruct (Z.ltb_spec (e_offset e) 0) as [Hneg|Hnn]; [intros [= <- <-]; done|].
  set (L := Z.to_nat (align (e_length e))).
  destruct (read_loop L f L (Z.to_nat (e_offset e)) 0 st) as [r1 st1] eqn:E1.
  destruct (read_loop_spec L L (Z.to_nat (e_offset e)) 0 st r1 st1) as (H1&H2&H3); [lia|lia|lia|done|done|].
  destruct r1 as [[]|x].
  2: { rewrite (M_bind_err _ _ _ _ _ E1). intros [= <- <-]. split; [done|]. split; [congruence|done]. }
  rewrite (M_bind_run _ _ _ _ _ E1). autorewrite with monad.
  assert (Ht : take (Z.to_nat (e_length e)) (f_view st1) = data e).
  { specialize (H3 eq_refl). apply (f_equal (take (Z.to_nat (e_length e)))) in H3. rewrite take_take in H3.
    unfold file_read in H3. rewrite take_take in H3. unfold data, file_read.
    replace (Z.to_nat (e_length e) `min` L)%nat with (Z.to_nat (e_length e)) in H3 by lia. done. }
  rewrite Ht. case_bool_decide as Hsha; cbn [negb]; intros [= <- <-]; (split; [done|]); (split; [done|]); [|done].
  intros _. split; [|done]. split; [lia|]. split; [lia|]. split; [|done].
  rewrite <- Ht, length_take. lia.
Qed.

(** ** Destinations *)

Lemma copy_into_slice mem d x :
  in_mem mem d → length x = Z.to_nat (d_numel d) → slice (copy_into d x mem) d = x.
Proof.
  intros (m&Hm&Hl) Hx. unfold slice, copy_into. rewrite list_lookup_alter, decide_True, Hm by done.
  simpl. rewrite file_read_here by lia. by rewrite take_ge by lia.
Qed.

Lemma copy_into_other mem d x d2 :
  in_mem mem d2 → length x = Z.to_nat (d_numel d) → apart d d2 → slice (copy_into d x mem) d2 = slice mem d2.
Proof.
  intros (m&Hm&Hl) Hx Ha. unfold slice, copy_into. rewrite list_lookup_alter.
  destruct (decide (d_store d = d_store d2)) as [He|Hne]; [|done].
  rewrite He, Hm. simpl.
  apply file_read_write_other; [done|]. destruct Ha as [?|[?|?]]; [done|right; lia|left; lia].
Qed.

Lemma copy_into_in mem d x d2 :
  in_mem mem d2 → in_mem mem d → length x = Z.to_nat (d_numel d) → in_mem (copy_into d x mem) d2.
Proof.
  intros (m&Hm&Hl) (m1&Hm1&Hl1) Hx. unfold in_mem, copy_into. rewrite list_lookup_alter.
  destruct (decide (d_store d = d_store d2)) as [He|Hne]; [|by exists m].
  rewrite He, Hm. exists (file_write m (d_start d) x). split; [done|].
  destruct (decide (x = [])) as [->|Hne]; [done|]. rewrite file_write_length by done. lia.
Qed.

(** A copy inside a storage changes no size. *)
Lemma copy_into_size mem d x :
  in_mem mem d → length x = Z.to_nat (d_numel d) → length <$> copy_into d x mem = length <$> mem.
Proof.
  intros (m&Hm&Hl) Hx. apply list_eq. intros i. rewrite !list_lookup_fmap. unfold copy_into.
  rewrite list_lookup_alter. destruct (decide (d_store d = i)) as [<-|Hne]; [|done].
  rewrite Hm. simpl. f_equal. destruct (decide (x = [])) as [->|Hne]; [done|]. rewrite file_write_length by done. lia.
Qed.

(** ** The pipeline *)

Section pipeline.
(** The extents of one call, their destinations in [mem0], pairwise apart. *)
Context (extents : list Extent) (mem0 : list (list byte)).
Hypothesis Hmod : chunk_bytes mod ALIGN = 0.
Hypothesis Hin : ∀ e, e ∈ extents → in_mem mem0 (e_dest e).
Hypothesis Hapart : ∀ e1 e2, e1 ∈ extents → e2 ∈ extents → e1 = e2 ∨ apart (e_dest e1) (e_dest e2).

Definition slot_of (x : nat * Extent * res unit) : nat := x.1.1.
Definition ext_of (x : nat * Extent * res unit) : Extent := x.1.2.

(** The destination takes exactly the extent's bytes. *)
Definition fits_dest e : Prop := d_numel (e_dest e) = e_length e.

Record PInv s : Prop := {
  pi_len : Forall (λ b : list byte, Z.of_nat (length b) = chunk_bytes) (slots s);
  pi_perm : extents ≡ₚ handled s ++ (map_to_list (pending s)).*2 ++ (ext_of <$> finished_reads s) ++ tail_ s ++ lost s;
  pi_lost : failure s = None → lost s = [];
  pi_nodup : NoDup (slot_of <$> finished_reads s);
  pi_free slot : slot ∈ slot_of <$> finished_reads s →
    pending s !! slot = None ∧ events s !! slot = None ∧ (slot < length (slots s))%nat;
  pi_pend slot e : pending s !! slot = Some e → (slot < length (slots s))%nat;
  pi_read slot e : (slot, e, Ok tt) ∈ finished_reads s →
    verified e ∧ ∃ buf, slots s !! slot = Some buf ∧ take (Z.to_nat (e_length e)) buf = data e;
  pi_event slot d : events s !! slot = Some d → ∃ e buf, e ∈ handled s ∧ e_dest e = d ∧ fits_dest e ∧ verified e ∧
    slots s !! slot = Some buf ∧ take (Z.to_nat (e_length e)) buf = data e;
  pi_handled e : e ∈ handled s → verified e ∧ fits_dest e ∧
    ((∃ slot, events s !! slot = Some (e_dest e)) ∨ slice (memory s) (e_dest e) = data e);
  pi_total : total_ s = foldr (λ e t, e_length e + t) 0 (handled s);
  pi_mem e : e ∈ extents → in_mem (memory s) (e_dest e);
  pi_size : length <$> memory s = length <$> mem0;
  pi_frame e : e ∈ extents → slice (memory s) (e_dest e) = slice mem0 (e_dest e) ∨
    e ∈ handled s ∧ verified e ∧ slice (memory s) (e_dest e) = data e }.

Lemma handled_extent s e : PInv s → e ∈ handled s → e ∈ extents.
Proof. intros HI He. rewrite (pi_perm _ HI). apply elem_of_app. by left. Qed.

Lemma verified_numel e : verified e → fits_dest e → length (data e) = Z.to_nat (d_numel (e_dest e)).
Proof. intros (_&_&H&_) Hf. unfold fits_dest in Hf. by rewrite Hf. Qed.

Lemma apart_irrefl e : verified e → fits_dest e → ¬ apart (e_dest e) (e_dest e).
Proof. intros (_&H&_) Hf. unfold fits_dest in Hf. intros [?|[?|?]]; [done|lia|lia]. Qed.

(** The copy of a handled extent lands in its destination only. *)
Lemma copied s e : PInv s → e ∈ handled s → verified e → fits_dest e →
  let mem := copy_into (e_dest e) (data e) (memory s) in
  slice mem (e_dest e) = data e ∧
  (∀ e2, e2 ∈ extents → in_mem mem (e_dest e2)) ∧
  (∀ e2, e2 ∈ extents → e2 = e ∨ slice mem (e_dest e2) = slice (memory s) (e_dest e2)).
Proof.
  intros HI He Hv Hf mem. pose proof (verified_numel _ Hv Hf) as Hl.
  assert (Hex : e ∈ extents) by by eapply handled_extent. split; [|split].
  - apply copy_into_slice; [by apply HI|done].
  - intros e2 H2. apply copy_into_in; [by apply HI|by apply HI|done].
  - intros e2 H2. destruct (Hapart e e2 Hex H2) as [->|Ha]; [by left|right].
    apply copy_into_other; [by apply HI|done|done].
Qed.

(** Bookkeeping of [copied] for the invariant's clauses about memory. *)
Lemma copied_handled s e mem : PInv s → e ∈ handled s → verified e → fits_dest e →
  mem = copy_into (e_dest e) (data e) (memory s) →
  (∀ e2, e2 ∈ extents → in_mem mem (e_dest e2)) ∧
  (∀ e2, e2 ∈ handled s → slice (memory s) (e_dest e2) = data e2 → slice mem (e_dest e2) = data e2) ∧
  slice mem (e_dest e) = data e ∧
  (∀ e2, e2 ∈ extents → slice mem (e_dest e2) = slice mem0 (e_dest e2) ∨
     e2 ∈ handled s ∧ verified e2 ∧ slice mem (e_dest e2) = data e2) ∧
  length <$> mem = length <$> mem0.
Proof.
  intros HI He Hv Hf ->. destruct (copied s e HI He Hv Hf) as (H1&H2&H3). split; [done|]. split; [|split; [done|split]].
  - intros e2 Hh Hs. destruct (H3 e2) as [->| ->]; [by eapply handled_extent|done|done].
  - intros e2 Hx. destruct (H3 e2 Hx) as [->| ->]; [by right|by apply HI].
  - rewrite copy_into_size; [apply HI|apply HI; by eapply handled_extent|by apply verified_numel].
Qed.

Lemma PInv_copy s slot d buf :
  PInv s → events s !! slot = Some d → slots s !! slot = Some buf →
  PInv (mkStream (slots s) (delete slot (events s)) (pending s) (finished_reads s) (tail_ s)
          (copy_into d (take (Z.to_nat (d_numel d)) buf) (memory s)) (total_ s) (failure s) (handled s) (lost s)).
Proof.
  intros HI Hev Hbuf. destruct (pi_event _ HI _ _ Hev) as (e&buf'&He&<-&Hf&Hv&Hb&Ht). simplify_eq.
  assert (Hd : take (Z.to_nat (d_numel (e_dest e))) buf = data e) by (unfold fits_dest in Hf; by rewrite Hf).
  rewrite Hd. destruct (copied_handled s e _ HI He Hv Hf eq_refl) as (M1&M2&M3&M4&M5).
  destruct HI as [I1 I2 I3 I4 I5 I6 I7 I8 I9 I10 I11 I13 I12]. split; simpl; try done.
  - intros sl Hsl. destruct (I5 sl Hsl) as (?&?&?). split; [done|]. split; [|done]. apply lookup_delete_None. by right.
  - intros sl d2 [_ H]%lookup_delete_Some. by apply I8.
  - intros e2 H2. destruct (I9 e2 H2) as (V&F&[[sl Hsl]|Hs]); (split; [done|]); (split; [done|]); [|by right; apply M2].
    destruct (decide (sl = slot)) as [->|Hne]; [right|left; exists sl; by rewrite lookup_delete_ne].
    rewrite Hev in Hsl. injection Hsl as Hd2.
    destruct (Hapart e e2) as [->|Ha]; [rewrite I2; apply elem_of_app; by left|rewrite I2; apply elem_of_app; by left|done|].
    rewrite <- Hd2 in Ha. by destruct (apart_irrefl e Hv Hf).
Qed.

Lemma PInv_read s slot e buf k r fl :
  PInv s → pending s !! slot = Some e → events s !! slot = None → slots s !! slot = Some buf →
  read_extent sha256 f chunk_bytes e (mkFilling buf k) = (r, fl) →
  PInv (mkStream (<[slot := f_view fl]> (slots s)) (events s) (delete slot (pending s))
          (finished_reads s ++ [(slot, e, r)]) (tail_ s) (memory s) (total_ s) (failure s) (handled s) (lost s)).
Proof.
  intros [I1 I2 I3 I4 I5 I6 I7 I8 I9 I10 I11 I13 I12] Hp Hev Hbuf E.
  pose proof (lookup_lt_Some _ _ _ Hbuf) as Hlt.
  assert (Hlen : Z.of_nat (length buf) = chunk_bytes) by (rewrite Forall_forall in I1; apply I1; by eapply list_elem_of_lookup_2).
  destruct (read_extent_spec e (mkFilling buf k) r fl Hlen Hmod E) as (R1&_&R3). simpl in R1.
  assert (Hfresh : slot ∉ slot_of <$> finished_reads s) by (intros H; destruct (I5 _ H) as [H' _]; congruence).
  split; simpl; try done.
  - apply Forall_insert; [done|]. by rewrite R1.
  - rewrite I2. rewrite fmap_app. simpl.
    rewrite <- (insert_delete_id (pending s) slot e Hp) at 1.
    rewrite (map_to_list_insert (delete slot (pending s)) slot e) by apply lookup_delete_eq.
    simpl. solve_Permutation.
  - rewrite fmap_app. apply NoDup_app. split_and!; [done| |apply NoDup_singleton].
    intros x Hx Hx2%list_elem_of_singleton. simpl in Hx2. by subst.
  - intros sl. rewrite fmap_app, length_insert. intros [Hsl|Hsl]%elem_of_app.
    + destruct (I5 _ Hsl) as (?&?&?). split; [|done]. apply lookup_delete_None. by right.
    + apply list_elem_of_singleton in Hsl. simpl in Hsl. subst sl. split; [apply lookup_delete_eq|done].
  - intros sl e2 [_ H]%lookup_delete_Some. rewrite length_insert. by eapply I6.
  - intros sl e2 [H|H]%elem_of_app.
    + destruct (I7 _ _ H) as (V&b&Hb&Ht). split; [done|]. exists b. split; [|done].
      rewrite list_lookup_insert_ne; [done|]. intros <-. apply Hfresh. by apply (list_elem_of_fmap_2 slot_of) in H.
    + apply list_elem_of_singleton in H. simplify_eq. destruct (R3 eq_refl) as [V Ht]. split; [done|].
      exists (f_view fl). split; [by apply list_lookup_insert_eq|done].
  - intros sl d Hd. destruct (I8 _ _ Hd) as (e2&b&H1&H2&H3&H4&H5&H6). exists e2, b. split_and!; try done.
    rewrite list_lookup_insert_ne; [done|]. intros <-. congruence.
Qed.

Lemma PInv_submit s slot :
  PInv s → pending s !! slot = None → slot ∉ slot_of <$> finished_reads s → (slot < length (slots s))%nat →
  PInv (submit_next slot s).
Proof.
  intros HI Hp Hf Hl. unfold submit_next. destruct (tail_ s) as [|e tl] eqn:Et; [done|].
  destruct HI as [I1 I2 I3 I4 I5 I6 I7 I8 I9 I10 I11 I13 I12]. split; simpl; try done.
  - rewrite I2, Et, (map_to_list_insert (pending s) slot e) by done. simpl. solve_Permutation.
  - intros sl Hsl. destruct (I5 _ Hsl) as (H1&H2&H3). split_and!; [|done..].
    rewrite lookup_insert_ne; [done|]. intros ->. by apply Hf.
  - intros sl e2. destruct (decide (sl = slot)) as [->|Hne]; [done|]. rewrite lookup_insert_ne by done. apply I6.
Qed.

(** A finished read whose result is not accepted. *)
Lemma PInv_fail s slot e r x l1 l2 :
  PInv s → finished_reads s = l1 ++ (slot, e, r) :: l2 →
  PInv (fail_with x e (mkStream (slots s) (events s) (pending s) (l1 ++ l2) (tail_ s) (memory s) (total_ s)
          (failure s) (handled s) (lost s))).
Proof.
  intros [I1 I2 I3 I4 I5 I6 I7 I8 I9 I10 I11 I13 I12] Hl.
  assert (Hsub : ∀ y, y ∈ l1 ++ l2 → y ∈ finished_reads s).
  { intros y. rewrite Hl, !elem_of_app, elem_of_cons. tauto. }
  split; simpl; try done.
  - rewrite I2, Hl, !fmap_app. simpl. solve_Permutation.
  - rewrite Hl, fmap_app in I4. simpl in I4. rewrite fmap_app.
    apply NoDup_app in I4 as (N1&N2&[_ N3]%NoDup_cons). apply NoDup_app. split_and!; [done| |done].
    intros y Hy1 Hy2. apply (N2 y Hy1). by right.
  - intros sl (y&->&Hy)%list_elem_of_fmap. apply I5. apply list_elem_of_fmap. exists y. split; [done|by apply Hsub].
  - intros sl e2 H. by apply I7, Hsub.
Qed.

(** A finished read that is accepted: its copy is enqueued, or done at once. *)
Lemma PInv_accept s slot e l1 l2 mem ev :
  PInv s → failure s = None → finished_reads s = l1 ++ (slot, e, Ok tt) :: l2 → fits_dest e →
  (mem = memory s ∧ ev = <[slot := e_dest e]> (events s) ∨
   mem = copy_into (e_dest e) (data e) (memory s) ∧ ev = events s) →
  PInv (mkStream (slots s) ev (pending s) (l1 ++ l2) (tail_ s) mem (total_ s + e_length e) None
          (handled s ++ [e]) (lost s)).
Proof.
  intros HI Hfail Hl Hf Hcase.
  assert (Hin1 : (slot, e, Ok tt) ∈ finished_reads s) by (rewrite Hl; set_solver).
  destruct (pi_read _ HI _ _ Hin1) as (Hv&buf&Hbuf&Ht).
  destruct (pi_free _ HI slot) as (Hp&Hev&Hlt); [by apply (list_elem_of_fmap_2 slot_of) in Hin1|].
  assert (Hex : e ∈ extents).
  { rewrite (pi_perm _ HI), !elem_of_app. right. right. left. by apply (list_elem_of_fmap_2 ext_of) in Hin1. }
  assert (Hmem : (∀ e2, e2 ∈ extents → in_mem mem (e_dest e2)) ∧
    (∀ e2, e2 ∈ handled s → slice (memory s) (e_dest e2) = data e2 → slice mem (e_dest e2) = data e2) ∧
    ((∃ sl, ev !! sl = Some (e_dest e)) ∨ slice mem (e_dest e) = data e) ∧
    (∀ e2, e2 ∈ extents → slice mem (e_dest e2) = slice mem0 (e_dest e2) ∨
       e2 ∈ handled s ++ [e] ∧ verified e2 ∧ slice mem (e_dest e2) = data e2) ∧
    length <$> mem = length <$> mem0).
  { destruct Hcase as [[-> ->]|[-> ->]].
    - split; [apply HI|]. split; [done|]. split; [left; exists slot; apply lookup_insert_eq|]. split; [|apply HI].
      intros e2 H2. destruct (pi_frame _ HI e2 H2) as [?|(?&?&?)]; [by left|right]. split; [|done]. apply elem_of_app. by left.
    - pose proof (verified_numel _ Hv Hf) as Hln. split; [|split; [|split; [|split]]].
      + intros e2 H2. apply copy_into_in; [by apply HI|by apply HI|done].
      + intros e2 Hh Hs. destruct (Hapart e e2 Hex (handled_extent _ _ HI Hh)) as [->|Ha].
        * apply copy_into_slice; [by apply HI|done].
        * rewrite copy_into_other; [done|apply HI; by eapply handled_extent|done|done].
      + right. apply copy_into_slice; [by apply HI|done].
      + intros e2 H2. destruct (Hapart e e2 Hex H2) as [->|Ha].
        * right. split; [apply elem_of_app; right; by left|]. split; [done|]. apply copy_into_slice; [by apply HI|done].
        * rewrite copy_into_other; [|by apply HI|done|done].
          destruct (pi_frame _ HI e2 H2) as [?|(?&?&?)]; [by left|right]. split; [|done]. apply elem_of_app. by left.
      + rewrite copy_into_size; [apply HI|by apply HI|done]. }
  destruct Hmem as (M1&M2&M3&M4&M5).
  assert (Hfresh : slot ∉ slot_of <$> (l1 ++ l2)).
  { pose proof (pi_nodup _ HI) as Hn. rewrite Hl, fmap_app in Hn. simpl in Hn.
    apply NoDup_app in Hn as (_&N2&[N3 _]%NoDup_cons). rewrite fmap_app. intros [H|H]%elem_of_app; [|done].
    apply (N2 _ H). by left. }
  assert (Hsub : ∀ y, y ∈ l1 ++ l2 → y ∈ finished_reads s).
  { intros y. rewrite Hl, !elem_of_app, elem_of_cons. tauto. }
  pose proof HI as HI'. destruct HI as [I1 I2 I3 I4 I5 I6 I7 I8 I9 I10 I11 I13 I12]. split; simpl; try done.
  - rewrite I2, Hl, !fmap_app. simpl. rewrite (I3 Hfail). solve_Permutation.
  - intros _. by apply I3.
  - rewrite Hl, fmap_app in I4. simpl in I4. rewrite fmap_app.
    apply NoDup_app in I4 as (N1&N2&[_ N3]%NoDup_cons). apply NoDup_app. split_and!; [done| |done].
    intros y Hy1 Hy2. apply (N2 y Hy1). by right.
  - intros sl Hsl. assert (sl ≠ slot) by (intros ->; done).
    apply list_elem_of_fmap in Hsl as (y&->&Hy). destruct (I5 (slot_of y)) as (?&?&?).
    { apply list_elem_of_fmap. exists y. split; [done|by apply Hsub]. }
    split; [done|]. split; [|done]. destruct Hcase as [[_ ->]|[_ ->]]; [by rewrite lookup_insert_ne|done].
  - intros sl e2 H. by apply I7, Hsub.
  - intros sl d Hd.
    assert (Hd' : (sl = slot ∧ d = e_dest e) ∨ events s !! sl = Some d).
    { destruct Hcase as [[_ ->]|[_ ->]]; [|by right]. destruct (decide (sl = slot)) as [->|Hne].
      - rewrite lookup_insert_eq in Hd. left. split; congruence.
      - rewrite lookup_insert_ne in Hd by done. by right. }
    destruct Hd' as [[-> ->]|Hd'].
    + exists e, buf. split_and!; try done. apply elem_of_app. right. by left.
    + destruct (I8 _ _ Hd') as (e2&b&H1&H2). exists e2, b. split; [apply elem_of_app; by left|done].
  - intros e2 [H2|H2]%elem_of_app; [|apply list_elem_of_singleton in H2; subst e2; by split_and!].
    destruct (I9 _ H2) as (V&F&[[sl Hsl]|Hs]); (split; [done|]); (split; [done|]); [left|right; by apply M2].
    exists sl. destruct Hcase as [[_ ->]|[_ ->]]; [|done]. rewrite lookup_insert_ne; [done|]. intros ->. congruence.
  - rewrite I10, foldr_app. simpl. clear. induction (handled s); simpl; lia.
Qed.

Lemma PInv_handle s slot e r l1 l2 :
  PInv s → failure s = None → finished_reads s = l1 ++ (slot, e, r) :: l2 →
  PInv (handle cuda device slot e r (mkStream (slots s) (events s) (pending s) (l1 ++ l2) (tail_ s) (memory s)
          (total_ s) (failure s) (handled s) (lost s))).
Proof.
  intros HI Hfail Hl. unfold handle. cbn [slots events pending finished_reads tail_ memory total_ failure handled lost].
  destruct r as [[]|x]; [|by eapply PInv_fail].
  destruct (d_numel (e_dest e) =? e_length e) eqn:En; [|by eapply PInv_fail].
  destruct (d_uint8 (e_dest e)); [|by eapply PInv_fail]. cbn [negb orb].
  destruct (d_device (e_dest e) =? device); [|by eapply PInv_fail]. cbn [negb].
  apply Z.eqb_eq in En.
  assert (Hin1 : (slot, e, Ok tt) ∈ finished_reads s) by (rewrite Hl; set_solver).
  destruct (pi_read _ HI _ _ Hin1) as (Hv&buf&Hbuf&Ht).
  destruct (pi_free _ HI slot) as (Hp&Hev&Hlt); [by apply (list_elem_of_fmap_2 slot_of) in Hin1|].
  rewrite Hbuf. simpl default. rewrite Ht, Hfail.
  apply PInv_submit; simpl; [|done| |done].
  - apply (PInv_accept s slot); try done. destruct cuda; [by left|by right].
  - pose proof (pi_nodup _ HI) as Hn. rewrite Hl, fmap_app in Hn. simpl in Hn.
    apply NoDup_app in Hn as (_&N2&[N3 _]%NoDup_cons). rewrite fmap_app. intros [H|H]%elem_of_app; [|done].
    apply (N2 _ H). by left.
Qed.

Lemma PInv_step s s' : PInv s → stream_step sha256 f chunk_bytes cuda device s s' → PInv s'.
Proof.
  intros HI H. destruct H as [s slot e buf k r fl Hp Hev Hb E|s slot e r l1 l2 Hf Hl|s slot d buf Hev Hb].
  - by eapply PInv_read.
  - by apply PInv_handle.
  - by apply PInv_copy.
Qed.

Lemma PInv_start buffers :
  Forall (λ b : list byte, Z.of_nat (length b) = chunk_bytes) buffers → PInv (stream_start buffers extents mem0).
Proof.
  intros Hb. unfold stream_start.
  assert (H : ∀ l s, PInv s → NoDup l → finished_reads s = [] → slots s = buffers →
    (∀ x, x ∈ l → pending s !! x = None ∧ (x < length buffers)%nat) →
    PInv (fold_left (λ s slot, submit_next slot s) l s)).
  { induction l as [|x l IH]; intros s HI Hn Hfr Hs Hl; [done|]. simpl. apply NoDup_cons in Hn as [Hx Hn].
    destruct (Hl x ltac:(by left)) as [Hpx Hlx]. apply IH.
    - apply PInv_submit; [done|done|rewrite Hfr; apply not_elem_of_nil|by rewrite Hs].
    - done.
    - unfold submit_next. by destruct (tail_ s).
    - unfold submit_next. by destruct (tail_ s).
    - intros y Hy. destruct (Hl y ltac:(by right)) as [Hpy Hly]. split; [|done].
      unfold submit_next. destruct (tail_ s); [done|]. simpl. rewrite lookup_insert_ne; [done|]. intros ->. done. }
  apply H; try done.
  - split; simpl; try done.
    + by rewrite map_to_list_empty, app_nil_r.
    + apply NoDup_nil_2.
    + intros sl Hsl. by apply not_elem_of_nil in Hsl.
    + intros sl e He. by apply not_elem_of_nil in He.
    + intros e He. by apply not_elem_of_nil in He.
    + intros e He. by left.
  - apply NoDup_seq.
  - intros x Hx%elem_of_seq. split; [done|lia].
Qed.
End pipeline.
End inv.
