(* ===== verification/NvmeTransportProps.v ===== *)
(** What the weight transport guarantees: every destination ends with the
    verified bytes of its extent, nothing unverified is ever delivered, and
    the pipeline neither stalls nor runs for ever. *)
From S2P Require Import Prelude Bytes File NvmeTransport NvmeTransportInv.
From stdpp Require Import base list list_numbers gmap sets strings relations.
From Stdlib Require Import ZArith Lia.
#[local] Open Scope Z_scope.

Section props.
Context (sha256 : list byte → string) (f : file) (chunk_bytes : Z) (cuda : bool) (device : Z).
Context (extents : list Extent) (mem0 : list (list byte)) (buffers : list (list byte)).
Local Abbreviation step := (stream_step sha256 f chunk_bytes cuda device).
Local Abbreviation start := (stream_start buffers extents mem0).
Implicit Types (s : Stream) (e : Extent).

(** The staging slots have the chunk size, and the destinations lie in the
    memory, pairwise apart. *)
Definition stream_setup : Prop :=
  chunk_bytes mod ALIGN = 0 ∧ Forall (λ b : list byte, Z.of_nat (length b) = chunk_bytes) buffers ∧
  (∀ e, e ∈ extents → in_mem mem0 (e_dest e)) ∧
  (∀ e1 e2, e1 ∈ extents → e2 ∈ extents → e1 = e2 ∨ apart (e_dest e1) (e_dest e2)).

(** ** Every slot is busy while extents remain *)

Definition busy s : nat := (size (pending s) + length (finished_reads s))%nat.
Definition saturated s : Prop := failure s = None → tail_ s ≠ [] → busy s = length (slots s).

Lemma submit_busy s slot : pending s !! slot = None →
  tail_ s ≠ [] → busy (submit_next slot s) = S (busy s).
Proof.
  intros Hp Ht. unfold submit_next, busy. destruct (tail_ s); [done|]. simpl. by rewrite map_size_insert_None.
Qed.

Lemma saturated_start : saturated start.
Proof.
  assert (H : ∀ l s, NoDup l → (∀ x, x ∈ l → pending s !! x = None) →
    let s' := fold_left (λ s slot, submit_next slot s) l s in
    slots s' = slots s ∧ finished_reads s' = finished_reads s ∧ (tail_ s' ≠ [] → busy s' = (busy s + length l)%nat)).
  { induction l as [|x l IH]; intros s Hn Hl; simpl; [split_and!; try done; intros; lia|].
    apply NoDup_cons in Hn as [Hx Hn]. destruct (IH (submit_next x s) Hn) as (H1&H2&H3).
    { intros y Hy. unfold submit_next. destruct (tail_ s); simpl; [apply Hl; by right|].
      rewrite lookup_insert_ne by (intros ->; done). apply Hl. by right. }
    split; [rewrite H1; unfold submit_next; by destruct (tail_ s)|].
    split; [rewrite H2; unfold submit_next; by destruct (tail_ s)|]. intros Ht. rewrite H3 by done.
    rewrite submit_busy; [lia|apply Hl; by left|]. intros Hz. apply Ht. clear -Hz.
    assert (submit_next x s = s) as -> by (unfold submit_next; by rewrite Hz).
    induction l as [|y l IH]; simpl; [done|]. assert (submit_next y s = s) as -> by (unfold submit_next; by rewrite Hz). done. }
  intros _ Ht. unfold stream_start in *. destruct (H (seq 0 (length buffers))
    (mkStream buffers ∅ ∅ [] extents mem0 0 None [] [])) as (H1&_&H3).
  - apply NoDup_seq.
  - done.
  - rewrite H1, H3 by done. unfold busy. simpl. by rewrite map_size_empty, length_seq.
Qed.

Lemma saturated_step s s' : PInv sha256 f chunk_bytes extents mem0 s → saturated s → step s s' → saturated s'.
Proof.
  intros HI HS H. destruct H as [s slot e buf k r fl Hp Hev Hb E|s slot e r l1 l2 Hf Hl|s slot d buf Hev Hb].
  - intros H1 H2. unfold busy. simpl in *. rewrite length_insert, length_app, map_size_delete_Some by by eexists.
    specialize (HS H1 H2). unfold busy in HS. simpl.
    assert (size (pending s) ≠ 0%nat) by (apply map_size_non_empty_iff; intros Hz; rewrite Hz in Hp; done). lia.
  - set (s1 := mkStream _ _ _ _ _ _ _ _ _ _) at 1.
    assert (Hlen : length (finished_reads s) = S (length (l1 ++ l2))) by (rewrite Hl, !length_app; simpl; lia).
    destruct (decide (pending s !! slot = None)) as [Hp|Hp]; last first.
    { destruct Hp. eapply (pi_free _ _ _ _ _ _ HI). rewrite Hl, fmap_app. apply elem_of_app. right. by left. }
    unfold handle. destruct r as [[]|x]; [|by intros ?].
    destruct (_ || _); [by intros ?|]. destruct (negb _); [by intros ?|].
    intros H1 H2. destruct (decide (tail_ s = [])) as [Ht|Ht].
    { exfalso. apply H2. unfold submit_next. simpl. by rewrite Ht. }
    rewrite submit_busy; [|done|done]. unfold busy. simpl. specialize (HS Hf Ht). unfold busy in HS.
    assert (Hsl : ∀ s2, slots (submit_next slot s2) = slots s2) by (intros s2; unfold submit_next; by destruct (tail_ s2)).
    rewrite Hsl. simpl. lia.
  - exact HS.
Qed.

Lemma reachable_inv s : stream_setup → rtc step start s →
  PInv sha256 f chunk_bytes extents mem0 s ∧ saturated s ∧ length (slots s) = length buffers.
Proof.
  intros (Hmod&Hb&Hin&Hap) H.
  assert (H0 : PInv sha256 f chunk_bytes extents mem0 start ∧ saturated start ∧ length (slots start) = length buffers).
  { split; [by apply PInv_start|]. split; [apply saturated_start|]. unfold stream_start.
    assert (G : ∀ l s, slots (fold_left (λ s slot, submit_next slot s) l s) = slots s).
    { induction l as [|x l IH]; intros s1; [done|]. simpl. rewrite IH. unfold submit_next. by destruct (tail_ s1). }
    by rewrite G. }
  revert H0. induction H as [|s1 s2 s3 H1 _ IH]; [done|]. intros (HI&HS&HL). apply IH.
  split; [by eapply PInv_step|]. split; [by eapply saturated_step|]. rewrite <- HL.
  destruct H1; simpl; [by rewrite length_insert| |done]. unfold handle. destruct r as [[]|]; [|done].
  destruct (_ || _); [done|]. destruct (negb _); [done|]. unfold submit_next. simpl. by destruct (tail_ _).
Qed.

Lemma lengths_perm (l l' : list Extent) :
  l ≡ₚ l' → foldr (λ e t, e_length e + t) 0 l = foldr (λ e t, e_length e + t) 0 l'.
Proof. induction 1; simpl; lia. Qed.

(** What a completed run left in memory. *)
Lemma stream_delivered s :
  stream_setup → buffers ≠ [] → rtc step start s → stream_done s →
  (∀ e, e ∈ extents → slice (memory s) (e_dest e) = data f e ∧
     length (data f e) = Z.to_nat (e_length e) ∧ sha256 (data f e) = e_digest e) ∧
  handled s ≡ₚ extents ∧ length <$> memory s = length <$> mem0.
Proof.
  intros Hset Hne Hr (Hf&Hp&Hfr&Hev). destruct (reachable_inv s Hset Hr) as (HI&HS&HL).
  assert (Ht : tail_ s = []).
  { destruct (tail_ s) as [|e tl] eqn:E; [done|]. exfalso. assert (Hx : tail_ s ≠ []) by by rewrite E.
    specialize (HS Hf Hx). unfold busy in HS. rewrite Hp, Hfr, map_size_empty in HS. simpl in HS.
    apply Hne. apply nil_length_inv. lia. }
  assert (Hperm : handled s ≡ₚ extents).
  { rewrite (pi_perm _ _ _ _ _ _ HI), Hp, Hfr, Ht, (pi_lost _ _ _ _ _ _ HI Hf), map_to_list_empty. simpl. by rewrite app_nil_r. }
  split; [|split; [done|apply HI]]. intros e He. rewrite <- Hperm in He.
  destruct (pi_handled _ _ _ _ _ _ HI e He) as ((_&_&H1&H2)&_&[[sl Hsl]|Hs]); [by rewrite Hev in Hsl|done].
Qed.

(** C32: A completed [stream] delivered everything: whatever the order of the
    reads and however late the copies ran, each destination holds exactly
    the file's bytes at its extent, which have the extent's digest, and the
    reported total is the sum of the lengths. *)
Theorem stream_delivers s :
  stream_setup → buffers ≠ [] → rtc step start s → stream_done s →
  (∀ e, e ∈ extents → slice (memory s) (e_dest e) = data f e ∧
     length (data f e) = Z.to_nat (e_length e) ∧ sha256 (data f e) = e_digest e) ∧
  total_ s = foldr (λ e t, e_length e + t) 0 extents.
Proof.
  intros Hset Hne Hr Hd. destruct (stream_delivered s Hset Hne Hr Hd) as (H1&H2&_).
  destruct (reachable_inv s Hset Hr) as (HI&_&_). split; [done|].
  rewrite (pi_total _ _ _ _ _ _ HI). by apply lengths_perm.
Qed.

(** C20: Nothing unverified reaches a destination, not even when a read fails
    half way: in every reachable state each destination still holds what it
    held at the start, or exactly the bytes of its extent, checked against
    the digest. *)
Theorem stream_only_verified s :
  stream_setup → rtc step start s →
  ∀ e, e ∈ extents → slice (memory s) (e_dest e) = slice mem0 (e_dest e) ∨
    slice (memory s) (e_dest e) = data f e ∧ sha256 (data f e) = e_digest e.
Proof.
  intros Hset Hr e He. destruct (reachable_inv s Hset Hr) as (HI&_&_).
  destruct (pi_frame _ _ _ _ _ _ HI e He) as [?|(_&(_&_&_&?)&?)]; [by left|by right].
Qed.

(** ** Progress *)

Definition work s : nat := 4 * length (tail_ s) + 3 * size (pending s) + 2 * length (finished_reads s) + size (events s).

Lemma submit_work s slot : pending s !! slot = None → (work (submit_next slot s) ≤ work s)%nat.
Proof.
  intros Hp. unfold submit_next, work. destruct (tail_ s) eqn:E; simpl; rewrite ?E; simpl; [done|].
  rewrite map_size_insert_None by done. lia.
Qed.

Lemma step_work s s' : PInv sha256 f chunk_bytes extents mem0 s → step s s' → (work s' < work s)%nat.
Proof.
  intros HI H. destruct H as [s slot e buf k r fl Hp Hev Hb E|s slot e r l1 l2 Hf Hl|s slot d buf Hev Hb].
  - unfold work. simpl. rewrite length_app, map_size_delete_Some by by eexists. simpl.
    assert (size (pending s) ≠ 0%nat) by (apply map_size_non_empty_iff; intros Hz; rewrite Hz in Hp; done). lia.
  - destruct (pi_free _ _ _ _ _ _ HI slot) as (Hp&Hev&_).
    { rewrite Hl, fmap_app. apply elem_of_app. right. by left. }
    assert (Hlen : length (finished_reads s) = S (length (l1 ++ l2))) by (rewrite Hl, !length_app; simpl; lia).
    assert (Hfail : ∀ x, (work (fail_with x e (mkStream (slots s) (events s) (pending s) (l1 ++ l2) (tail_ s) (memory s)
      (total_ s) (failure s) (handled s) (lost s))) < work s)%nat) by (intros x; unfold work; simpl; lia).
    unfold handle. destruct r as [[]|x]; [|apply Hfail].
    destruct (_ || _); [apply Hfail|]. destruct (negb _); [apply Hfail|].
    eapply Nat.le_lt_trans; [by apply submit_work|]. unfold work. simpl.
    destruct cuda; [rewrite map_size_insert_None by done|]; lia.
  - unfold work. simpl. rewrite map_size_delete_Some by by eexists.
    assert (size (events s) ≠ 0%nat) by (apply map_size_non_empty_iff; intros Hz; rewrite Hz in Hev; done). lia.
Qed.

(** C33: The pipeline cannot stall or run for ever: from any reachable state at
    most [work] more steps follow, and while no read failed and the call is
    not done some step is possible (a fenced read never waits for a copy
    that cannot run). *)
Theorem stream_progress s :
  stream_setup → rtc step start s →
  (∀ n s', nsteps step n s s' → (n ≤ work s)%nat) ∧
  (failure s = None → ¬ stream_done s → ∃ s', step s s').
Proof.
  intros Hset Hr. split.
  - intros n s' Hn. destruct (reachable_inv s Hset Hr) as (HI&_&_). destruct Hset as (Hmod&_&Hin&Hap).
    clear Hr. induction Hn as [s|n s1 s2 s3 H1 Hn IH]; [lia|].
    pose proof (step_work _ _ HI H1). assert (PInv sha256 f chunk_bytes extents mem0 s2) as HI2 by by eapply PInv_step.
    specialize (IH HI2). lia.
  - intros Hf Hnd. destruct (reachable_inv s Hset Hr) as (HI&_&_).
    destruct (finished_reads s) as [|[[slot e] r] fr] eqn:Efr.
    2: { eexists. eapply (step_handle _ _ _ _ _ s slot e r [] fr); [done|exact Efr]. }
    destruct (decide (events s = ∅)) as [Ev|Ev].
    + destruct (decide (pending s = ∅)) as [Ep|Ep]; [by destruct Hnd|].
      apply map_choose in Ep as (slot&e&Hp). pose proof (pi_pend _ _ _ _ _ _ HI _ _ Hp) as Hlt.
      destruct (lookup_lt_is_Some_2 _ _ Hlt) as [buf Hbuf].
      destruct (read_extent sha256 f chunk_bytes e (mkFilling buf [])) as [r fl] eqn:E.
      eexists. eapply step_read; [exact Hp|by rewrite Ev|exact Hbuf|exact E].
    + apply map_choose in Ev as (slot&d&Hev). destruct (pi_event _ _ _ _ _ _ HI _ _ Hev) as (e&buf&_&_&_&_&Hbuf&_).
      eexists. by eapply step_copy.
Qed.
End props.

(** * Instances *)

(** Two extents of a two-page file, one staging slot; the digest is the text itself. *)
Definition sha0 : list byte → string := String.string_of_list_byte.
Definition file0 : file := (z2b <$> [7; 8; 9]) ++ zeros 4093 ++ (z2b <$> [5; 6]) ++ zeros 4094.
Definition ext1 : Extent := mkExtent 0 3 (sha0 (z2b <$> [7; 8; 9])) (mkDest 0 2 3 true 1).
Definition ext2 : Extent := mkExtent 4096 2 (sha0 (z2b <$> [5; 6])) (mkDest 0 5 2 true 1).
Definition exts0 : list Extent := [ext1; ext2].
Definition store0 : list (list byte) := [zeros 8].
Definition stage0 : list (list byte) := [zeros 4096].

(** One scheduling of the steps, as functions, for evaluating runs. *)
Section drive.
Context (f : file) (cb : Z) (cuda : bool) (device : Z).
Definition do_read slot k (s : Stream) : Stream :=
  match pending s !! slot, slots s !! slot with
  | Some e, Some buf =>
    let out := read_extent sha0 f cb e (mkFilling buf k) in
    mkStream (<[slot := f_view out.2]> (slots s)) (events s) (delete slot (pending s))
      (finished_reads s ++ [(slot, e, out.1)]) (tail_ s) (memory s) (total_ s) (failure s) (handled s) (lost s)
  | _, _ => s
  end.
Definition do_handle (s : Stream) : Stream :=
  match finished_reads s with
  | (slot, e, r) :: l =>
    handle cuda device slot e r (mkStream (slots s) (events s) (pending s) l (tail_ s) (memory s) (total_ s) (failure s)
      (handled s) (lost s))
  | [] => s
  end.
Definition do_copy slot (s : Stream) : Stream :=
  match events s !! slot, slots s !! slot with
  | Some d, Some buf =>
    mkStream (slots s) (delete slot (events s)) (pending s) (finished_reads s) (tail_ s)
      (copy_into d (take (Z.to_nat (d_numel d)) buf) (memory s)) (total_ s) (failure s) (handled s) (lost s)
  | _, _ => s
  end.

Local Abbreviation step1 := (stream_step sha0 f cb cuda device).
Lemma do_read_steps slot k s : events s !! slot = None → rtc step1 s (do_read slot k s).
Proof.
  intros Hev. unfold do_read. destruct (pending s !! slot) as [e|] eqn:Hp; [|done].
  destruct (slots s !! slot) as [buf|] eqn:Hb; [|done].
  apply rtc_once. eapply step_read; [done..|apply surjective_pairing].
Qed.
Lemma do_handle_steps s : failure s = None → rtc step1 s (do_handle s).
Proof.
  intros Hf. unfold do_handle. destruct (finished_reads s) as [|[[slot e] r] l] eqn:E; [done|].
  apply rtc_once. by apply (step_handle _ _ _ _ _ s slot e r [] l).
Qed.
Lemma do_copy_steps slot s : rtc step1 s (do_copy slot s).
Proof.
  unfold do_copy. destruct (events s !! slot) as [d|] eqn:He; [|done].
  destruct (slots s !! slot) as [buf|] eqn:Hb; [|done]. apply rtc_once. by eapply step_copy.
Qed.
End drive.

Local Abbreviation step0 := (stream_step sha0 file0 4096 true 1).

(** The first read comes in two pieces. *)
Definition stream1 : Stream :=
  do_handle true 1 (do_read file0 4096 0 [Xfer 2; Xfer 5000] (stream_start stage0 exts0 store0)).
Definition stream2 : Stream := do_copy 0 (do_handle true 1 (do_read file0 4096 0 [] (do_copy 0 stream1))).

Lemma stream1_reachable : rtc step0 (stream_start stage0 exts0 store0) stream1.
Proof. etransitivity; [by apply (do_read_steps _ _ _ _ 0 [Xfer 2; Xfer 5000])|]. apply do_handle_steps. by vm_compute. Qed.
Lemma stream2_reachable : rtc step0 (stream_start stage0 exts0 store0) stream2.
Proof.
  etransitivity; [apply stream1_reachable|]. etransitivity; [apply (do_copy_steps _ _ _ _ 0)|].
  etransitivity; [apply (do_read_steps _ _ _ _ 0 []); by vm_compute|].
  etransitivity; [apply do_handle_steps; by vm_compute|]. apply (do_copy_steps _ _ _ _ 0).
Qed.

Lemma setup0 : stream_setup 4096 exts0 store0 stage0.
Proof.
  split; [done|]. split; [repeat constructor|]. split.
  - intros e [->|[->|[]%not_elem_of_nil]%elem_of_cons]%elem_of_cons; exists (zeros 8); (split; [done|]); vm_compute; lia.
  - intros e1 e2 [->|[->|[]%not_elem_of_nil]%elem_of_cons]%elem_of_cons
      [->|[->|[]%not_elem_of_nil]%elem_of_cons]%elem_of_cons; first [by left|right; right; vm_compute; lia].
Qed.

Lemma stream_delivers_witness :
  memory stream2 = [z2b <$> [0; 0; 7; 8; 9; 5; 6; 0]] ∧
  (∀ e, e ∈ exts0 → slice (memory stream2) (e_dest e) = data file0 e ∧
     length (data file0 e) = Z.to_nat (e_length e) ∧ sha0 (data file0 e) = e_digest e) ∧
  total_ stream2 = foldr (λ e t, e_length e + t) 0 exts0.
Proof.
  split; [vm_compute; reflexivity|].
  apply (stream_delivers sha0 file0 4096 true 1 exts0 store0 stage0 stream2);
    [exact setup0|done|exact stream2_reachable|]. repeat split; vm_compute; reflexivity.
Defined.

Lemma stream_only_verified_witness :
  events stream1 ≠ ∅ ∧
  ∀ e, e ∈ exts0 → slice (memory stream1) (e_dest e) = slice store0 (e_dest e) ∨
    slice (memory stream1) (e_dest e) = data file0 e ∧ sha0 (data file0 e) = e_digest e.
Proof.
  split; [intros H; apply (f_equal (λ m : gmap nat Dest, m !! 0%nat)) in H; by vm_compute in H|].
  apply (stream_only_verified sha0 file0 4096 true 1 exts0 store0 stage0 stream1); [exact setup0|exact stream1_reachable].
Defined.

Lemma stream_progress_witness :
  work stream1 = 4%nat ∧
  (∀ n s', nsteps step0 n stream1 s' → (n ≤ work stream1)%nat) ∧
  (failure stream1 = None → ¬ stream_done stream1 → ∃ s', step0 stream1 s').
Proof.
  split; [vm_compute; reflexivity|].
  apply (stream_progress sha0 file0 4096 true 1 exts0 store0 stage0 stream1); [exact setup0|exact stream1_reachable].
Defined.
