(* ===== verification/NvmeArtifact.v ===== *)
(** Rank-local weight artifacts: [inventory], [publish], [inspect] and
    [restore] of src/runtime/nvme_loader/spark_nvme/artifact.py.  A tensor is
    its metadata and the storage it views; JSON canonicalization and SHA-256
    are parameters; the file system is the published artifacts by path. *)
From S2P Require Import Prelude Bytes File NvmeTransport.
From stdpp Require Import base list list_numbers gmap sets strings.
From Stdlib Require Import ZArith Lia.
#[local] Open Scope string_scope.
#[local] Open Scope list_scope.
#[local] Open Scope Z_scope.

(** * Tensors *)

(** What [inventory] looks at: [t_key] is the device and the storage's address. *)
Record Tensor := mkTensor {
  t_meta : bool; t_strided : bool; t_quantized : bool; t_key : string * Z; t_dtype : string;
  t_shape : list Z; t_stride : list Z; t_offset : Z }.

Record SchemaEntry := mkEntry {
  s_storage : nat; s_dtype : string; s_shape : list Z; s_stride : list Z; s_offset : Z; s_bytes : Z }.
#[export] Instance schema_entry_eq_dec : EqDecision SchemaEntry.
Proof. solve_decision. Defined.
Definition Schema : Type := list (string * SchemaEntry).

(** [storage.nbytes()] by storage. *)
Definition Storages : Type := gmap (string * Z) (list byte).
Definition nbytes (st : Storages) (k : string * Z) : Z := Z.of_nat (length (default [] (st !! k))).

(** One pass of [inventory]'s loop: the schema, the storages in the order they
    are first seen. *)
Definition inventory_one (st : Storages) (x : string * Tensor) (acc : Schema * list (string * Z)) :
    res (Schema * list (string * Z)) :=
  let '(name, t) := x in
  let '(schema, groups) := acc in
  if t_meta t || negb (t_strided t) || t_quantized t then Err ValueError else
  let groups := if decide (t_key t ∈ groups) then groups else groups ++ [t_key t] in
  let i := default 0%nat (fst <$> list_find (λ k, k = t_key t) groups) in
  Ok (schema ++ [(name, mkEntry i (t_dtype t) (t_shape t) (t_stride t) (t_offset t) (nbytes st (t_key t)))], groups).

Fixpoint inventory_loop (st : Storages) (ts : list (string * Tensor)) (acc : Schema * list (string * Z)) :
    res (Schema * list (string * Z)) :=
  match ts with
  | [] => Ok acc
  | x :: ts => acc ← inventory_one st x acc; inventory_loop st ts acc
  end.

(** [sorted(tensors.items())] *)
Fixpoint insert_name (x : string * Tensor) (l : list (string * Tensor)) : list (string * Tensor) :=
  match l with
  | [] => [x]
  | y :: l => if String.leb y.1 x.1 then y :: insert_name x l else x :: y :: l
  end.
Definition sort_names (l : list (string * Tensor)) : list (string * Tensor) :=
  fold_left (λ acc x, insert_name x acc) l [].

(** [inventory(model)] *)
Definition inventory (st : Storages) (ts : list (string * Tensor)) : res (Schema * list (string * Z)) :=
  inventory_loop st (sort_names ts) ([], []).

(** * Manifests *)

Record Chunk := mkChunk { ch_storage : Z; ch_start : Z; ch_length : Z; ch_offset : Z; ch_sha : string }.

(** [manifest.json], without its own checksum. *)
Record Manifest := mkManifest {
  version : Z; phase : string; contract : string; schema : Schema; chunk_bytes : Z;
  chunks : list Chunk; storage_bytes : list Z; loader_state : string; file_bytes : Z }.

Definition VERSION : Z := 1.
Definition PHASE : string := "before-native-postprocess".

(** A published directory: the manifest with its [artifact_id], the weights. *)
Record Artifact := mkArtifact { a_manifest : Manifest; a_id : string; a_weights : file }.
(** The artifacts by path, and what the next writes will do. *)
Record ArtFs := mkArtFs { arts : gmap string Artifact; a_kern : list sys }.

(** * Publishing *)

(** The file being written. *)
Record Writing := mkWriting { w_file : file; w_kern : list sys }.

(** [f.write(data)] of an unbuffered file. *)
Definition f_write (data : list byte) : M Writing nat := λ s,
  match xfer (w_kern s) (length data) with
  | (None, k) => (Err OSError, mkWriting (w_file s) k)
  | (Some n, k) => (Ok n, mkWriting (w_file s ++ take n data) k)
  end.
Definition f_tell : M Writing Z := gets (λ s, Z.of_nat (length (w_file s))).

(** [while view: written = f.write(view) ...] *)
Fixpoint write_view (fuel : nat) (view : list byte) : M Writing unit :=
  match view with
  | [] => mret tt
  | _ => match fuel with
         | O => raise OutOfFuel
         | S fuel =>
           written ← f_write view;
           if bool_decide (written = 0)%nat then raise OSError else write_view fuel (drop written view)
         end
  end.

Section artifact.
Context (sha256 : list byte → string) (digest : Manifest → string).

(** One chunk: its record, its bytes, and the padding to the next page. *)
Definition write_chunk (i : nat) (start : nat) (view : list byte) : M Writing Chunk :=
  off ← f_tell;
  write_view (length view) view;;
  f_write (zeros (Z.to_nat (align (Z.of_nat (length view)) - Z.of_nat (length view))));;
  mret (mkChunk (Z.of_nat i) (Z.of_nat start) (Z.of_nat (length view)) off (sha256 view)).

(** [range(0, n, step)] *)
Definition range_step (n step : nat) : list nat :=
  (λ i, i * step)%nat <$> seq 0 (Z.to_nat (- ((- Z.of_nat n) / Z.of_nat step))).

Definition write_storage (cb : nat) (i : nat) (raw : list byte) : M Writing (list Chunk) :=
  map_m (λ start, write_chunk i start (take cb (drop start raw))) (range_step (length raw) cb).

Fixpoint write_storages (cb : nat) (i : nat) (raws : list (list byte)) : M Writing (list Chunk) :=
  match raws with
  | [] => mret []
  | raw :: raws =>
    c ← write_storage cb i raw;
    cs ← write_storages cb (S i) raws;
    mret (c ++ cs)
  end.

(** [publish(model, path, contract, ...)]; [sync] tells whether the flushes and
    the rename succeed. *)
Definition publish (st : Storages) (ts : list (string * Tensor)) (path : string) (ctr : string) (cb : Z)
    (expected_schema : option Schema) (ls : string) (sync : bool) : M ArtFs Manifest := λ s,
  if bool_decide (is_Some (arts s !! path)) then (Err FileExistsError, s) else
  match inventory st ts with
  | Err e => (Err e, s)
  | Ok (sch, groups) =>
    if match expected_schema with Some x => negb (bool_decide (sch = x)) | None => false end then (Err ValueError, s)
    else if (cb <=? 0) || negb (cb mod 4096 =? 0) then (Err ValueError, s) else
    let raws := (λ k, default [] (st !! k)) <$> groups in
    match write_storages (Z.to_nat cb) 0 raws (mkWriting [] (a_kern s)) with
    | (Err e, w) => (Err e, mkArtFs (arts s) (w_kern w))
    | (Ok cs, w) =>
      let m := mkManifest VERSION PHASE ctr sch cb cs ((λ r : list byte, Z.of_nat (length r)) <$> raws) ls
                 (Z.of_nat (length (w_file w))) in
      if sync then (Ok m, mkArtFs (<[path := mkArtifact m (digest m) (w_file w)]> (arts s)) (w_kern w))
      else (Err OSError, mkArtFs (arts s) (w_kern w))
    end
  end.

(** * Inspecting *)

(** The coverage loop of [inspect]. *)
Fixpoint coverage (cb : Z) (cs : list Chunk) (cursors : list Z) (file_cursor : Z) : res (list Z * Z) :=
  match cs with
  | [] => Ok (cursors, file_cursor)
  | e :: cs =>
    let i := ch_storage e in let n := ch_length e in
    if negb ((0 <=? i) && (i <? Z.of_nat (length cursors))) ||
       negb (ch_start e =? default 0 (cursors !! Z.to_nat i)) then Err ValueError
    else if negb ((0 <? n) && (n <=? cb)) || negb (ch_offset e =? file_cursor) then Err ValueError
    else coverage cb cs (<[Z.to_nat i := default 0 (cursors !! Z.to_nat i) + n]> cursors) (file_cursor + align n)
  end.

(** [inspect(path, contract)] on the directory's contents. *)
Definition inspect (a : Artifact) (ctr : string) : res Manifest :=
  let m := a_manifest a in
  if negb (bool_decide (digest m = a_id a)) then Err ValueError
  else if negb (version m =? VERSION) || negb (bool_decide (phase m = PHASE)) then Err ValueError
  else if negb (bool_decide (contract m = ctr)) then Err ValueError
  else if negb (Z.of_nat (length (a_weights a)) =? file_bytes m) then Err ValueError
  else
    end_ ← coverage (chunk_bytes m) (chunks m) (replicate (length (storage_bytes m)) 0) 0;
    if negb (bool_decide (end_.1 = storage_bytes m)) || negb (end_.2 =? file_bytes m) then Err ValueError
    else Ok m.

(** * Restoring *)

(** The extents [restore] streams, into the storages of [device]. *)
Definition extent_of (device : Z) (c : Chunk) : Extent :=
  mkExtent (ch_offset c) (ch_length c) (ch_sha c)
    (mkDest (Z.to_nat (ch_storage c)) (Z.to_nat (ch_start c)) (ch_length c) true device).

(** [restore(model, path, contract)] up to the call of [stream]. *)
Definition restore_plan (st : Storages) (ts : list (string * Tensor)) (a : Artifact) (ctr : string) (device : Z) :
    res (list Extent * list (list byte)) :=
  m ← inspect a ctr;
  inv ← inventory st ts;
  let raws := (λ k, default [] (st !! k)) <$> inv.2 in
  if negb (bool_decide (inv.1 = schema m)) ||
     negb (bool_decide ((λ r : list byte, Z.of_nat (length r)) <$> raws = storage_bytes m)) then Err ValueError
  else Ok (extent_of device <$> chunks m, raws).
End artifact.
