(* ===== verification/NvmeArtifactProps.v ===== *)
(** What an artifact guarantees: an accepted manifest tiles every storage
    exactly, and publishing then restoring gives every storage back. *)
From S2P Require Import Prelude Bytes File NvmeTransport NvmeTransportInv NvmeTransportProps NvmeArtifact.
From stdpp Require Import base list list_numbers gmap sets strings relations.
From Stdlib Require Import ZArith Lia.
#[local] Open Scope string_scope.
#[local] Open Scope list_scope.
#[local] Open Scope Z_scope.

(** ** The coverage loop *)

Definition chunk_dest (c : Chunk) : Dest := e_dest (extent_of 0 c).

Section coverage.
Context (cb : Z).

(** What the loop establishes of its chunks. *)
Record covered (cs : list Chunk) (cursors cursors' : list Z) (fc fc' : Z) : Prop := {
  cov_len : length cursors' = length cursors;
  cov_grow i x : cursors !! i = Some x → ∃ y, cursors' !! i = Some y ∧ x ≤ y;
  cov_fc : fc ≤ fc' ∧ (ALIGN | fc' - fc);
  cov_chunk c : c ∈ cs → 0 ≤ ch_storage c ∧ 0 < ch_length c ≤ cb ∧
    (∃ x y, cursors !! Z.to_nat (ch_storage c) = Some x ∧ cursors' !! Z.to_nat (ch_storage c) = Some y ∧
       x ≤ ch_start c ∧ ch_start c + ch_length c ≤ y) ∧
    fc ≤ ch_offset c ∧ (ALIGN | ch_offset c - fc) ∧ ch_offset c + align (ch_length c) ≤ fc';
  cov_apart c1 c2 : c1 ∈ cs → c2 ∈ cs → c1 = c2 ∨ ch_storage c1 ≠ ch_storage c2 ∨
    ch_start c1 + ch_length c1 ≤ ch_start c2 ∨ ch_start c2 + ch_length c2 ≤ ch_start c1;
  cov_all i x y p : cursors !! i = Some x → cursors' !! i = Some y → x ≤ p < y →
    ∃ c, c ∈ cs ∧ ch_storage c = Z.of_nat i ∧ ch_start c ≤ p < ch_start c + ch_length c }.

Lemma align_pos n : 0 < n → 0 < align n ∧ n ≤ align n ∧ (ALIGN | align n).
Proof. intros Hn. destruct (align_spec n ltac:(lia)) as (H1&H2&_). split; [lia|done]. Qed.

Lemma coverage_covered cs cursors fc cursors' fc' :
  coverage cb cs cursors fc = Ok (cursors', fc') → covered cs cursors cursors' fc fc'.
Proof.
  revert cursors fc. induction cs as [|c cs IH]; intros cursors fc; cbn [coverage].
  { intros [= -> ->]. split; try done; intros; try by apply not_elem_of_nil in H; try (eexists; split; [done|lia]).
    - eexists. split; [done|lia].
    - split; [lia|]. exists 0. lia.
    - simplify_eq. lia. }
  destruct (negb _ || negb _) eqn:E1; [done|]. destruct (negb _ || negb _) eqn:E2 in |- *; [done|].
  apply orb_false_iff in E1 as [E1 E1']. apply negb_false_iff in E1, E1'. apply andb_true_iff in E1 as [Hi0 Hi1].
  apply orb_false_iff in E2 as [E2 E2']. apply negb_false_iff in E2, E2'. apply andb_true_iff in E2 as [Hn0 Hn1].
  apply Z.leb_le in Hi0, Hn1. apply Z.ltb_lt in Hi1, Hn0. apply Z.eqb_eq in E1', E2'.
  set (i := Z.to_nat (ch_storage c)) in *.
  destruct (lookup_lt_is_Some_2 cursors i) as [x Hx]; [lia|]. rewrite Hx in E1' |- *. simpl in E1' |- *.
  destruct (align_pos (ch_length c) Hn0) as (Ha0&Ha1&Ha2).
  intros H. specialize (IH _ _ H). destruct IH as [L G [F1 F2] C A V]. rewrite length_insert in L.
  assert (Hg : ∀ j z, cursors !! j = Some z → ∃ y, cursors' !! j = Some y ∧ z ≤ y ∧ (j = i → z + ch_length c ≤ y)).
  { intros j z Hz. destruct (decide (j = i)) as [->|Hne].
    - destruct (G i (x + ch_length c)) as (y&Hy&Hle); [apply list_lookup_insert_eq; by eapply lookup_lt_Some|].
      simplify_eq. exists y. split; [done|]. split; [lia|]. lia.
    - destruct (G j z) as (y&Hy&Hle); [by rewrite list_lookup_insert_ne|]. exists y. split; [done|]. split; [done|]. by intros ->. }
  split.
  - done.
  - intros j z Hz. destruct (Hg j z Hz) as (y&?&?&_). by exists y.
  - split; [lia|]. destruct F2 as [k Hk], Ha2 as [k2 Hk2]. exists (k + k2). lia.
  - intros c' [->|Hc]%elem_of_cons.
    + split; [lia|]. split; [lia|]. split.
      { destruct (Hg i x Hx) as (y&Hy&_&Hyi). exists x, y. split; [done|]. split; [done|]. split; [lia|]. specialize (Hyi eq_refl). lia. }
      split; [lia|]. split; [exists 0; lia|lia].
    + destruct (C c' Hc) as (C1&C2&(x'&y'&Hx'&Hy'&C3&C4)&C5&C6&C7). split; [done|]. split; [done|]. split.
      { destruct (decide (Z.to_nat (ch_storage c') = i)) as [Heq|Hne].
        - rewrite Heq, list_lookup_insert_eq in Hx' by by eapply lookup_lt_Some. injection Hx' as <-.
          exists x, y'. rewrite Heq in *. split; [done|]. split; [done|]. lia.
        - rewrite list_lookup_insert_ne in Hx' by done. by exists x', y'. }
      split; [lia|]. split; [|done]. destruct C6 as [k Hk], Ha2 as [k2 Hk2]. exists (k + k2). lia.
  - assert (Hlater : ∀ c', c' ∈ cs → ch_storage c ≠ ch_storage c' ∨ ch_start c + ch_length c ≤ ch_start c').
    { intros c' Hc. destruct (C c' Hc) as (C1&_&(x'&y'&Hx'&_&C3&_)&_). destruct (decide (ch_storage c = ch_storage c')) as [Heq|]; [right|by left].
      unfold i in Hx'. rewrite Heq in Hx'. rewrite list_lookup_insert_eq in Hx'; [injection Hx' as <-; lia|].
      eapply lookup_lt_Some. unfold i in Hx. rewrite Heq in Hx. exact Hx. }
    intros c1 c2 [->|H1]%elem_of_cons [->|H2]%elem_of_cons.
    + by left.
    + destruct (Hlater c2 H2); auto.
    + destruct (Hlater c1 H1); auto.
    + by apply A.
  - intros j z y p Hz Hy Hp. destruct (decide (j = i)) as [->|Hne].
    + assert (z = x) as -> by congruence. destruct (Z.lt_ge_cases p (x + ch_length c)) as [Hlt|Hge].
      * exists c. split; [by left|]. split; [unfold i; lia|lia].
      * destruct (V i (x + ch_length c) y p) as (c'&?&?&?); [apply list_lookup_insert_eq; by eapply lookup_lt_Some|done|lia|].
        exists c'. split; [by right|done].
    + destruct (V j z y p) as (c'&?&?&?); [by rewrite list_lookup_insert_ne|done|lia|]. exists c'. split; [by right|done].
Qed.
End coverage.

(** ** Accepted manifests *)

Section artifact.
Context (sha256 : list byte → string) (digest : Manifest → string).
Local Abbreviation sizes := (fmap (λ r : list byte, Z.of_nat (length r))).

(** The chunks of an accepted artifact tile the storages and the file. *)
Lemma inspect_covered a ctr m :
  inspect digest a ctr = Ok m →
  m = a_manifest a ∧ contract m = ctr ∧ digest m = a_id a ∧
  covered (chunk_bytes m) (chunks m) (replicate (length (storage_bytes m)) 0) (storage_bytes m) 0 (file_bytes m) ∧
  file_bytes m = Z.of_nat (length (a_weights a)).
Proof.
  unfold inspect. case_bool_decide as Hd; [|done]. destruct (negb _ || negb _); [done|].
  case_bool_decide as Hc; [|done]. cbn [negb]. destruct (Z.eqb_spec (Z.of_nat (length (a_weights a))) (file_bytes (a_manifest a))) as [Hl|]; [|done].
  cbn [negb]. intros H. apply res_bind_ok in H as ([cs fc]&E&H). cbn [fst snd] in H.
  case_bool_decide as Hcs; [|done]. destruct (Z.eqb_spec fc (file_bytes (a_manifest a))) as [->|]; [|done].
  injection H as <-. apply coverage_covered in E. subst cs. by split_and!.
Qed.

Lemma zeros_lookup n i x : replicate n 0 !! i = Some x → x = 0.
Proof. by intros [-> _]%lookup_replicate_1. Qed.

(** The extents [restore] will stream, when it gets that far. *)
Lemma restore_plan_inv st ts a ctr device exts raws :
  restore_plan digest st ts a ctr device = Ok (exts, raws) →
  inspect digest a ctr = Ok (a_manifest a) ∧ exts = extent_of device <$> chunks (a_manifest a) ∧
  sizes raws = storage_bytes (a_manifest a) ∧ ∃ groups, inventory st ts = Ok (schema (a_manifest a), groups) ∧
  raws = (λ k, default [] (st !! k)) <$> groups.
Proof.
  unfold restore_plan. intros H. apply res_bind_ok in H as (m&E&H). destruct (inspect_covered _ _ _ E) as (->&_).
  apply res_bind_ok in H as ([sch groups]&E2&H). cbn [fst snd] in H.
  case_bool_decide as H1; [|done]. case_bool_decide as H2; [|done]. cbn [negb orb] in H.
  apply Ok_inj, pair_eq in H as [<- <-]. subst sch. split; [done|]. split; [done|]. split; [done|]. by exists groups.
Qed.

Lemma storage_lookup (raws : list (list byte)) i y :
  sizes raws !! i = Some y → ∃ m, raws !! i = Some m ∧ y = Z.of_nat (length m).
Proof. rewrite list_lookup_fmap. destruct (raws !! i) as [m|]; [|done]. intros [= <-]. by exists m. Qed.

(** Before a byte is written, [restore] knows that the artifact is for
    this contract and schema, and that its extents are page aligned in the
    file, no longer than a chunk, inside the file, inside the storages,
    pairwise apart, and together cover every byte of every storage. *)
Theorem artifact_inspect_sound st ts a ctr device exts raws :
  restore_plan digest st ts a ctr device = Ok (exts, raws) →
  contract (a_manifest a) = ctr ∧ (∃ groups, inventory st ts = Ok (schema (a_manifest a), groups)) ∧
  (∀ e, e ∈ exts → (ALIGN | e_offset e) ∧ 0 < e_length e ≤ chunk_bytes (a_manifest a) ∧
     0 ≤ e_offset e ∧ e_offset e + e_length e ≤ Z.of_nat (length (a_weights a)) ∧
     in_mem raws (e_dest e) ∧ d_numel (e_dest e) = e_length e ∧ d_device (e_dest e) = device) ∧
  (∀ e1 e2, e1 ∈ exts → e2 ∈ exts → e1 = e2 ∨ apart (e_dest e1) (e_dest e2)) ∧
  (∀ i m p, raws !! i = Some m → (p < length m)%nat →
     ∃ e, e ∈ exts ∧ d_store (e_dest e) = i ∧ (d_start (e_dest e) ≤ p < d_start (e_dest e) + Z.to_nat (d_numel (e_dest e)))%nat).
Proof.
  intros H. destruct (restore_plan_inv _ _ _ _ _ _ _ H) as (Hi&->&Hs&groups&Hg&_).
  destruct (inspect_covered _ _ _ Hi) as (_&Hctr&_&[L G [F1 F2] C A V]&Hfb).
  set (m := a_manifest a) in *. split; [done|]. split; [by exists groups|].
  assert (Hc0 : ∀ c, c ∈ chunks m → 0 ≤ ch_storage c ∧ 0 < ch_length c ∧ 0 ≤ ch_start c).
  { intros c Hc. destruct (C c Hc) as (C1&C2&(x&y&Hx&_&C3&_)&_). apply zeros_lookup in Hx. lia. }
  split_and!.
  - intros e (c&->&Hc)%list_elem_of_fmap. cbn [extent_of e_offset e_length e_dest d_numel d_device].
    destruct (C c Hc) as (C1&C2&(x&y&Hx&Hy&C3&C4)&C5&[k Hk]&C7). destruct (Hc0 c Hc) as (_&_&Hst).
    destruct (align_pos (ch_length c) ltac:(lia)) as (_&Hge&_).
    split; [exists k; lia|]. split; [lia|]. split; [lia|]. split; [lia|]. split; [|done].
    rewrite <- Hs in Hy. apply storage_lookup in Hy as (r&Hr&->). exists r. cbn [d_store d_start d_numel]. split; [done|lia].
  - intros e1 e2 (c1&->&H1)%list_elem_of_fmap (c2&->&H2)%list_elem_of_fmap.
    destruct (Hc0 c1 H1) as (?&?&?), (Hc0 c2 H2) as (?&?&?).
    destruct (A c1 c2 H1 H2) as [->|[Hne|[Hle|Hle]]]; [by left|right..]; unfold apart; cbn [extent_of e_dest d_store d_start d_numel].
    + left. lia.
    + right. left. lia.
    + right. right. lia.
  - intros i r p Hr Hp. assert (Hy : storage_bytes m !! i = Some (Z.of_nat (length r))).
    { rewrite <- Hs, list_lookup_fmap, Hr. done. }
    destruct (V i 0 (Z.of_nat (length r)) (Z.of_nat p)) as (c&Hc&Hci&Hcp); [|done|lia|].
    { apply lookup_replicate_2. by eapply lookup_lt_Some. }
    exists (extent_of device c). split; [apply list_elem_of_fmap; by exists c|]. cbn [extent_of e_dest d_store d_start d_numel].
    destruct (Hc0 c Hc) as (?&?&?). lia.
Qed.

(** ** Publishing *)

(** The file grows, and a system that never cuts a write short stays so. *)
Definition grown (w w' : Writing) (x : list byte) : Prop :=
  w_file w' = w_file w ++ x ∧ (w_kern w = [] → w_kern w' = []).

Lemma f_write_grown d w n w' : f_write d w = (Ok n, w') →
  grown w w' (take n d) ∧ (n ≤ length d)%nat ∧ (w_kern w = [] → n = length d).
Proof.
  unfold f_write, grown, xfer. destruct (w_kern w) as [|[m|] k]; intros [= <- <-]; simpl.
  - rewrite firstn_all. split; [done|]. split; [lia|done].
  - split; [done|]. split; [lia|done].
Qed.

Lemma write_view_grown fuel view w w' : write_view fuel view w = (Ok tt, w') → grown w w' view.
Proof.
  revert view w. induction fuel as [|fuel IH]; intros [|b view] w; cbn [write_view]; try done.
  1,2: intros [= <-]; unfold grown; by rewrite app_nil_r.
  intros (n&w1&E&H)%M_bind_ok. case_bool_decide; [done|]. apply f_write_grown in E as ((E1&E2)&Hn&_).
  apply IH in H as (H1&H2). split; [|tauto]. by rewrite H1, E1, <- app_assoc, take_drop.
Qed.

(** Every write moves at least a byte, so the loop ends. *)
Lemma write_view_ends fuel view w : (length view ≤ fuel)%nat → (write_view fuel view w).1 ≠ Err OutOfFuel.
Proof.
  revert view w. induction fuel as [|fuel IH]; intros [|b view] w Hf; try done; [simpl in Hf; lia|].
  cbn [write_view]. unfold mbind, M_bind. destruct (f_write (b :: view) w) as [[n|e] w1] eqn:E.
  - case_bool_decide; [done|]. apply IH. rewrite length_drop. simpl in *. lia.
  - unfold f_write in E. destruct (xfer _ _) as [[?|] ?]; by simplify_eq.
Qed.

(** A chunk's bytes stand in the file at its offset. *)
Definition chunk_at (raws : list (list byte)) (f : file) (c : Chunk) : Prop :=
  ∃ i raw, ch_storage c = Z.of_nat i ∧ raws !! i = Some raw ∧ 0 ≤ ch_start c ∧ 0 ≤ ch_length c ∧
    0 ≤ ch_offset c ∧ ch_offset c + ch_length c ≤ Z.of_nat (length f) ∧
    file_read f (Z.to_nat (ch_offset c)) (Z.to_nat (ch_length c)) =
    file_read raw (Z.to_nat (ch_start c)) (Z.to_nat (ch_length c)) ∧
    ch_sha c = sha256 (file_read raw (Z.to_nat (ch_start c)) (Z.to_nat (ch_length c))).

Lemma chunk_at_app raws f x c : chunk_at raws f c → chunk_at raws (f ++ x) c.
Proof.
  intros (i&raw&H1&H2&H3&H4&H5&H6&H7&H8). exists i, raw. rewrite length_app. split_and!; try done; [lia|].
  rewrite <- H7. unfold file_read. rewrite drop_app_le by lia. rewrite take_app_le; [done|]. rewrite length_drop. lia.
Qed.

Lemma write_chunk_grown i start view w c w' :
  write_chunk sha256 i start view w = (Ok c, w') →
  c = mkChunk (Z.of_nat i) (Z.of_nat start) (Z.of_nat (length view)) (Z.of_nat (length (w_file w))) (sha256 view) ∧
  ∃ n, grown w w' (view ++ take n (zeros (Z.to_nat (align (Z.of_nat (length view)) - Z.of_nat (length view))))) ∧
    (w_kern w = [] → n = length (zeros (Z.to_nat (align (Z.of_nat (length view)) - Z.of_nat (length view))))).
Proof.
  unfold write_chunk, f_tell. autorewrite with monad. intros ([]&w1&E1&H)%M_bind_ok.
  apply write_view_grown in E1 as (E1&E1'). apply M_bind_ok in H as (n&w2&E2&H). injection H as <- <-.
  apply f_write_grown in E2 as ((E2&E2')&_&E2''). split; [done|]. exists n. unfold grown.
  rewrite E2, E1, <- app_assoc. tauto.
Qed.

Definition block (cb : nat) (raw : list byte) (start : nat) : list byte := take cb (drop start raw).
Definition write_blocks (cb i : nat) (raw : list byte) (j n : nat) : M Writing (list Chunk) :=
  map_m (λ start, write_chunk sha256 i start (block cb raw start)) ((λ i, i * cb)%nat <$> seq j n).

Lemma write_blocks_at cb raws i raw j n w cs w' :
  raws !! i = Some raw → (∀ k, k < j + n → k * cb < length raw)%nat →
  write_blocks cb i raw j n w = (Ok cs, w') →
  (∃ x, grown w w' x) ∧ ∀ c, c ∈ cs → chunk_at raws (w_file w') c.
Proof.
  intros Hi. revert j w cs. induction n as [|n IH]; intros j w cs Hk; unfold write_blocks in *; cbn [seq fmap list_fmap map_m].
  { intros [= <- <-]. split; [|by intros c Hc%not_elem_of_nil]. exists []. unfold grown. by rewrite app_nil_r. }
  intros (c&w1&E&H)%M_bind_ok. apply M_bind_ok in H as (cs'&w2&E2&H). injection H as <- <-.
  apply IH in E2 as ((x&Hg1&Hg2)&Hat); [|intros k Hlt; apply Hk; lia].
  apply write_chunk_grown in E as (->&p&(Hc1&Hc2)&_). split.
  { eexists. split; [rewrite Hg1, Hc1, <- app_assoc; done|tauto]. }
  intros c [->|Hc]%elem_of_cons; [|by apply Hat]. rewrite Hg1. apply chunk_at_app.
  specialize (Hk j ltac:(lia)). set (v := block cb raw (j * cb)) in *.
  exists i, raw. cbn [ch_storage ch_start ch_length ch_offset ch_sha]. rewrite !Nat2Z.id, Hc1, !length_app.
  assert (Hv : file_read raw (j * cb) (length v) = v).
  { unfold v, block, file_read. rewrite length_take, <- take_take, firstn_all. done. }
  split_and!; try done; try lia.
  - rewrite Hv. unfold file_read. rewrite drop_app_length. rewrite take_app_le by lia. by rewrite firstn_all.
  - by rewrite Hv.
Qed.

Lemma pad_length n : 0 ≤ n → n + Z.of_nat (length (zeros (Z.to_nat (align n - n)))) = align n.
Proof. intros Hn. destruct (align_spec n Hn) as (?&_). rewrite zeros_length. lia. Qed.

(** With whole writes, the coverage loop accepts what was written. *)
Lemma write_blocks_coverage cb i raw rest j n cursors w cs w' :
  (0 < cb)%nat → (∀ k, k < j + n → k * cb < length raw)%nat → w_kern w = [] →
  cursors !! i = Some (Z.of_nat (Nat.min (j * cb) (length raw))) →
  write_blocks cb i raw j n w = (Ok cs, w') →
  w_kern w' = [] ∧
  coverage (Z.of_nat cb) (cs ++ rest) cursors (Z.of_nat (length (w_file w))) =
  coverage (Z.of_nat cb) rest (<[i := Z.of_nat (Nat.min ((j + n) * cb) (length raw))]> cursors) (Z.of_nat (length (w_file w'))).
Proof.
  intros Hcb. revert j w cs cursors. induction n as [|n IH]; intros j w cs cursors Hk Hw Hi; unfold write_blocks in *; cbn [seq fmap list_fmap map_m].
  { intros [= <- <-]. split; [done|]. rewrite Nat.add_0_r, list_insert_id by done. done. }
  intros (c&w1&E&H)%M_bind_ok. apply M_bind_ok in H as (cs'&w2&E2&H). injection H as <- <-.
  apply write_chunk_grown in E as (->&p&(Hc1&Hc2)&Hp). specialize (Hp Hw). subst p. rewrite firstn_all in Hc1.
  pose proof (Hk j ltac:(lia)) as Hj. set (v := block cb raw (j * cb)) in *.
  assert (Hv : length v = Nat.min cb (length raw - j * cb)) by (unfold v, block; by rewrite length_take, length_drop).
  pose proof (lookup_lt_Some _ _ _ Hi) as Hlt.
  destruct (IH (S j) w1 cs' (<[i := Z.of_nat (Nat.min (S j * cb) (length raw))]> cursors)) as (H1&H2).
  { intros k Hkk. apply Hk. lia. } { tauto. } { by apply list_lookup_insert_eq. } { done. }
  split; [done|]. rewrite list_insert_insert_eq in H2. rewrite <- (Nat.add_succ_comm j n), <- H2.
  cbn [app coverage ch_storage ch_length ch_start ch_offset]. rewrite !Nat2Z.id, Hi. cbn [default from_option].
  replace (Nat.min (j * cb) (length raw)) with (j * cb)%nat by lia. rewrite !Z.eqb_refl.
  rewrite (proj2 (Z.leb_le 0 (Z.of_nat i))), (proj2 (Z.ltb_lt (Z.of_nat i) _)) by lia.
  rewrite (proj2 (Z.leb_le (Z.of_nat (length v)) _)), (proj2 (Z.ltb_lt 0 (Z.of_nat (length v)))) by lia. cbn [andb negb orb].
  f_equal; [f_equal; unfold id; lia|]. rewrite Hc1, !length_app. pose proof (pad_length (Z.of_nat (length v))). lia.
Qed.

Lemma range_step_blocks len cb : (0 < cb)%nat →
  let n := Z.to_nat (- ((- Z.of_nat len) / Z.of_nat cb)) in
  (∀ k, k < n → k * cb < len)%nat ∧ (len ≤ n * cb)%nat.
Proof.
  intros Hcb n. destruct (round_up_spec (Z.of_nat len) (Z.of_nat cb) ltac:(lia)) as [[H1 H2] _]. unfold round_up in *.
  set (q := - (- Z.of_nat len / Z.of_nat cb)) in *. split; [|nia]. intros k Hk. nia.
Qed.

Lemma write_storages_at cb done_ raws w cs w' : (0 < cb)%nat →
  write_storages sha256 cb (length done_) raws w = (Ok cs, w') →
  (∃ x, grown w w' x) ∧ ∀ c, c ∈ cs → chunk_at (done_ ++ raws) (w_file w') c.
Proof.
  intros Hcb. revert done_ w cs. induction raws as [|raw raws IH]; intros dn w cs; cbn [write_storages].
  { intros [= <- <-]. split; [|by intros c Hc%not_elem_of_nil]. exists []. unfold grown. by rewrite app_nil_r. }
  intros (c&w1&E&H)%M_bind_ok. apply M_bind_ok in H as (cs'&w2&E2&H). injection H as <- <-.
  destruct (range_step_blocks (length raw) cb Hcb) as (Hb&_).
  apply (write_blocks_at cb (dn ++ raw :: raws) (length dn)) in E as ((x1&Hg1&Hg1')&Hat1); [|by apply list_lookup_middle|exact Hb].
  specialize (IH (dn ++ [raw]) w1 cs'). rewrite length_app, Nat.add_1_r in IH. apply IH in E2 as ((x2&Hg2&Hg2')&Hat2).
  rewrite <- app_assoc in Hat2. split; [eexists; split; [rewrite Hg2, Hg1, <- app_assoc; done|tauto]|].
  intros d [Hd|Hd]%elem_of_app; [|by apply Hat2]. rewrite Hg2. by apply chunk_at_app, Hat1.
Qed.

Lemma write_storages_coverage cb done_ raws w cs w' : (0 < cb)%nat → w_kern w = [] →
  write_storages sha256 cb (length done_) raws w = (Ok cs, w') →
  coverage (Z.of_nat cb) cs (done_ ++ replicate (length raws) 0) (Z.of_nat (length (w_file w))) =
  Ok (done_ ++ sizes raws, Z.of_nat (length (w_file w'))).
Proof.
  intros Hcb. revert done_ w cs. induction raws as [|raw raws IH]; intros dn w cs Hw; cbn [write_storages].
  { intros [= <- <-]. cbn [coverage]. done. }
  intros (c&w1&E&H)%M_bind_ok. apply M_bind_ok in H as (cs'&w2&E2&H). injection H as <- <-.
  destruct (range_step_blocks (length raw) cb Hcb) as (Hb&Hge).
  eapply (write_blocks_coverage cb (length dn) raw cs' 0 _ (dn ++ replicate (length (raw :: raws)) 0)) in E as (Hk&->); [|done|exact Hb|done|by apply list_lookup_middle].
  cbn [length replicate]. rewrite insert_app_r_alt, Nat.sub_diag by lia. cbn [insert list_insert].
  rewrite Nat.add_0_l, Nat.min_r by done. rewrite cons_middle, app_assoc.
  specialize (IH (dn ++ [Z.of_nat (length raw)]) w1 cs' Hk). rewrite length_app, Nat.add_1_r in IH. rewrite IH by done.
  by rewrite <- app_assoc.
Qed.

(** ** What publishing does *)

Definition raws_of (st : Storages) (groups : list (string * Z)) : list (list byte) := (λ k, default [] (st !! k)) <$> groups.

Lemma publish_inv st ts path ctr cb ex ls sync fs m fs' :
  publish sha256 digest st ts path ctr cb ex ls sync fs = (Ok m, fs') →
  arts fs !! path = None ∧ 0 < cb ∧ cb mod 4096 = 0 ∧ ∃ groups w, inventory st ts = Ok (schema m, groups) ∧
  write_storages sha256 (Z.to_nat cb) 0 (raws_of st groups) (mkWriting [] (a_kern fs)) = (Ok (chunks m), w) ∧
  storage_bytes m = sizes (raws_of st groups) ∧ chunk_bytes m = cb ∧ contract m = ctr ∧ version m = VERSION ∧
  phase m = PHASE ∧ file_bytes m = Z.of_nat (length (w_file w)) ∧
  arts fs' = <[path := mkArtifact m (digest m) (w_file w)]> (arts fs).
Proof.
  unfold publish. case_bool_decide as Hp; [done|]. destruct (inventory st ts) as [[sch groups]|e] eqn:Ei; [|done].
  destruct (match ex with Some _ => _ | None => _ end); [done|].
  destruct ((cb <=? 0) || negb (cb mod 4096 =? 0)) eqn:Ecb; [done|].
  apply orb_false_iff in Ecb as [E1%Z.leb_gt E2%negb_false_iff%Z.eqb_eq].
  fold (raws_of st groups). destruct (write_storages _ _ _ _ _) as [[cs|e] w] eqn:Ew; [|done].
  destruct sync; [|done]. intros [= <- <-]. split; [by apply eq_None_not_Some|]. split; [done|]. split; [done|].
  exists groups, w. by split_and!.
Qed.

Lemma map_m_no_fuel {S A B} (f : A → M S B) l s :
  (∀ x s, x ∈ l → (f x s).1 ≠ Err OutOfFuel) → (map_m f l s).1 ≠ Err OutOfFuel.
Proof.
  revert s. induction l as [|x l IH]; intros s Hf; [done|]. cbn [map_m]. unfold mbind, M_bind.
  specialize (Hf x s ltac:(left)) as Hx. destruct (f x s) as [[y|e] s1]; [|by intros [= ->]].
  specialize (IH s1 ltac:(intros; apply Hf; by right)). destruct (map_m f l s1) as [[ys|e] s2]; [done|by intros [= ->]].
Qed.

Lemma write_storages_ends cb i raws w : (write_storages sha256 cb i raws w).1 ≠ Err OutOfFuel.
Proof.
  revert i w. induction raws as [|raw raws IH]; intros i w; [done|]. cbn [write_storages]. unfold mbind, M_bind at 1.
  pose proof (map_m_no_fuel (λ start, write_chunk sha256 i start (take cb (drop start raw))) (range_step (length raw) cb) w) as H.
  unfold write_storage. destruct (map_m _ _ w) as [[c|e] w1]; last first.
  { apply H. intros x s _. unfold write_chunk, f_tell. autorewrite with monad. unfold mbind, M_bind.
    pose proof (write_view_ends (length (take cb (drop x raw))) (take cb (drop x raw)) s ltac:(done)) as Hv.
    destruct (write_view _ _ s) as [[]  s1]; [|by intros [= ->]]. unfold f_write. by destruct (xfer _ _) as [[?|] ?]. }
  unfold mbind, M_bind. specialize (IH (S i) w1). destruct (write_storages _ _ _ _ w1) as [[cs|e] w2]; [done|by intros [= ->]].
Qed.

(** Publishing is atomic and always ends: it refuses an existing path, a
    failure anywhere (tensors that cannot be exported, a changed schema, a
    write, a flush or the rename) leaves the published artifacts as they
    were, and success adds one artifact at the path and nothing else. *)
Theorem artifact_publish_atomic st ts path ctr cb ex ls sync fs :
  let '(r, fs') := publish sha256 digest st ts path ctr cb ex ls sync fs in
  (is_Some (arts fs !! path) → r = Err FileExistsError) ∧
  match r with
  | Ok m => arts fs !! path = None ∧ sync = true ∧ ∃ w, arts fs' = <[path := mkArtifact m (digest m) w]> (arts fs)
  | Err e => arts fs' = arts fs ∧ e ≠ OutOfFuel
  end.
Proof.
  destruct (publish _ _ _ _ _ _ _ _ _ _ fs) as [r fs'] eqn:E. unfold publish in E.
  case_bool_decide as Hp; [by simplify_eq|].
  assert (Hinv : inventory st ts ≠ Err OutOfFuel).
  { unfold inventory. generalize (sort_names ts), (@nil (string * SchemaEntry), @nil (string * Z)). clear.
    induction l as [|[name t] l IH]; intros [sch g]; [done|]. cbn [inventory_loop]. unfold inventory_one, mbind, res_bind.
    destruct (_ || _); [done|]. apply IH. }
  destruct (inventory st ts) as [[sch groups]|e] eqn:Ei; [|simplify_eq; split; [done|]; split; [done|congruence]].
  destruct (match ex with Some _ => _ | None => _ end); [by simplify_eq|].
  destruct (_ || _); [by simplify_eq|]. pose proof (write_storages_ends (Z.to_nat cb) 0 ((λ k, default [] (st !! k)) <$> groups) (mkWriting [] (a_kern fs))) as Hf.
  destruct (write_storages _ _ _ _ _) as [[cs|e] w] eqn:Ew; [|simplify_eq; split; [done|]; split; [done|]; intros ->; by apply Hf].
  split; [done|]. destruct sync; simplify_eq; [|done]. split; [by apply eq_None_not_Some|]. split; [done|]. by exists (w_file w).
Qed.

(** Bytes read at the same place out of two storages. *)
Lemma slice_lookup (x y : list byte) s n p :
  file_read x s n = file_read y s n → (s ≤ p < s + n)%nat → x !! p = y !! p.
Proof.
  intros H Hp. apply (f_equal (.!! (p - s)%nat)) in H. unfold file_read in H.
  rewrite !lookup_take_lt, !lookup_drop in H by lia. by replace (s + (p - s))%nat with p in H by lia.
Qed.

(** C19: Restoring gives back what was published.  The published file of a
    [publish] that met only whole writes passes [inspect]; and whatever writes
    [publish] met, if [restore] accepts the artifact and its streaming
    completes, in any order of reads and copies, then every storage of the
    restored model holds exactly the published bytes. *)
Theorem artifact_roundtrip st ts path ctr cb ex ls sync fs m fs' :
  publish sha256 digest st ts path ctr cb ex ls sync fs = (Ok m, fs') →
  ∃ a groups, arts fs' !! path = Some a ∧ a_manifest a = m ∧ inventory st ts = Ok (schema m, groups) ∧
  (a_kern fs = [] → inspect digest a ctr = Ok m) ∧
  ∀ st' ts' device cuda exts raws buffers s,
    restore_plan digest st' ts' a ctr device = Ok (exts, raws) →
    buffers ≠ [] → Forall (λ b : list byte, Z.of_nat (length b) = cb) buffers →
    rtc (stream_step sha256 (a_weights a) cb cuda device) (stream_start buffers exts raws) s → stream_done s →
    memory s = raws_of st groups.
Proof.
  intros H. destruct (publish_inv _ _ _ _ _ _ _ _ _ _ _ H) as (_&Hcb&Hmod&groups&w&Hi&Hw&Hsb&Hcbm&Hctr&Hv&Hph&Hfb&->).
  exists (mkArtifact m (digest m) (w_file w)), groups. split; [apply lookup_insert_eq|]. split; [done|]. split; [done|].
  split.
  { intros Hk. apply (write_storages_coverage _ (@nil Z)) in Hw; [|lia|done]. rewrite Z2Nat.id in Hw by lia. cbn [app w_file length] in Hw.
    unfold inspect. cbn [a_manifest a_id a_weights]. rewrite !bool_decide_eq_true_2, Hv, Hfb, !Z.eqb_refl by done. cbn [negb orb].
    rewrite Hcbm, Hsb, length_fmap. change (Z.of_nat 0) with 0 in Hw. rewrite Hw. cbn [mbind res_bind fst snd].
    rewrite bool_decide_eq_true_2, Z.eqb_refl by done. done. }
  intros st' ts' device cuda exts raws buffers s Hplan Hne Hbuf Hr Hd.
  destruct (restore_plan_inv _ _ _ _ _ _ _ Hplan) as (Hins&Hexts&Hsz&_).
  destruct (artifact_inspect_sound _ _ _ _ _ _ _ Hplan) as (_&_&Hex&Hap&Hcov). cbn [a_manifest] in *.
  destruct (stream_delivered sha256 (w_file w) cb cuda device exts raws buffers s) as (Hdel&_&Hlen); try done.
  { split; [by unfold ALIGN|]. split; [done|]. split; [intros e He; by apply Hex|done]. }
  apply (write_storages_at _ (@nil (list byte))) in Hw as (_&Hat); [|lia]. cbn [app] in Hat.
  assert (Hl : length <$> memory s = length <$> raws_of st groups).
  { rewrite Hlen. apply (f_equal (fmap Z.to_nat)) in Hsz. rewrite Hsb in Hsz. rewrite <- !list_fmap_compose in Hsz.
    unfold compose in Hsz. erewrite (list_fmap_ext (λ x, Z.to_nat (Z.of_nat (length x))) length) in Hsz by (intros; apply Nat2Z.id).
    rewrite Hsz. apply list_fmap_ext. intros; apply Nat2Z.id. }
  apply list_eq. intros i. pose proof (f_equal (.!! i) Hl) as Hli. rewrite !list_lookup_fmap in Hli.
  destruct (memory s !! i) as [x|] eqn:Ex; [|by destruct (raws_of st groups !! i)].
  destruct (raws_of st groups !! i) as [y|] eqn:Ey; [|done]. injection Hli as Hxy. f_equal.
  apply list_eq_same_length with (length y); [done|done|]. intros p x1 y1 Hp Hx1 Hy1.
  pose proof (f_equal (.!! i) Hlen) as Hri. rewrite !list_lookup_fmap, Ex in Hri.
  destruct (raws !! i) as [z|] eqn:Ez; [|done]. injection Hri as Hxz.
  destruct (Hcov i z p Ez ltac:(lia)) as (e&He&Hes&Hep). destruct (Hdel e He) as (Hsl&Hdl&_).
  destruct (Hex e He) as (_&_&_&_&_&Hnum&_). rewrite Hexts in He. apply list_elem_of_fmap in He as (c&->&Hc).
  destruct (Hat c Hc) as (i'&raw&Hci&Hraw&H1&H2&H3&H4&H5&_). unfold slice, data in *.
  cbn [extent_of e_dest e_offset e_length d_store d_start d_numel] in *. rewrite Hci, Nat2Z.id in Hes. subst i'.
  rewrite Hci, Nat2Z.id, Ex in Hsl. cbn [default from_option id] in Hsl. rewrite H5 in Hsl.
  assert (raw = y) as -> by congruence. apply (slice_lookup _ _ _ _ p) in Hsl; [congruence|done].
Qed.
End artifact.

(** * Instances *)

(** Three tensors over two storages, one of them viewed twice. *)
Definition storages1 : Storages :=
  <[("cpu", 1) := z2b <$> [1; 2; 3]]> (<[("cpu", 2) := z2b <$> [4; 5; 6; 7; 8]]> ∅).
Definition tensor1 (k : Z) (shape : list Z) (off : Z) : Tensor :=
  mkTensor false true false ("cpu", k) "torch.uint8" shape [1] off.
Definition model1 : list (string * Tensor) :=
  [("lm_head", tensor1 2 [5] 0); ("embed", tensor1 1 [3] 0); ("embed.tied", tensor1 1 [2] 1)].
(** The same architecture, freshly allocated elsewhere. *)
Definition storages2 : Storages := <[("cpu", 8) := zeros 5]> (<[("cpu", 9) := zeros 3]> ∅).
Definition model2 : list (string * Tensor) :=
  [("embed.tied", tensor1 9 [2] 1); ("lm_head", tensor1 8 [5] 0); ("embed", tensor1 9 [3] 0)].
Definition digest1 (m : Manifest) : string := phase m.

Definition publish1 (k : list sys) : res Manifest * ArtFs :=
  publish sha0 digest1 storages1 model1 "/w" "rank0" 4096 None "{}" true (mkArtFs ∅ k).
Definition manifest1 : Manifest :=
  mkManifest 1 PHASE "rank0"
    [("embed", mkEntry 0 "torch.uint8" [3] [1] 0 3); ("embed.tied", mkEntry 0 "torch.uint8" [2] [1] 1 3);
     ("lm_head", mkEntry 1 "torch.uint8" [5] [1] 0 5)]
    4096 [mkChunk 0 0 3 0 (sha0 (z2b <$> [1; 2; 3])); mkChunk 1 0 5 4096 (sha0 (z2b <$> [4; 5; 6; 7; 8]))]
    [3; 5] "{}" 8192.
Definition weights1 : file := (z2b <$> [1; 2; 3]) ++ zeros 4093 ++ (z2b <$> [4; 5; 6; 7; 8]) ++ zeros 4091.
Definition artifact1 : Artifact := mkArtifact manifest1 PHASE weights1.
Lemma publish1_ok : publish1 [Xfer 2] = (Ok manifest1, mkArtFs (<["/w" := artifact1]> ∅) []).
Proof. vm_compute. reflexivity. Qed.

Definition exts1 : list Extent := extent_of (-1) <$> chunks manifest1.
Lemma plan1_ok : restore_plan digest1 storages2 model2 artifact1 "rank0" (-1) = Ok (exts1, [zeros 3; zeros 5]).
Proof. vm_compute. reflexivity. Qed.
(** A restore into host memory, one slot. *)
Definition restored0 : Stream := stream_start [zeros 4096] exts1 [zeros 3; zeros 5].
Definition restored1 : Stream := do_handle false (-1) (do_read weights1 4096 0 [] restored0).
Definition restored2 : Stream := do_handle false (-1) (do_read weights1 4096 0 [Xfer 1] restored1).
Lemma restored2_reachable : rtc (stream_step sha0 weights1 4096 false (-1)) restored0 restored2.
Proof.
  etransitivity; [by apply (do_read_steps weights1 4096 false (-1) 0 [])|].
  etransitivity; [apply do_handle_steps; by vm_compute|].
  etransitivity; [apply (do_read_steps weights1 4096 false (-1) 0 [Xfer 1]); by vm_compute|].
  apply do_handle_steps. by vm_compute.
Qed.

Lemma artifact_inspect_sound_witness :
  restore_plan digest1 storages2 model2 artifact1 "rank0" (-1) = Ok (exts1, [zeros 3; zeros 5]) ∧
  (∀ e, e ∈ exts1 → (ALIGN | e_offset e) ∧ 0 < e_length e ≤ 4096 ∧ 0 ≤ e_offset e ∧
     e_offset e + e_length e ≤ Z.of_nat (length weights1) ∧
     in_mem [zeros 3; zeros 5] (e_dest e) ∧ d_numel (e_dest e) = e_length e ∧ d_device (e_dest e) = -1).
Proof.
  split; [exact plan1_ok|].
  apply (artifact_inspect_sound digest1 storages2 model2 artifact1 "rank0" (-1) exts1 [zeros 3; zeros 5] plan1_ok).
Defined.

Lemma artifact_roundtrip_witness :
  memory restored2 = raws_of storages1 [("cpu", 1); ("cpu", 2)] ∧
  ∃ a, arts (publish1 [Xfer 2]).2 !! "/w" = Some a ∧ a_manifest a = manifest1.
Proof.
  destruct (artifact_roundtrip sha0 digest1 storages1 model1 "/w" "rank0" 4096 None "{}" true (mkArtFs ∅ [Xfer 2])
    manifest1 (mkArtFs (<["/w" := artifact1]> ∅) []) publish1_ok) as (a&groups&Ha&Hm&Hi&_&H).
  assert (Ha' : arts (mkArtFs (<["/w" := artifact1]> ∅) []) !! "/w" = Some artifact1) by reflexivity.
  rewrite Ha' in Ha. injection Ha as <-.
  assert (Hi' : inventory storages1 model1 = Ok (schema manifest1, [("cpu", 1); ("cpu", 2)])) by reflexivity.
  rewrite Hi' in Hi. apply Ok_inj, pair_eq in Hi as [_ <-]. split.
  - apply (H storages2 model2 (-1) false exts1 [zeros 3; zeros 5] [zeros 4096] restored2 plan1_ok); [done|by repeat constructor|
      exact restored2_reachable|repeat split; vm_compute; reflexivity].
  - exists artifact1. split; vm_compute; reflexivity.
Defined.

(** [publish] loops over short writes of a chunk's bytes but ignores one
    in the padding that follows: it then publishes, as a success, an
    artifact that [inspect] refuses, under a path no later [publish] may
    take. *)
Theorem artifact_short_padding :
  ∃ m fs a, publish1 [Xfer 3; Xfer 100] = (Ok m, fs) ∧ arts fs !! "/w" = Some a ∧
    inspect digest1 a "rank0" = Err ValueError ∧
    (publish sha0 digest1 storages1 model1 "/w" "rank0" 4096 None "{}" true fs).1 = Err FileExistsError.
Proof.
  destruct (publish1 [Xfer 3; Xfer 100]) as [r fs] eqn:E. vm_compute in E.
  apply pair_eq in E as [<- <-]. do 3 eexists. split; [reflexivity|]. split; [vm_compute; reflexivity|].
  split; vm_compute; reflexivity.
Qed.
