(* ===== verification/KvBlocks.v ===== *)
(** KV-cache block metadata and the free-block queue of
    src/runtime/vllm029/overlay/vllm/v1/core/kv_cache_utils.py: the block
    objects live in a heap, because the queue threads its links through them
    and its callers hold the same objects. *)
From S2P Require Import Prelude Bytes.
From stdpp Require Import base list gmap sets strings.
From Stdlib Require Import ZArith Lia.
#[local] Open Scope string_scope.
#[local] Open Scope list_scope.
#[local] Open Scope Z_scope.

(** * Block-hash keys *)

Abbreviation BlockHash := (list byte).
Abbreviation BlockHashWithGroupId := (list byte).

(** [n.to_bytes(4, "big")] and [int.from_bytes(b, "big")] *)
Definition to_bytes_be4 (n : Z) : res (list byte) :=
  if (0 <=? n) && (n <? 2 ^ 32) then Ok (rev (le_bytes 4 n)) else Err OverflowError.
Definition from_bytes_be (bs : list byte) : Z := le_int (rev bs).

Definition make_block_hash_with_group_id (block_hash : BlockHash) (group_id : Z) : res BlockHashWithGroupId :=
  g ← to_bytes_be4 group_id; Ok (block_hash ++ g).

(** [key[:-4]] and [key[-4:]] *)
Definition get_block_hash (key : BlockHashWithGroupId) : BlockHash := take (length key - 4) key.
Definition get_group_id (key : BlockHashWithGroupId) : Z := from_bytes_be (drop (length key - 4) key).

(** [ExternalBlockHash]: bytes or an integer. *)
Inductive ExternalBlockHash := ExtBytes (b : list byte) | ExtInt (n : Z).
Definition maybe_convert_block_hash (use_int : bool) (hash_bytes : BlockHash) : ExternalBlockHash :=
  if use_int then ExtInt (Z.land (from_bytes_be hash_bytes) (Z.shiftl 1 64 - 1)) else ExtBytes hash_bytes.

(** * Blocks *)

(** An object's identity. *)
Abbreviation loc := nat.

Record KVCacheBlock := mkBlock {
  block_id : Z;
  ref_cnt : Z;
  _block_hash : option BlockHashWithGroupId;
  _block_hash_num_tokens : option Z;
  prev_free_block : option loc;
  next_free_block : option loc;
  is_null : bool }.

(** [KVCacheBlock(block_id=i)] *)
Definition new_block (i : Z) : KVCacheBlock := mkBlock i 0 None None None None false.

Definition with_prev (p : option loc) (b : KVCacheBlock) : KVCacheBlock :=
  mkBlock (block_id b) (ref_cnt b) (_block_hash b) (_block_hash_num_tokens b) p (next_free_block b) (is_null b).
Definition with_next (n : option loc) (b : KVCacheBlock) : KVCacheBlock :=
  mkBlock (block_id b) (ref_cnt b) (_block_hash b) (_block_hash_num_tokens b) (prev_free_block b) n (is_null b).
Definition with_hash (h : option BlockHashWithGroupId) (n : option Z) (b : KVCacheBlock) : KVCacheBlock :=
  mkBlock (block_id b) (ref_cnt b) h n (prev_free_block b) (next_free_block b) (is_null b).

(** The objects, and the queue's own fields. *)
Record KvHeap := mkHeap {
  blocks : gmap loc KVCacheBlock;
  num_free_blocks : Z;
  fake_head : loc;
  fake_tail : loc }.
Definition with_blocks (m : gmap loc KVCacheBlock) (s : KvHeap) : KvHeap :=
  mkHeap m (num_free_blocks s) (fake_head s) (fake_tail s).
Definition add_free (d : Z) : M KvHeap unit :=
  modify (λ s, mkHeap (blocks s) (num_free_blocks s + d) (fake_head s) (fake_tail s)).

(** An attribute read through a reference that may be [None], and a write. *)
Definition block_of (o : option loc) : M KvHeap KVCacheBlock :=
  λ s, match o ≫= λ x, blocks s !! x with Some b => (Ok b, s) | None => (Err AttributeError, s) end.
Definition update_block (o : option loc) (f : KVCacheBlock → KVCacheBlock) : M KvHeap unit :=
  λ s, match o with
       | Some x => match blocks s !! x with
                   | Some b => (Ok tt, with_blocks (<[x := f b]> (blocks s)) s)
                   | None => (Err AttributeError, s)
                   end
       | None => (Err AttributeError, s)
       end.
Definition next_of (o : option loc) : M KvHeap (option loc) := b ← block_of o; mret (next_free_block b).
Definition prev_of (o : option loc) : M KvHeap (option loc) := b ← block_of o; mret (prev_free_block b).

(** [KVCacheBlock.set_block_hash] and [reset_hash] *)
Definition set_block_hash (x : loc) (h : BlockHashWithGroupId) (n : option Z) : M KvHeap unit :=
  b ← block_of (Some x);
  assert_ (bool_decide (_block_hash b = None) && bool_decide (_block_hash_num_tokens b = None));;
  update_block (Some x) (with_hash (Some h) n).
Definition reset_hash (x : loc) : M KvHeap unit := update_block (Some x) (with_hash None None).

(** * FreeKVCacheBlockQueue *)

(** [__init__]: the loop that links neighbours. *)
Fixpoint link_neighbours (prev : option loc) (bs : list loc) : M KvHeap unit :=
  match bs with
  | [] => mret tt
  | x :: bs =>
    match prev with Some p => update_block (Some x) (with_prev (Some p)) | None => mret tt end;;
    match bs with y :: _ => update_block (Some x) (with_next (Some y)) | [] => mret tt end;;
    link_neighbours (Some x) bs
  end.

(** A new object in the heap. *)
Definition alloc_block (b : KVCacheBlock) : M KvHeap loc :=
  λ s, let x := fresh (dom (blocks s) : gset nat) in (Ok x, with_blocks (<[x := b]> (blocks s)) s).

Definition new_queue (bs : list loc) : M KvHeap unit :=
  link_neighbours None bs;;
  h ← alloc_block (new_block (-1));
  t ← alloc_block (new_block (-1));
  modify (λ s, mkHeap (blocks s) (Z.of_nat (length bs)) h t);;
  match bs with
  | first :: _ =>
    update_block (Some h) (with_next (Some first));;
    update_block (Some first) (with_prev (Some h));;
    update_block (Some t) (with_prev (last bs));;
    update_block (last bs) (with_next (Some t))
  | [] =>
    update_block (Some h) (with_next (Some t));;
    update_block (Some t) (with_prev (Some h))
  end.

Definition popleft : M KvHeap loc :=
  s ← get;
  first ← next_of (Some (fake_head s));
  match first with
  | None => assert_ (num_free_blocks s =? 0);; raise ValueError
  | Some x =>
    if decide (x = fake_tail s) then assert_ (num_free_blocks s =? 0);; raise ValueError else
    nxt ← next_of (Some x);
    if bool_decide (nxt = None) then raise RuntimeError else
    update_block (Some (fake_head s)) (with_next nxt);;
    update_block nxt (with_prev (Some (fake_head s)));;
    update_block (Some x) (with_next None ∘ with_prev None);;
    add_free (-1);;
    mret x
  end.

(** The [for _ in range(n)] loop of [popleft_n]; returns [ret] and [curr_block]. *)
Fixpoint pop_loop (n : nat) (curr : option loc) : M KvHeap (list loc * option loc) :=
  match n with
  | O => mret ([], curr)
  | S n =>
    match curr with
    | None => raise AssertionError
    | Some x =>
      nxt ← next_of curr;
      update_block curr (with_next None ∘ with_prev None);;
      '(ret, c) ← pop_loop n nxt;
      mret (x :: ret, c)
    end
  end.

Definition popleft_n (n : nat) : M KvHeap (list loc) :=
  if bool_decide (n = 0%nat) then mret [] else
  s ← get;
  assert_ (Z.of_nat n <=? num_free_blocks s);;
  add_free (- Z.of_nat n);;
  curr ← next_of (Some (fake_head s));
  '(ret, c) ← pop_loop n curr;
  match c with
  | Some _ =>
    update_block (Some (fake_head s)) (with_next c);;
    update_block c (with_prev (Some (fake_head s)))
  | None => mret tt
  end;;
  mret ret.

Definition remove_block (x : loc) : M KvHeap unit :=
  b ← block_of (Some x);
  if bool_decide (prev_free_block b = None) || bool_decide (next_free_block b = None) then raise RuntimeError else
  update_block (prev_free_block b) (with_next (next_free_block b));;
  b ← block_of (Some x);
  update_block (next_free_block b) (with_prev (prev_free_block b));;
  update_block (Some x) (with_next None ∘ with_prev None);;
  add_free (-1).

Definition append (x : loc) : M KvHeap unit :=
  s ← get;
  last ← prev_of (Some (fake_tail s));
  if bool_decide (last = None) then raise RuntimeError else
  update_block last (with_next (Some x));;
  update_block (Some x) (with_prev last);;
  update_block (Some x) (with_next (Some (fake_tail s)));;
  update_block (Some (fake_tail s)) (with_prev (Some x));;
  add_free 1.

(** The [for block in blocks] loop of [prepend_n] and [append_n]; returns the
    last block linked. *)
Fixpoint chain_after (prev : option loc) (bs : list loc) : M KvHeap (option loc) :=
  match bs with
  | [] => mret prev
  | x :: bs =>
    update_block (Some x) (with_prev prev);;
    update_block prev (with_next (Some x));;
    chain_after (Some x) bs
  end.

Definition prepend_n (bs : list loc) : M KvHeap unit :=
  if bool_decide (bs = []) then mret tt else
  s ← get;
  first ← next_of (Some (fake_head s));
  assert_ (negb (bool_decide (first = None)));;
  prev ← chain_after (Some (fake_head s)) bs;
  update_block prev (with_next first);;
  update_block first (with_prev prev);;
  add_free (Z.of_nat (length bs)).

Definition append_n (bs : list loc) : M KvHeap unit :=
  if bool_decide (bs = []) then mret tt else
  s ← get;
  last ← prev_of (Some (fake_tail s));
  assert_ (negb (bool_decide (last = None)));;
  last ← chain_after last bs;
  update_block last (with_next (Some (fake_tail s)));;
  update_block (Some (fake_tail s)) (with_prev last);;
  add_free (Z.of_nat (length bs)).

(** The loop of [get_all_free_blocks], bounded by the number of objects. *)
Fixpoint walk_all (fuel : nat) (curr : option loc) : M KvHeap (list loc) :=
  match fuel with
  | O => raise OutOfFuel
  | S fuel =>
    nxt ← next_of curr;
    match curr, nxt with
    | Some x, Some _ => rest ← walk_all fuel nxt; mret (x :: rest)
    | _, _ => mret []
    end
  end.

Definition get_all_free_blocks : M KvHeap (list loc) :=
  s ← get;
  first ← next_of (Some (fake_head s));
  if bool_decide (first = None) then raise RuntimeError else walk_all (size (blocks s)) first.

(** The loop of [iter_blocks_after]. *)
Fixpoint walk_to (fuel : nat) (curr : option loc) (stop : loc) : M KvHeap (list loc) :=
  match fuel with
  | O => raise OutOfFuel
  | S fuel =>
    match curr with
    | None => mret []
    | Some x =>
      if decide (x = stop) then mret [] else
      nxt ← next_of curr;
      rest ← walk_to fuel nxt stop;
      mret (x :: rest)
    end
  end.

Definition iter_blocks_after (cursor : option loc) : M KvHeap (list loc) :=
  s ← get;
  curr ← next_of (Some (default (fake_head s) cursor));
  walk_to (size (blocks s)) curr (fake_tail s).
