(* ===== verification/KvBlocksInv.v ===== *)
(** The free-block queue's invariant: the links of the heap spell one list
    between the two sentinels, and nothing outside the list is linked. *)
From S2P Require Import Prelude Bytes KvBlocks.
From stdpp Require Import base list gmap sets strings.
From Stdlib Require Import ZArith Lia.
#[local] Open Scope Z_scope.

(** * Neighbours in a list *)

Fixpoint next_in (l : list loc) (z : loc) : option loc :=
  match l with
  | x :: ((y :: _) as r) => if decide (z = x) then Some y else next_in r z
  | _ => None
  end.
Fixpoint prev_in (l : list loc) (z : loc) : option loc :=
  match l with
  | x :: ((y :: _) as r) => if decide (z = y) then Some x else prev_in r z
  | _ => None
  end.

Lemma next_in_cons x y l z : next_in (x :: y :: l) z = if decide (z = x) then Some y else next_in (y :: l) z.
Proof. done. Qed.
Lemma prev_in_cons x y l z : prev_in (x :: y :: l) z = if decide (z = y) then Some x else prev_in (y :: l) z.
Proof. done. Qed.

Lemma next_in_out l z : z ∉ l → next_in l z = None.
Proof.
  induction l as [|x [|y l] IH]; try done. intros Hz. rewrite next_in_cons. rewrite decide_False by set_solver.
  apply IH. set_solver.
Qed.
Lemma prev_in_out l z : z ∉ l → prev_in l z = None.
Proof.
  induction l as [|x [|y l] IH]; try done. intros Hz. rewrite prev_in_cons. rewrite decide_False by set_solver.
  apply IH. set_solver.
Qed.
Lemma next_in_last l z : NoDup (l ++ [z]) → next_in (l ++ [z]) z = None.
Proof.
  induction l as [|x [|y l] IH]; try done.
  - intros [Hx _]%NoDup_cons. simpl. rewrite decide_False by set_solver. done.
  - intros [Hx Hn]%NoDup_cons. cbn [app]. rewrite next_in_cons. rewrite decide_False by set_solver. by apply IH.
Qed.
Lemma prev_in_head l z : NoDup (z :: l) → prev_in (z :: l) z = None.
Proof. intros [Hz _]%NoDup_cons. destruct l as [|y l]; [done|]. rewrite prev_in_cons. rewrite decide_False by set_solver. apply prev_in_out. set_solver. Qed.
Lemma next_in_Some l z : z ∈ l → last l ≠ Some z → is_Some (next_in l z).
Proof.
  induction l as [|x [|y l] IH]; [set_solver|set_solver|]. intros Hz Hl. rewrite next_in_cons. case_decide; [by eexists|].
  apply IH; [set_solver|done].
Qed.
Lemma prev_in_Some l z : z ∈ l → head l ≠ Some z → is_Some (prev_in l z).
Proof.
  induction l as [|x [|y l] IH]; [set_solver|set_solver|]. intros Hz Hl. rewrite prev_in_cons. case_decide as Hd; [by eexists|].
  apply IH; [|naive_solver]. simpl in Hl. set_solver.
Qed.

(** [f] where it has a value, [g] elsewhere. *)
Definition override (f g : loc → option loc) (z : loc) : option loc := match f z with Some y => Some y | None => g z end.

(** Putting [xs] between the neighbours [a] and [b]. *)
Lemma next_in_splice l1 a xs b l2 z : NoDup (l1 ++ a :: xs ++ b :: l2) →
  next_in (l1 ++ a :: xs ++ b :: l2) z = override (next_in (a :: xs ++ [b])) (next_in (l1 ++ a :: b :: l2)) z.
Proof.
  induction l1 as [|x l1 IH]; cbn [app].
  - unfold override. revert a. induction xs as [|y xs IH]; intros a; cbn [app].
    + intros _. rewrite !next_in_cons. by case_decide.
    + intros [Ha Hn]%NoDup_cons. rewrite !next_in_cons. case_decide as Hz; [done|].
      rewrite IH by done. destruct (next_in (y :: xs ++ [b]) z) eqn:E; [done|]. rewrite !next_in_cons.
      case_decide as Hy; [|done]. subst y. exfalso.
      destruct (next_in_Some (z :: xs ++ [b]) z) as [? Hs]; [set_solver| |by rewrite E in Hs].
      apply NoDup_cons in Hn as [Hn _]. rewrite app_comm_cons, last_snoc. set_solver.
  - intros [Hx Hn]%NoDup_cons. specialize (IH Hn).
    destruct l1 as [|y l1]; unfold override in *; cbn [app] in *; rewrite !next_in_cons, IH.
    + case_decide as Hz; [|done]. subst. by rewrite next_in_out by set_solver.
    + case_decide as Hz; [|done]. subst. by rewrite next_in_out by set_solver.
Qed.

Lemma prev_in_splice l1 a xs b l2 z : NoDup (l1 ++ a :: xs ++ b :: l2) →
  prev_in (l1 ++ a :: xs ++ b :: l2) z = override (prev_in (a :: xs ++ [b])) (prev_in (l1 ++ a :: b :: l2)) z.
Proof.
  induction l1 as [|x l1 IH]; cbn [app].
  - unfold override. revert a. induction xs as [|y xs IH]; intros a; cbn [app].
    + intros _. rewrite !prev_in_cons. by case_decide.
    + intros [Ha Hn]%NoDup_cons. rewrite !prev_in_cons. case_decide as Hz; [done|].
      rewrite IH by done. destruct (prev_in (y :: xs ++ [b]) z) eqn:E; [done|]. rewrite !prev_in_cons.
      case_decide as Hb; [|done]. subst z. exfalso.
      destruct (prev_in_Some (y :: xs ++ [b]) b) as [? Hs]; [set_solver|simpl; naive_solver|by rewrite E in Hs].
  - intros [Hx Hn]%NoDup_cons. specialize (IH Hn).
    destruct l1 as [|y l1]; unfold override in *; cbn [app] in *; rewrite !prev_in_cons, IH.
    + case_decide as Hz; [|done]. subst. rewrite prev_in_head; [done|].
      change (b :: l2) with ([b] ++ l2) in Hn. rewrite app_assoc, app_comm_cons in Hn. by apply NoDup_app in Hn as (?&_).
    + case_decide as Hz; [|done]. subst. apply NoDup_cons in Hn as [Hn _]. by rewrite prev_in_out by set_solver.
Qed.

(** * Links of the heap *)

Definition nxt (m : gmap loc KVCacheBlock) (x : loc) : option loc := m !! x ≫= next_free_block.
Definition prv (m : gmap loc KVCacheBlock) (x : loc) : option loc := m !! x ≫= prev_free_block.

(** What the queue never touches. *)
Definition payload (b : KVCacheBlock) := (block_id b, ref_cnt b, _block_hash b, _block_hash_num_tokens b, is_null b).
Definition same_payload (m m' : gmap loc KVCacheBlock) : Prop := ∀ x, payload <$> m !! x = payload <$> m' !! x.
#[export] Instance same_payload_equiv : Equivalence same_payload.
Proof. split; unfold same_payload; [done| |]; intros ? **; congruence. Qed.

Definition set_next (x : loc) (n : option loc) := alter (with_next n) (M := gmap loc KVCacheBlock) x.
Definition set_prev (x : loc) (p : option loc) := alter (with_prev p) (M := gmap loc KVCacheBlock) x.
Definition unlink (x : loc) := alter (with_next None ∘ with_prev None) (M := gmap loc KVCacheBlock) x.

Section links.
Implicit Types (m : gmap loc KVCacheBlock) (x z : loc).

Lemma alter_payload f x m : (∀ b, payload (f b) = payload b) → same_payload m (alter f x m).
Proof.
  intros Hf z. destruct (decide (z = x)) as [->|]; [|by rewrite lookup_alter_ne].
  rewrite lookup_alter_eq. destruct (m !! x); simpl; [by rewrite Hf|done].
Qed.
Lemma set_next_payload x n m : same_payload m (set_next x n m).
Proof. by apply alter_payload. Qed.
Lemma set_prev_payload x n m : same_payload m (set_prev x n m).
Proof. by apply alter_payload. Qed.
Lemma unlink_payload x m : same_payload m (unlink x m).
Proof. by apply alter_payload. Qed.

Lemma alter_link {A} (g : KVCacheBlock → option A) f x m z :
  alter f x m !! z ≫= g = if decide (z = x) then (f <$> m !! x) ≫= g else m !! z ≫= g.
Proof. case_decide; [subst; by rewrite lookup_alter_eq|by rewrite lookup_alter_ne]. Qed.

Lemma in_some m x : x ∈ dom m → ∃ b, m !! x = Some b.
Proof. intros H. by apply elem_of_dom in H. Qed.

Lemma nxt_set_next m x n z : x ∈ dom m → nxt (set_next x n m) z = if decide (z = x) then n else nxt m z.
Proof. intros [b Hb]%in_some. unfold nxt, set_next. rewrite alter_link. case_decide; [by rewrite Hb|done]. Qed.
Lemma prv_set_next m x n z : prv (set_next x n m) z = prv m z.
Proof. unfold prv, set_next. rewrite alter_link. case_decide; [subst; by destruct (m !! x)|done]. Qed.
Lemma prv_set_prev m x n z : x ∈ dom m → prv (set_prev x n m) z = if decide (z = x) then n else prv m z.
Proof. intros [b Hb]%in_some. unfold prv, set_prev. rewrite alter_link. case_decide; [by rewrite Hb|done]. Qed.
Lemma nxt_set_prev m x n z : nxt (set_prev x n m) z = nxt m z.
Proof. unfold nxt, set_prev. rewrite alter_link. case_decide; [subst; by destruct (m !! x)|done]. Qed.
Lemma nxt_unlink m x z : nxt (unlink x m) z = if decide (z = x) then None else nxt m z.
Proof. unfold nxt, unlink. rewrite alter_link. case_decide; [by destruct (m !! x)|done]. Qed.
Lemma prv_unlink m x z : prv (unlink x m) z = if decide (z = x) then None else prv m z.
Proof. unfold prv, unlink. rewrite alter_link. case_decide; [by destruct (m !! x)|done]. Qed.
Lemma dom_set_next m x n : dom (set_next x n m) = dom m.
Proof. apply dom_alter_L. Qed.
Lemma dom_set_prev m x n : dom (set_prev x n m) = dom m.
Proof. apply dom_alter_L. Qed.
Lemma dom_unlink m x : dom (unlink x m) = dom m.
Proof. apply dom_alter_L. Qed.
End links.

Create Rewrite HintDb links.
#[export] Hint Rewrite prv_set_next nxt_set_prev nxt_unlink prv_unlink dom_set_next dom_set_prev dom_unlink : links.
Create HintDb payload.
#[export] Hint Resolve set_next_payload set_prev_payload unlink_payload : payload.

(** Runs of the primitive operations on live objects. *)
Section runs.
Implicit Types (s : KvHeap) (x : loc).

Lemma update_run {B} (k : unit → M KvHeap B) f x s : x ∈ dom (blocks s) →
  (update_block (Some x) f ≫= k) s = k tt (with_blocks (alter f x (blocks s)) s).
Proof.
  intros [b Hb]%in_some. apply M_bind_run. unfold update_block. rewrite Hb. unfold with_blocks.
  do 2 f_equal. apply map_eq. intros z.
  destruct (decide (z = x)) as [->|]; [by rewrite lookup_insert_eq, lookup_alter_eq, Hb|by rewrite lookup_insert_ne, lookup_alter_ne].
Qed.
Lemma update_end f x s : x ∈ dom (blocks s) →
  update_block (Some x) f s = (Ok tt, with_blocks (alter f x (blocks s)) s).
Proof.
  intros Hx. pose proof (update_run mret f x s Hx) as H. unfold mbind, M_bind in H.
  by destruct (update_block (Some x) f s) as [[[]|] ?].
Qed.
Lemma next_run {B} (k : option loc → M KvHeap B) x s : x ∈ dom (blocks s) →
  (next_of (Some x) ≫= k) s = k (nxt (blocks s) x) s.
Proof.
  intros [b Hb]%in_some. apply M_bind_run. unfold next_of, nxt. erewrite M_bind_run; [|unfold block_of; simpl; by rewrite Hb].
  by rewrite Hb.
Qed.
Lemma prev_run {B} (k : option loc → M KvHeap B) x s : x ∈ dom (blocks s) →
  (prev_of (Some x) ≫= k) s = k (prv (blocks s) x) s.
Proof.
  intros [b Hb]%in_some. apply M_bind_run. unfold prev_of, prv. erewrite M_bind_run; [|unfold block_of; simpl; by rewrite Hb].
  by rewrite Hb.
Qed.
End runs.

(** * Inserting and cutting *)

Section splice.
Context (l1 : list loc) (a : loc) (xs : list loc) (b : loc) (l2 : list loc).
Hypothesis Hnd : NoDup (l1 ++ a :: xs ++ b :: l2).

Lemma nodup_cut : NoDup (l1 ++ a :: b :: l2).
Proof.
  eapply sublist_NoDup; [exact Hnd|]. apply sublist_app; [done|]. apply sublist_skip. apply sublist_inserts_l. done.
Qed.
Lemma nodup_mid : NoDup (a :: xs ++ [b]).
Proof.
  eapply sublist_NoDup; [exact Hnd|]. apply sublist_inserts_l. apply sublist_skip. apply sublist_app; [done|].
  apply sublist_skip. apply sublist_nil_l.
Qed.
Lemma cut_out z : z ∈ xs → z ∉ l1 ++ a :: b :: l2.
Proof.
  intros Hz. apply NoDup_app in Hnd as (_&H1&H2). apply NoDup_cons in H2 as [H2 H3].
  apply NoDup_app in H3 as (_&H4&_). specialize (H4 z Hz). set_solver.
Qed.
Lemma mid_next_other z : z ≠ a → z ∉ xs → next_in (a :: xs ++ [b]) z = None.
Proof.
  intros Ha Hx. destruct (decide (z = b)) as [->|Hb]; [apply (next_in_last (a :: xs)), nodup_mid|apply next_in_out; set_solver].
Qed.
Lemma mid_prev_other z : z ≠ b → z ∉ xs → prev_in (a :: xs ++ [b]) z = None.
Proof.
  intros Hb Hx. destruct (decide (z = a)) as [->|Ha]; [apply prev_in_head, nodup_mid|apply prev_in_out; set_solver].
Qed.
End splice.

Lemma next_in_at l1 a b l2 : NoDup (l1 ++ a :: b :: l2) → next_in (l1 ++ a :: b :: l2) a = Some b.
Proof. intros H. rewrite (next_in_splice l1 a [] b l2) by done. unfold override. simpl. by rewrite decide_True. Qed.
Lemma prev_in_at l1 a b l2 : NoDup (l1 ++ a :: b :: l2) → prev_in (l1 ++ a :: b :: l2) b = Some a.
Proof. intros H. rewrite (prev_in_splice l1 a [] b l2) by done. unfold override. simpl. by rewrite decide_True. Qed.

Lemma next_in_cut l1 a xs b l2 z : NoDup (l1 ++ a :: xs ++ b :: l2) →
  (if decide (z ∈ xs) then None else if decide (z = a) then Some b else next_in (l1 ++ a :: xs ++ b :: l2) z) =
  next_in (l1 ++ a :: b :: l2) z.
Proof.
  intros H. case_decide as Hx; [symmetry; by apply next_in_out, (cut_out l1 a xs b l2)|].
  case_decide as Ha; [subst; symmetry; eapply next_in_at, nodup_cut; exact H|].
  rewrite next_in_splice by done. unfold override. by rewrite (mid_next_other l1 a xs b l2).
Qed.
Lemma prev_in_cut l1 a xs b l2 z : NoDup (l1 ++ a :: xs ++ b :: l2) →
  (if decide (z ∈ xs) then None else if decide (z = b) then Some a else prev_in (l1 ++ a :: xs ++ b :: l2) z) =
  prev_in (l1 ++ a :: b :: l2) z.
Proof.
  intros H. case_decide as Hx; [symmetry; by apply prev_in_out, (cut_out l1 a xs b l2)|].
  case_decide as Hb; [subst; symmetry; eapply prev_in_at, nodup_cut; exact H|].
  rewrite prev_in_splice by done. unfold override. by rewrite (mid_prev_other l1 a xs b l2).
Qed.

(** * The invariant *)

Definition chain (s : KvHeap) (l : list loc) : list loc := fake_head s :: l ++ [fake_tail s].

Record queue_is (s : KvHeap) (l : list loc) : Prop := {
  q_nodup : NoDup (chain s l);
  q_dom x : x ∈ chain s l → x ∈ dom (blocks s);
  q_num : num_free_blocks s = Z.of_nat (length l);
  q_nxt z : nxt (blocks s) z = next_in (chain s l) z;
  q_prv z : prv (blocks s) z = prev_in (chain s l) z }.

(** What every operation leaves alone. *)
Definition evolves (s s' : KvHeap) : Prop :=
  same_payload (blocks s) (blocks s') ∧ fake_head s' = fake_head s ∧ fake_tail s' = fake_tail s.
#[export] Instance evolves_preorder : PreOrder evolves.
Proof.
  split; [by intros s|]. intros s1 s2 s3 (H1&H2&H3) (H4&H5&H6). split; [by transitivity (blocks s2)|]. split; congruence.
Qed.

Lemma same_payload_dom m m' : same_payload m m' → dom m = dom m'.
Proof.
  intros H. apply set_eq. intros x. specialize (H x). rewrite !elem_of_dom.
  destruct (m !! x), (m' !! x); simpl in H; try done; by split.
Qed.

(** How a free block and the rest of the list fit together. *)
Lemma queue_mid s l x : queue_is s l → x ∈ l →
  ∃ l1 a b l2, chain s l = l1 ++ a :: x :: b :: l2 ∧ chain s (filter (.≠ x) l) = l1 ++ a :: b :: l2.
Proof.
  intros Hq Hx. apply list_elem_of_split in Hx as (u&v&->). pose proof (q_nodup _ _ Hq) as Hn. unfold chain in *.
  assert (Hf : filter (.≠ x) (u ++ x :: v) = u ++ v).
  { apply NoDup_cons in Hn as [_ Hn]. apply NoDup_app in Hn as (Hn&_&_). apply NoDup_app in Hn as (_&Hu&Hv). apply NoDup_cons in Hv as [Hv _].
    rewrite filter_app, filter_cons_False by naive_solver.
    rewrite !filter_all; [done|intros y Hy ->; done|intros y Hy ->; eapply Hu; [exact Hy|by left]]. }
  rewrite Hf. rewrite <- !app_assoc. cbn [app].
  assert (∃ l1 a, fake_head s :: u = l1 ++ [a]) as (l1&a&E1).
  { destruct (exists_last (l := fake_head s :: u) ltac:(done)) as (l1&a&E). by exists l1, a. }
  assert (∃ b l2, v ++ [fake_tail s] = b :: l2) as (b&l2&E2) by (destruct v; simpl; eauto).
  exists l1, a, b, l2. rewrite E2. change (fake_head s :: u ++ x :: b :: l2) with ((fake_head s :: u) ++ x :: b :: l2).
  change (fake_head s :: u ++ b :: l2) with ((fake_head s :: u) ++ b :: l2). rewrite E1, <- !app_assoc. done.
Qed.

(** * The operations on the list they spell *)

(** The end of every operation that relinks: the new links are the new list's. *)
Lemma queue_from_links s m' l' d :
  (∀ x, x ∈ chain s l' → x ∈ dom m') → NoDup (chain s l') →
  num_free_blocks s + d = Z.of_nat (length l') →
  (∀ z, nxt m' z = next_in (chain s l') z) → (∀ z, prv m' z = prev_in (chain s l') z) →
  queue_is (mkHeap m' (num_free_blocks s + d) (fake_head s) (fake_tail s)) l'.
Proof. by split. Qed.

Section ops.
Context (s : KvHeap) (l : list loc).
Hypothesis Hq : queue_is s l.

Lemma head_dom : fake_head s ∈ dom (blocks s).
Proof. apply (q_dom _ _ Hq). by left. Qed.
Lemma tail_dom : fake_tail s ∈ dom (blocks s).
Proof. apply (q_dom _ _ Hq). unfold chain. set_solver. Qed.
Lemma mem_dom x : x ∈ l → x ∈ dom (blocks s).
Proof. intros Hx. apply (q_dom _ _ Hq). unfold chain. set_solver. Qed.
Lemma head_next : nxt (blocks s) (fake_head s) = head (l ++ [fake_tail s]).
Proof. rewrite (q_nxt _ _ Hq). unfold chain. destruct l; simpl; by rewrite decide_True. Qed.
Lemma tail_prev : prv (blocks s) (fake_tail s) = last (fake_head s :: l).
Proof.
  rewrite (q_prv _ _ Hq). pose proof (q_nodup _ _ Hq) as Hn. unfold chain in *.
  destruct (exists_last (l := fake_head s :: l) ltac:(done)) as (l1&a&E).
  change (fake_head s :: l ++ [fake_tail s]) with ((fake_head s :: l) ++ [fake_tail s]) in *.
  rewrite E, last_snoc, <- app_assoc in *. by apply prev_in_at.
Qed.
Lemma tail_not_in : fake_tail s ∉ l.
Proof. pose proof (q_nodup _ _ Hq) as Hn. unfold chain in Hn. apply NoDup_cons in Hn as [_ Hn]. apply NoDup_app in Hn as (_&Hn&_). intros H. by apply (Hn _ H), list_elem_of_singleton. Qed.

(** Relinking around a cut segment. *)
Lemma cut_spec l1 a xs b l2 m' l' :
  chain s l = l1 ++ a :: xs ++ b :: l2 → chain s l' = l1 ++ a :: b :: l2 → dom m' = dom (blocks s) →
  (∀ z, nxt m' z = if decide (z ∈ xs) then None else if decide (z = a) then Some b else nxt (blocks s) z) →
  (∀ z, prv m' z = if decide (z ∈ xs) then None else if decide (z = b) then Some a else prv (blocks s) z) →
  queue_is (mkHeap m' (num_free_blocks s - Z.of_nat (length xs)) (fake_head s) (fake_tail s)) l'.
Proof.
  intros E E' Hd Hn Hp. pose proof (q_nodup _ _ Hq) as Hnd. rewrite E in Hnd.
  apply queue_from_links.
  - rewrite E', Hd. intros x Hx. apply (q_dom _ _ Hq). rewrite E. set_solver.
  - rewrite E'. by eapply nodup_cut.
  - rewrite (q_num _ _ Hq). apply (f_equal length) in E, E'. unfold chain in E, E'.
    rewrite !length_app in E, E'. simpl in E, E'. rewrite !length_app in E, E'. simpl in E, E'. rewrite length_app in E. simpl in E. lia.
  - intros z. rewrite Hn, (q_nxt _ _ Hq), E, E'. by apply next_in_cut.
  - intros z. rewrite Hp, (q_prv _ _ Hq), E, E'. by apply prev_in_cut.
Qed.

Lemma popleft_cons x l' : l = x :: l' →
  ∃ s', popleft s = (Ok x, s') ∧ queue_is s' l' ∧ evolves s s'.
Proof.
  intros El. pose proof head_dom as Hh. pose proof tail_dom as Ht.
  assert (x ∈ dom (blocks s)) as Hx by (apply mem_dom; rewrite El; by left).
  assert (∃ b l2, l' ++ [fake_tail s] = b :: l2) as (b&l2&E2) by (destruct l'; simpl; eauto).
  assert (Hc : chain s l = [] ++ fake_head s :: [x] ++ b :: l2) by (unfold chain; by rewrite El; simpl; rewrite E2).
  assert (Hb : b ∈ dom (blocks s)) by (apply (q_dom _ _ Hq); rewrite Hc; set_solver).
  pose proof (q_nodup _ _ Hq) as Hnd. rewrite Hc in Hnd.
  unfold popleft. autorewrite with monad. rewrite next_run by done. rewrite head_next, El. cbn [app head].
  rewrite decide_False by (intros ->; apply tail_not_in; rewrite El; by left).
  rewrite next_run by done. assert (Hnx : nxt (blocks s) x = Some b).
  { rewrite (q_nxt _ _ Hq), Hc. apply (next_in_at [fake_head s]). done. }
  rewrite Hnx. rewrite bool_decide_eq_false_2 by done.
  repeat (rewrite update_run by (cbn [with_blocks blocks]; rewrite ?dom_alter_L; done); cbn [with_blocks blocks]).
  unfold add_free. autorewrite with monad. eexists. split; [done|]. cbn [with_blocks blocks num_free_blocks fake_head fake_tail].
  fold (set_next (fake_head s) (Some b) (blocks s)). set (m1 := set_next _ _ _).
  fold (set_prev b (Some (fake_head s)) m1). set (m2 := set_prev _ _ m1). fold (unlink x m2).
  cbn [app] in Hnd. apply NoDup_cons in Hnd as [Hh1 Hnd]. apply NoDup_cons in Hnd as [Hx1 _].
  split.
  - apply (cut_spec [] (fake_head s) [x] b l2 (unlink x m2) l'); [done|unfold chain; by rewrite E2|by subst m1 m2; autorewrite with links|..];
      intros z; subst m1 m2; autorewrite with links; rewrite ?nxt_set_next, ?prv_set_prev by (autorewrite with links; done);
      autorewrite with links; repeat case_decide; set_solver.
  - split; [|done]. cbn [blocks]. subst m1 m2. etransitivity; [apply set_next_payload|]. etransitivity; [apply set_prev_payload|]. apply unlink_payload.
Qed.

Lemma popleft_nil : l = [] → popleft s = (Err ValueError, s).
Proof.
  intros El. unfold popleft. autorewrite with monad. rewrite next_run by apply head_dom. rewrite head_next, El. cbn [app head].
  rewrite decide_True by done. rewrite (q_num _ _ Hq), El. done.
Qed.

Lemma remove_in x : x ∈ l →
  ∃ s', remove_block x s = (Ok tt, s') ∧ queue_is s' (filter (.≠ x) l) ∧ evolves s s'.
Proof.
  intros Hx. pose proof (mem_dom x Hx) as Hd. destruct (queue_mid s l x Hq Hx) as (l1&a&b&l2&Hc&Hc').
  pose proof (q_nodup _ _ Hq) as Hnd. rewrite Hc in Hnd.
  assert (Ha : a ∈ dom (blocks s)) by (apply (q_dom _ _ Hq); rewrite Hc; set_solver).
  assert (Hb : b ∈ dom (blocks s)) by (apply (q_dom _ _ Hq); rewrite Hc; set_solver).
  assert (Hnx : nxt (blocks s) x = Some b).
  { rewrite (q_nxt _ _ Hq), Hc, cons_middle, app_assoc. apply next_in_at. by rewrite <- app_assoc. }
  assert (Hpx : prv (blocks s) x = Some a) by (rewrite (q_prv _ _ Hq), Hc; by apply prev_in_at).
  assert (a ≠ x ∧ b ≠ x) as [Hax Hbx].
  { apply NoDup_app in Hnd as (_&_&Hnd). apply NoDup_cons in Hnd as [H1 Hnd]. apply NoDup_cons in Hnd as [H2 _]. set_solver. }
  destruct (in_some _ _ Hd) as [blk Hblk]. unfold nxt, prv in Hnx, Hpx. rewrite Hblk in Hnx, Hpx. simpl in Hnx, Hpx.
  unfold remove_block. erewrite M_bind_run; [|unfold block_of; simpl; by rewrite Hblk]. rewrite Hpx, Hnx. cbn [bool_decide].
  rewrite !bool_decide_eq_false_2 by done. cbn [orb].
  rewrite update_run by done. cbn [with_blocks blocks].
  fold (set_next a (Some b) (blocks s)). set (m1 := set_next _ _ _).
  assert (Hblk1 : m1 !! x = Some blk) by (unfold m1, set_next; by rewrite lookup_alter_ne).
  erewrite M_bind_run; [|unfold block_of; simpl; by rewrite Hblk1]. rewrite Hpx, Hnx.
  rewrite update_run by (cbn [with_blocks blocks]; subst m1; autorewrite with links; done). cbn [with_blocks blocks].
  fold (set_prev b (Some a) m1). set (m2 := set_prev _ _ m1).
  rewrite update_run by (cbn [with_blocks blocks]; subst m1 m2; autorewrite with links; done). cbn [with_blocks blocks].
  fold (unlink x m2). eexists. split; [done|]. cbn [with_blocks blocks num_free_blocks fake_head fake_tail]. split.
  - apply (cut_spec l1 a [x] b l2 (unlink x m2)); [done|done|by subst m1 m2; autorewrite with links|..];
      intros z; subst m1 m2; autorewrite with links; rewrite ?nxt_set_next, ?prv_set_prev by (autorewrite with links; done);
      autorewrite with links; repeat case_decide; set_solver.
  - split; [|done]. cbn [blocks]. subst m1 m2. etransitivity; [apply set_next_payload|]. etransitivity; [apply set_prev_payload|]. apply unlink_payload.
Qed.

(** A block that is not free is refused, a sentinel too. *)
Lemma remove_out x : x ∈ dom (blocks s) → x ∉ l → remove_block x s = (Err RuntimeError, s).
Proof.
  intros Hd Hx. destruct (in_some _ _ Hd) as [blk Hblk]. unfold remove_block.
  erewrite M_bind_run; [|unfold block_of; simpl; by rewrite Hblk].
  assert (Hn : next_free_block blk = next_in (chain s l) x) by (rewrite <- (q_nxt _ _ Hq); unfold nxt; by rewrite Hblk).
  assert (Hp : prev_free_block blk = prev_in (chain s l) x) by (rewrite <- (q_prv _ _ Hq); unfold prv; by rewrite Hblk).
  pose proof (q_nodup _ _ Hq) as Hnd. unfold chain in *.
  destruct (decide (x = fake_head s)) as [->|Hh].
  { rewrite Hp, prev_in_head by done. done. }
  destruct (decide (x = fake_tail s)) as [->|Ht].
  { rewrite Hn, app_comm_cons, next_in_last by done. by rewrite orb_true_r. }
  rewrite Hp, prev_in_out by set_solver. done.
Qed.

(** Relinking around an inserted segment. *)
Lemma insert_spec l1 a xs b l2 m' l' :
  chain s l = l1 ++ a :: b :: l2 → chain s l' = l1 ++ a :: xs ++ b :: l2 →
  NoDup xs → (∀ x, x ∈ xs → x ∈ dom (blocks s) ∧ x ∉ chain s l) → dom m' = dom (blocks s) →
  (∀ z, nxt m' z = override (next_in (a :: xs ++ [b])) (nxt (blocks s)) z) →
  (∀ z, prv m' z = override (prev_in (a :: xs ++ [b])) (prv (blocks s)) z) →
  queue_is (mkHeap m' (num_free_blocks s + Z.of_nat (length xs)) (fake_head s) (fake_tail s)) l'.
Proof.
  intros E E' Hxs Hout Hd Hn Hp. pose proof (q_nodup _ _ Hq) as Hnd.
  assert (Hnd' : NoDup (l1 ++ a :: xs ++ b :: l2)).
  { apply (NoDup_Permutation_proper _ (xs ++ chain s l)).
    - rewrite E. replace (l1 ++ a :: xs ++ b :: l2) with ((l1 ++ [a]) ++ xs ++ b :: l2) by by rewrite <- app_assoc.
      replace (l1 ++ a :: b :: l2) with ((l1 ++ [a]) ++ b :: l2) by by rewrite <- app_assoc. apply Permutation_app_swap_app.
    - apply NoDup_app. split; [done|]. split; [|done]. intros x Hx. by apply Hout. }
  apply queue_from_links.
  - rewrite E', Hd. intros x Hx. destruct (decide (x ∈ xs)) as [H|H]; [by apply Hout|]. apply (q_dom _ _ Hq). rewrite E. set_solver.
  - by rewrite E'.
  - rewrite (q_num _ _ Hq). apply (f_equal length) in E, E'. unfold chain in E, E'.
    rewrite !length_app in E, E'. simpl in E, E'. rewrite !length_app in E, E'. simpl in E, E'. rewrite length_app in E'. simpl in E'. lia.
  - intros z. rewrite Hn, E', next_in_splice by done. unfold override. rewrite (q_nxt _ _ Hq), E. done.
  - intros z. rewrite Hp, E', prev_in_splice by done. unfold override. rewrite (q_prv _ _ Hq), E. done.
Qed.

(** The caller's blocks are live and not already free. *)
Definition insertable (xs : list loc) : Prop := NoDup xs ∧ ∀ x, x ∈ xs → x ∈ dom (blocks s) ∧ x ∉ chain s l.

Lemma chain_last : ∃ l1 a, chain s l = l1 ++ [a; fake_tail s] ∧ last (fake_head s :: l) = Some a ∧
  (∀ xs, chain s (l ++ xs) = l1 ++ a :: xs ++ [fake_tail s]) ∧ a ∈ dom (blocks s).
Proof.
  destruct (exists_last (l := fake_head s :: l) ltac:(done)) as (l1&a&E). exists l1, a. unfold chain.
  assert (E1 : fake_head s :: l ++ [fake_tail s] = l1 ++ [a; fake_tail s]) by by rewrite app_comm_cons, E, <- app_assoc.
  split; [done|]. split; [by rewrite E, last_snoc|]. split.
  - intros xs. by rewrite <- app_assoc, app_comm_cons, E, <- app_assoc.
  - apply (q_dom _ _ Hq). unfold chain. rewrite E1. set_solver.
Qed.

Lemma append_ok x : insertable [x] → ∃ s', append x s = (Ok tt, s') ∧ queue_is s' (l ++ [x]) ∧ evolves s s'.
Proof.
  intros [_ Hx]. destruct (Hx x ltac:(left)) as [Hd Hout]. pose proof tail_dom as Ht.
  destruct chain_last as (l1&a&Hc&Hl&Hcx&Ha). rewrite Hc in Hout.
  unfold append. autorewrite with monad. rewrite prev_run by done. rewrite tail_prev, Hl.
  rewrite bool_decide_eq_false_2 by done.
  repeat (rewrite update_run by (cbn [with_blocks blocks]; rewrite ?dom_alter_L; done); cbn [with_blocks blocks]).
  eexists. split; [done|]. cbn [with_blocks blocks num_free_blocks fake_head fake_tail].
  fold (set_next a (Some x) (blocks s)). set (m1 := set_next _ _ _). fold (set_prev x (Some a) m1). set (m2 := set_prev _ _ m1).
  fold (set_next x (Some (fake_tail s)) m2). set (m3 := set_next _ _ m2). fold (set_prev (fake_tail s) (Some x) m3).
  pose proof (q_nodup _ _ Hq) as Hnd. rewrite Hc in Hnd.
  assert (a ≠ fake_tail s). { apply NoDup_app in Hnd as (_&_&Hnd). apply NoDup_cons in Hnd as [Hnd _]. set_solver. }
  split.
  - apply (insert_spec l1 a [x] (fake_tail s) []); [done|by rewrite Hcx|apply NoDup_singleton| |by subst m1 m2 m3; autorewrite with links|..].
    + by intros y ->%list_elem_of_singleton; apply Hx; left.
    + intros z. subst m1 m2 m3. unfold override. autorewrite with links. rewrite !nxt_set_next by (autorewrite with links; done).
      autorewrite with links. rewrite nxt_set_next by done. cbn [app]. rewrite !next_in_cons. simpl next_in. repeat case_decide; set_solver.
    + intros z. subst m1 m2 m3. unfold override. rewrite !prv_set_prev by (autorewrite with links; done).
      autorewrite with links. rewrite !prv_set_prev by (autorewrite with links; done). autorewrite with links.
      cbn [app]. rewrite !prev_in_cons. simpl prev_in. repeat case_decide; set_solver.
  - split; [|done]. cbn [blocks]. subst m1 m2 m3. etransitivity; [apply set_next_payload|]. etransitivity; [apply set_prev_payload|].
    etransitivity; [apply set_next_payload|]. apply set_prev_payload.
Qed.
End ops.

(** ** Loops *)

Lemma next_in_head x r z : r ≠ [] → next_in (x :: r) z = if decide (z = x) then head r else next_in r z.
Proof. by destruct r. Qed.

Lemma pop_loop_spec xs c s : NoDup (xs ++ [c]) → (∀ x, x ∈ xs → x ∈ dom (blocks s)) →
  (∀ z, z ∈ xs → nxt (blocks s) z = next_in (xs ++ [c]) z) →
  ∃ m', pop_loop (length xs) (head (xs ++ [c])) s = (Ok (xs, Some c), with_blocks m' s) ∧
    same_payload (blocks s) m' ∧
    (∀ z, nxt m' z = if decide (z ∈ xs) then None else nxt (blocks s) z) ∧
    (∀ z, prv m' z = if decide (z ∈ xs) then None else prv (blocks s) z).
Proof.
  revert s. induction xs as [|x xs IH]; intros s Hnd Hd Hn.
  { exists (blocks s). split; [by destruct s|]. split; [done|]. split; intros z; (rewrite decide_False by set_solver); done. }
  cbn [app length head pop_loop] in *. apply NoDup_cons in Hnd as [Hx Hnd].
  rewrite next_run by (apply Hd; by left). rewrite Hn by by left.
  rewrite next_in_head by by destruct xs. rewrite decide_True by done.
  rewrite update_run by (apply Hd; by left). fold (unlink x (blocks s)).
  destruct (IH (with_blocks (unlink x (blocks s)) s)) as (m'&E&H0&H1&H2); [done|..].
  - intros z Hz. cbn [with_blocks blocks]. autorewrite with links. apply Hd. by right.
  - intros z Hz. cbn [with_blocks blocks]. autorewrite with links. rewrite decide_False by set_solver.
    rewrite Hn by by right. rewrite next_in_head by by destruct xs. by rewrite decide_False by set_solver.
  - rewrite (M_bind_run _ _ _ _ _ E). cbn [with_blocks blocks] in *. exists m'. split; [done|]. split.
    { etransitivity; [apply unlink_payload|done]. }
    split; intros z; [rewrite H1|rewrite H2]; autorewrite with links; repeat case_decide; set_solver.
Qed.

Lemma chain_after_spec xs a s : NoDup (a :: xs) → (∀ x, x ∈ a :: xs → x ∈ dom (blocks s)) →
  ∃ m', chain_after (Some a) xs s = (Ok (last (a :: xs)), with_blocks m' s) ∧
    same_payload (blocks s) m' ∧
    (∀ z, nxt m' z = override (next_in (a :: xs)) (nxt (blocks s)) z) ∧
    (∀ z, prv m' z = override (prev_in (a :: xs)) (prv (blocks s)) z).
Proof.
  revert a s. induction xs as [|x xs IH]; intros a s Hnd Hd.
  { exists (blocks s). split; [by destruct s|]. done. }
  cbn [chain_after]. pose proof Hnd as Hnd'. apply NoDup_cons in Hnd as [Ha Hnd].
  rewrite update_run by (apply Hd; set_solver). fold (set_prev x (Some a) (blocks s)). set (m1 := set_prev _ _ _).
  rewrite update_run by (cbn [with_blocks blocks]; subst m1; autorewrite with links; apply Hd; set_solver).
  cbn [with_blocks blocks]. fold (set_next a (Some x) m1). set (m2 := set_next _ _ m1).
  destruct (IH x (with_blocks m2 (with_blocks m1 s))) as (m'&E&H0&H1&H2); [done|..].
  { intros z Hz. cbn [with_blocks blocks]. subst m1 m2. autorewrite with links. apply Hd. by right. }
  cbn [with_blocks blocks] in *. exists m'. split; [exact E|]. split.
  { etransitivity; [apply (set_prev_payload x (Some a))|]. etransitivity; [apply (set_next_payload a (Some x))|]. done. }
  split; intros z; [rewrite H1|rewrite H2]; unfold override; rewrite ?next_in_cons, ?prev_in_cons; subst m1 m2;
    autorewrite with links; rewrite ?nxt_set_next, ?prv_set_prev by (autorewrite with links; apply Hd; set_solver); autorewrite with links.
  - case_decide as Hz; [subst; by rewrite next_in_out|done].
  - case_decide as Hz; [subst; by rewrite prev_in_head|done].
Qed.

Section ops2.
Context (s : KvHeap) (l : list loc).
Hypothesis Hq : queue_is s l.

Lemma popleft_n_ok n : (n ≤ length l)%nat →
  ∃ s', popleft_n n s = (Ok (take n l), s') ∧ queue_is s' (drop n l) ∧ evolves s s'.
Proof.
  intros Hn. unfold popleft_n. case_bool_decide as Hz.
  { subst n. exists s. rewrite take_0, drop_0. done. }
  pose proof (head_dom s l Hq) as Hh. set (xs := take n l).
  assert (Hlen : length xs = n) by (unfold xs; rewrite length_take; lia).
  assert (∃ b l2, drop n l ++ [fake_tail s] = b :: l2) as (b&l2&E2) by (destruct (drop n l); simpl; eauto).
  assert (Hc : chain s l = [] ++ fake_head s :: xs ++ b :: l2).
  { unfold chain. simpl. f_equal. rewrite <- E2, app_assoc. unfold xs. by rewrite take_drop. }
  pose proof (q_nodup _ _ Hq) as Hnd. rewrite Hc in Hnd. pose proof (nodup_mid [] (fake_head s) xs b l2 Hnd) as Hmid.
  assert (Hb : b ∈ dom (blocks s)) by (apply (q_dom _ _ Hq); rewrite Hc; set_solver).
  autorewrite with monad. rewrite (proj2 (Z.leb_le (Z.of_nat n) _)) by (rewrite (q_num _ _ Hq); lia).
  autorewrite with monad. unfold add_free. autorewrite with monad. rewrite next_run by done. cbn [blocks].
  rewrite (head_next s l Hq). replace (head (l ++ [fake_tail s])) with (head (xs ++ [b])).
  2: { unfold xs. destruct l as [|x l']; [simpl in Hn; lia|]. destruct n; [done|]. done. }
  clearbody xs.
  destruct (pop_loop_spec xs b (mkHeap (blocks s) (num_free_blocks s + - Z.of_nat n) (fake_head s) (fake_tail s)))
    as (m'&E&Hp&H1&H2); [by apply NoDup_cons in Hmid as [_ ?]|..].
  - intros x Hx. cbn [blocks]. apply (q_dom _ _ Hq). rewrite Hc. set_solver.
  - intros z Hz'. cbn [blocks]. rewrite (q_nxt _ _ Hq), Hc, next_in_splice by done. unfold override.
    apply NoDup_cons in Hmid as [Hm _]. assert (z ≠ fake_head s) by set_solver.
    rewrite next_in_head by by destruct xs. rewrite decide_False by done.
    destruct (next_in_Some (xs ++ [b]) z) as [y Hy]; [set_solver| |by rewrite Hy].
    rewrite last_snoc. intros [= ->]. apply NoDup_app in Hnd as (_&_&Hnd). apply NoDup_cons in Hnd as [_ Hnd].
    apply NoDup_app in Hnd as (_&Hnd&_). apply (Hnd z Hz'). by left.
  - rewrite Hlen in E. rewrite (M_bind_run _ _ _ _ _ E). cbn [with_blocks blocks num_free_blocks fake_head fake_tail] in *.
    pose proof (same_payload_dom _ _ Hp) as Hdom. rewrite run_assoc.
    rewrite update_run by (cbn [with_blocks blocks]; by rewrite <- Hdom). cbn [with_blocks blocks num_free_blocks fake_head fake_tail].
    fold (set_next (fake_head s) (Some b) m'). set (m1 := set_next _ _ _).
    rewrite update_run by (cbn [with_blocks blocks]; subst m1; autorewrite with links; by rewrite <- Hdom). cbn [with_blocks blocks num_free_blocks fake_head fake_tail].
    fold (set_prev b (Some (fake_head s)) m1). eexists. split; [done|]. split.
    + rewrite <- Z.sub_opp_r, Z.opp_involutive. replace (Z.of_nat n) with (Z.of_nat (length xs)) by (by rewrite Hlen). apply (cut_spec s l Hq [] (fake_head s) xs b l2); [done|unfold chain; by rewrite E2|
        subst m1; autorewrite with links; by rewrite <- Hdom|..]; intros z; subst m1; autorewrite with links;
        rewrite ?nxt_set_next, ?prv_set_prev by (autorewrite with links; by rewrite <- Hdom); autorewrite with links; rewrite ?H1, ?H2.
      * apply NoDup_cons in Hmid as [Hm _]. repeat case_decide; set_solver.
      * apply NoDup_cons in Hmid as [_ Hm]. apply NoDup_app in Hm as (_&Hm&_). repeat case_decide; try done; subst; set_solver.
    + split; [|done]. cbn [blocks]. etransitivity; [exact Hp|]. etransitivity; [apply set_next_payload|]. apply set_prev_payload.
Qed.

Lemma popleft_n_short n : (length l < n)%nat → popleft_n n s = (Err AssertionError, s).
Proof.
  intros Hn. unfold popleft_n. rewrite bool_decide_eq_false_2 by lia. autorewrite with monad.
  rewrite (proj2 (Z.leb_gt (Z.of_nat n) _)) by (rewrite (q_num _ _ Hq); lia). by autorewrite with monad.
Qed.

(** The common end of [prepend_n] and [append_n]. *)
Lemma link_spec l1 a xs b l2 l' :
  chain s l = l1 ++ a :: b :: l2 → chain s l' = l1 ++ a :: xs ++ b :: l2 → insertable s l xs →
  ∃ s', (prev ← chain_after (Some a) xs; update_block prev (with_next (Some b));;
         update_block (Some b) (with_prev prev);; add_free (Z.of_nat (length xs))) s = (Ok tt, s') ∧
    queue_is s' l' ∧ evolves s s'.
Proof.
  intros E E' [Hxs Hins]. pose proof (q_nodup _ _ Hq) as Hnd. rewrite E in Hnd.
  assert (Ha : a ∈ dom (blocks s)) by (apply (q_dom _ _ Hq); rewrite E; set_solver).
  assert (Hb : b ∈ dom (blocks s)) by (apply (q_dom _ _ Hq); rewrite E; set_solver).
  assert (Hax : NoDup (a :: xs)).
  { apply NoDup_cons. split; [|done]. intros H. apply Hins in H as [_ H]. rewrite E in H. set_solver. }
  assert (Hbx : b ∉ a :: xs).
  { apply NoDup_app in Hnd as (_&_&Hnd). apply NoDup_cons in Hnd as [Hnd _].
    intros [->|H]%elem_of_cons; [set_solver|]. apply Hins in H as [_ H]. rewrite E in H. set_solver. }
  destruct (chain_after_spec xs a s) as (m'&Er&Hp&H1&H2); [done|by intros x [->|H]%elem_of_cons; [done|apply Hins]|].
  rewrite (M_bind_run _ _ _ _ _ Er). pose proof (same_payload_dom _ _ Hp) as Hdom.
  destruct (exists_last (l := a :: xs) ltac:(done)) as (ax&z&Ez). rewrite Ez, last_snoc in *.
  assert (Hnz : NoDup (ax ++ [z; b])).
  { rewrite cons_middle, app_assoc. apply NoDup_app. split; [done|]. split; [set_solver|apply NoDup_singleton]. }
  assert (Hzd : z ∈ dom m').
  { rewrite <- Hdom. assert (Hz : z ∈ a :: xs) by (rewrite Ez; set_solver). apply elem_of_cons in Hz as [->|Hz]; [done|by apply Hins]. }
  rewrite update_run by done. cbn [with_blocks blocks num_free_blocks fake_head fake_tail].
  fold (set_next z (Some b) m'). set (m1 := set_next _ _ _).
  rewrite update_run by (cbn [with_blocks blocks]; subst m1; autorewrite with links; by rewrite <- Hdom). cbn [with_blocks blocks num_free_blocks fake_head fake_tail].
  fold (set_prev b (Some z) m1). eexists. split; [done|]. split.
  - eapply (insert_spec s l Hq l1 a xs b l2); [done|done|done|done|subst m1; cbn [with_blocks blocks]; autorewrite with links; by rewrite <- Hdom|..];
      intros y; subst m1; cbn [with_blocks blocks]; autorewrite with links; rewrite ?nxt_set_next, ?prv_set_prev by (autorewrite with links; first [done|by rewrite <- Hdom]);
      autorewrite with links; rewrite ?H1, ?H2, app_comm_cons, Ez; unfold override; rewrite <- app_assoc; cbn [app].
    + case_decide as Hy; [subst; by rewrite next_in_at|].
      destruct (decide (y ∈ ax)) as [Hya|Hya].
      * destruct (next_in_Some (ax ++ [z]) y) as [w Hw]; [set_solver|rewrite last_snoc; naive_solver|].
        rewrite Hw. clear - Hw Hnz. revert Hw Hnz. induction ax as [|p ax IH]; [done|]. cbn [app].
        rewrite !next_in_head by by destruct ax. intros Hw [_ Hn]%NoDup_cons. case_decide; [by destruct ax|by apply IH].
      * rewrite (next_in_out (ax ++ [z])) by set_solver. destruct (decide (y = b)) as [->|Hyb].
        -- change (ax ++ [z; b]) with (ax ++ [z] ++ [b]) in Hnz |- *. rewrite app_assoc in Hnz |- *. by rewrite next_in_last.
        -- by rewrite next_in_out by set_solver.
    + case_decide as Hy; [subst; by rewrite prev_in_at|]. clear - Hy.
      induction ax as [|p [|q ax] IH]; cbn [app] in *; [by simpl; rewrite decide_False|..]; rewrite !prev_in_cons; case_decide; try done.
  - split; [|done]. cbn [blocks]. etransitivity; [exact Hp|]. etransitivity; [apply set_next_payload|]. apply set_prev_payload.
Qed.

Lemma append_n_ok xs : insertable s l xs → ∃ s', append_n xs s = (Ok tt, s') ∧ queue_is s' (l ++ xs) ∧ evolves s s'.
Proof.
  intros Hins. unfold append_n. case_bool_decide as Hz; [subst; exists s; by rewrite app_nil_r|].
  autorewrite with monad. rewrite prev_run by (by eapply tail_dom). rewrite (tail_prev s l Hq).
  destruct (chain_last s l Hq) as (l1&a&Hc&Hl&Hcx&_). rewrite Hl. rewrite bool_decide_eq_false_2 by done. cbn [negb].
  autorewrite with monad. apply (link_spec l1 a xs (fake_tail s) [] (l ++ xs)); [done|apply Hcx|done].
Qed.

Lemma prepend_n_ok xs : insertable s l xs → ∃ s', prepend_n xs s = (Ok tt, s') ∧ queue_is s' (xs ++ l) ∧ evolves s s'.
Proof.
  intros Hins. unfold prepend_n. case_bool_decide as Hz; [subst; by exists s|].
  autorewrite with monad. rewrite next_run by (by eapply head_dom). rewrite (head_next s l Hq).
  assert (∃ b l2, l ++ [fake_tail s] = b :: l2) as (b&l2&E2) by (destruct l; simpl; eauto). rewrite E2. cbn [head].
  rewrite bool_decide_eq_false_2 by done. cbn [negb]. autorewrite with monad.
  apply (link_spec [] (fake_head s) xs b l2 (xs ++ l)); [unfold chain; by rewrite E2|unfold chain; by rewrite <- app_assoc, E2|done].
Qed.
End ops2.

(** ** Reading the list *)

Lemma chain_size s l : queue_is s l → (length l + 2 ≤ size (blocks s))%nat.
Proof.
  intros Hq. replace (length l + 2)%nat with (length (chain s l)) by (unfold chain; simpl; rewrite length_app; simpl; lia).
  rewrite <- size_dom, <- (size_list_to_set (C := gset nat) (chain s l)) by apply (q_nodup _ _ Hq).
  apply subseteq_size. intros x Hx%elem_of_list_to_set. by apply (q_dom _ _ Hq).
Qed.

Section walks.
Context (s : KvHeap) (l : list loc).
Hypothesis Hq : queue_is s l.

Lemma suffix_next p x r : chain s l = p ++ x :: r ++ [fake_tail s] → nxt (blocks s) x = head (r ++ [fake_tail s]).
Proof.
  intros E. rewrite (q_nxt _ _ Hq). pose proof (q_nodup _ _ Hq) as Hnd. rewrite E in Hnd |- *.
  assert (∃ b l2, r ++ [fake_tail s] = b :: l2) as (b&l2&E2) by (destruct r; simpl; eauto). rewrite E2 in Hnd |- *.
  by apply next_in_at.
Qed.

Lemma walk_all_spec xs p fuel : chain s l = p ++ xs ++ [fake_tail s] → (length xs < fuel)%nat →
  walk_all fuel (head (xs ++ [fake_tail s])) s = (Ok xs, s).
Proof.
  revert p fuel. induction xs as [|x xs IH]; intros p fuel E Hf; (destruct fuel as [|fuel]; [simpl in Hf; lia|]); cbn [walk_all app head].
  - rewrite next_run by by eapply tail_dom. rewrite (q_nxt _ _ Hq), E. cbn [app].
    rewrite next_in_last; [done|]. rewrite <- (app_nil_l [fake_tail s]), <- E. apply Hq.
  - rewrite next_run by (apply (q_dom _ _ Hq); rewrite E; set_solver).
    rewrite (suffix_next p x xs) by done. specialize (IH (p ++ [x]) fuel). rewrite <- app_assoc in IH.
    specialize (IH E ltac:(simpl in Hf; lia)). destruct (head (xs ++ [fake_tail s])) as [y|] eqn:Eh; [|by destruct xs].
    by rewrite (M_bind_run _ _ _ _ _ IH).
Qed.

Lemma get_all_ok : get_all_free_blocks s = (Ok l, s).
Proof.
  unfold get_all_free_blocks. autorewrite with monad. rewrite next_run by by eapply head_dom. rewrite (head_next s l Hq).
  rewrite bool_decide_eq_false_2 by by destruct l. apply (walk_all_spec l [fake_head s]); [done|].
  pose proof (chain_size s l Hq). lia.
Qed.

Lemma walk_to_spec xs p fuel : chain s l = p ++ xs ++ [fake_tail s] → (length xs < fuel)%nat →
  walk_to fuel (head (xs ++ [fake_tail s])) (fake_tail s) s = (Ok xs, s).
Proof.
  revert p fuel. induction xs as [|x xs IH]; intros p fuel E Hf; (destruct fuel as [|fuel]; [simpl in Hf; lia|]); cbn [walk_to app head].
  - by rewrite decide_True.
  - rewrite decide_False. 2: { intros ->. pose proof (q_nodup _ _ Hq) as Hnd. rewrite E in Hnd. cbn [app] in Hnd.
      apply NoDup_app in Hnd as (_&_&Hnd). apply NoDup_cons in Hnd as [Hnd _]. set_solver. }
    rewrite next_run by (apply (q_dom _ _ Hq); rewrite E; set_solver).
    rewrite (suffix_next p x xs) by done. specialize (IH (p ++ [x]) fuel). rewrite <- app_assoc in IH.
    by rewrite (M_bind_run _ _ _ _ _ (IH E ltac:(simpl in Hf; lia))).
Qed.

(** From the front, or after a free block. *)
Lemma iter_from_front : iter_blocks_after None s = (Ok l, s).
Proof.
  unfold iter_blocks_after. autorewrite with monad. simpl default. rewrite next_run by by eapply head_dom.
  rewrite (head_next s l Hq). apply (walk_to_spec l [fake_head s]); [done|]. pose proof (chain_size s l Hq). lia.
Qed.
Lemma iter_after l1 x l2 : l = l1 ++ x :: l2 → iter_blocks_after (Some x) s = (Ok l2, s).
Proof.
  intros E. unfold iter_blocks_after. autorewrite with monad. simpl default.
  assert (Hc : chain s l = (fake_head s :: l1) ++ x :: l2 ++ [fake_tail s]) by (unfold chain; by rewrite E, <- app_assoc).
  rewrite next_run by (apply (q_dom _ _ Hq); rewrite Hc; set_solver).
  rewrite (suffix_next _ x l2 Hc). apply (walk_to_spec l2 ((fake_head s :: l1) ++ [x])); [by rewrite <- app_assoc|].
  pose proof (chain_size s l Hq) as Hs. rewrite E, length_app in Hs. simpl in Hs. lia.
Qed.
(** A block that was popped since ends the iteration. *)
Lemma iter_after_popped x : x ∈ dom (blocks s) → x ∉ chain s l → iter_blocks_after (Some x) s = (Ok [], s).
Proof.
  intros Hd Hx. unfold iter_blocks_after. autorewrite with monad. simpl default. rewrite next_run by done.
  rewrite (q_nxt _ _ Hq), next_in_out by done. pose proof (chain_size s l Hq). by destruct (size (blocks s)); [lia|].
Qed.
End walks.

(** ** Building the queue *)

Lemma link_neighbours_spec bs prev s :
  NoDup (match prev with Some p => p :: bs | None => bs end) → (∀ x, x ∈ bs → x ∈ dom (blocks s)) →
  ∃ m', link_neighbours prev bs s = (Ok tt, with_blocks m' s) ∧ same_payload (blocks s) m' ∧
    (∀ z, nxt m' z = override (next_in bs) (nxt (blocks s)) z) ∧
    (∀ z, prv m' z = override (prev_in (match prev with Some p => p :: bs | None => bs end)) (prv (blocks s)) z).
Proof.
  revert prev s. induction bs as [|x bs IH]; intros prev s Hnd Hd.
  { exists (blocks s). split; [by destruct s|]. split; [done|]. split; [done|]. by destruct prev. }
  assert (Hx : x ∈ dom (blocks s)) by (apply Hd; by left).
  assert (Hstep : ∃ m1, (match prev with Some p => update_block (Some x) (with_prev (Some p)) | None => mret tt end) s =
      (Ok tt, with_blocks m1 s) ∧ same_payload (blocks s) m1 ∧ (∀ z, nxt m1 z = nxt (blocks s) z) ∧
      (∀ z, prv m1 z = match prev with Some p => if decide (z = x) then Some p else prv (blocks s) z | None => prv (blocks s) z end)).
  { destruct prev as [p|]; [|exists (blocks s); by destruct s].
    exists (set_prev x (Some p) (blocks s)). pose proof (update_run mret (with_prev (Some p)) x s Hx) as Hr. split.
    - unfold mbind, M_bind in Hr. by destruct (update_block (Some x) _ s) as [[[]|] ?].
    - split; [apply set_prev_payload|]. split; intros z; [by rewrite nxt_set_prev|by rewrite prv_set_prev]. }
  destruct Hstep as (m1&E1&P1&N1&V1). cbn [link_neighbours]. rewrite (M_bind_run _ _ _ _ _ E1).
  pose proof (same_payload_dom _ _ P1) as D1. assert (Hnd2 : NoDup (x :: bs)) by (destruct prev; [by apply NoDup_cons in Hnd as [_ ?]|done]).
  destruct bs as [|y bs].
  - cbn [link_neighbours]. exists m1. split; [done|]. split; [done|]. split; [done|]. intros z. rewrite V1. by destruct prev; unfold override; simpl; [case_decide|].
  - rewrite update_run by (cbn [with_blocks blocks]; by rewrite <- D1). cbn [with_blocks blocks]. fold (set_next x (Some y) m1).
    destruct (IH (Some x) (with_blocks (set_next x (Some y) m1) (with_blocks m1 s))) as (m'&E&P&N&V); [done|..].
    { intros z Hz. cbn [with_blocks blocks]. autorewrite with links. rewrite <- D1. apply Hd. by right. }
    cbn [with_blocks blocks] in *. exists m'. split; [exact E|]. split; [etransitivity; [exact P1|]; etransitivity; [apply set_next_payload|exact P]|].
    split; intros z; [rewrite N|rewrite V]; unfold override; autorewrite with links.
    + rewrite nxt_set_next by by rewrite <- D1. rewrite N1, next_in_cons. case_decide as Hz; [|done]. subst.
      apply NoDup_cons in Hnd2 as [Hnd2 _]. by rewrite next_in_out.
    + rewrite V1. destruct prev as [p|]; [|done]. rewrite (prev_in_cons p x). case_decide as Hz; [|done]. subst. by rewrite prev_in_head.
Qed.

Lemma fresh_links (m : gmap loc KVCacheBlock) x i z : x ∉ dom m → nxt (<[x := new_block i]> m) z = nxt m z ∧ prv (<[x := new_block i]> m) z = prv m z.
Proof.
  intros Hx%not_elem_of_dom. unfold nxt, prv. destruct (decide (z = x)) as [->|]; [by rewrite lookup_insert_eq, Hx|by rewrite lookup_insert_ne].
Qed.

(** The links of a whole list between its sentinels. *)
Lemma next_in_snoc bs t z : NoDup (bs ++ [t]) →
  next_in (bs ++ [t]) z = if decide (last bs = Some z) then Some t else next_in bs z.
Proof.
  intros Hnd. induction bs as [|p [|q bs] IH]; cbn [app] in *.
  - done.
  - rewrite next_in_cons. simpl. repeat case_decide; naive_solver.
  - apply NoDup_cons in Hnd as [Hp Hnd]. rewrite !next_in_cons, IH by done. change (last (p :: q :: bs)) with (last (q :: bs)).
    destruct (decide (z = p)) as [->|Hz]; [|done]. rewrite (decide_False (P := last _ = _)); [done|].
    intros Hl%last_Some_elem_of. set_solver.
Qed.
Lemma prev_in_snoc bs t z : NoDup (bs ++ [t]) →
  prev_in (bs ++ [t]) z = if decide (z = t) then last bs else prev_in bs z.
Proof.
  intros Hnd. induction bs as [|p [|q bs] IH]; cbn [app] in *.
  - by case_decide.
  - rewrite prev_in_cons. simpl. by repeat case_decide.
  - apply NoDup_cons in Hnd as [Hp Hnd]. rewrite !prev_in_cons, IH by done. change (last (p :: q :: bs)) with (last (q :: bs)).
    destruct (decide (z = q)) as [->|Hz]; [|done]. rewrite (decide_False (P := q = t)); [done|].
    intros ->. apply NoDup_cons in Hnd as [Hnd _]. set_solver.
Qed.

(** Two new objects, in no list. *)
Definition fresh_pair (m : gmap loc KVCacheBlock) (h t : loc) : Prop := (h ∉ dom m) ∧ (t ∉ dom m) ∧ h ≠ t.
Lemma sentinels (m : gmap loc KVCacheBlock) :
  let h := fresh (dom m : gset nat) in
  let t := fresh (dom (<[h := new_block (-1)]> m) : gset nat) in
  let m3 := <[t := new_block (-1)]> (<[h := new_block (-1)]> m) in
  fresh_pair m h t ∧ dom m3 = {[t]} ∪ {[h]} ∪ dom m ∧ (∀ z, nxt m3 z = nxt m z) ∧ (∀ z, prv m3 z = prv m z) ∧
  ∀ x, x ∈ dom m → m3 !! x = m !! x.
Proof.
  intros h t m3. assert (Hh : h ∉ dom m) by apply is_fresh.
  assert (Ht : t ∉ dom (<[h := new_block (-1)]> m)) by apply is_fresh. rewrite dom_insert in Ht.
  split; [split_and!; set_solver|]. split; [unfold m3; rewrite !dom_insert_L; set_solver|]. rewrite <- (dom_insert _ h (new_block (-1))) in Ht.
  split; [intros z; unfold m3; rewrite (proj1 (fresh_links _ t (-1) z Ht)); apply fresh_links; done|].
  split; [intros z; unfold m3; rewrite (proj2 (fresh_links _ t (-1) z Ht)); apply fresh_links; done|].
  intros x Hx. unfold m3. rewrite dom_insert in Ht. rewrite !lookup_insert_ne by set_solver. done.
Qed.

(** A new list's links, the four writes to its ends. *)
Lemma close_links m bs h t b0 z0 : dom m = {[t]} ∪ {[h]} ∪ dom m → NoDup (h :: bs ++ [t]) →
  (∀ x, x ∈ bs → x ∈ dom m) → head bs = Some b0 → last bs = Some z0 →
  (∀ z, nxt m z = next_in bs z) → (∀ z, prv m z = prev_in bs z) →
  let m' := set_next z0 (Some t) (set_prev t (Some z0) (set_prev b0 (Some h) (set_next h (Some b0) m))) in
  (∀ z, nxt m' z = next_in (h :: bs ++ [t]) z) ∧ (∀ z, prv m' z = prev_in (h :: bs ++ [t]) z).
Proof.
  intros Hd Hnd Hb Hh Hl Hn Hp m'. apply NoDup_cons in Hnd as [Hhn Hnd].
  assert (h ∈ dom m ∧ t ∈ dom m) as [Hhd Htd] by (rewrite Hd; set_solver).
  assert (Hzd : z0 ∈ dom m) by (apply Hb; by apply last_Some_elem_of in Hl).
  assert (Hbd : b0 ∈ dom m) by (apply Hb; by apply head_Some_elem_of in Hh).
  apply last_Some_elem_of in Hl as Hl'. apply head_Some_elem_of in Hh as Hh'.
  split; intros z; subst m'.
  - rewrite nxt_set_next by (autorewrite with links; done). autorewrite with links. rewrite nxt_set_next, Hn by done.
    rewrite next_in_head by by destruct bs. rewrite next_in_snoc, Hl by done.
    assert (head (bs ++ [t]) = Some b0) as -> by (by destruct bs; simpl in *; simplify_eq).
    repeat case_decide; set_solver.
  - autorewrite with links. rewrite !prv_set_prev by (autorewrite with links; done). autorewrite with links. rewrite Hp.
    destruct bs as [|b bs']; [done|]. injection Hh as ->. cbn [app]. rewrite prev_in_cons, app_comm_cons, prev_in_snoc, Hl by done.
    repeat case_decide; try done. subst. apply NoDup_app in Hnd as (_&Hnd&_). exfalso. apply (Hnd b0); set_solver.
Qed.

(** The constructor, on blocks that are in no list yet. *)
Lemma new_queue_ok bs s :
  NoDup bs → (∀ x, x ∈ bs → x ∈ dom (blocks s)) → (∀ z, nxt (blocks s) z = None ∧ prv (blocks s) z = None) →
  ∃ s', new_queue bs s = (Ok tt, s') ∧ queue_is s' bs ∧
    (∀ x, x ∈ dom (blocks s) → payload <$> blocks s !! x = payload <$> blocks s' !! x) ∧
    (dom (blocks s) ⊆ dom (blocks s')) ∧ (fake_head s' ∉ dom (blocks s)) ∧ fake_tail s' ∉ dom (blocks s).
Proof.
  intros Hnd Hd H0. destruct (link_neighbours_spec bs None s Hnd Hd) as (m&E&P&N&V).
  unfold new_queue. rewrite (M_bind_run _ _ _ _ _ E). pose proof (same_payload_dom _ _ P) as D.
  destruct (sentinels m) as ((Hh&Ht&Hht)&D3&N3&V3&L3).
  erewrite M_bind_run; [|unfold alloc_block; cbn [with_blocks blocks]; reflexivity].
  erewrite M_bind_run; [|unfold alloc_block; cbn [with_blocks blocks]; reflexivity].
  set (h := fresh (dom m : gset nat)) in *. set (t := fresh (dom (<[h := new_block (-1)]> m) : gset nat)) in *.
  cbn [with_blocks blocks]. set (m3 := <[t := _]> (<[h := _]> m)) in *. autorewrite with monad. cbn [with_blocks blocks].
  assert (Hn3 : ∀ z, nxt m3 z = next_in bs z).
  { intros z. rewrite N3, N. unfold override. rewrite (proj1 (H0 z)). by destruct (next_in bs z). }
  assert (Hp3 : ∀ z, prv m3 z = prev_in bs z).
  { intros z. rewrite V3, V. unfold override. rewrite (proj2 (H0 z)). by destruct (prev_in bs z). }
  assert (Hpay : ∀ x, x ∈ dom (blocks s) → payload <$> blocks s !! x = payload <$> m3 !! x).
  { intros x Hx. rewrite (P x), L3; [done|by rewrite <- D]. }
  assert (Hb3 : ∀ x, x ∈ h :: bs ++ [t] → x ∈ dom m3) by (intros x Hx; rewrite D3, <- D; specialize (Hd x); set_solver).
  assert (Hchain : NoDup (h :: bs ++ [t])).
  { rewrite <- D in Hh, Ht. apply NoDup_cons. split; [|apply NoDup_app; split; [done|]; split; [|apply NoDup_singleton]].
    - intros [Hx|Hx]%elem_of_app; [by apply Hh, Hd|set_solver].
    - intros x Hx ->%list_elem_of_singleton. by apply Ht, Hd. }
  assert (D3' : dom m3 = {[t]} ∪ {[h]} ∪ dom m3) by set_solver.
  assert (Hext : (dom (blocks s) ⊆ dom m3) ∧ (h ∉ dom (blocks s)) ∧ t ∉ dom (blocks s)) by (rewrite D; set_solver).
  clearbody h t m3. clear N3 V3 L3 D3 Hh Ht N V.
  assert (Hfin : ∀ m', (∀ z, nxt m' z = next_in (h :: bs ++ [t]) z) → (∀ z, prv m' z = prev_in (h :: bs ++ [t]) z) → same_payload m3 m' →
    queue_is (mkHeap m' (Z.of_nat (length bs)) h t) bs ∧ (∀ x, x ∈ dom (blocks s) → payload <$> blocks s !! x = payload <$> m' !! x) ∧
    (dom (blocks s) ⊆ dom m') ∧ (h ∉ dom (blocks s)) ∧ t ∉ dom (blocks s)).
  { intros m' Hn' Hp' Hs'. split; [|split; [intros x Hx; rewrite (Hpay x Hx); apply Hs'|rewrite <- (same_payload_dom _ _ Hs'); done]].
    split; [done| |done|done|done]. intros x Hx. cbn [blocks]. rewrite <- (same_payload_dom _ _ Hs'). by apply Hb3. }
  destruct bs as [|b0 bs'] eqn:Eb; [|rewrite <- Eb in *].
  - assert (h ∈ dom m3 ∧ t ∈ dom m3) as [Hh3 Ht3] by (split; apply Hb3; set_solver).
    rewrite update_run by done. cbn [with_blocks blocks num_free_blocks fake_head fake_tail].
    fold (set_next h (Some t) m3). eexists (mkHeap (set_prev t (Some h) (set_next h (Some t) m3)) 0 h t).
    split; [apply update_end; cbn [with_blocks blocks]; unfold set_next; rewrite ?dom_alter_L; done|]. apply Hfin.
    + intros z. cbn [blocks]. autorewrite with links. rewrite nxt_set_next, Hn3 by done. simpl. by case_decide.
    + intros z. cbn [blocks]. rewrite prv_set_prev by by autorewrite with links. autorewrite with links. rewrite Hp3. simpl. by case_decide.
    + etransitivity; [apply set_next_payload|apply set_prev_payload].
  - destruct (last bs) as [z0|] eqn:Hl; [|by apply last_None in Hl; rewrite Eb in Hl].
    assert (Hz0 : z0 ∈ dom m3) by (apply Hb3; apply last_Some_elem_of in Hl; set_solver).
    assert (Hb0 : b0 ∈ dom m3) by (apply Hb3; rewrite Eb; set_solver).
    assert (h ∈ dom m3 ∧ t ∈ dom m3) as [Hh3 Ht3] by (split; apply Hb3; set_solver).
    do 3 (rewrite update_run by (cbn [with_blocks blocks]; rewrite ?dom_alter_L; done); cbn [with_blocks blocks num_free_blocks fake_head fake_tail]).
    eexists (mkHeap (set_next z0 (Some t) (set_prev t (Some z0) (set_prev b0 (Some h) (set_next h (Some b0) m3)))) (Z.of_nat (length bs)) h t).
    split; [apply update_end; cbn [with_blocks blocks]; unfold set_next, set_prev; rewrite ?dom_alter_L; done|].
    destruct (close_links m3 bs h t b0 z0) as [Hnx Hpx]; [done|done|intros x Hx; apply Hb3; set_solver|by rewrite Eb|done..|].
    apply Hfin; [done..|]. etransitivity; [apply set_next_payload|]. etransitivity; [apply set_prev_payload|].
    etransitivity; [apply set_prev_payload|apply set_next_payload].
Qed.
