(* ===== verification/KvBlocksProps.v ===== *)
(** What the free-block queue promises its callers: whatever sequence of
    operations they run, the linked objects behave as one list of blocks, and
    nothing but the links of the blocks changes. *)
From S2P Require Import Prelude Bytes KvBlocks KvBlocksInv.
From stdpp Require Import base list gmap sets strings.
From Stdlib Require Import ZArith Lia.
#[local] Open Scope Z_scope.

(** * The list the queue stands for *)

Inductive QOp :=
  | Popleft | PopleftN (n : nat) | Remove (x : loc) | Append (x : loc)
  | AppendN (xs : list loc) | PrependN (xs : list loc) | GetAll | IterAfter (cursor : option loc).

(** The code. *)
Definition run_op (op : QOp) : M KvHeap (list loc) :=
  match op with
  | Popleft => x ← popleft; mret [x]
  | PopleftN n => popleft_n n
  | Remove x => remove_block x;; mret []
  | Append x => append x;; mret []
  | AppendN xs => append_n xs;; mret []
  | PrependN xs => prepend_n xs;; mret []
  | GetAll => get_all_free_blocks
  | IterAfter c => iter_blocks_after c
  end.

(** The blocks behind [c]. *)
Fixpoint after (c : loc) (l : list loc) : list loc :=
  match l with [] => [] | x :: l => if decide (x = c) then l else after c l end.

(** The contract. *)
Definition spec_op (op : QOp) (l : list loc) : res (list loc) * list loc :=
  match op with
  | Popleft => match l with [] => (Err ValueError, []) | x :: l => (Ok [x], l) end
  | PopleftN n => if decide (n ≤ length l)%nat then (Ok (take n l), drop n l) else (Err AssertionError, l)
  | Remove x => if decide (x ∈ l) then (Ok [], filter (.≠ x) l) else (Err RuntimeError, l)
  | Append x => (Ok [], l ++ [x])
  | AppendN xs => (Ok [], l ++ xs)
  | PrependN xs => (Ok [], xs ++ l)
  | GetAll => (Ok l, l)
  | IterAfter c => (Ok match c with None => l | Some c => after c l end, l)
  end.

(** The blocks a caller may name: any block of the pool, and for an insertion
    blocks that are not free already, each once. *)
Definition legal (pool : gset loc) (l : list loc) (op : QOp) : Prop :=
  let fresh_ xs := NoDup xs ∧ Forall (λ x, x ∈ pool ∧ x ∉ l) xs in
  match op with
  | Remove x | IterAfter (Some x) => x ∈ pool
  | Append x => fresh_ [x]
  | AppendN xs | PrependN xs => fresh_ xs
  | _ => True
  end.

#[export] Instance legal_dec pool l op : Decision (legal pool l op).
Proof. destruct op as [| | | | | | |[]]; unfold legal; apply _. Defined.

(** Runs: the value or exception of each operation, and where it ends. *)
Fixpoint run_ops (ops : list QOp) (s : KvHeap) : list (res (list loc)) * KvHeap :=
  match ops with
  | [] => ([], s)
  | op :: ops => let '(r, s1) := run_op op s in let '(rs, s2) := run_ops ops s1 in (r :: rs, s2)
  end.
Fixpoint spec_ops (ops : list QOp) (l : list loc) : list (res (list loc)) * list loc :=
  match ops with
  | [] => ([], l)
  | op :: ops => let '(r, l1) := spec_op op l in let '(rs, l2) := spec_ops ops l1 in (r :: rs, l2)
  end.
Fixpoint legal_ops (pool : gset loc) (ops : list QOp) (l : list loc) : Prop :=
  match ops with
  | [] => True
  | op :: ops => legal pool l op ∧ legal_ops pool ops (spec_op op l).2
  end.

#[export] Instance legal_ops_dec pool ops l : Decision (legal_ops pool ops l).
Proof. revert l. induction ops as [|op ops IH]; intros l; simpl; apply _. Defined.

(** The pool: live objects other than the sentinels. *)
Definition pool_of (s : KvHeap) (pool : gset loc) : Prop :=
  (pool ⊆ dom (blocks s)) ∧ (fake_head s ∉ pool) ∧ fake_tail s ∉ pool.

Lemma pool_evolves s s' pool : pool_of s pool → evolves s s' → pool_of s' pool.
Proof. intros (H1&H2&H3) (E1&E2&E3). rewrite <- E2 in H2. rewrite <- E3 in H3. rewrite (same_payload_dom _ _ E1) in H1. done. Qed.

Lemma pool_insertable s l pool xs : pool_of s pool →
  NoDup xs ∧ Forall (λ x, x ∈ pool ∧ x ∉ l) xs → insertable s l xs.
Proof.
  intros (H1&H2&H3) [Hn Hx]. split; [done|]. rewrite Forall_forall in Hx. intros x Hi. destruct (Hx x Hi) as [Hp Hl]. split; [set_solver|].
  unfold chain. intros [->|[?| ->%list_elem_of_singleton]%elem_of_app]%elem_of_cons; done.
Qed.

Lemma after_app x l1 l2 : x ∉ l1 → after x (l1 ++ x :: l2) = l2.
Proof.
  induction l1 as [|y l1 IH]; simpl; [by rewrite decide_True|]. intros H. rewrite decide_False by set_solver. apply IH. set_solver.
Qed.
Lemma after_out x l : x ∉ l → after x l = [].
Proof. induction l as [|y l IH]; simpl; [done|]. intros H. rewrite decide_False by set_solver. apply IH. set_solver. Qed.

(** One operation. *)
Lemma run_op_spec s l pool op : queue_is s l → pool_of s pool → legal pool l op →
  ∃ s', run_op op s = ((spec_op op l).1, s') ∧ queue_is s' (spec_op op l).2 ∧ evolves s s'.
Proof.
  intros Hq Hp Hl. destruct op as [|n|x|x|xs|xs| |[c|]]; cbn [run_op spec_op legal] in *.
  - destruct l as [|x l'].
    + exists s. unfold mbind, M_bind. by rewrite (popleft_nil s []).
    + destruct (popleft_cons s (x :: l') Hq x l' eq_refl) as (s'&E&?&?). exists s'. by rewrite (M_bind_run _ _ _ _ _ E).
  - case_decide as Hn; [|exists s; by rewrite (popleft_n_short s l Hq) by lia].
    destruct (popleft_n_ok s l Hq n Hn) as (s'&E&?&?). by exists s'.
  - case_decide as Hx.
    + destruct (remove_in s l Hq x Hx) as (s'&E&?&?). exists s'. by rewrite (M_bind_run _ _ _ _ _ E).
    + exists s. assert (Hd : x ∈ dom (blocks s)) by by apply Hp. by rewrite (M_bind_err _ _ _ _ _ (remove_out s l Hq x Hd Hx)).
  - destruct (append_ok s l Hq x) as (s'&E&?&?); [by eapply pool_insertable|]. exists s'. by rewrite (M_bind_run _ _ _ _ _ E).
  - destruct (append_n_ok s l Hq xs) as (s'&E&?&?); [by eapply pool_insertable|]. exists s'. by rewrite (M_bind_run _ _ _ _ _ E).
  - destruct (prepend_n_ok s l Hq xs) as (s'&E&?&?); [by eapply pool_insertable|]. exists s'. by rewrite (M_bind_run _ _ _ _ _ E).
  - exists s. by rewrite (get_all_ok s l Hq).
  - exists s. cbn [fst snd]. split; [|done]. destruct (decide (c ∈ l)) as [Hc|Hc].
    + apply list_elem_of_split in Hc as (l1&l2&El). rewrite (iter_after s l Hq l1 c l2 El), El, after_app; [done|].
      pose proof (q_nodup _ _ Hq) as Hn. unfold chain in Hn. rewrite El in Hn. apply NoDup_cons in Hn as [_ Hn].
      rewrite <- app_assoc in Hn. apply NoDup_app in Hn as (_&Hn&_). intros H. apply (Hn c H). set_solver.
    + rewrite after_out by done. apply (iter_after_popped s l Hq); [by apply Hp|]. destruct Hp as (_&Hh&Ht).
      unfold chain. intros [->|[?| ->%list_elem_of_singleton]%elem_of_app]%elem_of_cons; done.
  - exists s. by rewrite (iter_from_front s l Hq).
Qed.

(** C5: The free-block queue implements a list.  Built on blocks that are in
    no list, and used through any sequence of operations that inserts only
    blocks of the pool that are not free, every operation returns (or raises)
    exactly what it would on the list of its free blocks, front first; the
    queue's counter is that list's length; and no field of a block but its
    two links is ever changed. *)
Theorem free_queue_refines s bs ops :
  NoDup bs → (∀ x, x ∈ bs → x ∈ dom (blocks s)) → (∀ z, nxt (blocks s) z = None ∧ prv (blocks s) z = None) →
  legal_ops (dom (blocks s)) ops bs →
  ∃ s0, new_queue bs s = (Ok tt, s0) ∧
    let '(rs, s1) := run_ops ops s0 in
    rs = (spec_ops ops bs).1 ∧ queue_is s1 (spec_ops ops bs).2 ∧
    num_free_blocks s1 = Z.of_nat (length (spec_ops ops bs).2) ∧
    ∀ x, x ∈ dom (blocks s) → payload <$> blocks s1 !! x = payload <$> blocks s !! x.
Proof.
  intros Hnd Hd H0 Hleg. destruct (new_queue_ok bs s Hnd Hd H0) as (s0&E&Hq&Hpay&Hpool).
  exists s0. split; [done|].
  assert (G : ∀ ops l s0, queue_is s0 l → pool_of s0 (dom (blocks s)) → legal_ops (dom (blocks s)) ops l →
    let '(rs, s1) := run_ops ops s0 in rs = (spec_ops ops l).1 ∧ queue_is s1 (spec_ops ops l).2 ∧ evolves s0 s1).
  { clear. induction ops as [|op ops IH]; intros l s0 Hq Hp Hl; [done|]. cbn [run_ops spec_ops legal_ops] in *.
    destruct Hl as [Hl Hls]. destruct (run_op_spec s0 l _ op Hq Hp Hl) as (s1&E&Hq1&He).
    rewrite E. destruct (spec_op op l) as [r l1]. cbn [fst snd] in *.
    specialize (IH l1 s1 Hq1 (pool_evolves _ _ _ Hp He) Hls). destruct (run_ops ops s1) as [rs s2], (spec_ops ops l1) as [rs' l2].
    cbn [fst snd] in *. destruct IH as (->&Hq2&He2). split; [done|]. split; [done|]. by transitivity s1. }
  specialize (G ops bs s0 Hq Hpool Hleg). destruct (run_ops ops s0) as [rs s1]. destruct G as (->&Hq1&He&_).
  split; [done|]. split; [done|]. split; [apply Hq1|]. intros x Hx. rewrite (Hpay x Hx). symmetry. apply He.
Qed.

(** * Block-hash keys *)

Lemma to_bytes_be4_ok n : 0 ≤ n < 2 ^ 32 → to_bytes_be4 n = Ok (rev (le_bytes 4 n)).
Proof.
  intros [H1 H2]. unfold to_bytes_be4. by rewrite (proj2 (Z.leb_le 0 n)), (proj2 (Z.ltb_lt n _)).
Qed.

(** Packing a block hash with a group id loses nothing: for every hash
    and every id of four bytes both parts come back, ids that do not fit are
    refused, and keys are equal only for equal hash and group. *)
Theorem block_key_roundtrip :
  (∀ h g, 0 ≤ g < 2 ^ 32 → ∃ key, make_block_hash_with_group_id h g = Ok key ∧ get_block_hash key = h ∧ get_group_id key = g) ∧
  (∀ h g, ¬ (0 ≤ g < 2 ^ 32) → make_block_hash_with_group_id h g = Err OverflowError) ∧
  (∀ h1 g1 h2 g2 key, make_block_hash_with_group_id h1 g1 = Ok key → make_block_hash_with_group_id h2 g2 = Ok key → h1 = h2 ∧ g1 = g2).
Proof.
  assert (R : ∀ h g, 0 ≤ g < 2 ^ 32 → ∃ key, make_block_hash_with_group_id h g = Ok key ∧ get_block_hash key = h ∧ get_group_id key = g).
  { intros h g Hg. unfold make_block_hash_with_group_id. rewrite to_bytes_be4_ok by done. eexists. split; [done|].
    unfold get_block_hash, get_group_id, from_bytes_be. rewrite length_app, length_rev, le_bytes_length.
    replace (length h + 4 - 4)%nat with (length h) by lia. rewrite take_app_length, drop_app_length, rev_involutive.
    split; [done|]. by apply le_int_bytes. }
  assert (E : ∀ h g, ¬ (0 ≤ g < 2 ^ 32) → make_block_hash_with_group_id h g = Err OverflowError).
  { intros h g Hg. unfold make_block_hash_with_group_id, to_bytes_be4.
    destruct (Z.leb_spec 0 g), (Z.ltb_spec g (2 ^ 32)); try done. lia. }
  split; [done|]. split; [done|]. intros h1 g1 h2 g2 key H1 H2.
  destruct (decide (0 ≤ g1 < 2 ^ 32)) as [Hg1|]; [|by rewrite E in H1]. destruct (decide (0 ≤ g2 < 2 ^ 32)) as [Hg2|]; [|by rewrite E in H2].
  destruct (R h1 g1 Hg1) as (k1&E1&A1&B1), (R h2 g2 Hg2) as (k2&E2&A2&B2). rewrite H1 in E1. rewrite H2 in E2.
  injection E1 as <-. injection E2 as <-. split; congruence.
Qed.

(** * Instances *)

Definition pool4 : KvHeap := mkHeap (list_to_map ((λ i, (i, new_block (Z.of_nat i))) <$> seq 0 4)) 0 0 0.
Definition ops4 : list QOp :=
  [PopleftN 2; GetAll; Append 1%nat; PrependN [0%nat]; Remove 2%nat; IterAfter (Some 0%nat); Popleft; PopleftN 5;
   AppendN [2%nat; 0%nat]; Remove 1%nat; GetAll; IterAfter (Some 3%nat); Remove 1%nat].

Lemma free_queue_refines_witness :
  (spec_ops ops4 [0; 1; 2; 3]%nat).1 =
    [Ok [0; 1]; Ok [2; 3]; Ok []; Ok []; Ok []; Ok [3; 1]; Ok [0]; Err AssertionError; Ok []; Ok []; Ok [3; 2; 0]; Ok [2; 0]; Err RuntimeError]%nat ∧
  ∃ s0, new_queue [0; 1; 2; 3]%nat pool4 = (Ok tt, s0) ∧
    let '(rs, s1) := run_ops ops4 s0 in
    rs = (spec_ops ops4 [0; 1; 2; 3]%nat).1 ∧ queue_is s1 (spec_ops ops4 [0; 1; 2; 3]%nat).2 ∧
    num_free_blocks s1 = Z.of_nat (length (spec_ops ops4 [0; 1; 2; 3]%nat).2) ∧
    ∀ x, x ∈ dom (blocks pool4) → payload <$> blocks s1 !! x = payload <$> blocks pool4 !! x.
Proof.
  split; [vm_compute; reflexivity|]. apply (free_queue_refines pool4 [0; 1; 2; 3]%nat ops4).
  - apply (bool_decide_unpack _). vm_compute. exact I.
  - intros x Hx. apply elem_of_dom. repeat (apply elem_of_cons in Hx as [->|Hx]; [vm_compute; by eexists|]). by apply not_elem_of_nil in Hx.
  - intros z. destruct (blocks pool4 !! z) as [b|] eqn:E; [|unfold nxt, prv; by rewrite E].
    apply elem_of_list_to_map_2 in E. apply list_elem_of_fmap in E as (i&[= -> ->]&Hi).
    apply elem_of_seq in Hi. destruct i as [|[|[|[|i]]]]; [by vm_compute..|lia].
  - apply (bool_decide_unpack _). vm_compute. exact I.
Defined.
