(* ===== verification/KvHash.v ===== *)
(** Block hashing for prefix caching, of
    src/runtime/vllm029/overlay/vllm/v1/core/kv_cache_utils.py: the seed of
    the chain, the extra keys of a block, the incremental hasher of a request,
    and the views of its hashes at coarser block sizes.  Hash functions, the
    digest of prompt embeddings and the request object are the callers'. *)
From S2P Require Import Prelude Bytes KvBlocks.
From stdpp Require Import base list gmap sets strings.
From Stdlib Require Import ZArith Lia.
#[local] Open Scope string_scope.
#[local] Open Scope list_scope.
#[local] Open Scope Z_scope.

(** * What is hashed *)

(** The members of an [extra_keys] tuple: a LoRA name or a cache salt is a
    string, a multi-modal item a pair, a digest of embeddings bytes. *)
Inductive ExtraKey := KeyStr (s : string) | KeyMM (identifier : string) (offset : Z) | KeyBytes (b : list byte).
Inductive HashInput :=
  | HSeed (s : string)
  | HBlock (parent : BlockHash) (tokens : list Z) (extra_keys : option (list ExtraKey)).

#[export] Instance extra_key_eq_dec : EqDecision ExtraKey.
Proof. solve_decision. Defined.

(** [l[a:b]] for [0 <= a <= b]. *)
Definition py_slice {A} (l : list A) (a b : Z) : list A := take (Z.to_nat (b - a)) (drop (Z.to_nat a) l).
(** [l[i]], with Python's negative indices. *)
Definition py_index {A} (l : list A) (i : Z) : res A :=
  let n := Z.of_nat (length l) in
  if (i <? - n) || (n <=? i) then Err IndexError
  else res_of_option IndexError (l !! Z.to_nat (if i <? 0 then i + n else i)).

(** * Requests *)

(** A multi-modal feature: [identifier], [mm_position.offset] and [.length]. *)
Record MMFeature := mkMM { identifier : option string; mm_offset : Z; mm_length : Z }.

Section hash.
(** [prompt_embeds], and [sha256(tensor_data(prompt_embeds[a:b])).digest()]. *)
Context {Emb : Type} (embeds_digest : Emb → Z → Z → list byte).

Record Request := mkRequest {
  all_token_ids : list Z;
  num_tokens : Z;
  block_hashes : list BlockHash;
  mm_features : list MMFeature;
  lora_name : option string;
  cache_salt : option string;
  prompt_embeds : option Emb;
  _prompt_embeds_per_block_hashes : gmap (Z * Z) (list byte) }.

(** ** Extra keys *)

(** The [while] loop of [_gen_mm_extra_hash_keys], from [mm_features[idx]] on. *)
Fixpoint mm_loop (rest : list MMFeature) (idx : Z) (start end_ : Z) : res (list ExtraKey * Z) :=
  match rest with
  | [] => Ok ([], idx)
  | f :: rest =>
    match identifier f with
    | None => Err AssertionError
    | Some id =>
      if mm_offset f <? end_ then
        if mm_offset f + mm_length f <=? start then mm_loop rest (idx + 1) start end_
        else
          let key := KeyMM id (mm_offset f - start) in
          if mm_offset f + mm_length f <=? end_ then
            '(keys, i) ← mm_loop rest (idx + 1) start end_; Ok (key :: keys, i)
          else Ok ([key], idx)
      else Ok ([], idx)
    end
  end.

Definition _gen_mm_extra_hash_keys (r : Request) (start_token_idx end_token_idx start_mm_idx : Z) :
    res (list ExtraKey * Z) :=
  match last (mm_features r) with
  | None => Ok ([], start_mm_idx)
  | Some last_pos =>
    if mm_offset last_pos + mm_length last_pos <=? start_token_idx then Ok ([], start_mm_idx) else
    let n := Z.of_nat (length (mm_features r)) in
    if (start_mm_idx <? 0) && negb (- start_mm_idx <=? n) then Err AssertionError else
    let i := if start_mm_idx <? 0 then n + start_mm_idx else start_mm_idx in
    mm_loop (drop (Z.to_nat i) (mm_features r)) i start_token_idx end_token_idx
  end.

Definition _gen_lora_extra_hash_keys (r : Request) : list ExtraKey :=
  match lora_name r with None => [] | Some n => [KeyStr n] end.

Definition _gen_prompt_embeds_extra_hash_keys (start_token_idx end_token_idx : Z) : M Request (list ExtraKey) :=
  λ r, match prompt_embeds r with
       | None => (Ok [], r)
       | Some e =>
         match _prompt_embeds_per_block_hashes r !! (start_token_idx, end_token_idx) with
         | Some h => (Ok [KeyBytes h], r)
         | None =>
           let h := embeds_digest e start_token_idx end_token_idx in
           (Ok [KeyBytes h],
            mkRequest (all_token_ids r) (num_tokens r) (block_hashes r) (mm_features r) (lora_name r) (cache_salt r)
              (prompt_embeds r) (<[(start_token_idx, end_token_idx) := h]> (_prompt_embeds_per_block_hashes r)))
         end
       end.

Definition generate_block_hash_extra_keys (start_token_idx end_token_idx start_mm_idx : Z) :
    M Request (option (list ExtraKey) * Z) :=
  r ← get;
  '(mm_keys, new_start_mm_idx) ← lift (_gen_mm_extra_hash_keys r start_token_idx end_token_idx start_mm_idx);
  let lora_keys := _gen_lora_extra_hash_keys r in
  let salt_keys := match cache_salt r with
                   | Some s => if (start_token_idx =? 0) && negb (String.eqb s "") then [KeyStr s] else []
                   | None => []
                   end in
  embeds_keys ← _gen_prompt_embeds_extra_hash_keys start_token_idx end_token_idx;
  let extra_keys := lora_keys ++ mm_keys ++ salt_keys ++ embeds_keys in
  if bool_decide (extra_keys = []) then mret (None, new_start_mm_idx)
  else mret (Some extra_keys, new_start_mm_idx).

(** ** The seed of the chain *)

Section seed.
Context {HashFn : Type} `{EqDecision HashFn} (xxhash xxhash_cbor : HashFn) (call : HashFn → HashInput → list byte).

Definition DEFAULT_NONE_HASH_SEED : string := "vllm-none-hash".
Definition _NON_CRYPTO_HASH_FUNCTIONS : list HashFn := [xxhash; xxhash_cbor].

(** [hash_seed] is [PYTHONHASHSEED], [random] is [os.urandom(32).hex()]. *)
Definition resolve_none_hash_seed (hash_seed : option string) (random : string) (hash_fn : HashFn) : string :=
  match hash_seed with
  | Some s => s
  | None => if bool_decide (hash_fn ∈ _NON_CRYPTO_HASH_FUNCTIONS) then random else DEFAULT_NONE_HASH_SEED
  end.

(** The module globals [NONE_HASH] and [_NONE_HASH_SEED]. *)
Record HashGlobals := mkGlobals { NONE_HASH : option BlockHash; _NONE_HASH_SEED : option string }.
Definition get_none_hash_seed (g : HashGlobals) : string := default DEFAULT_NONE_HASH_SEED (_NONE_HASH_SEED g).
Definition init_none_hash (hash_seed : option string) (random : string) (hash_fn : HashFn) : M HashGlobals unit :=
  λ _, let s := resolve_none_hash_seed hash_seed random hash_fn in
       (Ok tt, mkGlobals (Some (call hash_fn (HSeed s))) (Some s)).
End seed.

(** ** Hashing *)

Context (hash_function : HashInput → list byte) (none_hash : BlockHash).

Definition hash_block_tokens (parent_block_hash : option BlockHash) (curr_block_token_ids : list Z)
    (extra_keys : option (list ExtraKey)) : BlockHash :=
  let parent := match parent_block_hash with Some ((_ :: _) as h) => h | _ => none_hash end in
  hash_function (HBlock parent curr_block_token_ids extra_keys).

(** The [while True] loop of [request_block_hasher]. *)
Fixpoint hasher_loop (fuel : nat) (hash_block_size start_token_idx curr_mm_idx : Z) (prev : option BlockHash) :
    M Request (list BlockHash) :=
  match fuel with
  | O => raise OutOfFuel
  | S fuel =>
    r ← get;
    let end_token_idx := start_token_idx + hash_block_size in
    if num_tokens r <? end_token_idx then mret [] else
    '(extra_keys, curr_mm_idx) ← generate_block_hash_extra_keys start_token_idx end_token_idx curr_mm_idx;
    let block_tokens := py_slice (all_token_ids r) start_token_idx end_token_idx in
    let block_hash := hash_block_tokens prev block_tokens extra_keys in
    rest ← hasher_loop fuel hash_block_size (start_token_idx + hash_block_size) curr_mm_idx (Some block_hash);
    mret (block_hash :: rest)
  end.

(** [get_request_block_hasher(hash_block_size, caching_hash_fn)(request)] *)
Definition request_block_hasher (hash_block_size : Z) : M Request (list BlockHash) :=
  r ← get;
  let start_token_idx := Z.of_nat (length (block_hashes r)) * hash_block_size in
  if num_tokens r <? start_token_idx + hash_block_size then mret [] else
  let curr_mm_idx := if 0 <? start_token_idx then -1 else 0 in
  hasher_loop (S (Z.to_nat (num_tokens r))) hash_block_size start_token_idx curr_mm_idx (last (block_hashes r)).
End hash.
Arguments Request : clear implicits.

(** * Coarser views *)

(** [BlockHashListWithBlockSize] *)
Record HashView := mkView { v_block_hashes : list BlockHash; scale_factor : Z }.

Definition new_view (hashes : list BlockHash) (hash_block_size target_block_size : Z) : res HashView :=
  if hash_block_size =? 0 then Err ZeroDivisionError else
  if negb (target_block_size mod hash_block_size =? 0) then Err AssertionError else
  Ok (mkView hashes (target_block_size / hash_block_size)).

Definition view_len (v : HashView) : res Z :=
  if scale_factor v =? 0 then Err ZeroDivisionError else Ok (Z.of_nat (length (v_block_hashes v)) / scale_factor v).
Definition _get_value_at (v : HashView) (idx : Z) : res BlockHash :=
  py_index (v_block_hashes v) ((idx + 1) * scale_factor v - 1).

(** [slice(start, stop, step).indices(n)] and [range] of its result. *)
Definition clamp_index (i n lower upper : Z) : Z := if i <? 0 then Z.max (i + n) lower else Z.min i upper.
Definition slice_indices (start stop step : option Z) (n : Z) : res (list Z) :=
  let step := default 1 step in
  if step =? 0 then Err ValueError else
  let lower := if step <? 0 then -1 else 0 in
  let upper := if step <? 0 then n - 1 else n in
  let first := match start with None => if step <? 0 then upper else lower | Some i => clamp_index i n lower upper end in
  let last := match stop with None => if step <? 0 then lower else upper | Some i => clamp_index i n lower upper end in
  let count := if step <? 0 then (first - last - step - 1) / - step else (last - first + step - 1) / step in
  Ok ((λ k, first + Z.of_nat k * step) <$> seq 0 (Z.to_nat count)).

(** [__getitem__] with an integer or a slice, and [__iter__]. *)
Definition view_getitem (v : HashView) (idx : Z) : res BlockHash := _get_value_at v idx.
Definition view_getslice (v : HashView) (start stop step : option Z) : res (list BlockHash) :=
  n ← view_len v; idxs ← slice_indices start stop step n; map_res (_get_value_at v) idxs.
Definition view_iter (v : HashView) : res (list BlockHash) :=
  n ← view_len v; map_res (λ k, _get_value_at v (Z.of_nat k)) (seq 0 (Z.to_nat n)).

(** [BlockHashList] *)
Inductive BlockHashList := RawHashes (l : list BlockHash) | ViewHashes (v : HashView).

Definition resolve_block_hashes (hashes : BlockHashList) (hash_block_size block_size : Z)
    (supports_fine_grained_hash_lookup : bool) (alignment_tokens : option Z) : res BlockHashList :=
  if block_size =? hash_block_size then Ok hashes else
  match hashes with
  | ViewHashes v =>
    if hash_block_size =? 0 then Err ZeroDivisionError
    else if scale_factor v =? block_size / hash_block_size then Ok hashes else Err AssertionError
  | RawHashes l =>
    let view := if hash_block_size =? 0 then Err ZeroDivisionError
                else if negb (block_size mod hash_block_size =? 0) then Err AssertionError
                else v ← new_view l hash_block_size block_size; Ok (ViewHashes v) in
    match alignment_tokens with
    | Some a =>
      if supports_fine_grained_hash_lookup && (a <? block_size) then
        if a =? 0 then Err ZeroDivisionError else if block_size mod a =? 0 then Ok hashes else view
      else view
    | None => view
    end
  end.
