(* ===== verification/KvHashProps.v ===== *)
(** What block hashing promises: the hasher may be run whenever tokens arrive
    and still yields the hashes of the whole prefix, equal hashes mean equal
    prefixes, and coarser views pick hashes of whole coarse blocks. *)
From S2P Require Import Prelude Bytes KvBlocks KvHash.
From stdpp Require Import base list list_numbers gmap sets strings.
From Stdlib Require Import ZArith Lia.
#[local] Open Scope string_scope.
#[local] Open Scope list_scope.
#[local] Open Scope Z_scope.

(** * Multi-modal keys *)

(** Placeholders in order and apart, every one identified. *)
Definition mm_end (f : MMFeature) : Z := mm_offset f + mm_length f.
Fixpoint mm_ok (l : list MMFeature) : Prop :=
  match l with
  | [] => True
  | f :: l => is_Some (identifier f) ∧ 0 < mm_length f ∧ Forall (λ g, mm_end f ≤ mm_offset g) l ∧ mm_ok l
  end.
Definition ended (s : Z) (l : list MMFeature) : Prop := Forall (λ f, mm_end f ≤ s) l.

(** The items of a block: every feature that overlaps it. *)
Definition mm_key (s e : Z) (f : MMFeature) : option ExtraKey :=
  if (mm_offset f <? e) && (s <? mm_end f) then Some (KeyMM (default "" (identifier f)) (mm_offset f - s)) else None.
Definition mm_keys (l : list MMFeature) (s e : Z) : list ExtraKey := omap (mm_key s e) l.

Lemma mm_keys_none l s e : Forall (λ f, mm_end f ≤ s ∨ e ≤ mm_offset f) l → mm_keys l s e = [].
Proof.
  induction 1 as [|f l Hf Hl IH]; [done|]. unfold mm_keys in *. simpl. unfold mm_key.
  destruct (Z.ltb_spec (mm_offset f) e), (Z.ltb_spec s (mm_end f)); simpl; try done. lia.
Qed.
Lemma mm_ok_later f l : mm_ok (f :: l) → Forall (λ g, mm_end f ≤ mm_offset g) l.
Proof. by intros (_&_&?&_). Qed.
Lemma mm_ok_drop i l : mm_ok l → mm_ok (drop i l).
Proof. revert l. induction i as [|i IH]; intros [|f l] H; try done. apply IH. by destruct H as (_&_&_&?). Qed.
Lemma mm_ok_ended l s : mm_ok l → (∀ f, last l = Some f → mm_end f ≤ s) → ended s l.
Proof.
  intros Hok Hl. unfold ended. apply Forall_forall. intros f Hf. apply list_elem_of_lookup in Hf as [i Hi].
  destruct (last l) as [g|] eqn:El; [|apply last_None in El; by subst]. specialize (Hl g eq_refl).
  rewrite last_lookup in El. destruct (decide (i = pred (length l))) as [->|Hne]; [congruence|].
  assert (Hlt := lookup_lt_Some _ _ _ Hi). assert (Hd : mm_ok (drop i l)) by by apply mm_ok_drop.
  rewrite (drop_S l f i Hi) in Hd. apply mm_ok_later in Hd. rewrite Forall_forall in Hd.
  assert (Hg : g ∈ drop (S i) l).
  { apply (list_elem_of_lookup_2 _ (pred (length l) - S i)). rewrite lookup_drop. by replace (S i + (pred (length l) - S i))%nat with (pred (length l)) by lia. }
  specialize (Hd g Hg). apply (mm_ok_drop (pred (length l))) in Hok. rewrite (drop_S l g _ El) in Hok.
  destruct Hok as (_&?&_). unfold mm_end in *. lia.
Qed.

Lemma mm_loop_spec rest idx s e : mm_ok rest → s < e →
  ∃ k, mm_loop rest idx s e = Ok (mm_keys rest s e, idx + Z.of_nat k) ∧ ended e (take k rest).
Proof.
  intros Hok Hse. revert idx. induction rest as [|f rest IH]; intros idx; cbn [mm_loop].
  { exists 0%nat. rewrite Z.add_0_r. by split; [|constructor]. }
  pose proof (mm_ok_later _ _ Hok) as Hl. destruct Hok as ([id Hid]&Hlen&_&Hok). rewrite Hid.
  assert (Hkey : mm_keys (f :: rest) s e = (if (mm_offset f <? e) && (s <? mm_end f) then [KeyMM id (mm_offset f - s)] else []) ++ mm_keys rest s e).
  { unfold mm_keys. simpl. unfold mm_key at 1. rewrite Hid. by destruct (_ && _). }
  assert (Hnone : e ≤ mm_end f → mm_keys rest s e = []).
  { intros H. apply mm_keys_none. eapply Forall_impl; [exact Hl|]. simpl. lia. }
  rewrite Hkey. fold (mm_end f). unfold mm_end in Hnone |- *. destruct (Z.ltb_spec (mm_offset f) e) as [Ho|Ho]; cbn [andb].
  - destruct (Z.leb_spec (mm_offset f + mm_length f) s) as [Hs|Hs].
    + rewrite (proj2 (Z.ltb_ge _ _)) by lia. destruct (IH Hok (idx + 1)) as (k&E&Hk). exists (S k). cbn [app]. rewrite E.
      split; [do 2 f_equal; lia|]. constructor; [unfold mm_end; lia|done].
    + rewrite (proj2 (Z.ltb_lt _ _)) by lia. destruct (Z.leb_spec (mm_offset f + mm_length f) e) as [He|He].
      * destruct (IH Hok (idx + 1)) as (k&E&Hk). exists (S k). rewrite E. cbn [mbind res_bind app].
        split; [do 2 f_equal; lia|]. constructor; [unfold mm_end; lia|done].
      * exists 0%nat. rewrite Hnone by lia. rewrite Z.add_0_r. by split; [|constructor].
  - exists 0%nat. rewrite Hnone by lia. rewrite Z.add_0_r. by split; [|constructor].
Qed.

(** An index that skips only features the block has passed: counted from the
    front, or -1 for the last feature. *)
Definition idx_ok (l : list MMFeature) (s idx : Z) : Prop :=
  (0 ≤ idx ∧ ended s (take (Z.to_nat idx) l)) ∨ (idx = -1 ∧ ended s (take (pred (length l)) l)).

Lemma ended_mono s e l : s ≤ e → ended s l → ended e l.
Proof. intros Hse H. eapply Forall_impl; [exact H|]. simpl. lia. Qed.

Section gen.
Context {Emb : Type} (embeds_digest : Emb → Z → Z → list byte).
Abbreviation Req := (Request Emb).
Implicit Types (r : Req).

(** The multi-modal keys of a block are exactly the features whose
    placeholder overlaps it, with their offsets from its start, whatever
    index the caller resumed from as long as that index skips only features
    the block has passed; and the index returned is such an index for the
    next block. *)
Theorem mm_extra_keys_exact r s e idx :
  mm_ok (mm_features r) → s < e → idx_ok (mm_features r) s idx →
  ∃ idx', _gen_mm_extra_hash_keys r s e idx = Ok (mm_keys (mm_features r) s e, idx') ∧ idx_ok (mm_features r) e idx'.
Proof.
  intros Hok Hse Hidx. unfold _gen_mm_extra_hash_keys. set (l := mm_features r) in *.
  assert (Hmono : idx_ok l e idx).
  { destruct Hidx as [[? H]|[? H]]; [left|right]; (split; [done|]); (eapply ended_mono; [|exact H]); lia. }
  destruct (last l) as [g|] eqn:El; last first.
  { apply last_None in El. exists idx. rewrite El in *. done. }
  destruct (Z.leb_spec (mm_offset g + mm_length g) s) as [Hg|Hg].
  { exists idx. split; [|done]. rewrite mm_keys_none; [done|]. pose proof (mm_ok_ended l s Hok) as H.
    rewrite El in H. specialize (H ltac:(intros ? [= <-]; unfold mm_end; lia)). eapply Forall_impl; [exact H|]. auto. }
  assert (Hn : (1 ≤ length l)%nat) by (destruct l; [done|simpl; lia]).
  assert (∃ i : nat, (if idx <? 0 then Z.of_nat (length l) + idx else idx) = Z.of_nat i ∧ ended s (take i l) ∧
    ((idx <? 0) && negb (- idx <=? Z.of_nat (length l))) = false) as (i&->&Hi&->).
  { destruct Hidx as [[H1 H2]|[-> H2]].
    - exists (Z.to_nat idx). rewrite (proj2 (Z.ltb_ge idx 0)) by done. split; [lia|]. by split.
    - exists (pred (length l)). simpl. split; [lia|]. split; [done|]. rewrite (proj2 (Z.leb_le 1 _)) by lia. done. }
  rewrite Nat2Z.id. destruct (mm_loop_spec (drop i l) (Z.of_nat i) s e) as (k&E&Hk); [by apply mm_ok_drop|done|].
  exists (Z.of_nat i + Z.of_nat k). split.
  - rewrite E. do 2 f_equal. rewrite <- (take_drop i l) at 2. unfold mm_keys. rewrite omap_app. fold (mm_keys (take i l) s e).
    rewrite mm_keys_none; [done|]. eapply Forall_impl; [exact Hi|]. auto.
  - left. split; [lia|]. replace (Z.to_nat (Z.of_nat i + Z.of_nat k)) with (i + k)%nat by lia.
    unfold ended. destruct (decide (i ≤ length l)%nat) as [Hil|Hil].
    + rewrite <- (take_drop i l). rewrite take_app. rewrite length_take. replace (i + k - i `min` length l)%nat with k by lia.
      apply Forall_app. split; [|done]. rewrite take_ge by (rewrite length_take; lia). eapply ended_mono; [|exact Hi]. lia.
    + rewrite (take_ge l (i + k)) by lia. rewrite take_ge in Hi by lia. eapply ended_mono; [|exact Hi]. lia.
Qed.

(** * The chain *)

(** All extra keys of a block. *)
Definition salt_keys r (s : Z) : list ExtraKey :=
  match cache_salt r with Some x => if (s =? 0) && negb (String.eqb x "") then [KeyStr x] else [] | None => [] end.
Definition embeds_keys r (s e : Z) : list ExtraKey :=
  match prompt_embeds r with Some x => [KeyBytes (embeds_digest x s e)] | None => [] end.
Definition extra_spec r (s e : Z) : option (list ExtraKey) :=
  match _gen_lora_extra_hash_keys r ++ mm_keys (mm_features r) s e ++ salt_keys r s ++ embeds_keys r s e with
  | [] => None
  | ks => Some ks
  end.

(** A well-formed request: the digests remembered are those of its embeddings. *)
Record req_ok r : Prop := {
  ro_tokens : num_tokens r = Z.of_nat (length (all_token_ids r));
  ro_mm : mm_ok (mm_features r);
  ro_cache a b h : _prompt_embeds_per_block_hashes r !! (a, b) = Some h →
    ∃ x, prompt_embeds r = Some x ∧ h = embeds_digest x a b }.

(** Only the remembered digests may differ. *)
Record req_same r r' : Prop := {
  rs_tokens : all_token_ids r' = all_token_ids r;
  rs_num : num_tokens r' = num_tokens r;
  rs_hashes : block_hashes r' = block_hashes r;
  rs_mm : mm_features r' = mm_features r;
  rs_lora : lora_name r' = lora_name r;
  rs_salt : cache_salt r' = cache_salt r;
  rs_embeds : prompt_embeds r' = prompt_embeds r }.
#[local] Instance req_same_preorder : PreOrder req_same.
Proof. split; [by intros r|]. intros r1 r2 r3 [] []. split; congruence. Qed.
Lemma extra_spec_same r r' s e : req_same r r' → extra_spec r' s e = extra_spec r s e.
Proof. intros []. unfold extra_spec, salt_keys, embeds_keys, _gen_lora_extra_hash_keys. by rewrite rs_lora0, rs_mm0, rs_salt0, rs_embeds0. Qed.

Lemma embeds_gen_spec r s e : req_ok r →
  ∃ r', _gen_prompt_embeds_extra_hash_keys embeds_digest s e r = (Ok (embeds_keys r s e), r') ∧ req_ok r' ∧ req_same r r'.
Proof.
  intros Hr. pose proof Hr as [H1 H2 H3]. unfold _gen_prompt_embeds_extra_hash_keys, embeds_keys. destruct (prompt_embeds r) as [x|] eqn:Ex; [|by exists r].
  destruct (_prompt_embeds_per_block_hashes r !! (s, e)) as [h|] eqn:Eh.
  - destruct (H3 _ _ _ Eh) as (y&Hy&->). exists r. assert (x = y) as -> by congruence. done.
  - eexists. split; [done|]. split; [|by split; simpl]. split; simpl; [done|done|]. intros a b h.
    destruct (decide ((s, e) = (a, b))) as [Heq|Hne]; [injection Heq as -> ->; rewrite lookup_insert_eq|rewrite lookup_insert_ne by done; apply H3].
    intros [= <-]. by exists x.
Qed.

Lemma generate_spec r s e idx : req_ok r → s < e → idx_ok (mm_features r) s idx →
  ∃ idx' r', generate_block_hash_extra_keys embeds_digest s e idx r = (Ok (extra_spec r s e, idx'), r') ∧
    idx_ok (mm_features r) e idx' ∧ req_ok r' ∧ req_same r r'.
Proof.
  intros Hr Hse Hi. destruct (mm_extra_keys_exact r s e idx (ro_mm _ Hr) Hse Hi) as (idx'&E&Hi').
  destruct (embeds_gen_spec r s e Hr) as (r'&E'&Hr'&Hs). exists idx', r'.
  unfold generate_block_hash_extra_keys. autorewrite with monad. rewrite E. autorewrite with monad.
  rewrite (M_bind_run _ _ _ _ _ E'). fold (salt_keys r s). unfold extra_spec.
  split; [|done]. by destruct (_gen_lora_extra_hash_keys r ++ _).
Qed.

Section chain.
Context (hash_function : HashInput → list byte) (none_hash : BlockHash) (hbs : Z).
Hypothesis Hhbs : 0 < hbs.

(** The hashes of the blocks [k], [k + 1], ... ([n] of them) after [prev]. *)
Fixpoint hash_chain r (k n : nat) (prev : option BlockHash) : list BlockHash :=
  match n with
  | O => []
  | S n =>
    let s := Z.of_nat k * hbs in
    let h := hash_block_tokens hash_function none_hash prev (py_slice (all_token_ids r) s (s + hbs)) (extra_spec r s (s + hbs)) in
    h :: hash_chain r (S k) n (Some h)
  end.
Definition full_blocks r : nat := Z.to_nat (num_tokens r / hbs).
Definition spec_hashes r : list BlockHash := hash_chain r 0 (full_blocks r) None.

Lemma hash_chain_length r k n prev : length (hash_chain r k n prev) = n.
Proof. revert k prev. induction n as [|n IH]; intros; simpl; [done|by rewrite IH]. Qed.
Lemma hash_chain_same r r' k n prev : req_same r r' → hash_chain r' k n prev = hash_chain r k n prev.
Proof.
  intros H. revert k prev. induction n as [|n IH]; intros; cbn [hash_chain]; [done|].
  rewrite (extra_spec_same r r') by done. rewrite (rs_tokens _ _ H). by rewrite IH.
Qed.
Lemma hash_chain_add r k n1 n2 prev :
  hash_chain r k (n1 + n2) prev = hash_chain r k n1 prev ++ hash_chain r (k + n1) n2 (from_option Some prev (last (hash_chain r k n1 prev))).
Proof.
  revert k prev. induction n1 as [|n1 IH]; intros k prev; cbn [Nat.add hash_chain app]; [by rewrite Nat.add_0_r|].
  f_equal. rewrite IH. rewrite Nat.add_succ_comm. do 2 f_equal.
  rewrite last_cons. by destruct (last (hash_chain r (S k) n1 _)).
Qed.

Lemma hasher_loop_spec fuel r k idx prev :
  req_ok r → idx_ok (mm_features r) (Z.of_nat k * hbs) idx → (full_blocks r - k < fuel)%nat → (k ≤ full_blocks r)%nat →
  ∃ r', hasher_loop embeds_digest hash_function none_hash fuel hbs (Z.of_nat k * hbs) idx prev r =
    (Ok (hash_chain r k (full_blocks r - k) prev), r') ∧ req_ok r' ∧ req_same r r'.
Proof.
  revert r k idx prev. induction fuel as [|fuel IH]; intros r k idx prev Hr Hi Hf Hk; [lia|]. cbn [hasher_loop]. autorewrite with monad.
  assert (Hn : 0 ≤ num_tokens r) by (rewrite (ro_tokens _ Hr); lia).
  pose proof (Z.div_mod (num_tokens r) hbs ltac:(lia)) as Hdm. pose proof (Z.mod_pos_bound (num_tokens r) hbs Hhbs) as Hmb.
  assert (Hq : 0 ≤ num_tokens r / hbs) by (apply Z.div_pos; lia). unfold full_blocks in *.
  destruct (Z.ltb_spec (num_tokens r) (Z.of_nat k * hbs + hbs)) as [Hlt|Hge].
  { replace (Z.to_nat (num_tokens r / hbs) - k)%nat with 0%nat by nia. by exists r. }
  replace (Z.to_nat (num_tokens r / hbs) - k)%nat with (S (Z.to_nat (num_tokens r / hbs) - S k)) by nia.
  destruct (generate_spec r (Z.of_nat k * hbs) (Z.of_nat k * hbs + hbs) idx Hr ltac:(lia) Hi) as (idx'&r1&E&Hi1&Hr1&Hs1).
  rewrite (M_bind_run _ _ _ _ _ E). set (h := hash_block_tokens _ _ _ _ _).
  replace (Z.of_nat k * hbs + hbs) with (Z.of_nat (S k) * hbs) in * by lia.
  destruct (IH r1 (S k) idx' (Some h)) as (r2&E2&Hr2&Hs2); [done|by rewrite (rs_mm _ _ Hs1)|rewrite (rs_num _ _ Hs1); nia|rewrite (rs_num _ _ Hs1); nia|].
  rewrite (M_bind_run _ _ _ _ _ E2). exists r2. split; [|split; [done|by transitivity r1]].
  rewrite (rs_num _ _ Hs1), (hash_chain_same r r1) by done. cbn [hash_chain]. subst h.
  replace (Z.of_nat k * hbs + hbs) with (Z.of_nat (S k) * hbs) by lia. done.
Qed.

(** What one call of the hasher computes. *)
Lemma hasher_spec r k :
  req_ok r → block_hashes r = hash_chain r 0 k None → (k ≤ full_blocks r)%nat →
  (k = 0%nat ∨ ended (Z.of_nat k * hbs) (take (pred (length (mm_features r))) (mm_features r))) →
  ∃ r', request_block_hasher embeds_digest hash_function none_hash hbs r = (Ok (drop k (spec_hashes r)), r') ∧ req_ok r' ∧ req_same r r'.
Proof.
  intros Hr Hb Hk Ht. unfold request_block_hasher. autorewrite with monad. rewrite Hb, hash_chain_length.
  assert (Hspec : spec_hashes r = hash_chain r 0 k None ++ hash_chain r k (full_blocks r - k) (last (hash_chain r 0 k None))).
  { unfold spec_hashes. replace (full_blocks r) with (k + (full_blocks r - k))%nat at 1 by lia. rewrite hash_chain_add. cbn [Nat.add].
    do 2 f_equal. by destruct (last (hash_chain r 0 k None)). }
  assert (Hdrop : drop k (spec_hashes r) = hash_chain r k (full_blocks r - k) (last (hash_chain r 0 k None))).
  { rewrite Hspec. rewrite <- (hash_chain_length r 0 k None) at 1. apply drop_app_length. }
  rewrite Hdrop. assert (Hn : 0 ≤ num_tokens r) by (rewrite (ro_tokens _ Hr); lia).
  pose proof (Z.div_mod (num_tokens r) hbs ltac:(lia)) as Hdm. pose proof (Z.mod_pos_bound (num_tokens r) hbs Hhbs) as Hmb.
  assert (Hq : 0 ≤ num_tokens r / hbs) by (apply Z.div_pos; lia).
  destruct (Z.ltb_spec (num_tokens r) (Z.of_nat k * hbs + hbs)) as [Hlt|Hge].
  { exists r. replace (full_blocks r - k)%nat with 0%nat by (unfold full_blocks in *; nia). done. }
  apply hasher_loop_spec; [done| |unfold full_blocks in *; nia|done].
  destruct (Z.ltb_spec 0 (Z.of_nat k * hbs)) as [Hp|Hp].
  - right. split; [done|]. destruct Ht as [->|Ht]; [lia|done].
  - left. split; [done|]. constructor.
Qed.

(** Tokens arrive, and the hashes computed so far are kept. *)
Definition grow r (hashes : list BlockHash) (ts : list Z) : Req :=
  mkRequest (all_token_ids r ++ ts) (num_tokens r + Z.of_nat (length ts)) hashes (mm_features r) (lora_name r)
    (cache_salt r) (prompt_embeds r) (_prompt_embeds_per_block_hashes r).

Lemma grow_ok r hs ts : req_ok r → req_ok (grow r hs ts).
Proof. intros [H1 H2 H3]. split; simpl; [|done|done]. rewrite H1, length_app. lia. Qed.

Lemma grow_chain r hs ts n k prev : req_ok r → (k + n ≤ full_blocks r)%nat →
  hash_chain (grow r hs ts) k n prev = hash_chain r k n prev.
Proof.
  intros Hr. revert k prev. induction n as [|n IH]; intros k prev Hn; cbn [hash_chain]; [done|].
  assert (Hs : py_slice (all_token_ids (grow r hs ts)) (Z.of_nat k * hbs) (Z.of_nat k * hbs + hbs) =
               py_slice (all_token_ids r) (Z.of_nat k * hbs) (Z.of_nat k * hbs + hbs)).
  { unfold py_slice, grow. cbn [all_token_ids]. assert (Hl : (Z.to_nat (Z.of_nat k * hbs) + Z.to_nat hbs ≤ length (all_token_ids r))%nat).
    { unfold full_blocks in Hn. rewrite (ro_tokens _ Hr) in Hn. pose proof (Z.div_mod (Z.of_nat (length (all_token_ids r))) hbs ltac:(lia)).
      pose proof (Z.mod_pos_bound (Z.of_nat (length (all_token_ids r))) hbs Hhbs). nia. }
    rewrite drop_app_le by lia. rewrite take_app_le; [done|]. rewrite length_drop. lia. }
  rewrite Hs. change (extra_spec (grow r hs ts)) with (extra_spec r). rewrite IH by lia. done.
Qed.
End chain.

Section theorems.
Context (hash_function : HashInput → list byte) (none_hash : BlockHash) (hbs : Z).
Abbreviation hasher := (request_block_hasher embeds_digest hash_function none_hash hbs).

(** The hashes of a request computed in one go. *)
Definition scratch r : res (list BlockHash) := (hasher (grow r [] [])).1.

Lemma scratch_spec r : 0 < hbs → req_ok r → scratch r = Ok (spec_hashes hash_function none_hash hbs r).
Proof.
  intros Hhbs Hr. unfold scratch.
  destruct (hasher_spec hash_function none_hash hbs Hhbs (grow r [] []) 0) as (r'&E&_); [by apply grow_ok|done|lia|by left|].
  rewrite E. cbn [fst]. rewrite drop_0. unfold spec_hashes. f_equal.
  assert (Hfb : full_blocks hbs (grow r [] []) = full_blocks hbs r) by (unfold full_blocks, grow; cbn [num_tokens length]; by rewrite Z.add_0_r).
  rewrite Hfb. by apply grow_chain.
Qed.

(** C30: Hashing is incremental: when the hashes a request carries are those
    of its tokens so far, and every multi-modal item but the last ends inside
    the hashed blocks, then after more tokens arrive one call of the hasher
    returns exactly what is missing: appended, they are the hashes the grown
    request gets when it is hashed from scratch. *)
Theorem block_hasher_incremental r ts :
  0 < hbs → req_ok r → scratch r = Ok (block_hashes r) →
  (block_hashes r = [] ∨ ended (Z.of_nat (length (block_hashes r)) * hbs) (take (pred (length (mm_features r))) (mm_features r))) →
  ∃ new r2, hasher (grow r (block_hashes r) ts) = (Ok new, r2) ∧
    scratch (grow r (block_hashes r) ts) = Ok (block_hashes r ++ new) ∧
    Z.of_nat (length (block_hashes r ++ new)) = (num_tokens r + Z.of_nat (length ts)) / hbs ∧
    req_ok r2 ∧ req_same (grow r (block_hashes r) ts) r2.
Proof.
  intros Hhbs Hr Hs Ht. rewrite scratch_spec in Hs by done. apply Ok_inj in Hs.
  set (r1 := grow r (block_hashes r) ts). assert (Hr1 : req_ok r1) by by apply grow_ok.
  set (k := full_blocks hbs r). assert (Hk : length (block_hashes r) = k) by (rewrite <- Hs; apply hash_chain_length).
  assert (Hn : 0 ≤ num_tokens r) by (rewrite (ro_tokens _ Hr); lia).
  assert (Hk1 : (k ≤ full_blocks hbs r1)%nat).
  { unfold k, full_blocks, r1, grow. cbn [num_tokens]. apply Z2Nat.inj_le; [apply Z.div_pos; lia|apply Z.div_pos; lia|]. apply Z.div_le_mono; lia. }
  assert (Hc : block_hashes r1 = hash_chain hash_function none_hash hbs r1 0 k None).
  { unfold r1. rewrite grow_chain by (try done; lia). unfold grow. cbn [block_hashes]. by rewrite <- Hs at 1. }
  destruct (hasher_spec hash_function none_hash hbs Hhbs r1 k) as (r2&E&Hr2&Hs2); [done|done|done| |].
  { destruct Ht as [Ht|Ht]; [left; rewrite <- Hk; by rewrite Ht|right; by rewrite <- Hk]. }
  exists (drop k (spec_hashes hash_function none_hash hbs r1)), r2. split; [done|]. rewrite scratch_spec by done.
  assert (Happ : spec_hashes hash_function none_hash hbs r1 = block_hashes r ++ drop k (spec_hashes hash_function none_hash hbs r1)).
  { rewrite <- (take_drop k) at 1. f_equal. change (block_hashes r) with (block_hashes r1). rewrite Hc. unfold spec_hashes.
    replace (full_blocks hbs r1) with (k + (full_blocks hbs r1 - k))%nat by lia. rewrite hash_chain_add.
    rewrite <- (hash_chain_length hash_function none_hash hbs r1 0 k None) at 1. apply take_app_length. }
  split; [by rewrite <- Happ|]. split; [|done]. rewrite <- Happ. unfold spec_hashes. rewrite hash_chain_length.
  unfold full_blocks, r1, grow. cbn [num_tokens]. apply Z2Nat.id. apply Z.div_pos; lia.
Qed.

Lemma hash_chain_lookup r k n prev i h : hash_chain hash_function none_hash hbs r k n prev !! i = Some h →
  h = hash_block_tokens hash_function none_hash
        (match i with O => prev | S i => hash_chain hash_function none_hash hbs r k n prev !! i end)
        (py_slice (all_token_ids r) (Z.of_nat (k + i) * hbs) (Z.of_nat (k + i) * hbs + hbs))
        (extra_spec r (Z.of_nat (k + i) * hbs) (Z.of_nat (k + i) * hbs + hbs)).
Proof.
  revert k prev i. induction n as [|n IH]; intros k prev i; cbn [hash_chain]; [done|].
  destruct i as [|i]; cbn [lookup list_lookup].
  - intros [= <-]. by rewrite Nat.add_0_r.
  - intros H. specialize (IH _ _ _ H). rewrite <- (Nat.add_succ_comm k i). rewrite IH. destruct i; done.
Qed.

(** The tokens before a block boundary. *)
Definition prefix_tokens r (n : nat) : list Z := take (n * Z.to_nat hbs) (all_token_ids r).

(** C12: A block hash binds the whole prefix.  When the hash function does not
    collide and never returns the empty string, two requests (even of
    different lengths) that show the same block hash anywhere show it at the
    same position, with the same tokens up to the end of that block and the
    same extra keys in each of its blocks. *)
Theorem block_hash_binds_prefix r1 r2 seed l1 l2 i j h :
  0 < hbs → req_ok r1 → req_ok r2 →
  (∀ x y, hash_function x = hash_function y → x = y) → (∀ x, hash_function x ≠ []) → none_hash = hash_function (HSeed seed) →
  scratch r1 = Ok l1 → scratch r2 = Ok l2 → l1 !! i = Some h → l2 !! j = Some h →
  i = j ∧ prefix_tokens r1 (S i) = prefix_tokens r2 (S i) ∧
  ∀ b, (b ≤ i)%nat → extra_spec r1 (Z.of_nat b * hbs) (Z.of_nat b * hbs + hbs) = extra_spec r2 (Z.of_nat b * hbs) (Z.of_nat b * hbs + hbs).
Proof.
  intros Hhbs Hr1 Hr2 Hinj Hne Hnone. rewrite !scratch_spec by done. intros [= <-] [= <-]. revert j h.
  assert (Hpar : ∀ p, match Some (hash_function p) with Some ((_ :: _) as q) => q | _ => none_hash end = hash_function p).
  { intros p. specialize (Hne p). by destruct (hash_function p). }
  assert (Hblk : ∀ r n i h, hash_chain hash_function none_hash hbs r 0 n None !! i = Some h → ∃ x t e, h = hash_function (HBlock x t e)).
  { intros r n i0 h0 H. apply hash_chain_lookup in H as ->. unfold hash_block_tokens. by do 3 eexists. }
  assert (Hpre : ∀ r n, prefix_tokens r (S n) = prefix_tokens r n ++ py_slice (all_token_ids r) (Z.of_nat n * hbs) (Z.of_nat n * hbs + hbs)).
  { intros r n. unfold prefix_tokens, py_slice. replace (Z.to_nat (Z.of_nat n * hbs)) with (n * Z.to_nat hbs)%nat by lia.
    replace (Z.to_nat (Z.of_nat n * hbs + hbs - Z.of_nat n * hbs)) with (Z.to_nat hbs) by lia.
    replace (S n * Z.to_nat hbs)%nat with (n * Z.to_nat hbs + Z.to_nat hbs)%nat by lia. symmetry. apply take_take_drop. }
  unfold spec_hashes. induction i as [|i IH]; intros j h H1 H2; pose proof (hash_chain_lookup _ _ _ _ _ _ H1) as E1; pose proof (hash_chain_lookup _ _ _ _ _ _ H2) as E2;
    unfold hash_block_tokens in E1, E2; cbn [Nat.add] in E1, E2; rewrite E1 in E2; apply Hinj in E2.
  - destruct j as [|j].
    + injection E2 as Et Ee. split; [done|]. split; [by rewrite !Hpre, Et|]. intros b Hb. by replace b with 0%nat by lia.
    + exfalso. destruct (hash_chain hash_function none_hash hbs r2 0 (full_blocks hbs r2) None !! j) as [p|] eqn:Ep.
      * destruct (Hblk _ _ _ _ Ep) as (x&t&e&->). rewrite Hpar in E2. injection E2 as Ep' _ _. rewrite Hnone in Ep'. by apply Hinj in Ep'.
      * apply lookup_ge_None in Ep. apply lookup_lt_Some in H2. lia.
  - destruct (hash_chain hash_function none_hash hbs r1 0 (full_blocks hbs r1) None !! i) as [p1|] eqn:Ep1;
      [|apply lookup_ge_None in Ep1; apply lookup_lt_Some in H1; lia].
    destruct (Hblk _ _ _ _ Ep1) as (x1&t1&e1&->). rewrite Hpar in E2. destruct j as [|j].
    { exfalso. injection E2 as Ep' _ _. rewrite Hnone in Ep'. by apply Hinj in Ep'. }
    destruct (hash_chain hash_function none_hash hbs r2 0 (full_blocks hbs r2) None !! j) as [p2|] eqn:Ep2;
      [|apply lookup_ge_None in Ep2; apply lookup_lt_Some in H2; lia].
    destruct (Hblk _ _ _ _ Ep2) as (x2&t2&e2&->). rewrite Hpar in E2. injection E2 as Ep Et Ee.
    destruct (IH j (hash_function (HBlock x1 t1 e1)) eq_refl) as (->&Hp&Hb); [by rewrite Ep|].
    split; [done|]. split; [by rewrite (Hpre r1), (Hpre r2), Hp, Et|].
    intros b Hle. destruct (decide (b = S j)) as [->|]; [done|apply Hb; lia].
Qed.
End theorems.
End gen.

(** * Coarser views *)

(** A view at a multiple of the hash granularity has one entry per whole
    coarse block, the hash at the block's last fine boundary, whether it is
    indexed, sliced or iterated over; a coarse size that is not a multiple is
    refused. *)
Theorem block_hash_view hashes hbs (c : nat) :
  0 < hbs → (0 < c)%nat →
  let n := (length hashes / c)%nat in
  let entries := (λ i, default [] (hashes !! ((i + 1) * c - 1)%nat)) <$> seq 0 n in
  ∃ v, new_view hashes hbs (Z.of_nat c * hbs) = Ok v ∧ view_len v = Ok (Z.of_nat n) ∧ view_iter v = Ok entries ∧
    (∀ i, (i < n)%nat → ∃ h, hashes !! ((i + 1) * c - 1)%nat = Some h ∧ view_getitem v (Z.of_nat i) = Ok h) ∧
    (∀ a b, (a ≤ b ≤ n)%nat → view_getslice v (Some (Z.of_nat a)) (Some (Z.of_nat b)) None = Ok (take (b - a) (drop a entries))) ∧
    (∀ t, t mod hbs ≠ 0 → new_view hashes hbs t = Err AssertionError).
Proof.
  intros Hhbs Hc n entries. exists (mkView hashes (Z.of_nat c)).
  assert (Hlen : view_len (mkView hashes (Z.of_nat c)) = Ok (Z.of_nat n)).
  { unfold view_len. cbn [scale_factor v_block_hashes]. destruct (Z.eqb_spec (Z.of_nat c) 0); [lia|]. by rewrite <- Nat2Z.inj_div. }
  assert (Hat : ∀ i, (i < n)%nat → ∃ h, hashes !! ((i + 1) * c - 1)%nat = Some h ∧ view_getitem (mkView hashes (Z.of_nat c)) (Z.of_nat i) = Ok h).
  { intros i Hi. assert (Hlt : ((i + 1) * c - 1 < length hashes)%nat).
    { pose proof (Nat.div_mod (length hashes) c ltac:(lia)). unfold n in Hi. nia. }
    destruct (lookup_lt_is_Some_2 _ _ Hlt) as [h Hh]. exists h. split; [done|]. unfold view_getitem, _get_value_at, py_index. cbn [scale_factor v_block_hashes].
    replace ((Z.of_nat i + 1) * Z.of_nat c - 1) with (Z.of_nat ((i + 1) * c - 1)) by nia. set (k := ((i + 1) * c - 1)%nat) in *.
    rewrite (proj2 (Z.ltb_ge (Z.of_nat k) _)), (proj2 (Z.leb_gt _ (Z.of_nat k))), (proj2 (Z.ltb_ge (Z.of_nat k) 0)) by lia. cbn [orb].
    by rewrite Nat2Z.id, Hh. }
  assert (Hval : ∀ i, (i < n)%nat → _get_value_at (mkView hashes (Z.of_nat c)) (Z.of_nat i) = Ok (default [] (hashes !! ((i + 1) * c - 1)%nat))).
  { intros i Hi. destruct (Hat i Hi) as (h&->&E). exact E. }
  split.
  { unfold new_view. destruct (Z.eqb_spec hbs 0); [lia|]. rewrite Z.mod_mul, Z.div_mul by lia. done. }
  split; [done|]. split.
  { unfold view_iter. rewrite Hlen. cbn [mbind res_bind]. rewrite Nat2Z.id. apply map_res_ok.
    intros i [_ Hi]%elem_of_seq. by apply Hval. }
  split; [done|]. split.
  - intros a b Hab. unfold view_getslice. rewrite Hlen. cbn [mbind res_bind]. unfold slice_indices, clamp_index. cbn [default from_option id].
    change (1 =? 0) with false. change (1 <? 0) with false. cbn iota.
    rewrite (proj2 (Z.ltb_ge (Z.of_nat a) 0)), (proj2 (Z.ltb_ge (Z.of_nat b) 0)) by lia. cbn [mbind res_bind].
    replace (Z.to_nat ((Z.min (Z.of_nat b) (Z.of_nat n) - Z.min (Z.of_nat a) (Z.of_nat n) + 1 - 1) / 1)) with (b - a)%nat by (rewrite Z.div_1_r; lia).
    erewrite (map_res_ok _ (λ z, default [] (hashes !! ((Z.to_nat z + 1) * c - 1)%nat))).
    2: { intros z (k&->&[_ Hk]%elem_of_seq)%list_elem_of_fmap. replace (Z.min (Z.of_nat a) (Z.of_nat n) + Z.of_nat k * 1) with (Z.of_nat (a + k)) by lia.
         rewrite Hval by lia. by rewrite Nat2Z.id. }
    f_equal. rewrite <- list_fmap_compose. unfold entries. rewrite skipn_map, firstn_map || rewrite <- fmap_drop, <- fmap_take.
    rewrite drop_seq, take_seq. cbn [Nat.add]. apply list_eq. intros k. rewrite !list_lookup_fmap.
    replace ((b - a) `min` (n - a))%nat with (b - a)%nat by lia. destruct (decide (k < b - a)%nat) as [Hk|Hk].
    + rewrite !lookup_seq_lt by lia. unfold compose. cbn [fmap option_fmap option_map Nat.add].
      replace (Z.to_nat (Z.min (Z.of_nat a) (Z.of_nat n) + Z.of_nat k * 1)) with (a + k)%nat by lia. done.
    + rewrite !lookup_seq_ge by lia. done.
  - intros t Ht. unfold new_view. destruct (Z.eqb_spec hbs 0); [lia|]. destruct (Z.eqb_spec (t mod hbs) 0); done.
Qed.

(** * Instances *)

(** A hash function that does not collide: an encoding of its input. *)
#[local] Instance byte_eq_dec : EqDecision byte := Byte.byte_eq_dec.
#[local] Instance byte_countable : Countable byte := inj_countable' b2z z2b z2b_b2z.
#[local] Instance hash_input_eq_dec : EqDecision HashInput.
Proof. solve_decision. Defined.
Definition key_to (k : ExtraKey) : string + (string * Z) + list byte :=
  match k with KeyStr s => inl (inl s) | KeyMM i o => inl (inr (i, o)) | KeyBytes b => inr b end.
Definition key_from (k : string + (string * Z) + list byte) : ExtraKey :=
  match k with inl (inl s) => KeyStr s | inl (inr (i, o)) => KeyMM i o | inr b => KeyBytes b end.
#[local] Instance extra_key_countable : Countable ExtraKey.
Proof. apply (inj_countable' key_to key_from). by intros []. Defined.
Definition input_to (x : HashInput) : string + (list byte * list Z * option (list ExtraKey)) :=
  match x with HSeed s => inl s | HBlock p t e => inr (p, t, e) end.
Definition input_from (x : string + (list byte * list Z * option (list ExtraKey))) : HashInput :=
  match x with inl s => HSeed s | inr (p, t, e) => HBlock p t e end.
#[local] Instance hash_input_countable : Countable HashInput.
Proof. apply (inj_countable' input_to input_from). by intros []. Defined.
Fixpoint pos_bytes (p : positive) : list byte :=
  match p with xH => [Byte.x02] | xO p => Byte.x00 :: pos_bytes p | xI p => Byte.x01 :: pos_bytes p end.
Lemma pos_bytes_inj p q : pos_bytes p = pos_bytes q → p = q.
Proof. revert q. induction p as [p IH|p IH|]; intros [q|q|]; simpl; intros H; simplify_eq; f_equal; auto. Qed.
Definition enc (x : HashInput) : list byte := pos_bytes (encode x).
Lemma enc_inj x y : enc x = enc y → x = y.
Proof. intros H%pos_bytes_inj. by apply (inj encode) in H. Qed.
Lemma enc_nonempty x : enc x ≠ [].
Proof. unfold enc. by destruct (encode x). Qed.

Definition no_embeds : unit → Z → Z → list byte := λ _ _ _, [].
Definition seed0 : BlockHash := enc (HSeed "").

Definition image (id : string) (o n : Z) : MMFeature := mkMM (Some id) o n.
(** A request over the given tokens. *)
Definition req0 (ts : list Z) (mm : list MMFeature) (lora salt : option string) (hs : list BlockHash) : Request unit :=
  mkRequest ts (Z.of_nat (length ts)) hs mm lora salt None ∅.
Lemma req0_ok ts mm lora salt hs : mm_ok mm → req_ok no_embeds (req0 ts mm lora salt hs).
Proof. by split. Qed.

Definition scratch0 := scratch no_embeds enc seed0 2.
Definition hashes0 (r : Request unit) : list BlockHash := match scratch0 r with Ok l => l | Err _ => [] end.
Definition prompt0 : Request unit := req0 [5; 0; 0; 7; 0] [image "a" 1 2; image "b" 4 1] None (Some "tenant") [].
Definition request0 : Request unit := req0 [5; 0; 0; 7; 0] [image "a" 1 2; image "b" 4 1] None (Some "tenant") (hashes0 prompt0).

Lemma mm_extra_keys_exact_witness :
  mm_keys (mm_features request0) 2 4 = [KeyMM "a" (-1)] ∧
  ∃ idx', _gen_mm_extra_hash_keys request0 2 4 0 = Ok (mm_keys (mm_features request0) 2 4, idx') ∧ idx_ok (mm_features request0) 4 idx'.
Proof.
  split; [reflexivity|]. apply (mm_extra_keys_exact request0 2 4 0); [|lia|left; split; [lia|constructor]].
  repeat split; try done; repeat constructor; unfold mm_end; simpl; lia.
Defined.

Lemma block_hasher_incremental_witness :
  length (hashes0 prompt0) = 2%nat ∧
  ∃ new r2, request_block_hasher no_embeds enc seed0 2 (grow request0 (block_hashes request0) [8; 9; 10]) = (Ok new, r2) ∧
    scratch0 (grow request0 (block_hashes request0) [8; 9; 10]) = Ok (block_hashes request0 ++ new) ∧
    Z.of_nat (length (block_hashes request0 ++ new)) = (num_tokens request0 + 3) / 2 ∧
    req_ok no_embeds r2 ∧ req_same (grow request0 (block_hashes request0) [8; 9; 10]) r2.
Proof.
  split; [vm_compute; reflexivity|].
  apply (block_hasher_incremental no_embeds enc seed0 2 request0 [8; 9; 10]); [lia| |vm_compute; reflexivity|].
  - apply req0_ok. repeat split; try done; repeat constructor; unfold mm_end; simpl; lia.
  - right. constructor; [vm_compute; discriminate|constructor].
Defined.

Definition reqA : Request unit := req0 [5; 6; 7; 8] [] None None [].
Definition reqB : Request unit := req0 [5; 6; 7; 8; 9; 10] [] None None [].
Definition hashA : BlockHash := default [] (hashes0 reqA !! 1%nat).
Lemma scratchA : scratch0 reqA = Ok (hashes0 reqA).
Proof. vm_compute. reflexivity. Qed.
Lemma scratchB : scratch0 reqB = Ok (hashes0 reqB).
Proof. vm_compute. reflexivity. Qed.
Lemma hashA_at : hashes0 reqA !! 1%nat = Some hashA.
Proof. vm_compute. reflexivity. Qed.
Lemma hashB_at : hashes0 reqB !! 1%nat = Some hashA.
Proof. vm_compute. reflexivity. Qed.
Lemma seed0_eq : seed0 = enc (HSeed "").
Proof. reflexivity. Qed.

Lemma block_hash_binds_prefix_witness :
  1%nat = 1%nat ∧ prefix_tokens 2 reqA 2 = prefix_tokens 2 reqB 2 ∧
  ∀ b, (b ≤ 1)%nat → extra_spec no_embeds reqA (Z.of_nat b * 2) (Z.of_nat b * 2 + 2) = extra_spec no_embeds reqB (Z.of_nat b * 2) (Z.of_nat b * 2 + 2).
Proof.
  exact (block_hash_binds_prefix no_embeds enc seed0 2 reqA reqB "" (hashes0 reqA) (hashes0 reqB) 1 1 hashA
    eq_refl (req0_ok _ [] _ _ _ I) (req0_ok _ [] _ _ _ I) enc_inj enc_nonempty seed0_eq scratchA scratchB hashA_at hashB_at).
Defined.

Lemma block_hash_view_witness :
  let hashes := hashes0 (req0 [1; 2; 3; 4; 5; 6; 7] [] None None []) in
  ∃ v, new_view hashes 2 (2 * 2) = Ok v ∧ view_len v = Ok 1 ∧
    view_iter v = Ok ((λ i, default [] (hashes !! ((i + 1) * 2 - 1)%nat)) <$> seq 0 1) ∧
    (∀ i, (i < 1)%nat → ∃ h, hashes !! ((i + 1) * 2 - 1)%nat = Some h ∧ view_getitem v (Z.of_nat i) = Ok h).
Proof.
  intros hashes. destruct (block_hash_view hashes 2 2) as (v&H1&H2&H3&H4&_); [lia|lia|].
  assert (E : (length hashes / 2)%nat = 1%nat) by (vm_compute; reflexivity). rewrite E in *. exists v. split; [exact H1|].
  split; [exact H2|]. split; [exact H3|exact H4].
Defined.

(** ** Where keys do not tell requests apart *)

(** A LoRA name and a cache salt are both plain strings in the key tuple,
    so a request of adapter [x] without a salt and a request of the base
    model with salt [x] get the same hash for their first block, whatever the
    hash function: the block's KV of one is found by the other. *)
Theorem lora_salt_collision (call : HashInput → list byte) none x ts :
  x ≠ "" → ts ≠ [] →
  let r_lora := req0 ts [] (Some x) None [] in
  let r_salt := req0 ts [] None (Some x) [] in
  (request_block_hasher no_embeds call none (Z.of_nat (length ts)) r_lora).1 =
  (request_block_hasher no_embeds call none (Z.of_nat (length ts)) r_salt).1.
Proof.
  intros Hx Hts r_lora r_salt. assert (Hs : String.eqb x "" = false) by by apply String.eqb_neq.
  assert (Hok : ∀ l s, req_ok no_embeds (req0 ts [] l s [])) by by intros; apply req0_ok.
  destruct ts as [|t ts]; [done|]. set (n := Z.of_nat (length (t :: ts))) in *. assert (0 < n) by (unfold n; simpl; lia).
  destruct (hasher_spec no_embeds call none n ltac:(done) r_lora 0) as (r1&->&_); [done|done|lia|by left|].
  destruct (hasher_spec no_embeds call none n ltac:(done) r_salt 0) as (r2&->&_); [done|done|lia|by left|].
  cbn [fst]. rewrite !drop_0. unfold spec_hashes, full_blocks, r_lora, r_salt, req0. cbn [num_tokens]. fold n.
  rewrite Z.div_same by lia. change (Z.to_nat 1) with 1%nat. cbn [hash_chain]. unfold extra_spec, salt_keys. cbn [cache_salt lora_name _gen_lora_extra_hash_keys prompt_embeds mm_features].
  unfold _gen_lora_extra_hash_keys, embeds_keys. cbn [lora_name prompt_embeds]. by rewrite Hs.
Qed.

Lemma lora_salt_collision_witness :
  (request_block_hasher no_embeds enc seed0 2 (req0 [5; 6] [] (Some "x") None [])).1 =
  (request_block_hasher no_embeds enc seed0 2 (req0 [5; 6] [] None (Some "x") [])).1.
Proof. apply (lora_salt_collision enc seed0 "x" [5; 6]); done. Defined.

(** Hash the prompt, then the tokens generated after it. *)
Definition hash_in_two (call : HashInput → list byte) (none : BlockHash) (hbs : Z) (r : Request unit) (ts : list Z) : res (list BlockHash) :=
  let '(first, r1) := request_block_hasher no_embeds call none hbs r in
  h1 ← first; h2 ← (request_block_hasher no_embeds call none hbs (grow r1 h1 ts)).1; Ok (h1 ++ h2).
Definition two_images (a : string) : Request unit := req0 [5; 6; 7; 8; 0; 0] [image a 4 1; image "b" 5 1] None None [].

(** When the last prompt block is completed by generated tokens, the
    hasher resumes from the last multi-modal item only: a block that holds
    two items is hashed without the first.  Two requests that differ in that
    item get the same hashes for every hash function, and with a hash
    function that does not collide these are not the hashes that the same
    tokens and items get at once. *)
Theorem mm_tail_item_dropped :
  (∀ call none, hash_in_two call none 4 (two_images "a") [9; 10] = hash_in_two call none 4 (two_images "c") [9; 10]) ∧
  hash_in_two enc seed0 4 (two_images "a") [9; 10] ≠ scratch no_embeds enc seed0 4 (grow (two_images "a") [] [9; 10]).
Proof.
  split; [reflexivity|]. intros H. apply (f_equal (λ r, match r with Ok l => l | Err _ => [] end)) in H.
  revert H. apply (bool_decide_unpack (_ ≠ _)). vm_compute. exact I.
Qed.
