(* ===== verification/KvSpec.v ===== *)
(** KV-cache specifications: the dataclasses of
    src/runtime/vllm029/overlay/vllm/v1/kv_cache_interface.py, their page
    sizes, memory needs, merging and uniformity, and the group wrapper
    [UniformTypeKVCacheSpecs].  Sizes of torch types, [cdiv], [round_up] and
    the specification registry belong to the vLLM package. *)
From S2P Require Import Prelude PyDict.
From stdpp Require Import base list gmap sets strings.
From Stdlib Require Import ZArith Lia.
#[local] Open Scope string_scope.
#[local] Open Scope list_scope.
#[local] Open Scope Z_scope.

(** * Quantization modes *)

Inductive KVQuantMode :=
  | NONE | FP8_PER_TENSOR | INT8_PER_TOKEN_HEAD | FP8_PER_TOKEN_HEAD | INT4_PER_TOKEN_HEAD | NVFP4
  | TURBOQUANT_K8V4 | TURBOQUANT_4BIT_NC | TURBOQUANT_K3V4_NC | TURBOQUANT_3BIT_NC.
#[export] Instance quant_mode_eq_dec : EqDecision KVQuantMode.
Proof. solve_decision. Defined.

Definition is_per_token_head (m : KVQuantMode) : bool :=
  bool_decide (m ∈ [INT8_PER_TOKEN_HEAD; FP8_PER_TOKEN_HEAD; INT4_PER_TOKEN_HEAD]).
Definition is_nvfp4 (m : KVQuantMode) : bool := bool_decide (m = NVFP4).
Definition is_turboquant (m : KVQuantMode) : bool :=
  bool_decide (m ∈ [TURBOQUANT_K8V4; TURBOQUANT_4BIT_NC; TURBOQUANT_K3V4_NC; TURBOQUANT_3BIT_NC]).

(** [KVQuantMode[name]], for the names that [get_kv_quant_mode] looks up. *)
Definition turboquant_member (name : string) : res KVQuantMode :=
  res_of_option KeyError (od_get name
    [("turboquant_k8v4", TURBOQUANT_K8V4); ("turboquant_4bit_nc", TURBOQUANT_4BIT_NC);
     ("turboquant_k3v4_nc", TURBOQUANT_K3V4_NC); ("turboquant_3bit_nc", TURBOQUANT_3BIT_NC)]).
(** [s.upper()] is taken the other way: the lower case of an ASCII letter. *)
Definition lower_ascii (c : Ascii.ascii) : Ascii.ascii :=
  let n := Ascii.nat_of_ascii c in
  if bool_decide (65 ≤ n ≤ 90)%nat then Ascii.ascii_of_nat (n + 32) else c.
Fixpoint lower (s : string) : string :=
  match s with String.EmptyString => String.EmptyString | String.String c s => String.String (lower_ascii c) (lower s) end.

Definition get_kv_quant_mode (kv_cache_dtype : string) : res KVQuantMode :=
  if String.eqb kv_cache_dtype "int4_per_token_head" then Ok INT4_PER_TOKEN_HEAD
  else if String.eqb kv_cache_dtype "int8_per_token_head" then Ok INT8_PER_TOKEN_HEAD
  else if String.eqb kv_cache_dtype "fp8_per_token_head" then Ok FP8_PER_TOKEN_HEAD
  else if String.prefix "nvfp4" kv_cache_dtype then Ok NVFP4
  else if String.prefix "turboquant_" kv_cache_dtype then turboquant_member (lower kv_cache_dtype)
  else if String.prefix "fp8" kv_cache_dtype then Ok FP8_PER_TENSOR
  else Ok NONE.
Definition is_quantized_kv_cache (kv_cache_dtype : string) : res bool :=
  m ← get_kv_quant_mode kv_cache_dtype; Ok (negb (bool_decide (m = NONE))).
Definition kv_cache_uses_per_token_head_scales (kv_cache_dtype : string) : res bool :=
  m ← get_kv_quant_mode kv_cache_dtype; Ok (is_per_token_head m).

(** * The configuration the specifications look at *)

Record SpeculativeConfig := mkSpec {
  use_eagle : bool; use_multi_module_mtp : bool; num_speculative_tokens : Z }.

Record VllmConfig := mkVllm {
  max_model_len : Z; original_max_model_len : Z;
  decode_context_parallel_size : Z; pipeline_parallel_size : Z;
  async_scheduling : bool; use_v2_model_runner : bool; max_num_batched_tokens : Z;
  max_num_encoder_input_tokens : Z; disable_hybrid_kv_cache_manager : bool;
  cache_block_size : Z; enable_prefix_caching : bool; prefix_match_unit : option Z;
  num_gpu_blocks_override : option Z; cache_mamba_mode : string;
  prefix_cache_retention_interval : option Z;
  has_kv_transfer_config : bool;
  speculative_config : option SpeculativeConfig;
  hf_model_type : option string }.

Definition with_max_model_len (n : Z) (v : VllmConfig) : VllmConfig :=
  mkVllm n (original_max_model_len v) (decode_context_parallel_size v) (pipeline_parallel_size v) (async_scheduling v)
    (use_v2_model_runner v) (max_num_batched_tokens v) (max_num_encoder_input_tokens v) (disable_hybrid_kv_cache_manager v)
    (cache_block_size v) (enable_prefix_caching v) (prefix_match_unit v) (num_gpu_blocks_override v) (cache_mamba_mode v)
    (prefix_cache_retention_interval v) (has_kv_transfer_config v) (speculative_config v) (hf_model_type v).

(** [VllmConfig.max_concurrent_batches] and [max_in_flight_tokens] *)
Definition max_concurrent_batches (v : VllmConfig) : Z :=
  if async_scheduling v then
    if use_v2_model_runner v then pipeline_parallel_size v + 1
    else if pipeline_parallel_size v <=? 1 then 2 else pipeline_parallel_size v
  else pipeline_parallel_size v.
Definition max_in_flight_tokens (v : VllmConfig) : Z := max_concurrent_batches v * max_num_batched_tokens v.

(** * Specifications *)

(** The classes of this file, for the registry. *)
Inductive SpecClass :=
  | CFullAttention | CMLAAttention | CHiddenStateCache | CRSWA | CSinkFullAttention | CChunkedLocalAttention
  | CSlidingWindow | CSlidingWindowMLA | CCircularBuffer | CEncoderOnly | CCross | CMamba | CAttention.

(** What the vLLM package provides: the torch types with their sizes, the two
    integer helpers, and the registry's base class of a specification. *)
Class KvLib := mkKvLib {
  DType : Type;
  dtype_eq_dec :: EqDecision DType;
  get_dtype_size : DType → Z;
  cdiv : Z → Z → Z;
  round_up_to : Z → Z → Z;
  get_uniform_type_base_spec : SpecClass → option SpecClass }.
(** [cdiv(a, b)] is [-(a // -b)], the ceiling of the quotient, and
    [round_up(x, m)] the least multiple of [m] from [x] on. *)
Class KvLaws (L : KvLib) : Prop := {
  cdiv_ceil a b : 0 < b → cdiv a b = - ((- a) / b);
  round_up_to_ceil x m : 0 < m → round_up_to x m = - ((- x) / m) * m }.

Section specs.
Context {L : KvLib}.

(** [tokens_per_state]: an integer, or a fraction below one. *)
Inductive TokensPerState := TInt (n : Z) | TFrac (num den : Z).
#[global] Instance tps_eq_dec : EqDecision TokensPerState.
Proof. solve_decision. Defined.

(** The fields of [AttentionSpec]. *)
Record AttentionFields := mkAttention {
  a_block_size : Z; num_kv_heads : Z; head_size : Z; dtype : DType; head_size_v : Z; kv_quant_mode : KVQuantMode;
  a_page_size_padded : option Z; num_head_slots : option Z; state_content_bytes : option Z; a_tokens_per_state : TokensPerState }.
#[global] Instance attention_fields_eq_dec : EqDecision AttentionFields.
Proof. solve_decision. Defined.

(** What [FullAttentionSpec] and the MLA classes add. *)
Record FullFields := mkFull { full_sliding_window : option Z; full_attention_chunk_size : option Z; non_causal : bool }.
#[global] Instance full_fields_eq_dec : EqDecision FullFields.
Proof. solve_decision. Defined.
Record MLAFields := mkMLA { cache_dtype_str : option string; alignment : option Z; model_version : option string }.
#[global] Instance mla_fields_eq_dec : EqDecision MLAFields.
Proof. solve_decision. Defined.

(** [MambaSpec]; [mamba_type] is an enumeration of the vLLM package, by name. *)
Record MambaFields := mkMamba {
  m_block_size : Z; shapes : list (list Z); dtypes : list DType; m_page_size_padded : option Z; mamba_type : string;
  mamba_cache_mode : string; num_speculative_blocks : Z; num_prefill_checkpoint_blocks : Z; m_num_heads : Z;
  m_tokens_per_state : Z; tp_replicated : bool }.
#[global] Instance mamba_fields_eq_dec : EqDecision MambaFields.
Proof. solve_decision. Defined.

(** The classes of attention specifications, with the fields each adds. *)
Inductive AttentionKind :=
  | FullAttention (f : FullFields)
  | MLAAttention (f : FullFields) (m : MLAFields) (non_causal_multi_token_decode : bool)
  | HiddenStateCache (f : FullFields) (m : MLAFields) (non_causal_multi_token_decode : bool)
  | RSWA (f : FullFields) (rswa_window : Z)
  | SinkFullAttention (f : FullFields) (sink_len : option Z)
  | ChunkedLocalAttention (attention_chunk_size : Z)
  | SlidingWindow (sliding_window extra_retained_tokens : Z)
  | SlidingWindowMLA (sliding_window extra_retained_tokens : Z) (m : MLAFields)
  | CircularBuffer
  | EncoderOnlyAttention
  | CrossAttention.
#[global] Instance attention_kind_eq_dec : EqDecision AttentionKind.
Proof. solve_decision. Defined.

Inductive KVCacheSpec := Attention (a : AttentionFields) (k : AttentionKind) | Mamba (m : MambaFields).
#[global] Instance kv_cache_spec_eq_dec : EqDecision KVCacheSpec.
Proof. solve_decision. Defined.

(** [isinstance] *)
Definition is_attention (s : KVCacheSpec) : bool := match s with Attention _ _ => true | _ => false end.
Definition is_full_attention (s : KVCacheSpec) : bool :=
  match s with
  | Attention _ (FullAttention _ | MLAAttention _ _ _ | HiddenStateCache _ _ _ | RSWA _ _ | SinkFullAttention _ _) => true
  | _ => false
  end.
Definition is_mla_attention (s : KVCacheSpec) : bool :=
  match s with Attention _ (MLAAttention _ _ _ | HiddenStateCache _ _ _) => true | _ => false end.
Definition is_hidden_state (s : KVCacheSpec) : bool :=
  match s with Attention _ (HiddenStateCache _ _ _) => true | _ => false end.
Definition is_rswa (s : KVCacheSpec) : bool := match s with Attention _ (RSWA _ _) => true | _ => false end.
Definition is_sink (s : KVCacheSpec) : bool := match s with Attention _ (SinkFullAttention _ _) => true | _ => false end.
Definition is_chunked_local (s : KVCacheSpec) : bool :=
  match s with Attention _ (ChunkedLocalAttention _) => true | _ => false end.
Definition is_sliding_window (s : KVCacheSpec) : bool :=
  match s with Attention _ (SlidingWindow _ _ | SlidingWindowMLA _ _ _) => true | _ => false end.
Definition is_sliding_window_mla (s : KVCacheSpec) : bool :=
  match s with Attention _ (SlidingWindowMLA _ _ _) => true | _ => false end.
Definition is_circular (s : KVCacheSpec) : bool := match s with Attention _ CircularBuffer => true | _ => false end.
Definition is_mamba (s : KVCacheSpec) : bool := match s with Mamba _ => true | _ => false end.

Definition full_of (k : AttentionKind) : option FullFields :=
  match k with
  | FullAttention f | MLAAttention f _ _ | HiddenStateCache f _ _ | RSWA f _ | SinkFullAttention f _ => Some f
  | _ => None
  end.
Definition mla_of (k : AttentionKind) : option MLAFields :=
  match k with MLAAttention _ m _ | HiddenStateCache _ m _ | SlidingWindowMLA _ _ m => Some m | _ => None end.
Definition window_of (k : AttentionKind) : option (Z * Z) :=
  match k with SlidingWindow w e | SlidingWindowMLA w e _ => Some (w, e) | _ => None end.

(** ** Sizes *)

Definition block_size (s : KVCacheSpec) : Z := match s with Attention a _ => a_block_size a | Mamba m => m_block_size m end.
Definition prefix_cacheable (s : KVCacheSpec) : bool := negb (is_circular s).
Definition num_heads (s : KVCacheSpec) : Z :=
  match s with Attention a _ => default (num_kv_heads a) (num_head_slots a) | Mamba m => m_num_heads m end.
Definition tokens_per_state (s : KVCacheSpec) : TokensPerState :=
  match s with Attention a _ => a_tokens_per_state a | Mamba m => TInt (m_tokens_per_state m) end.

(** [kernel_block_size // tokens_per_state] when it is positive. *)
Definition get_num_kernel_states (s : KVCacheSpec) (kernel_block_size : Z) : Z :=
  match tokens_per_state s with
  | TInt n => if 0 <? n then kernel_block_size / n else 1
  | TFrac p q => if 0 <? p then kernel_block_size * q / p else 1
  end.
Definition num_states (s : KVCacheSpec) : Z := get_num_kernel_states s (block_size s).

Definition prod (l : list Z) : Z := foldr Z.mul 1 l.
Definition mamba_bytes (m : MambaFields) : Z :=
  zsum (zip_with (λ shape d, prod shape * get_dtype_size d) (shapes m) (dtypes m)).
Definition state_content_size_bytes (s : KVCacheSpec) : Z :=
  match s with
  | Attention a _ => default ((head_size a + head_size_v a) * get_dtype_size (dtype a)) (state_content_bytes a)
  | Mamba m => mamba_bytes m
  end.
Definition unpadded_page_size_bytes (s : KVCacheSpec) : Z := num_heads s * num_states s * state_content_size_bytes s.
Definition page_size_padded (s : KVCacheSpec) : option Z :=
  match s with Attention a _ => a_page_size_padded a | Mamba m => m_page_size_padded m end.

Definition page_size_bytes (s : KVCacheSpec) : res Z :=
  let actual := match s with Attention _ _ => unpadded_page_size_bytes s | Mamba m => mamba_bytes m end in
  match page_size_padded s with
  | Some p => check (actual <=? p);; Ok p
  | None => Ok actual
  end.

(** ** Construction *)

Definition set_block_size (n : Z) (s : KVCacheSpec) : KVCacheSpec :=
  match s with
  | Attention a k => Attention (mkAttention n (num_kv_heads a) (head_size a) (dtype a) (head_size_v a) (kv_quant_mode a)
                       (a_page_size_padded a) (num_head_slots a) (state_content_bytes a) (a_tokens_per_state a)) k
  | Mamba m => Mamba (mkMamba n (shapes m) (dtypes m) (m_page_size_padded m) (mamba_type m) (mamba_cache_mode m)
                 (num_speculative_blocks m) (num_prefill_checkpoint_blocks m) (m_num_heads m) (m_tokens_per_state m) (tp_replicated m))
  end.
Definition set_page_size_padded (p : option Z) (s : KVCacheSpec) : KVCacheSpec :=
  match s with
  | Attention a k => Attention (mkAttention (a_block_size a) (num_kv_heads a) (head_size a) (dtype a) (head_size_v a) (kv_quant_mode a)
                       p (num_head_slots a) (state_content_bytes a) (a_tokens_per_state a)) k
  | Mamba m => Mamba (mkMamba (m_block_size m) (shapes m) (dtypes m) p (mamba_type m) (mamba_cache_mode m)
                 (num_speculative_blocks m) (num_prefill_checkpoint_blocks m) (m_num_heads m) (m_tokens_per_state m) (tp_replicated m))
  end.

Definition _apply_alignment_padding (s : KVCacheSpec) : KVCacheSpec :=
  match s with
  | Attention a k =>
    match mla_of k ≫= alignment with
    | None => s
    | Some al =>
      let actual_page_size := unpadded_page_size_bytes s in
      let padded_page_size := round_up_to actual_page_size al in
      if padded_page_size =? actual_page_size then s else set_page_size_padded (Some padded_page_size) s
    end
  | Mamba _ => s
  end.

(** The dataclass constructor: the fields, then [__post_init__]. *)
Definition post_init (s : KVCacheSpec) : res KVCacheSpec :=
  match s with
  | Attention _ (SlidingWindowMLA _ _ m) =>
    check (bool_decide (model_version m ∈ [None; Some "deepseek_v4"]));; Ok (_apply_alignment_padding s)
  | _ => Ok (_apply_alignment_padding s)
  end.

(** [dataclasses.replace(spec, block_size=...)] and [(..., page_size_padded=...)]
    run the constructor again. *)
Definition copy_with_new_block_size (s : KVCacheSpec) (n : Z) : res KVCacheSpec := post_init (set_block_size n s).
Definition replace_page_size_padded (s : KVCacheSpec) (p : Z) : res KVCacheSpec := post_init (set_page_size_padded (Some p) s).

(** ** Merging *)

Definition all_equal {A} `{EqDecision A} (l : list A) : bool :=
  match l with [] => true | x :: l => forallb (λ y, bool_decide (y = x)) l end.
(** [len(set(l)) == 1] *)
Definition one_value {A} `{EqDecision A} (l : list A) : bool := match l with [] => false | _ => all_equal l end.

Definition merge_window_sizes (window_sizes : list Z) : res (option Z) :=
  match window_sizes with
  | [] => Ok None
  | w :: _ => if all_equal window_sizes then Ok (Some w) else Err ValueError
  end.

Definition attention_of (s : KVCacheSpec) : option AttentionFields := match s with Attention a _ => Some a | _ => None end.
Definition kind_of (s : KVCacheSpec) : option AttentionKind := match s with Attention _ k => Some k | _ => None end.
Definition full_fields_of (s : KVCacheSpec) : option FullFields := kind_of s ≫= full_of.
Definition mla_fields_of (s : KVCacheSpec) : option MLAFields := kind_of s ≫= mla_of.

(** The last loop of every attention [merge]: the fields of [AttentionSpec] agree. *)
Definition fields_agree (merged : KVCacheSpec) (specs : list KVCacheSpec) : bool :=
  forallb (λ s, bool_decide (attention_of s = attention_of merged)) specs.

(** The common part of [FullAttentionSpec.merge] and [SinkFullAttentionSpec.merge]. *)
Definition merge_full_fields (specs : list KVCacheSpec) : res FullFields :=
  check (forallb is_full_attention specs);;
  let windows := omap (λ s, full_fields_of s ≫= full_sliding_window) specs in
  let chunks := omap (λ s, full_fields_of s ≫= full_attention_chunk_size) specs in
  check (negb (existsb is_mla_attention specs));;
  w ← merge_window_sizes windows;
  c ← merge_window_sizes chunks;
  Ok (mkFull w c (existsb (λ s, match full_fields_of s with Some f => non_causal f | None => false end) specs)).
(** ... and their final assertion. *)
Definition one_window_kind (f : FullFields) : bool :=
  negb (bool_decide (is_Some (full_sliding_window f)) && bool_decide (is_Some (full_attention_chunk_size f))).

Definition merge_full (a0 : AttentionFields) (specs : list KVCacheSpec) : res (AttentionFields * FullFields) :=
  f ← merge_full_fields specs;
  check (fields_agree (Attention a0 (FullAttention f)) specs);;
  check (one_window_kind f);;
  Ok (a0, f).

(** [SinkFullAttentionSpec] does not pass [tokens_per_state] on. *)
Definition sink_fields (a : AttentionFields) : AttentionFields :=
  mkAttention (a_block_size a) (num_kv_heads a) (head_size a) (dtype a) (head_size_v a) (kv_quant_mode a)
    (a_page_size_padded a) (num_head_slots a) (state_content_bytes a) (TInt 1).
Definition merge_sink (a0 : AttentionFields) (sink_len : option Z) (specs : list KVCacheSpec) : res KVCacheSpec :=
  f ← merge_full_fields specs;
  let merged := Attention (sink_fields a0) (SinkFullAttention f sink_len) in
  check (fields_agree merged specs);;
  check (one_window_kind f);;
  Ok merged.

(** [MLAAttentionSpec.merge], for itself and [HiddenStateCacheSpec]; the
    merged specification has the default [head_size_v] and no alignment. *)
Definition mtd_of (s : KVCacheSpec) : option bool :=
  match s with Attention _ (MLAAttention _ _ b | HiddenStateCache _ _ b) => Some b | _ => None end.
Definition mla_merged_fields (a : AttentionFields) (tps : TokensPerState) : AttentionFields :=
  mkAttention (a_block_size a) (num_kv_heads a) (head_size a) (dtype a) 0 (kv_quant_mode a)
    (a_page_size_padded a) (num_head_slots a) (state_content_bytes a) tps.
Definition merge_mla (a0 : AttentionFields) (m0 : MLAFields) (b0 hidden : bool) (specs : list KVCacheSpec) : res KVCacheSpec :=
  check (forallb is_mla_attention specs);;
  check (one_value ((λ s, mla_fields_of s ≫= cache_dtype_str) <$> specs) &&
         one_value ((λ s, a_tokens_per_state <$> attention_of s) <$> specs) &&
         one_value ((λ s, mla_fields_of s ≫= model_version) <$> specs));;
  check (one_value (mtd_of <$> specs));;
  let a := mla_merged_fields a0 (a_tokens_per_state a0) in
  let f := mkFull None None false in
  let m := mkMLA (cache_dtype_str m0) None (model_version m0) in
  merged ← post_init (Attention a (if hidden then HiddenStateCache f m b0 else MLAAttention f m b0));
  check (fields_agree merged specs);;
  Ok merged.

Definition merge_rswa (a0 : AttentionFields) (w0 : Z) (specs : list KVCacheSpec) : res KVCacheSpec :=
  check (forallb is_rswa specs);;
  check (one_value ((λ s, match s with Attention _ (RSWA _ w) => Some w | _ => None end) <$> specs));;
  base ← merge_full a0 specs;
  Ok (Attention base.1 (RSWA base.2 w0)).

(** [SlidingWindowMLASpec.merge]: no comparison of the other fields, and the
    quantization mode is left at its default. *)
Definition merge_sliding_mla (a0 : AttentionFields) (w0 e0 : Z) (m0 : MLAFields) (specs : list KVCacheSpec) : res KVCacheSpec :=
  check (forallb is_sliding_window_mla specs);;
  check (one_value ((λ s, mla_fields_of s ≫= cache_dtype_str) <$> specs) &&
         one_value ((λ s, a_tokens_per_state <$> attention_of s) <$> specs) &&
         one_value ((λ s, mla_fields_of s ≫= model_version) <$> specs) &&
         one_value ((λ s, fst <$> (kind_of s ≫= window_of)) <$> specs) &&
         one_value ((λ s, snd <$> (kind_of s ≫= window_of)) <$> specs));;
  let a := mkAttention (a_block_size a0) (num_kv_heads a0) (head_size a0) (dtype a0) 0 NONE
             (a_page_size_padded a0) (num_head_slots a0) (state_content_bytes a0) (a_tokens_per_state a0) in
  post_init (Attention a (SlidingWindowMLA w0 e0 (mkMLA (cache_dtype_str m0) None (model_version m0)))).

(** [type(specs[0]).merge(specs)] *)
Definition merge (specs : list KVCacheSpec) : res KVCacheSpec :=
  match specs with
  | [] => Err IndexError
  | s0 :: rest =>
    match s0 with
    | Attention a (FullAttention _) => base ← merge_full a specs; Ok (Attention base.1 (FullAttention base.2))
    | Attention a (MLAAttention _ m b) => merge_mla a m b false specs
    | Attention a (HiddenStateCache _ m b) => merge_mla a m b true specs
    | Attention a (RSWA _ w) => merge_rswa a w specs
    | Attention a (SinkFullAttention _ n) => merge_sink a n specs
    | Attention a (SlidingWindowMLA w e m) => merge_sliding_mla a w e m specs
    | _ => check (forallb (λ s, bool_decide (s = s0)) rest);; Ok s0
    end
  end.

(** ** Uniformity *)

Definition class_of (s : KVCacheSpec) : SpecClass :=
  match s with
  | Attention _ k =>
    match k with
    | FullAttention _ => CFullAttention | MLAAttention _ _ _ => CMLAAttention | HiddenStateCache _ _ _ => CHiddenStateCache
    | RSWA _ _ => CRSWA | SinkFullAttention _ _ => CSinkFullAttention | ChunkedLocalAttention _ => CChunkedLocalAttention
    | SlidingWindow _ _ => CSlidingWindow | SlidingWindowMLA _ _ _ => CSlidingWindowMLA | CircularBuffer => CCircularBuffer
    | EncoderOnlyAttention => CEncoderOnly | CrossAttention => CCross
    end
  | Mamba _ => CMamba
  end.
Definition isinstance (s : KVCacheSpec) (c : SpecClass) : bool :=
  match c with
  | CFullAttention => is_full_attention s | CMLAAttention => is_mla_attention s | CHiddenStateCache => is_hidden_state s
  | CRSWA => is_rswa s | CSinkFullAttention => is_sink s | CChunkedLocalAttention => is_chunked_local s
  | CSlidingWindow => is_sliding_window s | CSlidingWindowMLA => is_sliding_window_mla s | CCircularBuffer => is_circular s
  | CEncoderOnly => match s with Attention _ EncoderOnlyAttention => true | _ => false end
  | CCross => match s with Attention _ CrossAttention => true | _ => false end
  | CMamba => is_mamba s | CAttention => is_attention s
  end.

Definition is_uniform_with_collection (self : KVCacheSpec) (specs : list KVCacheSpec) : res bool :=
  match self with
  | Attention _ (ChunkedLocalAttention c) =>
    Ok (forallb (λ s, match s with Attention _ (ChunkedLocalAttention c') => c' =? c | _ => false end) specs)
  | Attention _ (SlidingWindowMLA w _ _) =>
    Ok (forallb (λ s, is_sliding_window_mla s && match kind_of s ≫= window_of with Some (w', _) => w' =? w | None => false end) specs)
  | Attention _ (SlidingWindow w _) =>
    Ok (forallb (λ s, is_sliding_window s && match kind_of s ≫= window_of with Some (w', _) => w' =? w | None => false end) specs)
  | Attention _ CircularBuffer => Ok (forallb is_circular specs)
  | Mamba m =>
    all_res (λ s, match s with
                  | Mamba m' =>
                    if (num_speculative_blocks m' =? num_speculative_blocks m) &&
                       (num_prefill_checkpoint_blocks m' =? num_prefill_checkpoint_blocks m) then
                      p' ← page_size_bytes s; p ← page_size_bytes self;
                      Ok ((p' =? p) && Bool.eqb (tp_replicated m') (tp_replicated m))
                    else Ok false
                  | _ => Ok false
                  end) specs
  | _ =>
    match get_uniform_type_base_spec (class_of self) with
    | None => Err AssertionError
    | Some base => Ok (forallb (λ s, isinstance s base) specs)
    end
  end.

(** ** Memory needs *)

Definition sliding_admission_blocks (bs w extra in_flight mml : Z) : Z :=
  cdiv (Z.min (w - 1 + extra + in_flight) mml) bs + 1.
Definition chunked_admission_blocks (bs c in_flight mml : Z) : Z := cdiv (Z.min (c + in_flight) mml) bs.

Definition max_memory_usage_bytes (s : KVCacheSpec) (v : VllmConfig) : res Z :=
  match s with
  | Attention a k =>
    match k with
    | FullAttention _ | MLAAttention _ _ _ | HiddenStateCache _ _ _ | RSWA _ _ | SinkFullAttention _ _ =>
      let n := max_model_len v in
      let d := decode_context_parallel_size v in
      let n := if 1 <? d then cdiv n d else n in
      p ← page_size_bytes s; Ok (cdiv n (a_block_size a) * p)
    | ChunkedLocalAttention c =>
      p ← page_size_bytes s; Ok (chunked_admission_blocks (a_block_size a) c (max_in_flight_tokens v) (max_model_len v) * p)
    | SlidingWindow w e | SlidingWindowMLA w e _ =>
      p ← page_size_bytes s; Ok (sliding_admission_blocks (a_block_size a) w e (max_in_flight_tokens v) (max_model_len v) * p)
    | CircularBuffer => page_size_bytes s
    | EncoderOnlyAttention => Ok 0
    | CrossAttention => p ← page_size_bytes s; Ok (cdiv (max_num_encoder_input_tokens v) (a_block_size a) * p)
    end
  | Mamba m =>
    p ← page_size_bytes s;
    if String.eqb (cache_mamba_mode v) "all" then Ok ((cdiv (max_model_len v) (m_block_size m) + num_speculative_blocks m) * p)
    else if String.eqb (cache_mamba_mode v) "align" then Ok (p * (2 + num_speculative_blocks m + num_prefill_checkpoint_blocks m))
    else Ok (p * (1 + num_speculative_blocks m))
  end.

Definition max_num_blocks_per_req (s : KVCacheSpec) (v : VllmConfig) (max_len : Z) : res Z :=
  match s with
  | Attention a (SlidingWindow _ _ | SlidingWindowMLA _ _ _) => Ok (cdiv max_len (a_block_size a))
  | Attention _ CircularBuffer => Ok 1
  | Attention a _ => Ok (cdiv max_len (a_block_size a * decode_context_parallel_size v))
  | Mamba m =>
    if String.eqb (cache_mamba_mode v) "align" then Ok (cdiv max_len (m_block_size m) + num_speculative_blocks m)
    else n ← max_memory_usage_bytes s v; p ← page_size_bytes s; Ok (cdiv n p)
  end.

(** * Group specifications *)

(** The specification of a cache group: a layer's, or
    [UniformTypeKVCacheSpecs] over the group's layers. *)
Inductive GroupSpec := GLayer (s : KVCacheSpec) | GUniform (bs : Z) (specs : odict string KVCacheSpec).
#[global] Instance group_spec_eq_dec : EqDecision GroupSpec.
Proof. solve_decision. Defined.

Definition g_block_size (g : GroupSpec) : Z := match g with GLayer s => block_size s | GUniform bs _ => bs end.
Definition iter_layer_specs (g : GroupSpec) : list KVCacheSpec :=
  match g with GLayer s => [s] | GUniform _ d => od_vals d end.
Definition g_prefix_cacheable (g : GroupSpec) : bool := forallb prefix_cacheable (iter_layer_specs g).
Definition first_spec (d : odict string KVCacheSpec) : res KVCacheSpec :=
  match d with [] => Err StopIteration | (_, s) :: _ => Ok s end.

Definition g_page_size_bytes (g : GroupSpec) : res Z :=
  match g with
  | GLayer s => page_size_bytes s
  | GUniform _ d => ps ← map_res page_size_bytes (od_vals d); Ok (zsum ps)
  end.
(** [cdiv(spec.max_memory_usage_bytes(config), spec.page_size_bytes)] *)
Definition pages_of (v : VllmConfig) (s : KVCacheSpec) : res Z :=
  n ← max_memory_usage_bytes s v; p ← page_size_bytes s; Ok (cdiv n p).
Definition max_memory_usage_pages (d : odict string KVCacheSpec) (v : VllmConfig) : res Z :=
  ps ← map_res (pages_of v) (od_vals d); zmax ps.
Definition g_max_memory_usage_bytes (g : GroupSpec) (v : VllmConfig) : res Z :=
  match g with
  | GLayer s => max_memory_usage_bytes s v
  | GUniform _ d => n ← max_memory_usage_pages d v; p ← g_page_size_bytes g; Ok (n * p)
  end.
Definition g_max_num_blocks_per_req (g : GroupSpec) (v : VllmConfig) (max_len : Z) : res Z :=
  match g with
  | GLayer s => max_num_blocks_per_req s v max_len
  | GUniform _ d =>
    ws ← map_res (λ s, max_num_blocks_per_req s v max_len) (od_vals d);
    match ws with
    | w :: _ => check (all_equal ws);; Ok w
    | [] => Err AssertionError
    end
  end.

Definition is_uniform_type (d : odict string KVCacheSpec) : res bool :=
  if negb (all_equal (block_size <$> od_vals d)) then Ok false
  else s ← first_spec d; is_uniform_with_collection s (od_vals d).
(** [from_specs]: the wrapper, or [None]. *)
Definition from_specs (d : odict string KVCacheSpec) : res (option GroupSpec) :=
  b ← is_uniform_type d;
  if b : bool then s ← first_spec d; Ok (Some (GUniform (block_size s) d)) else Ok None.

Fixpoint count_eq (x : Z) (l : list Z) : Z := match l with [] => 0 | y :: l => (if x =? y then 1 else 0) + count_eq x l end.
Definition get_max_layers_per_page_size (d : odict string KVCacheSpec) : res Z :=
  ps ← map_res page_size_bytes (od_vals d);
  match ps with [] => Err IndexError | _ => zmax ((λ p, count_eq p ps) <$> ps) end.

Definition is_full_attention_spec (g : GroupSpec) : bool :=
  match iter_layer_specs g with [] => false | l => forallb is_full_attention l end.

(** ** Kinds *)

Inductive KVCacheSpecKind :=
  | FULL_ATTENTION | MLA_ATTENTION | SLIDING_WINDOW | SLIDING_WINDOW_MLA | MAMBA | CHUNKED_LOCAL_ATTENTION
  | SINK_FULL_ATTENTION | ENCODER_ONLY_ATTENTION | CROSS_ATTENTION | UNKNOWN.
#[global] Instance spec_kind_eq_dec : EqDecision KVCacheSpecKind.
Proof. solve_decision. Defined.

Definition layer_spec_kind (s : KVCacheSpec) : KVCacheSpecKind :=
  if is_sliding_window_mla s then SLIDING_WINDOW_MLA
  else if is_mla_attention s then MLA_ATTENTION
  else if is_sink s then SINK_FULL_ATTENTION
  else if is_full_attention s then FULL_ATTENTION
  else if is_chunked_local s then CHUNKED_LOCAL_ATTENTION
  else if is_sliding_window s then SLIDING_WINDOW
  else if is_mamba s then MAMBA
  else if isinstance s CEncoderOnly then ENCODER_ONLY_ATTENTION
  else if isinstance s CCross then CROSS_ATTENTION
  else UNKNOWN.
Definition get_kv_cache_spec_kind (g : GroupSpec) : KVCacheSpecKind :=
  match g with
  | GLayer s => layer_spec_kind s
  | GUniform _ d =>
    match layer_spec_kind <$> od_vals d with
    | (k :: _) as ks =>
      if all_equal ks then k
      else
        let base c := match c with CFullAttention => true | _ => false end in
        if forallb (λ s, match get_uniform_type_base_spec (class_of s) with Some c => base c | None => false end) (od_vals d)
        then FULL_ATTENTION else UNKNOWN
    | [] => UNKNOWN
    end
  end.

Definition get_kv_cache_spec_sliding_window (g : GroupSpec) : option Z :=
  let window s := match kind_of s ≫= window_of with Some (w, _) => Some w | None => None end in
  match g with
  | GLayer s => window s
  | GUniform _ d => match window <$> od_vals d with (w :: _) as ws => if all_equal ws then w else None | [] => None end
  end.
End specs.
