(* ===== verification/KvSpecProps.v ===== *)
(** Facts of cache specifications: what a merge guarantees, and how memory
    needs grow with the model length; with the sample library the witnesses
    of the cache files compute with. *)
From S2P Require Import Prelude PyDict KvSpec.
From stdpp Require Import base list gmap sets strings.
From Stdlib Require Import ZArith Lia.
#[local] Open Scope string_scope.
#[local] Open Scope list_scope.
#[local] Open Scope Z_scope.

(** * A library for the witnesses *)

(** Element types are their sizes; the registry of the vLLM package sends the
    full-attention classes to the full one, the others to themselves. *)
#[export] Instance sample_lib : KvLib := {|
  DType := Z; dtype_eq_dec := _; get_dtype_size := id;
  cdiv a b := - ((- a) / b);
  round_up_to x m := - ((- x) / m) * m;
  get_uniform_type_base_spec c :=
    Some (match c with CMLAAttention | CHiddenStateCache | CRSWA | CSinkFullAttention => CFullAttention | _ => c end) |}.
#[export] Instance sample_laws : KvLaws sample_lib.
Proof. by split. Qed.

(** An attention layer of [heads] heads of [size] two-byte elements. *)
Definition sample_attention (bs heads size : Z) (k : AttentionKind) : KVCacheSpec :=
  Attention (mkAttention bs heads size 2 size NONE None None None (TInt 1)) k.
Definition sample_full (bs heads size : Z) : KVCacheSpec := sample_attention bs heads size (FullAttention (mkFull None None false)).
Definition sample_window (bs heads size w : Z) : KVCacheSpec := sample_attention bs heads size (SlidingWindow w 0).
Definition sample_vllm (len : Z) : VllmConfig :=
  mkVllm len len 1 1 false false 8 0 false 16 true None None "none" None false None None.

Section laws.
Context {L : KvLib} {LL : KvLaws L}.
Implicit Types (s m : KVCacheSpec) (v : VllmConfig).

(** * Rounding *)

Lemma cdiv_spec a b : 0 < b → b * (cdiv a b - 1) < a ≤ b * cdiv a b.
Proof. intros Hb. rewrite cdiv_ceil by done. pose proof (Z.div_mod (- a) b). pose proof (Z.mod_pos_bound (- a) b). nia. Qed.
Lemma cdiv_le a b c : 0 < b → cdiv a b ≤ c ↔ a ≤ b * c.
Proof. intros Hb. pose proof (cdiv_spec a b Hb). split; intros; nia. Qed.
Lemma cdiv_mono a a' b : 0 < b → a ≤ a' → cdiv a b ≤ cdiv a' b.
Proof. intros Hb ?. apply cdiv_le; [done|]. pose proof (cdiv_spec a' b Hb). lia. Qed.
Lemma cdiv_nonneg a b : 0 < b → 0 ≤ a → 0 ≤ cdiv a b.
Proof. intros Hb ?. pose proof (cdiv_spec a b Hb). nia. Qed.
Lemma cdiv_mul n b : 0 < b → cdiv (n * b) b = n.
Proof. intros Hb. pose proof (cdiv_spec (n * b) b Hb). nia. Qed.
Lemma round_up_to_spec x (m : Z) : 0 < m → x ≤ round_up_to x m < x + m ∧ (m | round_up_to x m).
Proof.
  intros Hm. rewrite round_up_to_ceil by done. split; [|exists (- (- x / m)); lia].
  pose proof (Z.div_mod (- x) m). pose proof (Z.mod_pos_bound (- x) m). nia.
Qed.

(** * Memory needs *)

(** [r] as a function of the model length: never an error, and monotone. *)
Definition grows (v : VllmConfig) (r : VllmConfig → res Z) : Prop :=
  ∃ f : Z → Z, (∀ n, r (with_max_model_len n v) = Ok (f n)) ∧ ∀ n n', n ≤ n' → f n ≤ f n'.

Lemma grows_const v c (r : VllmConfig → res Z) : (∀ n, r (with_max_model_len n v) = Ok c) → grows v r.
Proof. intros H. exists (λ _, c). split; [done|lia]. Qed.
Lemma grows_scale v p (f : Z → Z) (r : VllmConfig → res Z) :
  0 ≤ p → (∀ n, r (with_max_model_len n v) = Ok (f n * p)) → (∀ n n', n ≤ n' → f n ≤ f n') → grows v r.
Proof. intros Hp Hr Hf. exists (λ n, f n * p). split; [done|]. intros n n' Hn. apply Hf in Hn. nia. Qed.

Lemma memory_grows s v p :
  page_size_bytes s = Ok p → 0 ≤ p → 0 < block_size s → grows v (max_memory_usage_bytes s).
Proof.
  intros Hp Hp0 Hb.
  assert (Hw : ∀ w e, grows v (λ v, p ← page_size_bytes s; Ok (sliding_admission_blocks (block_size s) w e (max_in_flight_tokens v) (max_model_len v) * p))).
  { intros w e. eapply (grows_scale v p (λ n, sliding_admission_blocks (block_size s) w e (max_in_flight_tokens v) n));
      [done|intros n; cbn beta; rewrite Hp; reflexivity|].
    intros n n' Hn. unfold sliding_admission_blocks. pose proof (cdiv_mono (w - 1 + e + max_in_flight_tokens v `min` n)) as H.
    specialize (cdiv_mono ((w - 1 + e + max_in_flight_tokens v) `min` n) ((w - 1 + e + max_in_flight_tokens v) `min` n') _ Hb). lia. }
  assert (Hf : grows v (λ v, p ← page_size_bytes s; Ok (cdiv (if 1 <? decode_context_parallel_size v then cdiv (max_model_len v) (decode_context_parallel_size v) else max_model_len v) (block_size s) * p))).
  { eapply (grows_scale v p (λ n, cdiv (if 1 <? decode_context_parallel_size v then cdiv n (decode_context_parallel_size v) else n) (block_size s)));
      [done|intros n; cbn beta; rewrite Hp; reflexivity|].
    intros n n' Hn. apply cdiv_mono; [done|]. destruct (Z.ltb_spec 1 (decode_context_parallel_size v)); [apply cdiv_mono|]; lia. }
  destruct s as [a []|m]; try exact Hf; try apply Hw.
  - eapply (grows_scale v p (λ n, chunked_admission_blocks (a_block_size a) attention_chunk_size (max_in_flight_tokens v) n));
      [done|intros n; cbn [max_memory_usage_bytes]; by rewrite Hp|].
    intros n n' Hn. apply cdiv_mono; [done|lia].
  - by apply (grows_const v p).
  - by apply (grows_const v 0).
  - apply (grows_const v (cdiv (max_num_encoder_input_tokens v) (a_block_size a) * p)). intros n.
    cbn [max_memory_usage_bytes]. by rewrite Hp.
  - unfold grows. destruct (String.eqb (cache_mamba_mode v) "all") eqn:Ha.
    + apply (grows_scale v p (λ n, cdiv n (m_block_size m) + num_speculative_blocks m)); [done| |].
      * intros n. cbn [max_memory_usage_bytes]. rewrite Hp. cbn [mbind res_bind]. cbn [with_max_model_len cache_mamba_mode max_model_len]. by rewrite Ha.
      * intros n n' Hn. pose proof (cdiv_mono n n' _ Hb Hn). cbn [block_size] in *. lia.
    + apply (grows_const v (if String.eqb (cache_mamba_mode v) "align" then p * (2 + num_speculative_blocks m + num_prefill_checkpoint_blocks m)
                            else p * (1 + num_speculative_blocks m))).
      intros n. cbn [max_memory_usage_bytes]. rewrite Hp. cbn [mbind res_bind with_max_model_len cache_mamba_mode]. rewrite Ha.
      by case_match.
Qed.

(** Sums and maxima of needs that grow, grow. *)
Lemma grows_list {A} v (l : list A) (f : A → VllmConfig → res Z) :
  (∀ x, x ∈ l → grows v (f x)) →
  ∃ g : Z → list Z, (∀ n, map_res (λ x, f x (with_max_model_len n v)) l = Ok (g n)) ∧
    ∀ n n', n ≤ n' → Forall2 Z.le (g n) (g n').
Proof.
  induction l as [|x l IH]; intros Hl; [exists (λ _, []); by split|].
  destruct (Hl x ltac:(by left)) as (h & Hh & Hm). destruct IH as (g & Hg & Hgm); [intros y Hy; apply Hl; by right|].
  exists (λ n, h n :: g n). split.
  - intros n. cbn [map_res]. rewrite Hh. cbn [mbind res_bind]. by rewrite Hg.
  - intros n n' Hn. constructor; auto.
Qed.
Lemma zsum_mono l l' : Forall2 Z.le l l' → zsum l ≤ zsum l'.
Proof. induction 1; simpl; lia. Qed.
Lemma zmax_mono x x' l l' : Forall2 Z.le (x :: l) (x' :: l') → foldr Z.max x l ≤ foldr Z.max x' l'.
Proof. intros (Hx & Hl)%Forall2_cons. induction Hl; simpl; lia. Qed.
Lemma grows_sum {A} v (l : list A) (f : A → VllmConfig → res Z) :
  (∀ x, x ∈ l → grows v (f x)) → grows v (λ v, ns ← map_res (λ x, f x v) l; Ok (zsum ns)).
Proof.
  intros (g & Hg & Hm)%grows_list. exists (λ n, zsum (g n)). split.
  - intros n. by rewrite Hg.
  - intros n n' Hn. by apply zsum_mono, Hm.
Qed.
Lemma grows_max {A} v (l : list A) (f : A → VllmConfig → res Z) :
  l ≠ [] → (∀ x, x ∈ l → grows v (f x)) → grows v (λ v, ns ← map_res (λ x, f x v) l; zmax ns).
Proof.
  intros Hl (g & Hg & Hm)%grows_list. exists (λ n, match g n with [] => 0 | x :: l => foldr Z.max x l end).
  assert (Hne : ∀ n, g n ≠ []).
  { intros n Hn. specialize (Hg n). rewrite Hn in Hg. destruct l as [|y l]; [done|]. cbn [map_res] in Hg.
    apply res_bind_ok in Hg as (?&_&Hg). by apply res_bind_ok in Hg as (?&_&?). }
  split.
  - intros n. rewrite Hg. cbn [mbind res_bind]. specialize (Hne n). by destruct (g n).
  - intros n n' Hn. specialize (Hm n n' Hn). pose proof (Hne n). pose proof (Hne n').
    destruct (g n), (g n'); try done. by apply zmax_mono.
Qed.
Lemma pages_grow s v p : page_size_bytes s = Ok p → 0 < p → 0 < block_size s → grows v (λ v, pages_of v s).
Proof.
  intros Hp Hp0 Hb. destruct (memory_grows s v p Hp ltac:(lia) Hb) as (f & Hf & Hm).
  exists (λ n, cdiv (f n) p). split.
  - intros n. unfold pages_of. rewrite Hf, Hp. done.
  - intros n n' Hn. apply cdiv_mono; auto.
Qed.
End laws.

(** Every [x ← m; k = Ok b] below [H], and the booleans of its checks. *)
Ltac inv_checks H :=
  repeat (let E := fresh "E" in apply res_bind_ok in H as (? & E & H);
          try match type of E with check _ = Ok ?u => destruct u; apply check_ok in E end).

Section merging.
Context {L : KvLib}.
Implicit Types (s m : KVCacheSpec) (specs : list KVCacheSpec).

(** * Merging *)

(** What two layers that share the attention fields, and are both of the
    full-attention family or of the same class, have in common. *)
Definition same_accounting (s m : KVCacheSpec) : Prop :=
  is_full_attention s = is_full_attention m ∧ block_size s = block_size m ∧ page_size_bytes s = page_size_bytes m ∧
  ∀ v, max_memory_usage_bytes s v = max_memory_usage_bytes m v.

Lemma same_accounting_refl s : same_accounting s s.
Proof. by split_and!. Qed.

Lemma full_accounting a k a' k' :
  is_full_attention (Attention a k) = true → is_full_attention (Attention a' k') = true → a = a' →
  same_accounting (Attention a k) (Attention a' k').
Proof. intros Hk Hk' ->. split_and!; [congruence|done|done|]. intros v. destruct k, k'; done. Qed.

Lemma forallb_in {A} (f : A → bool) l x : forallb f l = true → x ∈ l → f x = true.
Proof. intros H Hx. apply forallb_forall with (x := x) in H; [done|]. by apply list_elem_of_In. Qed.
Lemma fields_agree_in a k specs s : fields_agree (Attention a k) specs = true → s ∈ specs → attention_of s = Some a.
Proof. intros H Hs. by apply (forallb_in _ _ _ H), bool_decide_eq_true in Hs. Qed.
Lemma all_equal_in {A} `{EqDecision A} (l : list A) x y : all_equal l = true → x ∈ l → y ∈ l → x = y.
Proof.
  destruct l as [|z l]; [set_solver|]. intros H.
  assert (Hz : ∀ u, u ∈ z :: l → u = z).
  { intros u [->|Hu]%elem_of_cons; [done|]. by apply (forallb_in _ _ _ H), bool_decide_eq_true in Hu. }
  by intros ->%Hz ->%Hz.
Qed.

(** The full-attention family of merges: the fields agree and all layers are
    of the family. *)
Lemma full_merge_accounting specs a k :
  (∀ s, s ∈ specs → is_full_attention s = true ∧ attention_of s = Some a) → is_full_attention (Attention a k) = true →
  ∀ s, s ∈ specs → same_accounting s (Attention a k).
Proof.
  intros Hs Hk s Hin. destruct (Hs s Hin) as [Hf Ha]. destruct s as [a' k'|m]; [|done].
  injection Ha as ->. by apply full_accounting.
Qed.

Lemma merge_full_ok a specs base :
  merge_full a specs = Ok base → base.1 = a ∧ (∀ s, s ∈ specs → is_full_attention s = true ∧ attention_of s = Some a).
Proof.
  unfold merge_full, merge_full_fields. intros H. apply res_bind_ok in H as (f & Hf & H). inv_checks Hf. inv_checks H.
  injection H as <-. split; [done|]. intros s Hs. split; [by eapply (forallb_in is_full_attention)|]. by eapply fields_agree_in.
Qed.

Lemma mla_is_full s : is_mla_attention s = true → is_full_attention s = true.
Proof. by destruct s as [a []|]. Qed.
Lemma post_init_full a k s : is_full_attention (Attention a k) = true → post_init (Attention a k) = Ok s →
  ∃ a', s = Attention a' k.
Proof.
  destruct k; try done; intros _; cbn [post_init]; intros [= <-]; unfold _apply_alignment_padding;
    repeat case_match; eauto.
Qed.

Lemma merge_mla_ok a (m0 : MLAFields) b0 hidden specs m :
  merge_mla a m0 b0 hidden specs = Ok m →
  ∃ a' k, m = Attention a' k ∧ is_full_attention m = true ∧ ∀ s, s ∈ specs → is_full_attention s = true ∧ attention_of s = Some a'.
Proof.
  unfold merge_mla. intros H. inv_checks H. injection H as <-.
  match goal with E : post_init _ = Ok _ |- _ => apply post_init_full in E as (a' & ->); [|by destruct hidden] end.
  eexists a', _. split; [done|]. split; [by destruct hidden|]. intros s Hs.
  split; [apply mla_is_full; by eapply (forallb_in is_mla_attention)|]. by eapply fields_agree_in.
Qed.

(** Reading back a successful merge: the class of the first specification says
    how its result accounts for every layer. *)
Lemma merge_accounting specs m s :
  KvSpec.merge specs = Ok m → is_sliding_window_mla m = false → s ∈ specs → same_accounting s m.
Proof.
  destruct specs as [|s0 rest]; [done|]. intros H Hm Hs.
  assert (Hdef : ∀ rest' : list KVCacheSpec, (check (forallb (λ s, bool_decide (s = s0)) rest');; Ok s0) = Ok m → s ∈ s0 :: rest' → same_accounting s m).
  { intros rest' H' Hin. inv_checks H'. injection H' as <-. apply elem_of_cons in Hin as [->|Hin]; [apply same_accounting_refl|].
    match goal with E : forallb _ _ = true |- _ => apply (forallb_in _ _ _ E), bool_decide_eq_true in Hin as -> end.
    apply same_accounting_refl. }
  destruct s0 as [a []|?]; cbn [KvSpec.merge] in H; try (by eapply Hdef).
  - inv_checks H. injection H as <-. destruct (merge_full_ok _ _ _ ltac:(eassumption)) as [-> Hall].
    by apply (full_merge_accounting (Attention a (FullAttention f) :: rest)).
  - apply merge_mla_ok in H as (a' & k & -> & Hk & Hall). by eapply full_merge_accounting.
  - apply merge_mla_ok in H as (a' & k & -> & Hk & Hall). by eapply full_merge_accounting.
  - unfold merge_rswa in H. inv_checks H. injection H as <-. destruct (merge_full_ok _ _ _ ltac:(eassumption)) as [-> Hall].
    by eapply full_merge_accounting.
  - unfold merge_sink in H. apply res_bind_ok in H as (f' & Hf & H). unfold merge_full_fields in Hf. inv_checks Hf. inv_checks H. injection H as <-.
    eapply full_merge_accounting; [|done|done]. intros s' Hs'. split; [by eapply (forallb_in is_full_attention)|]. by eapply fields_agree_in in Hs'.
  - exfalso. unfold merge_sliding_mla in H. inv_checks H. revert H Hm. cbn [post_init]. intros H. inv_checks H. injection H as <-. intros Hm. revert Hm. unfold _apply_alignment_padding. repeat case_match; done.
Qed.
End merging.

(** * Theorems *)

(** C37: A merged specification accounts for every layer it replaces: when a
    list of specifications merges (into anything but a sliding-window MLA
    specification), each of them has the merged one's block size, page size
    in bytes and memory need under every configuration, and is of the
    full-attention family exactly when the merged one is. *)
Theorem merge_keeps_accounting (L : KvLib) (specs : list KVCacheSpec) (m s : KVCacheSpec) :
  KvSpec.merge specs = Ok m → is_sliding_window_mla m = false → s ∈ specs →
  is_full_attention s = is_full_attention m ∧ block_size s = block_size m ∧ page_size_bytes s = page_size_bytes m ∧
  ∀ v, max_memory_usage_bytes s v = max_memory_usage_bytes m v.
Proof. apply merge_accounting. Qed.
Lemma merge_keeps_accounting_witness :
  page_size_bytes (L := sample_lib) (sample_full 16 2 4) = Ok 512 ∧
  ∃ m, KvSpec.merge [sample_full 16 2 4; sample_attention 16 2 4 (RSWA (mkFull None None true) 3)] = Ok m ∧
    page_size_bytes m = Ok 512.
Proof.
  split; [reflexivity|]. eexists. split; [reflexivity|].
  rewrite <- (proj1 (proj2 (proj2 (merge_keeps_accounting sample_lib
    [sample_full 16 2 4; sample_attention 16 2 4 (RSWA (mkFull None None true) 3)] _ (sample_full 16 2 4)
    eq_refl eq_refl ltac:(by left))))).
  reflexivity.
Defined.

(** The exception is real: [SlidingWindowMLASpec.merge] compares neither head
    sizes nor quantization modes, so two layers whose pages differ merge into
    the specification of the first, with its quantization mode reset. *)
Example sliding_mla_merge_loses_fields :
  let layer size quant := Attention (L := sample_lib)
    (mkAttention 16 1 size 2 0 quant None None None (TInt 1)) (SlidingWindowMLA 8 0 (mkMLA None None None)) in
  ∃ m, KvSpec.merge [layer 4 FP8_PER_TENSOR; layer 8 FP8_PER_TENSOR] = Ok m ∧
    page_size_bytes m = Ok 128 ∧ page_size_bytes (layer 8 FP8_PER_TENSOR) = Ok 256 ∧
    (kv_quant_mode <$> attention_of m) = Some NONE.
Proof. eexists. split_and!; reflexivity. Qed.
