(* ===== verification/KvLayout.v ===== *)
(** Placement of cache pages: shapes, strides and views of
    src/runtime/vllm029/overlay/vllm/v1/kv_cache_interface.py, and the
    configuration records the engine hands to its workers.  A tensor is its
    offset, sizes and strides into the backing allocation. *)
From S2P Require Import Prelude PyDict KvSpec.
From stdpp Require Import base list gmap sets strings.
From Stdlib Require Import ZArith Lia.
#[local] Open Scope string_scope.
#[local] Open Scope list_scope.
#[local] Open Scope Z_scope.

(** What the code reads of a [KVCacheLayout]: the physical order of the
    logical axes [L, B, H, N, C] (numbered 0 to 4), outermost first, its name
    and the derived flags. *)
Record KVCacheLayout := mkLayout {
  layout_name : string; stride_order : list nat;
  is_block_outermost : bool; is_layer_compact : bool; is_block_compact : bool }.
Definition _DIM_L : nat := 0.
Definition _DIM_B : nat := 1.

Section layout.
Context {L : KvLib}.

(** * Shapes and strides *)

(** [group_kernel_blocks], on the tensor's shape. *)
Definition group_kernel_blocks (shape : list Z) (num_blocks : Z) : res (list Z) :=
  match shape with
  | [] => Err IndexError
  | n :: rest =>
    if n =? num_blocks then Ok shape
    else if num_blocks =? 0 then Err ZeroDivisionError
    else check (n mod num_blocks =? 0);; Ok (num_blocks :: n / num_blocks :: rest)
  end.

Definition compute_layer_kv_cache_shape_bytes (spec : KVCacheSpec) (num_blocks : Z) (kernel_block_size : option Z) : res (list Z) :=
  let bs := default (block_size spec) kernel_block_size in
  if bs =? 0 then Err ZeroDivisionError else
  check (block_size spec mod bs =? 0);;
  let blocks_per_page := block_size spec / bs in
  Ok [num_blocks * blocks_per_page; num_heads spec; get_num_kernel_states spec bs; state_content_size_bytes spec].

(** [order.index(dim)] *)
Definition index_of (dim : nat) (order : list nat) : res nat :=
  res_of_option ValueError (fst <$> list_find (λ d, d = dim) order).

(** The loop of [compute_layout_strides], over the physical axes from the
    innermost out; [grid_end] is the number of axes of the page grid. *)
Fixpoint strides_loop (axes : list (nat * nat)) (padded : option Z) (grid_end : nat) (shape : list Z)
    (fixed : list (option Z)) (current : Z) (strides : list Z) : res (list Z) :=
  match axes with
  | [] => Ok strides
  | (physical_idx, dim) :: axes =>
    let at_page := bool_decide (S physical_idx = grid_end) in
    let current := match padded with Some p => if at_page then Z.max current p else current | None => current end in
    match padded with
    | Some p => if at_page then if p =? 0 then Err ZeroDivisionError else check (current mod p =? 0) else Ok tt
    | None => Ok tt
    end;;
    let stride := match default None (fixed !! dim) with Some f => if f =? 0 then current else f | None => current end in
    strides_loop axes padded grid_end shape fixed (stride * default 0 (shape !! dim)) (<[dim := stride]> strides)
  end.

Definition compute_layout_strides (spec : KVCacheSpec) (num_blocks num_layers : Z) (layout : KVCacheLayout)
    (kernel_block_size : option Z) (fixed : list (option Z)) : res (list Z) :=
  check (bool_decide (length fixed = 5%nat));;
  check (forallb (λ f, match f with Some x => 0 <? x | None => true end) fixed);;
  page ← compute_layer_kv_cache_shape_bytes spec num_blocks kernel_block_size;
  let shape := num_layers :: page in
  let order := stride_order layout in
  let padded := page_size_padded spec in
  grid_end ← match padded with
             | None => Ok 0%nat
             | Some _ =>
               check (match kernel_block_size with Some k => k =? block_size spec | None => true end);;
               l ← index_of _DIM_L order; b ← index_of _DIM_B order;
               let grid_end := S (Nat.max l b) in
               check (prod ((λ dim, default 0 (shape !! dim)) <$> take grid_end order) =? num_layers * num_blocks);;
               Ok grid_end
             end;
  strides_loop (reverse (imap pair order)) padded grid_end shape fixed 1 [0; 0; 0; 0; 0].

(** * Records *)

(** [KVCacheTensor]: layer [layers[l]]'s page for block [b] starts at
    [offset + l * layer_stride + b * block_stride]. *)
Record KVCacheTensor := mkTensorSpec {
  t_size : Z; t_layers : list string; t_layer_stride : Z; t_block_stride : Z; t_offset : Z }.

Record KVCacheGroupSpec := mkGroup {
  layer_names : list string; kv_cache_spec : GroupSpec; is_eagle_group : bool; enable_kv_transfer : bool }.
#[global] Instance group_eq_dec : EqDecision KVCacheGroupSpec.
Proof. solve_decision. Defined.
(** [KVCacheGroupSpec(layer_names, spec)] *)
Definition new_group (names : list string) (spec : GroupSpec) : KVCacheGroupSpec := mkGroup names spec false true.

Record KVCacheConfig := mkConfig {
  num_blocks : Z; kv_cache_tensors : list KVCacheTensor; kv_cache_groups : list KVCacheGroupSpec;
  c_prefix_cache_retention_interval : option Z; kv_cache_layout : option string }.

(** ** Views *)

(** [torch.as_strided] and indexing: an offset in bytes, sizes and strides,
    and the element type the view is read as. *)
Record StridedView := mkStrided {
  view_offset : Z; view_size : list Z; view_stride : list Z; view_dtype : option DType }.

Definition create_kv_cache_views (raw_offset : Z) (spec : KVCacheSpec) (num_blocks : Z) (layout : KVCacheLayout)
    (t : KVCacheTensor) (kernel_block_size : option Z) : res (list StridedView) :=
  let num_layers := Z.of_nat (length (t_layers t)) in
  shape_bytes ← compute_layer_kv_cache_shape_bytes spec num_blocks kernel_block_size;
  if num_blocks =? 0 then Err ZeroDivisionError else
  let ratio := default 0 (shape_bytes !! 0%nat) / num_blocks in
  block_stride ←
    (if 1 <? ratio then
       page ← compute_layer_kv_cache_shape_bytes spec 1 None;
       if negb (t_block_stride t =? prod (drop 1 page)) then Err ValueError
       else check (t_block_stride t mod ratio =? 0);; Ok (t_block_stride t / ratio)
     else Ok (t_block_stride t));
  strides ← compute_layout_strides spec num_blocks num_layers layout kernel_block_size
              [Some (t_layer_stride t); Some block_stride; None; None; None];
  let dtype_ := match spec with Attention a _ => Some (dtype a) | Mamba _ => None end in
  Ok ((λ layer_idx, mkStrided (raw_offset + t_offset t + Z.of_nat layer_idx * default 0 (strides !! 0%nat))
                      shape_bytes (drop 1 strides) dtype_)
      <$> seq 0 (length (t_layers t))).

(** ** Transfer groups and zeroing *)

Definition transfer_group_ids (c : KVCacheConfig) : list nat :=
  omap (λ x : nat * KVCacheGroupSpec, if enable_kv_transfer x.2 then Some x.1 else None) (imap pair (kv_cache_groups c)).
Definition transfer_groups (c : KVCacheConfig) : list KVCacheGroupSpec :=
  omap (λ i, kv_cache_groups c !! i) (transfer_group_ids c).
Definition transfer_group_index_by_layer (c : KVCacheConfig) : odict string nat :=
  fold_left (λ d x, od_set x.1 x.2 d)
    (concat (imap (λ i g, (λ name, (name, i)) <$> layer_names g) (transfer_groups c))) [].
Definition select_transfer_block_ids (c : KVCacheConfig) (block_ids : list (list Z)) : res (list (list Z)) :=
  if negb (bool_decide (length block_ids = length (kv_cache_groups c))) then Err ValueError
  else Ok (omap (λ i, block_ids !! i) (transfer_group_ids c)).

Definition has_mamba_layers (c : KVCacheConfig) : bool :=
  existsb (λ g, existsb is_mamba (iter_layer_specs (kv_cache_spec g))) (kv_cache_groups c).
Definition has_mixed_precision_kv_cache (c : KVCacheConfig) : bool :=
  let precisions := omap (λ s, (λ a, (dtype a, kv_quant_mode a)) <$> attention_of s)
                      (concat ((λ g, iter_layer_specs (kv_cache_spec g)) <$> kv_cache_groups c)) in
  negb (all_equal precisions).
Definition needs_kv_cache_zeroing (c : KVCacheConfig) : bool := has_mamba_layers c || has_mixed_precision_kv_cache c.
End layout.
