(* ===== verification/KvGroups.v ===== *)
(** Grouping the layers of a model into cache groups, of
    src/runtime/vllm029/overlay/vllm/v1/core/kv_cache_utils.py: uniform,
    page-aligned and packed groupings, page-size unification, promotion of
    local attention, and the flags of draft groups.  A specification
    dictionary is an insertion-ordered one, by layer name. *)
From S2P Require Import Prelude PyDict KvSpec KvLayout.
From stdpp Require Import base list list_numbers gmap sets strings.
From Stdlib Require Import ZArith Lia.
#[local] Open Scope string_scope.
#[local] Open Scope list_scope.
#[local] Open Scope Z_scope.

Section groups.
Context {L : KvLib}.
Abbreviation Specs := (odict string KVCacheSpec).

(** [d[k]], [l[i::n]], and [try ... except (...): ...] of expressions. *)
Definition spec_at (d : Specs) (name : string) : res KVCacheSpec := res_of_option KeyError (od_get name d).
Fixpoint every_nth {A} (skip n : nat) (l : list A) : list A :=
  match l with
  | [] => []
  | x :: l => match skip with O => x :: every_nth (pred n) n l | S k => every_nth k n l end
  end.
Definition catch_res {A} (es : list exn) (r : res A) (h : res A) : res A :=
  match r with Err e => if decide (e ∈ es) then h else r | Ok _ => r end.

(** * Uniform groupings *)

Definition create_kv_cache_group_specs (specs : Specs) (grouped : list (list string)) : res (list KVCacheGroupSpec) :=
  map_res (λ names, ls ← map_res (spec_at specs) names; m ← KvSpec.merge ls; Ok (new_group names (GLayer m))) grouped.

(** Only [AssertionError] is caught. *)
Definition is_kv_cache_spec_uniform (specs : Specs) : res bool :=
  match specs with
  | [] => Ok true
  | _ => catch_res [AssertionError] (_ ← KvSpec.merge (od_vals specs); Ok true) (Ok false)
  end.

Definition is_kv_cache_type_attention_free (specs : Specs) : bool := bool_decide (specs = []).

Definition _get_kv_cache_groups_uniform_spec (specs : Specs) : res (list KVCacheGroupSpec) :=
  create_kv_cache_group_specs specs [od_keys specs].
Definition _get_kv_cache_groups_uniform_type (bs : Z) (specs : Specs) : list KVCacheGroupSpec :=
  [new_group (od_keys specs) (GUniform bs specs)].

Definition get_uniform_page_size (gs : list GroupSpec) : res Z :=
  ps ← map_res g_page_size_bytes gs;
  match ps with p :: _ => check (all_equal ps);; Ok p | [] => Err AssertionError end.

(** ** One page size *)

(** One layer of [unify_kv_cache_spec_page_size]. *)
Definition unify_layer (max_page_size : Z) (spec : KVCacheSpec) : res KVCacheSpec :=
  layer_page_size ← page_size_bytes spec;
  if layer_page_size =? max_page_size then Ok spec
  else
    new_spec ←
      (if is_mamba spec then replace_page_size_padded spec max_page_size
       else if layer_page_size =? 0 then Err ZeroDivisionError
       else if max_page_size mod layer_page_size =? 0 then
         copy_with_new_block_size spec (block_size spec * (max_page_size / layer_page_size))
       else if is_attention spec && negb (is_mla_attention spec) then replace_page_size_padded spec max_page_size
       else Err NotImplementedError);
    p ← page_size_bytes new_spec;
    check (p =? max_page_size);; Ok new_spec.

Definition unify_kv_cache_spec_page_size (specs : Specs) : res Specs :=
  ps ← map_res page_size_bytes (od_vals specs);
  if all_equal ps then Ok specs else
  max_page_size ← zmax ps;
  map_res (λ x : string * KVCacheSpec, s ← unify_layer max_page_size x.2; Ok (x.1, s)) specs.

(** ** Groups of equal size *)

(** [same_type_layers[spec].append(name)] *)
Fixpoint add_same_type (spec : KVCacheSpec) (name : string) (d : list (KVCacheSpec * list string)) :
    list (KVCacheSpec * list string) :=
  match d with
  | [] => [(spec, [name])]
  | (s, names) :: d => if decide (s = spec) then (s, names ++ [name]) :: d else (s, names) :: add_same_type spec name d
  end.
Definition same_type_layers (specs : Specs) : list (KVCacheSpec * list string) :=
  fold_left (λ d x, add_same_type x.2 x.1 d) specs [].

(** The buckets: names, and the distinct specifications merged into each. *)
Fixpoint add_to_bucket (spec : KVCacheSpec) (names : list string) (buckets : list (list string * list KVCacheSpec)) :
    res (list (list string * list KVCacheSpec)) :=
  match buckets with
  | [] => Ok [(names, [spec])]
  | (ns, ss) :: buckets =>
    ok ← catch_res [AssertionError; ValueError] (_ ← KvSpec.merge (ss ++ [spec]); Ok true) (Ok false);
    if ok : bool then Ok ((ns ++ names, ss ++ [spec]) :: buckets)
    else rest ← add_to_bucket spec names buckets; Ok ((ns, ss) :: rest)
  end.
Fixpoint layer_buckets (d : list (KVCacheSpec * list string)) (buckets : list (list string * list KVCacheSpec)) :
    res (list (list string * list KVCacheSpec)) :=
  match d with
  | [] => Ok buckets
  | (spec, names) :: d => buckets ← add_to_bucket spec names buckets; layer_buckets d buckets
  end.

(** The size every group is padded to. *)
Definition group_size_of (counts : list Z) : res Z :=
  min_num_layers ← zmin counts;
  max_num_layers ← zmax counts;
  Ok (if 2 * max_num_layers <? 3 * min_num_layers then max_num_layers else min_num_layers).

(** [layers[i::num_groups]] for each [i]. *)
Definition split_layers (group_size : Z) (layers : list string) : list (list string) :=
  let num_groups := Z.to_nat (cdiv (Z.of_nat (length layers)) group_size) in
  (λ i, every_nth i num_groups layers) <$> seq 0 num_groups.

Definition _get_kv_cache_groups_uniform_page_size (specs : Specs) : res (list KVCacheGroupSpec) :=
  buckets ← layer_buckets (same_type_layers specs) [];
  group_size ← group_size_of ((λ b : list string * list KVCacheSpec, Z.of_nat (length b.1)) <$> buckets);
  create_kv_cache_group_specs specs (concat ((λ b, split_layers group_size b.1) <$> buckets)).

(** * Promotion of local attention *)

Definition promoted_page_size_padded (spec : KVCacheSpec) (bs : Z) : res (option Z) :=
  match page_size_padded spec with
  | None => Ok None
  | Some p =>
    if block_size spec =? 0 then Err ZeroDivisionError
    else Ok (Some (Z.max p (unpadded_page_size_bytes spec * bs / block_size spec)))
  end.

(** [replace_as(spec, target_cls, drop=("extra_retained_tokens",), ...)], for
    the three classes that are promoted. *)
Definition replace_as (spec : KVCacheSpec) (bs : Z) (padded : option Z) : res (option KVCacheSpec) :=
  match set_page_size_padded padded (set_block_size bs spec) with
  | Attention a (SlidingWindowMLA w _ m) => s ← post_init (Attention a (MLAAttention (mkFull (Some w) None false) m false)); Ok (Some s)
  | Attention a (SlidingWindow w _) => s ← post_init (Attention a (FullAttention (mkFull (Some w) None false))); Ok (Some s)
  | Attention a (ChunkedLocalAttention c) => s ← post_init (Attention a (FullAttention (mkFull None (Some c) false))); Ok (Some s)
  | _ => Ok None
  end.

Definition promote_one (full_block_size : option Z) (spec : KVCacheSpec) : res KVCacheSpec :=
  if is_sliding_window spec || is_chunked_local spec then
    let bs := match full_block_size with Some n => if n =? 0 then block_size spec else n | None => block_size spec end in
    padded ← promoted_page_size_padded spec bs;
    s ← replace_as spec bs padded;
    Ok (default spec s)
  else Ok spec.

(** [is_kv_cache_spec_uniform(d) or UniformTypeKVCacheSpecs.is_uniform_type(d)] *)
Definition is_one_type (specs : Specs) : res bool :=
  b ← is_kv_cache_spec_uniform specs;
  if b : bool then Ok true else is_uniform_type specs.

Definition _promote_local_kv_cache_specs (specs : Specs) : res Specs :=
  b ← is_one_type specs;
  if b : bool then Ok specs else
  let has_full := existsb is_full_attention (od_vals specs) in
  let has_local := existsb is_sliding_window (od_vals specs) || existsb is_chunked_local (od_vals specs) in
  let full_sizes := block_size <$> filter is_full_attention (od_vals specs) in
  let full_block_size := match full_sizes with n :: _ => if all_equal full_sizes then Some n else None | [] => None end in
  promoted ←
    (if has_full && has_local then
       map_res (λ x : string * KVCacheSpec, s ← promote_one full_block_size x.2; Ok (x.1, s)) specs
     else Ok specs);
  b ← is_one_type promoted;
  if b : bool then Ok promoted else Err ValueError.

Definition _try_get_full_allocation_fallback_groups (specs : Specs) : res (option (list KVCacheGroupSpec)) :=
  if existsb is_hidden_state (od_vals specs) then Ok None
  else if existsb (λ s, is_sliding_window_mla s || is_chunked_local s) (od_vals specs) then Ok None
  else if negb (existsb is_mla_attention (od_vals specs) && existsb is_sliding_window (od_vals specs)) then Ok None
  else
    match _promote_local_kv_cache_specs specs with
    | Err ValueError => Ok None
    | Err e => Err e
    | Ok promoted =>
      u ← from_specs promoted;
      match u with
      | Some (GUniform bs d) => Ok (Some (_get_kv_cache_groups_uniform_type bs d))
      | _ => Ok None
      end
    end.

Definition unify_hybrid_kv_cache_specs (specs : Specs) : res Specs :=
  b ← is_one_type specs;
  if b : bool then Ok specs else _promote_local_kv_cache_specs specs.

(** * Packed groupings *)

(** [(d - (x % d)) % d], summed. *)
Definition padding (values : list Z) (d : Z) : Z := zsum ((λ x, (d - x mod d) mod d) <$> values).

(** The brute-force loop of [_approximate_gcd], over [min_d .. max_d]. *)
Fixpoint gcd_loop (values : list Z) (ds : list Z) (best_d : Z) (best_pad : option Z) : Z :=
  match ds with
  | [] => best_d
  | d :: ds =>
    let pad := padding values d in
    if match best_pad with None => true | Some b => (pad <? b) || ((pad =? b) && (best_d <? d)) end
    then gcd_loop values ds d (Some pad) else gcd_loop values ds best_d best_pad
  end.
Definition _approximate_gcd (values : list Z) (lower_bound : option Z) : res Z :=
  if bool_decide (values = []) then Err ValueError
  else if existsb (λ x, x <=? 0) values then Err ValueError
  else
    let min_d := Z.max 1 (default 1 lower_bound) in
    max_d ← zmax values;
    if max_d <? min_d then Ok min_d
    else Ok (gcd_loop values (seqZ min_d (max_d + 1 - min_d)) min_d None).

(** The greedy bucketing of [_get_packed_kv_cache_groups]. *)
Fixpoint pack_into (name : string) (spec : KVCacheSpec) (buckets : list Specs) : res (list Specs) :=
  match buckets with
  | [] => Ok [[(name, spec)]]
  | b :: buckets =>
    u ← is_uniform_type (od_set name spec b);
    if u : bool then Ok (od_set name spec b :: buckets)
    else rest ← pack_into name spec buckets; Ok (b :: rest)
  end.
Fixpoint pack_buckets (specs : Specs) (buckets : list Specs) : res (list Specs) :=
  match specs with
  | [] => Ok buckets
  | (name, spec) :: specs => buckets ← pack_into name spec buckets; pack_buckets specs buckets
  end.

(** [page_size_layers[spec.page_size_bytes].append(name)] *)
Fixpoint add_page (page : Z) (name : string) (d : odict Z (list string)) : odict Z (list string) :=
  match d with
  | [] => [(page, [name])]
  | (p, names) :: d => if p =? page then (p, names ++ [name]) :: d else (p, names) :: add_page page name d
  end.
Fixpoint page_size_layers (specs : Specs) (d : odict Z (list string)) : res (odict Z (list string)) :=
  match specs with
  | [] => Ok d
  | (name, spec) :: specs => p ← page_size_bytes spec; page_size_layers specs (add_page p name d)
  end.

Record Bucket := mkBucket { bk_block_size : Z; bk_specs : Specs; bk_pages : odict Z (list string); bk_balanced : bool }.
Definition bucket_of (specs : Specs) : res Bucket :=
  u ← from_specs specs;
  match u with
  | Some (GUniform bs d) =>
    pages ← page_size_layers specs [];
    Ok (mkBucket bs d pages (match od_vals pages with [] => false | _ => all_equal (@length string <$> od_vals pages) end))
  | _ => Err AssertionError
  end.

Definition num_groups_for (repeats : option Z) (b : Bucket) : res Z :=
  match repeats with
  | Some r => if bk_balanced b then m ← get_max_layers_per_page_size (bk_specs b); Ok (cdiv m r) else Ok 1
  | None => Ok 1
  end.
Definition widest_group_bytes (pages : odict Z (list string)) (n : Z) : Z :=
  zsum ((λ x : Z * list string, cdiv (Z.of_nat (length x.2)) n * x.1) <$> pages).

(** [zip( *lists)] *)
Fixpoint zip_star (fuel : nat) (lists : list (list string)) : list (list string) :=
  match fuel with
  | O => []
  | S fuel =>
    if bool_decide (lists = []) || existsb (λ l : list string, bool_decide (l = [])) lists then []
    else omap head lists :: zip_star fuel (@tail string <$> lists)
  end.

Definition max_default0 (l : list Z) : Z := match l with [] => 0 | x :: l => foldr Z.max x l end.

(** The groups of one bucket. *)
Definition bucket_groups (repeats : option Z) (anchor_bytes : Z) (b : Bucket) : res (list KVCacheGroupSpec) :=
  n0 ← num_groups_for repeats b;
  first ← first_spec (bk_specs b);
  num_groups ←
    (if negb (anchor_bytes =? 0) && is_mamba first then
       p ← page_size_bytes first;
       if p =? 0 then Err ZeroDivisionError else
       let states_per_block := Z.max (anchor_bytes / p) 1 in
       Ok (Z.max n0 (cdiv (Z.of_nat (length (bk_specs b))) states_per_block))
     else Ok n0);
  if num_groups =? 1 then Ok [new_group (od_keys (bk_specs b)) (GUniform (bk_block_size b) (bk_specs b))] else
  let repeats_ := zip_star (length (bk_specs b)) (od_vals (bk_pages b)) in
  map_res (λ i,
    let names := concat (every_nth i (Z.to_nat num_groups) repeats_) in
    specs ← map_res (λ name, s ← spec_at (bk_specs b) name; Ok (name, s)) names;
    u ← from_specs specs;
    match u with Some g => Ok (new_group names g) | None => Err AssertionError end) (seq 0 (Z.to_nat num_groups)).

Definition _is_deepseek_v4_eagle (v : VllmConfig) : bool :=
  match speculative_config v with
  | Some c => use_eagle c && match hf_model_type v with Some t => String.eqb t "deepseek_v4" | None => false end
  | None => false
  end.

(** [_annotate_eagle_groups]: [non_causal_multi_token_decode] of some layer, or
    (the fallback) the first group that holds the last layer. *)
Definition flag_eagle (g : KVCacheGroupSpec) : KVCacheGroupSpec := mkGroup (layer_names g) (kv_cache_spec g) true (enable_kv_transfer g).
Fixpoint flag_first (name : string) (gs : list KVCacheGroupSpec) : list KVCacheGroupSpec :=
  match gs with
  | [] => []
  | g :: gs => if bool_decide (name ∈ layer_names g) then flag_eagle g :: gs else g :: flag_first name gs
  end.
Definition _annotate_eagle_groups (v : VllmConfig) (specs : Specs) (gs : list KVCacheGroupSpec) (use_deepseek_v4_fallback : bool) :
    res (list KVCacheGroupSpec) :=
  match speculative_config v with
  | Some c =>
    if use_eagle c then
      let gs := (λ g, if existsb (λ s, match mtd_of s with Some b => b | None => false end) (iter_layer_specs (kv_cache_spec g))
                      then flag_eagle g else g) <$> gs in
      if use_deepseek_v4_fallback then
        match last (od_keys specs) with None => Err StopIteration | Some name => Ok (flag_first name gs) end
      else Ok gs
    else Ok gs
  | None => Ok gs
  end.

Definition _get_packed_kv_cache_groups (v : VllmConfig) (layout : KVCacheLayout) (specs : Specs) : res (option (list KVCacheGroupSpec)) :=
  ps ← map_res page_size_bytes (od_vals specs);
  if negb (is_block_outermost layout) || all_equal ps then Ok None else
  buckets ← pack_buckets specs [];
  bucketed ← map_res bucket_of buckets;
  repeat_counts ← map_res (λ b, get_max_layers_per_page_size (bk_specs b))
                    (filter (λ b, bk_balanced b && (1 <? length (bk_pages b))%nat) bucketed);
  let min_repeats_per_group := max_default0 repeat_counts in
  repeats ←
    (if min_repeats_per_group =? 0 then Ok None else
     counts ← map_res (λ b, get_max_layers_per_page_size (bk_specs b)) (filter (λ b, bk_balanced b) bucketed);
     d ← _approximate_gcd counts (Some min_repeats_per_group); Ok (Some d));
  widths ← map_res (λ b,
             first ← first_spec (bk_specs b);
             n ← (if is_mamba first then Ok (Z.of_nat (length (bk_specs b))) else num_groups_for repeats b);
             Ok (widest_group_bytes (bk_pages b) n)) bucketed;
  let anchor_bytes := max_default0 widths in
  groups ← map_res (bucket_groups repeats anchor_bytes) bucketed;
  gs ← _annotate_eagle_groups v specs (concat groups) (_is_deepseek_v4_eagle v);
  Ok (Some gs).

(** * All groupings *)

(** [for candidate in range(min(value, limit), 0, -1)] *)
Fixpoint divisor_loop (candidate : nat) (value : Z) : Z :=
  match candidate with
  | O => 1
  | S c => if value mod Z.of_nat candidate =? 0 then Z.of_nat candidate else divisor_loop c value
  end.
Definition _largest_divisor_at_most (value limit : Z) : Z := divisor_loop (Z.to_nat (Z.min value limit)) value.

(** A hidden-state layer aligned to the common page. *)
Definition align_hidden (common_page group_block_size : Z) (x : string * KVCacheSpec) : res KVCacheGroupSpec :=
  match x.2 with
  | Attention a _ =>
    let per_token := num_kv_heads a * head_size a * get_dtype_size (dtype a) in
    if per_token =? 0 then Err ZeroDivisionError else
    let max_block_size := Z.max (common_page / per_token) 1 in
    let new_bs := _largest_divisor_at_most group_block_size max_block_size in
    if common_page =? 0 then Err ZeroDivisionError (* the wasted share, for the log *) else
    s ← post_init (set_page_size_padded (Some common_page) (set_block_size new_bs x.2));
    Ok (new_group [x.1] (GLayer s))
  | Mamba _ => Err AttributeError
  end.

Definition get_kv_cache_groups (v : VllmConfig) (layout : KVCacheLayout) (specs : Specs) : res (list KVCacheGroupSpec) :=
  specs ← (if disable_hybrid_kv_cache_manager v then unify_hybrid_kv_cache_specs specs else Ok specs);
  if is_kv_cache_type_attention_free specs then Ok [] else
  uniform ← is_kv_cache_spec_uniform specs;
  if uniform : bool then _get_kv_cache_groups_uniform_spec specs else
  u ← from_specs specs;
  match u with
  | Some (GUniform bs d) => Ok (_get_kv_cache_groups_uniform_type bs d)
  | Some (GLayer _) => Err AssertionError
  | None =>
    let hidden_specs := filter (λ x : string * KVCacheSpec, is_hidden_state x.2) specs in
    let filtered_spec := filter (λ x : string * KVCacheSpec, negb (is_hidden_state x.2)) specs in
    packed ← _get_packed_kv_cache_groups v layout filtered_spec;
    match packed with
    | Some ((_ :: _) as gs) => Ok (gs ++ ((λ x : string * KVCacheSpec, new_group [x.1] (GLayer x.2)) <$> hidden_specs))
    | _ =>
      match unify_kv_cache_spec_page_size filtered_spec with
      | Err NotImplementedError =>
        fallback ← _try_get_full_allocation_fallback_groups specs;
        match fallback with Some gs => Ok gs | None => Err NotImplementedError end
      | Err e => Err e
      | Ok unified =>
        gs ← _get_kv_cache_groups_uniform_page_size unified;
        gs ←
          (if bool_decide (hidden_specs = []) then Ok gs else
           common_page ← get_uniform_page_size (kv_cache_spec <$> gs);
           let group_block_size := foldr Z.gcd 0 ((λ g, g_block_size (kv_cache_spec g)) <$> gs) in
           hs ← map_res (align_hidden common_page group_block_size) hidden_specs;
           Ok (gs ++ hs));
        _annotate_eagle_groups v specs gs false
      end
    end
  end.
End groups.
