(* ===== verification/KvGroupsProps.v ===== *)
(** Theorems of layer grouping: the page-aligned grouping partitions the
    layers, page-size unification gives one page size, and the group width of
    the packed grouping minimises padding. *)
From S2P Require Import Prelude PyDict KvSpec KvSpecProps KvLayout KvGroups.
From stdpp Require Import base list list_numbers gmap sets strings.
From Stdlib Require Import ZArith Lia.
#[local] Open Scope string_scope.
#[local] Open Scope list_scope.
#[local] Open Scope Z_scope.

(** * Strided slices *)

Section slices.
Context {A : Type}.
Implicit Types (l : list A).

Lemma every_nth_concat n l : (0 < n)%nat → concat ((λ i, every_nth i n l) <$> seq 0 n) ≡ₚ l.
Proof.
  intros Hn. induction l as [|x l IH].
  - replace ((λ i, every_nth i n []) <$> seq 0 n) with ((λ _ : nat, [] : list A) <$> seq 0 n)
      by (apply list_fmap_ext; by intros ? [] ?).
    by induction (seq 0 n).
  - destruct n as [|n]; [lia|]. rewrite seq_S in IH. rewrite fmap_app, concat_app in IH. cbn [fmap list_fmap concat] in IH.
    rewrite app_nil_r in IH. cbn [seq fmap list_fmap concat every_nth pred]. rewrite <- fmap_S_seq, <- list_fmap_compose.
    cbn. constructor. rewrite <- IH at 2. rewrite (Permutation_app_comm (concat _)). done.
Qed.

Lemma every_nth_length i n l : (i < n)%nat →
  Z.of_nat n * Z.of_nat (length (every_nth i n l)) < Z.of_nat (length l) - Z.of_nat i + Z.of_nat n.
Proof.
  revert i. induction l as [|x l IH]; intros i Hi; [simpl; lia|].
  destruct i as [|i]; cbn [every_nth length].
  - specialize (IH (pred n) ltac:(lia)). lia.
  - specialize (IH i ltac:(lia)). lia.
Qed.
Lemma every_nth_nonempty i n l : (i < length l)%nat → every_nth i n l ≠ [].
Proof.
  revert i. induction l as [|x l IH]; intros i Hi; [simpl in Hi; lia|]. destruct i as [|i]; [done|].
  apply IH. simpl in Hi. lia.
Qed.
End slices.

(** * The packed group width *)

Section width.
Implicit Types (values ds : list Z).

(** [d] is a better width than [d']: less padding, or as much and larger. *)
Definition better (values : list Z) (d d' : Z) : Prop :=
  padding values d < padding values d' ∨ (padding values d = padding values d' ∧ d' < d).

Lemma gcd_loop_best values ds best b :
  b = padding values best →
  let r := gcd_loop values ds best (Some b) in r ∈ best :: ds ∧ ∀ d, d ∈ best :: ds → ¬ better values d r.
Proof.
  revert best b. induction ds as [|d ds IH]; intros best b ->; cbn [gcd_loop].
  - split; [by left|]. intros d ->%list_elem_of_singleton. unfold better. lia.
  - set (c := (padding values d <? padding values best) || _).
    assert (Hc : c = true ↔ better values d best).
    { unfold c, better. rewrite orb_true_iff, andb_true_iff, Z.ltb_lt, Z.eqb_eq, Z.ltb_lt. done. }
    destruct c.
    + destruct (IH d _ eq_refl) as [Hin Hbest]. split; [by right|].
      intros d' [->|Hd']%elem_of_cons; [|by apply Hbest]. pose proof (Hbest d ltac:(by left)).
      apply proj1 in Hc. specialize (Hc eq_refl). unfold better in *. lia.
    + destruct (IH best _ eq_refl) as [Hin Hbest]. split; [set_solver|].
      intros d' [->|[->|Hd']%elem_of_cons]%elem_of_cons.
      * apply Hbest. by left.
      * pose proof (Hbest best ltac:(by left)). assert (¬ better values d best) by (rewrite <- Hc; done). unfold better in *. lia.
      * apply Hbest. by right.
Qed.
End width.

(** * Buckets *)

Section buckets.
Context {L : KvLib}.
Implicit Types (spec : KVCacheSpec) (specs : odict string KVCacheSpec) (name : string) (names : list string).

Lemma add_same_type_perm spec name d : concat (add_same_type spec name d).*2 ≡ₚ name :: concat d.*2.
Proof.
  induction d as [|[s ns] d IH]; [done|]. cbn [add_same_type]. case_decide.
  - cbn [fmap list_fmap concat snd]. rewrite <- app_assoc. cbn. by rewrite <- Permutation_middle.
  - cbn [fmap list_fmap concat snd]. rewrite IH. by rewrite <- Permutation_middle.
Qed.
Lemma add_same_type_nonempty spec name d :
  Forall (λ x : KVCacheSpec * list string, x.2 ≠ []) d → Forall (λ x : KVCacheSpec * list string, x.2 ≠ []) (add_same_type spec name d).
Proof.
  induction 1 as [|[s ns] d Hx Hd IH]; cbn [add_same_type]; [by constructor|].
  case_decide; constructor; try done. by destruct ns.
Qed.

Lemma same_type_layers_spec specs :
  concat (same_type_layers specs).*2 ≡ₚ od_keys specs ∧ Forall (λ x : KVCacheSpec * list string, x.2 ≠ []) (same_type_layers specs).
Proof.
  unfold same_type_layers.
  assert (H : ∀ d : list (KVCacheSpec * list string), Forall (λ x : KVCacheSpec * list string, x.2 ≠ []) d →
    concat (fold_left (λ d x, add_same_type x.2 x.1 d) specs d).*2 ≡ₚ od_keys specs ++ concat d.*2 ∧
    Forall (λ x : KVCacheSpec * list string, x.2 ≠ []) (fold_left (λ d x, add_same_type x.2 x.1 d) specs d)).
  { induction specs as [|[n s] specs IH]; intros d Hd; [done|]. cbn [fold_left].
    destruct (IH (add_same_type s n d) (add_same_type_nonempty _ _ _ Hd)) as [H1 H2]. split; [|done].
    rewrite H1, add_same_type_perm. cbn. by rewrite <- Permutation_middle. }
  destruct (H [] ltac:(constructor)) as [H1 H2]. split; [|done]. rewrite H1. by rewrite app_nil_r.
Qed.

Lemma add_to_bucket_spec spec names (bs bs' : list (list string * list KVCacheSpec)) :
  add_to_bucket spec names bs = Ok bs' → names ≠ [] → Forall (λ b : list string * list KVCacheSpec, b.1 ≠ []) bs →
  concat bs'.*1 ≡ₚ names ++ concat bs.*1 ∧ Forall (λ b : list string * list KVCacheSpec, b.1 ≠ []) bs'.
Proof.
  revert bs'. induction bs as [|[ns ss] bs IH]; intros bs' H Hn Hbs; cbn [add_to_bucket] in H.
  - injection H as <-. split; [done|]. by constructor.
  - apply Forall_cons in Hbs as [Hb Hbs]. apply res_bind_ok in H as (b & _ & H). destruct b.
    + injection H as <-. split; [|constructor; [by destruct ns|done]].
      cbn [fmap list_fmap concat fst]. rewrite <- app_assoc. apply Permutation_app_swap_app.
    + apply res_bind_ok in H as (r & Hr & H). injection H as <-. destruct (IH _ Hr Hn Hbs) as [H1 H2].
      split; [|by constructor]. cbn [fmap list_fmap concat fst]. rewrite H1. apply Permutation_app_swap_app.
Qed.

Lemma layer_buckets_spec d (bs bs' : list (list string * list KVCacheSpec)) :
  layer_buckets d bs = Ok bs' → Forall (λ x : KVCacheSpec * list string, x.2 ≠ []) d →
  Forall (λ b : list string * list KVCacheSpec, b.1 ≠ []) bs →
  concat bs'.*1 ≡ₚ concat d.*2 ++ concat bs.*1 ∧ Forall (λ b : list string * list KVCacheSpec, b.1 ≠ []) bs'.
Proof.
  revert bs. induction d as [|[s ns] d IH]; intros bs H Hd Hbs; cbn [layer_buckets] in H; [by injection H as <-|].
  apply Forall_cons in Hd as [Hn Hd]. apply res_bind_ok in H as (b & Hb & H).
  destruct (add_to_bucket_spec _ _ _ _ Hb Hn Hbs) as [H1 H2]. destruct (IH _ H Hd H2) as [H3 H4]. split; [|done].
  rewrite H3, H1. cbn [fmap list_fmap concat snd].
  rewrite <- app_assoc. apply Permutation_app_swap_app.
Qed.

(** The common size: the smallest count, or the largest when that is less
    than half as much again. *)
Definition common_size (counts : list Z) (n : Z) : Prop :=
  ∃ lo hi, lo ∈ counts ∧ hi ∈ counts ∧ (∀ c, c ∈ counts → lo ≤ c ≤ hi) ∧
    (2 * hi < 3 * lo → n = hi) ∧ (3 * lo ≤ 2 * hi → n = lo).
Lemma group_size_of_spec counts n : group_size_of counts = Ok n → common_size counts n.
Proof.
  unfold group_size_of. intros H. apply res_bind_ok in H as (lo & Hlo & H). apply res_bind_ok in H as (hi & Hhi & H).
  injection H as <-. destruct (zmin_spec _ _ Hlo) as [? Hmin], (zmax_spec _ _ Hhi) as [? Hmax]. exists lo, hi. split_and!; [done|done|auto| |];
    destruct (Z.ltb_spec (2 * hi) (3 * lo)); (done || lia).
Qed.
Lemma common_size_in counts n : common_size counts n → n ∈ counts.
Proof. intros (lo & hi & ? & ? & _ & H1 & H2). destruct (Z.lt_ge_cases (2 * hi) (3 * lo)); [by rewrite H1|by rewrite H2]. Qed.

(** The groups as the slices they were made from. *)
Lemma groups_of_slices (gs : list KVCacheGroupSpec) (xss : list (list (list string))) :
  layer_names <$> gs = concat xss → ∃ gss, gs = concat gss ∧ Forall2 (λ xs g, layer_names <$> g = xs) xss gss.
Proof.
  revert gs. induction xss as [|xs xss IH]; intros gs H; cbn [concat] in H.
  - apply fmap_nil_inv in H as ->. by exists [].
  - apply fmap_app_inv in H as (g1 & g2 & H1 & H2 & ->). destruct (IH g2) as (gss & -> & HF); [done|].
    exists (g1 :: gss). split; [done|]. by constructor.
Qed.

Context {LL : KvLaws L}.

(** One bucket is split into slices that are neither empty nor too long. *)
Lemma split_layers_spec n names :
  0 < n → names ≠ [] →
  concat (split_layers n names) ≡ₚ names ∧ Z.of_nat (length (split_layers n names)) = cdiv (Z.of_nat (length names)) n ∧
  ∀ g, g ∈ split_layers n names → 1 ≤ Z.of_nat (length g) ≤ n.
Proof.
  intros Hn Hne. unfold split_layers. assert (Hlen : 0 < Z.of_nat (length names)) by (destruct names; [done|simpl; lia]).
  pose proof (cdiv_spec (Z.of_nat (length names)) n Hn) as Hc.
  set (k := Z.to_nat (cdiv (Z.of_nat (length names)) n)).
  assert (Hk : cdiv (Z.of_nat (length names)) n = Z.of_nat k) by (unfold k; nia). rewrite Hk in Hc.
  split; [apply every_nth_concat; nia|]. split; [by rewrite length_fmap, length_seq, Hk|]. intros g (i & -> & Hi)%list_elem_of_fmap. apply elem_of_seq in Hi.
  pose proof (every_nth_length i k names ltac:(lia)). split; [|nia].
  assert (i < length names)%nat by nia. pose proof (every_nth_nonempty i k names ltac:(done)).
  destruct (every_nth i k names); [done|simpl; lia].
Qed.
End buckets.

(** * One page size *)

Section unify.
Context {L : KvLib}.
Implicit Types (s : KVCacheSpec) (specs : odict string KVCacheSpec).

Lemma post_init_keeps s s' : post_init s = Ok s' → class_of s' = class_of s ∧ block_size s' = block_size s.
Proof.
  intros H. assert (s' = _apply_alignment_padding s) as ->.
  { destruct s as [a []|]; cbn [post_init] in H; try by injection H as <-. inv_checks H. by injection H as <-. }
  unfold _apply_alignment_padding. destruct s as [a k|m]; [|done]. repeat case_match; done.
Qed.

Lemma unify_layer_spec p s s' :
  unify_layer p s = Ok s' →
  page_size_bytes s' = Ok p ∧ class_of s' = class_of s ∧ (∃ k, block_size s' = block_size s * k) ∧ (page_size_bytes s = Ok p → s' = s).
Proof.
  unfold unify_layer. intros H. apply res_bind_ok in H as (q & Hq & H). destruct (Z.eqb_spec q p) as [->|Hne].
  { injection H as <-. split_and!; [done|done| |done]. exists 1. lia. }
  apply res_bind_ok in H as (s1 & Hs1 & H). inv_checks H. injection H as <-.
  match goal with E : (_ =? p) = true |- _ => apply Z.eqb_eq in E as -> end.
  assert (Hk : class_of s1 = class_of s ∧ ∃ k, block_size s1 = block_size s * k).
  { repeat match type of Hs1 with (if ?b then _ else _) = _ => destruct b end; try done;
      apply post_init_keeps in Hs1 as [-> ->]; (split; [by destruct s|]); [exists 1|exists (p / q)|exists 1]; by destruct s; cbn; lia. }
  destruct Hk as [? ?]. split_and!; [done|done|done|]. rewrite Hq. intros [= ->]. done.
Qed.
End unify.

(** * Theorems *)

(** C36: Page-aligned grouping partitions the layers.  Every layer is in
    exactly one group (the groups' names are a permutation of the dictionary's
    keys). The groups come bucket by bucket (a bucket is the layers whose
    specifications merge): each bucket is dealt to as few groups as the common
    group size allows, none empty and none longer than that size, which is the
    number of layers of the smallest bucket, or of the largest when that is
    less than one and a half times the smallest. A group has one merged
    specification, and unless that is of the sliding-window MLA class (whose
    merge may change the memory need) it has the page size, block size and
    memory need of each of the group's layers. *)
Theorem uniform_page_groups_partition (L : KvLib) (LL : KvLaws L) (specs : odict string KVCacheSpec) (gs : list KVCacheGroupSpec) :
  _get_kv_cache_groups_uniform_page_size specs = Ok gs →
  concat (layer_names <$> gs) ≡ₚ od_keys specs ∧
  (∃ buckets group_size gss,
    layer_buckets (same_type_layers specs) [] = Ok buckets ∧
    common_size ((λ b : list string * list KVCacheSpec, Z.of_nat (length b.1)) <$> buckets) group_size ∧
    gs = concat gss ∧
    Forall2 (λ (b : list string * list KVCacheSpec) g, concat (layer_names <$> g) ≡ₚ b.1 ∧
      Z.of_nat (length g) = cdiv (Z.of_nat (length b.1)) group_size ∧
      ∀ x, x ∈ g → 1 ≤ Z.of_nat (length (layer_names x)) ≤ group_size) buckets gss) ∧
  ∀ g, g ∈ gs → ∃ m, kv_cache_spec g = GLayer m ∧
    (is_sliding_window_mla m = false → ∀ name, name ∈ layer_names g → ∃ s, od_get name specs = Some s ∧ same_accounting s m).
Proof.
  unfold _get_kv_cache_groups_uniform_page_size. intros H.
  apply res_bind_ok in H as (bs & Hbs & H). apply res_bind_ok in H as (n & Hn & H). apply group_size_of_spec in Hn.
  destruct (same_type_layers_spec specs) as [Hperm Hne].
  destruct (layer_buckets_spec _ _ _ Hbs Hne ltac:(constructor)) as [Hperm' Hne']. rewrite app_nil_r, Hperm in Hperm'.
  assert (Hn0 : 0 < n).
  { apply common_size_in, list_elem_of_fmap in Hn as ([ns ss] & -> & Hin). rewrite Forall_forall in Hne'.
    specialize (Hne' _ Hin). cbn in *. destruct ns; [done|simpl; lia]. }
  apply map_res_inv in H.
  assert (Hl : layer_names <$> gs = concat ((λ b : list string * list KVCacheSpec, split_layers n b.1) <$> bs)).
  { induction H as [|x g l gs' Hg H IH]; [done|]. cbn [fmap list_fmap]. f_equal; [|done].
    apply res_bind_ok in Hg as (ls & _ & Hg). apply res_bind_ok in Hg as (m & _ & Hg). by injection Hg as <-. }
  destruct (groups_of_slices _ _ Hl) as (gss & -> & HF). rewrite Forall2_fmap_l in HF.
  assert (HB : Forall2 (λ (b : list string * list KVCacheSpec) g, concat (layer_names <$> g) ≡ₚ b.1 ∧
      Z.of_nat (length g) = cdiv (Z.of_nat (length b.1)) n ∧ ∀ x, x ∈ g → 1 ≤ Z.of_nat (length (layer_names x)) ≤ n) bs gss).
  { clear -HF Hne' Hn0 LL. induction HF as [|b g bs gss Hg _ IH]; [constructor|]. apply Forall_cons in Hne' as [Hb Hne'].
    constructor; [|by apply IH]. change (layer_names <$> g = split_layers n b.1) in Hg. destruct (split_layers_spec (L := L) n b.1 Hn0 Hb) as (H1 & H2 & H3). rewrite <- Hg in H1, H2, H3.
    split_and!; [done|by rewrite length_fmap in H2|]. intros x Hx. apply H3. by apply list_elem_of_fmap_2. }
  split; [|split; [by exists bs, n, gss|]].
  - rewrite <- Hperm'. clear -HB. induction HB as [|b g bs gss (Hb & _) _ IH]; [done|].
    cbn [fmap list_fmap concat]. by rewrite fmap_app, concat_app, Hb, IH.
  - clear -H LL. intros g Hg. apply list_elem_of_lookup in Hg as [i Hi]. eapply Forall2_lookup_r in H as (x & _ & Hr); [|done].
    apply res_bind_ok in Hr as (ls & Hls & Hr). apply res_bind_ok in Hr as (m & Hm & Hr). injection Hr as <-. cbn [layer_names new_group kv_cache_spec].
    exists m. split; [done|]. intros Hw name Hin. apply map_res_inv in Hls. apply list_elem_of_lookup in Hin as [j Hj].
    eapply Forall2_lookup_l in Hls as (s & Hs' & Hr); [|done]. unfold spec_at in Hr.
    destruct (od_get name specs) as [s0|] eqn:Hs0; [|done]. injection Hr as ->. exists s. split; [done|].
    eapply merge_accounting; [done|done|]. by eapply list_elem_of_lookup_2.
Qed.
(** Two full layers and four sliding-window ones: three groups of two. *)
Definition sample_hybrid : odict string KVCacheSpec :=
  [("f0", sample_full 16 2 4); ("w0", sample_window 16 2 4 8); ("w1", sample_window 16 2 4 8);
   ("f1", sample_full 16 2 4); ("w2", sample_window 16 2 4 8); ("w3", sample_window 16 2 4 8)].
Lemma uniform_page_groups_partition_witness :
  ∃ gs, _get_kv_cache_groups_uniform_page_size sample_hybrid = Ok gs ∧
    layer_names <$> gs = [["f0"; "f1"]; ["w0"; "w2"]; ["w1"; "w3"]] ∧
    concat (layer_names <$> gs) ≡ₚ od_keys sample_hybrid.
Proof.
  eexists. split; [reflexivity|]. split; [reflexivity|].
  apply (uniform_page_groups_partition sample_lib sample_laws sample_hybrid). reflexivity.
Defined.

(** Page-size unification does what it says when it succeeds: the layers
    and their order stay, every layer's page has the same size [p], which is
    the largest page of the input; a layer that already had it is unchanged,
    and any other keeps its class and has a multiple of its block size (the
    same block size when its page was padded). *)
Theorem unify_page_sizes (L : KvLib) (specs specs' : odict string KVCacheSpec) :
  unify_kv_cache_spec_page_size specs = Ok specs' → specs ≠ [] →
  ∃ p, (∃ name s, (name, s) ∈ specs ∧ page_size_bytes s = Ok p) ∧
    (∀ name s q, (name, s) ∈ specs → page_size_bytes s = Ok q → q ≤ p) ∧
    Forall2 (λ x y : string * KVCacheSpec, x.1 = y.1 ∧ page_size_bytes y.2 = Ok p ∧ class_of y.2 = class_of x.2 ∧
      (∃ k, block_size y.2 = block_size x.2 * k) ∧ (page_size_bytes x.2 = Ok p → y.2 = x.2)) specs specs'.
Proof.
  unfold unify_kv_cache_spec_page_size. intros H Hne. apply res_bind_ok in H as (ps & Hps & H). apply map_res_inv in Hps.
  assert (Hin : ∀ x : string * KVCacheSpec, x ∈ specs → ∃ q, q ∈ ps ∧ page_size_bytes x.2 = Ok q).
  { intros [n s] Hx. apply (list_elem_of_fmap_2 snd) in Hx. apply list_elem_of_lookup in Hx as [i Hi].
    eapply Forall2_lookup_l in Hps as (q & Hq & Hr); [|done]. exists q. split; [by eapply list_elem_of_lookup_2|done]. }
  assert (Hout : ∀ q, q ∈ ps → ∃ name s, (name, s) ∈ specs ∧ page_size_bytes s = Ok q).
  { intros q Hq. apply list_elem_of_lookup in Hq as [i Hi]. eapply Forall2_lookup_r in Hps as (s & Hs & Hr); [|done].
    apply list_elem_of_lookup_2, list_elem_of_fmap in Hs as ([n s'] & -> & Hs). by exists n, s'. }
  destruct (all_equal ps) eqn:Ha.
  - injection H as <-. destruct specs as [|[n0 s0] specs]; [done|]. destruct (Hin (n0, s0) ltac:(by left)) as (p & Hp & Hp').
    exists p. split_and!; [by exists n0, s0; split; [left|]| |].
    + intros n s q Hx Hq. destruct (Hin _ Hx) as (q' & Hq' & E). simpl in E. rewrite Hq in E. injection E as <-.
      by rewrite (all_equal_in _ _ _ Ha Hq' Hp).
    + apply Forall_Forall2_diag, Forall_forall. intros [n s] Hx. split_and!; [done| |done|exists 1; cbn; lia|done].
      destruct (Hin _ Hx) as (q & Hq & E). simpl in *. by rewrite E, (all_equal_in _ _ _ Ha Hq Hp).
  - apply res_bind_ok in H as (p & Hp & H). destruct (zmax_spec _ _ Hp) as [Hpin Hmax]. exists p. split_and!; [by apply Hout| |].
    + intros n s q Hx Hq. destruct (Hin _ Hx) as (q' & Hq' & E). simpl in E. rewrite Hq in E. injection E as <-. by apply Hmax.
    + apply map_res_inv in H. eapply Forall2_impl; [exact H|]. intros [n s] y Hy. apply res_bind_ok in Hy as (s' & Hs' & Hy).
      injection Hy as <-. apply unify_layer_spec in Hs' as (? & ? & ? & ?). done.
Qed.
Lemma unify_page_sizes_witness :
  unify_kv_cache_spec_page_size [("a", sample_full 16 2 4); ("b", sample_window 16 1 4 8)]
    = Ok [("a", sample_full 16 2 4); ("b", sample_window 32 1 4 8)] ∧
  ∃ p, page_size_bytes (sample_window 32 1 4 8) = Ok p ∧ page_size_bytes (sample_full 16 2 4) = Ok p.
Proof.
  split; [reflexivity|].
  destruct (unify_page_sizes sample_lib [("a", sample_full 16 2 4); ("b", sample_window 16 1 4 8)] _ eq_refl ltac:(done))
    as (p & _ & _ & H).
  exists p. inversion H as [|?? ?? Ha H1]; subst. inversion H1 as [|?? ?? Hb _]; subst. split; [apply Hb|apply Ha].
Defined.

(** The width of packed groups is the best one.  [_approximate_gcd]
    fails exactly on an empty list or one with a number below one; otherwise,
    when the lower bound (at least one) is within the largest value, its
    result lies between them, no width there pads less, and among those that
    pad as little it is the largest; when the bound is above the largest
    value, it is the bound. *)
Theorem approximate_gcd_best (values : list Z) (lower_bound : option Z) :
  let lo := Z.max 1 (default 1 lower_bound) in
  match _approximate_gcd values lower_bound with
  | Ok d =>
    values ≠ [] ∧ (∀ x, x ∈ values → 0 < x) ∧
    ∃ hi, zmax values = Ok hi ∧
      (hi < lo → d = lo) ∧
      (lo ≤ hi → lo ≤ d ≤ hi ∧
        ∀ d', lo ≤ d' ≤ hi → padding values d < padding values d' ∨ (padding values d = padding values d' ∧ d' ≤ d))
  | Err e => e = ValueError ∧ (values = [] ∨ ∃ x, x ∈ values ∧ x ≤ 0)
  end.
Proof.
  cbn zeta. unfold _approximate_gcd. destruct (bool_decide_reflect (values = [])) as [->|Hne]; [by split; [|left]|].
  destruct (existsb _ values) eqn:Hpos.
  { apply existsb_exists in Hpos as (x & Hx & Hle). apply list_elem_of_In in Hx. split; [done|right]. exists x. split; [done|lia]. }
  assert (Hall : ∀ x, x ∈ values → 0 < x).
  { intros x Hx. apply list_elem_of_In in Hx. destruct (Z.leb_spec x 0); [|lia].
    enough (existsb (λ x, x <=? 0) values = true) by congruence. apply existsb_exists. exists x. split; [done|lia]. }
  set (lo := Z.max 1 (default 1 lower_bound)). destruct (zmax values) as [hi|e] eqn:Hhi; [|by destruct values].
  cbn [mbind res_bind]. destruct (Z.ltb_spec hi lo); (split; [done|split; [done|exists hi; split; [done|]]]); [split; [done|lia]|].
  split; [lia|]. intros _.
  replace (seqZ lo (hi + 1 - lo)) with (lo :: seqZ (Z.succ lo) (Z.pred (hi + 1 - lo))) by (rewrite (seqZ_cons lo) by lia; done).
  cbn [gcd_loop]. destruct (gcd_loop_best values (seqZ (Z.succ lo) (Z.pred (hi + 1 - lo))) lo _ eq_refl) as [Hin Hbest].
  set (r := gcd_loop _ _ _ _) in *.
  assert (Hel : ∀ d, d ∈ lo :: seqZ (Z.succ lo) (Z.pred (hi + 1 - lo)) ↔ lo ≤ d ≤ hi).
  { intros d. rewrite elem_of_cons, elem_of_seqZ. lia. }
  apply Hel in Hin. split; [done|]. intros d Hd. specialize (Hbest d (proj2 (Hel d) Hd)). unfold better in Hbest. lia.
Qed.

(** Failure is not always the documented [NotImplementedError], which
    [get_kv_cache_groups] catches to try its fallback: a padded page that
    divides the largest one is scaled by its block size, keeps its padding, and
    the assertion on the result fails instead. *)
Example unify_padded_page_asserts :
  let padded := Attention (L := sample_lib) (mkAttention 16 1 3 2 3 NONE (Some 256) None None (TInt 1)) (FullAttention (mkFull None None false)) in
  page_size_bytes padded = Ok 256 ∧ page_size_bytes (sample_full 16 2 4) = Ok 512 ∧
  unify_kv_cache_spec_page_size [("a", sample_full 16 2 4); ("b", padded)] = Err AssertionError.
Proof. split_and!; reflexivity. Qed.

(** Nor does the uniformity test answer [False] for every list of layers that
    cannot be merged: two full-attention layers with different windows make
    [merge] raise [ValueError], which is not caught. *)
Example uniform_test_raises :
  let full w := sample_attention 16 2 4 (FullAttention (mkFull (Some w) None false)) in
  is_kv_cache_spec_uniform [("a", full 8); ("b", full 16)] = Err ValueError.
Proof. reflexivity. Qed.
