(* ===== verification/KvConfig.v ===== *)
(** Cache sizing of src/runtime/vllm029/overlay/vllm/v1/core/kv_cache_utils.py:
    block sizes under context parallelism, the memory checks and the search
    for the longest model length, and the configuration of every worker.  The
    [VllmConfig] whose [max_model_len] the code mutates is the state of
    [M VllmConfig]. *)
From S2P Require Import Prelude PyDict KvSpec KvLayout KvGroups.
From stdpp Require Import base list list_numbers gmap sets strings.
From Stdlib Require Import ZArith Lia.
#[local] Open Scope string_scope.
#[local] Open Scope list_scope.
#[local] Open Scope Z_scope.

Section config.
Context {L : KvLib}.
Abbreviation Specs := (odict string KVCacheSpec).

(** * Block sizes *)

Definition resolve_dcp_kv_block_size (spec : GroupSpec) (dcp_world_size : Z) : Z :=
  if is_full_attention_spec spec then g_block_size spec * dcp_world_size else g_block_size spec.

(** On one layer's specification, then on a group's. *)
Definition resolve_dcp_layer_spec (spec : KVCacheSpec) (dcp_world_size : Z) : res KVCacheSpec :=
  let bs := resolve_dcp_kv_block_size (GLayer spec) dcp_world_size in
  if bs =? block_size spec then Ok spec else copy_with_new_block_size spec bs.
Definition resolve_dcp_kv_cache_spec (spec : GroupSpec) (dcp_world_size : Z) : res GroupSpec :=
  let bs := resolve_dcp_kv_block_size spec dcp_world_size in
  if bs =? g_block_size spec then Ok spec
  else match spec with
       | GUniform _ d =>
         d ← map_res (λ x : string * KVCacheSpec, s ← resolve_dcp_layer_spec x.2 dcp_world_size; Ok (x.1, s)) d;
         Ok (GUniform bs d)
       | GLayer s => s ← copy_with_new_block_size s bs; Ok (GLayer s)
       end.

Definition dcp_world_size_for_kv_cache_spec (spec : GroupSpec) (dcp_world_size : Z) : res Z :=
  if dcp_world_size <=? 1 then Ok 1
  else inner ← match spec with GLayer s => Ok s | GUniform _ d => first_spec d end;
       Ok (if is_full_attention inner then dcp_world_size else 1).

(** [math.lcm( *sizes)] and [math.gcd( *sizes)] *)
Definition lcm_list (l : list Z) : Z := foldr Z.lcm 1 l.
Definition gcd_list (l : list Z) : Z := foldr Z.gcd 0 l.
(** [any(x % d for x in l)], which divides only when there is an [x]. *)
Definition any_indivisible (l : list Z) (d : Z) : res bool :=
  match l with
  | [] => Ok false
  | _ => if d =? 0 then Err ZeroDivisionError else Ok (existsb (λ x, negb (x mod d =? 0)) l)
  end.
(** [any(x % alignment for alignment in l)]; every [alignment] is above one. *)
Definition any_misaligned (x : Z) (l : list Z) : bool := existsb (λ a, negb (x mod a =? 0)) l.

Definition group_layer_specs (gs : list KVCacheGroupSpec) : list KVCacheSpec :=
  concat ((λ g, iter_layer_specs (kv_cache_spec g)) <$> gs).
Definition group_block_sizes (gs : list KVCacheGroupSpec) (dcp : Z) : list Z :=
  (λ g, resolve_dcp_kv_block_size (kv_cache_spec g) dcp) <$> gs.
(** The sizes of the groups that take part in prefix caching, or all of them. *)
Definition hashing_sizes (gs : list KVCacheGroupSpec) (dcp : Z) : list Z :=
  match omap (λ g, if g_prefix_cacheable (kv_cache_spec g) then Some (resolve_dcp_kv_block_size (kv_cache_spec g) dcp) else None) gs with
  | [] => group_block_sizes gs dcp
  | l => l
  end.
Definition prefix_alignments (gs : list KVCacheGroupSpec) : list Z :=
  omap (λ s, if prefix_cacheable s then match tokens_per_state s with TInt n => if 1 <? n then Some n else None | TFrac _ _ => None end
             else None) (group_layer_specs gs).
Definition mamba_mode_is (p : bool → bool) (s : KVCacheSpec) : bool :=
  match s with Mamba m => p (String.eqb (mamba_cache_mode m) "align") | _ => false end.
Definition has_partial_mamba_group (gs : list KVCacheGroupSpec) (dcp hash_block_size : Z) : bool :=
  existsb (λ g, let bs := resolve_dcp_kv_block_size (kv_cache_spec g) dcp in
                existsb (λ s, mamba_mode_is id s && (((dcp =? 1) && (hash_block_size <? bs)) || ((1 <? dcp) && (hash_block_size <=? bs))))
                  (iter_layer_specs (kv_cache_spec g))) gs.

Definition resolve_kv_cache_block_sizes (c : KVCacheConfig) (v : VllmConfig) : res (Z * Z) :=
  let dcp := decode_context_parallel_size v in
  let groups := kv_cache_groups c in
  if bool_decide (length groups ≤ 1)%nat then let bs := cache_block_size v * dcp in Ok (bs, bs) else
  let scheduler_block_size := lcm_list (group_block_sizes groups dcp) in
  if negb (enable_prefix_caching v || has_kv_transfer_config v) then Ok (scheduler_block_size, scheduler_block_size) else
  if existsb (mamba_mode_is negb) (group_layer_specs groups) then Ok (scheduler_block_size, scheduler_block_size) else
  let sizes := hashing_sizes groups dcp in
  let hash_block_size := default (gcd_list sizes) (prefix_match_unit v) in
  bad ← any_indivisible sizes hash_block_size;
  if bad : bool then Err ValueError else
  let cache_hit_alignment := if has_partial_mamba_group groups dcp hash_block_size then hash_block_size else scheduler_block_size in
  if any_misaligned cache_hit_alignment (prefix_alignments groups) then Err ValueError
  else Ok (scheduler_block_size, hash_block_size).

(** * Memory per block *)

Definition may_override_num_blocks (v : VllmConfig) (num_blocks : Z) : Z := default num_blocks (num_gpu_blocks_override v).

Definition _get_per_layer_spec (g : KVCacheGroupSpec) (name : string) : res KVCacheSpec :=
  match kv_cache_spec g with GUniform _ d => spec_at d name | GLayer s => Ok s end.
Definition layer_page_sizes (g : KVCacheGroupSpec) : res (list Z) :=
  map_res (λ name, s ← _get_per_layer_spec g name; page_size_bytes s) (layer_names g).
Definition _get_kv_cache_bytes_per_block (gs : list KVCacheGroupSpec) : res Z :=
  sums ← map_res (λ g, ps ← layer_page_sizes g; Ok (zsum ps)) gs;
  n ← zmax sums;
  check (0 <? n);; Ok n.
Definition _pool_bytes_per_block (gs : list KVCacheGroupSpec) : res Z := _get_kv_cache_bytes_per_block gs.

Definition max_memory_usage_bytes_of (v : VllmConfig) (specs : list KVCacheSpec) : res Z :=
  ns ← map_res (λ s, KvSpec.max_memory_usage_bytes s v) specs; Ok (zsum ns).
Definition group_pages (v : VllmConfig) (g : KVCacheGroupSpec) : res Z :=
  match kv_cache_spec g with GUniform _ d => max_memory_usage_pages d v | GLayer s => pages_of v s end.
Definition _max_memory_usage_bytes_from_groups (v : VllmConfig) (gs : list KVCacheGroupSpec) : res Z :=
  match gs with
  | [] => Ok 0
  | _ =>
    bytes_per_block ← _pool_bytes_per_block gs;
    ns ← map_res (group_pages v) gs;
    Ok (bytes_per_block * zsum ns)
  end.

(** * The longest model length that fits *)

Definition set_max_model_len (n : Z) : M VllmConfig unit := modify (with_max_model_len n).

(** [while left <= right] *)
Fixpoint length_search (fuel : nat) (fits : Z → M VllmConfig bool) (left right result : Z) : M VllmConfig Z :=
  if right <? left then mret result else
  match fuel with
  | O => raise OutOfFuel
  | S fuel =>
    let mid := (left + right) / 2 in
    b ← fits mid;
    if b : bool then length_search fuel fits (mid + 1) right mid else length_search fuel fits left (mid - 1) result
  end.
Definition search_fuel (right : Z) : nat := Z.to_nat right.

(** [try: ... finally: vllm_config.model_config.max_model_len = original] *)
Definition finally_restore {A} (n : Z) (m : M VllmConfig A) : M VllmConfig A :=
  λ v, let '(r, v') := m v in (r, with_max_model_len n v').

Definition fits_memory (need : VllmConfig → res Z) (available_memory model_len : Z) : M VllmConfig bool :=
  set_max_model_len model_len;;
  v ← get;
  n ← lift (need v);
  mret (n <=? available_memory).
Definition estimate_with (need : VllmConfig → res Z) (available_memory : Z) : M VllmConfig Z :=
  original_max ← gets max_model_len;
  finally_restore original_max
    (b ← fits_memory need available_memory 1;
     if b : bool then length_search (search_fuel original_max) (fits_memory need available_memory) 1 original_max 1
     else mret 0).

Definition estimate_max_model_len (specs : Specs) (available_memory : Z) : M VllmConfig Z :=
  estimate_with (λ v, max_memory_usage_bytes_of v (od_vals specs)) available_memory.
Definition _estimate_max_model_len_from_groups (gs : list KVCacheGroupSpec) (available_memory : Z) : M VllmConfig Z :=
  estimate_with (λ v, _max_memory_usage_bytes_from_groups v gs) available_memory.

(** * Admission *)

Definition _check_enough_kv_cache_memory (available_memory : Z) (get_needed_memory : M VllmConfig Z)
    (estimate : Z → M VllmConfig Z) : M VllmConfig unit :=
  raise_if (available_memory <=? 0) ValueError;;
  needed_memory ← get_needed_memory;
  if available_memory <? needed_memory then _ ← estimate available_memory; raise ValueError else mret tt.

Definition check_enough_kv_cache_memory (layout : KVCacheLayout) (specs : Specs) (available_memory : Z) : M VllmConfig unit :=
  match specs with
  | [] => mret tt
  | _ =>
    v ← get;
    groups ← lift (get_kv_cache_groups v layout specs);
    check_memory ← lift (match groups with [] => Ok available_memory | _ => p ← _pool_bytes_per_block groups; Ok (available_memory - p) end);
    _check_enough_kv_cache_memory check_memory
      (v ← get; lift (max_memory_usage_bytes_of v (od_vals specs)))
      (estimate_max_model_len specs)
  end.

(** The shortest estimate over the workers that have groups. *)
Fixpoint auto_fit_loop (workers : list (list KVCacheGroupSpec * Z)) (auto_fit_max : Z) : M VllmConfig Z :=
  match workers with
  | [] => mret auto_fit_max
  | (groups, avail_mem) :: workers =>
    match groups with
    | [] => auto_fit_loop workers auto_fit_max
    | _ =>
      worker_max ← _estimate_max_model_len_from_groups groups avail_mem;
      auto_fit_loop workers (if worker_max <? auto_fit_max then worker_max else auto_fit_max)
    end
  end.
Definition _auto_fit_max_model_len (projected : list (list KVCacheGroupSpec)) (available_memory : list Z) : M VllmConfig unit :=
  original_max ← gets max_model_len;
  if forallb (λ gs : list KVCacheGroupSpec, bool_decide (gs = [])) projected then mret tt else
  _ ← lift (match available_memory with [] => Err IndexError | m :: _ => Ok m end);
  auto_fit_max ← auto_fit_loop (zip projected available_memory) original_max;
  raise_if (auto_fit_max <=? 0) ValueError;;
  if original_max <=? auto_fit_max then mret tt else set_max_model_len auto_fit_max.

(** * Worker configurations *)

(** Several page sizes need block-compact layouts, and with several groups the
    layers inside a block. *)
Definition validate_kv_cache_layout (layout : KVCacheLayout) (gs : list KVCacheGroupSpec) : res unit :=
  pss ← map_res layer_page_sizes gs;
  if one_value (concat pss) then Ok tt
  else if negb (is_block_compact layout) || (bool_decide (1 < length gs)%nat && is_layer_compact layout) then Err ValueError
  else Ok tt.

(** [layers_by_spec] of one group. *)
Definition layers_by_spec (g : KVCacheGroupSpec) : list (KVCacheSpec * list string) :=
  match kv_cache_spec g with
  | GUniform _ d => fold_left (λ acc x, add_same_type x.2 x.1 acc) d []
  | GLayer s => match layer_names g with [] => [] | names => [(s, names)] end
  end.

(** The tensors of one group, from [byte_offset] on. *)
Fixpoint group_tensors (layout : KVCacheLayout) (stride : option Z) (size num_blocks : Z)
    (regions : list (KVCacheSpec * list string)) (byte_offset : Z) : res (list KVCacheTensor) :=
  match regions with
  | [] => Ok []
  | (spec, names) :: regions =>
    strides ← compute_layout_strides spec num_blocks (Z.of_nat (length names)) layout None [None; stride; None; None; None];
    page ← page_size_bytes spec;
    if page =? 0 then Err ZeroDivisionError else
    let layer_stride := default 0 (strides !! 0%nat) in
    let block_stride := default 0 (strides !! 1%nat) in
    let offset := byte_offset * Z.max layer_stride page / page in
    rest ← group_tensors layout stride size num_blocks regions (byte_offset + Z.of_nat (length names) * page);
    Ok (mkTensorSpec size names layer_stride block_stride offset :: rest)
  end.

Definition get_kv_cache_config_from_groups (layout : KVCacheLayout) (v : VllmConfig) (gs : list KVCacheGroupSpec) (available_memory : Z) :
    res KVCacheConfig :=
  match gs with
  | [] => Ok (mkConfig 1 [] [] (prefix_cache_retention_interval v) None)
  | _ =>
    validate_kv_cache_layout layout gs;;
    bytes_per_block ← _get_kv_cache_bytes_per_block gs;
    let stride := if is_block_outermost layout then Some bytes_per_block else None in
    let num_blocks := may_override_num_blocks v (available_memory / bytes_per_block) in
    let size := bytes_per_block * num_blocks in
    ts ← map_res (λ g, group_tensors layout stride size num_blocks (layers_by_spec g) 0) gs;
    Ok (mkConfig num_blocks (concat ts) gs (prefix_cache_retention_interval v) None)
  end.

Definition generate_scheduler_kv_cache_config (configs : list KVCacheConfig) : res KVCacheConfig :=
  match configs with
  | [] => Err IndexError
  | c :: _ =>
    check (forallb (λ c', num_blocks c' =? num_blocks c) configs);;
    gs ← map_res (λ g, match kv_cache_spec g with
                       | GUniform _ d => s ← first_spec d; Ok (mkGroup (layer_names g) (GLayer s) (is_eagle_group g) (enable_kv_transfer g))
                       | GLayer _ => Ok g
                       end) (kv_cache_groups c);
    Ok (mkConfig (num_blocks c) (kv_cache_tensors c) gs (c_prefix_cache_retention_interval c) (kv_cache_layout c))
  end.

(** One group on one worker; a group none of whose layers are the worker's
    keeps its specification. *)
Definition project_group (worker_spec : Specs) (g : KVCacheGroupSpec) : res KVCacheGroupSpec :=
  let names := filter (λ n, od_mem n worker_spec) (layer_names g) in
  spec ← match names, kv_cache_spec g with
         | _ :: _, GUniform bs d =>
           d' ← map_res (λ n, s ← spec_at d n; Ok (n, s)) names; Ok (GUniform bs d')
         | _, s => Ok s
         end;
  Ok (mkGroup names spec (is_eagle_group g && negb (bool_decide (names = []))) true).
Definition _project_kv_cache_groups_to_worker (gs : list KVCacheGroupSpec) (worker_spec : Specs) : res (list KVCacheGroupSpec) :=
  map_res (project_group worker_spec) gs.

(** ** [get_kv_cache_configs] *)

Fixpoint merge_worker_specs (l merged : Specs) : res Specs :=
  match l with
  | [] => Ok merged
  | (name, spec) :: l =>
    match od_get name merged with
    | None => merge_worker_specs l (od_set name spec merged)
    | Some s => check (bool_decide (s = spec));; merge_worker_specs l merged
    end
  end.

Definition extra_retained_tokens (v : VllmConfig) : Z :=
  match speculative_config v with
  | Some c => if use_multi_module_mtp c then num_speculative_tokens c - 1 else 0
  | None => 0
  end.
(** [replace(layer_spec, extra_retained_tokens=...)] of a sliding window. *)
Definition retain_extra (n : Z) (s : KVCacheSpec) : res KVCacheSpec :=
  match s with
  | Attention a (SlidingWindow w _) => post_init (Attention a (SlidingWindow w n))
  | Attention a (SlidingWindowMLA w _ m) => post_init (Attention a (SlidingWindowMLA w n m))
  | _ => Ok s
  end.

(** The memory of each worker under [num_gpu_blocks_override]. *)
Definition planned_memory (v : VllmConfig) (projected : list (list KVCacheGroupSpec)) (available_memory : list Z) : res (list Z) :=
  match num_gpu_blocks_override v with
  | None => Ok available_memory
  | Some n =>
    map_res (λ x : list KVCacheGroupSpec * Z,
      match x.1 with [] => Ok x.2 | gs => p ← _pool_bytes_per_block gs; Ok (n * p) end) (zip projected available_memory)
  end.
(** ... less the null block. *)
Definition usable_memory (projected : list (list KVCacheGroupSpec)) (available_memory : list Z) : res (list Z) :=
  map_res (λ x : list KVCacheGroupSpec * Z,
    match x.1 with [] => Ok x.2 | gs => p ← _pool_bytes_per_block gs; Ok (x.2 - p) end) (zip projected available_memory).

Definition worker_config (layout : KVCacheLayout) (v : VllmConfig) (x : list KVCacheGroupSpec * Specs * Z) : res KVCacheConfig :=
  check (bool_decide (sum_list_with (λ g, length (layer_names g)) x.1.1 = length x.1.2));;
  get_kv_cache_config_from_groups layout v x.1.1 x.2.

(** Re-planning a worker with more blocks than the smallest. *)
Definition shrink_config (layout : KVCacheLayout) (v : VllmConfig) (min_num_blocks : Z) (c : KVCacheConfig) : res KVCacheConfig :=
  if num_blocks c =? min_num_blocks then Ok c
  else p ← _pool_bytes_per_block (kv_cache_groups c);
       get_kv_cache_config_from_groups layout v (kv_cache_groups c) (min_num_blocks * p).

(** The check of one worker. *)
Definition check_worker (x : list KVCacheGroupSpec * Z) : M VllmConfig unit :=
  match x.1 with
  | [] => mret tt
  | gs => _check_enough_kv_cache_memory x.2 (v ← get; lift (_max_memory_usage_bytes_from_groups v gs)) (_estimate_max_model_len_from_groups gs)
  end.

Definition get_kv_cache_configs (check_registry : Specs → res unit) (layout : KVCacheLayout) (kv_cache_specs : list Specs) (available_memory : list Z) :
    M VllmConfig (list KVCacheConfig) :=
  merged ← lift (merge_worker_specs (concat kv_cache_specs) []);
  lift (check_registry merged);;
  v ← get;
  merged ← lift (map_res (λ x : string * KVCacheSpec, s ← retain_extra (extra_retained_tokens v) x.2; Ok (x.1, s)) merged);
  groups ← lift (get_kv_cache_groups v layout merged);
  projected ← lift (map_res (_project_kv_cache_groups_to_worker groups) kv_cache_specs);
  available ← lift (planned_memory v projected available_memory);
  check_memory ← lift (usable_memory projected available);
  (if original_max_model_len v =? -1 then _auto_fit_max_model_len projected check_memory else mret tt);;
  for_each (zip projected check_memory) check_worker;;
  v ← get;
  configs ← lift (map_res (worker_config layout v) (zip (zip projected kv_cache_specs) available));
  min_num_blocks ← lift (match configs with [] => Err ValueError | _ => zmin (num_blocks <$> configs) end);
  lift (map_res (shrink_config layout v min_num_blocks) configs).
End config.
