(* ===== verification/KvConfigProps.v ===== *)
(** Theorems of cache sizing: block sizes that divide one another, the search
    for the longest model length, pages that stay apart, and the agreement of
    the workers' configurations. *)
From S2P Require Import Prelude PyDict KvSpec KvSpecProps KvLayout KvGroups KvConfig.
From stdpp Require Import base list list_numbers gmap sets strings.
From Stdlib Require Import ZArith Lia.
#[local] Open Scope string_scope.
#[local] Open Scope list_scope.
#[local] Open Scope Z_scope.

(** * Divisibility *)

Lemma lcm_list_divides l x : x ∈ l → (x | lcm_list l).
Proof.
  induction l as [|y l IH]; [set_solver|]. intros [->|Hx]%elem_of_cons; cbn.
  - apply Z.divide_lcm_l.
  - etransitivity; [by apply IH|]. apply Z.divide_lcm_r.
Qed.
Lemma lcm_list_least l n : (∀ x, x ∈ l → (x | n)) → (lcm_list l | n).
Proof.
  induction l as [|y l IH]; intros H; cbn; [apply Z.divide_1_l|]. apply Z.lcm_least; [apply H; by left|].
  apply IH. intros x Hx. apply H. by right.
Qed.
Lemma gcd_list_greatest l n : (∀ x, x ∈ l → (n | x)) → (n | gcd_list l).
Proof.
  induction l as [|y l IH]; intros H; cbn; [apply Z.divide_0_r|]. apply Z.gcd_greatest; [apply H; by left|].
  apply IH. intros x Hx. apply H. by right.
Qed.
Lemma any_indivisible_spec l d : any_indivisible l d = Ok false → ∀ x, x ∈ l → (d | x).
Proof.
  intros H x Hx. assert (any_indivisible l d = if d =? 0 then Err ZeroDivisionError else Ok (existsb (λ x, negb (x mod d =? 0)) l)) as E
    by (destruct l; [set_solver|done]).
  rewrite E in H. destruct (Z.eqb_spec d 0) as [|Hd]; [done|]. apply Ok_inj in H.
  apply (existsb_false _ _ _ H), negb_false_iff, Z.eqb_eq in Hx. by apply Z.mod_divide.
Qed.
Lemma any_misaligned_spec x l : any_misaligned x l = false → ∀ a, a ∈ l → 1 < a → (a | x).
Proof.
  intros H a Ha Hlt. apply (existsb_false _ _ _ H), negb_false_iff, Z.eqb_eq in Ha. apply Z.mod_divide; [lia|done].
Qed.

Section sizes.
Context {L : KvLib}.

Lemma hashing_sizes_sub gs dcp b : b ∈ hashing_sizes gs dcp → b ∈ group_block_sizes gs dcp.
Proof.
  unfold hashing_sizes. destruct (omap _ gs) as [|x l] eqn:E; [done|]. rewrite <- E. intros (g & Hg & Hb)%list_elem_of_omap.
  case_match; [|done]. injection Hb as <-. unfold group_block_sizes. apply list_elem_of_fmap. eauto.
Qed.
Lemma hashing_sizes_cacheable gs dcp g :
  g ∈ gs → g_prefix_cacheable (kv_cache_spec g) = true → resolve_dcp_kv_block_size (kv_cache_spec g) dcp ∈ hashing_sizes gs dcp.
Proof.
  intros Hg Hc. unfold hashing_sizes.
  assert (H : resolve_dcp_kv_block_size (kv_cache_spec g) dcp ∈
    omap (λ g, if g_prefix_cacheable (kv_cache_spec g) then Some (resolve_dcp_kv_block_size (kv_cache_spec g) dcp) else None) gs).
  { apply list_elem_of_omap. exists g. by rewrite Hc. }
  destruct (omap _ gs); [set_solver|done].
Qed.
Lemma hashing_sizes_nonempty gs dcp : gs ≠ [] → hashing_sizes gs dcp ≠ [].
Proof. unfold hashing_sizes. destruct (omap _ gs) eqn:E; [|done]. by destruct gs. Qed.
Lemma prefix_alignments_gt gs a : a ∈ prefix_alignments gs → 1 < a.
Proof. unfold prefix_alignments. intros (s & _ & H)%list_elem_of_omap. repeat case_match; try done. injection H as <-. by apply Z.ltb_lt. Qed.
End sizes.

(** * The search *)

Section search.
Context (need : VllmConfig → res Z) (f : Z → Z) (v : VllmConfig) (avail : Z).
Hypothesis need_f : ∀ n, need (with_max_model_len n v) = Ok (f n).
Hypothesis mono : ∀ n n', n ≤ n' → f n ≤ f n'.

Lemma fits_memory_run k n :
  fits_memory need avail n (with_max_model_len k v) = (Ok (f n <=? avail), with_max_model_len n v).
Proof.
  unfold fits_memory, set_max_model_len. autorewrite with monad. change (with_max_model_len n (with_max_model_len k v)) with (with_max_model_len n v).
  by rewrite need_f.
Qed.

Lemma length_search_run fuel left right result k top :
  right - left < Z.of_nat fuel → 1 ≤ left → left - 1 ≤ right ≤ top → (left = 1 → 1 ≤ right) →
  ((2 ≤ left ∧ result = left - 1) ∨ (left = 1 ∧ result = 1)) → f result ≤ avail → (∀ n, right < n ≤ top → avail < f n) →
  ∃ r k', length_search fuel (fits_memory need avail) left right result (with_max_model_len k v) = (Ok r, with_max_model_len k' v) ∧
    1 ≤ r ≤ top ∧ f r ≤ avail ∧ ∀ n, r < n ≤ top → avail < f n.
Proof.
  revert left right result k. induction fuel as [|fuel IH]; intros left right result k Hfuel Hl Hlr H1 Hres Hfit Hover;
    cbn [length_search]; destruct (Z.ltb_spec right left) as [Hend|Hgo]; try lia.
  1, 2: exists result, k; split; [done|]; split; [lia|]; split; [done|]; intros n Hn; apply Hover; lia.
  assert (Hmid : left ≤ (left + right) / 2 ≤ right) by (split; [apply Z.div_le_lower_bound|apply Z.div_le_upper_bound]; lia).
  rewrite (M_bind_run _ _ _ _ _ (fits_memory_run k _)). destruct (Z.leb_spec (f ((left + right) / 2)) avail) as [Hf|Hf].
  - apply IH; try lia; done.
  - apply IH; try lia; try done.
    + intros ->. destruct (Z.eq_dec ((1 + right) / 2) 1) as [E|]; [|lia]. rewrite E in Hf.
      destruct Hres as [[? _]|[_ ->]]; lia.
    + intros n Hn. destruct (Z.le_gt_cases ((left + right) / 2) n) as [Hle|]; [|lia]. apply mono in Hle. lia.
Qed.
End search.

Lemma with_max_model_len_same v : with_max_model_len (max_model_len v) v = v.
Proof. by destruct v. Qed.

(** The estimate is the longest length that fits, and leaves the configuration
    as it was. *)
Lemma estimate_with_run (need : VllmConfig → res Z) (f : Z → Z) v avail :
  (∀ n, need (with_max_model_len n v) = Ok (f n)) → (∀ n n', n ≤ n' → f n ≤ f n') → 1 ≤ max_model_len v →
  ∃ r, estimate_with need avail v = (Ok r, v) ∧ 0 ≤ r ≤ max_model_len v ∧
    ∀ n, 1 ≤ n ≤ max_model_len v → (f n ≤ avail ↔ n ≤ r).
Proof.
  intros Hf Hm Hlen. unfold estimate_with. autorewrite with monad. unfold finally_restore.
  pose proof (fits_memory_run need f v avail Hf (max_model_len v) 1) as H0. rewrite with_max_model_len_same in H0.
  rewrite (M_bind_run _ _ _ _ _ H0). clear H0.
  destruct (Z.leb_spec (f 1) avail) as [H1|H1].
  - destruct (length_search_run need f v avail Hf Hm (search_fuel (max_model_len v)) 1 (max_model_len v) 1 1 (max_model_len v))
      as (r & k' & -> & Hr & Hfit & Hover); try lia; [unfold search_fuel; lia|].
    exists r. split_and!; [exact (f_equal (pair (Ok r)) (with_max_model_len_same v))|lia|lia|]. intros n Hn. split.
    + intros Hle. destruct (Z.le_gt_cases n r); [done|]. specialize (Hover n ltac:(lia)). lia.
    + intros Hle. apply Hm in Hle. lia.
  - exists 0. split_and!; [exact (f_equal (pair (Ok 0)) (with_max_model_len_same v))|lia|lia|]. intros n Hn. split; [|lia].
    intros Hle. specialize (Hm 1 n ltac:(lia)). lia.
Qed.

(** * Needs of groups *)

Section needs.
Context {L : KvLib} {LL : KvLaws L}.

(** A specification with pages and blocks, and a group of such. *)
Definition spec_ok (s : KVCacheSpec) : Prop := 0 < block_size s ∧ ∃ p, page_size_bytes s = Ok p ∧ 0 < p.
Definition group_ok (g : KVCacheGroupSpec) : Prop :=
  iter_layer_specs (kv_cache_spec g) ≠ [] ∧ ∀ s, s ∈ iter_layer_specs (kv_cache_spec g) → spec_ok s.

Lemma group_pages_grow v g : group_ok g → grows v (λ v, group_pages v g).
Proof.
  intros [Hne Hs]. unfold group_pages. destruct (kv_cache_spec g) as [s|bs d]; cbn in *.
  - destruct (Hs s ltac:(by left)) as (Hb & p & Hp & Hp0). by eapply pages_grow.
  - apply grows_max; [done|]. intros s Hin. destruct (Hs s Hin) as (Hb & p & Hp & Hp0). by eapply pages_grow.
Qed.

Lemma groups_need_grows v gs c :
  _pool_bytes_per_block gs = Ok c → (∀ g, g ∈ gs → group_ok g) → grows v (λ v, _max_memory_usage_bytes_from_groups v gs).
Proof.
  intros Hc Hg. destruct gs as [|g gs]; [by apply (grows_const v 0)|].
  destruct (grows_sum v (g :: gs) (λ g v, group_pages v g)) as (f & Hf & Hm); [intros x Hx; by apply group_pages_grow, Hg|].
  assert (0 < c).
  { unfold _pool_bytes_per_block, _get_kv_cache_bytes_per_block in Hc. inv_checks Hc. injection Hc as <-. by apply Z.ltb_lt. }
  exists (λ n, c * f n). split.
  - intros n. unfold _max_memory_usage_bytes_from_groups. rewrite Hc. cbn [mbind res_bind]. specialize (Hf n).
    apply res_bind_ok in Hf as (ns & Hns & Hf). injection Hf as <-.
    by rewrite (Hns : map_res (group_pages (with_max_model_len n v)) (g :: gs) = Ok ns).
  - intros n n' Hn. apply Hm in Hn. nia.
Qed.
End needs.

(** * Theorems *)

(** C24: The binary search finds the longest model length that fits.  For
    groups of layers with positive block and page sizes, whatever the memory,
    [_estimate_max_model_len_from_groups] ends without an error, leaves the
    configuration exactly as it found it although it changes it on the way,
    and returns an [r] between 0 and the configured maximum such that, among
    the lengths up to that maximum, exactly those up to [r] need no more than
    the memory. *)
Theorem model_length_search_exact (L : KvLib) (LL : KvLaws L) (gs : list KVCacheGroupSpec) (c avail : Z) (v : VllmConfig) :
  _pool_bytes_per_block gs = Ok c → (∀ g, g ∈ gs → group_ok g) → 1 ≤ max_model_len v →
  ∃ r, _estimate_max_model_len_from_groups gs avail v = (Ok r, v) ∧ 0 ≤ r ≤ max_model_len v ∧
    ∀ n, 1 ≤ n ≤ max_model_len v →
      ∃ m, _max_memory_usage_bytes_from_groups (with_max_model_len n v) gs = Ok m ∧ (m ≤ avail ↔ n ≤ r).
Proof.
  intros Hc Hg Hlen. destruct (groups_need_grows v gs c Hc Hg) as (f & Hf & Hm).
  destruct (estimate_with_run (λ v, _max_memory_usage_bytes_from_groups v gs) f v avail Hf Hm Hlen) as (r & Hr & Hr0 & Hall).
  exists r. split_and!; [done|lia|lia|]. intros n Hn. exists (f n). split; [apply Hf|by apply Hall].
Qed.
Lemma model_length_search_exact_witness :
  let gs := [new_group ["a"] (GLayer (sample_full 16 2 4)); new_group ["b"] (GLayer (sample_window 16 2 4 8))] in
  _pool_bytes_per_block gs = Ok 512 ∧
  ∃ r, _estimate_max_model_len_from_groups gs 2600 (sample_vllm 100) = (Ok r, sample_vllm 100) ∧ r = 48.
Proof.
  intros gs. split; [reflexivity|].
  destruct (model_length_search_exact sample_lib sample_laws gs 512 2600 (sample_vllm 100)) as (r & Hr & _ & _);
    [reflexivity| |by vm_compute|].
  - intros g Hg. split; [|intros s Hs].
    + apply elem_of_cons in Hg as [->|Hg]; [done|]. by apply list_elem_of_singleton in Hg as ->.
    + assert (s = sample_full 16 2 4 ∨ s = sample_window 16 2 4 8) as [->| ->].
      { apply elem_of_cons in Hg as [->|Hg]; [left|right; apply list_elem_of_singleton in Hg as ->]; by apply list_elem_of_singleton in Hs. }
      * split; [done|]. by exists 512.
      * split; [done|]. by exists 512.
  - exists r. split; [done|]. revert Hr. vm_compute. by intros [= <-].
Defined.

(** The scheduler's block size and the hash granularity fit every group.
    Up to one group both are the configured size times the context-parallel
    degree.  With more, the scheduler's size is the least common multiple of
    the groups' sizes under context parallelism, and either hashing is not
    finer than it, or the granularity divides the scheduler's size and the
    size of every group that takes part in prefix caching, is a multiple of
    every number that divides all those sizes when it was not requested, and
    prefix boundaries fall on whole compressed states: each compression ratio
    divides the scheduler's size, and the granularity itself when a Mamba
    group can be cached part of a block. *)
Theorem kv_block_sizes_fit (L : KvLib) (c : KVCacheConfig) (v : VllmConfig) (s h : Z) :
  resolve_kv_cache_block_sizes c v = Ok (s, h) →
  let gs := kv_cache_groups c in
  let dcp := decode_context_parallel_size v in
  let size g := resolve_dcp_kv_block_size (kv_cache_spec g) dcp in
  ((length gs ≤ 1)%nat → s = cache_block_size v * dcp ∧ h = s) ∧
  ((1 < length gs)%nat →
    (∀ g, g ∈ gs → (size g | s)) ∧ (∀ n, (∀ g, g ∈ gs → (size g | n)) → (s | n)) ∧
    (h = s ∨
     (h | s) ∧ (∀ g, g ∈ gs → g_prefix_cacheable (kv_cache_spec g) = true → (h | size g)) ∧
     (prefix_match_unit v = None → ∀ n, (∀ b, b ∈ hashing_sizes gs dcp → (n | b)) → (n | h)) ∧
     ∀ a, a ∈ prefix_alignments gs → (a | s) ∧ (has_partial_mamba_group gs dcp h = true → (a | h)))).
Proof.
  intros H gs dcp size. unfold resolve_kv_cache_block_sizes in H. fold gs dcp in H.
  destruct (bool_decide_reflect (length gs ≤ 1)%nat) as [Hle|Hgt].
  { injection H as <- <-. split; [done|lia]. }
  split; [lia|]. intros _.
  assert (Hlcm : (∀ g, g ∈ gs → (size g | lcm_list (group_block_sizes gs dcp))) ∧
                 ∀ n, (∀ g, g ∈ gs → (size g | n)) → (lcm_list (group_block_sizes gs dcp) | n)).
  { split.
    - intros g Hg. apply lcm_list_divides. apply list_elem_of_fmap. by exists g.
    - intros n Hn. apply lcm_list_least. intros x (g & -> & Hg)%list_elem_of_fmap. by apply Hn. }
  destruct (negb _); [injection H as <- <-; naive_solver|].
  destruct (existsb _ _); [injection H as <- <-; naive_solver|].
  set (sizes := hashing_sizes gs dcp) in *. set (u := default (gcd_list sizes) (prefix_match_unit v)) in *.
  apply res_bind_ok in H as (bad & Hbad & H). destruct bad; [done|]. pose proof (any_indivisible_spec _ _ Hbad) as Hdiv.
  destruct (any_misaligned _ _) eqn:Hal; [done|]. injection H as <- <-. pose proof (any_misaligned_spec _ _ Hal) as Halign.
  split; [apply Hlcm|]. split; [apply Hlcm|]. right.
  assert (Hus : (u | lcm_list (group_block_sizes gs dcp))).
  { destruct sizes as [|b l] eqn:E; [exfalso; eapply hashing_sizes_nonempty; [|exact E]; intros Hnil; rewrite Hnil in Hgt; simpl in Hgt; lia|].
    etransitivity; [apply (Hdiv b); by left|]. apply lcm_list_divides, hashing_sizes_sub. fold sizes. rewrite E. by left. }
  split_and!; [done| | |].
  - intros g Hg Hc. apply Hdiv. by apply hashing_sizes_cacheable.
  - intros Hnone n Hn. unfold u. rewrite Hnone. by apply gcd_list_greatest.
  - intros a Ha. specialize (Halign a Ha (prefix_alignments_gt _ _ Ha)). destruct (has_partial_mamba_group _ _ _).
    + split; [by etransitivity|done].
    + by split.
Qed.
Lemma kv_block_sizes_fit_witness :
  let c := mkConfig 10 [] [new_group ["a"] (GLayer (sample_full 16 2 4)); new_group ["b"] (GLayer (sample_window 24 2 4 8))] None None in
  resolve_kv_cache_block_sizes c (sample_vllm 100) = Ok (48, 8) ∧ (24 | 48).
Proof.
  intros c. split; [reflexivity|].
  destruct (kv_block_sizes_fit sample_lib c (sample_vllm 100) 48 8 eq_refl) as [_ H].
  apply (H ltac:(simpl; lia)) with (g := new_group ["b"] (GLayer (sample_window 24 2 4 8))). by right; left.
Defined.
