(* ===== verification/KvPlacement.v ===== *)
(** Placement of cache pages: what [get_kv_cache_config_from_groups] of
    src/runtime/vllm029/overlay/vllm/v1/core/kv_cache_utils.py computes for
    the layouts that keep a page in one piece, and why pages stay apart. *)
From S2P Require Import Prelude PyDict KvSpec KvSpecProps KvLayout KvGroups KvGroupsProps KvConfig KvConfigProps.
From stdpp Require Import base list list_numbers gmap sets strings.
From Stdlib Require Import ZArith Lia.
#[local] Open Scope string_scope.
#[local] Open Scope list_scope.
#[local] Open Scope Z_scope.

(** * Layouts whose pages are in one piece *)

(** The inner axes H, N and C in any order. *)
Definition page_tails : list (list nat) :=
  [[2; 3; 4]; [2; 4; 3]; [3; 2; 4]; [3; 4; 2]; [4; 2; 3]; [4; 3; 2]]%nat.
Definition blocks_outside (l : KVCacheLayout) : Prop :=
  ∃ tail, tail ∈ page_tails ∧ stride_order l = (1 :: 0 :: tail)%nat ∧ is_block_outermost l = true.
Definition layers_outside (l : KVCacheLayout) : Prop :=
  ∃ tail, tail ∈ page_tails ∧ stride_order l = (0 :: 1 :: tail)%nat ∧ is_block_outermost l = false ∧ is_layer_compact l = true.

Section placement.
Context {L : KvLib}.
Implicit Types (s : KVCacheSpec) (g : KVCacheGroupSpec).

(** A specification with a page, which is what its shape says. *)
Definition spec_paged (s : KVCacheSpec) : Prop :=
  (∃ p, page_size_bytes s = Ok p ∧ 0 < p) ∧ match s with Mamba m => mamba_bytes m = unpadded_page_size_bytes s | _ => True end.

Lemma page_of_shape s p : spec_paged s → page_size_bytes s = Ok p →
  match page_size_padded s with Some q => p = q ∧ unpadded_page_size_bytes s ≤ q | None => p = unpadded_page_size_bytes s end ∧ 0 < p.
Proof.
  intros [(p' & Hp' & Hpos) Hm] Hp. rewrite Hp in Hp'. injection Hp' as <-. split; [|done]. unfold page_size_bytes in Hp.
  assert (H : match s with Attention _ _ => unpadded_page_size_bytes s | Mamba m => mamba_bytes m end = unpadded_page_size_bytes s) by by destruct s.
  rewrite H in Hp. destruct (page_size_padded s); [|by injection Hp as <-]. inv_checks Hp. injection Hp as <-. split; [done|].
  by apply Z.leb_le.
Qed.

Lemma shape_bytes_eq s nb shape : compute_layer_kv_cache_shape_bytes s nb None = Ok shape →
  shape = [nb; num_heads s; num_states s; state_content_size_bytes s].
Proof.
  unfold compute_layer_kv_cache_shape_bytes, num_states. cbn. destruct (Z.eqb_spec (block_size s) 0); [done|]. intros H. inv_checks H.
  injection H as <-. rewrite Z.div_same by done. by rewrite Z.mul_1_r.
Qed.

Ltac split_tail H := repeat (apply elem_of_cons in H as [->|H]); [..|by apply elem_of_nil in H].
(** Run the stride loop in [H] on a given axis order. *)
Ltac run_strides H :=
  repeat match goal with E : index_of _ _ = Ok _ |- _ => vm_compute in E; apply Ok_inj in E as <- end;
  cbn in H;
  repeat (match type of H with
          | context [@bool_decide ?P ?D] =>
            let b := eval vm_compute in (@bool_decide P D) in change (@bool_decide P D) with b in H
          end; cbn in H).

(** The strides, outermost axis [o] (L or B) and [i] (the other one), of a
    specification with page [p]: the inner one is the page, the outer one a
    row of pages, unless it is given. *)
Lemma page_strides s p nb nl layout (o i : nat) tail fixed strides :
  (o = 0 ∧ i = 1 ∨ o = 1 ∧ i = 0)%nat → tail ∈ page_tails → stride_order layout = o :: i :: tail →
  spec_paged s → page_size_bytes s = Ok p →
  compute_layout_strides s nb nl layout None
    (if bool_decide (o = 1)%nat then [None; fixed; None; None; None] else [fixed; None; None; None; None]) = Ok strides →
  strides !! i = Some p ∧
  strides !! o = Some (match fixed with Some x => x | None => p * (if bool_decide (o = 1)%nat then nl else nb) end).
Proof.
  intros Hoi Ht Ho Hs Hp H. destruct (page_of_shape s p Hs Hp) as [Hpage Hpos].
  unfold compute_layout_strides in H. inv_checks H. rewrite Ho in *.
  match goal with E : compute_layer_kv_cache_shape_bytes _ _ _ = _ |- _ => apply shape_bytes_eq in E as -> end.
  unfold unpadded_page_size_bytes in Hpage.
  assert (Hfix : match fixed with Some x => (x =? 0) = false | None => True end).
  { destruct fixed as [x|]; [|done]. match goal with E : forallb _ _ = true |- _ => apply (forallb_in _ _ (Some x)) in E as Hx end.
    - apply Z.ltb_lt in Hx. apply Z.eqb_neq. lia.
    - destruct Hoi as [[-> ->]|[-> ->]]; cbn; set_solver. }
  destruct (page_size_padded s) as [q|] eqn:Eq;
    [apply res_bind_ok in E2 as (? & _ & E2); inv_checks E2; apply Ok_inj in E2 as <-; destruct Hpage as [-> Hq];
     assert (Hq0 : (q =? 0) = false) by (apply Z.eqb_neq; lia)
    |apply Ok_inj in E2 as <-]; destruct Hoi as [[-> ->]|[-> ->]]; split_tail Ht; run_strides H.
  all: rewrite ?Hq0 in H; inv_checks H; apply Ok_inj in H as <-; cbn; destruct fixed as [xf|]; rewrite ?Hfix; 
     split; f_equal; rewrite_decide; rewrite ?Z.max_r by lia; lia.
Qed.

(** * Regions *)

(** Page [b] of layer [l] of a tensor. *)
Definition page_at (t : KVCacheTensor) (l : nat) (b : Z) : Z := t_offset t + Z.of_nat l * t_layer_stride t + b * t_block_stride t.

(** The size of a page, for specifications that have one. *)
Definition page_or0 (s : KVCacheSpec) : Z := match page_size_bytes s with Ok p => p | Err _ => 0 end.

(** In a row of regions that starts [off] bytes into a block, the page of
    layer [name] starts at [pre] and has [p] bytes. *)
Fixpoint place_in (R : list (KVCacheSpec * list string)) (off : Z) (name : string) (pre p : Z) : Prop :=
  match R with
  | [] => False
  | (s, names) :: R =>
    (∃ l : nat, names !! l = Some name ∧ p = page_or0 s ∧ pre = off + Z.of_nat l * p) ∨
    place_in R (off + Z.of_nat (length names) * page_or0 s) name pre p
  end.
Definition region_bytes (R : list (KVCacheSpec * list string)) : Z :=
  zsum ((λ r, Z.of_nat (length r.2) * page_or0 r.1) <$> R).

Definition paged_regions (R : list (KVCacheSpec * list string)) : Prop := ∀ r, r ∈ R → spec_paged r.1.

Lemma paged_page s : spec_paged s → page_size_bytes s = Ok (page_or0 s) ∧ 0 < page_or0 s.
Proof. intros [(p & Hp & Hpos) _]. unfold page_or0. by rewrite Hp. Qed.

Lemma place_in_bounds R off name pre p :
  paged_regions R → place_in R off name pre p → off ≤ pre ∧ pre + p ≤ off + region_bytes R ∧ 0 < p.
Proof.
  revert off. induction R as [|[s names] R IH]; intros off HR H; [done|].
  destruct (paged_page s) as [_ Hs]; [by apply (HR (s, names)); left|].
  assert (HR' : paged_regions R) by (intros r Hr; apply HR; by right).
  unfold region_bytes. cbn [fmap list_fmap zsum foldr fst snd]. fold zsum. change (foldr Z.add 0 ?l) with (zsum l).
  assert (0 ≤ region_bytes R).
  { apply zsum_nonneg. intros x ([s' ns] & -> & Hr)%list_elem_of_fmap. destruct (paged_page s'); [by apply (HR' (s', ns))|]. cbn. lia. }
  unfold region_bytes in *. destruct H as [(l & Hl & -> & ->)|H].
  - apply lookup_lt_Some in Hl. nia.
  - apply IH in H; [|done]. unfold region_bytes in H. nia.
Qed.

(** Two places are one, or apart. *)
Lemma place_in_apart R off n1 pre1 p1 n2 pre2 p2 :
  paged_regions R → place_in R off n1 pre1 p1 → place_in R off n2 pre2 p2 →
  (n1 = n2 ∧ pre1 = pre2 ∧ p1 = p2) ∨ pre1 + p1 ≤ pre2 ∨ pre2 + p2 ≤ pre1.
Proof.
  revert off. induction R as [|[s names] R IH]; intros off HR H1 H2; [done|].
  assert (HR' : paged_regions R) by (intros r Hr; apply HR; by right).
  destruct (paged_page s) as [_ Hs]; [by apply (HR (s, names)); left|].
  destruct H1 as [(l1 & Hl1 & -> & ->)|H1], H2 as [(l2 & Hl2 & -> & ->)|H2].
  - destruct (decide (l1 = l2)) as [->|]; [left|right; nia]. rewrite Hl1 in Hl2. by injection Hl2 as ->.
  - right. left. apply place_in_bounds in H2; [|done]. apply lookup_lt_Some in Hl1. nia.
  - right. right. apply place_in_bounds in H1; [|done]. apply lookup_lt_Some in Hl2. nia.
  - by eapply IH.
Qed.

(** With one page size, places are whole pages from the start. *)
Lemma place_in_multiple R name pre p :
  (∀ r, r ∈ R → r.2 ≠ [] → page_or0 r.1 = p) → ∀ off, (p | off) → place_in R off name pre p → (p | pre).
Proof.
  intros Hp. induction R as [|[s names] R IH]; intros off Hoff H; [done|].
  assert (HR : ∀ r, r ∈ R → r.2 ≠ [] → page_or0 r.1 = p) by (intros r Hr; apply Hp; by right).
  assert (Hlen : (p | Z.of_nat (length names) * page_or0 s)).
  { destruct (decide (names = [])) as [->|Hne]; [apply Z.divide_0_r|].
    rewrite (Hp (s, names) ltac:(by left) Hne : page_or0 s = p). apply Z.divide_mul_r, Z.divide_refl. }
  destruct H as [(l & _ & _ & ->)|H].
  - apply Z.divide_add_r; [done|]. apply Z.divide_mul_r, Z.divide_refl.
  - eapply (IH HR); [|exact H]. by apply Z.divide_add_r.
Qed.

Lemma place_in_spec R off name pre p : place_in R off name pre p → ∃ s names, (s, names) ∈ R ∧ name ∈ names ∧ p = page_or0 s.
Proof.
  revert off. induction R as [|[s names] R IH]; intros off H; [done|]. destruct H as [(l & Hl & -> & _)|H].
  - exists s, names. split; [by left|]. split; [by eapply list_elem_of_lookup_2|done].
  - apply IH in H as (s' & ns & ? & ?). exists s', ns. split; [by right|done].
Qed.
Lemma place_in_exists R off s names name : (s, names) ∈ R → name ∈ names → ∃ pre p, place_in R off name pre p.
Proof.
  revert off. induction R as [|[s' ns] R IH]; intros off HR Hn; [set_solver|]. apply elem_of_cons in HR as [[= <- <-]|HR].
  - apply list_elem_of_lookup in Hn as [l Hl]. eexists _, _. left. exists l. eauto.
  - destruct (IH (off + Z.of_nat (length ns) * page_or0 s') HR Hn) as (pre & p & H). exists pre, p. by right.
Qed.

(** Where a page starts in the allocation, by the kind of layout. *)
Definition start_of (outer : bool) (nb bpb pre p b : Z) : Z := if outer then b * bpb + pre else pre * nb + b * p.
Definition layout_mode (outer : bool) (layout : KVCacheLayout) : Prop := if outer then blocks_outside layout else layers_outside layout.
Definition mode_stride (outer : bool) (bpb : Z) : option Z := if outer then Some bpb else None.

Lemma region_strides outer layout s nb bpb nl strides :
  layout_mode outer layout → spec_paged s →
  compute_layout_strides s nb nl layout None [None; mode_stride outer bpb; None; None; None] = Ok strides →
  default 0 (strides !! 0%nat) = (if outer then page_or0 s else page_or0 s * nb) ∧
  default 0 (strides !! 1%nat) = (if outer then bpb else page_or0 s).
Proof.
  intros Hl Hs H. destruct (paged_page s Hs) as [Hp _]. destruct outer.
  - destruct Hl as (tail & Ht & Ho & _). destruct (page_strides s (page_or0 s) nb nl layout 1 0 tail (Some bpb) strides) as [-> ->]; auto.
  - destruct Hl as (tail & Ht & Ho & _). destruct (page_strides s (page_or0 s) nb nl layout 0 1 tail None strides) as [-> ->]; auto.
Qed.
End placement.
