(* ===== verification/KvPlacementProps.v ===== *)
(** The pages of a worker's configuration lie inside its allocation and stay
    apart; the layers and bytes of a group, region by region. *)
From S2P Require Import Prelude PyDict KvSpec KvSpecProps KvLayout KvGroups KvGroupsProps KvConfig KvConfigProps KvPlacement.
From stdpp Require Import base list list_numbers gmap sets strings.
From Stdlib Require Import ZArith Lia.
#[local] Open Scope string_scope.
#[local] Open Scope list_scope.
#[local] Open Scope Z_scope.

Section regions.
Context {L : KvLib}.
Implicit Types (s : KVCacheSpec) (g : KVCacheGroupSpec).

(** Every page of a group's tensors is a place of its regions, and conversely. *)
Lemma group_tensors_places outer layout size nb bpb R off ts :
  layout_mode outer layout → paged_regions R → 0 < nb →
  group_tensors layout (mode_stride outer bpb) size nb R off = Ok ts →
  (∀ t l name, t ∈ ts → t_layers t !! l = Some name →
     t_size t = size ∧ ∃ pre p, place_in R off name pre p ∧ ∀ b, page_at t l b = start_of outer nb bpb pre p b) ∧
  (∀ name pre p, place_in R off name pre p →
     ∃ t l, t ∈ ts ∧ t_layers t !! l = Some name ∧ ∀ b, page_at t l b = start_of outer nb bpb pre p b).
Proof.
  intros Hl HR Hnb. revert off ts HR. induction R as [|[s names] R IH]; intros off ts HR H; cbn [group_tensors] in H.
  { injection H as <-. split; [set_solver|done]. }
  assert (Hs : spec_paged s) by (apply (HR (s, names)); by left). destruct (paged_page s Hs) as [Hp Hpos].
  apply res_bind_ok in H as (strides & Hst & H). rewrite Hp in H. cbn [mbind res_bind] in H.
  destruct (Z.eqb_spec (page_or0 s) 0); [lia|]. apply res_bind_ok in H as (rest & Hrest & H). injection H as <-.
  destruct (region_strides _ _ _ _ _ _ _ Hl Hs Hst) as [E0 E1]. rewrite E0, E1.
  destruct (IH (off + Z.of_nat (length names) * page_or0 s) rest) as [IH1 IH2]; [intros r Hr; apply HR; by right|done|].
  assert (Hpage : ∀ (l : nat) b, page_at (mkTensorSpec size names (if outer then page_or0 s else page_or0 s * nb) (if outer then bpb else page_or0 s)
      (off * Z.max (if outer then page_or0 s else page_or0 s * nb) (page_or0 s) / page_or0 s)) l b
      = start_of outer nb bpb (off + Z.of_nat l * page_or0 s) (page_or0 s) b).
  { intros l b. unfold page_at, start_of. cbn. destruct outer.
    - rewrite Z.max_id, Z.div_mul by lia. lia.
    - rewrite Z.max_l by nia. rewrite (Z.mul_comm (page_or0 s) nb), Z.mul_assoc, Z.div_mul by lia. lia. }
  split.
  - intros t l name [->|Ht]%elem_of_cons Hn; cbn [t_layers t_size] in *.
    + split; [done|]. exists (off + Z.of_nat l * page_or0 s), (page_or0 s). split; [left; by exists l|]. intros b. apply Hpage.
    + destruct (IH1 t l name Ht Hn) as (? & pre & p & Hplace & Hat). split; [done|]. exists pre, p. split; [by right|done].
  - intros name pre p [(l & Hn & -> & ->)|Hplace].
    + eexists _, l. split; [by left|]. split; [done|]. intros b. apply Hpage.
    + destruct (IH2 name pre p Hplace) as (t & l & Ht & Hn & Hat). exists t, l. split; [by right|done].
Qed.

(** * The layers of a group *)

(** A group whose layers are the keys of its dictionary, each with a page. *)
Definition group_paged (g : KVCacheGroupSpec) : Prop :=
  NoDup (layer_names g) ∧ (∀ s, s ∈ iter_layer_specs (kv_cache_spec g) → spec_paged s) ∧
  match kv_cache_spec g with GUniform _ d => od_keys d = layer_names g | GLayer _ => True end.

(** Names with their specifications, of regions and of a group. *)
Definition region_items (R : list (KVCacheSpec * list string)) : list (string * KVCacheSpec) :=
  concat ((λ r : KVCacheSpec * list string, (λ n, (n, r.1)) <$> r.2) <$> R).
Definition group_items (g : KVCacheGroupSpec) : list (string * KVCacheSpec) :=
  match kv_cache_spec g with GUniform _ d => d | GLayer s => (λ n, (n, s)) <$> layer_names g end.

Lemma add_same_type_items s name d : region_items (add_same_type s name d) ≡ₚ (name, s) :: region_items d.
Proof.
  unfold region_items. induction d as [|[s' ns] d IH]; [done|]. cbn [add_same_type]. case_decide as Hs.
  - subst s'. cbn [fmap list_fmap concat fst snd]. rewrite fmap_app. rewrite <- app_assoc. cbn. by rewrite <- Permutation_middle.
  - cbn [fmap list_fmap concat fst snd]. rewrite IH. by rewrite <- Permutation_middle.
Qed.
Lemma layers_by_spec_items g : region_items (layers_by_spec g) ≡ₚ group_items g.
Proof.
  unfold layers_by_spec, group_items. destruct (kv_cache_spec g) as [s|bs d].
  - destruct (layer_names g); [done|]. cbn. by rewrite app_nil_r.
  - assert (H : ∀ acc, region_items (fold_left (λ acc x, add_same_type x.2 x.1 acc) d acc) ≡ₚ d ++ region_items acc).
    { induction d as [|[n s] d IH]; intros acc; [done|]. cbn [fold_left fst snd]. rewrite IH, add_same_type_items. by rewrite <- Permutation_middle. }
    rewrite H. cbn. by rewrite app_nil_r.
Qed.

Lemma region_items_bytes R : region_bytes R = zsum ((λ x, page_or0 x.2) <$> region_items R).
Proof.
  unfold region_bytes, region_items. induction R as [|[s names] R IH]; [done|]. cbn [fmap list_fmap concat fst snd].
  rewrite fmap_app, zsum_app, <- IH. cbn [zsum foldr fst snd]. f_equal. clear IH. induction names as [|n names IH]; [done|].
  cbn [length fmap list_fmap zsum foldr]. change (foldr Z.add 0 ?l) with (zsum l). cbn [snd]. lia.
Qed.

Lemma group_items_names g : group_paged g → (group_items g).*1 = layer_names g.
Proof.
  intros (_ & _ & H). unfold group_items. destruct (kv_cache_spec g) as [s|bs d]; [|done].
  rewrite <- list_fmap_compose. by apply list_fmap_id.
Qed.
Lemma group_items_spec g n s : group_paged g → (n, s) ∈ group_items g → spec_paged s.
Proof.
  intros (_ & H & _). unfold group_items. destruct (kv_cache_spec g) as [s'|bs d]; cbn in *.
  - intros (? & [= -> ->] & _)%list_elem_of_fmap. apply H. by left.
  - intros Hin. apply H. apply (list_elem_of_fmap_2 snd) in Hin. exact Hin.
Qed.
(** What [_get_per_layer_spec] finds for a layer of the group. *)
Lemma per_layer_spec g n s : group_paged g → (n, s) ∈ group_items g → _get_per_layer_spec g n = Ok s.
Proof.
  intros (Hnd & _ & Hk). unfold group_items, _get_per_layer_spec. destruct (kv_cache_spec g) as [s'|bs d]; cbn in *.
  - by intros (? & [= -> ->] & _)%list_elem_of_fmap.
  - intros Hin. unfold spec_at. rewrite <- Hk in Hnd. enough (od_get n d = Some s) as -> by done.
    clear Hk. induction d as [|[n' s'] d IH]; [set_solver|]. cbn in *. apply NoDup_cons in Hnd as [Hn Hnd].
    apply elem_of_cons in Hin as [[= <- <-]|Hin]; [by rewrite decide_True|].
    rewrite decide_False; [by apply IH|]. intros ->. apply Hn. apply (list_elem_of_fmap_2 fst) in Hin. exact Hin.
Qed.
Lemma group_page_sizes g : group_paged g → layer_page_sizes g = Ok ((λ x, page_or0 x.2) <$> group_items g).
Proof.
  intros Hg. unfold layer_page_sizes. rewrite <- (group_items_names g Hg).
  assert (H : ∀ l : list (string * KVCacheSpec), (∀ x, x ∈ l → x ∈ group_items g) →
    map_res (λ name, s ← _get_per_layer_spec g name; page_size_bytes s) l.*1 = Ok ((λ x, page_or0 x.2) <$> l)).
  { induction l as [|[n s] l IH]; intros Hl; [done|]. cbn [fmap list_fmap map_res fst snd].
    assert (Hin : (n, s) ∈ group_items g) by (apply Hl; by left).
    rewrite (per_layer_spec g n s Hg Hin). cbn [mbind res_bind].
    destruct (paged_page s (group_items_spec _ _ _ Hg Hin)) as [-> _]. cbn [mbind res_bind].
    rewrite IH; [done|]. intros x Hx. apply Hl. by right. }
  by apply H.
Qed.
Lemma add_same_type_specs s0 n d s names : (s, names) ∈ add_same_type s0 n d → s = s0 ∨ ∃ ns, (s, ns) ∈ d.
Proof.
  induction d as [|[s' ns'] d IH]; cbn [add_same_type]; [set_solver|]. case_decide as Hd; intros [[= -> ->]|H]%elem_of_cons.
  - right. exists ns'. by left.
  - right. exists names. by right.
  - right. exists ns'. by left.
  - destruct (IH H) as [?|(ns & ?)]; [by left|right]. exists ns. by right.
Qed.
Lemma group_regions_paged g : group_paged g → paged_regions (layers_by_spec g).
Proof.
  intros (_ & Hs & _). unfold layers_by_spec. destruct (kv_cache_spec g) as [s|bs d]; cbn in *.
  - destruct (layer_names g) as [|n ns]; [intros r; set_solver|]. intros r ->%list_elem_of_singleton. apply Hs. by left.
  - assert (H : ∀ acc, (∀ s names, (s, names) ∈ acc → spec_paged s) → ∀ s names, (s, names) ∈ fold_left (λ acc x, add_same_type x.2 x.1 acc) d acc → spec_paged s).
    { induction d as [|[n s] d IH]; intros acc Hacc; [done|]. cbn [fold_left fst snd]. apply IH; [intros s' Hs'; apply Hs; by right|].
      intros s' names [->|(ns & Hin)]%add_same_type_specs; [apply Hs; by left|by eapply Hacc]. }
    intros [s names] Hr. eapply H; [|exact Hr]. set_solver.
Qed.
Lemma group_region_bytes g : group_paged g → region_bytes (layers_by_spec g) = zsum ((λ x, page_or0 x.2) <$> group_items g).
Proof. intros Hg. rewrite region_items_bytes. apply zsum_perm. by rewrite layers_by_spec_items. Qed.

(** A place of a group's regions is that of one of its layers, and each layer
    has one. *)
Lemma place_group_layer g off name pre p :
  group_paged g → place_in (layers_by_spec g) off name pre p →
  name ∈ layer_names g ∧ ∃ s, _get_per_layer_spec g name = Ok s ∧ page_size_bytes s = Ok p.
Proof.
  intros Hg (s & names & Hr & Hn & ->)%place_in_spec.
  assert (Hin : (name, s) ∈ group_items g).
  { rewrite <- layers_by_spec_items. unfold region_items. apply list_elem_of_In, in_concat. eexists. split.
    - apply list_elem_of_In, list_elem_of_fmap. by exists (s, names).
    - cbn. apply list_elem_of_In, list_elem_of_fmap. by exists name. }
  split.
  - rewrite <- (group_items_names g Hg). apply (list_elem_of_fmap_2 fst) in Hin. exact Hin.
  - exists s. split; [by apply per_layer_spec|]. apply paged_page. by eapply group_items_spec.
Qed.
Lemma group_layer_place g off name :
  group_paged g → name ∈ layer_names g → ∃ pre p, place_in (layers_by_spec g) off name pre p.
Proof.
  intros Hg. rewrite <- (group_items_names g Hg). intros ([n s] & -> & Hin)%list_elem_of_fmap.
  rewrite <- layers_by_spec_items in Hin. unfold region_items in Hin. apply list_elem_of_In, in_concat in Hin as (l & Hl & Hin).
  apply list_elem_of_In, list_elem_of_fmap in Hl as ([s' names] & -> & Hr). apply list_elem_of_In, list_elem_of_fmap in Hin as (m & [= <- <-] & Hm).
  by eapply place_in_exists.
Qed.

(** * One configuration *)

(** The page of a layer, by its group; where a configuration puts block [b]
    of a layer. *)
Definition layer_page (gs : list KVCacheGroupSpec) (name : string) (p : Z) : Prop :=
  ∃ g s, g ∈ gs ∧ name ∈ layer_names g ∧ _get_per_layer_spec g name = Ok s ∧ page_size_bytes s = Ok p.
Definition page_of (c : KVCacheConfig) (name : string) (b start : Z) : Prop :=
  ∃ t l, t ∈ kv_cache_tensors c ∧ t_layers t !! l = Some name ∧ start = page_at t l b.

Lemma same_group (gs : list KVCacheGroupSpec) g1 g2 (name : string) :
  NoDup (concat (layer_names <$> gs)) → g1 ∈ gs → g2 ∈ gs → name ∈ layer_names g1 → name ∈ layer_names g2 → g1 = g2.
Proof.
  induction gs as [|g gs IH]; [set_solver|]. cbn. rewrite NoDup_app. intros (_ & Hd & Hnd) H1 H2 Hn1 Hn2.
  assert (Hin : ∀ g', g' ∈ gs → name ∈ layer_names g' → name ∈ concat (layer_names <$> gs)).
  { intros g' Hg' Hn'. apply list_elem_of_In, in_concat. exists (layer_names g').
    split; apply list_elem_of_In; [apply list_elem_of_fmap; eauto|done]. }
  apply elem_of_cons in H1 as [->|H1], H2 as [->|H2]; [done| | |by apply IH].
  - destruct (Hd name Hn1). by eapply Hin.
  - destruct (Hd name Hn2). by eapply Hin.
Qed.

Lemma group_tensors_size layout stride size nb R off ts t : group_tensors layout stride size nb R off = Ok ts → t ∈ ts → t_size t = size.
Proof.
  revert off ts. induction R as [|[s names] R IH]; intros off ts H; cbn [group_tensors] in H.
  { injection H as <-. by intros []%elem_of_nil. }
  apply res_bind_ok in H as (strides & _ & H). apply res_bind_ok in H as (page & _ & H). destruct (page =? 0); [done|].
  apply res_bind_ok in H as (rest & Hrest & H). injection H as <-. intros [->|Ht]%elem_of_cons; [done|by eapply IH].
Qed.

(** What a successful run computed, by its steps. *)
Lemma config_steps layout v gs avail c :
  gs ≠ [] → get_kv_cache_config_from_groups layout v gs avail = Ok c →
  ∃ bpb tss, validate_kv_cache_layout layout gs = Ok tt ∧ _pool_bytes_per_block gs = Ok bpb ∧ 0 < bpb ∧
    num_blocks c = may_override_num_blocks v (avail / bpb) ∧ kv_cache_groups c = gs ∧
    map_res (λ g, group_tensors layout (if is_block_outermost layout then Some bpb else None) (bpb * num_blocks c) (num_blocks c) (layers_by_spec g) 0) gs = Ok tss ∧
    kv_cache_tensors c = concat tss.
Proof.
  intros Hne H. destruct gs as [|g gs]; [done|]. unfold get_kv_cache_config_from_groups in H.
  apply res_bind_ok in H as ([] & Hv & H). apply res_bind_ok in H as (bpb & Hb & H). apply res_bind_ok in H as (tss & Ht & H).
  injection H as <-. exists bpb, tss. split_and!; try done.
  unfold _get_kv_cache_bytes_per_block in Hb. inv_checks Hb. injection Hb as <-. by apply Z.ltb_lt.
Qed.

Lemma two_elements {A} (l : list A) x y : x ∈ l → y ∈ l → x ≠ y → (1 < length l)%nat.
Proof. destruct l as [|a [|b l]]; [set_solver| |simpl; lia]. intros ->%list_elem_of_singleton ->%list_elem_of_singleton. done. Qed.

(** Pages of one group, or of different blocks with blocks outside, or of
    different blocks with one page size. *)
Lemma starts_apart (outer : bool) nb bpb pre1 p1 b1 pre2 p2 b2 :
  0 ≤ b1 < nb → 0 ≤ b2 < nb → 0 < p1 → 0 < p2 → 0 ≤ pre1 → 0 ≤ pre2 → pre1 + p1 ≤ bpb → pre2 + p2 ≤ bpb →
  (pre1 + p1 ≤ pre2 ∨ pre2 + p2 ≤ pre1) ∧ (b1 = b2 ∨ outer = false) ∨
  b1 ≠ b2 ∧ (outer = true ∨ pre1 = pre2 ∧ p1 = p2 ∨ p1 = p2 ∧ (p1 | pre1) ∧ (p1 | pre2)) →
  start_of outer nb bpb pre1 p1 b1 + p1 ≤ start_of outer nb bpb pre2 p2 b2 ∨
  start_of outer nb bpb pre2 p2 b2 + p2 ≤ start_of outer nb bpb pre1 p1 b1.
Proof.
  intros Hb1 Hb2 Hp1 Hp2 H1 H2 H3 H4 Hcase. unfold start_of. destruct outer.
  - destruct Hcase as [[Hpre [->|?]]|[Hne' _]]; [nia|done|]. nia.
  - destruct Hcase as [[Hpre _]|[Hne' Hcase]].
    + destruct Hpre; [left|right]; nia.
    + destruct Hcase as [?|[[-> ->]|(-> & [k1 ->] & [k2 ->])]]; [done| |].
      * assert (b1 + 1 ≤ b2 ∨ b2 + 1 ≤ b1) by lia. nia.
      * assert (k1 * nb + b1 ≠ k2 * nb + b2).
        { intros E. apply Hne'. assert (k1 = k2) by nia. lia. }
        assert (k1 * nb + b1 + 1 ≤ k2 * nb + b2 ∨ k2 * nb + b2 + 1 ≤ k1 * nb + b1) as [?|?] by lia; [left|right]; nia.
Qed.

Section one_config.
Context (outer : bool) (layout : KVCacheLayout) (v : VllmConfig) (gs : list KVCacheGroupSpec) (avail : Z) (c : KVCacheConfig).
Hypothesis Hmode : layout_mode outer layout.
Hypothesis Hgs : ∀ g, g ∈ gs → group_paged g.
Hypothesis Hnd : NoDup (concat (layer_names <$> gs)).
Hypothesis Hne : gs ≠ [].
Hypothesis Hc : get_kv_cache_config_from_groups layout v gs avail = Ok c.

Lemma mode_outermost : is_block_outermost layout = outer.
Proof using Hmode. destruct outer; [by destruct Hmode as (?&_&_&?)|by destruct Hmode as (?&_&_&?&_)]. Qed.

Lemma group_fits bpb g : _pool_bytes_per_block gs = Ok bpb → g ∈ gs → region_bytes (layers_by_spec g) ≤ bpb.
Proof using Hgs.
  intros Hb Hg. rewrite (group_region_bytes g (Hgs g Hg)). unfold _pool_bytes_per_block, _get_kv_cache_bytes_per_block in Hb.
  apply res_bind_ok in Hb as (sums & Hs & Hb). apply res_bind_ok in Hb as (n & Hn & Hb). inv_checks Hb. injection Hb as <-.
  apply zmax_spec in Hn as [_ Hmax]. apply Hmax. apply map_res_inv in Hs. apply list_elem_of_lookup in Hg as [i Hi].
  eapply Forall2_lookup_l in Hs as (x & Hx & Ex); [|done]. rewrite group_page_sizes in Ex by (apply Hgs; by eapply list_elem_of_lookup_2).
  injection Ex as <-. by eapply list_elem_of_lookup_2.
Qed.

(** Pages are the places of the groups. *)
Lemma page_of_place bpb : _pool_bytes_per_block gs = Ok bpb → 0 < num_blocks c →
  (∀ t, t ∈ kv_cache_tensors c → (∃ l name, t_layers t !! l = Some name) → t_size t = bpb * num_blocks c) ∧
  (∀ name b start, page_of c name b start ↔
    ∃ g pre p, g ∈ gs ∧ place_in (layers_by_spec g) 0 name pre p ∧ start = start_of outer (num_blocks c) bpb pre p b).
Proof using Hmode Hgs Hne Hc.
  intros Hb Hnb. destruct (config_steps _ _ _ _ _ Hne Hc) as (bpb' & tss & _ & Hb' & _ & _ & _ & Ht & Hts).
  rewrite Hb in Hb'. injection Hb' as <-. rewrite mode_outermost in Ht. fold (mode_stride outer bpb) in Ht. apply map_res_inv in Ht.
  assert (Hg : ∀ g ts, g ∈ gs → group_tensors layout (mode_stride outer bpb) (bpb * num_blocks c) (num_blocks c) (layers_by_spec g) 0 = Ok ts → _)
    by (intros g ts Hin Hr; exact (group_tensors_places outer layout _ _ _ _ _ _ Hmode (group_regions_paged g (Hgs g Hin)) Hnb Hr)).
  assert (Hin : ∀ t, t ∈ kv_cache_tensors c ↔ ∃ g ts, g ∈ gs ∧ t ∈ ts ∧ ts ∈ tss ∧
    group_tensors layout (mode_stride outer bpb) (bpb * num_blocks c) (num_blocks c) (layers_by_spec g) 0 = Ok ts).
  { intros t. rewrite Hts, list_elem_of_In, in_concat. split.
    - intros (ts & Hin & Hint). apply list_elem_of_In in Hin, Hint. pose proof Hin as [i Hi]%list_elem_of_lookup.
      eapply Forall2_lookup_r in Ht as (g & Hgi & Hr); [|done]. exists g, ts. split; [by eapply list_elem_of_lookup_2|done].
    - intros (g & ts & _ & Hint & Hin & _). exists ts. by rewrite <- !list_elem_of_In. }
  split.
  - intros t (g & ts & Hgin & Htin & _ & Hr)%Hin (l & name & Hl). by apply (proj1 (Hg g ts Hgin Hr) t l name).
  - intros name b start. split.
    + intros (t & l & (g & ts & Hgin & Htin & _ & Hr)%Hin & Hl & ->).
      destruct (proj1 (Hg g ts Hgin Hr) t l name Htin Hl) as (_ & pre & p & Hp & Hat). exists g, pre, p. by rewrite Hat.
    + intros (g & pre & p & Hgin & Hp & ->). pose proof Hgin as [i Hi]%list_elem_of_lookup.
      eapply Forall2_lookup_l in Ht as (ts & Htsi & Hr); [|done].
      destruct (proj2 (Hg g ts Hgin Hr) name pre p Hp) as (t & l & Htin & Hl & Hat). exists t, l. split; [|by rewrite Hat].
      apply Hin. exists g, ts. split_and!; try done. by eapply list_elem_of_lookup_2.
Qed.

(** With layers outside, several groups have one page size. *)
Lemma layers_outside_uniform g1 g2 :
  outer = false → g1 ∈ gs → g2 ∈ gs → g1 ≠ g2 →
  ∃ p, ∀ g (r : KVCacheSpec * list string), g ∈ gs → r ∈ layers_by_spec g → r.2 ≠ [] → page_or0 r.1 = p.
Proof using Hmode Hgs Hne Hc.
  intros Ho Hg1 Hg2 Hdiff. destruct (config_steps _ _ _ _ _ Hne Hc) as (bpb & tss & Hv & _).
  unfold validate_kv_cache_layout in Hv. apply res_bind_ok in Hv as (pss & Hps & Hv). rewrite Ho in Hmode.
  destruct Hmode as (_ & _ & _ & _ & Hcompact). destruct (one_value (concat pss)) eqn:Hone.
  2: { rewrite Hcompact, andb_true_r in Hv. rewrite bool_decide_eq_true_2, orb_true_r in Hv; [done|].
       exact (two_elements _ _ _ Hg1 Hg2 Hdiff). }
  apply map_res_inv in Hps.
  assert (Hin : ∀ g (r : KVCacheSpec * list string), g ∈ gs → r ∈ layers_by_spec g → r.2 ≠ [] → page_or0 r.1 ∈ concat pss).
  { intros g [s [|n names]] Hg Hr Hnil; [done|]. pose proof Hg as [i Hi]%list_elem_of_lookup.
    eapply Forall2_lookup_l in Hps as (ps & Hpi & E); [|done]. rewrite group_page_sizes in E by (by apply Hgs). injection E as E.
    apply list_elem_of_In, in_concat. exists ps. split; [by eapply list_elem_of_In, list_elem_of_lookup_2|]. apply list_elem_of_In. rewrite <- E.
    apply list_elem_of_fmap. exists (n, s). split; [done|]. rewrite <- layers_by_spec_items. unfold region_items.
    apply list_elem_of_In, in_concat. eexists. split; [apply list_elem_of_In, list_elem_of_fmap; by eexists|]. by left. }
  unfold one_value in Hone. destruct (concat pss) as [|p ps] eqn:Ep; [done|]. exists p. intros g r Hg Hr Hnil.
  rewrite <- Ep in Hone, Hin. rewrite Ep in Hone. eapply all_equal_in; [exact Hone| |by left]. rewrite <- Ep. by eapply Hin.
Qed.

Lemma pages_within bpb name b start :
  _pool_bytes_per_block gs = Ok bpb → 0 ≤ b < num_blocks c → page_of c name b start →
  ∃ p, layer_page gs name p ∧ 0 ≤ start ∧ start + p ≤ bpb * num_blocks c.
Proof using Hmode Hgs Hne Hc.
  intros Hb Hbl Hp. apply (page_of_place bpb Hb ltac:(lia)) in Hp as (g & pre & p & Hg & Hplace & ->).
  destruct (place_group_layer _ _ _ _ _ (Hgs g Hg) Hplace) as (Hn & s & Hs & Hps).
  exists p. split; [by exists g, s|]. apply place_in_bounds in Hplace as (Hlo & Hhi & Hpos); [|by apply group_regions_paged, Hgs].
  pose proof (group_fits bpb g Hb Hg). unfold start_of. destruct outer; nia.
Qed.

Lemma pages_apart bpb n1 b1 st1 p1 n2 b2 st2 p2 :
  _pool_bytes_per_block gs = Ok bpb → 0 ≤ b1 < num_blocks c → 0 ≤ b2 < num_blocks c →
  page_of c n1 b1 st1 → layer_page gs n1 p1 → page_of c n2 b2 st2 → layer_page gs n2 p2 →
  (b1 ≠ b2 ∨ n1 ≠ n2 ∧ ∃ g, g ∈ gs ∧ n1 ∈ layer_names g ∧ n2 ∈ layer_names g) →
  st1 + p1 ≤ st2 ∨ st2 + p2 ≤ st1.
Proof using Hmode Hgs Hnd Hne Hc.
  intros Hb Hb1 Hb2 Hpg1 (g1' & s1' & Hg1' & Hn1' & Hs1' & Hp1') Hpg2 (g2' & s2' & Hg2' & Hn2' & Hs2' & Hp2') Hcase.
  apply (page_of_place bpb Hb ltac:(lia)) in Hpg1 as (g1 & pre1 & q1 & Hg1 & Hpl1 & ->), Hpg2 as (g2 & pre2 & q2 & Hg2 & Hpl2 & ->).
  destruct (place_group_layer _ _ _ _ _ (Hgs g1 Hg1) Hpl1) as (Hn1 & s1 & Hs1 & Hp1).
  destruct (place_group_layer _ _ _ _ _ (Hgs g2 Hg2) Hpl2) as (Hn2 & s2 & Hs2 & Hp2).
  assert (q1 = p1) as -> by (assert (g1 = g1') as -> by (by eapply same_group); congruence).
  assert (q2 = p2) as -> by (assert (g2 = g2') as -> by (by eapply same_group); congruence).
  pose proof (group_fits bpb g1 Hb Hg1). pose proof (group_fits bpb g2 Hb Hg2).
  pose proof (group_regions_paged g1 (Hgs g1 Hg1)) as HR1. pose proof (group_regions_paged g2 (Hgs g2 Hg2)) as HR2.
  pose proof (place_in_bounds _ _ _ _ _ HR1 Hpl1) as (? & ? & ?). pose proof (place_in_bounds _ _ _ _ _ HR2 Hpl2) as (? & ? & ?).
  assert (Hob : outer = true ∨ outer = false) by (destruct outer; auto).
  apply starts_apart; try lia.
  destruct (decide (g1 = g2)) as [->|Hdiff].
  - destruct (place_in_apart _ _ _ _ _ _ _ _ HR1 Hpl1 Hpl2) as [(-> & -> & ->)|Hapart].
    + right. split; [naive_solver|]. right. by left.
    + destruct Hob as [Eo|Eo]; [|by left; split; [|right]].
      destruct (decide (b1 = b2)) as [->|]; [by left; split; [|left]|by right; split; [|left]].
  - assert (b1 ≠ b2) as Hbb.
    { destruct Hcase as [?|(_ & g & Hg & Hgn1 & Hgn2)]; [done|]. destruct Hdiff.
      transitivity g; [exact (same_group gs g1 g n1 Hnd Hg1 Hg Hn1 Hgn1)|exact (same_group gs g g2 n2 Hnd Hg Hg2 Hgn2 Hn2)]. }
    right. split; [done|]. destruct Hob as [Eo|Eo]; [by left|]. right. right.
    destruct (layers_outside_uniform g1 g2 Eo Hg1 Hg2 Hdiff) as (p & Hp).
    assert (Hone : ∀ g name pre q, g ∈ gs → place_in (layers_by_spec g) 0 name pre q → q = p ∧ (p | pre)).
    { intros g name pre q Hg Hpl. assert (q = p) as ->; [|split; [done|]].
      - apply place_in_spec in Hpl as (s & names & Hr & Hn & ->). apply (Hp g (s, names)); [done|done|]. cbn. intros ->. by apply elem_of_nil in Hn.
      - eapply place_in_multiple; [|apply Z.divide_0_r|exact Hpl]. intros r Hr. exact (Hp g r Hg Hr). }
    destruct (Hone g1 _ _ _ Hg1 Hpl1) as [-> ?], (Hone g2 _ _ _ Hg2 Hpl2) as [-> ?]. done.
Qed.
End one_config.
End regions.

(** * Theorems *)

(** C3: The pages of a worker's configuration fit and stay apart.  For groups
    whose layers have pages and are listed once, under a layout that keeps a
    page in one piece (blocks outermost with the layers next, or layers
    outermost with the blocks next, the inner axes in any order): the blocks
    are as many as fit into the memory, unless their number is overridden;
    every tensor has the size of the whole allocation, [bytes_per_block *
    num_blocks] bytes; every layer of every group has a page for every block;
    every such page lies inside the allocation; and two pages never overlap when their blocks differ, even
    in different groups, nor when they belong to different layers of one
    group. *)
Theorem config_pages_apart (L : KvLib) (outer : bool) (layout : KVCacheLayout) (v : VllmConfig) (gs : list KVCacheGroupSpec)
    (avail : Z) (c : KVCacheConfig) :
  (if outer then blocks_outside layout else layers_outside layout) →
  (∀ g, g ∈ gs → group_paged g) → NoDup (concat (layer_names <$> gs)) → gs ≠ [] →
  get_kv_cache_config_from_groups layout v gs avail = Ok c →
  ∃ bpb, _pool_bytes_per_block gs = Ok bpb ∧ 0 < bpb ∧ num_blocks c = may_override_num_blocks v (avail / bpb) ∧
    (∀ t, t ∈ kv_cache_tensors c → t_size t = bpb * num_blocks c) ∧
    (∀ g name b, g ∈ gs → name ∈ layer_names g → 0 ≤ b < num_blocks c → ∃ start, page_of c name b start) ∧
    (∀ name b start, 0 ≤ b < num_blocks c → page_of c name b start →
       ∃ p, layer_page gs name p ∧ 0 ≤ start ∧ start + p ≤ bpb * num_blocks c) ∧
    (∀ n1 b1 st1 p1 n2 b2 st2 p2, 0 ≤ b1 < num_blocks c → 0 ≤ b2 < num_blocks c →
       page_of c n1 b1 st1 → layer_page gs n1 p1 → page_of c n2 b2 st2 → layer_page gs n2 p2 →
       (b1 ≠ b2 ∨ n1 ≠ n2 ∧ ∃ g, g ∈ gs ∧ n1 ∈ layer_names g ∧ n2 ∈ layer_names g) →
       st1 + p1 ≤ st2 ∨ st2 + p2 ≤ st1).
Proof.
  intros Hmode Hgs Hnd Hne Hc. destruct (config_steps _ _ _ _ _ Hne Hc) as (bpb & tss & _ & Hb & Hpos & Hnb & _ & Ht & Hts). exists bpb. split; [done|].
  split_and!; [done|done|..].
  - intros t. rewrite Hts, list_elem_of_In, in_concat. intros (ts & Hin & Hint). apply list_elem_of_In in Hin, Hint.
    apply map_res_inv in Ht. apply list_elem_of_lookup in Hin as [i Hi]. eapply Forall2_lookup_r in Ht as (g & _ & Hr); [|done].
    by eapply group_tensors_size.
  - intros g name b Hg Hn Hbl. destruct (group_layer_place g 0 name (Hgs g Hg) Hn) as (pre & p & Hp).
    exists (start_of outer (num_blocks c) bpb pre p b). apply (page_of_place outer layout v gs avail c Hmode Hgs Hne Hc bpb Hb ltac:(lia)).
    by exists g, pre, p.
  - intros name b start Hbl Hp. by eapply pages_within.
  - intros n1 b1 st1 p1 n2 b2 st2 p2 Hb1 Hb2 Hp1 Hl1 Hp2 Hl2 Hcase. 
    exact (pages_apart outer layout v gs avail c Hmode Hgs Hnd Hne Hc bpb n1 b1 st1 p1 n2 b2 st2 p2 Hb Hb1 Hb2 Hp1 Hl1 Hp2 Hl2 Hcase).
Qed.

(** Two groups of two layers in the layout [BLHNC]. *)
Definition sample_BLHNC : KVCacheLayout := mkLayout "BLHNC" [1; 0; 2; 3; 4]%nat true false true.
Definition sample_groups : list KVCacheGroupSpec :=
  [new_group ["f0"; "f1"] (GLayer (sample_full 16 2 4)); new_group ["w0"; "w1"] (GLayer (sample_window 16 2 4 8))].
Definition sample_config : KVCacheConfig :=
  mkConfig 9 [mkTensorSpec 9216 ["f0"; "f1"] 512 1024 0; mkTensorSpec 9216 ["w0"; "w1"] 512 1024 0] sample_groups None None.
Lemma config_pages_apart_witness :
  get_kv_cache_config_from_groups sample_BLHNC (sample_vllm 100) sample_groups 10000 = Ok sample_config ∧
  page_of sample_config "f1" 2 2560 ∧ page_of sample_config "w0" 3 3072 ∧ (2560 + 512 ≤ 3072 ∨ 3072 + 512 ≤ 2560).
Proof.
  assert (H1 : page_of sample_config "f1" 2 2560).
  { exists (mkTensorSpec 9216 ["f0"; "f1"] 512 1024 0), 1%nat. split; [by left|by split]. }
  assert (H2 : page_of sample_config "w0" 3 3072).
  { exists (mkTensorSpec 9216 ["w0"; "w1"] 512 1024 0), 0%nat. split; [by right; left|by split]. }
  split_and!; [reflexivity|done|done|].
  assert (Hgs : ∀ g, g ∈ sample_groups → group_paged g).
  { intros g Hg. unfold sample_groups in Hg.
    apply elem_of_cons in Hg as [->|Hg]; [|apply list_elem_of_singleton in Hg as ->];
      (split; [apply (bool_decide_unpack _); vm_compute; exact I|]; split; [|exact I]; intros s ->%list_elem_of_singleton;
       split; [by exists 512|exact I]). }
  destruct (config_pages_apart sample_lib true sample_BLHNC (sample_vllm 100) sample_groups 10000 sample_config) as (bpb & _ & _ & _ & _ & _ & _ & H).
  - exists [2; 3; 4]%nat. split_and!; [by left|done|done].
  - exact Hgs.
  - apply (bool_decide_unpack _). vm_compute. exact I.
  - done.
  - reflexivity.
  - eapply (H "f1" 2 2560 512 "w0" 3 3072 512); try done.
    + eexists _, _. split; [by left|]. split; [by right; left|]. split; reflexivity.
    + eexists _, _. split; [by right; left|]. split; [by left|]. split; reflexivity.
    + by left.
Defined.
