(* ===== verification/KvWorkersProps.v ===== *)
(** The configurations of all workers: one number of blocks, within every
    worker's memory, with room for the longest request. *)
From S2P Require Import Prelude PyDict KvSpec KvSpecProps KvLayout KvGroups KvConfig KvConfigProps KvPlacement KvPlacementProps.
From stdpp Require Import base list list_numbers gmap sets strings.
From Stdlib Require Import ZArith Lia.
#[local] Open Scope string_scope.
#[local] Open Scope list_scope.
#[local] Open Scope Z_scope.

(** * What the search and the checks leave of the configuration *)

(** The state differs from [v] in the model length at most. *)
Definition only_length (v v' : VllmConfig) : Prop := ∃ k, v' = with_max_model_len k v.
Lemma only_length_refl v : only_length v v.
Proof. exists (max_model_len v). by rewrite with_max_model_len_same. Qed.

Lemma fits_memory_state need avail n v0 v : only_length v0 v → only_length v0 (fits_memory need avail n v).2.
Proof.
  intros [k ->]. unfold fits_memory, set_max_model_len. autorewrite with monad.
  unfold lift, mbind, M_bind. destruct (need _); by exists n.
Qed.
Lemma length_search_state fuel need avail left right result v0 v :
  only_length v0 v → only_length v0 (length_search fuel (fits_memory need avail) left right result v).2.
Proof.
  revert left right result v. induction fuel as [|fuel IH]; intros left right result v Hv; cbn [length_search]; case_match; try done.
  pose proof (fits_memory_state need avail ((left + right) / 2) v0 v Hv) as Hf.
  unfold mbind, M_bind. destruct (fits_memory _ _ _ v) as [[[]|e] v1]; [by apply IH|by apply IH|done].
Qed.
Lemma finally_restores {A} (m : M VllmConfig A) v :
  only_length v (m v).2 → (finally_restore (max_model_len v) m v).2 = v.
Proof. intros [k Hk]. unfold finally_restore. destruct (m v) as [r v1]. cbn in *. subst v1. exact (with_max_model_len_same v). Qed.
Lemma estimate_restores need avail v : (estimate_with need avail v).2 = v.
Proof.
  unfold estimate_with. autorewrite with monad. apply finally_restores.
  pose proof (fits_memory_state need avail 1 v v (only_length_refl v)) as Hf. unfold mbind, M_bind.
  destruct (fits_memory _ _ _ v) as [[[]|e] v1]; [by apply length_search_state|done|done].
Qed.

Section workers.
Context {L : KvLib}.
Implicit Types (gs : list KVCacheGroupSpec) (v : VllmConfig).

Lemma auto_fit_loop_state ws start v : (auto_fit_loop ws start v).2 = v ∧ ∀ r, (auto_fit_loop ws start v).1 = Ok r → r ≤ start.
Proof.
  revert start. induction ws as [|[gs m] ws IH]; intros start; cbn [auto_fit_loop].
  - split; [done|]. intros r [= ->]. lia.
  - destruct gs as [|g gs]; [apply IH|]. unfold mbind, M_bind, _estimate_max_model_len_from_groups.
    pose proof (estimate_restores (λ v, _max_memory_usage_bytes_from_groups v (g :: gs)) m v) as E.
    destruct (estimate_with _ m v) as [[r|e] v1]; cbn in E; subst v1; [|done].
    destruct (IH (if r <? start then r else start)) as [-> H]. split; [done|]. intros r' Hr'. apply H in Hr'.
    destruct (Z.ltb_spec r start); lia.
Qed.

(** Auto-fitting only shortens the model length. *)
Lemma auto_fit_state projected ms v v' :
  _auto_fit_max_model_len projected ms v = (Ok tt, v') → v' = v ∨ ∃ k, 0 < k < max_model_len v ∧ v' = with_max_model_len k v.
Proof.
  unfold _auto_fit_max_model_len. autorewrite with monad. destruct (forallb _ _); [intros [= <-]; by left|].
  intros H. apply M_bind_ok in H as (? & v1 & H1 & H). unfold lift in H1. injection H1 as _ <-.
  apply M_bind_ok in H as (r & v1 & H1 & H). destruct (auto_fit_loop_state (zip projected ms) (max_model_len v) v) as [E Hr].
  rewrite H1 in E, Hr. cbn in E. subst v1. specialize (Hr r eq_refl).
  unfold raise_if in H. destruct (Z.leb_spec r 0); [done|]. autorewrite with monad in H.
  destruct (Z.leb_spec (max_model_len v) r); injection H as <-; [by left|right]. exists r. split; [lia|done].
Qed.

(** A worker that passes the check has positive memory that covers its need. *)
Lemma check_worker_ok x v v' :
  check_worker x v = (Ok tt, v') →
  v' = v ∧ (x.1 ≠ [] → 0 < x.2 ∧ ∃ need, _max_memory_usage_bytes_from_groups v x.1 = Ok need ∧ need ≤ x.2).
Proof.
  unfold check_worker. destruct x as [[|g gs] m]; cbn [fst snd]; [by intros [= <-]|].
  unfold _check_enough_kv_cache_memory, raise_if. destruct (Z.leb_spec m 0); [done|]. autorewrite with monad. unfold lift.
  intros H1. apply M_bind_ok in H1 as (need & v1 & H1 & H2). injection H1 as Hneed <-.
  destruct (Z.ltb_spec m need).
  - exfalso. apply M_bind_ok in H2 as (? & ? & _ & ?). done.
  - injection H2 as <-. split; [done|]. intros _. split; [lia|]. by exists need.
Qed.
Lemma check_all_ok (l : list (list KVCacheGroupSpec * Z)) v v' :
  for_each l check_worker v = (Ok tt, v') →
  v' = v ∧ ∀ x, x ∈ l → x.1 ≠ [] → 0 < x.2 ∧ ∃ need, _max_memory_usage_bytes_from_groups v x.1 = Ok need ∧ need ≤ x.2.
Proof.
  revert v. induction l as [|x l IH]; intros v; cbn [for_each]; [intros [= <-]; split; [done|set_solver]|].
  intros H. apply M_bind_ok in H as ([] & v1 & H1 & H). apply check_worker_ok in H1 as [-> Hx]. apply IH in H as [-> Hl].
  split; [done|]. intros y [->|Hy]%elem_of_cons; [done|by apply Hl].
Qed.

(** * Worker configurations *)

(** Without an override, a worker's blocks are what its memory holds. *)
Lemma config_blocks layout v gs avail c :
  get_kv_cache_config_from_groups layout v gs avail = Ok c → num_gpu_blocks_override v = None →
  kv_cache_groups c = gs ∧ (gs = [] → num_blocks c = 1) ∧
  (gs ≠ [] → ∃ bpb, _pool_bytes_per_block gs = Ok bpb ∧ 0 < bpb ∧ num_blocks c = avail / bpb).
Proof.
  intros H Ho. destruct gs as [|g gs]; [by injection H as <-|].
  assert (Hne : g :: gs ≠ []) by done. destruct (config_steps _ _ _ _ _ Hne H) as (bpb & tss & _ & Hb & Hpos & Hn & Hg & _).
  split; [done|]. split; [done|]. intros _. exists bpb. split_and!; [done|done|]. rewrite Hn. unfold may_override_num_blocks. by rewrite Ho.
Qed.

(** Shrinking gives the configuration the smallest number of blocks. *)
Lemma shrink_blocks layout v n c c' :
  shrink_config layout v n c = Ok c' → num_gpu_blocks_override v = None →
  kv_cache_groups c' = kv_cache_groups c ∧ (kv_cache_groups c ≠ [] → num_blocks c' = n).
Proof.
  unfold shrink_config. intros H Ho. destruct (Z.eqb_spec (num_blocks c) n) as [<-|]; [by injection H as <-|].
  apply res_bind_ok in H as (p & Hp & H). destruct (config_blocks _ _ _ _ _ H Ho) as (Hg & _ & Hb). split; [done|]. intros Hne.
  destruct (Hb Hne) as (bpb & Hb' & Hpos & ->). rewrite Hp in Hb'. injection Hb' as <-. by rewrite Z.div_mul by lia.
Qed.
End workers.

(** * [get_kv_cache_configs] *)

Section configs.
Context {L : KvLib}.
Context (check_registry : odict string KVCacheSpec → res unit) (layout : KVCacheLayout).
Context (specs : list (odict string KVCacheSpec)) (avails : list Z).

Lemma lift_ok {S A} (r : res A) (s s' : S) a : lift r s = (Ok a, s') → r = Ok a ∧ s' = s.
Proof. unfold lift. by intros [= -> ->]. Qed.

(** The steps of a successful run, for one worker: its groups, what it was
    planned with, what it was checked for and what it was given. *)
Record worker_run (v' : VllmConfig) (n : Z) (gs : list KVCacheGroupSpec) (sp : odict string KVCacheSpec) (avail : Z) (c0 c : KVCacheConfig) : Prop := {
  run_layers : sum_list_with (λ g, length (layer_names g)) gs = length sp;
  run_config : get_kv_cache_config_from_groups layout v' gs avail = Ok c0;
  run_shrunk : shrink_config layout v' n c0 = Ok c;
  run_least : n ≤ num_blocks c0;
  run_checked : gs ≠ [] → ∃ bpb need, _pool_bytes_per_block gs = Ok bpb ∧ _max_memory_usage_bytes_from_groups v' gs = Ok need ∧ need ≤ avail - bpb }.

Lemma usable_memory_lookup projected available ms i gs avail :
  usable_memory projected available = Ok ms → projected !! i = Some gs → available !! i = Some avail → gs ≠ [] →
  ∃ bpb, _pool_bytes_per_block gs = Ok bpb ∧ ms !! i = Some (avail - bpb).
Proof.
  intros H Hi Ha Hne. apply map_res_inv in H.
  eapply Forall2_lookup_l in H as (m & Hm & E); [|by apply lookup_zip_Some]. cbn in E.
  destruct gs as [|g gs]; [done|]. apply res_bind_ok in E as (bpb & Hb & E). injection E as <-. by exists bpb.
Qed.

Lemma get_configs_run v cs v' :
  get_kv_cache_configs check_registry layout specs avails v = (Ok cs, v') → num_gpu_blocks_override v = None →
  (v' = v ∨ original_max_model_len v = -1 ∧ ∃ k, 0 < k < max_model_len v ∧ v' = with_max_model_len k v) ∧
  ∃ n : Z, (∃ (j : nat) gs sp avail c0 c, worker_run v' n gs sp avail c0 c ∧ cs !! j = Some c ∧ num_blocks c0 = n) ∧
    ∀ (i : nat) c, cs !! i = Some c → ∃ gs sp avail c0, avails !! i = Some avail ∧ specs !! i = Some sp ∧ worker_run v' n gs sp avail c0 c.
Proof.
  unfold get_kv_cache_configs. intros H Ho.
  apply M_bind_ok in H as (merged & v1 & [_ ->]%lift_ok & H). apply M_bind_ok in H as ([] & v1 & [_ ->]%lift_ok & H).
  apply M_bind_ok in H as (v0 & v1 & [= <- <-] & H). apply M_bind_ok in H as (merged' & v1 & [_ ->]%lift_ok & H).
  apply M_bind_ok in H as (groups & v1 & [_ ->]%lift_ok & H). apply M_bind_ok in H as (projected & v1 & [Hproj ->]%lift_ok & H).
  apply M_bind_ok in H as (available & v1 & [Hav ->]%lift_ok & H). unfold planned_memory in Hav. rewrite Ho in Hav. injection Hav as <-.
  apply M_bind_ok in H as (ms & v1 & [Hms ->]%lift_ok & H). apply M_bind_ok in H as ([] & v1 & Hfit & H).
  assert (Hstate : v1 = v ∨ original_max_model_len v = -1 ∧ ∃ k, 0 < k < max_model_len v ∧ v1 = with_max_model_len k v).
  { destruct (Z.eqb_spec (original_max_model_len v) (-1)); [|left; by injection Hfit as <-].
    apply auto_fit_state in Hfit as [->|Hk]; [by left|by right]. }
  assert (Ho1 : num_gpu_blocks_override v1 = None) by (destruct Hstate as [->|(_ & k & _ & ->)]; done).
  apply M_bind_ok in H as ([] & v2 & Hcheck & H). apply check_all_ok in Hcheck as [-> Hcheck].
  apply M_bind_ok in H as (? & ? & [= <- <-] & H). apply M_bind_ok in H as (configs & v2 & [Hconf ->]%lift_ok & H).
  apply M_bind_ok in H as (n & v2 & [Hmin ->]%lift_ok & H). apply lift_ok in H as [Hcs ->].
  split; [done|]. exists n. apply map_res_inv in Hconf, Hcs.
  assert (Hmin' : zmin (num_blocks <$> configs) = Ok n) by (destruct configs; [done|exact Hmin]). apply zmin_spec in Hmin' as [Hn Hleast].
  assert (Hrun : ∀ (i : nat) c0 c, configs !! i = Some c0 → cs !! i = Some c →
    ∃ gs sp avail, avails !! i = Some avail ∧ specs !! i = Some sp ∧ worker_run v1 n gs sp avail c0 c).
  { intros i c0 c Hi Hc. eapply Forall2_lookup_r in Hconf as ([[gs sp] avail] & Hz & Hw); [|exact Hi].
    apply lookup_zip_Some in Hz as [(Hpi & Hsi)%lookup_zip_Some Hai]. cbn [fst snd] in *.
    eapply Forall2_lookup_l in Hcs as (c' & Hc' & Hsh); [|exact Hi]. rewrite Hc in Hc'. injection Hc' as <-.
    unfold worker_config in Hw. cbn [fst snd] in Hw. apply res_bind_ok in Hw as ([] & Hlen & Hw).
    exists gs, sp, avail. split_and!; [done|done|]. split; [|done|done| |].
    - apply check_ok, bool_decide_eq_true in Hlen. exact Hlen.
    - apply Hleast, list_elem_of_fmap. exists c0. split; [done|]. by eapply list_elem_of_lookup_2.
    - intros Hne. destruct (usable_memory_lookup _ _ _ _ _ _ Hms Hpi Hai Hne) as (bpb & Hb & Hmi).
      destruct (Hcheck (gs, avail - bpb)) as (_ & need & Hneed & Hle); [|done|by exists bpb, need].
      eapply list_elem_of_lookup_2. apply lookup_zip_Some. split; [exact Hpi|exact Hmi]. }
  split.
  - apply list_elem_of_fmap in Hn as (c0 & -> & [j Hj]%list_elem_of_lookup).
    pose proof Hcs as Hcs'. eapply Forall2_lookup_l in Hcs' as (c & Hc & _); [|exact Hj].
    destruct (Hrun j c0 c Hj Hc) as (gs & sp & avail & _ & _ & Hr). by exists j, gs, sp, avail, c0, c.
  - intros i c Hc. pose proof Hcs as Hcs'. eapply Forall2_lookup_r in Hcs' as (c0 & Hi & _); [|exact Hc].
    destruct (Hrun i c0 c Hi Hc) as (gs & sp & avail & Ha & Hs & Hr). by exists gs, sp, avail, c0.
Qed.
End configs.

(** Blocks that a longest request needs in all groups. *)
Definition request_blocks {L : KvLib} (v : VllmConfig) (gs : list KVCacheGroupSpec) : res Z :=
  ns ← map_res (group_pages v) gs; Ok (zsum ns).

Section facts.
Context {L : KvLib}.

Lemma need_of_blocks v gs bpb need P :
  _pool_bytes_per_block gs = Ok bpb → _max_memory_usage_bytes_from_groups v gs = Ok need → gs ≠ [] →
  request_blocks v gs = Ok P → need = bpb * P.
Proof.
  intros Hb Hn Hne HP. destruct gs as [|g gs]; [done|]. unfold _max_memory_usage_bytes_from_groups in Hn. rewrite Hb in Hn.
  cbn [mbind res_bind] in Hn. unfold request_blocks in HP. apply res_bind_ok in HP as (ns & Hns & HP). rewrite Hns in Hn.
  injection Hn as <-. by injection HP as <-.
Qed.

(** What one worker ends with. *)
Lemma worker_run_result layout v n gs sp avail c0 c :
  worker_run layout v n gs sp avail c0 c → num_gpu_blocks_override v = None →
  num_blocks c = n ∧ kv_cache_groups c = gs ∧ kv_cache_groups c0 = gs ∧
  (gs ≠ [] → ∃ bpb need, _pool_bytes_per_block gs = Ok bpb ∧ 0 < bpb ∧ _max_memory_usage_bytes_from_groups v gs = Ok need ∧
     need ≤ avail - bpb ∧ num_blocks c0 = avail / bpb ∧ bpb * n ≤ avail).
Proof.
  intros [_ Hc0 Hsh Hle Hch] Ho. destruct (config_blocks _ _ _ _ _ Hc0 Ho) as (Hg & Hnil & Hb).
  destruct (shrink_blocks _ _ _ _ _ Hsh Ho) as [Hg' Hn]. rewrite Hg in Hg', Hn. destruct (decide (gs = [])) as [->|Hne].
  - split_and!; [|done|done|done]. unfold shrink_config in Hsh. destruct (Z.eqb_spec (num_blocks c0) n); [by injection Hsh as <-|].
    rewrite Hg in Hsh. done.
  - split_and!; [by apply Hn|done|done|]. intros _. destruct (Hb Hne) as (bpb & Hbpb & Hpos & Hown).
    destruct (Hch Hne) as (bpb' & need & Hbpb' & Hneed & Hfit). rewrite Hbpb in Hbpb'. injection Hbpb' as <-.
    exists bpb, need. split_and!; try done. rewrite Hown in Hle. pose proof (Z.mul_div_le avail bpb Hpos). nia.
Qed.
End facts.

(** * Theorem *)

(** C23: The configurations of the workers agree and are affordable.  When
    [get_kv_cache_configs] succeeds without an override, the configuration it
    was given is unchanged, or only its model length is shortened, and that
    only when auto-fitting was asked for; and there is one number [n] of
    blocks such that every worker's configuration has [n] blocks, covers as
    many layers as the worker has, fits in its memory at [n] blocks of its
    block size, and was checked to leave room, beside the reserved block, for
    the longest request.  When the longest request needs the same number of
    blocks on every worker, [n] is enough for it and the reserved block. *)
Theorem worker_configs_agree (L : KvLib) (check_registry : odict string KVCacheSpec → res unit) (layout : KVCacheLayout)
    (specs : list (odict string KVCacheSpec)) (avails : list Z) (v v' : VllmConfig) (cs : list KVCacheConfig) :
  get_kv_cache_configs check_registry layout specs avails v = (Ok cs, v') → num_gpu_blocks_override v = None →
  (v' = v ∨ original_max_model_len v = -1 ∧ ∃ k, 0 < k < max_model_len v ∧ v' = with_max_model_len k v) ∧
  ∃ n, (∀ (i : nat) c, cs !! i = Some c →
      num_blocks c = n ∧ ∃ avail sp, avails !! i = Some avail ∧ specs !! i = Some sp ∧
        sum_list_with (λ g, length (layer_names g)) (kv_cache_groups c) = length sp ∧
        (kv_cache_groups c ≠ [] → ∃ bpb need, _pool_bytes_per_block (kv_cache_groups c) = Ok bpb ∧ bpb * n ≤ avail ∧
           _max_memory_usage_bytes_from_groups v' (kv_cache_groups c) = Ok need ∧ need + bpb ≤ avail)) ∧
    ∀ P, (∀ (i : nat) c, cs !! i = Some c → request_blocks v' (kv_cache_groups c) = Ok P) → P + 1 ≤ n.
Proof.
  intros H Ho. destruct (get_configs_run _ _ _ _ _ _ _ H Ho) as (Hstate & n & (j & gsj & spj & aj & cj0 & cj & Hj & Hcj & Hn) & Hall).
  split; [done|]. exists n.
  assert (Ho' : num_gpu_blocks_override v' = None) by (destruct Hstate as [->|(_ & k & _ & ->)]; done).
  split.
  - intros i c Hc. destruct (Hall i c Hc) as (gs & sp & avail & c0 & Ha & Hs & Hr).
    destruct (worker_run_result _ _ _ _ _ _ _ _ Hr Ho') as (Hnc & Hgc & _ & Hres). split; [done|]. exists avail, sp. rewrite Hgc.
    split_and!; [done|done|by destruct Hr|]. intros Hne. destruct (Hres Hne) as (bpb & need & ? & ? & ? & ? & ? & ?).
    exists bpb, need. split_and!; [done|done|done|lia].
  - intros P HP. specialize (HP j cj Hcj). destruct (worker_run_result _ _ _ _ _ _ _ _ Hj Ho') as (Hnc & Hgc & _ & Hres).
    rewrite Hgc in HP. destruct (decide (gsj = [])) as [->|Hne].
    + injection HP as <-. destruct Hj as [_ Hc0 _ _ _]. injection Hc0 as <-. cbn in Hn. lia.
    + destruct (Hres Hne) as (bpb & need & Hb & Hpos & Hneed & Hfit & Hown & _).
      pose proof (need_of_blocks _ _ _ _ _ Hb Hneed Hne HP) as ->. rewrite <- Hn, Hown. apply Z.div_le_lower_bound; lia.
Qed.
(** Two pipeline stages, each with a full and a sliding-window layer; the
    second has less memory. *)
Definition sample_stages : list (odict string KVCacheSpec) :=
  [[("f0", sample_full 16 2 4); ("w0", sample_window 16 2 4 8)]; [("f1", sample_full 16 2 4); ("w1", sample_window 16 2 4 8)]].
Definition sample_configs : res (list KVCacheConfig) * VllmConfig :=
  get_kv_cache_configs (λ _, Ok tt) sample_BLHNC sample_stages [10000; 6000] (sample_vllm 20).
(** A configuration in numbers: its blocks, its bytes per block, the blocks a
    longest request needs, and the layers and page 18 of its first tensor. *)
Definition report (c : KVCacheConfig) : Z * res Z * res Z * option (list string * Z) :=
  (num_blocks c, _pool_bytes_per_block (kv_cache_groups c), request_blocks (sample_vllm 20) (kv_cache_groups c),
   (λ t, (t_layers t, page_at t 0 18)) <$> head (kv_cache_tensors c)).
Definition reports (r : res (list KVCacheConfig)) : list (Z * res Z * res Z * option (list string * Z)) :=
  match r with Ok cs => report <$> cs | Err _ => [] end.
Lemma worker_configs_agree_witness :
  ∃ cs, sample_configs = (Ok cs, sample_vllm 20) ∧ (num_blocks <$> cs) = [11; 11] ∧
    ∃ n, 4 + 1 ≤ n ∧ ∀ (i : nat) c, cs !! i = Some c → num_blocks c = n.
Proof.
  assert (R : reports sample_configs.1 =
    [(11, Ok 512, Ok 4, Some (["f0"], 9216)); (11, Ok 512, Ok 4, Some (["f1"], 9216))]) by (vm_compute; reflexivity).
  destruct sample_configs as [r v'] eqn:E. cbn [fst] in R. destruct r as [cs|]; [|discriminate R]. cbn [reports] in R.
  destruct (worker_configs_agree sample_lib (λ _, Ok tt) sample_BLHNC sample_stages [10000; 6000] (sample_vllm 20) v' cs E eq_refl)
    as ([->|[H _]] & n & Hall & Hroom); [|discriminate H].
  assert (HP : ∀ (i : nat) c, cs !! i = Some c → ∃ x, report c = (11, Ok 512, Ok 4, x)).
  { intros i c Hc. apply (f_equal (λ l, l !! i)) in R. cbv beta in R. rewrite list_lookup_fmap, Hc in R.
    destruct i as [|[|i]]; [apply Some_inj in R; by eexists|apply Some_inj in R; by eexists|discriminate R]. }
  exists cs. split_and!; [done| |].
  - apply (f_equal (fmap (λ x, x.1.1.1))) in R. rewrite <- list_fmap_compose in R. exact R.
  - exists n. split.
    + apply Hroom. intros i c Hc. destruct (HP i c Hc) as [x Hx]. by injection Hx.
    + intros i c Hc. apply (Hall i c Hc).
Defined.

(** Projection does not always leave "only this worker's layers": a group of
    several specifications none of whose layers are the worker's keeps its
    whole dictionary.  The second worker below has no layer [a], whose page
    has 512 bytes, and 256 bytes per block: its first tensor is that of [a],
    and page 18 of it ends beyond the 19 blocks of its allocation. *)
Example projection_keeps_foreign_layers :
  let stages := [[("a", sample_full 16 2 4)]; [("b", sample_window 16 1 4 8)]] in
  reports (get_kv_cache_configs (λ _, Ok tt) sample_BLHNC stages [10000; 10000] (sample_vllm 20)).1 =
    [(19, Ok 512, Ok 4, Some (["a"], 9216)); (19, Ok 256, Ok 4, Some (["a"], 4608))] ∧
  page_size_bytes (sample_full 16 2 4) = Ok 512 ∧ 256 * 19 < 4608 + 512.
Proof. split_and!; vm_compute; reflexivity. Qed.
