(* ===== verification/KvCoordinator.v ===== *)
(** The cache coordinators of
    src/runtime/vllm029/overlay/vllm/v1/core/kv_cache_coordinator.py: they
    spread every cache operation over the managers of the groups, and find the
    longest prefix that all groups can serve.  The block pool and the managers
    belong to the vLLM package: they are the class [KvManagers], whose state
    is threaded through every operation that changes it. *)
From S2P Require Import Prelude PyDict KvBlocks KvSpec KvLayout KvGroups KvConfig.
From stdpp Require Import base list list_numbers gmap sets strings.
From Stdlib Require Import ZArith Lia.
#[local] Open Scope string_scope.
#[local] Open Scope list_scope.
#[local] Open Scope Z_scope.

(** * The managers *)

(** What the coordinator calls: facts of a manager class, and the operations
    of manager [i], with the block pool and the managers' tables as [Pool];
    [Blk] is a block, [Req] a request, [rid] a request's name. *)
Class KvManagers (L : KvLib) := mkManagers {
  Pool : Type;
  Blk : Type;
  Req : Type;
  ManagerClass : Type;
  manager_class_eq_dec :: EqDecision ManagerClass;
  round_down : Z → Z → Z;
  manager_class : GroupSpec → ManagerClass;
  is_cross_attention_manager : ManagerClass → bool;
  supports_fine_grained_hash_lookup : ManagerClass → bool;
  manager_block_size : GroupSpec → Z → Z → Z;
  mgr_find_longest_cache_hit :
    ManagerClass → Pool → list BlockHash → Z → list nat → GroupSpec → bool → Z → Z → Z → res (list (list Blk) * Z);
  mgr_get_num_blocks_to_allocate : nat → string → Z → list Blk → Z → Z → Z → bool → M Pool Z;
  mgr_num_cached_block : nat → string → Pool → bool;
  mgr_add_local_computed_blocks : nat → string → list Blk → Z → Z → M Pool unit;
  mgr_allocate_external_computed_blocks : nat → string → Z → Z → M Pool unit;
  mgr_allocate_new_blocks : nat → string → Z → Z → M Pool (list Blk);
  mgr_cache_blocks : nat → Req → Z → option Z → M Pool unit;
  mgr_free : nat → string → M Pool unit;
  mgr_pop_blocks_for_free : nat → string → M Pool (list Blk);
  mgr_get_num_common_prefix_blocks : nat → string → M Pool Z;
  mgr_remove_skipped_blocks : nat → string → Z → option Z → M Pool unit;
  mgr_req_to_blocks : nat → string → Pool → option (list Blk);
  mgr_new_step_starts : nat → M Pool unit }.

Section coordinator.
Context {L : KvLib} {K : KvManagers L}.

(** [isinstance] on a group's specification. *)
Definition g_layer_is (f : KVCacheSpec → bool) (g : GroupSpec) : bool := match g with GLayer s => f s | GUniform _ _ => false end.
(** [x % m == 0], which may divide by zero. *)
Definition multiple_res (x m : Z) : res bool := if m =? 0 then Err ZeroDivisionError else Ok (x mod m =? 0).

(** * Construction *)

Definition _validate_prefix_cache_retention_interval (retention_interval : option Z) (scheduler_block_size : Z) (c : KVCacheConfig) : res unit :=
  match retention_interval with
  | None => Ok tt
  | Some n =>
    if negb (existsb (λ g, g_layer_is is_sliding_window (kv_cache_spec g) || g_layer_is is_mamba (kv_cache_spec g)) (kv_cache_groups c)) then
      if n =? 0 then Ok tt else Err ValueError
    else if n <? 0 then Err ValueError
    else m ← multiple_res n scheduler_block_size; if m : bool then Ok tt else Err ValueError
  end.

(** What [SpecGroup] holds. *)
Record SpecGroup := mkSpecGroup { sg_spec : GroupSpec; group_ids : list nat; manager_cls : ManagerClass; sg_use_eagle : bool }.

(** The attributes of a coordinator that its methods read; [manager_use_eagle]
    are the managers' flags, [manager_dcp] and [manager_bs] their degrees and
    block sizes. *)
Record Coordinator := mkCoordinator {
  co_config : KVCacheConfig;
  co_enable_caching : bool;
  co_scheduler_block_size : Z;
  co_hash_block_size : Z;
  num_reprefillable_tokens : Z;
  eagle_group_ids : list nat;
  retention_interval : option Z;
  co_dcp : Z; co_pcp : Z;
  manager_dcp : list Z;
  manager_bs : list Z;
  manager_use_eagle : list bool;
  enable_partial_hash_hits : bool;
  attention_groups : list SpecGroup;
  full_attention_group_id : option nat }.

Definition num_managers (c : Coordinator) : nat := length (kv_cache_groups (co_config c)).
Definition group_spec_at (c : Coordinator) (i : nat) : GroupSpec :=
  match kv_cache_groups (co_config c) !! i with Some g => kv_cache_spec g | None => GUniform 0 [] end.

(** [KVCacheCoordinator.__init__] *)
Definition base_init (config : KVCacheConfig) (use_eagle enable_caching : bool) (dcp_world_size pcp_world_size : Z)
    (scheduler_block_size hash_block_size num_prefill_lookahead : Z) : res Coordinator :=
  let gs := kv_cache_groups config in
  aligned ← (b ← multiple_res scheduler_block_size hash_block_size;
             if b : bool then all_res (λ g, multiple_res scheduler_block_size (g_block_size (kv_cache_spec g))) gs else Ok false);
  check aligned;;
  let flagged := omap (λ x : nat * KVCacheGroupSpec, if is_eagle_group x.2 then Some x.1 else None) (imap pair gs) in
  let eagle := if use_eagle && bool_decide (flagged = []) then seq 0 (length gs) else flagged in
  if enable_caching && negb (bool_decide (eagle = [])) && (scheduler_block_size <? num_prefill_lookahead) then Err ValueError else
  dcps ← map_res (λ g, dcp_world_size_for_kv_cache_spec (kv_cache_spec g) dcp_world_size) gs;
  _validate_prefix_cache_retention_interval (c_prefix_cache_retention_interval config) scheduler_block_size config;;
  Ok (mkCoordinator config enable_caching scheduler_block_size hash_block_size (Z.max 0 (num_prefill_lookahead - 1)) eagle
        (c_prefix_cache_retention_interval config) dcp_world_size pcp_world_size dcps
        (zip_with (λ g d, manager_block_size (kv_cache_spec g) d pcp_world_size) gs dcps)
        ((λ _, false) <$> gs) false [] None).

(** [UnitaryKVCacheCoordinator.__init__] *)
Definition unitary_init (config : KVCacheConfig) (use_eagle enable_caching : bool) (dcp_world_size pcp_world_size : Z)
    (scheduler_block_size hash_block_size num_prefill_lookahead : Z) : res Coordinator :=
  c ← base_init config use_eagle enable_caching dcp_world_size pcp_world_size scheduler_block_size hash_block_size num_prefill_lookahead;
  bs ← res_of_option IndexError (manager_bs c !! 0%nat);
  check (negb enable_caching || (hash_block_size =? bs));;
  check (bool_decide (length (kv_cache_groups config) = 1%nat));;
  Ok (mkCoordinator (co_config c) (co_enable_caching c) (co_scheduler_block_size c) (co_hash_block_size c) (num_reprefillable_tokens c)
        (eagle_group_ids c) (retention_interval c) (co_dcp c) (co_pcp c) (manager_dcp c) (manager_bs c)
        [bool_decide (0%nat ∈ eagle_group_ids c)] false [] None).

(** One cacheable group of [verify_and_split_kv_cache_groups]. *)
Fixpoint add_spec_group (spec : GroupSpec) (i : nat) (cls : ManagerClass) (use_eagle : bool) (groups : list SpecGroup) : res (list SpecGroup) :=
  match groups with
  | [] => Ok [mkSpecGroup spec [i] cls use_eagle]
  | g :: groups =>
    if decide (sg_spec g = spec) then
      check (bool_decide (cls = manager_cls g));;
      Ok (mkSpecGroup (sg_spec g) (group_ids g ++ [i]) (manager_cls g) (sg_use_eagle g || use_eagle) :: groups)
    else rest ← add_spec_group spec i cls use_eagle groups; Ok (g :: rest)
  end.
Fixpoint split_groups (eagle : list nat) (i : nat) (gs : list KVCacheGroupSpec) (groups : list SpecGroup) : res (list SpecGroup) :=
  match gs with
  | [] => Ok groups
  | g :: gs =>
    if negb (g_prefix_cacheable (kv_cache_spec g)) then split_groups eagle (S i) gs groups
    else groups ← add_spec_group (kv_cache_spec g) i (manager_class (kv_cache_spec g)) (bool_decide (i ∈ eagle)) groups;
         split_groups eagle (S i) gs groups
  end.
Definition sg_full (g : SpecGroup) : bool := g_layer_is is_full_attention (sg_spec g).
Definition sg_mamba (g : SpecGroup) : bool := g_layer_is is_mamba (sg_spec g).
(** [self.attention_groups.sort(key=...)], which is stable. *)
Definition full_first (groups : list SpecGroup) : list SpecGroup :=
  filter (λ g, sg_full g) groups ++ filter (λ g, negb (sg_full g)) groups.
Definition verify_and_split_kv_cache_groups (eagle : list nat) (config : KVCacheConfig) : res (list SpecGroup) :=
  groups ← split_groups eagle 0 (kv_cache_groups config) [];
  check (negb (bool_decide (groups = [])));;
  Ok (full_first groups).

Definition mamba_partial (dcp_world_size hash_block_size : Z) (g : GroupSpec) : bool :=
  g_layer_is (mamba_mode_is id) g &&
  (((dcp_world_size =? 1) && (hash_block_size <? g_block_size g)) || ((1 <? dcp_world_size) && (hash_block_size <=? g_block_size g))).

(** [HybridKVCacheCoordinator.__init__] *)
Definition hybrid_init (config : KVCacheConfig) (use_eagle enable_caching : bool) (dcp_world_size pcp_world_size : Z)
    (scheduler_block_size hash_block_size num_prefill_lookahead : Z) : res Coordinator :=
  c ← base_init config use_eagle enable_caching dcp_world_size pcp_world_size scheduler_block_size hash_block_size num_prefill_lookahead;
  let gs := kv_cache_groups config in
  let cacheable := filter (λ x : KVCacheGroupSpec * Z, g_prefix_cacheable (kv_cache_spec x.1)) (zip gs (manager_bs c)) in
  fits ← all_res (λ x, multiple_res x.2 hash_block_size) cacheable;
  check fits;;
  check (pcp_world_size =? 1);;
  check (negb (1 <? dcp_world_size) ||
         forallb (λ g, g_layer_is (λ s, is_full_attention s || is_mamba s || is_sliding_window s) (kv_cache_spec g)) gs);;
  let partial := existsb (λ g, mamba_partial dcp_world_size hash_block_size (kv_cache_spec g)) gs in
  let unsupported := existsb (λ x : KVCacheGroupSpec * Z,
        negb (supports_fine_grained_hash_lookup (manager_class (kv_cache_spec x.1))) && negb (x.2 =? hash_block_size)) cacheable in
  groups ← verify_and_split_kv_cache_groups (eagle_group_ids c) config;
  let flags := imap (λ i _, existsb (λ g, sg_use_eagle g && bool_decide (i ∈ group_ids g)) groups) gs in
  Ok (mkCoordinator (co_config c) (co_enable_caching c) (co_scheduler_block_size c) (co_hash_block_size c) (num_reprefillable_tokens c)
        (eagle_group_ids c) (retention_interval c) (co_dcp c) (co_pcp c) (manager_dcp c) (manager_bs c)
        flags (partial && negb unsupported) groups
        (match groups with g :: _ => if sg_full g then head (group_ids g) else None | [] => None end)).

(** Which coordinator a configuration gets. *)
Inductive CoordinatorKind := NoPrefixCache | Unitary | Hybrid.
Definition get_kv_cache_coordinator (config : KVCacheConfig) (use_eagle enable_caching : bool) (dcp_world_size pcp_world_size : Z)
    (scheduler_block_size hash_block_size num_prefill_lookahead : Z) : res (CoordinatorKind * Coordinator) :=
  if negb enable_caching then
    c ← base_init config use_eagle false dcp_world_size pcp_world_size scheduler_block_size hash_block_size num_prefill_lookahead;
    Ok (NoPrefixCache, c)
  else if bool_decide (length (kv_cache_groups config) = 1%nat) then
    c ← unitary_init config use_eagle enable_caching dcp_world_size pcp_world_size scheduler_block_size hash_block_size num_prefill_lookahead;
    Ok (Unitary, c)
  else
    c ← hybrid_init config use_eagle enable_caching dcp_world_size pcp_world_size scheduler_block_size hash_block_size num_prefill_lookahead;
    Ok (Hybrid, c).

(** * Operations on every manager *)

(** [for i, manager in enumerate(self.single_type_managers)] *)
Definition each_manager (c : Coordinator) (f : nat → M Pool unit) : M Pool unit := for_each (seq 0 (num_managers c)) f.
Definition manager_is_cross (c : Coordinator) (i : nat) : bool := is_cross_attention_manager (manager_class (group_spec_at c i)).
(** [new_computed_blocks[i]] *)
Definition blocks_of (new_computed_blocks : list (list Blk)) (i : nat) : M Pool (list Blk) :=
  lift (res_of_option IndexError (new_computed_blocks !! i)).

Definition get_num_blocks_to_allocate (c : Coordinator) (request_id : string) (num_tokens : Z) (new_computed_blocks : list (list Blk))
    (num_encoder_tokens total_computed_tokens num_local_computed_tokens num_tokens_main_model : Z) (apply_admission_cap : bool) : M Pool Z :=
  ns ← map_m (λ i,
         if manager_is_cross c i then
           mgr_get_num_blocks_to_allocate i request_id num_encoder_tokens [] 0 0 num_encoder_tokens apply_admission_cap
         else
           blocks ← blocks_of new_computed_blocks i;
           mgr_get_num_blocks_to_allocate i request_id num_tokens blocks total_computed_tokens num_local_computed_tokens
             num_tokens_main_model apply_admission_cap) (seq 0 (num_managers c));
  mret (zsum ns).

Definition allocate_new_computed_blocks (c : Coordinator) (request_id : string) (new_computed_blocks : list (list Blk))
    (num_local_computed_tokens num_external_computed_tokens : Z) : M Pool unit :=
  running ← gets (λ p, existsb (λ i, mgr_num_cached_block i request_id p) (seq 0 (num_managers c)));
  if running : bool then assert_ (forallb (λ bs : list Blk, bool_decide (length bs = 0%nat)) new_computed_blocks) else
  each_manager c (λ i,
    blocks ← blocks_of new_computed_blocks i;
    mgr_add_local_computed_blocks i request_id blocks num_local_computed_tokens num_external_computed_tokens);;
  if 0 <? num_external_computed_tokens then
    each_manager c (λ i, mgr_allocate_external_computed_blocks i request_id num_local_computed_tokens num_external_computed_tokens)
  else mret tt.

Definition allocate_new_blocks (c : Coordinator) (request_id : string) (num_tokens num_tokens_main_model num_encoder_tokens : Z) :
    M Pool (list (list Blk)) :=
  map_m (λ i, mgr_allocate_new_blocks i request_id (if manager_is_cross c i then num_encoder_tokens else num_tokens) num_tokens_main_model)
    (seq 0 (num_managers c)).

(** [KVCacheCoordinator.cache_blocks] *)
Definition cache_blocks (c : Coordinator) (request : Req) (num_computed_tokens : Z) : M Pool unit :=
  each_manager c (λ i, mgr_cache_blocks i request (Z.max 0 (num_computed_tokens - num_reprefillable_tokens c)) (retention_interval c)).

Definition free (c : Coordinator) (request_id : string) : M Pool unit := each_manager c (λ i, mgr_free i request_id).
Definition pop_blocks_for_free (c : Coordinator) (request_id : string) : M Pool (list Blk) :=
  bs ← map_m (λ i, mgr_pop_blocks_for_free i request_id) (seq 0 (num_managers c)); mret (concat bs).
Definition get_num_common_prefix_blocks (kind : CoordinatorKind) (c : Coordinator) (running_request_id : string) : M Pool (list Z) :=
  match kind with
  | NoPrefixCache => mret (replicate (num_managers c) 0)
  | _ => map_m (λ i, mgr_get_num_common_prefix_blocks i running_request_id) (seq 0 (num_managers c))
  end.
Definition remove_skipped_blocks (c : Coordinator) (request_id : string) (processed_computed_tokens : Z) (num_prompt_tokens : option Z) : M Pool unit :=
  each_manager c (λ i, mgr_remove_skipped_blocks i request_id processed_computed_tokens num_prompt_tokens).
Definition get_blocks (c : Coordinator) (request_id : string) (p : Pool) : list (list Blk) :=
  (λ i, default [] (mgr_req_to_blocks i request_id p)) <$> seq 0 (num_managers c).
Definition new_step_starts (c : Coordinator) : M Pool unit := each_manager c mgr_new_step_starts.

(** ** Caching in a hybrid model *)

Definition _cache_hit_alignment_tokens (c : Coordinator) : Z :=
  if enable_partial_hash_hits c then co_hash_block_size c else co_scheduler_block_size c.
Definition _align_cacheable (c : Coordinator) (num_tokens : Z) : Z :=
  if enable_partial_hash_hits c then num_tokens else round_down num_tokens (co_scheduler_block_size c).

(** The tokens manager [i] is told to cache. *)
Definition num_tokens_to_cache (c : Coordinator) (i : nat) (num_computed_tokens : Z) : Z :=
  let cached_num_computed_tokens := _align_cacheable c num_computed_tokens in
  if default false (manager_use_eagle c !! i) && (0 <? cached_num_computed_tokens) then
    let num_finalized_computed_tokens := Z.max 0 (num_computed_tokens - num_reprefillable_tokens c) in
    Z.min num_finalized_computed_tokens (_align_cacheable c num_finalized_computed_tokens + default 0 (manager_bs c !! i))
  else cached_num_computed_tokens.
Definition hybrid_cache_blocks (c : Coordinator) (request : Req) (num_computed_tokens : Z) : M Pool unit :=
  each_manager c (λ i, mgr_cache_blocks i request (num_tokens_to_cache c i num_computed_tokens) (retention_interval c)).

(** * The longest cache hit *)

Definition nopc_find_longest_cache_hit (c : Coordinator) : list (list Blk) * Z * Z := (replicate (num_managers c) [], 0, 0).

Definition unitary_find_longest_cache_hit (c : Coordinator) (p : Pool) (block_hashes : list BlockHash) (max_cache_hit_length : Z) :
    res (list (list Blk) * Z * Z) :=
  let spec := group_spec_at c 0 in
  let bs := default 0 (manager_bs c !! 0%nat) in
  x ← mgr_find_longest_cache_hit (manager_class spec) p block_hashes max_cache_hit_length [0%nat] spec
        (bool_decide (0%nat ∈ eagle_group_ids c)) bs (default 0 (manager_dcp c !! 0%nat)) (co_pcp c);
  Ok (x.1, x.2, 0).

(** The lookup of one spec group. *)
Definition sg_block_size (c : Coordinator) (g : SpecGroup) : Z := default 0 (manager_bs c !! default 0%nat (head (group_ids g))).
Definition sg_find (c : Coordinator) (p : Pool) (block_hashes : list BlockHash) (g : SpecGroup) (drop : bool) (max_length : Z) :
    res (list (list Blk) * Z) :=
  mgr_find_longest_cache_hit (manager_cls g) p block_hashes max_length (group_ids g) (sg_spec g) drop (_cache_hit_alignment_tokens c)
    (default 0 (manager_dcp c !! default 0%nat (head (group_ids g)))) (co_pcp c).
(** [eagle_margin] *)
Definition eagle_margin (c : Coordinator) (g : SpecGroup) : Z :=
  if enable_partial_hash_hits c && supports_fine_grained_hash_lookup (manager_cls g) && (co_hash_block_size c <? sg_block_size c g)
  then co_hash_block_size c else sg_block_size c g.

(** The local variables of [find_longest_cache_hit] that a pass changes. *)
Record HitState := mkHit {
  hit_blocks_by_group : list (option (list Blk));
  hit_length_by_group : list Z;
  eagle_verified : list nat;
  longest_hit_length : Z;
  curr_hit_length : Z }.

(** [for group_id, blocks in zip(group_ids, hit_blocks): ...] *)
Fixpoint record_hits (ids : list nat) (blocks : list (list Blk)) (n : Z) (bg : list (option (list Blk))) (lg : list Z) :
    list (option (list Blk)) * list Z :=
  match ids, blocks with
  | i :: ids, b :: blocks => record_hits ids blocks n (<[i := Some b]> bg) (<[i := n]> lg)
  | _, _ => (bg, lg)
  end.

(** The lookup of group number [idx] in a pass, and its effect. *)
Definition lookup_group (c : Coordinator) (p : Pool) (block_hashes : list BlockHash) (max_cache_hit_length : Z) (idx : nat) (g : SpecGroup)
    (st : HitState) : res HitState :=
  let curr := curr_hit_length st in
  let drop_eagle_block := sg_use_eagle g && negb (bool_decide (idx ∈ eagle_verified st)) in
  let max_length := if drop_eagle_block && negb (sg_mamba g) then Z.min (curr + eagle_margin c g) max_cache_hit_length else curr in
  x ← sg_find c p block_hashes g drop_eagle_block max_length;
  let '(hit_blocks, new_hit_length) := x in
  let verified := if drop_eagle_block then idx :: eagle_verified st
                  else if new_hit_length <? curr then [] else eagle_verified st in
  let '(bg, lg) := record_hits (group_ids g) hit_blocks new_hit_length (hit_blocks_by_group st) (hit_length_by_group st) in
  Ok (mkHit bg lg verified (Z.max (longest_hit_length st) new_hit_length) new_hit_length).
(** One group of a pass: full attention is looked up once and trimmed after. *)
Definition hit_group (c : Coordinator) (p : Pool) (block_hashes : list BlockHash) (max_cache_hit_length : Z) (idx : nat) (g : SpecGroup)
    (st : HitState) : res HitState :=
  let first_group_id := default 0%nat (head (group_ids g)) in
  if sg_full g && bool_decide (is_Some (default None (hit_blocks_by_group st !! first_group_id))) then
    Ok (mkHit (hit_blocks_by_group st) (hit_length_by_group st) (eagle_verified st) (longest_hit_length st)
          (Z.min (curr_hit_length st) (default 0 (hit_length_by_group st !! first_group_id))))
  else lookup_group c p block_hashes max_cache_hit_length idx g st.
(** One pass over the spec groups, from number [idx] on. *)
Fixpoint hit_pass (c : Coordinator) (p : Pool) (block_hashes : list BlockHash) (max_cache_hit_length : Z) (idx : nat) (gs : list SpecGroup)
    (st : HitState) : res HitState :=
  match gs with
  | [] => Ok st
  | g :: gs =>
    st ← hit_group c p block_hashes max_cache_hit_length idx g st;
    hit_pass c p block_hashes max_cache_hit_length (S idx) gs st
  end.
Definition is_simple_hybrid (c : Coordinator) : bool :=
  match attention_groups c with [g; _] => sg_full g | _ => false end.
(** [while True: ...]; the candidate length is [curr_hit_length] of [st]. *)
Fixpoint hit_loop (fuel : nat) (c : Coordinator) (p : Pool) (block_hashes : list BlockHash) (max_cache_hit_length : Z) (st : HitState) : res HitState :=
  match fuel with
  | O => Err OutOfFuel
  | S fuel =>
    let hit_length := curr_hit_length st in
    st ← hit_pass c p block_hashes max_cache_hit_length 0 (attention_groups c) st;
    if hit_length <=? curr_hit_length st then
      Ok (mkHit (hit_blocks_by_group st) (hit_length_by_group st) (eagle_verified st) (longest_hit_length st) hit_length)
    else if is_simple_hybrid c then Ok st
    else hit_loop fuel c p block_hashes max_cache_hit_length st
  end.

(** [del blks[n:]] *)
Definition del_from {A} (n : Z) (l : list A) : list A :=
  take (Z.to_nat (if n <? 0 then Z.max 0 (Z.of_nat (length l) + n) else n)) l.
(** The truncation of one group. *)
Definition truncate_group (hit_length num_blocks : Z) (st : list (option (list Blk)) * list Z) (i : nat) : list (option (list Blk)) * list Z :=
  match default None (st.1 !! i) with
  | Some blks => (<[i := Some (del_from num_blocks blks)]> st.1, <[i := hit_length]> st.2)
  | None => st
  end.
Definition truncate_full (c : Coordinator) (hit_length : Z) (st : list (option (list Blk)) * list Z) : list (option (list Blk)) * list Z :=
  foldl (λ st g, if sg_full g then foldl (truncate_group hit_length (cdiv hit_length (sg_block_size c g))) st (group_ids g) else st)
    st (attention_groups c).

(** The blocks and lengths of every group, the combined length, and the
    longest prefix of one group. *)
Definition hybrid_search (c : Coordinator) (p : Pool) (block_hashes : list BlockHash) (max_cache_hit_length : Z) : res HitState :=
  let n := num_managers c in
  st ← hit_loop (S (Z.to_nat max_cache_hit_length)) c p block_hashes max_cache_hit_length
         (mkHit (replicate n None) (replicate n 0) [] 0 max_cache_hit_length);
  let t := truncate_full c (curr_hit_length st) (hit_blocks_by_group st, hit_length_by_group st) in
  Ok (mkHit t.1 t.2 (eagle_verified st) (longest_hit_length st) (curr_hit_length st)).
(** [HybridKVCacheCoordinator.find_longest_cache_hit] *)
Definition find_longest_cache_hit (c : Coordinator) (p : Pool) (block_hashes : list BlockHash) (max_cache_hit_length : Z) :
    res (list (list Blk) * Z * Z) :=
  st ← hybrid_search c p block_hashes max_cache_hit_length;
  Ok (default [] <$> hit_blocks_by_group st, curr_hit_length st, longest_hit_length st - curr_hit_length st).

(** [HybridKVCacheCoordinator.find_longest_cache_hit_per_group] *)
Fixpoint per_group (c : Coordinator) (p : Pool) (block_hashes : list BlockHash) (max_cache_hit_length : Z) (gs : list SpecGroup)
    (bg : list (option (list Blk))) (lg : list Z) : res (list (option (list Blk)) * list Z) :=
  match gs with
  | [] => Ok (bg, lg)
  | g :: gs =>
    x ← sg_find c p block_hashes g (sg_use_eagle g) max_cache_hit_length;
    let t := record_hits (group_ids g) x.1 x.2 bg lg in
    per_group c p block_hashes max_cache_hit_length gs t.1 t.2
  end.
Definition find_longest_cache_hit_per_group (c : Coordinator) (p : Pool) (block_hashes : list BlockHash) (max_cache_hit_length : Z) :
    res (list (list Blk) * list Z) :=
  let n := num_managers c in
  match per_group c p block_hashes max_cache_hit_length (attention_groups c) (replicate n (Some [])) (replicate n 0) with
  | Ok (bg, lg) => Ok ((λ b, default [] b) <$> bg, lg)
  | Err e => Err e
  end.
End coordinator.
