(* ===== verification/KvCoordinatorProps.v ===== *)
(** Theorems about the cache coordinators: the spec groups of a hybrid
    coordinator partition the cacheable groups, the search for the longest
    common prefix ends with the greatest length that every group can serve,
    and what the look-ahead bookkeeping of that search misses. *)
From S2P Require Import Prelude PyDict KvBlocks KvSpec KvSpecProps KvLayout KvGroups KvConfig KvCoordinator.
From stdpp Require Import base list list_numbers gmap sets strings.
From Stdlib Require Import ZArith Lia.
#[local] Open Scope string_scope.
#[local] Open Scope list_scope.
#[local] Open Scope Z_scope.

Section groups.
Context {L : KvLib} {K : KvManagers L}.

(** * The spec groups of a hybrid coordinator *)

Definition all_ids (groups : list SpecGroup) : list nat := concat (group_ids <$> groups).
Lemma elem_of_all_ids i groups : i ∈ all_ids groups ↔ ∃ g, g ∈ groups ∧ i ∈ group_ids g.
Proof.
  unfold all_ids. induction groups as [|g groups IH]; cbn; [by split; [intros ?%elem_of_nil|intros (?&?%elem_of_nil&_)]|].
  rewrite elem_of_app, IH. setoid_rewrite elem_of_cons. naive_solver.
Qed.
(** Every cache group belongs to one spec group at most, and no spec group is empty. *)
Definition wf_groups (n : nat) (groups : list SpecGroup) : Prop :=
  NoDup (all_ids groups) ∧ Forall (λ g, group_ids g ≠ []) groups ∧ Forall (λ i, (i < n)%nat) (all_ids groups).

Lemma add_spec_group_ids spec i cls e groups groups' :
  add_spec_group spec i cls e groups = Ok groups' →
  all_ids groups' ≡ₚ i :: all_ids groups ∧ (Forall (λ g, group_ids g ≠ []) groups → Forall (λ g, group_ids g ≠ []) groups').
Proof.
  revert groups'. induction groups as [|g groups IH]; intros groups'; cbn [add_spec_group].
  { intros [= <-]. split; [done|]. intros _. by repeat constructor. }
  destruct (decide (sg_spec g = spec)) as [E|E].
  - intros H. apply res_bind_ok in H as ([]&Hc&H). injection H as <-. unfold all_ids. cbn. split.
    + rewrite <- app_assoc. symmetry. apply Permutation_middle.
    + intros [Hg Hs]%Forall_cons. constructor; [|done]. cbn. by destruct (group_ids g).
  - intros H. apply res_bind_ok in H as (rest&Hr&H). injection H as <-.
    destruct (IH _ Hr) as [Hp Hf]. split.
    + unfold all_ids in *. cbn. rewrite Hp. by rewrite Permutation_middle.
    + intros [Hg Hs]%Forall_cons. constructor; auto.
Qed.

Lemma split_groups_wf eagle gs i groups groups' :
  split_groups eagle i gs groups = Ok groups' → wf_groups i groups → wf_groups (i + length gs) groups'.
Proof.
  revert i groups. induction gs as [|g gs IH]; intros i groups; cbn [split_groups length].
  { intros [= <-]. by rewrite Nat.add_0_r. }
  intros H (Hnd&Hne&Hlt). replace (i + S (length gs))%nat with (S i + length gs)%nat by lia.
  destruct (g_prefix_cacheable (kv_cache_spec g)); cbn in H.
  - apply res_bind_ok in H as (groups1&H1&H). destruct (add_spec_group_ids _ _ _ _ _ _ H1) as [Hp Hf].
    apply (IH _ _ H). split_and!; [|by auto|].
    + rewrite Hp. constructor; [|done]. intros Hi. rewrite Forall_forall in Hlt. specialize (Hlt _ Hi). lia.
    + rewrite Hp. constructor; [lia|]. eapply Forall_impl; [exact Hlt|]. cbn. lia.
  - apply (IH _ _ H). split_and!; [done..|]. eapply Forall_impl; [exact Hlt|]. cbn. lia.
Qed.

Lemma full_first_perm groups : full_first groups ≡ₚ groups.
Proof.
  unfold full_first. induction groups as [|g groups IH]; [done|].
  rewrite !filter_cons. destruct (decide _) as [E|E], (decide _) as [E'|E']; cbn.
  - by destruct (sg_full g).
  - by rewrite IH.
  - rewrite <- Permutation_middle. by rewrite IH.
  - destruct (sg_full g); done.
Qed.
Lemma wf_groups_perm n groups groups' : groups ≡ₚ groups' → wf_groups n groups → wf_groups n groups'.
Proof.
  intros Hp (H1&H2&H3). assert (Hi : all_ids groups ≡ₚ all_ids groups').
  { clear H1 H2 H3. unfold all_ids. induction Hp as [| |g h l|? ? ? _ IH1 _ IH2]; cbn;
      [done|by apply Permutation_app_head|apply Permutation_app_swap_app|by rewrite IH1]. }
  unfold wf_groups. by rewrite <- Hi, <- Hp.
Qed.

Lemma hybrid_init_groups config e ec d pc s h n c :
  hybrid_init config e ec d pc s h n = Ok c →
  wf_groups (num_managers c) (attention_groups c) ∧ attention_groups c ≠ [] ∧
  (∃ fulls others, attention_groups c = fulls ++ others ∧ Forall (λ g, sg_full g = true) fulls ∧ Forall (λ g, sg_full g = false) others).
Proof.
  unfold hybrid_init. intros H. apply res_bind_ok in H as (c0&H0&H). apply res_bind_ok in H as (fits&Hf&H).
  apply res_bind_ok in H as ([]&_&H). apply res_bind_ok in H as ([]&_&H). apply res_bind_ok in H as ([]&_&H).
  apply res_bind_ok in H as (groups&Hg&H). injection H as <-. cbn.
  assert (Hc : co_config c0 = config).
  { unfold base_init in H0. apply res_bind_ok in H0 as (?&_&H0). apply res_bind_ok in H0 as ([]&_&H0).
    case_match; [done|]. apply res_bind_ok in H0 as (?&_&H0). apply res_bind_ok in H0 as ([]&_&H0). by injection H0 as <-. }
  unfold num_managers. cbn. rewrite Hc.
  unfold verify_and_split_kv_cache_groups in Hg. apply res_bind_ok in Hg as (gs&Hg&H). apply res_bind_ok in H as ([]&Hne%check_ok&H).
  injection H as <-. split_and!.
  - eapply wf_groups_perm; [symmetry; apply full_first_perm|].
    apply (split_groups_wf _ _ _ _ _ Hg). by repeat constructor.
  - intros E. apply negb_true_iff, bool_decide_eq_false in Hne. apply Hne. apply Permutation_nil_r. rewrite <- E. by rewrite full_first_perm.
  - eexists _, _. split; [done|]. split; apply Forall_forall; intros g [Hgf _]%list_elem_of_filter; [by destruct (sg_full g)|].
    by destruct (sg_full g).
Qed.

(** ** What a lookup records *)

Lemma record_hits_spec ids blocks n bg lg bg' lg' :
  record_hits ids blocks n bg lg = (bg', lg') → NoDup ids → length blocks = length ids →
  Forall (λ i, (i < length bg)%nat ∧ (i < length lg)%nat) ids →
  (∀ k i, ids !! k = Some i → bg' !! i = Some (blocks !! k) ∧ lg' !! i = Some n) ∧
  (∀ i, i ∉ ids → bg' !! i = bg !! i ∧ lg' !! i = lg !! i) ∧ length bg' = length bg ∧ length lg' = length lg.
Proof.
  revert blocks bg lg. induction ids as [|i ids IH]; intros [|b blocks] bg lg; try done; cbn [record_hits].
  { intros [= <- <-] _ _ _. split_and!; naive_solver. }
  intros H [Hi Hnd]%NoDup_cons [= Hlen] [Hib Hids]%Forall_cons.
  destruct (IH _ _ _ H Hnd Hlen) as (H1&H2&H3&H4).
  { eapply Forall_impl; [exact Hids|]. intros j. by rewrite !length_insert. }
  rewrite !length_insert in *. split_and!; [| |done..].
  - intros [|k] j; cbn; [|apply H1]. intros [= <-]. destruct (H2 i Hi) as [-> ->].
    by rewrite !list_lookup_insert_eq by apply Hib.
  - intros j [Hji Hj]%not_elem_of_cons. destruct (H2 j Hj) as [-> ->]. by rewrite !list_lookup_insert_ne by done.
Qed.
End groups.

(** * The search *)

Section search.
Context {L : KvLib} {K : KvManagers L}.
Variables (c : Coordinator) (p : Pool) (block_hashes : list BlockHash) (max : Z).
(** Which prefixes a spec group has cached, and which of them with the unit
    after them that a look-ahead lookup matches and drops. *)
Variables (serves tailed : SpecGroup → Z → Prop).

(** The greatest [l] up to [m] with [P l], or none but zero. *)
Definition best (P : Z → Prop) (m n : Z) : Prop := 0 ≤ n ≤ m ∧ (n = 0 ∨ P n) ∧ ∀ l, 0 ≤ l ≤ m → P l → l ≤ n.

Definition aligned (l : Z) : Prop := (_cache_hit_alignment_tokens c | l).
(** The lookups of a manager class: a plain one finds the longest aligned
    cached prefix, one with a drop looks for a further unit within its bound.
    Full attention can serve every shorter prefix too. *)
Record lookups_ok : Prop := {
  lk_plain g drop m : g ∈ attention_groups c → drop = false ∨ sg_mamba g = true → 0 ≤ m ≤ max →
    ∃ bs n, sg_find c p block_hashes g drop m = Ok (bs, n) ∧ length bs = length (group_ids g) ∧
            best (λ l, aligned l ∧ serves g l) m n;
  lk_drop g m : g ∈ attention_groups c → sg_use_eagle g = true → sg_mamba g = false → 0 ≤ m ≤ max →
    ∃ bs n, sg_find c p block_hashes g true m = Ok (bs, n) ∧ length bs = length (group_ids g) ∧
            best (λ l, aligned l ∧ serves g l ∧ tailed g l ∧ l + eagle_margin c g ≤ m) m n;
  lk_margin g : g ∈ attention_groups c → 0 ≤ eagle_margin c g;
  lk_closed g l l' : g ∈ attention_groups c → sg_full g = true → 0 ≤ l' ≤ l → serves g l → serves g l';
  lk_closed_tail g l l' : g ∈ attention_groups c → sg_full g = true → 0 ≤ l' ≤ l → serves g l → tailed g l → tailed g l' }.

(** A length a group can serve, the look-ahead unit included. *)
Definition admits (g : SpecGroup) (l : Z) : Prop :=
  aligned l ∧ serves g l ∧ (sg_use_eagle g = true → sg_mamba g = false → tailed g l ∧ l + eagle_margin c g ≤ max).
Definition common (l : Z) : Prop := ∀ g, g ∈ attention_groups c → admits g l.

(** At most one spec group other than full attention looks ahead. *)
Definition one_lookahead : Prop := ∀ j k g h,
  attention_groups c !! j = Some g → attention_groups c !! k = Some h →
  sg_full g = false → sg_full h = false → sg_use_eagle g = true → sg_use_eagle h = true → j = k.

Hypothesis Hlk : lookups_ok.

Lemma admits_closed g l l' : g ∈ attention_groups c → sg_full g = true → 0 ≤ l' ≤ l → aligned l' ∨ l' = 0 →
  l = 0 ∨ admits g l → l' = 0 ∨ admits g l'.
Proof.
  intros Hg Hf Hl [Ha| ->]; [|by left]. intros [->|(_&Hs&Ht)]; [left; lia|]. right. split_and!; [done|by eapply lk_closed|].
  intros He Hm. destruct (Ht He Hm). split; [|lia]. by eapply lk_closed_tail.
Qed.

(** The lookup of a group at the candidate length [m]. *)
Lemma group_find g (drop : bool) m : g ∈ attention_groups c → 0 ≤ m ≤ max → (drop = true → sg_use_eagle g = true) →
  ∃ bs n, sg_find c p block_hashes g drop
            (if drop && negb (sg_mamba g) then Z.min (m + eagle_margin c g) max else m) = Ok (bs, n) ∧
    length bs = length (group_ids g) ∧ 0 ≤ n ≤ m ∧ (n = 0 ∨ aligned n) ∧
    (∀ l, 0 ≤ l ≤ m → admits g l → l ≤ n) ∧
    (sg_use_eagle g = drop → n = 0 ∨ admits g n) ∧ (drop = false → (m = 0 ∨ admits g m) → n = m).
Proof.
  intros Hg Hm Hd. destruct (drop && negb (sg_mamba g)) eqn:E.
  - apply andb_true_iff in E as [-> Hmb%negb_true_iff]. specialize (Hd eq_refl).
    pose proof (lk_margin Hlk g Hg) as Hmar.
    destruct (lk_drop Hlk g (Z.min (m + eagle_margin c g) max) Hg Hd Hmb ltac:(lia)) as (bs&n&Hf&Hlen&Hn&H0&Hb).
    exists bs, n. split_and!; [done..|lia|destruct H0 as [->|(_&_&_&?)]; lia|destruct H0 as [?|[? _]]; auto| | |done].
    + intros l Hl (Ha&Hs&Ht). destruct (Ht Hd Hmb). apply Hb; [lia|]. split_and!; [done..|lia].
    + intros _. destruct H0 as [?|(?&?&?&?)]; [by left|right]. split_and!; [done..|]. intros _ _. split; [done|lia].
  - assert (Hor : drop = false ∨ sg_mamba g = true) by (destruct drop, (sg_mamba g); naive_solver).
    destruct (lk_plain Hlk g drop m Hg Hor Hm) as (bs&n&Hf&Hlen&Hn&H0&Hb).
    exists bs, n. split_and!; [done..|lia|lia|destruct H0 as [?|[? _]]; auto| | |].
    + intros l Hl (Ha&Hs&_). by apply Hb.
    + intros He. destruct H0 as [->|[Ha Hs]]; [by left|]. right. split_and!; [done..|]. intros He' Hmb. destruct Hor; congruence.
    + intros -> [->|(Ha&Hs&_)]; [lia|]. assert (m ≤ n) by (apply Hb; [lia|done]). lia.
Qed.

(** ** The search ends *)

(** However many groups look ahead: every pass that goes on has shortened the
    candidate. *)
Definition bounded (st : HitState) : Prop :=
  0 ≤ curr_hit_length st ≤ max ∧ ∀ i n, hit_length_by_group st !! i = Some n → 0 ≤ n.
Lemma record_hits_lengths ids blocks n bg lg i m :
  0 ≤ n → (∀ i m, lg !! i = Some m → 0 ≤ m) → (record_hits ids blocks n bg lg).2 !! i = Some m → 0 ≤ m.
Proof.
  intros Hn. revert blocks bg lg. induction ids as [|j ids IH]; intros [|b blocks] bg lg Hlg; cbn [record_hits]; try apply Hlg.
  apply IH. intros i' m'. rewrite list_lookup_insert_Some. intros [(_&<-&_)|[_ ?]]; [done|by eapply Hlg].
Qed.
Lemma hit_group_bounded idx g st : g ∈ attention_groups c → bounded st →
  ∃ st', hit_group c p block_hashes max idx g st = Ok st' ∧ bounded st'.
Proof.
  intros Hg [Hc Hl]. unfold hit_group. destruct (sg_full g && _).
  - eexists. split; [done|]. split; [|exact Hl]. cbn.
    destruct (hit_length_by_group st !! _) as [n|] eqn:E; cbn; [apply Hl in E|]; lia.
  - unfold lookup_group. set (drop := sg_use_eagle g && _).
    destruct (group_find g drop (curr_hit_length st) Hg Hc) as (bs&n&Hf&_&Hn&_); [unfold drop; by intros [? _]%andb_true_iff|].
    rewrite Hf. cbn [mbind res_bind].
    destruct (record_hits (group_ids g) bs n (hit_blocks_by_group st) (hit_length_by_group st)) as [bg lg] eqn:Hr.
    eexists. split; [done|]. split; cbn; [lia|]. intros i m Hm. eapply (record_hits_lengths _ bs n (hit_blocks_by_group st)); [|exact Hl|by rewrite Hr]. lia.
Qed.
Lemma hit_pass_bounded idx gs st : (∀ g, g ∈ gs → g ∈ attention_groups c) → bounded st →
  ∃ st', hit_pass c p block_hashes max idx gs st = Ok st' ∧ bounded st'.
Proof.
  revert idx st. induction gs as [|g gs IH]; intros idx st Hgs Hst; cbn [hit_pass]; [by exists st|].
  destruct (hit_group_bounded idx g st (Hgs g ltac:(by left)) Hst) as (st1&->&Hst1). cbn [mbind res_bind].
  apply IH; [|done]. intros h Hh. apply Hgs. by right.
Qed.
Lemma hit_loop_ends fuel st : bounded st → (Z.to_nat (curr_hit_length st) < fuel)%nat →
  ∃ st', hit_loop fuel c p block_hashes max st = Ok st' ∧ 0 ≤ curr_hit_length st' ≤ max.
Proof.
  revert st. induction fuel as [|fuel IH]; intros st Hst Hfuel; [lia|]. cbn [hit_loop].
  destruct (hit_pass_bounded 0 (attention_groups c) st) as (st1&->&Hst1); [done..|]. cbn [mbind res_bind].
  destruct (Z.leb_spec (curr_hit_length st) (curr_hit_length st1)); [eexists; split; [done|apply Hst]|].
  destruct (is_simple_hybrid c); [exists st1; split; [done|apply Hst1]|]. apply IH; [done|]. destruct Hst1. lia.
Qed.
Lemma hybrid_search_ends : 0 ≤ max → ∃ st, hybrid_search c p block_hashes max = Ok st ∧ 0 ≤ curr_hit_length st ≤ max.
Proof.
  intros Hmax. unfold hybrid_search.
  destruct (hit_loop_ends (S (Z.to_nat max)) (mkHit (replicate (num_managers c) None) (replicate (num_managers c) 0) [] 0 max)) as (st&->&Hst).
  - split; cbn; [lia|]. intros i n [-> _]%lookup_replicate_1. lia.
  - cbn. lia.
  - cbn [mbind res_bind]. by eexists.
Qed.

(** ** One lookup in a pass *)

Hypothesis Hwf : wf_groups (num_managers c) (attention_groups c).

(** The result of some lookup of [g], of length [n], is what [st] holds for
    all cache groups of [g]. *)
Definition recorded (st : HitState) (g : SpecGroup) (n : Z) : Prop := ∃ found drop m,
  sg_find c p block_hashes g drop m = Ok (found, n) ∧ length found = length (group_ids g) ∧
  ∀ k i, group_ids g !! k = Some i → hit_blocks_by_group st !! i = Some (found !! k) ∧ hit_length_by_group st !! i = Some n.
Definition unrecorded (st : HitState) (g : SpecGroup) : Prop := ∀ i, i ∈ group_ids g → hit_blocks_by_group st !! i = Some None.
(** The bookkeeping of the search at any time. *)
Record state_ok (st : HitState) : Prop := {
  so_blocks : length (hit_blocks_by_group st) = num_managers c;
  so_lengths : length (hit_length_by_group st) = num_managers c;
  so_bounds : 0 ≤ curr_hit_length st ≤ max;
  so_common l : 0 ≤ l ≤ max → common l → l ≤ curr_hit_length st;
  so_verified k : k ∈ eagle_verified st → ∃ g, attention_groups c !! k = Some g ∧ sg_use_eagle g = true ∧
    (curr_hit_length st = 0 ∨ admits g (curr_hit_length st)) }.

Lemma group_ids_ok g : g ∈ attention_groups c →
  NoDup (group_ids g) ∧ group_ids g ≠ [] ∧ Forall (λ i, (i < num_managers c)%nat) (group_ids g).
Proof.
  intros Hg. destruct Hwf as (Hnd&Hne&Hlt). rewrite Forall_forall in Hne. split_and!; [|by apply Hne|].
  - unfold all_ids in Hnd. apply list_elem_of_split in Hg as (l1&l2&E). rewrite E, fmap_app, concat_app in Hnd. cbn in Hnd.
    apply NoDup_app in Hnd as (_&_&Hnd). by apply NoDup_app in Hnd as (?&_).
  - eapply Forall_forall. intros i Hi. rewrite Forall_forall in Hlt. apply Hlt. apply elem_of_all_ids. eauto.
Qed.
Lemma group_ids_apart j k g h i : attention_groups c !! j = Some g → attention_groups c !! k = Some h →
  i ∈ group_ids g → i ∈ group_ids h → j = k.
Proof.
  intros Hg Hh Hig Hih. destruct Hwf as (Hnd&_&_). clear Hwf Hlk. unfold all_ids in Hnd. revert j k Hg Hh.
  induction (attention_groups c) as [|x l IH]; intros j k Hg Hh; [done|]. cbn in Hnd. apply NoDup_app in Hnd as (_&Hx&Hnd).
  assert (Hin : ∀ y n, l !! n = Some y → i ∈ group_ids y → i ∈ all_ids l).
  { intros y n Hy Hi. apply elem_of_all_ids. exists y. split; [by eapply list_elem_of_lookup_2|done]. }
  destruct j as [|j], k as [|k]; cbn in Hg, Hh; [done|..].
  - injection Hg as ->. destruct (Hx i Hig). eauto.
  - injection Hh as ->. destruct (Hx i Hih). eauto.
  - f_equal. by apply (IH Hnd).
Qed.

(** A lookup records its result for its own groups only, never passes over a
    common length, and is admissible for its group. *)
Lemma lookup_step idx g st : attention_groups c !! idx = Some g → state_ok st →
  (∀ k h, k ∈ eagle_verified st → k ≠ idx → sg_use_eagle g = true → attention_groups c !! k = Some h → sg_full h = true) →
  ∃ st', lookup_group c p block_hashes max idx g st = Ok st' ∧ state_ok st' ∧
    recorded st' g (curr_hit_length st') ∧ curr_hit_length st' ≤ curr_hit_length st ∧
    (curr_hit_length st' = 0 ∨ admits g (curr_hit_length st')) ∧ (curr_hit_length st' = 0 ∨ aligned (curr_hit_length st')) ∧
    longest_hit_length st' = Z.max (longest_hit_length st) (curr_hit_length st') ∧
    (∀ k, k ∈ eagle_verified st' → k = idx ∨ k ∈ eagle_verified st) ∧
    (∀ h n, h ∈ attention_groups c → h ≠ g → recorded st h n → recorded st' h n) ∧
    (∀ h, h ∈ attention_groups c → h ≠ g → unrecorded st h → unrecorded st' h).
Proof.
  intros Hg Hst Hver. assert (Hgin : g ∈ attention_groups c) by by eapply list_elem_of_lookup_2.
  destruct Hst as [Hb Hl Hbd Hcom Hv]. unfold lookup_group.
  set (drop := sg_use_eagle g && negb (bool_decide (idx ∈ eagle_verified st))).
  destruct (group_find g drop (curr_hit_length st) Hgin Hbd) as (bs&n&Hf&Hlen&Hn&Hal&Hbest&Hadm&Hstay).
  { unfold drop. by intros [? _]%andb_true_iff. }
  rewrite Hf. cbn [mbind res_bind].
  destruct (record_hits (group_ids g) bs n (hit_blocks_by_group st) (hit_length_by_group st)) as [bg lg] eqn:Hr.
  destruct (group_ids_ok g Hgin) as (Hnd&_&Hlt).
  destruct (record_hits_spec _ _ _ _ _ _ _ Hr Hnd Hlen) as (Hin&Hout&Hb'&Hl').
  { eapply Forall_impl; [exact Hlt|]. cbn. intros i. by rewrite Hb, Hl. }
  assert (Hadm' : n = 0 ∨ admits g n).
  { destruct (sg_use_eagle g) eqn:He; [|by apply Hadm]. destruct (bool_decide (idx ∈ eagle_verified st)) eqn:Hi; [|by apply Hadm].
    apply bool_decide_eq_true in Hi. destruct (Hv _ Hi) as (h&Hh&_&Ha). replace h with g in Ha by congruence.
    by rewrite (Hstay eq_refl Ha). }
  assert (Hfresh : ∀ h i, h ∈ attention_groups c → h ≠ g → i ∈ group_ids h → i ∉ group_ids g).
  { intros h i [k Hk]%list_elem_of_lookup Hne Hih Hig. apply Hne. rewrite (group_ids_apart k idx h g i Hk Hg Hih Hig) in Hk. congruence. }
  eexists. split; [done|]. cbn. split_and!; [|by exists bs; eauto 10|lia|done|done|done|..].
  - split; cbn; [congruence|congruence|lia|intros l ? Hc; apply Hbest; [split; [lia|by apply Hcom]|by apply Hc]|].
    intros k Hk. destruct drop eqn:Hdrop.
    + apply andb_true_iff in Hdrop as [He _]. destruct (decide (k = idx)) as [->|Hki]; [by exists g|].
      apply elem_of_cons in Hk as [?|Hk]; [done|]. destruct (Hv k Hk) as (h&Hh&Hhe&Ha). exists h. split_and!; [done..|].
      eapply (admits_closed h); [by eapply list_elem_of_lookup_2|by eapply Hver|exact Hn|naive_solver|done].
    + destruct (Z.ltb_spec n (curr_hit_length st)); [by apply elem_of_nil in Hk|].
      replace n with (curr_hit_length st) by lia. by apply Hv.
  - intros k Hk. destruct drop; [by apply elem_of_cons in Hk|]. destruct (n <? _); [by apply elem_of_nil in Hk|by right].
  - intros h m Hh Hne (found&d&mm&Hs&Hfl&Hrec). exists found, d, mm. split_and!; [done..|]. intros k i Hk. cbn.
    destruct (Hout i) as [-> ->]; [|by apply Hrec]. eapply Hfresh; eauto using list_elem_of_lookup_2.
  - intros h Hh Hne Hu i Hi. cbn. destruct (Hout i) as [-> _]; [by eapply Hfresh|by apply Hu].
Qed.

(** ** Passes *)

Lemma spec_groups_nodup : NoDup (attention_groups c).
Proof.
  apply NoDup_alt. intros j k g Hj Hk. assert (Hin : g ∈ attention_groups c) by by eapply list_elem_of_lookup_2.
  destruct (group_ids_ok g Hin) as (_&Hne&_). destruct (group_ids g) as [|i ids] eqn:E; [done|].
  eapply (group_ids_apart j k g g i); [done..| |]; rewrite E; by left.
Qed.

(** A full-attention group after its lookup, and another group after its
    lookup in a pass that started from [hit]. *)
Definition full_done (st : HitState) (g : SpecGroup) : Prop :=
  ∃ n, recorded st g n ∧ curr_hit_length st ≤ n ∧ (curr_hit_length st = 0 ∨ admits g (curr_hit_length st)).
Definition other_done (hit : Z) (st : HitState) (g : SpecGroup) : Prop :=
  ∃ n, recorded st g n ∧ curr_hit_length st ≤ n ≤ hit ∧ (n = 0 ∨ admits g n).

Lemma recorded_first st g n : g ∈ attention_groups c → recorded st g n →
  let i := default 0%nat (head (group_ids g)) in
  is_Some (default None (hit_blocks_by_group st !! i)) ∧ hit_length_by_group st !! i = Some n.
Proof.
  intros Hg (found&d&m&_&Hlen&Hr). destruct (group_ids_ok g Hg) as (_&Hne&_).
  destruct (group_ids g) as [|i ids]; [done|]. destruct found as [|b found]; [done|]. cbn.
  destruct (Hr 0%nat i eq_refl) as [-> ->]. cbn. by split.
Qed.
Lemma unrecorded_first st g : g ∈ attention_groups c → unrecorded st g →
  default None (hit_blocks_by_group st !! default 0%nat (head (group_ids g))) = None.
Proof.
  intros Hg Hu. destruct (group_ids_ok g Hg) as (_&Hne&_). unfold unrecorded in Hu.
  destruct (group_ids g) as [|i ids]; [done|]. cbn. by rewrite Hu by by left.
Qed.

(** A full-attention group stays done while the candidate shrinks. *)
Lemma full_done_step st st' g h : g ∈ attention_groups c → sg_full g = true → g ≠ h → full_done st g →
  (∀ h' n, h' ∈ attention_groups c → h' ≠ h → recorded st h' n → recorded st' h' n) →
  0 ≤ curr_hit_length st' ≤ curr_hit_length st → curr_hit_length st' = 0 ∨ aligned (curr_hit_length st') → full_done st' g.
Proof.
  intros Hg Hf Hne (n&Hr&Hn&Ha) Hfr Hc Hal. exists n. split_and!; [by apply Hfr|lia|].
  eapply (admits_closed g); [done..|naive_solver|exact Ha].
Qed.

(** The first pass over the full-attention groups. *)
Lemma fulls_first todo pre others st : attention_groups c = pre ++ todo ++ others →
  Forall (λ g, sg_full g = true) (pre ++ todo) → state_ok st →
  (∀ g, g ∈ pre → full_done st g) → (∀ g, g ∈ todo ++ others → unrecorded st g) →
  (∀ k, k ∈ eagle_verified st → (k < length pre)%nat) → (pre = [] ∨ curr_hit_length st ≤ longest_hit_length st) →
  ∃ st', hit_pass c p block_hashes max (length pre) todo st = Ok st' ∧ state_ok st' ∧ curr_hit_length st' ≤ curr_hit_length st ∧
    (∀ g, g ∈ pre ++ todo → full_done st' g) ∧ (pre ++ todo = [] ∨ curr_hit_length st' ≤ longest_hit_length st').
Proof.
  revert pre st. induction todo as [|g todo IH]; intros pre st Hgs Hfull Hst Hpre Htodo Hver Hlong.
  { exists st. rewrite app_nil_r. split_and!; [done..|lia|done|done]. }
  assert (Hidx : attention_groups c !! length pre = Some g) by (rewrite Hgs; cbn [app]; by apply list_lookup_middle).
  assert (Hgin : g ∈ attention_groups c) by by eapply list_elem_of_lookup_2.
  pose proof spec_groups_nodup as Hnd. rewrite Hgs in Hnd.
  assert (Hgf : sg_full g = true) by (rewrite Forall_forall in Hfull; apply Hfull; set_solver).
  cbn [hit_pass]. unfold hit_group. rewrite (unrecorded_first st g Hgin) by (apply Htodo; set_solver).
  rewrite Hgf. replace (bool_decide (is_Some None)) with false by done. cbn [andb].
  destruct (lookup_step (length pre) g st Hidx Hst) as (st1&Hlk1&Hst1&Hrec&Hle&Hadm&Hal&Hlg&Hv1&Hfr&Hun).
  { intros k h Hk _ _ Hh. specialize (Hver k Hk). rewrite Hgs, lookup_app_l in Hh by done.
    rewrite Forall_forall in Hfull. apply Hfull. apply elem_of_app. left. by eapply list_elem_of_lookup_2. }
  rewrite Hlk1. cbn [mbind res_bind].
  destruct (IH (pre ++ [g]) st1) as (st'&Hp&Hst'&Hle'&Hd'&Hlong'); rewrite <- ?(assoc_L (++)) in *; cbn [app] in *; try done.
  - intros h [Hh|Hh]%elem_of_app.
    + eapply (full_done_step st st1 h g); [rewrite Hgs; set_solver| | |by apply Hpre|done|destruct Hst1; lia|done].
      * rewrite Forall_forall in Hfull. apply Hfull. set_solver.
      * intros ->. apply NoDup_app in Hnd as (_&Hnd&_). apply (Hnd g Hh). by left.
    + apply list_elem_of_singleton in Hh as ->. eexists. split_and!; [done|lia|done].
  - intros h Hh. apply Hun; [rewrite Hgs; set_solver| |apply Htodo; set_solver].
    intros ->. apply NoDup_app in Hnd as (_&_&Hnd). apply NoDup_cons in Hnd as [Hnd _]. done.
  - intros k Hk. rewrite length_app. cbn. destruct (Hv1 k Hk) as [->|Hk']; [lia|]. specialize (Hver k Hk'). lia.
  - right. lia.
  - exists st'. rewrite length_app in Hp. cbn in Hp. rewrite Nat.add_1_r in Hp. split_and!; [done..|lia|done|done].
Qed.

(** Later passes leave them as they are. *)
Lemma fulls_again fulls idx st : (∀ g, g ∈ fulls → g ∈ attention_groups c ∧ sg_full g = true ∧ full_done st g) →
  hit_pass c p block_hashes max idx fulls st = Ok st.
Proof.
  revert idx. induction fulls as [|g fulls IH]; intros idx Hd; [done|]. cbn [hit_pass]. unfold hit_group.
  destruct (Hd g ltac:(by left)) as (Hg&Hf&n&Hr&Hn&_). destruct (recorded_first st g n Hg Hr) as [Hs Hlen].
  rewrite Hf, (bool_decide_eq_true_2 _ Hs), Hlen. cbn [andb default mbind res_bind].
  rewrite Z.min_l by done. destruct st. cbn. apply IH. intros h Hh. apply Hd. by right.
Qed.

Hypothesis Hone : one_lookahead.

(** The other groups, in any pass that started from [hit]. *)
Lemma others_pass hit todo fulls pre st : attention_groups c = fulls ++ pre ++ todo →
  Forall (λ g, sg_full g = true) fulls → Forall (λ g, sg_full g = false) (pre ++ todo) →
  state_ok st → (∀ g, g ∈ fulls → full_done st g) → (∀ g, g ∈ pre → other_done hit st g) → curr_hit_length st ≤ hit →
  (fulls ++ pre = [] ∨ curr_hit_length st ≤ longest_hit_length st) →
  (∀ g, last pre = Some g → recorded st g (curr_hit_length st) ∧ (curr_hit_length st = 0 ∨ admits g (curr_hit_length st))) →
  ∃ st', hit_pass c p block_hashes max (length (fulls ++ pre)) todo st = Ok st' ∧ state_ok st' ∧ curr_hit_length st' ≤ curr_hit_length st ∧
    (∀ g, g ∈ fulls → full_done st' g) ∧ (∀ g, g ∈ pre ++ todo → other_done hit st' g) ∧
    (fulls ++ pre ++ todo = [] ∨ curr_hit_length st' ≤ longest_hit_length st') ∧
    (∀ g, last (pre ++ todo) = Some g → recorded st' g (curr_hit_length st') ∧ (curr_hit_length st' = 0 ∨ admits g (curr_hit_length st'))).
Proof.
  revert pre st. induction todo as [|g todo IH]; intros pre st Hgs Hfull Hoth Hst Hfd Hod Hhit Hlong Hlast.
  { exists st. rewrite !app_nil_r. split_and!; [done..|lia|done|done|done|done]. }
  assert (Hidx : attention_groups c !! length (fulls ++ pre) = Some g).
  { rewrite Hgs. rewrite (assoc_L (++)). by apply list_lookup_middle. }
  assert (Hgin : g ∈ attention_groups c) by by eapply list_elem_of_lookup_2.
  pose proof spec_groups_nodup as Hnd. rewrite Hgs in Hnd.
  assert (Hgf : sg_full g = false) by (rewrite Forall_forall in Hoth; apply Hoth; set_solver).
  assert (Hfg : ∀ h, h ∈ fulls → sg_full h = true) by by apply Forall_forall.
  cbn [hit_pass]. unfold hit_group. rewrite Hgf. cbn [andb].
  destruct (lookup_step (length (fulls ++ pre)) g st Hidx Hst) as (st1&Hlk1&Hst1&Hrec&Hle&Hadm&Hal&Hlg&Hv1&Hfr&_).
  { intros k h Hk Hki He Hh. destruct (so_verified _ Hst k Hk) as (h'&Hh'&He'&_). replace h' with h in He' by congruence.
    destruct (sg_full h) eqn:Hhf; [done|]. destruct Hki. by eapply (Hone k _ h g). }
  rewrite Hlk1. cbn [mbind res_bind]. destruct Hst1 as [? ? Hbd ? ?].
  destruct (IH (pre ++ [g]) st1) as (st'&Hp&Hst'&Hle'&Hfd'&Hod'&Hlong'&Hlast'); rewrite <- ?(assoc_L (++)) in *; cbn [app] in *; try done.
  - intros h Hh. eapply (full_done_step st st1 h g); [rewrite Hgs; set_solver|by apply Hfg| |by apply Hfd|done|lia|done].
    intros ->. rewrite (Hfg g Hh) in Hgf. done.
  - intros h [Hh|Hh]%elem_of_app.
    + destruct (Hod h Hh) as (n&Hr&Hn&Ha). exists n. split_and!; [|lia|lia|done]. apply Hfr; [rewrite Hgs; set_solver| |done].
      intros ->. apply NoDup_app in Hnd as (_&_&Hnd). apply NoDup_app in Hnd as (_&Hnd&_). apply (Hnd g Hh). by left.
    + apply list_elem_of_singleton in Hh as ->. eexists. split_and!; [done|lia|lia|done].
  - lia.
  - right. lia.
  - intros h. rewrite last_snoc. by intros [= <-].
  - exists st'. replace (length (fulls ++ pre ++ [g])) with (S (length (fulls ++ pre))) in Hp by (rewrite !length_app; cbn; lia).
    split_and!; [done..|lia|done|done|done|done].
Qed.

Variables (fulls others : list SpecGroup).
Hypothesis Hsplit : attention_groups c = fulls ++ others.
Hypothesis Hfulls : Forall (λ g, sg_full g = true) fulls.
Hypothesis Hothers : Forall (λ g, sg_full g = false) others.

(** The state a pass starts from: nothing looked up, or all full-attention
    groups looked up. *)
Definition ready (st : HitState) : Prop := state_ok st ∧
  ((eagle_verified st = [] ∧ ∀ g, g ∈ attention_groups c → unrecorded st g) ∨
   ((∀ g, g ∈ fulls → full_done st g) ∧ (attention_groups c = [] ∨ curr_hit_length st ≤ longest_hit_length st))).

Lemma hit_pass_app idx gs1 gs2 st : hit_pass c p block_hashes max idx (gs1 ++ gs2) st =
  st ← hit_pass c p block_hashes max idx gs1 st; hit_pass c p block_hashes max (idx + length gs1) gs2 st.
Proof.
  revert idx st. induction gs1 as [|g gs1 IH]; intros idx st; cbn; [by rewrite Nat.add_0_r|].
  destruct (hit_group _ _ _ _ _ _ _) as [st1|e]; cbn; [|done]. rewrite IH. by rewrite Nat.add_succ_r.
Qed.

Lemma hit_pass_spec st : ready st →
  ∃ st', hit_pass c p block_hashes max 0 (attention_groups c) st = Ok st' ∧ ready st' ∧ curr_hit_length st' ≤ curr_hit_length st ∧
    (∀ g, g ∈ fulls → full_done st' g) ∧ (∀ g, g ∈ others → other_done (curr_hit_length st) st' g) ∧
    (attention_groups c = [] ∨ curr_hit_length st' ≤ longest_hit_length st') ∧
    (∀ g, last others = Some g → recorded st' g (curr_hit_length st') ∧ (curr_hit_length st' = 0 ∨ admits g (curr_hit_length st'))).
Proof.
  intros [Hst Hrd]. rewrite Hsplit, hit_pass_app, Nat.add_0_l.
  assert (∃ st1, hit_pass c p block_hashes max 0 fulls st = Ok st1 ∧ state_ok st1 ∧ curr_hit_length st1 ≤ curr_hit_length st ∧
            (∀ g, g ∈ fulls → full_done st1 g) ∧ (fulls = [] ∨ curr_hit_length st1 ≤ longest_hit_length st1))
    as (st1&->&Hst1&Hle1&Hfd1&Hl1).
  { destruct Hrd as [[Hv Hu]|[Hfd Hlong]].
    - destruct (fulls_first fulls [] others st) as (st1&?&?&?&?&?); [done|done|done|by intros ? ?%elem_of_nil|by rewrite <- Hsplit| |by left|by eauto 10].
      rewrite Hv. by intros ? ?%elem_of_nil.
    - exists st. split_and!; [|done|lia|done|].
      + apply fulls_again. intros g Hg. rewrite Hsplit. split_and!; [set_solver| |by apply Hfd]. rewrite Forall_forall in Hfulls. by apply Hfulls.
      + destruct Hlong as [E|?]; [|by right]. rewrite Hsplit in E. left. by apply app_eq_nil in E as [? _]. }
  cbn [mbind res_bind].
  destruct (others_pass (curr_hit_length st) others fulls [] st1) as (st'&Hp&Hst'&Hle'&Hfd'&Hod'&Hlong'&Hlast');
    [done..|by intros ? ?%elem_of_nil|done|by rewrite app_nil_r|done|].
  cbn [app] in *. rewrite app_nil_r in Hp. exists st'. rewrite <- Hsplit in *. split_and!; [done| |lia|done..].
  split; [done|]. right. split; [done|]. by destruct Hlong'; [left|right].
Qed.

(** ** The loop *)

(** What the loop leaves: a length every group admits, with lookups that
    reach it, and exactly it outside full attention. *)
Definition settled (st : HitState) : Prop := state_ok st ∧
  (attention_groups c = [] ∨ curr_hit_length st ≤ longest_hit_length st) ∧
  ∀ g, g ∈ attention_groups c → (curr_hit_length st = 0 ∨ admits g (curr_hit_length st)) ∧
    ∃ n, recorded st g n ∧ curr_hit_length st ≤ n ∧ (sg_full g = false → n = curr_hit_length st).

Lemma is_simple_hybrid_others g : is_simple_hybrid c = true → g ∈ others → last others = Some g.
Proof.
  unfold is_simple_hybrid. rewrite Hsplit. rewrite Forall_forall in Hothers.
  destruct fulls as [|f1 [|f2 fs]]; cbn.
  - destruct others as [|o1 [|o2 [|??]]]; try done. rewrite Hothers by by left. done.
  - destruct others as [|o1 [|??]]; try done. intros _ ?%list_elem_of_singleton. by subst.
  - destruct fs; [|done]. cbn. destruct others; [|done]. by intros _ ?%elem_of_nil.
Qed.

Lemma hit_loop_settles fuel st : ready st → (Z.to_nat (curr_hit_length st) < fuel)%nat →
  ∃ st', hit_loop fuel c p block_hashes max st = Ok st' ∧ settled st'.
Proof.
  revert st. induction fuel as [|fuel IH]; intros st Hst Hfuel; [lia|]. cbn [hit_loop].
  destruct (hit_pass_spec st Hst) as (st1&->&Hst1&Hle&Hfd&Hod&Hlong&Hlast). cbn [mbind res_bind].
  assert (Hcase : ∀ g, g ∈ attention_groups c → g ∈ fulls ∨ g ∈ others) by (intros g Hg; rewrite Hsplit in Hg; by apply elem_of_app).
  destruct Hst1 as [Hok1 Hr1]. destruct (Z.leb_spec (curr_hit_length st) (curr_hit_length st1)) as [Hge|Hlt].
  - replace (curr_hit_length st) with (curr_hit_length st1) in * by lia. destruct st1 as [bg lg v lo cu]. cbn in *.
    eexists. split; [done|]. split_and!; [done..|]. cbn. intros g Hg. destruct (Hcase g Hg) as [Hf|Ho].
    + destruct (Hfd g Hf) as (n&?&?&?). split; [done|]. exists n. split_and!; [done..|]. rewrite Forall_forall in Hfulls. rewrite Hfulls; done.
    + destruct (Hod g Ho) as (n&?&Hn&?). cbn in Hn. replace n with cu in * by lia. split; [done|]. exists cu. split_and!; [done|lia|done].
  - destruct (is_simple_hybrid c) eqn:Hs; [|apply IH; [by split|destruct Hok1; lia]].
    exists st1. split; [done|]. split_and!; [done..|]. intros g Hg. destruct (Hcase g Hg) as [Hf|Ho].
    + destruct (Hfd g Hf) as (n&?&?&?). split; [done|]. exists n. split_and!; [done..|]. rewrite Forall_forall in Hfulls. rewrite Hfulls; done.
    + destruct (Hlast g (is_simple_hybrid_others g Hs Ho)) as [? ?]. split; [done|]. eexists. split_and!; [done|lia|done].
Qed.


(** ** The truncation of full attention *)

Lemma truncate_group_lookup l n st i j :
  (truncate_group l n st i).1 !! j = if decide (j = i) then fmap (del_from n) <$> st.1 !! j else st.1 !! j.
Proof.
  unfold truncate_group. destruct (st.1 !! i) as [[b|]|] eqn:E; cbn; case_decide; subst; rewrite ?E; try done.
  - rewrite list_lookup_insert_eq by by eapply lookup_lt_Some. done.
  - by rewrite list_lookup_insert_ne.
Qed.
Lemma truncate_ids_lookup l n ids st j : NoDup ids →
  (foldl (truncate_group l n) st ids).1 !! j = if decide (j ∈ ids) then fmap (del_from n) <$> st.1 !! j else st.1 !! j.
Proof.
  revert st. induction ids as [|i ids IH]; intros st; cbn [foldl]; [done|]. intros [Hi Hnd]%NoDup_cons.
  rewrite IH, truncate_group_lookup by done. destruct (decide (j = i)) as [->|Hj].
  - rewrite decide_False by done. by rewrite decide_True by by left.
  - destruct (decide (j ∈ ids)); [rewrite decide_True by by right|rewrite decide_False by (by intros [?|?]%elem_of_cons)]; done.
Qed.
Definition truncate_one (l : Z) (st : list (option (list Blk)) * list Z) (g : SpecGroup) : list (option (list Blk)) * list Z :=
  if sg_full g then foldl (truncate_group l (cdiv l (sg_block_size c g))) st (group_ids g) else st.
Lemma truncate_one_lookup l st g i : NoDup (group_ids g) →
  (truncate_one l st g).1 !! i =
  if decide (i ∈ group_ids g) then (if sg_full g then fmap (del_from (cdiv l (sg_block_size c g))) <$> st.1 !! i else st.1 !! i) else st.1 !! i.
Proof. intros Hnd. unfold truncate_one. destruct (sg_full g); [by apply truncate_ids_lookup|by case_decide]. Qed.
Lemma truncate_frame l gs st i : NoDup (all_ids gs) → i ∉ all_ids gs → (foldl (truncate_one l) st gs).1 !! i = st.1 !! i.
Proof.
  revert st. induction gs as [|g gs IH]; intros st Hnd Hi; cbn [foldl]; [done|]. unfold all_ids in Hnd, Hi. cbn in Hnd, Hi.
  apply NoDup_app in Hnd as (Hg&_&Hnd). apply not_elem_of_app in Hi as [Hig Hi].
  rewrite IH by done. by rewrite truncate_one_lookup, decide_False.
Qed.
Lemma truncate_full_lookup l st g i : g ∈ attention_groups c → i ∈ group_ids g →
  (truncate_full c l st).1 !! i = if sg_full g then fmap (del_from (cdiv l (sg_block_size c g))) <$> st.1 !! i else st.1 !! i.
Proof.
  intros Hg Hi. destruct Hwf as (Hnd&_&_). change (truncate_full c l st) with (foldl (truncate_one l) st (attention_groups c)).
  apply list_elem_of_split in Hg as (gs1&gs2&E). rewrite E in *. unfold all_ids in Hnd.
  rewrite fmap_app, concat_app in Hnd. cbn in Hnd. apply NoDup_app in Hnd as (Hnd1&Hx&Hnd).
  apply NoDup_app in Hnd as (Hndg&Hx2&Hnd2). rewrite foldl_app. cbn [foldl].
  rewrite truncate_frame by (try done; by apply Hx2). rewrite truncate_one_lookup, decide_True by done.
  rewrite truncate_frame; [done..|]. intros Hi1. apply (Hx i Hi1), elem_of_app. by left.
Qed.

(** ** The result *)

Lemma unrecorded_start g m : g ∈ attention_groups c →
  unrecorded (mkHit (replicate (num_managers c) None) (replicate (num_managers c) 0) [] 0 m) g.
Proof.
  intros Hg i Hi. destruct (group_ids_ok g Hg) as (_&_&Hlt). rewrite Forall_forall in Hlt. cbn.
  by apply lookup_replicate_2, Hlt.
Qed.

Lemma hybrid_search_settles : 0 ≤ max →
  ∃ st l, hybrid_search c p block_hashes max = Ok st ∧ curr_hit_length st = l ∧ best common max l ∧ 
    (attention_groups c = [] ∨ l ≤ longest_hit_length st) ∧
    ∀ g k i, g ∈ attention_groups c → group_ids g !! k = Some i → ∃ found n drop m b,
      sg_find c p block_hashes g drop m = Ok (found, n) ∧ l ≤ n ∧ (sg_full g = false → n = l) ∧ found !! k = Some b ∧
      hit_blocks_by_group st !! i = Some (Some (if sg_full g then del_from (cdiv l (sg_block_size c g)) b else b)).
Proof.
  intros Hmax. unfold hybrid_search.
  set (st0 := mkHit (replicate (num_managers c) None) (replicate (num_managers c) 0) [] 0 max).
  destruct (hit_loop_settles (S (Z.to_nat max)) st0) as (st&->&Hst&Hlong&Hall).
  { split; [|left; split; [done|]; intros g Hg; by apply unrecorded_start].
    split; cbn; [by rewrite length_replicate..|lia|lia|by intros k ?%elem_of_nil]. }
  { cbn. lia. }
  cbn [mbind res_bind]. eexists _, _. split_and!; [done|done| |done|].
  - cbn. destruct Hst as [? ? Hb Hc _]. split_and!; [lia|lia| |done].
    destruct (decide (curr_hit_length st = 0)) as [|Hne]; [by left|right]. intros g Hg. by destruct (Hall g Hg) as [[?|?] _].
  - cbn. intros g k i Hg Hk. destruct (Hall g Hg) as (_&n&(found&d&m&Hf&Hlen&Hrec)&Hn&Hn'). destruct (Hrec k i Hk) as [Hb _].
    destruct (lookup_lt_is_Some_2 found k) as [b Hfk]; [rewrite Hlen; by eapply lookup_lt_Some|].
    exists found, n, d, m, b. split_and!; [done..|]. rewrite (truncate_full_lookup _ _ g) by (try done; by eapply list_elem_of_lookup_2).
    cbn [fst]. rewrite Hb, Hfk. by destruct (sg_full g).
Qed.
End search.

(** C4: The search of a hybrid coordinator.  Suppose the lookups of the managers
    do not raise, find the longest aligned prefix that is cached (a look-ahead
    lookup: the longest that is followed by a further cached unit), and full
    attention serves every shorter prefix.  Then the search ends, with a length
    from zero to the limit, however many groups look ahead.  If besides at most
    one group other than full attention looks ahead, the length is the greatest
    one up to the limit that all groups can serve, the blocks of every group
    come from a lookup of that group which reached the length, exactly so
    outside full attention, whose blocks are cut to it, and the uncached common
    prefix is not negative. *)
Theorem hit_is_longest_common {L : KvLib} {K : KvManagers L} config use_eagle enable_caching dcp pcp sched hash lookahead c
    (p : Pool) (block_hashes : list BlockHash) max (serves tailed : SpecGroup → Z → Prop) :
  hybrid_init config use_eagle enable_caching dcp pcp sched hash lookahead = Ok c →
  lookups_ok c p block_hashes max serves tailed → 0 ≤ max →
  ∃ blocks l uncached, find_longest_cache_hit c p block_hashes max = Ok (blocks, l, uncached) ∧ 0 ≤ l ≤ max ∧
    (one_lookahead c → best (common c max serves tailed) max l ∧ 0 ≤ uncached ∧
      ∀ g k i, g ∈ attention_groups c → group_ids g !! k = Some i → ∃ found n drop m b,
        sg_find c p block_hashes g drop m = Ok (found, n) ∧ l ≤ n ∧ (sg_full g = false → n = l) ∧ found !! k = Some b ∧
        blocks !! i = Some (if sg_full g then del_from (cdiv l (sg_block_size c g)) b else b)).
Proof.
  intros Hc Hlk Hmax. destruct (hybrid_init_groups _ _ _ _ _ _ _ _ _ Hc) as (Hwf&Hne&fulls&others&Hs&Hf&Ho).
  destruct (hybrid_search_ends c p block_hashes max serves tailed Hlk Hmax) as (st&Hst&Hbd).
  unfold find_longest_cache_hit. rewrite Hst. cbn [mbind res_bind]. eexists _, _, _. split; [done|]. split; [exact Hbd|]. intros Hone.
  destruct (hybrid_search_settles c p block_hashes max serves tailed Hlk Hwf Hone fulls others Hs Hf Ho Hmax)
    as (st'&l&Hst'&Hl&Hbest&Hlong&Hblocks). rewrite Hst in Hst'. injection Hst' as <-. rewrite Hl.
  split_and!; [done|destruct Hlong; [done|lia]|]. intros g k i Hg Hk.
  destruct (Hblocks g k i Hg Hk) as (found&n&drop&m&b&?&?&?&?&Hb). exists found, n, drop, m, b. split_and!; [done..|].
  by rewrite list_lookup_fmap, Hb.
Qed.

(** * A concrete coordinator *)

(** Managers whose lookups search a table: for each kind of layer, the
    lengths it has cached, and those with a further unit after them. *)
Inductive SampleManager := SFull | SWindow | SMamba.
#[export] Instance sample_manager_eq_dec : EqDecision SampleManager.
Proof. solve_decision. Defined.
Definition sample_table : Type := SampleManager → (Z → bool) * (Z → bool).
Definition lengths_upto (m : Z) : list Z := Z.of_nat <$> seq 0 (S (Z.to_nat m)).
Definition longest_with (P : Z → bool) (m : Z) : Z := foldr Z.max 0 (filter (λ l, P l) (lengths_upto m)).
Definition sample_find (cls : SampleManager) (t : sample_table) (m : Z) (ids : list nat) (spec : GroupSpec) (drop : bool) (align : Z) :
    res (list (list Z) * Z) :=
  let n := longest_with (λ l, (l mod align =? 0) && (t cls).1 l &&
             (if drop && negb (bool_decide (cls = SMamba)) then (t cls).2 l && (l + g_block_size spec <=? m) else true)) m in
  Ok ((λ _, replicate (Z.to_nat (n / g_block_size spec)) 0) <$> ids, n).

#[export] Instance sample_managers : KvManagers sample_lib := {|
  Pool := sample_table; Blk := Z; Req := unit; ManagerClass := SampleManager; manager_class_eq_dec := _;
  round_down x m := x / m * m;
  manager_class g := if g_layer_is is_full_attention g then SFull else if g_layer_is is_mamba g then SMamba else SWindow;
  is_cross_attention_manager _ := false; supports_fine_grained_hash_lookup _ := false;
  manager_block_size g _ _ := g_block_size g;
  mgr_find_longest_cache_hit cls t _ m ids spec drop align _ _ := sample_find cls t m ids spec drop align;
  mgr_get_num_blocks_to_allocate _ _ _ _ _ _ _ _ := mret 0; mgr_num_cached_block _ _ _ := false;
  mgr_add_local_computed_blocks _ _ _ _ _ := mret tt; mgr_allocate_external_computed_blocks _ _ _ _ := mret tt;
  mgr_allocate_new_blocks _ _ _ _ := mret []; mgr_cache_blocks _ _ _ _ := mret tt; mgr_free _ _ := mret tt;
  mgr_pop_blocks_for_free _ _ := mret []; mgr_get_num_common_prefix_blocks _ _ := mret 0;
  mgr_remove_skipped_blocks _ _ _ _ := mret tt; mgr_req_to_blocks _ _ _ := None; mgr_new_step_starts _ := mret tt |}.

Lemma longest_with_best (P : Z → bool) m : 0 ≤ m → best (λ l, P l = true) m (longest_with P m).
Proof.
  intros Hm. unfold longest_with.
  assert (Hin : ∀ l, l ∈ filter (λ l, P l) (lengths_upto m) ↔ P l = true ∧ 0 ≤ l ≤ m).
  { intros l. rewrite list_elem_of_filter. unfold lengths_upto. rewrite list_elem_of_fmap. setoid_rewrite elem_of_seq. split.
    - intros [Hp (n&->&Hn)]. split; [by apply Is_true_eq_true|lia].
    - intros [Hp Hl]. split; [by apply Is_true_eq_left|]. exists (Z.to_nat l). lia. }
  assert (Hfold : ∀ ls, (∀ l, l ∈ ls → P l = true ∧ 0 ≤ l ≤ m) →
            let n := foldr Z.max 0 ls in 0 ≤ n ≤ m ∧ (n = 0 ∨ P n = true) ∧ ∀ l, l ∈ ls → l ≤ n).
  { clear Hin. induction ls as [|x ls IH]; intros Hls; cbn; [split_and!; [lia|lia|by left|by intros ? ?%elem_of_nil]|].
    destruct (IH (λ l Hl, Hls l (list_elem_of_further _ _ _ Hl))) as (?&H0&Hall). destruct (Hls x ltac:(by left)).
    split_and!; [lia|lia| |].
    - destruct (Z.max_spec x (foldr Z.max 0 ls)) as [[_ ->]|[_ ->]]; [done|by right].
    - intros l [->|Hl]%elem_of_cons; [lia|]. specialize (Hall l Hl). lia. }
  destruct (Hfold (filter (λ l, P l) (lengths_upto m))) as (?&?&Hall); [by intros l ?%Hin|].
  split_and!; [lia|lia|done|]. intros l Hl Hp. by apply Hall, Hin.
Qed.

(** Full attention, a sliding window that looks ahead (if [flag]), and Mamba. *)
Definition sample_mamba (bs : Z) : KVCacheSpec := Mamba (L := sample_lib) (mkMamba bs [[4]] [2] None "mamba2" "all" 0 0 1 1 false).
Definition sample_three (flag : bool) : KVCacheConfig :=
  mkConfig 9 [] [new_group ["f"] (GLayer (sample_full 16 2 4));
                 mkGroup ["w"] (GLayer (sample_window 16 2 4 16)) flag true;
                 new_group ["m"] (GLayer (sample_mamba 16))] None None.
Definition sample_spec_groups (full window mamba : bool) : list SpecGroup :=
  [mkSpecGroup (GLayer (sample_full 16 2 4)) [0%nat] SFull full; mkSpecGroup (GLayer (sample_window 16 2 4 16)) [1%nat] SWindow window;
   mkSpecGroup (GLayer (sample_mamba 16)) [2%nat] SMamba mamba].
Definition sample_coordinator (flag : bool) : Coordinator :=
  mkCoordinator (sample_three flag) true 16 16 0 (if flag then [1%nat] else [0; 1; 2]%nat) None 1 1 [1; 1; 1] [16; 16; 16]
    [negb flag; true; negb flag] false (sample_spec_groups (negb flag) true (negb flag)) (Some 0%nat).
Example sample_coordinator_init flag : hybrid_init (sample_three flag) (negb flag) true 1 1 16 16 1 = Ok (sample_coordinator flag).
Proof. destruct flag; reflexivity. Qed.

(** Lengths from tables: full attention up to 64, the others as listed. *)
Definition sample_cached (window window_tail mamba : list Z) : sample_table := λ cls,
  match cls with
  | SFull => (λ l, l <=? 64, λ l, l <=? 48)
  | SWindow => (λ l, bool_decide (l ∈ window), λ l, bool_decide (l ∈ window_tail))
  | SMamba => (λ l, bool_decide (l ∈ mamba), λ _, false)
  end.
Definition cached_by (t : sample_table) (g : SpecGroup) (l : Z) : Prop := (t (manager_cls g)).1 l = true.
Definition tailed_by (t : sample_table) (g : SpecGroup) (l : Z) : Prop := (t (manager_cls g)).2 l = true.

Lemma best_iff (P Q : Z → Prop) m n : (∀ l, P l ↔ Q l) → best P m n → best Q m n.
Proof. intros HPQ (?&H0&Hall). split_and!; [lia|lia|by rewrite <- HPQ|]. intros l ? ?%HPQ. by apply Hall. Qed.

Lemma sample_lookups window window_tail mamba flag :
  lookups_ok (sample_coordinator flag) (sample_cached window window_tail mamba) [] 64
    (cached_by (sample_cached window window_tail mamba)) (tailed_by (sample_cached window window_tail mamba)).
Proof.
  set (t := sample_cached _ _ _).
  assert (Hg : ∀ g, g ∈ attention_groups (sample_coordinator flag) →
            bool_decide (manager_cls g = SMamba) = sg_mamba g ∧ g_block_size (sg_spec g) = 16 ∧
            eagle_margin (sample_coordinator flag) g = 16 ∧ length (group_ids g) = 1%nat ∧ (sg_full g = true → manager_cls g = SFull)).
  { intros g Hg. repeat (apply elem_of_cons in Hg as [->|Hg]; [by destruct flag|]). by apply elem_of_nil in Hg. }
  assert (Hal : ∀ l, aligned (sample_coordinator flag) l ↔ (l mod 16 =? 0) = true).
  { intros l. unfold aligned. rewrite Z.eqb_eq. symmetry. by apply Z.mod_divide. }
  assert (Hfind : ∀ g drop m, 0 ≤ m → ∃ bs n, sg_find (sample_coordinator flag) t [] g drop m = Ok (bs, n) ∧
            length bs = length (group_ids g) ∧ best (λ l, (l mod 16 =? 0) && (t (manager_cls g)).1 l &&
              (if drop && negb (bool_decide (manager_cls g = SMamba)) then (t (manager_cls g)).2 l && (l + g_block_size (sg_spec g) <=? m) else true) = true) m n).
  { intros g drop m Hm. eexists _, _. split; [reflexivity|]. split; [by rewrite length_fmap|by apply longest_with_best]. }
  split.
  - intros g drop m Hgin Hor Hm. destruct (Hg g Hgin) as (Hmb&_). destruct (Hfind g drop m) as (bs&n&?&?&Hb); [lia|].
    exists bs, n. split_and!; [done..|]. eapply best_iff; [|exact Hb]. intros l. rewrite Hal, Hmb. unfold cached_by.
    replace (drop && negb (sg_mamba g)) with false by (by destruct Hor as [-> | ->]; [|rewrite andb_false_r]).
    rewrite !andb_true_iff. naive_solver.
  - intros g m Hgin _ Hm0 Hm. destruct (Hg g Hgin) as (Hmb&Hbs&->&_). destruct (Hfind g true m) as (bs&n&?&?&Hb); [lia|].
    exists bs, n. split_and!; [done..|]. eapply best_iff; [|exact Hb]. intros l. rewrite Hal, Hmb, Hm0, Hbs. unfold cached_by, tailed_by.
    cbn [negb andb]. rewrite !andb_true_iff, Z.leb_le. naive_solver.
  - intros g Hgin. destruct (Hg g Hgin) as (_&_&->&_). done.
  - intros g l l' Hgin Hf Hl. destruct (Hg g Hgin) as (_&_&_&_&Hcls). unfold cached_by. rewrite Hcls by done. cbn. lia.
  - intros g l l' Hgin Hf Hl _. destruct (Hg g Hgin) as (_&_&_&_&Hcls). unfold tailed_by. rewrite Hcls by done. cbn. lia.
Qed.

Lemma hit_is_longest_common_witness :
  ∃ blocks l uncached,
    find_longest_cache_hit (sample_coordinator true) (sample_cached [16; 48] [16; 48] [16; 32]) [] 64 = Ok (blocks, l, uncached) ∧
    l = 16 ∧ best (common (sample_coordinator true) 64 (cached_by (sample_cached [16; 48] [16; 48] [16; 32]))
                    (tailed_by (sample_cached [16; 48] [16; 48] [16; 32]))) 64 l.
Proof.
  destruct (hit_is_longest_common (sample_three true) false true 1 1 16 16 1 (sample_coordinator true)
              (sample_cached [16; 48] [16; 48] [16; 32]) [] 64 (cached_by (sample_cached [16; 48] [16; 48] [16; 32]))
              (tailed_by (sample_cached [16; 48] [16; 48] [16; 32]))) as (blocks&l&u&Hf&_&Hb).
  - exact (sample_coordinator_init true).
  - apply sample_lookups.
  - done.
  - destruct Hb as [Hb _]; [intros [|[|[|j]]] [|[|[|k]]] g h; cbn; intros [= <-] [= <-]; done|].
    exists blocks, l, u. split; [exact Hf|]. split; [|exact Hb]. revert Hf. vm_compute. intros [= _ <- _]. done.
Defined.

(** The hypothesis on look-ahead groups is needed.  A lookup that drops its
    look-ahead unit shortens the candidate without taking back what other
    groups verified at the longer one: here the fall-back has flagged every
    group, Mamba cuts 48 to 16, and the window, whose unit after 16 is not
    cached, is accepted at 16 by a plain lookup. *)
Example stale_lookahead_verification :
  let t := sample_cached [16; 48] [48] [16] in
  hybrid_init (sample_three false) true true 1 1 16 16 1 = Ok (sample_coordinator false) ∧
  (∃ blocks uncached, find_longest_cache_hit (sample_coordinator false) t [] 64 = Ok (blocks, 16, uncached)) ∧
  ∃ g, g ∈ attention_groups (sample_coordinator false) ∧ sg_use_eagle g = true ∧ sg_mamba g = false ∧ ¬ tailed_by t g 16.
Proof.
  split_and!; [exact (sample_coordinator_init false)|eexists _, _; vm_compute; reflexivity|].
  eexists. split; [by right; left|]. split_and!; [done..|]. by vm_compute.
Qed.
