(* ===== verification/PyNum.v ===== *)
(** Python values that come from JSON or from request controls, and Python's
    floating-point numbers: binary64 as the Standard Library specifies it, with
    facts on rounding. *)
From S2P Require Import Prelude PyDict.
From stdpp Require Import base list strings.
From Stdlib Require Import ZArith Lia Ascii SpecFloat.
#[local] Open Scope string_scope.
#[local] Open Scope list_scope.
#[local] Open Scope Z_scope.

(** * Floats *)

Abbreviation float := spec_float.
Definition fadd : float → float → float := SFadd 53 1024.
Definition fsub : float → float → float := SFsub 53 1024.
Definition fmul : float → float → float := SFmul 53 1024.
(** [x / y] raises on a zero divisor. *)
Definition fdiv (x y : float) : res float :=
  match y with S754_zero _ => Err ZeroDivisionError | _ => Ok (SFdiv 53 1024 x y) end.
Definition fltb (x y : float) : bool := SFltb x y.
Definition fleb (x y : float) : bool := SFleb x y.
Definition feqb (x y : float) : bool := SFeqb x y.
Definition isfinite (x : float) : bool := match x with S754_zero _ | S754_finite _ _ _ => true | _ => false end.

Definition fzero : float := S754_zero false.
Definition fone : float := S754_finite false 4503599627370496 (-52).
Definition ftwo : float := S754_finite false 4503599627370496 (-51).

(** [float(n)], rounded to nearest; too large an integer raises. *)
Definition float_of_int (n : Z) : res float :=
  match binary_normalize 53 1024 n 0 false with S754_infinity _ => Err OverflowError | f => Ok f end.
(** [a / b] of two integers, rounded once. *)
Definition unrounded (n : Z) : float :=
  match n with Z0 => S754_zero false | Zpos p => S754_finite false p 0 | Zneg p => S754_finite true p 0 end.
Definition int_truediv (a b : Z) : res float := fdiv (unrounded a) (unrounded b).
(** [f == n] for a float and an integer, which Python compares exactly. *)
Definition float_eq_int (f : float) (n : Z) : bool :=
  match f with
  | S754_zero _ => n =? 0
  | S754_finite s m e =>
    let v := if s then Z.neg m else Z.pos m in
    if 0 <=? e then v * 2 ^ e =? n else v =? n * 2 ^ (- e)
  | _ => false
  end.

(** * Values *)

#[warnings="-register-all"]
Inductive PyVal :=
  | PNone | PBool (b : bool) | PInt (n : Z) | PFloat (f : float) | PStr (s : string)
  | PList (l : list PyVal) | PDict (d : list (string * PyVal)).

(** [type(v) in (int, float)] *)
Definition is_number (v : PyVal) : bool := match v with PInt _ | PFloat _ => true | _ => false end.
(** [v == n] and [v == s] *)
Definition eq_int (v : PyVal) (n : Z) : bool :=
  match v with PBool b => (if b then 1 else 0) =? n | PInt k => k =? n | PFloat f => float_eq_int f n | _ => false end.
Definition eq_str (v : PyVal) (s : string) : bool := match v with PStr t => String.eqb t s | _ => false end.
(** [v] of the type [int]. *)
Definition int_of (v : PyVal) : option Z := match v with PInt n => Some n | _ => None end.
(** [float(v)] of a number. *)
Definition number_to_float (v : PyVal) : res float :=
  match v with PInt n => float_of_int n | PFloat f => Ok f | PBool b => float_of_int (if b then 1 else 0) | _ => Err TypeError end.
(** [math.isfinite(v)], which converts an integer first. *)
Definition is_finite_number (v : PyVal) : res bool := f ← number_to_float v; Ok (isfinite f).
(** [0 <= v], [v <= 1] and [v > 0] of a number. *)
Definition in_unit (v : PyVal) : bool :=
  match v with PInt n => (0 <=? n) && (n <=? 1) | PFloat f => fleb fzero f && fleb f fone | _ => false end.
Definition positive_number (v : PyVal) : bool :=
  match v with PInt n => 0 <? n | PFloat f => fltb fzero f | _ => false end.

(** [v[k]] and [v.get(k)] with a string key; other values than dictionaries
    have no such item, or no such method. *)
Definition py_item (v : PyVal) (k : string) : res PyVal :=
  match v with PDict d => res_of_option KeyError (od_get k d) | _ => Err TypeError end.
Definition py_get (v : PyVal) (k : string) : res (option PyVal) :=
  match v with PDict d => Ok (od_get k d) | _ => Err AttributeError end.
(** A list of two integers. *)
Definition int_pair (v : PyVal) : option (Z * Z) :=
  match v with PList [PInt a; PInt b] => Some (a, b) | _ => None end.

(** An integer of more digits than [sys.get_int_max_str_digits()] has no text
    and is read from none: both conversions raise. *)
Definition int_max_str_digits : nat := 4300.
Definition digits_limit : Z := 10 ^ Z.of_nat int_max_str_digits.
#[global] Opaque int_max_str_digits digits_limit.
(** [str(v)] has a text: [repr] of a list or a dictionary makes those of all
    its values. *)
Fixpoint has_text (v : PyVal) : bool :=
  match v with
  | PInt n => Z.abs n <? digits_limit
  | PList l => forallb has_text l
  | PDict d => forallb (λ x, has_text x.2) d
  | _ => true
  end.
(** [str(v)], for what it raises. *)
Definition py_str (v : PyVal) : res unit := if has_text v then Ok tt else Err ValueError.

(** [int(s)]: blanks around, a sign, digits with single underscores between;
    of Unicode's blanks and digits, those of ASCII. *)
Definition is_blank (c : Ascii.ascii) : bool :=
  let n := Ascii.nat_of_ascii c in bool_decide (n = 32%nat ∨ (9 ≤ n ≤ 13)%nat ∨ (28 ≤ n ≤ 31)%nat).
Definition digit_of (c : Ascii.ascii) : option Z :=
  let n := Ascii.nat_of_ascii c in if bool_decide (48 ≤ n ≤ 57)%nat then Some (Z.of_nat n - 48) else None.
Fixpoint lstrip (s : list Ascii.ascii) : list Ascii.ascii :=
  match s with c :: s' => if is_blank c then lstrip s' else s | [] => [] end.
Definition strip (s : list Ascii.ascii) : list Ascii.ascii := reverse (lstrip (reverse (lstrip s))).
(** [last]: the previous character was a digit. *)
Fixpoint digits_from (acc : Z) (last : bool) (s : list Ascii.ascii) : option Z :=
  match s with
  | [] => if last then Some acc else None
  | c :: s =>
    match digit_of c with
    | Some d => digits_from (10 * acc + d) true s
    | None => if last && Ascii.eqb c "_"%char then digits_from acc false s else None
    end
  end.
Definition digit_count (s : string) : nat :=
  length (filter (λ c, is_Some (digit_of c)) (String.list_ascii_of_string s)).
Definition py_int (s : string) : res Z :=
  if (int_max_str_digits <? digit_count s)%nat then Err ValueError else
  res_of_option ValueError
    match strip (String.list_ascii_of_string s) with
    | "+"%char :: s => digits_from 0 false s
    | "-"%char :: s => Z.opp <$> digits_from 0 false s
    | s => digits_from 0 false s
    end.

Example py_int_examples :
  py_int "7" = Ok 7 ∧ py_int " -12 " = Ok (-12) ∧ py_int "1_000" = Ok 1000 ∧ py_int "1_" = Err ValueError ∧
  py_int "" = Err ValueError ∧ py_int "x" = Err ValueError.
Proof. split_and!; vm_compute; reflexivity. Qed.
Example py_str_examples :
  py_str (PInt (- (10 ^ 4300 - 1))) = Ok tt ∧ py_str (PInt (10 ^ 4300)) = Err ValueError ∧
  py_str (PList [PStr "a"; PDict [("b", PInt (10 ^ 4300))]]) = Err ValueError.
Proof. split_and!; vm_compute; reflexivity. Qed.
Example float_examples :
  float_of_int 1 = Ok fone ∧ float_of_int 2 = Ok ftwo ∧ fadd fone fone = ftwo ∧ int_truediv 4 2 = Ok ftwo ∧
  float_of_int (10 ^ 400) = Err OverflowError ∧ float_eq_int ftwo 2 = true ∧ fdiv fone fzero = Err ZeroDivisionError.
Proof. split_and!; vm_compute; reflexivity. Qed.

(** * Rounding

    Facts about Python's floats that the policy's theorems need: rounding
    keeps the sign, and does not turn a number of ordinary size into zero. *)

(** * Shifting mantissas *)

Lemma shr_1_m r : 0 ≤ shr_m r → shr_m (shr_1 r) = Z.shiftr (shr_m r) 1.
Proof. by destruct r as [[|[p|p|]|p] r s]; cbn. Qed.
Lemma iter_shr_m n r : 0 ≤ shr_m r → shr_m (iter_pos shr_1 n r) = Z.shiftr (shr_m r) (Z.pos n).
Proof.
  revert r. induction n as [n IH|n IH|]; intros r Hr; cbn [iter_pos].
  - assert (H1 : 0 ≤ shr_m (shr_1 r)) by (rewrite shr_1_m by done; by apply Z.shiftr_nonneg).
    rewrite IH by (rewrite IH by done; by apply Z.shiftr_nonneg). rewrite IH, shr_1_m, !Z.shiftr_shiftr by done. f_equal. lia.
  - rewrite IH by (rewrite IH by done; by apply Z.shiftr_nonneg). rewrite IH, Z.shiftr_shiftr by done. f_equal. lia.
  - by apply shr_1_m.
Qed.
Lemma digits_log2 p : Z.pos (digits2_pos p) = Z.log2 (Z.pos p) + 1.
Proof.
  induction p as [p IH|p IH|]; cbn [digits2_pos]; [| |done].
  - rewrite Pos2Z.inj_succ, IH. change (Z.pos p~1) with (2 * Z.pos p + 1). rewrite Z.log2_succ_double by done. lia.
  - rewrite Pos2Z.inj_succ, IH. change (Z.pos p~0) with (2 * Z.pos p). rewrite Z.log2_double by done. lia.
Qed.
Lemma Zdigits2_log2 m : 0 < m → Zdigits2 m = Z.log2 m + 1.
Proof. destruct m; intros; [lia|apply digits_log2|lia]. Qed.
Lemma shr_record_of_loc_m m l : shr_m (shr_record_of_loc m l) = m.
Proof. by destruct l as [|[]]. Qed.

Definition fexp64 (e : Z) : Z := Z.max (e - 53) (-1074).
Lemma fexp64_eq e : fexp 53 1024 e = fexp64 e.
Proof. done. Qed.

Lemma shr_fexp_nonneg m e l : 0 ≤ m → 0 ≤ shr_m (shr_fexp 53 1024 m e l).1.
Proof.
  intros Hm. unfold shr_fexp, shr. destruct (_ - e) as [|n|n]; cbn; rewrite ?shr_record_of_loc_m; [done| |done].
  rewrite iter_shr_m; rewrite shr_record_of_loc_m; [by apply Z.shiftr_nonneg|done].
Qed.
(** A mantissa whose leading bit weighs at least [2 ^ -1074] stays positive,
    and its leading bit keeps its weight. *)
Lemma shr_fexp_pos m e l : 0 < m → -1074 ≤ Z.log2 m + e →
  let t := shr_fexp 53 1024 m e l in 0 < shr_m t.1 ∧ Z.log2 (shr_m t.1) + t.2 = Z.log2 m + e.
Proof.
  intros Hm Hd. unfold shr_fexp. rewrite fexp64_eq, Zdigits2_log2 by done.
  destruct (fexp64 (Z.log2 m + 1 + e) - e) as [|n|n] eqn:En; cbn; rewrite ?shr_record_of_loc_m; [done| |done].
  assert (Hn : Z.pos n ≤ Z.log2 m) by (unfold fexp64 in En; lia).
  rewrite iter_shr_m; rewrite shr_record_of_loc_m; [|lia].
  assert (Hpos : 0 < Z.shiftr m (Z.pos n)).
  { rewrite Z.shiftr_div_pow2 by lia. apply Z.div_str_pos. split; [by apply Z.pow_pos_nonneg|].
    transitivity (2 ^ Z.log2 m); [by apply Z.pow_le_mono_r|]. by apply Z.log2_spec. }
  split; [done|]. rewrite Z.log2_shiftr by done. lia.
Qed.

Lemma round_nearest_even_bounds m l : m ≤ round_nearest_even m l ≤ m + 1.
Proof. destruct l as [|[]]; cbn; try destruct (Z.even m); lia. Qed.

(** * Signs *)

Definition nonneg (x : float) : Prop :=
  match x with S754_zero _ | S754_infinity false | S754_finite false _ _ => True | _ => False end.
Definition nonzero (x : float) : Prop := match x with S754_zero _ => False | _ => True end.

Lemma round_aux_nonneg m e l : 0 ≤ m → nonneg (binary_round_aux 53 1024 false m e l).
Proof.
  intros Hm. unfold binary_round_aux. pose proof (shr_fexp_nonneg m e l Hm) as H1.
  destruct (shr_fexp 53 1024 m e l) as [r1 e1]. cbn in H1.
  pose proof (round_nearest_even_bounds (shr_m r1) (loc_of_shr_record r1)).
  pose proof (shr_fexp_nonneg (round_nearest_even (shr_m r1) (loc_of_shr_record r1)) e1 loc_Exact ltac:(lia)) as H2.
  destruct (shr_fexp 53 1024 _ e1 loc_Exact) as [r2 e2]. cbn in H2. destruct (shr_m r2); [done| |lia]. by destruct (_ <=? _).
Qed.
Lemma round_aux_nonzero m e l : 0 < m → -1074 ≤ Z.log2 m + e → nonzero (binary_round_aux 53 1024 false m e l).
Proof.
  intros Hm Hd. unfold binary_round_aux. pose proof (shr_fexp_pos m e l Hm Hd) as [H1 H1'].
  destruct (shr_fexp 53 1024 m e l) as [r1 e1]. cbn in H1, H1'.
  set (m1 := round_nearest_even (shr_m r1) (loc_of_shr_record r1)).
  assert (Hm1 : shr_m r1 ≤ m1) by apply round_nearest_even_bounds.
  assert (Hl : Z.log2 (shr_m r1) ≤ Z.log2 m1) by by apply Z.log2_le_mono.
  pose proof (shr_fexp_pos m1 e1 loc_Exact ltac:(lia) ltac:(lia)) as [H2 _].
  destruct (shr_fexp 53 1024 m1 e1 loc_Exact) as [r2 e2]. cbn in H2. destruct (shr_m r2); [lia| |lia]. by destruct (_ <=? _).
Qed.

Lemma pos_iter_xO m n : Z.pos (Pos.iter xO m n) = Z.shiftl (Z.pos m) (Z.pos n).
Proof. change (Z.shiftl (Z.pos m) (Z.pos n)) with (Pos.iter (Z.mul 2) (Z.pos m) n). by apply Pos.iter_swap_gen. Qed.
(** Aligning to a smaller exponent keeps the weight of the leading bit. *)
Lemma shl_align_log2 m e e' : Z.log2 (Z.pos (shl_align m e e').1) + (shl_align m e e').2 = Z.log2 (Z.pos m) + e.
Proof.
  unfold shl_align. destruct (e' - e) as [|n|n] eqn:E; [done..|]. cbn [fst snd]. rewrite pos_iter_xO, Z.log2_shiftl by lia. lia.
Qed.
Lemma shl_align_exp m e e' : e' ≤ e → (shl_align m e e').2 = e'.
Proof. intros He. unfold shl_align. destruct (e' - e) as [|n|n] eqn:E; cbn [snd]; [lia|lia|done]. Qed.

Lemma binary_round_nonneg m e : nonneg (binary_round 53 1024 false m e).
Proof. unfold binary_round. destruct (shl_align _ _ _). by apply round_aux_nonneg. Qed.
Lemma binary_round_nonzero m e : -1074 ≤ Z.log2 (Z.pos m) + e → nonzero (binary_round 53 1024 false m e).
Proof.
  intros Hd. unfold binary_round. pose proof (shl_align_log2 m e (fexp 53 1024 (Z.pos (digits2_pos m) + e))) as Hl.
  destruct (shl_align m e _) as [mz ez]. cbn [fst snd] in Hl. apply round_aux_nonzero; lia.
Qed.


(** * The operations *)

Lemma fmul_nonneg x m e : nonneg x → nonneg (fmul x (S754_finite false m e)).
Proof. destruct x as [s|[]| |[]]; try done. intros _. by apply round_aux_nonneg. Qed.

(** The sum of a non-negative float and a positive number of ordinary size. *)
Lemma fadd_finite_pos m e m' e' : ∃ p, fadd (S754_finite false m e) (S754_finite false m' e') = binary_round 53 1024 false p (Z.min e e') ∧
  Z.log2 (Z.pos m') + e' ≤ Z.log2 (Z.pos p) + Z.min e e'.
Proof.
  eexists. split; [reflexivity|].
  pose proof (shl_align_log2 m' e' (Z.min e e')) as Hl. rewrite shl_align_exp in Hl by lia.
  assert (Z.log2 (Z.pos (shl_align m' e' (Z.min e e')).1) ≤
          Z.log2 (Z.pos ((shl_align m e (Z.min e e')).1 + (shl_align m' e' (Z.min e e')).1))) by (apply Z.log2_le_mono; lia).
  lia.
Qed.
Lemma fadd_nonneg x m e : nonneg x → nonneg (fadd x (S754_finite false m e)).
Proof.
  destruct x as [[]|[]| |[] m' e']; try done. intros _. destruct (fadd_finite_pos m' e' m e) as (p&->&_). apply binary_round_nonneg.
Qed.
Lemma fadd_zero_nonneg x : nonneg x → nonneg (fadd x fzero).
Proof. by destruct x as [[]|[]| |[]]. Qed.
Lemma fadd_nonzero x m e : nonneg x → -1074 ≤ Z.log2 (Z.pos m) + e → nonzero (fadd x (S754_finite false m e)).
Proof.
  destruct x as [[]|[]| |[] m' e']; try done. intros _ Hd. destruct (fadd_finite_pos m' e' m e) as (p&->&Hp).
  apply binary_round_nonzero. lia.
Qed.

Lemma fdiv_ok x y : nonzero y → ∃ z, fdiv x y = Ok z.
Proof. destruct y; cbn; eauto; done. Qed.
Lemma positive_nonzero x : fltb fzero x = true → nonzero x.
Proof. by destruct x. Qed.
Lemma at_least_two_nonzero x : fleb ftwo x = true → nonzero x.
Proof. by destruct x. Qed.

(** * The order of positive finite floats *)

Definition finite_positive (x : float) : Prop := ∃ m e, x = S754_finite false m e.
Lemma finite_positive_spec x : isfinite x = true → fltb fzero x = true → finite_positive x.
Proof. destruct x as [| | |[] m e]; try done. by exists m, e. Qed.

Definition float_lt (x y : float) : Prop := fltb x y = true.
Lemma fltb_finite m e m' e' :
  float_lt (S754_finite false m e) (S754_finite false m' e') ↔ e < e' ∨ e = e' ∧ (m < m')%positive.
Proof.
  unfold float_lt, fltb, SFltb, SFcompare. destruct (Z.compare_spec e e') as [->|?|?].
  - change (Pos.compare_cont Eq m m') with (Pos.compare m m'). destruct (Pos.compare_spec m m'); split; naive_solver lia.
  - split; [by left|done].
  - split; [done|lia].
Qed.
Lemma feqb_finite m e m' e' : feqb (S754_finite false m e) (S754_finite false m' e') = true ↔ e = e' ∧ m = m'.
Proof.
  unfold feqb, SFeqb, SFcompare. destruct (Z.compare_spec e e') as [->|?|?].
  - change (Pos.compare_cont Eq m m') with (Pos.compare m m'). destruct (Pos.compare_spec m m'); split; naive_solver lia.
  - split; [done|lia].
  - split; [done|lia].
Qed.
(** No greater than: [y < x] fails. *)
Lemma not_less_trans x y z : finite_positive x → finite_positive y → finite_positive z →
  ¬ float_lt y x → ¬ float_lt z y → ¬ float_lt z x.
Proof. intros (m&e&->) (m'&e'&->) (m''&e''&->). rewrite !fltb_finite. lia. Qed.
Lemma less_not_less x y : finite_positive x → finite_positive y → float_lt x y → ¬ float_lt y x.
Proof. intros (m&e&->) (m'&e'&->). rewrite !fltb_finite. lia. Qed.
Lemma not_less_less_trans x y z : finite_positive x → finite_positive y → nonneg z → ¬ float_lt y x → ¬ float_lt z y → ¬ float_lt z x.
Proof.
  intros (m&e&->) (m'&e'&->) Hz. destruct z as [|[]| |[] m'' e'']; try done. rewrite !fltb_finite. lia.
Qed.
