(* ===== verification/SpecSink.v ===== *)
(** The trace writer [JsonlSink] of
    src/overlay/vllm/v1/spec_decode/adaptive.py: callers put rows into a
    bounded queue without waiting, a thread writes them to a file.  What the
    file system does at a write or flush is the choice of a step. *)
From S2P Require Import Prelude.
From stdpp Require Import base list.
From Stdlib Require Import ZArith Lia.
#[local] Open Scope list_scope.
#[local] Open Scope Z_scope.

Section sink.
Context {R : Type}.

Definition maxsize : nat := 4096.
(** A line of the file: a row, or the closing line with the drop count. *)
Inductive Line := LRow (row : R) | LClose (dropped : Z).
(** The writer thread: opening the file, in its loop (with unflushed lines or
    not), about to write the closing line, ended. *)
Inductive Writer := WOpening | WLoop (dirty : bool) | WClosing | WEnded.
(** [close]: not called, putting the sentinel, returned. *)
Inductive Closing := Open | Putting | Returned.

(** The sink; [None] in the queue is the sentinel of [close].  [offered], [accepted]
    and [lost] are the calls of [emit], what the queue took and what a failing
    write dropped: they are for the theorems, no operation reads them. *)
Record JsonlSink := mkSink {
  queue : list (option R); dropped : Z; error : bool; closed : bool; writer : Writer; closing : Closing;
  written : list Line; offered : Z; accepted : list R; lost : list R }.
Definition new_sink : JsonlSink := mkSink [] 0 false false WOpening Open [] 0 [] [].

(** [emit], which never blocks and never raises. *)
Definition emit (row : R) (s : JsonlSink) : JsonlSink :=
  if error s || closed s || bool_decide (maxsize ≤ length (queue s))%nat then
    mkSink (queue s) (dropped s + 1) (error s) (closed s) (writer s) (closing s) (written s) (offered s + 1) (accepted s) (lost s)
  else mkSink (queue s ++ [Some row]) (dropped s) (error s) (closed s) (writer s) (closing s) (written s) (offered s + 1) (accepted s ++ [row]) (lost s).

Definition alive (s : JsonlSink) : bool := match writer s with WEnded => false | _ => true end.
Definition with_writer (w : Writer) (s : JsonlSink) : JsonlSink :=
  mkSink (queue s) (dropped s) (error s) (closed s) w (closing s) (written s) (offered s) (accepted s) (lost s).
(** [except Exception as exc: self.error = repr(exc)], which ends the thread. *)
Definition failed (lost_rows : list R) (q : list (option R)) (s : JsonlSink) : JsonlSink :=
  mkSink q (dropped s) true (closed s) WEnded (closing s) (written s) (offered s) (accepted s) (lost s ++ lost_rows).

(** One step of the writer thread; [ok] is whether the file system obliges.
    Without work and without unflushed lines it waits. *)
Definition write_step (ok : bool) (s : JsonlSink) : option JsonlSink :=
  match writer s with
  | WEnded => None
  | WOpening => Some (if ok then with_writer (WLoop false) s else failed [] (queue s) s)
  | WClosing =>
    Some (if ok then mkSink (queue s) (dropped s) (error s) (closed s) WEnded (closing s) (written s ++ [LClose (dropped s)]) (offered s) (accepted s) (lost s)
          else failed [] (queue s) s)
  | WLoop dirty =>
    match queue s with
    | [] => if dirty then Some (if ok then with_writer (WLoop false) s else failed [] [] s) else None
    | None :: q => Some (mkSink q (dropped s) (error s) (closed s) WClosing (closing s) (written s) (offered s) (accepted s) (lost s))
    | Some row :: q =>
      Some (if ok then mkSink q (dropped s) (error s) (closed s) (WLoop true) (closing s) (written s ++ [LRow row]) (offered s) (accepted s) (lost s)
            else failed [row] q s)
    end
  end.

(** [close]: it marks the sink, and puts the sentinel unless the thread has
    ended; a queue that stays full for a second makes it give up. *)
Definition close_begin (s : JsonlSink) : JsonlSink :=
  if closed s then s else
  mkSink (queue s) (dropped s) (error s) true (writer s) (if alive s then Putting else Returned) (written s) (offered s) (accepted s) (lost s).
Definition close_put (s : JsonlSink) : option JsonlSink :=
  match closing s with
  | Putting =>
    if bool_decide (length (queue s) < maxsize)%nat then
      Some (mkSink (queue s ++ [None]) (dropped s) (error s) (closed s) (writer s) Returned (written s) (offered s) (accepted s) (lost s))
    else None
  | _ => None
  end.
Definition close_give_up (s : JsonlSink) : option JsonlSink :=
  match closing s with
  | Putting =>
    if bool_decide (maxsize ≤ length (queue s))%nat then
      Some (mkSink (queue s) (dropped s) (error s) (closed s) (writer s) Returned (written s) (offered s) (accepted s) (lost s))
    else None
  | _ => None
  end.

(** The callers and the thread, interleaved. *)
Inductive sink_step : JsonlSink → JsonlSink → Prop :=
  | step_emit row s : sink_step s (emit row s)
  | step_write ok s s' : write_step ok s = Some s' → sink_step s s'
  | step_close s : sink_step s (close_begin s)
  | step_put s s' : close_put s = Some s' → sink_step s s'
  | step_give_up s s' : close_give_up s = Some s' → sink_step s s'.
Inductive sink_run : JsonlSink → list JsonlSink → JsonlSink → Prop :=
  | run_nil s : sink_run s [] s
  | run_cons s s1 tr s2 : sink_step s s1 → sink_run s1 tr s2 → sink_run s (s1 :: tr) s2.

(** * What the file holds *)

Definition rows_of (q : list (option R)) : list R := omap id q.
Definition rows_written (ls : list Line) : list R := omap (λ l, match l with LRow r => Some r | LClose _ => None end) ls.
Definition is_row (l : Line) : Prop := match l with LRow _ => True | LClose _ => False end.

(** Rows are written in the order they were accepted: each is in the file, or
    was lost by the failing write that ended the thread, or waits.  The
    sentinel is last, put at most once and after the sink was closed; the
    closing line follows every accepted row. *)
Record sink_ok (s : JsonlSink) : Prop := {
  sk_count : offered s = dropped s + Z.of_nat (length (accepted s));
  sk_rows : accepted s = rows_written (written s) ++ lost s ++ rows_of (queue s);
  sk_bound : (length (queue s) ≤ maxsize)%nat;
  sk_lost : lost s ≠ [] → error s = true ∧ writer s = WEnded;
  sk_sentinel : ∃ rows, queue s = Some <$> rows ∨ (queue s = (Some <$> rows) ++ [None] ∧ closing s = Returned ∧ closed s = true);
  sk_open : closing s = Open ↔ closed s = false;
  sk_closing : writer s = WClosing → queue s = [] ∧ closed s = true ∧ closing s = Returned ∧ error s = false;
  sk_error : error s = true → writer s = WEnded;
  sk_written : Forall is_row (written s) ∨
    ∃ ls n, written s = ls ++ [LClose n] ∧ Forall is_row ls ∧ queue s = [] ∧ lost s = [] ∧ closed s = true ∧ closing s = Returned ∧ writer s = WEnded;
  sk_ended : writer s = WEnded → error s = false → ∃ ls n, written s = ls ++ [LClose n] }.

Lemma rows_of_app q1 q2 : rows_of (q1 ++ q2) = rows_of q1 ++ rows_of q2.
Proof. apply omap_app. Qed.
Lemma rows_of_some rows : rows_of (Some <$> rows) = rows.
Proof. induction rows as [|r rows IH]; [done|]. cbn. by f_equal. Qed.
Lemma rows_written_app l1 l2 : rows_written (l1 ++ l2) = rows_written l1 ++ rows_written l2.
Proof. apply omap_app. Qed.

Lemma emit_ok row s : sink_ok s → sink_ok (emit row s).
Proof.
  intros [Hc Hr Hb Hl (rows&Hs) Ho Hcl He Hw Hen]. unfold emit. destruct (error s || closed s || _) eqn:E.
  { split; cbn; try done; [lia|eauto]. }
  apply orb_false_iff in E as [[Ee Ecl]%orb_false_iff Ef%bool_decide_eq_false].
  assert (Hq : queue s = Some <$> rows) by (destruct Hs as [?|(_&_&?)]; [done|congruence]).
  split; cbn; try done.
  - rewrite length_app. cbn. lia.
  - rewrite Hr, rows_of_app. cbn. by rewrite <- !(assoc_L (++)).
  - rewrite length_app. cbn. lia.
  - exists (rows ++ [row]). left. by rewrite fmap_app, Hq.
  - intros H. apply Hcl in H as (_&?&_). congruence.
  - destruct Hw as [?|(ls&n&_&_&_&_&?&_)]; [by left|congruence].
Qed.

Lemma write_step_ok ok s s' : write_step ok s = Some s' → sink_ok s → sink_ok s'.
Proof.
  intros H [Hc Hr Hb Hl (rows&Hs) Ho Hcl He Hw Hen]. unfold write_step in H.
  assert (Hne : writer s ≠ WEnded → error s = false ∧ lost s = [] ∧ Forall is_row (written s)).
  { intros Hn. split_and!; [destruct (error s); [by destruct (Hn (He eq_refl))|done]|destruct (lost s); [done|by destruct (Hl ltac:(done)) as [_ ?]]|].
    destruct Hw as [?|(ls&n&_&_&_&_&_&_&?)]; done. }
  destruct (writer s) eqn:Ew; [| |destruct (Hcl eq_refl) as (Hq&Hcd&Hcg&Her)|done]; destruct (Hne ltac:(done)) as (Herr&Hlost&Hrow).
  - injection H as <-. destruct ok; split; cbn; try done; rewrite ?Hlost, ?app_nil_r in *; eauto; first [by left|intros; congruence].
  - destruct (queue s) as [|[row|] q] eqn:Eq.
    + destruct dirty; [|done]. injection H as <-. destruct ok; split; cbn; rewrite ?Eq, ?Hlost, ?app_nil_r in *; try done; eauto; first [by left|intros; congruence].
    + assert (Hq' : ∃ rows', q = Some <$> rows' ∨ (q = (Some <$> rows') ++ [None] ∧ closing s = Returned ∧ closed s = true)).
      { destruct rows as [|r rows]; cbn in Hs; [destruct Hs as [?|[? _]]; done|]. exists rows. naive_solver. }
      injection H as <-. destruct ok; split; cbn in *; rewrite ?Hlost, ?rows_written_app in *; cbn in *;
        rewrite <- ?(assoc_L (++)); try done; try lia; try (by left); try (exact Hq');
        [intros; congruence|left; apply Forall_app; split; [done|by repeat constructor]].
    + assert (q = [] ∧ closing s = Returned ∧ closed s = true) as (->&?&?).
      { destruct rows as [|r rows]; cbn in Hs; [destruct Hs as [?|([= ->]&?&?)]; done|]. naive_solver. }
      injection H as <-. split; cbn in *; try done; try lia; first [by exists []; left|by left|intros; congruence].
  - injection H as <-. destruct ok; split; cbn; rewrite ?Hlost, ?Hq, ?rows_written_app, ?app_nil_r in *; cbn; rewrite ?app_nil_r; try done;
      first [by exists []; left|intros; congruence|by left|right; by eexists _, _|by intros; eexists _, _].
Qed.

Lemma close_ok s : sink_ok s →
  sink_ok (close_begin s) ∧ (∀ s', close_put s = Some s' → sink_ok s') ∧ (∀ s', close_give_up s = Some s' → sink_ok s').
Proof.
  intros Hok. pose proof Hok as [Hc Hr Hb Hl (rows&Hs) Ho Hcl He Hw Hen].
  assert (Hput : closing s = Putting → queue s = Some <$> rows ∧ closed s = true ∧ Forall is_row (written s) ∧ writer s ≠ WClosing).
  { intros E. destruct (closed s) eqn:Ec; [|by rewrite (proj2 Ho eq_refl) in E].
    split_and!; [|done| |].
    - destruct Hs as [?|(_&E2&_)]; [done|congruence].
    - destruct Hw as [?|(ls&n&_&_&_&_&_&E2&_)]; [done|congruence].
    - intros Hx. apply Hcl in Hx as (_&_&E2&_). congruence. }
  split_and!.
  - unfold close_begin. destruct (closed s) eqn:Ec; [done|].
    assert (Hq : queue s = Some <$> rows) by (destruct Hs as [?|(_&_&?)]; [done|congruence]).
    assert (Hrow : Forall is_row (written s)) by (destruct Hw as [?|(ls&n&_&_&_&_&?&_)]; [done|congruence]).
    split; cbn; try done; [by exists rows; left|by destruct (alive s)|intros H; apply Hcl in H as (_&?&_); congruence|by left].
  - intros s' H. unfold close_put in H. destruct (closing s) eqn:E; try done.
    destruct (Hput eq_refl) as (Hq&Hcd&Hrow&Hn). destruct (bool_decide _) eqn:Eb; [|done]. apply bool_decide_eq_true in Eb.
    injection H as <-. split; cbn; try done.
    + by rewrite Hr, rows_of_app, app_nil_r.
    + rewrite length_app. cbn. lia.
    + exists rows. right. by rewrite Hq.
    + rewrite Hcd. done.
    + by left.
  - intros s' H. unfold close_give_up in H. destruct (closing s) eqn:E; try done.
    destruct (Hput eq_refl) as (Hq&Hcd&Hrow&Hn). destruct (bool_decide _); [|done].
    injection H as <-. split; cbn; try done; [by exists rows; left|by rewrite Hcd|by left].
Qed.

Lemma sink_run_ok s tr s' : sink_run s tr s' → sink_ok s → sink_ok s'.
Proof.
  induction 1 as [|s s1 tr s2 Hstep _ IH]; [done|]. intros Hs. apply IH.
  destruct Hstep as [|? ? ? Hw| |? ? Hp|? ? Hg]; [by apply emit_ok|by eapply write_step_ok|..]; destruct (close_ok _ Hs) as (?&?&?); auto.
Qed.
Lemma new_sink_ok : sink_ok new_sink.
Proof. split; cbn; try done; [lia|by exists []; left|by left]. Qed.

Lemma rows_written_rows ls : Forall is_row ls → LRow <$> rows_written ls = ls.
Proof. induction 1 as [|[r|n] ls Hl _ IH]; [done| |done]. cbn. by f_equal. Qed.

(** The trace writer never makes its caller wait and accounts for every
    row: whatever the file system and the threads do, each offered row is
    counted as dropped or was accepted, the queue holds at most its bound, the
    accepted rows are, in order, those in the file, those a failing write
    lost, and those still queued; nothing is lost without the error being
    recorded; and a writer that ended without error has written exactly the
    accepted rows, in order, followed by the closing line. *)
Theorem sink_accounting tr (s : JsonlSink) : sink_run new_sink tr s →
  offered s = dropped s + Z.of_nat (length (accepted s)) ∧
  accepted s = rows_written (written s) ++ lost s ++ rows_of (queue s) ∧ (length (queue s) ≤ maxsize)%nat ∧
  (lost s ≠ [] → error s = true) ∧
  (writer s = WEnded → error s = false → ∃ n, written s = (LRow <$> accepted s) ++ [LClose n]).
Proof.
  intros Hrun. destruct (sink_run_ok _ _ _ Hrun new_sink_ok) as [Hc Hr Hb Hl _ _ _ _ Hw Hen].
  split_and!; [done..|naive_solver|]. intros Hwr Herr. destruct (Hen Hwr Herr) as (ls&n&E).
  destruct Hw as [Hf|(ls'&n'&E'&Hrow&Hq&Hlost&_)].
  { rewrite E in Hf. apply Forall_app in Hf as [_ Hf]. by apply Forall_inv in Hf. }
  exists n'. rewrite Hr, E', Hq, Hlost, rows_written_app. cbn. by rewrite !app_nil_r, rows_written_rows.
Qed.
End sink.


(** Two rows offered, the second after [close]. *)
Definition sample_sink : JsonlSink := mkSink [] 1 false true WEnded Returned [LRow 3; LClose 1] 2 [3] [].
Lemma sink_accounting_witness : (∃ tr, sink_run new_sink tr sample_sink) ∧ ∃ n, written sample_sink = (LRow <$> accepted sample_sink) ++ [LClose n].
Proof.
  assert (Hrun : ∃ tr, sink_run (R := Z) new_sink tr sample_sink).
  { eexists. eapply run_cons; [apply (step_write true); reflexivity|]. eapply run_cons; [apply (step_emit 3)|].
    eapply run_cons; [apply (step_write true); reflexivity|]. eapply run_cons; [apply step_close|].
    eapply run_cons; [apply (step_emit 4)|]. eapply run_cons; [apply step_put; reflexivity|].
    eapply run_cons; [apply (step_write true); reflexivity|]. eapply run_cons; [apply (step_write true); reflexivity|].
    apply run_nil. }
  split; [exact Hrun|]. destruct Hrun as [tr Hrun]. by apply (sink_accounting tr).
Defined.
