(* ===== verification/SpecConfidence.v ===== *)
(** The trace of drafter confidence, [ConfidenceCollector] of
    src/overlay/vllm/v1/spec_decode/confidence_trace.py.  In each step the model
    runner calls [capture] after the target model has verified the draft tokens
    of the step before, and [proposed] once the drafter has proposed new ones; it
    calls [add] and [remove] between steps.  A packet pairs the scores of a
    proposal with what the target made of it.

    A tensor is its type, its shape and its cells in row-major order.  [clone]
    copies what the tensor holds when the copy is queued on the main stream, and
    [packet_to_host] copies it once more: both are the value itself here. *)
From S2P Require Import Prelude PyDict PyNum.
From stdpp Require Import base list list_numbers gmap strings.
From Stdlib Require Import ZArith Lia.
#[local] Open Scope string_scope.
#[local] Open Scope list_scope.
#[local] Open Scope Z_scope.

Definition PACKET_LIMIT : Z := 128.
Definition PACKET_VERSION : Z := 1.

(** * When the trace is on *)

(** What [enabled] reads of the configuration; an attribute that [getattr]
    looks up with a default may be missing. *)
Record SpeculativeConfig := mkSpeculative { method : string; rejection_sample_method : option string }.
Record TraceConfig := mkTraceConfig {
  speculative_config : option SpeculativeConfig; num_speculative_tokens : Z; use_v2_model_runner : bool;
  pipeline_parallel_size : Z; data_parallel_size : Z; async_scheduling : bool }.

(** [trace] is [os.environ.get("GLM_SPEC_CONFIDENCE_TRACE")]. *)
Definition enabled (trace : option string) (config : TraceConfig) (tp_rank : Z) : bool :=
  bool_decide (trace = Some "1") && (tp_rank =? 0) && use_v2_model_runner config &&
  match speculative_config config with
  | None => false
  | Some spec =>
    String.eqb (method spec) "dflash" && (num_speculative_tokens config =? 7) &&
    negb (String.eqb (default "standard" (rejection_sample_method spec)) "synthetic") &&
    (pipeline_parallel_size config =? 1) && (data_parallel_size config =? 1) && async_scheduling config
  end.

(** A request as it is added.  The attributes that are only tested for truth
    are booleans, a missing one is false. *)
Record SamplingParams := mkSampling {
  temperature : PyVal; extra_args : option (odict string PyVal); structured_outputs : bool;
  presence_penalty : option PyVal; frequency_penalty : option PyVal; repetition_penalty : option PyVal;
  allowed_token_ids : bool; bad_words : bool; logit_bias : bool }.
Record NewRequest := mkNewRequest {
  req_id : string; sampling_params : option SamplingParams; resumable : bool; lora_request : bool; mm_features : bool }.

(** [type(v) in (bool, int)] *)
Definition is_bool_or_int (v : PyVal) : bool := match v with PBool _ | PInt _ => true | _ => false end.
Definition request_eligible (data : NewRequest) : bool :=
  match sampling_params data with
  | None => false
  | Some sp =>
    let xargs := default [] (extra_args sp) in
    let capture := default (PBool true) (od_get "spec_confidence_trace" xargs) in
    eq_int (temperature sp) 0 && is_bool_or_int capture && eq_int capture 1 &&
    negb (structured_outputs sp) && negb (resumable data) && negb (lora_request data) && negb (mm_features data) &&
    eq_int (default (PInt 0) (presence_penalty sp)) 0 && eq_int (default (PInt 0) (frequency_penalty sp)) 0 &&
    eq_int (default (PInt 1) (repetition_penalty sp)) 1 &&
    negb (allowed_token_ids sp) && negb (bad_words sp) && negb (logit_bias sp)
  end.

(** * The collector *)

Record Tracked := mkTracked { t_epoch : Z; t_eligible : bool; t_serial : Z; t_captured : Z }.
Record Proposal := mkProposal { p_request : string; p_epoch : Z; p_id : Z; p_worker_step : Z }.
Record Collector := mkCollector {
  incarnation : Z; worker_step : Z; requests : gmap string Tracked; previous : option Proposal }.
Definition new_collector : Collector := mkCollector 0 0 ∅ None.
Definition set_requests f (s : Collector) := mkCollector (incarnation s) (worker_step s) (f (requests s)) (previous s).
Definition set_previous p (s : Collector) := mkCollector (incarnation s) (worker_step s) (requests s) p.

(** What a step hands to the collector. *)
Inductive DType := float32 | int64 | int32 | other_dtype.
#[export] Instance dtype_eq_dec : EqDecision DType.
Proof. solve_decision. Defined.
Record Tensor (A : Type) := mkTensor { dtype : DType; shape : list Z; cells : list A }.
Arguments mkTensor {A} _ _ _.
Arguments dtype {A} _.
Arguments shape {A} _.
Arguments cells {A} _.
Definition ndim {A} (t : Tensor A) : nat := length (shape t).
(** [t.shape[0]]: read only after a test of [ndim]. *)
Definition shape0 {A} (t : Tensor A) : Z := default 0 (head (shape t)).
Record Batch := mkBatch {
  num_reqs : Z; req_ids : list string; has_structured_output_reqs : bool; is_prefilling_np : list bool;
  num_draft_tokens : Z; num_tokens : Z; positions : Tensor Z; input_ids : Tensor Z }.
Record Speculator := mkSpeculator {
  _selector_scores : option (Tensor float); sample_pos : option (Tensor Z); draft_tokens : option (Tensor Z) }.

Record Meta := mkMeta {
  m_version : Z; m_epoch : Z; proposal_id : Z; proposal_worker_step : Z; verified_worker_step : Z;
  proposal_age_steps : Z; verified_k : Z }.
Record Packet := mkPacket {
  pk_request : string; pk_meta : Meta; realized_scores : list (list float); sample_positions : list Z;
  pk_draft_tokens : list Z; target_positions : list Z; target_tokens : list Z }.

Definition remove (rid : string) : M Collector unit :=
  modify (set_requests (delete rid));;
  s ← get;
  match previous s with
  | Some p => if String.eqb (p_request p) rid then modify (set_previous None) else mret tt
  | None => mret tt
  end.

Definition add (data : NewRequest) : M Collector unit :=
  remove (req_id data);;
  modify (λ s, mkCollector (incarnation s + 1) (worker_step s) (requests s) (previous s));;
  s ← get;
  modify (set_requests <[req_id data := mkTracked (incarnation s) (request_eligible data) 0 0]>);;
  modify (set_previous None).

Definition _owner (s : Collector) (batch : Batch) : res (option (string * Tracked)) :=
  if negb (Z.of_nat (size (requests s)) =? 1) || negb (num_reqs batch =? 1) || negb (Z.of_nat (length (req_ids batch)) =? 1) then Ok None else
  rid ← res_of_option IndexError (head (req_ids batch));
  match requests s !! rid with
  | None => Ok None
  | Some state =>
    if negb (t_eligible state) || (PACKET_LIMIT <=? t_captured state) || has_structured_output_reqs batch then Ok None else
    prefilling ← res_of_option IndexError (head (is_prefilling_np batch));
    if (prefilling : bool) || negb (bool_decide (num_draft_tokens batch ∈ [1; 3; 5; 7])) ||
      negb (num_tokens batch =? num_draft_tokens batch + 1) then Ok None
    else Ok (Some (rid, state))
  end.

(** The proposal is the one of the step before, of the same incarnation. *)
Definition is_previous (s : Collector) (rid : string) (state : Tracked) (p : Proposal) : bool :=
  String.eqb (p_request p) rid && (p_epoch p =? t_epoch state) && (p_worker_step p =? worker_step s - 1).

Definition scores_ok (t : Tensor float) : bool :=
  (ndim t =? 3)%nat && bool_decide (drop 1 (shape t) = [7; 16]) && negb (shape0 t <? 1) && bool_decide (dtype t = float32).
Definition sample_pos_ok (t : Tensor Z) : bool :=
  (ndim t =? 1)%nat && negb (shape0 t <? 7) && bool_decide (dtype t = int64).
Definition drafts_ok (t : Tensor Z) : bool :=
  (ndim t =? 2)%nat && negb (shape0 t <? 1) && bool_decide (shape t !! 1%nat = Some 7) && bool_decide (dtype t = int64).
Definition batch_ok (b : Batch) : bool :=
  (ndim (positions b) =? 1)%nat && bool_decide (dtype (positions b) = int64) &&
  (ndim (input_ids b) =? 1)%nat && bool_decide (dtype (input_ids b) = int32) &&
  negb (Z.min (shape0 (positions b)) (shape0 (input_ids b)) <? num_tokens b).

(** [t[0, :n, :m]] of rows of [m] cells. *)
Definition matrix {A} (n m : nat) (t : Tensor A) : list (list A) := (λ r, take m (drop (r * m) (cells t))) <$> seq 0 n.
(** [t[:n]], and [t[0, :n]] of rows of [n] cells *)
Definition first_cells {A} (n : nat) (t : Tensor A) : list A := take n (cells t).

Definition no_packet : M Collector (option Packet) := modify (set_previous None);; mret None.
Definition capture (batch : Batch) (speculator : Speculator) : M Collector (option Packet) :=
  modify (λ s, mkCollector (incarnation s) (worker_step s + 1) (requests s) (previous s));;
  s ← get;
  owned ← lift (_owner s batch);
  match owned, previous s with
  | Some (rid, state), Some p =>
    if negb (is_previous s rid state p) then no_packet else
    match _selector_scores speculator, sample_pos speculator, draft_tokens speculator with
    | Some scores, Some sample, Some drafts =>
      if negb (scores_ok scores && sample_pos_ok sample && drafts_ok drafts && batch_ok batch) then no_packet else
      let n := Z.to_nat (num_tokens batch) in
      modify (set_requests <[rid := mkTracked (t_epoch state) (t_eligible state) (t_serial state) (t_captured state + 1)]>);;
      mret (Some (mkPacket rid
        (mkMeta PACKET_VERSION (t_epoch state) (p_id p) (p_worker_step p) (worker_step s)
           (worker_step s - p_worker_step p) (num_draft_tokens batch))
        (matrix 7 16 scores) (first_cells 7 sample) (first_cells 7 drafts) (first_cells n (positions batch)) (first_cells n (input_ids batch))))
    | _, _, _ => no_packet
    end
  | _, _ => no_packet
  end.

Definition proposed (batch : Batch) : M Collector unit :=
  s ← get;
  owned ← lift (_owner s batch);
  match owned with
  | None => modify (set_previous None)
  | Some (rid, state) =>
    modify (set_requests <[rid := mkTracked (t_epoch state) (t_eligible state) (t_serial state + 1) (t_captured state)]>);;
    modify (set_previous (Some (mkProposal rid (t_epoch state) (t_serial state + 1) (worker_step s))))
  end.

(** * The row that is written *)

Inductive Reason := shape_mismatch | nonfinite_score | anchor_or_position_mismatch | verified_draft_token_mismatch.
#[export] Instance reason_eq_dec : EqDecision Reason.
Proof. solve_decision. Defined.
(** The other columns of the row are those of the packet. *)
Record Row := mkRow { valid : bool; invalid_reason : option Reason; anchor : option Z; row_scores : option (list (list float)) }.

Definition packet_reason (p : Packet) : res (option Reason) :=
  let k := verified_k (pk_meta p) in
  let target := target_tokens p in
  let sample := sample_positions p in
  let drafts := pk_draft_tokens p in
  let scores := realized_scores p in
  if negb (bool_decide (k ∈ [1; 3; 5; 7])) || negb (Z.of_nat (length (target_positions p)) =? k + 1) ||
    negb (Z.of_nat (length target) =? k + 1) || negb (length sample =? 7)%nat || negb (length drafts =? 7)%nat ||
    negb (length scores =? 7)%nat || existsb (λ values, negb (length values =? 16)%nat) scores
  then Ok (Some shape_mismatch)
  else if existsb (existsb (λ v, negb (isfinite v))) scores then Ok (Some nonfinite_score)
  else
    position ← res_of_option IndexError (head (target_positions p));
    first ← res_of_option IndexError (head sample);
    if (position <? 0) || negb (first - 1 =? position) ||
      negb (bool_decide (target_positions p = seqZ position (k + 1))) || negb (bool_decide (sample = seqZ (position + 1) 7))
    then Ok (Some anchor_or_position_mismatch)
    else if negb (bool_decide (drop 1 target = take (Z.to_nat k) drafts)) then Ok (Some verified_draft_token_mismatch)
    else Ok None.

Definition finish_packet (p : Packet) : res (string * Row) :=
  reason ← packet_reason p;
  match reason with
  | None => position ← res_of_option IndexError (head (target_positions p)); Ok (pk_request p, mkRow true None (Some position) (Some (realized_scores p)))
  | Some _ => Ok (pk_request p, mkRow false reason None None)
  end.

(** * Sessions *)

Inductive Call :=
  | CAdd (data : NewRequest) | CRemove (rid : string)
  | CCapture (batch : Batch) (speculator : Speculator) | CProposed (batch : Batch).
Definition step (c : Call) : M Collector (option Packet) :=
  match c with
  | CAdd data => add data;; mret None
  | CRemove rid => remove rid;; mret None
  | CCapture batch speculator => capture batch speculator
  | CProposed batch => proposed batch;; mret None
  end.
(** The collector after some calls; a call that raises leaves what it did. *)
Definition after (calls : list Call) : Collector := foldl (λ s c, (step c s).2) new_collector calls.
(** The packet that the call [c] returns after [pre]. *)
Definition packet_at (pre : list Call) (c : Call) : option Packet := match (step c (after pre)).1 with Ok o => o | Err _ => None end.
Fixpoint packets_from (pre calls : list Call) : list Packet :=
  match calls with [] => [] | c :: calls => option_list (packet_at pre c) ++ packets_from (pre ++ [c]) calls end.
(** All packets of a session. *)
Definition packets (calls : list Call) : list Packet := packets_from [] calls.

Lemma after_snoc pre c : after (pre ++ [c]) = (step c (after pre)).2.
Proof. unfold after. by rewrite foldl_app. Qed.
Lemma packets_snoc calls c : packets (calls ++ [c]) = packets calls ++ option_list (packet_at calls c).
Proof.
  unfold packets. assert (H : ∀ l pre, packets_from pre (l ++ [c]) = packets_from pre l ++ option_list (packet_at (pre ++ l) c)); [|apply (H calls [])].
  induction l as [|d l IH]; intros pre; cbn [packets_from app]; [by rewrite !app_nil_r|]. by rewrite IH, <- !app_assoc.
Qed.

Definition is_capture (c : Call) : Prop := match c with CCapture _ _ => True | _ => False end.
Definition is_add (c : Call) : Prop := match c with CAdd _ => True | _ => False end.
#[export] Instance is_capture_dec c : Decision (is_capture c).
Proof. destruct c; solve_decision. Defined.
#[export] Instance is_add_dec c : Decision (is_add c).
Proof. destruct c; solve_decision. Defined.
Definition count (P : Call → Prop) `{∀ c, Decision (P c)} (l : list Call) : Z := Z.of_nat (length (filter P l)).
Lemma count_snoc P `{∀ c, Decision (P c)} l c : count P (l ++ [c]) = count P l + (if decide (P c) then 1 else 0).
Proof. unfold count. rewrite filter_app, length_app. cbn. unfold filter. destruct (decide (P c)); cbn; lia. Qed.
Lemma count_app P `{∀ c, Decision (P c)} l k : count P (l ++ k) = count P l + count P k.
Proof. unfold count. rewrite filter_app, length_app. lia. Qed.
Lemma count_nonneg P `{∀ c, Decision (P c)} l : 0 ≤ count P l.
Proof. unfold count. lia. Qed.

(** Calls that leave the request [rid] alone. *)
Definition spares (rid : string) (c : Call) : Prop :=
  match c with CAdd data => req_id data ≠ rid | CRemove r => r ≠ rid | _ => True end.
(** Calls that change nothing while [rid] is the only request: others, which are
    gone already, are removed, or [proposed] raises. *)
Definition idle (rid : string) (c : Call) : Prop :=
  match c with CRemove r => r ≠ rid | CProposed batch => is_prefilling_np batch = [] | _ => False end.

(** The requests tracked after [calls] are those added and not removed since. *)
Definition tracked_ok (calls : list Call) (rid : string) (st : Tracked) : Prop :=
  0 ≤ t_serial st ∧ ∃ pre data post, calls = pre ++ CAdd data :: post ∧ req_id data = rid ∧ Forall (spares rid) post ∧
    t_epoch st = count is_add pre + 1 ∧ t_eligible st = request_eligible data.
(** The proposal that is remembered was made by its own request alone. *)
Definition proposal_ok (calls : list Call) (s : Collector) (p : Proposal) : Prop :=
  ∃ pre batch post st, calls = pre ++ CProposed batch :: post ∧ req_ids batch = [p_request p] ∧
    Forall (λ c, is_capture c ∨ idle (p_request p) c) post ∧ p_worker_step p = count is_capture pre ∧
    requests s = {[p_request p := st]} ∧ t_epoch st = p_epoch p ∧ p_id p = t_serial st.
Definition packet_key (p : Packet) : Z * Z := (m_epoch (pk_meta p), proposal_id (pk_meta p)).
Definition of_epoch (e : Z) (p : Packet) : Prop := m_epoch (pk_meta p) = e.
#[export] Instance of_epoch_dec e p : Decision (of_epoch e p).
Proof. unfold of_epoch. apply _. Defined.
Definition epoch_count (e : Z) (l : list Packet) : Z := Z.of_nat (length (filter (of_epoch e) l)).

Record Inv (calls : list Call) (s : Collector) (out : list Packet) : Prop := {
  inv_step : worker_step s = count is_capture calls;
  inv_incarnation : incarnation s = count is_add calls;
  inv_tracked : ∀ rid st, requests s !! rid = Some st → tracked_ok calls rid st;
  inv_fresh : ∀ rid st, requests s !! rid = Some st → t_epoch st ≤ incarnation s ∧ t_captured st = epoch_count (t_epoch st) out ∧
    ∀ p, p ∈ out → of_epoch (t_epoch st) p → proposal_id (pk_meta p) ≤ t_serial st;
  inv_epochs : ∀ r1 r2 st1 st2, requests s !! r1 = Some st1 → requests s !! r2 = Some st2 → t_epoch st1 = t_epoch st2 → r1 = r2;
  inv_previous : ∀ p, previous s = Some p → proposal_ok calls s p ∧
    (p_worker_step p = worker_step s → ∀ q, q ∈ out → packet_key q ≠ (p_epoch p, p_id p));
  inv_out : ∀ p, p ∈ out → m_epoch (pk_meta p) ≤ incarnation s;
  inv_keys : NoDup (packet_key <$> out);
  inv_limit : ∀ e, epoch_count e out ≤ PACKET_LIMIT }.

Lemma map_size_one (m : gmap string Tracked) k v : size m = 1%nat → m !! k = Some v → m = {[k := v]}.
Proof.
  intros Hm Hk. rewrite <- (insert_delete_id m k v Hk), <- insert_empty. f_equal. apply map_size_empty_iff.
  rewrite map_size_delete_Some; [lia|by rewrite Hk].
Qed.
(** The owner is the only request, and takes part in the trace. *)
Lemma owner_spec s batch r :
  _owner s batch = r →
  match r with
  | Err e => e = IndexError ∧ is_prefilling_np batch = []
  | Ok None => True
  | Ok (Some (rid, st)) => requests s = {[rid := st]} ∧ req_ids batch = [rid] ∧ t_eligible st = true ∧
      t_captured st < PACKET_LIMIT ∧ num_draft_tokens batch ∈ [1; 3; 5; 7] ∧ num_tokens batch = num_draft_tokens batch + 1
  end.
Proof.
  intros <-. unfold _owner.
  destruct (_ =? 1) eqn:H1; [|done]. destruct (num_reqs batch =? 1) eqn:H2; [|done].
  destruct (req_ids batch) as [|rid [|]] eqn:H3; cbn -[Z.of_nat size]; [done| |by destruct (Z.eqb_spec (Z.of_nat (S (S (length l)))) 1); [lia|]].
  destruct (requests s !! rid) as [st|] eqn:H4; [|done].
  destruct (_ || _ || _) eqn:H5; [done|]. apply orb_false_iff in H5 as [[H5 H6]%orb_false_iff _].
  destruct (is_prefilling_np batch) as [|pf l]; [done|]. cbn.
  destruct (pf || _ || _) eqn:H7; [done|]. apply orb_false_iff in H7 as [[_ H7]%orb_false_iff H8].
  apply negb_false_iff in H5, H7, H8. apply bool_decide_eq_true in H7. split_and!; try done; try lia.
  apply map_size_one; [lia|done].
Qed.

Lemma tracked_snoc calls c rid st st' :
  tracked_ok calls rid st → spares rid c → t_epoch st' = t_epoch st → t_eligible st' = t_eligible st → 0 ≤ t_serial st' →
  tracked_ok (calls ++ [c]) rid st'.
Proof.
  intros (Hs&pre&data&post&->&Hid&Hpost&He&Hel) Hc E1 E2 E3. split; [done|]. exists pre, data, (post ++ [c]).
  rewrite <- app_assoc. split_and!; try done; [by apply Forall_app; auto|congruence|congruence].
Qed.
Lemma proposal_snoc calls c s p s' :
  proposal_ok calls s p → is_capture c ∨ idle (p_request p) c →
  (∀ st, requests s = {[p_request p := st]} → ∃ st', requests s' = {[p_request p := st']} ∧ t_epoch st' = t_epoch st ∧ t_serial st' = t_serial st) →
  proposal_ok (calls ++ [c]) s' p.
Proof.
  intros (pre&batch&post&st&->&Hid&Hpost&Hw&Hst&He&Hs) Hc Hs'. destruct (Hs' st Hst) as (st'&Hst'&E1&E2).
  exists pre, batch, (post ++ [c]), st'. rewrite <- app_assoc. split_and!; try done; [by apply Forall_app; auto|congruence|congruence].
Qed.

(** A call that leaves the numbers as they are, and forgets the proposal. *)
Lemma inv_forget calls c s out r :
  Inv calls s out → ¬ is_capture c → ¬ is_add c → (∀ rid, is_Some (r !! rid) → spares rid c) → r ⊆ requests s →
  Inv (calls ++ [c]) (mkCollector (incarnation s) (worker_step s) r None) out.
Proof.
  intros I Hc Ha Hr Hsub. split; cbn; try by apply I.
  - rewrite count_snoc, decide_False by done. pose proof (inv_step _ _ _ I). lia.
  - rewrite count_snoc, decide_False by done. pose proof (inv_incarnation _ _ _ I). lia.
  - intros rid st Hst. pose proof (lookup_weaken _ _ _ _ Hst Hsub) as Ho. pose proof (inv_tracked _ _ _ I _ _ Ho) as Ht.
    eapply tracked_snoc; [done|by apply Hr|done|done|]. by destruct Ht.
  - intros rid st Hst. eapply (inv_fresh _ _ _ I). by eapply lookup_weaken.
  - intros r1 r2 st1 st2 H1 H2. eapply (inv_epochs _ _ _ I); by eapply lookup_weaken.
  - done.
Qed.

Lemma inv_remove calls s out rid : Inv calls s out → Inv (calls ++ [CRemove rid]) (remove rid s).2 out.
Proof.
  intros I. pose proof (inv_forget calls (CRemove rid) s out (delete rid (requests s)) I ltac:(tauto) ltac:(tauto)) as F.
  cbn in F. specialize (F ltac:(intros r [? [? _]%lookup_delete_Some]; done) ltac:(apply delete_subseteq)).
  unfold remove. autorewrite with monad. cbn [previous set_requests requests].
  destruct (previous s) as [p|] eqn:Hp; [|cbn; unfold set_requests; by rewrite Hp].
  destruct (String.eqb_spec (p_request p) rid) as [E|E]; [done|]. cbn.
  destruct (inv_previous _ _ _ I p Hp) as [Ho Hq].
  split; cbn; try by apply F.
  intros p' Hp'. rewrite Hp in Hp'. injection Hp' as <-. split; [|done].
  eapply proposal_snoc; [done|by right|]. cbn. intros st Hst. exists st. split; [|done].
  rewrite Hst. by rewrite delete_singleton_ne by done.
Qed.

Lemma inv_add calls s out data : Inv calls s out → Inv (calls ++ [CAdd data]) (add data s).2 out.
Proof.
  intros I.
  assert (E : (add data s).2 = mkCollector (incarnation s + 1) (worker_step s)
    (<[req_id data := mkTracked (incarnation s + 1) (request_eligible data) 0 0]> (requests s)) None).
  { unfold add, remove. autorewrite with monad. cbn [previous set_requests requests].
    destruct (previous s) as [p|]; [destruct (String.eqb _ _)|]; autorewrite with monad; unfold set_requests; cbn; by rewrite insert_delete_eq. }
  rewrite E. pose proof (count_nonneg is_add calls) as Hn.
  assert (Hout : ∀ p, p ∈ out → ¬ of_epoch (incarnation s + 1) p) by (intros p Hp; pose proof (inv_out _ _ _ I p Hp); unfold of_epoch; lia).
  split; cbn; try by apply I.
  - rewrite count_snoc, decide_False by (by intros []). pose proof (inv_step _ _ _ I). lia.
  - rewrite count_snoc, decide_True by done. pose proof (inv_incarnation _ _ _ I). lia.
  - intros rid st [[<- <-]|[Hne Hst]]%lookup_insert_Some.
    + split; [done|]. exists calls, data, []. split_and!; try done. cbn. pose proof (inv_incarnation _ _ _ I). lia.
    + pose proof (inv_tracked _ _ _ I _ _ Hst) as Ht. eapply tracked_snoc; [done|done|done|done|]. by destruct Ht.
  - intros rid st [[<- <-]|[Hne Hst]]%lookup_insert_Some; cbn.
    + split; [done|]. split; [|intros p Hp He; by destruct (Hout p Hp)].
      unfold epoch_count. by rewrite filter_none.
    + destruct (inv_fresh _ _ _ I _ _ Hst) as (H1&H2&H3). split_and!; [lia|done|done].
  - intros r1 r2 st1 st2 [[<- <-]|[H1 S1]]%lookup_insert_Some [[<- <-]|[H2 S2]]%lookup_insert_Some; cbn.
    + done.
    + destruct (inv_fresh _ _ _ I _ _ S2). lia.
    + destruct (inv_fresh _ _ _ I _ _ S1). lia.
    + by eapply (inv_epochs _ _ _ I).
  - done.
  - intros p Hp. pose proof (inv_out _ _ _ I p Hp). lia.
Qed.

Lemma inv_proposed calls s out batch : Inv calls s out → Inv (calls ++ [CProposed batch]) (proposed batch s).2 out.
Proof.
  intros I. unfold proposed. autorewrite with monad. cbn [mbind M_bind lift].
  destruct (_owner s batch) as [[[rid st]|]|e] eqn:Ho; autorewrite with monad; unfold modify, set_requests, set_previous; cbn.
  - apply owner_spec in Ho as (Hst&Hids&_&_&_&_).
    assert (Hr : requests s !! rid = Some st) by (rewrite Hst; by rewrite lookup_singleton_eq).
    destruct (inv_fresh _ _ _ I _ _ Hr) as (F1&F2&F3). pose proof (inv_tracked _ _ _ I _ _ Hr) as Ht.
    assert (Hs : 0 ≤ t_serial st) by apply Ht.
    rewrite Hst, insert_singleton_eq. split; cbn; try by apply I.
    + rewrite count_snoc, decide_False by (by intros []). pose proof (inv_step _ _ _ I). lia.
    + rewrite count_snoc, decide_False by (by intros []). pose proof (inv_incarnation _ _ _ I). lia.
    + intros r st' [<- <-]%lookup_singleton_Some. eapply tracked_snoc; [done|done|done|done|cbn; lia].
    + intros r st' [<- <-]%lookup_singleton_Some. cbn. split_and!; [done|done|]. intros p Hp He. specialize (F3 p Hp He). lia.
    + intros r1 r2 ? ? [<- _]%lookup_singleton_Some [<- _]%lookup_singleton_Some. done.
    + intros p [= <-]. cbn. split.
      * exists calls, batch, []. eexists. cbn. split_and!; try done. apply I.
      * intros _ q Hq [= H1 H2]. specialize (F3 q Hq H1). lia.
  - apply (inv_forget calls (CProposed batch) s out (requests s) I); try (by intros []); try done.
  - apply owner_spec in Ho as [_ Hpf]. split; try by apply I.
    + rewrite count_snoc, decide_False by (by intros []). pose proof (inv_step _ _ _ I). lia.
    + rewrite count_snoc, decide_False by (by intros []). pose proof (inv_incarnation _ _ _ I). lia.
    + intros r st Hst. pose proof (inv_tracked _ _ _ I _ _ Hst) as Ht. eapply tracked_snoc; [done|done|done|done|]. by destruct Ht.
    + intros p Hp. destruct (inv_previous _ _ _ I p Hp) as [Hp1 Hp2]. split; [|done].
      eapply proposal_snoc; [done|by right|]. intros st Hst. by exists st.
Qed.

(** What a call of [capture] can leave: a packet, or no proposal. *)
Lemma capture_spec s batch speculator :
  (∃ rid st p scores sample drafts, let s1 := (capture batch speculator s).2 in
     requests s = {[rid := st]} ∧ req_ids batch = [rid] ∧ t_eligible st = true ∧ t_captured st < PACKET_LIMIT ∧
     num_draft_tokens batch ∈ [1; 3; 5; 7] ∧ num_tokens batch = num_draft_tokens batch + 1 ∧
     previous s = Some p ∧ p_request p = rid ∧ p_epoch p = t_epoch st ∧ p_worker_step p = worker_step s ∧
     _selector_scores speculator = Some scores ∧ sample_pos speculator = Some sample ∧ draft_tokens speculator = Some drafts ∧
     scores_ok scores ∧ sample_pos_ok sample ∧ drafts_ok drafts ∧ batch_ok batch ∧
     s1 = mkCollector (incarnation s) (worker_step s + 1) {[rid := mkTracked (t_epoch st) (t_eligible st) (t_serial st) (t_captured st + 1)]} (Some p) ∧
     (capture batch speculator s).1 = Ok (Some (mkPacket rid
        (mkMeta PACKET_VERSION (t_epoch st) (p_id p) (worker_step s) (worker_step s + 1) 1 (num_draft_tokens batch))
        (matrix 7 16 scores) (first_cells 7 sample) (first_cells 7 drafts)
        (first_cells (Z.to_nat (num_tokens batch)) (positions batch)) (first_cells (Z.to_nat (num_tokens batch)) (input_ids batch))))) ∨
  (capture batch speculator s = (Ok None, mkCollector (incarnation s) (worker_step s + 1) (requests s) None)) ∨
  (capture batch speculator s = (Err IndexError, mkCollector (incarnation s) (worker_step s + 1) (requests s) (previous s))).
Proof.
  unfold capture. autorewrite with monad. cbn [mbind M_bind lift].
  destruct (_owner _ batch) as [[[rid st]|]|e] eqn:Ho; autorewrite with monad.
  2:{ by right; left. }
  2:{ right; right. by apply owner_spec in Ho as [-> _]. }
  apply owner_spec in Ho as (Hst&Hids&Hel&Hcap&Hk&Hn). cbn in Hst.
  cbn [previous worker_step]. destruct (previous s) as [p|] eqn:Hp; [|by right; left].
  destruct (is_previous _ _ _ _) eqn:Hprev; cbn [negb]; [|by right; left].
  unfold is_previous in Hprev. cbn in Hprev. apply andb_true_iff in Hprev as [[H1%String.eqb_eq H2]%andb_true_iff H3].
  destruct (_selector_scores speculator) as [scores|]; [|by right; left].
  destruct (sample_pos speculator) as [sample|]; [|by right; left].
  destruct (draft_tokens speculator) as [drafts|]; [|by right; left].
  destruct (scores_ok scores && _ && _ && _) eqn:Hok; cbn [negb]; [|by right; left].
  apply andb_true_iff in Hok as [[[Ho1 Ho2]%andb_true_iff Ho3]%andb_true_iff Ho4].
  left. exists rid, st, p, scores, sample, drafts. assert (Hw : p_worker_step p = worker_step s) by lia.
  split_and!; try done; try (by rewrite ?Ho1, ?Ho2, ?Ho3, ?Ho4); try lia.
  - unfold mbind, M_bind, modify, set_requests. cbn. by rewrite Hst, insert_singleton_eq.
  - unfold mbind, M_bind, modify, set_requests. cbn. rewrite Hw. do 4 f_equal. lia.
Qed.

Lemma epoch_count_snoc e l p : epoch_count e (l ++ [p]) = epoch_count e l + (if decide (of_epoch e p) then 1 else 0).
Proof. unfold epoch_count. rewrite filter_app, length_app. cbn. unfold filter. destruct (decide _); cbn; lia. Qed.

(** A step that takes no packet; the proposal is kept or forgotten. *)
Lemma inv_no_packet calls s out batch speculator o :
  Inv calls s out → o = None ∨ o = previous s →
  Inv (calls ++ [CCapture batch speculator]) (mkCollector (incarnation s) (worker_step s + 1) (requests s) o) out.
Proof.
  intros I Ho. split; cbn; try by apply I.
  - rewrite count_snoc, decide_True by done. pose proof (inv_step _ _ _ I). lia.
  - rewrite count_snoc, decide_False by (by intros []). pose proof (inv_incarnation _ _ _ I). lia.
  - intros r st Hst. pose proof (inv_tracked _ _ _ I _ _ Hst) as Ht. eapply tracked_snoc; [done|done|done|done|]. by destruct Ht.
  - intros p ->. destruct Ho as [[=]|Hp]. destruct (inv_previous _ _ _ I p (eq_sym Hp)) as [Hp1 _]. split.
    + eapply proposal_snoc; [done|by left|]. intros st Hst. by exists st.
    + destruct Hp1 as (pre&b&post&st&Hcalls&_&_&Hw&_). intros E. exfalso.
      pose proof (inv_step _ _ _ I) as Hs. rewrite Hcalls in Hs. unfold count in *. rewrite filter_app, length_app in Hs. lia.
Qed.

Lemma inv_capture calls s out batch speculator :
  Inv calls s out →
  Inv (calls ++ [CCapture batch speculator]) (capture batch speculator s).2
    (out ++ option_list match (capture batch speculator s).1 with Ok o => o | Err _ => None end).
Proof.
  intros I. destruct (capture_spec s batch speculator) as [H|[E|E]].
  2:{ rewrite E. cbn. rewrite app_nil_r. apply inv_no_packet; [done|by left]. }
  2:{ rewrite E. cbn. rewrite app_nil_r. apply inv_no_packet; [done|by right]. }
  destruct H as (rid&st&p&scores&sample&drafts&Hst&Hids&Hel&Hcap&Hk&Hn&Hp&<-&Hpe&Hpw&_&_&_&_&_&_&_&->&->). cbn.
  assert (Hr : requests s !! p_request p = Some st) by (rewrite Hst; apply lookup_singleton_eq).
  destruct (inv_fresh _ _ _ I _ _ Hr) as (F1&F2&F3). destruct (inv_previous _ _ _ I p Hp) as [Hp1 Hp2].
  pose proof (inv_no_packet calls s out batch speculator (Some p) I (or_intror (eq_sym Hp))) as N.
  assert (Hid : p_id p = t_serial st).
  { destruct Hp1 as (_&_&_&st'&_&_&_&_&Hst'&_&->). rewrite Hst' in Hst. by apply (inj _) in Hst as ->. }
  set (pk := mkPacket _ _ _ _ _ _ _).
  assert (Hpk : packet_key pk = (p_epoch p, p_id p)) by (unfold packet_key; cbn; by rewrite Hpe).
  split; cbn; try by apply N.
  - intros r st' [<- <-]%lookup_singleton_Some. eapply tracked_snoc; [by apply (inv_tracked _ _ _ I)|done|done|done|].
    by destruct (inv_tracked _ _ _ I _ _ Hr).
  - intros r st' [<- <-]%lookup_singleton_Some. cbn. split_and!; [done| |].
    + rewrite epoch_count_snoc, decide_True by done. lia.
    + intros q [Hq| ->%list_elem_of_singleton]%elem_of_app He; [by apply F3|cbn; lia].
  - intros r1 r2 ? ? [<- _]%lookup_singleton_Some [<- _]%lookup_singleton_Some. done.
  - intros p' [= <-]. split; [|intros; lia].
    eapply proposal_snoc; [done|by left|]. intros st' Hst'. rewrite Hst in Hst'. apply (inj _) in Hst' as <-. by eexists.
  - intros q [Hq| ->%list_elem_of_singleton]%elem_of_app; [by apply (inv_out _ _ _ I)|done].
  - rewrite fmap_app. apply NoDup_app. split_and!; [apply I| |apply NoDup_singleton].
    intros k (q&->&Hq)%list_elem_of_fmap Hk'%list_elem_of_singleton. rewrite Hpk in Hk'. by apply (Hp2 Hpw q Hq).
  - intros e. rewrite epoch_count_snoc. case_decide as He; [|pose proof (inv_limit _ _ _ I e); lia].
    unfold of_epoch in He. cbn in He. subst e. lia.
Qed.

Lemma inv_session calls : Inv calls (after calls) (packets calls).
Proof.
  induction calls as [|c calls IH] using rev_ind.
  { split; cbn; try done; try constructor; try (by intros p Hp; apply not_elem_of_nil in Hp);
      intros *; rewrite ?lookup_empty; done. }
  rewrite after_snoc, packets_snoc. unfold packet_at.
  destruct c as [data|rid|batch speculator|batch]; cbn [step].
  - pose proof (inv_add _ _ _ data IH) as H. unfold mbind, M_bind. destruct (add data _) as [[[]|e] s1] eqn:E; cbn; by rewrite app_nil_r.
  - pose proof (inv_remove _ _ _ rid IH) as H. unfold mbind, M_bind. destruct (remove rid _) as [[[]|e] s1] eqn:E; cbn; by rewrite app_nil_r.
  - by apply inv_capture.
  - pose proof (inv_proposed _ _ _ batch IH) as H. unfold mbind, M_bind. destruct (proposed batch _) as [[[]|e] s1] eqn:E; cbn; by rewrite app_nil_r.
Qed.

(** * Packets and rows *)

(** The cells of a tensor fill its shape. *)
Definition tensor_wf {A} (t : Tensor A) : Prop := Z.of_nat (length (cells t)) = foldr Z.mul 1 (shape t) ∧ Forall (λ n, 0 ≤ n) (shape t).
Definition call_wf (c : Call) : Prop :=
  match c with
  | CCapture batch speculator =>
    tensor_wf (positions batch) ∧ tensor_wf (input_ids batch) ∧ (∀ t, _selector_scores speculator = Some t → tensor_wf t) ∧
    (∀ t, sample_pos speculator = Some t → tensor_wf t) ∧ (∀ t, draft_tokens speculator = Some t → tensor_wf t)
  | _ => True
  end.
(** What [finish_packet] asks of lengths. *)
Definition packet_shaped (p : Packet) : Prop :=
  let k := verified_k (pk_meta p) in
  k ∈ [1; 3; 5; 7] ∧ Z.of_nat (length (target_positions p)) = k + 1 ∧ Z.of_nat (length (target_tokens p)) = k + 1 ∧
  length (sample_positions p) = 7%nat ∧ length (pk_draft_tokens p) = 7%nat ∧ length (realized_scores p) = 7%nat ∧
  Forall (λ values, length values = 16%nat) (realized_scores p).
(** The verification is of the proposal, position by position. *)
Definition packet_aligned (p : Packet) (position : Z) : Prop :=
  let k := verified_k (pk_meta p) in
  0 ≤ position ∧ target_positions p = seqZ position (k + 1) ∧ sample_positions p = seqZ (position + 1) 7 ∧
  drop 1 (target_tokens p) = take (Z.to_nat k) (pk_draft_tokens p) ∧
  Forall (Forall (λ v, isfinite v = true)) (realized_scores p).

Lemma matrix_shaped (t : Tensor float) : scores_ok t → tensor_wf t →
  length (matrix 7 16 t) = 7%nat ∧ Forall (λ values, length values = 16%nat) (matrix 7 16 t).
Proof.
  unfold scores_ok, ndim, shape0, tensor_wf. rewrite !andb_True, !Is_true_true, negb_true_iff, !bool_decide_eq_true.
  intros [[[H1 H2] H3] _] [Hc _]. destruct (shape t) as [|b sh]; [done|]. cbn in H2, H3, Hc. rewrite drop_0 in H2. subst sh. cbn in Hc.
  split; [done|]. apply Forall_forall. intros v (r&->&Hr%elem_of_seq)%list_elem_of_fmap. rewrite length_take, length_drop. nia.
Qed.
Lemma first_cells_length {A} n (t : Tensor A) : ndim t = 1%nat → Z.of_nat n ≤ shape0 t → tensor_wf t → length (first_cells n t) = n.
Proof.
  unfold ndim, shape0, first_cells. intros H1 H2 [Hc _]. destruct (shape t) as [|b [|]]; try done. cbn in *. rewrite length_take. lia.
Qed.
Lemma drafts_length (t : Tensor Z) : drafts_ok t → tensor_wf t → length (first_cells 7 t) = 7%nat.
Proof.
  unfold drafts_ok, ndim, shape0, first_cells. rewrite !andb_True, !Is_true_true, negb_true_iff, !bool_decide_eq_true.
  intros [[[H1 H2] H3] _] [Hc _]. destruct (shape t) as [|b [|d [|]]]; try done. cbn in *. injection H3 as ->. rewrite length_take. nia.
Qed.

Lemma packet_at_capture pre c pkt : packet_at pre c = Some pkt → ∃ batch speculator, c = CCapture batch speculator.
Proof.
  unfold packet_at. destruct c as [data|rid|batch speculator|batch]; cbn [step]; [| |by eauto|]; unfold mbind, M_bind.
  - by destruct (add data _) as [[[]|e] s1].
  - by destruct (remove rid _) as [[[]|e] s1].
  - by destruct (proposed batch _) as [[[]|e] s1].
Qed.
(** A packet and the state it was taken in. *)
Lemma packet_at_spec pre c pkt :
  packet_at pre c = Some pkt →
  ∃ batch speculator st p scores sample drafts, c = CCapture batch speculator ∧
    requests (after pre) = {[pk_request pkt := st]} ∧ req_ids batch = [pk_request pkt] ∧ t_eligible st = true ∧
    previous (after pre) = Some p ∧ p_request p = pk_request pkt ∧ p_epoch p = t_epoch st ∧ p_worker_step p = worker_step (after pre) ∧
    num_draft_tokens batch ∈ [1; 3; 5; 7] ∧ num_tokens batch = num_draft_tokens batch + 1 ∧
    _selector_scores speculator = Some scores ∧ sample_pos speculator = Some sample ∧ draft_tokens speculator = Some drafts ∧
    scores_ok scores ∧ sample_pos_ok sample ∧ drafts_ok drafts ∧ batch_ok batch ∧
    pkt = mkPacket (pk_request pkt)
        (mkMeta PACKET_VERSION (t_epoch st) (p_id p) (worker_step (after pre)) (worker_step (after pre) + 1) 1 (num_draft_tokens batch))
        (matrix 7 16 scores) (first_cells 7 sample) (first_cells 7 drafts)
        (first_cells (Z.to_nat (num_tokens batch)) (positions batch)) (first_cells (Z.to_nat (num_tokens batch)) (input_ids batch)).
Proof.
  intros H. destruct (packet_at_capture _ _ _ H) as (batch&speculator&->). unfold packet_at in H. cbn [step] in H.
  destruct (capture_spec (after pre) batch speculator) as [(rid&st&p&scores&sample&drafts&H1)|[E|E]]; [|by rewrite E in H..].
  destruct H1 as (?&?&?&?&?&?&?&?&?&?&?&?&?&?&?&?&?&?&E). rewrite E in H. injection H as <-. cbn [pk_request].
  by exists batch, speculator, st, p, scores, sample, drafts.
Qed.

Lemma captured_shaped pre c pkt : call_wf c → packet_at pre c = Some pkt → packet_shaped pkt.
Proof.
  intros Hwf (batch&speculator&st&p&scores&sample&drafts&->&_&_&_&_&_&_&_&Hk&Hn&Es&Ep&Ed&Hs&Hp&Hd&Hb&->)%packet_at_spec.
  destruct Hwf as (W1&W2&W3&W4&W5). unfold batch_ok in Hb. rewrite !andb_True, !Is_true_true, negb_true_iff in Hb.
  destruct Hb as [[[[B1 _] B2] _] B3]. apply Nat.eqb_eq in B1, B2.
  destruct (matrix_shaped scores Hs (W3 _ Es)) as [S1 S2].
  assert (0 < num_draft_tokens batch) by (revert Hk; rewrite !elem_of_cons, elem_of_nil; lia).
  unfold packet_shaped. cbn [verified_k pk_meta target_positions target_tokens sample_positions pk_draft_tokens realized_scores].
  split_and!; try done.
  - rewrite first_cells_length by (done || lia). lia.
  - rewrite first_cells_length by (done || lia). lia.
  - unfold sample_pos_ok in Hp. rewrite !andb_True, !Is_true_true, negb_true_iff in Hp. destruct Hp as [[P1%Nat.eqb_eq P2] _].
    rewrite first_cells_length; [done|done|lia|by apply W4].
  - by apply drafts_length, W5.
Qed.

Lemma existsb_Forall {A} (f : A → bool) l : existsb f l = false ↔ Forall (λ x, f x = false) l.
Proof. induction l as [|x l IH]; cbn; [by split|]. by rewrite orb_false_iff, Forall_cons, IH. Qed.
(** For a shaped packet the row tells whether it is aligned. *)
Lemma finish_shaped p : packet_shaped p →
  ∃ row, finish_packet p = Ok (pk_request p, row) ∧ invalid_reason row ≠ Some shape_mismatch ∧
    (if valid row then invalid_reason row = None ∧ row_scores row = Some (realized_scores p) ∧ ∃ position, anchor row = Some position ∧ packet_aligned p position
     else invalid_reason row ≠ None ∧ row_scores row = None ∧ anchor row = None ∧ ¬ ∃ position, packet_aligned p position).
Proof.
  intros (Hk&Hp&Ht&Hs&Hd&Hr&Hv). unfold finish_packet, packet_reason.
  rewrite (bool_decide_eq_true_2 (_ ∈ _)), Hp, Ht, Hs, Hd, Hr, !Z.eqb_refl by done. cbn [negb orb Nat.eqb].
  rewrite (proj2 (existsb_Forall _ _)) by (eapply Forall_impl; [exact Hv|]; cbn; by intros ? ->).
  destruct (existsb (existsb _) _) eqn:Hf; cbn [orb].
  { eexists. split; [reflexivity|]. cbn [valid invalid_reason row_scores anchor]. split_and!; try done. intros (position&_&_&_&_&Hfin).
    rewrite (proj2 (existsb_Forall _ _)) in Hf; [done|]. eapply Forall_impl; [exact Hfin|]. intros vs Hvs. apply existsb_Forall.
    eapply Forall_impl; [exact Hvs|]. by intros v ->. }
  destruct (target_positions p) as [|position ps] eqn:Etp; [cbn in Hp; revert Hk; rewrite !elem_of_cons, elem_of_nil; cbn in Hp; lia|].
  destruct (sample_positions p) as [|first ss] eqn:Esp; [done|]. cbn [head res_of_option mbind res_bind].
  destruct (_ || _ || _ || _) eqn:Ha.
  { cbn. eexists. split; [reflexivity|]. cbn [valid invalid_reason row_scores anchor]. split_and!; try done. intros (position'&Hpos&Hq1&Hq2&_&_). rewrite Etp in Hq1. rewrite Esp in Hq2.
    assert (position = position') as -> by (rewrite seqZ_cons in Hq1 by (revert Hk; rewrite !elem_of_cons, elem_of_nil; lia); congruence).
    assert (first = position' + 1) as -> by (rewrite seqZ_cons in Hq2 by lia; congruence).
    rewrite !orb_true_iff, !negb_true_iff, !bool_decide_eq_false, Z.ltb_lt, Z.eqb_neq in Ha. destruct Ha as [[[?|?]|?]|?]; [lia|lia|done|done]. }
  rewrite !orb_false_iff, !negb_false_iff, !bool_decide_eq_true, Z.ltb_ge, Z.eqb_eq in Ha. destruct Ha as [[[Ha1 Ha2] Ha3] Ha4].
  destruct (bool_decide (drop 1 _ = _)) eqn:Hv'; cbn.
  - apply bool_decide_eq_true in Hv'. eexists. split; [reflexivity|]. cbn [valid invalid_reason row_scores anchor]. split_and!; try done. exists position. split; [done|].
    unfold packet_aligned. rewrite Etp, Esp. split_and!; try done. apply existsb_Forall in Hf. eapply Forall_impl; [exact Hf|].
    intros vs Hvs%existsb_Forall. eapply Forall_impl; [exact Hvs|]. by intros v ?%negb_false_iff.
  - apply bool_decide_eq_false in Hv'. eexists. split; [reflexivity|]. cbn [valid invalid_reason row_scores anchor]. split_and!; try done. by intros (?&_&_&_&?&_).
Qed.

(** Two ways to cut a session: at an addition, and at a later call after which
    nothing is added. *)
Lemma cut_before (A post B post2 : list Call) data c :
  A ++ CAdd data :: post = B ++ c :: post2 → ¬ is_add c → Forall (λ d, ¬ is_add d) post2 →
  ∃ mid, B = A ++ CAdd data :: mid ∧ post = mid ++ c :: post2.
Proof.
  intros E Hc Hp. apply app_eq_app in E as (k&[[-> E]|[-> E]]).
  - destruct k as [|d k]; [injection E as ? ?; subst; exfalso; by apply Hc|]. injection E as <- ->.
    exfalso. apply Forall_app in Hp as [_ Hp]. apply Forall_cons in Hp as [Hp _]. by apply Hp.
  - destruct k as [|d k]; [injection E as ? ?; subst; exfalso; by apply Hc|]. injection E as <- ->. by exists k.
Qed.

(** A packet pairs a proposal with its own verification: in any session of
    calls, a packet taken by a [capture] belongs to the only request of the
    batch, which was added as eligible and neither removed nor added again since;
    its proposal was recorded for that request alone, and between the two no
    other verification ran and no request was added.  The packet carries the
    number of the addition and of the steps, one apart.  No proposal yields two
    packets, and an addition at most 128. *)
Theorem packet_of_previous_step calls :
  NoDup (packet_key <$> packets calls) ∧ (∀ e, epoch_count e (packets calls) ≤ PACKET_LIMIT) ∧
  ∀ c pkt, packet_at calls c = Some pkt →
    ∃ pre data mid batch0 wait batch speculator, let rid := pk_request pkt in let meta := pk_meta pkt in
      calls = pre ++ CAdd data :: mid ++ CProposed batch0 :: wait ∧ c = CCapture batch speculator ∧
      req_id data = rid ∧ request_eligible data = true ∧ req_ids batch0 = [rid] ∧ req_ids batch = [rid] ∧
      Forall (spares rid) mid ∧ Forall (idle rid) wait ∧
      m_epoch meta = count is_add (pre ++ [CAdd data]) ∧
      proposal_worker_step meta = count is_capture (pre ++ CAdd data :: mid) ∧
      verified_worker_step meta = proposal_worker_step meta + 1 ∧ proposal_age_steps meta = 1 ∧
      verified_k meta = num_draft_tokens batch.
Proof.
  pose proof (inv_session calls) as I. split_and!; [apply I|apply I|].
  intros c pkt (batch&speculator&st&p&scores&sample&drafts&->&Hst&Hids&Hel&Hp&Hpr&Hpe&Hpw&_&_&_&_&_&_&_&_&_&Epkt)%packet_at_spec.
  assert (Hr : requests (after calls) !! pk_request pkt = Some st) by (rewrite Hst; apply lookup_singleton_eq).
  destruct (inv_tracked _ _ _ I _ _ Hr) as (_&pre&data&post&Ecalls&Hid&Hpost&Hep&Hel').
  destruct (inv_previous _ _ _ I p Hp) as [(B&batch0&wait&st'&Ecalls'&Hids0&Hwait&Hcount&_&_&_) _].
  pose proof (inv_step _ _ _ I) as Hstep. rewrite Hpr in Hids0, Hwait.
  assert (Hnocap : filter is_capture wait = []).
  { apply length_zero_iff_nil. rewrite <- Hpw, Ecalls', count_app in Hstep. change (count is_capture (CProposed batch0 :: wait)) with (count is_capture wait) in Hstep.
    pose proof (count_nonneg is_capture wait). unfold count in *. lia. }
  destruct (cut_before pre post B wait data (CProposed batch0)) as (mid&->&->); [congruence|by intros []| |].
  { eapply Forall_impl; [exact Hwait|]. intros [] [Hd|Hd]; cbn in *; tauto. }
  exists pre, data, mid, batch0, wait, batch, speculator. apply Forall_app in Hpost as [Hmid _].
  rewrite Epkt. cbn [pk_request pk_meta m_epoch proposal_worker_step verified_worker_step proposal_age_steps verified_k].
  split_and!; try done; [congruence| |rewrite count_snoc, decide_True by done; lia|lia].
  rewrite Forall_forall in Hwait |- *. intros d Hd. destruct (Hwait d Hd) as [Hc|]; [|done].
  exfalso. assert (H : d ∈ filter is_capture wait) by (by apply list_elem_of_filter). rewrite Hnocap in H. by apply not_elem_of_nil in H.
Qed.

(** The row of a captured packet: [finish_packet] does not raise, never
    finds shapes wrong, and calls the row valid exactly when the drafts of the
    proposal, at the positions after the anchor, are what the target was given
    to verify and all scores are finite; only then the row keeps the scores. *)
Theorem captured_row pre c pkt :
  call_wf c → packet_at pre c = Some pkt →
  ∃ row, finish_packet pkt = Ok (pk_request pkt, row) ∧ invalid_reason row ≠ Some shape_mismatch ∧
    (if valid row then invalid_reason row = None ∧ row_scores row = Some (realized_scores pkt) ∧ ∃ position, anchor row = Some position ∧ packet_aligned pkt position
     else invalid_reason row ≠ None ∧ row_scores row = None ∧ anchor row = None ∧ ¬ ∃ position, packet_aligned pkt position).
Proof. intros Hwf Hpkt. by eapply finish_shaped, captured_shaped. Qed.

(** A session: a greedy request is added, verified once without a proposal,
    drafted for, and verified again with three drafts. *)
Definition sample_request : NewRequest :=
  mkNewRequest "r" (Some (mkSampling (PInt 0) None false None None None false false false)) false false false.
Definition sample_batch (k : Z) : Batch :=
  mkBatch 1 ["r"] false [false] k (k + 1) (mkTensor int64 [k + 1] (seqZ 10 (k + 1))) (mkTensor int32 [k + 1] (seqZ 100 (k + 1))).
Definition sample_speculator : Speculator :=
  mkSpeculator (Some (mkTensor float32 [1; 7; 16] (replicate 112 fone))) (Some (mkTensor int64 [7] (seqZ 11 7)))
    (Some (mkTensor int64 [1; 7] (seqZ 101 7))).
Definition sample_calls : list Call :=
  [CAdd sample_request; CCapture (sample_batch 1) sample_speculator; CProposed (sample_batch 1); CRemove "other"].
Definition sample_capture : Call := CCapture (sample_batch 3) sample_speculator.
Example sample_packet_valid :
  (λ p, (pk_meta p, is_ok (finish_packet p), (λ r, valid (r.2)) <$> match finish_packet p with Ok r => Some r | Err _ => None end)) <$> packet_at sample_calls sample_capture
  = Some (mkMeta 1 1 1 1 2 1 3, true, Some true).
Proof. vm_compute. reflexivity. Qed.
Example sample_no_second : packet_at (sample_calls ++ [sample_capture]) sample_capture = None.
Proof. vm_compute. reflexivity. Qed.

Definition sample_packet : Packet := default (mkPacket "" (mkMeta 0 0 0 0 0 0 0) [] [] [] [] []) (packet_at sample_calls sample_capture).
Lemma captured_row_witness : ∃ row, finish_packet sample_packet = Ok ("r", row) ∧ valid row = true.
Proof.
  destruct (captured_row sample_calls sample_capture sample_packet) as (row&Hrow&_&_).
  - cbn -[tensor_wf seqZ replicate]. split_and!; intros; simplify_eq; (split; [reflexivity|repeat (apply Forall_cons_2; [lia|]); apply Forall_nil_2]).
  - vm_compute. reflexivity.
  - exists row. split; [exact Hrow|]. vm_compute in Hrow. by injection Hrow as <-.
Defined.
