(* ===== verification/AdaptiveSpec.v ===== *)
(** The adaptive verification policy of
    src/overlay/vllm/v1/spec_decode/adaptive.py: how many draft tokens of a
    lone greedy request are verified in the next step, from what earlier steps
    accepted and from measured costs.  JSON text, number text and the files
    are the class [SpecWorld]; the clock is an argument.  The text of a
    request's label and the time of a decision, which are only written out,
    are left out of the rows; that making the text may raise is modelled. *)
From S2P Require Import Prelude PyDict PyNum.
From stdpp Require Import base list gmap sets strings pretty.
From Stdlib Require Import ZArith Lia SpecFloat.
#[local] Open Scope string_scope.
#[local] Open Scope list_scope.
#[local] Open Scope Z_scope.

(** What the policy reads: [os.environ], text files, [json.loads], [float] of
    a string. *)
Class SpecWorld := mkWorld {
  environ : string → option string;
  read_file : string → res string;
  json_loads : string → res PyVal;
  float_of_string : string → res float }.

Definition CAPS : list Z := [1; 3; 5; 7].
Definition VERSION : Z := 5.
Definition PRIOR_STRENGTH : float := ftwo.

(** [set(keys) == {...}] of a dictionary's keys. *)
Definition same_keys {A} `{EqDecision A} (keys expected : list A) : bool :=
  forallb (λ k, bool_decide (k ∈ expected)) keys && forallb (λ k, bool_decide (k ∈ keys)) expected.

(** * Tables *)

Definition validated_prior (values : option PyVal) : res (option (list float)) :=
  match values with
  | Some (PList l) =>
    if bool_decide (length l = 7%nat) then
      ok ← all_res (λ v, if is_number v then f ← is_finite_number v; Ok (f && in_unit v) else Ok false) l;
      if (ok : bool) then fs ← map_res number_to_float l; Ok (Some fs) else Ok None
    else Ok None
  | _ => Ok None
  end.

(** [self.signature] *)
Record Signature := mkSig { sig_tp : Z; sig_dcp : Z; sig_max_model_len : Z }.
(** [v == self.signature], the dictionary with the draft capacity 7. *)
Definition eq_signature (v : PyVal) (s : Signature) : bool :=
  match v with
  | PDict d =>
    same_keys (od_keys d) ["tp"; "dcp"; "max_model_len"; "draft_capacity"] &&
    forallb (λ x : string * Z, match od_get x.1 d with Some w => eq_int w x.2 | None => false end)
      [("tp", sig_tp s); ("dcp", sig_dcp s); ("max_model_len", sig_max_model_len s); ("draft_capacity", 7)]
  | _ => false
  end.
(** [v == PRIOR_STRENGTH], of a value that may be missing. *)
Definition eq_strength (v : option PyVal) (missing : bool) : bool := match v with Some v => eq_int v 2 | None => missing end.

(** [except (...) : raise ValueError] *)
Definition as_value_error {A} (caught : exn → bool) (r : res A) : res A :=
  match r with Err e => if caught e then Err ValueError else Err e | Ok a => Ok a end.

Record HintPriors := mkHints { hp_bounds : Z * Z; hp_domains : odict string (list float) }.
Definition parse_domain (x : string * PyVal) : res (string * option (list float)) := p ← validated_prior (Some x.2); Ok (x.1, p).
Definition HintPriors_parse (data : PyVal) (signature : Signature) : res HintPriors :=
  as_value_error (λ e, bool_decide (e ∈ [KeyError; TypeError; ValueError]))
    (bounds ← py_item data "context_range";
     raw ← py_item data "domains";
     config ← py_item data "config";
     strength ← py_get data "prior_strength";
     match int_pair bounds, raw with
     | Some (lo, hi), PDict raw =>
       if eq_signature config signature && eq_strength strength false && (0 <=? lo) && (lo <? hi) &&
          (hi <=? sig_max_model_len signature) && same_keys (od_keys raw) ["code"; "prose"] then
         domains ← map_res parse_domain raw;
         if existsb (λ x : string * option (list float), negb (bool_decide (is_Some x.2))) domains then Err ValueError
         else Ok (mkHints (lo, hi) (omap (λ x : string * option (list float), p ← x.2; Some (x.1, p)) domains))
       else Err ValueError
     | _, _ => Err ValueError
     end).

Definition enabled_flag (v : option PyVal) : bool :=
  match v with None | Some (PBool true) | Some (PInt 1) => true | _ => false end.
Definition has_str (xargs : odict string PyVal) (k s : string) : bool :=
  match od_get k xargs with Some v => eq_str v s | None => false end.
Definition in_range (b : Z * Z) (context : Z) : bool := (b.1 <=? context) && (context <? b.2).

(** [HintPriors.select] *)
Definition select_hint (h : HintPriors) (xargs : odict string PyVal) (context : Z) : res (option (list float * string)) :=
  if negb (in_range (hp_bounds h) context) || negb (enabled_flag (od_get "spec_use_hints" xargs)) ||
     negb (has_str xargs "spec_hint_strength" "weak") || negb (has_str xargs "spec_phase" "user_turn") then Ok None
  else
    let workload := has_str xargs "spec_workload" in
    let domain := if workload "code_generate" || workload "code_edit" || workload "code_review" then Some "code"
                  else if workload "prose" then Some "prose" else None in
    match domain with
    | Some d => p ← res_of_option KeyError (od_get d (hp_domains h)); Ok (Some (p, d))
    | None => Ok None
    end.

(** ** Cost curves *)

Abbreviation Costs := (odict Z float).
Record CostPoint := mkPoint { pt_context : Z; pt_costs : Costs; pt_prior : option (list float) }.
Record CostCurve := mkCurve { cv_bounds : Z * Z; cv_points : list CostPoint }.

(** [{int(k): float(v) for k, v in raw.items()}] *)
Fixpoint costs_of (number : PyVal → res float) (raw : odict string PyVal) (acc : Costs) : res Costs :=
  match raw with
  | [] => Ok acc
  | (k, v) :: raw => k ← py_int k; v ← number v; costs_of number raw (od_set k v acc)
  end.
Definition valid_costs (c : Costs) : bool :=
  same_keys (od_keys c) CAPS && forallb (λ v, isfinite v && fltb fzero v) (od_vals c).

Definition parse_point (bounds : Z * Z) (previous : option Z) (row : PyVal) : res CostPoint :=
  x ← py_item row "context";
  raw ← py_item row "cycle_ms";
  match x, raw with
  | PInt x, PDict raw =>
    if negb (in_range bounds x) || (match previous with Some y => x <=? y | None => false end) ||
       negb (bool_decide (length raw = 4%nat)) || negb (forallb is_number (od_vals raw)) then Err ValueError
    else
      costs ← costs_of number_to_float raw [];
      given ← py_get row "conditional_acceptance_prior";
      prior ← validated_prior given;
      strength ← py_get row "prior_strength";
      if negb (valid_costs costs) || (bool_decide (is_Some given) && negb (bool_decide (is_Some prior))) || negb (eq_strength strength true)
      then Err ValueError
      else Ok (mkPoint x costs prior)
  | _, _ => Err ValueError
  end.
Fixpoint parse_points (bounds : Z * Z) (previous : option Z) (rows : list PyVal) : res (list CostPoint) :=
  match rows with
  | [] => Ok []
  | row :: rows =>
    p ← parse_point bounds previous row;
    ps ← parse_points bounds (Some (pt_context p)) rows;
    Ok (p :: ps)
  end.
Definition CostCurve_parse (data : PyVal) (max_model_len : Z) : res CostCurve :=
  as_value_error (λ e, bool_decide (e ∈ [KeyError; TypeError; ValueError; OverflowError]))
    (bounds ← py_item data "context_range";
     rows ← py_item data "calibration_points";
     match int_pair bounds, rows with
     | Some (lo, hi), PList rows =>
       if (0 <=? lo) && (lo <? hi) && (hi <=? max_model_len) && bool_decide (1 ≤ length rows ≤ 8)%nat then
         points ← parse_points (lo, hi) None rows; Ok (mkCurve (lo, hi) points)
       else Err ValueError
     | _, _ => Err ValueError
     end).

(** [a + weight * (b - a)] *)
Definition interpolate (weight a b : float) : float := fadd a (fmul weight (fsub b a)).
Definition cost_at (c : Costs) (k : Z) : res float := res_of_option KeyError (od_get k c).
Definition between (context : Z) (before after : CostPoint) : res (Costs * option (list float)) :=
  weight ← int_truediv (context - pt_context before) (pt_context after - pt_context before);
  costs ← map_res (λ k, a ← cost_at (pt_costs before) k; b ← cost_at (pt_costs after) k; Ok (k, interpolate weight a b)) CAPS;
  Ok (costs, match pt_prior before, pt_prior after with Some p, Some q => Some (zip_with (interpolate weight) p q) | _, _ => None end).
Fixpoint segment (context : Z) (last : CostPoint) (points : list CostPoint) : res (Costs * option (list float)) :=
  match points with
  | [] => Ok (pt_costs last, pt_prior last)
  | next :: points => if context <=? pt_context next then between context last next else segment context next points
  end.
(** [CostCurve.at] *)
Definition curve_at (c : CostCurve) (context : Z) : res (Costs * option (list float)) :=
  if negb (in_range (cv_bounds c) context) then Ok ([], None) else
  match cv_points c with
  | [] => Err IndexError
  | p :: points => if context <=? pt_context p then Ok (pt_costs p, pt_prior p) else segment context p points
  end.

(** * Acceptance statistics *)

Record PrefixStats := mkStats {
  successes : list float; trials : list float; observations : Z; cap : Z; prior : option (list float) }.
Definition new_stats : PrefixStats := mkStats (replicate 7 fzero) (replicate 7 fzero) 0 7 None.
Definition with_prior (p : option (list float)) (s : PrefixStats) : PrefixStats :=
  mkStats (successes s) (trials s) (observations s) (cap s) p.
Definition with_cap (k : Z) (s : PrefixStats) : PrefixStats :=
  mkStats (successes s) (trials s) (observations s) k (prior s).

Definition decay : float := S754_finite false 8736983277098762 (-53).
(** Position [j] of the statistics after one observation. *)
Definition observe_trials (k accepted : Z) (j : nat) (t : float) : float :=
  let t := fmul t decay in
  if (Z.of_nat j <? k) && (Z.of_nat j <=? accepted) then fadd t fone else t.
Definition observe_successes (k accepted : Z) (j : nat) (s : float) : float :=
  let s := fmul s decay in
  if (Z.of_nat j <? k) && (Z.of_nat j <=? accepted) then fadd s (if Z.of_nat j <? accepted then fone else fzero) else s.
Definition observe (k accepted : Z) : M PrefixStats unit :=
  if negb ((1 <=? k) && (k <=? 7)) || negb ((0 <=? accepted) && (accepted <=? k)) then raise ValueError else
  modify (λ s, mkStats (imap (observe_successes k accepted) (successes s)) (imap (observe_trials k accepted) (trials s))
                 (observations s + 1) (cap s) (prior s)).

(** The conditional acceptance rate at position [j]. *)
Definition conditional (s : PrefixStats) (j : nat) : res float :=
  sj ← res_of_option IndexError (successes s !! j);
  tj ← res_of_option IndexError (trials s !! j);
  match prior s with
  | Some p => pj ← res_of_option IndexError (p !! j); fdiv (fadd sj (fmul PRIOR_STRENGTH pj)) (fadd tj PRIOR_STRENGTH)
  | None => if fleb ftwo tj then fdiv sj tj else Ok fone
  end.
Fixpoint expected_from (s : PrefixStats) (allow_prior_only : bool) (j n : nat) (survival total : float) : res float :=
  match n with
  | O => Ok total
  | S n =>
    t ← res_of_option IndexError (trials s !! j);
    if bool_decide (j = 0%nat) && fltb t ftwo && negb (allow_prior_only && bool_decide (is_Some (prior s))) then Ok S754_nan else
    c ← conditional s j;
    let survival := fmul survival c in
    expected_from s allow_prior_only (S j) n survival (fadd total survival)
  end.
Definition expected (s : PrefixStats) (k : Z) (allow_prior_only : bool) : res float :=
  expected_from s allow_prior_only 0 (Z.to_nat k) fone fone.

Definition hysteresis : float := S754_finite false 4638707616191611 (-52).
Definition rate_of (s : PrefixStats) (costs : Costs) (cold_start : bool) (k : Z) : res (Z * float) :=
  e ← expected s k cold_start; c ← cost_at costs k; r ← fdiv e c; Ok (k, r).
(** [max(CAPS, key=lambda k: (rates[k], k))] *)
Definition better (a b : Z * float) : Z * float :=
  if feqb b.2 a.2 then (if a.1 <? b.1 then b else a) else if fltb a.2 b.2 then b else a.
Definition best_rate (rates : list (Z * float)) : res (Z * float) :=
  match rates with [] => Err ValueError | r :: rates => Ok (foldl better r rates) end.
Definition choose (costs : Costs) (scheduled_steps : Z) (cold_start : bool) : M PrefixStats (Z * bool) :=
  s ← get;
  let probe := scheduled_steps mod 16 =? 0 in
  let minimum := if cold_start && bool_decide (is_Some (prior s)) then 0 else 8 in
  if (observations s <? minimum) || probe || negb (same_keys (od_keys costs) CAPS) then mret (7, probe) else
  rates ← lift (map_res (rate_of s costs cold_start) CAPS);
  if negb (forallb (λ r : Z * float, isfinite r.2 && fltb fzero r.2) rates) then mret (7, probe) else
  best ← lift (best_rate rates);
  current ← lift (res_of_option KeyError (od_get (cap s) rates));
  (if fltb (fmul current hysteresis) best.2 then modify (with_cap best.1) else mret tt);;
  s ← get;
  mret (cap s, probe).
