(* ===== verification/AdaptivePolicy.v ===== *)
(** [VerificationPolicy] of src/overlay/vllm/v1/spec_decode/adaptive.py: its
    construction from the environment, the choice of a cap for a request, and
    the feedback of finished steps into the statistics.  Requests are objects:
    [request_ref] is an object's identity, and the attributes are those it has
    when the policy looks. *)
From S2P Require Import Prelude PyDict PyNum AdaptiveSpec SpecSink.
From stdpp Require Import base list gmap sets strings pretty.
From Stdlib Require Import ZArith Lia SpecFloat.
#[local] Open Scope string_scope.
#[local] Open Scope list_scope.
#[local] Open Scope Z_scope.

Section policy.
Context {W : SpecWorld}.

(** * Requests *)

Record SamplingParams := mkSampling {
  temperature : float; presence_penalty : float; frequency_penalty : float; repetition_penalty : float;
  has_allowed_token_ids : bool; has_bad_words : bool; has_logit_bias : bool; has_stop : bool;
  ignore_eos : bool; stop_token_ids : list Z; all_stop_token_ids : list Z; extra_args : odict string PyVal }.
Record Request := mkRequest {
  request_ref : Z; request_id : string; sampling_params : option SamplingParams;
  is_prefill_chunk : bool; use_structured_output : bool; resumable : bool; has_lora_request : bool; has_mm_features : bool;
  async_tokens_to_discard : Z; num_tokens : Z; num_output_placeholders : Z; num_output_tokens : Z; max_tokens : Z;
  eos_token_id : option Z; is_finished : bool }.

Definition eligible (r : Request) (c1 : bool) : bool :=
  match sampling_params r with
  | None => false
  | Some sp =>
    c1 && feqb (temperature sp) fzero && negb (is_prefill_chunk r) && negb (use_structured_output r) && negb (resumable r) &&
    negb (has_lora_request r) && negb (has_mm_features r) && (async_tokens_to_discard r =? 0) &&
    feqb (presence_penalty sp) fzero && feqb (frequency_penalty sp) fzero && feqb (repetition_penalty sp) fone &&
    negb (has_allowed_token_ids sp) && negb (has_bad_words sp) && negb (has_logit_bias sp)
  end.
Definition xargs_of (r : Request) : odict string PyVal := match sampling_params r with Some sp => extra_args sp | None => [] end.

(** * Modes and switches *)

Inductive Mode := Off | Shadow | Fixed | Adaptive.
#[global] Instance mode_eq_dec : EqDecision Mode.
Proof. solve_decision. Defined.
Definition mode_of (s : string) : option Mode :=
  od_get s [("off", Off); ("shadow", Shadow); ("fixed", Fixed); ("adaptive", Adaptive)].
Definition policy_mode : res Mode := res_of_option ValueError (mode_of (default "off" (environ "GLM_SPEC_POLICY"))).
Definition extra_capture_sizes (is_target : bool) : res (list Z) :=
  if is_target then m ← policy_mode; Ok (if decide (m = Off) then [] else [2; 4; 6]) else Ok [].

Record LossyFields := mkLossy { lossy_margin : option float; lossy_min_p : option float; lossy_scope : string; lossy_enabled : bool }.
(** [number], the finite numbers that are not booleans. *)
Definition lossy_number (v : option PyVal) : res (option float) :=
  match v with
  | Some v =>
    if is_number v then ok ← is_finite_number v; if (ok : bool) then f ← number_to_float v; Ok (Some f) else Ok None else Ok None
  | None => Ok None
  end.
Definition lossy_request_fields (xargs : odict string PyVal) : res LossyFields :=
  margin ← lossy_number (od_get "spec_lossy_margin" xargs);
  min_p ← lossy_number (Some (default (PInt 0) (od_get "spec_lossy_min_p" xargs)));
  let scope := default (PStr "all") (od_get "spec_lossy_scope" xargs) in
  Ok (mkLossy margin min_p (if eq_str scope "all" then "all" else if eq_str scope "think" then "think" else "invalid")
        (bool_decide (environ "GLM_SPEC_LOSSY" = Some "1"))).

(** * The policy's state *)

(** What is kept per request; [st_curve] is the parsed cost table of the
    request, once it was looked at. *)
Record ReqState := mkReqState {
  stats : PrefixStats; scheduled_steps : Z; st_curve : option (option CostCurve); completed_at : option float }.
Definition new_state : ReqState := mkReqState new_stats 0 None None.

(** A decision, and a decision whose step was scheduled. *)
Record Row := mkRow {
  row_request : Z; row_step : Z; row_cap : Z; row_eligible : bool; row_mode : Mode; row_probe : bool; row_observations : Z;
  row_costs : Costs; row_prior : option (list float); row_hint_domain : option string; row_lossy : LossyFields }.
Record ScheduledRow := mkScheduled { sr_row : Row; scheduled_k : Z; target_tokens : Z; scheduled_at : float }.
(** What the worker reports about the drafter's confidence. *)
Record Confidence := mkConfidence {
  cf_valid : bool; cf_verified_k : Z; cf_draft_tokens : list Z; cf_has_scores : bool; cf_mismatch : bool; cf_learnable : bool }.
Record VerifyRow := mkVerify {
  vr_row : ScheduledRow; vr_accepted : Z; vr_sampled : Z; vr_context : Z; vr_terminal : bool; vr_learned : bool;
  vr_cycle_ms : option float; vr_latency_ms : float; vr_relaxed : Z; vr_dropped : Z; vr_confidence : option Confidence }.
Inductive Event := EvStart (mode : Mode) (fixed : Z) (costs : Costs) (prior : option (list float)) (hints trace : bool) | EvVerify (v : VerifyRow).

Record Policy := mkPolicy {
  p_mode : Mode; p_fixed : Z; p_lane : string; p_signature : Signature;
  p_costs : Costs; p_cost_context : Z * Z; p_prior : option (list float); p_curve : option CostCurve; p_hints : option HintPriors;
  chosen : odict string Row; pending : odict Z (odict string ScheduledRow); states : gmap Z ReqState; p_sink : option (@JsonlSink Event) }.
Definition with_chosen (c : odict string Row) (p : Policy) : Policy :=
  mkPolicy (p_mode p) (p_fixed p) (p_lane p) (p_signature p) (p_costs p) (p_cost_context p) (p_prior p) (p_curve p) (p_hints p) c (pending p) (states p) (p_sink p).
Definition with_pending (d : odict Z (odict string ScheduledRow)) (p : Policy) : Policy :=
  mkPolicy (p_mode p) (p_fixed p) (p_lane p) (p_signature p) (p_costs p) (p_cost_context p) (p_prior p) (p_curve p) (p_hints p) (chosen p) d (states p) (p_sink p).
Definition with_states (m : gmap Z ReqState) (p : Policy) : Policy :=
  mkPolicy (p_mode p) (p_fixed p) (p_lane p) (p_signature p) (p_costs p) (p_cost_context p) (p_prior p) (p_curve p) (p_hints p) (chosen p) (pending p) m (p_sink p).
Definition with_sink (k : option JsonlSink) (p : Policy) : Policy :=
  mkPolicy (p_mode p) (p_fixed p) (p_lane p) (p_signature p) (p_costs p) (p_cost_context p) (p_prior p) (p_curve p) (p_hints p) (chosen p) (pending p) (states p) k.

(** * Construction *)

Record SpecConfig := mkSpecConfig {
  tensor_parallel_size : Z; cfg_dcp : Z; cfg_max_model_len : Z; use_v2_model_runner : bool; num_speculative_tokens : Z;
  spec_method : string; rejection_sample_method : string; pipeline_parallel_size : Z; data_parallel_size : Z; async_scheduling : bool }.

(** [float(v)] of any value. *)
Definition py_float (v : PyVal) : res float := match v with PStr s => float_of_string s | _ => number_to_float v end.
Definition py_items (v : PyVal) : res (odict string PyVal) := match v with PDict d => Ok d | _ => Err AttributeError end.
(** [{**data, **{k: first[k] for k in keys if k in first}}] *)
Definition overlay (keys : list string) (first data : odict string PyVal) : odict string PyVal :=
  foldl (λ d k, match od_get k first with Some v => od_set k v d | None => d end) data keys.
(** [first = data['calibration_points'][0]], a row that was parsed. *)
Definition first_row (data : odict string PyVal) : res (odict string PyVal) :=
  rows ← py_item (PDict data) "calibration_points";
  match rows with
  | PList (PDict d :: _) => Ok d
  | PList [] => Err IndexError
  | _ => Err TypeError
  end.

(** The table of GLM_SPEC_COSTS. *)
Definition load_costs (cfg : SpecConfig) (sig : Signature) (path : string) : res (option CostCurve * Costs * (Z * Z) * option (list float)) :=
  text ← read_file path;
  data ← json_loads text;
  config ← py_get data "config";
  if negb (match config with Some c => eq_signature c sig | None => false end) then Err ValueError else
  d ← py_items data;
  loaded ← (if od_mem "calibration_points" d then
              curve ← CostCurve_parse data (cfg_max_model_len cfg);
              first ← first_row d;
              Ok (Some curve, overlay ["cycle_ms"; "conditional_acceptance_prior"; "prior_strength"] first d)
            else Ok (None, d));
  let '(curve, d) := (loaded : option CostCurve * odict string PyVal) in
  raw ← py_item (PDict d) "cycle_ms";
  raw ← py_items raw;
  costs ← costs_of py_float raw [];
  match od_get "context_range" d with
  | Some b =>
    match int_pair b with
    | Some (lo, hi) =>
      if negb ((0 <=? lo) && (lo <? hi) && (hi <=? cfg_max_model_len cfg)) then Err ValueError else
      let given := od_get "conditional_acceptance_prior" d in
      prior ← validated_prior given;
      if bool_decide (is_Some given) && negb (bool_decide (is_Some prior)) then Err ValueError
      else if bool_decide (is_Some prior) && negb (eq_strength (od_get "prior_strength" d) true) then Err ValueError
      else if negb (valid_costs costs) then Err ValueError
      else Ok (curve, costs, (lo, hi), prior)
    | None => Err ValueError
    end
  | None => Err ValueError
  end.
(** The table of GLM_SPEC_HINT_PRIORS, of which 16 KiB and one are read. *)
Definition load_hints (sig : Signature) (path : string) : res HintPriors :=
  text ← read_file path;
  if 16384 <? Z.of_nat (String.length text) then Err ValueError else
  data ← json_loads text; HintPriors_parse data sig.
(** [os.environ.get(k, "")], when it is not empty. *)
Definition env_path (k : string) : option string :=
  match environ k with Some s => if String.eqb s "" then None else Some s | None => None end.

Definition lane_of (cfg : SpecConfig) : string :=
  ("tp" +:+ pretty (tensor_parallel_size cfg) +:+ "-dcp" +:+ pretty (cfg_dcp cfg) +:+ "-l" +:+ pretty (cfg_max_model_len cfg) +:+ "-k7").

Definition new_policy (cfg : SpecConfig) : res Policy :=
  mode ← policy_mode;
  let sig := mkSig (tensor_parallel_size cfg) (cfg_dcp cfg) (cfg_max_model_len cfg) in
  fixed ← py_int (default "7" (environ "GLM_SPEC_VERIFY_CAP"));
  if negb (bool_decide (fixed ∈ CAPS)) then Err ValueError else
  let bare := mkPolicy mode fixed (lane_of cfg) sig [] (0, 0) None None None [] [] ∅ None in
  if decide (mode = Off) then Ok bare else
  if negb (use_v2_model_runner cfg && (num_speculative_tokens cfg =? 7) && String.eqb (spec_method cfg) "dflash" &&
           negb (String.eqb (rejection_sample_method cfg) "synthetic") && (pipeline_parallel_size cfg =? 1) &&
           (data_parallel_size cfg =? 1) && async_scheduling cfg) then Err ValueError else
  loaded ← match env_path "GLM_SPEC_COSTS" with Some path => load_costs cfg sig path | None => Ok (None, [], (0, 0), None) end;
  let '(curve, costs, bounds, prior) := loaded in
  hints ← match env_path "GLM_SPEC_HINT_PRIORS" with Some path => h ← load_hints sig path; Ok (Some h) | None => Ok None end;
  let trace := bool_decide (environ "GLM_SPEC_CONFIDENCE_TRACE" = Some "1") in
  let sink := match env_path "GLM_SPEC_TRACE" with
              | Some _ => Some (emit (EvStart mode fixed costs prior (bool_decide (is_Some hints)) trace) new_sink)
              | None => None
              end in
  Ok (mkPolicy mode fixed (lane_of cfg) sig costs bounds prior curve hints [] [] ∅ sink).

(** * Decisions *)

(** [not d] *)
Definition is_empty {A} (l : list A) : bool := match l with [] => true | _ => false end.

(** [begin] *)
Definition begin_step : M Policy unit := modify (with_chosen []).

Definition put_state (ref : Z) (st : ReqState) : M Policy unit := modify (λ p, with_states (<[ref := st]> (states p)) p).
(** [self.states.setdefault(request, ...)] *)
Definition state_of (ref : Z) : M Policy ReqState :=
  p ← get;
  match states p !! ref with Some st => mret st | None => put_state ref new_state;; mret new_state end.

(** The costs and the prior of the boot tables at [context]. *)
Definition boot_costs (p : Policy) (context : Z) : res (Costs * option (list float)) :=
  match p_curve p with
  | Some curve => curve_at curve context
  | None => let costs := if in_range (p_cost_context p) context then p_costs p else [] in
            Ok (costs, if is_empty costs then None else p_prior p)
  end.

(** [isinstance(curve_source, (dict, str))] *)
Definition curve_source (xargs : odict string PyVal) : option PyVal :=
  match od_get "spec_cost_table" xargs with Some (PDict d) => Some (PDict d) | Some (PStr s) => Some (PStr s) | _ => None end.
(** The first look at a request's own table; what it may raise is caught. *)
Definition parse_request_curve (p : Policy) (source : PyVal) : res (option CostCurve) :=
  let r :=
    data ← match source with PStr s => if Z.of_nat (String.length s) <=? 16384 then json_loads s else Ok source | _ => Ok source end;
    match data with
    | PDict d =>
      if match od_get "config" d with Some c => eq_signature c (p_signature p) | None => false end && has_str d "lane" (p_lane p)
      then c ← CostCurve_parse data (sig_max_model_len (p_signature p)); Ok (Some c) else Ok None
    | _ => Ok None
    end in
  match r with Err ValueError | Err RecursionError => Ok None | r => r end.
(** The table is parsed once per request object, whose controls do not change. *)
Definition request_curve (p : Policy) (ref : Z) (xargs : odict string PyVal) : M Policy (option CostCurve) :=
  match curve_source xargs with
  | None => mret None
  | Some source =>
    st ← state_of ref;
    match st_curve st with
    | Some curve => mret curve
    | None =>
      put_state ref (mkReqState (stats st) (scheduled_steps st) (Some None) (completed_at st));;
      curve ← lift (parse_request_curve p source);
      put_state ref (mkReqState (stats st) (scheduled_steps st) (Some curve) (completed_at st));;
      mret curve
    end
  end.
Definition request_table (curve : option CostCurve) (context : Z) (boot : Costs * option (list float)) : res (Costs * option (list float)) :=
  match curve with
  | Some c => proposed ← curve_at c context; Ok (if is_empty proposed.1 then boot else proposed)
  | None => Ok boot
  end.
(** The experimental controls [spec_cycle_ms] and [spec_cost_context]. *)
Definition request_costs (p : Policy) (xargs : odict string PyVal) (context : Z) (table : Costs * option (list float)) :
    res (Costs * option (list float)) :=
  match od_get "spec_cycle_ms" xargs, od_get "spec_cost_context" xargs with
  | Some (PList values), Some bounds =>
    if negb (has_str xargs "spec_cost_lane" (p_lane p)) || negb (bool_decide (length values = 4%nat)) then Ok table else
    match int_pair bounds with
    | Some b =>
      if negb ((0 <=? b.1) && in_range b context) then Ok table else
      usable ← all_res (λ v, if is_number v then f ← is_finite_number v; Ok (f && positive_number v) else Ok false) values;
      if negb (usable : bool) then Ok table else
      fs ← map_res number_to_float values;
      prior ← validated_prior (od_get "spec_acceptance_prior" xargs);
      Ok (zip CAPS fs, prior)
    | None => Ok table
    end
  | _, _ => Ok table
  end.
Definition request_mode (p : Policy) (xargs : odict string PyVal) : Mode :=
  match od_get "spec_policy" xargs with Some (PStr s) => default (p_mode p) (mode_of s) | _ => p_mode p end.
Definition hint_for (p : Policy) (ok : bool) (mode : Mode) (costs : Costs) (st : ReqState) (xargs : odict string PyVal) (context : Z) :
    res (option (list float * string)) :=
  match p_hints p with
  | Some h =>
    if ok && bool_decide (mode = Adaptive) && negb (is_empty costs) && (observations (stats st) <? 8)
    then select_hint h xargs context else Ok None
  | None => Ok None
  end.

(** [choose] on the statistics of one request. *)
Definition choose_for (ref : Z) (costs : Costs) (cold_start : bool) : M Policy (Z * bool) :=
  st ← state_of ref;
  let '(r, s) := AdaptiveSpec.choose costs (scheduled_steps st) cold_start (stats st) in
  put_state ref (mkReqState s (scheduled_steps st) (st_curve st) (completed_at st));;
  lift r.
Definition fixed_cap (p : Policy) (xargs : odict string PyVal) : Z :=
  match default (PInt (p_fixed p)) (od_get "spec_verify_cap" xargs) with
  | PInt k => if bool_decide (k ∈ CAPS) then k else 7
  | _ => 7
  end.
(** [if ok: ...] *)
Definition decide_cap (p : Policy) (ref : Z) (ok : bool) (mode : Mode) (costs : Costs) (xargs : odict string PyVal) (cold_start : bool) :
    M Policy (Z * bool) :=
  if negb ok then mret (7, false) else
  st ← state_of ref;
  put_state ref (mkReqState (stats st) (scheduled_steps st + 1) (st_curve st) (completed_at st));;
  match mode with
  | Fixed => mret (fixed_cap p xargs, false)
  | Adaptive => choose_for ref costs cold_start
  | _ => mret (7, false)
  end.

(** [VerificationPolicy.select] *)
Definition select (request : Request) (c1 : bool) (step : Z) : M Policy Z :=
  let ref := request_ref request in
  let ok := eligible request c1 in
  let xargs := xargs_of request in
  let context := num_tokens request + num_output_placeholders request in
  state_of ref;;
  p ← get;
  boot ← lift (boot_costs p context);
  curve ← request_curve p ref xargs;
  table ← lift (request_table curve context boot);
  table ← lift (request_costs p xargs context table);
  let '(costs, boot_prior) := (table : Costs * option (list float)) in
  let mode := request_mode p xargs in
  st ← state_of ref;
  hint ← lift (hint_for p ok mode costs st xargs context);
  let prior := match hint with Some (h, _) => Some h | None => boot_prior end in
  let hint_domain := snd <$> hint in
  put_state ref (mkReqState (with_prior prior (stats st)) (scheduled_steps st) (st_curve st) (completed_at st));;
  decision ← decide_cap p ref ok mode costs xargs (bool_decide (is_Some hint_domain));
  let '(cap, probe) := (decision : Z * bool) in
  st ← state_of ref;
  lift (py_str (default (PStr "") (od_get "spec_label" xargs)));;
  lossy ← lift (lossy_request_fields xargs);
  modify (λ p, with_chosen (od_set (request_id request)
    (mkRow ref step cap ok mode probe (observations (stats st)) costs prior hint_domain lossy) (chosen p)) p);;
  mret cap.

(** * Feedback *)

(** A scheduler's output: an object with its identity. *)
Record SchedulerOutput := mkOutput {
  output_id : Z; scheduled_spec_decode_tokens : odict string (list Z); num_scheduled_tokens : odict string Z }.
Fixpoint scheduled_rows (c : odict string Row) (o : SchedulerOutput) (now : float) (tokens : odict string (list Z)) (rows : odict string ScheduledRow) :
    res (odict string ScheduledRow) :=
  match tokens with
  | [] => Ok rows
  | (rid, ts) :: tokens =>
    match od_get rid c with
    | Some row =>
      n ← res_of_option KeyError (od_get rid (num_scheduled_tokens o));
      scheduled_rows c o now tokens (od_set rid (mkScheduled row (Z.of_nat (length ts)) n now) rows)
    | None => scheduled_rows c o now tokens rows
    end
  end.
(** [scheduled] *)
Definition scheduled (o : SchedulerOutput) (now : float) : M Policy unit :=
  p ← get;
  rows ← lift (scheduled_rows (chosen p) o now (scheduled_spec_decode_tokens o) []);
  if is_empty rows then mret tt else
  raise_if (bool_decide (64 ≤ length (pending p))%nat) RuntimeError;;
  modify (λ p, with_pending (od_set (output_id o) rows (pending p)) p).

(** What the model runner returns. *)
Record RunnerOutput := mkRunner {
  has_invalid_blocks : bool; req_id_to_index : odict string nat; sampled_token_ids : list (list Z);
  spec_confidence : odict string Confidence; spec_relaxed : odict string Z }.

Definition mem_token (t : Z) (tokens : list Z) : bool := bool_decide (t ∈ tokens).
(** Whether these tokens may end the request. *)
Definition terminal (r : Request) (tokens : list Z) : bool :=
  let sp := sampling_params r in
  let ignore := match sp with Some sp => ignore_eos sp | None => false end in
  (max_tokens r <=? num_output_tokens r + Z.of_nat (length tokens)) ||
  (negb ignore && match eos_token_id r with Some t => mem_token t tokens | None => false end) ||
  existsb (λ t, mem_token t tokens) (match sp with Some sp => stop_token_ids sp | None => [] end) ||
  (negb ignore && existsb (λ t, mem_token t tokens) (match sp with Some sp => all_stop_token_ids sp | None => [] end)) ||
  match sp with Some sp => has_stop sp | None => false end.
(** The confidence row joined with what was accepted. *)
Definition join_confidence (k accepted : Z) (tokens : list Z) (learned : bool) (c : Confidence) : Confidence :=
  let n := Z.to_nat accepted in
  let mismatch := cf_valid c && (negb (cf_verified_k c =? k) || negb (bool_decide (take n tokens = take n (cf_draft_tokens c)))) in
  let valid := cf_valid c && negb mismatch in
  mkConfidence valid (cf_verified_k c) (cf_draft_tokens c) (cf_has_scores c && negb mismatch) mismatch (learned && valid).

Definition thousand : float := S754_finite false 8796093022208000 (-43).
Definition elapsed_ms (now previous : float) : float := fmul (fsub now previous) thousand.
Definition observe_for (ref : Z) (st : ReqState) (k accepted : Z) : M Policy ReqState :=
  let '(r, s) := observe k accepted (stats st) in
  let st := mkReqState s (scheduled_steps st) (st_curve st) (completed_at st) in
  put_state ref st;; lift r;; mret st.

(** One row of [complete]; [live] gives the request a weak reference still
    reaches, [requests] the scheduler's own map. *)
Definition complete_row (runner : RunnerOutput) (live : Z → option Request) (requests : odict string Z) (now : float) (x : string * ScheduledRow) :
    M Policy unit :=
  let '(rid, row) := x in
  match live (row_request (sr_row row)) with
  | None => mret tt
  | Some request =>
    let ref := request_ref request in
    if negb (bool_decide (od_get rid requests = Some ref)) || is_finished request then mret tt else
    p ← get;
    match states p !! ref with
    | None => mret tt
    | Some st =>
      if negb (async_tokens_to_discard request =? 0) then mret tt else
      match od_get rid (req_id_to_index runner), sampled_token_ids runner with
      | None, _ | _, [] => mret tt
      | Some i, sampled =>
        tokens ← lift (res_of_option IndexError (sampled !! i));
        let k := scheduled_k row in
        let n := Z.of_nat (length tokens) in
        if (n =? 0) || negb ((1 <=? k) && (k <=? 7)) || negb ((1 <=? n) && (n <=? k + 1)) then mret tt else
        let accepted := n - 1 in
        let ends := terminal request tokens in
        let valid := row_eligible (sr_row row) && negb ends && (k =? row_cap (sr_row row)) in
        st ← (if valid then observe_for ref st k accepted else mret st);
        put_state ref (mkReqState (stats st) (scheduled_steps st) (st_curve st) (Some now));;
        match p_sink p with
        | None => mret tt
        | Some sink =>
          let cycle := match completed_at st with Some t => if feqb t fzero then None else Some (elapsed_ms now t) | None => None end in
          modify (with_sink (Some (emit (EvVerify (mkVerify row accepted n (num_tokens request) ends valid cycle
            (elapsed_ms now (scheduled_at row)) (default 0 (od_get rid (spec_relaxed runner))) (dropped sink)
            (join_confidence k accepted tokens valid <$> od_get rid (spec_confidence runner)))) sink)))
        end
      end
    end
  end.
(** [complete] *)
Definition complete (output : Z) (runner : RunnerOutput) (live : Z → option Request) (requests : odict string Z) (now : float) : M Policy unit :=
  p ← get;
  let rows := default [] (od_get output (pending p)) in
  modify (with_pending (od_pop output (pending p)));;
  if has_invalid_blocks runner then mret tt else
  for_each rows (complete_row runner live requests now).

(** A request object that is collected takes its entry along. *)
Definition collect (ref : Z) (p : Policy) : Policy := with_states (delete ref (states p)) p.
End policy.
