(* ===== verification/AdaptiveProps.v ===== *)
(** Theorems about the adaptive verification policy: what the tables accept,
    that the statistics stay meaningful, that every decision is a legal cap
    and the best one within the hysteresis, and the two controls that still
    make a decision raise. *)
From S2P Require Import Prelude PyDict PyNum SpecSink AdaptiveSpec AdaptivePolicy.
From stdpp Require Import base list gmap sets strings.
From Stdlib Require Import ZArith Lia SpecFloat Sorting.Sorted.
#[local] Open Scope string_scope.
#[local] Open Scope list_scope.
#[local] Open Scope Z_scope.

(** * Sets of keys *)

Lemma same_keys_elem {A} `{EqDecision A} (keys expected : list A) k : same_keys keys expected = true → k ∈ keys ↔ k ∈ expected.
Proof.
  unfold same_keys. rewrite andb_true_iff, !forallb_forall. intros [H1 H2].
  split; intros Hk; apply list_elem_of_In in Hk; [apply H1 in Hk|apply H2 in Hk]; by apply bool_decide_eq_true in Hk.
Qed.
Lemma cost_at_total (c : Costs) k : same_keys (od_keys c) CAPS = true → k ∈ CAPS → ∃ f, od_get k c = Some f ∧ cost_at c k = Ok f.
Proof.
  intros Hs Hk. apply (same_keys_elem _ _ k Hs) in Hk. unfold cost_at.
  destruct (od_get k c) as [f|] eqn:E; [by exists f|]. by apply od_get_None in E.
Qed.

(** * Statistics *)

Definition prior_ok (p : option (list float)) : Prop := match p with Some p => length p = 7%nat | None => True end.
(** Seven positions each, none negative, and a legal cap. *)
Record stats_ok (s : PrefixStats) : Prop := {
  so_successes : length (successes s) = 7%nat ∧ Forall nonneg (successes s);
  so_trials : length (trials s) = 7%nat ∧ Forall nonneg (trials s);
  so_observations : 0 ≤ observations s;
  so_cap : cap s ∈ CAPS;
  so_prior : prior_ok (prior s) }.

Lemma Forall_imap {A} (P : A → Prop) (f : nat → A → A) l : (∀ i x, P x → P (f i x)) → Forall P l → Forall P (imap f l).
Proof. intros Hf Hl. revert f Hf. induction Hl as [|x l Hx _ IH]; intros f Hf; [done|]. cbn. constructor; [by apply Hf|]. apply IH. intros i y. by apply Hf. Qed.

Lemma observe_trials_nonneg k a j t : nonneg t → nonneg (observe_trials k a j t).
Proof. intros Ht. unfold observe_trials. pose proof (fmul_nonneg t 8736983277098762 (-53) Ht) as H. case_match; [by apply fadd_nonneg|done]. Qed.
Lemma observe_successes_nonneg k a j t : nonneg t → nonneg (observe_successes k a j t).
Proof.
  intros Ht. unfold observe_successes. pose proof (fmul_nonneg t 8736983277098762 (-53) Ht) as H. case_match; [|done].
  case_match; [by apply fadd_nonneg|by apply fadd_zero_nonneg].
Qed.
Lemma observe_ok k a s : stats_ok s → 1 ≤ k ≤ 7 → 0 ≤ a ≤ k →
  ∃ s', observe k a s = (Ok tt, s') ∧ stats_ok s' ∧ observations s' = observations s + 1 ∧ cap s' = cap s ∧ prior s' = prior s.
Proof.
  intros [[Hs1 Hs2] [Ht1 Ht2] Ho Hc Hp] Hk Ha. unfold observe. replace (negb _ || negb _) with false.
  2: { symmetry. apply orb_false_iff. split; apply negb_false_iff, andb_true_iff; lia. }
  eexists. split; [done|]. split_and!; [|done..]. split; cbn; rewrite ?length_imap; try done.
  - split; [done|]. apply Forall_imap; [|done]. intros. by apply observe_successes_nonneg.
  - split; [done|]. apply Forall_imap; [|done]. intros. by apply observe_trials_nonneg.
  - lia.
Qed.

(** ** Expected lengths are always computed *)

Lemma conditional_total s j : stats_ok s → (j < 7)%nat → ∃ f, conditional s j = Ok f.
Proof.
  intros [[Hs1 _] [Ht1 Ht2] _ _ Hp] Hj. unfold conditional.
  destruct (lookup_lt_is_Some_2 (successes s) j ltac:(lia)) as [sj Hsj].
  destruct (lookup_lt_is_Some_2 (trials s) j ltac:(lia)) as [tj Htj]. rewrite Hsj, Htj. cbn [res_of_option mbind res_bind].
  assert (Hn : nonneg tj) by (rewrite Forall_lookup in Ht2; by eapply Ht2).
  destruct (prior s) as [p|].
  - cbn in Hp. destruct (lookup_lt_is_Some_2 p j ltac:(lia)) as [pj Hpj]. rewrite Hpj. cbn [res_of_option mbind res_bind].
    apply fdiv_ok. by apply fadd_nonzero.
  - destruct (fleb ftwo tj) eqn:E; [|by eexists]. apply fdiv_ok. by apply at_least_two_nonzero.
Qed.
Lemma expected_from_total s cold n j survival total : stats_ok s → (j + n ≤ 7)%nat → ∃ f, expected_from s cold j n survival total = Ok f.
Proof.
  intros Hs. revert j survival total. induction n as [|n IH]; intros j survival total Hj; cbn [expected_from]; [by eexists|].
  destruct (so_trials _ Hs) as [Ht1 _].
  destruct (lookup_lt_is_Some_2 (trials s) j ltac:(lia)) as [tj Htj]. rewrite Htj. cbn [res_of_option mbind res_bind].
  case_match; [by eexists|]. destruct (conditional_total s j Hs ltac:(lia)) as [f ->]. cbn [mbind res_bind]. apply IH. lia.
Qed.
Lemma expected_total s k cold : stats_ok s → k ∈ CAPS → ∃ f, expected s k cold = Ok f.
Proof.
  intros Hs Hk. unfold expected. apply expected_from_total; [done|].
  repeat (apply elem_of_cons in Hk as [->|Hk]; [cbn; lia|]). by apply elem_of_nil in Hk.
Qed.

(** ** The choice of a cap *)

Lemma better_greatest a b : finite_positive a.2 → finite_positive b.2 →
  (better a b = a ∨ better a b = b) ∧ ¬ float_lt (better a b).2 a.2 ∧ ¬ float_lt (better a b).2 b.2.
Proof.
  destruct a as [k x], b as [j y]. cbn. intros (m&e&->) (m'&e'&->). unfold better. cbn [fst snd].
  destruct (feqb _ _) eqn:E.
  - apply feqb_finite in E as [-> ->]. destruct (_ <? _); cbn [fst snd]; (split_and!; [auto|rewrite fltb_finite; lia..]).
  - destruct (fltb _ _) eqn:Hl; cbn.
    + apply (fltb_finite m e m' e') in Hl. split_and!; [by right|rewrite fltb_finite; lia..].
    + assert (¬ float_lt (S754_finite false m e) (S754_finite false m' e')) as Hn by (unfold float_lt; congruence).
      split_and!; [by left| |done]. rewrite fltb_finite. lia.
Qed.
Lemma best_rate_greatest rates : rates ≠ [] → Forall (λ r : Z * float, finite_positive r.2) rates →
  ∃ b, best_rate rates = Ok b ∧ b ∈ rates ∧ ∀ r, r ∈ rates → ¬ float_lt b.2 r.2.
Proof.
  destruct rates as [|a rates]; [done|]. intros _ [Ha Hr]%Forall_cons. cbn [best_rate]. eexists. split; [done|].
  revert a Ha. induction Hr as [|b rates Hb Hr IH]; intros a Ha; cbn [foldl].
  { split; [by left|]. intros r ->%list_elem_of_singleton. destruct Ha as (m&e&->). rewrite fltb_finite. lia. }
  destruct (better_greatest a b Ha Hb) as (Hc&Hna&Hnb).
  assert (Hbt : finite_positive (better a b).2) by (by destruct Hc as [-> | ->]).
  destruct (IH _ Hbt) as [Hin Hmax]. split; [destruct Hc as [E|E]; rewrite E in *; set_solver|].
  assert (Hfp : finite_positive (foldl better (better a b) rates).2).
  { apply elem_of_cons in Hin as [->|Hin]; [done|]. rewrite Forall_forall in Hr. by apply Hr. }
  assert (Hfirst : ¬ float_lt (foldl better (better a b) rates).2 (better a b).2) by (apply Hmax; by left).
  intros r [->|[->|Hr']%elem_of_cons]%elem_of_cons; [exact (not_less_trans _ _ _ Ha Hbt Hfp Hna Hfirst)|exact (not_less_trans _ _ _ Hb Hbt Hfp Hnb Hfirst)|apply Hmax; by right].
Qed.

(** A legal decision: the cap it leaves, and what it says about the rates. *)
Lemma map_rates_cases s costs cold ks : stats_ok s → same_keys (od_keys costs) CAPS = true → (∀ k, k ∈ ks → k ∈ CAPS) →
  (∃ rates, map_res (rate_of s costs cold) ks = Ok rates ∧ rates.*1 = ks) ∨
  (map_res (rate_of s costs cold) ks = Err ZeroDivisionError ∧ ∃ k c, k ∈ ks ∧ od_get k costs = Some c ∧ ¬ nonzero c).
Proof.
  intros Hs Hk. induction ks as [|k ks IH]; intros Hks; [by left; exists []|]. cbn [map_res].
  destruct (expected_total s k cold Hs (Hks k ltac:(by left))) as [e He].
  destruct (cost_at_total costs k Hk (Hks k ltac:(by left))) as (c&Hg&Hc).
  assert (Hr : rate_of s costs cold k = r ← fdiv e c; Ok (k, r)) by (unfold rate_of; by rewrite He, Hc). rewrite Hr. clear Hr.
  destruct (fdiv e c) as [r|x] eqn:Hd; cbn [mbind res_bind].
  - destruct IH as [(rates&->&Hfst)|(->&k'&c'&?&?&?)]; [intros; apply Hks; by right| |].
    + left. eexists. split; [done|]. cbn. by f_equal.
    + right. split; [done|]. exists k', c'. split_and!; [by right|done..].
  - right. destruct c; try done. injection Hd as <-. split; [done|]. eexists k, _. split_and!; [by left|done|by intros []].
Qed.

(** Why a decision other than 7, and how good it is. *)
Definition rates_of (s : PrefixStats) (costs : Costs) (cold : bool) (rates : list (Z * float)) : Prop :=
  map_res (rate_of s costs cold) CAPS = Ok rates.
Definition good_cap (rates : list (Z * float)) (old new : Z) : Prop :=
  ∃ r_old r_new, (old, r_old) ∈ rates ∧ (new, r_new) ∈ rates ∧
    ((new = old ∧ ∀ k r, (k, r) ∈ rates → ¬ float_lt (fmul r_old hysteresis) r) ∨
     (float_lt (fmul r_old hysteresis) r_new ∧ ∀ k r, (k, r) ∈ rates → ¬ float_lt r_new r)).

Lemma choose_cases costs steps cold s : stats_ok s →
  (∃ probe, AdaptiveSpec.choose costs steps cold s = (Ok (7, probe), s)) ∨
  (same_keys (od_keys costs) CAPS = true ∧ steps mod 16 ≠ 0 ∧ (8 ≤ observations s ∨ cold = true ∧ is_Some (prior s)) ∧
   ((AdaptiveSpec.choose costs steps cold s = (Err ZeroDivisionError, s) ∧ ∃ k c, od_get k costs = Some c ∧ ¬ nonzero c) ∨
    ∃ k rates, AdaptiveSpec.choose costs steps cold s = (Ok (k, false), with_cap k s) ∧ k ∈ CAPS ∧ rates_of s costs cold rates ∧ good_cap rates (cap s) k)).
Proof.
  intros Hs. unfold AdaptiveSpec.choose. rewrite run_get.
  set (probe := steps mod 16 =? 0). set (minimum := if cold && _ then 0 else 8).
  destruct ((observations s <? minimum) || probe || negb (same_keys (od_keys costs) CAPS)) eqn:E.
  { left. by exists probe. }
  apply orb_false_iff in E as [[Ho Hp]%orb_false_iff Hk%negb_false_iff]. apply Z.ltb_ge in Ho.
  destruct (map_rates_cases s costs cold CAPS Hs Hk (λ _, id)) as [(rates&Hr&Hfst)|(->&k&c&_&Hc)].
  2: { right. split_and!; [done|by apply Z.eqb_neq| |left; split; [done|by exists k, c]].
       subst minimum. destruct cold; [|by left]. destruct (prior s); [by right; eauto|by left]. }
  rewrite Hr, run_lift_ok.
  destruct (forallb _ rates) eqn:Hall; cbn [negb]; [|left; by exists probe].
  assert (Hfin : Forall (λ r : Z * float, finite_positive r.2) rates).
  { apply Forall_forall. intros r Hin. rewrite forallb_forall in Hall. apply list_elem_of_In, Hall, andb_true_iff in Hin as [? ?].
    by apply finite_positive_spec. }
  right. split_and!; [done|by apply Z.eqb_neq| |].
  { subst minimum. destruct cold; [|by left]. destruct (prior s); [by right; eauto|by left]. }
  right. destruct (best_rate_greatest rates) as (b&Hb&Hbin&Hbest); [intros ->; done|done|]. rewrite Hb, run_lift_ok.
  assert (Hcur : ∃ r, od_get (cap s) rates = Some r).
  { destruct (od_get (cap s) rates) as [r|] eqn:E; [by exists r|]. apply od_get_None in E. unfold od_keys in E. rewrite Hfst in E. destruct (E (so_cap _ Hs)). }
  destruct Hcur as [r Hcur]. rewrite Hcur. cbn [res_of_option]. rewrite run_lift_ok.
  pose proof (od_get_elem _ _ _ Hcur) as Hrin.
  assert (Hrok : ∀ x, x ∈ rates → x.1 ∈ CAPS) by (intros x Hx; rewrite <- Hfst; apply list_elem_of_fmap; eauto).
  destruct (fltb (fmul r hysteresis) b.2) eqn:Hlt.
  - exists b.1, rates. rewrite run_modify, run_get. cbn. rewrite Hp. split_and!; [done|by apply Hrok|done|].
    exists r, b.2. split_and!; [done|by destruct b|]. right. split; [done|]. intros k x Hx. by apply (Hbest (k, x)).
  - exists (cap s), rates. rewrite run_ret, run_get. cbn. rewrite Hp. split_and!; [by destruct s|apply Hs|done|].
    exists r, r. split_and!; [done..|]. left. split; [done|]. intros k x Hx.
    assert (Hr' : finite_positive r) by (rewrite Forall_forall in Hfin; by apply (Hfin (cap s, r))).
    apply (not_less_less_trans x b.2 (fmul r hysteresis)).
    + rewrite Forall_forall in Hfin. by apply (Hfin (k, x)).
    + rewrite Forall_forall in Hfin. by apply (Hfin b).
    + destruct Hr' as (m&e&->). by apply fmul_nonneg.
    + by apply (Hbest (k, x)).
    + unfold float_lt. congruence.
Qed.

(** * Tables *)

(** An expression that raises nothing but the exceptions [es]. *)
Definition raises_only {A} (es : list exn) (r : res A) : Prop := ∀ e, r = Err e → e ∈ es.
Lemma raises_ok {A} es (a : A) : raises_only es (Ok a).
Proof. by intros e [=]. Qed.
Lemma raises_err {A} es e : e ∈ es → raises_only es (Err e : res A).
Proof. by intros He x [= <-]. Qed.
Lemma raises_bind {A B} es (r : res A) (k : A → res B) : raises_only es r → (∀ a, r = Ok a → raises_only es (k a)) → raises_only es (r ≫= k).
Proof. destruct r as [a|e]; cbn; intros Hr Hk; [by apply Hk|]. intros x [= <-]. by apply Hr. Qed.
Lemma raises_map_res {A B} es (f : A → res B) l : (∀ x, x ∈ l → raises_only es (f x)) → raises_only es (map_res f l).
Proof.
  induction l as [|x l IH]; intros Hf; cbn [map_res]; [apply raises_ok|].
  apply raises_bind; [apply Hf; by left|]. intros y _. apply raises_bind; [apply IH; intros z Hz; apply Hf; by right|].
  intros ys _. apply raises_ok.
Qed.
Lemma raises_all_res {A} es (f : A → res bool) l : (∀ x, x ∈ l → raises_only es (f x)) → raises_only es (all_res f l).
Proof.
  induction l as [|x l IH]; intros Hf; cbn [all_res]; [apply raises_ok|].
  apply raises_bind; [apply Hf; by left|]. intros [] _; [|apply raises_ok]. apply IH. intros z Hz. apply Hf. by right.
Qed.
Lemma raises_of_option {A} es e (o : option A) : e ∈ es → raises_only es (res_of_option e o).
Proof. destruct o; intros; [apply raises_ok|by apply raises_err]. Qed.
Lemma raises_weaken {A} es es' (r : res A) : (∀ e, e ∈ es → e ∈ es') → raises_only es r → raises_only es' r.
Proof. intros Hs Hr e He. by apply Hs, Hr. Qed.
Create HintDb raises.
#[local] Hint Resolve raises_ok raises_err raises_of_option raises_map_res raises_all_res : raises.

Lemma float_of_int_raises n : raises_only [OverflowError] (float_of_int n).
Proof. unfold float_of_int. destruct (binary_normalize _ _ _ _ _); auto with raises. apply raises_err. by left. Qed.
Lemma number_raises v : is_number v = true → raises_only [OverflowError] (number_to_float v).
Proof. destruct v; try done; cbn; intros _; first [apply float_of_int_raises|apply raises_ok]. Qed.
Lemma finite_number_raises v : is_number v = true → raises_only [OverflowError] (is_finite_number v).
Proof. intros Hv. apply raises_bind; [by apply number_raises|]. auto with raises. Qed.

Lemma all_res_true {A} (f : A → res bool) l : all_res f l = Ok true → ∀ x, x ∈ l → f x = Ok true.
Proof.
  induction l as [|x l IH]; intros H y; [by intros ?%elem_of_nil|]. cbn in H. apply res_bind_ok in H as (b&Hb&H).
  destruct b; [|done]. intros [->|Hy]%elem_of_cons; [done|by apply IH].
Qed.
Lemma map_res_length {A B} (f : A → res B) l ys : map_res f l = Ok ys → length ys = length l.
Proof. intros H. by rewrite <- (Forall2_length _ _ _ (map_res_inv _ _ _ H)). Qed.

Lemma validated_prior_ok v p : validated_prior v = Ok p → prior_ok p.
Proof.
  destruct v as [[| | | | |l|]|]; cbn; try (by intros [= <-]). case_bool_decide; [|by intros [= <-]].
  intros H'. apply res_bind_ok in H' as (ok&_&H'). destruct ok; [|by injection H' as <-].
  apply res_bind_ok in H' as (fs&Hfs&H'). injection H' as <-. cbn. by rewrite (map_res_length _ _ _ Hfs).
Qed.
Lemma validated_prior_raises v : raises_only [OverflowError] (validated_prior v).
Proof.
  destruct v as [[| | | | |l|]|]; cbn; auto with raises. case_bool_decide; auto with raises.
  apply raises_bind.
  - apply raises_all_res. intros x _. destruct (is_number x) eqn:E; auto with raises. apply raises_bind; [by apply finite_number_raises|]. auto with raises.
  - intros [] Hall; auto with raises. apply raises_bind; auto with raises. apply raises_map_res. intros x Hx. apply number_raises.
    pose proof (all_res_true _ _ Hall x Hx) as H'. cbn in H'. by destruct (is_number x).
Qed.

(** What a parsed curve satisfies: one to eight points, strictly ordered by
    context and inside the bounds, each with a positive finite cost for
    exactly the caps. *)
Definition point_ok (p : CostPoint) : Prop := valid_costs (pt_costs p) = true ∧ prior_ok (pt_prior p).
Record curve_ok (max_len : Z) (c : CostCurve) : Prop := {
  cv_range : 0 ≤ (cv_bounds c).1 < (cv_bounds c).2 ∧ (cv_bounds c).2 ≤ max_len;
  cv_number : (1 ≤ length (cv_points c) ≤ 8)%nat;
  cv_inside : Forall (λ p, in_range (cv_bounds c) (pt_context p) = true) (cv_points c);
  cv_sorted : StronglySorted (λ p q, pt_context p < pt_context q) (cv_points c);
  cv_valid : Forall point_ok (cv_points c) }.

Lemma parse_point_ok bounds previous row p : parse_point bounds previous row = Ok p →
  in_range bounds (pt_context p) = true ∧ point_ok p ∧ (∀ y, previous = Some y → y < pt_context p).
Proof.
  unfold parse_point. intros H. apply res_bind_ok in H as (x&_&H). apply res_bind_ok in H as (raw&_&H).
  destruct x as [| |x| | | |]; try done. destruct raw as [| | | | | |raw]; try done.
  destruct (negb _ || _ || _ || _) eqn:E; [done|]. apply orb_false_iff in E as [[[E1 E2]%orb_false_iff _]%orb_false_iff _].
  apply res_bind_ok in H as (costs&_&H). apply res_bind_ok in H as (given&_&H). apply res_bind_ok in H as (prior&Hp&H).
  apply res_bind_ok in H as (strength&_&H). destruct (negb _ || _ || _) eqn:E; [done|].
  apply orb_false_iff in E as [[E3 _]%orb_false_iff _]. injection H as <-. cbn. apply negb_false_iff in E1, E3.
  split_and!; [done|split; [done|by eapply validated_prior_ok]|]. intros y ->. lia.
Qed.
Lemma parse_points_ok bounds previous rows ps : parse_points bounds previous rows = Ok ps →
  length ps = length rows ∧ Forall (λ p, in_range bounds (pt_context p) = true) ps ∧ Forall point_ok ps ∧
  StronglySorted (λ p q, pt_context p < pt_context q) ps ∧ (∀ y p, previous = Some y → p ∈ ps → y < pt_context p).
Proof.
  revert previous ps. induction rows as [|row rows IH]; intros previous ps; cbn [parse_points].
  { intros [= <-]. split_and!; [done|constructor..|]. by intros y p _ ?%elem_of_nil. }
  intros H. apply res_bind_ok in H as (p&Hp&H). apply res_bind_ok in H as (ps'&Hps&H). injection H as <-.
  destruct (parse_point_ok _ _ _ _ Hp) as (H1&H2&H3). destruct (IH _ _ Hps) as (G1&G2&G3&G4&G5).
  split_and!; [cbn; lia|by constructor|by constructor| |].
  - constructor; [done|]. apply Forall_forall. intros q Hq. by apply (G5 _ q eq_refl).
  - intros y q Hy [->|Hq]%elem_of_cons; [by apply H3|]. pose proof (H3 y Hy). pose proof (G5 _ q eq_refl Hq). lia.
Qed.
Lemma as_value_error_ok {A} caught (r : res A) a : as_value_error caught r = Ok a → r = Ok a.
Proof. destruct r as [|e]; cbn; [done|]. by destruct (caught e). Qed.

Lemma CostCurve_parse_ok data max_len c : CostCurve_parse data max_len = Ok c → curve_ok max_len c.
Proof.
  intros H%as_value_error_ok. apply res_bind_ok in H as (bounds&_&H). apply res_bind_ok in H as (rows&_&H).
  destruct (int_pair bounds) as [[lo hi]|]; [|done]. destruct rows as [| | | | |rows|]; try done.
  destruct (_ && _) eqn:E; [|done]. rewrite !andb_true_iff in E. destruct E as [[[E1 E2] E3] E4%bool_decide_eq_true].
  apply res_bind_ok in H as (ps&Hps&H). injection H as <-. destruct (parse_points_ok _ _ _ _ Hps) as (G1&G2&G3&G4&_).
  split; cbn; try done; [lia|by rewrite G1].
Qed.

(** A table that is not a curve is refused with [ValueError], whatever it is. *)
Lemma as_value_error_raises {A} caught es (r : res A) : raises_only es r → (∀ e, e ∈ es → caught e = true) → raises_only [ValueError] (as_value_error caught r).
Proof.
  intros Hr Hc. destruct r as [a|e]; cbn; [apply raises_ok|]. rewrite (Hc e) by by apply Hr. apply raises_err. by left.
Qed.
Definition table_errors : list exn := [KeyError; TypeError; ValueError; OverflowError].
#[local] Hint Extern 1 (?e ∈ table_errors) => (apply (bool_decide_unpack _); vm_compute; exact I) : raises.

Lemma py_item_raises v k : raises_only table_errors (py_item v k).
Proof. destruct v; cbn; auto with raises. Qed.
Lemma py_get_after_item v k k' x : py_item v k = Ok x → raises_only table_errors (py_get v k').
Proof. destruct v; cbn; try done; intros _; apply raises_ok. Qed.
Lemma py_int_raises s : raises_only table_errors (py_int s).
Proof. unfold py_int. case_match; auto with raises. Qed.
Lemma overflow_table {A} (r : res A) : raises_only [OverflowError] r → raises_only table_errors r.
Proof. apply raises_weaken. intros e ->%list_elem_of_singleton. auto with raises. Qed.
Lemma costs_of_raises number raw acc : (∀ x, x ∈ raw → raises_only table_errors (number x.2)) → raises_only table_errors (costs_of number raw acc).
Proof.
  revert acc. induction raw as [|[k v] raw IH]; intros acc Hn; cbn [costs_of]; [apply raises_ok|].
  apply raises_bind; [apply py_int_raises|]. intros n _. apply raises_bind; [by apply (Hn (k, v)); left|].
  intros f _. apply IH. intros x Hx. apply Hn. by right.
Qed.
Lemma parse_point_raises bounds previous row : raises_only table_errors (parse_point bounds previous row).
Proof.
  unfold parse_point. apply raises_bind; [apply py_item_raises|]. intros x Hx. apply raises_bind; [apply py_item_raises|].
  intros raw _. destruct x; auto with raises. destruct raw as [| | | | | |raw]; auto with raises.
  destruct (negb _ || _ || _ || _) eqn:E; auto with raises. apply orb_false_iff in E as [_ E%negb_false_iff].
  apply raises_bind.
  - apply costs_of_raises. intros y Hy. apply overflow_table, number_raises. rewrite forallb_forall in E. apply E.
    apply list_elem_of_In. unfold od_vals. apply list_elem_of_fmap. eauto.
  - intros costs _. apply raises_bind; [by eapply py_get_after_item|]. intros given _.
    apply raises_bind; [apply overflow_table, validated_prior_raises|]. intros prior _.
    apply raises_bind; [by eapply py_get_after_item|]. intros strength _. case_match; auto with raises.
Qed.
Lemma parse_points_raises bounds previous rows : raises_only table_errors (parse_points bounds previous rows).
Proof.
  revert previous. induction rows as [|row rows IH]; intros previous; cbn [parse_points]; [apply raises_ok|].
  apply raises_bind; [apply parse_point_raises|]. intros p _. apply raises_bind; [apply IH|]. auto with raises.
Qed.
Lemma CostCurve_parse_raises data max_len : raises_only [ValueError] (CostCurve_parse data max_len).
Proof.
  unfold CostCurve_parse. eapply (as_value_error_raises _ table_errors).
  - apply raises_bind; [apply py_item_raises|]. intros bounds _. apply raises_bind; [apply py_item_raises|]. intros rows _.
    destruct (int_pair bounds) as [[lo hi]|]; auto with raises. destruct rows as [| | | | |rows|]; auto with raises.
    case_match; auto with raises. apply raises_bind; [apply parse_points_raises|auto with raises].
  - intros e He. by apply bool_decide_eq_true.
Qed.

(** ** Looking a curve up *)

Definition costs_ok (c : Costs) : Prop := c = [] ∨ same_keys (od_keys c) CAPS = true.
Lemma valid_costs_keys c : valid_costs c = true → same_keys (od_keys c) CAPS = true.
Proof. by intros [? _]%andb_true_iff. Qed.
Lemma valid_costs_nonzero c k f : valid_costs c = true → od_get k c = Some f → nonzero f.
Proof.
  intros [_ H]%andb_true_iff Hg. rewrite forallb_forall in H. apply positive_nonzero.
  apply od_get_elem in Hg. assert (Hv : In f (od_vals c)) by (apply list_elem_of_In, list_elem_of_fmap; by exists (k, f)).
  by apply H, andb_true_iff in Hv as [_ ?].
Qed.
Lemma between_ok context p q : pt_context p < pt_context q → point_ok p → point_ok q →
  ∃ costs prior, AdaptiveSpec.between context p q = Ok (costs, prior) ∧ same_keys (od_keys costs) CAPS = true ∧ prior_ok prior.
Proof.
  intros Hlt [Hp Hpp] [Hq Hqp]. unfold AdaptiveSpec.between, int_truediv.
  destruct (fdiv_ok (unrounded (context - pt_context p)) (unrounded (pt_context q - pt_context p))) as [w ->].
  { destruct (pt_context q - pt_context p) eqn:E; [lia|done..]. }
  cbn [mbind res_bind].
  assert (Hc : ∀ k, k ∈ CAPS → ∃ f, (a ← cost_at (pt_costs p) k; b ← cost_at (pt_costs q) k; Ok (k, interpolate w a b)) = Ok (k, f)).
  { intros k Hk. destruct (cost_at_total (pt_costs p) k (valid_costs_keys _ Hp) Hk) as (a&_&->).
    destruct (cost_at_total (pt_costs q) k (valid_costs_keys _ Hq) Hk) as (b&_&->). cbn. by eexists. }
  destruct (Hc 1 ltac:(by left)) as [f1 E1], (Hc 3 ltac:(by right; left)) as [f3 E3],
    (Hc 5 ltac:(by right; right; left)) as [f5 E5], (Hc 7 ltac:(by right; right; right; left)) as [f7 E7].
  cbn [map_res CAPS]. rewrite E1, E3, E5, E7. cbn. eexists _, _. split_and!; [done|done|].
  destruct (pt_prior p) as [a|], (pt_prior q) as [b|]; try done. cbn in *. rewrite length_zip_with. lia.
Qed.
Lemma curve_at_ok max_len c context : curve_ok max_len c →
  ∃ costs prior, curve_at c context = Ok (costs, prior) ∧ costs_ok costs ∧ prior_ok prior.
Proof.
  intros [_ Hn _ Hs Hv]. unfold curve_at. destruct (in_range _ _); cbn [negb]; [|by exists [], None; split_and!; [|left|]].
  destruct (cv_points c) as [|p ps]; [cbn in Hn; lia|]. apply Forall_cons in Hv as [Hp Hps].
  destruct (context <=? pt_context p).
  { exists (pt_costs p), (pt_prior p). destruct Hp. split_and!; [done|right; by apply valid_costs_keys|done]. }
  clear Hn. revert p Hp Hs. induction Hps as [|q ps Hq Hps IH]; intros p Hp Hs; cbn [segment].
  { exists (pt_costs p), (pt_prior p). destruct Hp. split_and!; [done|right; by apply valid_costs_keys|done]. }
  apply StronglySorted_inv in Hs as [Hs Hpq]. apply Forall_cons in Hpq as [Hpq _].
  destruct (context <=? pt_context q); [|by apply IH].
  destruct (between_ok context p q Hpq Hp Hq) as (costs&prior&->&?&?). exists costs, prior. split_and!; [done|by right|done].
Qed.

(** * The policy *)

Section policy.
Context {W : SpecWorld}.

Definition hints_ok (h : HintPriors) : Prop := ∀ d, d = "code" ∨ d = "prose" → ∃ p, od_get d (hp_domains h) = Some p ∧ length p = 7%nat.
Lemma select_hint_ok h xargs context : hints_ok h →
  ∃ r, select_hint h xargs context = Ok r ∧ ∀ p d, r = Some (p, d) → length p = 7%nat.
Proof.
  intros Hh. unfold select_hint. destruct (negb _ || _ || _ || _); [by exists None|]. cbv zeta.
  destruct (_ || _ || has_str xargs "spec_workload" "code_review"); [|destruct (has_str xargs "spec_workload" "prose")].
  - destruct (Hh "code" ltac:(by left)) as (p&->&Hp). cbn. eexists. split; [done|]. by intros ? ? [= <- <-].
  - destruct (Hh "prose" ltac:(by right)) as (p&->&Hp). cbn. eexists. split; [done|]. by intros ? ? [= <- <-].
  - by exists None.
Qed.

Definition table_ok (c : Costs) : Prop := c = [] ∨ valid_costs c = true.
Definition usable (c : Costs) : Prop := ∀ k f, od_get k c = Some f → nonzero f.
Lemma table_ok_costs c : table_ok c → costs_ok c ∧ usable c.
Proof.
  intros [->|Hv]; [by split; [left|]|]. split; [right; by apply valid_costs_keys|]. intros k f. by apply valid_costs_nonzero.
Qed.

Record state_ok (max_len : Z) (st : ReqState) : Prop := {
  rs_stats : stats_ok (stats st);
  rs_curve c : st_curve st = Some (Some c) → curve_ok max_len c }.
(** The policy between two calls. *)
Record policy_ok (p : Policy) : Prop := {
  po_costs : table_ok (p_costs p);
  po_prior : prior_ok (p_prior p);
  po_fixed : p_fixed p ∈ CAPS;
  po_curve c : p_curve p = Some c → curve_ok (sig_max_model_len (p_signature p)) c;
  po_hints h : p_hints p = Some h → hints_ok h;
  po_states ref st : states p !! ref = Some st → state_ok (sig_max_model_len (p_signature p)) st;
  po_chosen rid row : od_get rid (chosen p) = Some row → row_cap row ∈ CAPS;
  po_pending : (length (pending p) ≤ 64)%nat ∧ NoDup (od_keys (pending p)) }.

Lemma new_state_ok n : state_ok n new_state.
Proof.
  split; [|done]. split; cbn; try done; [by split; repeat constructor|by split; repeat constructor|].
  apply (bool_decide_unpack _). vm_compute. exact I.
Qed.
Lemma put_state_ok p ref st : policy_ok p → state_ok (sig_max_model_len (p_signature p)) st → policy_ok (with_states (<[ref := st]> (states p)) p).
Proof.
  intros [? ? ? ? ? Hs ? ?] Hst. split; cbn; try done. intros r s. destruct (decide (r = ref)) as [->|Hr].
  - rewrite lookup_insert. rewrite decide_True by done. by intros [= <-].
  - rewrite lookup_insert_ne by done. apply Hs.
Qed.

(** ** Steps of a decision *)

Definition same_tables (p p' : Policy) : Prop :=
  p_signature p' = p_signature p ∧ (pending p', p_curve p', p_mode p') = (pending p, p_curve p, p_mode p).
Lemma wp_put_state ref st (Q : res unit → Policy → Prop) p : policy_ok p → state_ok (sig_max_model_len (p_signature p)) st →
  (∀ p', policy_ok p' → same_tables p p' → states p' !! ref = Some st → Q (Ok tt) p') → wp (put_state ref st) Q p.
Proof. intros Hp Hst HQ. apply wp_modify, HQ; [by apply put_state_ok|done|]. cbn. by rewrite lookup_insert, decide_True. Qed.
Lemma wp_state_of ref (Q : res ReqState → Policy → Prop) p : policy_ok p →
  (∀ st p', policy_ok p' → same_tables p p' → state_ok (sig_max_model_len (p_signature p')) st → states p' !! ref = Some st → Q (Ok st) p') →
  wp (state_of ref) Q p.
Proof.
  intros Hp HQ. apply wp_bind, wp_get. destruct (states p !! ref) as [st|] eqn:E.
  - apply wp_ret, HQ; [done|done|by eapply po_states|done].
  - apply wp_bind, wp_put_state; [done|apply new_state_ok|]. intros p' Hp' Hs Hl. apply wp_ret, HQ; [done|done|apply new_state_ok|done].
Qed.

Hypothesis Hjson : ∀ text e, json_loads text = Err e → e = ValueError ∨ e = RecursionError.

Lemma parse_request_curve_ok p source : ∃ c, parse_request_curve p source = Ok c ∧
  ∀ curve, c = Some curve → curve_ok (sig_max_model_len (p_signature p)) curve.
Proof.
  unfold parse_request_curve. destruct (match source with PStr _ => _ | _ => _ end) as [data|e] eqn:E.
  2: { cbn. destruct source; try done. case_match; [|done]. destruct (Hjson _ _ E) as [-> | ->]; by exists None. }
  cbn [mbind res_bind]. destruct data; try (by exists None). destruct (_ && _); [|by exists None].
  destruct (CostCurve_parse _ _) as [c|e] eqn:Ec; cbn.
  - exists (Some c). split; [done|]. intros ? [= <-]. by eapply CostCurve_parse_ok.
  - pose proof (CostCurve_parse_raises _ _ e Ec) as ->%list_elem_of_singleton. by exists None.
Qed.

Lemma wp_request_curve tables ref xargs (Q : res (option CostCurve) → Policy → Prop) p :
  policy_ok p → p_signature tables = p_signature p →
  (∀ c p', policy_ok p' → same_tables p p' → (∀ curve, c = Some curve → curve_ok (sig_max_model_len (p_signature p)) curve ∧ is_Some (od_get "spec_cost_table" xargs)) → Q (Ok c) p') →
  wp (request_curve tables ref xargs) Q p.
Proof.
  intros Hp Hsig HQ. unfold request_curve. destruct (curve_source xargs) as [source|] eqn:Es; [|apply wp_ret, HQ; done].
  assert (Hsrc : is_Some (od_get "spec_cost_table" xargs)).
  { unfold curve_source in Es. destruct (od_get "spec_cost_table" xargs); [by eexists|done]. }
  apply wp_bind, wp_state_of; [done|]. intros st p1 Hp1 [Hs1 Hs1'] Hst Hl1. destruct (st_curve st) as [c|] eqn:Ec.
  - apply wp_ret, HQ; [done|done|]. intros curve ->. split; [|done]. rewrite <- Hs1. by apply (rs_curve _ _ Hst).
  - apply wp_bind, wp_put_state; [done|by split; [apply Hst|]|]. intros p2 Hp2 [Hs2 Hs2'] _.
    destruct (parse_request_curve_ok tables source) as (c&Hc&Hok).
    apply wp_bind, wp_lift. rewrite Hc. apply wp_bind, wp_put_state; [done| |].
    { split; cbn; [apply Hst|]. intros curve [= ->]. rewrite Hs2, Hs1, <- Hsig. by apply Hok. }
    intros p3 Hp3 [Hs3 Hs3'] _. apply wp_ret, HQ; [done|by split; congruence|]. intros curve Hcv. split; [|done]. rewrite <- Hsig. by apply Hok.
Qed.

Lemma boot_costs_ok p context : policy_ok p →
  ∃ costs prior, boot_costs p context = Ok (costs, prior) ∧ costs_ok costs ∧ prior_ok prior ∧ (p_curve p = None → usable costs).
Proof.
  intros Hp. unfold boot_costs. destruct (p_curve p) as [c|] eqn:E.
  - destruct (curve_at_ok _ c context (po_curve _ Hp c E)) as (costs&prior&->&?&?). by exists costs, prior.
  - assert (Ht : table_ok (if in_range (p_cost_context p) context then p_costs p else [])) by (case_match; [apply Hp|by left]).
    apply table_ok_costs in Ht as [? ?]. eexists _, _. split_and!; [done|done| |by intros _]. destruct (is_empty _); [done|apply Hp].
Qed.
Lemma request_table_ok n curve context costs prior : (∀ c, curve = Some c → curve_ok n c) → costs_ok costs → prior_ok prior →
  ∃ costs' prior', request_table curve context (costs, prior) = Ok (costs', prior') ∧ costs_ok costs' ∧ prior_ok prior' ∧
    (curve = None → costs' = costs).
Proof.
  intros Hc Hcs Hpr. destruct curve as [c|]; cbn [request_table]; [|by exists costs, prior].
  destruct (curve_at_ok n c context (Hc c eq_refl)) as (cs&pr&->&?&?). cbn. case_match; eexists _, _; split_and!; done.
Qed.

(** The controls that carry numbers a request may choose freely. *)
Definition numeric_controls : list string := ["spec_cycle_ms"; "spec_acceptance_prior"; "spec_lossy_margin"; "spec_lossy_min_p"].
Definition has_numeric_control (xargs : odict string PyVal) : Prop := ∃ k v, k ∈ numeric_controls ∧ od_get k xargs = Some v.
Lemma has_control xargs k v : od_get k xargs = Some v → bool_decide (k ∈ numeric_controls) = true → has_numeric_control xargs.
Proof. intros Hk Hb. exists k, v. split; [exact (proj1 (bool_decide_eq_true _) Hb)|done]. Qed.

Lemma float_of_positive n f : 0 < n → float_of_int n = Ok f → nonzero f.
Proof.
  intros Hn. unfold float_of_int. destruct n as [|n|n]; [lia| |lia].
  assert (Hz : nonzero (binary_normalize 53 1024 (Z.pos n) 0 false)).
  { cbn [binary_normalize]. apply binary_round_nonzero. pose proof (Z.log2_nonneg (Z.pos n)). lia. }
  destruct (binary_normalize _ _ _ _ _); try done; by intros [= <-].
Qed.
Lemma request_costs_ok p xargs context costs prior : costs_ok costs → prior_ok prior →
  (∃ costs' prior', request_costs p xargs context (costs, prior) = Ok (costs', prior') ∧ costs_ok costs' ∧ prior_ok prior' ∧
     (usable costs → usable costs')) ∨
  (request_costs p xargs context (costs, prior) = Err OverflowError ∧ has_numeric_control xargs).
Proof.
  intros Hc Hp. assert (Hsame : ∃ costs' prior', Ok (costs, prior) = Ok (costs', prior') ∧ costs_ok costs' ∧ prior_ok prior' ∧ (usable costs → usable costs'))
    by (by exists costs, prior).
  unfold request_costs. destruct (od_get "spec_cycle_ms" xargs) as [[| | | | |values|]|] eqn:Ev; auto.
  destruct (od_get "spec_cost_context" xargs) as [bounds|]; auto. destruct (_ || _) eqn:E; auto.
  apply orb_false_iff in E as [_ E%negb_false_iff%bool_decide_eq_true]. destruct (int_pair bounds) as [b|]; auto. case_match; auto.
  assert (Hctl : has_numeric_control xargs) by (by eapply has_control).
  assert (Hor : ∀ {A} (r : res A) e, raises_only [OverflowError] r → r = Err e → e = OverflowError).
  { intros A r e Hr He. by apply Hr, list_elem_of_singleton in He. }
  destruct (all_res _ values) as [ok|e] eqn:Ea; cbn [mbind res_bind].
  2: { right. split; [|done]. f_equal. eapply Hor; [|exact Ea]. apply raises_all_res. intros v _. destruct (is_number v) eqn:En; [|apply raises_ok].
       apply raises_bind; [by apply finite_number_raises|]. auto with raises. }
  destruct ok; cbn [negb]; [|by left].
  pose proof (all_res_true _ _ Ea) as Hall. cbn in Hall.
  destruct (map_res number_to_float values) as [fs|e] eqn:Ef; cbn [mbind res_bind].
  2: { right. split; [|done]. f_equal. eapply Hor; [|exact Ef]. apply raises_map_res. intros v Hv. apply number_raises.
       specialize (Hall v Hv). by destruct (is_number v). }
  destruct (validated_prior _) as [pr|e] eqn:Epr; cbn [mbind res_bind].
  2: { right. split; [|done]. f_equal. eapply Hor; [apply validated_prior_raises|exact Epr]. }
  left. eexists _, _. split; [done|]. pose proof (map_res_inv _ _ _ Ef) as HF. pose proof (map_res_length _ _ _ Ef) as Hlen.
  split_and!; [right|by eapply validated_prior_ok|].
  - destruct fs as [|a [|b' [|c [|d [|]]]]]; cbn in Hlen; try lia. done.
  - intros _ k f Hg%od_get_elem. apply elem_of_zip_r in Hg.
    apply list_elem_of_lookup in Hg as [j Hj]. destruct (Forall2_lookup_r _ _ _ _ _ HF Hj) as (v&Hv&Hvf).
    apply list_elem_of_lookup_2, Hall in Hv. destruct (is_number v) eqn:En; [|done].
    apply res_bind_ok in Hv as (fin&_&Hv). apply Ok_inj, andb_true_iff in Hv as [_ Hpos].
    destruct v; try done; cbn in Hvf, Hpos; [eapply float_of_positive; [|exact Hvf]; lia|]. injection Hvf as <-. by apply positive_nonzero.
Qed.

Lemma lossy_ok xargs : (∃ l, lossy_request_fields xargs = Ok l) ∨ (lossy_request_fields xargs = Err OverflowError ∧ has_numeric_control xargs).
Proof.
  assert (Hn : ∀ v, raises_only [OverflowError] (lossy_number v)).
  { intros [v|]; cbn; [|apply raises_ok]. destruct (is_number v) eqn:E; [|apply raises_ok].
    apply raises_bind; [by apply finite_number_raises|]. intros [] _; [|apply raises_ok]. apply raises_bind; [by apply number_raises|]. auto with raises. }
  unfold lossy_request_fields. destruct (lossy_number (od_get "spec_lossy_margin" xargs)) as [m|e] eqn:Em; cbn [mbind res_bind].
  2: { right. pose proof (Hn _ e Em) as ->%list_elem_of_singleton. split; [done|].
       destruct (od_get "spec_lossy_margin" xargs) as [v|] eqn:E; [|done]. by eapply has_control. }
  clear Em. destruct (lossy_number (Some _)) as [n|e] eqn:En; cbn [mbind res_bind]; [left; eexists; reflexivity|].
  right. pose proof (Hn _ e En) as ->%list_elem_of_singleton. split; [done|].
  destruct (od_get "spec_lossy_min_p" xargs) as [v|] eqn:E; [|done]. by eapply has_control.
Qed.

Lemma hint_for_ok p ok mode costs st xargs context : policy_ok p →
  ∃ r, hint_for p ok mode costs st xargs context = Ok r ∧ ∀ h d, r = Some (h, d) → length h = 7%nat.
Proof.
  intros Hp. unfold hint_for. destruct (p_hints p) as [h|] eqn:E; [|by exists None]. case_match; [|by exists None].
  apply select_hint_ok. by eapply po_hints.
Qed.

Definition legal (r : Request) (c1 : bool) (mode : Mode) (cap : Z) : Prop :=
  cap ∈ CAPS ∧ (cap ≠ 7 → eligible r c1 = true ∧ (mode = Fixed ∨ mode = Adaptive)).
Lemma seven_caps : 7 ∈ CAPS.
Proof. apply (bool_decide_unpack _). vm_compute. exact I. Qed.

Lemma wp_decide_cap tables ref (ok : bool) mode costs xargs cold (Q : res (Z * bool) → Policy → Prop) p :
  policy_ok p → p_fixed tables ∈ CAPS →
  (∀ cap probe p', policy_ok p' → same_tables p p' → cap ∈ CAPS → (cap ≠ 7 → ok = true ∧ (mode = Fixed ∨ mode = Adaptive)) → Q (Ok (cap, probe)) p') →
  (∀ p', policy_ok p' → same_tables p p' → ¬ usable costs → Q (Err ZeroDivisionError) p') →
  wp (decide_cap tables ref ok mode costs xargs cold) Q p.
Proof.
  intros Hp Hfix HQ HE. unfold decide_cap. destruct ok; cbn [negb]; [|by apply wp_ret, HQ; [..|apply seven_caps|]].
  apply wp_bind, wp_state_of; [done|]. intros st p1 Hp1 [Hs1 Hs1'] Hst Hl1.
  apply wp_bind, wp_put_state; [done|by split; [apply Hst|apply (rs_curve _ _ Hst)]|]. intros p2 Hp2 [Hs2 Hs2'] Hl2.
  destruct mode; try (apply wp_ret, HQ; [done|by split; congruence|apply seven_caps|done]).
  - apply wp_ret, HQ; [done|by split; congruence| |by auto]. unfold fixed_cap.
    destruct (default _ _); try apply seven_caps. case_bool_decide; [done|apply seven_caps].
  - apply wp_bind, wp_state_of; [done|]. intros st3 p3 Hp3 [Hs3 Hs3'] Hst3 Hl3.
    assert (Hput : ∀ k, k ∈ CAPS → state_ok (sig_max_model_len (p_signature p3)) (mkReqState (with_cap k (stats st3)) (scheduled_steps st3) (st_curve st3) (completed_at st3))).
    { intros k Hk. destruct Hst3 as [[? ? ? ? ?] ?]. by split; [split|]. }
    assert (Hsame : mkReqState (stats st3) (scheduled_steps st3) (st_curve st3) (completed_at st3) = st3) by (by destruct st3).
    destruct (choose_cases costs (scheduled_steps st3) cold (stats st3) (rs_stats _ _ Hst3))
      as [(probe&->)|(_&_&_&[[-> (k&f&Hk&Hz)]|(k&rates&->&Hk&_)])].
    + rewrite Hsame. apply wp_bind, wp_put_state; [done|done|]. intros p4 Hp4 [Hs4 Hs4'] _.
      apply wp_lift, HQ; [done|by split; congruence|apply seven_caps|done].
    + rewrite Hsame. apply wp_bind, wp_put_state; [done|done|]. intros p4 Hp4 [Hs4 Hs4'] _. apply wp_lift, HE; [done|by split; congruence|].
      intros Hu. by apply Hz, (Hu k).
    + apply wp_bind, wp_put_state; [done|by apply Hput|]. intros p4 Hp4 [Hs4 Hs4'] _.
      apply wp_lift, HQ; [done|by split; congruence|done|by auto].
Qed.

Lemma put_chosen_ok p rid row : policy_ok p → row_cap row ∈ CAPS → policy_ok (with_chosen (od_set rid row (chosen p)) p).
Proof.
  intros [? ? ? ? ? ? Hc ?] Hrow. split; cbn; try done. intros k r. destruct (decide (k = rid)) as [->|Hk].
  - rewrite od_get_set. by intros [= <-].
  - rewrite od_get_set_ne by done. apply Hc.
Qed.

(** How a decision on request [r] may end. *)
Definition decision_ends (p : Policy) (r : Request) (c1 : bool) (res_ : res Z) (p' : Policy) : Prop :=
  policy_ok p' ∧ pending p' = pending p ∧
  match res_ with
  | Ok cap => legal r c1 (request_mode p (xargs_of r)) cap ∧ ∃ row, od_get (request_id r) (chosen p') = Some row ∧ row_cap row = cap
  | Err e => (e = OverflowError ∧ has_numeric_control (xargs_of r)) ∨
             (e = ZeroDivisionError ∧ (is_Some (p_curve p) ∨ is_Some (od_get "spec_cost_table" (xargs_of r)))) ∨
             (e = ValueError ∧ ∃ label : PyVal, od_get "spec_label" (xargs_of r) = Some label ∧ has_text label = false)
  end.

Lemma wp_select r c1 step p : policy_ok p → wp (select r c1 step) (decision_ends p r c1) p.
Proof.
  intros Hp. unfold select. apply wp_bind, wp_state_of; [done|]. intros st1 p1 Hp1 [Hs1 Hs1'] _ _.
  apply wp_bind, wp_get. destruct (boot_costs_ok p1 (num_tokens r + num_output_placeholders r) Hp1) as (costs&prior&Hb&Hbc&Hbp&Hbu).
  apply wp_bind, wp_lift. rewrite Hb. apply wp_bind, wp_request_curve; [done|done|]. intros curve p2 Hp2 [Hs2 Hs2'] Hcurve.
  destruct (request_table_ok (sig_max_model_len (p_signature p1)) curve (num_tokens r + num_output_placeholders r) costs prior)
    as (costs1&prior1&Ht&Hc1&Hpr1&Hu1); [intros c Hc; by apply Hcurve|done|done|].
  apply wp_bind, wp_lift. rewrite Ht.
  destruct (request_costs_ok p1 (xargs_of r) (num_tokens r + num_output_placeholders r) costs1 prior1 Hc1 Hpr1)
    as [(costs2&prior2&Hr&Hc2&Hpr2&Hu2)|[Hr Hn]]; apply wp_bind, wp_lift; rewrite Hr.
  2: { split_and!; [done|congruence|by left]. }
  cbv iota beta zeta. apply wp_bind, wp_state_of; [done|]. intros st3 p3 Hp3 [Hs3 Hs3'] Hst3 _.
  destruct (hint_for_ok p1 (eligible r c1) (request_mode p1 (xargs_of r)) costs2 st3 (xargs_of r) (num_tokens r + num_output_placeholders r) Hp1)
    as (hint&Hh&Hhlen). apply wp_bind, wp_lift. rewrite Hh.
  set (pr := match hint with Some (h, _) => Some h | None => prior2 end).
  assert (Hpr : prior_ok pr) by (subst pr; destruct hint as [[h d]|]; [by eapply Hhlen|done]).
  apply wp_bind, wp_put_state; [done| |].
  { destruct Hst3 as [[? ? ? ? ?] ?]. by split; [split|]. }
  intros p4 Hp4 [Hs4 Hs4'] _. apply wp_bind, wp_decide_cap; [done|apply Hp1| |].
  2: { intros p5 Hp5 [Hs5 Hs5'] Hnu. split_and!; [done|congruence|]. right. left. split; [done|].
       destruct (p_curve p) as [c|] eqn:Ec; [by left|]. destruct curve as [c|]; [right; by apply (Hcurve c)|].
       destruct Hnu. rewrite Hu1 in Hu2 by done. apply Hu2, Hbu. congruence. }
  intros cap probe p5 Hp5 [Hs5 Hs5'] Hcap Hwhy. cbv iota beta. apply wp_bind, wp_state_of; [done|]. intros st6 p6 Hp6 [Hs6 Hs6'] _ _.
  unfold py_str. destruct (has_text _) eqn:Eht; apply wp_bind, wp_lift.
  2: { split_and!; [done|congruence|]. right. right. split; [done|]. destruct (od_get "spec_label" _) as [v|]; [by exists v|done]. }
  destruct (lossy_ok (xargs_of r)) as [[l Hl]|[Hl Hn]]; apply wp_bind, wp_lift; rewrite Hl.
  2: { split_and!; [done|congruence|by left]. }
  apply wp_bind, wp_modify, wp_ret. split_and!; [by apply put_chosen_ok|cbn; congruence|..]; cbn.
  - replace (request_mode p (xargs_of r)) with (request_mode p1 (xargs_of r)); [by split|]. unfold request_mode.
    replace (p_mode p1) with (p_mode p) by congruence. done.
  - eexists. split; [apply od_get_set|done].
Qed.

(** ** The other operations *)

Lemma od_set_length {A} (k : Z) (v : A) d : (length (od_set k v d) ≤ S (length d))%nat.
Proof. induction d as [|[j w] d IH]; cbn; [done|]. case_decide; cbn; lia. Qed.

Lemma with_pending_ok p d : policy_ok p → (length d ≤ 64)%nat → NoDup (od_keys d) → policy_ok (with_pending d p).
Proof. intros [? ? ? ? ? ? ? _] ? ?. by split. Qed.
Lemma begin_ok p : policy_ok p → policy_ok (begin_step p).2.
Proof. intros [? ? ? ? ? ? _ ?]. by split. Qed.
Lemma policy_collect_ok ref p : policy_ok p → policy_ok (collect ref p).
Proof.
  intros [? ? ? ? ? Hs ? ?]. split; cbn; try done. intros r st Hl. apply lookup_delete_Some in Hl as [_ Hl]. by eapply Hs.
Qed.
Lemma scheduled_ok o now p : policy_ok p → wp (scheduled o now)
  (λ r p', policy_ok p' ∧ ∀ e, r = Err e → p' = p ∧ (e = KeyError ∨ e = RuntimeError ∧ length (pending p) = 64%nat)) p.
Proof.
  intros Hp. destruct (po_pending _ Hp) as [Hlen Hnd]. apply wp_bind, wp_get, wp_bind, wp_lift.
  destruct (scheduled_rows _ _ _ _ _) as [rows|e] eqn:E.
  - destruct (is_empty rows); [by apply wp_ret|]. apply wp_bind. unfold raise_if. case_bool_decide as Hfull.
    + split; [done|]. intros e [= <-]. split; [done|]. right. split; [done|lia].
    + apply wp_modify, wp_modify. split; [|done]. apply with_pending_ok; [done| |by apply od_set_nodup].
      pose proof (od_set_length (output_id o) rows (pending p)). lia.
  - split; [done|]. intros e' [= <-]. split; [done|]. left. revert E. generalize (@nil (string * ScheduledRow)).
    induction (scheduled_spec_decode_tokens o) as [|[rid ts] l IH]; intros acc; cbn; [done|].
    destruct (od_get rid (chosen p)); [|apply IH]. destruct (od_get rid (num_scheduled_tokens o)); cbn; [apply IH|by intros [= <-]].
Qed.

(** What feedback did: one observation, for a row that may teach. *)
Definition learns (row : ScheduledRow) (request : Request) (tokens : list Z) : Prop :=
  row_eligible (sr_row row) = true ∧ terminal request tokens = false ∧ scheduled_k row = row_cap (sr_row row) ∧
  1 ≤ scheduled_k row ≤ 7 ∧ 1 ≤ Z.of_nat (length tokens) ≤ scheduled_k row + 1.
Definition feedback (runner : RunnerOutput) (live : Z → option Request) (rid : string) (row : ScheduledRow) (p p' : Policy) : Prop :=
  (∀ ref, stats <$> states p' !! ref = stats <$> states p !! ref) ∨
  ∃ request i tokens st, live (row_request (sr_row row)) = Some request ∧ od_get rid (req_id_to_index runner) = Some i ∧
    sampled_token_ids runner !! i = Some tokens ∧ states p !! request_ref request = Some st ∧ learns row request tokens ∧
    (stats <$> states p' !! request_ref request) = Some (observe (scheduled_k row) (Z.of_nat (length tokens) - 1) (stats st)).2 ∧
    ∀ ref, ref ≠ request_ref request → states p' !! ref = states p !! ref.

Lemma with_sink_ok k p : policy_ok p → policy_ok (with_sink k p).
Proof. by intros [? ? ? ? ? ? ? ?]; split. Qed.
Lemma wp_complete_row runner live requests now rid row p : policy_ok p →
  wp (complete_row runner live requests now (rid, row))
    (λ r p', policy_ok p' ∧ pending p' = pending p ∧ feedback runner live rid row p p' ∧ ∀ e, r = Err e → e = IndexError ∧ p' = p) p.
Proof.
  intros Hp. assert (Hno : ∀ r : res unit, (∀ e, r = Err e → e = IndexError) →
    policy_ok p ∧ pending p = pending p ∧ feedback runner live rid row p p ∧ ∀ e, r = Err e → e = IndexError ∧ p = p)
    by (intros r Hr; split_and!; [done|done|by left|intros e He; by split; [apply Hr|]]).
  unfold complete_row. destruct (live _) as [request|] eqn:El; [|by apply wp_ret, Hno]. destruct (_ || _); [by apply wp_ret, Hno|].
  apply wp_bind, wp_get. destruct (states p !! request_ref request) as [st|] eqn:Est; [|by apply wp_ret, Hno].
  destruct (negb _); [by apply wp_ret, Hno|]. destruct (od_get rid (req_id_to_index runner)) as [i|] eqn:Ei; [|by apply wp_ret, Hno].
  destruct (sampled_token_ids runner) as [|x xs] eqn:Ex; [by apply wp_ret, Hno|]. rewrite <- Ex. clear x xs Ex.
  apply wp_bind, wp_lift. destruct (sampled_token_ids runner !! i) as [tokens|] eqn:Et; cbn [res_of_option].
  2: { apply Hno. by intros e [= <-]. }
  cbv zeta. set (n := Z.of_nat (length tokens)). set (k := scheduled_k row).
  destruct ((n =? 0) || _ || _) eqn:Eguard; [by apply wp_ret, Hno|].
  apply orb_false_iff in Eguard as [[_ Hk%negb_false_iff]%orb_false_iff Hn%negb_false_iff].
  pose proof (po_states _ Hp _ _ Est) as Hst.
  assert (Hmid : wp (if row_eligible (sr_row row) && negb (terminal request tokens) && (k =? row_cap (sr_row row))
                     then observe_for (request_ref request) st k (n - 1) else mret st)
    (λ r p1, ∃ st1, r = Ok st1 ∧ policy_ok p1 ∧ pending p1 = pending p ∧ p_signature p1 = p_signature p ∧ state_ok (sig_max_model_len (p_signature p)) st1 ∧
       (∀ ref, ref ≠ request_ref request → states p1 !! ref = states p !! ref) ∧
       (stats st1 = stats st ∨ learns row request tokens ∧ stats st1 = (observe k (n - 1) (stats st)).2)) p).
  { destruct (_ && _ && _) eqn:Ev; [|apply wp_ret; exists st; split_and!; auto].
    apply andb_true_iff in Ev as [[Ev1 Ev2%negb_true_iff]%andb_true_iff Ev3]. unfold observe_for.
    destruct (observe_ok k (n - 1) (stats st) (rs_stats _ _ Hst)) as (s'&Hobs&Hs'&_); [lia|lia|]. rewrite Hobs.
    assert (Hok : state_ok (sig_max_model_len (p_signature p)) (mkReqState s' (scheduled_steps st) (st_curve st) (completed_at st))) by (split; [done|apply Hst]).
    eexists. split; [done|]. cbn. split_and!; [by apply put_state_ok|done|done|done|intros ref Hr; by apply lookup_insert_ne|].
    right. split; [|done]. split_and!; [done|done|subst k; lia..]. }
  apply wp_bind. eapply wp_mono; [|exact Hmid]. intros r p1 (st1&->&Hp1&Hpend&Hsig&Hst1&Hother&Hwhat). clear Hmid.
  apply wp_bind, wp_modify.
  assert (Hp2 : policy_ok (with_states (<[request_ref request := mkReqState (stats st1) (scheduled_steps st1) (st_curve st1) (Some now)]> (states p1)) p1)).
  { apply put_state_ok; [done|]. rewrite Hsig. split; [apply Hst1|apply (rs_curve _ _ Hst1)]. }
  assert (Hfb : ∀ m, states m = <[request_ref request := mkReqState (stats st1) (scheduled_steps st1) (st_curve st1) (Some now)]> (states p1) → feedback runner live rid row p m).
  { intros m Hm. destruct Hwhat as [Hsame|[Hlearn Hobs]].
    - left. intros ref. rewrite Hm. destruct (decide (ref = request_ref request)) as [->|Hr].
      + rewrite lookup_insert, decide_True, Est by done. cbn. by rewrite Hsame.
      + rewrite lookup_insert_ne by done. by rewrite Hother.
    - right. exists request, i, tokens, st. split_and!; [done..| |].
      + rewrite Hm, lookup_insert, decide_True by done. cbn. by rewrite Hobs.
      + intros ref Hr. rewrite Hm, lookup_insert_ne by done. by apply Hother. }
  destruct (p_sink p).
  - apply wp_modify. split_and!; [by apply with_sink_ok|done|by apply Hfb|done].
  - apply wp_ret. split_and!; [done|done|by apply Hfb|done].
Qed.

Lemma od_pop_length {A} (k : Z) (d : odict Z A) : (length (od_pop k d) ≤ length d)%nat.
Proof. apply sublist_length, od_pop_sublist. Qed.
Lemma complete_ok out runner live requests now p : policy_ok p →
  policy_ok (complete out runner live requests now p).2 ∧ od_get out (pending (complete out runner live requests now p).2) = None.
Proof.
  intros Hp. destruct (po_pending _ Hp) as [Hlen Hnd].
  assert (Hstart : policy_ok (with_pending (od_pop out (pending p)) p) ∧ pending (with_pending (od_pop out (pending p)) p) = od_pop out (pending p)).
  { split; [|done]. apply with_pending_ok; [done| |by apply od_pop_nodup]. pose proof (od_pop_length out (pending p)). lia. }
  assert (Hend : ∀ q, policy_ok q ∧ pending q = od_pop out (pending p) → policy_ok q ∧ od_get out (pending q) = None)
    by (intros q [Hq ->]; split; [done|by apply od_get_pop]).
  apply Hend. unfold complete. rewrite run_get, run_modify. destruct (has_invalid_blocks runner); [done|].
  apply (for_each_inv (λ q, policy_ok q ∧ pending q = od_pop out (pending p))); [|done].
  intros [rid row] q _ [Hq Hpend]. destruct (wp_complete_row runner live requests now rid row q Hq) as (?&Hpend'&_). split; [done|congruence].
Qed.

(** ** Construction *)

Lemma overlay_get keys first data k : k ∉ keys → od_get k (overlay keys first data) = od_get k data.
Proof.
  unfold overlay. revert data. induction keys as [|j keys IH]; intros data Hk; cbn [foldl]; [done|].
  apply not_elem_of_cons in Hk as [Hkj Hk]. rewrite IH by done. destruct (od_get j first); [|done]. by rewrite od_get_set_ne.
Qed.
Lemma load_costs_ok cfg sig path curve costs bounds prior : load_costs cfg sig path = Ok (curve, costs, bounds, prior) →
  (∀ c, curve = Some c → curve_ok (cfg_max_model_len cfg) c) ∧ table_ok costs ∧ prior_ok prior.
Proof.
  unfold load_costs. intros H. apply res_bind_ok in H as (text&_&H). apply res_bind_ok in H as (data&_&H).
  apply res_bind_ok in H as (config&_&H). destruct (negb _); [done|]. apply res_bind_ok in H as (d&_&H).
  apply res_bind_ok in H as ([cv d']&Hl&H). apply res_bind_ok in H as (raw&_&H). apply res_bind_ok in H as (raw'&_&H).
  apply res_bind_ok in H as (cs&_&H). destruct (od_get "context_range" d') as [b|]; [|done].
  destruct (int_pair b) as [[lo hi]|]; [|done]. destruct (negb _); [done|]. apply res_bind_ok in H as (pr&Hpr&H).
  destruct (_ && _); [done|]. destruct (_ && _); [done|]. destruct (valid_costs cs) eqn:Ev; cbn [negb] in H; [|done].
  injection H as <- <- <- <-. split_and!; [|by right|by eapply validated_prior_ok].
  intros c ->. destruct (od_mem _ _); [|done]. apply res_bind_ok in Hl as (c'&Hc&Hl). apply res_bind_ok in Hl as (first&_&Hl).
  injection Hl as -> _. by eapply CostCurve_parse_ok.
Qed.
Lemma HintPriors_parse_ok data sig h : HintPriors_parse data sig = Ok h → hints_ok h.
Proof.
  intros H%as_value_error_ok. apply res_bind_ok in H as (bounds&_&H). apply res_bind_ok in H as (raw&_&H).
  apply res_bind_ok in H as (config&_&H). apply res_bind_ok in H as (strength&_&H).
  destruct (int_pair bounds) as [[lo hi]|]; [|done]. destruct raw as [| | | | | |raw]; try done.
  destruct (_ && same_keys _ _) eqn:E; [|done]. apply andb_true_iff in E as [_ Hkeys].
  apply res_bind_ok in H as (domains&Hd&H). destruct (existsb _ domains) eqn:Ex; [done|]. injection H as <-.
  intros d Hdom. cbn. assert (Hin : d ∈ od_keys raw) by (apply (same_keys_elem _ _ d Hkeys); destruct Hdom as [-> | ->]; [by left|by right; left]).
  clear Hkeys Hdom. revert domains Hd Ex. induction raw as [|[k v] raw IH]; intros domains Hd Ex; [by apply elem_of_nil in Hin|].
  cbn [map_res] in Hd. apply res_bind_ok in Hd as (y&Hy&Hd). apply res_bind_ok in Hd as (ys&Hys&Hd). injection Hd as <-.
  unfold parse_domain in Hy. apply res_bind_ok in Hy as (pr&Hpr&Hy). injection Hy as <-. cbn in Ex.
  apply orb_false_iff in Ex as [Ex1 Ex2]. destruct pr as [pr|]; [|done].
  assert (Hcons : omap (λ x : string * option (list float), p ← x.2; Some (x.1, p)) ((k, Some pr) :: ys) =
                  (k, pr) :: omap (λ x : string * option (list float), p ← x.2; Some (x.1, p)) ys) by done.
  rewrite Hcons. cbn [od_get]. destruct (decide (d = k)) as [->|Hk].
  - exists pr. split; [done|]. apply (validated_prior_ok _ _ Hpr).
  - destruct (IH) with (domains := ys) as (q&Hq&Hlen); [by apply elem_of_cons in Hin as [?|?]|done|done|].
    exists q. split; [|done]. done.
Qed.

Lemma new_policy_ok cfg p : new_policy cfg = Ok p → policy_ok p.
Proof.
  unfold new_policy. intros H. apply res_bind_ok in H as (mode&_&H). apply res_bind_ok in H as (fixed&_&H).
  destruct (bool_decide (fixed ∈ CAPS)) eqn:Ef; cbn [negb] in H; [|done]. apply bool_decide_eq_true in Ef.
  destruct (decide (mode = Off)).
  { injection H as <-. split; cbn; try done; [by left|]. split; [lia|constructor]. }
  destruct (negb _); [done|]. apply res_bind_ok in H as ([[[curve costs] bounds] prior]&Hl&H).
  apply res_bind_ok in H as (hints&Hh&H). injection H as <-.
  assert (Hload : (∀ c, curve = Some c → curve_ok (cfg_max_model_len cfg) c) ∧ table_ok costs ∧ prior_ok prior).
  { destruct (env_path "GLM_SPEC_COSTS") as [path|]; [by eapply load_costs_ok|]. injection Hl as <- <- _ <-. split_and!; [done|by left|done]. }
  destruct Hload as (?&?&?). split; cbn; try done; [|split; [lia|constructor]].
  intros h ->. destruct (env_path "GLM_SPEC_HINT_PRIORS") as [path|]; [|done]. apply res_bind_ok in Hh as (h'&Hh&E). injection E as ->.
  unfold load_hints in Hh. apply res_bind_ok in Hh as (text&_&Hh). destruct (_ <? _); [done|]. apply res_bind_ok in Hh as (data&_&Hh).
  by eapply HintPriors_parse_ok.
Qed.

(** ** Runs *)

(** What the scheduler calls, in any order; a call that raises still leaves
    the state it reached. *)
Inductive policy_step : Policy → Policy → Prop :=
  | ps_begin p : policy_step p (begin_step p).2
  | ps_select r c1 step p : policy_step p (select r c1 step p).2
  | ps_scheduled o now p : policy_step p (scheduled o now p).2
  | ps_complete out runner live requests now p : policy_step p (complete out runner live requests now p).2
  | ps_collect ref p : policy_step p (collect ref p).
Lemma policy_run_ok p p' : rtc policy_step p p' → policy_ok p → policy_ok p'.
Proof.
  induction 1 as [|p p1 p' Hstep _ IH]; [done|]. intros Hp. apply IH.
  destruct Hstep; [by apply begin_ok|by apply wp_select|by apply (scheduled_ok o now)|by apply complete_ok|by apply policy_collect_ok].
Qed.
End policy.

(** C22: A policy built from any environment, after any sequence of calls,
    decides with a legal cap: 1, 3, 5 or 7, below 7 only for an eligible
    request under the fixed or adaptive policy, recorded as the request's
    choice.  A decision raises nothing but [OverflowError], and that only for
    a request with one of the numeric controls, [ZeroDivisionError], only
    with an interpolated cost curve, or [ValueError], only for a label that
    is, or holds, an integer of more than 4300 digits (Python's default
    limit; its limits on memory and recursion depth are not modelled), where
    [json.loads] is assumed to raise nothing but [ValueError] and
    [RecursionError]; no more than 64 steps wait for feedback. *)
Theorem adaptive_select_sound {W : SpecWorld} cfg p0 p (r : Request) (c1 : bool) (step : Z) :
  (∀ text e, json_loads text = Err e → e = ValueError ∨ e = RecursionError) →
  new_policy cfg = Ok p0 → rtc policy_step p0 p →
  decision_ends p r c1 (select r c1 step p).1 (select r c1 step p).2 ∧ (length (pending p) ≤ 64)%nat.
Proof.
  intros Hj H0 Hrun. assert (Hp : policy_ok p) by (eapply policy_run_ok; [done|done|by eapply new_policy_ok]).
  split; [by apply (wp_select Hj)|apply Hp].
Qed.

(** C38: A decision of the adaptive policy that is not full verification is the
    best one: with enough observations (or a hint's prior), on no probing
    step, and with a cost for each cap, either no cap has a rate above the
    current cap's by more than the hysteresis and the current cap stays, or the
    new cap's rate exceeds it by more and is the greatest of all rates. *)
Theorem adaptive_choice_best costs steps cold s k probe s' : stats_ok s →
  AdaptiveSpec.choose costs steps cold s = (Ok (k, probe), s') →
  (k = 7 ∧ s' = s) ∨
  (probe = false ∧ steps mod 16 ≠ 0 ∧ (8 ≤ observations s ∨ cold = true ∧ is_Some (prior s)) ∧
   same_keys (od_keys costs) CAPS = true ∧ s' = with_cap k s ∧ stats_ok s' ∧
   ∃ rates, rates_of s costs cold rates ∧ good_cap rates (cap s) k).
Proof.
  intros Hs H. destruct (choose_cases costs steps cold s Hs) as [(pr&E)|(Hk&Hst&Hob&[[E _]|(j&rates&E&Hj&Hr&Hg)])]; rewrite E in H; try done.
  - injection H as <- _ <-. by left.
  - injection H as <- <- <-. right. split_and!; try done; [|by exists rates]. destruct Hs. by split.
Qed.

(** * A concrete policy *)

(** The adaptive policy without any table. *)
#[export] Instance sample_world : SpecWorld := {|
  environ k := if String.eqb k "GLM_SPEC_POLICY" then Some "adaptive" else None;
  read_file _ := Err OSError; json_loads _ := Err ValueError; float_of_string _ := Err ValueError |}.
Definition sample_spec_config : SpecConfig := mkSpecConfig 4 1 1000 true 7 "dflash" "standard" 1 1 true.
Definition sample_params (xargs : odict string PyVal) : SamplingParams :=
  mkSampling fzero fzero fzero fone false false false false false [] [] xargs.
Definition sample_request (xargs : odict string PyVal) : Request :=
  mkRequest 11 "r" (Some (sample_params xargs)) false false false false false 0 100 0 5 50 None false.
(** Ten steps in which one of seven draft tokens was accepted. *)
Definition sample_stats : PrefixStats :=
  foldl (λ s _, (observe 7 1 s).2) new_stats (replicate 10 tt).
Definition float_costs (l : list Z) : Costs := omap (λ x : Z * Z, match float_of_int x.2 with Ok f => Some (x.1, f) | Err _ => None end) (zip CAPS l).

Definition sample_policy : Policy :=
  mkPolicy Adaptive 7 "tp4-dcp1-l1000-k7" (mkSig 4 1 1000) [] (0, 0) None None None [] [] ∅ None.
Lemma adaptive_select_sound_witness :
  new_policy sample_spec_config = Ok sample_policy ∧
  (select (sample_request [("spec_policy", PStr "fixed"); ("spec_verify_cap", PInt 3)]) true 1 sample_policy).1 = Ok 3 ∧
  legal (sample_request [("spec_policy", PStr "fixed"); ("spec_verify_cap", PInt 3)]) true Fixed 3.
Proof.
  assert (H : (select (sample_request [("spec_policy", PStr "fixed"); ("spec_verify_cap", PInt 3)]) true 1 sample_policy).1 = Ok 3) by (vm_compute; reflexivity).
  split; [vm_compute; reflexivity|]. split; [exact H|].
  destruct (adaptive_select_sound sample_spec_config sample_policy sample_policy
              (sample_request [("spec_policy", PStr "fixed"); ("spec_verify_cap", PInt 3)]) true 1) as [(_&_&Hd) _].
  - intros text e [= <-]. by left.
  - vm_compute. reflexivity.
  - apply rtc_refl.
  - rewrite H in Hd. exact (proj1 Hd).
Defined.

Lemma sample_stats_ok : stats_ok sample_stats.
Proof.
  assert (H : ∀ n s, stats_ok s → stats_ok (foldl (λ s _, (observe 7 1 s).2) s (replicate n tt))).
  { induction n as [|n IH]; intros s Hs; cbn [replicate foldl]; [done|]. destruct (observe_ok 7 1 s Hs) as (s'&Ho&Hs'&_); [lia|lia|]. apply IH. by rewrite Ho. }
  apply H. by destruct (new_state_ok 0).
Qed.
Lemma adaptive_choice_best_witness :
  AdaptiveSpec.choose (float_costs [10; 20; 30; 40]) 17 false sample_stats = (Ok (1, false), with_cap 1 sample_stats) ∧
  ∃ rates, rates_of sample_stats (float_costs [10; 20; 30; 40]) false rates ∧ good_cap rates 7 1.
Proof.
  assert (E : AdaptiveSpec.choose (float_costs [10; 20; 30; 40]) 17 false sample_stats = (Ok (1, false), with_cap 1 sample_stats)) by (vm_compute; reflexivity).
  split; [exact E|]. destruct (adaptive_choice_best _ _ _ _ _ _ _ sample_stats_ok E) as [[? _]|(_&_&_&_&_&_&H)]; [discriminate|]. exact H.
Defined.

(** The validation of a curve is not enough: between two valid points the
    interpolated cost can be zero, at the second point itself, and the
    decision raises. *)
Definition sample_cycle (f : float) : PyVal := PDict [("1", PFloat f); ("3", PFloat f); ("5", PFloat f); ("7", PFloat f)].
Definition sample_curve (hundred tiny : float) : PyVal := PDict
  [("context_range", PList [PInt 0; PInt 200]);
   ("calibration_points", PList [PDict [("context", PInt 0); ("cycle_ms", sample_cycle hundred)];
                                 PDict [("context", PInt 100); ("cycle_ms", sample_cycle tiny)]])].
Definition steep_curve : res CostCurve :=
  CostCurve_parse (sample_curve (S754_finite false 7036874417766400 (-46)) (S754_finite false 4503599627370496 (-152))) 1000.
Definition steep_costs : Costs := match c ← steep_curve; curve_at c 100 with Ok (costs, _) => costs | Err _ => [] end.
Example interpolated_cost_is_zero :
  is_ok steep_curve = true ∧ od_get 7 steep_costs = Some fzero ∧
  (AdaptiveSpec.choose steep_costs 17 false sample_stats).1 = Err ZeroDivisionError.
Proof. split_and!; vm_compute; reflexivity. Qed.

(** A control that is only echoed: an integer beyond the floats makes the
    decision raise, where the other unusable numbers become [None]. *)
Example huge_margin_raises :
  (select (sample_request [("spec_lossy_margin", PInt (10 ^ 400))]) true 1 sample_policy).1 = Err OverflowError ∧
  ∃ p', select (sample_request [("spec_lossy_margin", PFloat (S754_infinity false))]) true 1 sample_policy = (Ok 7, p').
Proof. split; [vm_compute; reflexivity|]. eexists. vm_compute. reflexivity. Qed.

(** A label is not only echoed either: [str] of a long enough integer, or of
    a list with one, raises, and the request gets no cap. *)
Example huge_label_raises :
  (select (sample_request [("spec_label", PList [PInt (10 ^ 4300)])]) true 1 sample_policy).1 = Err ValueError.
Proof. vm_compute. reflexivity. Qed.
