(* ===== verification/NvmePrefetch.v ===== *)
(** The lookahead and the memory budget of the loader's streams:
    [prefetch_weights] and [OwnedStorageBudget] of
    src/runtime/nvme_loader/spark_nvme/streaming.py.  The producer thread, the
    semaphore, the queue of one item and the consumer are a step relation over
    any generator; what the consumer makes of a value before it asks for the
    next one is a parameter, so that the streams built on it share it. *)
From S2P Require Import Prelude.
From stdpp Require Import base list relations sets.
From Stdlib Require Import ZArith Lia.
#[local] Open Scope list_scope.
#[local] Open Scope Z_scope.

(** * The budget of owned storages *)

(** [refs] are weak references to storages, by number. *)
Record OwnedStorageBudget := mkBudget { limit : Z; live : Z; peak : Z; refs : list (nat * Z) }.
Definition new_budget (limit : Z) : OwnedStorageBudget := mkBudget limit 0 0 [].

(** [collect]; [expired] tells which storages are gone. *)
Definition collect (expired : nat → bool) (b : OwnedStorageBudget) : OwnedStorageBudget :=
  mkBudget (limit b) (foldl (λ (n : Z) (r : nat * Z), if expired r.1 then n - r.2 else n) (live b) (refs b)) (peak b)
    (filter (λ r : nat * Z, expired r.1 = false) (refs b)).
(** [reserve] *)
Definition reserve (expired : nat → bool) (size : Z) : M OwnedStorageBudget unit :=
  modify (collect expired);;
  b ← get;
  raise_if (limit b <? live b + size) MemoryError.
(** [track], of a storage of [size] bytes. *)
Definition track (storage : nat) (size : Z) (b : OwnedStorageBudget) : OwnedStorageBudget :=
  mkBudget (limit b) (live b + size) (Z.max (peak b) (live b + size)) (refs b ++ [(storage, size)]).
(** [close] *)
Definition close_budget (b : OwnedStorageBudget) : OwnedStorageBudget := mkBudget (limit b) (live b) (peak b) [].

(** The count is the total of the references, and neither it nor its peak
    goes beyond the limit. *)
Record budget_ok (b : OwnedStorageBudget) : Prop := {
  bo_live : live b = zsum (refs b).*2;
  bo_sizes : ∀ r, r ∈ refs b → 0 ≤ r.2;
  bo_peak : live b ≤ peak b ≤ limit b }.

Lemma collect_live (expired : nat → bool) (l : list (nat * Z)) n :
  foldl (λ n (r : nat * Z), if expired r.1 then n - r.2 else n) n l =
  n - zsum l.*2 + zsum (filter (λ r : nat * Z, expired r.1 = false) l).*2.
Proof.
  revert n. induction l as [|[s z] l IH]; intros n; [cbn; lia|]. cbn [foldl]. rewrite IH, filter_cons, fmap_cons. cbn [fst snd zsum foldr].
  destruct (expired s) eqn:E; [rewrite decide_False by done|rewrite decide_True, fmap_cons by done]; cbn [snd zsum foldr]; unfold zsum; lia.
Qed.
Lemma filter_sizes (P : nat * Z → Prop) `{∀ x, Decision (P x)} (l : list (nat * Z)) :
  (∀ r, r ∈ l → 0 ≤ r.2) → zsum (filter P l).*2 ≤ zsum l.*2.
Proof.
  induction l as [|r l IH]; intros Hl; [done|]. rewrite filter_cons.
  pose proof (Hl r ltac:(by left)). assert (∀ x, x ∈ l → 0 ≤ x.2) as Hl' by (intros; apply Hl; by right).
  specialize (IH Hl'). destruct (decide (P r)); rewrite ?fmap_cons; cbn [zsum foldr]; unfold zsum in *; lia.
Qed.

Lemma new_budget_ok n : 0 ≤ n → budget_ok (new_budget n).
Proof. intros Hn. split; cbn; [done|by intros r ?%not_elem_of_nil|lia]. Qed.
Lemma collect_ok expired b : budget_ok b → budget_ok (collect expired b).
Proof.
  intros [Hl Hs Hp]. pose proof (filter_sizes (λ r : nat * Z, expired r.1 = false) (refs b) Hs) as Hf.
  split; unfold collect; cbn [live refs peak limit].
  - rewrite collect_live. lia.
  - intros r [_ Hr]%list_elem_of_filter. by apply Hs.
  - rewrite collect_live. lia.
Qed.
Lemma reserve_ok expired size b r b' : budget_ok b → reserve expired size b = (r, b') →
  budget_ok b' ∧ limit b' = limit b ∧ (r = Ok tt ∧ live b' + size ≤ limit b ∨ r = Err MemoryError).
Proof.
  intros Hb. unfold reserve. rewrite run_modify, run_get. unfold raise_if.
  destruct (_ <? _) eqn:E; cbn; intros [= <- <-]; (split; [by apply collect_ok|split; [done|]]); [by right|left].
  split; [done|]. cbn in E. apply Z.ltb_ge in E. exact E.
Qed.
Lemma track_ok storage size b : budget_ok b → 0 ≤ size → live b + size ≤ limit b → budget_ok (track storage size b).
Proof.
  intros [Hl Hs Hp] Hz Hle. split; cbn; [|intros r [Hr| ->%list_elem_of_singleton]%elem_of_app; [by apply Hs|done]|lia].
  rewrite fmap_app, zsum_app. cbn. lia.
Qed.

(** * One value ahead *)

Section prefetch.
(** A generator: [next(iterator)] ([None] when it stops), [iterator.close()],
    and what else happens to its state.  [use] is what the consumer takes from
    a value, once it can. *)
Context {G V Y : Type}.
Context (gen_next : G → res (option V) → G → Prop) (gen_close : G → res unit → G → Prop) (env_step : G → G → Prop).
Context (use : G → V → option Y).

Inductive Terminal := Done | Error (e : exn).
Inductive Item := Tensor (v : V) | Last (t : Terminal).
(** [pump]: waiting for the semaphore, holding it, putting a value, closing
    the generator, putting the last item, ended. *)
Inductive Pump := Waiting | Advancing | PutValue (v : V) | ClosingGen (terminal : Terminal) | PutLast (terminal : Terminal) | PumpEnded.
(** How the consumer ends: after [done], closed at a [yield], or raising. *)
Inductive Outcome := Completed | Closed | Raised (e : exn).
(** The consumer: in [ready.get()], at [yield], in the [finally] clause, ended. *)
Inductive Consumer := Getting | Yielding (v : V) | Finishing (o : Outcome) | ConsumerEnded (o : Outcome).

(** [produced], [delivered] and [used] are what [next] returned, what was
    yielded and what the consumer took from each value: no operation reads
    them. *)
Record Prefetch := mkPrefetch {
  gen : G; pump : Pump; ready : option Item; slot : nat; stop : bool; consumer : Consumer;
  produced : list V; delivered : list V; used : list Y }.
Definition prefetch_start (g : G) : Prefetch := mkPrefetch g Waiting None 1 false Getting [] [] [].

Definition with_gen (g : G) (s : Prefetch) : Prefetch :=
  mkPrefetch g (pump s) (ready s) (slot s) (stop s) (consumer s) (produced s) (delivered s) (used s).
Definition with_pump (p : Pump) (s : Prefetch) : Prefetch :=
  mkPrefetch (gen s) p (ready s) (slot s) (stop s) (consumer s) (produced s) (delivered s) (used s).
Definition put_item (i : Item) (s : Prefetch) : Prefetch :=
  mkPrefetch (gen s) (pump s) (Some i) (slot s) (stop s) (consumer s) (produced s) (delivered s) (used s).
(** [slot.acquire()]; the flag is looked at once more. *)
Definition acquired (n : nat) (s : Prefetch) : Prefetch :=
  mkPrefetch (gen s) (if stop s then ClosingGen Done else Advancing) (ready s) n (stop s) (consumer s) (produced s) (delivered s) (used s).
(** What the pump does after [next]. *)
Definition advanced (r : res (option V)) (s : Prefetch) : Prefetch :=
  match r with
  | Ok (Some v) => mkPrefetch (gen s) (PutValue v) (ready s) (slot s) (stop s) (consumer s) (produced s ++ [v]) (delivered s) (used s)
  | Ok None => with_pump (ClosingGen Done) s
  | Err e => with_pump (ClosingGen (Error e)) s
  end.
(** The item after [iterator.close()]. *)
Definition terminal_after (r : res unit) (t : Terminal) : Terminal := match r with Ok _ => t | Err e => Error e end.
(** [ready.get()], [slot.release()], and where the item leads. *)
Definition got (i : Item) (s : Prefetch) : Prefetch :=
  match i with
  | Tensor v => mkPrefetch (gen s) (pump s) None (S (slot s)) (stop s) (Yielding v) (produced s) (delivered s ++ [v]) (used s)
  | Last Done => mkPrefetch (gen s) (pump s) None (S (slot s)) true (Finishing Completed) (produced s) (delivered s) (used s)
  | Last (Error e) => mkPrefetch (gen s) (pump s) None (S (slot s)) true (Finishing (Raised e)) (produced s) (delivered s) (used s)
  end.
Definition resumed (y : Y) (s : Prefetch) : Prefetch :=
  mkPrefetch (gen s) (pump s) (ready s) (slot s) (stop s) Getting (produced s) (delivered s) (used s ++ [y]).
(** The [finally] clause: [stop.set()], and the end of the join. *)
Definition stopped (s : Prefetch) : Prefetch :=
  mkPrefetch (gen s) (pump s) (ready s) (slot s) true (Finishing Closed) (produced s) (delivered s) (used s).
Definition ended (o : Outcome) (s : Prefetch) : Prefetch :=
  mkPrefetch (gen s) (pump s) (ready s) (slot s) (stop s) (ConsumerEnded o) (produced s) (delivered s) (used s).

(** Nothing goes wrong and the consumer does not leave. *)
Inductive prefetch_step : Prefetch → Prefetch → Prop :=
  | pf_env s g : env_step (gen s) g → prefetch_step s (with_gen g s)
  (** the producer thread *)
  | pf_stop s : pump s = Waiting → stop s = true → prefetch_step s (with_pump (ClosingGen Done) s)
  | pf_acquire s n : pump s = Waiting → slot s = S n → prefetch_step s (acquired n s)
  | pf_next s r g : pump s = Advancing → gen_next (gen s) r g → prefetch_step s (advanced r (with_gen g s))
  | pf_put s v : pump s = PutValue v → ready s = None → prefetch_step s (with_pump Waiting (put_item (Tensor v) s))
  | pf_put_stop s v : pump s = PutValue v → stop s = true → prefetch_step s (with_pump Waiting s)
  | pf_close s t r g : pump s = ClosingGen t → gen_close (gen s) r g →
      prefetch_step s (with_pump (PutLast (terminal_after r t)) (with_gen g s))
  | pf_last s t : pump s = PutLast t → ready s = None → prefetch_step s (with_pump PumpEnded (put_item (Last t) s))
  | pf_last_stop s t : pump s = PutLast t → stop s = true → prefetch_step s (with_pump PumpEnded s)
  (** the consumer *)
  | pf_get s i : consumer s = Getting → ready s = Some i → prefetch_step s (got i s)
  | pf_resume s v y : consumer s = Yielding v → use (gen s) v = Some y → prefetch_step s (resumed y s)
  | pf_join s o : consumer s = Finishing o → pump s = PumpEnded → prefetch_step s (ended o s).
(** The consumer is closed at a [yield]; the join runs out of time. *)
Inductive prefetch_fault : Prefetch → Prefetch → Prop :=
  | pf_abandon s v : consumer s = Yielding v → prefetch_fault s (stopped s)
  | pf_join_timeout s o : consumer s = Finishing o → pump s ≠ PumpEnded → prefetch_fault s (ended (Raised RuntimeError) s).
Definition prefetch_any (s s' : Prefetch) : Prop := prefetch_step s s' ∨ prefetch_fault s s'.

(** * What the consumer gets *)

Definition values_in (i : option Item) : list V := match i with Some (Tensor v) => [v] | _ => [] end.
Definition in_hand (p : Pump) : list V := match p with PutValue v => [v] | _ => [] end.
Definition holding (p : Pump) : nat := match p with Advancing => 1 | _ => 0 end.
Definition working (p : Pump) : Prop := match p with Waiting | Advancing | PutValue _ => True | _ => False end.
Definition leaving (c : Consumer) : Prop := match c with Finishing _ | ConsumerEnded _ => True | _ => False end.

(** Values arrive in order, none is lost while the consumer listens, and no
    more than one is ahead of it. *)
Record pf_ok (s : Prefetch) : Prop := {
  pf_order : ∃ lost, produced s = delivered s ++ values_in (ready s) ++ in_hand (pump s) ++ lost ∧
    (lost ≠ [] → stop s = true ∧ pump s ≠ Advancing ∧ in_hand (pump s) = []);
  pf_ahead : (length (produced s) ≤ length (delivered s) + 1)%nat;
  pf_credit : working (pump s) → (slot s + length (produced s) + holding (pump s) = length (delivered s) + 1)%nat;
  pf_stop_iff : stop s = true ↔ leaving (consumer s);
  pf_last_item : match ready s with Some (Last _) => pump s = PumpEnded | _ => True end;
  pf_told : stop s = false → pump s = PumpEnded → ∃ t, ready s = Some (Last t) }.

Lemma prefetch_start_ok g : pf_ok (prefetch_start g).
Proof. split; cbn; [by exists []|lia|lia|by split|done|done]. Qed.

(** Rewrite with what is known of the fields of the state. *)
Local Ltac use_eqs :=
  repeat match goal with
  | H : pump ?s = _ |- _ => progress rewrite H in * |-
  | H : ready ?s = _ |- _ => progress rewrite H in * |-
  | H : stop ?s = true |- _ => progress rewrite H in * |-
  | H : consumer ?s = _ |- _ => progress rewrite H in * |-
  end;
  repeat match goal with
  | H : pump ?s = _ |- _ => rewrite H
  | H : ready ?s = _ |- _ => rewrite H
  | H : stop ?s = _ |- _ => rewrite H
  | H : slot ?s = _ |- _ => progress rewrite H in *
  end.
Lemma prefetch_step_ok s s' : prefetch_any s s' → pf_ok s → pf_ok s'.
Proof.
  intros Hstep [(lost&Ho&Hl) Ha Hc Hs Ht Hd].
  assert (Hlen : length (produced s) = (length (delivered s) + length (values_in (ready s)) + length (in_hand (pump s)) + length lost)%nat)
    by (rewrite Ho, !length_app; lia).
  destruct Hstep as [Hstep|Hstep]; destruct Hstep;
    use_eqs; cbn in *.
  - split; cbn; try done. by exists lost.
  - split; cbn; use_eqs; try done; [|by destruct (ready s) as [[]|]]. exists lost. split; [done|]. intros Hn. by destruct (Hl Hn).
  - specialize (Hc I). unfold acquired. destruct (stop s) eqn:Es; split; cbn; use_eqs; try done; try by destruct (ready s) as [[]|].
    + exists lost. split; [done|]. intros Hn. by destruct (Hl Hn).
    + exists lost. split; [done|]. intros Hn. by destruct (Hl Hn) as (?&_).
    + lia.
  - specialize (Hc I). assert (lost = []) as -> by (destruct lost; [done|destruct Hl as (_&?&_); done]).
    destruct r as [[v|]|e]; cbn; split; cbn; try done; try by destruct (ready s) as [[]|].
    + exists []. split; [|done]. rewrite Ho. cbn. rewrite !app_nil_r, <- app_assoc. done.
    + rewrite length_app. cbn. lia.
    + rewrite length_app. cbn. lia.
    + by exists [].
    + by exists [].
  - specialize (Hc I). split; cbn; try done. exists lost. split; [done|]. intros Hn. by destruct (Hl Hn) as (?&_&?).
  - specialize (Hc I). split; cbn; use_eqs; try done; [|by destruct (ready s) as [[]|]]. exists (v :: lost). split; [|done].
    rewrite Ho. cbn. done.
  - split; cbn; try done; [|by destruct (ready s) as [[]|]]. exists lost. split; [done|]. intros Hn. by destruct (Hl Hn) as (?&_).
  - split; cbn; use_eqs; try done; [|intros _ _; by exists t]. exists lost. split; [done|]. intros Hn. by destruct (Hl Hn) as (?&_).
  - split; cbn; use_eqs; try done; [|by destruct (ready s) as [[]|]]. exists lost. split; [done|]. intros Hn. by destruct (Hl Hn) as (?&_).
  - assert (stop s = false) as Es by (destruct (stop s); [by destruct Hs as [Hs _]; destruct (Hs eq_refl)|done]).
    assert (lost = []) as -> by (destruct lost; [done|destruct Hl as (?&_); [done|congruence]]).
    destruct i as [v|[|e]]; cbn; split; cbn in *; use_eqs; try done; try lia; try (exists []; split; [done|done]).
    + exists []. rewrite app_nil_r in *. rewrite <- app_assoc. done.
    + rewrite length_app. cbn. lia.
    + rewrite length_app. cbn. intros Hw. specialize (Hc Hw). lia.
    + intros _ He. rewrite He in *. destruct (Hd Es eq_refl) as [t Ht']. congruence.
  - split; cbn; use_eqs; try done. by exists lost.
  - split; cbn; use_eqs; try done. by exists lost.
  - split; cbn; use_eqs; try done. exists lost. split; [done|]. intros Hn. by destruct (Hl Hn) as (?&?&?).
  - split; cbn; use_eqs; try done. by exists lost.
Qed.

(** What the stream relies on of its generator, and what the consumer's uses
    satisfy: an invariant [P] with the values so far, what [N] it needs to go
    on, what holds when it stopped ([E]), and when it was closed after that
    ([C]). *)
Record gen_laws (P N E C : G → list V → Prop) (U : V → Y → Prop) : Prop := {
  gl_next g vs r g' : P g vs → N g vs → gen_next g r g' →
    match r with Ok (Some v) => P g' (vs ++ [v]) ∧ N g' (vs ++ [v]) | Ok None => P g' vs ∧ E g' vs | Err _ => P g' vs end;
  gl_close g vs r g' : P g vs → gen_close g r g' → P g' vs ∧ (r = Ok tt → E g vs → C g' vs);
  gl_env g vs g' : P g vs → env_step g g' → P g' vs ∧ (N g vs → N g' vs) ∧ (E g vs → E g' vs) ∧ (C g vs → C g' vs);
  gl_use g vs v y : P g vs → v ∈ vs → use g v = Some y → U v y }.

Section contract.
Context (P N E C : G → list V → Prop) (U : V → Y → Prop) (laws : gen_laws P N E C U).

Definition completed (c : Consumer) : Prop := c = Finishing Completed ∨ c = ConsumerEnded Completed.
Record stream_ok (s : Prefetch) : Prop := {
  so_pf : pf_ok s;
  so_gen : P (gen s) (produced s);
  so_next : working (pump s) → N (gen s) (produced s);
  so_closing : stop s = false → pump s = ClosingGen Done → E (gen s) (produced s);
  so_last : stop s = false → pump s = PutLast Done → C (gen s) (produced s);
  so_ready : stop s = false → ready s = Some (Last Done) → C (gen s) (produced s);
  so_done : completed (consumer s) → C (gen s) (produced s) ∧ produced s = delivered s ∧ pump s = PumpEnded;
  so_used : ∃ cur, Forall2 U (take (length (used s)) (delivered s)) (used s) ∧ delivered s = take (length (used s)) (delivered s) ++ cur ∧
    match consumer s with
    | Yielding v => cur = [v]
    | Getting | Finishing Completed | ConsumerEnded Completed => cur = []
    | _ => True
    end }.

Lemma prefetch_start_stream g : P g [] → N g [] → stream_ok (prefetch_start g).
Proof.
  intros Hg Hn. split; cbn; [apply prefetch_start_ok|done|done|done|done|done|by intros [|]|]. by exists [].
Qed.

Lemma stream_env s g : stream_ok s → env_step (gen s) g → stream_ok (with_gen g s).
Proof.
  intros [Hp Hg Hn Hc Hl Hr Hd Hu] Hs. destruct (gl_env _ _ _ _ _ laws _ _ _ Hg Hs) as (Hg'&Hnn&He&Hcc).
  split; cbn; auto.
  - eapply prefetch_step_ok; [left; by apply pf_env|done].
  - intros Hco. destruct (Hd Hco) as (?&?&?). auto.
Qed.

Lemma stream_step_ok s s' : prefetch_any s s' → stream_ok s → stream_ok s'.
Proof.
  intros Hstep Hs. pose proof (prefetch_step_ok s s' Hstep (so_pf _ Hs)) as Hp'.
  destruct Hstep as [Hstep|Hstep]; [destruct Hstep as [s1 g He|s1 Hp Hst|s1 n Hp Hsl|s1 r g Hp Hn|s1 v Hp Hr|s1 v Hp Hst|s1 t r g Hp Hcl|s1 t Hp Hr|s1 t Hp Hst|s1 i Hc Hr|s1 v y Hc Hy|s1 o Hc Hp]|destruct Hstep as [s1 v Hc|s1 o Hc Hp]];
    [exact (stream_env _ _ Hs He)|destruct Hs as [Hok Hg Hnx Hcl' Hl Hr' Hd Hu]..].
  all: assert (Hnd : completed (consumer s1) → pump s1 = PumpEnded) by (intros Hx; apply (Hd Hx)).
  - split; cbn; try done; [by rewrite Hst|by intros Hx; rewrite (Hnd Hx) in Hp].
  - unfold acquired. split; cbn; try done; [by intros _; apply Hnx; rewrite Hp|by destruct (stop s1)..|by intros Hx; rewrite (Hnd Hx) in Hp].
  - assert (Hnd' : ¬ completed (consumer s1)) by (intros Hx; by rewrite (Hnd Hx) in Hp).
    assert (Hnl : ready s1 ≠ Some (Last Done)).
    { intros Hx. pose proof (pf_last_item _ Hok) as Hi. rewrite Hx in Hi. congruence. }
    rewrite Hp in Hnx. pose proof (gl_next _ _ _ _ _ laws _ _ _ _ Hg (Hnx I) Hn) as Hn'. destruct r as [[v|]|e]; cbn in *; split; cbn; try done; by destruct Hn'.
  - split; cbn; try done; [by intros _; apply Hnx; rewrite Hp|by intros Hx; rewrite (Hnd Hx) in Hp].
  - split; cbn; try done; [by intros _; apply Hnx; rewrite Hp|by intros Hx; rewrite (Hnd Hx) in Hp].
  - destruct (gl_close _ _ _ _ _ laws _ _ _ _ Hg Hcl) as [Hg' Hcc].
    assert (Hnl : ready s1 ≠ Some (Last Done)).
    { intros Hx. pose proof (pf_last_item _ Hok) as Hi. rewrite Hx in Hi. congruence. }
    split; cbn; try done; [|by intros Hx; rewrite (Hnd Hx) in Hp].
    intros Hst [= Ht]. destruct r as [[]|e]; cbn in Ht; [|done]. subst t. auto.
  - split; cbn; try done; [|by intros Hx; rewrite (Hnd Hx) in Hp]. intros Hst [= ->]. auto.
  - split; cbn; try done; by intros Hx; rewrite (Hnd Hx) in Hp.
  - assert (Hst : stop s1 = false) by (destruct (stop s1) eqn:Es; [apply (pf_stop_iff _ Hok) in Es; by rewrite Hc in Es|done]).
    destruct Hu as (cur&Hf&Hde&Hcu). rewrite Hc in Hcu. subst cur. rewrite app_nil_r in Hde. rewrite <- Hde in Hf.
    assert (Hlen : length (used s1) = length (delivered s1)) by (symmetry; by eapply Forall2_length).
    destruct i as [v|[|e]]; cbn in *; split; cbn; try done; try (by intros [|]).
    + exists [v]. rewrite Hlen, take_app_length. done.
    + intros _. split; [by apply Hr'|]. destruct (pf_order _ Hok) as (lost&Ho&Hlost). rewrite Hr in Ho. cbn in Ho.
      pose proof (pf_last_item _ Hok) as Hi. rewrite Hr in Hi. rewrite Hi in Ho. cbn in Ho.
      assert (lost = []) as -> by (destruct lost; [done|destruct Hlost as (?&_); [done|congruence]]).
      by rewrite app_nil_r in Ho.
    + exists []. rewrite Hlen, app_nil_r, take_ge by lia. done.
    + exists []. rewrite Hlen, app_nil_r, take_ge by lia. done.
  - destruct Hu as (cur&Hf&Hde&Hcu). rewrite Hc in Hcu. subst cur.
    assert (Hl' : length (delivered s1) = S (length (used s1))).
    { apply Forall2_length in Hf. rewrite Hde, length_app, Hf. cbn. lia. }
    split; cbn; try done; [by intros [|]|]. exists []. rewrite length_app. cbn. rewrite take_ge by lia. rewrite app_nil_r. split_and!; try done.
    rewrite Hde at 1. apply Forall2_app; [done|]. constructor; [|done]. eapply (gl_use _ _ _ _ _ laws); [exact Hg| |exact Hy].
    destruct (pf_order _ Hok) as (lost&->&_). rewrite Hde. set_solver.
  - split; cbn; try done.
    + intros Hx. destruct Hx as [|[= ->]]; [done|]. apply Hd. by left.
    + destruct Hu as (cur&Hf&Hde&Hcu). exists cur. rewrite Hc in Hcu. by destruct o.
  - destruct Hu as (cur&Hf&Hde&Hcu). split; cbn; try done; [by intros [|]|by exists cur].
  - destruct Hu as (cur&Hf&Hde&Hcu). split; cbn; try done; [by intros [|]|by exists cur].
Qed.
End contract.

(** * It ends *)

(** A generator that always answers, with finitely many values, and what the
    consumer waits for does happen. *)
Record gen_live (P : G → list V → Prop) (rank : G → nat) : Prop := {
  gv_next g vs : P g vs → ∃ r g', gen_next g r g';
  gv_close g vs : P g vs → ∃ r g', gen_close g r g';
  gv_use g vs v : P g vs → v ∈ vs → use g v = None → ∃ g', env_step g g';
  gv_rank_next g vs r g' : P g vs → gen_next g r g' → (rank g' + (if r is Ok (Some _) then 1 else 0) ≤ rank g)%nat;
  gv_rank_close g vs r g' : P g vs → gen_close g r g' → (rank g' ≤ rank g)%nat;
  gv_rank_env g vs g' : P g vs → env_step g g' → (rank g' < rank g)%nat }.

Definition pump_work (p : Pump) : nat :=
  match p with Waiting => 6 | Advancing => 5 | PutValue _ => 9 | ClosingGen _ => 4 | PutLast _ => 3 | PumpEnded => 0 end.
Definition consumer_work (c : Consumer) : nat :=
  match c with Getting => 3 | Yielding _ => 4 | Finishing _ => 1 | ConsumerEnded _ => 0 end.
(** A bound on the steps that are left. *)
Definition work (rank : G → nat) (s : Prefetch) : nat :=
  5 * rank (gen s) + pump_work (pump s) + (if ready s is Some _ then 2 else 0) + consumer_work (consumer s).

Section live.
Context (P N E C : G → list V → Prop) (U : V → Y → Prop) (laws : gen_laws P N E C U) (rank : G → nat) (lv : gen_live P rank).

Lemma stream_enabled s : stream_ok P N E C U s → (∃ s', prefetch_step s s') ∨ ∃ o, consumer s = ConsumerEnded o.
Proof.
  intros [Hok Hg _ _ _ _ _ (cur&_&Hde&Hcu)]. destruct (pf_order _ Hok) as (lost&Ho&Hlost).
  assert (Hpump : ∀ t, pump s = ClosingGen t → ∃ s', prefetch_step s s').
  { intros t Ht. destruct (gv_close _ _ lv _ _ Hg) as (r&g'&Hc). eexists. by eapply pf_close. }
  assert (Hadv : pump s = Advancing → ∃ s', prefetch_step s s').
  { intros Ht. destruct (gv_next _ _ lv _ _ Hg) as (r&g'&Hn). eexists. by eapply pf_next. }
  destruct (consumer s) as [|v|o|o] eqn:Ec; [| | |right; by exists o]; left.
  - destruct (ready s) as [i|] eqn:Er; [eexists; by eapply pf_get|].
    assert (Hst : stop s = false) by (destruct (stop s) eqn:Es; [apply (pf_stop_iff _ Hok) in Es; by rewrite Ec in Es|done]).
    assert (lost = []) as -> by (destruct lost; [done|destruct Hlost as (?&_); [done|congruence]]).
    destruct (pump s) as [| |v|t|t|] eqn:Ep; eauto.
    + pose proof (pf_credit _ Hok) as Hc. rewrite Ep in Hc. specialize (Hc I). rewrite Ho, !length_app in Hc. cbn in Hc.
      eexists. eapply (pf_acquire s 0); [done|lia].
    + eexists. by eapply pf_put.
    + eexists. by eapply pf_last.
    + destruct (pf_told _ Hok Hst Ep) as [t Ht]. congruence.
  - destruct (use (gen s) v) as [y|] eqn:Eu; [eexists; by eapply pf_resume|]. subst cur.
    destruct (gv_use _ _ lv _ _ v Hg) as [g' He]; [|done|eexists; by eapply pf_env]. rewrite Ho, Hde. set_solver.
  - assert (Hst : stop s = true) by (apply (pf_stop_iff _ Hok); by rewrite Ec).
    destruct (pump s) as [| |v|t|t|] eqn:Ep; eauto.
    + eexists. by eapply pf_stop.
    + eexists. by eapply pf_put_stop.
    + eexists. by eapply pf_last_stop.
    + eexists. by eapply pf_join.
Qed.

Lemma stream_work s s' : stream_ok P N E C U s → prefetch_step s s' → (work rank s' < work rank s)%nat.
Proof.
  intros Hs Hstep. pose proof (so_gen _ _ _ _ _ _ Hs) as Hg. unfold work.
  destruct Hstep as [s1 g He|s1 Hp Hst|s1 n Hp Hsl|s1 r g Hp Hn|s1 v Hp Hr|s1 v Hp Hst|s1 t r g Hp Hcl|s1 t Hp Hr|s1 t Hp Hst|s1 i Hc Hr|s1 v y Hc Hy|s1 o Hc Hp];
    cbn -[Nat.mul]; rewrite ?Hp, ?Hr, ?Hc; cbn -[Nat.mul].
  - pose proof (gv_rank_env _ _ lv _ _ _ Hg He). lia.
  - lia.
  - destruct (stop s1); cbn; lia.
  - pose proof (gv_rank_next _ _ lv _ _ _ _ Hg Hn). destruct r as [[v|]|e]; cbn -[Nat.mul]; lia.
  - lia.
  - lia.
  - pose proof (gv_rank_close _ _ lv _ _ _ _ Hg Hcl). lia.
  - lia.
  - lia.
  - destruct i as [v|[|e]]; cbn -[Nat.mul]; lia.
  - lia.
  - lia.
Qed.

(** From any state the stream ends by itself, the consumer never leaving. *)
Lemma stream_ends s : stream_ok P N E C U s → ∃ s' o, rtc prefetch_step s s' ∧ consumer s' = ConsumerEnded o.
Proof.
  remember (work rank s) as n eqn:En. revert s En. induction (lt_wf n) as [n _ IH]. intros s -> Hs.
  destruct (stream_enabled s Hs) as [[s' Hstep]|[o Ho]]; [|by exists s, o; split; [apply rtc_refl|]].
  destruct (IH _ (stream_work _ _ Hs Hstep) s' eq_refl) as (s2&o&Hr&Ho).
  - eapply (stream_step_ok P N E C U laws); [by left|done].
  - exists s2, o. split; [by eapply rtc_l|done].
Qed.
End live.

Lemma stream_run_ok P N E C U s s' : gen_laws P N E C U → rtc prefetch_any s s' → stream_ok P N E C U s → stream_ok P N E C U s'.
Proof. intros laws. induction 1 as [|s s1 s2 Hs _ IH]; [done|]. intros Hok. apply IH. by eapply stream_step_ok. Qed.

(** Everything a run does happens before a time that is not over at its end. *)
Lemma prefetch_any_clock (clock : G → nat) s s' : (∀ g r g', gen_next g r g' → clock g ≤ clock g')%nat →
  (∀ g r g', gen_close g r g' → clock g ≤ clock g')%nat → (∀ g g', env_step g g' → clock g ≤ clock g')%nat →
  prefetch_any s s' → (clock (gen s) ≤ clock (gen s'))%nat.
Proof.
  intros H1 H2 H3 [Hs|Hs]; destruct Hs; cbn; try done; [by apply H3| | |by destruct i as [|[]]].
  - apply H1 in H0. by destruct r as [[]|].
  - by apply H2 in H0.
Qed.

(** C26: The lookahead of the loader's streams: from any generator that keeps its
    promises, under every schedule of the producer thread and the consumer, the
    values arrive in the order the generator makes them, none is lost while
    the consumer listens, and never more than one is ahead of it.  When the
    consumer sees the end, it has used every value, and the generator had
    stopped and was closed.  The stream cannot stall: from every state some
    step is possible until the consumer has ended, and the steps are bounded. *)
Theorem prefetch_in_order P N E C U rank g s : gen_laws P N E C U → gen_live P rank → P g [] → N g [] →
  rtc prefetch_any (prefetch_start g) s →
  (delivered s `prefix_of` produced s ∧ (length (produced s) ≤ length (delivered s) + 1)%nat) ∧
  (consumer s = ConsumerEnded Completed → C (gen s) (produced s) ∧ delivered s = produced s ∧ Forall2 U (produced s) (used s)) ∧
  ((∃ s', prefetch_step s s') ∨ ∃ o, consumer s = ConsumerEnded o) ∧
  (∀ s', prefetch_step s s' → (work rank s' < work rank s)%nat).
Proof.
  intros laws lv Hg Hn Hrun. assert (Hs : stream_ok P N E C U s) by (eapply stream_run_ok; [done|done|by apply prefetch_start_stream]).
  split; [|split; [|split]].
  - split; [|apply (so_pf _ _ _ _ _ _ Hs)]. destruct (pf_order _ (so_pf _ _ _ _ _ _ Hs)) as (lost&->&_). by eexists.
  - intros Hc. destruct (so_done _ _ _ _ _ _ Hs) as (HC&Hd&_); [by right|]. split; [done|]. split; [done|].
    destruct (so_used _ _ _ _ _ _ Hs) as (cur&Hf&Hde&Hcu). rewrite Hc in Hcu. subst cur. rewrite app_nil_r in Hde.
    by rewrite <- Hde, <- Hd in Hf.
  - by eapply stream_enabled.
  - intros s'. by eapply stream_work.
Qed.
End prefetch.
Arguments Tensor {V} v.
Arguments Last {V} t.
Arguments Waiting {V}.
Arguments Advancing {V}.
Arguments PutValue {V} v.
Arguments ClosingGen {V} terminal.
Arguments PutLast {V} terminal.
Arguments PumpEnded {V}.
Arguments Getting {V}.
Arguments Yielding {V} v.
Arguments Finishing {V} o.
Arguments ConsumerEnded {V} o.

Section restrict.
Context {G V Y : Type} (gen_next : G → res (option V) → G → Prop) (gen_close : G → res unit → G → Prop) (env_step : G → G → Prop).
Context (use : G → V → option Y) (clock : G → nat) (T : nat).
Context (next_clock : ∀ g r g', gen_next g r g' → (clock g ≤ clock g')%nat) (close_clock : ∀ g r g', gen_close g r g' → (clock g ≤ clock g')%nat)
  (env_clock : ∀ g g', env_step g g' → (clock g ≤ clock g')%nat).
(** [next] as far as it ends by time [T]. *)
Definition next_by (g : G) (r : res (option V)) (g' : G) : Prop := gen_next g r g' ∧ (clock g' ≤ T)%nat.
Lemma step_by s s' : prefetch_any gen_next gen_close env_step use s s' → (clock (gen s') ≤ T)%nat → prefetch_any next_by gen_close env_step use s s'.
Proof.
  intros [Hs|Hs] HT; [left|right]; destruct Hs.
  - by apply pf_env.
  - by apply pf_stop.
  - by apply pf_acquire.
  - apply pf_next; [done|]. split; [done|]. by destruct r as [[]|].
  - by apply pf_put.
  - by eapply pf_put_stop.
  - by apply pf_close.
  - by apply pf_last.
  - by eapply pf_last_stop.
  - by apply pf_get.
  - by eapply pf_resume.
  - by apply pf_join.
  - by eapply pf_abandon.
  - by eapply pf_join_timeout.
Qed.
Lemma run_by s s' : rtc (prefetch_any gen_next gen_close env_step use) s s' → (clock (gen s') ≤ T)%nat →
  rtc (prefetch_any next_by gen_close env_step use) s s'.
Proof.
  intros H HT. enough (rtc (prefetch_any next_by gen_close env_step use) s s' ∧ (clock (gen s) ≤ clock (gen s'))%nat) as [? _] by done.
  induction H as [|s s1 s2 Hs Hrun IH]; [by split; [apply rtc_refl|]|]. destruct (IH HT) as [IHr IHc].
  pose proof (prefetch_any_clock _ _ _ _ clock _ _ next_clock close_clock env_clock Hs). split; [|lia].
  eapply rtc_l; [|done]. apply step_by; [done|lia].
Qed.
End restrict.

(** * A generator over a list *)

Inductive list_next : list nat → res (option nat) → list nat → Prop :=
  | next_some v l : list_next (v :: l) (Ok (Some v)) l
  | next_none : list_next [] (Ok None) [].
Inductive list_close : list nat → res unit → list nat → Prop := close_list l : list_close l (Ok tt) l.
Definition no_env (_ _ : list nat) : Prop := False.
Definition double (_ : list nat) (v : nat) : option nat := Some (v + v)%nat.

Lemma list_laws (all : list nat) :
  gen_laws list_next list_close no_env double (λ g vs, vs ++ g = all) (λ _ _, True) (λ g vs, vs = all) (λ g vs, vs = all) (λ v y, y = (v + v)%nat).
Proof.
  split.
  - intros g vs r g' HP _ Hn. inversion Hn; subst; [by rewrite <- app_assoc|]. by rewrite app_nil_r.
  - intros g vs r g' HP Hc. by inversion Hc; subst.
  - done.
  - by intros g vs v y _ _ [= <-].
Qed.
Lemma list_live (all : list nat) : gen_live list_next list_close no_env double (λ g vs, vs ++ g = all) length.
Proof.
  split.
  - intros [|v g] vs _; [exists (Ok None)|exists (Ok (Some v))]; eexists; constructor.
  - intros g vs _. exists (Ok tt), g. constructor.
  - done.
  - intros g vs r g' _ Hn. inversion Hn; subst; cbn; lia.
  - intros g vs r g' _ Hc. inversion Hc; subst; lia.
  - done.
Qed.

(** The whole run over one value. *)
Definition one_done : @Prefetch (list nat) nat nat := mkPrefetch [] PumpEnded None 1 true (ConsumerEnded Completed) [7%nat] [7%nat] [14%nat].
Lemma one_run : rtc (prefetch_any list_next list_close no_env double) (prefetch_start [7%nat]) one_done.
Proof.
  eapply rtc_l; [left; by eapply (pf_acquire _ _ _ _ _ 0)|].
  eapply rtc_l; [left; eapply (pf_next _ _ _ _ _ (Ok (Some 7%nat))); [done|constructor]|].
  eapply rtc_l; [left; by eapply (pf_put _ _ _ _ _ 7%nat)|].
  eapply rtc_l; [left; by eapply (pf_get _ _ _ _ _ (Tensor 7%nat))|].
  eapply rtc_l; [left; by eapply (pf_resume _ _ _ _ _ 7%nat 14%nat)|].
  eapply rtc_l; [left; by eapply (pf_acquire _ _ _ _ _ 0)|].
  eapply rtc_l; [left; eapply (pf_next _ _ _ _ _ (Ok None)); [done|constructor]|].
  eapply rtc_l; [left; eapply (pf_close _ _ _ _ _ Done (Ok tt)); [done|constructor]|].
  eapply rtc_l; [left; by eapply (pf_last _ _ _ _ _ Done)|].
  eapply rtc_l; [left; by eapply (pf_get _ _ _ _ _ (Last Done))|].
  eapply rtc_l; [left; by eapply (pf_join _ _ _ _ _ Completed)|].
  apply rtc_refl.
Qed.
Lemma prefetch_in_order_witness : used one_done = [14%nat] ∧ delivered one_done = produced one_done.
Proof.
  destruct (prefetch_in_order list_next list_close no_env double (λ g vs, vs ++ g = [7%nat]) (λ _ _, True) (λ g vs, vs = [7%nat]) (λ g vs, vs = [7%nat])
    (λ v y, y = (v + v)%nat) length [7%nat] one_done (list_laws _) (list_live _) eq_refl I one_run) as (_&H&_).
  split; [reflexivity|]. exact (proj1 (proj2 (H eq_refl))).
Defined.
