(* ===== verification/NvmeCheckpoint.v ===== *)
(** The inspection of original checkpoints: paths, [stamp], [DTYPES] and
    [checkpoint_metadata] of
    src/runtime/nvme_loader/spark_nvme/streaming.py.  The storage is a history:
    which inode a path names and what an inode holds at every time; each
    system call looks at a later time.  The safetensors parser, torch's types
    and the digest belong to other packages and are the class [TensorLib]. *)
From S2P Require Import Prelude PyDict Bytes File.
From stdpp Require Import base list gmap sets strings.
From Stdlib Require Import ZArith Lia.
#[local] Open Scope string_scope.
#[local] Open Scope list_scope.
#[local] Open Scope Z_scope.

(** * Paths *)

Fixpoint split_on (c : Ascii.ascii) (s : string) : list string :=
  match s with
  | EmptyString => [""]
  | String x s =>
    match split_on c s with
    | w :: ws => if Ascii.eqb x c then "" :: w :: ws else String x w :: ws
    | [] => []
    end
  end.
Definition slash : Ascii.ascii := Ascii.ascii_of_nat 47.
(** What an absolute path starts with: two slashes are kept, three are one. *)
Definition root_of (p : string) : string :=
  if String.prefix "//" p && negb (String.prefix "///" p) then "//" else if String.prefix "/" p then "/" else "".
Definition path_parts (p : string) : list string := filter (λ w, w ≠ "" ∧ w ≠ ".") (split_on slash p).

(** [str(Path(p).absolute())] *)
Definition Path_absolute (cwd p : string) : string :=
  if String.eqb (root_of p) "" then (root_of cwd +:+ String.concat "/" (path_parts cwd ++ path_parts p))%string
  else (root_of p +:+ String.concat "/" (path_parts p))%string.

(** [os.path.abspath(p)], which also resolves [..]. *)
Definition os_path_join (a b : string) : string :=
  if bool_decide (String.get (String.length a - 1) a = Some slash) then (a +:+ b)%string else (a +:+ "/" +:+ b)%string.
Definition abspath (cwd p : string) : string :=
  let full := if String.eqb (root_of p) "" then os_path_join cwd p else p in
  let parts := foldl (λ acc w, if String.eqb w ".." then match acc with [] => [] | _ :: acc => acc end else w :: acc) [] (path_parts full) in
  (root_of full +:+ String.concat "/" (reverse parts))%string.

(** * The storage *)

Record Inode := mkInode { in_dev : Z; in_mtime : Z; in_ctime : Z; in_data : list byte }.
Class Disk := mkDisk { names : nat → string → option Z; inodes : nat → Z → Inode }.
(** [stamp]: device, inode, size and both times. *)
Record Stamp := mkStamp { st_dev : Z; st_ino : Z; st_size : Z; st_mtime : Z; st_ctime : Z }.
#[export] Instance stamp_eq_dec : EqDecision Stamp.
Proof. solve_decision. Defined.
Definition stamp_of (ino : Z) (i : Inode) : Stamp :=
  mkStamp (in_dev i) ino (Z.of_nat (length (in_data i))) (in_mtime i) (in_ctime i).

Section disk.
Context {D : Disk}.
Definition lookup_path (t : nat) (path : string) : res Z := res_of_option OSError (names t path).
Definition stamp (t : nat) (path : string) : res Stamp := ino ← lookup_path t path; Ok (stamp_of ino (inodes t ino)).
(** The bytes a path names. *)
Definition bytes_at (t : nat) (path : string) : list byte :=
  match names t path with Some ino => in_data (inodes t ino) | None => [] end.

(** A path that names the same bytes, in the same inode, all along. *)
Definition quiet (path : string) (t1 t2 : nat) : Prop :=
  ∃ ino, ∀ t, (t1 ≤ t ≤ t2)%nat → names t path = Some ino ∧ in_data (inodes t ino) = bytes_at t1 path.
(** What the loader takes the stamp for: a file with the same stamp at two
    times was not replaced nor written in between. *)
Definition stamps_tell : Prop :=
  ∀ path t1 t2 s, (t1 ≤ t2)%nat → stamp t1 path = Ok s → stamp t2 path = Ok s → quiet path t1 t2.

Lemma quiet_bytes path t1 t2 t : quiet path t1 t2 → (t1 ≤ t ≤ t2)%nat → bytes_at t path = bytes_at t1 path.
Proof.
  intros (ino&Hq) Ht. unfold bytes_at at 1. destruct (Hq t Ht) as [-> Hd]. done.
Qed.
Lemma quiet_sub path t1 t2 u1 u2 : quiet path t1 t2 → (t1 ≤ u1)%nat → (u2 ≤ t2)%nat → (u1 ≤ u2)%nat → quiet path u1 u2.
Proof.
  intros Hq H1 H2 H3. pose proof Hq as (ino&Hi). exists ino. intros t Ht.
  rewrite (quiet_bytes _ _ _ u1 Hq) by lia. apply Hi. lia.
Qed.
End disk.

(** * Metadata *)

(** [TensorInfo]; a type is torch's name of it. *)
Record TensorInfo := mkInfo {
  ti_name : string; ti_shape : list Z; ti_dtype : string; ti_bytes : Z; ti_file : string; ti_offset : Z }.
Record Identity := mkIdentity { id_name : string; id_size : Z; id_header : string }.
(** [safe_open]: [str(x)] of the metadata items, and for each key of the file
    the label of its type and its shape. *)
Record SafeFile := mkSafe { sf_metadata : list string; sf_slices : list (string * (string * list Z)) }.
(** [header_offsets] is [json.loads(header)[name]["data_offsets"]] by name. *)
Class TensorLib := mkTensorLib {
  torch_has : string → bool;
  element_size : string → Z;
  safe_open : list byte → res SafeFile;
  header_offsets : list byte → res (odict string (list Z));
  sha256_hex : list byte → string;
  digest_of : list Identity → string }.

Definition Tensors : Type := odict string TensorInfo.
Definition Stamps : Type := odict string Stamp.
Definition Metadata : Type := Tensors * Stamps * string.

Section metadata.
Context {D : Disk} {L : TensorLib} (cwd : string).

Definition base_dtypes : odict string string :=
  [("BOOL", "bool"); ("U8", "uint8"); ("I8", "int8"); ("I16", "int16"); ("I32", "int32"); ("I64", "int64");
   ("F16", "float16"); ("BF16", "bfloat16"); ("F32", "float32"); ("F64", "float64")].
Definition optional_dtypes : odict string string :=
  [("F8_E4M3", "float8_e4m3fn"); ("F8_E5M2", "float8_e5m2"); ("U16", "uint16"); ("U32", "uint32"); ("U64", "uint64")].
Definition DTYPES : odict string string := base_dtypes ++ filter (λ x : string * string, torch_has x.2 = true) optional_dtypes.

Definition lower_char (c : Ascii.ascii) : Ascii.ascii :=
  let n := Ascii.nat_of_ascii c in if (65 <=? n)%nat && (n <=? 90)%nat then Ascii.ascii_of_nat (n + 32) else c.
Fixpoint lower (s : string) : string := match s with EmptyString => EmptyString | String c s => String (lower_char c) (lower s) end.
Definition mentions_torchao (s : string) : bool := bool_decide (is_Some (String.index 0 "torchao" (lower s))).

Definition tick : M nat nat := λ t, (Ok t, S t).
Definition os_stamp (path : string) : M nat Stamp := t ← tick; lift (stamp t path).

Definition zprod (n : Z) (dims : list Z) : Z := foldl Z.mul n dims.
(** The entry of one tensor of a file. *)
Definition tensor_info (path : string) (size : Z) (offsets : odict string (list Z)) (x : string * (string * list Z)) : res TensorInfo :=
  let '(name, (label, shape)) := x in
  dtype ← res_of_option UnsupportedStream (od_get label DTYPES);
  let n := zprod (element_size dtype) shape in
  range ← res_of_option KeyError (od_get name offsets);
  match range with
  | [start; end_] => if negb (end_ - start =? n) then Err ValueError else Ok (mkInfo name shape dtype n path (8 + size + start))
  | _ => Err ValueError
  end.
Fixpoint add_tensors (path : string) (size : Z) (offsets : odict string (list Z)) (slices : list (string * (string * list Z))) (tensors : Tensors) :
    res Tensors :=
  match slices with
  | [] => Ok tensors
  | x :: slices =>
    if od_mem x.1 tensors then Err ValueError else
    info ← tensor_info path size offsets x;
    add_tensors path size offsets slices (od_set x.1 info tensors)
  end.

(** [raw], [size] and [header] of an open file. *)
Definition read_header (ino : Z) (limit : Z) : M nat (list byte) :=
  t ← tick;
  let raw := take 8 (in_data (inodes t ino)) in
  raise_if (negb (bool_decide (length raw = 8%nat))) ValueError;;
  let size := le_int raw in
  raise_if (Z.min 100000000 limit <? size) ValueError;;
  t ← tick;
  let header := file_read (in_data (inodes t ino)) 8 (Z.to_nat size) in
  raise_if (negb (Z.of_nat (length header) =? size)) ValueError;;
  mret header.

(** One file of [checkpoint_metadata]. *)
Definition inspect_file (filename : string) (acc : Tensors * Stamps * list Identity) : M nat (Tensors * Stamps * list Identity) :=
  let '(tensors, stamps, identities) := acc in
  let path := Path_absolute cwd filename in
  raise_if (od_mem path stamps) ValueError;;
  before ← os_stamp path;
  t ← tick;
  ino ← lift (lookup_path t path);
  header ← read_header ino (st_size before - 8);
  t ← tick;
  ino ← lift (lookup_path t path);
  source ← lift (safe_open (in_data (inodes t ino)));
  offsets ← lift (header_offsets header);
  raise_if (existsb mentions_torchao (sf_metadata source)) UnsupportedStream;;
  tensors ← lift (add_tensors path (Z.of_nat (length header)) offsets (sf_slices source) tensors);
  after ← os_stamp path;
  raise_if (negb (bool_decide (after = before))) ValueError;;
  mret (tensors, od_set path before stamps, identities ++ [mkIdentity (List.last (path_parts path) "") (st_size before) (sha256_hex header)]).
Fixpoint inspect_files (files : list string) (acc : Tensors * Stamps * list Identity) : M nat (Tensors * Stamps * list Identity) :=
  match files with
  | [] => mret acc
  | f :: files => acc ← inspect_file f acc; inspect_files files acc
  end.
Definition checkpoint_metadata (files : list string) : M nat Metadata :=
  acc ← inspect_files files ([], [], []);
  let '(tensors, stamps, identities) := (acc : Tensors * Stamps * list Identity) in
  raise_if (bool_decide (tensors = [])) ValueError;;
  mret (tensors, stamps, digest_of identities).
End metadata.
