(* ===== verification/NvmeStreaming.v ===== *)
(** Streaming of original checkpoints through the Run:ai streamer:
    [stream_weights] of src/runtime/nvme_loader/spark_nvme/streaming.py.  What
    the streamer yields is an argument; each [yield] of the generator appends
    to a log, and may be where its consumer leaves. *)
From S2P Require Import Prelude PyDict Bytes File NvmePrefetch NvmeCheckpoint.
From stdpp Require Import base list gmap sets strings pretty.
From Stdlib Require Import ZArith Lia.
#[local] Open Scope string_scope.
#[local] Open Scope list_scope.
#[local] Open Scope Z_scope.

(** A tensor in the streamer's buffer, or one that owns its bytes. *)
Record Streamed := mkStreamed { sd_shape : list Z; sd_dtype : string; sd_data : list byte }.
(** The streamer: whether it opens, what it yields, and how it ends. *)
Record Source := mkSource { src_open : res unit; src_items : list (string * Streamed); src_end : option exn }.

Record Metrics := mkMetrics { mt_tensors : Z; mt_bytes : Z; mt_empty : Z; mt_skipped : Z; mt_complete : bool; mt_peak : Z }.
Definition no_metrics : Metrics := mkMetrics 0 0 0 0 false 0.

(** [st_next] numbers the storages that are allocated. *)
Record Streaming := mkStreaming {
  st_clock : nat; st_env : gmap string string; st_budget : OwnedStorageBudget; st_next : nat;
  st_seen : list string; st_remaining : odict string Z; st_metrics : Metrics; st_out : list (string * Streamed) }.
Definition streaming0 (t : nat) (env : gmap string string) : Streaming :=
  mkStreaming t env (new_budget 0) 0 [] [] no_metrics [].

Definition set_env (env : gmap string string) (s : Streaming) : Streaming :=
  mkStreaming (st_clock s) env (st_budget s) (st_next s) (st_seen s) (st_remaining s) (st_metrics s) (st_out s).
Definition set_budget (b : OwnedStorageBudget) (s : Streaming) : Streaming :=
  mkStreaming (st_clock s) (st_env s) b (st_next s) (st_seen s) (st_remaining s) (st_metrics s) (st_out s).
Definition set_seen (seen : list string) (s : Streaming) : Streaming :=
  mkStreaming (st_clock s) (st_env s) (st_budget s) (st_next s) seen (st_remaining s) (st_metrics s) (st_out s).
Definition set_remaining (r : odict string Z) (s : Streaming) : Streaming :=
  mkStreaming (st_clock s) (st_env s) (st_budget s) (st_next s) (st_seen s) r (st_metrics s) (st_out s).
Definition set_metrics (m : Metrics) (s : Streaming) : Streaming :=
  mkStreaming (st_clock s) (st_env s) (st_budget s) (st_next s) (st_seen s) (st_remaining s) m (st_out s).
Definition set_out (o : list (string * Streamed)) (s : Streaming) : Streaming :=
  mkStreaming (st_clock s) (st_env s) (st_budget s) (st_next s) (st_seen s) (st_remaining s) (st_metrics s) o.
Definition later (s : Streaming) : Streaming :=
  mkStreaming (S (st_clock s)) (st_env s) (st_budget s) (st_next s) (st_seen s) (st_remaining s) (st_metrics s) (st_out s).
Definition next_storage (s : Streaming) : Streaming :=
  mkStreaming (st_clock s) (st_env s) (st_budget s) (S (st_next s)) (st_seen s) (st_remaining s) (st_metrics s) (st_out s).

Section streaming.
Context {D : Disk} {L : TensorLib}.
(** The storages the model has released when the nth one is asked for; whether
    the consumer leaves at its nth value; the tensors it does not want. *)
Context (released : nat → nat → bool) (leaves : nat → bool) (skip : string → bool).

(** [Counter(t.file for t in tensors.values() if t.bytes)] *)
Definition count_files (tensors : Tensors) : odict string Z :=
  foldl (λ c (x : string * TensorInfo), if ti_bytes x.2 =? 0 then c else od_set (ti_file x.2) (default 0 (od_get (ti_file x.2) c) + 1) c)
    [] tensors.

(** [yield name, tensor] *)
Definition yield_ (name : string) (t : Streamed) : M Streaming unit :=
  s ← get;
  modify (set_out (st_out s ++ [(name, t)]));;
  raise_if (leaves (length (st_out s))) GeneratorExit.
Definition in_budget {A} (m : M OwnedStorageBudget A) : M Streaming A :=
  λ s, let '(r, b) := m (st_budget s) in (r, set_budget b s).
(** [own]: the tensor gets storage of its own, charged to the budget. *)
Definition own (t : Streamed) (info : TensorInfo) : M Streaming Streamed :=
  s ← get;
  in_budget (reserve (released (st_next s)) (ti_bytes info));;
  modify next_storage;;
  in_budget (modify (track (st_next s) (Z.of_nat (length (sd_data t)))));;
  mret t.
(** [os.open] and [posix_fadvise] of a file that is done. *)
Definition drop_cache (path : string) : M Streaming unit :=
  s ← get; modify later;; lift (lookup_path (st_clock s) path);; mret tt.
Definition count_down (file : string) : M Streaming unit :=
  s ← get;
  n ← lift (res_of_option KeyError (od_get file (st_remaining s)));
  modify (set_remaining (od_set file (n - 1) (st_remaining s)));;
  if n - 1 =? 0 then drop_cache file else mret tt.

(** One pass of the loop over the streamer's tensors. *)
Definition stream_one (tensors : Tensors) (x : string * Streamed) : M Streaming unit :=
  let '(name, t) := x in
  s ← get;
  match od_get name tensors with
  | None => raise ValueError
  | Some info =>
    raise_if (bool_decide (name ∈ st_seen s)) ValueError;;
    raise_if (negb (bool_decide (sd_shape t = ti_shape info)) || negb (bool_decide (sd_dtype t = ti_dtype info))) ValueError;;
    modify (set_seen (st_seen s ++ [name]));;
    (if ti_bytes info =? 0 then mret tt else count_down (ti_file info));;
    s ← get;
    let m := st_metrics s in
    if skip name then modify (set_metrics (mkMetrics (mt_tensors m) (mt_bytes m) (mt_empty m) (mt_skipped m + 1) (mt_complete m) (mt_peak m)))
    else
      output ← own t info;
      modify (set_metrics (mkMetrics (mt_tensors m + 1) (mt_bytes m + ti_bytes info) (mt_empty m) (mt_skipped m) (mt_complete m) (mt_peak m)));;
      yield_ name output
  end.
(** One pass of the loop over what the streamer left out. *)
Definition fill_missing (x : string * TensorInfo) : M Streaming unit :=
  let '(name, info) := x in
  s ← get;
  if bool_decide (name ∈ st_seen s) then mret tt else
  raise_if (negb (ti_bytes info =? 0)) ValueError;;
  if skip name then mret tt else
  yield_ name (mkStreamed (ti_shape info) (ti_dtype info) []);;
  s ← get;
  let m := st_metrics s in
  modify (set_metrics (mkMetrics (mt_tensors m) (mt_bytes m) (mt_empty m + 1) (mt_skipped m) (mt_complete m) (mt_peak m))).
(** The stamps once more, at the end. *)
Definition check_stamp (x : string * Stamp) : M Streaming unit :=
  s ← get; modify later;;
  now ← lift (stamp (st_clock s) x.1);
  raise_if (negb (bool_decide (now = x.2))) ValueError.

Definition stream_keys (concurrency memory_limit : Z) : list (string * string) :=
  [("RUNAI_STREAMER_CONCURRENCY", pretty concurrency); ("RUNAI_STREAMER_MEMORY_LIMIT", pretty memory_limit); ("RUNAI_STREAMER_DIST", "0")].
(** [os.environ.update(keys)], and the restoring loop of the [finally] clause. *)
Definition update_env (keys : list (string * string)) (env : gmap string string) : gmap string string :=
  foldl (λ e (x : string * string), <[x.1 := x.2]> e) env keys.
Definition restore_env (previous : list (string * option string)) (env : gmap string string) : gmap string string :=
  foldl (λ e (x : string * option string), match x.2 with Some v => <[x.1 := v]> e | None => delete x.1 e end) env previous.

(** [try: ... finally: ...] of a clause that does not raise. *)
Definition finally {S A} (m : M S A) (f : S → S) : M S A := λ s, let '(r, s) := m s in (r, f s).

Definition stream_body (metadata : Metadata) (keys : list (string * string)) (source : Source) : M Streaming unit :=
  let '(tensors, stamps, _) := metadata in
  s ← get; modify (set_env (update_env keys (st_env s)));;
  lift (src_open source);;
  for_each (src_items source) (stream_one tensors);;
  match src_end source with Some e => raise e | None => mret tt end;;
  for_each tensors fill_missing;;
  for_each stamps check_stamp;;
  s ← get;
  let m := st_metrics s in
  modify (set_metrics (mkMetrics (mt_tensors m) (mt_bytes m) (mt_empty m) (mt_skipped m) true (mt_peak m))).
Definition stream_finally (previous : list (string * option string)) (s : Streaming) : Streaming :=
  let m := st_metrics s in
  set_env (restore_env previous (st_env s)) (set_budget (close_budget (st_budget s))
    (set_metrics (mkMetrics (mt_tensors m) (mt_bytes m) (mt_empty m) (mt_skipped m) (mt_complete m) (peak (st_budget s))) s)).

Definition stream_weights (metadata : Metadata) (concurrency memory_limit owned_limit : Z) (device : string) (source : Source) : M Streaming unit :=
  let tensors := metadata.1.1 in
  raise_if (negb ((1 <=? concurrency) && (concurrency <=? 128)) || (memory_limit <=? 0) || (owned_limit <=? 0)) ValueError;;
  raise_if (negb (bool_decide (device ∈ ["cpu"; "pinned"; "cuda"]))) ValueError;;
  largest ← lift (zmax ((λ x : string * TensorInfo, ti_bytes x.2) <$> tensors));
  raise_if ((memory_limit <? largest) || (owned_limit <? largest)) ValueError;;
  let keys := stream_keys concurrency memory_limit in
  s ← get;
  let previous := (λ x : string * string, (x.1, st_env s !! x.1)) <$> keys in
  modify (λ s, mkStreaming (st_clock s) (st_env s) (new_budget owned_limit) (st_next s) [] (count_files tensors)
    (mkMetrics 0 0 0 0 (mt_complete (st_metrics s)) (mt_peak (st_metrics s))) []);;
  finally (stream_body metadata keys source) (stream_finally previous).
End streaming.
