(* ===== verification/NvmeStreamingProps.v ===== *)
(** What the checkpoint inspection and the streamed weights promise. *)
From S2P Require Import Prelude PyDict Bytes File NvmePrefetch NvmeCheckpoint NvmeStreaming.
From stdpp Require Import base list gmap sets strings pretty.
From Stdlib Require Import ZArith Lia.
#[local] Open Scope string_scope.
#[local] Open Scope list_scope.
#[local] Open Scope Z_scope.

(** * The inspection *)

Section metadata.
Context {D : Disk} {L : TensorLib} (cwd : string).

(** A stamp that was read twice in a stretch of time. *)
Definition stamped (t1 t2 : nat) (path : string) (s : Stamp) : Prop :=
  ∃ u1 u2, (t1 ≤ u1 ≤ u2)%nat ∧ (u2 < t2)%nat ∧ stamp u1 path = Ok s ∧ stamp u2 path = Ok s.
Definition info_ok (info : TensorInfo) : Prop := ti_bytes info = zprod (element_size (ti_dtype info)) (ti_shape info).
Record tables_ok (t1 t2 : nat) (tensors : Tensors) (stamps : Stamps) : Prop := {
  tb_names : NoDup (od_keys tensors);
  tb_paths : NoDup (od_keys stamps);
  tb_tensors name info : (name, info) ∈ tensors → ti_name info = name ∧ ti_file info ∈ od_keys stamps ∧ info_ok info;
  tb_stamps path s : (path, s) ∈ stamps → stamped t1 t2 path s }.

Lemma stamped_later t1 t2 t3 path s : (t2 ≤ t3)%nat → stamped t1 t2 path s → stamped t1 t3 path s.
Proof. intros H (u1&u2&?&?&?&?). exists u1, u2. split_and!; [lia|lia|lia|done|done]. Qed.

Lemma add_tensors_ok path size offsets slices tensors tensors' : add_tensors path size offsets slices tensors = Ok tensors' →
  NoDup (od_keys tensors) →
  NoDup (od_keys tensors') ∧ ∀ name info, (name, info) ∈ tensors' →
    (name, info) ∈ tensors ∨ (ti_name info = name ∧ ti_file info = path ∧ info_ok info).
Proof.
  revert tensors. induction slices as [|[name [label shape]] slices IH]; intros tensors; cbn [add_tensors].
  { intros [= <-] Hn. split; [done|]. intros; by left. }
  cbn [fst]. destruct (od_mem name tensors) eqn:Em; [done|]. intros (info&Hi&H)%res_bind_ok Hn.
  assert (Hg : od_get name tensors = None).
  { unfold od_mem in Em. apply bool_decide_eq_false in Em. by apply eq_None_not_Some. }
  destruct (IH _ H) as [Hn' Hall]; [by apply od_set_nodup|]. split; [done|]. intros nm i Hin.
  destruct (Hall nm i Hin) as [Hin'|?]; [|by right]. rewrite od_set_fresh in Hin' by done.
  apply elem_of_app in Hin' as [Hin'|[= -> ->]%list_elem_of_singleton]; [by left|]. right.
  unfold tensor_info in Hi. apply res_bind_ok in Hi as (dtype&_&Hi). apply res_bind_ok in Hi as (range&_&Hi).
  destruct range as [|a [|b [|]]]; try done. destruct (negb _); [done|]. by injection Hi as <-.
Qed.

Definition files_ok (t1 : nat) (acc : Tensors * Stamps * list Identity) (t2 : nat) : Prop := (t1 ≤ t2)%nat ∧ tables_ok t1 t2 acc.1.1 acc.1.2.

Lemma inspect_file_ok t0 filename acc t acc' t' : inspect_file cwd filename acc t = (Ok acc', t') → files_ok t0 acc t → files_ok t0 acc' t'.
Proof.
  destruct acc as [[tensors stamps] ids]. intros E [Ht [Hn Hp Hts Hst]]. cbn [fst snd] in *. unfold inspect_file in E.
  set (path := Path_absolute cwd filename) in *.
  inv_M E as ? E1. unfold raise_if in E1. destruct (od_mem path stamps) eqn:Em; [done|]. injection E1 as <-.
  inv_M E as before E1. unfold os_stamp in E1. inv_M E1 as u1 Eu. injection Eu as <- <-. injection E1 as Hb <-.
  inv_M E as u2 Eu. injection Eu as <- <-.
  inv_M E as ino E1. injection E1 as _ <-.
  inv_M E as header E1. unfold read_header in E1. inv_M E1 as u3 Eu. injection Eu as <- <-.
  inv_M E1 as ? E2. unfold raise_if in E2. destruct (negb _); [done|]. injection E2 as <-.
  inv_M E1 as ? E2. unfold raise_if in E2. destruct (_ <? _); [done|]. injection E2 as <-.
  inv_M E1 as u4 Eu. injection Eu as <- <-.
  inv_M E1 as ? E2. unfold raise_if in E2. destruct (negb _); [done|]. injection E2 as <-. injection E1 as _ <-.
  inv_M E as u5 Eu. injection Eu as <- <-.
  inv_M E as ino2 E1. injection E1 as _ <-.
  inv_M E as source E1. injection E1 as _ <-. inv_M E as offsets E1. injection E1 as _ <-.
  inv_M E as ? E1. unfold raise_if in E1. destruct (existsb _ _); [done|]. injection E1 as <-.
  inv_M E as tensors' E1. injection E1 as Ha <-.
  inv_M E as after E1. unfold os_stamp in E1. inv_M E1 as u6 Eu. injection Eu as <- <-. injection E1 as Hb2 <-.
  inv_M E as ? E1. unfold raise_if in E1. destruct (negb _) eqn:Eb; [done|]. injection E1 as <-. injection E as <- <-.
  apply negb_false_iff, bool_decide_eq_true in Eb. subst after.
  assert (Hg : od_get path stamps = None).
  { unfold od_mem in Em. apply bool_decide_eq_false in Em. by apply eq_None_not_Some. }
  destruct (add_tensors_ok _ _ _ _ _ _ Ha Hn) as [Hn' Hall].
  split; [cbn; lia|]. split; cbn [fst snd].
  - done.
  - by apply od_set_nodup.
  - intros name info Hin. rewrite od_set_fresh by done. unfold od_keys. rewrite fmap_app. cbn.
    destruct (Hall name info Hin) as [Hin'|(?&->&?)]; [|split_and!; [done|set_solver|done]].
    destruct (Hts _ _ Hin') as (?&?&?). split_and!; [done|set_solver|done].
  - intros p s. rewrite od_set_fresh by done. intros [Hin|[= -> ->]%list_elem_of_singleton]%elem_of_app.
    + eapply stamped_later; [|by apply Hst]. lia.
    + subst. eexists _, _. split_and!; [| | |exact Hb|exact Hb2]; lia.
Qed.

Lemma inspect_files_ok t0 files acc t acc' t' : inspect_files cwd files acc t = (Ok acc', t') → files_ok t0 acc t → files_ok t0 acc' t'.
Proof.
  revert acc t. induction files as [|f files IH]; intros acc t; cbn [inspect_files]; [by intros [= <- <-]|].
  intros (acc1&t1&E1&E)%M_bind_ok H. eapply IH; [done|]. by eapply inspect_file_ok.
Qed.

Lemma checkpoint_metadata_ok files t m t' : checkpoint_metadata cwd files t = (Ok m, t') → tables_ok t t' m.1.1 m.1.2 ∧ m.1.1 ≠ [].
Proof.
  unfold checkpoint_metadata. intros E. inv_M E as acc E1. destruct acc as [[tensors stamps] ids].
  apply (inspect_files_ok t) in E1; [|split; [done|]; split; cbn; try apply NoDup_nil_2; by intros ?? ?%not_elem_of_nil].
  inv_M E as ? E2. unfold raise_if in E2. destruct (bool_decide _) eqn:Eb; [done|]. injection E2 as <-. injection E as <- <-.
  apply bool_decide_eq_false in Eb. subst. split; [apply E1|done].
Qed.
End metadata.

(** * The bytes the model holds *)

(** Whether storage [k] is still held when the nth one is asked for: at none of
    the requests since its own was it found released. *)
Definition held (released : nat → nat → bool) (n k : nat) : bool := forallb (λ j, negb (released j k)) (seq (S k) (n - k)).
Definition data_size (x : string * Streamed) : Z := Z.of_nat (length (sd_data x.2)).
(** The bytes of the tensors held of the first [S n] that were yielded, when
    the last of these got its storage, and until the next one does. *)
Definition held_bytes (released : nat → nat → bool) (out : list (string * Streamed)) (n : nat) : Z :=
  zsum ((λ x : nat * Z, if held released n x.1 then x.2 else 0) <$> zip (seq 0 (S n)) (data_size <$> out)).

Lemma held_weaken released n m k : (m ≤ n)%nat → held released n k = true → held released m k = true.
Proof.
  unfold held. rewrite !forallb_forall. intros Hm H j [? ?]%in_seq. apply H, in_seq. lia.
Qed.
Lemma held_not_released released n k : (k < n)%nat → held released n k = true → released n k = false.
Proof. unfold held. rewrite forallb_forall. intros Hk H. apply negb_true_iff, H, in_seq. lia. Qed.

Lemma zip_seq_app {A} o m (l l' : list A) : (m ≤ length l)%nat → zip (seq o m) (l ++ l') = zip (seq o m) l.
Proof.
  revert o m. induction l as [|x l IH]; intros o [|m] Hm; cbn in *; try done; [lia|]. f_equal. apply IH. lia.
Qed.
Lemma zip_seq_snoc {A} o (l : list A) x : zip (seq o (S (length l))) (l ++ [x]) = zip (seq o (length l)) l ++ [((o + length l)%nat, x)].
Proof.
  revert o. induction l as [|y l IH]; intros o; [by rewrite Nat.add_0_r|].
  change (zip (seq o (S (length (y :: l)))) ((y :: l) ++ [x])) with ((o, y) :: zip (seq (S o) (S (length l))) (l ++ [x])).
  rewrite IH. cbn. by rewrite Nat.add_succ_r.
Qed.
Lemma zip_seq_long {A} o m (l : list A) : (length l ≤ m)%nat → zip (seq o m) l = zip (seq o (length l)) l.
Proof.
  revert o m. induction l as [|x l IH]; intros o [|m] Hm; cbn in *; try done; [lia|]. f_equal. apply IH. lia.
Qed.
Lemma elem_of_zip_seq {A} o m (l : list A) k x : (k, x) ∈ zip (seq o m) l → (k < o + m)%nat.
Proof. intros H%elem_of_zip_l. apply elem_of_seq in H. lia. Qed.
Lemma filter_on {A} (P Q : A → Prop) `{!∀ x, Decision (P x), !∀ x, Decision (Q x)} (l : list A) :
  (∀ x, x ∈ l → P x ↔ Q x) → filter P l = filter Q l.
Proof.
  induction l as [|x l IH]; intros Hl; [done|]. rewrite !filter_cons, IH by (intros; apply Hl; by right).
  pose proof (Hl x ltac:(by left)). destruct (decide (P x)), (decide (Q x)); tauto.
Qed.
Lemma sum_filter_ge (Q P : nat → bool) (l : list (nat * Z)) : (∀ x, x ∈ l → 0 ≤ x.2 ∧ (Q x.1 = true → P x.1 = true)) →
  zsum ((λ x : nat * Z, if Q x.1 then x.2 else 0) <$> l) ≤ zsum (filter (λ r : nat * Z, P r.1 = true) l).*2.
Proof.
  unfold zsum. induction l as [|x l IH]; intros H; [done|]. destruct (H x ltac:(by left)) as [H0 HQ].
  specialize (IH (λ y Hy, H y ltac:(by right))). rewrite fmap_cons, filter_cons. cbn [foldr].
  destruct (Q x.1); [rewrite decide_True by auto|destruct (decide (P x.1 = true))]; rewrite ?fmap_cons; cbn [foldr]; lia.
Qed.

Section ledger.
Context (released : nat → nat → bool).

(** The references are those of the first [next] yielded tensors whose release
    was not noticed, and the count never missed a held tensor. *)
Record charged (b : OwnedStorageBudget) (next : nat) (out : list (string * Streamed)) : Prop := {
  ch_next : (next ≤ length out)%nat;
  ch_refs : ∃ P : nat → bool, refs b = filter (λ r : nat * Z, P r.1 = true) (zip (seq 0 next) (data_size <$> out)) ∧
    ∀ k, (k < next)%nat → held released next k = true → P k = true;
  ch_held n : held_bytes released out n ≤ peak b }.

Lemma charged_collect b next out : charged b next out → charged (collect (released next) b) next out.
Proof.
  intros [Hn (P&Hr&HP) Hh]. split; [done| |done]. exists (λ k, negb (released next k) && P k). split.
  - cbn. rewrite Hr, list_filter_filter. apply list_filter_iff. intros [k z]. cbn.
    rewrite andb_true_iff, negb_true_iff. done.
  - intros k Hk Hhe. rewrite (held_not_released _ _ _ Hk Hhe). cbn. auto.
Qed.
Lemma data_sizes (out : list (string * Streamed)) n x : x ∈ zip (seq 0 n) (data_size <$> out) → 0 ≤ x.2.
Proof.
  destruct x as [k z]. intros Hx%elem_of_zip_r. apply list_elem_of_fmap in Hx as (y&->&_). cbn. unfold data_size. lia.
Qed.
Lemma charged_track b out x : charged b (length out) out → budget_ok (track (length out) (data_size x) b) →
  charged (track (length out) (data_size x) b) (S (length out)) (out ++ [x]).
Proof.
  intros [_ (P&Hr&HP) Hh] [Hlive _ Hpeak].
  assert (Hz : zip (seq 0 (S (length out))) (data_size <$> out ++ [x]) = zip (seq 0 (length out)) (data_size <$> out) ++ [(length out, data_size x)]).
  { rewrite fmap_app. cbn [fmap list_fmap]. pose proof (zip_seq_snoc 0 (data_size <$> out) (data_size x)) as H.
    rewrite length_fmap in H. exact H. }
  set (P' := λ k : nat, bool_decide (k = length out) || P k).
  assert (Hrefs : refs (track (length out) (data_size x) b) =
    filter (λ r : nat * Z, P' r.1 = true) (zip (seq 0 (S (length out))) (data_size <$> out ++ [x]))).
  { rewrite Hz, filter_app. cbn [refs track]. rewrite Hr. f_equal.
    - apply filter_on. intros [k z] Hk%elem_of_zip_seq. cbn in Hk |- *. unfold P'.
      by rewrite bool_decide_eq_false_2 by lia.
    - unfold P'. rewrite filter_cons_True by (cbn; by rewrite bool_decide_eq_true_2). done. }
  split.
  - rewrite length_app. cbn. lia.
  - exists P'. split; [exact Hrefs|]. intros k Hk Hhe. unfold P'. destruct (decide (k = length out)) as [->|Hne].
    + by rewrite bool_decide_eq_true_2.
    + rewrite bool_decide_eq_false_2 by done. cbn. apply HP; [lia|]. eapply held_weaken; [|exact Hhe]. lia.
  - intros n. destruct (decide (n < length out)%nat) as [Hn|Hn].
    + etrans; [|etrans; [apply (Hh n)|cbn; lia]]. unfold held_bytes. rewrite fmap_app, zip_seq_app by (rewrite length_fmap; lia). done.
    + etrans; [|apply Hpeak]. rewrite Hlive, Hrefs. unfold held_bytes.
      rewrite (zip_seq_long 0 (S n)) by (rewrite length_fmap, length_app; cbn; lia).
      rewrite length_fmap, length_app. cbn [length]. rewrite Nat.add_1_r. apply sum_filter_ge. intros [k z] Hkz. split; [by eapply data_sizes|].
      apply elem_of_zip_seq in Hkz. cbn [fst]. intros Hhe. unfold P'. destruct (decide (k = length out)) as [->|Hne].
      * by rewrite bool_decide_eq_true_2.
      * rewrite bool_decide_eq_false_2 by done. cbn. apply HP; [lia|]. eapply held_weaken; [|exact Hhe]. lia.
Qed.
Lemma charged_empty b next out x : charged b next out → sd_data x.2 = [] → charged b next (out ++ [x]).
Proof.
  intros [Hn (P&Hr&HP) Hh] Hx. assert (Hx0 : data_size x = 0) by (unfold data_size; by rewrite Hx). split.
  - rewrite length_app. lia.
  - exists P. split; [|done]. by rewrite fmap_app, zip_seq_app by (by rewrite length_fmap).
  - intros n. etrans; [|apply (Hh n)]. unfold held_bytes. rewrite fmap_app. destruct (decide (S n ≤ length out)%nat).
    + by rewrite zip_seq_app by (by rewrite length_fmap).
    + rewrite (zip_seq_long 0 (S n) (data_size <$> out)) by (rewrite length_fmap; lia).
      rewrite zip_seq_long by (rewrite length_app, !length_fmap; cbn; lia). rewrite length_app. cbn [fmap list_fmap length].
      rewrite Nat.add_1_r, zip_seq_snoc, fmap_app, zsum_app. cbn. rewrite Hx0. destruct (held _ _ _); lia.
Qed.
End ledger.

(** * The streamed weights *)

Section streaming.
Context {D : Disk} {L : TensorLib}.
Context (released : nat → nat → bool) (leaves : nat → bool) (skip : string → bool).
Context (tensors : Tensors) (stamps : Stamps) (id : string) (owned_limit : Z) (env : gmap string string) (k0 : nat).

(** What the metadata and the streamer promise: distinct names, sizes that
    are what type and shape need, and tensors of their type and shape. *)
Definition known_sizes (items : list (string * Streamed)) : Prop :=
  (∀ name info, (name, info) ∈ tensors → info_ok info ∧ 0 ≤ ti_bytes info) ∧
  (∀ name t, (name, t) ∈ items → Z.of_nat (length (sd_data t)) = zprod (element_size (sd_dtype t)) (sd_shape t)).

(** A value that was yielded is the tensor of its name. *)
Definition yielded_ok (x : string * Streamed) : Prop :=
  skip x.1 = false ∧ ∃ info, od_get x.1 tensors = Some info ∧ sd_shape x.2 = ti_shape info ∧ sd_dtype x.2 = ti_dtype info.
(** What holds at every point, also where the generator is left. *)
Record always (s : Streaming) : Prop := {
  al_env : st_env s = env;
  al_budget : budget_ok (st_budget s) ∧ limit (st_budget s) = owned_limit;
  al_out : ∀ x, x ∈ st_out s → yielded_ok x;
  al_names : NoDup (st_out s).*1;
  al_charged : charged released (st_budget s) (st_next s) (st_out s);
  al_complete : mt_complete (st_metrics s) = false;
  al_clock : (k0 ≤ st_clock s)%nat }.

Definition wanted (names : list string) : list string := filter (λ n, skip n = false) names.
Definition missing (seen : list string) (l : Tensors) : list string := filter (λ n, n ∉ seen) (wanted (od_keys l)).
Definition bytes_of (names : list string) : Z := zsum ((λ n, match od_get n tensors with Some i => ti_bytes i | None => 0 end) <$> names).

(** The log after the streamer's tensors [seen] and the tensors [l] without
    bytes. *)
Record between_tensors (l : Tensors) (s : Streaming) : Prop := {
  bt_always : always s;
  bt_next : l = [] → st_next s = length (st_out s);
  bt_seen : NoDup (st_seen s);
  bt_known n : n ∈ st_seen s → n ∈ od_keys tensors;
  bt_out : (st_out s).*1 = wanted (st_seen s) ++ missing (st_seen s) l;
  bt_tensors : mt_tensors (st_metrics s) = Z.of_nat (length (wanted (st_seen s)));
  bt_empty : mt_empty (st_metrics s) = Z.of_nat (length (missing (st_seen s) l));
  bt_bytes : mt_bytes (st_metrics s) = bytes_of (wanted (st_seen s));
  bt_zero : bytes_of (missing (st_seen s) l) = 0 }.

Lemma wp_finally {S A} (m : M S A) (f : S → S) (Q : res A → S → Prop) s : wp m (λ r s', Q r (f s')) s → wp (finally m f) Q s.
Proof. unfold wp, finally. by destruct (m s). Qed.

Lemma wp_reserve size (Q : res unit → Streaming → Prop) f s : budget_ok (st_budget s) →
  (live (collect f (st_budget s)) + size ≤ limit (st_budget s) → Q (Ok tt) (set_budget (collect f (st_budget s)) s)) →
  Q (Err MemoryError) (set_budget (collect f (st_budget s)) s) →
  wp (in_budget (reserve f size)) Q s.
Proof.
  intros Hb H1 H2. unfold wp, in_budget, reserve. rewrite run_modify, run_get. unfold raise_if.
  destruct (_ <? _) eqn:E; cbn; [done|]. apply H1. cbn in E. apply Z.ltb_ge in E. exact E.
Qed.

Lemma own_spec name t info (Q : res Streamed → Streaming → Prop) s : always s → st_next s = length (st_out s) →
  Z.of_nat (length (sd_data t)) = ti_bytes info → 0 ≤ ti_bytes info →
  (∀ b, budget_ok b → limit b = limit (st_budget s) → charged released b (S (st_next s)) (st_out s ++ [(name, t)]) →
     Q (Ok t) (mkStreaming (st_clock s) (st_env s) b (S (st_next s)) (st_seen s) (st_remaining s) (st_metrics s) (st_out s))) →
  (∀ b, budget_ok b → limit b = limit (st_budget s) → charged released b (st_next s) (st_out s) → Q (Err MemoryError) (set_budget b s)) →
  wp (own released t info) Q s.
Proof.
  intros Hal Hn Hlen Hnn H1 H2. destruct (al_budget _ Hal) as [Hb _].
  pose proof (charged_collect _ _ _ _ (al_charged _ Hal)) as Hch. pose proof (collect_ok (released (st_next s)) _ Hb) as Hb'.
  unfold own. apply wp_bind, wp_get, wp_bind, wp_reserve; [done| |by apply H2]. intros Hle.
  apply wp_bind, wp_modify, wp_bind. unfold wp, in_budget. cbn.
  assert (Hbt : budget_ok (track (st_next s) (Z.of_nat (length (sd_data t))) (collect (released (st_next s)) (st_budget s)))).
  { rewrite Hlen. by apply track_ok. }
  apply H1; [done|done|]. rewrite Hn in Hch, Hbt |- *. by apply (charged_track released _ _ (name, t)).
Qed.

Lemma yield_spec name t (Q : res unit → Streaming → Prop) s :
  (∀ r, r = Ok tt ∨ r = Err GeneratorExit → Q r (set_out (st_out s ++ [(name, t)]) s)) → wp (yield_ leaves name t) Q s.
Proof.
  intros H. unfold yield_. apply wp_bind, wp_get, wp_bind, wp_modify, wp_raise_if. destruct (leaves _); apply H; auto.
Qed.

Lemma count_down_spec file (Q : res unit → Streaming → Prop) s :
  (∀ r t rm, (st_clock s ≤ t)%nat → Q r (mkStreaming t (st_env s) (st_budget s) (st_next s) (st_seen s) rm (st_metrics s) (st_out s))) →
  wp (count_down file) Q s.
Proof.
  intros H. unfold count_down. apply wp_bind, wp_get, wp_bind, wp_lift. destruct (od_get _ _) as [n|]; cbn [res_of_option].
  2: { destruct s. by apply H. }
  apply wp_bind, wp_modify. destruct (_ =? 0); [|by apply wp_ret, H]. unfold drop_cache. cbn. apply wp_bind, wp_get, wp_bind, wp_modify, wp_bind, wp_lift.
  unfold lookup_path. destruct (names _ _); cbn [res_of_option]; [apply wp_ret|]; apply H; cbn; lia.
Qed.

Lemma always_at s s' : always s → st_env s' = st_env s → budget_ok (st_budget s') → limit (st_budget s') = limit (st_budget s) →
  st_out s' = st_out s → charged released (st_budget s') (st_next s') (st_out s') →
  mt_complete (st_metrics s') = mt_complete (st_metrics s) → (st_clock s ≤ st_clock s')%nat → always s'.
Proof. intros [He [Hb Hl] Ho Hn _ Hc Hk] E1 E2 E3 E4 Hch E5 E6. split; rewrite ?E1, ?E4, ?E5; try done; [split; [done|congruence]|by rewrite <- E4|lia]. Qed.

(** The new state differs only in what [always] does not look at. *)
Local Ltac keep_always Hal := eapply (always_at _ _ Hal); cbn; first [done|by apply Hal|lia|congruence].

Lemma wanted_snoc l n : wanted (l ++ [n]) = wanted l ++ (if skip n then [] else [n]).
Proof. unfold wanted. rewrite filter_app. f_equal. rewrite filter_cons. destruct (skip n); done. Qed.
Lemma elem_of_wanted l n : n ∈ wanted l ↔ n ∈ l ∧ skip n = false.
Proof. unfold wanted. rewrite list_elem_of_filter. tauto. Qed.
Lemma missing_snoc seen l x : missing seen (l ++ [x]) = missing seen l ++ (if skip x.1 || bool_decide (x.1 ∈ seen) then [] else [x.1]).
Proof.
  unfold missing, od_keys. rewrite fmap_app. change ([x].*1) with [x.1]. rewrite wanted_snoc, filter_app. f_equal. destruct (skip x.1); [done|]. cbn [orb]. rewrite filter_cons.
  destruct (bool_decide_reflect (x.1 ∈ seen)); [by rewrite decide_False by tauto|by rewrite decide_True].
Qed.
(** One more value, and what became of the budget. *)
Lemma always_out s s' name t info : always s → st_env s' = st_env s → budget_ok (st_budget s') → limit (st_budget s') = limit (st_budget s) →
  charged released (st_budget s') (st_next s') (st_out s') → mt_complete (st_metrics s') = mt_complete (st_metrics s) →
  (st_clock s ≤ st_clock s')%nat → st_out s' = st_out s ++ [(name, t)] →
  od_get name tensors = Some info → sd_shape t = ti_shape info → sd_dtype t = ti_dtype info →
  skip name = false → name ∉ (st_out s).*1 → always s'.
Proof.
  intros [He [Hb Hl] Ho Hn _ Hc Hk] E1 E2 E3 Hch E5 E6 E4 Hg Hsh Hdt Hsk Hni. split; rewrite ?E4; try (congruence || lia || done).
  - split; [done|congruence].
  - intros x [Hx| ->%list_elem_of_singleton]%elem_of_app; [by apply Ho|]. split; [done|]. by exists info.
  - rewrite fmap_app. apply NoDup_app. split_and!; [done| |apply NoDup_singleton]. intros n Hx ->%list_elem_of_singleton. done.
Qed.

Lemma stream_one_ok items x s : known_sizes items → x ∈ items → between_tensors [] s →
  wp (stream_one released leaves skip tensors x) (λ r s', match r with Ok _ => between_tensors [] s' | Err _ => always s' end) s.
Proof.
  destruct x as [name t]. intros [Hsz Hit] Hx [Hal Hnx Hse Hkn Hou Hmt Hme Hmb Hmz]. specialize (Hit _ _ Hx). unfold stream_one.
  apply wp_bind, wp_get. destruct (od_get name tensors) as [info|] eqn:Eg; [|done].
  destruct (Hsz _ _ (od_get_elem _ _ _ Eg)) as [Hok Hnn]. unfold info_ok in Hok.
  apply wp_bind, wp_raise_if. destruct (bool_decide_reflect (name ∈ st_seen s)) as [|Hns]; [done|].
  apply wp_bind, wp_raise_if. destruct (_ || _) eqn:Ec; [done|]. apply orb_false_iff in Ec as [Ec1 Ec2].
  apply negb_false_iff, bool_decide_eq_true in Ec1, Ec2.
  assert (Hlen : Z.of_nat (length (sd_data t)) = ti_bytes info) by (rewrite Hok, Hit; congruence).
  apply wp_bind, wp_modify, wp_bind.
  set (s1 := set_seen (st_seen s ++ [name]) s).
  assert (Hrest : ∀ k rm, (st_clock s ≤ k)%nat → wp
    (s ← get;
     let m := st_metrics s in
     if skip name then modify (set_metrics (mkMetrics (mt_tensors m) (mt_bytes m) (mt_empty m) (mt_skipped m + 1) (mt_complete m) (mt_peak m)))
     else
       output ← own released t info;
       modify (set_metrics (mkMetrics (mt_tensors m + 1) (mt_bytes m + ti_bytes info) (mt_empty m) (mt_skipped m) (mt_complete m) (mt_peak m)));;
       yield_ leaves name output) (λ r s', match r with Ok _ => between_tensors [] s' | Err _ => always s' end)
    (mkStreaming k (st_env s1) (st_budget s1) (st_next s1) (st_seen s1) rm (st_metrics s1) (st_out s1))).
  2: { destruct (ti_bytes info =? 0).
       - apply wp_ret. cbn. destruct s as [k ev b n se rm m o]. by apply (Hrest k rm).
       - eapply wp_mono; [|apply (count_down_spec _ (λ r s', ∃ k rm, (st_clock s ≤ k)%nat ∧ s' = mkStreaming k (st_env s1) (st_budget s1) (st_next s1) (st_seen s1) rm (st_metrics s1) (st_out s1)))].
         + intros [[]|e] s' (k&rm&Hk&->); [by apply Hrest|]. keep_always Hal.
         + intros r k rm Hk. by exists k, rm. }
  intros k rm Hk. apply wp_bind, wp_get. cbn zeta.
  assert (Hseen : NoDup (st_seen s ++ [name])).
  { apply NoDup_app. split_and!; [done| |apply NoDup_singleton]. intros n Hn ->%list_elem_of_singleton. done. }
  assert (Hknown : ∀ n, n ∈ st_seen s ++ [name] → n ∈ od_keys tensors).
  { intros n [Hn| ->%list_elem_of_singleton]%elem_of_app; [by apply Hkn|by eapply od_get_Some_key]. }
  rewrite app_nil_r in Hou.
  destruct (skip name) eqn:Esk.
  - apply wp_modify. split; cbn; try done; rewrite ?wanted_snoc, ?Esk, ?app_nil_r; try done. keep_always Hal.
  - apply wp_bind, (own_spec name); cbn; [keep_always Hal|by apply Hnx|done|done| |].
    2: { intros b Hb Hl Hch. eapply (always_at _ _ Hal); cbn; done || lia. }
    intros b Hb Hl Hch. apply wp_bind, wp_modify, yield_spec. cbn. intros r Hr.
    assert (Hno : name ∉ (st_out s).*1) by (rewrite Hou; intros [Hx' _]%elem_of_wanted; done).
    assert (Hal' : always (mkStreaming k (st_env s) b (S (st_next s)) (st_seen s ++ [name]) rm
      (mkMetrics (mt_tensors (st_metrics s) + 1) (mt_bytes (st_metrics s) + ti_bytes info) (mt_empty (st_metrics s)) (mt_skipped (st_metrics s))
        (mt_complete (st_metrics s)) (mt_peak (st_metrics s))) (st_out s ++ [(name, t)]))).
    { eapply (always_out s _ name t info Hal); cbn; done || lia. }
    destruct Hr as [-> | ->]; [|exact Hal']. split; cbn; try done; rewrite ?wanted_snoc, ?Esk, ?app_nil_r.
    + intros _. rewrite length_app, Hnx by done. cbn. lia.
    + rewrite fmap_app, Hou. done.
    + rewrite length_app, Hmt. cbn. lia.
    + unfold bytes_of in *. rewrite fmap_app, zsum_app, Hmb. cbn. rewrite Eg. lia.
Qed.

Lemma fill_missing_ok l x l2 s : (∀ name info, (name, info) ∈ tensors → info_ok info ∧ 0 ≤ ti_bytes info) →
  NoDup (od_keys tensors) → tensors = l ++ x :: l2 → between_tensors l s →
  wp (fill_missing leaves skip x) (λ r s', match r with Ok _ => between_tensors (l ++ [x]) s' | Err _ => always s' end) s.
Proof.
  destruct x as [name info]. intros Hsz Hnd Hl [Hal _ Hse Hkn Hou Hmt Hme Hmb Hmz]. unfold fill_missing. apply wp_bind, wp_get.
  destruct (bool_decide_reflect (name ∈ st_seen s)) as [Hin|Hns].
  { apply wp_ret. split; try done; [by intros [_ [=]]%app_nil|..]; rewrite missing_snoc; cbn [fst]; rewrite (bool_decide_eq_true_2 _ Hin), orb_true_r, app_nil_r; done. }
  apply wp_bind, wp_raise_if. destruct (_ =? 0) eqn:Ez; cbn; [|done]. apply Z.eqb_eq in Ez.
  destruct (skip name) eqn:Esk.
  { apply wp_ret. split; try done; [by intros [_ [=]]%app_nil|..]; rewrite missing_snoc; cbn [fst]; rewrite Esk, app_nil_r; done. }
  assert (Hg : od_get name tensors = Some info) by (apply od_elem_get; [done|rewrite Hl; set_solver]).
  assert (Hnl : name ∉ od_keys l).
  { rewrite Hl in Hnd. unfold od_keys in Hnd. rewrite fmap_app in Hnd. apply NoDup_app in Hnd as (_&Hd&_). intros Hx. apply (Hd name Hx). cbn. by left. }
  assert (Hno : name ∉ (st_out s).*1).
  { rewrite Hou. intros [[Hx _]%elem_of_wanted|[_ [Hx _]%elem_of_wanted]%list_elem_of_filter]%elem_of_app; done. }
  apply wp_bind, yield_spec. intros r Hr.
  assert (Hal' : always (set_out (st_out s ++ [(name, mkStreamed (ti_shape info) (ti_dtype info) [])]) s)).
  { eapply (always_out s _ name _ info Hal); cbn; try done; [apply Hal|by apply charged_empty; [apply Hal|]]. }
  destruct Hr as [-> | ->]; [|exact Hal']. apply wp_bind, wp_get, wp_modify.
  assert (Hm : missing (st_seen s) (l ++ [(name, info)]) = missing (st_seen s) l ++ [name]).
  { rewrite missing_snoc. cbn [fst]. by rewrite Esk, (bool_decide_eq_false_2 _ Hns). }
  split; cbn [st_seen st_out st_metrics set_metrics set_out mt_tensors mt_empty mt_bytes]; try done.
  - keep_always Hal'.
  - by intros [_ [=]]%app_nil.
  - rewrite Hm, fmap_app, Hou, app_assoc. done.
  - rewrite Hm, length_app, Hme. cbn. lia.
  - rewrite Hm. unfold bytes_of in *. rewrite fmap_app, zsum_app, Hmz. cbn. rewrite Hg. lia.
Qed.

Lemma check_stamp_ok l x s : between_tensors l s →
  wp (check_stamp x) (λ r s', match r with Ok _ => between_tensors l s' ∧ stamp (st_clock s) x.1 = Ok x.2 ∧ (st_clock s < st_clock s')%nat | Err _ => always s' end) s.
Proof.
  intros [Hal Hnx Hse Hkn Hou Hmt Hme Hmb Hmz]. unfold check_stamp. apply wp_bind, wp_get, wp_bind, wp_modify, wp_bind, wp_lift.
  assert (Hal' : always (later s)) by keep_always Hal. cbn [later st_clock].
  destruct (stamp _ _) as [now|e]; [|done]. apply wp_raise_if. destruct (bool_decide_reflect (now = x.2)) as [->|]; cbn; [|done].
  split; [by split|]. split; [done|lia].
Qed.

(** What is left when the body ends: everything it wanted, or an exception. *)
Definition body_ends (r : res unit) (s : Streaming) : Prop :=
  match r with
  | Err _ => always s
  | Ok _ =>
    (∃ m, always (set_metrics m s)) ∧ mt_complete (st_metrics s) = true ∧ (st_out s).*1 ≡ₚ wanted (od_keys tensors) ∧
    mt_tensors (st_metrics s) + mt_empty (st_metrics s) = Z.of_nat (length (st_out s)) ∧
    mt_bytes (st_metrics s) = bytes_of (wanted (od_keys tensors)) ∧
    ∀ path st, (path, st) ∈ stamps → ∃ u, (k0 ≤ u)%nat ∧ stamp u path = Ok st
  end.

Lemma bytes_of_perm l1 l2 : l1 ≡ₚ l2 → bytes_of l1 = bytes_of l2.
Proof. unfold bytes_of, zsum. induction 1; cbn in *; lia. Qed.
Lemma all_wanted seen : NoDup (od_keys tensors) → NoDup seen → (∀ n, n ∈ seen → n ∈ od_keys tensors) →
  wanted seen ++ missing seen tensors ≡ₚ wanted (od_keys tensors).
Proof.
  intros Hk Hs Hin. apply NoDup_Permutation.
  - apply NoDup_app. split_and!; [by apply NoDup_filter| |by apply NoDup_filter, NoDup_filter].
    intros n [Hn _]%elem_of_wanted [Hn' _]%list_elem_of_filter. done.
  - by apply NoDup_filter.
  - intros n. rewrite elem_of_app. unfold missing. rewrite list_elem_of_filter, !elem_of_wanted.
    destruct (decide (n ∈ seen)); naive_solver.
Qed.

Lemma stream_body_ok keys source s : known_sizes (src_items source) → NoDup (od_keys tensors) →
  between_tensors [] (set_env env s) → env = update_env keys (st_env s) →
  wp (stream_body released leaves skip (tensors, stamps, id) keys source) body_ends s.
Proof.
  intros Hsz Hnd Hbt Henv. unfold stream_body. apply wp_bind, wp_get, wp_bind, wp_modify. rewrite <- Henv.
  apply wp_bind, wp_lift. destruct (src_open source) as [|e]; [|apply Hbt].
  apply wp_bind. eapply (wp_for_each (λ _ _ s, between_tensors [] s)); [|clear s Hbt Henv; intros s Hbt|exact Hbt].
  { intros l1 x l2 s' Hl Hs'. eapply wp_mono; [|eapply stream_one_ok; [exact Hsz|rewrite Hl; set_solver|exact Hs']]. by intros [[]|e] s2. }
  apply wp_bind. destruct (src_end source) as [e|]; [apply Hbt|]. apply wp_ret.
  apply wp_bind. eapply (wp_for_each (λ l1 _ s, between_tensors l1 s)); [|clear s Hbt; intros s Hbt|exact Hbt].
  { intros l1 x l2 s' Hl Hs'. eapply fill_missing_ok; [apply Hsz|done|exact Hl|exact Hs']. }
  apply wp_bind. eapply (wp_for_each (λ l1 _ s, between_tensors tensors s ∧ ∀ path st, (path, st) ∈ l1 → ∃ u, (k0 ≤ u)%nat ∧ stamp u path = Ok st)).
  - intros l1 [p st] l2 s' _ [Hs' Hl1]. eapply wp_mono; [|by apply (check_stamp_ok tensors)]. intros [[]|e] s2; [|done].
    intros (Hs2&Hst&_). split; [done|]. intros p' st' [Hin|[= -> ->]%list_elem_of_singleton]%elem_of_app; [by apply Hl1|].
    eexists. split; [apply Hs'|exact Hst].
  - clear s Hbt. intros s [[Hal _ Hse Hkn Hou Hmt Hme Hmb Hmz] Hst]. apply wp_bind, wp_get, wp_modify. unfold body_ends. cbn.
    pose proof (all_wanted _ Hnd Hse Hkn) as Hp. split_and!; try done.
    + exists (st_metrics s). keep_always Hal.
    + by rewrite Hou.
    + rewrite Hmt, Hme. apply (f_equal length) in Hou. rewrite length_fmap, length_app in Hou. lia.
    + rewrite Hmb. rewrite <- (bytes_of_perm _ _ Hp). unfold bytes_of in *. rewrite fmap_app, zsum_app, Hmz. lia.
  - split; [exact Hbt|]. by intros ?? ?%not_elem_of_nil.
Qed.
End streaming.

Lemma update_lookup keys env k : k ∉ keys.*1 → update_env keys env !! k = env !! k.
Proof.
  unfold update_env. revert env. induction keys as [|x keys IH]; intros env Hk; [done|]. cbn in *. apply not_elem_of_cons in Hk as [Hne Hk].
  rewrite IH by done. by apply lookup_insert_ne.
Qed.
Lemma restore_lookup (env0 : gmap string string) (keys : list (string * string)) env k :
  restore_env ((λ x : string * string, (x.1, env0 !! x.1)) <$> keys) env !! k = if decide (k ∈ keys.*1) then env0 !! k else env !! k.
Proof.
  unfold restore_env. revert env. induction keys as [|x keys IH]; intros env; [done|]. rewrite fmap_cons. cbn [foldl fst snd]. rewrite IH, fmap_cons.
  destruct (decide (k ∈ keys.*1)) as [Hin|Hni]; [rewrite decide_True by (by right); done|].
  destruct (decide (k = x.1)) as [->|Hne].
  - rewrite decide_True by (by left). destruct (env0 !! x.1); [by rewrite lookup_insert, decide_True|by rewrite lookup_delete, decide_True].
  - rewrite decide_False by (intros [?|?]%elem_of_cons; done). destruct (env0 !! x.1); [by rewrite lookup_insert_ne|by rewrite lookup_delete_ne].
Qed.
Lemma env_restored keys env0 :
  restore_env ((λ x : string * string, (x.1, env0 !! x.1)) <$> keys) (update_env keys env0) = env0.
Proof.
  apply map_eq. intros k. rewrite restore_lookup. destruct (decide _) as [|Hn]; [done|]. by apply update_lookup.
Qed.

(** What is left when the stream ends with [r]. *)
Record stream_promise {D : Disk} (released : nat → nat → bool) (skip : string → bool) (tensors : Tensors) (stamps : Stamps) (owned_limit : Z) (t : nat) (env : gmap string string)
    (r : res unit) (s : Streaming) : Prop := {
  sp_env : st_env s = env;
  sp_held n : held_bytes released (st_out s) n ≤ mt_peak (st_metrics s);
  sp_budget : mt_peak (st_metrics s) ≤ Z.max 0 owned_limit;
  sp_yielded x : x ∈ st_out s → yielded_ok skip tensors x;
  sp_once : NoDup (st_out s).*1;
  sp_complete : mt_complete (st_metrics s) = is_ok r;
  sp_all : r = Ok tt → (st_out s).*1 ≡ₚ wanted skip (od_keys tensors);
  sp_bytes : r = Ok tt → mt_bytes (st_metrics s) = bytes_of tensors (wanted skip (od_keys tensors));
  sp_stamps path st : r = Ok tt → (path, st) ∈ stamps → ∃ u, (t ≤ u)%nat ∧ stamp u path = Ok st }.

(** C25: Streaming a checkpoint, whatever the streamer yields (tensors as
    large as their type and shape say) and wherever the consumer leaves, for
    metadata with distinct names and the sizes that types and shapes need: the
    process environment is restored; the bytes of the yielded tensors whose
    storage the model had not released, at every request for a storage and
    until the next one, are within the peak the metrics report, and that
    within the byte budget; and only tensors of the
    checkpoint, with their types and shapes, are yielded, each at most once.
    The stream is marked complete exactly when it returns, and then it has
    yielded every wanted tensor, counted their bytes, and found each file's
    stamp as the inspection recorded it. *)
Theorem stream_weights_complete {D : Disk} {L : TensorLib} released leaves skip (m : Metadata) concurrency memory_limit owned_limit device source
    (t : nat) (env : gmap string string) r s :
  NoDup (od_keys m.1.1) → known_sizes m.1.1 (src_items source) →
  stream_weights released leaves skip m concurrency memory_limit owned_limit device source (streaming0 t env) = (r, s) →
  stream_promise released skip m.1.1 m.1.2 owned_limit t env r s.
Proof.
  destruct m as [[tensors stamps] ident]. cbn [fst snd]. intros Hnd Hsz E.
  enough (Hwp : wp (stream_weights released leaves skip (tensors, stamps, ident) concurrency memory_limit owned_limit device source)
    (stream_promise released skip tensors stamps owned_limit t env) (streaming0 t env)) by (unfold wp in Hwp; by rewrite E in Hwp).
  assert (Hearly : ∀ e, stream_promise released skip tensors stamps owned_limit t env (Err e) (streaming0 t env)).
  { intros e. split; cbn; [done|done|lia|by intros ? ?%not_elem_of_nil|apply NoDup_nil_2|done..]. }
  unfold stream_weights. apply wp_bind, wp_raise_if. destruct (_ || _) eqn:Earg; [apply Hearly|]. apply orb_false_iff in Earg as [_ Ho].
  apply Z.leb_gt in Ho. apply wp_bind, wp_raise_if. destruct (negb _); [apply Hearly|].
  apply wp_bind, wp_lift. destruct (zmax _) as [largest|e]; [|apply Hearly].
  apply wp_bind, wp_raise_if. destruct (_ || _); [apply Hearly|].
  apply wp_bind, wp_get, wp_bind, wp_modify, wp_finally. cbn [streaming0 st_env st_clock st_next].
  set (keys := stream_keys concurrency memory_limit).
  eapply wp_mono; [|eapply (stream_body_ok _ _ _ tensors stamps ident owned_limit (update_env keys env) t keys source); [exact Hsz|done| |done]].
  2: { split; cbn; try done; [|apply NoDup_nil_2|by intros ? ?%not_elem_of_nil]. split; cbn; try done; [|by intros ? ?%not_elem_of_nil|apply NoDup_nil_2|].
       - split; [apply new_budget_ok; lia|done].
       - split; [done|exists (λ _, true); split; [done|lia]|done]. }
  intros r1 s1 Hend. cbn.
  assert (∃ m, always released skip tensors owned_limit (update_env keys env) t (set_metrics m s1)) as [m [He [[Hb1 Hb2 Hb3] Hl] Hou Hn [_ _ Hheld] Hc Hk]].
  { destruct r1 as [[]|e]; [apply Hend|]. exists (st_metrics s1). by destruct s1. }
  cbn in *. split; cbn; [rewrite He; exact (env_restored keys env)|exact Hheld|lia|exact Hou|exact Hn|..]; destruct r1 as [[]|e]; try done; cbn in Hend.
  - apply Hend.
  - apply Hend.
  - intros _. apply Hend.
  - intros _. apply Hend.
  - intros path st _. apply Hend.
Qed.

(** * A concrete checkpoint *)

Definition sample_file : list byte := le_bytes 8 2 ++ [Byte.x7b; Byte.x7d] ++ [Byte.x01; Byte.x02; Byte.x03].
#[export] Instance sample_disk : Disk := mkDisk (λ _ p, if String.eqb p "/m/a.safetensors" then Some 7 else None) (λ _ _, mkInode 1 10 10 sample_file).
#[export] Instance sample_tensor_lib : TensorLib := mkTensorLib (λ _, true) (λ _, 1)
  (λ _, Ok (mkSafe ["('format', 'pt')"] [("a", ("U8", [3])); ("e", ("U8", [0]))])) (λ _, Ok [("a", [0; 3]); ("e", [3; 3])]) (λ _, "h") (λ _, "d").
Definition sample_metadata : Metadata :=
  ([("a", mkInfo "a" [3] "uint8" 3 "/m/a.safetensors" 10); ("e", mkInfo "e" [0] "uint8" 0 "/m/a.safetensors" 13)],
   [("/m/a.safetensors", mkStamp 1 7 13 10 10)], "d").
Lemma sample_inspected : checkpoint_metadata "/m" ["a.safetensors"] 0%nat = (Ok sample_metadata, 6%nat).
Proof. vm_compute. reflexivity. Qed.
Definition sample_source : Source := mkSource (Ok tt) [("a", mkStreamed [3] "uint8" [Byte.x01; Byte.x02; Byte.x03])] None.
Definition sample_streamed : res unit * Streaming :=
  stream_weights (λ _ _, false) (λ _, false) (λ _, false) sample_metadata 32 1000 1000 "cpu" sample_source (streaming0 6 ∅).
Lemma stream_weights_complete_witness :
  sample_streamed.1 = Ok tt ∧ (st_out sample_streamed.2).*1 ≡ₚ ["a"; "e"] ∧ mt_bytes (st_metrics sample_streamed.2) = 3 ∧
  held_bytes (λ _ _, false) (st_out sample_streamed.2) 1 = 3 ∧ 3 ≤ mt_peak (st_metrics sample_streamed.2) ≤ 1000.
Proof.
  assert (E : sample_streamed.1 = Ok tt) by (vm_compute; reflexivity). split; [exact E|].
  destruct (stream_weights_complete (λ _ _, false) (λ _, false) (λ _, false) sample_metadata 32 1000 1000 "cpu" sample_source 6 ∅
    sample_streamed.1 sample_streamed.2) as [_ Hh Hl _ _ _ Hp Hb _].
  - apply (bool_decide_eq_true_1 _). vm_compute. reflexivity.
  - split.
    + intros name info Hin. cbn in Hin. rewrite !elem_of_cons in Hin. destruct Hin as [[= -> ->]|[[= -> ->]|?%not_elem_of_nil]]; [split; done|split; done|done].
    + intros name x Hin. cbn in Hin. apply list_elem_of_singleton in Hin as [= -> ->]. done.
  - vm_compute. reflexivity.
  - split; [exact (Hp E)|]. split; [exact (Hb E)|]. assert (H3 : held_bytes (λ _ _, false) (st_out sample_streamed.2) 1 = 3) by (vm_compute; reflexivity).
    split; [exact H3|]. specialize (Hh 1%nat). rewrite H3 in Hh. split; [exact Hh|exact Hl].
Defined.
