(* ===== verification/NvmeCoalesced.v ===== *)
(** Coalesced reading of original checkpoints:
    src/runtime/nvme_loader/spark_nvme/coalesced.py.  Batches of tensors are
    read in tiles through two host buffers by concurrent aligned reads, and
    uploaded asynchronously; the events of the uploads guard the buffers and
    the consumer.  The reads of a tile run in an order the environment
    chooses; the copy engine runs as many of the enqueued uploads as the
    environment chooses before every system call. *)
From S2P Require Import Prelude PyDict Bytes File NvmeTransport NvmeArtifact NvmePrefetch NvmeCheckpoint.
From stdpp Require Import base list gmap sets strings.
From Stdlib Require Import ZArith Lia.
#[local] Open Scope string_scope.
#[local] Open Scope list_scope.
#[local] Open Scope Z_scope.

(** * Planning *)

Abbreviation row := (string * TensorInfo)%type.
Record Batch := mkBatch { b_file : string; b_start : Z; b_end : Z; b_tensors : list row }.
(** [Batch.bytes] *)
Definition b_bytes (b : Batch) : Z := b_end b - b_start b.

(** The insertion sort that [rows.sort(key=...)] is, as a stable sort. *)
Fixpoint insert_row (x : row) (rows : list row) : list row :=
  match rows with
  | [] => [x]
  | y :: rows => if ti_offset y.2 <=? ti_offset x.2 then y :: insert_row x rows else x :: y :: rows
  end.
Definition sort_rows (rows : list row) : list row := foldl (λ acc x, insert_row x acc) [] rows.

(** The loop over the rows of one file: [current], [start], [end], [batches]. *)
Record Planning := mkPlanning { pl_current : list row; pl_start : Z; pl_end : Z; pl_batches : list Batch }.
Definition flush (path : string) (p : Planning) : Planning :=
  match pl_current p with
  | [] => p
  | cur => mkPlanning [] (pl_start p) (pl_end p) (pl_batches p ++ [mkBatch path (pl_start p) (pl_end p) cur])
  end.
Definition is_nil {A} (l : list A) : bool := match l with [] => true | _ => false end.
Definition plan_row (path : string) (size batch_bytes : Z) (p : Planning) (x : row) : res Planning :=
  let off := ti_offset x.2 in
  let n := ti_bytes x.2 in
  if negb ((0 <=? off) && (off <? off + n) && (off + n <=? size)) then Err ValueError
  else if negb (is_nil (pl_current p)) && (off <? pl_end p) then Err ValueError
  else
    let p := if negb (is_nil (pl_current p)) && (batch_bytes <? off + n - pl_start p) then flush path p else p in
    let start := if is_nil (pl_current p) then off / ALIGN * ALIGN else pl_start p in
    Ok (mkPlanning (pl_current p ++ [x]) start (off + n) (pl_batches p)).
Fixpoint plan_rows (path : string) (size batch_bytes : Z) (p : Planning) (rows : list row) : res Planning :=
  match rows with [] => Ok p | x :: rows => p ← plan_row path size batch_bytes p x; plan_rows path size batch_bytes p rows end.
Definition plan_file (stamps : Stamps) (batch_bytes : Z) (batches : list Batch) (x : string * list row) : res (list Batch) :=
  let '(path, rows) := x in
  s ← res_of_option KeyError (od_get path stamps);
  p ← plan_rows path (st_size s) batch_bytes (mkPlanning [] 0 0 batches) (sort_rows rows);
  Ok (pl_batches (flush path p)).
Fixpoint plan_files (stamps : Stamps) (batch_bytes : Z) (batches : list Batch) (files : odict string (list row)) : res (list Batch) :=
  match files with [] => Ok batches | x :: files => batches ← plan_file stamps batch_bytes batches x; plan_files stamps batch_bytes batches files end.

Section coalesced.
Context {D : Disk} {L : TensorLib}.
(** [torch.empty]: some bytes. *)
Context (garbage : nat → list byte).

(** [by_file] *)
Fixpoint group_rows (by_file : odict string (list row)) (tensors : Tensors) : res (odict string (list row)) :=
  match tensors with
  | [] => Ok by_file
  | (name, info) :: tensors =>
    if ti_bytes info =? 0 then group_rows by_file tensors
    else if negb (ti_offset info mod element_size (ti_dtype info) =? 0) then Err UnsupportedStream
    else
      rows ← res_of_option KeyError (od_get (ti_file info) by_file);
      group_rows (od_set (ti_file info) (rows ++ [(name, info)]) by_file) tensors
  end.
Definition plan_batches (tensors : Tensors) (stamps : Stamps) (batch_bytes : Z) : res (list Batch) :=
  if (batch_bytes <? ALIGN) || negb (batch_bytes mod ALIGN =? 0) then Err ValueError else
  by_file ← group_rows ((λ p, (p, [])) <$> od_keys stamps) tensors;
  plan_files stamps batch_bytes [] by_file.

(** * Reading *)

(** A host tile with the event of its last upload; an enqueued upload; a
    [preadv] that was made. Events and outputs are numbered. *)
Record Slot := mkSlot { sl_view : list byte; sl_event : option nat }.
Record Upload := mkUpload { up_slot : nat; up_length : nat; up_output : nat; up_position : nat }.
Record Call := mkCall { ca_direct : bool; ca_offset : Z; ca_position : nat; ca_length : nat }.

(** [RangeReader] with the device: [rr_uploads] are enqueued, [rr_done] counts
    those that ran. [rr_calls] is bookkeeping; the last fields are what the
    environment does next. *)
Record RangeReader := mkReader {
  rr_tile : Z; rr_concurrency : Z; rr_direct : bool; rr_cuda : bool;
  rr_fd : option Z; rr_path : option string; rr_next_slot : nat;
  rr_slots : list Slot; rr_uploads : list Upload; rr_done : nat; rr_outputs : gmap nat (list byte); rr_calls : list Call;
  rr_clock : nat; rr_kern : list sys; rr_engine : list nat; rr_picks : list nat }.
Definition set_file (fd : option Z) (path : option string) (r : RangeReader) : RangeReader :=
  mkReader (rr_tile r) (rr_concurrency r) (rr_direct r) (rr_cuda r) fd path (rr_next_slot r) (rr_slots r) (rr_uploads r) (rr_done r)
    (rr_outputs r) (rr_calls r) (rr_clock r) (rr_kern r) (rr_engine r) (rr_picks r).
Definition set_device (slots : list Slot) (uploads : list Upload) (done : nat) (outputs : gmap nat (list byte)) (r : RangeReader) : RangeReader :=
  mkReader (rr_tile r) (rr_concurrency r) (rr_direct r) (rr_cuda r) (rr_fd r) (rr_path r) (rr_next_slot r) slots uploads done
    outputs (rr_calls r) (rr_clock r) (rr_kern r) (rr_engine r) (rr_picks r).
Definition set_env (clock : nat) (kern : list sys) (engine picks : list nat) (r : RangeReader) : RangeReader :=
  mkReader (rr_tile r) (rr_concurrency r) (rr_direct r) (rr_cuda r) (rr_fd r) (rr_path r) (rr_next_slot r) (rr_slots r) (rr_uploads r) (rr_done r)
    (rr_outputs r) (rr_calls r) clock kern engine picks.
Definition take_slot (r : RangeReader) : RangeReader :=
  mkReader (rr_tile r) (rr_concurrency r) (rr_direct r) (rr_cuda r) (rr_fd r) (rr_path r) (S (rr_next_slot r)) (rr_slots r) (rr_uploads r) (rr_done r)
    (rr_outputs r) (rr_calls r) (rr_clock r) (rr_kern r) (rr_engine r) (rr_picks r).
Definition log_call (c : Call) (r : RangeReader) : RangeReader :=
  mkReader (rr_tile r) (rr_concurrency r) (rr_direct r) (rr_cuda r) (rr_fd r) (rr_path r) (rr_next_slot r) (rr_slots r) (rr_uploads r) (rr_done r)
    (rr_outputs r) (rr_calls r ++ [c]) (rr_clock r) (rr_kern r) (rr_engine r) (rr_picks r).

Definition view_of (slots : list Slot) (k : nat) : list byte := match slots !! k with Some s => sl_view s | None => [] end.
(** The copy of one upload, and the engine running the next [n]. *)
Definition apply_upload (slots : list Slot) (u : Upload) (outputs : gmap nat (list byte)) : gmap nat (list byte) :=
  alter (λ o, file_write o (up_position u) (take (up_length u) (view_of slots (up_slot u)))) (up_output u) outputs.
Definition run_upload (r : RangeReader) : RangeReader :=
  match rr_uploads r with
  | [] => r
  | u :: us => set_device (rr_slots r) us (S (rr_done r)) (apply_upload (rr_slots r) u (rr_outputs r)) r
  end.
Definition run_uploads (n : nat) (r : RangeReader) : RangeReader := Nat.iter n run_upload r.
(** [event.synchronize()], [stream.synchronize()] *)
Definition synchronize (event : nat) (r : RangeReader) : RangeReader := run_uploads (S event - rr_done r) r.
Definition synchronize_stream (r : RangeReader) : RangeReader := run_uploads (length (rr_uploads r)) r.

(** The environment's turn before a system call, and the call's time. *)
Definition system_call : M RangeReader nat := λ r,
  let r := run_uploads (List.hd 0%nat (rr_engine r)) r in
  (Ok (rr_clock r), set_env (S (rr_clock r)) (rr_kern r) (List.tl (rr_engine r)) (rr_picks r) r).
(** Whether the next [os.open] succeeds. *)
Definition open_ok : M RangeReader unit := λ r,
  match rr_kern r with
  | Fail :: k => (Err OSError, set_env (rr_clock r) k (rr_engine r) (rr_picks r) r)
  | _ :: k => (Ok tt, set_env (rr_clock r) k (rr_engine r) (rr_picks r) r)
  | [] => (Ok tt, r)
  end.

(** [os.preadv(fd, [view[position:position + want]], offset)] *)
Definition preadv (direct : bool) (slot position want : nat) (offset : Z) : M RangeReader nat :=
  t ← system_call;
  modify (log_call (mkCall direct offset position want));;
  r ← get;
  ino ← lift (res_of_option TypeError (rr_fd r));
  let avail := file_read (in_data (inodes t ino)) (Z.to_nat offset) want in
  let '(moved, kern) := xfer (rr_kern r) (length avail) in
  modify (λ r, set_env (rr_clock r) kern (rr_engine r) (rr_picks r) r);;
  match moved with
  | None => raise OSError
  | Some m =>
    modify (λ r, set_device (alter (λ s, mkSlot (file_write (sl_view s) position (take m avail)) (sl_event s)) slot (rr_slots r))
                   (rr_uploads r) (rr_done r) (rr_outputs r) r);;
    mret m
  end.

(** [read_aligned(fd, view[position:position + len], offset, required)]: after
    a short direct read the rest is read through a descriptor without
    [O_DIRECT]. *)
Fixpoint read_aligned (fuel : nat) (direct buffered : bool) (slot position len : nat) (offset : Z) (required done : nat) : M RangeReader nat :=
  if bool_decide (done < required)%nat then
    match fuel with
    | O => raise OutOfFuel
    | S fuel =>
      n ← preadv (direct && negb buffered) slot (position + done) (len - done) (offset + Z.of_nat done);
      if bool_decide (n = 0)%nat then raise EOFError else
      let done := (done + n)%nat in
      let again := bool_decide (done < required)%nat && direct && negb buffered in
      (if again then system_call;; open_ok else mret tt);;
      read_aligned fuel direct (buffered || again) slot position len offset required done
    end
  else mret done.

(** [RangeReader.__init__] *)
Definition open_reader (cuda : bool) (memory_limit concurrency tile_bytes : Z) (direct : bool) (r : RangeReader) : res RangeReader :=
  if negb ((1 <=? concurrency) && (concurrency <=? 128)) then Err ValueError else
  let tile := Z.min tile_bytes ((memory_limit / 2 - ALIGN) / ALIGN * ALIGN) in
  if tile <? ALIGN then Err ValueError else
  Ok (mkReader tile concurrency direct cuda None None 0 [mkSlot (garbage (Z.to_nat tile)) None; mkSlot (garbage (Z.to_nat tile)) None]
        (rr_uploads r) (rr_done r) (rr_outputs r) (rr_calls r) (rr_clock r) (rr_kern r) (rr_engine r) (rr_picks r)).

(** [read(slot, offset, length)] with the [source_offset] of the tile. *)
Definition read (slot : nat) (source_offset : Z) (offset length_ : Z) : M RangeReader nat :=
  r ← get;
  let len := Z.to_nat (Z.min (align length_) (rr_tile r - offset)) in
  read_aligned (Z.to_nat length_) (rr_direct r) false slot (Z.to_nat offset) len (source_offset + offset) (Z.to_nat length_) 0.

(** [try: ... except BaseException as exc: ...], whose outcome is kept. *)
Definition outcome {S A} (m : M S A) : M S (res A) := λ s, let '(r, s) := m s in (Ok r, s).
(** The environment picks which of [n] waiting reads runs next. *)
Definition next_pick (n : nat) : M RangeReader nat := λ r,
  (Ok (List.hd 0%nat (rr_picks r) mod n)%nat, set_env (rr_clock r) (rr_kern r) (rr_engine r) (List.tl (rr_picks r)) r).
Fixpoint run_jobs (n : nat) (slot : nat) (source_offset : Z) (jobs : list (nat * Z * Z)) (results : list (nat * res nat)) :
    M RangeReader (list (nat * res nat)) :=
  match n with
  | O => mret results
  | S n =>
    i ← next_pick (length jobs);
    match jobs !! i with
    | None => mret results
    | Some (j, offset, len) =>
      x ← outcome (read slot source_offset offset len);
      run_jobs n slot source_offset (delete i jobs) (results ++ [(j, x)])
    end
  end.
(** The error of the first future, in the order they were submitted. *)
Definition first_error (n : nat) (results : list (nat * res nat)) : option exn :=
  head (omap (λ j, match snd <$> list_find (λ x : nat * res nat, x.1 = j) results with Some (_, Err e) => Some e | _ => None end) (seq 0 n)).

(** The reads of one tile. *)
Definition quantum (length_ concurrency : Z) : Z := Z.max ALIGN (align ((length_ + concurrency - 1) / concurrency)).
Definition tile_jobs (length_ concurrency : Z) : list (nat * Z * Z) :=
  let q := quantum length_ concurrency in
  imap (λ j (offset : nat), (j, Z.of_nat offset, Z.min q (length_ - Z.of_nat offset))) (range_step (Z.to_nat length_) (Z.to_nat q)).

(** One tile of [fill]: the fence, the reads, the upload. *)
Definition fill_tile (b : Batch) (output : nat) (position : nat) : M RangeReader (option nat) :=
  r ← get;
  let slot := (rr_next_slot r mod 2)%nat in
  modify take_slot;;
  match rr_slots r !! slot with
  | Some (mkSlot _ (Some event)) => modify (synchronize event)
  | _ => mret tt
  end;;
  let len := Z.min (rr_tile r) (b_bytes b - Z.of_nat position) in
  let jobs := tile_jobs len (rr_concurrency r) in
  results ← run_jobs (length jobs) slot (b_start b + Z.of_nat position) jobs [];
  match first_error (length jobs) results with
  | Some e => raise e
  | None =>
    r ← get;
    let u := mkUpload slot (Z.to_nat len) output position in
    if rr_cuda r then
      let event := (rr_done r + length (rr_uploads r))%nat in
      modify (λ r, set_device (alter (λ s, mkSlot (sl_view s) (Some event)) slot (rr_slots r)) (rr_uploads r ++ [u]) (rr_done r) (rr_outputs r) r);;
      mret (Some event)
    else
      modify (λ r, set_device (rr_slots r) (rr_uploads r) (rr_done r) (apply_upload (rr_slots r) u (rr_outputs r)) r);;
      mret None
  end.
Fixpoint fill_tiles (b : Batch) (output : nat) (positions : list nat) (final_event : option nat) : M RangeReader (option nat) :=
  match positions with
  | [] => mret final_event
  | position :: positions =>
    event ← fill_tile b output position;
    fill_tiles b output positions (match event with Some e => Some e | None => final_event end)
  end.
Definition open_source (path : string) : M RangeReader unit :=
  r ← get;
  if bool_decide (rr_path r = Some path) then mret tt else
  modify (set_file None (rr_path r));;
  t ← system_call;
  open_ok;;
  ino ← lift (lookup_path t path);
  modify (set_file (Some ino) (Some path)).
(** [fill] *)
Definition fill (b : Batch) (output : nat) : M RangeReader (option nat) :=
  open_source (b_file b);;
  r ← get;
  fill_tiles b output (range_step (Z.to_nat (b_bytes b)) (Z.to_nat (rr_tile r))) None.
(** [close] *)
Definition close_reader (r : RangeReader) : RangeReader :=
  let r := if rr_cuda r then synchronize_stream r else r in set_file None (rr_path r) r.

(** * The stream of batches *)

(** The generator [produce]: before its first [next], running, ended. *)
Inductive Phase := Unstarted | Running | Shut.
(** What does not change: the arguments of [coalesced_weights]. *)
Record Settings := mkSettings {
  se_cuda : bool; se_memory : Z; se_concurrency : Z; se_batch_bytes : Z; se_direct : bool; se_stamps : Stamps }.
(** [pr_next] numbers the outputs that are allocated. *)
Record Producer := mkProducer {
  pr_reader : RangeReader; pr_phase : Phase; pr_budget : OwnedStorageBudget; pr_next : nat; pr_todo : list Batch }.
Definition with_reader (r : RangeReader) (p : Producer) : Producer := mkProducer r (pr_phase p) (pr_budget p) (pr_next p) (pr_todo p).
Definition with_phase (ph : Phase) (p : Producer) : Producer := mkProducer (pr_reader p) ph (pr_budget p) (pr_next p) (pr_todo p).
Definition with_budget (b : OwnedStorageBudget) (p : Producer) : Producer := mkProducer (pr_reader p) (pr_phase p) b (pr_next p) (pr_todo p).
Definition with_todo (l : list Batch) (p : Producer) : Producer := mkProducer (pr_reader p) (pr_phase p) (pr_budget p) (pr_next p) l.
Definition on_reader {A} (m : M RangeReader A) : M Producer A := λ p, let '(r, x) := m (pr_reader p) in (r, with_reader x p).
Definition on_budget {A} (m : M OwnedStorageBudget A) : M Producer A := λ p, let '(r, x) := m (pr_budget p) in (r, with_budget x p).

(** What [produce] yields: a batch, its event, its output. *)
Record Piece := mkPiece { pc_batch : Batch; pc_event : option nat; pc_output : nat }.

(** [torch.empty(batch.bytes)] *)
Definition allocate (n : Z) : M Producer nat := λ p,
  let r := pr_reader p in
  (Ok (pr_next p),
   mkProducer (set_device (rr_slots r) (rr_uploads r) (rr_done r) (<[pr_next p := garbage (Z.to_nat n)]> (rr_outputs r)) r)
     (pr_phase p) (pr_budget p) (S (pr_next p)) (pr_todo p)).
(** One pass of [produce]'s loop. *)
Definition produce_batch (se : Settings) (expired : nat → bool) (b : Batch) : M Producer Piece :=
  t ← on_reader system_call;
  now ← lift (stamp t (b_file b));
  before ← lift (res_of_option KeyError (od_get (b_file b) (se_stamps se)));
  raise_if (negb (bool_decide (now = before))) ValueError;;
  on_budget (reserve expired (b_bytes b));;
  output ← allocate (b_bytes b);
  on_budget (modify (track output (b_bytes b)));;
  event ← on_reader (fill b output);
  mret (mkPiece b event output).
(** The [finally] clause. *)
Definition shut (p : Producer) : Producer := with_phase Shut (with_reader (close_reader (pr_reader p)) p).
(** [next]: from the start or the last [yield] to the next one or the end. *)
Definition open_phase (se : Settings) : M Producer unit :=
  p ← get;
  match pr_phase p with
  | Unstarted =>
    match open_reader (se_cuda se) (se_memory se) (se_concurrency se) (se_batch_bytes se) (se_direct se) (pr_reader p) with
    | Ok r => modify (λ p, with_phase Running (with_reader r p))
    | Err e => modify (with_phase Shut);; raise e
    end
  | _ => mret tt
  end.
Definition produce_next (se : Settings) (expired : nat → bool) : M Producer (option Piece) :=
  p ← get;
  match pr_phase p with
  | Shut => mret None
  | _ =>
    open_phase se;;
    p ← get;
    match pr_todo p with
    | [] => modify shut;; mret None
    | b :: todo =>
      modify (with_todo todo);;
      catch (x ← produce_batch se expired b; mret (Some x)) (λ e, modify shut;; raise e)
    end
  end.
(** [close] of the generator. *)
Definition produce_close : M Producer unit :=
  p ← get; match pr_phase p with Running => modify shut | _ => modify (with_phase Shut) end.

(** Every [next] meets an environment of its own. *)
Definition gen_next (se : Settings) (p : Producer) (r : res (option Piece)) (p' : Producer) : Prop :=
  ∃ kern engine picks expired,
    produce_next se expired (with_reader (set_env (rr_clock (pr_reader p)) kern engine picks (pr_reader p)) p) = (r, p').
Definition gen_close (p : Producer) (r : res unit) (p' : Producer) : Prop := produce_close p = (r, p').
(** The copy engine, at any time. *)
Definition env_step (p p' : Producer) : Prop := rr_uploads (pr_reader p) ≠ [] ∧ p' = with_reader (run_upload (pr_reader p)) p.

(** A tensor as the model gets it: a slice of its batch's output. *)
Record View := mkView { vw_name : string; vw_info : TensorInfo; vw_offset : Z; vw_bytes : list byte }.
Definition view_tensor (b : Batch) (output : list byte) (x : row) : View :=
  let offset := ti_offset x.2 - b_start b in
  mkView x.1 x.2 offset (file_read output (Z.to_nat offset) (Z.to_nat (ti_bytes x.2))).
(** The consumer's loop over one batch, once the event is over. *)
Definition use_piece (skip : string → bool) (p : Producer) (x : Piece) : option (list View) :=
  match pc_event x with
  | Some e => if bool_decide (e < rr_done (pr_reader p))%nat then
      Some (view_tensor (pc_batch x) (default [] (rr_outputs (pr_reader p) !! pc_output x)) <$> filter (λ r : row, skip r.1 = false) (b_tensors (pc_batch x)))
    else None
  | None => Some (view_tensor (pc_batch x) (default [] (rr_outputs (pr_reader p) !! pc_output x)) <$> filter (λ r : row, skip r.1 = false) (b_tensors (pc_batch x)))
  end.

Definition reader0 (t : nat) : RangeReader := mkReader 0 0 false false None None 0 [] [] 0 ∅ [] t [] [] [].
(** [coalesced_weights] up to its first [next]. *)
Definition coalesced_start (cwd : string) (files : list string) (tensors : Tensors) (stamps : Stamps) (concurrency memory_limit owned_limit batch_bytes : Z)
    (device : string) (direct : bool) (t : nat) : res (Settings * Producer) :=
  if negb (bool_decide (device ∈ ["cpu"; "pinned"; "cuda"])) || (owned_limit <=? 0) then Err ValueError else
  let given := abspath cwd <$> files in
  if negb (forallb (λ p, od_mem p stamps) given && forallb (λ p, bool_decide (p ∈ given)) (od_keys stamps)) then Err ValueError else
  batches ← plan_batches tensors stamps batch_bytes;
  if existsb (λ b, owned_limit <? b_bytes b) batches then Err UnsupportedStream else
  Ok (mkSettings (String.eqb device "cuda") memory_limit concurrency batch_bytes direct stamps,
      mkProducer (reader0 t) Unstarted (new_budget owned_limit) 0 batches).
(** What follows the loop over the batches: tensors without bytes, and the
    stamps once more. *)
Definition empty_views (skip : string → bool) (tensors : Tensors) : list View :=
  (λ x : row, mkView x.1 x.2 0 []) <$> filter (λ x : row, ti_bytes x.2 = 0 ∧ skip x.1 = false) tensors.
Definition check_stamps (stamps : Stamps) : M nat unit :=
  for_each stamps (λ x, now ← os_stamp x.1; raise_if (negb (bool_decide (now = x.2))) ValueError).

(** [check_direct_support]: one direct read on each device; [probe] is what
    opening and reading the path does, an error number when it fails. *)
Inductive Errno := EINVAL | EOPNOTSUPP | ENOSYS | OtherErrno.
Fixpoint check_direct_support (probe : string → option Errno) (checked : list Z) (stamps : Stamps) : res unit :=
  match stamps with
  | [] => Ok tt
  | (path, before) :: stamps =>
    if bool_decide (st_dev before ∈ checked) then check_direct_support probe checked stamps else
    match probe path with
    | None => check_direct_support probe (checked ++ [st_dev before]) stamps
    | Some OtherErrno => Err OSError
    | Some _ => Err UnsupportedStream
    end
  end.
End coalesced.
