(* ===== verification/NvmeCoalescedPlan.v ===== *)
(** The batches of [plan_batches]: every tensor with bytes is in exactly one,
    which covers it, starts at a page and stays within its file. *)
From S2P Require Import Prelude PyDict Bytes File NvmeTransport NvmeArtifact NvmePrefetch NvmeCheckpoint NvmeCoalesced.
From stdpp Require Import base list gmap sets strings sorting.
From Stdlib Require Import ZArith Lia.
#[local] Open Scope string_scope.
#[local] Open Scope list_scope.
#[local] Open Scope Z_scope.

Section plan.
Context {L : TensorLib}.

Definition row_end (x : row) : Z := ti_offset x.2 + ti_bytes x.2.
Definition before (x y : row) : Prop := row_end x ≤ ti_offset y.2.
(** What a batch of at most [limit] bytes is, in a file of [size] bytes. *)
Record batch_ok (size limit : Z) (b : Batch) : Prop := {
  bk_start : 0 ≤ b_start b ∧ (ALIGN | b_start b);
  bk_end : b_end b ≤ size;
  bk_rows x : x ∈ b_tensors b → b_start b ≤ ti_offset x.2 ∧ 0 < ti_bytes x.2 ∧ row_end x ≤ b_end b;
  bk_sorted : StronglySorted before (b_tensors b);
  bk_ends : ∃ first last, head (b_tensors b) = Some first ∧ List.last (b_tensors b) first = last ∧
    ti_offset first.2 < b_start b + ALIGN ∧ b_end b = row_end last;
  bk_size : b_bytes b ≤ limit ∨ ∃ x, b_tensors b = [x] }.

(** * One file *)

Lemma insert_row_perm x rows : insert_row x rows ≡ₚ x :: rows.
Proof. induction rows as [|y rows IH]; cbn; [done|]. destruct (_ <=? _); [|done]. rewrite IH. apply Permutation_swap. Qed.
Lemma sort_rows_perm rows : sort_rows rows ≡ₚ rows.
Proof.
  unfold sort_rows. enough (H : ∀ acc, foldl (λ acc x, insert_row x acc) acc rows ≡ₚ acc ++ rows) by apply (H []).
  induction rows as [|x rows IH]; intros acc; cbn [foldl]; [by rewrite app_nil_r|].
  rewrite IH, insert_row_perm. apply Permutation_middle.
Qed.

Definition tensors_in (bs : list Batch) : list row := concat (b_tensors <$> bs).
#[local] Arguments tensors_in : simpl never.
Lemma tensors_in_app bs1 bs2 : tensors_in (bs1 ++ bs2) = tensors_in bs1 ++ tensors_in bs2.
Proof. unfold tensors_in. by rewrite fmap_app, concat_app. Qed.
Lemma elem_of_tensors_in b bs x : b ∈ bs → x ∈ b_tensors b → x ∈ tensors_in bs.
Proof. intros Hb Hx. unfold tensors_in. apply elem_of_list_join || apply list_elem_of_In, in_concat. exists (b_tensors b). rewrite <- !list_elem_of_In. split; [|done]. by apply list_elem_of_fmap_2. Qed.
Definition current_batch (path : string) (p : Planning) : Batch := mkBatch path (pl_start p) (pl_end p) (pl_current p).

Lemma last_snoc {A} (l : list A) x d : List.last (l ++ [x]) d = x.
Proof. by rewrite List.last_last. Qed.

Lemma start_page off : 0 ≤ off → let s := off / ALIGN * ALIGN in 0 ≤ s ≤ off ∧ (ALIGN | s) ∧ off < s + ALIGN.
Proof.
  intros H. cbn. unfold ALIGN. pose proof (Z.div_mod off 4096 ltac:(lia)). pose proof (Z.mod_pos_bound off 4096 ltac:(lia)).
  assert (0 ≤ off / 4096) by (apply Z.div_pos; lia). split_and!; [lia|lia|by eexists|lia].
Qed.

Lemma single_batch path size limit x : 0 ≤ ti_offset x.2 → 0 < ti_bytes x.2 → row_end x ≤ size →
  batch_ok size limit (mkBatch path (ti_offset x.2 / ALIGN * ALIGN) (row_end x) [x]).
Proof.
  intros Ho Hn He. destruct (start_page _ Ho) as (?&?&?). split; cbn.
  - split; [lia|done].
  - done.
  - intros y ->%list_elem_of_singleton. lia.
  - apply SSorted_cons; [apply SSorted_nil|done].
  - by exists x, x.
  - right. by exists x.
Qed.
Lemma snoc_batch path size limit s e l x : batch_ok size limit (mkBatch path s e l) → e ≤ ti_offset x.2 → 0 < ti_bytes x.2 → row_end x ≤ size →
  row_end x - s ≤ limit → batch_ok size limit (mkBatch path s (row_end x) (l ++ [x])).
Proof.
  intros [Hs He Hr Hso (f&la&Hf&Hl&Hfo&Hen) _] Ho Hn Hsz Hli. cbn in *. unfold row_end in *. split; cbn; try done.
  - intros y [Hy| ->%list_elem_of_singleton]%elem_of_app.
    + destruct (Hr y Hy) as (?&?&?). unfold row_end in *. lia.
    + destruct (Hr f) as (?&?&?); [by apply head_Some_elem_of|]. unfold row_end in *. lia.
  - apply StronglySorted_app. split_and!; [|done|by apply SSorted_cons; [apply SSorted_nil|]]. intros y z Hy ->%list_elem_of_singleton.
    destruct (Hr y Hy) as (_&_&?). unfold before, row_end in *. lia.
  - exists f, x. split_and!; [by destruct l|apply last_snoc|done|done].
  - by left.
Qed.

Record planning_ok (path : string) (size limit : Z) (p : Planning) : Prop := {
  pk_batches b : b ∈ pl_batches p → b_file b = path → batch_ok size limit b;
  pk_current : pl_current p ≠ [] → batch_ok size limit (current_batch path p) }.

Lemma flush_ok path size limit p : planning_ok path size limit p →
  planning_ok path size limit (flush path p) ∧ pl_current (flush path p) = [] ∧
  tensors_in (pl_batches (flush path p)) = tensors_in (pl_batches p) ++ pl_current p ∧
  ∃ bs, pl_batches (flush path p) = pl_batches p ++ bs ∧ ∀ b, b ∈ bs → b_file b = path.
Proof.
  intros [Hb Hc]. unfold flush. destruct (pl_current p) as [|x cur] eqn:E.
  - split_and!; [by split|done|by rewrite app_nil_r|exists []; split; [by rewrite app_nil_r|by intros ? ?%not_elem_of_nil]].
  - split_and!; cbn [pl_batches pl_current]; [|done| |eexists; split; [done|by intros b ->%list_elem_of_singleton]].
    + split; cbn; [|done]. intros b [Hin| ->%list_elem_of_singleton]%elem_of_app Hf; [by apply Hb|]. specialize (Hc ltac:(done)). unfold current_batch in Hc. by rewrite E in Hc.
    + rewrite tensors_in_app. unfold tensors_in at 2. cbn. by rewrite app_nil_r.
Qed.

Lemma plan_row_ok path size limit p x p' : planning_ok path size limit p → plan_row path size limit p x = Ok p' →
  planning_ok path size limit p' ∧ tensors_in (pl_batches p') ++ pl_current p' = (tensors_in (pl_batches p) ++ pl_current p) ++ [x] ∧
  ∃ bs, pl_batches p' = pl_batches p ++ bs ∧ ∀ b, b ∈ bs → b_file b = path.
Proof.
  intros Hp. unfold plan_row. destruct (negb _) eqn:Er; [done|]. apply negb_false_iff in Er.
  apply andb_prop in Er as [[Hr1 Hr2]%andb_prop Hr3]. apply Z.leb_le in Hr1, Hr3. apply Z.ltb_lt in Hr2.
  destruct (_ && (_ <? pl_end p)) eqn:Eo; [done|]. intros [= <-].
  destruct (flush_ok path size limit p Hp) as (Hpf&Hcf&Htf&(bs&Hbf&Hff)).
  destruct (_ && (limit <? _)) eqn:El.
  - rewrite Hcf. cbn. split_and!; [|by rewrite Htf|by exists bs]. split; cbn; [apply Hpf|]. intros _. apply single_batch; unfold row_end; lia.
  - destruct (pl_current p) as [|y cur] eqn:E; cbn in *.
    + split_and!; [|by rewrite app_nil_r|exists []; split; [by rewrite app_nil_r|by intros ? ?%not_elem_of_nil]]. split; cbn; [apply Hp|]. intros _. apply single_batch; unfold row_end; lia.
    + apply Z.ltb_ge in Eo, El. split_and!; [|by rewrite <- app_assoc|exists []; split; [by rewrite app_nil_r|by intros ? ?%not_elem_of_nil]]. split; cbn; [apply Hp|]. intros _.
      destruct Hp as [_ Hc]. specialize (Hc ltac:(by rewrite E)). unfold current_batch in Hc. rewrite E in Hc.
      apply (snoc_batch path size limit (pl_start p) (pl_end p) (y :: cur) x Hc); unfold row_end; lia.
Qed.

Lemma plan_rows_ok path size limit rows p p' : planning_ok path size limit p → plan_rows path size limit p rows = Ok p' →
  planning_ok path size limit p' ∧ tensors_in (pl_batches p') ++ pl_current p' = (tensors_in (pl_batches p) ++ pl_current p) ++ rows ∧
  ∃ bs, pl_batches p' = pl_batches p ++ bs ∧ ∀ b, b ∈ bs → b_file b = path.
Proof.
  revert p. induction rows as [|x rows IH]; intros p Hp; cbn [plan_rows].
  { intros [= <-]. split_and!; [done|by rewrite app_nil_r|exists []; split; [by rewrite app_nil_r|by intros ? ?%not_elem_of_nil]]. }
  intros (p1&H1&H)%res_bind_ok. destruct (plan_row_ok _ _ _ _ _ _ Hp H1) as (Hp1&Ht1&bs1&Hb1&Hf1).
  destruct (IH p1 Hp1 H) as (Hp'&Ht'&bs2&Hb2&Hf2). split_and!; [done|rewrite Ht', Ht1; by rewrite <- !app_assoc|].
  exists (bs1 ++ bs2). rewrite Hb2, Hb1, <- app_assoc. split; [done|]. intros b [?|?]%elem_of_app; auto.
Qed.

(** * All files *)

(** A batch of a checkpoint with these stamps. *)
Definition planned (stamps : Stamps) (limit : Z) (b : Batch) : Prop :=
  ∃ s, od_get (b_file b) stamps = Some s ∧ batch_ok (st_size s) limit b.
Lemma plan_file_ok stamps limit bs path rows bs' : plan_file stamps limit bs (path, rows) = Ok bs' → (∀ b, b ∈ bs → b_file b ≠ path) →
  ∃ new, bs' = bs ++ new ∧ tensors_in new ≡ₚ rows ∧ ∀ b, b ∈ new → planned stamps limit b ∧ b_file b = path.
Proof.
  unfold plan_file. intros (s&Hs&H)%res_bind_ok Hfresh. apply res_bind_ok in H as (p&Hp&[= <-]).
  destruct (plan_rows_ok path (st_size s) limit (sort_rows rows) (mkPlanning [] 0 0 bs) p) as (Hpo&Ht&bs1&Hb1&Hf1); [|done|].
  { split; cbn; [intros b Hb Hf; by destruct (Hfresh b Hb)|done]. }
  destruct (flush_ok _ _ _ _ Hpo) as ([Hok _]&_&Htf&bs2&Hb2&Hf2). cbn in *.
  exists (bs1 ++ bs2). rewrite Hb2, Hb1 in *. rewrite <- app_assoc in *. split; [done|]. rewrite !tensors_in_app in *. split.
  - cbn [app] in Ht. rewrite <- (sort_rows_perm rows).
    assert (Heq : tensors_in bs ++ tensors_in bs1 ++ tensors_in bs2 = tensors_in bs ++ sort_rows rows) by (rewrite Htf; exact Ht).
    apply app_inv_head in Heq. by rewrite Heq.
  - intros b Hb. assert (Hbf : b_file b = path) by (apply elem_of_app in Hb as [?|?]; auto). split; [|done]. exists s. rewrite Hbf.
    destruct (od_get path stamps); cbn in Hs; [|done]. injection Hs as <-. split; [done|]. apply Hok; [set_solver|done].
Qed.
Lemma plan_files_ok stamps limit files bs bs' : plan_files stamps limit bs files = Ok bs' → NoDup (od_keys files) →
  (∀ b, b ∈ bs → b_file b ∉ od_keys files) →
  ∃ new, bs' = bs ++ new ∧ tensors_in new ≡ₚ concat files.*2 ∧
    ∀ b, b ∈ new → planned stamps limit b ∧ ∃ rows, (b_file b, rows) ∈ files ∧ ∀ x, x ∈ b_tensors b → x ∈ rows.
Proof.
  revert bs. induction files as [|[path rows] files IH]; intros bs; cbn [plan_files od_keys fmap list_fmap fst snd].
  { intros [= <-] _ _. exists []. split_and!; [by rewrite app_nil_r|done|by intros ? ?%not_elem_of_nil]. }
  intros (bs1&H1&H)%res_bind_ok [Hni Hnd]%NoDup_cons Hfresh.
  destruct (plan_file_ok _ _ _ _ _ _ H1) as (new1&->&Hp1&Hn1); [intros b Hb Heq; apply (Hfresh b Hb); rewrite Heq; by left|].
  destruct (IH _ H Hnd) as (new2&->&Hp2&Hn2).
  { intros b [Hb|Hb]%elem_of_app Hx; [apply (Hfresh b Hb); by right|]. destruct (Hn1 b Hb) as [_ Hbf]. by rewrite Hbf in Hx. }
  exists (new1 ++ new2). split_and!; [by rewrite app_assoc|rewrite tensors_in_app; by apply Permutation_app|].
  intros b [Hb|Hb]%elem_of_app.
  - destruct (Hn1 b Hb) as [Hpl Hbf]. split; [done|]. exists rows. rewrite Hbf. split; [by left|]. intros x Hx. rewrite <- Hp1. by eapply elem_of_tensors_in.
  - destruct (Hn2 b Hb) as [Hpl (rs&Hin&Hrs)]. split; [done|]. exists rs. split; [by right|done].
Qed.

Definition row_ok (path : string) (x : row) : Prop := ti_file x.2 = path ∧ ti_bytes x.2 ≠ 0 ∧ ti_offset x.2 mod element_size (ti_dtype x.2) = 0.
Definition with_bytes (tensors : list row) : list row := filter (λ x : row, ti_bytes x.2 ≠ 0) tensors.

Lemma od_set_concat (files : odict string (list row)) p rows x : od_get p files = Some rows →
  od_keys (od_set p (rows ++ [x]) files) = od_keys files ∧ concat (od_set p (rows ++ [x]) files).*2 ≡ₚ concat files.*2 ++ [x].
Proof.
  induction files as [|[q rs] files IH]; cbn; [done|]. destruct (decide (p = q)) as [<-|Hne].
  - intros [= ->]. split; [done|]. cbn. rewrite <- !app_assoc. by rewrite (Permutation_app_comm [x]).
  - intros Hg. destruct (IH Hg) as [Hk Hp]. cbn. split; [by f_equal|]. rewrite Hp. by rewrite app_assoc.
Qed.
Lemma od_set_elem (files : odict string (list row)) p rows q rs : (q, rs) ∈ od_set p rows files → (q, rs) = (p, rows) ∨ (q, rs) ∈ files.
Proof.
  induction files as [|[k v] files IH]; cbn; [intros ->%list_elem_of_singleton; by left|].
  destruct (decide (p = k)) as [<-|]; intros [H|H]%elem_of_cons; [by left|right; by right|right; rewrite H; by left|].
  destruct (IH H); [by left|right; by right].
Qed.

Lemma group_rows_ok tensors by_file files : group_rows by_file tensors = Ok files →
  (∀ p rows x, (p, rows) ∈ by_file → x ∈ rows → row_ok p x) →
  od_keys files = od_keys by_file ∧ concat files.*2 ≡ₚ concat by_file.*2 ++ with_bytes tensors ∧
  ∀ p rows x, (p, rows) ∈ files → x ∈ rows → row_ok p x.
Proof.
  revert by_file. induction tensors as [|[name info] tensors IH]; intros by_file; cbn [group_rows].
  { intros [= <-] Hok. by rewrite app_nil_r. }
  unfold with_bytes. rewrite filter_cons. cbn [snd]. destruct (ti_bytes info =? 0) eqn:Ez.
  { apply Z.eqb_eq in Ez. rewrite decide_False by lia. apply IH. }
  apply Z.eqb_neq in Ez. rewrite decide_True by done. destruct (negb _) eqn:Em; [done|]. apply negb_false_iff, Z.eqb_eq in Em.
  intros (rows&Hr&H)%res_bind_ok Hok. destruct (od_get _ _) as [rs|] eqn:Eg; [|done]. injection Hr as ->.
  destruct (od_set_concat by_file (ti_file info) rows (name, info) Eg) as [Hk Hp].
  destruct (IH _ H) as (Hk'&Hp'&Hok').
  - intros p rs x Hin Hx. apply od_set_elem in Hin as [[= -> ->]|Hin]; [|by eapply Hok].
    apply elem_of_app in Hx as [Hx| ->%list_elem_of_singleton]; [|done]. eapply Hok; [by apply od_get_elem|done].
  - split_and!; [congruence| |done]. rewrite Hp', Hp. by rewrite <- app_assoc.
Qed.

(** The batches: each planned in its file, its tensors of that file and at
    offsets their types need; together they hold every tensor with bytes. *)
Lemma plan_batches_ok tensors stamps limit bs : plan_batches tensors stamps limit = Ok bs → NoDup (od_keys stamps) →
  tensors_in bs ≡ₚ with_bytes tensors ∧ (ALIGN | limit) ∧ ALIGN ≤ limit ∧
  ∀ b, b ∈ bs → planned stamps limit b ∧ ∀ x, x ∈ b_tensors b → row_ok (b_file b) x.
Proof.
  unfold plan_batches. destruct (_ || _) eqn:Ea; [done|]. apply orb_false_iff in Ea as [Ea1 Ea2]. apply Z.ltb_ge in Ea1.
  apply negb_false_iff, Z.eqb_eq in Ea2. intros (files&Hf&H)%res_bind_ok Hnd.
  set (start := (λ p, (p, [])) <$> od_keys stamps) in Hf.
  assert (Hkeys : od_keys (start : odict string (list row)) = od_keys stamps).
  { unfold start, od_keys. rewrite <- list_fmap_compose. by apply list_fmap_id. }
  assert (Hnil : concat (start : odict string (list row)).*2 = []).
  { unfold start. generalize (od_keys stamps). intros l. induction l as [|p l IH]; [done|]. cbn. exact IH. }
  destruct (group_rows_ok tensors start files Hf) as (Hk&Hp&Hrow).
  { intros p rows x Hin Hx. unfold start in Hin. apply list_elem_of_fmap in Hin as (q&[= -> ->]&_). by apply not_elem_of_nil in Hx. }
  destruct (plan_files_ok stamps limit files [] bs H) as (new&->&Hpn&Hnew); [congruence|by intros ? ?%not_elem_of_nil|].
  cbn [app]. split_and!; [by rewrite Hpn, Hp, Hnil|apply Z.mod_divide; [done|exact Ea2]|lia|].
  intros b Hb. destruct (Hnew b Hb) as [Hpl (rows&Hin&Hrows)]. split; [done|]. intros x Hx. eapply Hrow; [exact Hin|by apply Hrows].
Qed.
End plan.
