(* ===== verification/NvmeRange.v ===== *)
(** The reader of the coalesced stream: whatever the order of the reads, the
    sizes the kernel moves and the pace of the copy engine, a batch's output
    ends up as the bytes of the file.  Outputs are described once all enqueued
    uploads have run ([settled]); a host tile is refilled only when no enqueued
    upload reads it any more. *)
From S2P Require Import Prelude PyDict Bytes File NvmeTransport NvmeTransportInv NvmeArtifact NvmeArtifactProps NvmePrefetch NvmeCheckpoint NvmeCoalesced.
From stdpp Require Import base list gmap sets strings.
From Stdlib Require Import ZArith Lia.
#[local] Open Scope string_scope.
#[local] Open Scope list_scope.
#[local] Open Scope Z_scope.

(** * Calls that take time *)

(** [Q] of what [m] leaves, if it ends by time [T]. *)
Section clocked.
Context {S : Type} (clock : S → nat) (T : nat).
Definition mono {A} (m : M S A) : Prop := ∀ s, (clock s ≤ clock (m s).2)%nat.
Definition wpt {A} (m : M S A) (Q : res A → S → Prop) (s : S) : Prop := (clock (m s).2 ≤ T)%nat → Q (m s).1 (m s).2.

Lemma mono_bind {A B} (m : M S A) (k : A → M S B) : mono m → (∀ a, mono (k a)) → mono (m ≫= k).
Proof.
  intros Hm Hk s. unfold mbind, M_bind. specialize (Hm s). destruct (m s) as [[a|e] s1]; [|done]. specialize (Hk a s1). cbn in *. lia.
Qed.
Lemma mono_ret {A} (a : A) : mono (mret a).
Proof. intros s. cbn. lia. Qed.
Lemma mono_raise {A} e : mono (raise e : M S A).
Proof. intros s. cbn. lia. Qed.
Lemma mono_lift {A} (r : res A) : mono (lift r).
Proof. intros s. cbn. lia. Qed.
Lemma mono_get : mono get.
Proof. intros s. cbn. lia. Qed.
Lemma mono_raise_if b e : mono (raise_if b e).
Proof. intros s. destruct b; cbn; lia. Qed.
Lemma mono_modify (f : S → S) : (∀ s, clock s ≤ clock (f s))%nat → mono (modify f).
Proof. intros H s. apply H. Qed.
Lemma mono_outcome {A} (m : M S A) : mono m → mono (outcome m).
Proof. intros H s. unfold outcome. specialize (H s). by destruct (m s). Qed.
Lemma mono_catch {A} (m : M S A) h : mono m → (∀ e, mono (h e)) → mono (catch m h).
Proof. intros H Hh s. unfold catch. specialize (H s). destruct (m s) as [[a|e] s1]; [done|]. specialize (Hh e s1). cbn in *. lia. Qed.

Lemma wpt_bind {A B} (m : M S A) (k : A → M S B) Q s : (∀ a, mono (k a)) →
  wpt m (λ r s', match r with Ok a => wpt (k a) Q s' | Err e => Q (Err e) s' end) s → wpt (m ≫= k) Q s.
Proof.
  intros Hk Hm. unfold wpt, mbind, M_bind in *. destruct (m s) as [[a|e] s1]; cbn in *; [|done].
  intros HT. apply Hm; [|done]. specialize (Hk a s1). lia.
Qed.
Lemma wpt_mono {A} (m : M S A) (Q Q' : res A → S → Prop) s : (∀ r s', Q r s' → Q' r s') → wpt m Q s → wpt m Q' s.
Proof. unfold wpt. auto. Qed.
Lemma wpt_now {A} (m : M S A) (Q : res A → S → Prop) s : wp m Q s → wpt m Q s.
Proof. by unfold wp, wpt. Qed.
Lemma wpt_outcome {A} (m : M S A) (Q : res (res A) → S → Prop) s : wpt m (λ r s', Q (Ok r) s') s → wpt (outcome m) Q s.
Proof. unfold wpt, outcome. by destruct (m s). Qed.
Lemma wpt_catch {A} (m : M S A) h (Q : res A → S → Prop) s : (∀ e, mono (h e)) →
  wpt m (λ r s', match r with Ok a => Q (Ok a) s' | Err e => wpt (h e) Q s' end) s → wpt (catch m h) Q s.
Proof.
  intros Hh Hm. unfold wpt, catch in *. destruct (m s) as [[a|e] s1]; cbn in *; [done|].
  intros HT. apply Hm; [|done]. specialize (Hh e s1). lia.
Qed.
End clocked.

Create HintDb mono.
#[export] Hint Resolve mono_bind mono_ret mono_raise mono_lift mono_get mono_raise_if mono_modify mono_outcome mono_catch : mono.

(** Go through a program: every step keeps the clock or advances it. *)
Ltac solve_mono :=
  repeat match goal with
  | |- mono _ (_ ≫= _) => apply mono_bind; [|intros ?]
  | |- mono _ (modify _) => apply mono_modify; intros ?; cbn; lia
  | |- mono _ (outcome _) => apply mono_outcome
  | |- mono _ (match ?x with _ => _ end) => destruct x
  | |- mono _ (let '_ := ?x in _) => destruct x
  | |- mono _ _ => solve [eauto 2 with mono]
  end.

(** * The device *)

Definition settled (r : RangeReader) : gmap nat (list byte) := foldl (λ o u, apply_upload (rr_slots r) u o) (rr_outputs r) (rr_uploads r).
#[global] Arguments settled : simpl never.
(** No enqueued upload reads the tile. *)
Definition free (k : nat) (r : RangeReader) : Prop := ∀ u, u ∈ rr_uploads r → up_slot u ≠ k.

Record mem_ok (r : RangeReader) : Prop := {
  mo_tile : ALIGN ≤ rr_tile r ∧ (ALIGN | rr_tile r) ∧ 1 ≤ rr_concurrency r;
  mo_two : length (rr_slots r) = 2%nat;
  mo_views k s : rr_slots r !! k = Some s → length (sl_view s) = Z.to_nat (rr_tile r);
  mo_events j u : rr_uploads r !! j = Some u → ∃ s e, rr_slots r !! up_slot u = Some s ∧ sl_event s = Some e ∧ (rr_done r + j ≤ e)%nat;
  mo_known k s e : rr_slots r !! k = Some s → sl_event s = Some e → (e < rr_done r + length (rr_uploads r))%nat;
  mo_cpu : rr_cuda r = false → rr_uploads r = [] }.

(** What may happen between two points of the reader apart from writing into
    output [out]: enqueued uploads run, the settled outputs stay. *)
Record keeps (out : option nat) (r r' : RangeReader) : Prop := {
  kp_config : rr_tile r' = rr_tile r ∧ rr_concurrency r' = rr_concurrency r ∧ rr_direct r' = rr_direct r ∧ rr_cuda r' = rr_cuda r;
  kp_settled o : Some o ≠ out → settled r' !! o = settled r !! o;
  kp_pending j u : rr_uploads r' !! j = Some u → Some (up_output u) ≠ out → ∃ j', rr_uploads r !! j' = Some u ∧ (rr_done r' + j = rr_done r + j')%nat;
  kp_done : (rr_done r ≤ rr_done r')%nat;
  kp_clock : (rr_clock r ≤ rr_clock r')%nat }.
Lemma keeps_refl out r : keeps out r r.
Proof. split; try done. intros j u Hj _. by exists j. Qed.
Lemma keeps_trans out r1 r2 r3 : keeps out r1 r2 → keeps out r2 r3 → keeps out r1 r3.
Proof.
  intros [(A1&A2&A3&A4) B C D E] [(A1'&A2'&A3'&A4') B' C' D' E']. split; try lia.
  - split_and!; congruence.
  - intros o Ho. rewrite B' by done. by apply B.
  - intros j u Hj Ho. destruct (C' j u Hj Ho) as (j1&Hj1&?). destruct (C j1 u Hj1 Ho) as (j2&?&?). exists j2. split; [done|lia].
Qed.
Lemma keeps_weaken out r r' : keeps None r r' → keeps out r r'.
Proof. intros [A B C D E]. split; try done; intros; [by apply B|by eapply C]. Qed.

(** ** The engine *)

Lemma run_uploads_file n r : rr_fd (run_uploads n r) = rr_fd r ∧ rr_path (run_uploads n r) = rr_path r ∧ rr_next_slot (run_uploads n r) = rr_next_slot r.
Proof.
  induction n as [|n IH]; [done|]. change (run_uploads (S n) r) with (run_upload (run_uploads n r)). unfold run_upload. by destruct (rr_uploads _).
Qed.

Lemma run_upload_ok r : mem_ok r → mem_ok (run_upload r) ∧ keeps None r (run_upload r) ∧ rr_slots (run_upload r) = rr_slots r ∧
  rr_uploads (run_upload r) = tail (rr_uploads r) ∧ settled (run_upload r) = settled r ∧
  (rr_uploads r ≠ [] → rr_done (run_upload r) = S (rr_done r)).
Proof.
  intros Hr. pose proof Hr as [Ht H2 Hv He Hk Hc]. unfold run_upload. destruct (rr_uploads r) as [|u us] eqn:E.
  { split_and!; [exact Hr|apply keeps_refl|done|by rewrite E|done|done]. }
  assert (Hs : settled (set_device (rr_slots r) us (S (rr_done r)) (apply_upload (rr_slots r) u (rr_outputs r)) r) = settled r)
    by (unfold settled; rewrite E; done).
  split_and!; try done.
  - split; cbn; try done.
    + intros j u' Hj. destruct (He (S j) u' Hj) as (s&e&?&?&?). exists s, e. split_and!; [done|done|lia].
    + intros k s e Hks Hse. specialize (Hk k s e Hks Hse). cbn in Hk. lia.
    + intros Hcu. by specialize (Hc Hcu).
  - split; try done; cbn; try lia.
    + intros o _. by rewrite Hs.
    + intros j u' Hj _. exists (S j). rewrite E. split; [done|lia].
Qed.
Lemma run_uploads_ok n r : mem_ok r → mem_ok (run_uploads n r) ∧ keeps None r (run_uploads n r) ∧ rr_slots (run_uploads n r) = rr_slots r ∧
  rr_uploads (run_uploads n r) = drop n (rr_uploads r) ∧ settled (run_uploads n r) = settled r ∧
  rr_done (run_uploads n r) = (rr_done r + Nat.min n (length (rr_uploads r)))%nat.
Proof.
  intros Hr. induction n as [|n IH].
  { cbn. split_and!; [done|apply keeps_refl|done|by rewrite drop_0|done|lia]. }
  change (run_uploads (S n) r) with (run_upload (run_uploads n r)).
  destruct IH as (Hm&Hkp&Hs&Hu&Hse&Hd). destruct (run_upload_ok _ Hm) as (Hm'&Hkp'&Hs'&Hu'&Hse'&Hd').
  split_and!; [done|by eapply keeps_trans|congruence| |congruence|].
  - rewrite Hu', Hu. rewrite <- Nat.add_1_r, <- drop_drop. by destruct (drop n _).
  - destruct (decide (n < length (rr_uploads r))%nat) as [Hlt|Hge].
    + rewrite Hd', Hd by (rewrite Hu; intros Hn; apply (f_equal length) in Hn; rewrite length_drop in Hn; cbn in Hn; lia). lia.
    + unfold run_upload. rewrite Hu, drop_ge by lia. rewrite Hd. lia.
Qed.
Lemma view_of_length r k : mem_ok r → (k < 2)%nat → length (view_of (rr_slots r) k) = Z.to_nat (rr_tile r).
Proof.
  intros Hr Hk. unfold view_of. destruct (rr_slots r !! k) as [s|] eqn:E; [by eapply mo_views|].
  apply lookup_ge_None in E. rewrite (mo_two _ Hr) in E. lia.
Qed.

(** The fence: after it no enqueued upload reads the tile. *)
Definition fence (k : nat) (r : RangeReader) : RangeReader :=
  match rr_slots r !! k with Some (mkSlot _ (Some e)) => synchronize e r | _ => r end.
Lemma fence_ok k r : mem_ok r → mem_ok (fence k r) ∧ keeps None r (fence k r) ∧ rr_slots (fence k r) = rr_slots r ∧ settled (fence k r) = settled r ∧ free k (fence k r).
Proof.
  intros Hr. assert (Hfree : (∀ s e, rr_slots r !! k = Some s → sl_event s = Some e → False) → free k r).
  { intros Hno u Hu Hk. apply list_elem_of_lookup in Hu as [j Hj]. destruct (mo_events _ Hr j u Hj) as (s&e&Hs&He&_). rewrite Hk in Hs. by eapply Hno. }
  unfold fence. destruct (rr_slots r !! k) as [[v [e|]]|] eqn:E.
  2: { split_and!; [done|apply keeps_refl|done|done|]. apply Hfree. by intros s e [= <-]. }
  2: { split_and!; [done|apply keeps_refl|done|done|]. by apply Hfree. }
  unfold synchronize. destruct (run_uploads_ok (S e - rr_done r) r Hr) as (Hm&Hkp&Hs&Hu&Hse&Hd). split_and!; try done.
  intros u Hin Hk. apply list_elem_of_lookup in Hin as [j Hj]. destruct (mo_events _ Hm j u Hj) as (s&e'&Hs'&He'&Hle).
  rewrite Hs, Hk, E in Hs'. injection Hs' as <-. cbn in He'. injection He' as <-.
  pose proof (mo_known _ Hr k _ e E eq_refl). rewrite Hd in Hle. lia.
Qed.

(** Filling a tile that no enqueued upload reads. *)
Definition fill_view (k : nat) (f : list byte → list byte) (r : RangeReader) : RangeReader :=
  set_device (alter (λ s, mkSlot (f (sl_view s)) (sl_event s)) k (rr_slots r)) (rr_uploads r) (rr_done r) (rr_outputs r) r.
Lemma view_of_alter slots k k' (f : Slot → Slot) : view_of (alter f k slots) k' =
  if decide (k = k') then match slots !! k' with Some s => sl_view (f s) | None => [] end else view_of slots k'.
Proof.
  unfold view_of. destruct (decide (k = k')) as [<-|Hne].
  - rewrite list_lookup_alter_eq. by destruct (slots !! k).
  - by rewrite list_lookup_alter_ne.
Qed.
Lemma settled_slots (us : list Upload) slots slots' o : (∀ u, u ∈ us → view_of slots' (up_slot u) = view_of slots (up_slot u)) →
  foldl (λ o u, apply_upload slots' u o) o us = foldl (λ o u, apply_upload slots u o) o us.
Proof.
  revert o. induction us as [|u us IH]; intros o Hv; [done|]. cbn [foldl]. unfold apply_upload at 2 4. rewrite (Hv u) by (by left).
  apply IH. intros u' Hu. apply Hv. by right.
Qed.
Lemma fill_view_ok k f r : mem_ok r → free k r → (∀ v, length v = Z.to_nat (rr_tile r) → length (f v) = length v) →
  mem_ok (fill_view k f r) ∧ free k (fill_view k f r) ∧ keeps None r (fill_view k f r) ∧ settled (fill_view k f r) = settled r.
Proof.
  intros Hr Hf Hl. assert (Hs : settled (fill_view k f r) = settled r).
  { unfold settled. cbn. apply settled_slots. intros u Hu. rewrite view_of_alter, decide_False; [done|]. intros ->. by apply (Hf u). }
  assert (Hlk : ∀ k' s', alter (λ s, mkSlot (f (sl_view s)) (sl_event s)) k (rr_slots r) !! k' = Some s' →
    ∃ s, rr_slots r !! k' = Some s ∧ sl_event s' = sl_event s ∧ length (sl_view s') = length (sl_view s)).
  { intros k' s' Hk'. destruct (decide (k = k')) as [<-|Hne].
    - rewrite list_lookup_alter_eq in Hk'. destruct (rr_slots r !! k) as [s|] eqn:Es; [|done]. injection Hk' as <-. exists s. cbn. rewrite Hl; [done|]. by eapply mo_views.
    - rewrite list_lookup_alter_ne in Hk' by done. by exists s'. }
  destruct Hr as [Ht H2 Hv He Hk Hc]. split_and!; [|done| |done].
  - split; cbn; try done.
    + by rewrite length_alter.
    + intros k' s' Hk'. destruct (Hlk _ _ Hk') as (s&Hss&_&->). by eapply Hv.
    + intros j u Hj. destruct (He j u Hj) as (s&e&Hss&Hse&?). destruct (decide (k = up_slot u)) as [->|Hne].
      * exists (mkSlot (f (sl_view s)) (sl_event s)), e. rewrite list_lookup_alter_eq, Hss. done.
      * exists s, e. by rewrite list_lookup_alter_ne.
    + intros k' s' e Hk' Hse. destruct (Hlk _ _ Hk') as (s&Hss&Hev&_). eapply Hk; [exact Hss|congruence].
  - split; try done; cbn; [intros o _; by rewrite Hs|]. intros j u Hj _. by exists j.
Qed.

(** * Reads *)

Lemma file_write_at (view d : list byte) pos j : (pos + length d ≤ length view)%nat →
  file_write view pos d !! j = if decide (pos ≤ j < pos + length d)%nat then d !! (j - pos)%nat else view !! j.
Proof.
  intros Hl. destruct (decide (d = [])) as [->|Hd]; [cbn; by rewrite decide_False by lia|].
  rewrite file_write_lookup by done. destruct (decide (j < pos)%nat).
  - rewrite (decide_True (P := (j < length view)%nat)) by lia. by rewrite decide_False by lia.
  - destruct (decide (j < pos + length d)%nat); [by rewrite decide_True by lia|by rewrite decide_False by lia].
Qed.
Lemma file_read_at (c : list byte) off n j : (j < n)%nat → file_read c off n !! j = c !! (off + j)%nat.
Proof. intros Hj. unfold file_read. by rewrite lookup_take_lt, lookup_drop. Qed.

(** [n] bytes of [view] from [pos] are those of [c] from [off]. *)
Definition holds (view : list byte) (pos : nat) (c : list byte) (off n : nat) : Prop := ∀ i, (i < n)%nat → view !! (pos + i)%nat = c !! (off + i)%nat.
Definition unchanged (view view' : list byte) (pos n : nat) : Prop := ∀ i, (i < pos ∨ pos + n ≤ i)%nat → view' !! i = view !! i.
Lemma unchanged_refl v pos n : unchanged v v pos n.
Proof. done. Qed.
Lemma unchanged_trans v1 v2 v3 pos n : unchanged v1 v2 pos n → unchanged v2 v3 pos n → unchanged v1 v3 pos n.
Proof. intros H1 H2 i Hi. by rewrite H2, H1. Qed.

Record reading (k : nat) (base r : RangeReader) : Prop := {
  rg_mem : mem_ok r;
  rg_free : free k r;
  rg_keeps : keeps None base r;
  rg_fd : rr_fd r = rr_fd base ∧ rr_path r = rr_path base ∧ rr_next_slot r = rr_next_slot base }.

Lemma mem_ok_env clock kern engine picks r : mem_ok r → mem_ok (set_env clock kern engine picks r).
Proof. by intros []; split. Qed.
Lemma keeps_env clock kern engine picks r : (rr_clock r ≤ clock)%nat → keeps None r (set_env clock kern engine picks r).
Proof. intros H. split; try done. intros j u Hj _. by exists j. Qed.
Lemma reading_env k base r clock kern engine picks : reading k base r → (rr_clock r ≤ clock)%nat → reading k base (set_env clock kern engine picks r).
Proof. intros [Hm Hf Hk Hd] H. split; [by apply mem_ok_env|done|eapply keeps_trans; [done|by apply keeps_env]|done]. Qed.
Lemma reading_log k base r c : reading k base r → reading k base (log_call c r).
Proof.
  intros [[] Hf Hk Hd]. split; [by split|done| |done]. eapply keeps_trans; [done|]. split; try done. intros j u Hj _. by exists j.
Qed.
Lemma reading_uploads k base r n : reading k base r → reading k base (run_uploads n r).
Proof.
  intros [Hm Hf Hk Hd]. destruct (run_uploads_ok n r Hm) as (Hm'&Hk'&Hs&Hu&Hse&Hdo).
  split; [done| |by eapply keeps_trans|].
  - intros u Hu'. apply Hf. rewrite Hu in Hu'. apply list_elem_of_lookup in Hu' as [j Hj]. rewrite lookup_drop in Hj. by eapply list_elem_of_lookup_2.
  - destruct (run_uploads_file n r) as (->&->&->). done.
Qed.
Lemma reading_view k base r f : reading k base r → (∀ v, length v = Z.to_nat (rr_tile r) → length (f v) = length v) → reading k base (fill_view k f r).
Proof.
  intros [Hm Hf Hk Hd] Hl. destruct (fill_view_ok k f r Hm Hf Hl) as (Hm'&Hf'&Hk'&_). split; [done|done|by eapply keeps_trans|done].
Qed.

Lemma run_uploads_env n r : rr_clock (run_uploads n r) = rr_clock r ∧ rr_kern (run_uploads n r) = rr_kern r ∧ rr_picks (run_uploads n r) = rr_picks r.
Proof.
  induction n as [|n IH]; [done|]. change (run_uploads (S n) r) with (run_upload (run_uploads n r)). unfold run_upload. by destruct (rr_uploads _).
Qed.

Section reads.
Context {D : Disk} (T t1 : nat).
Abbreviation wpr := (wpt rr_clock T).
(** An inode whose bytes are [c] for the whole time. *)
Definition steady (i : Z) (c : list byte) : Prop := ∀ t, (t1 ≤ t < T)%nat → in_data (inodes t i) = c.

Lemma mono_system_call : mono rr_clock system_call.
Proof. intros r. unfold system_call. cbn. destruct (run_uploads_env (List.hd 0%nat (rr_engine r)) r) as (->&_). lia. Qed.
Lemma mono_open_ok : mono rr_clock open_ok.
Proof. intros r. unfold open_ok. by destruct (rr_kern r) as [|[]]. Qed.
Lemma mono_fill_view k f : mono rr_clock (modify (fill_view k f)).
Proof. by apply mono_modify. Qed.
Lemma mono_next_pick n : mono rr_clock (next_pick n).
Proof. intros r. cbn. lia. Qed.
Hint Resolve mono_system_call mono_open_ok mono_fill_view mono_next_pick : mono.
Lemma mono_preadv direct k pos want offset : mono rr_clock (preadv direct k pos want offset).
Proof. unfold preadv. solve_mono. Qed.
Hint Resolve mono_preadv : mono.
Lemma mono_read_aligned fuel direct buffered k pos len offset required dn : mono rr_clock (read_aligned fuel direct buffered k pos len offset required dn).
Proof. revert buffered dn. induction fuel as [|fuel IH]; intros buffered dn; cbn [read_aligned]; solve_mono. Qed.
Hint Resolve mono_read_aligned : mono.

(** What a call leaves that reads into [len] bytes of tile [k] at [pos]. *)
Record read_into (k : nat) (base r : RangeReader) (pos len : nat) (r' : RangeReader) : Prop := {
  ri_reading : reading k base r';
  ri_clock : (rr_clock r ≤ rr_clock r')%nat;
  ri_rest : unchanged (view_of (rr_slots r) k) (view_of (rr_slots r') k) pos len }.
Lemma preadv_spec direct k base r pos want (offset : Z) i c : reading k base r → rr_fd base = Some i → (k < 2)%nat →
  (pos + want ≤ Z.to_nat (rr_tile r))%nat → (t1 ≤ rr_clock r)%nat → steady i c →
  wpr (preadv direct k pos want offset) (λ x r', read_into k base r pos want r' ∧ x ≠ Err OutOfFuel ∧
    ∀ m, x = Ok m → (m ≤ want)%nat ∧ holds (view_of (rr_slots r') k) pos c (Z.to_nat offset) m) r.
Proof.
  intros Hr Hfd Hk Hlen Ht Hst. unfold wpt, preadv, system_call, mbind, M_bind. cbn.
  set (r0 := run_uploads _ r). assert (Hr0 : reading k base r0) by by apply reading_uploads.
  destruct (run_uploads_env (List.hd 0%nat (rr_engine r)) r) as (Hc0&_&_). fold r0 in Hc0.
  destruct (run_uploads_ok (List.hd 0%nat (rr_engine r)) r (rg_mem _ _ _ Hr)) as (_&Hkp&Hs0&_). fold r0 in Hs0, Hkp.
  destruct (rg_fd _ _ _ Hr0) as (Hf0&_). rewrite Hf0, Hfd. cbn.
  set (avail := file_read _ _ want).
  destruct (xfer (rr_kern r0) (length avail)) as [[m|] kern] eqn:Ex; cbn; intros HT.
  - assert (Hm : (m ≤ length avail)%nat) by (unfold xfer in Ex; destruct (rr_kern r0) as [|[n|] kk]; simplify_eq; lia).
    assert (Hav : avail = file_read c (Z.to_nat offset) want) by (unfold avail; rewrite Hst by lia; done).
    set (r2 := set_env (S (rr_clock r0)) kern (List.tl (rr_engine r0)) (rr_picks r0) (log_call (mkCall direct offset pos want) (set_env (S (rr_clock r0)) (rr_kern r0) (List.tl (rr_engine r0)) (rr_picks r0) r0))).
    assert (Hr2 : reading k base r2).
    { apply reading_env; [apply reading_log, reading_env; [done|lia]|cbn; lia]. }
    assert (Htile : rr_tile r2 = rr_tile r) by (cbn; apply (kp_config _ _ _ Hkp)).
    assert (Hwant : (length avail ≤ want)%nat) by (unfold avail; rewrite file_read_length; lia).
    assert (Hv0 : length (view_of (rr_slots r) k) = Z.to_nat (rr_tile r)) by (apply view_of_length; [apply Hr|done]).
    change (read_into k base r pos want (fill_view k (λ v, file_write v pos (take m avail)) r2) ∧ Ok m ≠ Err OutOfFuel ∧
      ∀ m0, Ok m = Ok m0 → (m0 ≤ want)%nat ∧ holds (view_of (rr_slots (fill_view k (λ v, file_write v pos (take m avail)) r2)) k) pos c (Z.to_nat offset) m0).
    assert (Hview : view_of (rr_slots (fill_view k (λ v, file_write v pos (take m avail)) r2)) k = file_write (view_of (rr_slots r) k) pos (take m avail)).
    { cbn. rewrite view_of_alter, decide_True by done. rewrite Hs0. unfold view_of in *. destruct (rr_slots r !! k); [done|cbn in Hv0].
      pose proof (mo_tile _ (rg_mem _ _ _ Hr)) as (?&_). unfold ALIGN in *. lia. }
    split; [split|split; [done|]].
    + apply reading_view; [done|]. intros v Hv. rewrite Htile in Hv.
      apply (write_prefix v (take m avail) pos). rewrite length_take. lia.
    + cbn. lia.
    + rewrite Hview. intros j Hj. rewrite file_write_at by (rewrite length_take; lia). rewrite decide_False; [done|]. rewrite length_take. lia.
    + intros m0 [= <-]. split; [lia|]. rewrite Hview. intros j Hj. rewrite file_write_at by (rewrite length_take; lia).
      rewrite length_take, decide_True by lia. rewrite lookup_take_lt by lia. rewrite Hav, file_read_at by lia. f_equal. lia.
  - split; [|by split]. split.
    + apply reading_env; [apply reading_log, reading_env; [done|lia]|cbn; lia].
    + cbn. lia.
    + cbn. rewrite Hs0. apply unchanged_refl.
Qed.

Lemma read_into_refl k base r pos len : reading k base r → read_into k base r pos len r.
Proof. intros H. by split. Qed.
Lemma read_into_trans k base r1 r2 r3 pos len : read_into k base r1 pos len r2 → read_into k base r2 pos len r3 → read_into k base r1 pos len r3.
Proof. intros [A B C] [A' B' C']. split; [done|lia|by eapply unchanged_trans]. Qed.
Lemma read_into_sub k base r r' pos len pos' len' : read_into k base r pos' len' r' → (pos ≤ pos')%nat → (pos' + len' ≤ pos + len)%nat →
  read_into k base r pos len r'.
Proof. intros [A B C] H1 H2. split; [done|done|]. intros j Hj. apply C. lia. Qed.
Lemma reading_tile k base r : reading k base r → rr_tile r = rr_tile base.
Proof. intros H. apply (kp_config _ _ _ (rg_keeps _ _ _ H)). Qed.

Lemma reopen_spec k base r pos len (b : bool) : reading k base r → (t1 ≤ rr_clock r)%nat →
  wpr (if b then system_call;; open_ok else mret tt) (λ x r', read_into k base r pos len r' ∧ view_of (rr_slots r') k = view_of (rr_slots r) k ∧ x ≠ Err OutOfFuel) r.
Proof.
  intros Hr Ht. destruct b; [|by apply wpt_now, wp_ret; split; [apply read_into_refl|]].
  apply wpt_now. unfold wp, system_call, open_ok, mbind, M_bind. cbn.
  set (r0 := run_uploads _ r). assert (Hr0 : reading k base r0) by by apply reading_uploads.
  destruct (run_uploads_env (List.hd 0%nat (rr_engine r)) r) as (Hc0&_&_). fold r0 in Hc0.
  destruct (run_uploads_ok (List.hd 0%nat (rr_engine r)) r (rg_mem _ _ _ Hr)) as (_&_&Hs0&_). fold r0 in Hs0.
  assert (Hall : ∀ kern e p, read_into k base r pos len (set_env (S (rr_clock r0)) kern e p r0)).
  { intros kern e p. split; [apply reading_env; [done|lia]|cbn; lia|cbn; rewrite Hs0; apply unchanged_refl]. }
  destruct (rr_kern r0) as [|[n|] kk]; cbn; (split; [|split; [by rewrite Hs0|done]]); try apply Hall.
Qed.

Lemma read_aligned_spec fuel direct buffered k base r pos len (offset : Z) required dn i c : reading k base r → rr_fd base = Some i → (k < 2)%nat →
  (pos + len ≤ Z.to_nat (rr_tile r))%nat → (required ≤ len)%nat → (dn ≤ len)%nat → (required - dn ≤ fuel)%nat → 0 ≤ offset →
  (t1 ≤ rr_clock r)%nat → steady i c → holds (view_of (rr_slots r) k) pos c (Z.to_nat offset) dn →
  wpr (read_aligned fuel direct buffered k pos len offset required dn) (λ x r', read_into k base r pos len r' ∧ x ≠ Err OutOfFuel ∧
    ∀ n, x = Ok n → holds (view_of (rr_slots r') k) pos c (Z.to_nat offset) required) r.
Proof.
  revert buffered dn r. induction fuel as [|fuel IH]; intros buffered dn r Hr Hfd Hk Hl Hreq Hdn Hfu Ho Ht Hst Hh; cbn [read_aligned].
  { rewrite bool_decide_eq_false_2 by lia. apply wpt_now, wp_ret. split; [by apply read_into_refl|]. split; [done|]. intros n _ j Hj. apply Hh. lia. }
  case_bool_decide as Hlt.
  2: { apply wpt_now, wp_ret. split; [by apply read_into_refl|]. split; [done|]. intros n _ j Hj. apply Hh. lia. }
  apply wpt_bind; [intros a; destruct (bool_decide (a = 0%nat)); solve_mono|].
  eapply wpt_mono; [|apply (preadv_spec _ k base r _ _ _ i c); [done|done|done|lia|done|done]].
  intros [m|e] r1 (Hri&Hne&Hm); [|split; [eapply read_into_sub; [done|lia|lia]|split; [congruence|done]]].
  destruct (Hm m eq_refl) as [Hmw Hhm]. assert (Hri' : read_into k base r pos len r1) by (eapply read_into_sub; [done|lia|lia]).
  case_bool_decide as Hz; [apply wpt_now; split; [done|]; by split|].
  assert (Hh1 : holds (view_of (rr_slots r1) k) pos c (Z.to_nat offset) (dn + m)).
  { intros j Hj. destruct (decide (j < dn)%nat).
    - rewrite (ri_rest _ _ _ _ _ _ Hri) by lia. by apply Hh.
    - specialize (Hhm (j - dn)%nat ltac:(lia)). replace (pos + dn + (j - dn))%nat with (pos + j)%nat in Hhm by lia. rewrite Hhm. f_equal. lia. }
  apply wpt_bind; [intros []; apply mono_read_aligned|].
  eapply wpt_mono; [|apply (reopen_spec k base r1 pos len); [apply Hri|destruct Hri'; lia]].
  intros [[]|e] r2 (Hri2&Hv2&He); [|split; [by eapply read_into_trans|split; [congruence|done]]].
  eapply wpt_mono; [|apply (IH _ (dn + m)%nat r2); [apply Hri2|done|done| |done|lia|lia|done| |done|by rewrite Hv2]].
  - intros x r3 (Hri3&Hx&Hn). split; [eapply read_into_trans; [done|by eapply read_into_trans]|done].
  - rewrite (reading_tile _ _ _ (ri_reading _ _ _ _ _ _ Hri2)), <- (reading_tile _ _ _ Hr). done.
  - destruct Hri', Hri2. lia.
Qed.

(** ** The reads of a tile *)

Lemma mono_read k src offset len : mono rr_clock (read k src offset len).
Proof. unfold read. solve_mono. Qed.
Hint Resolve mono_read : mono.
Lemma read_spec k base r src offset len i c : reading k base r → rr_fd base = Some i → (k < 2)%nat → 0 ≤ src → 0 ≤ offset → 0 < len →
  offset + len ≤ rr_tile r → (t1 ≤ rr_clock r)%nat → steady i c →
  wpr (read k src offset len) (λ x r', read_into k base r (Z.to_nat offset) (Z.to_nat (Z.min (align len) (rr_tile r - offset))) r' ∧ x ≠ Err OutOfFuel ∧
    ∀ n, x = Ok n → holds (view_of (rr_slots r') k) (Z.to_nat offset) c (Z.to_nat (src + offset)) (Z.to_nat len)) r.
Proof.
  intros Hr Hfd Hk Hs Ho Hl Ht Hc Hst. unfold read. apply wpt_bind; [intros; solve_mono|]. apply wpt_now, wp_get. cbn zeta.
  destruct (align_spec len ltac:(lia)) as (Ha&_&_).
  apply (read_aligned_spec _ _ _ k base r _ _ _ _ _ i c); try done; try lia. intros j Hj. lia.
Qed.

Section jobs.
Context (k : nat) (base : RangeReader) (src q L : Z) (i : Z) (c : list byte).
Context (Hk : (k < 2)%nat) (Hfd : rr_fd base = Some i) (Hsrc : 0 ≤ src) (Hq : 0 < q ∧ (ALIGN | q)) (HL : L ≤ rr_tile base) (Hst : steady i c).

Definition job_of (j : nat) : nat * Z * Z := (j, Z.of_nat j * q, Z.min q (L - Z.of_nat j * q)).
Definition job_ok (x : nat * Z * Z) : Prop := x = job_of x.1.1 ∧ Z.of_nat x.1.1 * q < L.
Definition job_done (r : RangeReader) (j : nat) : Prop :=
  holds (view_of (rr_slots r) k) (Z.to_nat (Z.of_nat j * q)) c (Z.to_nat (src + Z.of_nat j * q)) (Z.to_nat (Z.min q (L - Z.of_nat j * q))).
Definition jobs_done (r : RangeReader) (results : list (nat * res nat)) : Prop := ∀ j x, (j, x) ∈ results → x ≠ Err OutOfFuel ∧ (is_ok x = true → job_done r j).

Lemma mono_run_jobs n jobs results : mono rr_clock (run_jobs n k src jobs results).
Proof.
  revert jobs results. induction n as [|n IH]; intros jobs results; cbn [run_jobs]; [solve_mono|].
  apply mono_bind; [apply mono_next_pick|]. intros p. destruct (jobs !! p) as [[[j offset] len]|]; [|solve_mono].
  apply mono_bind; [apply mono_outcome, mono_read|]. intros x. apply IH.
Qed.

Lemma run_jobs_spec n jobs results r : n = length jobs → NoDup (results.*1 ++ jobs.*1.*1) → (∀ x, x ∈ jobs → job_ok x) →
  reading k base r → (t1 ≤ rr_clock r)%nat → jobs_done r results →
  wpr (run_jobs n k src jobs results) (λ x r', reading k base r' ∧ (rr_clock r ≤ rr_clock r')%nat ∧
    ∃ results', x = Ok results' ∧ results'.*1 ≡ₚ results.*1 ++ jobs.*1.*1 ∧ jobs_done r' results') r.
Proof.
  revert jobs results r. induction n as [|n IH]; intros jobs results r Hn Hnd Hjobs Hr Ht Hdone; cbn [run_jobs].
  { apply wpt_now, wp_ret. split; [done|]. split; [lia|]. exists results. destruct jobs; [|done]. by rewrite app_nil_r. }
  apply wpt_bind.
  { intros p. destruct (jobs !! p) as [[[j offset] len]|]; [|solve_mono]. apply mono_bind; [apply mono_outcome, mono_read|]. intros; apply mono_run_jobs. }
  apply wpt_now. unfold wp, next_pick. cbn [fst snd].
  set (p := (List.hd 0 (rr_picks r) mod length jobs)%nat).
  set (r1 := set_env _ _ _ _ r). assert (Hr1 : reading k base r1) by (apply reading_env; [done|lia]).
  assert (Hp : (p < length jobs)%nat) by (apply Nat.mod_upper_bound; lia).
  destruct (lookup_lt_is_Some_2 _ _ Hp) as [[[j offset] len] Hj]. rewrite Hj.
  destruct (Hjobs (j, offset, len)) as [Hjo Hjl]; [by eapply list_elem_of_lookup_2|]. unfold job_of in Hjo. cbn in Hjo, Hjl. injection Hjo as -> ->.
  pose proof (reading_tile _ _ _ Hr1) as Htile.
  apply wpt_bind; [intros; apply mono_run_jobs|]. apply wpt_outcome.
  eapply wpt_mono; [|apply (read_spec k base r1 src _ _ i c); try done; try lia; rewrite Htile; lia].
  intros x r2 (Hri&Hx&Hok). cbn beta.
  pose proof (delete_Permutation jobs p _ Hj) as Hd.
  assert (Hperm : (results ++ [(j, x)]).*1 ++ (delete p jobs).*1.*1 ≡ₚ results.*1 ++ jobs.*1.*1).
  { rewrite Hd at 2. rewrite fmap_app, <- app_assoc. done. }
  assert (Hnj : ∀ j' x', (j', x') ∈ results → j' ≠ j).
  { intros j' x' Hin ->. apply NoDup_app in Hnd as (_&Hdis&_). apply (Hdis j); [by apply (list_elem_of_fmap_2 fst _ (j, x'))|].
    rewrite Hd. cbn. by left. }
  eapply wpt_mono; [|apply (IH (delete p jobs) (results ++ [(j, x)]) r2)].
  - intros y r3 (H1&H2&results'&->&H3&H4). split; [done|]. split; [destruct Hri; cbn in *; lia|]. exists results'. split; [done|]. split; [by rewrite H3|done].
  - rewrite length_delete; [lia|by eexists].
  - by rewrite Hperm.
  - intros y Hy. apply Hjobs. rewrite Hd. by right.
  - apply Hri.
  - destruct Hri. cbn in *. lia.
  - intros j' x' [Hin|[= -> ->]%list_elem_of_singleton]%elem_of_app.
    + destruct (Hdone j' x' Hin) as [Hne Hok']. split; [done|]. intros Hx'. specialize (Hok' Hx'). specialize (Hnj _ _ Hin).
      intros a Ha. rewrite <- (Hok' a Ha). apply (ri_rest _ _ _ _ _ _ Hri).
      destruct Hq as [Hq0 Hqa]. pose proof (align_fits (Z.min q (L - Z.of_nat j * q)) q ltac:(lia) ltac:(by apply Z.mod_divide)).
      destruct (decide (j' < j)%nat); [left; nia|right; assert (j' > j)%nat by lia; nia].
    + split; [done|]. intros Hx'. destruct x as [m|e]; [|done]. by apply (Hok m).
Qed.

(** When no future failed, every read is done. *)
Lemma first_error_spec n r results : NoDup results.*1 → results.*1 ≡ₚ seq 0 n → jobs_done r results →
  match first_error n results with Some e => e ≠ OutOfFuel | None => ∀ j, (j < n)%nat → job_done r j end.
Proof.
  intros Hnd Hperm Hdone. unfold first_error.
  assert (Hfind : ∀ j x, snd <$> list_find (λ x : nat * res nat, x.1 = j) results = Some x → x ∈ results ∧ x.1 = j).
  { intros j x Hf. destruct (list_find _ _) as [[p y]|] eqn:E; [|done]. injection Hf as <-. apply list_find_Some in E as (E&Hp&_).
    split; [by eapply list_elem_of_lookup_2|done]. }
  destruct (head _) as [e|] eqn:E.
  - destruct (omap _ _) as [|e' l] eqn:Eo; [done|]. injection E as ->.
    assert (Hin : e ∈ e :: l) by by left. rewrite <- Eo in Hin. apply list_elem_of_omap in Hin as (j&_&Hj).
    destruct (snd <$> _) as [[j' [m|e']]|] eqn:Ef; try done. injection Hj as ->. apply Hfind in Ef as [Hin _]. destruct (Hdone _ _ Hin) as [Hx _]. congruence.
  - intros j Hj. assert (Hin : j ∈ results.*1) by (rewrite Hperm; apply elem_of_seq; lia).
    apply list_elem_of_fmap in Hin as ([j' x]&->&Hin). cbn in *.
    destruct (list_find (λ x : nat * res nat, x.1 = j') results) as [[p y]|] eqn:Ef.
    2: { apply list_find_None in Ef. rewrite Forall_forall in Ef. by destruct (Ef _ Hin). }
    destruct (Hfind j' y) as [Hy Hyj]; [by rewrite Ef|]. destruct y as [j2 x2]. cbn in Hyj. subst j2.
    destruct (Hdone _ _ Hy) as [_ Hok]. apply Hok. destruct x2 as [m|e]; [done|]. exfalso.
    assert (Hex : e ∈ omap (λ j, match snd <$> list_find (λ x : nat * res nat, x.1 = j) results with Some (_, Err e) => Some e | _ => None end) (seq 0 n)).
    { apply list_elem_of_omap. exists j'. split; [apply elem_of_seq; lia|]. by rewrite Ef. }
    destruct (omap _ _); [by apply not_elem_of_nil in Hex|done].
Qed.
End jobs.

Lemma range_step_list n st : range_step n st = (λ j, j * st)%nat <$> seq 0 (length (range_step n st)).
Proof. unfold range_step. by rewrite length_fmap, length_seq. Qed.
Lemma range_step_covers n st : (0 < st)%nat → (∀ j, j < length (range_step n st) → j * st < n)%nat ∧ (n ≤ length (range_step n st) * st)%nat.
Proof. intros H. unfold range_step. rewrite length_fmap, length_seq. apply (range_step_blocks n st H). Qed.
Lemma quantum_ok len conc : 1 ≤ conc → 0 < len → 0 < quantum len conc ∧ (ALIGN | quantum len conc).
Proof.
  intros Hc Hl. unfold quantum. assert (0 ≤ (len + conc - 1) / conc) by (apply Z.div_pos; lia).
  destruct (align_spec ((len + conc - 1) / conc) ltac:(lia)) as (_&Hd&_). split; [unfold ALIGN; lia|].
  destruct (Z.max_spec ALIGN (align ((len + conc - 1) / conc))) as [[_ ->]|[_ ->]]; [done|apply Z.divide_refl].
Qed.
Lemma tile_jobs_list len conc : 1 ≤ conc → 0 < len →
  tile_jobs len conc = job_of (quantum len conc) len <$> seq 0 (length (tile_jobs len conc)) ∧
  (∀ j, (j < length (tile_jobs len conc))%nat → Z.of_nat j * quantum len conc < len) ∧
  len ≤ Z.of_nat (length (tile_jobs len conc)) * quantum len conc.
Proof.
  intros Hc Hl. destruct (quantum_ok len conc Hc Hl) as [Hq _]. unfold tile_jobs. rewrite length_imap.
  destruct (range_step_covers (Z.to_nat len) (Z.to_nat (quantum len conc)) ltac:(lia)) as [H1 H2].
  split; [|split; [intros j Hj; specialize (H1 j Hj); lia|lia]].
  apply list_eq. intros j. rewrite list_lookup_imap, list_lookup_fmap, range_step_list at 1. rewrite list_lookup_fmap.
  destruct (decide (j < length (range_step (Z.to_nat len) (Z.to_nat (quantum len conc))))%nat).
  - rewrite !lookup_seq_lt by done. cbn. unfold job_of. repeat f_equal; lia.
  - rewrite !lookup_seq_ge by lia. done.
Qed.

(** The reads of one tile of [len] bytes, as [fill_tile] waits for them. *)
Lemma tile_spec k base src len i c : reading k base base → (k < 2)%nat → rr_fd base = Some i → 0 ≤ src → 0 < len ≤ rr_tile base →
  (t1 ≤ rr_clock base)%nat → steady i c →
  wpr (run_jobs (length (tile_jobs len (rr_concurrency base))) k src (tile_jobs len (rr_concurrency base)) [])
    (λ x r', reading k base r' ∧ ∃ results, x = Ok results ∧
       match first_error (length (tile_jobs len (rr_concurrency base))) results with
       | Some e => e ≠ OutOfFuel
       | None => holds (view_of (rr_slots r') k) 0 c (Z.to_nat src) (Z.to_nat len)
       end) base.
Proof.
  intros Hr Hk Hfd Hs Hl Ht Hst. pose proof (mo_tile _ (rg_mem _ _ _ Hr)) as (_&_&Hc).
  set (q := quantum len (rr_concurrency base)). destruct (quantum_ok len (rr_concurrency base) Hc ltac:(lia)) as [Hq0 Hqa]. fold q in Hq0, Hqa.
  destruct (tile_jobs_list len (rr_concurrency base) Hc ltac:(lia)) as (Hjobs&Hlt&Hcov). fold q in Hjobs, Hlt, Hcov.
  set (jobs := tile_jobs len (rr_concurrency base)) in *.
  assert (Hkeys : jobs.*1.*1 = seq 0 (length jobs)).
  { rewrite Hjobs at 1. rewrite <- !list_fmap_compose. unfold job_of. cbn. by rewrite list_fmap_id. }
  eapply wpt_mono; [|apply (run_jobs_spec k base src q len i c); try done; try lia].
  - intros x r' (Hr'&_&results&->&Hperm&Hdone). split; [done|]. exists results. split; [done|]. cbn in Hperm. rewrite Hkeys in Hperm.
    assert (Hnd : NoDup results.*1) by (rewrite Hperm; apply NoDup_seq).
    pose proof (first_error_spec k src q len c Hk (length jobs) r' results Hnd Hperm Hdone) as Hf.
    destruct (first_error _ _) as [e|]; [done|]. intros a Ha.
    set (j := Z.to_nat (Z.of_nat a / q)). pose proof (Z.div_mod (Z.of_nat a) q ltac:(lia)). pose proof (Z.mod_pos_bound (Z.of_nat a) q ltac:(lia)).
    assert (0 ≤ Z.of_nat a / q) by (apply Z.div_pos; lia). assert (Hj : (j < length jobs)%nat) by (unfold j; nia).
    specialize (Hf j Hj (Z.to_nat (Z.of_nat a mod q))). cbn in Hf.
    replace (Z.to_nat (Z.of_nat j * q) + Z.to_nat (Z.of_nat a mod q))%nat with a in Hf by (unfold j; nia).
    replace (Z.to_nat (src + Z.of_nat j * q) + Z.to_nat (Z.of_nat a mod q))%nat with (Z.to_nat src + a)%nat in Hf by (unfold j; nia).
    apply Hf. unfold j. nia.
  - cbn [app]. rewrite Hkeys. cbn. apply NoDup_seq.
  - intros x Hx. rewrite Hjobs in Hx. apply list_elem_of_fmap in Hx as (j&->&Hj). apply elem_of_seq in Hj. split; [done|]. cbn. apply Hlt. lia.
  - by intros ? ? ?%not_elem_of_nil.
Qed.

(** ** One tile *)

(** Every enqueued upload into [out] is over when the event is. *)
Definition covers (r : RangeReader) (out : nat) (event : option nat) : Prop :=
  ∀ j u, rr_uploads r !! j = Some u → up_output u = out → ∃ e, event = Some e ∧ (rr_done r + j ≤ e)%nat.
(** The reader between two tiles, since [r0], with [n] bytes of [out] written. *)
Record filling (out : nat) (fd : option Z) (path : option string) (r0 r : RangeReader) : Prop := {
  fg_mem : mem_ok r;
  fg_keeps : keeps (Some out) r0 r;
  fg_fd : rr_fd r = fd ∧ rr_path r = path }.

Lemma fenced k r : mem_ok r → reading k (fence k (take_slot r)) (fence k (take_slot r)) ∧ keeps None r (fence k (take_slot r)) ∧
  settled (fence k (take_slot r)) = settled r ∧ rr_fd (fence k (take_slot r)) = rr_fd r ∧ rr_path (fence k (take_slot r)) = rr_path r.
Proof.
  intros Hr. assert (Hts : mem_ok (take_slot r)) by (destruct Hr; by split).
  destruct (fence_ok k (take_slot r) Hts) as (Hm&Hkp&_&Hse&Hf).
  assert (Hk : keeps None r (take_slot r)) by (split; try done; intros j u Hj _; by exists j).
  assert (Hfd : rr_fd (fence k (take_slot r)) = rr_fd r ∧ rr_path (fence k (take_slot r)) = rr_path r).
  { unfold fence, synchronize. destruct (_ !! k) as [[v [e|]]|]; try done. by destruct (run_uploads_file (S e - rr_done (take_slot r)) (take_slot r)) as (->&->&_). }
  split_and!; try apply Hfd; [|by eapply keeps_trans|by rewrite Hse]. split; [done|done|apply keeps_refl|done].
Qed.

(** The upload of a tile that was read. *)
Definition enqueue (k len out position : nat) (r : RangeReader) : RangeReader :=
  set_device (alter (λ s, mkSlot (sl_view s) (Some (rr_done r + length (rr_uploads r))%nat)) k (rr_slots r))
    (rr_uploads r ++ [mkUpload k len out position]) (rr_done r) (rr_outputs r) r.
Definition copy_now (k len out position : nat) (r : RangeReader) : RangeReader :=
  set_device (rr_slots r) (rr_uploads r) (rr_done r) (apply_upload (rr_slots r) (mkUpload k len out position) (rr_outputs r)) r.
Lemma view_of_event k k' e slots : view_of (alter (λ s, mkSlot (sl_view s) e) k slots) k' = view_of slots k'.
Proof. rewrite view_of_alter. destruct (decide _) as [->|]; [|done]. unfold view_of. by destruct (slots !! k'). Qed.

Lemma enqueue_ok k len out position r : mem_ok r → free k r → (k < 2)%nat → rr_cuda r = true →
  mem_ok (enqueue k len out position r) ∧ keeps (Some out) r (enqueue k len out position r) ∧
  settled (enqueue k len out position r) = apply_upload (rr_slots r) (mkUpload k len out position) (settled r) ∧
  covers (enqueue k len out position r) out (Some (rr_done r + length (rr_uploads r))%nat).
Proof.
  intros [Ht H2 Hv He Hk Hc] Hf Hk2 Hcu.
  assert (Hs : settled (enqueue k len out position r) = apply_upload (rr_slots r) (mkUpload k len out position) (settled r)).
  { unfold settled. cbn. rewrite foldl_app. cbn. rewrite (settled_slots _ (rr_slots r)); [|by intros; rewrite view_of_event].
    unfold apply_upload. cbn. by rewrite view_of_event. }
  split_and!; [|split|done|].
  - split; cbn; try done.
    + by rewrite length_alter.
    + intros k' s Hs'. destruct (decide (k = k')) as [<-|Hne].
      * rewrite list_lookup_alter_eq in Hs'. destruct (rr_slots r !! k) as [s0|] eqn:E; [|done]. injection Hs' as <-. by apply (Hv k s0).
      * rewrite list_lookup_alter_ne in Hs' by done. by eapply Hv.
    + intros j u Hj. apply lookup_app_Some in Hj as [Hj|[Hj1 Hj2]].
      * destruct (He j u Hj) as (s&e&?&?&?). exists s, e. rewrite list_lookup_alter_ne; [done|]. intros ->. apply (Hf u); [by eapply list_elem_of_lookup_2|done].
      * apply list_lookup_singleton_Some in Hj2 as [Hj2 <-]. cbn. rewrite list_lookup_alter_eq.
        destruct (rr_slots r !! k) as [s|] eqn:E; [|apply lookup_ge_None in E; lia]. eexists _, _. split; [done|]. split; [done|]. cbn. lia.
    + intros k' s e Hs' Hse. rewrite length_app. cbn. destruct (decide (k = k')) as [<-|Hne].
      * rewrite list_lookup_alter_eq in Hs'. destruct (rr_slots r !! k) as [s0|]; [|done]. injection Hs' as <-. cbn in Hse. injection Hse as <-. lia.
      * rewrite list_lookup_alter_ne in Hs' by done. specialize (Hk k' s e Hs' Hse). lia.
    + by rewrite Hcu.
  - done.
  - intros o Ho. rewrite Hs. unfold apply_upload. cbn. by rewrite lookup_alter_ne by congruence.
  - intros j u Hj Ho. cbn in *. apply lookup_app_Some in Hj as [Hj|[_ Hj]]; [by exists j|]. apply list_lookup_singleton_Some in Hj as [_ <-]. done.
  - done.
  - done.
  - intros j u Hj _. eexists. split; [done|]. apply lookup_lt_Some in Hj. cbn in *. rewrite length_app in Hj. cbn in Hj. lia.
Qed.
Lemma copy_now_ok k len out position r : mem_ok r → rr_cuda r = false →
  mem_ok (copy_now k len out position r) ∧ keeps (Some out) r (copy_now k len out position r) ∧
  settled (copy_now k len out position r) = apply_upload (rr_slots r) (mkUpload k len out position) (settled r) ∧
  covers (copy_now k len out position r) out None.
Proof.
  intros Hr Hcu. pose proof (mo_cpu _ Hr Hcu) as Hu.
  assert (Hs : settled (copy_now k len out position r) = apply_upload (rr_slots r) (mkUpload k len out position) (settled r)) by (unfold settled; cbn; by rewrite Hu).
  split_and!; [destruct Hr; by split|split|done|].
  - done.
  - intros o Ho. rewrite Hs. unfold apply_upload. cbn. by rewrite lookup_alter_ne by congruence.
  - intros j u Hj _. by exists j.
  - done.
  - done.
  - intros j u Hj. cbn in Hj. by rewrite Hu in Hj.
Qed.

Lemma mono_synchronize e : mono rr_clock (modify (synchronize e)).
Proof. apply mono_modify. intros r. unfold synchronize. destruct (run_uploads_env (S e - rr_done r) r) as (->&_). lia. Qed.
Hint Resolve mono_synchronize mono_run_jobs : mono.
Lemma mono_fill_tile b out position : mono rr_clock (fill_tile b out position).
Proof. unfold fill_tile. solve_mono. Qed.
Hint Resolve mono_fill_tile : mono.

(** [d] is [n] bytes of [c] from [off]. *)
Definition bytes_from (d c : list byte) (off n : nat) : Prop := length d = n ∧ ∀ j, (j < n)%nat → d !! j = c !! (off + j)%nat.

Lemma fill_tile_spec b out (position : nat) i c r : mem_ok r → rr_fd r = Some i → steady i c → (t1 ≤ rr_clock r)%nat → 0 ≤ b_start b →
  Z.of_nat position < b_bytes b →
  wpr (fill_tile b out position) (λ x r', filling out (rr_fd r) (rr_path r) r r' ∧
    match x with
    | Ok event => covers r' out event ∧ ∃ d,
        bytes_from d c (Z.to_nat (b_start b) + position) (Z.to_nat (Z.min (rr_tile r) (b_bytes b - Z.of_nat position))) ∧
        settled r' !! out = (λ o, file_write o position d) <$> settled r !! out
    | Err e => e ≠ OutOfFuel
    end) r.
Proof.
  intros Hr Hfd Hst Ht Hs Hp. pose proof (mo_tile _ Hr) as (Htile&_&_). unfold ALIGN in Htile.
  unfold fill_tile. apply wpt_bind; [intros; solve_mono|]. apply wpt_now, wp_get. cbv zeta.
  set (k := (rr_next_slot r mod 2)%nat). assert (Hk : (k < 2)%nat) by (apply Nat.mod_upper_bound; lia).
  set (L := Z.min (rr_tile r) (b_bytes b - Z.of_nat position)).
  apply wpt_bind; [intros; solve_mono|]. apply wpt_now, wp_modify.
  set (r0 := fence k (take_slot r)). destruct (fenced k r Hr) as (Hrd&Hkp&Hse&Hf0&Hp0). fold r0 in Hrd, Hkp, Hse, Hf0, Hp0.
  apply wpt_bind; [intros; solve_mono|].
  assert (Hfence : ∀ Q : res unit → RangeReader → Prop, Q (Ok tt) r0 →
    wpr match rr_slots r !! k with Some {| sl_view := _; sl_event := Some event |} => modify (synchronize event) | _ => mret tt end Q (take_slot r)).
  { intros Q HQ. change r0 with (match rr_slots r !! k with Some (mkSlot _ (Some e)) => synchronize e (take_slot r) | _ => take_slot r end) in HQ.
    destruct (rr_slots r !! k) as [[v [e|]]|]; [apply wpt_now, wp_modify, HQ|apply wpt_now, wp_ret, HQ..]. }
  apply Hfence. clear Hfence. apply wpt_bind; [intros; solve_mono|].
  destruct (kp_config _ _ _ Hkp) as (Ht0&Hc0&_&Hcu0).
  rewrite <- Hc0. eapply wpt_mono; [|apply (tile_spec k r0 (b_start b + Z.of_nat position) L i c); try done; [congruence|lia|rewrite Ht0; lia|pose proof (kp_clock _ _ _ Hkp); lia]].
  intros x r1 (Hrd1&results&->&Hres). cbn beta iota.
  assert (Hk1 : keeps None r r1) by (eapply keeps_trans; [exact Hkp|apply Hrd1]).
  destruct (rg_fd _ _ _ Hrd1) as (Hf1&Hp1&_).
  destruct (first_error _ results) as [e|].
  { apply wpt_now. split; [|done]. split; [apply Hrd1|by apply keeps_weaken|split; cbn; congruence]. }
  apply wpt_bind; [intros; solve_mono|]. apply wpt_now, wp_get.
  set (d := take (Z.to_nat L) (view_of (rr_slots r1) k)).
  assert (Hd : bytes_from d c (Z.to_nat (b_start b) + position) (Z.to_nat L)).
  { pose proof (view_of_length r1 k (rg_mem _ _ _ Hrd1) Hk) as Hvl. rewrite (reading_tile _ _ _ Hrd1), Ht0 in Hvl. split.
    - unfold d. rewrite length_take. lia.
    - intros j Hj. unfold d. rewrite lookup_take_lt by done. specialize (Hres j Hj). rewrite Nat.add_0_l in Hres. rewrite Hres. f_equal. lia. }
  assert (Hset : apply_upload (rr_slots r1) (mkUpload k (Z.to_nat L) out position) (settled r1) !! out = (λ o, file_write o position d) <$> settled r !! out).
  { unfold apply_upload. cbn. rewrite lookup_alter_eq, (kp_settled _ _ _ Hk1) by done. done. }
  destruct (kp_config _ _ _ Hk1) as (_&_&_&Hcu1).
  destruct (rr_cuda r1) eqn:Ecu.
  - destruct (enqueue_ok k (Z.to_nat L) out position r1 (rg_mem _ _ _ Hrd1) (rg_free _ _ _ Hrd1) Hk Ecu) as (Hm&Hkk&Hss&Hco).
    apply wpt_now, wp_bind, wp_modify, wp_ret. split; [split; [exact Hm|eapply keeps_trans; [by apply keeps_weaken|exact Hkk]|split; cbn; congruence]|].
    split; [exact Hco|]. exists d. split; [done|]. change (settled (enqueue k (Z.to_nat L) out position r1) !! out = (λ o, file_write o position d) <$> settled r !! out).
    by rewrite Hss.
  - destruct (copy_now_ok k (Z.to_nat L) out position r1 (rg_mem _ _ _ Hrd1) Ecu) as (Hm&Hkk&Hss&Hco).
    apply wpt_now, wp_bind, wp_modify, wp_ret. split; [split; [exact Hm|eapply keeps_trans; [by apply keeps_weaken|exact Hkk]|split; cbn; congruence]|].
    split; [exact Hco|]. exists d. split; [done|]. change (settled (copy_now k (Z.to_nat L) out position r1) !! out = (λ o, file_write o position d) <$> settled r !! out).
    by rewrite Hss.
Qed.

(** ** One batch *)

Lemma mono_fill_tiles b out positions e : mono rr_clock (fill_tiles b out positions e).
Proof. revert e. induction positions as [|p ps IH]; intros e; cbn [fill_tiles]; [solve_mono|]. apply mono_bind; [apply mono_fill_tile|intros; apply IH]. Qed.
Lemma covers_later r r' out e : covers r out e → keeps None r r' → covers r' out e.
Proof.
  intros Hc Hk j u Hj Ho. destruct (kp_pending _ _ _ Hk j u Hj ltac:(done)) as (j'&Hj'&He). destruct (Hc j' u Hj' Ho) as (e'&->&?). exists e'. split; [done|lia].
Qed.

Lemma covers_none r out e : covers r out None → covers r out e.
Proof. intros H j u Hj Ho. destruct (H j u Hj Ho) as (?&?&_). done. Qed.
Lemma written_tile (o d c : list byte) start position len n : length o = n → (position + len ≤ n)%nat → bytes_from d c (start + position) len →
  (∀ x, (x < position)%nat → o !! x = c !! (start + x)%nat) →
  length (file_write o position d) = n ∧ ∀ x, (x < position + len)%nat → file_write o position d !! x = c !! (start + x)%nat.
Proof.
  intros Ho Hl [Hd Hdc] Hx. split; [rewrite <- Ho; apply (write_prefix o d position); lia|]. intros x Hlt. rewrite file_write_at by lia.
  destruct (decide _); [rewrite Hdc by lia; f_equal; lia|apply Hx; lia].
Qed.

Lemma fill_tiles_spec b out i c r0 a m final r o : filling out (Some i) (Some (b_file b)) r0 r → steady i c → (t1 ≤ rr_clock r)%nat → 0 ≤ b_start b →
  let n := Z.to_nat (b_bytes b) in let tile := Z.to_nat (rr_tile r) in
  (∀ j, (j < a + m)%nat → (j * tile < n)%nat) → (n ≤ (a + m) * tile)%nat →
  covers r out final → settled r !! out = Some o → length o = n → (∀ x, (x < Nat.min n (a * tile))%nat → o !! x = c !! (Z.to_nat (b_start b) + x)%nat) →
  wpr (fill_tiles b out ((λ j, j * tile)%nat <$> seq a m) final) (λ x r', filling out (Some i) (Some (b_file b)) r0 r' ∧
    match x with Ok event => covers r' out event ∧ settled r' !! out = Some (file_read c (Z.to_nat (b_start b)) n) | Err e => e ≠ OutOfFuel end) r.
Proof.
  intros Hfg Hst Ht Hs n tile. revert a final r o Hfg Ht tile. induction m as [|m IH]; intros a final r o Hfg Ht tile Hlt Hcov Hco Hse Hlo Hx; cbn [seq fmap list_fmap fill_tiles].
  - apply wpt_now, wp_ret. split; [done|]. split; [done|]. rewrite Hse. f_equal. apply list_eq. intros x. destruct (decide (x < n)%nat).
    + rewrite file_read_at by done. apply Hx. rewrite Nat.add_0_r in Hcov. lia.
    + rewrite lookup_ge_None_2 by lia. unfold file_read. by rewrite lookup_take_ge by lia.
  - apply wpt_bind; [intros; apply mono_fill_tiles|]. destruct Hfg as [Hm Hk [Hfd Hpa]].
    assert (Ha : (a * tile < n)%nat) by (apply Hlt; lia).
    assert (Hmt : ALIGN ≤ rr_tile r) by apply Hm. unfold ALIGN in Hmt.
    eapply wpt_mono; [|apply (fill_tile_spec b out (a * tile) i c r); try done; lia].
    intros x r1 [[Hm1 Hk1 [Hfd1 Hpa1]] Hpost].
    assert (Hfg1 : filling out (Some i) (Some (b_file b)) r0 r1) by (split; [done|by eapply keeps_trans|split; congruence]).
    destruct x as [event|e]; [|by split]. destruct Hpost as (Hco1&d&Hd&Hset).
    assert (Htile : Z.to_nat (rr_tile r1) = tile) by (unfold tile; by rewrite (proj1 (kp_config _ _ _ Hk1))).
    set (len := Z.to_nat (Z.min (rr_tile r) (b_bytes b - Z.of_nat (a * tile)))) in *.
    assert (Hlen : (a * tile + len)%nat = Nat.min n (S a * tile)%nat) by (unfold len, n, tile in *; cbn [Nat.mul]; lia).
    destruct (written_tile o d c (Z.to_nat (b_start b)) (a * tile) len n Hlo ltac:(lia) Hd) as [Hlo1 Hx1]; [intros y Hy; apply Hx; lia|].
    rewrite <- Htile. apply (IH (S a) _ r1 (file_write o (a * tile) d)); rewrite ?Htile.
    + done.
    + pose proof (kp_clock _ _ _ Hk1). lia.
    + intros j Hj. apply Hlt. lia.
    + lia.
    + destruct event as [e|]; [done|by apply covers_none].
    + by rewrite Hset, Hse.
    + done.
    + intros y Hy. apply Hx1. lia.
Qed.

(** A path that names bytes [c] for the whole time. *)
Definition steady_path (path : string) (i : Z) (c : list byte) : Prop := ∀ t, (t1 ≤ t < T)%nat → names t path = Some i ∧ in_data (inodes t i) = c.

Lemma mono_open_source path : mono rr_clock (open_source path).
Proof. unfold open_source. solve_mono. Qed.
Lemma mono_fill b out : mono rr_clock (fill b out).
Proof.
  unfold fill. apply mono_bind; [apply mono_open_source|]. intros _. apply mono_bind; [apply mono_get|]. intros r. apply mono_fill_tiles.
Qed.

Lemma system_call_spec r : mem_ok r →
  wpr system_call (λ x r', x = Ok (rr_clock r) ∧ (rr_clock r < T)%nat ∧ mem_ok r' ∧ keeps None r r' ∧
    rr_fd r' = rr_fd r ∧ rr_path r' = rr_path r) r.
Proof.
  intros Hm. unfold wpt, system_call. cbn. destruct (run_uploads_ok (List.hd 0%nat (rr_engine r)) r Hm) as (Hm2&Hk2&_).
  destruct (run_uploads_env (List.hd 0%nat (rr_engine r)) r) as (Hc2&_&_). rewrite Hc2. intros HT. destruct (run_uploads_file (List.hd 0%nat (rr_engine r)) r) as (Hf&Hp&_).
  split_and!; [done|lia|by apply mem_ok_env| |exact Hf|exact Hp]. eapply keeps_trans; [exact Hk2|]. apply keeps_env. lia.
Qed.
Lemma open_ok_spec r : mem_ok r → wpr open_ok (λ x r', (x = Ok tt ∨ x = Err OSError) ∧ mem_ok r' ∧ keeps None r r') r.
Proof.
  intros Hm. apply wpt_now. unfold wp, open_ok. destruct (rr_kern r) as [|[n|] kk]; cbn; (split; [auto|]); try (split; [done|apply keeps_refl]);
    (split; [by apply mem_ok_env|by apply keeps_env]).
Qed.
Lemma set_file_ok fd pa r : mem_ok r → mem_ok (set_file fd pa r) ∧ keeps None r (set_file fd pa r).
Proof. intros []. split; [by split|]. split; try done. intros j u Hj _. by exists j. Qed.

Lemma open_source_spec path i c r : mem_ok r → (rr_path r = Some path → rr_fd r = Some i) → steady_path path i c → (t1 ≤ rr_clock r)%nat →
  wpr (open_source path) (λ x r', mem_ok r' ∧ keeps None r r' ∧ match x with Ok _ => rr_fd r' = Some i ∧ rr_path r' = Some path | Err e => e ≠ OutOfFuel end) r.
Proof.
  intros Hm Hfd Hst Ht. unfold open_source. apply wpt_bind; [intros; solve_mono|]. apply wpt_now, wp_get.
  destruct (bool_decide_reflect (rr_path r = Some path)) as [Hp|Hp].
  { apply wpt_now, wp_ret. split; [done|]. split; [apply keeps_refl|]. by split; [apply Hfd|]. }
  destruct (set_file_ok None (rr_path r) r Hm) as [Hm1 Hk1]. apply wpt_bind; [intros; solve_mono|]. apply wpt_now, wp_modify.
  apply wpt_bind; [intros; solve_mono|]. eapply wpt_mono; [|by apply system_call_spec]. intros x r2 (->&HT&Hm2&Hk2&_). cbn beta iota.
  apply wpt_bind; [intros; solve_mono|]. eapply wpt_mono; [|by apply open_ok_spec]. intros x r3 (Hx&Hm3&Hk3).
  assert (Hk : keeps None r r3) by (eapply keeps_trans; [exact Hk1|by eapply keeps_trans]).
  destruct Hx as [-> | ->]; [|by split_and!]. apply wpt_bind; [intros; solve_mono|]. apply wpt_now, wp_lift. unfold lookup_path. cbn in HT |- *.
  rewrite (proj1 (Hst (rr_clock r) ltac:(lia))). cbn. apply wpt_now, wp_modify.
  destruct (set_file_ok (Some i) (Some path) r3 Hm3) as [Hm4 Hk4]. split; [done|]. split; [by eapply keeps_trans|done].
Qed.

Lemma fill_spec b out i c r o : mem_ok r → (rr_path r = Some (b_file b) → rr_fd r = Some i) → steady_path (b_file b) i c → (t1 ≤ rr_clock r)%nat →
  0 ≤ b_start b → covers r out None → settled r !! out = Some o → length o = Z.to_nat (b_bytes b) →
  wpr (fill b out) (λ x r', mem_ok r' ∧ keeps (Some out) r r' ∧
    match x with
    | Ok event => rr_fd r' = Some i ∧ rr_path r' = Some (b_file b) ∧ covers r' out event ∧
        settled r' !! out = Some (file_read c (Z.to_nat (b_start b)) (Z.to_nat (b_bytes b)))
    | Err e => e ≠ OutOfFuel
    end) r.
Proof.
  intros Hm Hfd Hst Ht Hs Hco Hse Hlo. unfold fill.
  apply wpt_bind; [intros; apply mono_bind; [apply mono_get|intros; apply mono_fill_tiles]|].
  eapply wpt_mono; [|by apply (open_source_spec (b_file b) i c)]. intros x r1 (Hm1&Hk1&Hx).
  destruct x as [[]|e]; [|split; [done|split; [by apply keeps_weaken|done]]]. destruct Hx as [Hf1 Hp1].
  apply wpt_bind; [intros; apply mono_fill_tiles|]. apply wpt_now, wp_get.
  pose proof (mo_tile _ Hm1) as (Htile&_). unfold ALIGN in Htile.
  destruct (range_step_covers (Z.to_nat (b_bytes b)) (Z.to_nat (rr_tile r1)) ltac:(lia)) as [Hlt Hcov].
  rewrite range_step_list. eapply wpt_mono; [|apply (fill_tiles_spec b out i c r 0 (length (range_step (Z.to_nat (b_bytes b)) (Z.to_nat (rr_tile r1)))) None r1 o)].
  - intros x r2 [[Hm2 Hk2 [Hf2 Hp2]] Hpost]. split; [done|]. split; [done|]. destruct x as [event|e]; [|done]. destruct Hpost. by split_and!.
  - split; [done|by apply keeps_weaken|done].
  - intros t Htt. by apply Hst.
  - pose proof (kp_clock _ _ _ Hk1). lia.
  - done.
  - exact Hlt.
  - exact Hcov.
  - by eapply covers_later.
  - by rewrite (kp_settled _ _ _ Hk1).
  - done.
  - intros x Hx. lia.
Qed.
End reads.
#[export] Hint Resolve mono_system_call mono_open_ok mono_fill : mono.
