(* ===== verification/NvmeCoalescedProps.v ===== *)
(** The coalesced stream as a whole: the generator of batches behind the
    lookahead of [NvmePrefetch] gives the model every tensor of the checkpoint
    with the bytes of the inspected files; direct reads are aligned. *)
From S2P Require Import Prelude PyDict Bytes File NvmeTransport NvmeTransportInv NvmeArtifact NvmeArtifactProps NvmePrefetch NvmeCheckpoint NvmeStreaming NvmeStreamingProps NvmeCoalesced NvmeCoalescedPlan NvmeRange.
From stdpp Require Import base list relations gmap sets strings.
From Stdlib Require Import ZArith Lia.
#[local] Open Scope string_scope.
#[local] Open Scope list_scope.
#[local] Open Scope Z_scope.

(** * Outputs *)

Lemma uploads_other slots us (outputs : gmap nat (list byte)) o : (∀ u, u ∈ us → up_output u ≠ o) →
  foldl (λ o u, apply_upload slots u o) outputs us !! o = outputs !! o.
Proof.
  revert outputs. induction us as [|u us IH]; intros outputs Hu; [done|]. cbn [foldl]. rewrite IH by (intros; apply Hu; by right).
  unfold apply_upload. apply lookup_alter_ne. apply Hu. by left.
Qed.
Lemma uploads_same slots us (outputs outputs' : gmap nat (list byte)) o : outputs' !! o = outputs !! o →
  foldl (λ o u, apply_upload slots u o) outputs' us !! o = foldl (λ o u, apply_upload slots u o) outputs us !! o.
Proof.
  revert outputs outputs'. induction us as [|u us IH]; intros outputs outputs' Ho; [done|]. cbn [foldl]. apply IH. unfold apply_upload.
  destruct (decide (up_output u = o)) as [->|Hne]; [by rewrite !lookup_alter_eq, Ho|by rewrite !lookup_alter_ne].
Qed.

(** A piece whose event is over: its output is settled. *)
Lemma covered_output r out event : covers r out event → (∀ e, event = Some e → (e < rr_done r)%nat) → rr_outputs r !! out = settled r !! out.
Proof.
  intros Hc He. symmetry. apply uploads_other. intros u Hu Ho. apply list_elem_of_lookup in Hu as [j Hj].
  destruct (Hc j u Hj Ho) as (e&->&?). specialize (He e eq_refl). lia.
Qed.

Section delivery.
Context {D : Disk} {L : TensorLib} (garbage : nat → list byte) (garbage_length : ∀ n, length (garbage n) = n).
Context (T t1 : nat) (se : Settings) (batches : list Batch) (ino : string → Z) (ver : string → list byte).
Context (files_steady : ∀ path, path ∈ od_keys (se_stamps se) → steady_path T t1 path (ino path) (ver path)).
Context (batches_known : ∀ b, b ∈ batches → b_file b ∈ od_keys (se_stamps se) ∧ 0 ≤ b_start b ≤ b_end b).
Context (batch_bytes_ok : (ALIGN | se_batch_bytes se) ∧ ALIGN ≤ se_batch_bytes se).

(** The bytes of a batch in its file. *)
Definition batch_data (b : Batch) : list byte := file_read (ver (b_file b)) (Z.to_nat (b_start b)) (Z.to_nat (b_bytes b)).
Definition piece_ok (r : RangeReader) (x : Piece) : Prop :=
  covers r (pc_output x) (pc_event x) ∧ settled r !! pc_output x = Some (batch_data (pc_batch x)).

Record device_ok (r : RangeReader) (next : nat) (vs : list Piece) : Prop := {
  dv_mem : mem_ok r;
  dv_clock : (t1 ≤ rr_clock r)%nat;
  dv_pieces x : x ∈ vs → piece_ok r x ∧ (pc_output x < next)%nat;
  dv_next u : u ∈ rr_uploads r → (up_output u < next)%nat }.

Lemma device_keeps out r r' next vs : device_ok r next vs → mem_ok r' → keeps (Some out) r r' → (∀ x, x ∈ vs → pc_output x ≠ out) → (out < next)%nat →
  device_ok r' next vs.
Proof.
  intros [Hm Ht Hp Hn] Hm' Hk Hout Hlt. split; [done|pose proof (kp_clock _ _ _ Hk); lia| |].
  - intros x Hx. destruct (Hp x Hx) as [[Hc Hs] Hnx]. split; [|done]. specialize (Hout x Hx). split.
    + intros j u Hj Ho. destruct (kp_pending _ _ _ Hk j u Hj ltac:(congruence)) as (j'&Hj'&He). destruct (Hc j' u Hj' Ho) as (e&->&?). exists e. split; [done|lia].
    + by rewrite (kp_settled _ _ _ Hk) by congruence.
  - intros u Hu. apply list_elem_of_lookup in Hu as [j Hj]. destruct (decide (up_output u = out)) as [->|Hne]; [done|].
    destruct (kp_pending _ _ _ Hk j u Hj ltac:(congruence)) as (j'&Hj'&_). apply Hn. by eapply list_elem_of_lookup_2.
Qed.
Lemma device_same r r' next vs : device_ok r next vs → mem_ok r' → keeps None r r' → device_ok r' next vs.
Proof.
  intros [Hm Ht Hp Hn] Hm' Hk. split; [done|pose proof (kp_clock _ _ _ Hk); lia| |].
  - intros x Hx. destruct (Hp x Hx) as [[Hc Hs] Hnx]. split; [|done]. split; [by eapply covers_later|by rewrite (kp_settled _ _ _ Hk)].
  - intros u Hu. apply list_elem_of_lookup in Hu as [j Hj]. destruct (kp_pending _ _ _ Hk j u Hj ltac:(done)) as (j'&Hj'&_). apply Hn. by eapply list_elem_of_lookup_2.
Qed.

(** A fresh output. *)
Definition with_output (out : nat) (data : list byte) (r : RangeReader) : RangeReader :=
  set_device (rr_slots r) (rr_uploads r) (rr_done r) (<[out := data]> (rr_outputs r)) r.
Lemma with_output_ok data r next vs : device_ok r next vs →
  device_ok (with_output next data r) (S next) vs ∧ keeps (Some next) r (with_output next data r) ∧
  covers (with_output next data r) next None ∧ settled (with_output next data r) !! next = Some data.
Proof.
  intros Hd. pose proof Hd as [Hm Ht Hp Hn].
  assert (Hset : ∀ o, o ≠ next → settled (with_output next data r) !! o = settled r !! o).
  { intros o Ho. apply uploads_same. cbn. by apply lookup_insert_ne. }
  assert (Hk : keeps (Some next) r (with_output next data r)).
  { split; try done; [intros o Ho; apply Hset; congruence|]. intros j u Hj _. by exists j. }
  split_and!.
  - assert (Hm' : mem_ok (with_output next data r)) by (destruct Hm; by split).
    split; [done|done| |intros u Hu; specialize (Hn u Hu); lia].
    intros x Hx. destruct (Hp x Hx) as [[Hc Hs] Hlt]. split; [|lia]. split; [exact Hc|]. by rewrite Hset by lia.
  - done.
  - intros j u Hj Ho. apply list_elem_of_lookup_2 in Hj. specialize (Hn u Hj). lia.
  - unfold settled. cbn. rewrite uploads_other by (intros u Hu; specialize (Hn u Hu); lia). apply lookup_insert_eq.
Qed.

(** * One batch *)

Definition pr_clock (p : Producer) : nat := rr_clock (pr_reader p).
Abbreviation wpp := (wpt pr_clock T).
Lemma mono_on_reader {A} (m : M RangeReader A) : mono rr_clock m → mono pr_clock (on_reader m).
Proof. intros H p. unfold on_reader. specialize (H (pr_reader p)). by destruct (m (pr_reader p)). Qed.
Lemma mono_on_budget {A} (m : M OwnedStorageBudget A) : mono pr_clock (on_budget m).
Proof. intros p. unfold on_budget. by destruct (m (pr_budget p)). Qed.
Lemma mono_allocate n : mono pr_clock (allocate garbage n).
Proof. intros p. cbn. unfold pr_clock. cbn. lia. Qed.
Lemma wpp_on_reader {A} (m : M RangeReader A) (Q : res A → Producer → Prop) p :
  wpt rr_clock T m (λ x r, Q x (with_reader r p)) (pr_reader p) → wpp (on_reader m) Q p.
Proof. unfold wpt, on_reader. by destruct (m (pr_reader p)). Qed.

Definition fd_ok (r : RangeReader) : Prop := ∀ path, path ∈ od_keys (se_stamps se) → rr_path r = Some path → rr_fd r = Some (ino path).
(** A producer that runs: what it made, and what it can go on with. *)
Record running (p : Producer) (vs : list Piece) : Prop := {
  ru_device : device_ok (pr_reader p) (pr_next p) vs;
  ru_fd : fd_ok (pr_reader p);
  ru_phase : pr_phase p = Running }.

Hint Resolve mono_on_reader mono_on_budget mono_allocate : mono.
Lemma produce_batch_spec expired b vs p : running p vs → b ∈ batches →
  wpp (produce_batch garbage se expired b) (λ x p', pr_todo p' = pr_todo p ∧ pr_phase p' = Running ∧
    match x with
    | Ok v => pc_batch v = b ∧ running p' (vs ++ [v])
    | Err e => device_ok (pr_reader p') (pr_next p') vs
    end) p.
Proof.
  intros [Hd Hfd Hph] Hb. destruct (batches_known b Hb) as [Hkey Hst]. pose proof (files_steady _ Hkey) as Hsteady.
  assert (Hbytes : 0 ≤ b_bytes b) by (unfold b_bytes; lia).
  unfold produce_batch. apply wpt_bind; [intros; solve_mono|]. apply wpp_on_reader.
  eapply wpt_mono; [|apply system_call_spec, Hd]. intros x r1 (->&HT&Hm1&Hk1&Hf1&Hp1). cbn beta iota.
  pose proof (device_same _ _ _ _ Hd Hm1 Hk1) as Hd1.
  assert (Hfd1 : fd_ok r1) by (intros path Hin; rewrite Hf1, Hp1; by apply Hfd).
  apply wpt_bind; [intros; solve_mono|]. apply wpt_now, wp_lift. destruct (stamp _ _) as [now|e]; [|by split_and!].
  apply wpt_bind; [intros; solve_mono|]. apply wpt_now, wp_lift. destruct (od_get _ _) as [before|]; cbn [res_of_option]; [|by split_and!].
  apply wpt_bind; [intros; solve_mono|]. apply wpt_now, wp_raise_if. destruct (negb _); [by split_and!|].
  apply wpt_bind; [intros; solve_mono|]. apply wpt_now. unfold wp, on_budget. cbn [with_reader pr_budget].
  destruct (reserve _ _ _) as [[[]|e] bu]; cbn [fst snd]; [|by split_and!].
  apply wpt_bind; [intros; solve_mono|]. apply wpt_now. unfold wp, allocate. cbn [fst snd with_budget with_reader pr_next pr_reader pr_phase pr_budget pr_todo].
  destruct (with_output_ok (garbage (Z.to_nat (b_bytes b))) r1 (pr_next p) vs Hd1) as (Hd2&Hk2&Hco2&Hse2).
  change (set_device _ _ _ _ r1) with (with_output (pr_next p) (garbage (Z.to_nat (b_bytes b))) r1).
  set (r2 := with_output _ _ r1) in *.
  apply wpt_bind; [intros; solve_mono|]. apply wpt_now. unfold wp, on_budget. cbn [fst snd modify pr_budget with_budget pr_reader pr_next pr_phase pr_todo].
  apply wpt_bind; [intros; solve_mono|]. apply wpp_on_reader. cbn [pr_reader].
  eapply wpt_mono; [|apply (fill_spec T t1 b (pr_next p) (ino (b_file b)) (ver (b_file b)) r2 (garbage (Z.to_nat (b_bytes b)))); try done].
  - intros x r3 (Hm3&Hk3&Hx). cbn beta.
    assert (Hd3 : device_ok r3 (S (pr_next p)) vs).
    { eapply device_keeps; [exact Hd2|done|exact Hk3| |lia]. intros y Hy. destruct (dv_pieces _ _ _ Hd y Hy) as [_ ?]. lia. }
    destruct x as [event|e]; [|by split_and!]. destruct Hx as (Hf3&Hp3&Hco3&Hse3).
    apply wpt_now, wp_ret. split; [done|]. split; [done|]. split; [done|]. split; [|intros path _; cbn; congruence|done].
    destruct Hd3 as [? ? Hpieces ?]. split; [done|done| |done]. intros y [Hy| ->%list_elem_of_singleton]%elem_of_app; [by apply Hpieces|].
    split; [|cbn; lia]. by split.
  - apply Hd2.
  - intros Hpath. apply Hfd1; [done|exact Hpath].
  - apply Hd2.
  - lia.
Qed.

(** * The generator *)

Lemma mono_shut : mono pr_clock (modify shut).
Proof.
  apply mono_modify. intros p. unfold shut, close_reader, pr_clock. cbn. destruct (rr_cuda _); cbn; [|done]. unfold synchronize_stream.
  destruct (run_uploads_env (length (rr_uploads (pr_reader p))) (pr_reader p)) as (->&_). done.
Qed.
Lemma mono_open_phase : mono pr_clock (open_phase garbage se).
Proof.
  intros p. unfold open_phase, pr_clock, mbind, M_bind. cbn. destruct (pr_phase p); try done. unfold open_reader. destruct (negb _); [done|]. by destruct (_ <? _).
Qed.
(** [next] once the reader is open. *)
Definition next_batch (expired : nat → bool) : M Producer (option Piece) :=
  p ← get;
  match pr_todo p with
  | [] => modify shut;; mret None
  | b :: todo => modify (with_todo todo);; catch (x ← produce_batch garbage se expired b; mret (Some x)) (λ e, modify shut;; raise e)
  end.
Lemma mono_next_batch expired : mono pr_clock (next_batch expired).
Proof.
  apply mono_bind; [apply mono_get|intros q]. destruct (pr_todo q) as [|b todo].
  - apply mono_bind; [apply mono_shut|intros _; apply mono_ret].
  - apply mono_bind; [by apply mono_modify|intros _]. apply mono_catch; [unfold produce_batch; solve_mono|].
    intros e. apply mono_bind; [apply mono_shut|intros _; apply mono_raise].
Qed.
Lemma produce_next_eq expired : produce_next garbage se expired =
  (p ← get; match pr_phase p with Shut => mret None | _ => open_phase garbage se;; next_batch expired end).
Proof. reflexivity. Qed.
Lemma mono_produce_next expired : mono pr_clock (produce_next garbage se expired).
Proof.
  rewrite produce_next_eq. apply mono_bind; [apply mono_get|intros p].
  assert (mono pr_clock (open_phase garbage se;; next_batch expired)) by (apply mono_bind; [apply mono_open_phase|intros; apply mono_next_batch]).
  destruct (pr_phase p); [done|done|apply mono_ret].
Qed.
Lemma close_reader_ok r : mem_ok r → mem_ok (close_reader r) ∧ keeps None r (close_reader r).
Proof.
  intros Hm. unfold close_reader. destruct (rr_cuda r); [|by apply set_file_ok]. unfold synchronize_stream.
  destruct (run_uploads_ok (length (rr_uploads r)) r Hm) as (Hm'&Hk&_).
  destruct (set_file_ok None (rr_path (run_uploads (length (rr_uploads r)) r)) _ Hm') as [Hm2 Hk2]. split; [done|by eapply keeps_trans].
Qed.

(** The invariant behind the lookahead. Before its first [next] and after a
    failed start the generator has no device. *)
Record gen_ok (p : Producer) (vs : list Piece) : Prop := {
  go_batches : (pc_batch <$> vs) ++ pr_todo p = batches ∨ (pr_phase p = Shut ∧ ∃ rest, (pc_batch <$> vs) ++ rest = batches);
  go_clock : (t1 ≤ pr_clock p)%nat;
  go_device : device_ok (pr_reader p) (pr_next p) vs ∨ (vs = [] ∧ rr_uploads (pr_reader p) = []) }.
Definition can_go_on (p : Producer) (vs : list Piece) : Prop :=
  (pc_batch <$> vs) ++ pr_todo p = batches ∧ (running p vs ∨ (pr_phase p = Unstarted ∧ vs = [] ∧ rr_uploads (pr_reader p) = [])).
Definition all_made (p : Producer) (vs : list Piece) : Prop := pc_batch <$> vs = batches.

Lemma open_reader_ok r r' : (t1 ≤ rr_clock r)%nat → rr_uploads r = [] →
  open_reader garbage (se_cuda se) (se_memory se) (se_concurrency se) (se_batch_bytes se) (se_direct se) r = Ok r' →
  (∀ n, device_ok r' n []) ∧ fd_ok r'.
Proof.
  intros Ht Hu. unfold open_reader. destruct (negb _) eqn:Ec; [done|]. destruct (_ <? _) eqn:Etl; [done|]. intros [= <-].
  apply negb_false_iff, andb_prop in Ec as [Ec _]. apply Z.leb_le in Ec. apply Z.ltb_ge in Etl.
  split; [|intros path _ Hp; by cbn in Hp]. intros n. split; cbn; [split; cbn|done|intros x Hx; by apply not_elem_of_nil in Hx|intros u Hin; rewrite Hu in Hin; by apply not_elem_of_nil in Hin].
  - split; [done|]. split; [|done]. destruct batch_bytes_ok as [Hd _].
    destruct (Z.min_spec (se_batch_bytes se) ((se_memory se / 2 - ALIGN) / ALIGN * ALIGN)) as [[_ ->]|[_ ->]]; [done|by eexists].
  - done.
  - intros k s Hk. destruct k as [|[|]]; cbn in Hk; [injection Hk as <-|injection Hk as <-|done]; apply garbage_length.
  - intros j u Hj. by rewrite Hu in Hj.
  - intros k s e Hk. destruct k as [|[|]]; cbn in Hk; [injection Hk as <-|injection Hk as <-|done]; done.
  - done.
Qed.

Lemma shut_ok p vs : device_ok (pr_reader p) (pr_next p) vs → device_ok (pr_reader (shut p)) (pr_next (shut p)) vs ∧ (pr_clock p ≤ pr_clock (shut p))%nat.
Proof.
  intros Hd. destruct (close_reader_ok (pr_reader p) (dv_mem _ _ _ Hd)) as [Hm Hk]. split; [by eapply device_same|]. apply (kp_clock _ _ _ Hk).
Qed.
Definition next_outcome (vs : list Piece) (r : res (option Piece)) (p : Producer) : Prop :=
  match r with
  | Ok (Some v) => gen_ok p (vs ++ [v]) ∧ can_go_on p (vs ++ [v])
  | Ok None => gen_ok p vs ∧ all_made p vs
  | Err _ => gen_ok p vs
  end.
Lemma next_running expired vs p : running p vs → (pc_batch <$> vs) ++ pr_todo p = batches →
  wpp (next_batch expired) (next_outcome vs) p.
Proof.
  intros Hru Hbs. unfold wpt, next_batch. rewrite run_get. change (wpp (match pr_todo p with
       | [] => modify shut;; mret None
       | b :: todo => modify (with_todo todo);; catch (x ← produce_batch garbage se expired b; mret (Some x)) (λ e, modify shut;; raise e)
       end) (next_outcome vs) p). destruct (shut_ok p vs (ru_device _ _ Hru)) as [Hsd Hsc]. pose proof (dv_clock _ _ _ (ru_device _ _ Hru)) as Ht.
  destruct (pr_todo p) as [|b todo] eqn:Etd.
  - apply wpt_now, wp_bind, wp_modify, wp_ret. rewrite app_nil_r in Hbs. split; [|done]. split; [left|unfold pr_clock in *; lia|by left].
    cbn. by rewrite Etd, app_nil_r.
  - assert (Hb : b ∈ batches) by (rewrite <- Hbs; set_solver).
    apply wpt_bind; [intros; apply mono_catch; [unfold produce_batch; solve_mono|intros e; apply mono_bind; [apply mono_shut|intros; apply mono_raise]]|].
    apply wpt_now, wp_modify. apply wpt_catch; [intros e; apply mono_bind; [apply mono_shut|intros; apply mono_raise]|].
    apply wpt_bind; [intros; apply mono_ret|].
    eapply wpt_mono; [|apply (produce_batch_spec expired b vs); [|done]]; [|destruct Hru; by split].
    intros [v|e] p1 (Htd&Hph&Hpost); cbn in Htd.
    + destruct Hpost as [<- Hru1]. apply wpt_now, wp_ret. assert (Hbs1 : (pc_batch <$> vs ++ [v]) ++ pr_todo p1 = batches) by (rewrite Htd, fmap_app, <- app_assoc; done).
      split; [split; [by left|apply Hru1|left; apply Hru1]|]. split; [done|by left].
    + destruct (shut_ok p1 vs Hpost) as [Hsd1 Hsc1]. apply wpt_now, wp_bind, wp_modify. split; [right; split; [done|by eexists]| |by left].
      pose proof (dv_clock _ _ _ Hpost). unfold pr_clock in *. cbn in *. lia.
Qed.
Lemma gen_ok_next expired vs p : gen_ok p vs → can_go_on p vs → wpp (produce_next garbage se expired) (next_outcome vs) p.
Proof.
  intros Hok [Hbs Hgo]. pose proof (go_clock _ _ Hok) as Ht. rewrite produce_next_eq. unfold wpt. rewrite run_get.
  assert (Hopen : wpp (open_phase garbage se;; next_batch expired) (next_outcome vs) p).
  { apply wpt_bind; [intros; apply mono_next_batch|]. apply wpt_now. unfold wp, open_phase. rewrite run_get.
    destruct Hgo as [Hru|(Hph&->&Hu)].
    - rewrite (ru_phase _ _ Hru). by apply next_running.
    - rewrite Hph. destruct (open_reader _ _ _ _ _ _ (pr_reader p)) as [r|e] eqn:Eo.
      + destruct (open_reader_ok _ _ Ht Hu Eo) as [Hd Hfd]. cbn. apply next_running; [by split|exact Hbs].
      + rewrite run_modify. cbn. split; [right; split; [done|by exists batches]|exact Ht|by right]. }
  destruct (pr_phase p) eqn:Eph; [exact Hopen|exact Hopen|]. destruct Hgo as [Hru|(Hph&_)]; [destruct Hru; congruence|congruence].
Qed.

Lemma gen_ok_device r p vs : gen_ok p vs → (t1 ≤ rr_clock r)%nat →
  (device_ok (pr_reader p) (pr_next p) vs → device_ok r (pr_next p) vs) → (rr_uploads (pr_reader p) = [] → rr_uploads r = []) → gen_ok (with_reader r p) vs.
Proof. intros [Hb Hc Hd] Ht H1 H2. split; [done|done|]. destruct Hd as [Hd|[-> Hu]]; [left; by apply H1|right; by split; [|apply H2]]. Qed.
Lemma can_go_on_device r p vs : can_go_on p vs → (device_ok (pr_reader p) (pr_next p) vs → device_ok r (pr_next p) vs) →
  (rr_uploads (pr_reader p) = [] → rr_uploads r = []) → rr_fd r = rr_fd (pr_reader p) → rr_path r = rr_path (pr_reader p) → can_go_on (with_reader r p) vs.
Proof.
  intros [Hb [[Hd Hf Hph]|(Hph&->&Hu)]] H1 H2 H3 H4; (split; [done|]); [left|right; by split_and!; [| |apply H2]].
  split; [by apply H1| |done]. intros path Hk. cbn. rewrite H3, H4. by apply Hf.
Qed.
Lemma device_env kern engine picks r next vs : device_ok r next vs → device_ok (set_env (rr_clock r) kern engine picks r) next vs.
Proof. intros Hd. eapply device_same; [exact Hd|apply mem_ok_env, Hd|by apply keeps_env]. Qed.
Lemma device_run r next vs : device_ok r next vs → device_ok (run_upload r) next vs.
Proof. intros Hd. destruct (run_upload_ok r (dv_mem _ _ _ Hd)) as (Hm&Hk&_). by eapply device_same. Qed.

Definition piece_views (skip : string → bool) (x : Piece) : list View :=
  view_tensor (pc_batch x) (batch_data (pc_batch x)) <$> filter (λ r : row, skip r.1 = false) (b_tensors (pc_batch x)).

Lemma coalesced_laws skip : gen_laws (next_by (gen_next garbage se) pr_clock T) gen_close env_step (use_piece skip) gen_ok can_go_on all_made all_made
  (λ x y, y = piece_views skip x).
Proof.
  split.
  - intros p vs r p' Hok Hgo [(kern&engine&picks&expired&E) HT].
    assert (Hok1 : gen_ok (with_reader (set_env (rr_clock (pr_reader p)) kern engine picks (pr_reader p)) p) vs).
    { apply gen_ok_device; [done|apply Hok|intros; by apply device_env|done]. }
    assert (Hgo1 : can_go_on (with_reader (set_env (rr_clock (pr_reader p)) kern engine picks (pr_reader p)) p) vs).
    { apply can_go_on_device; [done|intros; by apply device_env|done|done|done]. }
    pose proof (gen_ok_next expired vs _ Hok1 Hgo1) as Hn. unfold wpt in Hn. rewrite E in Hn. apply Hn, HT.
  - intros p vs r p' Hok E. split; [|by intros _ H]. unfold gen_close, produce_close in E. rewrite run_get in E.
    assert (Hsh : ∀ q, pr_todo q = pr_todo p → pr_phase q = Shut → (t1 ≤ pr_clock q)%nat →
      (device_ok (pr_reader q) (pr_next q) vs ∨ (vs = [] ∧ rr_uploads (pr_reader q) = [])) → gen_ok q vs).
    { intros q Htd Hph Hc Hd. split; [|done|done]. right. split; [done|]. destruct (go_batches _ _ Hok) as [Hb|[_ Hb]]; [by eexists|done]. }
    pose proof (go_clock _ _ Hok) as Ht.
    destruct (pr_phase p); injection E as _ <-; apply Hsh; try done; try apply Hok.
    + eapply Nat.le_trans; [exact Ht|]. exact (mono_shut p).
    + destruct (go_device _ _ Hok) as [Hd|[-> Hu]]; [left; by apply shut_ok|right]. split; [done|]. unfold shut, close_reader. cbn.
      destruct (rr_cuda _); [|done]. unfold synchronize_stream. by rewrite Hu.
  - intros p vs p' Hok [Hne ->]. assert (Hc : rr_clock (run_upload (pr_reader p)) = rr_clock (pr_reader p)) by apply (run_uploads_env 1).
    destruct (run_uploads_file 1 (pr_reader p)) as (Hf&Hp&_). split_and!; [|intros Hgo|done|done].
    + apply gen_ok_device; [done|rewrite Hc; apply Hok|intros; by apply device_run|intros Hu; by destruct Hne].
    + apply can_go_on_device; [done|intros; by apply device_run|intros Hu; by destruct Hne|exact Hf|exact Hp].
  - intros p vs x y Hok Hx Hu. destruct (go_device _ _ Hok) as [Hd|[-> _]]; [|by apply not_elem_of_nil in Hx].
    destruct (dv_pieces _ _ _ Hd x Hx) as [[Hc Hs] _]. unfold use_piece in Hu.
    assert (Hdone : ∀ e, pc_event x = Some e → (e < rr_done (pr_reader p))%nat).
    { intros e He. rewrite He in Hu. by destruct (bool_decide_reflect (e < rr_done (pr_reader p))%nat). }
    rewrite (covered_output _ _ _ Hc Hdone), Hs in Hu. unfold piece_views. cbn in Hu.
    destruct (pc_event x) as [e|]; [|by injection Hu as <-]. rewrite bool_decide_eq_true_2 in Hu by (by apply Hdone). by injection Hu as <-.
Qed.

Lemma next_clock p r p' : gen_next garbage se p r p' → (pr_clock p ≤ pr_clock p')%nat.
Proof.
  intros (kern&engine&picks&expired&E). pose proof (mono_produce_next expired (with_reader (set_env (rr_clock (pr_reader p)) kern engine picks (pr_reader p)) p)) as H.
  rewrite E in H. exact H.
Qed.
Lemma close_clock p r p' : gen_close p r p' → (pr_clock p ≤ pr_clock p')%nat.
Proof.
  unfold gen_close, produce_close. rewrite run_get. pose proof (mono_shut p) as Hm. destruct (pr_phase p); intros [= <- <-]; done.
Qed.
Lemma env_clock p p' : env_step p p' → (pr_clock p ≤ pr_clock p')%nat.
Proof. intros [_ ->]. unfold pr_clock. apply Nat.eq_le_incl. symmetry. apply (run_uploads_env 1). Qed.
End delivery.

(** * The whole stream *)

Section stream.
Context {D : Disk} {L : TensorLib} (garbage : nat → list byte) (garbage_length : ∀ n, length (garbage n) = n).

Lemma check_stamps_ok (stamps : Stamps) t t' : check_stamps stamps t = (Ok tt, t') →
  (t ≤ t')%nat ∧ ∀ path s, (path, s) ∈ stamps → ∃ u, (t ≤ u < t')%nat ∧ stamp u path = Ok s.
Proof.
  unfold check_stamps. revert t. induction stamps as [|[path st] stamps IH]; intros t; cbn [for_each].
  { intros [= <-]. split; [done|]. by intros ? ? ?%not_elem_of_nil. }
  intros (?&t1&H1&H2)%M_bind_ok. destruct (IH t1 H2) as [Hle Hall].
  apply M_bind_ok in H1 as (now&t2&H1&H3). unfold os_stamp in H1. apply M_bind_ok in H1 as (u&t3&H1&H4). injection H1 as <- <-. injection H4 as Hnow <-.
  unfold raise_if in H3. cbn [snd] in H3. destruct (negb _) eqn:Eb in H3; [discriminate|]. apply negb_false_iff, bool_decide_eq_true in Eb. subst now. injection H3 as <-. split; [lia|].
  intros p s [[= -> ->]|Hin]%elem_of_cons; [exists t; split; [lia|done]|]. destruct (Hall p s Hin) as (u&?&?). exists u. split; [lia|done].
Qed.
Lemma stamp_ino t path s : stamp t path = Ok s → names t path = Some (st_ino s) ∧ st_size s = Z.of_nat (length (bytes_at t path)).
Proof. unfold stamp, lookup_path, bytes_at. destruct (names t path) as [i|]; cbn; [|done]. by intros [= <-]. Qed.

(** A file whose stamp the inspection read and the end found again. *)
Definition inode_of (stamps : Stamps) (path : string) : Z := match od_get path stamps with Some s => st_ino s | None => 0 end.
Lemma files_steady_between (stamps : Stamps) t1 T T' : stamps_tell → NoDup (od_keys stamps) → (t1 ≤ T)%nat →
  (∀ path s, (path, s) ∈ stamps → ∃ u, (u < t1)%nat ∧ stamp u path = Ok s) → check_stamps stamps T = (Ok tt, T') →
  (∀ path, path ∈ od_keys stamps → steady_path T t1 path (inode_of stamps path) (bytes_at t1 path)) ∧
  ∀ path s u, (path, s) ∈ stamps → (u < t1)%nat → stamp u path = Ok s → bytes_at t1 path = bytes_at u path ∧ st_size s = Z.of_nat (length (bytes_at t1 path)).
Proof.
  intros Htell Hnd Ht Hread Hcheck. destruct (check_stamps_ok _ _ _ Hcheck) as [_ Hend].
  assert (Hq : ∀ path s u, (path, s) ∈ stamps → (u < t1)%nat → stamp u path = Ok s →
    bytes_at t1 path = bytes_at u path ∧ st_size s = Z.of_nat (length (bytes_at t1 path)) ∧ steady_path T t1 path (st_ino s) (bytes_at t1 path)).
  { intros path s u Hin Hu Hs. destruct (Hend path s Hin) as (w&Hw&Hsw). pose proof (Htell path u w s ltac:(lia) Hs Hsw) as Hqu.
    assert (Heq : bytes_at t1 path = bytes_at u path) by (apply (quiet_bytes path u w); [done|lia]). destruct (stamp_ino _ _ _ Hs) as [Hi Hsz].
    split_and!; [done|by rewrite Heq|]. destruct Hqu as (i&Hi'). assert (i = st_ino s) as ->.
    { destruct (Hi' u ltac:(lia)) as [Hn _]. congruence. }
    intros t Htt. rewrite Heq. apply Hi'. lia. }
  split; [|intros path s u Hin Hu Hs; by destruct (Hq path s u Hin Hu Hs) as (?&?&_)].
  intros path Hk. apply list_elem_of_fmap in Hk as ([p s]&->&Hin). cbn. destruct (Hread p s Hin) as (u&Hu&Hs).
  destruct (Hq p s u Hin Hu Hs) as (_&_&Hst). unfold inode_of. by rewrite (od_elem_get _ _ _ Hnd Hin).
Qed.

Lemma coalesced_start_ok cwd files tensors stamps concurrency memory_limit owned_limit batch_bytes device direct t se p :
  coalesced_start cwd files tensors stamps concurrency memory_limit owned_limit batch_bytes device direct t = Ok (se, p) →
  ∃ batches, plan_batches tensors stamps batch_bytes = Ok batches ∧ p = mkProducer (reader0 t) Unstarted (new_budget owned_limit) 0 batches ∧
    se_batch_bytes se = batch_bytes ∧ se_stamps se = stamps.
Proof.
  unfold coalesced_start. destruct (_ || _); [done|]. destruct (negb _); [done|]. intros (bs&Hb&H)%res_bind_ok. destruct (existsb _ _); [done|].
  injection H as <- <-. by exists bs.
Qed.

(** ** The names *)

Definition view_names (skip : string → bool) (rows : list row) : list string := filter (λ n, skip n = false) rows.*1.
Lemma filter_names skip (rows : list row) : (filter (λ r : row, skip r.1 = false) rows).*1 = view_names skip rows.
Proof.
  unfold view_names. induction rows as [|x rows IH]; [done|]. rewrite fmap_cons, !filter_cons. destruct (decide (skip x.1 = false)); [by rewrite fmap_cons, IH|exact IH].
Qed.
Lemma view_names_perm skip rows rows' : rows ≡ₚ rows' → view_names skip rows ≡ₚ view_names skip rows'.
Proof. intros H. unfold view_names. by rewrite H. Qed.

(** A view is the slice of the file that its tensor is. *)
Definition view_exact (ver : string → list byte) (v : View) : Prop :=
  vw_bytes v = file_read (ver (ti_file (vw_info v))) (Z.to_nat (ti_offset (vw_info v))) (Z.to_nat (ti_bytes (vw_info v))) ∧
  length (vw_bytes v) = Z.to_nat (ti_bytes (vw_info v)) ∧ (element_size (ti_dtype (vw_info v)) | vw_offset v).

Lemma slice_of_slice (c : list byte) s n o l : (o + l ≤ n)%nat → file_read (file_read c s n) o l = file_read c (s + o) l.
Proof.
  intros H. apply list_eq. intros j. destruct (decide (j < l)%nat).
  - rewrite !file_read_at by lia. f_equal. lia.
  - unfold file_read. by rewrite !lookup_take_ge by lia.
Qed.
Lemma view_tensor_exact (ver : string → list byte) size limit b x : batch_ok size limit b → size = Z.of_nat (length (ver (b_file b))) →
  row_ok (b_file b) x → x ∈ b_tensors b → (element_size (ti_dtype x.2) | ALIGN) → 0 < element_size (ti_dtype x.2) →
  view_exact ver (view_tensor b (batch_data ver b) x).
Proof.
  intros [[Hs Hsa] He Hr _ _ _] Hsize (Hf&_&Ho) Hx Hes Hep. destruct (Hr x Hx) as (H1&H2&H3). unfold row_end in H3.
  unfold view_exact, view_tensor, batch_data. cbn. rewrite Hf.
  rewrite slice_of_slice by (unfold b_bytes; lia). replace (Z.to_nat (b_start b) + Z.to_nat (ti_offset x.2 - b_start b))%nat with (Z.to_nat (ti_offset x.2)) by lia.
  split_and!; [done|rewrite file_read_length; lia|]. apply Z.divide_sub_r; [apply Z.mod_divide; [lia|done]|]. by etransitivity.
Qed.

Abbreviation coalesced_any se skip := (prefetch_any (gen_next garbage se) gen_close env_step (use_piece skip)).
Lemma run_clock se skip s s' : rtc (coalesced_any se skip) s s' → (pr_clock (gen s) ≤ pr_clock (gen s'))%nat.
Proof.
  induction 1 as [|s s1 s2 Hs _ IH]; [done|].
  pose proof (prefetch_any_clock _ _ _ _ pr_clock _ _ (next_clock garbage se) close_clock env_clock Hs). lia.
Qed.

(** What the consumer used of each batch, when the stream completed. *)
Lemma coalesced_used skip se batches t1 budget s T' : let stamps := se_stamps se in stamps_tell → NoDup (od_keys stamps) →
  (∀ path st, (path, st) ∈ stamps → ∃ u, (u < t1)%nat ∧ stamp u path = Ok st) →
  (ALIGN | se_batch_bytes se) ∧ ALIGN ≤ se_batch_bytes se →
  (∀ b, b ∈ batches → b_file b ∈ od_keys stamps ∧ 0 ≤ b_start b ≤ b_end b) →
  rtc (coalesced_any se skip) (prefetch_start (mkProducer (reader0 t1) Unstarted budget 0 batches)) s → consumer s = ConsumerEnded Completed →
  check_stamps stamps (pr_clock (gen s)) = (Ok tt, T') →
  concat (used s) = concat ((λ b, view_tensor b (batch_data (bytes_at t1) b) <$> filter (λ r : row, skip r.1 = false) (b_tensors b)) <$> batches).
Proof.
  intros stamps Htell Hnd Hread Hbb Hbs Hrun Hdone Hcheck. pose proof (run_clock _ _ _ _ Hrun) as Hc.
  change (t1 ≤ pr_clock (gen s))%nat in Hc.
  destruct (files_steady_between stamps t1 _ T' Htell Hnd Hc Hread Hcheck) as [Hsteady _].
  pose proof (coalesced_laws garbage garbage_length (pr_clock (gen s)) t1 se batches (inode_of stamps) (bytes_at t1) Hsteady Hbs Hbb skip) as Hlaws.
  assert (Hok : stream_ok (gen_ok t1 batches (bytes_at t1)) (can_go_on t1 se batches (inode_of stamps) (bytes_at t1))
    (all_made batches) (all_made batches) (λ x y, y = piece_views (bytes_at t1) skip x) s).
  { eapply stream_run_ok; [exact Hlaws|apply (run_by _ _ _ _ pr_clock); [apply next_clock|apply close_clock|apply env_clock|exact Hrun|done]|].
    apply prefetch_start_stream.
    - split; cbn; [by left|done|by right].
    - split; cbn; [done|by right]. }
  destruct (so_done _ _ _ _ _ _ Hok) as (Hall&Hdel&_); [by right|]. destruct (so_used _ _ _ _ _ _ Hok) as (cur&Hf&Hde&Hcu). rewrite Hdone in Hcu. subst cur.
  rewrite app_nil_r in Hde. rewrite <- Hde, <- Hdel in Hf. unfold all_made in Hall. rewrite <- Hall.
  assert (Hu : used s = piece_views (bytes_at t1) skip <$> produced s).
  { clear -Hf. induction Hf as [|x y l k -> _ IH]; [done|]. cbn. by f_equal. }
  rewrite Hu, <- list_fmap_compose. done.
Qed.

Lemma views_names skip ver (bs : list Batch) :
  vw_name <$> concat ((λ b, view_tensor b (batch_data ver b) <$> filter (λ r : row, skip r.1 = false) (b_tensors b)) <$> bs) = view_names skip (tensors_in bs).
Proof.
  unfold tensors_in, view_names. induction bs as [|b bs IH]; [done|]. cbn [fmap list_fmap concat]. rewrite fmap_app, IH, fmap_app, filter_app. f_equal.
  rewrite <- list_fmap_compose. change (vw_name ∘ view_tensor b (batch_data ver b)) with (fst : row → string). apply filter_names.
Qed.
Lemma empty_names skip (tensors : list row) :
  view_names skip (with_bytes tensors) ++ (vw_name <$> empty_views skip tensors) ≡ₚ wanted skip (od_keys tensors).
Proof.
  unfold empty_views. rewrite <- list_fmap_compose. change (vw_name ∘ (λ x : row, mkView x.1 x.2 0 [])) with (fst : row → string).
  unfold wanted, od_keys, view_names, with_bytes. change Tensors with (list row). induction tensors as [|x tensors IH]; [done|].
  rewrite fmap_cons, !filter_cons. destruct (decide (ti_bytes x.2 ≠ 0)) as [Hb|Hb]; destruct (decide (skip x.1 = false)) as [Hs|Hs].
  - rewrite fmap_cons, filter_cons_True by done. rewrite decide_False by tauto. cbn. by constructor.
  - rewrite fmap_cons, filter_cons_False by done. by rewrite decide_False by tauto.
  - rewrite decide_True by (split; [lia|done]). rewrite fmap_cons, <- Permutation_middle. by constructor.
  - by rewrite decide_False by tauto.
Qed.

(** The tensors of a batch as the model gets them; the ones without bytes. *)
Lemma batch_view skip (tensors : Tensors) (stamps : Stamps) limit batches t v :
  (∀ d, 0 < element_size d ∧ (element_size d | ALIGN)) → tensors_in batches ≡ₚ with_bytes tensors →
  (∀ b, b ∈ batches → planned stamps limit b ∧ ∀ x, x ∈ b_tensors b → row_ok (b_file b) x) →
  (∀ b st, b ∈ batches → od_get (b_file b) stamps = Some st → st_size st = Z.of_nat (length (bytes_at t (b_file b)))) →
  v ∈ concat ((λ b, view_tensor b (batch_data (bytes_at t) b) <$> filter (λ r : row, skip r.1 = false) (b_tensors b)) <$> batches) →
  (vw_name v, vw_info v) ∈ tensors ∧ view_exact (bytes_at t) v.
Proof.
  intros Hes Hperm Hbs Hsize Hv. apply list_elem_of_In, in_concat in Hv as (vs&Hvs&Hv). rewrite <- list_elem_of_In in Hvs. rewrite <- ?list_elem_of_In in Hv.
  apply list_elem_of_fmap in Hvs as (b&->&Hb). apply list_elem_of_fmap in Hv as (x&->&[_ Hx]%list_elem_of_filter).
  destruct (Hbs b Hb) as [(st&Hg&Hok) Hrows]. destruct (Hes (ti_dtype x.2)) as [Hpos Hdiv]. split.
  - assert (Hin : x ∈ with_bytes tensors) by (rewrite <- Hperm; by eapply elem_of_tensors_in).
    unfold with_bytes in Hin. apply list_elem_of_filter in Hin as [_ Hin]. by destruct x.
  - by eapply view_tensor_exact; [exact Hok|by apply Hsize|apply Hrows|..].
Qed.
Lemma empty_view skip (tensors : Tensors) ver v : (∀ d, 0 < element_size d ∧ (element_size d | ALIGN)) →
  v ∈ empty_views skip tensors → (vw_name v, vw_info v) ∈ tensors ∧ view_exact ver v.
Proof.
  intros Hes Hv. unfold empty_views in Hv. apply list_elem_of_fmap in Hv as (x&->&[[Hz _] Hx]%list_elem_of_filter). split; [by destruct x|].
  unfold view_exact. cbn. rewrite Hz. split_and!; [done|done|]. apply Z.divide_0_r.
Qed.

(** C21: Coalesced loading delivers the checkpoint, if stamps tell changes.
    Assume what the loader takes its stamps for ([stamps_tell]): a path with
    the same stamp (device, inode, size, both times) at two times named the
    same inode with the same bytes all the time in between. The loader
    itself does not ensure it: a symbolic link redirected and restored
    between the two looks, or a write within one tick of the file system's
    clock, breaks it. Assume too that the element sizes of the types divide
    the alignment, and that the tables are those an inspection made between
    [t0] and [t1]. Then, when the stream completes and the last stamp check
    passes, under every order and size of reads, every pace of the copy engine
    and every schedule of the lookahead, the model got each wanted tensor
    exactly once, and each with precisely the bytes its file held when it
    was inspected, at an offset its type allows. *)
Theorem coalesced_delivers cwd files (tensors : Tensors) (stamps : Stamps) concurrency memory_limit owned_limit batch_bytes device direct skip t0 t1 se p s T' :
  stamps_tell → (∀ d, 0 < element_size d ∧ (element_size d | ALIGN)) → tables_ok t0 t1 tensors stamps →
  coalesced_start cwd files tensors stamps concurrency memory_limit owned_limit batch_bytes device direct t1 = Ok (se, p) →
  rtc (coalesced_any se skip) (prefetch_start p) s → consumer s = ConsumerEnded Completed →
  check_stamps stamps (pr_clock (gen s)) = (Ok tt, T') →
  let views := concat (used s) ++ empty_views skip tensors in
  vw_name <$> views ≡ₚ wanted skip (od_keys tensors) ∧
  ∀ v, v ∈ views → (vw_name v, vw_info v) ∈ tensors ∧ view_exact (bytes_at t1) v ∧
    ∃ u, (t0 ≤ u < t1)%nat ∧ bytes_at u (ti_file (vw_info v)) = bytes_at t1 (ti_file (vw_info v)).
Proof.
  intros Htell Hes [Hnames Hpaths Htens Hstm] Hstart Hrun Hdone Hcheck views.
  destruct (coalesced_start_ok _ _ _ _ _ _ _ _ _ _ _ _ _ Hstart) as (batches&Hplan&->&Hbb&Hst).
  destruct (plan_batches_ok _ _ _ _ Hplan Hpaths) as (Hperm&Hdiv&Hle&Hbs).
  assert (Hread : ∀ path st, (path, st) ∈ stamps → ∃ u, (t0 ≤ u < t1)%nat ∧ stamp u path = Ok st).
  { intros path st Hin. destruct (Hstm _ _ Hin) as (u1&u2&?&?&?&_). exists u1. split; [lia|done]. }
  pose proof (run_clock _ _ _ _ Hrun) as Hc. change (t1 ≤ pr_clock (gen s))%nat in Hc.
  destruct (files_steady_between stamps t1 _ T' Htell Hpaths Hc) as [_ Hsame]; [intros path st Hin; destruct (Hread _ _ Hin) as (u&?&?); exists u; split; [lia|done]|done|].
  assert (Hread1 : ∀ path st, (path, st) ∈ stamps → ∃ u, (u < t1)%nat ∧ stamp u path = Ok st).
  { intros path st Hin. destruct (Hread _ _ Hin) as (u&?&?). exists u. split; [lia|done]. }
  assert (Hbk : ∀ b, b ∈ batches → b_file b ∈ od_keys stamps ∧ 0 ≤ b_start b ≤ b_end b).
  { intros b Hb. destruct (Hbs b Hb) as [(st&Hg&[Hs He Hr _ (f&l&Hf&_) _]) _]. split; [by eapply od_get_Some_key|].
    destruct (Hr f) as (?&?&?); [by apply head_Some_elem_of|]. unfold row_end in *. lia. }
  assert (Hused := coalesced_used skip se batches t1 (new_budget owned_limit) s T').
  rewrite Hst, Hbb in Hused. cbv zeta in Hused. specialize (Hused Htell Hpaths Hread1 (conj Hdiv Hle) Hbk Hrun Hdone Hcheck).
  subst views. rewrite Hused. split.
  { rewrite fmap_app, views_names. rewrite (view_names_perm _ _ _ Hperm). apply empty_names. }
  intros v Hv. assert (Hv' : (vw_name v, vw_info v) ∈ tensors ∧ view_exact (bytes_at t1) v).
  { apply elem_of_app in Hv as [Hv|Hv]; [|by apply (empty_view skip)]. eapply (batch_view skip); [exact Hes|exact Hperm|exact Hbs| |exact Hv].
    intros b st _ Hg. apply od_get_elem in Hg. destruct (Hread1 _ _ Hg) as (u&?&?). by apply (Hsame (b_file b) st u). }
  destruct Hv' as [Hin Hex]. split; [done|]. split; [done|]. destruct (Htens _ _ Hin) as (_&Hkey&_).
  apply list_elem_of_fmap in Hkey as ([path st]&->&Hpst). destruct (Hread _ _ Hpst) as (u&Hu&Hs). exists u. split; [done|]. symmetry.
  apply (Hsame path st u); [done|lia|done].
Qed.
End stream.

(** * A concrete checkpoint *)

Lemma sample_tells : @stamps_tell sample_disk.
Proof.
  intros path t1 t2 s _. unfold stamp, lookup_path, quiet, bytes_at. cbn. destruct (String.eqb path _); [|done]. intros _ _. by exists 7.
Qed.
Lemma sample_tables : tables_ok 0 6 sample_metadata.1.1 sample_metadata.1.2.
Proof. exact (proj1 (checkpoint_metadata_ok "/m" ["a.safetensors"] 0 sample_metadata 6 sample_inspected)). Qed.

(** One tensor of three bytes, one without any; the copy engine is behind. *)
Definition sample_coalesced : res (Settings * Producer) :=
  coalesced_start "/m" ["a.safetensors"] sample_metadata.1.1 sample_metadata.1.2 2 24576 1000 4096 "cuda" true 6.
Definition sample_settings : Settings := mkSettings true 24576 2 4096 true sample_metadata.1.2.
Definition sample_batch : Batch := mkBatch "/m/a.safetensors" 0 13 [("a", mkInfo "a" [3] "uint8" 3 "/m/a.safetensors" 10)].
Definition sample_producer : Producer := mkProducer (reader0 6) Unstarted (new_budget 1000) 0 [sample_batch].
Definition sample_next (p : Producer) : res (option Piece) * Producer := produce_next zeros sample_settings (λ _, false) p.
Definition sample_filled : Producer := (sample_next sample_producer).2.
Definition sample_copied : Producer := with_reader (run_upload (pr_reader sample_filled)) sample_filled.
Definition sample_shut : Producer := shut sample_copied.
Definition sample_piece : Piece := mkPiece sample_batch (Some 0%nat) 0.
Definition sample_view : View := mkView "a" (mkInfo "a" [3] "uint8" 3 "/m/a.safetensors" 10) 10 [Byte.x01; Byte.x02; Byte.x03].
Definition sample_done : Prefetch :=
  mkPrefetch sample_shut PumpEnded None 1 true (ConsumerEnded Completed) [sample_piece] [sample_piece] [[sample_view]].

Lemma sample_same p : sample_next p = produce_next zeros sample_settings (λ _, false)
  (with_reader (set_env (rr_clock (pr_reader p)) (rr_kern (pr_reader p)) (rr_engine (pr_reader p)) (rr_picks (pr_reader p)) (pr_reader p)) p).
Proof. by destruct p as [[]]. Qed.
Lemma sample_gen p r p' : sample_next p = (r, p') → gen_next zeros sample_settings p r p'.
Proof. rewrite sample_same. intros H. by eexists _, _, _, _. Qed.
Lemma sample_first : sample_next sample_producer = (Ok (Some sample_piece), sample_filled).
Proof. vm_compute. reflexivity. Qed.
Lemma sample_second : sample_next sample_copied = (Ok None, sample_shut).
Proof. vm_compute. reflexivity. Qed.
Lemma sample_used : use_piece (λ _, false) sample_copied sample_piece = Some [sample_view].
Proof. vm_compute. reflexivity. Qed.
Lemma sample_closed : gen_close sample_shut (Ok tt) sample_shut.
Proof. vm_compute. reflexivity. Qed.
Lemma sample_waits : env_step sample_filled sample_copied.
Proof. split; [vm_compute; discriminate|done]. Qed.
Lemma sample_run : rtc (prefetch_any (gen_next zeros sample_settings) gen_close env_step (use_piece (λ _, false))) (prefetch_start sample_producer) sample_done.
Proof.
  eapply rtc_l; [left; by eapply (pf_acquire _ _ _ _ _ 0)|].
  eapply rtc_l; [left; eapply (pf_next _ _ _ _ _ (Ok (Some sample_piece))); [done|exact (sample_gen _ _ _ sample_first)]|].
  eapply rtc_l; [left; by eapply (pf_put _ _ _ _ _ sample_piece)|].
  eapply rtc_l; [left; by eapply (pf_get _ _ _ _ _ (Tensor sample_piece))|].
  eapply rtc_l; [left; eapply (pf_env _ _ _ _ _ _), sample_waits|].
  eapply rtc_l; [left; eapply (pf_resume _ _ _ _ _ sample_piece [sample_view]); [done|exact sample_used]|].
  eapply rtc_l; [left; by eapply (pf_acquire _ _ _ _ _ 0)|].
  eapply rtc_l; [left; eapply (pf_next _ _ _ _ _ (Ok None)); [done|exact (sample_gen _ _ _ sample_second)]|].
  eapply rtc_l; [left; eapply (pf_close _ _ _ _ _ Done (Ok tt)); [done|exact sample_closed]|].
  eapply rtc_l; [left; by eapply (pf_last _ _ _ _ _ Done)|].
  eapply rtc_l; [left; by eapply (pf_get _ _ _ _ _ (Last Done))|].
  eapply rtc_l; [left; by eapply (pf_join _ _ _ _ _ Completed)|].
  apply rtc_refl.
Qed.
Lemma sample_checked : check_stamps sample_metadata.1.2 (pr_clock (gen sample_done)) = (Ok tt, S (pr_clock (gen sample_done))).
Proof. vm_compute. reflexivity. Qed.
Lemma coalesced_delivers_witness :
  vw_name <$> concat (used sample_done) ++ empty_views (λ _, false) sample_metadata.1.1 ≡ₚ ["a"; "e"] ∧ view_exact (bytes_at 6) sample_view.
Proof.
  destruct (coalesced_delivers zeros zeros_length "/m" ["a.safetensors"] sample_metadata.1.1 sample_metadata.1.2 2 24576 1000 4096 "cuda" true
    (λ _, false) 0 6 sample_settings sample_producer sample_done (S (pr_clock (gen sample_done))) sample_tells) as [Hn Hv].
  - intros d. split; [done|apply Z.divide_1_l].
  - exact sample_tables.
  - vm_compute. reflexivity.
  - exact sample_run.
  - done.
  - exact sample_checked.
  - split; [exact Hn|]. apply Hv. cbn. by left.
Defined.

(** A path with [..] in it: the inspection keeps it, [os.path.abspath]
    resolves it, and the coalesced stream rejects the checkpoint that was
    just inspected. *)
Definition dotdot_disk : Disk := mkDisk (λ _ p, if String.eqb p "/m/../m/a.safetensors" then Some 7 else None) (λ _ _, mkInode 1 10 10 sample_file).
Example dotdot_rejected : ∃ tensors stamps id,
  checkpoint_metadata (D := dotdot_disk) "/m" ["../m/a.safetensors"] 0%nat = (Ok (tensors, stamps, id), 6%nat) ∧
  coalesced_start "/m" ["../m/a.safetensors"] tensors stamps 2 24576 1000 4096 "cuda" true 6 = Err ValueError.
Proof. eexists _, _, _. split; vm_compute; reflexivity. Qed.
