(* ===== verification/NvmeAligned.v ===== *)
(** Reading through [O_DIRECT]: the kernel refuses a direct read whose buffer,
    file offset or length is no multiple of the page.  Every read that the
    coalesced stream of src/runtime/nvme_loader/spark_nvme/coalesced.py makes
    through the direct descriptor is one, under every order of reads, every
    short read and every schedule of the lookahead; and no read, direct or
    not, goes past the end of its host tile. *)
From S2P Require Import Prelude PyDict Bytes File NvmeTransport NvmeTransportInv NvmeArtifact NvmeArtifactProps NvmePrefetch NvmeCheckpoint NvmeStreaming NvmeStreamingProps NvmeCoalesced NvmeCoalescedPlan NvmeRange NvmeCoalescedProps.
From stdpp Require Import base list relations gmap sets strings.
From Stdlib Require Import ZArith Lia.
#[local] Open Scope string_scope.
#[local] Open Scope list_scope.
#[local] Open Scope Z_scope.

(** * Programs that keep an invariant *)

Section pres.
Context {S : Type} (I : S → Prop).
Definition pres {A} (m : M S A) : Prop := ∀ s, I s → I (m s).2.
Lemma pres_bind {A B} (m : M S A) (k : A → M S B) : pres m → (∀ a, pres (k a)) → pres (m ≫= k).
Proof.
  intros Hm Hk s Hs. unfold mbind, M_bind. specialize (Hm s Hs). destruct (m s) as [[a|e] s1]; [|exact Hm]. by apply Hk.
Qed.
Lemma pres_get {B} (k : S → M S B) : (∀ s, I s → pres (k s)) → pres (get ≫= k).
Proof. intros Hk s Hs. exact (Hk s Hs s Hs). Qed.
Lemma pres_ret {A} (a : A) : pres (mret a).
Proof. by intros s. Qed.
Lemma pres_raise {A} e : pres (raise e : M S A).
Proof. by intros s. Qed.
Lemma pres_lift {A} (r : res A) : pres (lift r).
Proof. by intros s. Qed.
Lemma pres_modify (f : S → S) : (∀ s, I s → I (f s)) → pres (modify f).
Proof. intros H s Hs. exact (H s Hs). Qed.
Lemma pres_raise_if b e : pres (raise_if b e).
Proof. intros s Hs. unfold raise_if. by destruct b. Qed.
Lemma pres_outcome {A} (m : M S A) : pres m → pres (outcome m).
Proof. intros Hm s Hs. unfold outcome. specialize (Hm s Hs). by destruct (m s). Qed.
Lemma pres_catch {A} (m : M S A) h : pres m → (∀ e, pres (h e)) → pres (catch m h).
Proof. intros Hm Hh s Hs. unfold catch. specialize (Hm s Hs). destruct (m s) as [[a|e] s1]; [exact Hm|by apply Hh]. Qed.
End pres.
Create HintDb pres.
#[export] Hint Resolve pres_ret pres_raise pres_lift pres_raise_if pres_outcome : pres.

(** * The reader *)

(** What a read must be, with tiles of [tile] bytes. *)
Record call_ok (tile : Z) (c : Call) : Prop := {
  co_within : Z.of_nat (ca_position c) + Z.of_nat (ca_length c) ≤ tile;
  co_aligned : ca_direct c = true → (ALIGN | ca_offset c) ∧ (ALIGN | Z.of_nat (ca_position c)) ∧ (ALIGN | Z.of_nat (ca_length c)) }.

Section reader.
Context {D : Disk} (tile concurrency : Z).
Context (tile_ok : (ALIGN | tile) ∧ 0 < tile) (concurrency_ok : 1 ≤ concurrency).
Record calls_ok (r : RangeReader) : Prop := {
  cl_tile : rr_tile r = tile;
  cl_concurrency : rr_concurrency r = concurrency;
  cl_calls : Forall (call_ok tile) (rr_calls r) }.
Abbreviation presr := (pres calls_ok).

Lemma run_uploads_calls n r : rr_tile (run_uploads n r) = rr_tile r ∧ rr_concurrency (run_uploads n r) = rr_concurrency r ∧ rr_calls (run_uploads n r) = rr_calls r.
Proof.
  induction n as [|n IH]; [done|]. change (run_uploads (S n) r) with (run_upload (run_uploads n r)).
  unfold run_upload. by destruct (rr_uploads (run_uploads n r)).
Qed.
Lemma calls_ok_uploads n r : calls_ok r → calls_ok (run_uploads n r).
Proof. intros [H1 H2 H3]. destruct (run_uploads_calls n r) as (E1&E2&E3). split; congruence. Qed.
Lemma pres_system_call : presr system_call.
Proof. intros r Hr. destruct (calls_ok_uploads (List.hd 0%nat (rr_engine r)) r Hr). by split. Qed.
Lemma pres_open_ok : presr open_ok.
Proof. intros r [H1 H2 H3]. unfold open_ok. by destruct (rr_kern r) as [|[] ?]; split. Qed.
Lemma pres_modify_same (f : RangeReader → RangeReader) :
  (∀ r, rr_tile (f r) = rr_tile r ∧ rr_concurrency (f r) = rr_concurrency r ∧ rr_calls (f r) = rr_calls r) → presr (modify f).
Proof. intros Hf. apply pres_modify. intros r [H1 H2 H3]. destruct (Hf r) as (E1&E2&E3). split; congruence. Qed.
Lemma pres_next_pick n : presr (next_pick n).
Proof. intros r [H1 H2 H3]. by split. Qed.
Hint Resolve pres_system_call pres_open_ok pres_next_pick : pres.

Lemma pres_preadv direct k pos want offset : call_ok tile (mkCall direct offset pos want) → presr (preadv direct k pos want offset).
Proof.
  intros Hc. unfold preadv. apply pres_bind; [auto with pres|intros t].
  apply pres_bind; [apply pres_modify; intros r [H1 H2 H3]; split; [done|done|]; cbn; apply Forall_app; by split; [|constructor]|intros _].
  apply pres_get. intros r _. apply pres_bind; [auto with pres|intros ino]. destruct (xfer _ _) as [moved kern].
  apply pres_bind; [by apply pres_modify_same|intros _]. destruct moved as [m|]; [|auto with pres].
  apply pres_bind; [by apply pres_modify_same|intros _; auto with pres].
Qed.
Lemma pres_reopen (b : bool) : presr (if b then system_call;; open_ok else mret tt).
Proof. destruct b; [apply pres_bind|]; auto with pres. Qed.
Lemma preadv_bound direct k pos want offset r n : (preadv direct k pos want offset r).1 = Ok n → (n ≤ want)%nat.
Proof.
  unfold preadv, system_call, mbind, M_bind. cbn. destruct (rr_fd _) as [i|]; [|done]. cbn. set (avail := file_read _ _ want).
  assert (Ha : (length avail ≤ want)%nat) by (unfold avail; rewrite file_read_length; lia).
  destruct (xfer _ _) as [[m|] kern] eqn:Ex; [|done]. cbn. intros [= <-]. unfold xfer in Ex. destruct (rr_kern _) as [|[]]; simplify_eq; lia.
Qed.
(** After the first read the descriptor is a buffered one. *)
Lemma pres_read_aligned fuel direct buffered k pos len offset required dn :
  Z.of_nat pos + Z.of_nat len ≤ tile → (dn ≤ len)%nat → (dn ≠ 0%nat → dn < required → direct = true → buffered = true)%nat → (required ≤ len)%nat →
  (direct = true → (ALIGN | offset) ∧ (ALIGN | Z.of_nat pos) ∧ (ALIGN | Z.of_nat len)) →
  presr (read_aligned fuel direct buffered k pos len offset required dn).
Proof.
  revert buffered dn. induction fuel as [|fuel IH]; intros buffered dn Hw Hd Hb Hr Hal; cbn [read_aligned].
  { destruct (bool_decide _); auto with pres. }
  destruct (bool_decide_reflect (dn < required)%nat) as [Hlt|]; [|auto with pres].
  assert (Hc : call_ok tile (mkCall (direct && negb buffered) (offset + Z.of_nat dn) (pos + dn) (len - dn))).
  { split; cbn; [lia|]. intros [-> Hbu]%andb_prop. apply negb_true_iff in Hbu. subst buffered.
    destruct (decide (dn = 0%nat)) as [->|Hn]; [|discriminate (Hb Hn Hlt eq_refl)].
    rewrite Z.add_0_r, Nat.add_0_r, Nat.sub_0_r. by apply Hal. }
  intros r Hcr. pose proof (pres_preadv _ k _ _ _ Hc r Hcr) as Hp.
  pose proof (preadv_bound (direct && negb buffered) k (pos + dn) (len - dn) (offset + Z.of_nat dn) r) as Hn.
  unfold mbind, M_bind. destruct (preadv _ _ _ _ _ r) as [[n|e] r1]; cbn [fst snd] in *; [|exact Hp]. specialize (Hn _ eq_refl).
  destruct (bool_decide (n = 0)%nat); [exact Hp|]. revert r1 Hp. change (presr (
    (if bool_decide (dn + n < required)%nat && direct && negb buffered then system_call;; open_ok else mret tt);;
    read_aligned fuel direct (buffered || (bool_decide (dn + n < required)%nat && direct && negb buffered)) k pos len offset required (dn + n))).
  apply pres_bind; [apply pres_reopen|intros _]. apply IH; try done; [lia|].
  intros _ Hlt' ->. rewrite bool_decide_eq_true_2 by done. by destruct buffered.
Qed.

Lemma pres_read k src offset len : 0 ≤ offset → 0 < len → offset + len ≤ tile → (ALIGN | src) → (ALIGN | offset) → presr (read k src offset len).
Proof.
  intros Ho Hl Ht Hs Ha. unfold read. apply pres_get. intros r Hr. rewrite (cl_tile _ Hr). destruct (align_spec len ltac:(lia)) as (H1&H2&H3).
  apply pres_read_aligned; [lia|lia|done|lia|]. intros _. rewrite !Z2Nat.id by lia. split_and!; [by apply Z.divide_add_r|done|].
  destruct (Z.min_spec (align len) (tile - offset)) as [[_ ->]|[_ ->]]; [done|apply Z.divide_sub_r; [apply tile_ok|done]].
Qed.
Lemma pres_run_jobs n k src jobs results : (∀ x, x ∈ jobs → 0 ≤ x.1.2 ∧ 0 < x.2 ∧ x.1.2 + x.2 ≤ tile ∧ (ALIGN | x.1.2)) → (ALIGN | src) →
  presr (run_jobs n k src jobs results).
Proof.
  intros Hj Hs. revert jobs results Hj. induction n as [|n IH]; intros jobs results Hj; cbn [run_jobs]; [auto with pres|].
  apply pres_bind; [auto with pres|intros i]. destruct (jobs !! i) as [[[j offset] len]|] eqn:Ei; [|auto with pres].
  destruct (Hj (j, offset, len)) as (?&?&?&?); [by eapply list_elem_of_lookup_2|]. cbn in *.
  apply pres_bind; [by apply pres_outcome, pres_read|intros x]. apply IH. intros y Hy. apply Hj.
  by apply (elem_of_submseteq (delete i jobs)); [|apply sublist_submseteq, sublist_delete].
Qed.
Lemma pres_fill_tile b output position : 0 ≤ position → position < b_bytes b → (ALIGN | position) → (ALIGN | b_start b) → presr (fill_tile b output (Z.to_nat position)).
Proof.
  intros Hp Hlt Ha Hb. unfold fill_tile. apply pres_get. intros r Hr. apply pres_bind; [by apply pres_modify_same|intros _].
  apply pres_bind.
  { destruct (rr_slots r !! _) as [[? [e|]]|]; auto with pres. apply pres_modify. intros r' Hr'. by apply calls_ok_uploads. }
  intros _. rewrite (cl_tile _ Hr), (cl_concurrency _ Hr). set (len := Z.min tile _). assert (Hlen : 0 < len ≤ tile) by (unfold len; destruct tile_ok; lia).
  apply pres_bind.
  { rewrite Z2Nat.id by lia. apply pres_run_jobs; [|by apply Z.divide_add_r]. destruct (tile_jobs_list len concurrency concurrency_ok ltac:(lia)) as (Hjobs&Hj&_).
    destruct (quantum_ok len concurrency concurrency_ok ltac:(lia)) as [Hq Hqa]. intros x Hx. rewrite Hjobs in Hx. apply list_elem_of_fmap in Hx as (j&->&Hjs).
    apply elem_of_seq in Hjs. specialize (Hj j ltac:(lia)). unfold job_of. cbn. split_and!; [lia|lia|lia|by apply Z.divide_mul_r]. }
  intros results. destruct (first_error _ _); [auto with pres|]. apply pres_get. intros r' _. destruct (rr_cuda r').
  - apply pres_bind; [by apply pres_modify_same|intros; auto with pres].
  - apply pres_bind; [by apply pres_modify_same|intros; auto with pres].
Qed.
Lemma pres_fill b output : (ALIGN | b_start b) → presr (fill b output).
Proof.
  intros Hb. unfold fill. apply pres_bind.
  { unfold open_source. apply pres_get. intros r _. destruct (bool_decide _); [auto with pres|].
    apply pres_bind; [by apply pres_modify_same|intros _]. apply pres_bind; [auto with pres|intros t]. apply pres_bind; [auto with pres|intros _].
    apply pres_bind; [auto with pres|intros ino]. by apply pres_modify_same. }
  intros _. apply pres_get. intros r Hr. rewrite (cl_tile _ Hr). destruct tile_ok as [Hd Hpos].
  assert (Hps : ∀ p, p ∈ range_step (Z.to_nat (b_bytes b)) (Z.to_nat tile) → ∃ j, p = (j * Z.to_nat tile)%nat ∧ (j * Z.to_nat tile < Z.to_nat (b_bytes b))%nat).
  { intros p Hp. destruct (range_step_covers (Z.to_nat (b_bytes b)) (Z.to_nat tile) ltac:(lia)) as [Hc _]. rewrite range_step_list in Hp.
    apply list_elem_of_fmap in Hp as (j&->&Hj). apply elem_of_seq in Hj. exists j. split; [done|apply Hc; lia]. }
  revert Hps. generalize (range_step (Z.to_nat (b_bytes b)) (Z.to_nat tile)) (@None nat). intros ps. induction ps as [|p ps IH]; intros final Hps; cbn [fill_tiles]; [auto with pres|].
  apply pres_bind; [|intros; apply IH; intros; apply Hps; by right]. destruct (Hps p ltac:(by left)) as (j&->&Hj).
  replace (j * Z.to_nat tile)%nat with (Z.to_nat (Z.of_nat j * tile)) by lia. apply pres_fill_tile; [lia|lia|by apply Z.divide_mul_r|done].
Qed.
End reader.

(** * The stream *)

Section stream.
Context {D : Disk} {L : TensorLib} (garbage : nat → list byte).

(** [tile_bytes] *)
Definition tile_of (se : Settings) : Z := Z.min (se_batch_bytes se) ((se_memory se / 2 - ALIGN) / ALIGN * ALIGN).
Context (se : Settings) (batch_bytes_ok : (ALIGN | se_batch_bytes se)).

Record reads_ok (p : Producer) : Prop := {
  rd_calls : Forall (call_ok (tile_of se)) (rr_calls (pr_reader p));
  rd_running : pr_phase p = Running → calls_ok (tile_of se) (se_concurrency se) (pr_reader p) ∧ ALIGN ≤ tile_of se ∧ 1 ≤ se_concurrency se;
  rd_todo b : b ∈ pr_todo p → (ALIGN | b_start b) }.

Lemma tile_of_ok : ALIGN ≤ tile_of se → (ALIGN | tile_of se) ∧ 0 < tile_of se.
Proof.
  unfold ALIGN in *. split; [|lia]. unfold tile_of, ALIGN in *.
  destruct (Z.min_spec (se_batch_bytes se) ((se_memory se / 2 - 4096) / 4096 * 4096)) as [[_ ->]|[_ ->]]; [done|by eexists].
Qed.
Lemma reads_ok_reader p r : reads_ok p → rr_calls r = rr_calls (pr_reader p) → rr_tile r = rr_tile (pr_reader p) → rr_concurrency r = rr_concurrency (pr_reader p) →
  reads_ok (with_reader r p).
Proof.
  intros [Hc Hr Ht] E1 E2 E3. split; [cbn; by rewrite E1|cbn; intros Hph|done]. destruct (Hr Hph) as ([H1 H2 H3]&?&?). split; [split; congruence|done].
Qed.
Lemma pres_running {A} (m : M RangeReader A) : pres (calls_ok (tile_of se) (se_concurrency se)) m →
  pres (λ p, reads_ok p ∧ pr_phase p = Running) (on_reader m).
Proof.
  intros Hm p [[Hc Hr Ht] Hph]. unfold on_reader. destruct (Hr Hph) as (Hcl&Hr1&Hr2). specialize (Hm _ Hcl). destruct (m (pr_reader p)) as [x r].
  split; [|exact Hph]. split; [apply Hm|done|done].
Qed.
Lemma pres_budget {A} (m : M OwnedStorageBudget A) : pres (λ p, reads_ok p ∧ pr_phase p = Running) (on_budget m).
Proof. intros p [[Hc Hr Ht] Hph]. unfold on_budget. destruct (m (pr_budget p)) as [x b]. split; [by split|exact Hph]. Qed.
Lemma pres_produce_batch expired b : (ALIGN | b_start b) → ALIGN ≤ tile_of se → 1 ≤ se_concurrency se →
  pres (λ p, reads_ok p ∧ pr_phase p = Running) (produce_batch garbage se expired b).
Proof.
  intros Hb Ht Hc. unfold produce_batch. apply pres_bind; [apply pres_running, pres_system_call|intros t].
  apply pres_bind; [auto with pres|intros now]. apply pres_bind; [auto with pres|intros before]. apply pres_bind; [auto with pres|intros _].
  apply pres_bind; [apply pres_budget|intros _]. apply pres_bind; [|intros output].
  { intros p [[H1 H2 H3] Hph]. split; [|done]. split; [done|intros Hr; destruct (H2 Hr) as ([]&?&?); by split|done]. }
  apply pres_bind; [apply pres_budget|intros _]. apply pres_bind; [|intros; auto with pres].
  apply pres_running. by apply pres_fill; [apply tile_of_ok| |].
Qed.

Lemma reads_ok_shut p : reads_ok p → reads_ok (shut p).
Proof.
  intros [Hc _ Ht]. split; [|done|done]. cbn. unfold close_reader. destruct (rr_cuda _); [|exact Hc]. cbn. unfold synchronize_stream.
  destruct (run_uploads_calls (length (rr_uploads (pr_reader p))) (pr_reader p)) as (_&_&->). exact Hc.
Qed.
Lemma pres_open_phase p : reads_ok p → let '(r, p') := open_phase garbage se p in
  reads_ok p' ∧ pr_todo p' = pr_todo p ∧ (is_ok r = true → pr_phase p ≠ Shut → pr_phase p' = Running).
Proof.
  intros Hp. unfold open_phase. rewrite run_get. destruct (pr_phase p) eqn:Eph; [|cbn; by rewrite ?Eph..].
  destruct (open_reader _ _ _ _ _ _ (pr_reader p)) as [r|e] eqn:Eo; [|cbn; split; [destruct Hp; by split|done]].
  unfold open_reader in Eo. destruct (negb _) eqn:Ec; [done|]. destruct (_ <? ALIGN) eqn:Etl; [done|]. injection Eo as <-.
  apply negb_false_iff, andb_prop in Ec as [Ec _]. apply Z.leb_le in Ec. apply Z.ltb_ge in Etl. destruct Hp as [Hc _ Ht]. cbn.
  split; [|done]. split; [exact Hc|intros _; split; [by split|by split]|exact Ht].
Qed.
Lemma reads_ok_batch expired p : reads_ok p → pr_phase p = Running → reads_ok (next_batch garbage se expired p).2.
Proof.
  intros Hp Hph. unfold next_batch. rewrite run_get. destruct (pr_todo p) as [|b todo] eqn:Etd; rewrite run_modify; [by apply reads_ok_shut|].
  destruct (rd_running _ Hp Hph) as (_&Ht&Hc). pose proof Hp as [H1 H2 H3]. rewrite Etd in H3.
  assert (Hp2 : reads_ok (with_todo todo p) ∧ pr_phase (with_todo todo p) = Running).
  { split; [|done]. split; [done|done|]. intros b' Hb'. apply H3. by right. }
  pose proof (pres_produce_batch expired b (H3 b ltac:(by left)) Ht Hc _ Hp2) as Hpb. unfold catch, mbind, M_bind.
  destruct (produce_batch _ _ _ _ _) as [[x|e] p2]; [apply Hpb|apply reads_ok_shut, Hpb].
Qed.
Lemma reads_ok_next expired : pres reads_ok (produce_next garbage se expired).
Proof.
  intros p Hp. rewrite produce_next_eq, run_get. pose proof (pres_open_phase p Hp) as Ho. unfold mbind, M_bind.
  destruct (pr_phase p) eqn:Eph; [| |exact Hp]; destruct (open_phase garbage se p) as [[[]|e] p1]; destruct Ho as (Hp1&_&Hph1); try exact Hp1;
    by apply reads_ok_batch, Hph1.
Qed.
Lemma reads_ok_any skip s s' : prefetch_any (gen_next garbage se) gen_close env_step (use_piece skip) s s' → reads_ok (gen s) → reads_ok (gen s').
Proof.
  intros Hstep Hg. destruct Hstep as [Hstep|Hstep]; destruct Hstep; try exact Hg.
  - destruct H as [_ ->]. destruct (run_uploads_calls 1 (pr_reader (gen s))) as (?&?&?). by apply reads_ok_reader.
  - destruct H0 as (kern&engine&picks&expired&E). pose proof (reads_ok_next expired) as Hn.
    specialize (Hn (with_reader (set_env (rr_clock (pr_reader (gen s))) kern engine picks (pr_reader (gen s))) (gen s)) ltac:(by apply reads_ok_reader)).
    rewrite E in Hn. by destruct r as [[v|]|e].
  - unfold gen_close, produce_close in H0. rewrite run_get in H0. destruct (pr_phase (gen s)); injection H0 as <- <-; cbn.
    + destruct Hg; by split.
    + by apply reads_ok_shut.
    + destruct Hg; by split.
  - by destruct i as [v|[|e]].
Qed.
End stream.

(** Direct reads are aligned and in bounds.  In every state the coalesced
    stream can reach, with the consumer leaving early or not, every read the
    workers made stays within its host tile, and every read through the
    [O_DIRECT] descriptor has a file offset, a buffer position and a length
    that are multiples of the page, the last tile of a file included; the
    remainder of a short read goes through a buffered descriptor. *)
Theorem coalesced_reads_aligned {D : Disk} {L : TensorLib} (garbage : nat → list byte)
    cwd files (tensors : Tensors) (stamps : Stamps) concurrency memory_limit owned_limit batch_bytes device direct skip t1 se p s c :
  NoDup (od_keys stamps) →
  coalesced_start cwd files tensors stamps concurrency memory_limit owned_limit batch_bytes device direct t1 = Ok (se, p) →
  rtc (prefetch_any (gen_next garbage se) gen_close env_step (use_piece skip)) (prefetch_start p) s →
  c ∈ rr_calls (pr_reader (gen s)) → call_ok (tile_of se) c.
Proof.
  intros Hnd Hstart Hrun Hc. destruct (coalesced_start_ok _ _ _ _ _ _ _ _ _ _ _ _ _ Hstart) as (batches&Hplan&->&Hbb&_).
  destruct (plan_batches_ok _ _ _ _ Hplan Hnd) as (_&Hdiv&_&Hbs). rewrite <- Hbb in Hdiv.
  assert (H0 : reads_ok se (gen (prefetch_start (V:=Piece) (Y:=list View) (mkProducer (reader0 t1) Unstarted (new_budget owned_limit) 0 batches)))).
  { split; cbn; [constructor|done|]. intros b Hb. destruct (Hbs b Hb) as [(st&_&[[_ ?] _ _ _ _ _]) _]. done. }
  assert (Hs : reads_ok se (gen s)).
  { clear Hstart Hc. induction Hrun as [|s1 s2 s3 Hstep _ IH]; [done|]. apply IH. by eapply reads_ok_any. }
  pose proof (rd_calls _ _ Hs) as Hall. rewrite Forall_forall in Hall. by apply Hall.
Qed.
Lemma coalesced_reads_aligned_witness : rr_calls (pr_reader sample_shut) = [mkCall true 0 0 4096] ∧ call_ok 4096 (mkCall true 0 0 4096).
Proof.
  split; [vm_compute; reflexivity|].
  apply (coalesced_reads_aligned zeros "/m" ["a.safetensors"] sample_metadata.1.1 sample_metadata.1.2 2 24576 1000 4096 "cuda" true
    (λ _, false) 6 sample_settings sample_producer sample_done).
  - apply (bool_decide_eq_true_1 _). vm_compute. reflexivity.
  - vm_compute. reflexivity.
  - exact sample_run.
  - apply list_elem_of_In. vm_compute. by left.
Defined.
