(* ===== verification/OffConfig.v ===== *)
(** Configuration of the offloading connector's scheduler:
    [GroupOffloadConfig], [storable_blocks],
    [get_sliding_window_size_in_blocks], [resolve_mamba_align_size] and
    [SchedulerOffloadConfig.from_spec] of
    src/overlay/vllm/distributed/kv_transfer/kv_connector/v1/offloading/scheduler.py.
    Layer specifications are those of [KvSpec]; [OffloadingSpec] and the
    configuration it carries belong to the vLLM package and are a record of
    what the code reads. *)
From S2P Require Import Prelude PyDict KvSpec KvLayout.
From stdpp Require Import base list gmap sets strings.
From Stdlib Require Import ZArith Lia.
#[local] Open Scope string_scope.
#[local] Open Scope list_scope.
#[local] Open Scope Z_scope.

Section config.
Context {L : KvLib}.

Record GroupOffloadConfig := mkOff {
  group_idx : nat; gpu_block_size : Z; offloaded_block_size : Z; hash_block_size_factor : Z;
  sliding_window_size_in_blocks : option Z; alignment_block_count : option Z; eagle : bool }.

Definition storable_blocks (c : GroupOffloadConfig) (num_tokens : Z) : Z :=
  let num_blocks := num_tokens / offloaded_block_size c in
  if eagle c then Z.max 0 (num_blocks - 1) else num_blocks.

Definition get_sliding_window_size_in_blocks (spec : GroupSpec) (offloaded_block_size : Z) : res (option Z) :=
  match spec with
  | GLayer s =>
    if is_sliding_window s then
      match kind_of s ≫= window_of with
      | Some (w, _) =>
        if 0 <? w then Ok (Some (cdiv w offloaded_block_size)) else Err AssertionError
      | None => Err AttributeError
      end
    else if is_mamba s then Ok (Some 1)
    else if is_full_attention s then Ok None else Err AssertionError
  | GUniform _ _ => Err AssertionError
  end.

(** What is read of [OffloadingSpec] and the engine's configuration. *)
Record OffloadingSpec := mkOffSpec {
  spec_gpu_block_size : list Z; spec_block_size_factor : Z; spec_hash_block_size : Z; spec_offload_prompt_only : bool;
  spec_groups : list KVCacheGroupSpec; spec_world_size : Z; spec_use_eagle : bool; spec_prefix_caching : bool }.

Definition is_align_mamba (s : GroupSpec) : bool :=
  match s with GLayer (Mamba m) => String.eqb (mamba_cache_mode m) "align" | _ => false end.
(** One pass of the scan: [enumerate] meets the groups in order. *)
Definition mamba_align_one (factor : Z) (acc : option Z) (x : Z * option KVCacheGroupSpec) : res (option Z) :=
  g ← res_of_option IndexError x.2;
  if is_align_mamba (kv_cache_spec g) then
    let n := x.1 * factor in
    if match acc with None => true | Some m => m =? n end then Ok (Some n) else Err AssertionError
  else Ok acc.
Fixpoint fold_res {A B} (f : A → B → res A) (acc : A) (l : list B) : res A :=
  match l with [] => Ok acc | x :: l => acc ← f acc x; fold_res f acc l end.
(** The block sizes with the groups of the same index. *)
Definition with_groups (spec : OffloadingSpec) : list (Z * option KVCacheGroupSpec) :=
  imap (λ i n, (n, spec_groups spec !! i)) (spec_gpu_block_size spec).
Definition resolve_mamba_align_size (spec : OffloadingSpec) : res (option Z) :=
  fold_res (mamba_align_one (spec_block_size_factor spec)) None (with_groups spec).

Record SchedulerOffloadConfig := mkSchedCfg {
  kv_group_configs : list GroupOffloadConfig; block_size_factor : Z; num_workers : Z; offload_prompt_only : bool }.

(** The windows of the groups, and the size load hits are aligned to. *)
Definition window_one (factor : Z) (x : Z * option KVCacheGroupSpec) : res (option Z) :=
  g ← res_of_option IndexError x.2;
  get_sliding_window_size_in_blocks (kv_cache_spec g) (x.1 * factor).
Definition alignment_tokens (sizes : list Z) (windows : list (option Z)) (factor : Z) : option Z :=
  match remove_dups (omap (λ x : Z * option Z, match x.2 with None => Some (x.1 * factor) | Some _ => None end) (zip sizes windows)) with
  | [n] => Some n
  | _ => None
  end.
Definition _alignment_block_count (alignment : option Z) (offloaded_block_size : Z) (window : option Z) : res (option Z) :=
  match alignment, window with
  | Some a, Some w =>
    if a <=? offloaded_block_size then Ok None else
    per_segment ← floordiv a offloaded_block_size;
    Ok (if per_segment <=? w then None else Some per_segment)
  | _, _ => Ok None
  end.
Definition eagle_groups (spec : OffloadingSpec) : list nat :=
  let marked := omap (λ x : nat * KVCacheGroupSpec, if is_eagle_group x.2 then Some x.1 else None) (imap pair (spec_groups spec)) in
  match marked with
  | [] => if spec_use_eagle spec then seq 0 (length (spec_groups spec)) else []
  | _ => marked
  end.
Definition group_config (spec : OffloadingSpec) (alignment : option Z) (x : nat * (Z * option Z)) : res GroupOffloadConfig :=
  let '(i, (gpu_block_size, window)) := x in
  let size := gpu_block_size * spec_block_size_factor spec in
  factor ← floordiv size (spec_hash_block_size spec);
  count ← _alignment_block_count alignment size window;
  Ok (mkOff i gpu_block_size size factor window count (bool_decide (i ∈ eagle_groups spec))).
Definition from_spec (spec : OffloadingSpec) : res SchedulerOffloadConfig :=
  windows ← map_res (window_one (spec_block_size_factor spec)) (with_groups spec);
  let alignment := alignment_tokens (spec_gpu_block_size spec) windows (spec_block_size_factor spec) in
  configs ← map_res (group_config spec alignment) (imap pair (zip (spec_gpu_block_size spec) windows));
  Ok (mkSchedCfg configs (spec_block_size_factor spec) (spec_world_size spec) (spec_offload_prompt_only spec)).
End config.
