(* ===== verification/OffScheduler.v ===== *)
(** The scheduler side of the offloading connector:
    src/overlay/vllm/distributed/kv_transfer/kv_connector/v1/offloading/scheduler.py,
    class [OffloadingConnectorScheduler] with [RequestOffloadState].  It
    decides which blocks of a request are stored and loaded, numbers the
    transfer jobs, follows them until every worker has reported, and tells the
    workers which jobs to wait for before GPU blocks are used again.
    The offloading manager is behind an interface; request objects belong to
    the engine, which changes them between calls. *)
From S2P Require Import Prelude PyDict PyNum KvSpec KvLayout OffConfig.
From stdpp Require Import base list gmap sets strings.
From Stdlib Require Import ZArith Lia.
#[local] Open Scope string_scope.
#[local] Open Scope list_scope.
#[local] Open Scope Z_scope.

(** * The manager *)

(** [ReqContext] and [OffloadPolicy] of the vLLM package. *)
Record ReqContext := mkCtx { ctx_req_id : string; ctx_params : option (odict string PyVal) }.
Inductive OffloadPolicy := BLOCK_LEVEL | REQUEST_LEVEL.
#[export] Instance policy_eq_dec : EqDecision OffloadPolicy.
Proof. solve_decision. Defined.
(** An event: keys, whether they were removed, the medium. *)
Record OffEvent (Key : Type) := mkEvent { ev_keys : list Key; ev_removed : bool; ev_medium : string }.
Arguments mkEvent {Key} _ _ _.
Arguments ev_keys {Key} _.
Arguments ev_removed {Key} _.
Arguments ev_medium {Key} _.

(** [OffloadingManager]: [lookup] answers [None] when it needs more time;
    [prepare_store] answers [None] when it has no room, else the keys to store
    and where. *)
Class OffloadingManager (Key Mg Spec : Type) `{Countable Key} := mkManager {
  mgr_lookup : Key → ReqContext → M Mg (option bool);
  mgr_touch : list Key → ReqContext → M Mg unit;
  mgr_prepare_load : list Key → ReqContext → M Mg Spec;
  mgr_prepare_store : list Key → ReqContext → M Mg (option (list Key * Spec));
  mgr_complete_load : gset Key → ReqContext → M Mg unit;
  mgr_complete_store : gset Key → ReqContext → M Mg unit;
  mgr_on_new_request : ReqContext → M Mg OffloadPolicy;
  mgr_on_request_finished : ReqContext → M Mg unit;
  mgr_on_schedule_end : M Mg unit;
  mgr_has_pending_work : Mg → bool;
  mgr_take_events : M Mg (list (OffEvent Key));
  mgr_reset_cache : M Mg unit }.

(** * Data *)

Record Request (Hash : Type) := mkRequest {
  rq_id : string; rq_params : option (odict string PyVal); rq_block_hashes : list Hash;
  rq_num_tokens : Z; rq_num_prompt_tokens : Z; rq_num_computed_tokens : Z; rq_skip_reading_prefix_cache : bool; rq_is_finished : bool }.
Arguments mkRequest {Hash} _ _ _ _ _ _ _ _.
Arguments rq_id {Hash} _.
Arguments rq_params {Hash} _.
Arguments rq_block_hashes {Hash} _.
Arguments rq_num_tokens {Hash} _.
Arguments rq_num_prompt_tokens {Hash} _.
Arguments rq_num_computed_tokens {Hash} _.
Arguments rq_skip_reading_prefix_cache {Hash} _.
Arguments rq_is_finished {Hash} _.

(** A block of the KV cache manager: [block_id], [is_null], and whether
    [block_hash] is set. *)
Record KVBlock := mkBlk { blk_id : Z; blk_null : bool; blk_hashed : bool }.
Record GPULoadStoreSpec := mkGpuSpec { gpu_block_ids : list Z; gpu_group_sizes : list Z; gpu_block_indices : list Z }.
Inductive TransferSpec (Spec : Type) := LoadSpec (src : Spec) (dst : GPULoadStoreSpec) | StoreSpec (src : GPULoadStoreSpec) (dst : Spec).
Arguments LoadSpec {Spec} _ _.
Arguments StoreSpec {Spec} _ _.
Record TransferJob (Spec : Type) := mkTransferJob { tj_req : string; tj_spec : TransferSpec Spec }.
Arguments mkTransferJob {Spec} _ _.
Arguments tj_req {Spec} _.
Arguments tj_spec {Spec} _.

(** What is read of [SchedulerOutput]; [so_req_data] is what [yield_req_data]
    makes of it: request, new blocks by group, preempted. *)
Record SchedulerOutput := mkOutput {
  so_num_scheduled_tokens : odict string Z; so_preempted : list string; so_req_data : list (string * option (list (list Z)) * bool) }.
Record ConnectorMeta (Spec : Type) := mkMeta { cm_load_jobs : odict Z (TransferJob Spec); cm_store_jobs : odict Z (TransferJob Spec); cm_jobs_to_flush : gset Z }.
Arguments mkMeta {Spec} _ _ _.
Arguments cm_load_jobs {Spec} _.
Arguments cm_store_jobs {Spec} _.
Arguments cm_jobs_to_flush {Spec} _.

(** [l[a:b]] and [islice(l, a, None, step)] for bounds that are not negative. *)
Definition slice {A} (l : list A) (a b : Z) : list A := take (Z.to_nat (b - a)) (drop (Z.to_nat a) l).
Definition stride {A} (l : list A) (start step : nat) : list A := omap (λ j, l !! (start + j * step)%nat) (seq 0 (length l)).
(** [l[-n:]] *)
Definition last_n {A} (n : Z) (l : list A) : list A := if n =? 0 then l else drop (Z.to_nat (Z.of_nat (length l) - n)) l.

(** [make_offload_key], [get_offload_block_hash] and [round_down] of the vLLM
    package; [any_of] is [next(iter(s))] for a set that is not empty. *)
Class OffLib (Hash Key : Type) := mkOffLib {
  make_offload_key : Hash → nat → Key; get_offload_block_hash : Key → Hash; round_down : Z → Z → Z; any_of : gset Z → Z }.

Section state.
Context {Hash Key Mg Spec : Type} `{Countable Key}.

Record RequestGroupState := mkGS { offload_keys : list Key; block_ids : list Z; next_stored_block_idx : Z; num_hit_blocks : Z }.
Definition set_keys (l : list Key) (g : RequestGroupState) := mkGS l (block_ids g) (next_stored_block_idx g) (num_hit_blocks g).
Definition set_block_ids (l : list Z) (g : RequestGroupState) := mkGS (offload_keys g) l (next_stored_block_idx g) (num_hit_blocks g).
Definition set_next (n : Z) (g : RequestGroupState) := mkGS (offload_keys g) (block_ids g) n (num_hit_blocks g).
Definition set_hits (n : Z) (g : RequestGroupState) := mkGS (offload_keys g) (block_ids g) (next_stored_block_idx g) n.

(** [rs_req] is the request object, by reference. *)
Record RequestOffloadState := mkRS {
  rs_req : nat; rs_ctx : ReqContext; rs_policy : OffloadPolicy; group_states : list RequestGroupState;
  max_offload_tokens : option Z; num_locally_computed_tokens : Z; transfer_jobs : gset Z }.
Definition set_groups (l : list RequestGroupState) (r : RequestOffloadState) : RequestOffloadState :=
  mkRS (rs_req r) (rs_ctx r) (rs_policy r) l (max_offload_tokens r) (num_locally_computed_tokens r) (transfer_jobs r).
Definition set_local (n : Z) (r : RequestOffloadState) : RequestOffloadState :=
  mkRS (rs_req r) (rs_ctx r) (rs_policy r) (group_states r) (max_offload_tokens r) n (transfer_jobs r).
Definition set_transfers (j : gset Z) (r : RequestOffloadState) : RequestOffloadState :=
  mkRS (rs_req r) (rs_ctx r) (rs_policy r) (group_states r) (max_offload_tokens r) (num_locally_computed_tokens r) j.

Record TransferJobStatus := mkJob {
  jb_req : string; pending_count : Z; jb_keys : gset Key; is_store : bool;
  non_sliding_window_block_ids : option (list Z); sliding_window_block_ids : option (list Z) }.
Definition set_pending (n : Z) (j : TransferJobStatus) : TransferJobStatus :=
  mkJob (jb_req j) n (jb_keys j) (is_store j) (non_sliding_window_block_ids j) (sliding_window_block_ids j).

Record Sched := mkSched {
  manager : Mg; objs : nat → Request Hash; req_status : odict string RequestOffloadState;
  batch_load_jobs : odict Z (TransferJob Spec); jobs_to_flush : gset Z; allocated : gset Z; being_loaded : option (gset Key);
  job_counter : Z; stale_job_threshold : Z; jobs : gmap Z TransferJobStatus; block_jobs : gmap Z (gset Z) }.
Definition set_manager x (s : Sched) := mkSched x (objs s) (req_status s) (batch_load_jobs s) (jobs_to_flush s) (allocated s) (being_loaded s) (job_counter s) (stale_job_threshold s) (jobs s) (block_jobs s).
Definition set_objs x (s : Sched) := mkSched (manager s) x (req_status s) (batch_load_jobs s) (jobs_to_flush s) (allocated s) (being_loaded s) (job_counter s) (stale_job_threshold s) (jobs s) (block_jobs s).
Definition set_status x (s : Sched) := mkSched (manager s) (objs s) x (batch_load_jobs s) (jobs_to_flush s) (allocated s) (being_loaded s) (job_counter s) (stale_job_threshold s) (jobs s) (block_jobs s).
Definition set_load_jobs x (s : Sched) := mkSched (manager s) (objs s) (req_status s) x (jobs_to_flush s) (allocated s) (being_loaded s) (job_counter s) (stale_job_threshold s) (jobs s) (block_jobs s).
Definition set_flush x (s : Sched) := mkSched (manager s) (objs s) (req_status s) (batch_load_jobs s) x (allocated s) (being_loaded s) (job_counter s) (stale_job_threshold s) (jobs s) (block_jobs s).
Definition set_allocated x (s : Sched) := mkSched (manager s) (objs s) (req_status s) (batch_load_jobs s) (jobs_to_flush s) x (being_loaded s) (job_counter s) (stale_job_threshold s) (jobs s) (block_jobs s).
Definition set_loading x (s : Sched) := mkSched (manager s) (objs s) (req_status s) (batch_load_jobs s) (jobs_to_flush s) (allocated s) x (job_counter s) (stale_job_threshold s) (jobs s) (block_jobs s).
Definition set_counter x (s : Sched) := mkSched (manager s) (objs s) (req_status s) (batch_load_jobs s) (jobs_to_flush s) (allocated s) (being_loaded s) x (stale_job_threshold s) (jobs s) (block_jobs s).
Definition set_threshold x (s : Sched) := mkSched (manager s) (objs s) (req_status s) (batch_load_jobs s) (jobs_to_flush s) (allocated s) (being_loaded s) (job_counter s) x (jobs s) (block_jobs s).
Definition set_jobs x (s : Sched) := mkSched (manager s) (objs s) (req_status s) (batch_load_jobs s) (jobs_to_flush s) (allocated s) (being_loaded s) (job_counter s) (stale_job_threshold s) x (block_jobs s).
Definition set_block_jobs x (s : Sched) := mkSched (manager s) (objs s) (req_status s) (batch_load_jobs s) (jobs_to_flush s) (allocated s) (being_loaded s) (job_counter s) (stale_job_threshold s) (jobs s) x.
End state.
Arguments RequestGroupState : clear implicits.
Arguments RequestOffloadState : clear implicits.
Arguments TransferJobStatus Key {_ _}.
Arguments Sched Hash Key Mg Spec {_ _}.

(** What [__init__] fixes for good. *)
Record Connector := mkConnector {
  config : SchedulerOffloadConfig; sliding_window_groups : list nat; lookup_groups : list nat; mamba_align_size : option Z }.

Section scheduler.
Context {K : KvLib} {Hash Key Mg Spec : Type} `{Countable Key} {MG : OffloadingManager Key Mg Spec} {L : OffLib Hash Key}.
Abbreviation St := (Sched Hash Key Mg Spec).

(** [list.sort(key, reverse=True)], which keeps the order of equal keys. *)
Fixpoint insert_desc (x : nat * Z) (l : list (nat * Z)) : list (nat * Z) :=
  match l with
  | [] => [x]
  | y :: l => if x.2 <=? y.2 then y :: insert_desc x l else x :: y :: l
  end.
Definition sort_desc (l : list (nat * Z)) : list (nat * Z) := foldl (λ acc x, insert_desc x acc) [] l.
(** [__init__]: what it fixes, and the first state. *)
Definition new_connector (spec : OffloadingSpec) : res Connector :=
  config ← from_spec spec;
  let full := omap (λ c, match sliding_window_size_in_blocks c with None => Some (group_idx c) | Some _ => None end) (kv_group_configs config) in
  let sliding := omap (λ c, (λ w, (group_idx c, w)) <$> sliding_window_size_in_blocks c) (kv_group_configs config) in
  align ← resolve_mamba_align_size spec;
  Ok (mkConnector config (sort_desc sliding).*1 (full ++ (sort_desc sliding).*1) align).
Definition new_sched (m : Mg) (objs : nat → Request Hash) (prefix_caching : bool) : St :=
  mkSched m objs [] [] ∅ ∅ (if prefix_caching then Some ∅ else None) 0 0 ∅ ∅.

Context (C : Connector).
Abbreviation configs := (kv_group_configs (config C)).

Definition on_manager {A} (m : M Mg A) : M St A := λ s, let '(r, x) := m (manager s) in (r, set_manager x s).
(** [self._req_status[req_id]], and its entry after a change. *)
Definition status_of (req_id : string) : M St (RequestOffloadState Key) := s ← get; lift (res_of_option KeyError (od_get req_id (req_status s))).
Definition put_status (req_id : string) (r : RequestOffloadState Key) : M St unit := modify (λ s, set_status (od_set req_id r (req_status s)) s).
Definition del_status (req_id : string) : M St unit := modify (λ s, set_status (od_pop req_id (req_status s)) s).
Definition req_of (r : RequestOffloadState Key) : M St (Request Hash) := s ← get; mret (objs s (rs_req r)).
Definition job_of (job_id : Z) : M St (TransferJobStatus Key) := s ← get; lift (res_of_option KeyError (jobs s !! job_id)).
Definition put_job (job_id : Z) (j : TransferJobStatus Key) : M St unit := modify (λ s, set_jobs (<[job_id := j]> (jobs s)) s).

(** ** Requests *)

Definition max_offload_of (params : option (odict string PyVal)) : option Z :=
  match params with
  | Some p => match od_get "max_offload_tokens" p with Some (PInt n) => if 0 <=? n then Some n else None | _ => None end
  | None => None
  end.
(** [RequestOffloadState(...)] *)
Definition new_request_state (obj : nat) (req : Request Hash) (ctx : ReqContext) (policy : OffloadPolicy) : RequestOffloadState Key :=
  mkRS obj ctx policy (replicate (length configs) (mkGS [] [] 0 0)) (max_offload_of (rq_params req)) 0 ∅.

Definition update_group_keys (hashes : list Hash) (x : GroupOffloadConfig * RequestGroupState Key) : res (RequestGroupState Key) :=
  let '(c, g) := x in
  let factor := hash_block_size_factor c in
  if factor <? 1 then Err ValueError else
  let start := factor * Z.of_nat (length (offload_keys g)) + factor - 1 in
  Ok (set_keys (offload_keys g ++ ((λ h, make_offload_key h (group_idx c)) <$> stride hashes (Z.to_nat start) (Z.to_nat factor))) g).
Definition update_offload_keys (req : Request Hash) (r : RequestOffloadState Key) : res (RequestOffloadState Key) :=
  groups ← map_res (update_group_keys (rq_block_hashes req)) (zip configs (group_states r));
  Ok (set_groups groups r).
(** [update_block_id_groups] of a list *)
Definition update_block_id_groups (new : list (list Z)) (r : RequestOffloadState Key) : res (RequestOffloadState Key) :=
  if bool_decide (length new = length (group_states r)) then
    Ok (set_groups (zip_with (λ g l, set_block_ids (block_ids g ++ l) g) (group_states r) new) r)
  else Err AssertionError.
Definition advance_stored_idx (n : Z) (r : RequestOffloadState Key) : RequestOffloadState Key :=
  set_groups (zip_with (λ c g, set_next (storable_blocks c n) g) configs (group_states r)) r.
Definition update_num_hit_blocks (n : Z) (r : RequestOffloadState Key) : RequestOffloadState Key :=
  set_groups (zip_with (λ c g, set_hits (n / offloaded_block_size c) g) configs (group_states r)) r.
Definition clear_block_ids (r : RequestOffloadState Key) : RequestOffloadState Key := set_groups (set_block_ids [] <$> group_states r) r.

Definition _create_req_context (req : Request Hash) : ReqContext := mkCtx (rq_id req) (rq_params req).
Definition on_new_request (obj : nat) : M St unit :=
  s ← get;
  let req := objs s obj in
  let ctx := _create_req_context req in
  policy ← on_manager (mgr_on_new_request ctx);
  put_status (rq_id req) (new_request_state obj req ctx policy).

(** ** Lookup *)

Fixpoint maximal_prefix (keys : list Key) (ctx : ReqContext) (hits : Z) (defer : bool) : M St (option Z) :=
  match keys with
  | [] => mret (if defer then None else Some hits)
  | k :: keys =>
    result ← on_manager (mgr_lookup k ctx);
    match result with
    | Some false => mret (if defer then None else Some hits)
    | Some true => maximal_prefix keys ctx (hits + 1) defer
    | None => maximal_prefix keys ctx (hits + 1) true
    end
  end.
Definition _maximal_prefix_lookup (keys : list Key) (ctx : ReqContext) : M St (option Z) := maximal_prefix keys ctx 0 false.
(** The scan from the end: [keys] are the keys left, the last one first. *)
Fixpoint window_scan (keys : list Key) (window : Z) (ctx : ReqContext) (consecutive : Z) (defer : bool) : M St (option Z) :=
  match keys with
  | [] => mret (if defer then None else Some consecutive)
  | k :: keys =>
    result ← on_manager (mgr_lookup k ctx);
    let defer := defer || bool_decide (result = None) in
    if bool_decide (result = Some true) then
      let consecutive := consecutive + 1 in
      if consecutive =? window then mret (if defer then None else Some (Z.of_nat (length keys) + window))
      else window_scan keys window ctx consecutive defer
    else window_scan keys window ctx 0 defer
  end.
Definition _sliding_window_lookup (keys : list Key) (window : Z) (ctx : ReqContext) : M St (option Z) := window_scan (reverse keys) window ctx 0 false.

Definition touch_group (ctx : ReqContext) (x : GroupOffloadConfig * RequestGroupState Key) : M St unit :=
  let '(c, g) := x in
  match sliding_window_size_in_blocks c with
  | None => on_manager (mgr_touch (offload_keys g) ctx)
  | Some w => on_manager (mgr_touch (drop (Z.to_nat (Z.max 0 (num_hit_blocks g - w))) (offload_keys g)) ctx)
  end.
Definition _touch (r : RequestOffloadState Key) : M St unit := for_each (zip configs (group_states r)) (touch_group (rs_ctx r)).

(** The variables of [_lookup]'s loops; [again] is the next [lookup_groups]. *)
Record Search := mkSearch {
  max_hit_size_tokens : Z; num_hit_tokens : Z; defer_lookup : bool; again : list nat; eagle_verified : gset nat; looked_up_sliding_window : bool }.
(** A group whose result is [hits]: the tightened bound. *)
Definition tighten (c : GroupOffloadConfig) (computed start : Z) (unverified : bool) (hits : option Z) (x : Search) : Search :=
  match hits with
  | None => mkSearch (max_hit_size_tokens x) (num_hit_tokens x) true (again x) (eagle_verified x) (looked_up_sliding_window x)
  | Some n =>
    let n := if unverified then n - 1 else n in
    mkSearch (Z.min (max_hit_size_tokens x) (offloaded_block_size c * (start + n))) (num_hit_tokens x) (defer_lookup x) (again x)
      (if unverified then {[group_idx c]} ∪ eagle_verified x else eagle_verified x) (looked_up_sliding_window x)
  end.
(** [if new_num_hit_tokens < num_hit_tokens: ...] and what follows. *)
Definition converge (c : GroupOffloadConfig) (new_hits : Z) (x : Search) : Search :=
  let windowed := bool_decide (is_Some (sliding_window_size_in_blocks c)) in
  if new_hits <? num_hit_tokens x then
    let verified := if eagle c then eagle_verified x else ∅ in
    if defer_lookup x then
      mkSearch (max_hit_size_tokens x) new_hits false (lookup_groups C) verified (looked_up_sliding_window x || windowed)
    else
      mkSearch (max_hit_size_tokens x) new_hits (defer_lookup x)
        (if looked_up_sliding_window x && bool_decide (again x = []) then sliding_window_groups C else again x)
        verified (looked_up_sliding_window x || windowed)
  else
    mkSearch (max_hit_size_tokens x) new_hits (defer_lookup x) (again x) (eagle_verified x) (looked_up_sliding_window x || windowed).
(** One group of one pass; [None] is [return 0]. *)
Definition lookup_group (r : RequestOffloadState Key) (req : Request Hash) (idx : nat) (x : Search) : M St (option Search) :=
  let computed := num_locally_computed_tokens r in
  c ← lift (res_of_option IndexError (configs !! idx));
  g ← lift (res_of_option IndexError (group_states r !! idx));
  let size := offloaded_block_size c in
  let keys := offload_keys g in
  let n := Z.of_nat (length keys) in
  assert_ (rq_num_tokens req / size <=? n);;
  let unverified := eagle c && bool_decide (idx ∉ eagle_verified x) in
  let x := mkSearch (Z.min (max_hit_size_tokens x) (n * size)) (num_hit_tokens x) (defer_lookup x) (again x) (eagle_verified x) (looked_up_sliding_window x) in
  if max_hit_size_tokens x - computed <? size then mret None else
  let query_max := if unverified && bool_decide (is_Some (sliding_window_size_in_blocks c))
                   then Z.min (max_hit_size_tokens x + size) (n * size) else max_hit_size_tokens x in
  let num_blocks := Z.min (cdiv query_max size) n in
  let start := computed / size in
  let keys := slice keys start num_blocks in
  hits ← match sliding_window_size_in_blocks c with
         | None => _maximal_prefix_lookup keys (rs_ctx r)
         | Some w => _sliding_window_lookup keys (if unverified then w + 1 else w) (rs_ctx r)
         end;
  if bool_decide (hits = Some 0) then mret None else
  let x := tighten c computed start unverified hits x in
  let new_hits := max_hit_size_tokens x - computed in
  if new_hits <? size then mret None else mret (Some (converge c new_hits x)).
Fixpoint lookup_pass (r : RequestOffloadState Key) (req : Request Hash) (groups : list nat) (x : Search) : M St (option Search) :=
  match groups with
  | [] => mret (Some x)
  | idx :: groups =>
    y ← lookup_group r req idx x;
    match y with None => mret None | Some x => lookup_pass r req groups x end
  end.
Fixpoint lookup_loop (fuel : nat) (r : RequestOffloadState Key) (req : Request Hash) (groups : list nat) (x : Search) : M St (option Search) :=
  match groups with
  | [] => mret (Some x)
  | _ =>
    match fuel with
    | O => raise OutOfFuel
    | S fuel =>
      y ← lookup_pass r req groups (mkSearch (max_hit_size_tokens x) (num_hit_tokens x) (defer_lookup x) [] (eagle_verified x) false);
      match y with None => mret None | Some x => lookup_loop fuel r req (again x) x end
    end
  end.
(** Whether hit blocks of a group are being loaded. *)
Definition group_loading (loading : gset Key) (computed hits : Z) (x : GroupOffloadConfig * RequestGroupState Key) : bool :=
  let '(c, g) := x in
  let size := offloaded_block_size c in
  let keys := slice (offload_keys g) (computed / size) (cdiv (computed + hits) size) in
  let keys := match sliding_window_size_in_blocks c with Some w => last_n w keys | None => keys end in
  existsb (λ k, bool_decide (k ∈ loading)) keys.
Definition max_lookup_tokens (req : Request Hash) : Z :=
  match sliding_window_groups C with
  | [] => rq_num_tokens req
  | _ => match mamba_align_size C with Some m => round_down (rq_num_tokens req - 1) m | None => rq_num_tokens req - 1 end
  end.
Definition _lookup (r : RequestOffloadState Key) : M St (option Z) :=
  req ← req_of r;
  let computed := num_locally_computed_tokens r in
  y ← lookup_loop (Z.to_nat (rq_num_tokens req) + 2) r req (lookup_groups C) (mkSearch (max_lookup_tokens req) 0 false [] ∅ false);
  match y with
  | None => mret (Some 0)
  | Some x =>
    if defer_lookup x then mret None else
    s ← get;
    match being_loaded s with
    | Some loading =>
      if bool_decide (loading ≠ ∅) && existsb (group_loading loading computed (num_hit_tokens x)) (zip configs (group_states r)) then mret None
      else mret (Some (num_hit_tokens x))
    | None => mret (Some (num_hit_tokens x))
    end
  end.

Definition get_num_new_matched_tokens (obj : nat) (num_computed_tokens : Z) : M St (option Z * bool) :=
  s ← get;
  let req := objs s obj in
  r ← status_of (rq_id req);
  let r := clear_block_ids r in
  put_status (rq_id req) r;;
  req' ← req_of r;
  r ← lift (update_offload_keys req' r);
  let r := set_local num_computed_tokens r in
  put_status (rq_id req) r;;
  hits ← (if rq_skip_reading_prefix_cache req then mret (Some 0) else _lookup r);
  let r := update_num_hit_blocks (num_computed_tokens + default 0 hits) r in
  put_status (rq_id req) r;;
  _touch r;;
  mret (hits, match hits with Some n => negb (n =? 0) | None => false end).
End scheduler.
