(* ===== verification/OffJobs.v ===== *)
(** The transfer jobs of the offloading connector's scheduler
    ([OffloadingConnectorScheduler] of
    src/overlay/vllm/distributed/kv_transfer/kv_connector/v1/offloading/scheduler.py):
    loads after an allocation, stores of a step, the metadata for the workers,
    their reports, the end of a request, and a reset; and the ledger of the
    calls to the manager. *)
From S2P Require Import Prelude PyDict KvSpec KvLayout PyNum OffConfig OffScheduler.
From stdpp Require Import base list gmap sets strings.
From Stdlib Require Import ZArith Lia.
#[local] Open Scope string_scope.
#[local] Open Scope list_scope.
#[local] Open Scope Z_scope.

(** [l[i]] *)
Definition index {A} (l : list A) (i : Z) : res A := res_of_option IndexError (l !! Z.to_nat i).

Section jobs.
Context {K : KvLib} {Hash Key Mg Spec : Type} `{Countable Key} {MG : OffloadingManager Key Mg Spec} {L : OffLib Hash Key}.
Abbreviation St := (Sched Hash Key Mg Spec).
Context (C : Connector).
Abbreviation configs := (kv_group_configs (config C)).
Abbreviation factor := (block_size_factor (config C)).

Definition _generate_job_id : M St Z := s ← get; modify (set_counter (job_counter s + 1));; mret (job_counter s).
(** [self._block_id_to_pending_jobs.setdefault(bid, set()).add(job_id)] *)
Definition add_block_job (job_id bid : Z) (m : gmap Z (gset Z)) : gmap Z (gset Z) := <[bid := {[job_id]} ∪ default ∅ (m !! bid)]> m.
Definition add_block_jobs (job_id : Z) (bids : list Z) (s : St) : St := set_block_jobs (foldl (λ m bid, add_block_job job_id bid m) (block_jobs s) bids) s.
Definition remove_block_job (job_id bid : Z) : M St unit :=
  s ← get;
  pending ← lift (res_of_option KeyError (block_jobs s !! bid : option (gset Z)));
  if bool_decide (job_id ∈ pending) then
    let pending := pending ∖ {[job_id]} in
    modify (λ s, set_block_jobs (if bool_decide (pending = ∅) then delete bid (block_jobs s) else <[bid := pending]> (block_jobs s)) s)
  else raise KeyError.
Definition _remove_pending_job (job_id : Z) (bids : option (list Z)) : M St unit := for_each (default [] bids) (remove_block_job job_id).

(** ** Loads *)

(** What [update_state_after_alloc] gathers over the groups. *)
Record Loading := mkLoading { ld_keys : list Key; ld_blocks : list Z; ld_sizes : list Z; ld_indices : list Z }.
(** The first block that still has to be computed or loaded. *)
Definition first_pending (blocks : list KVBlock) : nat :=
  match list_find (λ b, blk_null b = false ∧ blk_hashed b = false) blocks with Some (i, _) => i | None => length blocks end.
Definition set_group (req_id : string) (i : nat) (g : RequestGroupState Key) : M St unit :=
  r ← status_of req_id;
  put_status req_id (set_groups (<[i := g]> (group_states r)) r).
Definition alloc_group (req_id : string) (r : RequestOffloadState Key) (num_cached_tokens : Z) (i : nat) (c : GroupOffloadConfig) (g : RequestGroupState Key)
    (blocks : list KVBlock) (acc : Loading) : M St Loading :=
  modify (λ s, set_allocated (allocated s ∪ list_to_set (filter (λ b, b ≠ 0) (blk_id <$> blocks))) s);;
  let num_gpu_blocks := cdiv num_cached_tokens (gpu_block_size c) in
  assert_ (num_gpu_blocks <=? Z.of_nat (length blocks));;
  let local := Z.of_nat (first_pending (take (Z.to_nat num_gpu_blocks) blocks)) in
  assert_ (num_locally_computed_tokens r <=? local * gpu_block_size c);;
  let pending := num_gpu_blocks - local in
  match sliding_window_size_in_blocks c with Some w => assert_ (pending <=? w * factor) | None => mret tt end;;
  let num_blocks := cdiv num_cached_tokens (offloaded_block_size c) in
  assert_ (num_blocks <=? Z.of_nat (length (offload_keys g)));;
  let keys := if pending =? 0 then [] else slice (offload_keys g) (local / factor) num_blocks in
  (if bool_decide (rs_policy r = BLOCK_LEVEL) then set_group req_id i (set_next num_blocks g) else mret tt);;
  mret (mkLoading (ld_keys acc ++ keys) (ld_blocks acc ++ (blk_id <$> slice blocks local num_gpu_blocks)) (ld_sizes acc ++ [pending]) (ld_indices acc ++ [local])).
Fixpoint alloc_groups (req_id : string) (r : RequestOffloadState Key) (num_cached_tokens : Z) (i : nat)
    (groups : list (GroupOffloadConfig * RequestGroupState Key * list KVBlock)) (acc : Loading) : M St Loading :=
  match groups with
  | [] => mret acc
  | (c, g, blocks) :: groups =>
    acc ← alloc_group req_id r num_cached_tokens i c g blocks acc;
    alloc_groups req_id r num_cached_tokens (S i) groups acc
  end.
Definition update_state_after_alloc (obj : nat) (blocks : list (list KVBlock)) (num_external_tokens : Z) : M St unit :=
  if num_external_tokens =? 0 then mret tt else
  s ← get;
  let req_id := rq_id (objs s obj) in
  r ← status_of req_id;
  acc ← alloc_groups req_id r (num_locally_computed_tokens r + num_external_tokens) 0 (zip (zip configs (group_states r)) blocks) (mkLoading [] [] [] []);
  src ← on_manager (mgr_prepare_load (ld_keys acc) (rs_ctx r));
  job_id ← _generate_job_id;
  modify (λ s, set_load_jobs (od_set job_id (mkTransferJob req_id (LoadSpec src (mkGpuSpec (ld_blocks acc) (ld_sizes acc) (ld_indices acc)))) (batch_load_jobs s)) s);;
  r ← status_of req_id;
  assert_ (bool_decide (transfer_jobs r = ∅));;
  put_status req_id (set_transfers ({[job_id]} ∪ transfer_jobs r) r);;
  put_job job_id (mkJob req_id (num_workers (config C)) (list_to_set (ld_keys acc)) false None None);;
  modify (λ s, set_loading ((λ l, l ∪ list_to_set (ld_keys acc)) <$> being_loaded s) s).

(** ** Stores *)

(** One request of the scheduler's output; [ends] collects, per request, where
    the blocks of its sliding window groups ended before this step. *)
Definition update_req_state (ends : odict string (list Z)) (x : string * option (list (list Z)) * bool) : M St (odict string (list Z)) :=
  let '(req_id, new, preempted) := x in
  r ← status_of req_id;
  req ← req_of r;
  r ← lift (update_offload_keys C req r);
  put_status req_id r;;
  let r := if (preempted : bool) then clear_block_ids r else r in
  put_status req_id r;;
  match new with
  | None | Some [] => mret ends
  | Some new =>
    ends' ← match sliding_window_groups C with
            | [] => mret ends
            | gs =>
              lens ← lift (map_res (λ g, n ← res_of_option IndexError (group_states r !! g); Ok (Z.of_nat (length (block_ids n)))) gs);
              mret (od_set req_id lens ends)
            end;
    r ← lift (update_block_id_groups new r);
    put_status req_id r;;
    modify (λ s, set_allocated (allocated s ∪ list_to_set (filter (λ b, b ≠ 0) (concat new))) s);;
    mret ends'
  end.
Fixpoint update_req_list (ends : odict string (list Z)) (l : list (string * option (list (list Z)) * bool)) : M St (odict string (list Z)) :=
  match l with [] => mret ends | x :: l => ends ← update_req_state ends x; update_req_list ends l end.
(** Entries of blocks that were allocated anew become 0. *)
Definition zero_group (alloc : gset Z) (end_ : option Z) (g : RequestGroupState Key) : RequestGroupState Key :=
  let start := next_stored_block_idx g * factor in
  let stop := default (Z.of_nat (length (block_ids g))) end_ in
  set_block_ids (imap (λ j b, if (start <=? Z.of_nat j) && (Z.of_nat j <? stop) && bool_decide (b ∈ alloc) then 0 else b) (block_ids g)) g.
Definition zero_request (alloc : gset Z) (ends : option (list Z)) (r : RequestOffloadState Key) : RequestOffloadState Key :=
  set_groups (foldl (λ l (x : nat * nat), alter (zero_group alloc (ends ≫= λ e, e !! x.1)) x.2 l) (group_states r)
                    (imap pair (sliding_window_groups C))) r.
Definition _update_req_states (out : SchedulerOutput) : M St unit :=
  ends ← update_req_list [] (so_req_data out);
  s ← get;
  if bool_decide (sliding_window_groups C ≠ []) && bool_decide (allocated s ≠ ∅) then
    modify (set_status ((λ x : string * RequestOffloadState Key, (x.1, zero_request (allocated s) (od_get x.1 ends) x.2)) <$> req_status s))
  else mret tt.

(** The keys of a group that a step may store: blocks [next, storable). *)
Definition unreachable (c : GroupOffloadConfig) (i : Z) : res bool :=
  match alignment_block_count c with
  | None => Ok false
  | Some n =>
    match sliding_window_size_in_blocks c with
    | None => Err AssertionError
    | Some tail => Ok (i mod n <? n - tail)
    end
  end.
Fixpoint pick_keys (c : GroupOffloadConfig) (i : Z) (l : list (Key * Z)) : res (list Key) :=
  match l with
  | [] => Ok []
  | (k, bid) :: l =>
    if bid =? 0 then pick_keys c (i + 1) l else
    skip ← unreachable c i;
    ks ← pick_keys c (i + 1) l;
    Ok (if (skip : bool) then ks else k :: ks)
  end.
(** [l[a:b:step]] *)
Definition slice_step {A} (l : list A) (a b step : Z) : list A := stride (take (Z.to_nat b) l) (Z.to_nat a) (Z.to_nat step).
Definition new_keys_of (n : Z) (x : GroupOffloadConfig * RequestGroupState Key) : res (list Key) :=
  let '(c, g) := x in
  let num_blocks := storable_blocks c n in
  let start := next_stored_block_idx g in
  if num_blocks <=? start then Ok [] else
  let keys := slice (offload_keys g) start num_blocks in
  let bids := slice_step (block_ids g) (start * factor + factor - 1) (num_blocks * factor) factor in
  _ ← check (bool_decide (length keys = length bids));
  pick_keys c start (zip keys bids).

(** The source blocks of a job: in order, by group, and by kind of group. *)
Record Storing := mkStoring { sr_blocks : list Z; sr_sizes : list Z; sr_indices : list Z; sr_window : list Z; sr_full : list Z }.
Fixpoint gpu_blocks_at (bids : list Z) (i : Z) (n : nat) : res (list (Z * Z)) :=
  match n with
  | O => Ok []
  | S n => b ← index bids i; l ← gpu_blocks_at bids (i + 1) n; Ok (if b =? 0 then l else (i, b) :: l)
  end.
Fixpoint store_blocks_of (to_store : gset Key) (bids : list Z) (i : Z) (keys : list Key) : res (list (Z * Z)) :=
  match keys with
  | [] => Ok []
  | k :: keys =>
    here ← (if bool_decide (k ∈ to_store) then gpu_blocks_at bids (i * factor) (Z.to_nat factor) else Ok []);
    l ← store_blocks_of to_store bids (i + 1) keys;
    Ok (here ++ l)
  end.
Definition store_group (to_store : gset Key) (n : Z) (x : GroupOffloadConfig * RequestGroupState Key) (acc : Storing) : res (Storing * RequestGroupState Key) :=
  let '(c, g) := x in
  let num_blocks := storable_blocks c n in
  let start := next_stored_block_idx g in
  blocks ← store_blocks_of to_store (block_ids g) start (slice (offload_keys g) start num_blocks);
  let bids := blocks.*2 in
  let windowed := bool_decide (is_Some (sliding_window_size_in_blocks c)) in
  Ok (mkStoring (sr_blocks acc ++ bids) (sr_sizes acc ++ [Z.of_nat (length bids)]) (sr_indices acc ++ [default 0 (head blocks.*1)])
        (sr_window acc ++ (if windowed then bids else [])) (sr_full acc ++ (if windowed then [] else bids)),
      set_next num_blocks g).
(** The loop over the groups of one request, which moves their progress. *)
Fixpoint store_groups (req_id : string) (to_store : gset Key) (n : Z) (i : nat) (l : list (GroupOffloadConfig * RequestGroupState Key)) (acc : Storing) : M St Storing :=
  match l with
  | [] => mret acc
  | x :: l =>
    y ← lift (store_group to_store n x acc);
    set_group req_id i y.2;;
    store_groups req_id to_store n (S i) l y.1
  end.

(** How many tokens of a request may be offloaded after this step. *)
Definition num_offloadable_tokens (req : Request Hash) (r : RequestOffloadState Key) (scheduled : Z) : Z :=
  let n := Z.min (rq_num_computed_tokens req + scheduled) (rq_num_tokens req) in
  let n := match max_offload_tokens r with Some m => Z.min n m | None => n end in
  if offload_prompt_only (config C) then Z.min n (rq_num_prompt_tokens req) else n.

Definition build_store_job (req_id : string) (r : RequestOffloadState Key) (n : Z) (to_store : list Key) (dst : Spec)
    (store_jobs : odict Z (TransferJob Spec)) : M St (odict Z (TransferJob Spec)) :=
  _touch C r;;
  acc ← store_groups req_id (list_to_set to_store) n 0 (zip configs (group_states r)) (mkStoring [] [] [] [] []);
  job_id ← _generate_job_id;
  r ← status_of req_id;
  (if bool_decide (transfer_jobs r = ∅) then mret tt else j ← job_of (any_of (transfer_jobs r)); assert_ (is_store j));;
  put_status req_id (set_transfers ({[job_id]} ∪ transfer_jobs r) r);;
  modify (add_block_jobs job_id (sr_window acc));;
  put_job job_id (mkJob req_id (num_workers (config C)) (list_to_set to_store) true (Some (sr_full acc))
    (match sr_window acc with [] => None | l => Some l end));;
  mret (od_set job_id (mkTransferJob req_id (StoreSpec (mkGpuSpec (sr_blocks acc) (sr_sizes acc) (sr_indices acc)) dst)) store_jobs).
(** One request of [_build_store_jobs]. *)
Definition build_store_one (x : string * Z) (store_jobs : odict Z (TransferJob Spec)) : M St (odict Z (TransferJob Spec)) :=
  let '(req_id, scheduled) := x in
  s ← get;
  match od_get req_id (req_status s) with
  | None => mret store_jobs
  | Some r =>
    req ← req_of r;
    let n := num_offloadable_tokens req r scheduled in
    new ← lift (map_res (new_keys_of n) (zip configs (group_states r)));
    let new := concat new in
    match new with
    | [] => put_status req_id (advance_stored_idx C n r);; mret store_jobs
    | _ =>
      out ← on_manager (mgr_prepare_store new (rs_ctx r));
      match out with
      | None => mret store_jobs
      | Some ([], _) => put_status req_id (advance_stored_idx C n r);; mret store_jobs
      | Some (to_store, dst) => build_store_job req_id r n to_store dst store_jobs
      end
    end
  end.
Fixpoint build_store_list (l : list (string * Z)) (store_jobs : odict Z (TransferJob Spec)) : M St (odict Z (TransferJob Spec)) :=
  match l with [] => mret store_jobs | x :: l => store_jobs ← build_store_one x store_jobs; build_store_list l store_jobs end.
Definition _build_store_jobs (out : SchedulerOutput) : M St (odict Z (TransferJob Spec)) := build_store_list (so_num_scheduled_tokens out) [].

(** ** Metadata *)

Definition flush_preempted (req_id : string) : M St unit :=
  s ← get;
  match od_get req_id (req_status s) with
  | None => mret tt
  | Some r =>
    if bool_decide (transfer_jobs r = ∅) then mret tt else
    j ← job_of (any_of (transfer_jobs r));
    assert_ (is_store j);;
    modify (λ s, set_flush (jobs_to_flush s ∪ transfer_jobs r) s)
  end.
(** The jobs that read blocks which were allocated in this step. *)
Definition reallocated_jobs (s : St) : gset Z := ⋃ ((λ bid, default ∅ (block_jobs s !! bid)) <$> elements (allocated s)).
Definition build_connector_meta (out : SchedulerOutput) : M St (ConnectorMeta Spec) :=
  _update_req_states out;;
  on_manager mgr_on_schedule_end;;
  for_each (so_preempted out) flush_preempted;;
  modify (λ s, set_flush (jobs_to_flush s ∪ reallocated_jobs s) s);;
  s ← get;
  let loads := batch_load_jobs s in
  stores ← _build_store_jobs out;
  s ← get;
  modify (λ s, set_allocated ∅ (set_flush ∅ (set_load_jobs [] s)));;
  mret (mkMeta loads stores (jobs_to_flush s)).
Definition has_pending_push_work (s : St) : bool := bool_decide (jobs s ≠ ∅) || mgr_has_pending_work (manager s).

(** ** Reports, ends, resets *)

(** The report of a job whose workers are all done. *)
Definition finish_job (job_id : Z) (j : TransferJobStatus Key) : M St unit :=
  r ← status_of (jb_req j);
  req ← req_of r;
  (if is_store j then on_manager (mgr_complete_store (jb_keys j) (rs_ctx r))
   else on_manager (mgr_complete_load (jb_keys j) (rs_ctx r));; modify (λ s, set_loading ((λ l, l ∖ jb_keys j) <$> being_loaded s) s));;
  s ← get;
  (if bool_decide (block_jobs s = ∅) then mret tt else
   _remove_pending_job job_id (sliding_window_block_ids j);;
   if rq_is_finished req then _remove_pending_job job_id (non_sliding_window_block_ids j) else mret tt);;
  modify (λ s, set_jobs (delete job_id (jobs s)) s);;
  r ← status_of (jb_req j);
  raise_if (negb (bool_decide (job_id ∈ transfer_jobs r))) KeyError;;
  let r := set_transfers (transfer_jobs r ∖ {[job_id]}) r in
  put_status (jb_req j) r;;
  if bool_decide (transfer_jobs r = ∅) && rq_is_finished req then
    on_manager (mgr_on_request_finished (rs_ctx r));;
    del_status (jb_req j)
  else mret tt.
Definition complete_job (x : Z * Z) : M St unit :=
  let '(job_id, count) := x in
  assert_ (0 <? count);;
  s ← get;
  if job_id <? stale_job_threshold s then mret tt else
  j ← job_of job_id;
  let j := set_pending (pending_count j - count) j in
  put_job job_id j;;
  if 0 <? pending_count j then mret tt else
  assert_ (pending_count j =? 0);;
  finish_job job_id j.
(** [update_connector_output] with the completed jobs of the workers. *)
Definition update_connector_output (completed_jobs : odict Z Z) : M St unit := for_each completed_jobs complete_job.

Definition request_finished (obj : nat) : M St unit :=
  s ← get;
  let req := objs s obj in
  match od_get (rq_id req) (req_status s) with
  | None => on_manager (mgr_on_request_finished (_create_req_context req))
  | Some r =>
    if bool_decide (transfer_jobs r = ∅) then
      on_manager (mgr_on_request_finished (rs_ctx r));;
      del_status (rq_id req)
    else
      for_each (elements (transfer_jobs r)) (λ job_id,
        j ← job_of job_id;
        modify (add_block_jobs job_id (default [] (non_sliding_window_block_ids j))))
  end.

Inductive KVCacheEvent := BlockRemoved (hashes : list Hash) (medium : string) | BlockStored (hashes : list Hash) (medium : string).
Definition take_events : M St (list KVCacheEvent) :=
  l ← on_manager mgr_take_events;
  mret ((λ e, (if ev_removed e then BlockRemoved else BlockStored) (get_offload_block_hash <$> ev_keys e) (ev_medium e)) <$> l).

(** One entry of the snapshot [reset_cache] goes through. *)
Definition finalize_finished (x : string * RequestOffloadState Key) : M St unit :=
  req ← req_of x.2;
  if rq_is_finished req then
    on_manager (mgr_on_request_finished (rs_ctx x.2));;
    del_status x.1
  else mret tt.
Definition reset_progress (r : RequestOffloadState Key) : RequestOffloadState Key := set_groups (set_next 0 <$> group_states r) r.
Definition reset_cache : M St unit :=
  s ← get;
  assert_ (bool_decide (batch_load_jobs s = []));;
  assert_ (bool_decide (jobs_to_flush s = ∅));;
  assert_ (bool_decide (allocated s = ∅));;
  modify (set_flush (dom (jobs s)));;
  for_each (req_status s) finalize_finished;;
  on_manager mgr_reset_cache;;
  modify (λ s, set_status ((λ x : string * RequestOffloadState Key, (x.1, reset_progress x.2)) <$> req_status s) s);;
  modify (λ s, set_threshold (job_counter s) (set_block_jobs ∅ (set_jobs ∅ s)));;
  modify (λ s, set_loading ((λ _, ∅) <$> being_loaded s) s).
End jobs.

(** * The ledger

    The calls that the connector's scheduler makes to the offloading manager,
    written down by a manager that passes every call on: what was prepared and
    is not yet completed, and which requests are open. *)

(** * What holds when an operation succeeds *)

Definition wpo {S A} (m : M S A) (Q : A → S → Prop) (s : S) : Prop := ∀ a s', m s = (Ok a, s') → Q a s'.
Section wpo.
Context {S : Type}.
Lemma wpo_bind {A B} (m : M S A) (k : A → M S B) Q s : wpo m (λ a s', wpo (k a) Q s') s → wpo (m ≫= k) Q s.
Proof. intros Hm b s' (a&s1&H1&H2)%M_bind_ok. exact (Hm a s1 H1 b s' H2). Qed.
Lemma wpo_mono {A} (m : M S A) (Q Q' : A → S → Prop) s : (∀ a s', Q a s' → Q' a s') → wpo m Q s → wpo m Q' s.
Proof. intros HQ Hm a s' E. by apply HQ, Hm. Qed.
Lemma wpo_ret {A} (a : A) (Q : A → S → Prop) s : Q a s → wpo (mret a) Q s.
Proof. by intros HQ ? ? [= <- <-]. Qed.
Lemma wpo_raise {A} e (Q : A → S → Prop) s : wpo (raise e) Q s.
Proof. by intros ? ?. Qed.
Lemma wpo_get (Q : S → S → Prop) s : Q s s → wpo get Q s.
Proof. by intros HQ ? ? [= <- <-]. Qed.
Lemma wpo_modify (f : S → S) (Q : unit → S → Prop) s : Q tt (f s) → wpo (modify f) Q s.
Proof. by intros HQ ? ? [= <- <-]. Qed.
Lemma wpo_lift {A} (r : res A) (Q : A → S → Prop) s : (∀ a, r = Ok a → Q a s) → wpo (lift r) Q s.
Proof. intros HQ a s' [= -> <-]. by apply HQ. Qed.
Lemma wpo_assert b (Q : unit → S → Prop) s : (b = true → Q tt s) → wpo (assert_ b) Q s.
Proof. intros HQ a s' E. destruct b; [|done]. injection E as <- <-. by apply HQ. Qed.
Lemma wpo_raise_if b e (Q : unit → S → Prop) s : (b = false → Q tt s) → wpo (raise_if b e) Q s.
Proof. intros HQ a s' E. destruct b; [done|]. injection E as <- <-. by apply HQ. Qed.
Lemma wpo_for_each {A} (I : S → Prop) (l : list A) (f : A → M S unit) (Q : unit → S → Prop) s :
  (∀ x s, x ∈ l → I s → wpo (f x) (λ _, I) s) → (∀ s, I s → Q tt s) → I s → wpo (for_each l f) Q s.
Proof.
  intros Hf HQ. revert s Hf. induction l as [|x l IH]; intros s Hf Hs; cbn [for_each]; [by apply wpo_ret, HQ|].
  apply wpo_bind. eapply wpo_mono; [|apply (Hf x s); [by left|done]]. intros [] s1 Hs1. apply IH; [|done]. intros y s2 Hy. apply Hf. by right.
Qed.
End wpo.

(** * The log *)

Section ledger.
Context {Key Mg Spec : Type} `{Countable Key} {MG : OffloadingManager Key Mg Spec}.

Inductive Call :=
  | CallPrepareLoad (keys : list Key) | CallPrepareStore (keys : list Key) (stored : option (list Key))
  | CallCompleteLoad (keys : gset Key) | CallCompleteStore (keys : gset Key)
  | CallNew (req_id : string) | CallFinished (req_id : string) | CallReset.
Definition logged_state : Type := Mg * list Call.
(** A call that succeeds is written down. *)
Definition log_call {A} (m : M Mg A) (f : A → list Call) : M logged_state A := λ s,
  match m s.1 with
  | (Ok a, m1) => (Ok a, (m1, s.2 ++ f a))
  | (Err e, m1) => (Err e, (m1, s.2))
  end.
Definition logged : OffloadingManager Key logged_state Spec := mkManager Key logged_state Spec _ _
  (λ k ctx, log_call (mgr_lookup k ctx) (λ _, []))
  (λ ks ctx, log_call (mgr_touch ks ctx) (λ _, []))
  (λ ks ctx, log_call (mgr_prepare_load ks ctx) (λ _, [CallPrepareLoad ks]))
  (λ ks ctx, log_call (mgr_prepare_store ks ctx) (λ out, [CallPrepareStore ks (fst <$> out)]))
  (λ ks ctx, log_call (mgr_complete_load ks ctx) (λ _, [CallCompleteLoad ks]))
  (λ ks ctx, log_call (mgr_complete_store ks ctx) (λ _, [CallCompleteStore ks]))
  (λ ctx, log_call (mgr_on_new_request ctx) (λ _, [CallNew (ctx_req_id ctx)]))
  (λ ctx, log_call (mgr_on_request_finished ctx) (λ _, [CallFinished (ctx_req_id ctx)]))
  (log_call mgr_on_schedule_end (λ _, []))
  (λ s, mgr_has_pending_work s.1)
  (log_call mgr_take_events (λ _, []))
  (log_call mgr_reset_cache (λ _, [CallReset])).

(** How many transfers of the keys [X] are open, and how often a request. *)
Definition store_step (X : gset Key) (n : Z) (c : Call) : Z :=
  match c with
  | CallPrepareStore _ (Some (k :: ks)) => if bool_decide (list_to_set (k :: ks) = X) then n + 1 else n
  | CallCompleteStore Y => if bool_decide (Y = X) then n - 1 else n
  | CallReset => 0
  | _ => n
  end.
Definition load_step (X : gset Key) (n : Z) (c : Call) : Z :=
  match c with
  | CallPrepareLoad ks => if bool_decide (list_to_set ks = X) then n + 1 else n
  | CallCompleteLoad Y => if bool_decide (Y = X) then n - 1 else n
  | CallReset => 0
  | _ => n
  end.
Definition request_step (id : string) (n : Z) (c : Call) : Z :=
  match c with
  | CallNew i => if bool_decide (i = id) then n + 1 else n
  | CallFinished i => if bool_decide (i = id) then n - 1 else n
  | _ => n
  end.
Definition open_stores (X : gset Key) (log : list Call) : Z := foldl (store_step X) 0 log.
Definition open_loads (X : gset Key) (log : list Call) : Z := foldl (load_step X) 0 log.
Definition open_requests (id : string) (log : list Call) : Z := foldl (request_step id) 0 log.
Lemma open_stores_snoc X log c : open_stores X (log ++ [c]) = store_step X (open_stores X log) c.
Proof. unfold open_stores. by rewrite foldl_app. Qed.
Lemma open_loads_snoc X log c : open_loads X (log ++ [c]) = load_step X (open_loads X log) c.
Proof. unfold open_loads. by rewrite foldl_app. Qed.
Lemma open_requests_snoc id log c : open_requests id (log ++ [c]) = request_step id (open_requests id log) c.
Proof. unfold open_requests. by rewrite foldl_app. Qed.

Context {Hash : Type}.
Abbreviation St := (Sched Hash Key logged_state Spec).
Definition log (s : St) : list Call := (manager s).2.
(** A call of the scheduler: only the manager changes. *)
Lemma wpo_call {A} (m : M Mg A) f (Q : A → St → Prop) s : (∀ a m1, Q a (set_manager (m1, log s ++ f a) s)) → wpo (on_manager (log_call m f)) Q s.
Proof.
  intros HQ a s' E. unfold on_manager, log_call in E. destruct (m (manager s).1) as [[a1|e] m1]; [|done]. injection E as <- <-. apply HQ.
Qed.
End ledger.
