(* ===== verification/OffLookup.v ===== *)
(** The connector scheduler's search for blocks that can be loaded
    ([_lookup], [_maximal_prefix_lookup], [_sliding_window_lookup]): it ends,
    and what it answers every group can load. *)
From S2P Require Import Prelude PyDict PyNum KvSpec KvSpecProps KvLayout OffConfig OffScheduler.
From stdpp Require Import base list gmap sets strings.
From Stdlib Require Import ZArith Lia.
#[local] Open Scope string_scope.
#[local] Open Scope list_scope.
#[local] Open Scope Z_scope.

Lemma lookup_slice {A} (l : list A) a b j : 0 ≤ a → slice l a b !! j = if decide (a + Z.of_nat j < b) then l !! (Z.to_nat a + j)%nat else None.
Proof.
  intros Ha. unfold slice. case_decide.
  - rewrite lookup_take_lt by lia. by rewrite lookup_drop.
  - by rewrite lookup_take_ge by lia.
Qed.
Lemma length_slice {A} (l : list A) a b : 0 ≤ a ≤ b → b ≤ Z.of_nat (length l) → Z.of_nat (length (slice l a b)) = b - a.
Proof. intros Ha Hb. unfold slice. rewrite length_take, length_drop. lia. Qed.

(** [round_down(x, m)] is the greatest multiple of [m] up to [x]; a set that
    is not empty has an element. *)
Class OffLaws {Hash Key} (L : OffLib Hash Key) : Prop := {
  round_down_floor x m : 0 < m → round_down x m = x / m * m;
  any_of_elem (s : gset Z) : s ≠ ∅ → any_of s ∈ s }.

Section lookup.
Context {K : KvLib} {KL : KvLaws K} {Hash Key Mg Spec : Type} `{Countable Key} {MG : OffloadingManager Key Mg Spec} {L : OffLib Hash Key}.
Abbreviation St := (Sched Hash Key Mg Spec).
(** The manager's answers, which do not change while it is asked. *)
Context (steady : Mg → Prop) (answer : Key → option bool).
Context (lookup_steady : ∀ k ctx m, steady m → ∃ m', mgr_lookup k ctx m = (Ok (answer k), m') ∧ steady m').
Definition hit (k : Key) : Prop := answer k = Some true.

(** What a lookup leaves alone. *)
Definition asked (s s' : St) : Prop := steady (manager s') ∧ s' = set_manager (manager s') s.
Lemma asked_refl s : steady (manager s) → asked s s.
Proof. intros Hs. split; [done|]. by destruct s. Qed.
Lemma asked_trans s1 s2 s3 : asked s1 s2 → asked s2 s3 → asked s1 s3.
Proof. intros [_ H1] [H2 H3]. split; [done|]. rewrite H3, H1. by destruct s1. Qed.
Lemma ask k ctx (s : St) : steady (manager s) → ∃ s', on_manager (mgr_lookup k ctx) s = (Ok (answer k), s') ∧ asked s s'.
Proof.
  intros Hs. destruct (lookup_steady k ctx (manager s) Hs) as (m&E&Hm). exists (set_manager m s). unfold on_manager. rewrite E.
  split; [done|]. split; [done|]. by destruct s.
Qed.

(** ** Runs of hits *)

Lemma maximal_prefix_ok keys ctx h d (s : St) : steady (manager s) → ∃ r s', maximal_prefix keys ctx h d s = (Ok r, s') ∧ asked s s' ∧
  ∀ n, r = Some n → d = false ∧ h ≤ n ≤ h + Z.of_nat (length keys) ∧ ∀ j k, keys !! j = Some k → h + Z.of_nat j < n → hit k.
Proof.
  revert h d s. induction keys as [|k keys IH]; intros h d s Hs; cbn [maximal_prefix].
  { exists (if d then None else Some h), s. split; [done|]. split; [by apply asked_refl|]. destruct d; [done|]. intros n [= <-]. split; [done|]. split; [cbn; lia|]. by intros j k Hj. }
  destruct (ask k ctx s Hs) as (s1&E&Ha). rewrite (M_bind_run _ _ _ _ _ E).
  assert (Hgo : ∀ d', (d' = false → hit k ∧ d = false) → ∃ r s', maximal_prefix keys ctx (h + 1) d' s1 = (Ok r, s') ∧ asked s s' ∧
    ∀ n, r = Some n → d = false ∧ h ≤ n ≤ h + Z.of_nat (length (k :: keys)) ∧ ∀ j k', (k :: keys) !! j = Some k' → h + Z.of_nat j < n → hit k').
  { intros d' Hd'. destruct (IH (h + 1) d' s1 (proj1 Ha)) as (r&s'&E'&Ha'&Hr). exists r, s'. split; [done|]. split; [by eapply asked_trans|].
    intros n ->. destruct (Hr n eq_refl) as (Hd&Hn&Hk). destruct (Hd' Hd) as [Hhit Hd0]. split; [done|]. split; [cbn; lia|].
    intros [|j] k' Hj Hlt; [by injection Hj as <-|]. apply (Hk j); [done|lia]. }
  unfold hit in *. destruct (answer k) as [[|]|] eqn:Ek.
  - apply Hgo. done.
  - exists (if d then None else Some h), s1. split; [done|]. split; [done|]. destruct d; [done|]. intros n [= <-]. split; [done|]. split; [cbn; lia|]. lia.
  - by apply Hgo.
Qed.

(** The keys from index [lo] to index [hi]. *)
Definition hits_in (keys : list Key) (lo hi : Z) : Prop := ∀ j k, keys !! j = Some k → lo ≤ Z.of_nat j < hi → hit k.
Lemma window_scan_ok keys ctx window (consecutive : Z) d (s : St) all : steady (manager s) → 0 ≤ consecutive < window →
  all = reverse keys ++ drop (length keys) all → Z.of_nat (length keys) + consecutive ≤ Z.of_nat (length all) →
  hits_in all (Z.of_nat (length keys)) (Z.of_nat (length keys) + consecutive) →
  ∃ r s', window_scan keys window ctx consecutive d s = (Ok r, s') ∧ asked s s' ∧
    ∀ n, r = Some n → 0 ≤ n ≤ Z.of_nat (length all) ∧ hits_in all (Z.max 0 (n - window)) n.
Proof.
  revert consecutive d s. induction keys as [|k keys IH]; intros consecutive d s Hs Hc Hall Hle Hin; cbn [window_scan].
  { exists (if d then None else Some consecutive), s. split; [done|]. split; [by apply asked_refl|]. destruct d; [done|]. intros n [= <-]. cbn in *.
    split; [lia|]. intros j k' Hj Hb. apply (Hin j); [done|lia]. }
  destruct (ask k ctx s Hs) as (s1&E&Ha). rewrite (M_bind_run _ _ _ _ _ E). cbn zeta.
  rewrite reverse_cons, <- app_assoc in Hall. cbn [length] in Hle, Hin.
  assert (Hk : all !! length keys = Some k).
  { rewrite Hall, lookup_app_r by (rewrite length_reverse; lia). by rewrite length_reverse, Nat.sub_diag. }
  assert (Hall' : all = reverse keys ++ drop (length keys) all).
  { rewrite Hall at 2. rewrite drop_app_ge by (rewrite length_reverse; lia). rewrite length_reverse, Nat.sub_diag. exact Hall. }
  destruct (bool_decide_reflect (answer k = Some true)) as [Hh|Hh].
  - assert (Hin' : hits_in all (Z.of_nat (length keys)) (Z.of_nat (length keys) + (consecutive + 1))).
    { intros j k' Hj Hb. destruct (decide (j = length keys)) as [->|]; [|apply (Hin j); [done|lia]]. rewrite Hk in Hj. by injection Hj as <-. }
    destruct (Z.eqb_spec (consecutive + 1) window) as [Hw|Hw].
    + eexists _, s1. split; [reflexivity|]. split; [done|]. destruct (d || _); [done|]. intros n [= <-]. split; [lia|].
      intros j k' Hj Hb. apply (Hin' j); [done|lia].
    + destruct (IH (consecutive + 1) (d || bool_decide (answer k = None)) s1 (proj1 Ha) ltac:(lia) Hall' ltac:(lia) Hin') as (r&s'&E'&Ha'&Hr).
      exists r, s'. split; [done|]. split; [by eapply asked_trans|done].
  - destruct (IH 0 (d || bool_decide (answer k = None)) s1 (proj1 Ha) ltac:(lia) Hall' ltac:(lia)) as (r&s'&E'&Ha'&Hr).
    { intros j k' _ Hb. lia. }
    exists r, s'. split; [done|]. split; [by eapply asked_trans|done].
Qed.
Lemma sliding_window_lookup_ok keys window ctx (s : St) : steady (manager s) → 0 < window →
  ∃ r s', _sliding_window_lookup keys window ctx s = (Ok r, s') ∧ asked s s' ∧
    ∀ n, r = Some n → 0 ≤ n ≤ Z.of_nat (length keys) ∧ hits_in keys (Z.max 0 (n - window)) n.
Proof.
  intros Hs Hw. unfold _sliding_window_lookup. apply window_scan_ok; [done|lia| |rewrite length_reverse; lia|intros j k _ Hb; lia].
  rewrite reverse_involutive, length_reverse, drop_all, app_nil_r. done.
Qed.

(** ** One group *)

Context (C : Connector).
Abbreviation configs := (kv_group_configs (config C)).
(** A connector whose groups are numbered by position, with sizes and windows
    that are positive. *)
Record conn_ok : Prop := {
  co_idx i c : configs !! i = Some c → group_idx c = i;
  co_size c : c ∈ configs → 0 < offloaded_block_size c;
  co_window c w : c ∈ configs → sliding_window_size_in_blocks c = Some w → 0 < w;
  co_sliding i : i ∈ sliding_window_groups C ↔ ∃ c, configs !! i = Some c ∧ is_Some (sliding_window_size_in_blocks c);
  co_lookup i : i ∈ lookup_groups C ↔ (i < length configs)%nat;
  co_align m : mamba_align_size C = Some m → 0 < m }.
Context (conn : conn_ok) (r : RequestOffloadState Key) (req : Request Hash).
Abbreviation computed := (num_locally_computed_tokens r).
(** A request whose offload keys cover its tokens. *)
Record request_ok : Prop := {
  rk_groups : length (group_states r) = length configs;
  rk_keys i c g : configs !! i = Some c → group_states r !! i = Some g → rq_num_tokens req / offloaded_block_size c ≤ Z.of_nat (length (offload_keys g));
  rk_computed : 0 ≤ computed }.
Context (request : request_ok).

(** The first block of a group that a load up to token [b] brings. *)
Definition first_needed (c : GroupOffloadConfig) (b : Z) : Z :=
  Z.max (computed / offloaded_block_size c) (match sliding_window_size_in_blocks c with None => 0 | Some w => cdiv b (offloaded_block_size c) - w end).
(** All blocks of group [i] that a load up to token [b] brings are there. *)
Definition served (i : nat) (b : Z) : Prop :=
  ∀ c g, configs !! i = Some c → group_states r !! i = Some g →
    cdiv b (offloaded_block_size c) ≤ Z.of_nat (length (offload_keys g)) ∧
    hits_in (offload_keys g) (first_needed c b) (cdiv b (offloaded_block_size c)).
Definition windowed (i : nat) : Prop := i ∈ sliding_window_groups C.

Lemma served_mono i b b' : ¬ windowed i → served i b → b' ≤ b → served i b'.
Proof.
  intros Hw Hs Hb c g Hc Hg. destruct (Hs c g Hc Hg) as [Hl Hh]. pose proof (co_size conn c ltac:(by eapply list_elem_of_lookup_2)) as Hsz.
  pose proof (cdiv_mono b' b _ Hsz Hb). split; [lia|]. intros j k Hj Hb'. apply (Hh j); [done|]. unfold first_needed in *.
  destruct (sliding_window_size_in_blocks c) as [w|] eqn:Ew; [|lia]. destruct Hw. apply (co_sliding conn). by exists c.
Qed.

(** What [tighten] leaves, before [converge]. *)
Record group_result (i : nat) (x x1 : Search) : Prop := {
  gr_max : max_hit_size_tokens x1 ≤ max_hit_size_tokens x;
  gr_hit : num_hit_tokens x1 = num_hit_tokens x;
  gr_again : again x1 = again x;
  gr_looked : looked_up_sliding_window x1 = looked_up_sliding_window x;
  gr_defer : defer_lookup x = true → defer_lookup x1 = true;
  gr_served : served i (max_hit_size_tokens x1) ∨ defer_lookup x1 = true }.

Lemma slice_hits (keys : list Key) a b lo hi : 0 ≤ a → hits_in (slice keys a b) lo hi → 0 ≤ lo → hi ≤ b - a → hits_in keys (a + lo) (a + hi).
Proof.
  intros Ha Hh Hlo Hhi j k Hj Hb. apply (Hh (j - Z.to_nat a)%nat); [|lia]. rewrite lookup_slice by done. rewrite decide_True by lia.
  by replace (Z.to_nat a + (j - Z.to_nat a))%nat with j by lia.
Qed.
Lemma prefix_served i c g b start h n : configs !! i = Some c → group_states r !! i = Some g → sliding_window_size_in_blocks c = None →
  start = computed / offloaded_block_size c → hits_in (offload_keys g) start (start + h) → 0 ≤ n ≤ h → start + h ≤ Z.of_nat (length (offload_keys g)) →
  served i (Z.min b (offloaded_block_size c * (start + n))).
Proof.
  intros Hc Hg Hw -> Hh Hn Hl c' g' Hc' Hg'. simplify_eq. pose proof (co_size conn c ltac:(by eapply list_elem_of_lookup_2)) as Hsz.
  pose proof (rk_computed request). assert (Hst : 0 ≤ computed / offloaded_block_size c) by (apply Z.div_pos; lia).
  assert (Hcd : cdiv (Z.min b (offloaded_block_size c * (computed / offloaded_block_size c + n))) (offloaded_block_size c) ≤ computed / offloaded_block_size c + n)
    by (apply cdiv_le; lia).
  split; [lia|]. intros j k Hj Hb. apply (Hh j); [done|]. unfold first_needed in Hb. rewrite Hw in Hb. lia.
Qed.
Lemma window_served i c g (b q : Z) start h w e : configs !! i = Some c → group_states r !! i = Some g → sliding_window_size_in_blocks c = Some w →
  start = computed / offloaded_block_size c → hits_in (offload_keys g) (start + Z.max 0 (h - (w + e))) (start + h) →
  e = 0 ∧ q = b ∨ e = 1 ∧ q ≤ b + offloaded_block_size c → start + h ≤ cdiv q (offloaded_block_size c) → start + h ≤ Z.of_nat (length (offload_keys g)) → 0 < w →
  served i (Z.min b (offloaded_block_size c * (start + (h - e)))).
Proof.
  intros Hc Hg Hw -> Hh He Hq Hl Hwp c' g' Hc' Hg'. simplify_eq. pose proof (co_size conn c ltac:(by eapply list_elem_of_lookup_2)) as Hsz.
  set (size := offloaded_block_size c) in *. set (start := computed / size) in *.
  assert (Hcd : cdiv (Z.min b (size * (start + (h - e)))) size = start + (h - e)).
  { apply Z.le_antisymm; [apply cdiv_le; lia|]. destruct (Z.min_spec b (size * (start + (h - e)))) as [[Hlt ->]|[Hlt ->]].
    - assert (Hcq : cdiv q size ≤ cdiv b size + e).
      { destruct He as [[-> ->]|[-> Hqb]]; [lia|]. apply cdiv_le; [done|]. pose proof (cdiv_spec b size Hsz). nia. }
      lia.
    - rewrite Z.mul_comm, cdiv_mul by done. lia. }
  rewrite Hcd. split; [lia|]. intros j k Hj Hb. apply (Hh j); [done|]. unfold first_needed in Hb. rewrite Hw in Hb. fold size start in Hb. rewrite Hcd in Hb. lia.
Qed.

Lemma lookup_group_ok i x s : (i < length configs)%nat → steady (manager s) →
  ∃ y s', lookup_group C r req i x s = (Ok y, s') ∧ asked s s' ∧
    ∀ x', y = Some x' → ∃ c x1, configs !! i = Some c ∧ group_result i x x1 ∧
      offloaded_block_size c ≤ max_hit_size_tokens x1 - computed ∧ x' = converge C c (max_hit_size_tokens x1 - computed) x1.
Proof.
  intros Hi Hs. destruct (lookup_lt_is_Some_2 configs i Hi) as [c Hc]. destruct (lookup_lt_is_Some_2 (group_states r) i) as [g Hg]; [by rewrite (rk_groups request)|].
  pose proof (co_size conn c ltac:(by eapply list_elem_of_lookup_2)) as Hsz. pose proof (rk_computed request) as Hcomp.
  unfold lookup_group. rewrite Hc, Hg. cbn [res_of_option]. rewrite !run_lift_ok.
  rewrite (proj2 (Z.leb_le _ _) (rk_keys request i c g Hc Hg)). rewrite run_assert_true.
  set (size := offloaded_block_size c) in *. set (n := Z.of_nat (length (offload_keys g))). set (b := Z.min (max_hit_size_tokens x) (n * size)).
  set (x0 := mkSearch b (num_hit_tokens x) (defer_lookup x) (again x) (eagle_verified x) (looked_up_sliding_window x)).
  change (max_hit_size_tokens x0) with b.
  destruct (b - computed <? size) eqn:Eb; [by exists None, s; split; [done|]; split; [by apply asked_refl|]|]. apply Z.ltb_ge in Eb.
  set (u := eagle c && bool_decide (i ∉ eagle_verified x)). set (q := if u && bool_decide (is_Some (sliding_window_size_in_blocks c)) then Z.min (b + size) (n * size) else b).
  set (start := computed / size). assert (Hst : 0 ≤ start) by (apply Z.div_pos; lia).
  assert (Hbq : b ≤ q ∧ q ≤ n * size) by (unfold q; destruct (u && _); unfold b; lia).
  assert (Hqb : q ≤ b + size) by (unfold q; destruct (u && _); lia).
  assert (Hnb : Z.min (cdiv q size) n = cdiv q size) by (pose proof (proj2 (cdiv_le q size n Hsz) ltac:(lia)); lia). rewrite Hnb.
  assert (Hsq : start ≤ cdiv q size).
  { pose proof (cdiv_spec q size Hsz). pose proof (Z.div_mod computed size ltac:(lia)). pose proof (Z.mod_pos_bound computed size Hsz). unfold start. nia. }
  assert (Hql : cdiv q size ≤ n) by lia.
  set (keys := slice (offload_keys g) start (cdiv q size)). assert (Hkl : Z.of_nat (length keys) = cdiv q size - start) by (apply length_slice; fold n; lia).
  assert (Hask : ∃ hs s', (match sliding_window_size_in_blocks c with None => _maximal_prefix_lookup keys (rs_ctx r)
      | Some w => _sliding_window_lookup keys (if u then w + 1 else w) (rs_ctx r) end) s = (Ok hs, s') ∧ asked s s' ∧
      ∀ h, hs = Some h → h ≠ 0 → served i (Z.min b (size * (start + (if u then h - 1 else h))))).
  { destruct (sliding_window_size_in_blocks c) as [w|] eqn:Ew.
    - pose proof (co_window conn c w ltac:(by eapply list_elem_of_lookup_2) Ew) as Hw.
      destruct (sliding_window_lookup_ok keys (if u then w + 1 else w) (rs_ctx r) s Hs ltac:(destruct u; lia)) as (hs&s'&E&Ha&Hh).
      exists hs, s'. split; [done|]. split; [done|]. intros h Hhs _. destruct (Hh h Hhs) as [Hhn Hhit].
      apply (slice_hits _ start (cdiv q size)) in Hhit; [|done|lia|lia].
      replace (if u then h - 1 else h) with (h - (if u then 1 else 0)) by (destruct u; lia).
      apply (window_served i c g b q start h w); [done|done|done|done| | |fold size; lia|fold n; lia|done].
      + intros j k Hj Hb. apply (Hhit j k Hj). destruct u; lia.
      + fold size. destruct u; [right|by left]. split; [done|exact Hqb].
    - destruct (maximal_prefix_ok keys (rs_ctx r) 0 false s Hs) as (hs&s'&E&Ha&Hh). exists hs, s'. split; [done|]. split; [done|].
      intros h Hhs Hne. destruct (Hh h Hhs) as (_&Hhn&Hhit).
      apply (prefix_served i c g b start h); [done|done|done|done| |destruct u; lia|fold n; lia].
      intros j k Hj Hb. apply (Hhit (j - Z.to_nat start)%nat); [|lia]. unfold keys. rewrite lookup_slice by done. rewrite decide_True by lia.
      by replace (Z.to_nat start + (j - Z.to_nat start))%nat with j by lia. }
  destruct Hask as (hs&s'&E&Ha&Hserved). rewrite (M_bind_run _ _ _ _ _ E). clear E.
  destruct (bool_decide_reflect (hs = Some 0)) as [->|Hne]; [by exists None, s'|].
  set (x1 := tighten c computed start u hs x0).
  assert (Hr : group_result i x x1).
  { unfold x1. destruct hs as [h|]; cbn.
    - split; cbn; [lia|done|done|done|done|]. left. apply Hserved; [done|]. by intros ->.
    - split; cbn; [lia|done|done|done|done|by right]. }
  destruct (_ <? size) eqn:En; [by exists None, s'|]. apply Z.ltb_ge in En.
  eexists _, s'. split; [reflexivity|]. split; [done|]. intros x' [= <-]. by exists c, x1.
Qed.

(** ** Passes *)

Abbreviation all_groups := (lookup_groups C).
(** In a pass from bound [start]: what holds after the groups [donel]; the
    groups of [known] were served before the pass. *)
Record pass_inv (start : Z) (known donel : list nat) (x : Search) : Prop := {
  pi_bound : max_hit_size_tokens x ≤ start;
  pi_hit : donel ≠ [] ∨ known ≠ [] → num_hit_tokens x = max_hit_size_tokens x - computed;
  pi_full i : i ∈ known ++ donel → ¬ windowed i → served i (max_hit_size_tokens x) ∨ defer_lookup x = true ∨ again x = all_groups;
  pi_window i : i ∈ donel → windowed i → served i (max_hit_size_tokens x) ∨ defer_lookup x = true ∨ again x ≠ [];
  pi_again : again x = [] ∨ again x = sliding_window_groups C ∨ again x = all_groups;
  pi_looked i : i ∈ donel → windowed i → looked_up_sliding_window x = true;
  pi_tight : again x ≠ [] → max_hit_size_tokens x < start;
  pi_first : num_hit_tokens x = 0 ∨ num_hit_tokens x = max_hit_size_tokens x - computed }.

Lemma windowed_spec i c : configs !! i = Some c → bool_decide (is_Some (sliding_window_size_in_blocks c)) = true ↔ windowed i.
Proof.
  intros Hc. rewrite bool_decide_eq_true. unfold windowed. rewrite (co_sliding conn). split; [by exists c|]. intros (c'&Hc'&?). congruence.
Qed.
Lemma converge_ok start known donel i c x x1 : configs !! i = Some c → (∀ j, j ∈ known → ¬ windowed j) → pass_inv start known donel x → group_result i x x1 →
  offloaded_block_size c ≤ max_hit_size_tokens x1 - computed →
  pass_inv start known (donel ++ [i]) (converge C c (max_hit_size_tokens x1 - computed) x1) ∧ 0 < num_hit_tokens (converge C c (max_hit_size_tokens x1 - computed) x1).
Proof.
  intros Hc Hkn [Hb Hh Hf Hw Ha Hl Ht H0] [G1 G2 G3 G4 Hd G5] Hsz.
  pose proof (co_size conn c ltac:(by eapply list_elem_of_lookup_2)) as Hpos. pose proof (windowed_spec i c Hc) as Hwi.
  assert (Hi : i ∈ all_groups) by (apply (co_lookup conn); by eapply lookup_lt_Some).
  assert (Hall : all_groups ≠ []) by (intros E; rewrite E in Hi; by apply not_elem_of_nil in Hi).
  set (b := max_hit_size_tokens x) in *. set (b1 := max_hit_size_tokens x1) in *.
  assert (Hmono : ∀ j, ¬ windowed j → served j b → served j b1) by (intros j Hj Hs; by eapply served_mono).
  unfold converge. rewrite G2, G3, G4. destruct (Z.ltb_spec (b1 - computed) (num_hit_tokens x)) as [Htight|Hloose].
  - assert (Hlt : b1 < b) by lia. destruct (defer_lookup x1) eqn:Ed; cbn [num_hit_tokens]; (split; [|lia]).
    + split; cbn; [lia|done|by (intros; right; right)|by (intros; right; right)|by (right; right)| |lia|by right].
      intros j [Hj| ->%list_elem_of_singleton]%elem_of_app Hwj; [by rewrite (Hl j Hj Hwj)|by apply Hwi in Hwj as ->; rewrite orb_true_r].
    + destruct G5 as [Hs|]; [|done]. assert (Hnd : defer_lookup x = false) by (destruct (defer_lookup x); [discriminate (Hd eq_refl)|done]).
      set (ag := if looked_up_sliding_window x && bool_decide (again x = []) then sliding_window_groups C else again x).
      assert (Hag : again x ≠ [] → ag = again x) by (intros Hne; unfold ag; rewrite bool_decide_eq_false_2 by done; by rewrite andb_false_r).
      split; cbn; [lia|done| | | | |lia|by right].
      * intros j Hj Hwj. rewrite app_assoc in Hj. apply elem_of_app in Hj as [Hj| ->%list_elem_of_singleton]; [|by left].
        destruct (Hf j Hj Hwj) as [?|[?|E]]; [left; by apply Hmono|congruence|right; right]. rewrite Hag by congruence. done.
      * intros j [Hj| ->%list_elem_of_singleton]%elem_of_app Hwj; [|by left]. right; right. unfold ag. rewrite (Hl j Hj Hwj).
        destruct (bool_decide_reflect (again x = [])); [|done]. cbn. intros E. unfold windowed in Hwj. rewrite E in Hwj. by apply not_elem_of_nil in Hwj.
      * unfold ag. destruct (_ && _); [by right; left|done].
      * intros j [Hj| ->%list_elem_of_singleton]%elem_of_app Hwj; [by rewrite (Hl j Hj Hwj)|by apply Hwi in Hwj as ->; rewrite orb_true_r].
  - cbn [num_hit_tokens]. split; [|lia].
    assert (Hcase : donel = [] ∧ known = [] ∨ b1 = b).
    { destruct donel as [|d l]; [destruct known as [|d l]; [by left|]|]; right; rewrite Hh in Hloose by auto; lia. }
    split; cbn; [lia|done| | |done| |intros Hne; specialize (Ht Hne); lia|by right].
    + intros j Hj Hwj. rewrite app_assoc in Hj. apply elem_of_app in Hj as [Hj| ->%list_elem_of_singleton].
      * destruct (Hf j Hj Hwj) as [?|[?|?]]; [left; by apply Hmono|right; left; by apply Hd|by right; right].
      * destruct G5 as [?|?]; [by left|by right; left].
    + intros j [Hj| ->%list_elem_of_singleton]%elem_of_app Hwj; [|destruct G5 as [?|?]; [by left|by right; left]].
      destruct (Hw j Hj Hwj) as [?|[?|?]]; [left|right; left; by apply Hd|by right; right].
      destruct Hcase as [[-> _]|<-]; [by apply not_elem_of_nil in Hj|done].
    + intros j [Hj| ->%list_elem_of_singleton]%elem_of_app Hwj; [by rewrite (Hl j Hj Hwj)|by apply Hwi in Hwj as ->; rewrite orb_true_r].
Qed.

Lemma lookup_pass_ok start known groups donel x s : (∀ j, j ∈ known → ¬ windowed j) → (∀ i, i ∈ groups → (i < length configs)%nat) → steady (manager s) →
  pass_inv start known donel x → (donel ≠ [] → 0 < num_hit_tokens x) →
  ∃ y s', lookup_pass C r req groups x s = (Ok y, s') ∧ asked s s' ∧
    ∀ x', y = Some x' → pass_inv start known (donel ++ groups) x' ∧ (donel ++ groups ≠ [] → 0 < num_hit_tokens x').
Proof.
  intros Hkn. revert donel x s. induction groups as [|i groups IH]; intros donel x s Hg Hs Hp Hpos; cbn [lookup_pass].
  { exists (Some x), s. split; [done|]. split; [by apply asked_refl|]. intros x' [= <-]. by rewrite app_nil_r. }
  destruct (lookup_group_ok i x s (Hg i ltac:(by left)) Hs) as (y&s1&E&Ha&Hy). rewrite (M_bind_run _ _ _ _ _ E). clear E.
  destruct y as [x'|]; [|by exists None, s1]. destruct (Hy x' eq_refl) as (c&x1&Hc&Hr&Hsz&->).
  destruct (converge_ok start known donel i c x x1 Hc Hkn Hp Hr Hsz) as [Hp' Hpos'].
  destruct (IH (donel ++ [i]) (converge C c (max_hit_size_tokens x1 - computed) x1) s1) as (y&s'&E'&Ha'&Hy'); [intros j Hj; apply Hg; by right|apply Ha|done|done|].
  rewrite <- app_assoc in Hy'. exists y, s'. split; [done|]. split; [by eapply asked_trans|done].
Qed.

(** The next pass: over all groups, or over the windowed ones when the others
    are known to be served. *)
Definition next_pass (groups : list nat) (x : Search) : Prop :=
  groups = all_groups ∧ (num_hit_tokens x = 0 ∨ num_hit_tokens x = max_hit_size_tokens x - computed) ∨
  groups = sliding_window_groups C ∧ num_hit_tokens x = max_hit_size_tokens x - computed ∧
    ∀ i, (i < length configs)%nat → ¬ windowed i → served i (max_hit_size_tokens x) ∨ defer_lookup x = true.
Definition finished_search (x0 x : Search) : Prop :=
  max_hit_size_tokens x ≤ max_hit_size_tokens x0 ∧ num_hit_tokens x = max_hit_size_tokens x - computed ∧ 0 < num_hit_tokens x ∧
  (defer_lookup x = false → ∀ i, (i < length configs)%nat → served i (max_hit_size_tokens x)).

Lemma not_windowed_dec i : windowed i ∨ ¬ windowed i.
Proof. unfold windowed. destruct (decide (i ∈ sliding_window_groups C)); auto. Qed.
(** The groups outside a pass over the windowed ones. *)
Definition unwindowed : list nat := filter (λ i, i ∉ sliding_window_groups C) (seq 0 (length configs)).
Lemma elem_of_unwindowed i : i ∈ unwindowed ↔ (i < length configs)%nat ∧ ¬ windowed i.
Proof. unfold unwindowed. rewrite list_elem_of_filter, elem_of_seq. unfold windowed. cbn. intuition lia. Qed.

Lemma lookup_loop_ok fuel groups x s : steady (manager s) → groups ≠ [] → next_pass groups x → (Z.to_nat (max_hit_size_tokens x - computed) < fuel)%nat →
  ∃ y s', lookup_loop C fuel r req groups x s = (Ok y, s') ∧ asked s s' ∧ ∀ x', y = Some x' → finished_search x x'.
Proof.
  revert groups x s. induction fuel as [|fuel IH]; intros groups x s Hs Hne Hnp Hf; [lia|].
  cbn [lookup_loop]. destruct groups as [|i0 groups0] eqn:Eg; [done|]. rewrite <- Eg in *. clear i0 groups0 Eg.
  set (x0 := mkSearch (max_hit_size_tokens x) (num_hit_tokens x) (defer_lookup x) [] (eagle_verified x) false).
  assert (Hgs : ∀ i, i ∈ groups → (i < length configs)%nat).
  { intros i Hi. destruct Hnp as [[-> _]|[-> _]]; [by apply (co_lookup conn)|]. apply (co_sliding conn) in Hi as (c&Hc&_). by eapply lookup_lt_Some. }
  set (known := if decide (groups = all_groups) then [] else unwindowed).
  assert (Hkn : ∀ j, j ∈ known → ¬ windowed j).
  { intros j Hj. unfold known in Hj. destruct (decide (groups = all_groups)); [by apply not_elem_of_nil in Hj|by apply elem_of_unwindowed]. }
  assert (Hcover : ∀ i, (i < length configs)%nat → i ∈ known ++ groups ∧ (windowed i → i ∈ groups)).
  { intros i Hi. unfold known. destruct (decide (groups = all_groups)) as [->|Hna]; [by split; intros; apply (co_lookup conn)|].
    destruct Hnp as [[? _]|[-> _]]; [done|]. split; [|done]. rewrite elem_of_app. destruct (not_windowed_dec i); [by right|left; by apply elem_of_unwindowed]. }
  assert (Hp : pass_inv (max_hit_size_tokens x) known [] x0).
  { split; cbn; try done; try (by left); try (by intros i ?%not_elem_of_nil).
    - intros [Hd|Hk]; [done|]. unfold known in Hk. destruct (decide (groups = all_groups)); [done|]. destruct Hnp as [[? _]|(_&?&_)]; done.
    - intros i Hi Hw. rewrite app_nil_r in Hi. unfold known in Hi. destruct (decide (groups = all_groups)) as [|Hna]; [by apply not_elem_of_nil in Hi|].
      apply elem_of_unwindowed in Hi as [Hi _]. destruct Hnp as [[? _]|(_&_&Hserved)]; [done|]. destruct (Hserved i Hi Hw); [by left|by right; left].
    - destruct Hnp as [[_ ?]|(_&?&_)]; [done|by right]. }
  destruct (lookup_pass_ok (max_hit_size_tokens x) known groups [] x0 s Hkn Hgs Hs Hp ltac:(done)) as (y&s1&E&Ha&Hy).
  rewrite (M_bind_run _ _ _ _ _ E). clear E. destruct y as [x1|]; [|by exists None, s1].
  destruct (Hy x1 eq_refl) as [[Hb Hh Hfu Hw Hag Hlo Hti Hfi] Hpos]. cbn [app] in *. specialize (Hpos Hne). specialize (Hh (or_introl Hne)).
  destruct (decide (again x1 = [])) as [Ea|Ea].
  - exists (Some x1), s1. rewrite Ea. split; [by destruct fuel|]. split; [done|]. intros x' [= <-]. split; [done|]. split; [done|]. split; [done|].
    intros Hd i Hi. destruct (Hcover i Hi) as [Hin Hwin]. destruct (not_windowed_dec i) as [Hwi|Hwi].
    + destruct (Hw i (Hwin Hwi) Hwi) as [?|[?|?]]; [done|congruence|done].
    + destruct (Hfu i Hin Hwi) as [?|[?|E]]; [done|congruence|]. rewrite Ea in E. exfalso. apply (co_lookup conn) in Hi. rewrite <- E in Hi. by apply not_elem_of_nil in Hi.
  - destruct (IH (again x1) x1 s1 (proj1 Ha) Ea) as (y&s'&E'&Ha'&Hy').
    + destruct (decide (again x1 = all_groups)) as [Eall|Nall]; [left; split; [done|by right]|]. right. destruct Hag as [?|[Es|?]]; [done| |done].
      split; [done|]. split; [done|]. intros i Hi Hwi. destruct (Hcover i Hi) as [Hin _]. destruct (Hfu i Hin Hwi) as [?|[?|?]]; [by left|by right|done].
    + specialize (Hti Ea). lia.
    + exists y, s'. split; [done|]. split; [by eapply asked_trans|]. intros x' Hx'. destruct (Hy' x' Hx') as (H1&H2&H3&H4). split; [lia|done].
Qed.

(** Nothing a group would load is being loaded by another job. *)
Definition not_loading (s : St) (i : nat) (b : Z) : Prop := ∀ c g loading, configs !! i = Some c → group_states r !! i = Some g → being_loaded s = Some loading →
  ∀ j k, offload_keys g !! j = Some k → first_needed c b ≤ Z.of_nat j < cdiv b (offloaded_block_size c) → k ∉ loading.
Lemma not_group_loading (s : St) i b c g loading : configs !! i = Some c → group_states r !! i = Some g → being_loaded s = Some loading →
  cdiv b (offloaded_block_size c) ≤ Z.of_nat (length (offload_keys g)) →
  group_loading loading computed (b - computed) (c, g) = false → ∀ j k, offload_keys g !! j = Some k → first_needed c b ≤ Z.of_nat j < cdiv b (offloaded_block_size c) → k ∉ loading.
Proof.
  intros Hc Hg Hl Hlen Hn j k Hj Hb Hk. unfold group_loading in Hn. replace (computed + (b - computed)) with b in Hn by lia.
  pose proof (co_size conn c ltac:(by eapply list_elem_of_lookup_2)) as Hsz. pose proof (rk_computed request) as Hcomp.
  set (size := offloaded_block_size c) in *. set (start := computed / size) in *. assert (Hst : 0 ≤ start) by (apply Z.div_pos; lia).
  unfold first_needed in Hb. fold size start in Hb.
  assert (Hsj : start ≤ Z.of_nat j < cdiv b size) by lia.
  assert (Hex : k ∈ match sliding_window_size_in_blocks c with Some w => last_n w (slice (offload_keys g) start (cdiv b size)) | None => slice (offload_keys g) start (cdiv b size) end).
  { assert (Hin : slice (offload_keys g) start (cdiv b size) !! (j - Z.to_nat start)%nat = Some k).
    { rewrite lookup_slice by done. rewrite decide_True by lia. by replace (Z.to_nat start + (j - Z.to_nat start))%nat with j by lia. }
    destruct (sliding_window_size_in_blocks c) as [w|] eqn:Ew; [|by eapply list_elem_of_lookup_2]. unfold last_n.
    pose proof (co_window conn c w ltac:(by eapply list_elem_of_lookup_2) Ew). destruct (Z.eqb_spec w 0); [lia|].
    assert (Hsl : Z.of_nat (length (slice (offload_keys g) start (cdiv b size))) = cdiv b size - start) by (apply length_slice; lia).
    apply (list_elem_of_lookup_2 _ (j - Z.to_nat start - Z.to_nat (Z.of_nat (length (slice (offload_keys g) start (cdiv b size))) - w))).
    rewrite lookup_drop, Hsl. rewrite <- Hin. f_equal. lia. }
  pose proof (existsb_false _ _ k Hn Hex) as Hall. by apply bool_decide_eq_false in Hall.
Qed.
Lemma elem_of_zip_lookup {A B} (l : list A) (l' : list B) i a b : l !! i = Some a → l' !! i = Some b → (a, b) ∈ zip l l'.
Proof. intros Ha Hb. apply (list_elem_of_lookup_2 _ i). apply lookup_zip_with_Some. by exists a, b. Qed.

(** What [_lookup] answers: nothing to load, ask again later, or a number of
    tokens that every group can load. *)
Definition lookup_answer (s : St) (n : Z) : Prop :=
  n = 0 ∨ 0 < n ∧ computed + n ≤ rq_num_tokens req ∧ (sliding_window_groups C ≠ [] → computed + n < rq_num_tokens req) ∧
    ∀ i, (i < length configs)%nat → served i (computed + n) ∧ not_loading s i (computed + n).
Lemma lookup_ok `{!OffLaws L} (s : St) : steady (manager s) → objs s (rs_req r) = req → 0 ≤ rq_num_tokens req →
  ∃ y s', _lookup C r s = (Ok y, s') ∧ asked s s' ∧ ∀ n, y = Some n → lookup_answer s n.
Proof.
  intros Hs Hreq Hnt. unfold _lookup, req_of. rewrite run_assoc, run_get, run_ret, Hreq.
  assert (Hmax : max_lookup_tokens C req ≤ rq_num_tokens req ∧ (sliding_window_groups C ≠ [] → max_lookup_tokens C req < rq_num_tokens req)).
  { unfold max_lookup_tokens. destruct (sliding_window_groups C); [done|]. destruct (mamba_align_size C) as [m|] eqn:Em; [|lia].
    pose proof (co_align conn m Em). rewrite round_down_floor by done. pose proof (Z.div_mod (rq_num_tokens req - 1) m ltac:(lia)). pose proof (Z.mod_pos_bound (rq_num_tokens req - 1) m ltac:(lia)). lia. }
  pose proof (rk_computed request) as Hcomp.
  set (x0 := mkSearch (max_lookup_tokens C req) 0 false [] ∅ false).
  destruct (decide (all_groups = [])) as [Ea|Ea].
  { rewrite Ea. destruct (Z.to_nat (rq_num_tokens req) + 2)%nat as [|m] eqn:Ef; [lia|]. cbn [lookup_loop]. rewrite run_ret. cbn [defer_lookup x0]. rewrite run_get.
    assert (Hz : zip configs (group_states r) = []).
    { destruct configs as [|c l] eqn:Ec; [done|]. exfalso. apply (not_elem_of_nil 0%nat). rewrite <- Ea. apply (co_lookup conn). rewrite Ec. cbn. lia. }
    rewrite Hz. cbn [existsb]. destruct (being_loaded s) as [l|]; rewrite ?andb_false_r; (exists (Some 0), s; split; [done|]; split; [by apply asked_refl|]; intros n [= <-]; by left). }
  destruct (lookup_loop_ok (Z.to_nat (rq_num_tokens req) + 2) all_groups x0 s Hs Ea) as (y&s1&E&Ha&Hy).
  { left. split; [done|by left]. }
  { cbn. lia. }
  rewrite (M_bind_run _ _ _ _ _ E). clear E. destruct y as [x|]; [|exists (Some 0), s1; split; [done|]; split; [done|]; intros n [= <-]; by left].
  destruct (Hy x eq_refl) as (H1&H2&H3&H4). cbn in H1. destruct (defer_lookup x) eqn:Ed; [by exists None, s1|]. rewrite run_get.
  assert (Hl : being_loaded s1 = being_loaded s) by (destruct Ha as [_ ->]; done). rewrite Hl.
  set (b := max_hit_size_tokens x) in *. assert (Hb : computed + num_hit_tokens x = b) by lia.
  assert (Hans : (∀ loading, being_loaded s = Some loading → bool_decide (loading ≠ ∅) && existsb (group_loading loading computed (num_hit_tokens x)) (zip configs (group_states r)) = false) →
    lookup_answer s (num_hit_tokens x)).
  { intros Hload. right. rewrite Hb. split; [done|]. split; [lia|]. split; [intros Hne; destruct Hmax as [_ Hlt]; specialize (Hlt Hne); lia|]. intros i Hi. split; [by apply H4|].
    intros c g loading Hc Hg Hlo. specialize (Hload loading Hlo). apply andb_false_iff in Hload as [He|He].
    - apply bool_decide_eq_false in He. assert (loading = ∅) as -> by (destruct (decide (loading = ∅)); [done|by destruct He]). set_solver.
    - rewrite H2 in He. intros j k Hj Hjb. assert (He' := existsb_false _ _ (c, g) He (elem_of_zip_lookup _ _ i _ _ Hc Hg)).
      eapply (not_group_loading s i b c g loading); [done|done|done|by destruct (H4 eq_refl i Hi c g Hc Hg)|exact He'|exact Hj|exact Hjb]. }
  destruct (being_loaded s) as [loading|] eqn:El.
  - destruct (_ && _) eqn:Eg; [by exists None, s1|]. exists (Some (num_hit_tokens x)), s1. split; [done|]. split; [done|]. intros n [= <-]. apply Hans. by intros ? [= <-].
  - exists (Some (num_hit_tokens x)), s1. split; [done|]. split; [done|]. intros n [= <-]. by apply Hans.
Qed.
End lookup.
