(* ===== verification/OffConfigProps.v ===== *)
(** What a connector made from a specification is like, the offload keys of a
    request, and the lookup of the connector's scheduler as the engine calls
    it. *)
From S2P Require Import Prelude PyDict PyNum KvSpec KvSpecProps KvLayout OffConfig OffScheduler OffLookup.
From stdpp Require Import base list gmap sets strings.
From Stdlib Require Import ZArith Lia.
#[local] Open Scope string_scope.
#[local] Open Scope list_scope.
#[local] Open Scope Z_scope.

(** * A connector *)

Lemma insert_desc_perm x l : insert_desc x l ≡ₚ x :: l.
Proof. induction l as [|y l IH]; cbn; [done|]. destruct (_ <=? _); [|done]. rewrite IH. apply Permutation_swap. Qed.
Lemma sort_desc_perm l : sort_desc l ≡ₚ l.
Proof.
  unfold sort_desc. enough (∀ acc, foldl (λ acc x, insert_desc x acc) acc l ≡ₚ l ++ acc) as -> by (by rewrite app_nil_r). induction l as [|x l IH]; intros acc; cbn; [done|].
  rewrite IH, insert_desc_perm. symmetry. apply Permutation_middle.
Qed.
Lemma map_res_lookup {A B} (f : A → res B) l ys i y : map_res f l = Ok ys → ys !! i = Some y → ∃ x, l !! i = Some x ∧ f x = Ok y.
Proof. intros E Hy. apply map_res_inv in E. destruct (Forall2_lookup_r _ _ _ _ _ E Hy) as (x&?&?). by exists x. Qed.
Lemma map_res_fmap {A B} (f : A → res B) (g : A → B) l ys : map_res f l = Ok ys → (∀ x y, x ∈ l → f x = Ok y → y = g x) → ys = g <$> l.
Proof.
  intros E%map_res_inv. induction E as [|x y l ys Exy _ IH]; intros Hg; [done|]. cbn. f_equal; [apply Hg; [by left|done]|]. apply IH. intros ? ? ?. apply Hg. by right.
Qed.

Section config.
Context {K : KvLib} {KL : KvLaws K}.
(** Sizes are positive, and an offloaded block has at least one hash. *)
Record spec_ok (spec : OffloadingSpec) : Prop := {
  so_factor : 0 < spec_block_size_factor spec;
  so_hash : 0 < spec_hash_block_size spec;
  so_sizes n : n ∈ spec_gpu_block_size spec → 0 < n ∧ spec_hash_block_size spec ≤ n * spec_block_size_factor spec }.
Lemma window_positive s size w : 0 < size → get_sliding_window_size_in_blocks s size = Ok (Some w) → 0 < w.
Proof.
  intros Hs. unfold get_sliding_window_size_in_blocks. destruct s as [s|]; [|done]. destruct (is_sliding_window s).
  - destruct (_ ≫= _) as [[n e]|]; [|done]. destruct (Z.ltb_spec 0 n); [|done]. intros [= <-]. pose proof (cdiv_spec n size Hs). nia.
  - destruct (is_mamba s); [by intros [= <-]|]. by destruct (is_full_attention s).
Qed.
Lemma from_spec_group spec config i c : spec_ok spec → from_spec spec = Ok config → kv_group_configs config !! i = Some c →
  group_idx c = i ∧ 0 < offloaded_block_size c ∧ hash_block_size_factor c = offloaded_block_size c / spec_hash_block_size spec ∧
  spec_hash_block_size spec ≤ offloaded_block_size c ∧ ∀ w, sliding_window_size_in_blocks c = Some w → 0 < w.
Proof.
  intros [Hf Hh Hsz] E Hc. unfold from_spec in E. apply res_bind_ok in E as (windows&Ew&E). apply res_bind_ok in E as (configs&Ec&E). injection E as <-. cbn in Hc.
  destruct (map_res_lookup _ _ _ _ _ Ec Hc) as ([i' [n w]]&Hx&Eg). rewrite list_lookup_imap in Hx. destruct (zip _ _ !! i) as [nw|] eqn:Ez; [|done].
  injection Hx as <- ->. apply lookup_zip_with_Some in Ez as (n'&w'&[= <- <-]&Hn&Hw). destruct (map_res_lookup _ _ _ _ _ Ew Hw) as ([n' g]&Hg&Ewn).
  unfold with_groups in Hg. rewrite list_lookup_imap, Hn in Hg. injection Hg as <- <-. destruct (Hsz n (list_elem_of_lookup_2 _ _ _ Hn)) as [Hn0 Hn1].
  unfold group_config in Eg. apply res_bind_ok in Eg as (factor&Ef&Eg). apply res_bind_ok in Eg as (count&_&Eg). injection Eg as <-. cbn.
  unfold floordiv in Ef. destruct (Z.eqb_spec (spec_hash_block_size spec) 0); [lia|]. injection Ef as <-. split; [done|]. split; [nia|]. split; [done|]. split; [done|].
  intros w1 ->. unfold window_one in Ewn. apply res_bind_ok in Ewn as (g&_&Ewn). cbn in Ewn. eapply window_positive; [|exact Ewn]. nia.
Qed.
Lemma mamba_align_positive spec m : spec_ok spec → resolve_mamba_align_size spec = Ok (Some m) → 0 < m.
Proof.
  intros [Hf Hh Hsz]. unfold resolve_mamba_align_size. assert (Hl : ∀ x, x ∈ with_groups spec → 0 < x.1).
  { intros [n g] (i&n'&[= -> ->]&Hn)%elem_of_lookup_imap_1. by apply list_elem_of_lookup_2, Hsz in Hn as [? _]. }
  enough (∀ acc, (∀ n, acc = Some n → 0 < n) → fold_res (mamba_align_one (spec_block_size_factor spec)) acc (with_groups spec) = Ok (Some m) → 0 < m) as He by (by apply He).
  induction (with_groups spec) as [|x l IH]; intros acc Hacc; cbn [fold_res]; [intros [= ->]; by apply Hacc|].
  intros (acc'&E&Hr)%res_bind_ok. revert Hr. apply IH; [intros; apply Hl; by right|]. intros n ->. unfold mamba_align_one in E. apply res_bind_ok in E as (g&_&E).
  specialize (Hl x ltac:(by left)). destruct (is_align_mamba _); [|injection E as E; by apply Hacc]. destruct (match acc with None => _ | Some _ => _ end); [|done]. injection E as <-. nia.
Qed.
Theorem new_connector_ok spec C : spec_ok spec → new_connector spec = Ok C → conn_ok C.
Proof.
  intros Hspec E. unfold new_connector in E. apply res_bind_ok in E as (config&Ec&E). apply res_bind_ok in E as (align&Ea&E). injection E as <-.
  set (sliding := omap (λ c, (λ w, (group_idx c, w)) <$> sliding_window_size_in_blocks c) (kv_group_configs config)). set (full := omap _ (kv_group_configs config)).
  assert (Hidx : ∀ c, c ∈ kv_group_configs config → kv_group_configs config !! group_idx c = Some c).
  { intros c (i&Hi)%list_elem_of_lookup. destruct (from_spec_group _ _ _ _ Hspec Ec Hi) as (->&_). done. }
  assert (Hsl : ∀ i, i ∈ (sort_desc sliding).*1 ↔ ∃ c, kv_group_configs config !! i = Some c ∧ is_Some (sliding_window_size_in_blocks c)).
  { intros i. rewrite sort_desc_perm. unfold sliding. rewrite list_elem_of_fmap. split.
    - intros ([i' w]&->&(c&Hc&Ew)%list_elem_of_omap). destruct (sliding_window_size_in_blocks c) eqn:E; [|done]. injection Ew as <- <-. exists c. split; [by apply Hidx|by rewrite E].
    - intros (c&Hc&[w Hw]). destruct (from_spec_group _ _ _ _ Hspec Ec Hc) as (Hi&_). exists (i, w). split; [done|]. apply list_elem_of_omap. exists c.
      split; [by eapply list_elem_of_lookup_2|]. by rewrite Hw, <- Hi. }
  split; cbn [OffScheduler.config sliding_window_groups lookup_groups mamba_align_size].
  - intros i c Hc. by destruct (from_spec_group _ _ _ _ Hspec Ec Hc).
  - intros c (i&Hc)%list_elem_of_lookup. by destruct (from_spec_group _ _ _ _ Hspec Ec Hc) as (_&?&_).
  - intros c w (i&Hc)%list_elem_of_lookup. destruct (from_spec_group _ _ _ _ Hspec Ec Hc) as (_&_&_&_&Hw). apply Hw.
  - exact Hsl.
  - intros i. rewrite elem_of_app, Hsl. unfold full. rewrite list_elem_of_omap. split.
    + intros [(c&Hc&E)|(c&Hc&_)]; [|by eapply lookup_lt_Some]. destruct (sliding_window_size_in_blocks c); [done|]. injection E as <-. by eapply lookup_lt_Some, Hidx.
    + intros [c Hc]%lookup_lt_is_Some. destruct (from_spec_group _ _ _ _ Hspec Ec Hc) as (Hi&_). destruct (sliding_window_size_in_blocks c) as [w|] eqn:E; [right; exists c; by rewrite E|].
      left. exists c. split; [by eapply list_elem_of_lookup_2|]. by rewrite E, Hi.
  - intros m Em. by eapply mamba_align_positive; [|rewrite <- Em].
Qed.
End config.

(** * Offload keys *)

(** An [omap] over indices whose results stop at some point. *)
Lemma omap_seq_lookup {A} (f : nat → option A) n a j : (∀ i, f i = None → f (S i) = None) → f (a + n)%nat = None → omap f (seq a n) !! j = f (a + j)%nat.
Proof.
  intros Hstop. assert (Hnone : ∀ i k, f i = None → f (i + k)%nat = None).
  { intros i k Hi. induction k as [|k IH]; [by rewrite Nat.add_0_r|]. rewrite Nat.add_succ_r. by apply Hstop. }
  revert a j. induction n as [|n IH]; intros a j Hn; cbn; [rewrite Nat.add_0_r in Hn; by rewrite Hnone|].
  destruct (f a) as [x|] eqn:Ea; [|rewrite IH by (rewrite Nat.add_succ_comm; exact Hn); rewrite !Hnone; try done; by apply Hstop].
  destruct j as [|j]; [by rewrite Nat.add_0_r|]. cbn. rewrite IH by (rewrite Nat.add_succ_comm; exact Hn). by rewrite Nat.add_succ_comm.
Qed.
Lemma lookup_stride {A} (l : list A) start step j : (1 ≤ step)%nat → stride l start step !! j = l !! (start + j * step)%nat.
Proof.
  intros Hs. unfold stride. rewrite (omap_seq_lookup (λ j, l !! (start + j * step)%nat)); [done|..].
  - intros i. rewrite !lookup_ge_None. lia.
  - apply lookup_ge_None. nia.
Qed.

Section keys.
Context {Hash Key Mg Spec : Type} `{Countable Key} {L : OffLib Hash Key}.
(** The offload keys of a group: every [factor]-th hash, from [factor - 1]. *)
Definition group_keys (c : GroupOffloadConfig) (hashes : list Hash) : list Key :=
  let factor := Z.to_nat (hash_block_size_factor c) in (λ h, make_offload_key h (group_idx c)) <$> stride hashes (factor - 1) factor.
Lemma lookup_group_keys c hashes j : 1 ≤ hash_block_size_factor c →
  group_keys c hashes !! j = (λ h, make_offload_key h (group_idx c)) <$> hashes !! (Z.to_nat (hash_block_size_factor c) - 1 + j * Z.to_nat (hash_block_size_factor c))%nat.
Proof. intros Hf. unfold group_keys. by rewrite list_lookup_fmap, lookup_stride by lia. Qed.
Lemma length_group_keys c hashes : 1 ≤ hash_block_size_factor c → Z.of_nat (length (group_keys c hashes)) = Z.of_nat (length hashes) / hash_block_size_factor c.
Proof.
  intros Hf. set (f := hash_block_size_factor c) in *. set (n := Z.of_nat (length hashes)).
  assert (Hs : ∀ j, is_Some (group_keys c hashes !! j) ↔ (Z.of_nat j + 1) * f ≤ n).
  { intros j. rewrite lookup_group_keys, fmap_is_Some, lookup_lt_is_Some by done. fold f. unfold n. nia. }
  set (m := length (group_keys c hashes)) in *. assert (Hm : ∀ j, (j < m)%nat ↔ (Z.of_nat j + 1) * f ≤ n) by (intros j; by rewrite <- Hs, lookup_lt_is_Some).
  pose proof (Z.div_mod n f ltac:(lia)). pose proof (Z.mod_pos_bound n f ltac:(lia)). assert (Hn0 : 0 ≤ n) by (unfold n; lia). assert (0 ≤ n / f) by (apply Z.div_pos; lia).
  assert (Hle : ¬ (Z.of_nat m + 1) * f ≤ n) by (rewrite <- Hm; lia).
  destruct (decide (m = O)) as [E|E]; [rewrite E in *; nia|]. assert (Hge : (Z.of_nat (m - 1) + 1) * f ≤ n) by (apply Hm; lia). nia.
Qed.
Lemma update_group_keys_ok c (g : RequestGroupState Key) hashes h0 : 1 ≤ hash_block_size_factor c → offload_keys g = group_keys c h0 → h0 `prefix_of` hashes →
  update_group_keys hashes (c, g) = Ok (set_keys (group_keys c hashes) g).
Proof.
  intros Hf Hg [h1 ->]. unfold update_group_keys. destruct (Z.ltb_spec (hash_block_size_factor c) 1); [lia|]. do 2 f_equal. apply list_eq. intros j.
  rewrite lookup_app, list_lookup_fmap, !lookup_stride, lookup_group_keys by lia. set (f := hash_block_size_factor c) in *.
  destruct (offload_keys g !! j) as [k|] eqn:Ej.
  - rewrite Hg, lookup_group_keys in Ej by done. fold f in Ej. destruct (h0 !! _) as [h|] eqn:Eh in Ej; [|done]. by rewrite (lookup_app_l_Some _ _ _ _ Eh).
  - apply lookup_ge_None in Ej. f_equal. f_equal. set (n := length (offload_keys g)) in *. assert (f = Z.of_nat (Z.to_nat f)) as Hnf by lia. set (m := Z.to_nat f) in *.
    assert (Z.to_nat (f * Z.of_nat n + f - 1) = m * n + m - 1)%nat as -> by nia. nia.
Qed.
(** All groups of a request have the keys of these hashes. *)
Definition keys_of (C : Connector) (hashes : list Hash) (r : RequestOffloadState Key) : Prop :=
  Forall2 (λ c g, offload_keys g = group_keys c hashes) (kv_group_configs (config C)) (group_states r).
Definition with_keys (C : Connector) (hashes : list Hash) (r : RequestOffloadState Key) : RequestOffloadState Key :=
  set_groups (zip_with (λ c g, set_keys (group_keys c hashes) g) (kv_group_configs (config C)) (group_states r)) r.
Lemma with_keys_of C hashes r : length (group_states r) = length (kv_group_configs (config C)) → keys_of C hashes (with_keys C hashes r).
Proof.
  unfold keys_of, with_keys. cbn. generalize (group_states r). induction (kv_group_configs (config C)) as [|c l IH]; intros [|g gs] Hl; try discriminate Hl; cbn; constructor; [done|].
  apply IH. by injection Hl.
Qed.
Lemma update_offload_keys_ok C (req : Request Hash) r h0 : (∀ c, c ∈ kv_group_configs (config C) → 1 ≤ hash_block_size_factor c) →
  keys_of C h0 r → h0 `prefix_of` rq_block_hashes req → update_offload_keys C req r = Ok (with_keys C (rq_block_hashes req) r).
Proof.
  intros Hf Hk Hp. unfold update_offload_keys, with_keys. rewrite (map_res_ok _ (λ x : GroupOffloadConfig * RequestGroupState Key, set_keys (group_keys x.1 (rq_block_hashes req)) x.2)).
  - cbn. f_equal. f_equal. rewrite (zip_with_zip (λ c g, set_keys (group_keys c (rq_block_hashes req)) g)). apply list_fmap_ext. by intros i [c g] _.
  - intros [c g] (i&Hi)%list_elem_of_lookup. apply lookup_zip_with_Some in Hi as (c'&g'&[= <- <-]&Hc&Hg). cbn.
    apply (update_group_keys_ok c g _ h0); [|by eapply (Forall2_lookup_lr _ _ _ _ _ _ Hk)|done]. apply Hf. by eapply list_elem_of_lookup_2.
Qed.
End keys.

(** * The lookup, as the engine calls it *)

Section matched.
Context {K : KvLib} {KL : KvLaws K} {Hash Key Mg Spec : Type} `{Countable Key} {MG : OffloadingManager Key Mg Spec} {L : OffLib Hash Key} {LL : OffLaws L}.
Abbreviation St := (Sched Hash Key Mg Spec).
Context (steady : Mg → Prop) (answer : Key → option bool).
Context (lookup_steady : ∀ k ctx m, steady m → ∃ m', mgr_lookup k ctx m = (Ok (answer k), m') ∧ steady m').
Context (touch_steady : ∀ ks ctx m, steady m → ∃ m', mgr_touch ks ctx m = (Ok tt, m') ∧ steady m').
Context (C : Connector).
Abbreviation asked := (asked steady).

Lemma touch_returns (r : RequestOffloadState Key) (s : St) : steady (manager s) → ∃ s', _touch C r s = (Ok tt, s') ∧ asked s s'.
Proof using touch_steady.
  intros Hs. unfold _touch. generalize (zip (kv_group_configs (config C)) (group_states r)) as l. intros l. revert s Hs.
  induction l as [|[c g] l IH]; intros s Hs; cbn [for_each]; [exists s; split; [done|by apply asked_refl]|].
  assert (Hone : ∃ s', touch_group (rs_ctx r) (c, g) s = (Ok tt, s') ∧ asked s s').
  { unfold touch_group, on_manager. destruct (sliding_window_size_in_blocks c) as [w|]; [set (ks := drop _ _)|set (ks := offload_keys g)];
      destruct (touch_steady ks (rs_ctx r) (manager s) Hs) as (m&->&Hm); eexists; (split; [done|]); split; done. }
  destruct Hone as (s1&E1&Ha). destruct (IH s1 (proj1 Ha)) as (s2&E2&Hb). exists s2. rewrite (M_bind_run _ _ _ _ _ E1). split; [done|]. by eapply asked_trans.
Qed.
Lemma run_status rid (r : RequestOffloadState Key) (s : St) : od_get rid (req_status s) = Some r → status_of rid s = (Ok r, s).
Proof. intros E. unfold status_of. rewrite run_get. unfold lift. by rewrite E. Qed.

(** The first block of a group that a load up to token [b] brings, when
    [computed] tokens are on the GPU. *)
Definition first_block (c : GroupOffloadConfig) (computed b : Z) : Z :=
  Z.max (computed / offloaded_block_size c) (match sliding_window_size_in_blocks c with None => 0 | Some w => cdiv b (offloaded_block_size c) - w end).
(** Every block that a load of [n] tokens brings is offloaded, and no other
    request is loading it. *)
Definition loadable (hashes : list Hash) (loading : option (gset Key)) (computed n : Z) : Prop :=
  ∀ c, c ∈ kv_group_configs (config C) → ∀ j : nat, first_block c computed (computed + n) ≤ Z.of_nat j < cdiv (computed + n) (offloaded_block_size c) →
    ∃ k, group_keys c hashes !! j = Some k ∧ answer k = Some true ∧ ∀ l, loading = Some l → k ∉ l.
Definition matched (req : Request Hash) (loading : option (gset Key)) (computed n : Z) : Prop :=
  n = 0 ∨ 0 < n ∧ computed + n ≤ rq_num_tokens req ∧ (sliding_window_groups C ≠ [] → computed + n < rq_num_tokens req) ∧
    loadable (rq_block_hashes req) loading computed n.

Lemma loadable_of_served (r : RequestOffloadState Key) hashes (s : St) n : conn_ok C → keys_of C hashes r →
  (∀ i, (i < length (kv_group_configs (config C)))%nat → served answer C r i (num_locally_computed_tokens r + n) ∧ not_loading C r s i (num_locally_computed_tokens r + n)) →
  0 ≤ num_locally_computed_tokens r → loadable hashes (being_loaded s) (num_locally_computed_tokens r) n.
Proof.
  intros Hc Hk Hall H0 c Hin j Hj. apply list_elem_of_lookup in Hin as [i Hi]. destruct (Hall i ltac:(by eapply lookup_lt_Some)) as [Hs Hn].
  destruct (Forall2_lookup_l _ _ _ _ _ Hk Hi) as (g&Hg&Hkeys). rewrite <- Hkeys. destruct (Hs c g Hi Hg) as [Hlen Hhit].
  destruct (lookup_lt_is_Some_2 (offload_keys g) j) as [k Hkj]; [lia|]. exists k. split; [done|]. split; [by apply (Hhit j)|]. intros l Hl. by eapply (Hn c g l Hi Hg Hl j).
Qed.
Lemma keys_of_request_ok spec (r : RequestOffloadState Key) (req : Request Hash) : spec_ok spec → new_connector spec = Ok C → keys_of C (rq_block_hashes req) r →
  0 ≤ num_locally_computed_tokens r → 0 ≤ rq_num_tokens req → rq_num_tokens req / spec_hash_block_size spec ≤ Z.of_nat (length (rq_block_hashes req)) → request_ok C r req.
Proof.
  intros Hsp Hn Hk H0 Ht Hh. unfold new_connector in Hn. apply res_bind_ok in Hn as (cfg&Ec&Hn). apply res_bind_ok in Hn as (al&_&Hn). injection Hn as HC.
  assert (Hcfg : config C = cfg) by (by rewrite <- HC). split; [symmetry; by eapply Forall2_length|..|done]. intros i c g Hc Hg. rewrite (Forall2_lookup_lr _ _ _ _ _ _ Hk Hc Hg).
  rewrite Hcfg in Hc. destruct (from_spec_group _ _ _ _ Hsp Ec Hc) as (_&Hs&Hf&Hle&_). pose proof (so_hash _ Hsp) as Hhb. set (h := spec_hash_block_size spec) in *. set (size := offloaded_block_size c) in *.
  assert (1 ≤ hash_block_size_factor c) by (rewrite Hf; apply Z.div_le_lower_bound; lia). rewrite length_group_keys by done. set (f := hash_block_size_factor c) in *.
  apply Z.div_le_lower_bound; [lia|]. etransitivity; [|exact Hh]. apply Z.div_le_lower_bound; [done|].
  pose proof (Z.mul_div_le (rq_num_tokens req) size Hs). pose proof (Z.mul_div_le size h Hhb) as Hm. rewrite <- Hf in Hm. assert (0 ≤ rq_num_tokens req / size) by (by apply Z.div_pos). nia.
Qed.
Lemma keys_of_same (r r' : RequestOffloadState Key) hashes : offload_keys <$> group_states r' = offload_keys <$> group_states r → keys_of C hashes r → keys_of C hashes r'.
Proof.
  unfold keys_of. intros E Hk. apply Forall2_fmap_r with (f := offload_keys) (P := λ c ks, ks = group_keys c hashes). rewrite E. by apply Forall2_fmap_r.
Qed.
Lemma keys_update_hits n (r : RequestOffloadState Key) : length (group_states r) = length (kv_group_configs (config C)) →
  offload_keys <$> group_states (update_num_hit_blocks C n r) = offload_keys <$> group_states r.
Proof.
  unfold update_num_hit_blocks. cbn. generalize (group_states r). induction (kv_group_configs (config C)) as [|c l IH]; intros [|g gs] Hl; try discriminate Hl; [done|]. cbn. f_equal. apply IH. by injection Hl.
Qed.

(** The engine's question is always answered; the answer is 0, "ask again", or
    a number of tokens whose blocks are all offloaded and free to load. *)
Lemma lookup_matched spec (s : St) obj n (r : RequestOffloadState Key) h0 : spec_ok spec → new_connector spec = Ok C →
  od_get (rq_id (objs s obj)) (req_status s) = Some r → rs_req r = obj → keys_of C h0 r → h0 `prefix_of` rq_block_hashes (objs s obj) →
  0 ≤ n → 0 ≤ rq_num_tokens (objs s obj) → rq_num_tokens (objs s obj) / spec_hash_block_size spec ≤ Z.of_nat (length (rq_block_hashes (objs s obj))) →
  steady (manager s) →
  ∃ y s' r', get_num_new_matched_tokens C obj n s = (Ok (y, match y with Some k => negb (k =? 0) | None => false end), s') ∧ steady (manager s') ∧
    od_get (rq_id (objs s obj)) (req_status s') = Some r' ∧ keys_of C (rq_block_hashes (objs s obj)) r' ∧
    ∀ k, y = Some k → matched (objs s obj) (being_loaded s) n k.
Proof using All.
  intros Hsp Hnew Hr Hobj Hk Hp H0 Ht Hh Hs. set (req := objs s obj) in *. pose proof (new_connector_ok _ _ Hsp Hnew) as Hconn.
  unfold get_num_new_matched_tokens, put_status. rewrite run_get. cbn zeta. fold req. rewrite (M_bind_run _ _ _ _ _ (run_status _ _ _ Hr)). rewrite run_modify.
  set (r1 := clear_block_ids r). set (s1 := set_status _ s). unfold req_of. rewrite run_assoc, run_get, run_ret. change (objs s1 (rs_req r1)) with (objs s (rs_req r)). rewrite Hobj. fold req.
  assert (Hk1 : keys_of C h0 r1) by (eapply keys_of_same; [|exact Hk]; cbn; by rewrite <- list_fmap_compose).
  assert (Hfac : ∀ c, c ∈ kv_group_configs (config C) → 1 ≤ hash_block_size_factor c).
  { intros c (i&Hc)%list_elem_of_lookup. pose proof Hnew as Hn. unfold new_connector in Hn. apply res_bind_ok in Hn as (cfg&Ec&Hn). apply res_bind_ok in Hn as (al&_&Hn). injection Hn as <-.
    destruct (from_spec_group _ _ _ _ Hsp Ec Hc) as (_&Hsz&->&Hle&_). pose proof (so_hash _ Hsp). apply Z.div_le_lower_bound; lia. }
  rewrite (update_offload_keys_ok C req r1 h0 Hfac Hk1 Hp), run_lift_ok. set (r2 := set_local n (with_keys C (rq_block_hashes req) r1)). rewrite run_modify. set (s2 := set_status _ s1).
  assert (Hlen : length (group_states r1) = length (kv_group_configs (config C))) by (symmetry; by eapply Forall2_length).
  assert (Hk2 : keys_of C (rq_block_hashes req) r2) by (exact (with_keys_of C _ r1 Hlen)).
  assert (Hlook : ∃ y s3, (if rq_skip_reading_prefix_cache req then mret (Some 0) else _lookup C r2) s2 = (Ok y, s3) ∧ asked s2 s3 ∧ ∀ k, y = Some k → matched req (being_loaded s) n k).
  { destruct (rq_skip_reading_prefix_cache req); [exists (Some 0), s2; split; [done|]; split; [by apply asked_refl|]; intros k [= <-]; by left|].
    assert (Hrok : request_ok C r2 req) by (by eapply keys_of_request_ok).
    destruct (lookup_ok steady answer lookup_steady C Hconn r2 req Hrok s2) as (y&s3&E&Ha&Hy); [done|cbn; by rewrite Hobj|done|]. exists y, s3. split; [done|]. split; [done|].
    intros k Ek. destruct (Hy k Ek) as [->|(H1&H2&H3&H4)]; [by left|right]. split; [done|]. split; [done|]. split; [done|]. by apply (loadable_of_served r2 _ s2). }
  destruct Hlook as (y&s3&E3&Ha3&Hy). rewrite (M_bind_run _ _ _ _ _ E3). set (r3 := update_num_hit_blocks C _ r2). rewrite run_modify. set (s4 := set_status _ s3).
  destruct (touch_returns r3 s4) as (s5&E5&Ha5); [exact (proj1 Ha3)|]. rewrite (M_bind_run _ _ _ _ _ E5). exists y, s5, r3. split; [done|]. split; [apply Ha5|].
  destruct Ha5 as [_ ->]. split; [cbn; by apply od_get_set|]. split; [|done]. eapply keys_of_same; [|exact Hk2]. apply keys_update_hits. symmetry. by eapply Forall2_length.
Qed.
End matched.
