(* ===== verification/OffSession.v ===== *)
(** Sessions of the connector's scheduler: the calls the engine makes between
    changes of its request objects, and what they keep: every job belongs to
    the request that waits for it, the blocks of pending stores are watched,
    and what the manager was asked to prepare is what is pending. *)
From S2P Require Import Prelude PyDict KvSpec PyNum OffConfig OffScheduler OffJobs.
From stdpp Require Import base list relations gmap sets strings.
From Stdlib Require Import ZArith Lia.
#[local] Open Scope string_scope.
#[local] Open Scope list_scope.
#[local] Open Scope Z_scope.

Lemma od_fmap_set {K V W} `{EqDecision K} (f : V → W) k v v0 (d : odict K V) : od_get k d = Some v0 → f v = f v0 →
  (λ x : K * V, (x.1, f x.2)) <$> od_set k v d = (λ x : K * V, (x.1, f x.2)) <$> d.
Proof.
  intros Hg Hf. induction d as [|[k' v'] d IH]; cbn in *; [done|]. destruct (decide (k = k')) as [->|]; cbn; [by simplify_eq; rewrite Hf|by rewrite IH].
Qed.
Lemma od_get_fmap {K V W} `{EqDecision K} (f : V → W) k (d : odict K V) : od_get k ((λ x : K * V, (x.1, f x.2)) <$> d) = f <$> od_get k d.
Proof. induction d as [|[k' v'] d IH]; cbn; [done|]. by destruct (decide (k = k')). Qed.
Lemma od_set_keys {K V} `{EqDecision K} k v (d : odict K V) : k ∈ od_keys d → od_keys (od_set k v d) = od_keys d.
Proof.
  induction d as [|[k' v'] d IH]; cbn; [by intros ?%not_elem_of_nil|]. destruct (decide (k = k')) as [->|Hne]; [done|].
  intros [|Hk]%elem_of_cons; [done|]. cbn. f_equal. by apply IH.
Qed.
Lemma od_set_fmap {K V W} `{EqDecision K} (f : V → W) k v (d : odict K V) :
  (λ x : K * V, (x.1, f x.2)) <$> od_set k v d = od_set k (f v) ((λ x : K * V, (x.1, f x.2)) <$> d).
Proof. induction d as [|[k' v'] d IH]; cbn; [done|]. destruct (decide (k = k')) as [->|]; cbn; [done|]. f_equal. exact IH. Qed.
Lemma od_pop_fmap {K V W} `{EqDecision K} (f : V → W) k (d : odict K V) :
  (λ x : K * V, (x.1, f x.2)) <$> od_pop k d = od_pop k ((λ x : K * V, (x.1, f x.2)) <$> d).
Proof. induction d as [|[k' v'] d IH]; cbn; [done|]. destruct (decide (k = k')) as [->|]; cbn; [done|]. f_equal. exact IH. Qed.
Lemma od_keys_fmap {K V W} (f : V → W) (d : odict K V) : od_keys ((λ x : K * V, (x.1, f x.2)) <$> d) = od_keys d.
Proof. unfold od_keys. by rewrite <- list_fmap_compose. Qed.

Section session.
Context {K : KvLib} {Hash Key Mg Spec : Type} `{Countable Key} {MG : OffloadingManager Key Mg Spec} {L : OffLib Hash Key}.
Abbreviation LS := (logged_state (Key:=Key) (Mg:=Mg)).
#[local] Instance logged_manager : OffloadingManager Key LS Spec := logged.
Abbreviation St := (Sched Hash Key LS Spec).
Context (C : Connector).

(** What the invariant speaks of: of a request its object, the id the manager
    knows it by, and its jobs. *)
Record Entry := mkEntry { en_req : nat; en_ctx : string; en_jobs : gset Z }.
Definition entry_of (r : RequestOffloadState Key) : Entry := mkEntry (rs_req r) (ctx_req_id (rs_ctx r)) (transfer_jobs r).
Record Core := mkCore {
  co_ids : nat → string; co_finished : nat → bool; co_status : odict string Entry; co_jobs : gmap Z (TransferJobStatus Key);
  co_blocks : gmap Z (gset Z); co_counter : Z; co_stale : Z; co_log : list (Call (Key:=Key)) }.
Definition core_of (s : St) : Core :=
  mkCore (λ o, rq_id (objs s o)) (λ o, rq_is_finished (objs s o)) ((λ x : string * RequestOffloadState Key, (x.1, entry_of x.2)) <$> req_status s)
    (jobs s) (block_jobs s) (job_counter s) (stale_job_threshold s) (log s).
Lemma core_get s rid : od_get rid (co_status (core_of s)) = entry_of <$> od_get rid (req_status s).
Proof. apply od_get_fmap. Qed.

(** ** Operations that leave it alone *)

Definition keeps {A} (m : M St A) : Prop := ∀ s, wpo m (λ _ s', core_of s' = core_of s) s.
Lemma keeps_bind {A B} (m : M St A) (k : A → M St B) : keeps m → (∀ a, keeps (k a)) → keeps (m ≫= k).
Proof. intros Hm Hk s. apply wpo_bind. eapply wpo_mono; [|apply Hm]. intros a s1 H1. eapply wpo_mono; [|apply Hk]. intros b s2 H2. congruence. Qed.
Lemma keeps_ret {A} (a : A) : keeps (mret a).
Proof. intros s. by apply wpo_ret. Qed.
Lemma keeps_raise {A} e : keeps (raise e : M St A).
Proof. intros s. apply wpo_raise. Qed.
Lemma keeps_get : keeps get.
Proof. intros s. by apply wpo_get. Qed.
Lemma keeps_lift {A} (r : res A) : keeps (lift r).
Proof. intros s. by apply wpo_lift. Qed.
Lemma keeps_assert b : keeps (assert_ b).
Proof. intros s. by apply wpo_assert. Qed.
Lemma keeps_modify (f : St → St) : (∀ s, core_of (f s) = core_of s) → keeps (modify f).
Proof. intros Hf s. by apply wpo_modify. Qed.
Lemma keeps_for_each {A} (l : list A) (f : A → M St unit) : (∀ x, keeps (f x)) → keeps (for_each l f).
Proof.
  intros Hf s. apply (wpo_for_each (λ s', core_of s' = core_of s)); [|done|done]. intros x s1 _ H1. eapply wpo_mono; [|apply Hf]. intros [] s2 H2. congruence.
Qed.
Lemma core_manager m (s : St) : core_of (set_manager (m, log s) s) = core_of s.
Proof. done. Qed.
Lemma keeps_silent {A} (m : M Mg A) : keeps (on_manager (log_call m (λ _, []))).
Proof. intros s. apply wpo_call. intros a m1. by rewrite app_nil_r. Qed.
Lemma keeps_lookup k ctx : keeps (on_manager (mgr_lookup k ctx)).
Proof. apply keeps_silent. Qed.
Lemma keeps_touch ks ctx : keeps (on_manager (mgr_touch ks ctx)).
Proof. apply keeps_silent. Qed.
Lemma keeps_schedule_end : keeps (on_manager mgr_on_schedule_end).
Proof. apply keeps_silent. Qed.
Create HintDb keeps.
Hint Resolve keeps_ret keeps_raise keeps_get keeps_lift keeps_assert keeps_lookup keeps_touch keeps_schedule_end keeps_for_each : keeps.
Ltac solve_keeps :=
  repeat first
    [ progress cbn zeta
    | progress auto with keeps
    | match goal with
      | |- keeps (_ ≫= _) => apply keeps_bind; [|intros]
      | |- keeps (match ?x with _ => _ end) => destruct x
      end ].

Lemma keeps_maximal_prefix keys ctx h d : keeps (maximal_prefix keys ctx h d).
Proof. revert h d. induction keys as [|k keys IH]; intros h d; cbn [maximal_prefix]; solve_keeps. Qed.
Lemma keeps_window_scan keys w ctx n d : keeps (window_scan keys w ctx n d).
Proof. revert n d. induction keys as [|k keys IH]; intros n d; cbn [window_scan]; solve_keeps. Qed.
Hint Resolve keeps_maximal_prefix keeps_window_scan : keeps.
Lemma keeps_lookup_group r req i x : keeps (lookup_group C r req i x).
Proof. unfold lookup_group, _maximal_prefix_lookup, _sliding_window_lookup. solve_keeps. Qed.
Hint Resolve keeps_lookup_group : keeps.
Lemma keeps_lookup_pass r req gs x : keeps (lookup_pass C r req gs x).
Proof. revert x. induction gs as [|i gs IH]; intros x; cbn [lookup_pass]; solve_keeps. Qed.
Hint Resolve keeps_lookup_pass : keeps.
Lemma keeps_lookup_loop fuel r req gs x : keeps (lookup_loop C fuel r req gs x).
Proof. revert gs x. induction fuel as [|fuel IH]; intros gs x; destruct gs; cbn [lookup_loop]; solve_keeps. Qed.
Hint Resolve keeps_lookup_loop : keeps.
Lemma keeps__lookup r : keeps (_lookup C r).
Proof. unfold _lookup, req_of. solve_keeps. Qed.
Lemma keeps__touch r : keeps (_touch C r).
Proof. unfold _touch. apply keeps_for_each. intros [c g]. unfold touch_group. solve_keeps. Qed.
Hint Resolve keeps__lookup keeps__touch : keeps.

(** A request's state is put back with the same object, id and jobs. *)
Lemma wpo_status rid (Q : RequestOffloadState Key → St → Prop) s : (∀ r, od_get rid (req_status s) = Some r → Q r s) → wpo (status_of rid) Q s.
Proof. intros HQ. unfold status_of. apply wpo_bind, wpo_get, wpo_lift. intros r E. apply HQ. by destruct (od_get rid (req_status s)); simplify_eq/=. Qed.
Lemma wpo_put rid r r0 (Q : unit → St → Prop) s : od_get rid (req_status s) = Some r0 → entry_of r = entry_of r0 →
  (∀ s', core_of s' = core_of s → od_get rid (req_status s') = Some r → objs s' = objs s → Q tt s') → wpo (put_status rid r) Q s.
Proof.
  intros Hg He HQ. apply wpo_modify, HQ; [|by apply od_get_set|done]. unfold core_of. cbn. by rewrite (od_fmap_set entry_of _ _ _ _ Hg He).
Qed.

Lemma wpo_put_core rid r (Q : unit → St → Prop) s : od_get rid (co_status (core_of s)) = Some (entry_of r) →
  (∀ s', core_of s' = core_of s → Q tt s') → wpo (put_status rid r) Q s.
Proof.
  intros Hg HQ. rewrite core_get in Hg. destruct (od_get rid (req_status s)) as [r0|] eqn:E; [|done]. eapply wpo_put; [exact E|cbn in Hg; congruence|]. intros s' Hs' _ _. by apply HQ.
Qed.
Lemma wpo_status_core rid (Q : RequestOffloadState Key → St → Prop) s :
  (∀ r, od_get rid (req_status s) = Some r → od_get rid (co_status (core_of s)) = Some (entry_of r) → Q r s) → wpo (status_of rid) Q s.
Proof. intros HQ. apply wpo_status. intros r E. apply HQ; [done|]. by rewrite core_get, E. Qed.
Lemma wpo_keeps {A} (m : M St A) (Q : A → St → Prop) s : keeps m → (∀ a s', core_of s' = core_of s → Q a s') → wpo m Q s.
Proof. intros Hm HQ. eapply wpo_mono; [|apply Hm]. exact HQ. Qed.

Lemma update_offload_keys_entry req r r' : update_offload_keys C req r = Ok r' → entry_of r' = entry_of r.
Proof. unfold update_offload_keys. by intros (gs&_&[= <-])%res_bind_ok. Qed.
Lemma update_block_ids_entry (new : list (list Z)) (r r' : RequestOffloadState Key) : update_block_id_groups new r = Ok r' → entry_of r' = entry_of r.
Proof. unfold update_block_id_groups. destruct (bool_decide _); [|done]. by intros [= <-]. Qed.

Lemma keeps_get_num_new_matched_tokens obj n : keeps (get_num_new_matched_tokens C obj n).
Proof.
  intros s. unfold get_num_new_matched_tokens. apply wpo_bind, wpo_get. cbn zeta. apply wpo_bind, wpo_status_core. intros r _ Hr.
  apply wpo_bind, wpo_put_core; [done|]. intros s1 E1. apply wpo_bind. unfold req_of. apply wpo_bind, wpo_get, wpo_ret, wpo_bind, wpo_lift.
  intros r2 Er2. pose proof (update_offload_keys_entry _ _ _ Er2) as He. cbn zeta. apply wpo_bind, wpo_put_core; [rewrite E1, Hr; f_equal; exact (eq_sym He)|]. intros s2 E2.
  apply wpo_bind, wpo_keeps; [solve_keeps|]. intros hits s3 E3. cbn zeta.
  apply wpo_bind, wpo_put_core; [rewrite E3, E2, E1, Hr; f_equal; exact (eq_sym He)|]. intros s4 E4. apply wpo_keeps; [solve_keeps|]. intros _ s5 E5. congruence.
Qed.
Lemma keeps_set_group rid i g : keeps (set_group rid i g).
Proof. intros s. unfold set_group. apply wpo_bind, wpo_status_core. intros r _ Hr. by apply wpo_put_core. Qed.
Hint Resolve keeps_set_group : keeps.
Lemma keeps_alloc_groups rid r n i l acc : keeps (alloc_groups C rid r n i l acc).
Proof.
  revert i acc. induction l as [|[[c g] blocks] l IH]; intros i acc; cbn [alloc_groups]; [solve_keeps|]. apply keeps_bind; [|intros; apply IH].
  unfold alloc_group. apply keeps_bind; [by apply keeps_modify|intros _]. solve_keeps.
Qed.
Lemma keeps_store_groups rid ks n i l acc : keeps (store_groups C rid ks n i l acc).
Proof. revert i acc. induction l as [|x l IH]; intros i acc; cbn [store_groups]; solve_keeps. Qed.
Lemma keeps_update_req_state ends x : keeps (update_req_state C ends x).
Proof.
  destruct x as [[rid new] preempted]. intros s. unfold update_req_state. apply wpo_bind, wpo_status_core. intros r _ Hr.
  apply wpo_bind. unfold req_of. apply wpo_bind, wpo_get, wpo_ret, wpo_bind, wpo_lift. intros r2 Er2. pose proof (update_offload_keys_entry _ _ _ Er2) as He.
  apply wpo_bind, wpo_put_core; [by rewrite Hr, He|]. intros s1 E1. cbn zeta. set (r3 := if preempted then clear_block_ids r2 else r2).
  assert (He3 : entry_of r3 = entry_of r) by (unfold r3; by destruct preempted).
  apply wpo_bind, wpo_put_core; [by rewrite E1, Hr, He3|]. intros s2 E2. destruct new as [[|b new]|]; [by apply wpo_ret; rewrite E2| |by apply wpo_ret; rewrite E2].
  apply wpo_bind, wpo_keeps; [solve_keeps|]. intros ends' s3 E3. apply wpo_bind, wpo_lift. intros r4 Er4. pose proof (update_block_ids_entry _ _ _ Er4) as He4.
  apply wpo_bind, wpo_put_core; [by rewrite E3, E2, E1, Hr, He4, He3|]. intros s4 E4. apply wpo_bind, wpo_modify, wpo_ret. change (core_of s4 = core_of s). congruence.
Qed.
Hint Resolve keeps_alloc_groups keeps_store_groups keeps_update_req_state : keeps.
Lemma keeps_update_req_states out : keeps (_update_req_states C out).
Proof.
  unfold _update_req_states. apply keeps_bind.
  - generalize (so_req_data out) (@nil (string * list Z)). intros l. induction l as [|x l IH]; intros ends; cbn [update_req_list]; solve_keeps.
  - intros ends s. apply wpo_bind, wpo_get. destruct (_ && _); [|by apply wpo_ret]. apply wpo_modify. unfold core_of. cbn. by rewrite <- list_fmap_compose.
Qed.
Lemma keeps_flush_preempted rid : keeps (flush_preempted rid).
Proof.
  unfold flush_preempted. apply keeps_bind; [solve_keeps|intros s]. destruct (od_get _ _); [|solve_keeps]. destruct (bool_decide _); [solve_keeps|].
  apply keeps_bind; [unfold job_of; solve_keeps|intros j]. apply keeps_bind; [solve_keeps|intros _]. by apply keeps_modify.
Qed.

(** ** The invariant *)

Definition count (P : TransferJobStatus Key → bool) (m : gmap Z (TransferJobStatus Key)) : Z :=
  Z.of_nat (length (filter (λ p : Z * TransferJobStatus Key, P p.2 = true) (map_to_list m))).
Lemma count_insert P m jid j : m !! jid = None → count P (<[jid := j]> m) = count P m + (if P j then 1 else 0).
Proof.
  intros Hm. unfold count. rewrite (map_to_list_insert m jid j Hm), filter_cons. cbn [snd].
  destruct (decide (P j = true)) as [E|E]; [rewrite E; cbn; lia|]. destruct (P j); [done|lia].
Qed.
Lemma count_delete P m jid j : m !! jid = Some j → count P m = count P (delete jid m) + (if P j then 1 else 0).
Proof. intros Hm. rewrite <- (insert_delete_id m jid j Hm) at 1. apply count_insert. apply lookup_delete_eq. Qed.
Lemma count_same P m jid j j' : m !! jid = Some j → P j' = P j → count P (<[jid := j']> m) = count P m.
Proof.
  intros Hm HP. rewrite <- insert_delete_eq. rewrite count_insert by apply lookup_delete_eq. rewrite (count_delete P m jid j Hm), HP. done.
Qed.
Definition storing (X : gset Key) (j : TransferJobStatus Key) : bool := is_store j && bool_decide (jb_keys j = X).
Definition loads (X : gset Key) (j : TransferJobStatus Key) : bool := negb (is_store j) && bool_decide (jb_keys j = X).

(** A block that a pending job reads and that may be freed: of a sliding
    window group, or of a request that has finished. *)
Definition watched (c : Core) (j : TransferJobStatus Key) (bid : Z) : Prop :=
  bid ∈ default [] (sliding_window_block_ids j) ∨
  bid ∈ default [] (non_sliding_window_block_ids j) ∧ ∃ e, od_get (jb_req j) (co_status c) = Some e ∧ co_finished c (en_req e) = true.
Definition watchers (m : gmap Z (gset Z)) (bid : Z) : gset Z := default ∅ (m !! bid).
Record inv (c : Core) : Prop := {
  iv_keys : NoDup (od_keys (co_status c));
  iv_id rid e : od_get rid (co_status c) = Some e → co_ids c (en_req e) = rid ∧ en_ctx e = rid;
  iv_stale : co_stale c ≤ co_counter c;
  iv_job jid j : co_jobs c !! jid = Some j → co_stale c ≤ jid < co_counter c ∧ ∃ e, od_get (jb_req j) (co_status c) = Some e ∧ jid ∈ en_jobs e;
  iv_transfer rid e jid : od_get rid (co_status c) = Some e → jid ∈ en_jobs e →
    (∃ j, co_jobs c !! jid = Some j ∧ jb_req j = rid) ∨ jid < co_stale c;
  iv_watched jid j bid : co_jobs c !! jid = Some j → watched c j bid → jid ∈ watchers (co_blocks c) bid;
  iv_watch jid bid : jid ∈ watchers (co_blocks c) bid → ∃ j, co_jobs c !! jid = Some j ∧ watched c j bid;
  iv_nonempty bid : co_blocks c !! bid ≠ Some ∅;
  iv_done rid e : od_get rid (co_status c) = Some e → co_finished c (en_req e) = true → en_jobs e ≠ ∅;
  iv_stores X : open_stores X (co_log c) = count (storing X) (co_jobs c);
  iv_loads X : open_loads X (co_log c) = count (loads X) (co_jobs c);
  iv_requests rid : open_requests rid (co_log c) = if od_mem rid (co_status c) then 1 else 0 }.

Lemma watchers_add m jid bids jid' bid :
  jid' ∈ watchers (foldl (λ m bid, add_block_job jid bid m) m bids) bid ↔ jid' ∈ watchers m bid ∨ jid' = jid ∧ bid ∈ bids.
Proof.
  revert m. induction bids as [|b bids IH]; intros m; cbn [foldl]; [set_solver|]. rewrite IH. unfold watchers, add_block_job.
  destruct (decide (b = bid)) as [->|Hne]; [rewrite lookup_insert_eq|rewrite lookup_insert_ne by done]; cbn; set_solver.
Qed.
Lemma nonempty_add m jid bids bid : (∀ b, m !! b ≠ Some ∅) → foldl (λ m bid, add_block_job jid bid m) m bids !! bid ≠ Some ∅.
Proof.
  revert m. induction bids as [|b bids IH]; intros m Hm; cbn [foldl]; [apply Hm|]. apply IH. intros b'. unfold add_block_job.
  destruct (decide (b = b')) as [->|Hne]; [rewrite lookup_insert_eq; intros [=]; set_solver|by rewrite lookup_insert_ne].
Qed.

(** A new job of a request that has not finished. *)
Definition with_job (jid : Z) (j : TransferJobStatus Key) (e : Entry) (log : list (Call (Key:=Key))) (c : Core) : Core :=
  mkCore (co_ids c) (co_finished c) (od_set (jb_req j) (mkEntry (en_req e) (en_ctx e) ({[jid]} ∪ en_jobs e)) (co_status c)) (<[jid := j]> (co_jobs c))
    (foldl (λ m bid, add_block_job jid bid m) (co_blocks c) (default [] (sliding_window_block_ids j))) (jid + 1) (co_stale c) log.
Lemma watched_with_job c jid j0 e log j bid : od_get (jb_req j0) (co_status c) = Some e → watched (with_job jid j0 e log c) j bid ↔ watched c j bid.
Proof.
  intros He. unfold watched, with_job. cbn. destruct (decide (jb_req j = jb_req j0)) as [->|Hne].
  - rewrite od_get_set, He. split; intros [?|[? (e'&[= <-]&?)]]; auto; right; (split; [done|]); by eexists.
  - by rewrite od_get_set_ne.
Qed.
Lemma inv_add_job c j e log : inv c → od_get (jb_req j) (co_status c) = Some e → co_finished c (en_req e) = false →
  (∀ X, open_stores X log = open_stores X (co_log c) + if storing X j then 1 else 0) →
  (∀ X, open_loads X log = open_loads X (co_log c) + if loads X j then 1 else 0) →
  (∀ rid, open_requests rid log = open_requests rid (co_log c)) → inv (with_job (co_counter c) j e log c).
Proof.
  intros [I1 I2 I3 I4 I5 I6 I7 I8 I9 I10 I11 I12] He Hf Hs Hl Hq. set (jid := co_counter c).
  assert (Hnew : co_jobs c !! jid = None).
  { destruct (co_jobs c !! jid) as [j'|] eqn:E; [|done]. destruct (I4 jid j' E) as [? _]. unfold jid in *. lia. }
  assert (Hkey : od_keys (co_status (with_job jid j e log c)) = od_keys (co_status c)) by (cbn; apply od_set_keys; by eapply od_get_Some_key).
  split; cbn [co_stale co_counter co_log with_job co_jobs co_blocks co_ids co_finished].
  - by rewrite Hkey.
  - intros rid e' He'. cbn in He'. destruct (decide (rid = jb_req j)) as [->|Hne]; [rewrite od_get_set in He'; injection He' as <-; exact (I2 _ _ He)|].
    rewrite od_get_set_ne in He' by done. by apply I2.
  - unfold jid. lia.
  - intros jid' j'. cbn. destruct (decide (jid = jid')) as [<-|Hne].
    + rewrite lookup_insert_eq. intros [= <-]. split; [unfold jid; lia|]. rewrite od_get_set. eexists. split; [done|]. cbn. set_solver.
    + rewrite lookup_insert_ne by done. intros Hj. destruct (I4 jid' j' Hj) as (?&e'&He'&Hin). split; [unfold jid; lia|].
      destruct (decide (jb_req j' = jb_req j)) as [E|Hne']; [rewrite E, od_get_set|rewrite od_get_set_ne by done; by eauto].
      eexists. split; [done|]. cbn. rewrite E in He'. simplify_eq. set_solver.
  - intros rid e' jid' He' Hin. cbn in He'. destruct (decide (rid = jb_req j)) as [->|Hne].
    + rewrite od_get_set in He'. injection He' as <-. cbn in Hin. apply elem_of_union in Hin as [->%elem_of_singleton|Hin]; [left; exists j; by rewrite lookup_insert_eq|].
      destruct (I5 _ _ jid' He Hin) as [(j'&Hj'&Hr)|?]; [left|by right]. exists j'. rewrite lookup_insert_ne by congruence. done.
    + rewrite od_get_set_ne in He' by done. destruct (I5 _ _ jid' He' Hin) as [(j'&Hj'&Hr)|?]; [left|by right]. exists j'. rewrite lookup_insert_ne by congruence. done.
  - intros jid' j' bid Hj' Hw. rewrite (watched_with_job c jid j e log) in Hw by done. apply watchers_add. cbn in Hj'.
    destruct (decide (jid = jid')) as [<-|Hne]; [|rewrite lookup_insert_ne in Hj' by done; left; by eapply I6].
    rewrite lookup_insert_eq in Hj'. injection Hj' as <-. right. split; [done|]. destruct Hw as [?|[_ (e'&He'&Hf')]]; [done|]. simplify_eq. congruence.
  - intros jid' bid [Hin|[-> Hin]]%watchers_add.
    + destruct (I7 jid' bid Hin) as (j'&Hj'&Hw). exists j'. cbn. rewrite lookup_insert_ne by congruence. split; [done|]. by apply watched_with_job.
    + exists j. cbn. rewrite lookup_insert_eq. split; [done|]. by left.
  - intros bid. by apply nonempty_add.
  - intros rid e' He' Hfin. cbn in He'. destruct (decide (rid = jb_req j)) as [->|Hne]; [rewrite od_get_set in He'; injection He' as <-; cbn; set_solver|].
    rewrite od_get_set_ne in He' by done. by eapply I9.
  - intros X. cbn. rewrite count_insert, Hs, I10 by done. done.
  - intros X. cbn. rewrite count_insert, Hl, I11 by done. done.
  - intros rid. rewrite Hq, I12. enough (od_mem rid (co_status (with_job jid j e log c)) = od_mem rid (co_status c)) as -> by done.
    apply eq_true_iff_eq. by rewrite !od_mem_spec, Hkey.
Qed.

(** A job that is done: its request goes on, or was finished and goes. *)
Definition without_job (jid : Z) (j : TransferJobStatus Key) (e : Entry) (blocks : gmap Z (gset Z)) (log : list (Call (Key:=Key))) (c : Core) : Core :=
  let left := en_jobs e ∖ {[jid]} in
  mkCore (co_ids c) (co_finished c)
    (if bool_decide (left = ∅) && co_finished c (en_req e) then od_pop (jb_req j) (co_status c)
     else od_set (jb_req j) (mkEntry (en_req e) (en_ctx e) left) (co_status c))
    (delete jid (co_jobs c)) blocks (co_counter c) (co_stale c) log.
Lemma without_job_get c jid j e blocks log rid : inv c → od_get (jb_req j) (co_status c) = Some e →
  od_get rid (co_status (without_job jid j e blocks log c)) =
    if decide (rid = jb_req j) then
      if bool_decide (en_jobs e ∖ {[jid]} = ∅) && co_finished c (en_req e) then None else Some (mkEntry (en_req e) (en_ctx e) (en_jobs e ∖ {[jid]}))
    else od_get rid (co_status c).
Proof.
  intros Hi He. cbn. destruct (decide (rid = jb_req j)) as [->|Hne]; destruct (_ && _).
  - apply od_get_pop, Hi.
  - apply od_get_set.
  - by apply od_get_pop_ne.
  - by apply od_get_set_ne.
Qed.
Lemma inv_remove_job c jid j e blocks log : inv c → co_jobs c !! jid = Some j → od_get (jb_req j) (co_status c) = Some e →
  (∀ bid jid', jid' ∈ watchers blocks bid ↔ jid' ∈ watchers (co_blocks c) bid ∧ jid' ≠ jid) → (∀ bid, blocks !! bid ≠ Some ∅) →
  (∀ X, open_stores X log = open_stores X (co_log c) - if storing X j then 1 else 0) →
  (∀ X, open_loads X log = open_loads X (co_log c) - if loads X j then 1 else 0) →
  (∀ rid, open_requests rid log = open_requests rid (co_log c) -
     if bool_decide (rid = jb_req j) && (bool_decide (en_jobs e ∖ {[jid]} = ∅) && co_finished c (en_req e)) then 1 else 0) →
  inv (without_job jid j e blocks log c).
Proof.
  intros Hi Hj He Hb Hne Hs Hl Hq. pose proof Hi as [I1 I2 I3 I4 I5 I6 I7 I8 I9 I10 I11 I12].
  set (c' := without_job jid j e blocks log c). assert (Hget := without_job_get c jid j e blocks log). fold c' in Hget. specialize (Hget) as Hget.
  assert (Hg : ∀ rid, od_get rid (co_status c') = if decide (rid = jb_req j) then
      if bool_decide (en_jobs e ∖ {[jid]} = ∅) && co_finished c (en_req e) then None else Some (mkEntry (en_req e) (en_ctx e) (en_jobs e ∖ {[jid]}))
    else od_get rid (co_status c)) by (intros; by apply Hget). clear Hget.
  assert (Hstay : ∀ jid' j', jid' ≠ jid → co_jobs c !! jid' = Some j' → ∃ e', od_get (jb_req j') (co_status c) = Some e' ∧ od_get (jb_req j') (co_status c') =
    Some (mkEntry (en_req e') (en_ctx e') (if decide (jb_req j' = jb_req j) then en_jobs e' ∖ {[jid]} else en_jobs e')) ∧ jid' ∈ en_jobs e').
  { intros jid' j' Hn Hj'. destruct (I4 jid' j' Hj') as (_&e'&He'&Hin). exists e'. split; [done|]. split; [|done]. rewrite Hg.
    destruct (decide (jb_req j' = jb_req j)) as [E|]; [|by destruct e']. rewrite E in He'. simplify_eq.
    rewrite bool_decide_eq_false_2 by set_solver. done. }
  assert (Hw : ∀ jid' j' bid, jid' ≠ jid → co_jobs c !! jid' = Some j' → watched c' j' bid ↔ watched c j' bid).
  { intros jid' j' bid Hn Hj'. destruct (Hstay jid' j' Hn Hj') as (e'&He'&Hg'&_). unfold watched. cbn [co_finished c' without_job]. fold c'. rewrite Hg', He'.
    split; intros [?|[? (e2&[= <-]&?)]]; auto; right; (split; [done|]); by eexists. }
  split.
  - cbn. destruct (_ && _); [by apply od_pop_nodup|by apply od_set_nodup].
  - intros rid e' He'. rewrite Hg in He'. destruct (decide (rid = jb_req j)) as [->|]; [|by apply I2]. destruct (_ && _); [done|]. injection He' as <-. exact (I2 _ _ He).
  - done.
  - intros jid' j' Hj'. cbn in Hj'. apply lookup_delete_Some in Hj' as [Hn Hj']. split; [by apply (I4 jid' j')|].
    destruct (Hstay jid' j' ltac:(congruence) Hj') as (e'&_&Hg'&Hin). eexists. split; [done|]. cbn. case_decide; [set_solver|done].
  - intros rid e' jid' He' Hin. rewrite Hg in He'. cbn [co_jobs c' without_job]. destruct (decide (rid = jb_req j)) as [->|Hr].
    + destruct (_ && _); [done|]. injection He' as <-. cbn in Hin. apply elem_of_difference in Hin as [Hin Hn]. apply not_elem_of_singleton in Hn.
      destruct (I5 _ _ jid' He Hin) as [(j'&?&?)|?]; [left|by right]. exists j'. by rewrite lookup_delete_ne.
    + destruct (I5 _ _ jid' He' Hin) as [(j'&?&?)|?]; [left|by right]. exists j'. rewrite lookup_delete_ne by congruence. done.
  - intros jid' j' bid Hj'. cbn in Hj'. apply lookup_delete_Some in Hj' as [Hn Hj']. rewrite (Hw jid' j' bid) by done. intros Hwa. apply Hb. split; [by eapply I6|done].
  - intros jid' bid [Hin Hn]%Hb. destruct (I7 jid' bid Hin) as (j'&Hj'&Hwa). exists j'. cbn. rewrite lookup_delete_ne by done. split; [done|]. by apply (Hw jid' j' bid).
  - exact Hne.
  - intros rid e' He' Hfin. rewrite Hg in He'. destruct (decide (rid = jb_req j)) as [->|]; [|by eapply I9]. destruct (bool_decide_reflect (en_jobs e ∖ {[jid]} = ∅)) as [E|E].
    + cbn in He'. destruct (co_finished c (en_req e)) eqn:Ef; [done|]. injection He' as <-. cbn in Hfin. congruence.
    + cbn in He'. by injection He' as <-.
  - intros X. cbn [co_log co_jobs c' without_job]. rewrite Hs, I10, (count_delete _ _ jid j Hj). lia.
  - intros X. cbn [co_log co_jobs c' without_job]. rewrite Hl, I11, (count_delete _ _ jid j Hj). lia.
  - intros rid. cbn [co_log c' without_job]. rewrite Hq, I12. unfold od_mem. rewrite Hg. destruct (decide (rid = jb_req j)) as [->|Hr].
    + rewrite He. rewrite (bool_decide_eq_true_2 (jb_req j = jb_req j)) by done. rewrite (bool_decide_eq_true_2 (is_Some (Some e))) by done. cbn [andb].
      destruct (_ && _); done.
    + rewrite (bool_decide_eq_false_2 (rid = jb_req j)) by done. cbn. lia.
Qed.

(** ** What the operations do to it *)

Abbreviation wpi m s := (wpo m (λ _ s', inv (core_of s')) s).
(** A request that is tracked, and one that is not finished. *)
Definition tracks (c : Core) (rid : string) (e : Entry) : Prop := od_get rid (co_status c) = Some e.
Definition unfinished (c : Core) (rid : string) : Prop := ∀ e, tracks c rid e → co_finished c (en_req e) = false.
Lemma core_set_manager m1 l s : core_of (set_manager (m1, log s ++ l) s) =
  mkCore (co_ids (core_of s)) (co_finished (core_of s)) (co_status (core_of s)) (co_jobs (core_of s)) (co_blocks (core_of s)) (co_counter (core_of s))
    (co_stale (core_of s)) (co_log (core_of s) ++ l).
Proof. done. Qed.

Definition core_status (st : odict string Entry) (c : Core) : Core :=
  mkCore (co_ids c) (co_finished c) st (co_jobs c) (co_blocks c) (co_counter c) (co_stale c) (co_log c).
Definition core_log (l : list (Call (Key:=Key))) (c : Core) : Core :=
  mkCore (co_ids c) (co_finished c) (co_status c) (co_jobs c) (co_blocks c) (co_counter c) (co_stale c) (co_log c ++ l).
Lemma core_put rid r s : core_of (set_status (od_set rid r (req_status s)) s) = core_status (od_set rid (entry_of r) (co_status (core_of s))) (core_of s).
Proof. unfold core_of, core_status. cbn. by rewrite od_set_fmap. Qed.
Lemma core_del rid s : core_of (set_status (od_pop rid (req_status s)) s) = core_status (od_pop rid (co_status (core_of s))) (core_of s).
Proof. unfold core_of, core_status. cbn. by rewrite od_pop_fmap. Qed.

Lemma inv_add_request c rid obj : inv c → od_get rid (co_status c) = None → co_ids c obj = rid → co_finished c obj = false →
  inv (core_status (od_set rid (mkEntry obj rid ∅) (co_status c)) (core_log [CallNew rid] c)).
Proof.
  intros [I1 I2 I3 I4 I5 I6 I7 I8 I9 I10 I11 I12] Hnew Hid Hf.
  assert (Hget : ∀ r, od_get r (od_set rid (mkEntry obj rid ∅) (co_status c)) = if decide (r = rid) then Some (mkEntry obj rid ∅) else od_get r (co_status c)).
  { intros r. destruct (decide (r = rid)) as [->|]; [apply od_get_set|by apply od_get_set_ne]. }
  assert (Hw : ∀ jid j bid, co_jobs c !! jid = Some j →
    watched (core_status (od_set rid (mkEntry obj rid ∅) (co_status c)) (core_log [CallNew rid] c)) j bid ↔ watched c j bid).
  { intros jid j bid Hj. unfold watched. cbn. rewrite Hget. destruct (I4 jid j Hj) as (_&e&He&_). destruct (decide (jb_req j = rid)) as [E|]; [congruence|done]. }
  split; cbn [co_status co_jobs co_blocks co_counter co_stale co_log co_ids co_finished core_status core_log].
  - by apply od_set_nodup.
  - intros r e. rewrite Hget. destruct (decide (r = rid)) as [->|]; [intros [= <-]; done|apply I2].
  - done.
  - intros jid j Hj. destruct (I4 jid j Hj) as (?&e&He&?). split; [done|]. exists e. rewrite Hget. destruct (decide (jb_req j = rid)); [congruence|done].
  - intros r e jid. rewrite Hget. destruct (decide (r = rid)) as [->|]; [intros [= <-]; set_solver|apply I5].
  - intros jid j bid Hj. rewrite (Hw jid j bid Hj). by apply I6.
  - intros jid bid Hin. destruct (I7 jid bid Hin) as (j&Hj&Hwa). exists j. split; [done|]. by apply (Hw jid).
  - done.
  - intros r e. rewrite Hget. destruct (decide (r = rid)) as [->|]; [intros [= <-] Hfin; cbn in Hfin; congruence|apply I9].
  - intros X. rewrite open_stores_snoc. apply I10.
  - intros X. rewrite open_loads_snoc. apply I11.
  - intros r. rewrite open_requests_snoc, I12. unfold od_mem. rewrite Hget. cbn.
    destruct (decide (r = rid)) as [->|Hne]; [rewrite Hnew, bool_decide_eq_true_2 by done; done|]. by rewrite bool_decide_eq_false_2 by done.
Qed.
Lemma inv_on_new_request obj s : inv (core_of s) → od_get (rq_id (objs s obj)) (req_status s) = None → rq_is_finished (objs s obj) = false →
  wpi (on_new_request C obj) s.
Proof.
  intros Hi Hnew Hf. unfold on_new_request. apply wpo_bind, wpo_get. cbn zeta. apply wpo_bind, wpo_call. intros policy m1. apply wpo_modify.
  rewrite core_put. apply (inv_add_request (core_of s) (rq_id (objs s obj)) obj); [done|by rewrite core_get, Hnew|done|done].
Qed.

(** A new job in the fields that hold it: [c] is the state when it was
    prepared, [l] what the manager was told. *)
Lemma core_new_job (c : Core) l (j : TransferJobStatus Key) (r : RequestOffloadState Key) (s s' : St) :
  core_of s = mkCore (co_ids c) (co_finished c) (co_status c) (co_jobs c) (co_blocks c) (co_counter c + 1) (co_stale c) (co_log c ++ l) →
  objs s' = objs s → req_status s' = od_set (jb_req j) (set_transfers ({[co_counter c]} ∪ transfer_jobs r) r) (req_status s) → jobs s' = <[co_counter c := j]> (jobs s) →
  block_jobs s' = foldl (λ m bid, add_block_job (co_counter c) bid m) (block_jobs s) (default [] (sliding_window_block_ids j)) → job_counter s' = job_counter s →
  stale_job_threshold s' = stale_job_threshold s → log s' = log s → core_of s' = with_job (co_counter c) j (entry_of r) (co_log c ++ l) c.
Proof.
  intros E H1 H2 H3 H4 H5 H6 H7. unfold core_of in E |- *. rewrite H1, H2, H3, H4, H5, H6, H7, od_set_fmap. injection E as E1 E2 -> -> -> -> -> ->.
  rewrite E1, E2. done.
Qed.
Lemma core_counter n (s : St) : core_of (set_counter n s) =
  mkCore (co_ids (core_of s)) (co_finished (core_of s)) (co_status (core_of s)) (co_jobs (core_of s)) (co_blocks (core_of s)) n (co_stale (core_of s)) (co_log (core_of s)).
Proof. done. Qed.
Lemma count_one (b : bool) (n : Z) : (if b then n + 1 else n) = n + if b then 1 else 0.
Proof. destruct b; lia. Qed.

Lemma wpo_generate (Q : Z → St → Prop) s : Q (job_counter s) (set_counter (job_counter s + 1) s) → wpo _generate_job_id Q s.
Proof. intros HQ. unfold _generate_job_id. by apply wpo_bind, wpo_get, wpo_bind, wpo_modify, wpo_ret. Qed.
Lemma inv_update_state_after_alloc obj blocks n s : inv (core_of s) → unfinished (core_of s) (rq_id (objs s obj)) → wpi (update_state_after_alloc C obj blocks n) s.
Proof.
  intros Hi Hun. unfold update_state_after_alloc. destruct (n =? 0); [by apply wpo_ret|]. apply wpo_bind, wpo_get. cbn zeta. set (rid := rq_id (objs s obj)) in *.
  apply wpo_bind, wpo_status_core. intros r0 _ _. apply wpo_bind, wpo_keeps; [solve_keeps|]. intros acc s1 E1.
  apply wpo_bind, wpo_call. intros src m1. set (l := [CallPrepareLoad (ld_keys acc)]). set (s2 := set_manager (m1, log s1 ++ l) s1).
  assert (E2 : core_of s2 = core_log l (core_of s)) by (rewrite <- E1; done).
  apply wpo_bind, wpo_generate. apply wpo_bind, wpo_modify, wpo_bind, wpo_status_core. intros r _ Hr.
  apply wpo_bind, wpo_assert. intros He%bool_decide_eq_true. apply wpo_bind, wpo_modify, wpo_bind, wpo_modify, wpo_modify.
  set (s3 := set_counter (job_counter s2 + 1) s2) in *. set (j := mkJob rid (num_workers (config C)) (list_to_set (ld_keys acc)) false None None).
  assert (Hc : job_counter s2 = co_counter (core_of s)) by (change (job_counter s2) with (co_counter (core_of s2)); by rewrite E2).
  assert (Hr' : tracks (core_of s) rid (entry_of r)).
  { unfold tracks. change (od_get rid (co_status (core_of s2)) = Some (entry_of r)) in Hr. by rewrite E2 in Hr. }
  erewrite (core_new_job (core_of s) l j r s3); try done; [|unfold s3; by rewrite core_counter, E2, Hc|by rewrite <- Hc|by rewrite <- Hc].
  apply (inv_add_job (core_of s) j (entry_of r) (co_log (core_of s) ++ l)); [done|done|by apply Hun|..]; unfold l; intros x;
    rewrite ?open_stores_snoc, ?open_loads_snoc, ?open_requests_snoc; cbn [store_step load_step request_step]; unfold storing, loads; cbn [is_store jb_keys j negb andb].
  - lia.
  - apply (count_one (bool_decide _)).
  - done.
Qed.

(** The same requests with the same objects; jobs come and go. *)
Record same_requests (c c' : Core) : Prop := {
  sm_ids : co_ids c' = co_ids c;
  sm_finished : co_finished c' = co_finished c;
  sm_objects rid : en_req <$> od_get rid (co_status c') = en_req <$> od_get rid (co_status c) }.
Lemma same_requests_refl c : same_requests c c.
Proof. done. Qed.
Lemma same_requests_trans c1 c2 c3 : same_requests c1 c2 → same_requests c2 c3 → same_requests c1 c3.
Proof. intros [E1 E2 E3] [F1 F2 F3]. split; [congruence|congruence|]. intros rid. by rewrite F3. Qed.
Lemma same_unfinished c c' rid : same_requests c c' → unfinished c rid → unfinished c' rid.
Proof.
  intros [_ Hf Ho] Hu e He. specialize (Ho rid). unfold tracks in He. rewrite He in Ho. destruct (od_get rid (co_status c)) as [e0|] eqn:E0; [|done].
  injection Ho as Ho. rewrite Hf, Ho. by apply Hu.
Qed.
Lemma same_with_job c jid j e l : tracks c (jb_req j) e → same_requests c (with_job jid j e l c).
Proof.
  intros He. split; [done|done|]. intros rid. cbn. destruct (decide (rid = jb_req j)) as [->|Hne]; [|by rewrite od_get_set_ne]. rewrite od_get_set. unfold tracks in He. by rewrite He.
Qed.

Lemma inv_log c l : inv c → (∀ X, open_stores X (co_log c ++ l) = open_stores X (co_log c)) → (∀ X, open_loads X (co_log c ++ l) = open_loads X (co_log c)) →
  (∀ rid, open_requests rid (co_log c ++ l) = open_requests rid (co_log c)) → inv (core_log l c).
Proof.
  intros [I1 I2 I3 I4 I5 I6 I7 I8 I9 I10 I11 I12] Hs Hl Hq. split; try done; cbn [core_log co_log co_jobs co_status].
  - intros X. by rewrite Hs.
  - intros X. by rewrite Hl.
  - intros rid. by rewrite Hq.
Qed.
Abbreviation wps m s := (wpo m (λ _ s', inv (core_of s') ∧ same_requests (core_of s) (core_of s')) s).

Lemma inv_build_store_job rid r0 n k ks new dst out s s1 : inv (core_of s) → unfinished (core_of s) rid →
  core_of s1 = core_log [CallPrepareStore new (Some (k :: ks))] (core_of s) →
  wpo (build_store_job C rid r0 n (k :: ks) dst out) (λ _ s', inv (core_of s') ∧ same_requests (core_of s) (core_of s')) s1.
Proof.
  intros Hi Hun E1. set (l := [CallPrepareStore new (Some (k :: ks))]) in *. unfold build_store_job.
  apply wpo_bind, wpo_keeps; [solve_keeps|]. intros _ s2 E2. apply wpo_bind, wpo_keeps; [solve_keeps|]. intros acc s3 E3.
  assert (E : core_of s3 = core_log l (core_of s)) by congruence. clear E1 E2 E3.
  apply wpo_bind, wpo_generate. apply wpo_bind, wpo_status_core. intros r _ Hr.
  apply wpo_bind, wpo_keeps; [destruct (bool_decide _); [solve_keeps|unfold job_of; solve_keeps]|]. intros _ s4 E4.
  rewrite core_counter, E in E4. assert (Hc : job_counter s3 = co_counter (core_of s)) by (change (job_counter s3) with (co_counter (core_of s3)); by rewrite E).
  apply wpo_bind, wpo_modify, wpo_bind, wpo_modify, wpo_bind, wpo_modify, wpo_ret. rewrite Hc in E4 |- *.
  set (j := mkJob rid (num_workers (config C)) (list_to_set (k :: ks)) true (Some (sr_full acc)) (match sr_window acc with [] => None | l => Some l end)).
  assert (Ht : tracks (core_of s) rid (entry_of r)).
  { unfold tracks. change (od_get rid (co_status (core_of s3)) = Some (entry_of r)) in Hr. by rewrite E in Hr. }
  erewrite (core_new_job (core_of s) l j r s4); try done; [|cbn; by destruct (sr_window acc)].
  split; [|by apply same_with_job].
  apply inv_add_job; [done|exact Ht|by apply Hun|..]; unfold l; intros x;
    rewrite ?open_stores_snoc, ?open_loads_snoc, ?open_requests_snoc; cbn [store_step load_step request_step]; unfold storing, loads; cbn [is_store jb_keys j negb andb].
  - apply count_one.
  - lia.
  - done.
Qed.

Lemma inv_build_store_one x out s : inv (core_of s) → unfinished (core_of s) x.1 → wps (build_store_one C x out) s.
Proof.
  intros Hi Hun. destruct x as [rid scheduled]. cbn [fst] in Hun. unfold build_store_one. apply wpo_bind, wpo_get.
  destruct (od_get rid (req_status s)) as [r|] eqn:Er; [|by apply wpo_ret].
  assert (Hr : od_get rid (co_status (core_of s)) = Some (entry_of r)) by (rewrite core_get, Er; done).
  apply wpo_bind. unfold req_of. apply wpo_bind, wpo_get, wpo_ret. cbn zeta. set (n := num_offloadable_tokens C (objs s (rs_req r)) r scheduled).
  apply wpo_bind, wpo_lift. intros new _.
  assert (Hadv : ∀ s1, inv (core_of s1) ∧ same_requests (core_of s) (core_of s1) → od_get rid (co_status (core_of s1)) = Some (entry_of r) →
    wpo (put_status rid (advance_stored_idx C n r);; mret out) (λ _ s', inv (core_of s') ∧ same_requests (core_of s) (core_of s')) s1).
  { intros s1 H1 H2. apply wpo_bind, wpo_put_core; [exact H2|]. intros s2 E2. apply wpo_ret. by rewrite E2. }
  destruct (concat new) as [|k0 ks0] eqn:En; [by apply Hadv|]. rewrite <- En. clear En.
  apply wpo_bind, wpo_call. intros res m1. match goal with |- context [set_manager ?m s] => set (s1 := set_manager m s) end.
  assert (E1 : core_of s1 = core_log [CallPrepareStore (concat new) (fst <$> res)] (core_of s)) by done.
  assert (Hneutral : match fst <$> res with Some (_ :: _) => False | _ => True end → inv (core_of s1) ∧ same_requests (core_of s) (core_of s1)).
  { intros Hn. rewrite E1. split; [|done]. apply inv_log; [done|..]; intros x; rewrite ?open_stores_snoc, ?open_loads_snoc, ?open_requests_snoc; cbn; try done.
    by destruct (fst <$> res) as [[|]|]. }
  destruct res as [[[|k ks] dst]|]; cbn [fst fmap option_fmap option_map] in *.
  - apply Hadv; [by apply Hneutral|exact Hr].
  - eapply inv_build_store_job; [done|done|exact E1].
  - apply wpo_ret. by apply Hneutral.
Qed.
Lemma inv_build_store_list l out s : inv (core_of s) → (∀ x, x ∈ l → unfinished (core_of s) x.1) → wps (build_store_list C l out) s.
Proof.
  revert out s. induction l as [|x l IH]; intros out s Hi Hun; cbn [build_store_list]; [by apply wpo_ret|].
  apply wpo_bind. eapply wpo_mono; [|apply inv_build_store_one; [done|apply Hun; by left]]. intros out1 s1 [Hi1 Hs1].
  eapply wpo_mono; [|apply IH; [done|]]. { intros ? s2 [Hi2 Hs2]. split; [done|by eapply same_requests_trans]. }
  intros y Hy. eapply same_unfinished; [exact Hs1|]. apply Hun. by right.
Qed.

(** The pending jobs that read a block of this step's allocations, and whose
    blocks are not kept by a running request, are among those to flush. *)
Definition flush_covers (c : Core) (alloc : gset Z) (flush : gset Z) : Prop :=
  ∀ jid j bid, co_jobs c !! jid = Some j → watched c j bid → bid ∈ alloc → jid ∈ flush.
Lemma elem_of_reallocated (s : St) jid bid : bid ∈ allocated s → jid ∈ watchers (block_jobs s) bid → jid ∈ reallocated_jobs s.
Proof.
  intros Hb Hj. unfold reallocated_jobs. apply elem_of_union_list. eexists. split; [|exact Hj]. apply list_elem_of_fmap. exists bid. split; [done|]. by apply elem_of_elements.
Qed.

(** Building store jobs leaves the flush set alone. *)
Definition same_flush {A} (m : M St A) : Prop := ∀ s, wpo m (λ _ s', jobs_to_flush s' = jobs_to_flush s) s.
Lemma flush_bind {A B} (m : M St A) (k : A → M St B) : same_flush m → (∀ a, same_flush (k a)) → same_flush (m ≫= k).
Proof. intros Hm Hk s. apply wpo_bind. eapply wpo_mono; [|apply Hm]. intros a s1 H1. eapply wpo_mono; [|apply Hk]. intros b s2 H2. congruence. Qed.
Lemma flush_ret {A} (a : A) : same_flush (mret a).
Proof. intros s. by apply wpo_ret. Qed.
Lemma flush_get : same_flush get.
Proof. intros s. by apply wpo_get. Qed.
Lemma flush_lift {A} (r : res A) : same_flush (lift r).
Proof. intros s. by apply wpo_lift. Qed.
Lemma flush_assert b : same_flush (assert_ b).
Proof. intros s. by apply wpo_assert. Qed.
Lemma flush_manager {A} (m : M LS A) : same_flush (on_manager m).
Proof. intros s a s' E. unfold on_manager in E. destruct (m (manager s)). by injection E as _ <-. Qed.
Lemma flush_modify (f : St → St) : (∀ s, jobs_to_flush (f s) = jobs_to_flush s) → same_flush (modify f).
Proof. intros Hf s. by apply wpo_modify. Qed.
Lemma flush_for_each {A} (l : list A) (f : A → M St unit) : (∀ x, same_flush (f x)) → same_flush (for_each l f).
Proof. intros Hf. induction l as [|x l IH]; cbn [for_each]; [apply flush_ret|by apply flush_bind]. Qed.
Create HintDb flush.
Hint Resolve flush_ret flush_get flush_lift flush_assert flush_manager flush_for_each : flush.
Hint Extern 1 (same_flush (modify _)) => apply flush_modify; reflexivity : flush.
Ltac solve_flush :=
  repeat first
    [ progress cbn zeta
    | progress auto with flush
    | match goal with
      | |- same_flush (_ ≫= _) => apply flush_bind; [|intros]
      | |- same_flush (for_each _ _) => apply flush_for_each; intros
      | |- same_flush (match ?x with _ => _ end) => destruct x
      end ].
Lemma flush_build_store_list l out : same_flush (build_store_list C l out).
Proof.
  assert (Hgroups : ∀ rid ks n i gs acc, same_flush (store_groups C rid ks n i gs acc)).
  { intros rid ks n i gs. revert i. induction gs as [|x gs IH]; intros i acc; cbn [store_groups]; unfold set_group, status_of, put_status; solve_flush. }
  assert (Htouch : ∀ r, same_flush (_touch C r)) by (intros r; apply flush_for_each; intros [c g]; unfold touch_group; solve_flush).
  revert out. induction l as [|[rid k] l IH]; intros out; cbn [build_store_list]; [solve_flush|].
  apply flush_bind; [|intros; apply IH]. unfold build_store_one, build_store_job, _generate_job_id, put_job, job_of, put_status, status_of, req_of. solve_flush.
Qed.
Lemma update_allocates out (s : St) : wpo (_update_req_states C out) (λ _ (s' : St),
  allocated s ∪ list_to_set (filter (λ b, b ≠ 0) (concat (concat (omap (λ x : string * option (list (list Z)) * bool, x.1.2) (so_req_data out))))) ⊆ allocated s' ∧ jobs_to_flush s' = jobs_to_flush s) s.
Proof.
  unfold _update_req_states. apply wpo_bind.
  assert (Hput : ∀ rid r (s0 : St) (Q : unit → St → Prop), (∀ s1 : St, allocated s1 = allocated s0 → jobs_to_flush s1 = jobs_to_flush s0 → Q tt s1) → wpo (put_status rid r) Q s0).
  { intros rid r s0 Q HQ. apply wpo_modify. by apply HQ. }
  assert (Hlist : ∀ l ends (s0 : St), wpo (update_req_list C ends l) (λ _ (s' : St),
    allocated s0 ∪ list_to_set (filter (λ b, b ≠ 0) (concat (concat (omap (λ x : string * option (list (list Z)) * bool, x.1.2) l)))) ⊆ allocated s' ∧ jobs_to_flush s' = jobs_to_flush s0) s0).
  { induction l as [|[[rid new] pre] l IH]; intros ends s0; cbn [update_req_list]; [apply wpo_ret; cbn; split; [set_solver|done]|].
    apply wpo_bind. eapply (wpo_mono _ (λ _ (s1 : St), allocated s0 ∪ list_to_set (filter (λ b, b ≠ 0) (concat (default [] new))) ⊆ allocated s1 ∧ jobs_to_flush s1 = jobs_to_flush s0)).
    - intros ends1 s1 [H1 H2]. eapply wpo_mono; [|apply IH]. intros _ s2 [H3 H4]. split; [|congruence]. cbn [omap list_omap fst snd]. destruct new as [new|]; cbn [concat default id] in *.
      + rewrite concat_app, filter_app, list_to_set_app_L. set_solver.
      + set_solver.
    - unfold update_req_state, req_of. apply wpo_bind, wpo_status. intros r _. apply wpo_bind, wpo_bind, wpo_get, wpo_ret, wpo_bind, wpo_lift. intros r2 _.
      apply wpo_bind, Hput. intros s1 A1 F1. cbn zeta. apply wpo_bind, Hput. intros s2 A2 F2.
      destruct new as [[|b new]|]; [apply wpo_ret; cbn; split; [set_solver|congruence]| |apply wpo_ret; cbn; split; [set_solver|congruence]].
      apply wpo_bind. apply (wpo_mono _ (λ _ (s3 : St), s3 = s2)); [|destruct (sliding_window_groups C); [by apply wpo_ret|apply wpo_bind, wpo_lift; intros; by apply wpo_ret]].
      intros ends' s3 ->. apply wpo_bind, wpo_lift. intros r4 _. apply wpo_bind, Hput. intros s4 A4 F4. apply wpo_bind, wpo_modify, wpo_ret. cbn [allocated set_allocated jobs_to_flush default id].
      split; [|congruence]. rewrite A4, A2, A1. done. }
  eapply wpo_mono; [|apply Hlist]. intros ends s1 [H1 H2]. apply wpo_bind, wpo_get. destruct (_ && _); [apply wpo_modify|apply wpo_ret]; done.
Qed.

(** What a step that succeeds tells the workers to flush: what was already to
    be flushed, the jobs of preempted requests, and every pending job that
    reads a block which was given out since the last step. *)
Definition new_blocks (out : SchedulerOutput) : gset Z :=
  list_to_set (filter (λ b, b ≠ 0) (concat (concat (omap (λ x : string * option (list (list Z)) * bool, x.1.2) (so_req_data out))))).
Lemma flush_preempted_effect rid (s : St) : wpo (flush_preempted rid) (λ _ (s' : St), core_of s' = core_of s ∧ allocated s' = allocated s ∧
  jobs_to_flush s ⊆ jobs_to_flush s' ∧ ∀ e, tracks (core_of s) rid e → en_jobs e ⊆ jobs_to_flush s') s.
Proof.
  unfold flush_preempted. apply wpo_bind, wpo_get. unfold tracks. rewrite core_get. destruct (od_get rid (req_status s)) as [r|]; [|by apply wpo_ret].
  cbn. destruct (bool_decide_reflect (transfer_jobs r = ∅)) as [E|E].
  - apply wpo_ret. do 3 (split; [done|]). intros e [= <-]. cbn. rewrite E. set_solver.
  - unfold job_of. apply wpo_bind, wpo_bind, wpo_get, wpo_lift. intros j _. apply wpo_bind, wpo_assert. intros _. apply wpo_modify. do 2 (split; [done|]).
    cbn. split; [set_solver|]. intros e [= <-]. cbn. set_solver.
Qed.
Lemma flush_all_preempted l (s : St) : wpo (for_each l flush_preempted) (λ _ (s' : St), core_of s' = core_of s ∧ allocated s' = allocated s ∧
  jobs_to_flush s ⊆ jobs_to_flush s' ∧ ∀ rid e, rid ∈ l → tracks (core_of s) rid e → en_jobs e ⊆ jobs_to_flush s') s.
Proof.
  revert s. induction l as [|rid l IH]; intros s; cbn [for_each]; [apply wpo_ret; do 3 (split; [done|]); by intros ? ? ?%not_elem_of_nil|].
  apply wpo_bind. eapply wpo_mono; [|apply flush_preempted_effect]. intros [] s1 (C1&A1&F1&P1). eapply wpo_mono; [|apply IH]. intros [] s2 (C2&A2&F2&P2).
  split; [congruence|]. split; [congruence|]. split; [set_solver|]. intros rid' e [->|Hin]%elem_of_cons He; [specialize (P1 e He); set_solver|].
  apply (P2 rid' e Hin). by rewrite C1.
Qed.
Record step_done (out : SchedulerOutput) (s : St) (meta : ConnectorMeta Spec) (s' : St) : Prop := {
  sd_inv : inv (core_of s');
  sd_same : same_requests (core_of s) (core_of s');
  sd_before : jobs_to_flush s ⊆ cm_jobs_to_flush meta;
  sd_preempted rid e : rid ∈ so_preempted out → tracks (core_of s) rid e → en_jobs e ⊆ cm_jobs_to_flush meta;
  sd_reused : flush_covers (core_of s) (allocated s ∪ new_blocks out) (cm_jobs_to_flush meta);
  sd_clean : jobs_to_flush s' = ∅ ∧ allocated s' = ∅ ∧ batch_load_jobs s' = [] }.
Lemma build_connector_meta_done out (s : St) : inv (core_of s) → (∀ x, x ∈ so_num_scheduled_tokens out → unfinished (core_of s) x.1) →
  wpo (build_connector_meta C out) (step_done out s) s.
Proof.
  intros Hi Hun. unfold build_connector_meta. apply wpo_bind. intros [] s1 E1. pose proof (update_allocates _ _ _ _ E1) as [A1 F1].
  pose proof (keeps_update_req_states _ _ _ _ E1) as C1. clear E1.
  apply wpo_bind, wpo_call. intros [] m1. match goal with |- wpo _ _ ?s => assert (C2 : core_of s = core_of s1) by (unfold core_of; cbn; by rewrite app_nil_r); set (s2 := s) in * end.
  apply wpo_bind. eapply wpo_mono; [|apply flush_all_preempted]. intros [] s3 (C3&A3&F3&P3). apply wpo_bind, wpo_modify, wpo_bind, wpo_get. cbn zeta.
  set (s4 := set_flush _ _). assert (C4 : core_of s4 = core_of s) by (change (core_of s4) with (core_of s3); congruence).
  apply wpo_bind. intros stores s5 E5. pose proof (flush_build_store_list _ _ _ _ _ E5) as F5.
  destruct (inv_build_store_list _ _ s4 ltac:(by rewrite C4) ltac:(by rewrite C4) _ _ E5) as [Hi5 Hs5]. rewrite C4 in Hs5.
  assert (Hsub : jobs_to_flush s3 ⊆ jobs_to_flush s5) by (rewrite F5; cbn; set_solver).
  apply wpo_bind, wpo_get, wpo_bind, wpo_modify, wpo_ret. split; cbn [cm_jobs_to_flush]; [exact Hi5|exact Hs5|..].
  - change (jobs_to_flush s2) with (jobs_to_flush s1) in F3. set_solver.
  - intros rid e Hin He. specialize (P3 rid e Hin). rewrite C2, C1 in P3. specialize (P3 He). set_solver.
  - intros jid j bid Hj Hw Hb. rewrite F5. cbn. apply elem_of_union_r, (elem_of_reallocated s3 jid bid).
    + rewrite A3. by apply A1.
    + change (block_jobs s3) with (co_blocks (core_of s3)). rewrite C3, C2, C1. by eapply (iv_watched _ Hi).
  - done.
Qed.

(** ** The jobs to flush *)

(** Only the metadata of a step empties the set of jobs to flush, after it has
    copied it; a reset puts every pending job there. *)
Lemma build_flushes out (s : St) : wpo (build_connector_meta C out) (λ meta _, jobs_to_flush s ⊆ cm_jobs_to_flush meta) s.
Proof.
  unfold build_connector_meta. apply wpo_bind. eapply wpo_mono; [|apply update_allocates]. intros [] s1 [_ F1]. apply wpo_bind, wpo_call. intros [] m1.
  apply wpo_bind. eapply wpo_mono; [|apply flush_all_preempted]. intros [] s3 (_&_&F3&_). apply wpo_bind, wpo_modify, wpo_bind, wpo_get. cbn zeta.
  apply wpo_bind. eapply wpo_mono; [|apply flush_build_store_list]. intros stores s5 F5. apply wpo_bind, wpo_get, wpo_bind, wpo_modify, wpo_ret.
  cbn [cm_jobs_to_flush]. rewrite F5. cbn in *. set_solver.
Qed.
Lemma flush_raise {A} e : same_flush (raise e : M St A).
Proof. intros s. apply wpo_raise. Qed.
Lemma flush_raise_if b e : same_flush (raise_if b e).
Proof. intros s. apply wpo_raise_if. intros _. done. Qed.
Hint Resolve flush_raise flush_raise_if : flush.
Lemma flush_on_new_request obj : same_flush (on_new_request C obj).
Proof. unfold on_new_request, put_status. solve_flush. Qed.
Lemma flush_maximal_prefix keys ctx h d : same_flush (maximal_prefix keys ctx h d).
Proof. revert h d. induction keys as [|k keys IH]; intros h d; cbn [maximal_prefix]; solve_flush. Qed.
Lemma flush_window_scan keys w ctx n d : same_flush (window_scan keys w ctx n d).
Proof. revert n d. induction keys as [|k keys IH]; intros n d; cbn [window_scan]; solve_flush. Qed.
Hint Resolve flush_maximal_prefix flush_window_scan : flush.
Lemma flush_lookup_group r req i x : same_flush (lookup_group C r req i x).
Proof. unfold lookup_group, _maximal_prefix_lookup, _sliding_window_lookup. solve_flush. Qed.
Hint Resolve flush_lookup_group : flush.
Lemma flush_lookup_pass r req gs x : same_flush (lookup_pass C r req gs x).
Proof. revert x. induction gs as [|i gs IH]; intros x; cbn [lookup_pass]; solve_flush. Qed.
Hint Resolve flush_lookup_pass : flush.
Lemma flush_lookup_loop fuel r req gs x : same_flush (lookup_loop C fuel r req gs x).
Proof. revert gs x. induction fuel as [|fuel IH]; intros gs x; destruct gs; cbn [lookup_loop]; solve_flush. Qed.
Hint Resolve flush_lookup_loop : flush.
Lemma flush_touch r : same_flush (_touch C r).
Proof. unfold _touch. apply flush_for_each. intros [c g]. unfold touch_group. solve_flush. Qed.
Hint Resolve flush_touch : flush.
Lemma flush_get_num_new_matched_tokens obj n : same_flush (get_num_new_matched_tokens C obj n).
Proof. unfold get_num_new_matched_tokens, _lookup, status_of, put_status, req_of. solve_flush. Qed.
Lemma flush_alloc_groups rid r n i l acc : same_flush (alloc_groups C rid r n i l acc).
Proof.
  revert i acc. induction l as [|[[c g] blocks] l IH]; intros i acc; cbn [alloc_groups]; [solve_flush|].
  unfold alloc_group, set_group, status_of, put_status. solve_flush.
Qed.
Hint Resolve flush_alloc_groups : flush.
Lemma flush_update_state_after_alloc obj blocks n : same_flush (update_state_after_alloc C obj blocks n).
Proof. unfold update_state_after_alloc, status_of, put_status, _generate_job_id, put_job. solve_flush. Qed.
Lemma flush_update_connector_output l : same_flush (update_connector_output l).
Proof.
  unfold update_connector_output. apply flush_for_each. intros [jid n].
  unfold complete_job, finish_job, job_of, put_job, status_of, put_status, del_status, req_of, _remove_pending_job, remove_block_job. solve_flush.
Qed.
Lemma flush_request_finished obj : same_flush (request_finished obj).
Proof. unfold request_finished, del_status, job_of. solve_flush. Qed.
Lemma flush_take_events : same_flush take_events.
Proof. unfold take_events. solve_flush. Qed.
Lemma reset_flushes (s : St) : wpo reset_cache (λ _ s', dom (jobs s) ⊆ jobs_to_flush s' ∧ jobs_to_flush s = ∅) s.
Proof.
  unfold reset_cache. apply wpo_bind, wpo_get. apply wpo_bind, wpo_assert. intros _. apply wpo_bind, wpo_assert. intros Hf%bool_decide_eq_true.
  apply wpo_bind, wpo_assert. intros _. apply wpo_bind, wpo_modify. set (s1 := set_flush _ s).
  eapply (wpo_mono _ (λ _ s', jobs_to_flush s' = jobs_to_flush s1)); [intros _ s' ->; cbn; set_solver|].
  clearbody s1. revert s1. match goal with |- ∀ s1, wpo ?m _ _ => change (same_flush m) end.
  apply flush_bind; [|intros; solve_flush]. apply flush_for_each. intros [rid r]. unfold finalize_finished, req_of, del_status. solve_flush.
Qed.
End session.
