(* ===== verification/OffSteps.v ===== *)
(** What the reports of the workers, the end of a request and a reset do to
    the connector's scheduler, and the sessions of calls as a step relation:
    the invariant of [OffSession] holds in every state the engine reaches. *)
From S2P Require Import Prelude PyDict KvSpec PyNum OffConfig OffScheduler OffJobs OffSession.
From stdpp Require Import base list relations gmap sets strings.
From Stdlib Require Import ZArith Lia.
#[local] Open Scope string_scope.
#[local] Open Scope list_scope.
#[local] Open Scope Z_scope.

Section steps.
Context {K : KvLib} {Hash Key Mg Spec : Type} `{Countable Key} {MG : OffloadingManager Key Mg Spec} {L : OffLib Hash Key}.
Abbreviation LS := (logged_state (Key:=Key) (Mg:=Mg)).
#[local] Existing Instance logged_manager.
Abbreviation St := (Sched Hash Key LS Spec).
Abbreviation CoreT := (Core (Key:=Key)).
Abbreviation wpi m s := (wpo m (λ _ (s' : St), inv (core_of s')) s).
Context (C : Connector).

(** ** Blocks that are no longer watched *)

Definition core_blocks (b : gmap Z (gset Z)) (c : CoreT) : CoreT :=
  mkCore (co_ids c) (co_finished c) (co_status c) (co_jobs c) b (co_counter c) (co_stale c) (co_log c).
Definition core_jobs (m : gmap Z (TransferJobStatus Key)) (c : CoreT) : CoreT :=
  mkCore (co_ids c) (co_finished c) (co_status c) m (co_blocks c) (co_counter c) (co_stale c) (co_log c).
(** [b'] is [b] without job [jid] on the blocks [bids]. *)
Record forgets (jid : Z) (bids : list Z) (b b' : gmap Z (gset Z)) : Prop := {
  fg_watchers bid jid' : jid' ∈ watchers b' bid ↔ jid' ∈ watchers b bid ∧ (jid' ≠ jid ∨ bid ∉ bids);
  fg_nonempty : (∀ bid, b !! bid ≠ Some ∅) → ∀ bid, b' !! bid ≠ Some ∅ }.
Lemma remove_block_job_effect jid bid (s : St) :
  wpo (remove_block_job jid bid) (λ _ s', ∃ b', core_of s' = core_blocks b' (core_of s) ∧ forgets jid [bid] (block_jobs s) b') s.
Proof.
  unfold remove_block_job. apply wpo_bind, wpo_get, wpo_bind, wpo_lift. intros pending E.
  destruct (block_jobs s !! bid) as [p|] eqn:Ep; cbn in E; [|done]. injection E as ->.
  destruct (bool_decide (jid ∈ pending)); [|apply wpo_raise]. apply wpo_modify. eexists. split; [reflexivity|]. cbn. split.
  - intros bid' jid'. unfold watchers. destruct (decide (bid = bid')) as [<-|Hne].
    + rewrite Ep. cbn. case_bool_decide as Hp; [rewrite lookup_delete_eq|rewrite lookup_insert_eq]; cbn; set_solver.
    + case_bool_decide as Hp; cbn; [rewrite lookup_delete_ne by done|rewrite lookup_insert_ne by done]; set_solver.
  - intros Hn bid'. destruct (decide (bid = bid')) as [<-|Hne].
    + case_bool_decide as Hp; [by rewrite lookup_delete_eq|rewrite lookup_insert_eq; congruence].
    + case_bool_decide as Hp; [rewrite lookup_delete_ne by done|rewrite lookup_insert_ne by done]; apply Hn.
Qed.
Lemma forgets_trans jid l1 l2 b1 b2 b3 : forgets jid l1 b1 b2 → forgets jid l2 b2 b3 → forgets jid (l1 ++ l2) b1 b3.
Proof. intros [W1 N1] [W2 N2]. split; [|by auto]. intros bid jid'. rewrite W2, W1. set_solver. Qed.
Lemma forgets_nil jid b : forgets jid [] b b.
Proof. split; [set_solver|done]. Qed.
Lemma remove_pending_effect jid bids (s : St) :
  wpo (_remove_pending_job jid bids) (λ _ s', ∃ b', core_of s' = core_blocks b' (core_of s) ∧ forgets jid (default [] bids) (block_jobs s) b') s.
Proof.
  unfold _remove_pending_job. generalize (default [] bids) as l. clear bids. intros l. revert s. induction l as [|bid l IH]; intros s; cbn [for_each].
  { apply wpo_ret. exists (block_jobs s). split; [done|apply forgets_nil]. }
  apply wpo_bind. eapply wpo_mono; [|apply remove_block_job_effect]. intros [] s1 (b1&C1&W1). eapply wpo_mono; [|apply IH]. intros [] s2 (b2&C2&W2).
  exists b2. split; [by rewrite C2, C1|]. change (block_jobs s1) with (co_blocks (core_of s1)) in W2. rewrite C1 in W2. exact (forgets_trans _ [bid] l _ _ _ W1 W2).
Qed.

(** ** Reports *)

Lemma inv_put_pending c jid j n : inv c → co_jobs c !! jid = Some j → inv (core_jobs (<[jid := set_pending n j]> (co_jobs c)) c).
Proof.
  intros [I1 I2 I3 I4 I5 I6 I7 I8 I9 I10 I11 I12] Hj.
  assert (Hl : ∀ jid' j', <[jid := set_pending n j]> (co_jobs c) !! jid' = Some j' → ∃ j0, co_jobs c !! jid' = Some j0 ∧ jb_req j' = jb_req j0 ∧
    ∀ bid, watched (core_jobs (<[jid := set_pending n j]> (co_jobs c)) c) j' bid ↔ watched c j0 bid).
  { intros jid' j'. destruct (decide (jid = jid')) as [<-|Hne]; [rewrite lookup_insert_eq; intros [= <-]; by exists j|].
    rewrite lookup_insert_ne by done. intros Hj'. by exists j'. }
  assert (Hr : ∀ jid' j0, co_jobs c !! jid' = Some j0 → ∃ j', <[jid := set_pending n j]> (co_jobs c) !! jid' = Some j' ∧ jb_req j' = jb_req j0 ∧
    ∀ bid, watched (core_jobs (<[jid := set_pending n j]> (co_jobs c)) c) j' bid ↔ watched c j0 bid).
  { intros jid' j0 Hj0. destruct (decide (jid = jid')) as [<-|Hne]; [simplify_eq; exists (set_pending n j); by rewrite lookup_insert_eq|].
    exists j0. by rewrite lookup_insert_ne. }
  split; cbn [core_jobs co_jobs co_status co_blocks co_log co_counter co_stale co_ids co_finished]; try done.
  - intros jid' j' Hj'. destruct (Hl _ _ Hj') as (j0&H0&->&_). by eapply I4.
  - intros rid e jid' He Hin. destruct (I5 rid e jid' He Hin) as [(j0&H0&<-)|?]; [left|by right]. destruct (Hr _ _ H0) as (j'&?&?&_). by exists j'.
  - intros jid' j' bid Hj' Hw. destruct (Hl _ _ Hj') as (j0&H0&_&E). eapply I6; [done|]. by apply E.
  - intros jid' bid Hin. destruct (I7 jid' bid Hin) as (j0&H0&Hw). destruct (Hr _ _ H0) as (j'&?&_&E). exists j'. split; [done|]. by apply E.
  - intros X. rewrite (count_same _ _ jid j) by done. apply I10.
  - intros X. rewrite (count_same _ _ jid j) by done. apply I11.
Qed.
Lemma same_put_pending c jid j n : same_requests c (core_jobs (<[jid := set_pending n j]> (co_jobs c)) c).
Proof. done. Qed.

Lemma od_pop_put {A B} `{EqDecision A} k (v : B) (d : odict A B) : od_pop k (od_set k v d) = od_pop k d.
Proof.
  induction d as [|[k' v'] d IH]; cbn; [by rewrite decide_True|]. destruct (decide (k = k')) as [->|Hne]; cbn; [by rewrite decide_True|].
  rewrite decide_False by done. f_equal. exact IH.
Qed.
(** The blocks of a job that is done are watched by the other jobs only. *)
Lemma forgets_job (c : CoreT) jid j e b1 b2 : inv c → co_jobs c !! jid = Some j → od_get (jb_req j) (co_status c) = Some e →
  forgets jid (default [] (sliding_window_block_ids j)) (co_blocks c) b1 →
  forgets jid (if co_finished c (en_req e) then default [] (non_sliding_window_block_ids j) else []) b1 b2 →
  (∀ bid jid', jid' ∈ watchers b2 bid ↔ jid' ∈ watchers (co_blocks c) bid ∧ jid' ≠ jid) ∧ ∀ bid, b2 !! bid ≠ Some ∅.
Proof.
  intros Hi Hj He F1 F2. destruct (forgets_trans _ _ _ _ _ _ F1 F2) as [W N]. split; [|by apply N, Hi]. intros bid jid'. rewrite W. split; [|intuition].
  intros [Hin Hor]. split; [done|]. intros ->. destruct (iv_watch _ Hi jid bid Hin) as (j'&Hj'&Hw). simplify_eq. destruct Hor as [|Hn]; [done|]. apply Hn.
  apply elem_of_app. destruct Hw as [|[? (e'&He'&Hf)]]; [by left|right]. simplify_eq. by rewrite Hf.
Qed.
(** Phases of a report: the manager is told, the blocks are let go. *)
Definition told (jid : Z) (j : TransferJobStatus Key) : list (Call (Key:=Key)) := if is_store j then [CallCompleteStore (jb_keys j)] else [CallCompleteLoad (jb_keys j)].
Lemma tell_manager jid j (r : RequestOffloadState Key) (Q : unit → St → Prop) (s : St) : (∀ s', core_of s' = core_log (told jid j) (core_of s) → Q tt s') →
  wpo (if is_store j then on_manager (mgr_complete_store (jb_keys j) (rs_ctx r))
       else on_manager (mgr_complete_load (jb_keys j) (rs_ctx r));; modify (λ s, set_loading ((λ l, l ∖ jb_keys j) <$> being_loaded s) s)) Q s.
Proof.
  intros HQ. unfold told in HQ. destruct (is_store j).
  - apply wpo_call. intros [] m1. by apply HQ.
  - apply wpo_bind, wpo_call. intros [] m1. apply wpo_modify. by apply HQ.
Qed.
Lemma let_go_blocks jid j e (fin : bool) (c : CoreT) (Q : unit → St → Prop) (s : St) : inv c → co_jobs c !! jid = Some j → od_get (jb_req j) (co_status c) = Some e →
  co_finished c (en_req e) = fin → block_jobs s = co_blocks c →
  (∀ b s', (∀ bid jid', jid' ∈ watchers b bid ↔ jid' ∈ watchers (co_blocks c) bid ∧ jid' ≠ jid) → (∀ bid, b !! bid ≠ Some ∅) → core_of s' = core_blocks b (core_of s) → Q tt s') →
  wpo (if bool_decide (block_jobs s = ∅) then mret tt else
       _remove_pending_job jid (sliding_window_block_ids j);; if fin then _remove_pending_job jid (non_sliding_window_block_ids j) else mret tt) Q s.
Proof.
  intros Hi Hj He Hf Hb HQ. case_bool_decide as E.
  - apply wpo_ret, (HQ (block_jobs s)); [|by rewrite Hb; apply Hi|done]. intros bid jid'. rewrite <- Hb, E. unfold watchers. rewrite lookup_empty. set_solver.
  - apply wpo_bind. eapply wpo_mono; [|apply remove_pending_effect]. intros [] s1 (b1&C1&F1). rewrite Hb in F1.
    assert (Hb1 : block_jobs s1 = b1) by (change (block_jobs s1) with (co_blocks (core_of s1)); by rewrite C1). destruct fin eqn:Ef.
    + eapply wpo_mono; [|apply remove_pending_effect]. intros [] s2 (b2&C2&F2). rewrite Hb1 in F2.
      destruct (forgets_job c jid j e b1 b2) as [W N]; [done|done|done|done|by rewrite Hf|]. apply (HQ b2); [done|done|]. by rewrite C2, C1.
    + apply wpo_ret. destruct (forgets_job c jid j e b1 b1) as [W N]; [done|done|done|done|rewrite Hf; apply forgets_nil|]. by apply (HQ b1).
Qed.

Lemma open_told_stores jid j log X : open_stores X (log ++ told jid j) = open_stores X log - if storing X j then 1 else 0.
Proof. unfold told, storing. destruct (is_store j); rewrite open_stores_snoc; cbn [store_step andb]; [case_bool_decide; lia|lia]. Qed.
Lemma open_told_loads jid j log X : open_loads X (log ++ told jid j) = open_loads X log - if loads X j then 1 else 0.
Proof. unfold told, loads. destruct (is_store j); rewrite open_loads_snoc; cbn [load_step andb negb]; [lia|case_bool_decide; lia]. Qed.
Lemma open_told_requests jid j log rid : open_requests rid (log ++ told jid j) = open_requests rid log.
Proof. unfold told. by destruct (is_store j); rewrite open_requests_snoc. Qed.
Lemma inv_finish_job jid j (s : St) : inv (core_of s) → co_jobs (core_of s) !! jid = Some j → wpi (finish_job jid j) s.
Proof.
  intros Hi Hj. unfold finish_job. apply wpo_bind, wpo_status_core. intros r _ Hr. apply wpo_bind. unfold req_of. apply wpo_bind, wpo_get, wpo_ret.
  set (c := core_of s) in *. set (e := entry_of r) in *. change (rq_is_finished (objs s (rs_req r))) with (co_finished c (en_req e)).
  destruct (iv_id _ Hi _ _ Hr) as [_ Hctx]. apply wpo_bind, (tell_manager jid). intros s1 E1. fold c in E1. apply wpo_bind, wpo_get.
  apply wpo_bind. apply (let_go_blocks jid j e _ c); [done|done|done|done|change (block_jobs s1) with (co_blocks (core_of s1)); by rewrite E1|].
  intros b s2 Hb Hne E2. apply wpo_bind, wpo_modify.
  set (s3 := set_jobs _ s2). assert (E3 : core_of s3 = core_jobs (delete jid (co_jobs c)) (core_blocks b (core_log (told jid j) c))).
  { assert (Ej : jobs s2 = co_jobs c) by (change (jobs s2) with (co_jobs (core_of s2)); by rewrite E2, E1). rewrite <- Ej, <- E1, <- E2. done. }
  clearbody s3. apply wpo_bind, wpo_status_core. intros r2 _ Hr2. rewrite E3 in Hr2. cbn [core_jobs core_blocks core_log co_status] in Hr2. rewrite Hr in Hr2.
  assert (Er2 : e = entry_of r2) by (unfold e in *; congruence). clear Hr2. apply wpo_bind, wpo_raise_if. intros _. cbn zeta. apply wpo_bind, wpo_modify.
  set (s4 := set_status _ s3). assert (E4 : core_of s4 = core_status (od_set (jb_req j) (mkEntry (en_req e) (en_ctx e) (en_jobs e ∖ {[jid]})) (co_status c)) (core_of s3)).
  { unfold s4. rewrite core_put, E3. f_equal. f_equal. rewrite Er2. done. }
  assert (Hjobs : transfer_jobs r2 = en_jobs e) by (by rewrite Er2). cbn [set_transfers transfer_jobs]. rewrite Hjobs. clearbody s4.
  assert (Hrem := inv_remove_job c jid j e b). destruct (bool_decide (en_jobs e ∖ {[jid]} = ∅) && co_finished c (en_req e)) eqn:Eb.
  - apply wpo_bind, wpo_call. intros [] m1. apply wpo_modify. rewrite core_del, core_set_manager, E4, E3. cbn.
    assert (Hc2 : ctx_req_id (rs_ctx r2) = jb_req j) by (transitivity (en_ctx (entry_of r2)); [done|by rewrite <- Er2]). rewrite Hc2, od_pop_put.
    specialize (Hrem ((co_log c ++ told jid j) ++ [CallFinished (jb_req j)]) Hi Hj Hr Hb Hne). unfold without_job in Hrem. rewrite Eb in Hrem. apply Hrem; intros x.
    + rewrite open_stores_snoc. apply open_told_stores.
    + rewrite open_loads_snoc. apply open_told_loads.
    + rewrite open_requests_snoc. cbn [request_step]. rewrite open_told_requests, andb_true_r. repeat case_bool_decide; subst; try done; lia.
  - apply wpo_ret. rewrite E4, E3. specialize (Hrem (co_log c ++ told jid j) Hi Hj Hr Hb Hne). unfold without_job in Hrem. rewrite Eb in Hrem. apply Hrem; intros x.
    + apply open_told_stores.
    + apply open_told_loads.
    + rewrite open_told_requests, andb_false_r. lia.
Qed.
Lemma inv_complete_job x (s : St) : inv (core_of s) → wpi (complete_job x) s.
Proof.
  intros Hi. destruct x as [jid n]. unfold complete_job. apply wpo_bind, wpo_assert. intros _. apply wpo_bind, wpo_get. destruct (jid <? stale_job_threshold s); [by apply wpo_ret|].
  unfold job_of. apply wpo_bind, wpo_bind, wpo_get, wpo_lift. intros j Ej. destruct (jobs s !! jid) as [j0|] eqn:Hj; [|done]. injection Ej as ->. cbn zeta.
  apply wpo_bind, wpo_modify. set (s1 := set_jobs _ s).
  assert (E1 : core_of s1 = core_jobs (<[jid := set_pending (pending_count j - n) j]> (co_jobs (core_of s))) (core_of s)) by done.
  assert (Hi1 : inv (core_of s1)) by (rewrite E1; by apply inv_put_pending). destruct (0 <? _); [by apply wpo_ret|]. apply wpo_bind, wpo_assert. intros _.
  apply inv_finish_job; [done|]. rewrite E1. cbn. apply lookup_insert_eq.
Qed.
Lemma inv_update_connector_output l (s : St) : inv (core_of s) → wpi (update_connector_output l) s.
Proof. intros Hi. unfold update_connector_output. apply (wpo_for_each (λ s, inv (core_of s))); [|done|done]. intros x s1 _ Hi1. by apply inv_complete_job. Qed.

(** ** The engine's objects and the end of a request *)

Definition core_objects (ids : nat → string) (fin : nat → bool) (c : CoreT) : CoreT :=
  mkCore ids fin (co_status c) (co_jobs c) (co_blocks c) (co_counter c) (co_stale c) (co_log c).
Lemma inv_objects c ids fin : inv c → (∀ rid e, tracks c rid e → ids (en_req e) = co_ids c (en_req e) ∧ fin (en_req e) = co_finished c (en_req e)) →
  inv (core_objects ids fin c).
Proof.
  intros [I1 I2 I3 I4 I5 I6 I7 I8 I9 I10 I11 I12] Ho.
  assert (Hw : ∀ j bid, watched (core_objects ids fin c) j bid ↔ watched c j bid).
  { intros j bid. unfold watched. cbn. split; (intros [?|[? (e&He&Hf)]]; [by left|right; split; [done|]; exists e; split; [done|]]); destruct (Ho (jb_req j) e He); congruence. }
  split; cbn [core_objects co_jobs co_status co_blocks co_log co_counter co_stale co_ids co_finished]; try done.
  - intros rid e He. destruct (Ho _ _ He) as [-> _]. by apply I2.
  - intros jid j bid Hj Hwa. eapply I6; [done|]. by apply Hw.
  - intros jid bid Hin. destruct (I7 jid bid Hin) as (j&Hj&Hwa). exists j. split; [done|]. by apply Hw.
  - intros rid e He. destruct (Ho _ _ He) as [_ ->]. by apply (I9 rid).
Qed.
(** A request has finished: [fin] is [co_finished] but for its object. *)
Section finish.
Context (c : CoreT) (rid : string) (e : Entry) (ids : nat → string) (fin : nat → bool).
Context (Hi : inv c) (He : tracks c rid e) (Hids : ∀ r e', tracks c r e' → ids (en_req e') = co_ids c (en_req e')).
Context (Hfin : ∀ r e', tracks c r e' → fin (en_req e') = if decide (r = rid) then true else co_finished c (en_req e')).
Context (Hun : co_finished c (en_req e) = false).
Lemma finish_other j bid : jb_req j ≠ rid → watched (core_objects ids fin c) j bid ↔ watched c j bid.
Proof.
  intros Hne. unfold watched. cbn. split; (intros [?|[? (e'&He'&Hf)]]; [by left|right; split; [done|]; exists e'; split; [done|]]); rewrite (Hfin _ _ He'), decide_False in * by done; done.
Qed.
Lemma finish_own j bid : jb_req j = rid → watched (core_objects ids fin c) j bid ↔ watched c j bid ∨ bid ∈ default [] (non_sliding_window_block_ids j).
Proof.
  intros Hr. unfold watched. cbn. rewrite Hr. unfold tracks in He. rewrite He. split.
  - intros [?|[? _]]; tauto.
  - intros [[?|[? (e'&[= <-]&?)]]|?]; [by left|congruence|]. right. split; [done|]. exists e. split; [done|]. rewrite (Hfin _ _ He). by rewrite decide_True.
Qed.
Lemma inv_finish_idle : en_jobs e = ∅ → inv (core_status (od_pop rid (co_status c)) (core_log [CallFinished rid] (core_objects ids fin c))).
Proof using All.
  intros Hno. pose proof Hi as [I1 I2 I3 I4 I5 I6 I7 I8 I9 I10 I11 I12].
  set (c' := core_status _ _). assert (Hget : ∀ r, od_get r (co_status c') = if decide (r = rid) then None else od_get r (co_status c)).
  { intros r. cbn. case_decide as E; [subst; by apply od_get_pop|by apply od_get_pop_ne]. }
  assert (Hj : ∀ jid j, co_jobs c !! jid = Some j → jb_req j ≠ rid).
  { intros jid j Hj E. destruct (I4 _ _ Hj) as (_&e'&He'&Hin). rewrite E in He'. unfold tracks in He. simplify_eq. set_solver. }
  assert (Hw : ∀ jid j bid, co_jobs c !! jid = Some j → watched c' j bid ↔ watched c j bid).
  { intros jid j bid Hjj. rewrite <- (finish_other j bid) by (by eapply Hj). unfold watched. rewrite Hget, decide_False by (by eapply Hj). done. }
  split.
  - by apply od_pop_nodup.
  - intros r e'. rewrite Hget. case_decide; [done|]. intros He'. cbn. rewrite (Hids r e' He'). by apply I2.
  - done.
  - intros jid j Hjj. destruct (I4 _ _ Hjj) as (?&e'&He'&Hin). split; [done|]. exists e'. rewrite Hget, decide_False by (by eapply Hj). done.
  - intros r e' jid. rewrite Hget. case_decide; [done|]. apply I5.
  - intros jid j bid Hjj. rewrite (Hw jid j bid Hjj). by apply I6.
  - intros jid bid Hin. destruct (I7 jid bid Hin) as (j&Hjj&Hwa). exists j. split; [done|]. by apply (Hw jid).
  - done.
  - intros r e'. rewrite Hget. case_decide; [done|]. intros He'. cbn. rewrite (Hfin r e' He'), decide_False by done. by apply (I9 r).
  - intros X. cbn [c' core_status core_log co_log core_objects co_jobs]. rewrite open_stores_snoc. apply I10.
  - intros X. cbn [c' core_status core_log co_log core_objects co_jobs]. rewrite open_loads_snoc. apply I11.
  - intros r. cbn [c' core_status core_log co_log core_objects]. rewrite open_requests_snoc, I12. unfold od_mem. rewrite Hget. cbn [request_step].
    case_decide as E; [subst|rewrite (bool_decide_eq_false_2 (rid = r)) by congruence; done].
    unfold tracks in He. rewrite He. rewrite !bool_decide_eq_true_2 by done. done.
Qed.
Lemma inv_finish_busy b : en_jobs e ≠ ∅ → (∀ bid, b !! bid ≠ Some ∅) →
  (∀ bid jid, jid ∈ watchers b bid ↔ jid ∈ watchers (co_blocks c) bid ∨ ∃ j, jid ∈ en_jobs e ∧ co_jobs c !! jid = Some j ∧ bid ∈ default [] (non_sliding_window_block_ids j)) →
  inv (core_blocks b (core_objects ids fin c)).
Proof using All.
  intros Hjobs Hne Hb. pose proof Hi as [I1 I2 I3 I4 I5 I6 I7 I8 I9 I10 I11 I12].
  split; cbn [core_blocks core_objects co_jobs co_status co_blocks co_log co_counter co_stale co_ids co_finished]; try done.
  - intros r e' He'. rewrite (Hids r e' He'). by apply I2.
  - intros jid j bid Hj Hw. apply Hb. change (watched (core_objects ids fin c) j bid) in Hw. destruct (decide (jb_req j = rid)) as [E|E].
    + apply (finish_own j bid E) in Hw as [Hw|Hw]; [left; by eapply I6|right]. exists j. split; [|done]. destruct (I4 _ _ Hj) as (_&e'&He'&Hin). rewrite E in He'. unfold tracks in He. by simplify_eq.
    + apply finish_other in Hw; [|done]. left. by eapply I6.
  - intros jid bid [Hin|(j&Hin&Hj&Hbid)]%Hb.
    + destruct (I7 jid bid Hin) as (j&Hj&Hw). exists j. split; [done|]. change (watched (core_objects ids fin c) j bid). destruct (decide (jb_req j = rid)) as [E|E]; [apply finish_own; auto|by apply finish_other].
    + exists j. split; [done|]. change (watched (core_objects ids fin c) j bid). apply finish_own; [|by right]. destruct (I5 _ _ _ He Hin) as [(j'&?&?)|?]; [by simplify_eq|]. destruct (I4 _ _ Hj). lia.
  - intros r e' He'. rewrite (Hfin r e' He'). case_decide as E; [subst|by apply (I9 r)]. unfold tracks in *. simplify_eq. done.
Qed.
End finish.

(** The engine marks a request as finished and calls [request_finished]. *)
Definition mark_finished (obj : nat) (objs : nat → Request Hash) (o : nat) : Request Hash :=
  let q := objs o in
  if decide (o = obj) then
    mkRequest (rq_id q) (rq_params q) (rq_block_hashes q) (rq_num_tokens q) (rq_num_prompt_tokens q) (rq_num_computed_tokens q) (rq_skip_reading_prefix_cache q) true
  else q.
Definition finish (obj : nat) : M St unit := modify (λ s, set_objs (mark_finished obj (objs s)) s);; request_finished obj.

Lemma watch_jobs_effect l (s : St) :
  wpo (for_each l (λ jid, j ← job_of jid; modify (add_block_jobs jid (default [] (non_sliding_window_block_ids j)))))
    (λ _ s', ∃ b', core_of s' = core_blocks b' (core_of s) ∧ ((∀ bid, block_jobs s !! bid ≠ Some ∅) → ∀ bid, b' !! bid ≠ Some ∅) ∧
      ∀ bid jid, jid ∈ watchers b' bid ↔ jid ∈ watchers (block_jobs s) bid ∨
        ∃ j, jid ∈ l ∧ jobs s !! jid = Some j ∧ bid ∈ default [] (non_sliding_window_block_ids j)) s.
Proof.
  revert s. induction l as [|jid l IH]; intros s; cbn [for_each].
  { apply wpo_ret. exists (block_jobs s). split; [done|]. split; [done|]. intros bid jid. split; [by left|]. intros [?|(j&[]%not_elem_of_nil&_)]. done. }
  unfold job_of at 1. apply wpo_bind, wpo_bind, wpo_bind, wpo_get, wpo_lift. intros j Ej. destruct (jobs s !! jid) as [j0|] eqn:Hj; [|done]. injection Ej as ->.
  apply wpo_modify. set (s1 := add_block_jobs _ _ s). eapply wpo_mono; [|apply IH]. intros [] s2 (b&C2&N2&W2). exists b. split; [by rewrite C2|].
  split; [intros Hn; apply N2; intros bid; by apply nonempty_add|]. intros bid jid'. rewrite W2. change (block_jobs s1) with (foldl (λ m bid, add_block_job jid bid m) (block_jobs s) (default [] (non_sliding_window_block_ids j))).
  rewrite watchers_add. change (jobs s1) with (jobs s). split.
  - intros [[?|[-> ?]]|(j'&?&?&?)]; [by left|right|right].
    + exists j. split; [by left|done].
    + exists j'. split; [by right|done].
  - intros [?|(j'&[->|?]%elem_of_cons&?&?)]; [by left; left|left; right|right].
    + simplify_eq. done.
    + by exists j'.
Qed.
Lemma inv_finish obj e (s : St) : inv (core_of s) → tracks (core_of s) (rq_id (objs s obj)) e → en_req e = obj → rq_is_finished (objs s obj) = false →
  wpi (finish obj) s.
Proof.
  intros Hi He Hobj Hun. unfold finish. apply wpo_bind, wpo_modify. set (s1 := set_objs _ s). set (rid := rq_id (objs s obj)) in *.
  set (ids := λ o, rq_id (objs s1 o)). set (fin := λ o, rq_is_finished (objs s1 o)).
  assert (Hids : ∀ o, ids o = rq_id (objs s o)) by (intros o; unfold ids; cbn; unfold mark_finished; by case_decide).
  assert (Hfin : ∀ r e', tracks (core_of s) r e' → fin (en_req e') = if decide (r = rid) then true else rq_is_finished (objs s (en_req e'))).
  { intros r e' He'. unfold fin. cbn. unfold mark_finished. case_decide as E1; case_decide as E2; try done.
    - destruct (iv_id _ Hi r e' He') as [Hr _]. cbn in Hr. rewrite E1 in Hr. done.
    - subst r. unfold tracks in *. congruence. }
  assert (E1 : core_of s1 = core_objects ids fin (core_of s)) by done.
  unfold request_finished. apply wpo_bind, wpo_get. cbn zeta. change (rq_id (objs s1 obj)) with (ids obj). rewrite Hids. fold rid.
  pose proof He as He0. unfold tracks in He0. rewrite core_get in He0. change (req_status s1) with (req_status s).
  destruct (od_get rid (req_status s)) as [r|] eqn:Er; [|done]. cbn in He0. assert (Ee : entry_of r = e) by congruence. clear He0.
  assert (Hj : transfer_jobs r = en_jobs e) by (by rewrite <- Ee). rewrite Hj.
  assert (Hctx : ctx_req_id (rs_ctx r) = rid) by (destruct (iv_id _ Hi _ _ He) as [_ <-]; by rewrite <- Ee).
  assert (Hids' : ∀ r' e', tracks (core_of s) r' e' → ids (en_req e') = co_ids (core_of s) (en_req e')) by (intros; apply Hids).
  assert (Hun' : co_finished (core_of s) (en_req e) = false) by (by rewrite Hobj).
  case_bool_decide as Ejobs.
  - apply wpo_bind, wpo_call. intros [] m1. apply wpo_modify. rewrite core_del, core_set_manager, E1, Hctx. exact (inv_finish_idle _ rid e ids fin Hi He Hids' Hfin Hun' Ejobs).
  - eapply wpo_mono; [|apply watch_jobs_effect]. intros [] s2 (b&C2&N2&W2). rewrite C2, E1. apply (inv_finish_busy _ rid e ids fin Hi He Hids' Hfin Hun'); [done|apply N2, (iv_nonempty _ Hi)|].
    intros bid jid. rewrite W2. split; (intros [?|(j&Hin&?&?)]; [by left|right; exists j]); (split; [|done]); apply elem_of_elements in Hin || apply elem_of_elements; done.
Qed.

(** ** A reset *)

Definition gone (s : St) (l : odict string (RequestOffloadState Key)) (rid : string) : bool :=
  match od_get rid l with Some r => rq_is_finished (objs s (rs_req r)) | None => false end.
(** The finished requests of [l] are finalized and no longer tracked. *)
Record finalized (l : odict string (RequestOffloadState Key)) (s s' : St) : Prop := {
  fz_nodup : NoDup (od_keys (req_status s'));
  fz_objs : objs s' = objs s;
  fz_counter : job_counter s' = job_counter s;
  fz_get rid : od_get rid (req_status s') = if gone s l rid then None else od_get rid (req_status s);
  fz_log rid : open_requests rid (log s') = open_requests rid (log s) - if gone s l rid then 1 else 0 }.
Lemma finalize_all l (s : St) : NoDup (od_keys (req_status s)) → NoDup (od_keys l) → (∀ x, x ∈ l → ctx_req_id (rs_ctx x.2) = x.1) →
  wpo (for_each l finalize_finished) (λ _, finalized l s) s.
Proof.
  revert s. induction l as [|[rid r] l IH]; intros s Hn Hl Hctx; cbn [for_each]; [apply wpo_ret; split; try done; intros; cbn; lia|].
  cbn in Hl. apply NoDup_cons in Hl as [Hrid Hl]. assert (Hc : ctx_req_id (rs_ctx r) = rid) by (exact (Hctx (rid, r) ltac:(by left))).
  assert (Hrest : ∀ x, x ∈ l → ctx_req_id (rs_ctx x.2) = x.1) by (intros; apply Hctx; by right).
  assert (Hnot : od_get rid l = None) by (destruct (od_get rid l) eqn:E; [apply od_get_Some_key in E|]; done).
  unfold finalize_finished at 1, req_of. cbn [fst snd]. apply wpo_bind, wpo_bind, wpo_bind, wpo_get, wpo_ret. cbn [fst snd].
  assert (Hhead : ∀ s' rid', objs s' = objs s → gone s' l rid' = gone s l rid') by (intros s' rid' Ho; unfold gone; by rewrite Ho).
  destruct (rq_is_finished (objs s (rs_req r))) eqn:Ef.
  - apply wpo_bind, wpo_call. intros [] m1. apply wpo_modify. rewrite Hc. set (s1 := set_status _ _).
    eapply wpo_mono; [|apply (IH s1); [by apply od_pop_nodup|done|done]]. intros [] s2 [F1 F2 F3 F4 F5]. split; [done|done|done|..]; intros rid'.
    + rewrite F4, Hhead by done. unfold gone. cbn [od_get]. cbn [s1 set_status req_status set_manager]. destruct (decide (rid' = rid)) as [->|Hne].
      * rewrite Hnot, Ef. by apply od_get_pop.
      * by rewrite od_get_pop_ne.
    + rewrite F5, Hhead by done. change (log s1) with (log s ++ [CallFinished rid]). rewrite open_requests_snoc. cbn [request_step]. unfold gone. cbn [od_get].
      destruct (decide (rid' = rid)) as [->|Hne]; [rewrite Hnot, Ef, bool_decide_eq_true_2 by done; lia|rewrite bool_decide_eq_false_2 by congruence; lia].
  - apply wpo_ret. eapply wpo_mono; [|by apply (IH s)]. intros [] s2 [F1 F2 F3 F4 F5].
    assert (Hg : ∀ rid', gone s ((rid, r) :: l) rid' = gone s l rid').
    { intros rid'. unfold gone. cbn [od_get]. destruct (decide (rid' = rid)) as [->|]; [by rewrite Hnot, Ef|done]. }
    split; [done|done|done|..]; intros rid'; rewrite Hg; auto.
Qed.

Lemma inv_reset_cache (s : St) : inv (core_of s) → wpi reset_cache s.
Proof.
  intros Hi. pose proof Hi as [I1 I2 I3 I4 I5 I6 I7 I8 I9 I10 I11 I12]. unfold reset_cache. apply wpo_bind, wpo_get.
  do 3 (apply wpo_bind, wpo_assert; intros _). apply wpo_bind, wpo_modify. set (s1 := set_flush _ s).
  assert (Hn : NoDup (od_keys (req_status s))) by (rewrite <- (od_keys_fmap entry_of); exact I1).
  apply wpo_bind. eapply wpo_mono; [|apply (finalize_all (req_status s) s1 Hn Hn)].
  2:{ intros [rid r] Hin. destruct (I2 rid (entry_of r)) as [_ Hctx]; [|exact Hctx]. rewrite core_get. by rewrite (od_elem_get rid r). }
  intros [] s2 [F1 F2 F3 F4 F5]. apply wpo_bind, wpo_call. intros [] m1. apply wpo_bind, wpo_modify, wpo_bind, wpo_modify, wpo_modify.
  set (st := (λ x : string * RequestOffloadState Key, (x.1, entry_of x.2)) <$> req_status s2).
  match goal with |- inv (core_of ?s) => assert (E : core_of s = mkCore (co_ids (core_of s2)) (co_finished (core_of s2)) st ∅ ∅ (job_counter s2) (job_counter s2) (log s2 ++ [CallReset])) end.
  { unfold core_of, st. cbn. f_equal. rewrite <- list_fmap_compose. done. }
  rewrite E. clear E. assert (Hget : ∀ rid e, od_get rid st = Some e → tracks (core_of s) rid e ∧ co_finished (core_of s) (en_req e) = false).
  { intros rid e. unfold st, tracks. rewrite od_get_fmap, F4, core_get. unfold gone. change (req_status s1) with (req_status s). change (objs s1) with (objs s).
    destruct (od_get rid (req_status s)) as [r|] eqn:Er; [|done]. destruct (rq_is_finished (objs s (rs_req r))) eqn:Ef; [done|]. cbn. intros [= <-]. done. }
  split; cbn [co_stale co_counter co_log co_jobs co_blocks co_status co_ids co_finished].
  - unfold st. by rewrite od_keys_fmap.
  - intros rid e [He _]%Hget. change (co_ids (core_of s2)) with (λ o, rq_id (objs s2 o)). rewrite F2. by apply I2.
  - done.
  - intros jid j. by rewrite lookup_empty.
  - intros rid e jid [He _]%Hget Hin. right. rewrite F3. change (jid < co_counter (core_of s)). destruct (I5 _ _ _ He Hin) as [(j&Hj&_)|?]; [by destruct (I4 _ _ Hj) as [[_ ?] _]|lia].
  - intros jid j bid. by rewrite lookup_empty.
  - intros jid bid. unfold watchers. rewrite lookup_empty. set_solver.
  - intros bid. by rewrite lookup_empty.
  - intros rid e [He Hf]%Hget. cbn. rewrite F2. cbn in Hf. change (objs s1) with (objs s). by rewrite Hf.
  - intros X. by rewrite open_stores_snoc.
  - intros X. by rewrite open_loads_snoc.
  - intros rid. rewrite open_requests_snoc. cbn [request_step]. rewrite F5. change (log s1) with (co_log (core_of s)). rewrite I12. unfold od_mem, st. rewrite od_get_fmap, F4, core_get.
    unfold gone. change (req_status s1) with (req_status s). change (objs s1) with (objs s). destruct (od_get rid (req_status s)) as [r|]; [|done]. by destruct (rq_is_finished _).
Qed.

(** What a reset leaves of the requests that go on: their jobs, too. *)
Lemma reset_cache_effect (s : St) : inv (core_of s) → wpo reset_cache (λ _ s', objs s' = objs s ∧ jobs s' = ∅ ∧
  ∀ rid r, od_get rid (req_status s) = Some r → rq_is_finished (objs s (rs_req r)) = false → od_get rid (req_status s') = Some (reset_progress r)) s.
Proof.
  intros Hi. unfold reset_cache. apply wpo_bind, wpo_get. do 3 (apply wpo_bind, wpo_assert; intros _). apply wpo_bind, wpo_modify. set (s1 := set_flush _ s).
  assert (Hn : NoDup (od_keys (req_status s))) by (rewrite <- (od_keys_fmap entry_of); exact (iv_keys _ Hi)).
  apply wpo_bind. eapply wpo_mono; [|apply (finalize_all (req_status s) s1 Hn Hn)].
  2:{ intros [rid r] Hin. destruct (iv_id _ Hi rid (entry_of r)) as [_ Hctx]; [|exact Hctx]. rewrite core_get. by rewrite (od_elem_get rid r). }
  intros [] s2 [_ F2 _ F4 _]. apply wpo_bind, wpo_call. intros [] m1. apply wpo_bind, wpo_modify, wpo_bind, wpo_modify, wpo_modify.
  split; [exact F2|]. split; [done|]. intros rid r Er Hf. cbn. rewrite od_get_fmap, F4. unfold gone. change (req_status s1) with (req_status s). change (objs s1) with (objs s). by rewrite Er, Hf.
Qed.
Lemma finish_stranded obj rid (r : RequestOffloadState Key) (s : St) : rq_id (objs s obj) = rid → od_get rid (req_status s) = Some r → transfer_jobs r ≠ ∅ → jobs s = ∅ →
  ∃ s', finish obj s = (Err KeyError, s').
Proof.
  intros Hid Hr Hne Hj. unfold finish. rewrite run_modify. set (s1 := set_objs _ s). unfold request_finished. rewrite run_get. cbn zeta.
  assert (Hid1 : rq_id (objs s1 obj) = rid) by (rewrite <- Hid; cbn; unfold mark_finished; by case_decide). rewrite Hid1. change (req_status s1) with (req_status s). rewrite Hr.
  rewrite bool_decide_eq_false_2 by done. destruct (elements (transfer_jobs r)) as [|jid l] eqn:E; [by apply elements_empty_inv, leibniz_equiv in E|].
  cbn [for_each]. unfold job_of. rewrite !run_assoc, run_get. assert (Hl : jobs s1 !! jid = None) by (change (jobs s1) with (jobs s); rewrite Hj; apply lookup_empty).
  rewrite Hl. cbn [res_of_option]. rewrite run_lift_err. by eexists.
Qed.

(** ** Sessions *)

(** One call of the engine that succeeds, or a change of its request objects.
    The engine announces a request once, schedules no request that has
    finished, and ends a request once; it may reset at any time. *)
Inductive call (s : St) : St → Prop :=
  | call_new obj s' : od_get (rq_id (objs s obj)) (req_status s) = None → rq_is_finished (objs s obj) = false →
      on_new_request C obj s = (Ok tt, s') → call s s'
  | call_match obj n y s' : get_num_new_matched_tokens C obj n s = (Ok y, s') → call s s'
  | call_alloc obj blocks n s' : unfinished (core_of s) (rq_id (objs s obj)) → update_state_after_alloc C obj blocks n s = (Ok tt, s') → call s s'
  | call_build out meta s' : (∀ x, x ∈ so_num_scheduled_tokens out → unfinished (core_of s) x.1) → build_connector_meta C out s = (Ok meta, s') → call s s'
  | call_report l s' : update_connector_output l s = (Ok tt, s') → call s s'
  | call_finish obj e s' : tracks (core_of s) (rq_id (objs s obj)) e → en_req e = obj → rq_is_finished (objs s obj) = false →
      finish obj s = (Ok tt, s') → call s s'
  | call_events l s' : take_events s = (Ok l, s') → call s s'
  | call_reset s' : reset_cache s = (Ok tt, s') → call s s'
  | call_engine objs' : (∀ rid e, tracks (core_of s) rid e → rq_id (objs' (en_req e)) = rq_id (objs s (en_req e)) ∧
      rq_is_finished (objs' (en_req e)) = rq_is_finished (objs s (en_req e))) → call s (set_objs objs' s).
(** The same without the conditions, and without the metadata of a step. *)
Inductive meanwhile (s : St) : St → Prop :=
  | bt_new obj s' : on_new_request C obj s = (Ok tt, s') → meanwhile s s'
  | bt_match obj n y s' : get_num_new_matched_tokens C obj n s = (Ok y, s') → meanwhile s s'
  | bt_alloc obj blocks n s' : update_state_after_alloc C obj blocks n s = (Ok tt, s') → meanwhile s s'
  | bt_report l s' : update_connector_output l s = (Ok tt, s') → meanwhile s s'
  | bt_finish obj s' : finish obj s = (Ok tt, s') → meanwhile s s'
  | bt_events l s' : take_events s = (Ok l, s') → meanwhile s s'
  | bt_reset s' : reset_cache s = (Ok tt, s') → meanwhile s s'
  | bt_engine objs' : meanwhile s (set_objs objs' s).
Lemma meanwhile_flush s s' : rtc meanwhile s s' → jobs_to_flush s ⊆ jobs_to_flush s'.
Proof.
  induction 1 as [s|s1 s2 s3 H12 _ IH]; [done|]. etransitivity; [|exact IH]. clear IH.
  destruct H12 as [obj s2 E|obj n y s2 E|obj blocks n s2 E|l s2 E|obj s2 E|l s2 E|s2 E|objs'].
  - by rewrite (flush_on_new_request C obj s1 _ _ E).
  - by rewrite (flush_get_num_new_matched_tokens C obj n s1 _ _ E).
  - by rewrite (flush_update_state_after_alloc C obj blocks n s1 _ _ E).
  - by rewrite (flush_update_connector_output l s1 _ _ E).
  - unfold finish in E. apply M_bind_ok in E as ([]&s0&[= <-]&E). by rewrite (flush_request_finished obj _ _ _ E).
  - by rewrite (flush_take_events s1 _ _ E).
  - destruct (reset_flushes s1 _ _ E) as [_ ->]. set_solver.
  - done.
Qed.
Lemma keeps_take_events : keeps take_events.
Proof. unfold take_events. apply keeps_bind; [apply keeps_silent|intros; apply keeps_ret]. Qed.
Lemma inv_call s s' : inv (core_of s) → call s s' → inv (core_of s').
Proof.
  intros Hi [obj s1 Hn Hf E|obj n y s1 E|obj blocks n s1 Hu E|out meta s1 Hu E|l s1 E|obj e s1 He Ho Hf E|l s1 E|s1 E|objs' Ho].
  - exact (inv_on_new_request C obj s Hi Hn Hf _ _ E).
  - by rewrite (keeps_get_num_new_matched_tokens C obj n s _ _ E).
  - exact (inv_update_state_after_alloc C obj blocks n s Hi Hu _ _ E).
  - exact (sd_inv _ _ _ _ (build_connector_meta_done C out s Hi Hu _ _ E)).
  - exact (inv_update_connector_output l s Hi _ _ E).
  - exact (inv_finish obj e s Hi He Ho Hf _ _ E).
  - by rewrite (keeps_take_events s _ _ E).
  - exact (inv_reset_cache s Hi _ _ E).
  - by apply (inv_objects (core_of s)).
Qed.
Definition started (s : St) : Prop := ∃ m objs prefix_caching, s = new_sched (m, []) objs prefix_caching.
Definition reachable (s : St) : Prop := ∃ s0, started s0 ∧ rtc call s0 s.
Lemma count_empty P : count P (∅ : gmap Z (TransferJobStatus Key)) = 0.
Proof. done. Qed.
Lemma inv_started s : started s → inv (core_of s).
Proof.
  intros (m&objs&b&->). split; cbn; try done; try constructor; intros; try (by rewrite lookup_empty); try (by rewrite lookup_empty in *).
Qed.
Lemma inv_reachable s : reachable s → inv (core_of s).
Proof. intros (s0&H0%inv_started&Hc). revert H0. induction Hc as [s|s1 s2 s3 H12 _ IH]; intros Hi; [done|]. apply IH. by eapply inv_call. Qed.
End steps.
