(* ===== verification/OffStore.v ===== *)
(** Storing the blocks of a request step by step ([_build_store_jobs],
    [storable_blocks], [advance_stored_idx]): which keys a step offers to the
    manager, and what it leaves behind on every answer. *)
From S2P Require Import Prelude PyDict KvSpec PyNum OffConfig OffScheduler OffJobs OffLookup OffConfigProps OffSession.
From stdpp Require Import base list list_numbers gmap sets strings.
From Stdlib Require Import ZArith Lia.
#[local] Open Scope string_scope.
#[local] Open Scope list_scope.
#[local] Open Scope Z_scope.

(** * The keys a step offers *)

Lemma omap_nil_all {A B} (f : A → option B) l : (∀ x, x ∈ l → f x = None) → omap f l = [].
Proof. induction l as [|x l IH]; intros Hf; [done|]. cbn. rewrite (Hf x ltac:(by left)). apply IH. intros; apply Hf; by right. Qed.
Section offered.
Context {Key : Type} (factor : Z).
Definition reachable_block (c : GroupOffloadConfig) (j : Z) : bool :=
  match alignment_block_count c, sliding_window_size_in_blocks c with
  | Some n, Some tail => n - tail <=? j mod n
  | _, _ => true
  end.
(** The key of block [j] of a group, when its last GPU block is there and the
    block is not in the part of its segment that is left out. *)
Definition offer_at (c : GroupOffloadConfig) (g : RequestGroupState Key) (j : Z) : option Key :=
  if negb (default 0 (block_ids g !! Z.to_nat (j * factor + factor - 1)) =? 0) && reachable_block c j then offload_keys g !! Z.to_nat j else None.
(** All of them, up to what may be stored of [n] tokens. *)
Definition offers (n : Z) (x : GroupOffloadConfig * RequestGroupState Key) : list Key :=
  omap (offer_at x.1 x.2) (seqZ (next_stored_block_idx x.2) (storable_blocks x.1 n - next_stored_block_idx x.2)).

Lemma pick_keys_ok c g i l ks : 0 ≤ i → pick_keys c i l = Ok ks →
  (∀ m x, l !! m = Some x → offload_keys g !! Z.to_nat (i + Z.of_nat m) = Some x.1 ∧ block_ids g !! Z.to_nat ((i + Z.of_nat m) * factor + factor - 1) = Some x.2) →
  ks = omap (offer_at c g) (seqZ i (Z.of_nat (length l))).
Proof.
  intros Hi. revert i ks Hi. induction l as [|[k bid] l IH]; intros i ks Hi E Hl; [injection E as <-; by rewrite seqZ_nil|]. rewrite length_cons, Nat2Z.inj_succ, seqZ_cons by lia.
  replace (Z.pred (Z.succ (Z.of_nat (length l)))) with (Z.of_nat (length l)) by lia. destruct (Hl O _ eq_refl) as [Hk Hb]. rewrite Z.add_0_r in Hk, Hb. cbn [fst snd] in Hk, Hb.
  assert (Hl' : ∀ m x, l !! m = Some x → offload_keys g !! Z.to_nat (Z.succ i + Z.of_nat m) = Some x.1 ∧ block_ids g !! Z.to_nat ((Z.succ i + Z.of_nat m) * factor + factor - 1) = Some x.2).
  { intros m x Hx. replace (Z.succ i + Z.of_nat m) with (i + Z.of_nat (S m)) by lia. by apply Hl. }
  cbn [omap list_omap]. unfold offer_at at 1. rewrite Hb, Hk. cbn [default id]. cbn [pick_keys] in E. change (i + 1) with (Z.succ i) in E. destruct (bid =? 0); cbn [negb andb]; [apply IH; [lia|done|done]|].
  apply res_bind_ok in E as (skip&Es&E). apply res_bind_ok in E as (ks'&Ek&E). injection E as <-. rewrite <- (IH (Z.succ i) ks' ltac:(lia) Ek Hl').
  unfold unreachable in Es. unfold reachable_block. destruct (alignment_block_count c) as [n|]; [destruct (sliding_window_size_in_blocks c) as [tail|]; [|done]|]; injection Es as <-; [|done].
  by destruct (Z.ltb_spec (i mod n) (n - tail)), (Z.leb_spec (n - tail) (i mod n)); try lia.
Qed.
End offered.

Section store.
Context {K : KvLib} {Hash Key Mg Spec : Type} `{Countable Key} {MG : OffloadingManager Key Mg Spec} {L : OffLib Hash Key}.
Abbreviation LS := (logged_state (Key:=Key) (Mg:=Mg)).
#[local] Existing Instance logged_manager.
Abbreviation St := (Sched Hash Key LS Spec).
Context (C : Connector).
Abbreviation configs := (kv_group_configs (config C)).
Abbreviation factor := (block_size_factor (config C)).
Lemma new_keys_offers n c (g : RequestGroupState Key) ks : 1 ≤ factor → 0 ≤ next_stored_block_idx g → new_keys_of C n (c, g) = Ok ks → ks = offers factor n (c, g).
Proof.
  intros Hf H0. unfold new_keys_of, offers. cbn [fst snd]. set (start := next_stored_block_idx g) in *. set (nb := storable_blocks c n).
  destruct (Z.leb_spec nb start); [intros [= <-]; symmetry; apply omap_nil_all; by intros j ?%elem_of_seqZ; lia|].
  intros (u&E&Ek)%res_bind_ok. unfold check in E. case_bool_decide as El; [|done]. clear E u.
  set (keys := slice (offload_keys g) start nb) in *. set (bids := slice_step _ _ _ _) in *.
  assert (Hz : length (zip keys bids) = length keys) by (rewrite length_zip; lia).
  rewrite (pick_keys_ok factor c g start _ ks H0 Ek).
  - replace (nb - start) with (Z.of_nat (length keys) + (nb - start - Z.of_nat (length keys))) by lia.
    assert (Hlen : Z.of_nat (length keys) ≤ nb - start) by (unfold keys, slice; rewrite length_take; lia).
    rewrite Hz, (seqZ_app start), omap_app by lia. rewrite (omap_nil_all _ (seqZ (start + _) _)); [by rewrite app_nil_r|].
    intros j Hj%elem_of_seqZ. unfold offer_at. destruct (_ && _); [|done]. apply lookup_ge_None. assert (Hn : slice (offload_keys g) start nb !! length keys = None) by (by apply lookup_ge_None).
    rewrite lookup_slice, decide_True in Hn by lia. apply lookup_ge_None in Hn. lia.
  - intros m [k bid] Hx. apply lookup_zip_with_Some in Hx as (k'&b'&[= <- <-]&Hk&Hb). cbn [fst snd]. split.
    + unfold keys in Hk. rewrite lookup_slice in Hk by lia. case_decide; [|done]. rewrite <- Hk. f_equal. lia.
    + unfold bids, slice_step in Hb. rewrite lookup_stride in Hb by lia. apply lookup_take_Some in Hb as [Hb _]. rewrite <- Hb. f_equal. nia.
Qed.

(** ** What the loop over the groups leaves *)

(** Two states of the scheduler that differ in the states of requests and in
    the manager behind the log. *)
Record same_jobs (s s' : St) : Prop := {
  sj_jobs : jobs s' = jobs s;
  sj_blocks : block_jobs s' = block_jobs s;
  sj_counter : job_counter s' = job_counter s;
  sj_log : log s' = log s;
  sj_objs : objs s' = objs s }.
Lemma same_jobs_trans s1 s2 s3 : same_jobs s1 s2 → same_jobs s2 s3 → same_jobs s1 s3.
Proof. intros [] []. split; congruence. Qed.
(** The source blocks of a job are those of its two lists. *)
Definition sources_split (x : Storing) : Prop := ∀ b, b ∈ sr_blocks x ↔ b ∈ sr_full x ∨ b ∈ sr_window x.
Lemma store_group_split (ks : gset Key) n (x : GroupOffloadConfig * RequestGroupState Key) acc y : store_group C ks n x acc = Ok y → sources_split acc → sources_split y.1 ∧ y.2 = set_next (storable_blocks x.1 n) x.2.
Proof.
  destruct x as [c g]. unfold store_group. intros (blocks&_&E)%res_bind_ok Ha. injection E as <-. split; [|done]. intros b. cbn. rewrite elem_of_app, (Ha b), !elem_of_app.
  case_bool_decide; set_solver.
Qed.
Lemma store_groups_effect rid ks n pre cs gs r acc (s : St) : length cs = length gs → od_get rid (req_status s) = Some r → group_states r = pre ++ gs → sources_split acc →
  wpo (store_groups C rid ks n (length pre) (zip cs gs) acc) (λ acc' s', same_jobs s s' ∧ sources_split acc' ∧
    od_get rid (req_status s') = Some (set_groups (pre ++ zip_with (λ c g, set_next (storable_blocks c n) g) cs gs) r)) s.
Proof.
  revert pre cs r acc s. induction gs as [|g gs IH]; intros pre [|c cs] r acc s Hl Hr Hg Ha; try discriminate Hl; cbn [zip_with store_groups].
  { apply wpo_ret. split; [done|]. split; [done|]. rewrite Hr, <- Hg. by destruct r. }
  apply wpo_bind, wpo_lift. intros y Ey. destruct (store_group_split _ _ _ _ _ Ey Ha) as [Hs Hy]. cbn [fst snd] in Hy. apply wpo_bind. unfold set_group. apply wpo_bind, wpo_status.
  intros r' Er'. rewrite Hr in Er'. injection Er' as <-. apply wpo_modify. set (s1 := set_status _ s).
  assert (Hg1 : <[length pre := y.2]> (group_states r) = (pre ++ [y.2]) ++ gs) by (rewrite Hg, <- (Nat.add_0_r (length pre)), insert_app_r, <- app_assoc; done).
  specialize (IH (pre ++ [y.2]) cs (set_groups (<[length pre := y.2]> (group_states r)) r) y.1 s1). rewrite length_app, Nat.add_1_r in IH.
  eapply wpo_mono; [|apply IH; [by injection Hl|by apply od_get_set|exact Hg1|done]]. intros acc' s' (H1&H2&H3). split; [by apply (same_jobs_trans s s1)|]. split; [done|].
  rewrite H3, Hy, <- app_assoc. done.
Qed.
Lemma same_jobs_core (s s' : St) : core_of s' = core_of s → jobs s' = jobs s ∧ block_jobs s' = block_jobs s ∧ job_counter s' = job_counter s ∧ log s' = log s.
Proof. intros E. unfold core_of in E. by injection E. Qed.

Lemma touch_only (r : RequestOffloadState Key) (s : St) : wpo (_touch C r) (λ _ s', same_jobs s s' ∧ req_status s' = req_status s) s.
Proof.
  unfold _touch. apply (wpo_for_each (λ s', same_jobs s s' ∧ req_status s' = req_status s)); [|done|done]. intros [c g] s1 _ [Hs Hr]. unfold touch_group.
  assert (Hone : ∀ ks, wpo (on_manager (mgr_touch ks (rs_ctx r))) (λ _ s', same_jobs s s' ∧ req_status s' = req_status s) s1).
  { intros ks. apply wpo_call. intros [] m1. split; [|done]. apply (same_jobs_trans s s1); [done|]. split; try done. by apply app_nil_r. }
  destruct (sliding_window_size_in_blocks c); apply Hone.
Qed.

(** ** One request of a step *)

Definition new_offers (n : Z) (r : RequestOffloadState Key) : list Key := concat (offers factor n <$> zip configs (group_states r)).
(** The four ways a step goes for a request with state [r], when [n] of its
    tokens may be offloaded. *)
Inductive store_outcome (rid : string) (r : RequestOffloadState Key) (n : Z) (out : odict Z (TransferJob Spec)) (s : St) : odict Z (TransferJob Spec) → St → Prop :=
  | nothing_new s' : new_offers n r = [] → log s' = log s → jobs s' = jobs s → od_get rid (req_status s') = Some (advance_stored_idx C n r) → store_outcome rid r n out s out s'
  | no_room s' : log s' = log s ++ [CallPrepareStore (new_offers n r) None] → jobs s' = jobs s → od_get rid (req_status s') = Some r → store_outcome rid r n out s out s'
  | all_there s' : log s' = log s ++ [CallPrepareStore (new_offers n r) (Some [])] → jobs s' = jobs s → od_get rid (req_status s') = Some (advance_stored_idx C n r) →
      store_outcome rid r n out s out s'
  | some_stored k ks src dst job s' : log s' = log s ++ [CallPrepareStore (new_offers n r) (Some (k :: ks))] → jobs s' = <[job_counter s := job]> (jobs s) →
      jb_req job = rid → jb_keys job = list_to_set (k :: ks) → is_store job = true → pending_count job = num_workers (config C) →
      (∀ b, b ∈ gpu_block_ids src ↔ b ∈ default [] (non_sliding_window_block_ids job) ∨ b ∈ default [] (sliding_window_block_ids job)) →
      od_get rid (req_status s') = Some (set_transfers ({[job_counter s]} ∪ transfer_jobs r) (advance_stored_idx C n r)) →
      store_outcome rid r n out s (od_set (job_counter s) (mkTransferJob rid (StoreSpec src dst)) out) s'.

Lemma build_store_one_outcome rid scheduled (r : RequestOffloadState Key) out (s : St) : 1 ≤ factor → length (group_states r) = length configs →
  (∀ g, g ∈ group_states r → 0 ≤ next_stored_block_idx g) → od_get rid (req_status s) = Some r →
  wpo (build_store_one C (rid, scheduled) out) (store_outcome rid r (num_offloadable_tokens C (objs s (rs_req r)) r scheduled) out s) s.
Proof.
  intros Hf Hlen H0 Hr. unfold build_store_one. apply wpo_bind, wpo_get. rewrite Hr. apply wpo_bind. unfold req_of. apply wpo_bind, wpo_get, wpo_ret. cbn zeta.
  set (n := num_offloadable_tokens _ _ _ _). apply wpo_bind, wpo_lift. intros new Enew.
  assert (Hnew : concat new = new_offers n r).
  { unfold new_offers. f_equal. apply (map_res_fmap _ _ _ _ Enew). intros [c g] ks Hin E. eapply new_keys_offers; [done| |exact E]. apply H0. by apply elem_of_zip_r in Hin. }
  rewrite Hnew. clear Hnew Enew.
  assert (Hput : ∀ s1 : St, req_status s1 = req_status s → wpo (put_status rid (advance_stored_idx C n r);; mret out) (λ out' s', out' = out ∧ log s' = log s1 ∧ jobs s' = jobs s1 ∧
    od_get rid (req_status s') = Some (advance_stored_idx C n r)) s1).
  { intros s1 E1. apply wpo_bind, wpo_modify, wpo_ret. do 3 (split; [done|]). cbn. apply od_get_set. }
  destruct (new_offers n r) as [|k0 ks0] eqn:En.
  { eapply wpo_mono; [|by apply Hput]. intros out' s' (->&E1&E2&E3). by apply nothing_new. }
  rewrite <- En. apply wpo_bind, wpo_call. intros res m1. match goal with |- context [set_manager ?m s] => set (s1 := set_manager m s) end. assert (Hl : log s1 = log s ++ [CallPrepareStore (new_offers n r) (fst <$> res)]) by done.
  destruct res as [[[|k ks] dst]|]; cbn [fst fmap option_fmap option_map] in Hl.
  - eapply wpo_mono; [|by apply (Hput s1)]. intros out' s' (->&E1&E2&E3). apply all_there; [by rewrite E1|by rewrite E2|done].
  - unfold build_store_job. apply wpo_bind. eapply wpo_mono; [|apply touch_only]. intros [] s2 [J2 R2].
    apply wpo_bind. eapply wpo_mono; [|apply (store_groups_effect rid (list_to_set (k :: ks)) n [] configs (group_states r) r); [done|by rewrite R2|done|intros b; cbn; set_solver]].
    intros acc s3 (J3&Hsrc&R3). destruct (same_jobs_trans _ _ _ J2 J3) as [J4 B4 C4 L4 O4]. apply wpo_bind, wpo_generate. apply wpo_bind, wpo_status. intros r' Er'. cbn in Er'.
    rewrite R3 in Er'. injection Er' as <-. rewrite C4. apply wpo_bind. eapply (wpo_mono _ (λ _ s4, s4 = set_counter (job_counter s1 + 1) s3)).
    + intros [] s4 ->. apply wpo_bind, wpo_modify, wpo_bind, wpo_modify, wpo_bind, wpo_modify, wpo_ret. change (job_counter s1) with (job_counter s).
      eapply some_stored; [by rewrite <- Hl, <- L4|cbn; by rewrite J4|done|done|done|done| |cbn; by rewrite od_get_set].
      intros b. cbn. rewrite (Hsrc b). by destruct (sr_window acc).
    + destruct (bool_decide _); [by apply wpo_ret|]. apply wpo_bind. unfold job_of. apply wpo_bind, wpo_get, wpo_lift. intros j _. by apply wpo_assert.
  - apply wpo_ret. by apply no_room.
Qed.

(** ** A prefill in several steps *)

(** Between steps a request gets more keys and more blocks. *)
Record extends (g g' : RequestGroupState Key) : Prop := {
  ex_keys : offload_keys g `prefix_of` offload_keys g';
  ex_blocks : block_ids g `prefix_of` block_ids g' }.
Definition grows (g g' : RequestGroupState Key) : Prop := extends g g' ∧ next_stored_block_idx g' = next_stored_block_idx g.
(** The keys and blocks of all that may be stored are known. *)
Definition covered (n : Z) (x : GroupOffloadConfig * RequestGroupState Key) : Prop :=
  storable_blocks x.1 n ≤ Z.of_nat (length (offload_keys x.2)) ∧ storable_blocks x.1 n * factor ≤ Z.of_nat (length (block_ids x.2)).
(** The progress mark of every group is what [n] tokens allow. *)
Definition marks_at (n : Z) (r : RequestOffloadState Key) : Prop :=
  Forall (λ x, next_stored_block_idx x.2 = storable_blocks x.1 n) (zip configs (group_states r)).
(** The keys that were put before the manager and that it did not decline. *)
Definition taken (calls : list (Call (Key:=Key))) : list Key :=
  concat (omap (λ c, match c with CallPrepareStore ks (Some _) => Some ks | _ => None end) calls).
Definition declined (calls : list (Call (Key:=Key))) : bool :=
  existsb (λ c, match c with CallPrepareStore _ None => true | _ => false end) calls.
(** Steps of request [rid] from state [s], when [n] of its tokens have been
    gone through, to [s2] and [n2], with the keys that the manager was given.
    Between steps anything may happen that keeps the request and its marks and
    leaves its keys and blocks or adds to them; its tokens do not go back; a
    step that the manager declines goes through nothing. *)
Inductive store_run (rid : string) : St → Z → list Key → St → Z → Prop :=
  | run_end s n : store_run rid s n [] s n
  | run_between s s1 r r1 n l s2 n2 : od_get rid (req_status s) = Some r → od_get rid (req_status s1) = Some r1 →
      Forall2 grows (group_states r) (group_states r1) → store_run rid s1 n l s2 n2 → store_run rid s n l s2 n2
  | run_step s r scheduled out out' s1 calls n l s2 n2 : od_get rid (req_status s) = Some r →
      build_store_one C (rid, scheduled) out s = (Ok out', s1) → log s1 = log s ++ calls →
      let n1 := num_offloadable_tokens C (objs s (rs_req r)) r scheduled in
      n ≤ n1 → Forall (covered n1) (zip configs (group_states r)) →
      store_run rid s1 (if declined calls then n else n1) l s2 n2 → store_run rid s n (taken calls ++ l) s2 n2.

(** What one step over the tokens from [n] to [n'] would offer. *)
Definition group_range (n n' : Z) (x : GroupOffloadConfig * RequestGroupState Key) : list Key :=
  omap (offer_at factor x.1 x.2) (seqZ (storable_blocks x.1 n) (storable_blocks x.1 n' - storable_blocks x.1 n)).
Definition range_offers (n n' : Z) (r : RequestOffloadState Key) : list Key := concat (group_range n n' <$> zip configs (group_states r)).

Lemma storable_mono c n n' : 0 < offloaded_block_size c → n ≤ n' → storable_blocks c n ≤ storable_blocks c n'.
Proof. intros Hs Hn. unfold storable_blocks. pose proof (Z.div_le_mono n n' _ Hs Hn). destruct (eagle c); lia. Qed.
Lemma storable_nonneg c n : 0 < offloaded_block_size c → 0 ≤ n → 0 ≤ storable_blocks c n.
Proof. intros Hs Hn. unfold storable_blocks. pose proof (Z.div_pos n _ Hn Hs). destruct (eagle c); lia. Qed.
Lemma omap_ext_in {A B} (f f' : A → option B) (l : list A) : (∀ x, x ∈ l → f x = f' x) → omap f l = omap f' l.
Proof. induction l as [|x l IH]; intros Hf; [done|]. cbn. rewrite (Hf x ltac:(by left)). destruct (f' x); [f_equal|]; (apply IH; intros; apply Hf; by right). Qed.
Lemma offer_at_extends c (g g' : RequestGroupState Key) j : 1 ≤ factor → 0 ≤ j → j < Z.of_nat (length (offload_keys g)) → (j + 1) * factor ≤ Z.of_nat (length (block_ids g)) →
  extends g g' → offer_at factor c g' j = offer_at factor c g j.
Proof. intros Hf H0 Hk Hb [[ks Hks] [bs Hbs]]. unfold offer_at. rewrite Hks, Hbs, !lookup_app_l by lia. done. Qed.
Lemma extends_refl g : extends g g.
Proof. by split. Qed.
Lemma extends_trans g1 g2 g3 : extends g1 g2 → extends g2 g3 → extends g1 g3.
Proof. intros [] []. split; by etransitivity. Qed.

Section run.
Context (Hfactor : 1 ≤ factor) (Hsizes : Forall (λ c, 0 < offloaded_block_size c) configs).
Lemma group_range_extends c (g g' : RequestGroupState Key) n n1 : 0 < offloaded_block_size c → 0 ≤ n → covered n1 (c, g) → extends g g' →
  group_range n n1 (c, g') = group_range n n1 (c, g).
Proof using Hfactor.
  intros Hs Hn [C1 C2] He. cbn [fst snd] in *. unfold group_range. cbn [fst snd]. apply omap_ext_in. intros j Hj%elem_of_seqZ.
  pose proof (storable_nonneg c n Hs Hn). apply offer_at_extends; [lia|lia|lia|nia|done].
Qed.
Lemma group_range_app c (g : RequestGroupState Key) n n1 n2 : 0 < offloaded_block_size c → n ≤ n1 → n1 ≤ n2 →
  group_range n n2 (c, g) = group_range n n1 (c, g) ++ group_range n1 n2 (c, g).
Proof.
  intros Hs H1 H2. unfold group_range. cbn [fst snd]. pose proof (storable_mono c n n1 Hs H1). pose proof (storable_mono c n1 n2 Hs H2).
  set (a := storable_blocks c n) in *. set (b := storable_blocks c n1) in *. set (d := storable_blocks c n2) in *.
  replace (d - a) with ((b - a) + (d - b)) by lia. rewrite seqZ_app, omap_app by lia. by replace (a + (b - a)) with b by lia.
Qed.
Lemma range_offers_extends cs (gs gs' : list (RequestGroupState Key)) n n1 : Forall (λ c, 0 < offloaded_block_size c) cs → 0 ≤ n →
  Forall (covered n1) (zip cs gs) → Forall2 extends gs gs' → concat (group_range n n1 <$> zip cs gs') = concat (group_range n n1 <$> zip cs gs).
Proof using Hfactor.
  intros Hcs Hn Hcov He. revert cs Hcs Hcov. induction He as [|g g' gs gs' Hg He IH]; intros [|c cs] Hcs Hcov; try done.
  apply Forall_cons in Hcs as [Hc Hcs]. apply Forall_cons in Hcov as [Hcg Hcov]. cbn. rewrite IH by done. f_equal. by apply group_range_extends.
Qed.
Lemma range_offers_app cs (gs : list (RequestGroupState Key)) n n1 n2 : Forall (λ c, 0 < offloaded_block_size c) cs → n ≤ n1 → n1 ≤ n2 →
  concat (group_range n n2 <$> zip cs gs) ≡ₚ concat (group_range n n1 <$> zip cs gs) ++ concat (group_range n1 n2 <$> zip cs gs).
Proof.
  intros Hcs H1 H2. revert cs Hcs. induction gs as [|g gs IH]; intros [|c cs] Hcs; try done.
  apply Forall_cons in Hcs as [Hc Hcs]. cbn. rewrite IH by done. rewrite (group_range_app c g n n1 n2) by done. solve_Permutation.
Qed.
Lemma new_offers_range n n1 r : marks_at n r → new_offers n1 r = range_offers n n1 r.
Proof.
  unfold marks_at, new_offers, range_offers. generalize (zip configs (group_states r)) as l. intros l Hl. f_equal.
  induction Hl as [|[c g] l Hg _ IH]; [done|]. cbn [fmap list_fmap]. f_equal; [|done]. unfold offers, group_range. by rewrite Hg.
Qed.
Lemma advance_spec n r : length (group_states r) = length configs →
  marks_at n (advance_stored_idx C n r) ∧ Forall2 extends (group_states r) (group_states (advance_stored_idx C n r)).
Proof.
  unfold marks_at. cbn. generalize (kv_group_configs (config C)) as cs. generalize (group_states r) as gs. induction gs as [|g gs IH]; intros [|c cs] Hl; try done.
  injection Hl as Hl. destruct (IH cs Hl) as [H1 H2]. cbn. split; constructor; done.
Qed.

Lemma extends_all (gs : list (RequestGroupState Key)) : Forall2 extends gs gs.
Proof. induction gs; constructor; [apply extends_refl|done]. Qed.
Lemma extends_all_trans (gs1 gs2 gs3 : list (RequestGroupState Key)) : Forall2 extends gs1 gs2 → Forall2 extends gs2 gs3 → Forall2 extends gs1 gs3.
Proof.
  intros H1. revert gs3. induction H1 as [|g1 g2 gs1 gs2 Hg _ IH]; intros gs3 H2; inversion H2; subst; constructor; [by eapply extends_trans|by apply IH].
Qed.
Lemma range_offers_none n r : range_offers n n r = [].
Proof.
  unfold range_offers. induction (zip configs (group_states r)) as [|x xs IH]; [done|]. cbn. rewrite IH, app_nil_r.
  unfold group_range. by rewrite Z.sub_diag, seqZ_nil.
Qed.
Lemma marks_grow n r r1 : Forall2 grows (group_states r) (group_states r1) → marks_at n r → marks_at n r1.
Proof.
  unfold marks_at. generalize (kv_group_configs (config C)) as cs. intros cs Hg. revert cs. induction Hg as [|g g' gs gs' [_ Hg] _ IH]; intros [|c cs]; try done.
  cbn. intros [H1 H2]%Forall_cons. constructor; [cbn in *; by rewrite Hg|by apply IH].
Qed.
Lemma marks_nonneg n r : length (group_states r) = length configs → marks_at n r → 0 ≤ n → ∀ g, g ∈ group_states r → 0 ≤ next_stored_block_idx g.
Proof using Hsizes.
  unfold marks_at. revert Hsizes. generalize (kv_group_configs (config C)) as cs. generalize (group_states r) as gs. induction gs as [|g gs IH]; intros [|c cs] Hcs Hl Hm Hn; try done; [by intros ? ?%elem_of_nil|].
  apply Forall_cons in Hcs as [Hc Hcs]. cbn in Hm. apply Forall_cons in Hm as [Hg Hm]. injection Hl as Hl.
  intros g' [->|Hin]%elem_of_cons; [cbn in Hg; rewrite Hg; by apply storable_nonneg|]. by apply (IH cs).
Qed.
(** The steps together give the manager what one step over all the tokens
    would. *)
Lemma store_run_offers rid s n l s' n' : store_run rid s n l s' n' →
  ∀ r, od_get rid (req_status s) = Some r → length (group_states r) = length configs → marks_at n r → 0 ≤ n →
  ∃ r', od_get rid (req_status s') = Some r' ∧ Forall2 extends (group_states r) (group_states r') ∧ n ≤ n' ∧ marks_at n' r' ∧ l ≡ₚ range_offers n n' r'.
Proof using Hfactor Hsizes.
  induction 1 as [s n|s s1 r0 r1 n l s2 n2 Hr0 Hr1 Hg _ IH|s r0 scheduled out out' s1 calls n l s2 n2 Hr0 E Hlog n1 Hn Hcov _ IH]; intros r Hr Hlen Hm H0.
  - exists r. split; [done|]. split; [apply extends_all|]. split; [done|]. split; [done|]. by rewrite range_offers_none.
  - rewrite Hr0 in Hr. injection Hr as ->. assert (Hl1 : length (group_states r1) = length configs) by (rewrite <- (Forall2_length _ _ _ Hg); done).
    destruct (IH r1 Hr1 Hl1 (marks_grow n r r1 Hg Hm) H0) as (r'&Hr'&He&Hn&Hm'&Hl). exists r'. split; [done|]. split; [|done].
    eapply extends_all_trans; [|exact He]. eapply Forall2_impl; [exact Hg|by intros ?? []].
  - rewrite Hr0 in Hr. injection Hr as ->. destruct (advance_spec n1 r Hlen) as [Hm1 He1].
    assert (Hl1 : length (group_states (advance_stored_idx C n1 r)) = length configs) by (by rewrite <- (Forall2_length _ _ _ He1)).
    assert (Hnext : ∀ g, g ∈ group_states r → 0 ≤ next_stored_block_idx g) by (by eapply marks_nonneg).
    assert (Hgo : ∀ r1, od_get rid (req_status s1) = Some r1 → group_states r1 = group_states (advance_stored_idx C n1 r) → declined calls = false →
      taken calls = new_offers n1 r → ∃ r', od_get rid (req_status s2) = Some r' ∧ Forall2 extends (group_states r) (group_states r') ∧ n ≤ n2 ∧ marks_at n2 r' ∧ taken calls ++ l ≡ₚ range_offers n n2 r').
    { intros r1 Hr1 Hg1 Hd ->. rewrite Hd in IH. destruct (IH r1 Hr1) as (r'&Hr'&He&Hn2&Hm2&Hl); [by rewrite Hg1|unfold marks_at; by rewrite Hg1|lia|].
      exists r'. split; [done|]. rewrite Hg1 in He. assert (He' : Forall2 extends (group_states r) (group_states r')) by (by eapply extends_all_trans).
      split; [done|]. split; [lia|]. split; [done|]. rewrite Hl, (new_offers_range n n1 r Hm). unfold range_offers. rewrite (range_offers_app configs _ n n1 n2) by (done || lia).
      by rewrite (range_offers_extends configs (group_states r) (group_states r') n n1). }
    destruct (build_store_one_outcome rid scheduled r out s Hfactor Hlen Hnext Hr0 _ _ E) as [s1 Eo El _ Es|s1 El _ Es|s1 El _ Es|k ks src dst job s1 El _ _ _ _ _ _ Es].
    + rewrite Hlog in El. rewrite <- (app_nil_r (log s)) in El at 2. apply (inj _) in El as ->. by apply (Hgo _ Es).
    + rewrite Hlog in El. apply (inj _) in El as ->. cbn in IH |- *. by apply (IH r).
    + rewrite Hlog in El. apply (inj _) in El as ->. apply (Hgo _ Es); [done|done|]. cbn. by rewrite app_nil_r.
    + rewrite Hlog in El. apply (inj _) in El as ->. apply (Hgo _ Es); [done|done|]. cbn. by rewrite app_nil_r.
Qed.
End run.
End store.
