(* ===== verification/OffProps.v ===== *)
(** The properties of the offloading connector's scheduler, with a small
    manager and library for the witnesses. *)
From S2P Require Import Prelude PyDict KvSpec KvSpecProps KvLayout PyNum OffConfig OffScheduler OffJobs OffLookup OffConfigProps OffSession OffSteps OffStore.
From stdpp Require Import base list relations gmap sets strings.
From Stdlib Require Import ZArith Lia.
#[local] Open Scope string_scope.
#[local] Open Scope list_scope.
#[local] Open Scope Z_scope.

(** * A library for the witnesses *)

(** Hashes are numbers; a key is a hash with its group. *)
Abbreviation SampleKey := (Z * nat)%type.
#[export] Instance sample_off_lib : OffLib Z SampleKey := mkOffLib Z SampleKey pair fst (λ x m, x / m * m) (λ s, default 0 (head (elements s))).
#[export] Instance sample_off_laws : OffLaws sample_off_lib.
Proof.
  split; [done|]. intros s Hs. cbn. destruct (elements s) as [|x l] eqn:E; [by apply elements_empty_inv, leibniz_equiv in E|]. cbn. apply elem_of_elements. rewrite E. by left.
Qed.
(** A manager that remembers the keys whose stores have completed. *)
Definition sample_ret {A} (a : A) : M (list SampleKey) A := λ m, (Ok a, m).
#[export] Instance sample_offload_manager : OffloadingManager SampleKey (list SampleKey) unit := mkManager SampleKey (list SampleKey) unit _ _
  (λ k _ m, (Ok (Some (bool_decide (k ∈ m))), m)) (λ _ _, sample_ret tt) (λ _ _, sample_ret tt)
  (λ ks _ m, (Ok (Some (filter (λ k, k ∉ m) ks, tt)), m)) (λ _ _, sample_ret tt) (λ ks _ m, (Ok tt, m ++ elements ks))
  (λ _, sample_ret BLOCK_LEVEL) (λ _, sample_ret tt) (sample_ret tt) (λ _, false) (sample_ret []) (λ m, (Ok tt, [])).
(** Two groups of 16 tokens, the second with a window of 32; [eagle] as in
    speculative decoding. *)
Definition sample_off_spec (eagle : bool) : OffloadingSpec :=
  mkOffSpec [16; 16] 1 16 false [new_group ["a"] (GLayer (sample_full 16 2 4)); new_group ["b"] (GLayer (sample_window 16 2 4 32))] 1 eagle true.
Definition sample_connector (eagle : bool) : Connector :=
  mkConnector (mkSchedCfg [mkOff 0 16 16 1 None None eagle; mkOff 1 16 16 1 (Some 2) None eagle] 1 1 false) [1%nat] [0%nat; 1%nat] None.
Example sample_connector_made eagle : new_connector (sample_off_spec eagle) = Ok (sample_connector eagle).
Proof. by destruct eagle. Qed.
Lemma sample_spec_ok eagle : spec_ok (sample_off_spec eagle).
Proof. split; [done|done|]. intros n. cbn. rewrite !elem_of_cons. intros [->|[->|[]%not_elem_of_nil]]; done. Qed.
(** Requests of 64 tokens. *)
Definition sample_objs (o : nat) : Request Z := mkRequest (if decide (o = O) then "x" else "y") None [10; 11; 12; 13] 64 64 0 false false.
Abbreviation SampleState := (Sched Z SampleKey (logged_state (Key:=SampleKey) (Mg:=list SampleKey)) unit).
#[local] Existing Instance logged_manager.
Lemma triple_eq {A B D} (a a' : A) (b b' : B) (d d' : D) : (a, b, d) = (a', b', d') → a' = a ∧ b' = b ∧ d' = d.
Proof. by intros [= <- <- <-]. Qed.
Lemma run_of {S A} (m : M S A) s a : (m s).1 = Ok a → m s = (Ok a, (m s).2).
Proof. intros <-. apply surjective_pairing. Qed.
(** The states of a session: a request arrives, computes 48 tokens in blocks
    1 to 3 and 11 to 13, and ends while they are being stored. *)
Definition sample_0 : SampleState := new_sched ([], []) sample_objs true.
Definition sample_1 : SampleState := (on_new_request (sample_connector false) 0 sample_0).2.
Definition sample_2 : SampleState := (get_num_new_matched_tokens (sample_connector false) 0 0 sample_1).2.
Definition sample_out : SchedulerOutput := mkOutput [("x", 48)] [] [("x", Some [[1; 2; 3]; [11; 12; 13]], false)].
Definition sample_3 : SampleState := (build_connector_meta (sample_connector false) sample_out sample_2).2.
Definition sample_4 : SampleState := (finish 0 sample_3).2.
(** The next request gets block 2. *)
Definition sample_5 : SampleState := (on_new_request (sample_connector false) 1 sample_4).2.
Definition sample_out_5 : SchedulerOutput := mkOutput [("y", 16)] [] [("y", Some [[2]; [21]], false)].
Lemma sample_session : reachable (sample_connector false) sample_5 ∧ reachable (sample_connector false) sample_3.
Proof.
  assert (H0 : started sample_0) by (by eexists _, _, _).
  assert (H1 : call (sample_connector false) sample_0 sample_1) by (apply (call_new _ _ 0); [done|done|by apply run_of]).
  assert (H2 : call (sample_connector false) sample_1 sample_2).
  { assert (∃ y, (get_num_new_matched_tokens (sample_connector false) 0 0 sample_1).1 = Ok y) as [y E] by (eexists; vm_compute; reflexivity).
    exact (call_match _ _ 0 0 y sample_2 (run_of _ _ _ E)). }
  assert (H3 : call (sample_connector false) sample_2 sample_3).
  { assert (∃ meta, (build_connector_meta (sample_connector false) sample_out sample_2).1 = Ok meta) as [meta E] by (eexists; vm_compute; reflexivity).
    refine (call_build _ _ sample_out meta sample_3 _ (run_of _ _ _ E)). intros x _ e _. change (co_finished (core_of sample_2) (en_req e)) with (rq_is_finished (objs sample_2 (en_req e))).
    assert (Eo : objs sample_2 = sample_objs) by (vm_compute; reflexivity). by rewrite Eo. }
  assert (H4 : call (sample_connector false) sample_3 sample_4).
  { assert (E : (finish 0 sample_3).1 = Ok tt) by (vm_compute; reflexivity). assert (E3 : objs sample_3 = sample_objs) by (vm_compute; reflexivity).
    assert (∃ e, tracks (core_of sample_3) "x" e ∧ en_req e = 0%nat) as (e&He&Ho) by (eexists; split; [unfold tracks; vm_compute; reflexivity|reflexivity]).
    refine (call_finish _ _ 0 e sample_4 _ Ho _ (run_of _ _ _ E)); rewrite E3; [exact He|done]. }
  assert (H5 : call (sample_connector false) sample_4 sample_5).
  { assert (E : (on_new_request (sample_connector false) 1 sample_4).1 = Ok tt) by (vm_compute; reflexivity). refine (call_new _ _ 1 sample_5 _ _ (run_of _ _ _ E)); vm_compute; reflexivity. }
  assert (H03 : rtc (call (sample_connector false)) sample_0 sample_3) by exact (rtc_l _ _ _ _ H1 (rtc_l _ _ _ _ H2 (rtc_l _ _ _ _ H3 (rtc_refl _ _)))).
  split; exists sample_0; (split; [exact H0|]); [|exact H03]. exact (rtc_l _ _ _ _ H1 (rtc_l _ _ _ _ H2 (rtc_l _ _ _ _ H3 (rtc_l _ _ _ _ H4 (rtc_l _ _ _ _ H5 (rtc_refl _ _)))))).
Qed.

(** * Theorems *)

Section theorems.
Context {K : KvLib} {Hash Key Mg Spec : Type} `{Countable Key} {MG : OffloadingManager Key Mg Spec} {L : OffLib Hash Key}.
Abbreviation St := (Sched Hash Key (logged_state (Key:=Key) (Mg:=Mg)) Spec).
(** What a session keeps between the scheduler's jobs, its requests and what
    the manager was told. *)
Record ledger (s : St) : Prop := {
  lg_stores X : open_stores X (log s) = count (storing X) (jobs s);
  lg_loads X : open_loads X (log s) = count (loads X) (jobs s);
  lg_requests rid : open_requests rid (log s) = if od_mem rid (req_status s) then 1 else 0;
  lg_jobs jid j : jobs s !! jid = Some j → stale_job_threshold s ≤ jid < job_counter s ∧ ∃ r, od_get (jb_req j) (req_status s) = Some r ∧ jid ∈ transfer_jobs r;
  lg_transfers rid r jid : od_get rid (req_status s) = Some r → jid ∈ transfer_jobs r →
    (∃ j, jobs s !! jid = Some j ∧ jb_req j = rid) ∨ jid < stale_job_threshold s;
  lg_finished rid r : od_get rid (req_status s) = Some r → rq_is_finished (objs s (rs_req r)) = true → transfer_jobs r ≠ ∅ }.

(** C6: In every state a session reaches by engine calls that succeed (requests
    that arrive, look up, allocate, compute, finish, workers that report,
    resets at any time), the connector's books are straight: for every set of
    keys, the stores and loads the manager was asked to prepare, and since the
    last reset not yet told complete, are exactly the pending jobs with these
    keys; a request is open at the manager exactly when it is tracked, so
    [on_request_finished] comes once; every pending job is in the job set of the
    request it names; every job of a tracked request is pending, or was
    discarded by a reset, which its number tells; a finished request is tracked
    only while it has jobs. *)
Theorem session_ledger (C : Connector) (s : St) : reachable C s → ledger s.
Proof.
  intros Hr. destruct (inv_reachable C s Hr) as [I1 I2 I3 I4 I5 I6 I7 I8 I9 I10 I11 I12]. split; [exact I10|exact I11|..].
  - intros rid. change (log s) with (co_log (core_of s)). rewrite I12. unfold od_mem. rewrite core_get. by destruct (od_get rid (req_status s)).
  - intros jid j Hj. destruct (I4 jid j Hj) as (Hb&e&He&Hin). split; [exact Hb|]. rewrite core_get in He. destruct (od_get _ _) as [r|]; [|done]. exists r. by injection He as <-.
  - intros rid r jid Er Hin. apply (I5 rid (entry_of r)); [by rewrite core_get, Er|exact Hin].
  - intros rid r Er Hf. apply (I9 rid (entry_of r)); [by rewrite core_get, Er|exact Hf].
Qed.

(** C7: GPU blocks are not used again under a transfer.  In a session with
    resets at any time, when a step that succeeds gives out blocks (since the
    last step, or to the requests it schedules, none of which has finished),
    every pending job whose source blocks may already be free - blocks of a
    sliding window group, or of a request that has finished - is told to the
    workers to flush first, and so are all jobs of the requests the step
    preempts.  And whatever happened before: all jobs that a reset since the
    last step discarded are flushed in the next step. *)
Theorem reused_blocks_flushed (C : Connector) out (s s' : St) meta : build_connector_meta C out s = (Ok meta, s') →
  (reachable C s →
   (∀ x r, x ∈ so_num_scheduled_tokens out → od_get x.1 (req_status s) = Some r → rq_is_finished (objs s (rs_req r)) = false) →
   (∀ jid j bid, jobs s !! jid = Some j → bid ∈ allocated s ∪ new_blocks out →
     bid ∈ default [] (sliding_window_block_ids j) ∨
     bid ∈ default [] (non_sliding_window_block_ids j) ∧ (∃ r, od_get (jb_req j) (req_status s) = Some r ∧ rq_is_finished (objs s (rs_req r)) = true) →
     jid ∈ cm_jobs_to_flush meta) ∧
   (∀ rid r, rid ∈ so_preempted out → od_get rid (req_status s) = Some r → transfer_jobs r ⊆ cm_jobs_to_flush meta)) ∧
  (∀ s0 s1, reset_cache s0 = (Ok tt, s1) → rtc (meanwhile C) s1 s → dom (jobs s0) ⊆ cm_jobs_to_flush meta).
Proof.
  intros E. split.
  - intros Hr Hun. assert (Hun' : ∀ x, x ∈ so_num_scheduled_tokens out → unfinished (core_of s) x.1).
    { intros x Hx e He. unfold tracks in He. rewrite core_get in He. destruct (od_get x.1 (req_status s)) as [r|] eqn:Er; [|done]. injection He as <-. exact (Hun x r Hx Er). }
    destruct (build_connector_meta_done C out s (inv_reachable C s Hr) Hun' _ _ E) as [_ _ _ D4 D5 _]. split.
    + intros jid j bid Hj Hb Hw. apply (D5 jid j bid Hj); [|exact Hb]. destruct Hw as [Hw|[Hw (r&Er&Hf)]]; [by left|right]. split; [done|]. exists (entry_of r). by rewrite core_get, Er.
    + intros rid r Hin Er. apply (D4 rid (entry_of r) Hin). unfold tracks. by rewrite core_get, Er.
  - intros s0 s1 E0 Hs. destruct (reset_flushes s0 _ _ E0) as [H1 _]. pose proof (meanwhile_flush C s1 s Hs). pose proof (build_flushes C out s _ _ E). set_solver.
Qed.

(** C27: A step of [_build_store_jobs] that succeeds for a tracked request, whose
    groups are those of the configuration, offers to the manager, in order, the
    keys of the blocks from the progress mark up to what [storable_blocks]
    allows, without those whose last GPU block is gone and, in a window group
    whose blocks come in segments, those before the tail of their segment; and
    then goes one of four ways: nothing to offer and the mark moves; no room and
    nothing changes, so the next step asks again; all keys already there and the
    mark moves; or a store job with the keys the manager wants, for all workers,
    whose source blocks are recorded in the job, is pending and in the request's
    job set, and the mark of every group is what [storable_blocks] allows. *)
Theorem store_step_outcome (C : Connector) rid scheduled (r : RequestOffloadState Key) out out' (s s' : St) :
  1 ≤ block_size_factor (config C) → length (group_states r) = length (kv_group_configs (config C)) → (∀ g, g ∈ group_states r → 0 ≤ next_stored_block_idx g) →
  od_get rid (req_status s) = Some r → build_store_one C (rid, scheduled) out s = (Ok out', s') →
  store_outcome C rid r (num_offloadable_tokens C (objs s (rs_req r)) r scheduled) out s out' s'.
Proof. intros Hf Hl H0 Hr E. exact (build_store_one_outcome C rid scheduled r out s Hf Hl H0 Hr _ _ E). Qed.


(** C39: A reset while a running request has a transfer in flight strands it:
    [reset_cache] forgets every job but leaves the ids in the job set of each
    request that goes on, and when such a request ends, [request_finished]
    looks its job up and raises [KeyError]. *)
Theorem reset_strands_jobs (C : Connector) rid (r : RequestOffloadState Key) (s s1 : St) : reachable C s → reset_cache s = (Ok tt, s1) →
  od_get rid (req_status s) = Some r → rq_is_finished (objs s (rs_req r)) = false → transfer_jobs r ≠ ∅ → ∃ s2, finish (rs_req r) s1 = (Err KeyError, s2).
Proof.
  intros Hr E Er Hf Hne. pose proof (inv_reachable C s Hr) as Hi. destruct (reset_cache_effect s Hi _ _ E) as (Ho&Hj&Hst).
  destruct (iv_id _ Hi rid (entry_of r)) as [Hid _]; [by rewrite core_get, Er|]. apply (finish_stranded _ rid (reset_progress r)); [by rewrite Ho|by apply Hst|done|done].
Qed.
End theorems.

(** C13: The question of the engine how much of a request can be loaded is
    answered, for every connector that [__init__] makes from sound sizes and
    every request whose hashes cover its tokens, when the manager's [lookup] and
    [touch] do not raise and [lookup] gives the same answer for a key
    throughout the question (stored, not stored, or not known yet): the passes
    of [_lookup] over full and windowed groups end, and the answer is 0, "ask
    again", or a number of tokens of the prompt such that every block every
    group would load - its last window for a windowed group - is offloaded
    and not being loaded by another request. *)
Theorem lookup_answers_loadable (K : KvLib) (KL : KvLaws K) (Hash Key Mg Spec : Type) (ED : EqDecision Key) (CK : Countable Key)
    (MG : OffloadingManager Key Mg Spec) (L : OffLib Hash Key) (LL : OffLaws L) (steady : Mg → Prop) (answer : Key → option bool) (C : Connector) spec
    (s : Sched Hash Key Mg Spec) obj n (r : RequestOffloadState Key) hashes :
  (∀ k ctx m, steady m → ∃ m', mgr_lookup k ctx m = (Ok (answer k), m') ∧ steady m') →
  (∀ ks ctx m, steady m → ∃ m', mgr_touch ks ctx m = (Ok tt, m') ∧ steady m') →
  spec_ok spec → new_connector spec = Ok C →
  od_get (rq_id (objs s obj)) (req_status s) = Some r → rs_req r = obj → keys_of C hashes r → hashes `prefix_of` rq_block_hashes (objs s obj) →
  0 ≤ n → 0 ≤ rq_num_tokens (objs s obj) → rq_num_tokens (objs s obj) / spec_hash_block_size spec ≤ Z.of_nat (length (rq_block_hashes (objs s obj))) →
  steady (manager s) →
  ∃ y s' r', get_num_new_matched_tokens C obj n s = (Ok (y, match y with Some k => negb (k =? 0) | None => false end), s') ∧ steady (manager s') ∧
    od_get (rq_id (objs s obj)) (req_status s') = Some r' ∧ keys_of C (rq_block_hashes (objs s obj)) r' ∧
    ∀ k, y = Some k → matched answer C (objs s obj) (being_loaded s) n k.
Proof. intros Hl Ht Hsp Hn. exact (lookup_matched steady answer Hl Ht C spec s obj n r hashes Hsp Hn). Qed.

(** * Witnesses *)

Lemma session_ledger_witness : ledger sample_3 ∧ dom (jobs sample_3) = {[0]}.
Proof. split; [apply (session_ledger (sample_connector false)), sample_session|vm_compute; reflexivity]. Defined.
Lemma reused_blocks_flushed_witness : ∃ meta s', build_connector_meta (sample_connector false) sample_out_5 sample_5 = (Ok meta, s') ∧ 0 ∈ cm_jobs_to_flush meta.
Proof.
  assert (∃ meta, (build_connector_meta (sample_connector false) sample_out_5 sample_5).1 = Ok meta) as [meta E] by (eexists; vm_compute; reflexivity).
  exists meta, (build_connector_meta (sample_connector false) sample_out_5 sample_5).2. split; [exact (run_of _ _ _ E)|].
  assert (Hj : (λ j, (jb_req j, non_sliding_window_block_ids j)) <$> jobs sample_5 !! 0 = Some ("x", Some [1; 2; 3])) by (vm_compute; reflexivity).
  apply fmap_Some in Hj as (j&Hj&Hjb). injection Hjb as Hr Hb.
  assert (Er : (λ r, rq_is_finished (objs sample_5 (rs_req r))) <$> od_get "x" (req_status sample_5) = Some true) by (vm_compute; reflexivity).
  apply fmap_Some in Er as (r&Er&Hf). symmetry in Hr, Hb, Hf.
  refine (proj1 (proj1 (reused_blocks_flushed (sample_connector false) sample_out_5 sample_5 _ meta (run_of _ _ _ E)) (proj1 sample_session) _) 0 j 2 Hj _ _).
  - intros x r' Hx. apply elem_of_cons in Hx as [->|[]%not_elem_of_nil]. intros Er'. assert (Ey : (λ r, rq_is_finished (objs sample_5 (rs_req r))) <$> od_get "y" (req_status sample_5) = Some false) by (vm_compute; reflexivity).
    cbn [fst] in Er'. rewrite Er' in Ey. cbn [fmap option_fmap option_map] in Ey. exact (inj Some _ _ Ey).
  - apply elem_of_union_r. unfold new_blocks. apply elem_of_list_to_set. vm_compute. left.
  - right. rewrite Hb, Hr. split; [apply elem_of_cons; right; apply elem_of_cons; by left|]. exists r. split; [exact Er|exact Hf].
Defined.

(** A step of the first request of the session, with its blocks. *)
Definition sample_allocated : SampleState := (_update_req_states (sample_connector false) sample_out sample_2).2.
Lemma store_step_outcome_witness : ∃ r out s', build_store_one (sample_connector false) ("x", 48) [] sample_allocated = (Ok out, s') ∧
  store_outcome (sample_connector false) "x" r (num_offloadable_tokens (sample_connector false) (objs sample_allocated (rs_req r)) r 48) [] sample_allocated out s'.
Proof.
  assert (∃ out, (build_store_one (sample_connector false) ("x", 48) [] sample_allocated).1 = Ok out) as [out E] by (eexists; vm_compute; reflexivity).
  assert (Er : (λ r, (length (group_states r), next_stored_block_idx <$> group_states r)) <$> od_get "x" (req_status sample_allocated) = Some (2%nat, [0; 0])) by (vm_compute; reflexivity).
  apply fmap_Some in Er as (r&Er&Hg). injection Hg as Hl Hn. symmetry in Hl, Hn.
  exists r, out, (build_store_one (sample_connector false) ("x", 48) [] sample_allocated).2. split; [exact (run_of _ _ _ E)|].
  refine (store_step_outcome (sample_connector false) "x" 48 r [] out sample_allocated _ _ Hl _ Er (run_of _ _ _ E)); [cbn; lia|].
  intros g Hin. assert (Hz : next_stored_block_idx g ∈ next_stored_block_idx <$> group_states r) by (apply list_elem_of_fmap; exists g; split; [reflexivity|exact Hin]).
  rewrite Hn in Hz. apply elem_of_cons in Hz as [->|[->|[]%not_elem_of_nil]%elem_of_cons]; done.
Defined.
(** 64 tokens in two steps: the trailing blocks of groups that hold them back
    are offered by neither, the others once. *)
Definition sample_keys (g : nat) : list SampleKey := (λ h, (h, g)) <$> [10; 11; 12; 13].
Definition sample_prefill : RequestOffloadState SampleKey :=
  mkRS 0 (mkCtx "x" None) BLOCK_LEVEL [mkGS (sample_keys 0) [1; 2; 3; 4] 0 0; mkGS (sample_keys 1) [11; 12; 13; 14] 0 0] None 0 ∅.
Definition sample_step (n : Z) : M SampleState (odict Z (TransferJob unit)) := build_store_one (sample_connector true) ("x", n) [].
Definition sample_run_0 : SampleState := set_status [("x", sample_prefill)] (new_sched ([], []) sample_objs true).
Definition sample_run_1 : SampleState := (sample_step 32 sample_run_0).2.
Definition sample_run_2 : SampleState := (sample_step 64 sample_run_1).2.
Lemma sample_store_run : store_run (sample_connector true) "x" sample_run_0 0 (taken (log sample_run_1) ++ taken (drop 1 (log sample_run_2)) ++ []) sample_run_2 64.
Proof.
  assert (∃ out, (sample_step 32 sample_run_0).1 = Ok out) as [out1 E1] by (eexists; vm_compute; reflexivity).
  assert (∃ out, (sample_step 64 sample_run_1).1 = Ok out) as [out2 E2] by (eexists; vm_compute; reflexivity).
  assert (∃ r, od_get "x" (req_status sample_run_1) = Some r) as [r Er] by (eexists; vm_compute; reflexivity).
  assert (Hr : (rs_req r, max_offload_tokens r, group_states r) = (0%nat, None, [mkGS (sample_keys 0) [1; 2; 3; 4] 1 0; mkGS (sample_keys 1) [11; 12; 13; 14] 1 0])).
  { assert (H : (λ r, (rs_req r, max_offload_tokens r, group_states r)) <$> od_get "x" (req_status sample_run_1) =
      Some (0%nat, None, [mkGS (sample_keys 0) [1; 2; 3; 4] 1 0; mkGS (sample_keys 1) [11; 12; 13; 14] 1 0])) by (vm_compute; reflexivity).
    rewrite Er in H. exact (inj Some _ _ H). }
  injection Hr as Hobj Hmax Hgs.
  eapply (run_step _ "x" sample_run_0 sample_prefill 32 [] out1 sample_run_1 (log sample_run_1) 0); [done|exact (run_of _ _ _ E1)|by vm_compute|by vm_compute| |].
  { do 2 (apply Forall_cons; split; [split; vm_compute; discriminate|]). apply Forall_nil_2. }
  eapply (run_step _ "x" sample_run_1 r 64 [] out2 sample_run_2 (drop 1 (log sample_run_2))); [exact Er|exact (run_of _ _ _ E2)|vm_compute; reflexivity| | |].
  - unfold num_offloadable_tokens. rewrite Hobj, Hmax. by vm_compute.
  - rewrite Hgs. do 2 (apply Forall_cons; split; [split; unfold num_offloadable_tokens; rewrite Hobj, Hmax; vm_compute; discriminate|]). apply Forall_nil_2.
  - unfold num_offloadable_tokens. rewrite Hobj, Hmax. replace (if declined _ then _ else _) with 64 by (vm_compute; reflexivity). apply run_end.
Qed.
(** Three full blocks and the last two of the window are offloaded. *)
Definition sample_stored : list SampleKey := [(10, 0%nat); (11, 0%nat); (12, 0%nat); (11, 1%nat); (12, 1%nat)].
Definition sample_asking : Sched Z SampleKey (list SampleKey) unit := (on_new_request (sample_connector false) 0 (new_sched sample_stored sample_objs true)).2.
Lemma lookup_answers_loadable_witness : ∃ s', get_num_new_matched_tokens (sample_connector false) 0 0 sample_asking = (Ok (Some 48, true), s') ∧
  matched (λ k, Some (bool_decide (k ∈ sample_stored))) (sample_connector false) (sample_objs 0) (Some ∅) 0 48.
Proof.
  assert (E : (get_num_new_matched_tokens (sample_connector false) 0 0 sample_asking).1 = Ok (Some 48, true)) by (vm_compute; reflexivity).
  destruct (lookup_answers_loadable sample_lib sample_laws Z SampleKey (list SampleKey) unit _ _ sample_offload_manager sample_off_lib sample_off_laws
    (λ m, m = sample_stored) (λ k, Some (bool_decide (k ∈ sample_stored))) (sample_connector false) (sample_off_spec false) sample_asking 0 0
    (new_request_state (sample_connector false) 0 (sample_objs 0) (mkCtx "x" None) BLOCK_LEVEL) []) as (y&s'&r'&Es&_&_&_&Hy).
  - intros k ctx m ->. exists sample_stored. split; reflexivity.
  - intros ks ctx m ->. exists sample_stored. split; reflexivity.
  - apply sample_spec_ok.
  - apply sample_connector_made.
  - vm_compute. reflexivity.
  - done.
  - do 2 (apply List.Forall2_cons; [vm_compute; reflexivity|]). apply List.Forall2_nil.
  - apply prefix_nil.
  - done.
  - by vm_compute.
  - by vm_compute.
  - done.
  - rewrite Es in E. cbn [fst] in E. injection E as Ey _. exists s'. split; [rewrite Es; by rewrite Ey|]. exact (Hy 48 Ey).
Defined.

(** A reset between two steps of the request of the session. *)
Lemma reset_strands_jobs_witness : ∃ s1 s2, reset_cache sample_3 = (Ok tt, s1) ∧ finish 0 s1 = (Err KeyError, s2).
Proof.
  assert (E : (reset_cache sample_3).1 = Ok tt) by (vm_compute; reflexivity). exists (reset_cache sample_3).2.
  assert (Er : (λ r, (rq_is_finished (objs sample_3 (rs_req r)), rs_req r, bool_decide (transfer_jobs r = ∅))) <$> od_get "x" (req_status sample_3) = Some (false, 0%nat, false))
    by (vm_compute; reflexivity).
  apply fmap_Some in Er as (r&Er&Hr). destruct (triple_eq _ _ _ _ _ _ Hr) as (Hf&Ho&Ht). apply bool_decide_eq_false in Ht.
  destruct (reset_strands_jobs (sample_connector false) "x" r sample_3 _ (proj2 sample_session) (run_of _ _ _ E) Er Hf Ht) as [s2 H2]. rewrite Ho in H2.
  exists s2. split; [exact (run_of _ _ _ E)|exact H2].
Defined.

(** A windowed draft group whose blocks are small: only the last block of each
    segment is stored, but a lookup of a group that holds its trailing block
    back needs two in a row, and finds nothing to load. *)
Definition segment_spec : OffloadingSpec :=
  mkOffSpec [64; 16] 1 16 false [new_group ["a"] (GLayer (sample_full 64 2 4)); new_group ["b"] (GLayer (sample_window 16 2 4 16))] 1 true true.
Definition segment_connector : Connector :=
  mkConnector (mkSchedCfg [mkOff 0 64 64 4 None None true; mkOff 1 16 16 1 (Some 1) (Some 4) true] 1 1 false) [1%nat] [0%nat; 1%nat] None.
Definition segment_objs (o : nat) : Request Z := mkRequest (if decide (o = O) then "x" else "y") None (seqZ 0 20) 320 320 0 false false.
(** Request x computes all its tokens and its blocks are stored; y has the same
    tokens. *)
Definition segment_session : M SampleState (option Z * bool) :=
  on_new_request segment_connector 0;;
  get_num_new_matched_tokens segment_connector 0 0;;
  build_connector_meta segment_connector (mkOutput [("x", 320)] [] [("x", Some [seqZ 1 5; seqZ 11 20], false)]);;
  update_connector_output [(0, 1)];;
  on_new_request segment_connector 1;;
  get_num_new_matched_tokens segment_connector 1 0.
Example segment_made : new_connector segment_spec = Ok segment_connector.
Proof. vm_compute. reflexivity. Qed.
Example segments_never_hit : (segment_session (new_sched ([], []) segment_objs true)).1 = Ok (Some 0, false) ∧
  (manager (segment_session (new_sched ([], []) segment_objs true)).2).1 ≡ₚ [(3, 0%nat); (7, 0%nat); (11, 0%nat); (15, 0%nat); (3, 1%nat); (7, 1%nat); (11, 1%nat); (15, 1%nat)].
Proof. split; [vm_compute; reflexivity|]. apply (bool_decide_unpack _). vm_compute. exact I. Qed.
