(* ===== verification/CpBuffers.v ===== *)
(** GPU tensors written from the host: the staging tensors and buffer pools of
    src/baseline/vllm/v1/worker/gpu/buffer_utils.py, and the launch of a Triton
    kernel, with what a launch leaves.

    A kernel is a grid of programs.  A program reads tensors that the launch
    does not write and yields what it does to the tensors that it writes: a
    list of [GpuOp]s.  The hardware runs the programs of a grid, and the lanes
    of a program, in any order: [schedule] of the class [Gpu].  An address
    outside of its tensor is an error here ([RuntimeError]); on the hardware it
    is an illegal access or a stray write.  Triton's [//] and [%] on integers
    are those of C, [Z.quot] and [Z.rem]. *)
From S2P Require Import Prelude.
From stdpp Require Import base list gmap sets.
From Stdlib Require Import ZArith Lia.
#[local] Open Scope Z_scope.

(** * Tensors and launches *)

(** What a lane does to a cell: the number of the tensor among those that the
    kernel writes, the address in its cells, the value. *)
Inductive GpuOp :=
  | Store (tensor : nat) (addr v : Z)
  | AtomicAdd (tensor : nat) (addr v : Z).
#[export] Instance gpu_op_eq_dec : EqDecision GpuOp.
Proof. solve_decision. Defined.

Definition op_key (op : GpuOp) : nat * Z := match op with Store t a _ | AtomicAdd t a _ => (t, a) end.
Definition op_update (op : GpuOp) (c : Z) : Z := match op with Store _ _ v => v | AtomicAdd _ _ v => c + v end.

(** A contiguous tensor of two dimensions: the stride of its rows is its
    width. *)
Record GpuTensor := mkTensor { width : Z; cells : list Z }.

(** The hardware, torch and Triton.  [to_device] is [async_tensor_h2d] to an
    int32 tensor, [empty_cells] the contents of [torch.empty]. *)
Class Gpu := {
  schedule : list GpuOp → list GpuOp;
  to_device : list Z → res (list Z);
  uva_available : bool;
  empty_cells : nat → list Z;
  next_power_of_2 : Z → Z }.
Definition is_int32 (v : Z) : Prop := - 2 ^ 31 ≤ v < 2 ^ 31.
Class GpuLaws (G : Gpu) : Prop := {
  schedule_perm ops : schedule ops ≡ₚ ops;
  to_device_int32 l : Forall is_int32 l → to_device l = Ok l;
  empty_cells_length n : length (empty_cells n) = n;
  next_power_of_2_ge n : 0 < n → n ≤ next_power_of_2 n }.

(** [l[a]] of a Python list whose index is not negative. *)
Definition nth_res {A} (l : list A) (i : nat) : res A := res_of_option IndexError (l !! i).

(** [tl.load(ptr + addr)]. *)
Definition load {A} (l : list A) (addr : Z) : res A :=
  if bool_decide (0 ≤ addr) then res_of_option RuntimeError (l !! Z.to_nat addr) else Err RuntimeError.

Definition exec_op (op : GpuOp) (mem : list (list Z)) : res (list (list Z)) :=
  let '(t, a) := op_key op in
  l ← res_of_option RuntimeError (mem !! t);
  c ← load l a;
  Ok (<[t := <[Z.to_nat a := op_update op c]> l]> mem).
Fixpoint exec_ops (ops : list GpuOp) (mem : list (list Z)) : res (list (list Z)) :=
  match ops with [] => Ok mem | op :: ops => mem ← exec_op op mem; exec_ops ops mem end.

(** [kernel[grid](...)]. *)
Definition launch `{Gpu} {P} (grid : list P) (kernel : P → res (list GpuOp)) (mem : list (list Z)) : res (list (list Z)) :=
  opss ← map_res kernel grid;
  exec_ops (schedule (concat opss)) mem.

(** [range(start, stop, step)] and the offsets of the tiles of a loop
    [for i in range(start, stop, BLOCK): offset = i + arange(0, BLOCK)] that
    pass the mask [offset < stop]. *)
Definition py_range (start stop step : Z) : list Z :=
  (λ k, start + k * step) <$> seqZ 0 ((stop - start + step - 1) / step).
Definition arange (n : Z) : list Z := seqZ 0 n.
Definition tile_offsets (start stop BLOCK : Z) : list Z :=
  i ← py_range start stop BLOCK;
  filter (λ offset, offset < stop) (Z.add i <$> arange BLOCK).

(** * Pools of pinned buffers *)

Definition set_default_max_concurrency (n : Z) : Z := Z.max 2 n.

(** [A]: an entry of the first dimension (a number, or a row). *)
Record UvaBufferPool (A : Type) := mkPool { pool_size : nat; uva_bufs : list (list A); curr : nat }.
Arguments mkPool {A} pool_size uva_bufs curr.
Arguments pool_size {A} u.
Arguments uva_bufs {A} u.
Arguments curr {A} u.

(** [uva[:n]]: the number of the buffer and [n]. *)
Definition UvaView : Type := nat * nat.
Definition view_read {A} (p : UvaBufferPool A) (v : UvaView) : list A :=
  match uva_bufs p !! v.1 with Some buf => take v.2 buf | None => [] end.

Definition UvaBuffer_init `{Gpu} {A} (size : nat) (zero : A) : res (list A) :=
  if uva_available then Ok (replicate size zero) else Err RuntimeError.
Definition UvaBufferPool_init `{Gpu} {A} (size : nat) (zero : A) (max_concurrency : nat) : res (UvaBufferPool A) :=
  bufs ← map_res (λ _, UvaBuffer_init size zero) (seq 0 max_concurrency);
  Ok (mkPool size bufs 0).

Definition copy_to_uva {A} (x : list A) : M (UvaBufferPool A) UvaView :=
  p ← get;
  _ ← raise_if (bool_decide (length (uva_bufs p) = 0%nat)) ZeroDivisionError;
  let i := (S (curr p) `mod` length (uva_bufs p))%nat in
  _ ← modify (λ p, mkPool (pool_size p) (uva_bufs p) i);
  buf ← lift (nth_res (uva_bufs p) i);
  _ ← raise_if (bool_decide (length buf < length x)%nat) ValueError;
  _ ← modify (λ p, mkPool (pool_size p) (<[i := x ++ drop (length x) buf]> (uva_bufs p)) (curr p));
  mret (i, length x).

(** A tensor whose source of truth is on the host ([np]); the GPU reads the
    last copy. *)
Record UvaBackedTensor := mkBacked { np : list (list Z); pool : UvaBufferPool (list Z); gpu_view : UvaView }.
Definition UvaBackedTensor_init `{Gpu} (rows width max_concurrency : nat) : res UvaBackedTensor :=
  let zeros := replicate rows (replicate width 0) in
  p ← UvaBufferPool_init rows (replicate width 0) max_concurrency;
  match copy_to_uva zeros p with
  | (Ok v, p) => Ok (mkBacked zeros p v)
  | (Err e, _) => Err e
  end.
Definition backed_gpu (t : UvaBackedTensor) : list (list Z) := view_read (pool t) (gpu_view t).
(** [copy_to_uva()]. *)
Definition publish_np : M UvaBackedTensor unit := λ t,
  match copy_to_uva (np t) (pool t) with
  | (Ok v, p) => (Ok tt, mkBacked (np t) p v)
  | (Err e, p) => (Err e, mkBacked (np t) p (gpu_view t))
  end.

(** * Staged writes *)

Record StagedWriteTensor := mkStaged {
  gpu : GpuTensor; num_rows : nat;
  staged_write_indices : list Z; staged_write_starts : list Z;
  staged_write_contents : list Z; staged_write_cu_lens : list Z;
  write_indices : UvaBufferPool Z; write_starts : UvaBufferPool Z; write_cu_lens : UvaBufferPool Z }.

(** For a tensor of two dimensions on the GPU. *)
Definition StagedWriteTensor_init `{Gpu} (rows width : Z) (max_concurrency : nat) : res StagedWriteTensor :=
  if bool_decide (rows < 0 ∨ width < 0) then Err RuntimeError
  else
    let n := Z.to_nat rows in
    i ← UvaBufferPool_init n 0 max_concurrency;
    s ← UvaBufferPool_init n 0 max_concurrency;
    c ← UvaBufferPool_init n 0 max_concurrency;
    Ok (mkStaged (mkTensor width (replicate (n * Z.to_nat width) 0)) n [] [] [] [] i s c).

Definition push_staged (index start : Z) (x : list Z) (t : StagedWriteTensor) : StagedWriteTensor :=
  let contents := staged_write_contents t ++ x in
  mkStaged (gpu t) (num_rows t) (staged_write_indices t ++ [index]) (staged_write_starts t ++ [start])
    contents (staged_write_cu_lens t ++ [Z.of_nat (length contents)])
    (write_indices t) (write_starts t) (write_cu_lens t).
Definition stage_write (index start : Z) (x : list Z) : M StagedWriteTensor unit :=
  _ ← assert_ (bool_decide (0 ≤ index));
  _ ← assert_ (bool_decide (0 ≤ start));
  match x with [] => mret tt | _ => modify (push_staged index start x) end.
Definition stage_write_elem (index x : Z) : M StagedWriteTensor unit :=
  _ ← assert_ (bool_decide (0 ≤ index));
  modify (push_staged index 0 [x]).

Definition clear_staged_writes (t : StagedWriteTensor) : StagedWriteTensor :=
  mkStaged (gpu t) (num_rows t) [] [] [] [] (write_indices t) (write_starts t) (write_cu_lens t).

(** The program [pid].  [group_ids] is [None] for [MULTI_GROUP=False]; the
    strides are those of the tensors that are written. *)
Definition _apply_write_kernel (strides : list Z) (write_indices_ptr write_starts_ptr write_contents_ptr write_cu_lens_ptr : list Z)
    (group_ids : option (list Z)) (BLOCK_SIZE pid : Z) : res (list GpuOp) :=
  row_idx ← load write_indices_ptr pid;
  start_idx ← load write_starts_ptr pid;
  cu_start ← (if bool_decide (0 < pid) then load write_cu_lens_ptr (pid - 1) else Ok 0);
  cu_end ← load write_cu_lens_ptr pid;
  let content_len := cu_end - cu_start in
  group_id ← (match group_ids with Some ids => load ids pid | None => Ok 0 end);
  row_stride ← load strides group_id;
  let row := row_idx * row_stride + start_idx in
  map_res (λ block,
    content ← load write_contents_ptr (cu_start + block);
    Ok (Store (Z.to_nat group_id) (row + block) content)) (tile_offsets 0 content_len BLOCK_SIZE).

(** [self._pool.copy_to_uva(x)] for a pool that is a field. *)
Definition copy_in {S A} (field : S → UvaBufferPool A) (set_field : UvaBufferPool A → S → S) (x : list A) : M S (list A) :=
  λ s, let '(r, p) := copy_to_uva x (field s) in
       match r with Ok v => (Ok (view_read p v), set_field p s) | Err e => (Err e, set_field p s) end.
Definition set_gpu_cells (l : list Z) (t : StagedWriteTensor) : StagedWriteTensor :=
  mkStaged (mkTensor (width (gpu t)) l) (num_rows t) (staged_write_indices t) (staged_write_starts t)
    (staged_write_contents t) (staged_write_cu_lens t) (write_indices t) (write_starts t) (write_cu_lens t).
Definition set_write_indices p (t : StagedWriteTensor) := mkStaged (gpu t) (num_rows t) (staged_write_indices t)
  (staged_write_starts t) (staged_write_contents t) (staged_write_cu_lens t) p (write_starts t) (write_cu_lens t).
Definition set_write_starts p (t : StagedWriteTensor) := mkStaged (gpu t) (num_rows t) (staged_write_indices t)
  (staged_write_starts t) (staged_write_contents t) (staged_write_cu_lens t) (write_indices t) p (write_cu_lens t).
Definition set_write_cu_lens p (t : StagedWriteTensor) := mkStaged (gpu t) (num_rows t) (staged_write_indices t)
  (staged_write_starts t) (staged_write_contents t) (staged_write_cu_lens t) (write_indices t) (write_starts t) p.

Definition apply_write `{Gpu} : M StagedWriteTensor unit :=
  t ← get;
  let n := length (staged_write_indices t) in
  if bool_decide (n = 0%nat) then mret tt
  else
    indices_uva ← copy_in write_indices set_write_indices (staged_write_indices t);
    starts_uva ← copy_in write_starts set_write_starts (staged_write_starts t);
    cu_lens_uva ← copy_in write_cu_lens set_write_cu_lens (staged_write_cu_lens t);
    contents ← lift (to_device (staged_write_contents t));
    mem ← lift (launch (seqZ 0 (Z.of_nat n))
      (_apply_write_kernel [width (gpu t)] indices_uva starts_uva contents cu_lens_uva None 1024) [cells (gpu t)]);
    l ← lift (nth_res mem 0);
    _ ← modify (set_gpu_cells l);
    modify clear_staged_writes.

Record FusedStagedWriter := mkFused {
  f_group_ids : UvaBufferPool Z; f_indices : UvaBufferPool Z; f_starts : UvaBufferPool Z; f_cu_lens : UvaBufferPool Z }.
Definition FusedStagedWriter_init `{Gpu} (max_writes max_concurrency : nat) : res FusedStagedWriter :=
  g ← UvaBufferPool_init max_writes 0 max_concurrency;
  i ← UvaBufferPool_init max_writes 0 max_concurrency;
  s ← UvaBufferPool_init max_writes 0 max_concurrency;
  c ← UvaBufferPool_init max_writes 0 max_concurrency;
  Ok (mkFused g i s c).

(** The arguments of the fused launch, gathered over the tensors. *)
Record Fused := mkArgs { group_ids : list Z; indices : list Z; starts : list Z; contents : list Z; cu_lens : list Z }.
Definition fuse_one (acc : Fused) (gt : nat * StagedWriteTensor) : Fused :=
  let '(group_id, t) := gt in
  let n := length (staged_write_indices t) in
  if bool_decide (n = 0%nat) then acc
  else
    let content_base := Z.of_nat (length (contents acc)) in
    mkArgs (group_ids acc ++ replicate n (Z.of_nat group_id)) (indices acc ++ staged_write_indices t)
      (starts acc ++ staged_write_starts t) (contents acc ++ staged_write_contents t)
      (cu_lens acc ++ (Z.add content_base <$> staged_write_cu_lens t)).
Definition enumerate {A} (l : list A) : list (nat * A) := zip (seq 0 (length l)) l.
Definition fuse (tensors : list StagedWriteTensor) : Fused := foldl fuse_one (mkArgs [] [] [] [] []) (enumerate tensors).

Definition set_f_group_ids p (w : FusedStagedWriter) := mkFused p (f_indices w) (f_starts w) (f_cu_lens w).
Definition set_f_indices p (w : FusedStagedWriter) := mkFused (f_group_ids w) p (f_starts w) (f_cu_lens w).
Definition set_f_starts p (w : FusedStagedWriter) := mkFused (f_group_ids w) (f_indices w) p (f_cu_lens w).
Definition set_f_cu_lens p (w : FusedStagedWriter) := mkFused (f_group_ids w) (f_indices w) (f_starts w) p.

(** [apply]: the pools are the state, the tensors after it the result. *)
Definition fused_apply `{Gpu} (tensors : list StagedWriteTensor) : M FusedStagedWriter (list StagedWriteTensor) :=
  let a := fuse tensors in
  match group_ids a with
  | [] => mret tensors
  | _ =>
    group_ids_uva ← copy_in f_group_ids set_f_group_ids (group_ids a);
    indices_uva ← copy_in f_indices set_f_indices (indices a);
    starts_uva ← copy_in f_starts set_f_starts (starts a);
    cu_lens_uva ← copy_in f_cu_lens set_f_cu_lens (cu_lens a);
    contents_gpu ← lift (to_device (contents a));
    mem ← lift (launch (seqZ 0 (Z.of_nat (length (group_ids a))))
      (_apply_write_kernel (width ∘ gpu <$> tensors) indices_uva starts_uva contents_gpu cu_lens_uva (Some group_ids_uva) 1024)
      (cells ∘ gpu <$> tensors));
    mret (zip_with (λ t l, clear_staged_writes (set_gpu_cells l t)) tensors mem)
  end.

(** * What a launch leaves

    What a kernel leaves does not depend on the order in which the
    hardware runs its programs, as long as every cell is stored to once or only
    added to; the tiles of a loop; the pools of pinned buffers. *)

(** * Loops of a program *)

Lemma filter_lt_seqZ i n stop : filter (λ o, o < stop) (seqZ i n) = seqZ i (Z.min n (stop - i)).
Proof.
  destruct (Z.le_gt_cases n (stop - i)).
  - rewrite Z.min_l by lia. apply filter_all. intros x Hx%elem_of_seqZ. lia.
  - rewrite Z.min_r by lia. destruct (Z.le_gt_cases 0 (stop - i)).
    + replace n with ((stop - i) + (n - (stop - i))) at 1 by lia.
      rewrite seqZ_app by lia. rewrite filter_app. rewrite filter_all by (intros x Hx%elem_of_seqZ; lia).
      rewrite filter_none by (intros x Hx%elem_of_seqZ; lia). by rewrite app_nil_r.
    + rewrite (seqZ_nil i (stop - i)) by lia. apply filter_none. intros x Hx%elem_of_seqZ. lia.
Qed.

Lemma seqZ_fmap_add i n : Z.add i <$> seqZ 0 n = seqZ i n.
Proof. rewrite fmap_add_seqZ. by rewrite Z.add_0_r. Qed.

Lemma tiles_cover BLOCK start stop (k : nat) :
  0 < BLOCK →
  (i ← (λ k, start + k * BLOCK) <$> seqZ 0 (Z.of_nat k); filter (λ o, o < stop) (Z.add i <$> arange BLOCK))
  = seqZ start (Z.min (Z.of_nat k * BLOCK) (stop - start)).
Proof.
  intros HB. induction k as [|k IH].
  { cbn. rewrite (seqZ_nil start); [done|]. lia. }
  rewrite Nat2Z.inj_succ, <- Z.add_1_r. rewrite seqZ_app by lia. rewrite fmap_app, bind_app, IH.
  rewrite (seqZ_cons (0 + _) 1), (seqZ_nil (Z.succ _)) by lia. cbn [fmap list_fmap mbind list_bind].
  rewrite app_nil_r. unfold arange. rewrite seqZ_fmap_add, filter_lt_seqZ.
  destruct (Z.le_gt_cases (stop - start) (Z.of_nat k * BLOCK)).
  - rewrite (seqZ_nil (start + _)) by lia. rewrite app_nil_r. f_equal. nia.
  - rewrite Z.min_l by lia.
    replace (Z.min ((Z.of_nat k + 1) * BLOCK) (stop - start))
      with (Z.of_nat k * BLOCK + Z.min BLOCK (stop - start - Z.of_nat k * BLOCK)) by nia.
    rewrite (seqZ_app start) by nia. f_equal. f_equal; lia.
Qed.

(** The lanes of the tiles are the offsets from [start] to [stop], in order. *)
Lemma tile_offsets_seqZ start stop BLOCK : 0 < BLOCK → tile_offsets start stop BLOCK = seqZ start (stop - start).
Proof.
  intros HB. unfold tile_offsets, py_range.
  destruct (Z.le_gt_cases (stop - start) 0) as [Hle|Hgt].
  { rewrite (seqZ_nil start) by lia. rewrite (seqZ_nil 0 ((stop - start + BLOCK - 1) / BLOCK)); [done|].
    apply Z.lt_succ_r, Z.div_lt_upper_bound; lia. }
  set (m := (stop - start + BLOCK - 1) / BLOCK).
  assert (0 ≤ m) by (apply Z.div_pos; lia).
  pose proof (tiles_cover BLOCK start stop (Z.to_nat m) HB) as H1. rewrite Z2Nat.id in H1 by lia. rewrite H1. f_equal.
  apply Z.min_r. subst m. pose proof (Z.div_mod (stop - start + BLOCK - 1) BLOCK ltac:(lia)).
  pose proof (Z.mod_pos_bound (stop - start + BLOCK - 1) BLOCK HB). lia.
Qed.

Lemma load_ok {A} (l : list A) a v : load l a = Ok v ↔ 0 ≤ a ∧ l !! Z.to_nat a = Some v.
Proof. unfold load. case_bool_decide; [|naive_solver lia]. destruct (l !! Z.to_nat a); cbn; naive_solver. Qed.
Lemma load_of_nat {A} (l : list A) i v : l !! i = Some v → load l (Z.of_nat i) = Ok v.
Proof. intros Hl. apply load_ok. rewrite Nat2Z.id. split; [lia|done]. Qed.
Lemma load_total {A} (l : list A) a : 0 ≤ a < Z.of_nat (length l) → ∃ v, load l a = Ok v.
Proof.
  intros Ha. destruct (lookup_lt_is_Some_2 l (Z.to_nat a) ltac:(lia)) as [v Hv]. exists v. apply load_ok. split; [lia|done].
Qed.


(** Equal images at two members are one member. *)
Lemma NoDup_fmap_inj {A B} (f : A → B) (l : list A) x y : NoDup (f <$> l) → x ∈ l → y ∈ l → f x = f y → x = y.
Proof.
  intros Hnd Hx Hy E. apply list_elem_of_lookup in Hx as [i Hi]. apply list_elem_of_lookup in Hy as [j Hj].
  assert (i = j) as ->; [|congruence]. apply (NoDup_lookup (f <$> l) i j (f x) Hnd).
  - by rewrite list_lookup_fmap, Hi.
  - by rewrite list_lookup_fmap, Hj, E.
Qed.

(** * Memory *)

Definition cell (mem : list (list Z)) (k : nat * Z) : option Z :=
  l ← mem !! k.1; if bool_decide (0 ≤ k.2) then l !! Z.to_nat k.2 else None.
Definition same_shape (mem mem' : list (list Z)) : Prop := length <$> mem' = length <$> mem.
(** The operations on one cell. *)
Definition ops_at (k : nat * Z) (ops : list GpuOp) : list GpuOp := filter (λ op, op_key op = k) ops.

Lemma cell_Some mem t a c : cell mem (t, a) = Some c ↔ ∃ l, mem !! t = Some l ∧ 0 ≤ a ∧ l !! Z.to_nat a = Some c.
Proof. unfold cell. cbn. destruct (mem !! t); cbn; [|naive_solver]. case_bool_decide; naive_solver. Qed.
Lemma cell_is_Some mem t a l : mem !! t = Some l → 0 ≤ a < Z.of_nat (length l) → is_Some (cell mem (t, a)).
Proof.
  intros Hl Ha. destruct (lookup_lt_is_Some_2 l (Z.to_nat a) ltac:(lia)) as [v Hv].
  exists v. apply cell_Some. exists l. split_and!; [done|lia|done].
Qed.

Lemma exec_op_spec op mem c : cell mem (op_key op) = Some c →
  ∃ mem', exec_op op mem = Ok mem' ∧ same_shape mem mem' ∧
    ∀ k, cell mem' k = if decide (op_key op = k) then Some (op_update op c) else cell mem k.
Proof.
  unfold exec_op. destruct (op_key op) as [t a] eqn:Hk. intros (l & Hl & Ha & Hc)%cell_Some.
  rewrite Hl. cbn [res_of_option mbind res_bind].
  rewrite (proj2 (load_ok l a c)) by done. cbn [mbind res_bind].
  eexists. split; [done|]. split.
  - unfold same_shape. rewrite list_fmap_insert, length_insert. apply list_insert_id. by rewrite list_lookup_fmap, Hl.
  - intros [t' a']. case_decide as Hd.
    + injection Hd as <- <-. apply cell_Some. eexists. rewrite list_lookup_insert_eq by (by eapply lookup_lt_Some).
      split_and!; [done|done|]. apply list_lookup_insert_eq. by eapply lookup_lt_Some.
    + unfold cell. cbn. destruct (decide (t = t')) as [<-|Ht].
      * rewrite list_lookup_insert_eq by (by eapply lookup_lt_Some). rewrite Hl. cbn. case_bool_decide; [|done].
        apply list_lookup_insert_ne. intros ?. apply Hd. f_equal. lia.
      * by rewrite list_lookup_insert_ne.
Qed.

Lemma exec_ops_spec ops mem : (∀ op, op ∈ ops → is_Some (cell mem (op_key op))) →
  ∃ mem', exec_ops ops mem = Ok mem' ∧ same_shape mem mem' ∧
    ∀ k, cell mem' k = (λ c, foldl (λ c op, op_update op c) c (ops_at k ops)) <$> cell mem k.
Proof.
  revert mem. induction ops as [|op ops IH]; intros mem Hin.
  { exists mem. split_and!; [done|done|]. intros k. cbn. by destruct (cell mem k). }
  destruct (Hin op ltac:(by left)) as [c Hc]. destruct (exec_op_spec op mem c Hc) as (m1 & Hr & Hs & Hm).
  destruct (IH m1) as (m2 & Hr2 & Hs2 & Hm2).
  { intros op' Hop'. rewrite Hm. case_decide; [by eexists|]. apply Hin. by right. }
  exists m2. cbn [exec_ops]. rewrite Hr. cbn [mbind res_bind]. split_and!; [done|unfold same_shape in *; congruence|].
  intros k. rewrite Hm2, Hm. unfold ops_at. rewrite filter_cons. case_decide as Hd; [|done].
  subst k. rewrite Hc. done.
Qed.

Lemma ops_at_perm k ops ops' : ops ≡ₚ ops' → ops_at k ops ≡ₚ ops_at k ops'.
Proof. intros H. unfold ops_at. by rewrite H. Qed.
Lemma ops_at_once op ops : NoDup (op_key <$> ops) → op ∈ ops → ops_at (op_key op) ops = [op].
Proof.
  induction ops as [|o ops IH]; [set_solver|]. rewrite fmap_cons. intros [Hn Hnd]%NoDup_cons [->|Hin]%elem_of_cons; unfold ops_at.
  - rewrite filter_cons_True by done. f_equal. apply filter_none. intros x Hx E. apply Hn. rewrite <- E.
    apply list_elem_of_fmap. eauto.
  - rewrite filter_cons_False; [by apply IH|]. intros E. apply Hn. rewrite E. apply list_elem_of_fmap. eauto.
Qed.
Lemma ops_at_none k ops : k ∉ op_key <$> ops → ops_at k ops = [].
Proof.
  intros Hn. apply filter_none. intros x Hx E. apply Hn. rewrite <- E. apply list_elem_of_fmap. eauto.
Qed.

(** * Launches *)

Lemma concat_fmap {A B} (f : A → list B) l : concat (f <$> l) = l ≫= f.
Proof. induction l as [|x l IH]; [done|]. cbn. by rewrite <- IH. Qed.

Section launch.
Context {G : Gpu} {GL : GpuLaws G}.
Context {P : Type} (grid : list P) (kernel : P → res (list GpuOp)) (f : P → list GpuOp) (mem : list (list Z)).
Hypothesis Hkernel : ∀ p, p ∈ grid → kernel p = Ok (f p).
Hypothesis Hin : ∀ p op, p ∈ grid → op ∈ f p → is_Some (cell mem (op_key op)).

(** Whatever the order, a cell gets the operations that the programs have for
    it. *)
Lemma launch_spec : ∃ mem', launch grid kernel mem = Ok mem' ∧ same_shape mem mem' ∧
  ∀ k, ∃ l, l ≡ₚ ops_at k (grid ≫= f) ∧ cell mem' k = (λ c, foldl (λ c op, op_update op c) c l) <$> cell mem k.
Proof using All.
  unfold launch. rewrite (map_res_ok kernel f grid Hkernel). cbn [mbind res_bind]. rewrite concat_fmap.
  destruct (exec_ops_spec (schedule (grid ≫= f)) mem) as (mem' & Hr & Hs & Hm).
  { intros op. rewrite schedule_perm. intros (p & Ho & Hp)%list_elem_of_bind. by apply (Hin p). }
  exists mem'. split_and!; [done|done|]. intros k. exists (ops_at k (schedule (grid ≫= f))).
  split; [|done]. apply ops_at_perm, schedule_perm.
Qed.

(** Every cell is stored to at most once: it holds what is stored, or what it
    held. *)
Lemma launch_stores : NoDup (op_key <$> (grid ≫= f)) →
  ∃ mem', launch grid kernel mem = Ok mem' ∧ same_shape mem mem' ∧
    (∀ t a v, Store t a v ∈ grid ≫= f → cell mem' (t, a) = Some v) ∧
    (∀ k, k ∉ op_key <$> (grid ≫= f) → cell mem' k = cell mem k).
Proof using All.
  intros Hnd. destruct launch_spec as (mem' & Hr & Hs & Hm). exists mem'. split_and!; [done|done| |].
  - intros t a v Hv. destruct (Hm (t, a)) as (l & Hl & ->).
    pose proof (ops_at_once (Store t a v) _ Hnd Hv) as E. cbn [op_key] in E. rewrite E in Hl. apply Permutation_singleton_r in Hl as ->.
    destruct (proj1 (list_elem_of_bind _ _ _) Hv) as (p & Ho & Hp). destruct (Hin p _ Hp Ho) as [c Hc].
    cbn in Hc. rewrite Hc. done.
  - intros k Hk. destruct (Hm k) as (l & Hl & ->). rewrite (ops_at_none k _ Hk) in Hl.
    apply Permutation_nil_r in Hl as ->. cbn. by destruct (cell mem k).
Qed.
End launch.

(** Additions commute. *)
Lemma foldl_adds (l : list GpuOp) c : (∀ op, op ∈ l → ∃ t a v, op = AtomicAdd t a v) →
  foldl (λ c op, op_update op c) c l = c + zsum ((λ op, op_update op 0) <$> l).
Proof.
  revert c. induction l as [|op l IH]; intros c Hl; [cbn; lia|]. cbn [foldl fmap list_fmap].
  rewrite IH by (intros o Ho; apply Hl; by right). destruct (Hl op ltac:(by left)) as (t & a & v & ->). unfold zsum. cbn. lia.
Qed.

Lemma fmap_list_bind {A B C} (g : B → C) (f : A → list B) (l : list A) : g <$> (l ≫= f) = l ≫= λ x, g <$> f x.
Proof. induction l as [|x l IH]; [done|]. cbn. by rewrite fmap_app, IH. Qed.

(** Keys of a grid are distinct when those of a program are and two programs
    that share one are the same. *)
Lemma NoDup_grid {P} (grid : list P) (f : P → list GpuOp) :
  NoDup grid → (∀ p, p ∈ grid → NoDup (op_key <$> f p)) →
  (∀ p q o o', p ∈ grid → q ∈ grid → o ∈ f p → o' ∈ f q → op_key o = op_key o' → p = q) →
  NoDup (op_key <$> (grid ≫= f)).
Proof.
  intros Hg Hf Hpq. rewrite fmap_list_bind. apply NoDup_bind; [|done|done].
  intros p q k Hp Hq (o & -> & Ho)%list_elem_of_fmap (o' & E & Ho')%list_elem_of_fmap. by apply (Hpq p q o o').
Qed.

(** Two memories of one shape. *)
Lemma same_shape_lookup mem mem' g l : same_shape mem mem' → mem !! g = Some l → ∃ l', mem' !! g = Some l' ∧ length l' = length l.
Proof.
  intros Hs Hl. assert (E : (length <$> mem') !! g = Some (length l)) by (rewrite Hs, list_lookup_fmap, Hl; done).
  rewrite list_lookup_fmap in E. destruct (mem' !! g) as [l'|]; [|done]. injection E as E. eauto.
Qed.
Lemma same_shape_length mem mem' : same_shape mem mem' → length mem' = length mem.
Proof. intros Hs. apply (f_equal length) in Hs. by rewrite !length_fmap in Hs. Qed.
Lemma cell_lookup mem g l (a : nat) : mem !! g = Some l → cell mem (g, Z.of_nat a) = l !! a.
Proof. intros Hl. unfold cell. cbn. rewrite Hl. cbn. rewrite bool_decide_eq_true_2 by lia. by rewrite Nat2Z.id. Qed.
