(* ===== verification/CpTables.v ===== *)
(** The KV block tables of a worker: [BlockTables] of
    src/runtime/vllm029/overlay/vllm/v1/worker/gpu/block_table.py, its two
    kernels included.  Every cache group has a table of one row per request,
    whose cells are the numbers of the kernel blocks that hold the request's
    tokens; under context parallelism a group keeps on each rank only the
    tokens of that rank. *)
From S2P Require Import Prelude CpBuffers.
From stdpp Require Import base list gmap sets.
From Stdlib Require Import ZArith Lia.
#[local] Open Scope Z_scope.

Record BlockTables := mkBT {
  block_sizes : list Z; kernel_block_sizes : list Z;
  max_num_reqs : Z; max_num_batched_tokens : Z;
  cp_size : Z; cp_rank : Z; cp_interleave : Z;
  cp_sizes : list Z; slot_mapping_enabled : list bool; blocks_per_kv_block : list Z;
  block_tables : list StagedWriteTensor;
  num_blocks : UvaBackedTensor;
  fused_writer : option FusedStagedWriter;
  input_block_tables : list GpuTensor;
  slot_mappings : GpuTensor }.
Definition num_kv_cache_groups (b : BlockTables) : nat := length (block_sizes b).

Definition set_tables l (b : BlockTables) := mkBT (block_sizes b) (kernel_block_sizes b) (max_num_reqs b)
  (max_num_batched_tokens b) (cp_size b) (cp_rank b) (cp_interleave b) (cp_sizes b) (slot_mapping_enabled b)
  (blocks_per_kv_block b) l (num_blocks b) (fused_writer b) (input_block_tables b) (slot_mappings b).
Definition set_num_blocks n (b : BlockTables) := mkBT (block_sizes b) (kernel_block_sizes b) (max_num_reqs b)
  (max_num_batched_tokens b) (cp_size b) (cp_rank b) (cp_interleave b) (cp_sizes b) (slot_mapping_enabled b)
  (blocks_per_kv_block b) (block_tables b) n (fused_writer b) (input_block_tables b) (slot_mappings b).
Definition set_fused_writer w (b : BlockTables) := mkBT (block_sizes b) (kernel_block_sizes b) (max_num_reqs b)
  (max_num_batched_tokens b) (cp_size b) (cp_rank b) (cp_interleave b) (cp_sizes b) (slot_mapping_enabled b)
  (blocks_per_kv_block b) (block_tables b) (num_blocks b) w (input_block_tables b) (slot_mappings b).
Definition set_inputs l (b : BlockTables) := mkBT (block_sizes b) (kernel_block_sizes b) (max_num_reqs b)
  (max_num_batched_tokens b) (cp_size b) (cp_rank b) (cp_interleave b) (cp_sizes b) (slot_mapping_enabled b)
  (blocks_per_kv_block b) (block_tables b) (num_blocks b) (fused_writer b) l (slot_mappings b).
Definition set_slot_mappings t (b : BlockTables) := mkBT (block_sizes b) (kernel_block_sizes b) (max_num_reqs b)
  (max_num_batched_tokens b) (cp_size b) (cp_rank b) (cp_interleave b) (cp_sizes b) (slot_mapping_enabled b)
  (blocks_per_kv_block b) (block_tables b) (num_blocks b) (fused_writer b) (input_block_tables b) t.

(** * Construction *)

Definition zeros_like (t : GpuTensor) : GpuTensor := mkTensor (width t) (replicate (length (cells t)) 0).

Section init.
Context `{Gpu}.

(** [cp_sizes] after its check. *)
Definition group_cp_sizes (groups : nat) (cp_size : Z) (cp_sizes : option (list Z)) : res (list Z) :=
  let sizes := match cp_sizes with Some l => l | None => replicate groups cp_size end in
  if negb (length sizes =? groups)%nat || existsb (λ size, negb (bool_decide (size ∈ [1; cp_size]))) sizes
  then Err ValueError else Ok sizes.

Definition table_init (max_num_reqs : Z) (max_num_blocks_per_group blocks_per_kv_block : list Z) (max_concurrency : nat) (i : nat) :
    res StagedWriteTensor :=
  m ← nth_res max_num_blocks_per_group i;
  bpk ← nth_res blocks_per_kv_block i;
  StagedWriteTensor_init max_num_reqs (m * bpk) max_concurrency.

Definition BlockTables_init (block_sizes : list Z) (max_num_reqs max_num_batched_tokens : Z) (max_num_blocks_per_group : list Z)
    (kernel_block_sizes : list Z) (cp_size cp_rank cp_interleave : Z)
    (slot_mapping_enabled : option (list bool)) (cp_sizes : option (list Z)) (default_max_concurrency : nat) : res BlockTables :=
  let groups := length block_sizes in
  sizes ← group_cp_sizes groups cp_size cp_sizes;
  _ ← check (length max_num_blocks_per_group =? groups)%nat;
  let enabled := match slot_mapping_enabled with Some l => l | None => replicate groups true end in
  _ ← check (length enabled =? groups)%nat;
  bpk ← map_res (λ p, floordiv p.1 p.2) (zip block_sizes kernel_block_sizes);
  tables ← map_res (table_init max_num_reqs max_num_blocks_per_group bpk default_max_concurrency) (seq 0 groups);
  nb ← (if bool_decide (max_num_reqs < 0) then Err RuntimeError
        else UvaBackedTensor_init groups (Z.to_nat max_num_reqs) default_max_concurrency);
  writer ← (if bool_decide (1 < groups)%nat
            then w ← FusedStagedWriter_init (groups * Z.to_nat max_num_reqs) default_max_concurrency; Ok (Some w)
            else Ok None);
  if bool_decide (max_num_batched_tokens < 0) then Err RuntimeError
  else Ok (mkBT block_sizes kernel_block_sizes max_num_reqs max_num_batched_tokens cp_size cp_rank cp_interleave
    sizes enabled bpk tables nb writer (zeros_like ∘ gpu <$> tables)
    (mkTensor max_num_batched_tokens (replicate (groups * Z.to_nat max_num_batched_tokens) 0))).
End init.

(** * Blocks of requests *)

(** [num_blocks.np[i, req_index]]. *)
Definition np_get (l : list (list Z)) (i : nat) (req_index : Z) : res Z := row ← nth_res l i; nth_res row (Z.to_nat req_index).
Definition np_set (i : nat) (req_index v : Z) (t : UvaBackedTensor) : UvaBackedTensor :=
  mkBacked (alter (<[Z.to_nat req_index := v]>) i (np t)) (pool t) (gpu_view t).

Definition first_column (b : BlockTables) (req_index : Z) (overwrite : bool) (i : nat) : res Z :=
  if overwrite then Ok 0 else np_get (np (num_blocks b)) i req_index.

(** A pass of the loop that validates. *)
Definition validate_group (b : BlockTables) (req_index : Z) (overwrite : bool) (g : nat * list Z) : res unit :=
  let '(i, block_ids) := g in
  start ← first_column b req_index overwrite i;
  bpk ← nth_res (blocks_per_kv_block b) i;
  let end_ := start + Z.of_nat (length block_ids) * bpk in
  t ← nth_res (block_tables b) i;
  if bool_decide (0 ≤ start ∧ start ≤ end_ ∧ end_ ≤ width (gpu t)) then Ok tt else Err ValueError.

(** [[b * bpk + k for b in block_ids for k in range(bpk)]] when [bpk > 1]. *)
Definition expand (bpk : Z) (block_ids : list Z) : list Z :=
  if bool_decide (1 < bpk) then b ← block_ids; (λ k, b * bpk + k) <$> seqZ 0 bpk else block_ids.

(** [m] on the table [i]. *)
Definition on_table {A} (i : nat) (m : M StagedWriteTensor A) : M BlockTables A := λ b,
  match block_tables b !! i with
  | None => (Err IndexError, b)
  | Some t => let '(r, t) := m t in (r, set_tables (<[i := t]> (block_tables b)) b)
  end.

(** A pass of the loop that stages. *)
Definition stage_group (req_index : Z) (overwrite : bool) (new_block_ids : list (list Z)) (i : nat) : M BlockTables unit :=
  b ← get;
  start ← lift (first_column b req_index overwrite i);
  block_ids ← lift (nth_res new_block_ids i);
  bpk ← lift (nth_res (blocks_per_kv_block b) i);
  let block_ids := expand bpk block_ids in
  _ ← on_table i (stage_write req_index start block_ids);
  modify (λ b, set_num_blocks (np_set i req_index (start + Z.of_nat (length block_ids)) (num_blocks b)) b).

Definition append_block_ids (req_index : Z) (new_block_ids : list (list Z)) (overwrite : bool) : M BlockTables unit :=
  b ← get;
  _ ← raise_if (negb (bool_decide (0 ≤ req_index < max_num_reqs b))
                || negb (length new_block_ids =? num_kv_cache_groups b)%nat) ValueError;
  _ ← for_each (enumerate new_block_ids) (λ g, lift (validate_group b req_index overwrite g));
  for_each (seq 0 (num_kv_cache_groups b)) (stage_group req_index overwrite new_block_ids).

(** [m] on the counts. *)
Definition on_num_blocks {A} (m : M UvaBackedTensor A) : M BlockTables A := λ b,
  let '(r, t) := m (num_blocks b) in (r, set_num_blocks t b).
(** [self.fused_writer.apply(self.block_tables, ...)]. *)
Definition apply_fused `{Gpu} : M BlockTables unit := λ b,
  match fused_writer b with
  | None => (Err AssertionError, b)
  | Some w => match fused_apply (block_tables b) w with
              | (Ok l, w) => (Ok tt, set_tables l (set_fused_writer (Some w) b))
              | (Err e, w) => (Err e, set_fused_writer (Some w) b)
              end
  end.
Definition apply_staged_writes `{Gpu} : M BlockTables unit :=
  b ← get;
  if (num_kv_cache_groups b =? 0)%nat then mret tt
  else
    _ ← (if (num_kv_cache_groups b =? 1)%nat then on_table 0 apply_write else apply_fused);
    on_num_blocks publish_np.

(** * The tables of a step *)

(** [t[:n]]. *)
Definition first_rows (n : Z) (t : GpuTensor) : GpuTensor := mkTensor (width t) (take (Z.to_nat (n * width t)) (cells t)).

(** The program [(group_id, batch_idx)]. *)
Definition _gather_block_tables_kernel (batch_idx_to_req_idx : list Z) (src_block_tables : list (list Z)) (block_table_strides : list Z)
    (num_blocks : list Z) (num_blocks_stride num_reqs BLOCK_SIZE : Z) (pid : nat * Z) : res (list GpuOp) :=
  let '(group_id, batch_idx) := pid in
  stride ← load block_table_strides (Z.of_nat group_id);
  let max_num_blocks := stride in
  let dst_row := batch_idx * stride in
  if bool_decide (num_reqs ≤ batch_idx) then
    Ok ((λ offset, Store group_id (dst_row + offset) 0) <$> tile_offsets 0 max_num_blocks BLOCK_SIZE)
  else
    req_idx ← load batch_idx_to_req_idx batch_idx;
    n ← load num_blocks (Z.of_nat group_id * num_blocks_stride + req_idx);
    let num_blocks := Z.min n max_num_blocks in
    src ← load src_block_tables (Z.of_nat group_id);
    let src_row := req_idx * stride in
    map_res (λ offset,
      block_id ← load src (src_row + offset);
      Ok (Store group_id (dst_row + offset) block_id)) (tile_offsets 0 num_blocks BLOCK_SIZE).

(** [kernel[(n, m)]]. *)
Definition grid2 (n : nat) (m : Z) : list (nat * Z) := i ← seq 0 n; (λ j, (i, j)) <$> seqZ 0 m.

(** [out] and whether [out_ptrs] is given. *)
Definition gather_block_tables `{Gpu} (idx_mapping : list Z) (num_reqs_padded : Z) (out : option (list GpuTensor)) (out_ptrs : bool) :
    M BlockTables (list GpuTensor) :=
  b ← get;
  if (num_kv_cache_groups b =? 0)%nat then mret []
  else
    _ ← (match out with
         | None => mret tt
         | Some out => _ ← assert_ out_ptrs; assert_ (length out =? num_kv_cache_groups b)%nat
         end);
    let dst := match out with None => input_block_tables b | Some out => out end in
    mem ← lift (launch (grid2 (num_kv_cache_groups b) num_reqs_padded)
      (_gather_block_tables_kernel idx_mapping (cells ∘ gpu <$> block_tables b) (width ∘ gpu <$> block_tables b)
         (concat (backed_gpu (num_blocks b))) (max_num_reqs b) (Z.of_nat (length idx_mapping)) 1024)
      (cells <$> dst));
    let dst := zip_with (λ t l, mkTensor (width t) l) dst mem in
    _ ← (match out with None => modify (set_inputs dst) | Some _ => mret tt end);
    mret (first_rows num_reqs_padded <$> dst).

(** [block_table[:num_reqs].zero_()]. *)
Definition zero_rows (n : Z) (t : GpuTensor) : GpuTensor :=
  let k := Z.to_nat (n * width t) in mkTensor (width t) (((λ _, 0) <$> take k (cells t)) ++ drop k (cells t)).
Definition get_dummy_block_tables (num_reqs : Z) : M BlockTables (list GpuTensor) :=
  _ ← modify (λ b, set_inputs (zero_rows num_reqs <$> input_block_tables b) b);
  b ← get;
  mret (first_rows num_reqs <$> input_block_tables b).

(** * Slots of the tokens of a step *)

(** The lane of one position: its place among the positions that the rank
    holds, and whether the rank holds it. *)
Definition local_position (kv_block_size group_cp_size CP_INTERLEAVE cp_rank position : Z) : Z * bool :=
  if group_cp_size =? 1 then (position, true)
  else
    let virtual_block_size := kv_block_size * group_cp_size in
    let virtual_block_indices := Z.quot position virtual_block_size in
    let virtual_block_offsets := Z.rem position virtual_block_size in
    let is_local := Z.rem (Z.quot virtual_block_offsets CP_INTERLEAVE) group_cp_size =? cp_rank in
    let rounds := Z.quot virtual_block_offsets (CP_INTERLEAVE * group_cp_size) in
    let remainder := Z.rem virtual_block_offsets CP_INTERLEAVE in
    let local_offsets := rounds * CP_INTERLEAVE + remainder in
    (virtual_block_indices * kv_block_size + local_offsets, is_local).

(** The arguments that a program reads for its group. *)
Record GroupArgs := mkGroup {
  g_table : list Z; g_stride : Z; g_kv_block_size : Z; g_kernel_block_size : Z; g_enabled : bool; g_cp_size : Z }.

Definition slot_lane (a : GroupArgs) (cp_rank CP_INTERLEAVE PAD_ID req_state_idx position : Z) : res Z :=
  let '(local, is_local) := local_position (g_kv_block_size a) (g_cp_size a) CP_INTERLEAVE cp_rank position in
  let block_indices := if g_enabled a then Z.quot local (g_kernel_block_size a) else 0 in
  let block_offsets := Z.rem local (g_kernel_block_size a) in
  let valid_block := (0 <=? position) && (block_indices <? g_stride a) in
  block_number ← (if is_local && valid_block then load (g_table a) (req_state_idx * g_stride a + block_indices) else Ok 0);
  let slot_id := block_number * g_kernel_block_size a + block_offsets in
  let slot_id := if negb (g_cp_size a =? 1) && negb is_local then PAD_ID else slot_id in
  Ok (if g_enabled a && valid_block then slot_id else PAD_ID).

(** The program [(group_id, batch_idx)] of [num_programs] programs on the
    second axis. *)
Definition _compute_slot_mappings_kernel (max_num_tokens : Z) (idx_mapping query_start_loc pos : list Z) (groups : list GroupArgs)
    (slot_mappings_stride cp_rank CP_INTERLEAVE PAD_ID TRITON_BLOCK_SIZE num_programs : Z) (pid : nat * Z) : res (list GpuOp) :=
  let '(group_id, batch_idx) := pid in
  let slot_mapping := Z.of_nat group_id * slot_mappings_stride in
  if batch_idx =? num_programs - 1 then
    actual_num_tokens ← load query_start_loc batch_idx;
    Ok ((λ offset, Store 0 (slot_mapping + offset) PAD_ID) <$> tile_offsets actual_num_tokens max_num_tokens TRITON_BLOCK_SIZE)
  else
    a ← load groups (Z.of_nat group_id);
    req_state_idx ← load idx_mapping batch_idx;
    start_idx ← load query_start_loc batch_idx;
    end_idx ← load query_start_loc (batch_idx + 1);
    map_res (λ offset,
      position ← load pos offset;
      slot_id ← slot_lane a cp_rank CP_INTERLEAVE PAD_ID req_state_idx position;
      Ok (Store 0 (slot_mapping + offset) slot_id)) (tile_offsets start_idx end_idx TRITON_BLOCK_SIZE).

(** The tensors of [init_block_table_layout_tensors], by group. *)
Definition group_args (b : BlockTables) : list GroupArgs :=
  zip_with (λ t f, f t) (block_tables b)
    (zip_with (λ bs f, f bs) (block_sizes b)
      (zip_with (λ kbs f, f kbs) (kernel_block_sizes b)
        (zip_with (λ (e : bool) (c : Z) (kbs bs : Z) (t : StagedWriteTensor), mkGroup (cells (gpu t)) (width (gpu t)) bs kbs e c)
          (slot_mapping_enabled b) (cp_sizes b)))).

Section slots.
Context `{Gpu} (PAD_SLOT_ID : Z).

(** [t[:, :n]]. *)
Definition first_columns (groups : nat) (n : Z) (t : GpuTensor) : list (list Z) :=
  (λ g, take (Z.to_nat n) (take (Z.to_nat (width t)) (drop (g * Z.to_nat (width t)) (cells t)))) <$> seq 0 groups.

Definition compute_slot_mappings (idx_mapping query_start_loc positions : list Z) (num_tokens_padded : Z) (out : option GpuTensor) :
    M BlockTables (list (list Z)) :=
  b ← get;
  let n := num_kv_cache_groups b in
  let dst := match out with None => slot_mappings b | Some out => out end in
  if (n =? 0)%nat then mret (first_columns n num_tokens_padded dst)
  else
    let num_reqs := Z.of_nat (length idx_mapping) in
    mem ← lift (launch (grid2 n (num_reqs + 1))
      (_compute_slot_mappings_kernel (width dst) idx_mapping query_start_loc positions (group_args b)
         (width dst) (cp_rank b) (cp_interleave b) PAD_SLOT_ID 1024 (num_reqs + 1)) [cells dst]);
    l ← lift (nth_res mem 0);
    let dst := mkTensor (width dst) l in
    _ ← (match out with None => modify (set_slot_mappings dst) | Some _ => mret tt end);
    mret (first_columns n num_tokens_padded dst).

Definition get_dummy_slot_mappings (num_tokens : Z) : M BlockTables (list (list Z)) :=
  _ ← modify (λ b, set_slot_mappings (mkTensor (width (slot_mappings b)) ((λ _, PAD_SLOT_ID) <$> cells (slot_mappings b))) b);
  b ← get;
  mret (first_columns (num_kv_cache_groups b) num_tokens (slot_mappings b)).
End slots.
