(* ===== verification/CpIndex.v ===== *)
(** The index filter of context-parallel sparse attention:
    src/overlay/vllm/v1/attention/backends/mla/sparse_utils.py.  The indexer
    picks token positions of a request; the filter keeps those that this rank
    holds and turns them into slots of its cache, the compaction moves them to
    the front of their row. *)
From S2P Require Import Prelude CpBuffers CpTables.
From stdpp Require Import base list gmap sets.
From Stdlib Require Import ZArith Lia.
#[local] Open Scope Z_scope.

(** The value of an int32 expression. *)
Definition wrap32 (v : Z) : Z := (v + 2 ^ 31) `mod` 2 ^ 32 - 2 ^ 31.

(** * Positions to slots *)

(** The constexpr arguments of the kernel. *)
Record Convert := mkConvert {
  max_num_blocks_per_req : Z; BLOCK_SIZE : Z; BLOCK_N : Z; HAS_PREFILL : bool; COUNT_VALID : bool;
  DCP_SIZE : Z; DCP_RANK : Z; DCP_INTERLEAVE : Z }.

(** The lane of one position [tok] of a token whose request is [req] and whose
    prefill request is [prefill_req_id]: the output, and whether it is
    invalid. *)
Definition convert_lane (k : Convert) (block_table workspace_starts : list Z) (bt_stride0 req prefill_req_id tok : Z) : res (Z * bool) :=
  let is_invalid_tok := tok <? 0 in
  let is_prefill := HAS_PREFILL k && (0 <=? prefill_req_id) in
  let '(tok, is_invalid_tok) :=
    if 1 <? DCP_SIZE k then
      let owning_rank := Z.rem (Z.quot tok (DCP_INTERLEAVE k)) (DCP_SIZE k) in
      (Z.quot tok (DCP_SIZE k * DCP_INTERLEAVE k) * DCP_INTERLEAVE k + Z.rem tok (DCP_INTERLEAVE k),
       is_invalid_tok || negb (owning_rank =? DCP_RANK k))
    else (tok, is_invalid_tok) in
  let block_id := Z.quot tok (BLOCK_SIZE k) in
  let inblock_off := Z.rem tok (BLOCK_SIZE k) in
  let valid_block := (block_id <? max_num_blocks_per_req k) && (0 <=? block_id) in
  let is_invalid_tok := is_invalid_tok || negb valid_block in
  base ← (if valid_block && negb is_prefill then load block_table (req * bt_stride0 + block_id) else Ok 0);
  let out_val := wrap32 (base * BLOCK_SIZE k + inblock_off) in
  workspace_start ← (if is_prefill then load workspace_starts prefill_req_id else Ok 0);
  let out_val := if is_prefill then wrap32 (workspace_start + tok) else out_val in
  Ok (if is_invalid_tok then -1 else out_val, is_invalid_tok).

(** The program [(token_id, tile_id)]: it writes the tensors [out] (number 0)
    and, with [COUNT_VALID], [valid_count] (number 1). *)
Definition _convert_req_index_to_global_index_kernel (k : Convert) (req_id block_table token_indices prefill_request_id workspace_starts : list Z)
    (bt_stride0 ti_stride0 out_stride0 : Z) (pid : nat * Z) : res (list GpuOp) :=
  let '(token_id, tile_id) := pid in
  let token_id := Z.of_nat token_id in
  req ← load req_id token_id;
  prefill_req_id ← (if HAS_PREFILL k then load prefill_request_id token_id else Ok (-1));
  lanes ← map_res (λ l,
    let indice_id := tile_id * BLOCK_N k + l in
    tok ← load token_indices (token_id * ti_stride0 + indice_id);
    r ← convert_lane k block_table workspace_starts bt_stride0 req prefill_req_id tok;
    Ok (Store 0 (token_id * out_stride0 + indice_id) r.1, r.2)) (arange (BLOCK_N k));
  let tile_valid_count := zsum ((λ r : GpuOp * bool, if r.2 then 0 else 1) <$> lanes) in
  Ok (lanes.*1 ++ (if COUNT_VALID k then [AtomicAdd 1 token_id tile_valid_count] else [])).

Section filter.
Context `{Gpu}.

(** The part the two wrappers share, from the shapes to the launch. *)
Definition run_convert (req_id : list Z) (block_table token_indices : GpuTensor) (prefill : option (list Z * list Z))
    (BLOCK_SIZE NUM_TOPK_TOKENS BLOCK_N : Z) (return_valid_counts : bool) (dcp_size dcp_rank dcp_interleave : Z) :
    res (GpuTensor * option (list Z)) :=
  let num_tokens := length req_id in
  let tiles_per_row := NUM_TOPK_TOKENS / BLOCK_N in
  let out := empty_cells (length (cells token_indices)) in
  let k := mkConvert (width block_table) BLOCK_SIZE BLOCK_N (if prefill is Some _ then true else false) return_valid_counts
             dcp_size dcp_rank dcp_interleave in
  let '(ids, starts) := match prefill with Some p => p | None => ([], []) end in
  mem ← launch (grid2 num_tokens tiles_per_row)
    (_convert_req_index_to_global_index_kernel k req_id (cells block_table) (cells token_indices) ids starts
       (width block_table) (width token_indices) (width token_indices))
    (out :: (if return_valid_counts then [replicate num_tokens 0] else []));
  out ← nth_res mem 0;
  counts ← (if return_valid_counts then c ← nth_res mem 1; Ok (Some c) else Ok None);
  Ok (mkTensor (width token_indices) out, counts).

(** [assert a % b == 0]. *)
Definition check_divides (a b : Z) : res unit :=
  if bool_decide (b = 0) then Err ZeroDivisionError else check (bool_decide (a `mod` b = 0)).

(** [prefill] holds the request ids and the starts of the workspace. *)
Definition triton_convert_req_index_to_global_index (req_id : list Z) (block_table token_indices : GpuTensor)
    (BLOCK_SIZE NUM_TOPK_TOKENS BLOCK_N : Z) (HAS_PREFILL_WORKSPACE : bool) (prefill_workspace_request_ids prefill_workspace_starts : option (list Z))
    (return_valid_counts : bool) : res (GpuTensor * option (list Z)) :=
  _ ← check (bool_decide (width token_indices = NUM_TOPK_TOKENS));
  _ ← check_divides NUM_TOPK_TOKENS BLOCK_N;
  prefill ← (if HAS_PREFILL_WORKSPACE then
               ids ← res_of_option AssertionError prefill_workspace_request_ids;
               starts ← res_of_option AssertionError prefill_workspace_starts;
               Ok (Some (ids, starts))
             else Ok None);
  run_convert req_id block_table token_indices prefill BLOCK_SIZE NUM_TOPK_TOKENS BLOCK_N return_valid_counts 1 0 1.

Definition triton_filter_and_convert_dcp_index (req_id : list Z) (block_table token_indices : GpuTensor) (dcp_size dcp_rank : Z)
    (cp_kv_cache_interleave_size BLOCK_SIZE NUM_TOPK_TOKENS BLOCK_N : Z) (return_valid_counts : bool) : res (GpuTensor * option (list Z)) :=
  _ ← check (bool_decide (1 ≤ dcp_size));
  _ ← check (bool_decide (0 ≤ dcp_rank < dcp_size));
  _ ← check_divides BLOCK_SIZE cp_kv_cache_interleave_size;
  if dcp_size =? 1 then
    triton_convert_req_index_to_global_index req_id block_table token_indices BLOCK_SIZE NUM_TOPK_TOKENS BLOCK_N
      false None None return_valid_counts
  else
    _ ← check (bool_decide (width token_indices = NUM_TOPK_TOKENS));
    _ ← check_divides NUM_TOPK_TOKENS BLOCK_N;
    run_convert req_id block_table token_indices None BLOCK_SIZE NUM_TOPK_TOKENS BLOCK_N return_valid_counts
      dcp_size dcp_rank cp_kv_cache_interleave_size.

(** * Compaction *)

(** [tl.cumsum(l)]. *)
Fixpoint cumsum_from (acc : Z) (l : list Z) : list Z :=
  match l with [] => [] | x :: l => (acc + x) :: cumsum_from (acc + x) l end.
Definition cumsum (l : list Z) : list Z := cumsum_from 0 l.

(** The program of a row: the outputs are tensors 0 ([out]) and 1 ([count]). *)
Definition _compact_dcp_candidates_kernel (in_ : list Z) (in_stride0 out_stride0 NUM_TOPK_TOKENS BLOCK row : Z) : res (list GpuOp) :=
  idx ← map_res (λ offs, if offs <? NUM_TOPK_TOKENS then load in_ (row * in_stride0 + offs) else Ok (-1)) (arange BLOCK);
  let valid_i := (λ i : Z, if 0 <=? i then 1 else 0) <$> idx in
  let pos := zip_with Z.sub (cumsum valid_i) valid_i in
  let stores := (λ p : Z * Z, Store 0 (row * out_stride0 + p.1) p.2) <$> filter (λ p : Z * Z, 0 ≤ p.2) (zip pos idx) in
  Ok (stores ++ [Store 1 row (zsum valid_i)]).

(** The compacted rows, their lengths (at least one), and with [return_empty]
    which rows hold nothing. *)
Definition compact_dcp_candidates (num_tokens : nat) (token_indices : GpuTensor) (return_empty : bool) :
    res (GpuTensor * list Z * option (list bool)) :=
  let num_topk := width token_indices in
  let out := replicate (length (cells token_indices)) (-1) in
  let counts := empty_cells num_tokens in
  let block := next_power_of_2 num_topk in
  mem ← launch (seqZ 0 (Z.of_nat num_tokens))
    (_compact_dcp_candidates_kernel (cells token_indices) num_topk num_topk num_topk block) [out; counts] : res (list (list Z));
  out ← nth_res mem 0;
  counts ← nth_res mem 1;
  Ok (mkTensor num_topk out, Z.max 1 <$> (counts : list Z),
      if return_empty then Some ((λ c, bool_decide (c = 0)) <$> (counts : list Z)) else None).
End filter.
