(* ===== verification/CpStaged.v ===== *)
(** Staged writes: the arrays of a staging tensor as a list of writes, what a
    launch of [_apply_write_kernel] leaves, alone and fused, and the buffers of
    a pool that stay readable. *)
From S2P Require Import Prelude CpBuffers.
From stdpp Require Import base list gmap sets.
From Stdlib Require Import ZArith Lia.
#[local] Open Scope Z_scope.

(** * Pools *)

Definition pool_ok {A} (n : nat) (p : UvaBufferPool A) : Prop :=
  pool_size p = n ∧ uva_bufs p ≠ [] ∧ Forall (λ b, length b = n) (uva_bufs p).

Lemma copy_to_uva_spec {A} n (p : UvaBufferPool A) x : pool_ok n p → (length x ≤ n)%nat →
  let i := (S (curr p) `mod` length (uva_bufs p))%nat in
  ∃ buf, uva_bufs p !! i = Some buf ∧ length buf = n ∧
    copy_to_uva x p = (Ok (i, length x), mkPool (pool_size p) (<[i := x ++ drop (length x) buf]> (uva_bufs p)) i).
Proof.
  intros (Hs & Hne & Hall) Hx i.
  assert (Hl : length (uva_bufs p) ≠ 0%nat) by (by destruct (uva_bufs p)).
  assert (Hi : (i < length (uva_bufs p))%nat) by (by apply Nat.mod_upper_bound).
  destruct (lookup_lt_is_Some_2 _ _ Hi) as [buf Hbuf]. exists buf.
  pose proof (proj1 (Forall_lookup _ _) Hall _ _ Hbuf) as Hlen. cbn in Hlen.
  split_and!; [done|done|]. unfold copy_to_uva. rewrite run_get. rewrite bool_decide_eq_false_2 by done.
  rewrite run_raise_if_false, run_modify. cbn [uva_bufs]. fold i. unfold nth_res. rewrite Hbuf. cbn [res_of_option].
  rewrite run_lift_ok. rewrite bool_decide_eq_false_2 by lia. rewrite run_raise_if_false, run_modify. done.
Qed.

Lemma pool_ok_insert {A} n (p : UvaBufferPool A) i x c : pool_ok n p → length x = n → pool_ok n (mkPool (pool_size p) (<[i := x]> (uva_bufs p)) c).
Proof.
  intros (Hs & Hne & Hall) Hx. split_and!; cbn; [done| |by apply Forall_insert].
  intros E. apply (f_equal length) in E. rewrite length_insert in E. by destruct (uva_bufs p).
Qed.

Lemma copy_to_uva_ok {A} n (p : UvaBufferPool A) x : pool_ok n p → (length x ≤ n)%nat →
  ∃ v p', copy_to_uva x p = (Ok v, p') ∧ pool_ok n p' ∧ view_read p' v = x ∧
    v.1 = (S (curr p) `mod` length (uva_bufs p))%nat ∧ length (uva_bufs p') = length (uva_bufs p) ∧ curr p' = v.1 ∧
    ∀ w, w.1 ≠ v.1 → view_read p' w = view_read p w.
Proof.
  intros Hp Hx. destruct (copy_to_uva_spec n p x Hp Hx) as (buf & Hbuf & Hlen & E).
  eexists _, _. split; [exact E|]. split; [apply pool_ok_insert; [done|rewrite length_app, length_drop; lia]|].
  split_and!; [|done|by cbn; rewrite length_insert|done|].
  - unfold view_read. cbn. rewrite list_lookup_insert_eq by (by eapply lookup_lt_Some). apply take_app_length.
  - intros w Hw. unfold view_read. cbn in Hw |- *. by rewrite list_lookup_insert_ne.
Qed.

(** Copies one after the other. *)
Definition copies {A} (xs : list (list A)) (p : UvaBufferPool A) : UvaBufferPool A :=
  foldl (λ p x, (copy_to_uva x p).2) p xs.

Lemma copies_keep {A} n (xs : list (list A)) (p : UvaBufferPool A) (v : UvaView) (d : nat) :
  pool_ok n p → Forall (λ x, length x ≤ n)%nat xs → (v.1 < length (uva_bufs p))%nat →
  curr p = ((v.1 + d) `mod` length (uva_bufs p))%nat → (d + length xs < length (uva_bufs p))%nat →
  view_read (copies xs p) v = view_read p v.
Proof.
  revert p d. induction xs as [|x xs IH]; intros p d Hp Hxs Hv Hc Hd; [done|].
  apply Forall_cons in Hxs as [Hx Hxs]. cbn [copies foldl length] in *.
  destruct (copy_to_uva_ok n p x Hp Hx) as (w & p' & E & Hp' & _ & Hw & Hl & Hcw & Hkeep). rewrite E. cbn [snd].
  set (m := length (uva_bufs p)) in *. assert (Hm : (m ≠ 0)%nat) by lia.
  assert (Hwd : w.1 = ((v.1 + S d) `mod` m)%nat).
  { rewrite Hw, Hc, <- Nat.add_1_r, Nat.Div0.add_mod_idemp_l. f_equal. lia. }
  rewrite <- (Hkeep v).
  - fold (copies xs p'). apply (IH p' (S d)); rewrite ?Hl; try done; [congruence|lia].
  - rewrite Hwd. intros E1. pose proof (Nat.mod_small v.1 m Hv).
    destruct (Nat.lt_ge_cases (v.1 + S d) m); [rewrite Nat.mod_small in E1; lia|].
    assert ((v.1 + S d) `mod` m = v.1 + S d - m)%nat; [|lia].
    replace (v.1 + S d)%nat with ((v.1 + S d - m) + 1 * m)%nat at 1 by lia.
    rewrite Nat.Div0.mod_add. apply Nat.mod_small. lia.
Qed.

(** A view of a pool is not written again by the next [max_concurrency - 1]
    copies. *)
Lemma view_survives {A} n (xs : list (list A)) x (p p' : UvaBufferPool A) v :
  pool_ok n p → (length x ≤ n)%nat → Forall (λ x, length x ≤ n)%nat xs → (length xs < length (uva_bufs p))%nat →
  copy_to_uva x p = (Ok v, p') → view_read (copies xs p') v = x.
Proof.
  intros Hp Hx Hxs Hlen E. destruct (copy_to_uva_ok n p x Hp Hx) as (w & p1 & E1 & Hp1 & Hr & Hw & Hl & Hcw & _).
  rewrite E in E1. injection E1 as <- <-. rewrite <- Hr.
  assert (Hv : (v.1 < length (uva_bufs p))%nat) by (rewrite Hw; apply Nat.mod_upper_bound; lia).
  apply (copies_keep n _ _ _ 0); rewrite ?Hl; try done. rewrite Nat.add_0_r, Hcw, Nat.mod_small; done.
Qed.

Lemma copy_in_ok {S A} n (field : S → UvaBufferPool A) set_field x s : pool_ok n (field s) → (length x ≤ n)%nat →
  ∃ p, copy_in field set_field x s = (Ok x, set_field p s) ∧ pool_ok n p.
Proof.
  intros Hp Hx. destruct (copy_to_uva_ok n (field s) x Hp Hx) as (v & p & E & Hp' & Hr & _).
  exists p. unfold copy_in. rewrite E, Hr. done.
Qed.

(** * Staged writes as a list *)

(** A row, the first column, and the values. *)
Definition Write : Type := Z * Z * list Z.
Definition w_row (w : Write) : Z := w.1.1.
Definition w_start (w : Write) : Z := w.1.2.
Definition w_content (w : Write) : list Z := w.2.

(** The ends of the contents in their concatenation. *)
Fixpoint ends (base : Z) (cs : list (list Z)) : list Z :=
  match cs with [] => [] | c :: cs => let e := base + Z.of_nat (length c) in e :: ends e cs end.

Definition encodes (t : StagedWriteTensor) (ws : list Write) : Prop :=
  staged_write_indices t = w_row <$> ws ∧ staged_write_starts t = w_start <$> ws ∧
  staged_write_contents t = concat (w_content <$> ws) ∧ staged_write_cu_lens t = ends 0 (w_content <$> ws).

Lemma ends_app base cs1 cs2 : ends base (cs1 ++ cs2) = ends base cs1 ++ ends (base + Z.of_nat (length (concat cs1))) cs2.
Proof.
  revert base. induction cs1 as [|c cs1 IH]; intros base; cbn [ends concat app length]; [by rewrite Z.add_0_r|].
  rewrite IH, length_app. do 3 f_equal. lia.
Qed.
Lemma ends_shift d base cs : Z.add d <$> ends base cs = ends (d + base) cs.
Proof. revert base. induction cs as [|c cs IH]; intros base; [done|]. cbn. rewrite IH, Z.add_assoc. done. Qed.
Lemma ends_length base cs : length (ends base cs) = length cs.
Proof. revert base. induction cs as [|c cs IH]; intros base; cbn; [done|]. by rewrite IH. Qed.
Lemma ends_lookup base cs i : (i < length cs)%nat →
  ends base cs !! i = Some (base + Z.of_nat (length (concat (take (S i) cs)))).
Proof.
  revert base i. induction cs as [|c cs IH]; intros base [|i]; cbn [length]; [lia|lia| |]; intros Hi.
  - cbn. rewrite app_nil_r. done.
  - cbn [ends lookup list_lookup]. change (list_lookup i ?l) with (l !! i). rewrite IH by lia.
    change (take (S (S i)) (c :: cs)) with (c :: take (S i) cs). cbn [concat]. rewrite length_app. f_equal. lia.
Qed.
Lemma concat_split {A} (cs : list (list A)) i c : cs !! i = Some c →
  concat cs = concat (take i cs) ++ c ++ concat (drop (S i) cs).
Proof.
  intros Hi. rewrite <- (take_drop_middle cs i c Hi) at 1. by rewrite concat_app.
Qed.

Lemma push_encodes t ws row start x : encodes t ws → encodes (push_staged row start x t) (ws ++ [(row, start, x)]).
Proof.
  intros (H1 & H2 & H3 & H4). unfold encodes. cbn. rewrite H1, H2, H3, H4, !fmap_app, concat_app, ends_app. cbn.
  rewrite app_nil_r, length_app. split_and!; try done. do 2 f_equal. lia.
Qed.
Lemma clear_encodes t : encodes (clear_staged_writes t) [].
Proof. done. Qed.

(** * The launch *)

(** What a program does for its write. *)
Definition write_ops (width : Z) (g : nat) (w : Write) : list GpuOp :=
  (λ k, Store g (w_row w * width + w_start w + k) (w_content w !!! Z.to_nat k)) <$> seqZ 0 (Z.of_nat (length (w_content w))).

Lemma elem_of_write_ops width g w op : op ∈ write_ops width g w ↔
  ∃ k v, w_content w !! k = Some v ∧ op = Store g (w_row w * width + w_start w + Z.of_nat k) v.
Proof.
  unfold write_ops. rewrite list_elem_of_fmap. split.
  - intros (k & -> & Hk%elem_of_seqZ). destruct (lookup_lt_is_Some_2 (w_content w) (Z.to_nat k) ltac:(lia)) as [v Hv].
    exists (Z.to_nat k), v. split; [done|]. rewrite (list_lookup_total_correct _ _ _ Hv), Z2Nat.id by lia. done.
  - intros (k & v & Hv & ->). exists (Z.of_nat k). rewrite Nat2Z.id, (list_lookup_total_correct _ _ _ Hv).
    split; [done|]. apply elem_of_seqZ. apply lookup_lt_Some in Hv. lia.
Qed.

Lemma apply_kernel_ok (strides : list Z) (gws : list (nat * Write)) gids i g w width :
  match gids with Some ids => ids = (Z.of_nat ∘ fst) <$> gws | None => g = 0%nat end →
  gws !! i = Some (g, w) → strides !! g = Some width →
  _apply_write_kernel strides (w_row ∘ snd <$> gws) (w_start ∘ snd <$> gws) (concat (w_content ∘ snd <$> gws))
    (ends 0 (w_content ∘ snd <$> gws)) gids 1024 (Z.of_nat i) = Ok (write_ops width g w).
Proof.
  intros Hgids Hi Hw. set (cs := w_content ∘ snd <$> gws).
  assert (Hc : cs !! i = Some (w_content w)) by (unfold cs; by rewrite list_lookup_fmap, Hi).
  assert (Hlen : (i < length cs)%nat) by (by eapply lookup_lt_Some).
  unfold _apply_write_kernel.
  rewrite (load_of_nat (w_row ∘ snd <$> gws) i (w_row w)) by (by rewrite list_lookup_fmap, Hi). cbn [mbind res_bind].
  rewrite (load_of_nat (w_start ∘ snd <$> gws) i (w_start w)) by (by rewrite list_lookup_fmap, Hi). cbn [mbind res_bind].
  set (base := Z.of_nat (length (concat (take i cs)))).
  replace (if bool_decide (0 < Z.of_nat i) then _ else _) with (Ok base : res Z).
  2:{ case_bool_decide; [|by assert (i = 0)%nat as -> by lia]. symmetry. apply load_ok. split; [lia|].
      replace (Z.to_nat (Z.of_nat i - 1)) with (pred i) by lia. rewrite ends_lookup by lia.
      replace (S (pred i)) with i by lia. done. }
  cbn [mbind res_bind]. rewrite (load_of_nat _ i (base + Z.of_nat (length (w_content w)))).
  2:{ rewrite ends_lookup, (take_S_r _ _ _ Hc), concat_app, length_app by done. cbn. rewrite app_nil_r. f_equal. lia. }
  cbn [mbind res_bind].
  replace (match gids with Some ids => load ids (Z.of_nat i) | None => Ok 0 end) with (Ok (Z.of_nat g) : res Z).
  2:{ destruct gids; [|by subst]. subst l. symmetry. apply load_of_nat. by rewrite list_lookup_fmap, Hi. }
  cbn [mbind res_bind]. rewrite (load_of_nat _ g width) by done. cbn [mbind res_bind].
  rewrite tile_offsets_seqZ by lia. replace (base + _ - base - 0) with (Z.of_nat (length (w_content w))) by lia.
  rewrite Nat2Z.id. unfold write_ops. apply map_res_ok. intros k Hk%elem_of_seqZ.
  destruct (lookup_lt_is_Some_2 (w_content w) (Z.to_nat k) ltac:(lia)) as [v Hv].
  rewrite (list_lookup_total_correct _ _ _ Hv). rewrite (proj2 (load_ok _ _ v)); [done|]. split; [lia|].
  rewrite (concat_split cs i _ Hc). rewrite lookup_app_r by lia.
  rewrite lookup_app_l by lia. rewrite <- Hv. f_equal. lia.
Qed.

(** [l'] is [l] after the writes [ws] to a tensor of rows of [width] cells. *)
Definition settled (width : Z) (ws : list Write) (l l' : list Z) : Prop :=
  length l' = length l ∧
  (∀ w k v, w ∈ ws → w_content w !! k = Some v → l' !! Z.to_nat (w_row w * width + w_start w + Z.of_nat k) = Some v) ∧
  (∀ a : nat, (∀ w k, w ∈ ws → (k < length (w_content w))%nat → Z.of_nat a ≠ w_row w * width + w_start w + Z.of_nat k) →
     l' !! a = l !! a).
Lemma settled_nil width l : settled width [] l l.
Proof. split_and!; [done|set_solver|done]. Qed.

(** A write of a row below [n] inside a row of [width] cells. *)
Definition write_ok (n : nat) (width : Z) (w : Write) : Prop :=
  0 ≤ w_row w < Z.of_nat n ∧ 0 ≤ w_start w ∧ w_start w + Z.of_nat (length (w_content w)) ≤ width ∧
  w_content w ≠ [] ∧ Forall is_int32 (w_content w).
(** At most one write for a row. *)
Definition writes_ok (n : nat) (width : Z) (ws : list Write) : Prop :=
  Forall (write_ok n width) ws ∧ NoDup (w_row <$> ws).

(** Two cells of rows are the same only in one row and column. *)
Lemma row_address (width r1 c1 r2 c2 : Z) : 0 ≤ c1 < width → 0 ≤ c2 < width → r1 * width + c1 = r2 * width + c2 → r1 = r2 ∧ c1 = c2.
Proof. intros H1 H2 E. assert (r1 = r2) by nia. subst. split; [done|lia]. Qed.

(** Any kernel whose programs write intervals of rows that do not meet. *)
Definition write_in (n : nat) (width : Z) (w : Write) : Prop :=
  0 ≤ w_row w < Z.of_nat n ∧ 0 ≤ w_start w ∧ w_start w + Z.of_nat (length (w_content w)) ≤ width.

Section launched.
Context {G : Gpu} {GL : GpuLaws G} {P : Type}.
Context (grid : list P) (kernel : P → res (list GpuOp)) (wr : P → nat * Write) (strides : list Z) (tables : list (list Z)).
Let width_of (g : nat) : Z := strides !!! g.
Hypothesis Hkernel : ∀ p, p ∈ grid → kernel p = Ok (write_ops (width_of (wr p).1) (wr p).1 (wr p).2).
Hypothesis Hok : ∀ p, p ∈ grid → ∃ n l, tables !! (wr p).1 = Some l ∧ Z.of_nat (length l) = Z.of_nat n * width_of (wr p).1 ∧
  write_in n (width_of (wr p).1) (wr p).2.
Hypothesis Hapart : ∀ p q k1 k2, p ∈ grid → q ∈ grid → (wr p).1 = (wr q).1 → w_row (wr p).2 = w_row (wr q).2 →
  (k1 < length (w_content (wr p).2))%nat → (k2 < length (w_content (wr q).2))%nat →
  w_start (wr p).2 + Z.of_nat k1 = w_start (wr q).2 + Z.of_nat k2 → p = q.
Hypothesis Hnd : NoDup grid.

Lemma launch_rows : ∃ mem', launch grid kernel tables = Ok mem' ∧ same_shape tables mem' ∧
  ∀ g width l ws, strides !! g = Some width → tables !! g = Some l → (∀ w, w ∈ ws ↔ ∃ p, p ∈ grid ∧ wr p = (g, w)) →
    ∃ l', mem' !! g = Some l' ∧ settled width ws l l'.
Proof using All.
  destruct (launch_stores grid kernel (λ p, write_ops (width_of (wr p).1) (wr p).1 (wr p).2) tables Hkernel) as (mem' & Hr & Hs & Hst & Hother).
  - intros p op Hp (k & v & Hk & ->)%elem_of_write_ops. destruct (Hok p Hp) as (n & l & Hl & Hlen & Hr & H0 & He).
    apply lookup_lt_Some in Hk. cbn [op_key]. eapply cell_is_Some; [done|]. nia.
  - apply NoDup_grid; [done| |].
    + intros p _. unfold write_ops. rewrite <- list_fmap_compose. apply NoDup_fmap_2_strong; [|apply NoDup_seqZ].
      intros x y _ _ E. cbn in E. injection E. lia.
    + intros p q o o' Hp Hq (k & v & Hk%lookup_lt_Some & ->)%elem_of_write_ops (k' & v' & Hk'%lookup_lt_Some & ->)%elem_of_write_ops E.
      cbn in E. injection E as Eg E. destruct (Hok p Hp) as (n & l & _ & _ & _ & H0 & He), (Hok q Hq) as (n' & l' & _ & _ & _ & H0' & He').
      rewrite <- Eg in *.
      destruct (row_address (width_of (wr p).1) (w_row (wr p).2) (w_start (wr p).2 + Z.of_nat k) (w_row (wr q).2) (w_start (wr q).2 + Z.of_nat k'))
        as [Er Ec]; [lia..|]. by apply (Hapart p q k k').
  - exists mem'. split_and!; [done|done|]. intros g width l ws Hw Hl Hws.
    destruct (same_shape_lookup _ _ _ _ Hs Hl) as (l' & Hl' & Hlen). exists l'. split; [done|].
    assert (Ew : width_of g = width) by (unfold width_of; by apply list_lookup_total_correct).
    split_and!; [done| |].
    + intros w k v (p & Hp & Ep)%Hws Hk. destruct (Hok p Hp) as (n & l0 & _ & _ & _ & H0 & He). rewrite Ep in H0, He. cbn [fst snd] in H0, He.
      rewrite Ew in He. apply lookup_lt_Some in Hk as Hlt.
      assert (Hc : cell mem' (g, w_row w * width + w_start w + Z.of_nat k) = Some v).
      { apply Hst. apply list_elem_of_bind. exists p. rewrite Ep. cbn [fst snd]. split; [|done]. apply elem_of_write_ops. exists k, v. by rewrite Ew. }
      apply cell_Some in Hc as (l1 & Hl1 & _ & Hc). congruence.
    + intros a Ha. rewrite <- (cell_lookup mem' g l' a Hl'), <- (cell_lookup tables g l a Hl). apply Hother.
      intros (o & E & (p & Ho & Hp)%list_elem_of_bind)%list_elem_of_fmap.
      apply elem_of_write_ops in Ho as (k & v & Hk & ->). cbn in E. injection E as Eg E. rewrite <- Eg, Ew in E.
      apply (Ha (wr p).2 k); [|by eapply lookup_lt_Some|done]. apply Hws. exists p. split; [done|]. rewrite Eg. by destruct (wr p).
Qed.
End launched.

Section writes.
Context {G : Gpu} {GL : GpuLaws G}.
Context (strides : list Z) (tables : list (list Z)) (gws : list (nat * Write)) (gids : option (list Z)).
Hypothesis Hgids : match gids with Some ids => ids = (Z.of_nat ∘ fst) <$> gws | None => ∀ g w, (g, w) ∈ gws → g = 0%nat end.
(** The writes of a table are legal for it. *)
Hypothesis Hok : ∀ g w, (g, w) ∈ gws → ∃ n width l ws, strides !! g = Some width ∧ tables !! g = Some l ∧
  Z.of_nat (length l) = Z.of_nat n * width ∧ writes_ok n width ws ∧ ∀ w', (g, w') ∈ gws → w' ∈ ws.
Hypothesis Hnd : NoDup gws.

Lemma launch_writes : ∃ mem',
  launch (seqZ 0 (Z.of_nat (length gws)))
    (_apply_write_kernel strides (w_row ∘ snd <$> gws) (w_start ∘ snd <$> gws) (concat (w_content ∘ snd <$> gws))
       (ends 0 (w_content ∘ snd <$> gws)) gids 1024) tables = Ok mem' ∧ same_shape tables mem' ∧
  ∀ g width l ws, strides !! g = Some width → tables !! g = Some l → (∀ w, w ∈ ws ↔ (g, w) ∈ gws) →
    ∃ l', mem' !! g = Some l' ∧ settled width ws l l'.
Proof using All.
  assert (Hgw : ∀ pid, pid ∈ seqZ 0 (Z.of_nat (length gws)) → gws !! Z.to_nat pid = Some (gws !!! Z.to_nat pid)).
  { intros pid Hpid%elem_of_seqZ. apply list_lookup_lookup_total_lt. lia. }
  assert (Hin : ∀ pid, pid ∈ seqZ 0 (Z.of_nat (length gws)) → ∃ n l ws, tables !! (gws !!! Z.to_nat pid).1 = Some l ∧
    strides !! (gws !!! Z.to_nat pid).1 = Some (strides !!! (gws !!! Z.to_nat pid).1) ∧
    Z.of_nat (length l) = Z.of_nat n * strides !!! (gws !!! Z.to_nat pid).1 ∧ writes_ok n (strides !!! (gws !!! Z.to_nat pid).1) ws ∧
    ∀ w', ((gws !!! Z.to_nat pid).1, w') ∈ gws → w' ∈ ws).
  { intros pid Hpid%Hgw. destruct (gws !!! Z.to_nat pid) as [g w]. destruct (Hok g w) as (n & width & l & ws & Hs & Hl & Hlen & Hws & Hall).
    { by eapply list_elem_of_lookup_2. }
    exists n, l, ws. cbn. rewrite (list_lookup_total_correct _ _ _ Hs). done. }
  destruct (launch_rows (seqZ 0 (Z.of_nat (length gws)))
    (_apply_write_kernel strides (w_row ∘ snd <$> gws) (w_start ∘ snd <$> gws) (concat (w_content ∘ snd <$> gws))
       (ends 0 (w_content ∘ snd <$> gws)) gids 1024) (λ pid, gws !!! Z.to_nat pid) strides tables) as (mem' & Hr & Hs & Hset).
  - intros pid Hpid. pose proof (Hgw pid Hpid) as Hg. destruct (Hin pid Hpid) as (n & l & ws & _ & Hs & _).
    destruct (gws !!! Z.to_nat pid) as [g w]. cbn in *. apply elem_of_seqZ in Hpid. rewrite <- (Z2Nat.id pid) at 1 by lia.
    apply apply_kernel_ok; [|done|done]. destruct gids; [done|]. apply (Hgids g w). by eapply list_elem_of_lookup_2.
  - intros pid Hpid. pose proof (Hgw pid Hpid) as Hg. destruct (Hin pid Hpid) as (n & l & ws & Hl & _ & Hlen & [Hws _] & Hall).
    exists n, l. split_and!; [done|done|]. rewrite Forall_forall in Hws.
    destruct (Hws (gws !!! Z.to_nat pid).2) as (H1 & H2 & H3 & _); [|done].
    apply Hall. rewrite <- surjective_pairing. by eapply list_elem_of_lookup_2.
  - intros p q k1 k2 Hp Hq Eg Er H1 H2 Ec. pose proof (Hgw p Hp) as Hgp. pose proof (Hgw q Hq) as Hgq.
    destruct (Hin p Hp) as (n & l & ws & _ & _ & _ & [_ Hrows] & Hall).
    assert (E : (gws !!! Z.to_nat p).2 = (gws !!! Z.to_nat q).2).
    { apply (NoDup_fmap_inj w_row ws); [done| | |done].
      - apply Hall. rewrite <- surjective_pairing. by eapply list_elem_of_lookup_2.
      - apply Hall. rewrite Eg, <- surjective_pairing. by eapply list_elem_of_lookup_2. }
    assert (E' : gws !!! Z.to_nat p = gws !!! Z.to_nat q) by (by apply injective_projections).
    rewrite <- E' in Hgq. pose proof (NoDup_lookup _ _ _ _ Hnd Hgp Hgq). apply elem_of_seqZ in Hp, Hq. lia.
  - apply NoDup_seqZ.
  - exists mem'. split_and!; [done|done|]. intros g width l ws Hw Hl Hws. apply (Hset g width l ws Hw Hl).
    intros w. rewrite Hws. split.
    + intros [i Hi]%list_elem_of_lookup. exists (Z.of_nat i). rewrite Nat2Z.id, (list_lookup_total_correct _ _ _ Hi).
      split; [|done]. apply lookup_lt_Some in Hi. apply elem_of_seqZ. lia.
    + intros (p & Hp & <-). by eapply list_elem_of_lookup_2, Hgw.
Qed.
End writes.

(** * A staging tensor *)

(** [n] rows; [ws] is what is staged. *)
Record staged_ok (n : nat) (t : StagedWriteTensor) (ws : list Write) : Prop := {
  so_rows : num_rows t = n;
  so_cells : Z.of_nat (length (cells (gpu t))) = Z.of_nat n * width (gpu t);
  so_width : 0 ≤ width (gpu t);
  so_encodes : encodes t ws;
  so_writes : writes_ok n (width (gpu t)) ws;
  so_indices : pool_ok n (write_indices t);
  so_starts : pool_ok n (write_starts t);
  so_cu_lens : pool_ok n (write_cu_lens t) }.

(** No two writes have one row, so there are at most as many as rows. *)
Lemma writes_count n width ws : writes_ok n width ws → (length ws <= n)%nat.
Proof.
  intros [Hok Hnd]. rewrite <- (length_fmap w_row).
  assert (Hin : w_row <$> ws ⊆ seqZ 0 (Z.of_nat n)).
  { intros r (w & -> & Hw)%list_elem_of_fmap. rewrite Forall_forall in Hok. apply elem_of_seqZ. destruct (Hok w Hw). lia. }
  pose proof (submseteq_length _ _ (NoDup_submseteq _ _ Hnd Hin)) as Hl. rewrite length_seqZ in Hl. lia.
Qed.
Lemma writes_int32 n width ws : writes_ok n width ws → Forall is_int32 (concat (w_content <$> ws)).
Proof.
  intros [Hok _]. induction Hok as [|w ws (_&_&_&_&Hw) _ IH]; [constructor|]. cbn. by apply Forall_app.
Qed.

Lemma staged_cleared n t ws l (t' : StagedWriteTensor) :
  staged_ok n t ws → length l = length (cells (gpu t)) → gpu t' = mkTensor (width (gpu t)) l → num_rows t' = n →
  pool_ok n (write_indices t') → pool_ok n (write_starts t') → pool_ok n (write_cu_lens t') → staged_ok n (clear_staged_writes t') [].
Proof.
  intros [] Hl Hg Hn H1 H2 H3. constructor; cbn; rewrite ?Hg; cbn; try done; [by rewrite Hl|]. split; constructor.
Qed.

Section apply.
Context {G : Gpu} {GL : GpuLaws G}.

Lemma apply_write_ok n t ws : staged_ok n t ws → ∃ t', apply_write t = (Ok tt, t') ∧ staged_ok n t' [] ∧
  width (gpu t') = width (gpu t) ∧ settled (width (gpu t)) ws (cells (gpu t)) (cells (gpu t')).
Proof using GL.
  intros Hok. pose proof Hok as [Hrows Hcells Hwd (Hi & Hst & Hc & He) Hws Hpi Hps Hpc].
  unfold apply_write. rewrite run_get. case_bool_decide as Hz.
  { rewrite Hi, length_fmap in Hz. destruct ws; [|done]. exists t. split_and!; [done|done|done|apply settled_nil]. }
  pose proof (writes_count n _ ws Hws) as Hcount.
  destruct (copy_in_ok n write_indices set_write_indices (staged_write_indices t) t Hpi ltac:(by rewrite Hi, length_fmap)) as (p1 & E1 & Hp1).
  rewrite (M_bind_run _ _ _ _ _ E1).
  destruct (copy_in_ok n write_starts set_write_starts (staged_write_starts t) (set_write_indices p1 t) Hps ltac:(by rewrite Hst, length_fmap)) as (p2 & E2 & Hp2).
  rewrite (M_bind_run _ _ _ _ _ E2).
  destruct (copy_in_ok n write_cu_lens set_write_cu_lens (staged_write_cu_lens t) (set_write_starts p2 (set_write_indices p1 t)) Hpc
    ltac:(by rewrite He, ends_length, length_fmap)) as (p3 & E3 & Hp3).
  rewrite (M_bind_run _ _ _ _ _ E3). rewrite Hc, to_device_int32 by (by eapply writes_int32). rewrite run_lift_ok.
  destruct (launch_writes [width (gpu t)] [cells (gpu t)] (pair 0%nat <$> ws) None) as (mem' & Hr & Hs & Hm).
  - intros g w (? & [= -> ->] & _)%list_elem_of_fmap. done.
  - intros g w (? & [= -> ->] & Hw)%list_elem_of_fmap. exists n, (width (gpu t)), (cells (gpu t)), ws.
    split_and!; try done. intros w' (? & [= ->] & Hw')%list_elem_of_fmap. done.
  - apply NoDup_fmap_2; [intros ?? [= ->]; done|]. eapply NoDup_fmap_1, Hws.
  - rewrite length_fmap in Hr. rewrite <- !list_fmap_compose in Hr. cbn in Hr.
    rewrite Hi, Hst, He, length_fmap. cbn in Hr |- *.
    change (w_row ∘ snd ∘ pair 0%nat) with w_row in Hr. change (w_start ∘ snd ∘ pair 0%nat) with w_start in Hr.
    change (w_content ∘ snd ∘ pair 0%nat) with w_content in Hr. rewrite Hr, run_lift_ok.
    destruct (Hm 0%nat (width (gpu t)) (cells (gpu t)) ws) as (l' & Hl' & Hset); [done|done|set_solver|].
    unfold nth_res. rewrite Hl'. cbn [res_of_option]. rewrite run_lift_ok, run_modify. eexists. split; [done|]. split_and!; [|done|done].
    eapply (staged_cleared n t ws l'); try done. apply Hset.
Qed.
End apply.

(** * The fused writer *)

Definition args_of (gws : list (nat * Write)) : Fused :=
  mkArgs (Z.of_nat ∘ fst <$> gws) (w_row ∘ snd <$> gws) (w_start ∘ snd <$> gws)
    (concat (w_content ∘ snd <$> gws)) (ends 0 (w_content ∘ snd <$> gws)).
(** The writes of the tables from the [k]-th on, with the table of each. *)
Fixpoint tag (k : nat) (wss : list (list Write)) : list (nat * Write) :=
  match wss with [] => [] | ws :: wss => (pair k <$> ws) ++ tag (S k) wss end.

Lemma elem_of_tag k wss g w : (g, w) ∈ tag k wss ↔ ∃ i ws, wss !! i = Some ws ∧ g = (k + i)%nat ∧ w ∈ ws.
Proof.
  revert k. induction wss as [|ws wss IH]; intros k; cbn [tag].
  { split; [by intros ?%not_elem_of_nil|]. intros (i & ws & H & _). done. }
  rewrite elem_of_app, IH, list_elem_of_fmap. split.
  - intros [(x & [= -> ->] & Hx)|(i & ws' & Hi & -> & Hw)]; [exists 0%nat, ws; split_and!; [done|lia|done]|].
    exists (S i), ws'. split_and!; [done|lia|done].
  - intros ([|i] & ws' & Hi & -> & Hw); cbn in Hi; [left|right].
    + injection Hi as ->. exists w. rewrite Nat.add_0_r. done.
    + exists i, ws'. split_and!; [done|lia|done].
Qed.
Lemma NoDup_tag k wss : Forall NoDup wss → NoDup (tag k wss).
Proof.
  intros H. revert k. induction H as [|ws wss Hws _ IH]; intros k; cbn [tag]; [constructor|].
  apply NoDup_app. split_and!; [apply NoDup_fmap_2; [by intros ?? [= ->]|done]| |done].
  intros [g w] (? & [= -> ->] & _)%list_elem_of_fmap (i & ws' & _ & E & _)%elem_of_tag. lia.
Qed.
Lemma length_tag k wss n : Forall (λ ws, length ws ≤ n)%nat wss → (length (tag k wss) ≤ n * length wss)%nat.
Proof. intros H. revert k. induction H; intros k; cbn; [lia|]. rewrite length_app, length_fmap. specialize (IHForall (S k)). lia. Qed.

Lemma fuse_one_args gws g t ws : encodes t ws → fuse_one (args_of gws) (g, t) = args_of (gws ++ (pair g <$> ws)).
Proof.
  intros (Hi & Hs & Hc & He). unfold fuse_one. rewrite Hi, length_fmap.
  case_bool_decide as Hz.
  { destruct ws; [|done]. by rewrite app_nil_r. }
  unfold args_of. cbn [contents group_ids indices starts cu_lens].
  rewrite Hs, Hc, He, !fmap_app, concat_app, ends_app, <- !list_fmap_compose, ends_shift. rewrite Z.add_0_r.
  f_equal; try done. f_equal. clear. induction ws as [|w ws IH]; [done|]. cbn. by rewrite IH.
Qed.
Lemma fuse_args tables wss : Forall2 encodes tables wss → fuse tables = args_of (tag 0 wss).
Proof.
  intros H. unfold fuse, enumerate. change (mkArgs [] [] [] [] []) with (args_of []).
  change (tag 0 wss) with ([] ++ tag 0 wss). generalize 0%nat, (@nil (nat * Write)).
  induction H as [|t ws tables wss He _ IH]; intros k gws; cbn [length seq zip_with foldl tag]; [by rewrite app_nil_r|].
  rewrite (fuse_one_args gws k t ws He). rewrite (IH (S k) (gws ++ (pair k <$> ws))). by rewrite <- app_assoc.
Qed.

Lemma tag_int32 n tables wss k : Forall2 (staged_ok n) tables wss → Forall is_int32 (concat (w_content ∘ snd <$> tag k wss)).
Proof.
  intros H. revert k. induction H as [|t ws tables wss Ht _ IH]; intros k; cbn [tag]; [constructor|].
  rewrite fmap_app, concat_app. apply Forall_app. split; [|done]. rewrite <- list_fmap_compose. eapply writes_int32, Ht.
Qed.

Definition fused_ok (m : nat) (w : FusedStagedWriter) : Prop :=
  pool_ok m (f_group_ids w) ∧ pool_ok m (f_indices w) ∧ pool_ok m (f_starts w) ∧ pool_ok m (f_cu_lens w).

(** Each table after an application of what was staged for it. *)
Definition applied (n : nat) (ws : list Write) (t t' : StagedWriteTensor) : Prop :=
  staged_ok n t' [] ∧ width (gpu t') = width (gpu t) ∧ settled (width (gpu t)) ws (cells (gpu t)) (cells (gpu t')).

Section fused.
Context {G : Gpu} {GL : GpuLaws G}.

Lemma clear_nothing n t : staged_ok n t [] → clear_staged_writes t = t.
Proof. intros [_ _ _ (Hi & Hs & Hc & He) _ _ _ _]. destruct t; cbn in *. by subst. Qed.

Lemma fused_apply_ok n m tables wss w :
  Forall2 (staged_ok n) tables wss → fused_ok m w → (n * length tables ≤ m)%nat →
  ∃ tables' w', fused_apply tables w = (Ok tables', w') ∧ fused_ok m w' ∧ length tables' = length tables ∧
    ∀ g t ws, tables !! g = Some t → wss !! g = Some ws → ∃ t', tables' !! g = Some t' ∧ applied n ws t t'.
Proof using GL.
  intros Hok (Hp1 & Hp2 & Hp3 & Hp4) Hm. pose proof (Forall2_length _ _ _ Hok) as Hlen.
  assert (Hcount : (length (tag 0 wss) ≤ m)%nat).
  { etrans; [apply length_tag with (n := n)|by rewrite <- Hlen]. apply Forall_lookup. intros g ws Hg.
    destruct (Forall2_lookup_r _ _ _ _ _ Hok Hg) as (t & _ & Ht). by eapply writes_count, Ht. }
  unfold fused_apply. rewrite (fuse_args tables wss) by (eapply Forall2_impl; [done|]; intros ?? []; done).
  cbn [group_ids indices starts contents cu_lens args_of].
  destruct (tag 0 wss) as [|gw gws] eqn:Etag.
  { cbn. exists tables, w. split_and!; try done. intros g t ws Ht Hg. exists t. split; [done|].
    pose proof (Forall2_lookup_lr _ _ _ _ _ _ Hok Ht Hg) as Hs.
    assert (ws = []) as ->; [|split_and!; [done|done|apply settled_nil]].
    destruct ws as [|x ws]; [done|]. assert (H : (g, x) ∈ tag 0 wss); [|rewrite Etag in H; by apply not_elem_of_nil in H].
    apply elem_of_tag. exists g, (x :: ws). split_and!; [done|done|by left]. }
  assert (Hne : tag 0 wss ≠ []) by (by rewrite Etag). rewrite <- Etag in *. clear gw gws Etag. set (gws := tag 0 wss) in *.
  destruct (Z.of_nat ∘ fst <$> gws) as [|z0 zs] eqn:Ez; [by apply fmap_nil_inv in Ez|]. rewrite <- Ez. clear z0 zs Ez.
  destruct (copy_in_ok m f_group_ids set_f_group_ids (Z.of_nat ∘ fst <$> gws) w Hp1 ltac:(by rewrite length_fmap)) as (p1 & E1 & H1).
  rewrite (M_bind_run _ _ _ _ _ E1). set (w1 := set_f_group_ids p1 w).
  destruct (copy_in_ok m f_indices set_f_indices (w_row ∘ snd <$> gws) w1 Hp2 ltac:(by rewrite length_fmap)) as (p2 & E2 & H2).
  rewrite (M_bind_run _ _ _ _ _ E2). set (w2 := set_f_indices p2 w1).
  destruct (copy_in_ok m f_starts set_f_starts (w_start ∘ snd <$> gws) w2 Hp3 ltac:(by rewrite length_fmap)) as (p3 & E3 & H3).
  rewrite (M_bind_run _ _ _ _ _ E3). set (w3 := set_f_starts p3 w2).
  destruct (copy_in_ok m f_cu_lens set_f_cu_lens (ends 0 (w_content ∘ snd <$> gws)) w3 Hp4 ltac:(by rewrite ends_length, length_fmap))
    as (p4 & E4 & H4).
  rewrite (M_bind_run _ _ _ _ _ E4). set (w4 := set_f_cu_lens p4 w3).
  rewrite to_device_int32, run_lift_ok by (by apply tag_int32 with n tables).
  destruct (launch_writes (width ∘ gpu <$> tables) (cells ∘ gpu <$> tables) gws (Some (Z.of_nat ∘ fst <$> gws))) as (mem' & Hr & Hs & Hset).
  - done.
  - intros g x (i & ws & Hi & -> & Hx)%elem_of_tag. destruct (Forall2_lookup_r _ _ _ _ _ Hok Hi) as (t & Ht & Hst).
    exists n, (width (gpu t)), (cells (gpu t)), ws. cbn [plus]. rewrite !list_lookup_fmap, Ht. split_and!; [done|done|apply Hst|apply Hst|].
    intros x' (i' & ws' & Hi' & E & Hx')%elem_of_tag. cbn in E. subst i'. congruence.
  - apply NoDup_tag. apply Forall_lookup. intros g ws Hg. destruct (Forall2_lookup_r _ _ _ _ _ Hok Hg) as (t & _ & Ht).
    eapply NoDup_fmap_1, Ht.
  - rewrite length_fmap, Hr, run_lift_ok. pose proof (same_shape_length _ _ Hs) as Hl. rewrite length_fmap in Hl.
    eexists _, w4. split; [done|]. split; [done|]. split; [rewrite length_zip_with; lia|]. intros g t ws Ht Hg.
    destruct (Hset g (width (gpu t)) (cells (gpu t)) ws) as (l' & Hl' & Hse).
    + by rewrite list_lookup_fmap, Ht.
    + by rewrite list_lookup_fmap, Ht.
    + intros x. unfold gws. rewrite elem_of_tag. split; [intros Hx; by exists g, ws|]. intros (i & ws' & Hi & -> & Hx). cbn in Hg. congruence.
    + exists (clear_staged_writes (set_gpu_cells l' t)). split; [apply lookup_zip_with_Some; eauto 6|].
      pose proof (Forall2_lookup_lr _ _ _ _ _ _ Hok Ht Hg) as Hst. split_and!; [|done|done].
      eapply (staged_cleared n t ws l'); try done; try apply Hst. apply Hse.
Qed.
End fused.
