(* ===== verification/CpTablesInv.v ===== *)
(** The block tables refine lists: through appends and applications of staged
    writes, every row of every table is the list of the kernel blocks of its
    request. *)
From S2P Require Import Prelude CpBuffers CpTables CpStaged.
From stdpp Require Import base list gmap sets.
From Stdlib Require Import ZArith Lia.
#[local] Open Scope Z_scope.

(** * Representation *)

(** Row [r] of a tensor begins with [x]. *)
Definition row_holds (width : Z) (l : list Z) (r : Z) (x : list Z) : Prop :=
  ∀ c v, x !! c = Some v → l !! Z.to_nat (r * width + Z.of_nat c) = Some v.

(** Row [r] is [x] once the writes [ws] have been applied to [l]. *)
Definition row_rep (width : Z) (l : list Z) (ws : list Write) (r : Z) (x : list Z) : Prop :=
  ((r ∉ (w_row <$> ws)) ∧ row_holds width l r x) ∨
  (∃ pre new, x = pre ++ new ∧ row_holds width l r pre ∧ (r, Z.of_nat (length pre), new) ∈ ws).

(** A group: its table, its row of counts, what is staged, and the blocks of
    every request. *)
Record group_ok (n : nat) (t : StagedWriteTensor) (counts : list Z) (ws : list Write) (rows : list (list Z)) : Prop := {
  go_staged : staged_ok n t ws;
  go_rows : length rows = n;
  go_counts : counts = Z.of_nat ∘ length <$> rows;
  go_fit : Forall (λ x, Z.of_nat (length x) ≤ width (gpu t)) rows;
  go_rep r x : rows !! r = Some x → row_rep (width (gpu t)) (cells (gpu t)) ws (Z.of_nat r) x }.

(** What never changes after construction. *)
Record layout_ok (n : nat) (b : BlockTables) : Prop := {
  lo_reqs : max_num_reqs b = Z.of_nat n;
  lo_tables : length (block_tables b) = num_kv_cache_groups b;
  lo_np : length (np (num_blocks b)) = num_kv_cache_groups b;
  lo_bpk : length (blocks_per_kv_block b) = num_kv_cache_groups b;
  lo_bpk_pos : Forall (λ k, 1 ≤ k) (blocks_per_kv_block b);
  lo_pool : pool_ok (num_kv_cache_groups b) (pool (num_blocks b));
  lo_fused : (1 < num_kv_cache_groups b)%nat → ∃ w, fused_writer b = Some w ∧ fused_ok (num_kv_cache_groups b * n) w }.

Record tables_ok (n : nat) (b : BlockTables) (pend : list (list Write)) (rows : list (list (list Z))) : Prop := {
  to_layout : layout_ok n b;
  to_pend : length pend = num_kv_cache_groups b;
  to_rows : length rows = num_kv_cache_groups b;
  to_group g t c ws R : block_tables b !! g = Some t → np (num_blocks b) !! g = Some c → pend !! g = Some ws → rows !! g = Some R →
    group_ok n t c ws R }.

Lemma tables_lookup n b pend rows g : tables_ok n b pend rows → (g < num_kv_cache_groups b)%nat →
  ∃ t c k ws R, block_tables b !! g = Some t ∧ np (num_blocks b) !! g = Some c ∧ blocks_per_kv_block b !! g = Some k ∧ 1 ≤ k ∧
    pend !! g = Some ws ∧ rows !! g = Some R ∧ group_ok n t c ws R.
Proof.
  intros [Hlo Hp Hr Hg] Hlt. pose proof (lo_bpk_pos _ _ Hlo) as Hpos. destruct Hlo.
  destruct (lookup_lt_is_Some_2 (block_tables b) g ltac:(lia)) as [t Ht], (lookup_lt_is_Some_2 (np (num_blocks b)) g ltac:(lia)) as [c Hc],
    (lookup_lt_is_Some_2 (blocks_per_kv_block b) g ltac:(lia)) as [k Hk], (lookup_lt_is_Some_2 pend g ltac:(lia)) as [ws Hws],
    (lookup_lt_is_Some_2 rows g ltac:(lia)) as [R HR].
  exists t, c, k, ws, R. split_and!; try done; [|by eapply Hg]. by apply (proj1 (Forall_lookup _ _) Hpos g).
Qed.

(** * A staged write *)

Lemma expand_length k ids : 1 ≤ k → Z.of_nat (length (expand k ids)) = Z.of_nat (length ids) * k.
Proof.
  intros Hk. unfold expand. case_bool_decide; [|assert (k = 1) as -> by lia; lia]. induction ids as [|i ids IH]; [done|].
  cbn. rewrite length_app, length_fmap, length_seqZ, Nat2Z.inj_add, IH. lia.
Qed.

(** The blocks of request [r] after an append. *)
Definition appended (overwrite : bool) (x : list Z) (old : list Z) : list Z := (if overwrite then [] else old) ++ x.

Lemma staged_push n t ws r start x : staged_ok n t ws → r ∉ (w_row <$> ws) → write_ok n (width (gpu t)) (r, start, x) →
  staged_ok n (push_staged r start x t) (ws ++ [(r, start, x)]).
Proof.
  intros [? ? ? ? [H1 H2] ? ? ?] Hr Hw. constructor; cbn; try done; [by apply push_encodes|]. split.
  - apply Forall_app. split; [done|]. by constructor.
  - rewrite fmap_app. cbn. apply NoDup_app. split_and!; [done| |apply NoDup_singleton].
    intros r' Hr' ->%list_elem_of_singleton. done.
Qed.

Lemma row_rep_other width l ws r w x : w_row w ≠ r → row_rep width l ws r x → row_rep width l (ws ++ [w]) r x.
Proof.
  intros Hne [[Hn Hh]|(pre & new & -> & Hh & Hin)]; [left|right].
  - split; [|done]. rewrite fmap_app, elem_of_app. cbn. intros [?|?%list_elem_of_singleton]; [done|congruence].
  - exists pre, new. split_and!; [done|done|]. apply elem_of_app. by left.
Qed.

Lemma row_rep_unstaged width l ws r x : r ∉ (w_row <$> ws) → row_rep width l ws r x → row_holds width l r x.
Proof.
  intros Hn [[_ Hh]|(pre & new & -> & _ & Hin)]; [done|]. exfalso. apply Hn. apply list_elem_of_fmap. by exists (r, Z.of_nat (length pre), new).
Qed.

(** Staging the blocks [x] for a row that has nothing staged. *)
Lemma group_append n t c ws rows (r : nat) old (overwrite : bool) x :
  group_ok n t c ws rows → rows !! r = Some old → Z.of_nat r ∉ (w_row <$> ws) →
  Z.of_nat (length (appended overwrite x old)) ≤ width (gpu t) → Forall is_int32 x →
  ∃ t' ws', stage_write (Z.of_nat r) (if overwrite then 0 else Z.of_nat (length old)) x t = (Ok tt, t') ∧
    group_ok n t' (<[r := Z.of_nat (length (appended overwrite x old))]> c) ws' (<[r := appended overwrite x old]> rows) ∧
    width (gpu t') = width (gpu t) ∧
    ∀ q, q ≠ Z.of_nat r → q ∉ (w_row <$> ws) → q ∉ (w_row <$> ws').
Proof.
  intros [Hs Hlen Hc Hfit Hrep] Hr Hn Hw H32.
  pose proof (lookup_lt_Some _ _ _ Hr) as Hrn. pose proof (row_rep_unstaged _ _ _ _ _ Hn (Hrep r old Hr)) as Hold.
  assert (Hcounts : <[r := Z.of_nat (length (appended overwrite x old))]> c = Z.of_nat ∘ length <$> <[r := appended overwrite x old]> rows).
  { rewrite list_fmap_insert, Hc. done. }
  assert (Hfit' : Forall (λ x, Z.of_nat (length x) ≤ width (gpu t)) (<[r := appended overwrite x old]> rows)) by (by apply Forall_insert).
  unfold stage_write. rewrite (bool_decide_eq_true_2 (0 ≤ Z.of_nat r)) by lia. rewrite run_assert_true.
  rewrite bool_decide_eq_true_2 by (destruct overwrite; lia). rewrite run_assert_true.
  destruct x as [|v x'] eqn:Ex.
  - exists t, ws. split_and!; [done| |done|done]. constructor; [done|by rewrite length_insert|done|done|].
    intros q y Hq. destruct (decide (q = r)) as [->|Hne].
    + rewrite list_lookup_insert_eq in Hq by done. injection Hq as <-. left. split; [done|].
      unfold appended. destruct overwrite; rewrite app_nil_r; [by intros ??|done].
    + rewrite list_lookup_insert_ne in Hq by done. by apply Hrep.
  - rewrite <- Ex in *. set (start := if overwrite then 0 else Z.of_nat (length old)).
    exists (push_staged (Z.of_nat r) start x t), (ws ++ [(Z.of_nat r, start, x)]).
    assert (Hst : staged_ok n (push_staged (Z.of_nat r) start x t) (ws ++ [(Z.of_nat r, start, x)])).
    { apply staged_push; [done|done|]. unfold appended in Hw. rewrite length_app in Hw. unfold write_ok. cbn. subst start.
      split_and!; [lia..|by destruct overwrite; lia| |by rewrite Ex|done].  destruct overwrite; cbn in Hw; lia. }
    split_and!; [done| |done|].
    + constructor; [done|by rewrite length_insert|done|done|].
      cbn [gpu push_staged]. intros q y Hq. destruct (decide (q = r)) as [->|Hne].
      * rewrite list_lookup_insert_eq in Hq by done. injection Hq as <-. right.
        exists (if overwrite then [] else old), x. split_and!; [done|by destruct overwrite; [intros ??|]|].
        apply elem_of_app. right. apply list_elem_of_singleton. unfold start. by destruct overwrite.
      * rewrite list_lookup_insert_ne in Hq by done. apply row_rep_other; [cbn; lia|]. by apply Hrep.
    + intros q Hq Hnq. rewrite fmap_app, elem_of_app. cbn. intros [?|?%list_elem_of_singleton]; [done|]. by apply Hq.
Qed.

(** * Appends *)

(** What appends and applications leave alone. *)
Definition statics (b : BlockTables) :=
  (block_sizes b, kernel_block_sizes b, max_num_reqs b, max_num_batched_tokens b, (cp_size b, cp_rank b, cp_interleave b),
   (cp_sizes b, slot_mapping_enabled b, blocks_per_kv_block b), width ∘ gpu <$> block_tables b, (input_block_tables b, slot_mappings b)).

Lemma tables_update n b pend rows g t t' c' ws' R' :
  tables_ok n b pend rows → block_tables b !! g = Some t → group_ok n t' c' ws' R' → width (gpu t') = width (gpu t) →
  let b' := set_num_blocks (mkBacked (<[g := c']> (np (num_blocks b))) (pool (num_blocks b)) (gpu_view (num_blocks b)))
              (set_tables (<[g := t']> (block_tables b)) b) in
  tables_ok n b' (<[g := ws']> pend) (<[g := R']> rows) ∧ statics b' = statics b.
Proof.
  intros [[] Hp Hr Hg] Ht Hok Hw b'. split.
  - constructor; [constructor|..]; cbn; rewrite ?length_insert; try done.
    intros q t1 c1 ws1 R1. destruct (decide (q = g)) as [->|Hne].
    + intros H1 H2 H3 H4. apply lookup_lt_Some in Ht.
      assert (∀ A (l : list A) x y, <[g := x]> l !! g = Some y → y = x) as Hins.
      { intros A l x y E. pose proof (lookup_lt_Some _ _ _ E) as Hlt. rewrite length_insert in Hlt. rewrite list_lookup_insert_eq in E by done. by injection E. }
      apply Hins in H1, H2, H3, H4. by subst.
    + rewrite !list_lookup_insert_ne by done. apply Hg.
  - unfold statics, b'. cbn. do 2 f_equal. rewrite list_fmap_insert. apply list_insert_id. rewrite list_lookup_fmap, Ht. cbn. by rewrite Hw.
Qed.

(** An append for request [r] fits: it is a request, there is a list for every
    group, and every row has the room. *)
Definition group_fits (b : BlockTables) (rows : list (list (list Z))) (r : nat) (overwrite : bool) (i : nat) (ids : list Z) : bool :=
  match rows !! i, blocks_per_kv_block b !! i, block_tables b !! i with
  | Some R, Some k, Some t =>
    match R !! r with
    | Some old => Z.of_nat (length (if overwrite then [] else old)) + Z.of_nat (length ids) * k <=? width (gpu t)
    | None => false
    end
  | _, _, _ => false
  end.
Definition append_fits (b : BlockTables) (rows : list (list (list Z))) (req : Z) (new_block_ids : list (list Z)) (overwrite : bool) : bool :=
  (0 <=? req) && (req <? max_num_reqs b) && (length new_block_ids =? num_kv_cache_groups b)%nat &&
  forallb (λ g, group_fits b rows (Z.to_nat req) overwrite g.1 g.2) (enumerate new_block_ids).

(** The rows after an append that fits. *)
Definition append_rows (b : BlockTables) (r : nat) (new_block_ids : list (list Z)) (overwrite : bool) (rows : list (list (list Z))) :
    list (list (list Z)) :=
  imap (λ g R, match new_block_ids !! g, blocks_per_kv_block b !! g with
               | Some ids, Some k => alter (appended overwrite (expand k ids)) r R
               | _, _ => R
               end) rows.

Lemma np_get_ok n b pend rows g (r : nat) R old : tables_ok n b pend rows → rows !! g = Some R → R !! r = Some old →
  np_get (np (num_blocks b)) g (Z.of_nat r) = Ok (Z.of_nat (length old)).
Proof.
  intros Hok HR Hold. pose proof (lookup_lt_Some _ _ _ HR) as Hg. rewrite (to_rows _ _ _ _ Hok) in Hg.
  destruct (tables_lookup _ _ _ _ g Hok Hg) as (t & c & k & ws & R' & _ & Hc & _ & _ & _ & HR' & [_ _ Hcs _ _]).
  rewrite HR in HR'. injection HR' as <-. unfold np_get, nth_res. rewrite Hc. cbn. rewrite Nat2Z.id, Hcs, list_lookup_fmap, Hold. done.
Qed.
Lemma first_column_ok n b pend rows g (r : nat) R old (overwrite : bool) : tables_ok n b pend rows → rows !! g = Some R → R !! r = Some old →
  first_column b (Z.of_nat r) overwrite g = Ok (if overwrite then 0 else Z.of_nat (length old)).
Proof. intros Hok HR Hold. destruct overwrite; [done|]. by eapply np_get_ok. Qed.

Lemma validate_group_ok n b pend rows (r : nat) overwrite i ids :
  tables_ok n b pend rows → (i < num_kv_cache_groups b)%nat → (r < n)%nat →
  validate_group b (Z.of_nat r) overwrite (i, ids) = if group_fits b rows r overwrite i ids then Ok tt else Err ValueError.
Proof.
  intros Hok Hi Hr. destruct (tables_lookup _ _ _ _ i Hok Hi) as (t & c & k & ws & R & Ht & Hc & Hk & Hpos & Hws & HR & Hg).
  destruct (lookup_lt_is_Some_2 R r) as [old Hold]; [by rewrite (go_rows _ _ _ _ _ Hg)|].
  unfold validate_group, group_fits. rewrite (first_column_ok n b pend rows i r R old overwrite Hok HR Hold). cbn [mbind res_bind].
  unfold nth_res. rewrite Hk, HR, Ht, Hold. cbn [res_of_option mbind res_bind].
  destruct (Z.leb_spec (Z.of_nat (length (if overwrite then [] else old)) + Z.of_nat (length ids) * k) (width (gpu t))) as [Hle|Hgt].
  - rewrite bool_decide_eq_true_2; [done|]. destruct overwrite; cbn in Hle; nia.
  - rewrite bool_decide_eq_false_2; [done|]. destruct overwrite; cbn in Hgt; lia.
Qed.

Lemma enumerate_lookup {A} (l : list A) i x : enumerate l !! i = Some x ↔ x.1 = i ∧ l !! i = Some x.2.
Proof.
  unfold enumerate. rewrite lookup_zip_with_Some. split.
  - intros (j & y & -> & Hj & Hy). apply lookup_seq in Hj as [-> _]. done.
  - destruct x as [j y]. cbn. intros [-> Hy]. exists i, y. split_and!; [done| |done]. apply lookup_seq. split; [done|by eapply lookup_lt_Some].
Qed.

Lemma for_each_check {S A} (l : list A) (f : A → res unit) (ok : A → bool) e (s : S) :
  (∀ x, x ∈ l → f x = if ok x then Ok tt else Err e) →
  for_each l (λ x, lift (f x)) s = (if forallb ok l then Ok tt else Err e, s).
Proof.
  induction l as [|x l IH]; intros Hf; [done|]. cbn [for_each forallb]. rewrite (Hf x ltac:(by left)).
  destruct (ok x); [|done]. rewrite run_lift_ok. apply IH. intros y Hy. apply Hf. by right.
Qed.

Definition clean (r : Z) (pend : list (list Write)) : Prop := ∀ ws, ws ∈ pend → r ∉ (w_row <$> ws).
Definition ids_int32 (b : BlockTables) (new_block_ids : list (list Z)) : Prop :=
  ∀ g ids k, new_block_ids !! g = Some ids → blocks_per_kv_block b !! g = Some k → Forall is_int32 (expand k ids).

Lemma statics_groups b b' : statics b' = statics b → num_kv_cache_groups b' = num_kv_cache_groups b.
Proof. intros E. unfold num_kv_cache_groups. injection E as E _. by rewrite E. Qed.
Lemma statics_bpk b b' : statics b' = statics b → blocks_per_kv_block b' = blocks_per_kv_block b.
Proof. intros E. apply (f_equal (λ x, x.1.1.2.2)) in E. done. Qed.
Lemma statics_reqs b b' : statics b' = statics b → max_num_reqs b' = max_num_reqs b.
Proof. intros E. apply (f_equal (λ x, x.1.1.1.1.1.2)) in E. done. Qed.
Lemma statics_width b b' g : statics b' = statics b → width ∘ gpu <$> block_tables b' !! g = width ∘ gpu <$> block_tables b !! g.
Proof. intros E. apply (f_equal (λ x, x.1.2)) in E. cbn in E. by rewrite <- !list_lookup_fmap, E. Qed.

Lemma group_fits_statics b b' rows rows' r overwrite i ids :
  statics b' = statics b → rows' !! i = rows !! i → group_fits b' rows' r overwrite i ids = group_fits b rows r overwrite i ids.
Proof.
  intros E Hr. unfold group_fits. rewrite Hr, (statics_bpk _ _ E). pose proof (statics_width _ _ i E) as Hw.
  destruct (rows !! i); [|done]. destruct (blocks_per_kv_block b !! i); [|done].
  destruct (block_tables b' !! i), (block_tables b !! i); try done. cbn in Hw. injection Hw as Hw. by rewrite Hw.
Qed.

Lemma stage_group_ok n b pend rows (r : nat) (overwrite : bool) new_block_ids g ids ws :
  tables_ok n b pend rows → (g < num_kv_cache_groups b)%nat → new_block_ids !! g = Some ids →
  group_fits b rows r overwrite g ids = true → ids_int32 b new_block_ids →
  pend !! g = Some ws → Z.of_nat r ∉ (w_row <$> ws) →
  ∃ b' ws' R k, stage_group (Z.of_nat r) overwrite new_block_ids g b = (Ok tt, b') ∧
    rows !! g = Some R ∧ blocks_per_kv_block b !! g = Some k ∧
    tables_ok n b' (<[g := ws']> pend) (<[g := alter (appended overwrite (expand k ids)) r R]> rows) ∧ statics b' = statics b ∧
    ∀ q, q ≠ Z.of_nat r → q ∉ (w_row <$> ws) → q ∉ (w_row <$> ws').
Proof.
  intros Hok Hg Hids Hfit H32 Hws Hn.
  destruct (tables_lookup _ _ _ _ g Hok Hg) as (t & c & k & ws0 & R & Ht & Hc & Hk & Hpos & Hws0 & HR & Hgr).
  rewrite Hws in Hws0. injection Hws0 as <-.
  unfold group_fits in Hfit. rewrite HR, Hk, Ht in Hfit. destruct (R !! r) as [old|] eqn:Hold; [|done].
  apply Z.leb_le in Hfit. pose proof (expand_length k ids Hpos) as Hlen.
  destruct (group_append n t c ws R r old overwrite (expand k ids) Hgr Hold Hn) as (t' & ws' & Hst & Hgr' & Hw & Hq).
  { unfold appended. rewrite length_app. lia. }
  { by apply (H32 g). }
  unfold stage_group. rewrite run_get, (first_column_ok n b pend rows g r R old overwrite Hok HR Hold), run_lift_ok.
  unfold nth_res. rewrite Hids, Hk. cbn [res_of_option]. rewrite !run_lift_ok.
  assert (Hon : on_table g (stage_write (Z.of_nat r) (if overwrite then 0 else Z.of_nat (length old)) (expand k ids)) b
    = (Ok tt, set_tables (<[g := t']> (block_tables b)) b)) by (unfold on_table; by rewrite Ht, Hst).
  rewrite (M_bind_run _ _ _ _ _ Hon).
  assert (HR' : alter (appended overwrite (expand k ids)) r R = <[r := appended overwrite (expand k ids) old]> R).
  { apply list_eq. intros q. destruct (decide (q = r)) as [->|Hne].
    - rewrite list_lookup_alter_eq, Hold, list_lookup_insert_eq by (by eapply lookup_lt_Some). done.
    - by rewrite list_lookup_alter_ne, list_lookup_insert_ne by done. }
  destruct (tables_update n b pend rows g t t' _ ws' _ Hok Ht Hgr' Hw) as [Hok' Hs'].
  eexists _, ws', R, k. split; [done|]. split; [done|]. split; [done|]. rewrite HR'.
  replace (np_set g (Z.of_nat r) ((if overwrite then 0 else Z.of_nat (length old)) + Z.of_nat (length (expand k ids)))
      (num_blocks (set_tables (<[g:=t']> (block_tables b)) b)))
    with (mkBacked (<[g := <[r := Z.of_nat (length (appended overwrite (expand k ids) old))]> c]> (np (num_blocks b)))
            (pool (num_blocks b)) (gpu_view (num_blocks b))); [done|].
  unfold np_set. cbn. f_equal. rewrite Nat2Z.id. apply list_eq. intros q. destruct (decide (q = g)) as [->|Hne].
  - rewrite list_lookup_insert_eq, list_lookup_alter_eq, Hc by (by eapply lookup_lt_Some). cbn. do 2 f_equal.
    unfold appended. rewrite length_app. destruct overwrite; cbn; lia.
  - by rewrite list_lookup_alter_ne, list_lookup_insert_ne by done.
Qed.

Lemma stage_groups_ok n (r : nat) (overwrite : bool) new_block_ids (l : list nat) b pend rows :
  tables_ok n b pend rows → NoDup l → (∀ g, g ∈ l → (g < num_kv_cache_groups b)%nat) →
  (∀ g, g ∈ l → ∃ ids, new_block_ids !! g = Some ids ∧ group_fits b rows r overwrite g ids = true) → ids_int32 b new_block_ids →
  (∀ g ws, g ∈ l → pend !! g = Some ws → Z.of_nat r ∉ (w_row <$> ws)) →
  ∃ b' pend' rows', for_each l (stage_group (Z.of_nat r) overwrite new_block_ids) b = (Ok tt, b') ∧ tables_ok n b' pend' rows' ∧
    statics b' = statics b ∧ (∀ q, q ≠ Z.of_nat r → clean q pend → clean q pend') ∧
    (∀ g, g ∉ l → rows' !! g = rows !! g) ∧
    (∀ g ids k R, g ∈ l → new_block_ids !! g = Some ids → blocks_per_kv_block b !! g = Some k → rows !! g = Some R →
       rows' !! g = Some (alter (appended overwrite (expand k ids)) r R)).
Proof.
  revert b pend rows. induction l as [|g l IH]; intros b pend rows Hok Hnd Hlt Hfit H32 Hclean.
  { exists b, pend, rows. split_and!; try done. intros g ? ? ? Hg. by apply not_elem_of_nil in Hg. }
  apply NoDup_cons in Hnd as [Hng Hnd]. destruct (Hfit g ltac:(by left)) as (ids & Hids & Hf).
  pose proof (Hlt g ltac:(by left)) as Hg.
  destruct (lookup_lt_is_Some_2 pend g) as [ws Hws]; [by rewrite (to_pend _ _ _ _ Hok)|].
  destruct (stage_group_ok n b pend rows r overwrite new_block_ids g ids ws Hok Hg Hids Hf H32 Hws) as
    (b1 & ws' & R & k & E & HR & Hk & Hok1 & Hs1 & Hq1); [by apply (Hclean g); [left|]|].
  destruct (IH b1 (<[g := ws']> pend) _ Hok1 Hnd) as (b2 & pend2 & rows2 & E2 & Hok2 & Hs2 & Hq2 & Hout & Hin).
  - intros q Hq. rewrite (statics_groups _ _ Hs1). apply Hlt. by right.
  - intros q Hq. destruct (Hfit q ltac:(by right)) as (ids' & Hids' & Hf'). exists ids'. split; [done|].
    rewrite (group_fits_statics b b1 rows); [done|done|]. apply list_lookup_insert_ne. by intros ->.
  - intros q ids' k' Hi Hk'. rewrite (statics_bpk _ _ Hs1) in Hk'. by apply (H32 q).
  - intros q ws1 Hq. rewrite list_lookup_insert_ne by (by intros ->). apply Hclean. by right.
  - exists b2, pend2, rows2. cbn [for_each]. rewrite (M_bind_run _ _ _ _ _ E). split_and!; [done|done|congruence| | |].
    + intros q Hne Hc. apply Hq2; [done|]. intros w Hw. apply list_elem_of_lookup in Hw as [j Hj].
      destruct (decide (j = g)) as [->|Hjg].
      * rewrite list_lookup_insert_eq in Hj by (by eapply lookup_lt_Some). injection Hj as <-.
        apply Hq1; [done|]. apply Hc. by eapply list_elem_of_lookup_2.
      * rewrite list_lookup_insert_ne in Hj by done. apply Hc. by eapply list_elem_of_lookup_2.
    + intros q Hq. rewrite Hout by set_solver. apply list_lookup_insert_ne. set_solver.
    + intros q ids' k' R' [->|Hq]%elem_of_cons Hi Hk' HR'.
      * rewrite Hout by done. rewrite list_lookup_insert_eq by (by eapply lookup_lt_Some). congruence.
      * rewrite <- (statics_bpk _ _ Hs1) in Hk'. apply (Hin q); [done|done|done|]. rewrite list_lookup_insert_ne; [done|]. by intros ->.
Qed.

Lemma append_rows_lookup n b pend rows r ids overwrite rows' :
  tables_ok n b pend rows → length rows' = length rows → length ids = length rows →
  (∀ g x k R, ids !! g = Some x → blocks_per_kv_block b !! g = Some k → rows !! g = Some R →
     rows' !! g = Some (alter (appended overwrite (expand k x)) r R)) →
  rows' = append_rows b r ids overwrite rows.
Proof.
  intros Hok Hl Hi Hin. apply list_eq. intros g. unfold append_rows. rewrite list_lookup_imap.
  destruct (rows !! g) as [R|] eqn:HR; cbn.
  - pose proof (lookup_lt_Some _ _ _ HR) as Hg. destruct (lookup_lt_is_Some_2 ids g ltac:(lia)) as [x Hx].
    rewrite (to_rows _ _ _ _ Hok) in Hg. destruct (tables_lookup _ _ _ _ g Hok Hg) as (_ & _ & k & _ & _ & _ & _ & Hk & _).
    rewrite Hx, Hk. by eapply Hin.
  - apply lookup_ge_None in HR. apply lookup_ge_None. lia.
Qed.

(** An append does what its list says, or raises and changes nothing. *)
Lemma append_blocks_ok n b pend rows req new_block_ids overwrite :
  tables_ok n b pend rows → clean req pend → ids_int32 b new_block_ids →
  if append_fits b rows req new_block_ids overwrite
  then ∃ b' pend', append_block_ids req new_block_ids overwrite b = (Ok tt, b') ∧
    tables_ok n b' pend' (append_rows b (Z.to_nat req) new_block_ids overwrite rows) ∧ statics b' = statics b ∧
    ∀ q, q ≠ req → clean q pend → clean q pend'
  else append_block_ids req new_block_ids overwrite b = (Err ValueError, b).
Proof.
  intros Hok Hclean H32. unfold append_fits, append_block_ids. rewrite run_get.
  destruct (Z.leb_spec 0 req) as [H0|H0]; cbn [andb].
  2:{ by rewrite bool_decide_eq_false_2 by lia. }
  destruct (Z.ltb_spec req (max_num_reqs b)) as [H1|H1]; cbn [andb].
  2:{ by rewrite bool_decide_eq_false_2 by lia. }
  rewrite bool_decide_eq_true_2 by lia. cbn [negb orb].
  destruct (Nat.eqb_spec (length new_block_ids) (num_kv_cache_groups b)) as [Hl|Hl]; cbn [andb negb]; [|done].
  rewrite run_raise_if_false. pose proof (lo_reqs _ _ (to_layout _ _ _ _ Hok)) as Hn.
  set (r := Z.to_nat req). assert (Hreq : req = Z.of_nat r) by (unfold r; lia). rewrite Hreq in *. clearbody r. clear Hreq.
  assert (Hc : ∀ g, g ∈ enumerate new_block_ids → validate_group b (Z.of_nat r) overwrite g =
    if group_fits b rows r overwrite g.1 g.2 then Ok tt else Err ValueError).
  { intros [g ids] Hg%list_elem_of_lookup. destruct Hg as (i & [E Hi]%enumerate_lookup). cbn in E, Hi. subst g.
    apply (validate_group_ok n b pend rows); [done| |lia]. apply lookup_lt_Some in Hi. cbn. lia. }
  pose proof (for_each_check (enumerate new_block_ids) _ _ ValueError b Hc) as E. cbn beta in E.
  destruct (forallb _ (enumerate new_block_ids)) eqn:Hall.
  2:{ by rewrite (M_bind_err _ _ _ _ _ E). }
  rewrite (M_bind_run _ _ _ _ _ E). rewrite forallb_forall in Hall.
  destruct (stage_groups_ok n r overwrite new_block_ids (seq 0 (num_kv_cache_groups b)) b pend rows Hok) as
    (b' & pend' & rows' & E' & Hok' & Hs & Hq & _ & Hin).
  - apply NoDup_seq.
  - intros g Hg%elem_of_seq. lia.
  - intros g Hg%elem_of_seq. destruct (lookup_lt_is_Some_2 new_block_ids g ltac:(lia)) as [ids Hids]. exists ids. split; [done|].
    apply (Hall (g, ids)). apply list_elem_of_In. apply list_elem_of_lookup. exists g. by apply enumerate_lookup.
  - done.
  - intros g ws _ Hws. apply Hclean. by eapply list_elem_of_lookup_2.
  - exists b', pend'. split; [done|]. split; [|done].
    rewrite <- (append_rows_lookup n b pend rows r new_block_ids overwrite rows'); [done|done| | |].
    + rewrite (to_rows _ _ _ _ Hok'), (to_rows _ _ _ _ Hok). by apply statics_groups.
    + by rewrite (to_rows _ _ _ _ Hok).
    + intros g x k R Hx Hk HR. eapply Hin; try done. apply elem_of_seq. apply lookup_lt_Some in Hx. lia.
Qed.

(** * Applications *)

Lemma group_applied n t t' c ws R : group_ok n t c ws R → applied n ws t t' → group_ok n t' c [] R.
Proof.
  intros [[] Hl Hc Hfit Hrep] (Hs' & Hw & Hlen & Hin & Hout). constructor; [done|done|done|by rewrite Hw|].
  intros r x Hx. rewrite Hw. left. split; [by apply not_elem_of_nil|]. intros i v Hv.
  pose proof (proj1 (Forall_lookup _ _) Hfit r x Hx) as Hfx. cbn in Hfx. pose proof (lookup_lt_Some _ _ _ Hv) as Hi.
  (* a cell that no write of the row covers is as it was *)
  assert (Hkeep : (∀ w, w ∈ ws → w_row w = Z.of_nat r → Z.of_nat i < w_start w) → cells (gpu t') !! Z.to_nat (Z.of_nat r * width (gpu t) + Z.of_nat i)
    = cells (gpu t) !! Z.to_nat (Z.of_nat r * width (gpu t) + Z.of_nat i)).
  { intros Hno. apply Hout. intros w k Hw' Hk E. destruct so_writes as [Hwo _]. rewrite Forall_forall in Hwo.
    destruct (Hwo w Hw') as (_ & H0 & H1 & _). rewrite Z2Nat.id in E by nia.
    destruct (row_address (width (gpu t)) (w_row w) (w_start w + Z.of_nat k) (Z.of_nat r) (Z.of_nat i)) as [Er Ec]; [lia..|].
    specialize (Hno w Hw' Er). lia. }
  destruct (Hrep r x Hx) as [[Hn Hh]|(pre & new & -> & Hh & Hwin)].
  - rewrite Hkeep; [by apply Hh|]. intros w Hw' Er. exfalso. apply Hn. rewrite <- Er. apply list_elem_of_fmap. eauto.
  - destruct (Nat.lt_ge_cases i (length pre)) as [Hlt|Hge].
    + rewrite lookup_app_l in Hv by done. rewrite Hkeep; [by apply Hh|]. intros w Hw' Er.
      destruct so_writes as [_ Hnd].
      assert (w = (Z.of_nat r, Z.of_nat (length pre), new)) as ->; [|cbn; lia].
      by apply (NoDup_fmap_inj w_row ws).
    + rewrite lookup_app_r in Hv by done. pose proof (Hin _ _ _ Hwin Hv) as Hc'. cbn in Hc'. rewrite <- Hc'. f_equal. lia.
Qed.

Lemma publish_np_ok n (t : UvaBackedTensor) : pool_ok n (pool t) → (length (np t) ≤ n)%nat →
  ∃ t', publish_np t = (Ok tt, t') ∧ pool_ok n (pool t') ∧ np t' = np t ∧ backed_gpu t' = np t.
Proof.
  intros Hp Hl. destruct (copy_to_uva_ok n (pool t) (np t) Hp Hl) as (v & p & E & Hp' & Hr & _).
  eexists. unfold publish_np. rewrite E. split_and!; done.
Qed.

(** The tables after every group has been applied. *)
Lemma tables_applied n b b' pend rows : tables_ok n b pend rows → layout_ok n b' → statics b' = statics b → np (num_blocks b') = np (num_blocks b) →
  (∀ g t ws, block_tables b !! g = Some t → pend !! g = Some ws → ∃ t', block_tables b' !! g = Some t' ∧ applied n ws t t') →
  tables_ok n b' (replicate (num_kv_cache_groups b) []) rows.
Proof.
  intros Hok Hlo Hs Hnp Hap. constructor; [done|by rewrite length_replicate, (statics_groups _ _ Hs)|rewrite (statics_groups _ _ Hs); apply Hok|].
  intros g t' c ws' R Ht' Hc Hws' HR. apply lookup_replicate in Hws' as [-> Hg].
  destruct (tables_lookup _ _ _ _ g Hok Hg) as (t & c0 & k & ws & R0 & Ht & Hc0 & _ & _ & Hws & HR0 & Hgr).
  destruct (Hap g t ws Ht Hws) as (t1 & Ht1 & Happ). rewrite Hnp in Hc.
  assert (t1 = t') as -> by congruence. assert (c0 = c) as -> by congruence. assert (R0 = R) as -> by congruence.
  by eapply group_applied.
Qed.

Lemma width_statics n b l (pend : list (list Write)) :
  length l = length (block_tables b) → length pend = length (block_tables b) →
  (∀ g t ws, block_tables b !! g = Some t → pend !! g = Some ws → ∃ t', l !! g = Some t' ∧ applied n ws t t') →
  width ∘ gpu <$> l = width ∘ gpu <$> block_tables b.
Proof.
  intros Hl Hp Hap. apply list_eq. intros g. rewrite !list_lookup_fmap. destruct (block_tables b !! g) as [t|] eqn:Ht.
  - destruct (lookup_lt_is_Some_2 pend g) as [ws Hws]; [rewrite Hp; by eapply lookup_lt_Some|].
    destruct (Hap g t ws Ht Hws) as (t' & -> & _ & Hw & _). cbn. by rewrite Hw.
  - apply lookup_ge_None in Ht. assert (l !! g = None) as -> by (apply lookup_ge_None; lia). done.
Qed.

Section applied.
Context {G : Gpu} {GL : GpuLaws G}.

(** Applying what is staged: it never raises, and leaves nothing staged. *)
Lemma apply_tables_ok n b pend rows : tables_ok n b pend rows →
  ∃ b', apply_staged_writes b = (Ok tt, b') ∧ tables_ok n b' (replicate (num_kv_cache_groups b) []) rows ∧ statics b' = statics b ∧
    ((0 < num_kv_cache_groups b)%nat → backed_gpu (num_blocks b') = np (num_blocks b')).
Proof using GL.
  intros Hok. pose proof (to_layout _ _ _ _ Hok) as Hlo. unfold apply_staged_writes. rewrite run_get.
  destruct (Nat.eqb_spec (num_kv_cache_groups b) 0) as [Hz|Hz].
  { exists b. split_and!; [done| |done|lia]. apply (tables_applied n b b pend); try done. intros g t ws Ht.
    apply lookup_lt_Some in Ht. pose proof (lo_tables _ _ Hlo). lia. }
  (* the tables, whichever kernel is launched *)
  assert (Ht : ∃ l w, (if (num_kv_cache_groups b =? 1)%nat then on_table 0 apply_write else apply_fused) b
      = (Ok tt, set_tables l (set_fused_writer w b)) ∧ length l = length (block_tables b) ∧
      ((1 < num_kv_cache_groups b)%nat → ∃ w0, w = Some w0 ∧ fused_ok (num_kv_cache_groups b * n) w0) ∧
      ∀ g t ws, block_tables b !! g = Some t → pend !! g = Some ws → ∃ t', l !! g = Some t' ∧ applied n ws t t').
  { destruct (Nat.eqb_spec (num_kv_cache_groups b) 1) as [H1|H1].
    - destruct (tables_lookup _ _ _ _ 0%nat Hok ltac:(lia)) as (t & c & k & ws & R & Ht & _ & _ & _ & Hws & _ & [Hs _ _ _ _]).
      destruct (apply_write_ok n t ws Hs) as (t' & E & Happ). exists (<[0%nat := t']> (block_tables b)), (fused_writer b).
      split_and!; [|by rewrite length_insert|lia|].
      + unfold on_table. rewrite Ht, E. by destruct b.
      + intros g t1 ws1 Ht1 Hws1. assert (g = 0%nat) as ->.
        { apply lookup_lt_Some in Ht1. pose proof (lo_tables _ _ Hlo). lia. }
        exists t'. rewrite list_lookup_insert_eq by (by eapply lookup_lt_Some). split; [done|].
        assert (t1 = t) as -> by congruence. assert (ws1 = ws) as -> by congruence. done.
    - destruct (lo_fused _ _ Hlo ltac:(lia)) as (w & Hw & Hfw).
      destruct (fused_apply_ok n (num_kv_cache_groups b * n) (block_tables b) pend w) as (l & w' & E & Hfw' & Hl & Hap); [|done| |].
      + apply Forall2_same_length_lookup. split; [rewrite (lo_tables _ _ Hlo); symmetry; apply Hok|].
        intros g t ws Ht Hws. pose proof (lookup_lt_Some _ _ _ Ht) as Hg. rewrite (lo_tables _ _ Hlo) in Hg.
        destruct (tables_lookup _ _ _ _ g Hok Hg) as (t0 & c & k & ws0 & R & Ht0 & _ & _ & _ & Hws0 & _ & [Hs _ _ _ _]).
        assert (t0 = t) as -> by congruence. assert (ws0 = ws) as -> by congruence. done.
      + rewrite (lo_tables _ _ Hlo). lia.
      + exists l, (Some w'). split_and!; [|done|by exists w'|done]. unfold apply_fused. by rewrite Hw, E. }
  destruct Ht as (l & w & E & Hl & Hw & Hap). rewrite (M_bind_run _ _ _ _ _ E).
  destruct (publish_np_ok (num_kv_cache_groups b) (num_blocks b)) as (nb & Epub & Hp' & Hnp & Hback); [apply Hlo|by rewrite (lo_np _ _ Hlo)|].
  eexists. split; [unfold on_num_blocks; cbn; rewrite Epub; done|].
  assert (Hst : statics (set_num_blocks nb (set_tables l (set_fused_writer w b))) = statics b).
  { unfold statics. cbn. do 2 f_equal. eapply width_statics; [done| |done]. rewrite (lo_tables _ _ Hlo). apply Hok. }
  split_and!; [|done|cbn; by rewrite Hback, Hnp].
  eapply tables_applied; [done| |done|done|done]. destruct Hlo. constructor; try done; cbn.
  - by etrans.
  - by rewrite Hnp.
Qed.
End applied.
