(* ===== verification/CpSessions.v ===== *)
(** Sessions on the block tables: construction, any appends and applications
    of staged writes, and the tables gathered for a step. *)
From S2P Require Import Prelude CpBuffers CpTables CpStaged CpTablesInv.
From stdpp Require Import base list gmap sets.
From Stdlib Require Import ZArith Lia.
#[local] Open Scope Z_scope.

(** * Construction *)

Section init.
Context {G : Gpu} {GL : GpuLaws G}.

Lemma pool_init_ok {A} n (zero : A) m p : (0 < m)%nat → UvaBufferPool_init n zero m = Ok p → pool_ok n p.
Proof.
  intros Hm. unfold UvaBufferPool_init, UvaBuffer_init. destruct uva_available.
  - rewrite (map_res_ok _ (λ _, replicate n zero)) by done. intros [= <-]. split_and!; cbn; [done|destruct m; [lia|done]|].
    apply Forall_forall. intros l (i & -> & _)%list_elem_of_fmap. apply length_replicate.
  - destruct m; [lia|done].
Qed.

Lemma staged_init_ok rows w m t : (0 < m)%nat → StagedWriteTensor_init rows w m = Ok t →
  0 ≤ rows ∧ width (gpu t) = w ∧ cells (gpu t) = replicate (Z.to_nat rows * Z.to_nat w) 0 ∧ staged_ok (Z.to_nat rows) t [].
Proof.
  intros Hm. unfold StagedWriteTensor_init. case_bool_decide as Hn; [done|]. intros H.
  apply res_bind_ok in H as (p1 & H1 & H). apply res_bind_ok in H as (p2 & H2 & H). apply res_bind_ok in H as (p3 & H3 & H).
  injection H as <-. apply pool_init_ok in H1, H2, H3; [|done..]. split_and!; cbn; try done; [lia|].
  constructor; cbn; try done; [|lia|split; constructor]. rewrite length_replicate. nia.
Qed.

Lemma backed_init_ok rows w m t : (0 < m)%nat → UvaBackedTensor_init rows w m = Ok t →
  np t = replicate rows (replicate w 0) ∧ pool_ok rows (pool t).
Proof.
  intros Hm. unfold UvaBackedTensor_init. intros H. apply res_bind_ok in H as (p & Hp & H). apply pool_init_ok in Hp; [|done].
  destruct (copy_to_uva_ok rows p (replicate rows (replicate w 0)) Hp) as (v & p' & E & Hp' & _); [by rewrite length_replicate|].
  rewrite E in H. injection H as <-. done.
Qed.

(** The kernel blocks are no longer than the blocks. *)
Definition sizes_ok (block_sizes kernel_block_sizes : list Z) : Prop :=
  ∀ i bs kbs, block_sizes !! i = Some bs → kernel_block_sizes !! i = Some kbs → 0 < kbs ≤ bs.
Definition no_rows (groups n : nat) : list (list (list Z)) := replicate groups (replicate n []).

Lemma empty_group_ok n t : staged_ok n t [] → group_ok n t (replicate n 0) [] (replicate n []).
Proof.
  intros Hs. constructor; [done|by rewrite length_replicate|by rewrite fmap_replicate| |].
  - apply Forall_replicate. apply Hs.
  - intros r x [-> _]%lookup_replicate. left. split; [by apply not_elem_of_nil|by intros ??].
Qed.

(** [BlockTables_init] with the values of its configuration. *)
Record built (block_sizes_ kernel_block_sizes_ : list Z) (reqs tokens cp_size_ cp_rank_ interleave : Z) (b : BlockTables) : Prop := {
  bu_tables : tables_ok (Z.to_nat reqs) b (replicate (length block_sizes_) []) (no_rows (length block_sizes_) (Z.to_nat reqs));
  bu_sizes : block_sizes b = block_sizes_;
  bu_kernel : kernel_block_sizes b = kernel_block_sizes_;
  bu_cp : cp_size b = cp_size_ ∧ cp_rank b = cp_rank_ ∧ cp_interleave b = interleave;
  bu_groups : length (cp_sizes b) = length block_sizes_ ∧ length (slot_mapping_enabled b) = length block_sizes_ ∧
    (length block_sizes_ ≤ length kernel_block_sizes_)%nat;
  bu_cp_sizes : Forall (λ c, c = 1 ∨ c = cp_size_) (cp_sizes b);
  bu_inputs : input_block_tables b = zeros_like ∘ gpu <$> block_tables b;
  bu_slots : 0 ≤ tokens ∧ slot_mappings b = mkTensor tokens (replicate (length block_sizes_ * Z.to_nat tokens) 0);
  bu_reqs : 0 ≤ reqs }.

Lemma group_cp_sizes_ok groups c o l : group_cp_sizes groups c o = Ok l → length l = groups ∧ Forall (λ x, x = 1 ∨ x = c) l.
Proof.
  unfold group_cp_sizes. destruct (_ || _) eqn:E; [done|]. intros [= <-]. apply orb_false_iff in E as [E1 E2].
  split; [by apply negb_false_iff, Nat.eqb_eq in E1|]. apply Forall_forall. intros x Hx.
  pose proof (existsb_false _ _ x E2 Hx) as H. apply negb_false_iff, bool_decide_eq_true in H. set_solver.
Qed.

Lemma BlockTables_init_ok block_sizes reqs tokens max_blocks kernel_block_sizes cp rank interleave enabled sizes m b :
  (0 < m)%nat → sizes_ok block_sizes kernel_block_sizes →
  BlockTables_init block_sizes reqs tokens max_blocks kernel_block_sizes cp rank interleave enabled sizes m = Ok b →
  built block_sizes kernel_block_sizes reqs tokens cp rank interleave b.
Proof.
  intros Hm Hsz. unfold BlockTables_init. intros H.
  apply res_bind_ok in H as (cps & [Hcl Hcs]%group_cp_sizes_ok & H). apply res_bind_ok in H as ([] & Hmb & H).
  apply res_bind_ok in H as ([] & He%check_ok%Nat.eqb_eq & H). apply res_bind_ok in H as (bpk & Hbpk%map_res_inv & H).
  apply res_bind_ok in H as (tables & Ht%map_res_inv & H). apply res_bind_ok in H as (nb & Hnb & H).
  apply res_bind_ok in H as (writer & Hw & H). destruct (bool_decide (tokens < 0)) eqn:Htok; [done|]. injection H as <-.
  apply bool_decide_eq_false in Htok. destruct (bool_decide (reqs < 0)) eqn:Hreqs; [done|]. apply bool_decide_eq_false in Hreqs. apply backed_init_ok in Hnb as [Hnp Hpool]; [|done].
  pose proof (Forall2_length _ _ _ Ht) as Htl. rewrite length_seq in Htl.
  (* the tables *)
  assert (Htab : ∀ g t, tables !! g = Some t → (∃ k, bpk !! g = Some k) ∧ staged_ok (Z.to_nat reqs) t []).
  { intros g t Hg. destruct (Forall2_lookup_r _ _ _ _ _ Ht Hg) as (i & [-> _]%lookup_seq & Hi). unfold table_init in Hi.
    apply res_bind_ok in Hi as (mb & _ & Hi). apply res_bind_ok in Hi as (k & Hk & Hi). cbn in Hk, Hi.
    unfold nth_res in Hk. destruct (bpk !! g) as [k'|] eqn:Ek; [|done]. split; [eauto|]. by eapply staged_init_ok. }
  pose proof (Forall2_length _ _ _ Hbpk) as Hbl. rewrite length_zip_with in Hbl.
  assert (Hlen : (length block_sizes ≤ length bpk)%nat).
  { destruct (length block_sizes) as [|k] eqn:El; [lia|]. destruct (lookup_lt_is_Some_2 tables k ltac:(lia)) as [t Hk].
    destruct (Htab k t Hk) as [[x Hx] _]. apply lookup_lt_Some in Hx. lia. }
  constructor; cbn; try done; [| |split; [lia|done]|lia].
  - constructor; [constructor|..]; cbn; unfold num_kv_cache_groups, no_rows; cbn; rewrite ?length_replicate; try done; try lia.
    + rewrite Hnp. apply length_replicate.
    + apply Forall_lookup. intros i k Hk. destruct (Forall2_lookup_r _ _ _ _ _ Hbpk Hk) as ([bs kbs] & Hz & Hd).
      apply lookup_zip_with_Some in Hz as (bs' & kbs' & [= <- <-] & H1 & H2). pose proof (Hsz i bs kbs H1 H2) as [Hk0 Hle].
      unfold floordiv in Hd. cbn in Hd. rewrite (proj2 (Z.eqb_neq kbs 0)) in Hd by lia. injection Hd as <-.
      apply Z.div_le_lower_bound; lia.
    + intros Hg. rewrite bool_decide_eq_true_2 in Hw by done.
      apply res_bind_ok in Hw as (w & Hf & Hw). injection Hw as <-. exists w. split; [done|]. unfold FusedStagedWriter_init in Hf.
      apply res_bind_ok in Hf as (p1 & H1 & Hf). apply res_bind_ok in Hf as (p2 & H2 & Hf). apply res_bind_ok in Hf as (p3 & H3 & Hf).
      apply res_bind_ok in Hf as (p4 & H4 & Hf). injection Hf as <-. apply pool_init_ok in H1, H2, H3, H4; [|done..]. done.
    + intros g t c ws R Hgt Hgc [-> _]%lookup_replicate [-> _]%lookup_replicate. rewrite Hnp in Hgc.
      apply lookup_replicate in Hgc as [-> _]. apply empty_group_ok. by eapply Htab.
  - split_and!; try done. lia.
Qed.
End init.

(** * Sessions *)

Inductive Event :=
  | EAppend (req : Z) (new_block_ids : list (list Z)) (overwrite : bool)
  | EApply.

(** What the calls return or raise, and the tables after them. *)
Definition run_event `{Gpu} (e : Event) : M BlockTables unit :=
  match e with
  | EAppend req ids overwrite => append_block_ids req ids overwrite
  | EApply => apply_staged_writes
  end.
Fixpoint run_events `{Gpu} (es : list Event) (b : BlockTables) : list (res unit) * BlockTables :=
  match es with
  | [] => ([], b)
  | e :: es => let '(r, b) := run_event e b in let '(rs, b) := run_events es b in (r :: rs, b)
  end.

(** The specification: a list of kernel blocks for every request of every
    group; [b] gives the sizes. *)
Definition spec_event (b : BlockTables) (e : Event) (rows : list (list (list Z))) : res unit * list (list (list Z)) :=
  match e with
  | EAppend req ids overwrite =>
    if append_fits b rows req ids overwrite then (Ok tt, append_rows b (Z.to_nat req) ids overwrite rows) else (Err ValueError, rows)
  | EApply => (Ok tt, rows)
  end.
Fixpoint spec_events (b : BlockTables) (es : list Event) (rows : list (list (list Z))) : list (res unit) * list (list (list Z)) :=
  match es with
  | [] => ([], rows)
  | e :: es => let '(r, rows) := spec_event b e rows in let '(rs, rows) := spec_events b es rows in (r :: rs, rows)
  end.

(** Between two applications a request is appended to once, as in a step of
    the engine, and block numbers fit the table's int32 cells. *)
Fixpoint legal (b : BlockTables) (touched : list Z) (es : list Event) : Prop :=
  match es with
  | [] => True
  | EAppend req ids overwrite :: es => (req ∉ touched) ∧ ids_int32 b ids ∧ legal b (req :: touched) es
  | EApply :: es => legal b [] es
  end.

Lemma spec_event_statics b b' e rows : statics b' = statics b → spec_event b' e rows = spec_event b e rows.
Proof.
  intros E. destruct e as [req ids overwrite|]; [|done]. unfold spec_event, append_fits, append_rows.
  rewrite (statics_reqs _ _ E), (statics_groups _ _ E), (statics_bpk _ _ E).
  replace (forallb (λ g, group_fits b' rows (Z.to_nat req) overwrite g.1 g.2) (enumerate ids))
    with (forallb (λ g, group_fits b rows (Z.to_nat req) overwrite g.1 g.2) (enumerate ids)); [done|].
  generalize (enumerate ids). intros l. induction l as [|x l IH]; [done|]. cbn [forallb]. by rewrite IH, (group_fits_statics b b' rows rows).
Qed.

Lemma run_events_app `{Gpu} es1 es2 b : run_events (es1 ++ es2) b =
  let '(rs1, b1) := run_events es1 b in let '(rs2, b2) := run_events es2 b1 in (rs1 ++ rs2, b2).
Proof.
  revert b. induction es1 as [|e es1 IH]; intros b; cbn [run_events app]; [by destruct (run_events es2 b)|].
  destruct (run_event e b) as [r b1]. rewrite IH. destruct (run_events es1 b1) as [rs b2]. by destruct (run_events es2 b2).
Qed.
Lemma spec_events_app b es1 es2 rows : spec_events b (es1 ++ es2) rows =
  let '(rs1, rows1) := spec_events b es1 rows in let '(rs2, rows2) := spec_events b es2 rows1 in (rs1 ++ rs2, rows2).
Proof.
  revert rows. induction es1 as [|e es1 IH]; intros rows; cbn [spec_events app]; [by destruct (spec_events b es2 rows)|].
  destruct (spec_event b e rows) as [r rows1]. rewrite IH. destruct (spec_events b es1 rows1) as [rs rows2]. by destruct (spec_events b es2 rows2).
Qed.

(** Events that do not overwrite a request only extend its blocks. *)
Lemma spec_events_extend b es rows g R (r : nat) x : (∀ ids, EAppend (Z.of_nat r) ids true ∉ es) →
  rows !! g = Some R → R !! r = Some x →
  ∃ R' y, (spec_events b es rows).2 !! g = Some R' ∧ R' !! r = Some (x ++ y).
Proof.
  revert rows R x. induction es as [|e es IH]; intros rows R x Hno HR Hx; [exists R, []; by rewrite app_nil_r|].
  assert (Hno' : ∀ ids, EAppend (Z.of_nat r) ids true ∉ es) by (intros ids Hin; apply (Hno ids); by right).
  cbn [spec_events]. assert (He : ∃ R1 y, (spec_event b e rows).2 !! g = Some R1 ∧ R1 !! r = Some (x ++ y)).
  { destruct e as [req ids overwrite|]; [|exists R, []; by rewrite app_nil_r]. cbn [spec_event].
    destruct (append_fits b rows req ids overwrite) eqn:Hf; [|exists R, []; by rewrite app_nil_r].
    cbn [snd]. unfold append_rows. rewrite list_lookup_imap, HR. cbn [fmap option_fmap option_map].
    destruct (ids !! g) as [l|]; [|exists R, []; by rewrite app_nil_r].
    destruct (blocks_per_kv_block b !! g) as [k|]; [|exists R, []; by rewrite app_nil_r].
    exists (alter (appended overwrite (expand k l)) (Z.to_nat req) R). destruct (decide (Z.to_nat req = r)) as [Er|Hne].
    - rewrite Er. exists (expand k l). split; [done|]. rewrite list_lookup_alter_eq, Hx. cbn. f_equal. destruct overwrite; [|done].
      exfalso. apply (Hno ids). unfold append_fits in Hf. rewrite !andb_true_iff in Hf. destruct Hf as [[[H0%Z.leb_le _] _] _].
      assert (Z.of_nat r = req) as -> by lia. by left.
    - exists []. split; [done|]. rewrite app_nil_r. by rewrite list_lookup_alter_ne. }
  destruct He as (R1 & y & HR1 & Hx1). destruct (spec_event b e rows) as [res1 rows1]. cbn [snd] in HR1.
  destruct (IH rows1 R1 (x ++ y) Hno' HR1 Hx1) as (R2 & z & HR2 & Hx2). destruct (spec_events b es rows1) as [rs rows2].
  exists R2, (y ++ z). split; [done|]. by rewrite app_assoc.
Qed.

(** The tables are settled: nothing is staged, and the GPU has the counts. *)
Definition settled_tables (n : nat) (b : BlockTables) (rows : list (list (list Z))) : Prop :=
  tables_ok n b (replicate (num_kv_cache_groups b) []) rows ∧
  ((0 < num_kv_cache_groups b)%nat → backed_gpu (num_blocks b) = np (num_blocks b)).

Section sessions.
Context {G : Gpu} {GL : GpuLaws G}.

Lemma clean_replicate q k : clean q (replicate k []).
Proof. intros ws Hws. apply list_elem_of_lookup in Hws as (i & [-> _]%lookup_replicate). by apply not_elem_of_nil. Qed.

(** Events keep the representation and answer as the specification does. *)
Lemma events_refine b0 n es touched b pend rows :
  statics b = statics b0 → tables_ok n b pend rows → (∀ q, q ∉ touched → clean q pend) → legal b0 touched es →
  (run_events es b).1 = (spec_events b0 es rows).1 ∧ statics (run_events es b).2 = statics b0 ∧
  ∃ pend', tables_ok n (run_events es b).2 pend' (spec_events b0 es rows).2.
Proof using GL.
  revert touched b pend rows. induction es as [|e es IH]; intros touched b pend rows Hs Hok Hcl Hleg; [by split_and!; eauto|].
  cbn [run_events spec_events]. destruct e as [req ids overwrite|].
  - destruct Hleg as (Hnt & H32 & Hleg). pose proof (append_blocks_ok n b pend rows req ids overwrite Hok (Hcl req Hnt)) as Ha.
    rewrite <- (spec_event_statics b0 b) by done. cbn [run_event spec_event].
    destruct (append_fits b rows req ids overwrite).
    + destruct Ha as (b1 & pend1 & E & Hok1 & Hs1 & Hq).
      { intros g x k Hx Hk. rewrite (statics_bpk _ _ Hs) in Hk. by apply (H32 g). }
      rewrite E. destruct (IH (req :: touched) b1 pend1 _ ltac:(congruence) Hok1) as (H1 & H2 & H3); [|done|].
      { intros q Hq'. apply Hq; [set_solver|]. apply Hcl. set_solver. }
      destruct (run_events es b1), (spec_events b0 es _). cbn in *. split_and!; [congruence|done|done].
    + rewrite Ha. 2:{ intros g x k Hx Hk. rewrite (statics_bpk _ _ Hs) in Hk. by apply (H32 g). }
      destruct (IH (req :: touched) b pend rows Hs Hok) as (H1 & H2 & H3); [|done|].
      { intros q Hq'. apply Hcl. set_solver. }
      destruct (run_events es b), (spec_events b0 es _). cbn in *. split_and!; [congruence|done|done].
  - cbn in Hleg. destruct (apply_tables_ok n b pend rows Hok) as (b1 & E & Hok1 & Hs1 & _). cbn [run_event spec_event]. rewrite E.
    destruct (IH [] b1 _ rows ltac:(congruence) Hok1) as (H1 & H2 & H3); [|done|].
    { intros q _. apply clean_replicate. }
    destruct (run_events es b1), (spec_events b0 es _). cbn in *. split_and!; [congruence|done|done].
Qed.

(** A session that ends with an application leaves settled tables. *)
Lemma session_settles b0 n es b pend rows :
  statics b = statics b0 → tables_ok n b pend rows → (∀ q, clean q pend) → legal b0 [] es →
  (run_events (es ++ [EApply]) b).1 = (spec_events b0 es rows).1 ++ [Ok tt] ∧
  statics (run_events (es ++ [EApply]) b).2 = statics b0 ∧
  settled_tables n (run_events (es ++ [EApply]) b).2 (spec_events b0 es rows).2.
Proof using GL.
  intros Hs Hok Hcl Hleg. destruct (events_refine b0 n es [] b pend rows Hs Hok ltac:(auto) Hleg) as (H1 & H2 & pend' & H3).
  rewrite run_events_app. destruct (run_events es b) as [rs b1]. cbn [fst snd] in *. cbn [run_events run_event].
  destruct (apply_tables_ok n b1 pend' _ H3) as (b2 & E & Hok2 & Hs2 & Hb). rewrite E. cbn [fst snd].
  split_and!; [by rewrite H1|congruence|]. unfold settled_tables. rewrite (statics_groups _ _ Hs2). split; [done|]. exact Hb.
Qed.
End sessions.

(** * Gathering *)

(** Row [i] of the tensor that a step reads, for request [r]; a row of zeros
    beyond the requests. *)
Definition gathered_row (rows : list (list Z)) (idx_mapping : list Z) (width : Z) (i : Z) : list Z :=
  match idx_mapping !! Z.to_nat i with
  | Some r => rows !!! Z.to_nat r
  | None => replicate (Z.to_nat width) 0
  end.

Lemma concat_lookup {A} n (ls : list (list A)) g l i v :
  Forall (λ l, length l = n) ls → ls !! g = Some l → l !! i = Some v → concat ls !! (g * n + i)%nat = Some v.
Proof.
  revert g. induction ls as [|l0 ls IH]; intros g; [done|]. intros [Hl Hls]%Forall_cons. destruct g as [|g]; cbn.
  - intros [= ->] Hi. rewrite lookup_app_l by (by eapply lookup_lt_Some). done.
  - intros Hg Hi. rewrite lookup_app_r by lia. replace (n + g * n + i - length l0)%nat with (g * n + i)%nat by lia. by apply IH.
Qed.

(** The arguments are legal: the requests are those of rows, and the outputs
    have the shape of the tables. *)
Record gather_args (n : nat) (b : BlockTables) (idx_mapping : list Z) (num_reqs_padded : Z) (dst : list GpuTensor) : Prop := {
  ga_idx : Forall (λ r, 0 ≤ r < Z.of_nat n) idx_mapping;
  ga_padded : 0 ≤ num_reqs_padded ≤ Z.of_nat n;
  ga_dst : Forall2 (λ t d, width d = width (gpu t) ∧ length (cells d) = length (cells (gpu t))) (block_tables b) dst }.

Section gather.
Context {G : Gpu} {GL : GpuLaws G}.

Lemma gather_kernel_ok n b rows idx_mapping padded dst g i R t :
  settled_tables n b rows → gather_args n b idx_mapping padded dst → rows !! g = Some R → block_tables b !! g = Some t →
  0 ≤ i < padded →
  _gather_block_tables_kernel idx_mapping (cells ∘ gpu <$> block_tables b) (width ∘ gpu <$> block_tables b)
    (concat (backed_gpu (num_blocks b))) (max_num_reqs b) (Z.of_nat (length idx_mapping)) 1024 (g, i)
  = Ok (write_ops (width (gpu t)) g (i, 0, gathered_row R idx_mapping (width (gpu t)) i)).
Proof using.
  intros [Hok Hback] [Hidx _ _] HR Ht Hi. pose proof (lookup_lt_Some _ _ _ HR) as Hg. rewrite (to_rows _ _ _ _ Hok) in Hg.
  destruct (tables_lookup _ _ _ _ g Hok Hg) as (t0 & c & _ & ws & R0 & Ht0 & Hc & _ & _ & Hws & HR0 & [[] Hlen Hcs Hfit Hrep]).
  assert (t0 = t) as -> by congruence. assert (R0 = R) as -> by congruence.
  apply lookup_replicate in Hws as [-> _].
  unfold _gather_block_tables_kernel. rewrite (load_of_nat _ g (width (gpu t))) by (by rewrite list_lookup_fmap, Ht). cbn [mbind res_bind].
  unfold gathered_row. case_bool_decide as Hpad.
  - rewrite (lookup_ge_None_2 idx_mapping) by lia. rewrite tile_offsets_seqZ by lia. unfold write_ops, w_row, w_start, w_content.
    cbn [fst snd]. rewrite length_replicate, Z2Nat.id by lia. f_equal. rewrite Z.sub_0_r. apply list_fmap_ext. intros j k Hk.
    apply list_elem_of_lookup_2, elem_of_seqZ in Hk. rewrite lookup_total_replicate_2 by lia. f_equal. lia.
  - destruct (lookup_lt_is_Some_2 idx_mapping (Z.to_nat i) ltac:(lia)) as [r Hr]. rewrite Hr.
    rewrite (proj2 (load_ok idx_mapping i r)) by (split; [lia|done]). cbn [mbind res_bind].
    pose proof (proj1 (Forall_lookup _ _) Hidx _ _ Hr) as Hrn. cbn in Hrn.
    destruct (lookup_lt_is_Some_2 R (Z.to_nat r) ltac:(lia)) as [x Hx]. rewrite (list_lookup_total_correct _ _ _ Hx).
    (* the count *)
    rewrite (proj2 (load_ok (concat (backed_gpu (num_blocks b))) _ (Z.of_nat (length x)))).
    2:{ pose proof (lo_reqs _ _ (to_layout _ _ _ _ Hok)) as Hreqs. split; [nia|]. rewrite (Hback ltac:(lia)), Hreqs.
        replace (Z.to_nat (Z.of_nat g * Z.of_nat n + r)) with (g * n + Z.to_nat r)%nat by lia.
        apply (concat_lookup n _ g c); [|done|by rewrite Hcs, list_lookup_fmap, Hx].
        apply Forall_lookup. intros q cq Hq. pose proof (lookup_lt_Some _ _ _ Hq) as Hqlt. rewrite (lo_np _ _ (to_layout _ _ _ _ Hok)) in Hqlt.
        destruct (tables_lookup _ _ _ _ q Hok Hqlt) as (? & cq' & _ & _ & Rq & _ & Hcq & _ & _ & _ & _ & [_ Hrows Hcs' _ _]).
        rewrite Hq in Hcq. injection Hcq as ->. by rewrite Hcs', length_fmap. }
    cbn [mbind res_bind]. pose proof (proj1 (Forall_lookup _ _) Hfit _ _ Hx) as Hfx. cbn in Hfx.
    rewrite Z.min_l by lia. rewrite (load_of_nat _ g (cells (gpu t))) by (by rewrite list_lookup_fmap, Ht). cbn [mbind res_bind].
    rewrite tile_offsets_seqZ by lia. unfold write_ops, w_row, w_start, w_content. cbn [fst snd]. rewrite Z.sub_0_r.
    apply map_res_ok. intros k Hk%elem_of_seqZ. destruct (lookup_lt_is_Some_2 x (Z.to_nat k) ltac:(lia)) as [v Hv].
    rewrite (proj2 (load_ok (cells (gpu t)) _ v)).
    2:{ split; [nia|]. destruct (Hrep _ _ Hx) as [[_ Hh]|(? & ? & _ & _ & Hin)]; [|by apply not_elem_of_nil in Hin].
        pose proof (Hh _ _ Hv) as H. rewrite !Z2Nat.id in H by lia. done. }
    cbn [mbind res_bind]. rewrite (list_lookup_total_correct _ _ _ Hv). do 2 f_equal. lia.
Qed.

Lemma elem_of_grid2 k m g i : (g, i) ∈ grid2 k m ↔ (g < k)%nat ∧ 0 ≤ i < m.
Proof using.
  unfold grid2. rewrite list_elem_of_bind. split.
  - intros (q & (j & [= -> ->] & Hj%elem_of_seqZ)%list_elem_of_fmap & Hq%elem_of_seq). lia.
  - intros [Hg Hi]. exists g. split; [|apply elem_of_seq; lia]. apply list_elem_of_fmap. exists i. split; [done|]. apply elem_of_seqZ. lia.
Qed.
Lemma NoDup_grid2 k m : NoDup (grid2 k m).
Proof using.
  unfold grid2. apply NoDup_bind; [| |apply NoDup_seq].
  - intros x y [a b] _ _ (? & [= -> ->] & _)%list_elem_of_fmap (? & [= -> ->] & _)%list_elem_of_fmap. done.
  - intros x _. apply NoDup_fmap_2; [by intros ?? [= ->]|]. apply NoDup_seqZ.
Qed.

(** The length of a gathered row is at most the width. *)
Lemma gathered_row_length n b rows idx_mapping padded dst g R t i :
  settled_tables n b rows → gather_args n b idx_mapping padded dst → rows !! g = Some R → block_tables b !! g = Some t →
  Z.of_nat (length (gathered_row R idx_mapping (width (gpu t)) i)) ≤ width (gpu t).
Proof using.
  intros [Hok _] [Hidx _ _] HR Ht. pose proof (lookup_lt_Some _ _ _ HR) as Hg. rewrite (to_rows _ _ _ _ Hok) in Hg.
  destruct (tables_lookup _ _ _ _ g Hok Hg) as (t0 & c & _ & ws & R0 & Ht0 & _ & _ & _ & _ & HR0 & [[] Hlen Hcs Hfit Hrep]).
  assert (t0 = t) as -> by congruence. assert (R0 = R) as -> by congruence. unfold gathered_row.
  destruct (idx_mapping !! Z.to_nat i) as [r|] eqn:Hr; [|rewrite length_replicate; lia].
  pose proof (proj1 (Forall_lookup _ _) Hidx _ _ Hr) as Hrn. cbn in Hrn.
  destruct (lookup_lt_is_Some_2 R (Z.to_nat r) ltac:(lia)) as [x Hx]. rewrite (list_lookup_total_correct _ _ _ Hx).
  exact (proj1 (Forall_lookup _ _) Hfit _ _ Hx).
Qed.

Lemma gather_launch n b rows idx_mapping padded dst :
  settled_tables n b rows → gather_args n b idx_mapping padded dst →
  ∃ mem, launch (grid2 (num_kv_cache_groups b) padded)
      (_gather_block_tables_kernel idx_mapping (cells ∘ gpu <$> block_tables b) (width ∘ gpu <$> block_tables b)
         (concat (backed_gpu (num_blocks b))) (max_num_reqs b) (Z.of_nat (length idx_mapping)) 1024) (cells <$> dst) = Ok mem ∧
    same_shape (cells <$> dst) mem ∧
    ∀ g R t l i, rows !! g = Some R → block_tables b !! g = Some t → mem !! g = Some l → 0 ≤ i < padded →
      row_holds (width (gpu t)) l i (gathered_row R idx_mapping (width (gpu t)) i).
Proof using GL.
  intros Hset Hargs. pose proof Hset as [Hok _].
  assert (Hg : ∀ p, p ∈ grid2 (num_kv_cache_groups b) padded → ∃ R t, rows !! p.1 = Some R ∧ block_tables b !! p.1 = Some t ∧
    rows !!! p.1 = R ∧ (width ∘ gpu <$> block_tables b) !!! p.1 = width (gpu t) ∧ 0 ≤ p.2 < padded ∧
    Z.of_nat (length (cells (gpu t))) = Z.of_nat n * width (gpu t)).
  { intros [g i] [Hg Hi]%elem_of_grid2.
    destruct (tables_lookup _ _ _ _ g Hok Hg) as (t & c & _ & ws & R & Ht & _ & _ & _ & _ & HR & [[] _ _ _ _]).
    exists R, t. cbn. split_and!; try done; try lia; [by apply list_lookup_total_correct|].
    apply list_lookup_total_correct. by rewrite list_lookup_fmap, Ht. }
  destruct (launch_rows (grid2 (num_kv_cache_groups b) padded)
      (_gather_block_tables_kernel idx_mapping (cells ∘ gpu <$> block_tables b) (width ∘ gpu <$> block_tables b)
         (concat (backed_gpu (num_blocks b))) (max_num_reqs b) (Z.of_nat (length idx_mapping)) 1024)
      (λ p, (p.1, (p.2, 0, gathered_row (rows !!! p.1) idx_mapping ((width ∘ gpu <$> block_tables b) !!! p.1) p.2)))
      (width ∘ gpu <$> block_tables b) (cells <$> dst)) as (mem & Hr & Hs & Hm).
  - intros p Hp. destruct (Hg p Hp) as (R & t & HR & Ht & ER & Ew & Hi & _). cbn [fst snd]. rewrite ER, Ew. destruct p as [g i].
    by eapply gather_kernel_ok.
  - intros p Hp. destruct (Hg p Hp) as (R & t & HR & Ht & ER & Ew & Hi & Hlen). cbn [fst snd]. rewrite ER, Ew.
    pose proof (gathered_row_length _ _ _ _ _ _ _ _ _ p.2 Hset Hargs HR Ht) as Hl. destruct Hargs as [_ Hpad Hdst].
    destruct (Forall2_lookup_l _ _ _ _ _ Hdst Ht) as (d & Hd & _ & Hdl). exists n, (cells d).
    rewrite list_lookup_fmap, Hd. split; [done|]. split; [by rewrite Hdl|]. unfold write_in, w_row, w_start, w_content. cbn. lia.
  - intros [g i] [g' i'] k1 k2 _ _ Eg Er _ _ _. unfold w_row in Er. cbn in Eg, Er. congruence.
  - apply NoDup_grid2.
  - exists mem. split_and!; [done|done|]. intros g R t l i HR Ht Hl Hi.
    assert (Hgk : (g < num_kv_cache_groups b)%nat) by (rewrite <- (to_rows _ _ _ _ Hok); by eapply lookup_lt_Some).
    destruct Hargs as [_ Hpad Hdst]. destruct (Forall2_lookup_l _ _ _ _ _ Hdst Ht) as (d & Hd & _ & Hdl).
    destruct (Hm g (width (gpu t)) (cells d) ((λ i, (i, 0, gathered_row R idx_mapping (width (gpu t)) i)) <$> seqZ 0 padded)) as (l' & Hl' & Hse).
    + by rewrite list_lookup_fmap, Ht.
    + by rewrite list_lookup_fmap, Hd.
    + intros w. rewrite list_elem_of_fmap. split.
      * intros (j & -> & Hj%elem_of_seqZ). exists (g, j). cbn. rewrite (list_lookup_total_correct _ _ _ HR).
        rewrite (list_lookup_total_correct _ _ (width (gpu t))) by (by rewrite list_lookup_fmap, Ht).
        split; [|done]. apply elem_of_grid2. lia.
      * intros ([g' j] & [_ Hj]%elem_of_grid2 & [= -> <-]). exists j. rewrite (list_lookup_total_correct _ _ _ HR).
        rewrite (list_lookup_total_correct _ _ (width (gpu t))) by (by rewrite list_lookup_fmap, Ht).
        split; [done|]. apply elem_of_seqZ. lia.
    + assert (l' = l) as -> by congruence. destruct Hse as (_ & Hin & _). intros c v Hv.
      pose proof (Hin (i, 0, gathered_row R idx_mapping (width (gpu t)) i) c v) as H. unfold w_row, w_start, w_content in H. cbn [fst snd] in H.
      rewrite Z.add_0_r in H. apply H; [|done]. apply list_elem_of_fmap. exists i. split; [done|]. apply elem_of_seqZ. lia.
Qed.

Lemma first_rows_holds (k i : Z) (t : GpuTensor) x : 0 ≤ i < k → Z.of_nat (length x) ≤ width t → row_holds (width t) (cells t) i x →
  row_holds (width t) (cells (first_rows k t)) i x.
Proof using.
  intros Hi Hl Hh c v Hv. cbn. pose proof (lookup_lt_Some _ _ _ Hv). rewrite lookup_take_lt; [by apply Hh|].
  assert ((i + 1) * width t ≤ k * width t) by nia. nia.
Qed.

(** Gathering never raises on legal arguments, and every row of the result
    begins with the blocks of its request. *)
Lemma gather_ok n b rows idx_mapping padded out (out_ptrs : bool) :
  settled_tables n b rows → (0 < num_kv_cache_groups b)%nat → match out with None => True | Some _ => out_ptrs = true end →
  gather_args n b idx_mapping padded (match out with None => input_block_tables b | Some o => o end) →
  ∃ tables b', gather_block_tables idx_mapping padded out out_ptrs b = (Ok tables, b') ∧
    ∀ g R t, rows !! g = Some R → block_tables b !! g = Some t → ∃ d, tables !! g = Some d ∧ width d = width (gpu t) ∧
      Z.of_nat (length (cells d)) = padded * width d ∧
      ∀ i, 0 ≤ i < padded → row_holds (width d) (cells d) i (gathered_row R idx_mapping (width d) i).
Proof using GL.
  intros Hset Hk Hptrs Hargs. destruct (gather_launch _ _ _ _ _ _ Hset Hargs) as (mem & Hr & Hs & Hm).
  unfold gather_block_tables. rewrite run_get. rewrite (proj2 (Nat.eqb_neq _ _)) by lia.
  set (dst := match out with None => input_block_tables b | Some o => o end) in *.
  assert (Eout : match out with None => mret tt | Some out => _ ← assert_ out_ptrs; assert_ (length out =? num_kv_cache_groups b)%nat end b
    = (Ok tt, b)).
  { destruct out as [o|]; [|done]. subst out_ptrs. cbn. pose proof (Forall2_length _ _ _ (ga_dst _ _ _ _ _ Hargs)) as Hl. cbn in Hl.
    rewrite (proj2 (Nat.eqb_eq (length o) _)); [done|]. etrans; [symmetry; exact Hl|]. apply (lo_tables _ _ (to_layout _ _ _ _ (proj1 Hset))). }
  rewrite (M_bind_run _ _ _ _ _ Eout), Hr, run_lift_ok.
  set (dst' := zip_with (λ t l, mkTensor (width t) l) dst mem).
  exists (first_rows padded <$> dst'), (match out with None => set_inputs dst' b | Some _ => b end). split; [by destruct out|].
  intros g R t HR Ht. destruct (Forall2_lookup_l _ _ _ _ _ (ga_dst _ _ _ _ _ Hargs) Ht) as (d & Hd & Hw & Hl).
  destruct (same_shape_lookup _ _ g (cells d) Hs ltac:(by rewrite list_lookup_fmap, Hd)) as (l & Hlm & Hll).
  assert (Hd' : dst' !! g = Some (mkTensor (width d) l)) by (apply lookup_zip_with_Some; eauto).
  exists (first_rows padded (mkTensor (width d) l)). rewrite list_lookup_fmap, Hd'. cbn [fmap option_fmap option_map width first_rows].
  pose proof (ga_padded _ _ _ _ _ Hargs) as Hpad.
  pose proof (lookup_lt_Some _ _ _ HR) as Hg. rewrite (to_rows _ _ _ _ (proj1 Hset)) in Hg.
  destruct (tables_lookup _ _ _ _ g (proj1 Hset) Hg) as (t0 & ? & ? & ? & ? & Ht0 & _ & _ & _ & _ & _ & [[] _ _ _ _]).
  assert (t0 = t) as -> by congruence. split_and!; [done|done| |].
  - cbn. rewrite length_take, Hll, Hl. rewrite Hw. nia.
  - intros i Hi. rewrite Hw. apply (first_rows_holds padded i (mkTensor (width (gpu t)) l)); [done| |].
    + by eapply gathered_row_length.
    + by eapply Hm.
Qed.
End gather.
