(* ===== verification/CpSlots.v ===== *)
(** Slots: the arithmetic of context-parallel placement, and the slots that
    [compute_slot_mappings] gives the tokens of a step. *)
From S2P Require Import Prelude CpBuffers CpTables CpStaged CpTablesInv CpSessions.
From stdpp Require Import base list gmap sets.
From Stdlib Require Import ZArith Lia.
#[local] Open Scope Z_scope.

(** * Placement *)

(** The rank that holds position [p], and its place among the positions that
    the rank holds: [N] ranks, runs of [I] positions. *)
Definition owner (N I p : Z) : Z := (p / I) `mod` N.
Definition local_of (N I p : Z) : Z := p / (N * I) * I + p `mod` I.

Lemma local_of_nonneg N I p : 0 < N → 0 < I → 0 ≤ p → 0 ≤ local_of N I p.
Proof.
  intros HN HI Hp. unfold local_of. pose proof (Z.mod_pos_bound p I HI). pose proof (Z.div_pos p (N * I) Hp ltac:(nia)). nia.
Qed.
Lemma local_of_one I p : 0 < I → local_of 1 I p = p.
Proof. intros HI. unfold local_of. rewrite Z.mul_1_l. pose proof (Z.div_mod p I ltac:(lia)). lia. Qed.
Lemma local_of_le N I p : 0 < N → 0 < I → 0 ≤ p → local_of N I p ≤ p.
Proof.
  intros HN HI Hp. unfold local_of. rewrite (Z.mul_comm N I), <- Z.div_div by lia.
  pose proof (Z.div_mod p I ltac:(lia)). pose proof (Z.div_pos p I Hp HI).
  assert (p / I / N ≤ p / I) by (apply Z.div_le_upper_bound; nia). nia.
Qed.

(** The owner and the local place determine the position. *)
Lemma place_inj N I p q : 0 < N → 0 < I → owner N I p = owner N I q → local_of N I p = local_of N I q → p = q.
Proof.
  intros HN HI Ho Hl. unfold owner, local_of in *. rewrite (Z.mul_comm N I) in Hl.
  rewrite <- !Z.div_div in Hl by lia.
  pose proof (Z.mod_pos_bound p I HI). pose proof (Z.mod_pos_bound q I HI).
  destruct (row_address I (p / I / N) (p `mod` I) (q / I / N) (q `mod` I)) as [E1 E2]; [done..|].
  pose proof (Z.div_mod p I ltac:(lia)). pose proof (Z.div_mod q I ltac:(lia)).
  pose proof (Z.div_mod (p / I) N ltac:(lia)). pose proof (Z.div_mod (q / I) N ltac:(lia)).
  assert (p / I = q / I) by congruence. congruence.
Qed.
Lemma owner_range N I p : 0 < N → 0 ≤ owner N I p < N.
Proof. intros HN. by apply Z.mod_pos_bound. Qed.

(** The kernel's computation by blocks of [K] positions per rank is the
    placement, as long as runs do not straddle blocks. *)
Lemma local_position_spec K N I rank p : 0 < K → 0 < N → 0 < I → (I | K) → 0 ≤ p →
  local_position K N I rank p = (local_of N I p, (N =? 1) || (owner N I p =? rank)).
Proof.
  intros HK HN HI [m Hm] Hp. unfold local_position. destruct (Z.eqb_spec N 1) as [->|Hne]; [by rewrite local_of_one|].
  assert (0 < m) by nia. cbn [orb].
  set (q := Z.quot p (K * N)). set (o := Z.rem p (K * N)).
  assert (Hq : q = p / (K * N)) by (apply Z.quot_div_nonneg; nia). assert (Ho : o = p `mod` (K * N)) by (apply Z.rem_mod_nonneg; nia).
  pose proof (Z.div_mod p (K * N) ltac:(nia)) as Hdm. rewrite <- Hq, <- Ho in Hdm.
  pose proof (Z.mod_pos_bound p (K * N) ltac:(nia)) as Hob. rewrite <- Ho in Hob.
  rewrite (Z.quot_div_nonneg o I), (Z.quot_div_nonneg o (I * N)), (Z.rem_mod_nonneg o I) by nia.
  rewrite (Z.rem_mod_nonneg (o / I) N); [|apply Z.div_pos; lia|lia].
  assert (E1 : p / I = o / I + q * m * N).
  { replace p with (o + q * m * N * I) by nia. by rewrite Z.div_add by lia. }
  assert (E2 : p / (N * I) = o / (I * N) + q * m).
  { rewrite (Z.mul_comm N I). replace p with (o + q * m * (I * N)) by nia. by rewrite Z.div_add by nia. }
  assert (E3 : p `mod` I = o `mod` I).
  { replace p with (o + q * m * N * I) by nia. by rewrite Z.mod_add by lia. }
  unfold local_of, owner. rewrite E1, E2, E3, Z.mod_add by lia. f_equal. rewrite Hm. ring.
Qed.

(** The slot of a place in the row [x] of kernel blocks. *)
Definition slot_of (kbs : Z) (x : list Z) (local : Z) : Z := x !!! Z.to_nat (local / kbs) * kbs + local `mod` kbs.

(** Slots of different blocks, and of different places of a block, differ. *)
Lemma slot_of_inj kbs x y l1 l2 : 0 < kbs → slot_of kbs x l1 = slot_of kbs y l2 →
  x !!! Z.to_nat (l1 / kbs) = y !!! Z.to_nat (l2 / kbs) ∧ l1 `mod` kbs = l2 `mod` kbs.
Proof.
  intros Hk E. unfold slot_of in E. pose proof (Z.mod_pos_bound l1 kbs Hk). pose proof (Z.mod_pos_bound l2 kbs Hk).
  by apply (row_address kbs).
Qed.

(** * One lane *)

Section lane.
Context (a : GroupArgs) (cp_rank CP_INTERLEAVE PAD_ID : Z).
Hypothesis Hsizes : 0 < g_kv_block_size a ∧ 0 < g_kernel_block_size a ∧ 0 < g_cp_size a ∧ 0 < CP_INTERLEAVE.

(** A lane never reads outside of its table. *)
Lemma slot_lane_total n r p : Z.of_nat (length (g_table a)) = Z.of_nat n * g_stride a → 0 ≤ r < Z.of_nat n →
  ∃ v, slot_lane a cp_rank CP_INTERLEAVE PAD_ID r p = Ok v.
Proof using Hsizes.
  intros Hlen Hr. unfold slot_lane. destruct (local_position _ _ _ _ p) as [l is_local] eqn:El.
  destruct (is_local && _) eqn:Ev; [|by eexists]. apply andb_true_iff in Ev as [_ [Hp%Z.leb_le Hb%Z.ltb_lt]%andb_true_iff].
  assert (Hl : 0 ≤ l).
  { unfold local_position in El. destruct (g_cp_size a =? 1); injection El as <- <-; [done|].
    pose proof (Z.rem_nonneg p (g_kv_block_size a * g_cp_size a) ltac:(nia) Hp).
    pose proof (Z.quot_pos p (g_kv_block_size a * g_cp_size a) Hp ltac:(nia)).
    pose proof (Z.quot_pos (Z.rem p (g_kv_block_size a * g_cp_size a)) (CP_INTERLEAVE * g_cp_size a) ltac:(lia) ltac:(nia)).
    pose proof (Z.rem_nonneg (Z.rem p (g_kv_block_size a * g_cp_size a)) CP_INTERLEAVE ltac:(lia) ltac:(lia)). nia. }
  set (bi := if g_enabled a then _ else _) in *.
  assert (0 ≤ bi) by (unfold bi; destruct (g_enabled a); [apply Z.quot_pos; lia|lia]).
  destruct (load_total (g_table a) (r * g_stride a + bi)) as [v Hv]; [nia|]. rewrite Hv. by eexists.
Qed.

Lemma slot_lane_disabled r p v : g_enabled a = false → slot_lane a cp_rank CP_INTERLEAVE PAD_ID r p = Ok v → v = PAD_ID.
Proof using.
  intros He. unfold slot_lane. destruct (local_position _ _ _ _ p) as [l is_local]. rewrite He. cbn [andb].
  destruct (if is_local && _ then _ else _) as [c|e]; [|done]. by intros [= <-].
Qed.

(** The slot of a position whose block is in the table: computed by the rank
    that holds it (by every rank for a replicated group), [PAD_ID] elsewhere. *)
Lemma slot_lane_spec r p x : g_enabled a = true → (CP_INTERLEAVE | g_kv_block_size a) → 0 ≤ r → 0 ≤ p →
  row_holds (g_stride a) (g_table a) r x → Z.of_nat (length x) ≤ g_stride a →
  local_of (g_cp_size a) CP_INTERLEAVE p / g_kernel_block_size a < Z.of_nat (length x) →
  slot_lane a cp_rank CP_INTERLEAVE PAD_ID r p =
    Ok (if (g_cp_size a =? 1) || (owner (g_cp_size a) CP_INTERLEAVE p =? cp_rank)
        then slot_of (g_kernel_block_size a) x (local_of (g_cp_size a) CP_INTERLEAVE p) else PAD_ID).
Proof using Hsizes.
  intros He Hdiv Hr Hp Hx Hlen Hb. destruct Hsizes as (HK & Hk & HN & HI). unfold slot_lane.
  rewrite local_position_spec by done. rewrite He.
  pose proof (local_of_nonneg _ _ p HN HI Hp) as Hl. set (l := local_of (g_cp_size a) CP_INTERLEAVE p) in *.
  pose proof (Z.div_pos l (g_kernel_block_size a) Hl Hk).
  rewrite (Z.quot_div_nonneg l), (Z.rem_mod_nonneg l) by lia.
  rewrite (proj2 (Z.leb_le 0 p)), (proj2 (Z.ltb_lt (l / _) _)) by lia. cbn [andb].
  destruct (g_cp_size a =? 1) eqn:E1; cbn [orb negb andb].
  - destruct (lookup_lt_is_Some_2 x (Z.to_nat (l / g_kernel_block_size a)) ltac:(lia)) as [v Hv].
    rewrite (proj2 (load_ok _ _ v)).
    2:{ split; [nia|]. pose proof (Hx _ _ Hv) as H1. rewrite Z2Nat.id in H1 by lia. done. }
    cbn. unfold slot_of. by rewrite (list_lookup_total_correct _ _ _ Hv).
  - destruct (_ =? cp_rank); cbn [andb negb]; [|done].
    destruct (lookup_lt_is_Some_2 x (Z.to_nat (l / g_kernel_block_size a)) ltac:(lia)) as [v Hv].
    rewrite (proj2 (load_ok _ _ v)).
    2:{ split; [nia|]. pose proof (Hx _ _ Hv) as H1. rewrite Z2Nat.id in H1 by lia. done. }
    cbn. unfold slot_of. by rewrite (list_lookup_total_correct _ _ _ Hv).
Qed.
End lane.

(** * The launch *)

(** The arguments of a step: every request is that of a row, its tokens are
    the positions from one entry of [query_start_loc] to the next, and the
    output has a row of slots for every group. *)
Record slots_args (n : nat) (b : BlockTables) (idx_mapping query_start_loc positions : list Z) (dst : GpuTensor) : Prop := {
  sa_idx : Forall (λ r, 0 ≤ r < Z.of_nat n) idx_mapping;
  sa_starts : length query_start_loc = S (length idx_mapping);
  sa_nonneg : Forall (λ s, 0 ≤ s ≤ width dst) query_start_loc;
  sa_mono i s e : query_start_loc !! i = Some s → query_start_loc !! S i = Some e → s ≤ e;
  sa_positions : Forall (λ s, s ≤ Z.of_nat (length positions)) query_start_loc;
  sa_dst : Z.of_nat (length (cells dst)) = Z.of_nat (num_kv_cache_groups b) * width dst;
  sa_width : 0 ≤ width dst }.

#[export] Instance group_args_inhabited : Inhabited GroupArgs := populate (mkGroup [] 0 0 0 false 0).

(** The argument tensors of a group. *)
Definition groups_ok (n : nat) (b : BlockTables) : Prop :=
  length (group_args b) = num_kv_cache_groups b ∧ 0 < cp_interleave b ∧
  Forall (λ a, (0 < g_kv_block_size a ∧ 0 < g_kernel_block_size a ∧ 0 < g_cp_size a) ∧
            Z.of_nat (length (g_table a)) = Z.of_nat n * g_stride a) (group_args b).

Lemma starts_mono n b idx qsl pos dst i j s e :
  slots_args n b idx qsl pos dst → (i ≤ j)%nat → qsl !! i = Some s → qsl !! j = Some e → s ≤ e.
Proof.
  intros Ha Hij. revert e. induction Hij as [|j Hij IH]; intros e Hs He; [assert (s = e) as -> by congruence; lia|].
  destruct (lookup_lt_is_Some_2 qsl j) as [m Hm]; [apply lookup_lt_Some in He; lia|].
  pose proof (IH m Hs Hm). pose proof (sa_mono _ _ _ _ _ _ Ha j m e Hm He). lia.
Qed.

Section slots.
Context {G : Gpu} {GL : GpuLaws G} (PAD_SLOT_ID : Z).
Context (n : nat) (b : BlockTables) (idx_mapping query_start_loc positions : list Z) (dst : GpuTensor).
Hypothesis Hargs : slots_args n b idx_mapping query_start_loc positions dst.
Hypothesis Hgroups : groups_ok n b.

Let lane (a : GroupArgs) (r p : Z) : Z :=
  match slot_lane a (cp_rank b) (cp_interleave b) PAD_SLOT_ID r p with Ok v => v | Err _ => 0 end.
Let num_reqs : Z := Z.of_nat (length idx_mapping).
Let kernel := _compute_slot_mappings_kernel (width dst) idx_mapping query_start_loc positions (group_args b)
  (width dst) (cp_rank b) (cp_interleave b) PAD_SLOT_ID 1024 (num_reqs + 1).
Let start_of (i : Z) : Z := query_start_loc !!! Z.to_nat i.
(** What a program writes: the slots of its tokens, or the padding. *)
Let wr (p : nat * Z) : nat * Write :=
  let '(g, i) := p in
  (0%nat, (Z.of_nat g, start_of i,
    if i =? num_reqs then replicate (Z.to_nat (width dst - start_of i)) PAD_SLOT_ID
    else (λ t, lane (group_args b !!! g) (idx_mapping !!! Z.to_nat i) (positions !!! Z.to_nat t)) <$>
           seqZ (start_of i) (start_of (i + 1) - start_of i))).

Lemma start_lookup i : 0 ≤ i ≤ num_reqs → query_start_loc !! Z.to_nat i = Some (start_of i) ∧ 0 ≤ start_of i ≤ width dst ∧
  start_of i ≤ Z.of_nat (length positions).
Proof using Hargs.
  intros Hi. assert (E : query_start_loc !! Z.to_nat i = Some (start_of i)).
  { apply list_lookup_lookup_total_lt. rewrite (sa_starts _ _ _ _ _ _ Hargs). unfold num_reqs in Hi. lia. }
  split; [done|]. split; [exact (proj1 (Forall_lookup _ _) (sa_nonneg _ _ _ _ _ _ Hargs) _ _ E)|].
  exact (proj1 (Forall_lookup _ _) (sa_positions _ _ _ _ _ _ Hargs) _ _ E).
Qed.
Lemma start_le i j : 0 ≤ i ≤ j → j ≤ num_reqs → start_of i ≤ start_of j.
Proof using Hargs.
  intros Hi Hj. destruct (start_lookup i ltac:(lia)) as [Ei _], (start_lookup j ltac:(lia)) as [Ej _].
  by apply (starts_mono n b _ _ _ _ (Z.to_nat i) (Z.to_nat j) _ _ Hargs ltac:(lia)).
Qed.

Lemma kernel_writes p : p ∈ grid2 (num_kv_cache_groups b) (num_reqs + 1) → kernel p = Ok (write_ops (width dst) 0 (wr p).2).
Proof using Hargs Hgroups.
  destruct p as [g i]. intros [Hg Hi]%elem_of_grid2. destruct (start_lookup i ltac:(lia)) as (Es & Hs & Hsp).
  unfold kernel, _compute_slot_mappings_kernel. replace (num_reqs + 1 - 1) with num_reqs by lia. unfold wr, write_ops, w_row, w_start, w_content.
  destruct (Z.eqb_spec i num_reqs) as [->|Hne]; cbn [fst snd].
  - rewrite (proj2 (load_ok query_start_loc num_reqs (start_of num_reqs))) by (split; [lia|done]). cbn [mbind res_bind].
    rewrite tile_offsets_seqZ by lia. rewrite length_replicate, Z2Nat.id by lia. f_equal.
    rewrite <- (Z.add_0_r (start_of num_reqs)) at 1. rewrite <- fmap_add_seqZ, <- list_fmap_compose.
    apply list_fmap_ext. intros j k Hk%list_elem_of_lookup_2%elem_of_seqZ. cbn.
    rewrite lookup_total_replicate_2 by lia. f_equal. lia.
  - destruct (start_lookup (i + 1) ltac:(lia)) as (Ee & He & Hep). pose proof (start_le i (i + 1) ltac:(lia) ltac:(lia)) as Hse.
    destruct Hgroups as (Hgl & HI & Hga).
    destruct (lookup_lt_is_Some_2 (group_args b) g ltac:(lia)) as [a Ha]. rewrite (load_of_nat _ _ _ Ha). cbn [mbind res_bind].
    destruct (lookup_lt_is_Some_2 idx_mapping (Z.to_nat i)) as [r Hr]; [unfold num_reqs in *; lia|].
    rewrite (proj2 (load_ok idx_mapping i r)) by (split; [lia|done]). cbn [mbind res_bind].
    rewrite (proj2 (load_ok query_start_loc i (start_of i))) by (split; [lia|done]). cbn [mbind res_bind].
    rewrite (proj2 (load_ok query_start_loc (i + 1) (start_of (i + 1)))) by (split; [lia|done]). cbn [mbind res_bind].
    rewrite tile_offsets_seqZ by lia. rewrite length_fmap, length_seqZ.
    rewrite Z2Nat.id by lia. rewrite (list_lookup_total_correct _ _ _ Ha), (list_lookup_total_correct _ _ _ Hr).
    rewrite (map_res_ok _ (λ t, Store 0 (Z.of_nat g * width dst + t) (lane a r (positions !!! Z.to_nat t)))).
    + f_equal. rewrite <- (Z.add_0_r (start_of i)) at 1. rewrite <- fmap_add_seqZ, <- list_fmap_compose.
      apply list_fmap_ext. intros j k Hk%list_elem_of_lookup_2%elem_of_seqZ. cbn.
      rewrite (list_lookup_total_correct (_ <$> seqZ (start_of i) _) _ (lane a r (positions !!! Z.to_nat (start_of i + k)))); [f_equal; lia|].
      rewrite list_lookup_fmap. rewrite lookup_seqZ_lt by lia. cbn. rewrite Z2Nat.id by lia. done.
    + intros t Ht%elem_of_seqZ. destruct (lookup_lt_is_Some_2 positions (Z.to_nat t) ltac:(lia)) as [p Hp].
      rewrite (proj2 (load_ok positions t p)) by (split; [lia|done]). cbn [mbind res_bind].
      destruct (proj1 (Forall_lookup _ _) Hga _ _ Ha) as [Hsz Hlen].
      pose proof (proj1 (Forall_lookup _ _) (sa_idx _ _ _ _ _ _ Hargs) _ _ Hr) as Hrn.
      destruct (slot_lane_total a (cp_rank b) (cp_interleave b) PAD_SLOT_ID ltac:(tauto) n r p Hlen Hrn) as [v Hv].
      rewrite (list_lookup_total_correct _ _ _ Hp). unfold lane. by rewrite Hv.
Qed.

Lemma wr_end p : p ∈ grid2 (num_kv_cache_groups b) (num_reqs + 1) →
  w_row (wr p).2 = Z.of_nat p.1 ∧ w_start (wr p).2 = start_of p.2 ∧
  w_start (wr p).2 + Z.of_nat (length (w_content (wr p).2)) = (if p.2 =? num_reqs then width dst else start_of (p.2 + 1)).
Proof using Hargs.
  destruct p as [g i]. intros [_ Hi]%elem_of_grid2. unfold wr, w_row, w_start, w_content. cbn [fst snd]. split_and!; [done|done|].
  destruct (start_lookup i ltac:(lia)) as (_ & Hs & _). destruct (Z.eqb_spec i num_reqs) as [->|Hne].
  - rewrite length_replicate. lia.
  - rewrite length_fmap, length_seqZ. pose proof (start_le i (i + 1) ltac:(lia) ltac:(lia)). lia.
Qed.

Lemma slots_launch : ∃ l, launch (grid2 (num_kv_cache_groups b) (num_reqs + 1)) kernel [cells dst] = Ok [l] ∧
  settled (width dst) (snd ∘ wr <$> grid2 (num_kv_cache_groups b) (num_reqs + 1)) (cells dst) l.
Proof using Hargs Hgroups GL.
  destruct (launch_rows (grid2 (num_kv_cache_groups b) (num_reqs + 1)) kernel wr [width dst] [cells dst]) as (mem & Hr & Hs & Hm).
  - intros p Hp. rewrite (kernel_writes p Hp). by destruct p.
  - intros p Hp. destruct (wr_end p Hp) as (Hrow & Hst & Hend). exists (num_kv_cache_groups b), (cells dst).
    assert ((wr p).1 = 0%nat) as -> by (by destruct p). cbn [lookup]. split; [done|]. split; [apply Hargs|].
    destruct p as [g i]. apply elem_of_grid2 in Hp as [Hg Hi]. unfold write_in. rewrite Hend, Hrow, Hst. cbn [fst snd].
    destruct (start_lookup i ltac:(lia)) as (_ & Hsi & _). change ([width dst] !!! 0%nat) with (width dst).
    destruct (Z.eqb_spec i num_reqs); [lia|]. destruct (start_lookup (i + 1) ltac:(lia)) as (_ & Hsi' & _). lia.
  - intros p q k1 k2 Hp Hq _ Er H1 H2 Ec. destruct (wr_end p Hp) as (Hrp & Hsp & Hep), (wr_end q Hq) as (Hrq & Hsq & Heq).
    destruct p as [g i], q as [g' i']. apply elem_of_grid2 in Hp as [_ Hi], Hq as [_ Hi']. cbn [fst snd] in *.
    assert (g = g') as -> by lia. f_equal. destruct (Z.lt_trichotomy i i') as [Hlt|[Heq'|Hgt]]; [exfalso|done|exfalso].
    + rewrite (proj2 (Z.eqb_neq i num_reqs)) in Hep by lia. pose proof (start_le (i + 1) i' ltac:(lia) ltac:(lia)). lia.
    + rewrite (proj2 (Z.eqb_neq i' num_reqs)) in Heq by lia. pose proof (start_le (i' + 1) i ltac:(lia) ltac:(lia)). lia.
  - apply NoDup_grid2.
  - destruct (Hm 0%nat (width dst) (cells dst) (snd ∘ wr <$> grid2 (num_kv_cache_groups b) (num_reqs + 1))) as (l & Hl & Hset); [done|done| |].
    + intros w. rewrite list_elem_of_fmap. split.
      * intros (p & -> & Hp). exists p. split; [done|]. by destruct p.
      * intros (p & Hp & E). exists p. split; [|done]. cbn. by rewrite E.
    + exists l. split; [|done]. apply same_shape_length in Hs. destruct mem as [|l0 [|]]; try done. by injection Hl as ->.
Qed.

(** The launch never raises; a token gets the slot of its lane, whatever lies
    past the last token is padding. *)
Lemma compute_slot_mappings_ok num_tokens_padded out :
  dst = match out with None => slot_mappings b | Some o => o end → (0 < num_kv_cache_groups b)%nat →
  ∃ slots b', compute_slot_mappings PAD_SLOT_ID idx_mapping query_start_loc positions num_tokens_padded out b = (Ok slots, b') ∧
    ∀ g a, group_args b !! g = Some a → ∃ row, slots !! g = Some row ∧
      (∀ i r s e t p, idx_mapping !! i = Some r → query_start_loc !! i = Some s → query_start_loc !! S i = Some e →
         s ≤ Z.of_nat t < e → positions !! t = Some p → Z.of_nat t < num_tokens_padded →
         ∃ v, row !! t = Some v ∧ slot_lane a (cp_rank b) (cp_interleave b) PAD_SLOT_ID r p = Ok v) ∧
      (∀ s t, query_start_loc !! length idx_mapping = Some s → s ≤ Z.of_nat t < width dst → Z.of_nat t < num_tokens_padded →
         row !! t = Some PAD_SLOT_ID).
Proof using Hargs Hgroups GL.
  intros Hdst Hk. destruct slots_launch as (l & Hr & Hlen & Hin & _). unfold compute_slot_mappings. rewrite run_get, <- Hdst.
  rewrite (proj2 (Nat.eqb_neq _ _)) by lia. fold num_reqs. fold kernel. rewrite Hr, run_lift_ok. unfold nth_res. cbn [lookup list_lookup res_of_option].
  rewrite run_lift_ok. eexists _, (match out with None => set_slot_mappings (mkTensor (width dst) l) b | Some _ => b end).
  split; [by destruct out|]. intros g a Ha. destruct Hgroups as (Hgl & _ & _).
  assert (Hg : (g < num_kv_cache_groups b)%nat) by (rewrite <- Hgl; by eapply lookup_lt_Some).
  unfold first_columns. eexists. rewrite list_lookup_fmap, lookup_seq_lt by done. cbn [fmap option_fmap option_map plus]. split; [done|].
  pose proof (sa_width _ _ _ _ _ _ Hargs) as Hw0.
  (* a cell of the row *)
  assert (Hcell : ∀ t v, Z.of_nat t < width dst → Z.of_nat t < num_tokens_padded → l !! Z.to_nat (Z.of_nat g * width dst + Z.of_nat t) = Some v →
    take (Z.to_nat num_tokens_padded) (take (Z.to_nat (width dst)) (drop (g * Z.to_nat (width dst)) l)) !! t = Some v).
  { intros t v H1 H2 H. rewrite !lookup_take_lt, lookup_drop by lia. rewrite <- H. f_equal. nia. }
  split.
  - intros i r s e t p Hi Hs He Ht Hp Htp.
    pose proof (lookup_lt_Some _ _ _ Hi) as Hil.
    assert (Es : start_of (Z.of_nat i) = s) by (unfold start_of; rewrite Nat2Z.id; by apply list_lookup_total_correct).
    assert (Ee : start_of (Z.of_nat i + 1) = e).
    { unfold start_of. replace (Z.to_nat (Z.of_nat i + 1)) with (S i) by lia. by apply list_lookup_total_correct. }
    destruct (start_lookup (Z.of_nat i + 1) ltac:(lia)) as (_ & Hew & _). rewrite Ee in Hew.
    assert (Hmem : (wr (g, Z.of_nat i)).2 ∈ snd ∘ wr <$> grid2 (num_kv_cache_groups b) (num_reqs + 1)).
    { apply list_elem_of_fmap. exists (g, Z.of_nat i). split; [done|]. apply elem_of_grid2. unfold num_reqs. lia. }
    destruct (proj1 (Forall_lookup _ _) (proj2 (proj2 Hgroups)) _ _ Ha) as [Hsz Hlen'].
    pose proof (proj1 (Forall_lookup _ _) (sa_idx _ _ _ _ _ _ Hargs) _ _ Hi) as Hrn.
    destruct (slot_lane_total a (cp_rank b) (cp_interleave b) PAD_SLOT_ID ltac:(pose proof (proj1 (proj2 Hgroups)); tauto) n r p Hlen' Hrn) as [v Hv].
    exists v. split; [|done]. apply Hcell; [lia|done|].
    pose proof (Hin _ (t - Z.to_nat s)%nat v Hmem) as H. unfold wr, w_row, w_start, w_content in H. cbn [fst snd] in H.
    rewrite (proj2 (Z.eqb_neq (Z.of_nat i) num_reqs)) in H by (unfold num_reqs; lia).
    rewrite Es, Ee in H. pose proof (start_lookup (Z.of_nat i) ltac:(lia)) as (_ & Hs0 & _). rewrite Es in Hs0.
    replace (Z.of_nat g * width dst + s + Z.of_nat (t - Z.to_nat s)) with (Z.of_nat g * width dst + Z.of_nat t) in H by lia. apply H.
    rewrite list_lookup_fmap, lookup_seqZ_lt by lia. cbn. f_equal.
    rewrite (list_lookup_total_correct _ _ _ Ha), Nat2Z.id, (list_lookup_total_correct _ _ _ Hi).
    replace (Z.to_nat (s + Z.of_nat (t - Z.to_nat s))) with t by lia. rewrite (list_lookup_total_correct _ _ _ Hp). unfold lane. by rewrite Hv.
  - intros s t Hs Ht Htp.
    assert (Es : start_of num_reqs = s) by (unfold start_of, num_reqs; rewrite Nat2Z.id; by apply list_lookup_total_correct).
    assert (Hmem : (wr (g, num_reqs)).2 ∈ snd ∘ wr <$> grid2 (num_kv_cache_groups b) (num_reqs + 1)).
    { apply list_elem_of_fmap. exists (g, num_reqs). split; [done|]. apply elem_of_grid2. unfold num_reqs. lia. }
    apply Hcell; [lia|done|].
    pose proof (Hin _ (t - Z.to_nat s)%nat PAD_SLOT_ID Hmem) as H. unfold wr, w_row, w_start, w_content in H. cbn [fst snd] in H.
    rewrite Z.eqb_refl, Es in H. pose proof (start_lookup num_reqs ltac:(unfold num_reqs; lia)) as (_ & Hs0 & _). rewrite Es in Hs0.
    replace (Z.of_nat g * width dst + s + Z.of_nat (t - Z.to_nat s)) with (Z.of_nat g * width dst + Z.of_nat t) in H by lia. apply H.
    apply lookup_replicate. split; [done|]. lia.
Qed.
End slots.
