(* ===== verification/CpIndexSpec.v ===== *)
(** The index filter and the compaction, as functions of a row. *)
From S2P Require Import Prelude CpBuffers CpTables CpIndex CpStaged CpTablesInv CpSessions CpSlots.
From stdpp Require Import base list gmap sets.
From Stdlib Require Import ZArith Lia.
#[local] Open Scope Z_scope.

(** * Lists *)

Lemma ops_at_bind {P} k (grid : list P) f : ops_at k (grid ≫= f) = grid ≫= λ p, ops_at k (f p).
Proof. unfold ops_at. induction grid as [|p grid IH]; [done|]. cbn. by rewrite filter_app, IH. Qed.

Lemma bind_nothing {A B} (l : list A) (g : A → list B) : (∀ x, x ∈ l → g x = []) → l ≫= g = [].
Proof.
  induction l as [|x l IH]; intros H; [done|]. cbn. rewrite (H x ltac:(by left)). apply IH. intros y Hy. apply H. by right.
Qed.
(** Only one element contributes. *)
Lemma bind_single {A B} (l : list A) (g : A → list B) x : NoDup l → x ∈ l → (∀ y, y ∈ l → y ≠ x → g y = []) → l ≫= g = g x.
Proof.
  induction l as [|y l IH]; [set_solver|]. intros [Hn Hnd]%NoDup_cons Hx H. cbn. apply elem_of_cons in Hx as [->|Hx].
  - rewrite bind_nothing; [by rewrite app_nil_r|]. intros z Hz. apply H; [by right|]. by intros ->.
  - rewrite (H y); [|by left|by intros ->]. apply IH; [done|done|]. intros z Hz. apply H. by right.
Qed.

Lemma seqZ_tiles (k : nat) n : 0 ≤ n → seqZ 0 (Z.of_nat k * n) = seqZ 0 (Z.of_nat k) ≫= λ j, seqZ (j * n) n.
Proof.
  intros Hn. induction k as [|k IH]; [done|].
  rewrite Nat2Z.inj_succ, <- Z.add_1_r, Z.mul_add_distr_r, Z.mul_1_l. rewrite !seqZ_app, bind_app, IH by nia. f_equal.
  rewrite (seqZ_cons (0 + _) 1), (seqZ_nil (Z.succ _)) by lia. cbn [mbind list_bind]. by rewrite app_nil_r.
Qed.

Lemma zsum_bind {A} (l : list A) (g : A → list Z) : zsum (l ≫= g) = zsum ((λ x, zsum (g x)) <$> l).
Proof. induction l as [|x l IH]; [done|]. cbn. rewrite zsum_app, IH. done. Qed.

(** * One lane of the filter *)

(** The lane of a position whose block is in the row [x] of the request. *)
Lemma convert_lane_spec (k : Convert) table starts req x tok :
  HAS_PREFILL k = false → 0 < BLOCK_SIZE k → 0 < DCP_SIZE k → 0 < DCP_INTERLEAVE k → 0 ≤ req → 0 ≤ tok →
  row_holds (max_num_blocks_per_req k) table req x → Z.of_nat (length x) ≤ max_num_blocks_per_req k →
  local_of (DCP_SIZE k) (DCP_INTERLEAVE k) tok / BLOCK_SIZE k < Z.of_nat (length x) →
  let mine := (DCP_SIZE k =? 1) || (owner (DCP_SIZE k) (DCP_INTERLEAVE k) tok =? DCP_RANK k) in
  convert_lane k table starts (max_num_blocks_per_req k) req (-1) tok =
    Ok (if mine then wrap32 (slot_of (BLOCK_SIZE k) x (local_of (DCP_SIZE k) (DCP_INTERLEAVE k) tok)) else -1, negb mine).
Proof.
  intros Hpre Hk HN HI Hr Htok Hx Hlen Hb mine. pose proof (local_of_nonneg _ _ tok HN HI Htok) as Hl.
  set (l := local_of (DCP_SIZE k) (DCP_INTERLEAVE k) tok) in *. unfold convert_lane. rewrite Hpre. cbn [andb negb].
  rewrite (proj2 (Z.ltb_ge tok 0)) by lia. cbn [orb].
  assert (E : (if 1 <? DCP_SIZE k
      then (Z.quot tok (DCP_SIZE k * DCP_INTERLEAVE k) * DCP_INTERLEAVE k + Z.rem tok (DCP_INTERLEAVE k),
            negb (Z.rem (Z.quot tok (DCP_INTERLEAVE k)) (DCP_SIZE k) =? DCP_RANK k))
      else (tok, false)) = (l, negb mine)).
  { subst mine. destruct (Z.ltb_spec 1 (DCP_SIZE k)) as [H1|H1].
    - rewrite (proj2 (Z.eqb_neq (DCP_SIZE k) 1)) by lia. cbn [orb]. unfold l, local_of, owner.
      rewrite !(Z.quot_div_nonneg tok), (Z.rem_mod_nonneg tok) by nia. rewrite Z.rem_mod_nonneg; [done|apply Z.div_pos; lia|lia].
    - assert (E1 : DCP_SIZE k = 1) by lia. unfold l. rewrite E1. cbn [Z.eqb Pos.eqb orb negb]. by rewrite local_of_one. }
  rewrite E. pose proof (Z.div_pos l (BLOCK_SIZE k) Hl Hk).
  rewrite (Z.quot_div_nonneg l), (Z.rem_mod_nonneg l) by lia.
  rewrite (proj2 (Z.leb_le 0 _)), (proj2 (Z.ltb_lt (l / _) _)) by lia. cbn [andb negb].
  destruct (lookup_lt_is_Some_2 x (Z.to_nat (l / BLOCK_SIZE k)) ltac:(lia)) as [v Hv].
  rewrite (proj2 (load_ok _ _ v)).
  2:{ split; [nia|]. pose proof (Hx _ _ Hv) as H1. rewrite Z2Nat.id in H1 by lia. done. }
  cbn [mbind res_bind]. unfold slot_of. rewrite (list_lookup_total_correct _ _ _ Hv). rewrite orb_false_r. by destruct mine.
Qed.

(** A negative position is invalid. *)
Lemma convert_lane_negative k table starts stride req tok r : tok < 0 → HAS_PREFILL k = false →
  convert_lane k table starts stride req (-1) tok = Ok r → r = (-1, true).
Proof.
  intros Ht Hpre. unfold convert_lane. rewrite Hpre. cbn [andb]. rewrite (proj2 (Z.ltb_lt tok 0)) by lia. cbn [orb].
  by destruct (1 <? DCP_SIZE k); intros (c & _ & [= <-])%res_bind_ok.
Qed.

(** A lane never reads outside of the table. *)
Lemma convert_lane_total k table starts n req tok : HAS_PREFILL k = false →
  Z.of_nat (length table) = Z.of_nat n * max_num_blocks_per_req k → 0 ≤ req < Z.of_nat n →
  ∃ r, convert_lane k table starts (max_num_blocks_per_req k) req (-1) tok = Ok r.
Proof.
  intros Hpre Hlen Hr. unfold convert_lane. rewrite Hpre. cbn [andb negb]. destruct (if 1 <? DCP_SIZE k then _ else _) as [l inv].
  destruct ((_ <? max_num_blocks_per_req k) && _) eqn:Ev; cbn [andb]; [|by eexists].
  apply andb_true_iff in Ev as [H1%Z.ltb_lt H2%Z.leb_le].
  destruct (load_total table (req * max_num_blocks_per_req k + Z.quot l (BLOCK_SIZE k))) as [v Hv]; [nia|]. rewrite Hv. by eexists.
Qed.
Lemma wrap32_small v : is_int32 v → wrap32 v = v.
Proof. unfold is_int32, wrap32. intros H. rewrite Z.mod_small by lia. lia. Qed.

(** * The launch of the filter *)

Section convert.
Context {G : Gpu} {GL : GpuLaws G}.
Context (k : Convert) (req_id table token_indices ids starts : list Z) (stride topk : Z).
Context (tiles : nat).
Hypothesis Htiles : topk = Z.of_nat tiles * BLOCK_N k.
Hypothesis Hn : 0 ≤ BLOCK_N k.
Hypothesis Hpre : HAS_PREFILL k = false.
Hypothesis Hlen : Z.of_nat (length token_indices) = Z.of_nat (length req_id) * topk.
Let lane (t : nat) (i : Z) : res (Z * bool) :=
  convert_lane k table starts stride (req_id !!! t) (-1) (token_indices !!! Z.to_nat (Z.of_nat t * topk + i)).
Hypothesis Htotal : ∀ t i, (t < length req_id)%nat → 0 ≤ i < topk → ∃ r, lane t i = Ok r.

Let val (t : nat) (i : Z) : Z * bool := match lane t i with Ok r => r | Err _ => (0, true) end.
Let valid (t : nat) (i : Z) : Z := if (val t i).2 then 0 else 1.
Let kernel := _convert_req_index_to_global_index_kernel k req_id table token_indices ids starts stride topk topk.
Let stores (p : nat * Z) : list GpuOp :=
  (λ i, Store 0 (Z.of_nat p.1 * topk + i) (val p.1 i).1) <$> seqZ (p.2 * BLOCK_N k) (BLOCK_N k).
Let adds (p : nat * Z) : list GpuOp :=
  if COUNT_VALID k then [AtomicAdd 1 (Z.of_nat p.1) (zsum (valid p.1 <$> seqZ (p.2 * BLOCK_N k) (BLOCK_N k)))] else [].
Let grid := grid2 (length req_id) (Z.of_nat tiles).

Lemma convert_kernel_ok p : p ∈ grid → kernel p = Ok (stores p ++ adds p).
Proof using All.
  destruct p as [t j]. intros [Ht Hj]%elem_of_grid2. unfold kernel, _convert_req_index_to_global_index_kernel.
  destruct (lookup_lt_is_Some_2 req_id t Ht) as [req Hreq]. rewrite (load_of_nat _ _ _ Hreq), Hpre. cbn [mbind res_bind].
  rewrite (map_res_ok _ (λ l, (Store 0 (Z.of_nat t * topk + (j * BLOCK_N k + l)) (val t (j * BLOCK_N k + l)).1, (val t (j * BLOCK_N k + l)).2))).
  - cbn [mbind res_bind]. unfold stores, adds. cbn [fst snd]. unfold arange. rewrite <- (seqZ_fmap_add (j * BLOCK_N k)), <- !list_fmap_compose. done.
  - intros l Hl%elem_of_seqZ. assert (Hi : 0 ≤ j * BLOCK_N k + l < topk) by nia.
    destruct (lookup_lt_is_Some_2 token_indices (Z.to_nat (Z.of_nat t * topk + (j * BLOCK_N k + l)))) as [tok Htok]; [nia|].
    rewrite (proj2 (load_ok token_indices _ tok)) by (split; [nia|done]). cbn [mbind res_bind].
    destruct (Htotal t _ Ht Hi) as [r Hr]. unfold val. rewrite Hr. unfold lane in Hr.
    rewrite (list_lookup_total_correct _ _ _ Htok), (list_lookup_total_correct _ _ _ Hreq) in Hr. by rewrite Hr.
Qed.

(** What a cell of the output gets. *)
Lemma convert_ops_out t i : (t < length req_id)%nat → 0 ≤ i < topk →
  ops_at (0%nat, Z.of_nat t * topk + i) (grid ≫= λ p, stores p ++ adds p) = [Store 0 (Z.of_nat t * topk + i) (val t i).1].
Proof using Htiles Hn.
  intros Ht Hi. assert (Hb : 0 < BLOCK_N k) by nia. rewrite ops_at_bind.
  assert (Hadds : ∀ p, ops_at (0%nat, Z.of_nat t * topk + i) (adds p) = []).
  { intros p. unfold adds. by destruct (COUNT_VALID k). }
  assert (Hstores : ∀ p, p ∈ grid → ops_at (0%nat, Z.of_nat t * topk + i) (stores p) =
    if decide (p = (t, i / BLOCK_N k)) then [Store 0 (Z.of_nat t * topk + i) (val t i).1] else []).
  { intros [t' j] [Ht' Hj]%elem_of_grid2. pose proof (Z.div_mod i (BLOCK_N k) ltac:(lia)) as Hdm. pose proof (Z.mod_pos_bound i (BLOCK_N k) Hb) as Hmb.
    case_decide as Hd.
    - injection Hd as -> ->. apply (ops_at_once (Store 0 (Z.of_nat t * topk + i) (val t i).1)).
      + unfold stores. rewrite <- list_fmap_compose. apply NoDup_fmap_2_strong; [|apply NoDup_seqZ]. intros x y _ _ E. cbn in E. injection E. lia.
      + apply list_elem_of_fmap. exists i. split; [done|]. apply elem_of_seqZ. cbn [snd]. lia.
    - apply ops_at_none. intros (o & E & (i' & -> & Hi'%elem_of_seqZ)%list_elem_of_fmap)%list_elem_of_fmap. cbn in E. injection E as E.
      cbn [snd] in Hi'. apply Hd. destruct (row_address topk (Z.of_nat t) i (Z.of_nat t') i') as [Er Ec]; [lia| |lia|].
      { assert (j * BLOCK_N k + BLOCK_N k ≤ topk) by nia. assert (0 ≤ j * BLOCK_N k) by nia. lia. } subst i'. f_equal; [lia|].
      apply (Z.div_unique_pos i (BLOCK_N k) j (i - j * BLOCK_N k)); lia. }
  rewrite (bind_single grid _ (t, i / BLOCK_N k)).
  - unfold ops_at. rewrite filter_app. fold (ops_at (0%nat, Z.of_nat t * topk + i) (stores (t, i / BLOCK_N k))).
    fold (ops_at (0%nat, Z.of_nat t * topk + i) (adds (t, i / BLOCK_N k))). rewrite Hadds, Hstores, decide_True by
      (done || (apply elem_of_grid2; split; [done|]; split; [apply Z.div_pos; lia|apply Z.div_lt_upper_bound; nia])). done.
  - apply NoDup_grid2.
  - apply elem_of_grid2. split; [done|]. split; [apply Z.div_pos; lia|apply Z.div_lt_upper_bound; nia].
  - intros p Hp Hne. unfold ops_at. rewrite filter_app. fold (ops_at (0%nat, Z.of_nat t * topk + i) (stores p)).
    fold (ops_at (0%nat, Z.of_nat t * topk + i) (adds p)). rewrite Hadds, Hstores, decide_False by done. done.
Qed.

(** What a count gets: an addition for every tile of the row. *)
Lemma convert_ops_count t : COUNT_VALID k = true → (t < length req_id)%nat →
  ops_at (1%nat, Z.of_nat t) (grid ≫= λ p, stores p ++ adds p) =
    (λ j, AtomicAdd 1 (Z.of_nat t) (zsum (valid t <$> seqZ (j * BLOCK_N k) (BLOCK_N k)))) <$> seqZ 0 (Z.of_nat tiles).
Proof using.
  intros Hc Ht. rewrite ops_at_bind.
  assert (Hp : ∀ p, ops_at (1%nat, Z.of_nat t) (stores p ++ adds p) =
    if decide (p.1 = t) then [AtomicAdd 1 (Z.of_nat t) (zsum (valid t <$> seqZ (p.2 * BLOCK_N k) (BLOCK_N k)))] else []).
  { intros p. unfold ops_at. rewrite filter_app. fold (ops_at (1%nat, Z.of_nat t) (stores p)). fold (ops_at (1%nat, Z.of_nat t) (adds p)).
    rewrite (ops_at_none _ (stores p)) by (by intros (o & E & (i' & -> & _)%list_elem_of_fmap)%list_elem_of_fmap).
    unfold adds, ops_at. rewrite Hc, filter_cons, filter_nil. cbn [op_key]. case_decide as H1; case_decide as H2.
    - by subst t. - injection H1. lia. - exfalso. apply H1. by rewrite H2. - done. }
  unfold grid, grid2.
  assert (E : ∀ l, (l ≫= λ i, (λ j, (i, j)) <$> seqZ 0 (Z.of_nat tiles)) ≫= (λ p, ops_at (1%nat, Z.of_nat t) (stores p ++ adds p)) =
    l ≫= λ i, if decide (i = t) then (λ j, AtomicAdd 1 (Z.of_nat t) (zsum (valid t <$> seqZ (j * BLOCK_N k) (BLOCK_N k)))) <$> seqZ 0 (Z.of_nat tiles) else []).
  { induction l as [|i l IH]; [done|]. cbn [mbind list_bind]. rewrite bind_app. f_equal; [|exact IH].
    generalize (seqZ 0 (Z.of_nat tiles)). intros js. induction js as [|j js IHj]; [by case_decide|].
    cbn [fmap list_fmap mbind list_bind]. rewrite Hp. cbn [fst snd]. rewrite IHj. by case_decide. }
  rewrite E. rewrite (bind_single _ _ t); [by rewrite decide_True|apply NoDup_seq|apply elem_of_seq; lia|].
  intros y _ Hy. by rewrite decide_False.
Qed.

Lemma convert_launch (out : list Z) : length out = length token_indices →
  ∃ mem, launch grid kernel (out :: (if COUNT_VALID k then [replicate (length req_id) 0] else [])) = Ok mem ∧
    (∃ l, mem !! 0%nat = Some l ∧ length l = length token_indices ∧
       ∀ t i, (t < length req_id)%nat → 0 ≤ i < topk → l !! Z.to_nat (Z.of_nat t * topk + i) = Some (val t i).1) ∧
    (COUNT_VALID k = true → ∃ c, mem !! 1%nat = Some c ∧ length c = length req_id ∧
       ∀ t, (t < length req_id)%nat → c !! t = Some (zsum (valid t <$> seqZ 0 topk))).
Proof using All.
  intros Hout. set (tables := out :: _).
  destruct (launch_spec grid kernel (λ p, stores p ++ adds p) tables convert_kernel_ok) as (mem & Hr & Hs & Hm).
  - intros [t j] op [Ht Hj]%elem_of_grid2 [Ho|Ho]%elem_of_app.
    + apply list_elem_of_fmap in Ho as (i & -> & Hi%elem_of_seqZ). cbn [op_key fst snd] in *. eapply cell_is_Some; [done|]. nia.
    + unfold adds in Ho. destruct (COUNT_VALID k) eqn:Ec; [|by apply not_elem_of_nil in Ho]. apply list_elem_of_singleton in Ho as ->.
      cbn [op_key fst]. eapply cell_is_Some; [done|]. rewrite length_replicate. lia.
  - exists mem. split; [done|]. split.
    + destruct (same_shape_lookup tables mem 0 out Hs eq_refl) as (l & Hl & Hll). exists l. split; [done|]. split; [by rewrite Hll|].
      intros t i Ht Hi. destruct (Hm (0%nat, Z.of_nat t * topk + i)) as (ops & Hp & Hc). rewrite convert_ops_out in Hp by done.
      apply Permutation_singleton_r in Hp as ->. cbn [foldl op_update] in Hc.
      destruct (cell_is_Some tables 0 (Z.of_nat t * topk + i) out eq_refl ltac:(nia)) as [c0 Hc0]. rewrite Hc0 in Hc.
      cbn in Hc. apply cell_Some in Hc as (l0 & Hl0 & _ & Hc). rewrite Hl in Hl0. injection Hl0 as <-. done.
    + intros Ec. assert (Ht1 : tables !! 1%nat = Some (replicate (length req_id) 0)) by (unfold tables; by rewrite Ec).
      destruct (same_shape_lookup tables mem 1 _ Hs Ht1) as (c & Hc & Hcl). exists c. split; [done|].
      split; [by rewrite Hcl, length_replicate|]. intros t Ht. destruct (Hm (1%nat, Z.of_nat t)) as (ops & Hp & Hcell).
      rewrite (cell_lookup _ _ _ _ Hc), (cell_lookup _ _ _ _ Ht1), lookup_replicate_2 in Hcell by done. rewrite Hcell. cbn. f_equal.
      rewrite convert_ops_count in Hp by done. rewrite foldl_adds.
      2:{ intros op. rewrite Hp. intros (j & -> & _)%list_elem_of_fmap. eauto. }
      rewrite Hp, <- list_fmap_compose, Htiles, seqZ_tiles, fmap_list_bind, zsum_bind by done. cbn. done.
Qed.
End convert.

(** The constants that [triton_filter_and_convert_dcp_index] launches with. *)
Definition filter_consts (width_ BLOCK_SIZE_ BLOCK_N_ : Z) (counts : bool) (dcp_size dcp_rank interleave : Z) : Convert :=
  if dcp_size =? 1 then mkConvert width_ BLOCK_SIZE_ BLOCK_N_ false counts 1 0 1
  else mkConvert width_ BLOCK_SIZE_ BLOCK_N_ false counts dcp_size dcp_rank interleave.

(** Legal arguments: the requests are rows of the table, and the candidates of
    every token fill whole tiles. *)
Record filter_args (req_id : list Z) (table token_indices : GpuTensor) (topk BLOCK_N_ : Z) : Prop := {
  fa_rows : ∃ m : nat, Z.of_nat (length (cells table)) = Z.of_nat m * width table ∧ Forall (λ r, 0 ≤ r < Z.of_nat m) req_id;
  fa_width : width token_indices = topk;
  fa_cells : Z.of_nat (length (cells token_indices)) = Z.of_nat (length req_id) * topk;
  fa_tiles : 0 < BLOCK_N_ ∧ 0 ≤ topk ∧ topk `mod` BLOCK_N_ = 0 }.

Section filter.
Context {G : Gpu} {GL : GpuLaws G}.

Lemma run_convert_ok req_id table token_indices BLOCK_SIZE_ topk BLOCK_N_ counts dcp_size dcp_rank interleave :
  filter_args req_id table token_indices topk BLOCK_N_ →
  let k := mkConvert (width table) BLOCK_SIZE_ BLOCK_N_ false counts dcp_size dcp_rank interleave in
  let lane (t : nat) (i : Z) : res (Z * bool) := convert_lane k (cells table) [] (width table) (req_id !!! t) (-1)
    (cells token_indices !!! Z.to_nat (Z.of_nat t * topk + i)) in
  ∃ out cs, run_convert req_id table token_indices None BLOCK_SIZE_ topk BLOCK_N_ counts dcp_size dcp_rank interleave
      = Ok (mkTensor topk out, cs) ∧ length out = length (cells token_indices) ∧
    (∀ t i, (t < length req_id)%nat → 0 ≤ i < topk → ∃ r, lane t i = Ok r ∧ out !! Z.to_nat (Z.of_nat t * topk + i) = Some r.1) ∧
    (counts = true → ∃ c, cs = Some c ∧ length c = length req_id ∧ ∀ t, (t < length req_id)%nat →
       c !! t = Some (zsum ((λ i, match lane t i with Ok (_, false) => 1 | _ => 0 end) <$> seqZ 0 topk))).
Proof using GL.
  intros [(m & Hm & Hreq) Hw Hcells (Hb & Htk & Hmod)] k lane.
  assert (Htiles : topk = Z.of_nat (Z.to_nat (topk / BLOCK_N_)) * BLOCK_N_).
  { pose proof (Z.div_pos topk BLOCK_N_ Htk Hb). rewrite Z2Nat.id by lia. pose proof (Z.div_mod topk BLOCK_N_ ltac:(lia)). lia. }
  assert (Htotal : ∀ t i, (t < length req_id)%nat → 0 ≤ i < topk → ∃ r, lane t i = Ok r).
  { intros t i Ht Hi. apply (convert_lane_total k (cells table) [] m); [done|done|].
    apply (proj1 (Forall_lookup _ _) Hreq t). by apply list_lookup_lookup_total_lt. }
  destruct (convert_launch k req_id (cells table) (cells token_indices) [] [] (width table) topk (Z.to_nat (topk / BLOCK_N_)) Htiles ltac:(cbn; lia)
    eq_refl Hcells Htotal (empty_cells (length (cells token_indices)))) as (mem & Hr & (l & Hl & Hll & Hout) & Hcount).
  { apply empty_cells_length. }
  unfold run_convert. cbn beta iota zeta. rewrite Hw. rewrite Z2Nat.id in Hr by (apply Z.div_pos; lia).
  cbn [COUNT_VALID k] in Hr. fold k. rewrite Hr. cbn [mbind res_bind]. unfold nth_res. rewrite Hl. cbn [res_of_option mbind res_bind].
  assert (Hlane : ∀ t i, (t < length req_id)%nat → 0 ≤ i < topk → ∃ r, lane t i = Ok r ∧ l !! Z.to_nat (Z.of_nat t * topk + i) = Some r.1).
  { intros t i Ht Hi. destruct (Htotal t i Ht Hi) as [r Hlr]. exists r. split; [done|]. rewrite (Hout t i Ht Hi). unfold lane in Hlr. by rewrite Hlr. }
  destruct counts.
  - destruct (Hcount eq_refl) as (c & Hc & Hcl & Hcs). rewrite Hc. cbn [res_of_option mbind res_bind]. exists l, (Some c).
    split_and!; try done. intros _. exists c. split_and!; [done|done|]. intros t Ht. rewrite (Hcs t Ht). do 2 f_equal.
    apply list_fmap_ext. intros j i Hi%list_elem_of_lookup_2%elem_of_seqZ. destruct (Htotal t i Ht ltac:(lia)) as [[v inv] Hlr].
    unfold lane in *. rewrite Hlr. by destruct inv.
  - exists l, None. by split_and!.
Qed.

(** The filter never raises; every entry of its output is what the lane of the
    entry gives, and the counts are those of the entries that are kept. *)
Lemma filter_ok req_id table token_indices BLOCK_SIZE_ topk BLOCK_N_ counts dcp_size dcp_rank interleave :
  filter_args req_id table token_indices topk BLOCK_N_ → 0 ≤ dcp_rank < dcp_size → 0 < interleave → BLOCK_SIZE_ `mod` interleave = 0 →
  let k := filter_consts (width table) BLOCK_SIZE_ BLOCK_N_ counts dcp_size dcp_rank interleave in
  let lane (t : nat) (i : Z) : res (Z * bool) := convert_lane k (cells table) [] (width table) (req_id !!! t) (-1)
    (cells token_indices !!! Z.to_nat (Z.of_nat t * topk + i)) in
  ∃ out cs, triton_filter_and_convert_dcp_index req_id table token_indices dcp_size dcp_rank interleave BLOCK_SIZE_ topk BLOCK_N_ counts
      = Ok (mkTensor topk out, cs) ∧ length out = length (cells token_indices) ∧
    (∀ t i, (t < length req_id)%nat → 0 ≤ i < topk → ∃ r, lane t i = Ok r ∧ out !! Z.to_nat (Z.of_nat t * topk + i) = Some r.1) ∧
    (counts = true → ∃ c, cs = Some c ∧ length c = length req_id ∧ ∀ t, (t < length req_id)%nat →
       c !! t = Some (zsum ((λ i, match lane t i with Ok (_, false) => 1 | _ => 0 end) <$> seqZ 0 topk))).
Proof using GL.
  intros Ha Hr HI Hdiv. unfold triton_filter_and_convert_dcp_index, triton_convert_req_index_to_global_index, filter_consts, check_divides.
  rewrite (bool_decide_eq_true_2 (1 ≤ dcp_size)) by lia. rewrite (bool_decide_eq_true_2 (0 ≤ dcp_rank < dcp_size)) by lia.
  rewrite (bool_decide_eq_false_2 (interleave = 0)) by lia. rewrite (bool_decide_eq_true_2 (BLOCK_SIZE_ `mod` interleave = 0)) by done.
  pose proof (fa_tiles _ _ _ _ _ Ha) as (Hb & _ & Hmod).
  cbn [check mbind res_bind].
  rewrite (bool_decide_eq_true_2 (width token_indices = topk)) by apply Ha.
  rewrite (bool_decide_eq_false_2 (BLOCK_N_ = 0)) by lia. rewrite (bool_decide_eq_true_2 (topk `mod` BLOCK_N_ = 0)) by done.
  cbn [check mbind res_bind]. destruct (dcp_size =? 1); by apply run_convert_ok.
Qed.
End filter.

(** * Compaction *)

(** The valid candidates of a row, in their order. *)
Definition kept (row : list Z) : list Z := filter (λ i, 0 ≤ i) row.
(** Row [t] of a tensor of rows of [topk] cells. *)
Definition row_of (topk : Z) (l : list Z) (t : nat) : list Z := take (Z.to_nat topk) (drop (t * Z.to_nat topk) l).

Lemma kept_cons x l : kept (x :: l) = if 0 <=? x then x :: kept l else kept l.
Proof.
  unfold kept. rewrite filter_cons. destruct (Z.leb_spec 0 x); [by rewrite decide_True|by rewrite decide_False by lia].
Qed.
Lemma kept_app l1 l2 : kept (l1 ++ l2) = kept l1 ++ kept l2.
Proof. unfold kept. apply filter_app. Qed.

Definition valid_of (l : list Z) : list Z := (λ i : Z, if 0 <=? i then 1 else 0) <$> l.
Lemma zsum_valid l : zsum (valid_of l) = Z.of_nat (length (kept l)).
Proof.
  induction l as [|x l IH]; [done|]. rewrite kept_cons. cbn [valid_of fmap list_fmap]. change (zsum (?a :: ?m)) with (a + zsum m).
  unfold valid_of in IH. unfold zsum in *. cbn [foldr]. rewrite IH. destruct (0 <=? x); cbn [length]; lia.
Qed.

(** The exclusive prefix sums give the valid candidates their places. *)
Lemma compact_places acc l :
  filter (λ p : Z * Z, 0 ≤ p.2) (zip (zip_with Z.sub (cumsum_from acc (valid_of l)) (valid_of l)) l)
  = zip (seqZ acc (Z.of_nat (length (kept l)))) (kept l).
Proof.
  revert acc. induction l as [|x l IH]; intros acc; [done|].
  cbn [valid_of fmap list_fmap cumsum_from zip_with]. rewrite filter_cons, kept_cons. cbn [snd].
  destruct (Z.leb_spec 0 x).
  - rewrite decide_True by done. cbn [length]. rewrite seqZ_cons by lia. cbn [zip_with]. f_equal; [f_equal; lia|].
    fold (valid_of l). rewrite IH. f_equal. rewrite Nat2Z.inj_succ, Z.pred_succ. done.
  - rewrite decide_False by lia. fold (valid_of l). rewrite Z.add_0_r. apply IH.
Qed.

Lemma kept_pad l k : kept (l ++ replicate k (-1)) = kept l.
Proof. rewrite kept_app. replace (kept (replicate k (-1))) with (@nil Z); [by rewrite app_nil_r|]. induction k as [|k IH]; [done|]. cbn [replicate]. by rewrite kept_cons. Qed.

Lemma row_of_lookup topk l t i : 0 ≤ i < topk → row_of topk l t !! Z.to_nat i = l !! Z.to_nat (Z.of_nat t * topk + i).
Proof. intros Hi. unfold row_of. rewrite lookup_take_lt, lookup_drop by lia. f_equal. nia. Qed.
Lemma row_of_length topk l t n : 0 ≤ topk → Z.of_nat (length l) = Z.of_nat n * topk → (t < n)%nat → length (row_of topk l t) = Z.to_nat topk.
Proof. intros H0 Hl Ht. unfold row_of. rewrite length_take, length_drop. nia. Qed.

Section compact.
Context {G : Gpu} {GL : GpuLaws G}.
Context (n : nat) (src : GpuTensor).
Let topk := width src.
Hypothesis Htopk : 0 < topk.
Hypothesis Hlen : Z.of_nat (length (cells src)) = Z.of_nat n * topk.
Let flt (t : nat) : list Z := kept (row_of topk (cells src) t).

Lemma flt_length t : (t < n)%nat → Z.of_nat (length (flt t)) ≤ topk.
Proof using Htopk Hlen.
  intros Ht. unfold flt, kept. pose proof (length_filter (λ i, 0 ≤ i) (row_of topk (cells src) t)) as H.
  rewrite (row_of_length _ _ _ n) in H by (done || lia). lia.
Qed.

Let ops (r : Z) : list GpuOp :=
  write_ops topk 0 (r, 0, flt (Z.to_nat r)) ++ [Store 1 r (Z.of_nat (length (flt (Z.to_nat r))))].

Lemma compact_kernel_ok r : r ∈ seqZ 0 (Z.of_nat n) →
  _compact_dcp_candidates_kernel (cells src) topk topk topk (next_power_of_2 topk) r = Ok (ops r).
Proof using Htopk Hlen GL.
  intros Hr%elem_of_seqZ. unfold _compact_dcp_candidates_kernel. pose proof (next_power_of_2_ge topk Htopk) as Hp.
  set (row := row_of topk (cells src) (Z.to_nat r)).
  assert (Hrl : length row = Z.to_nat topk) by (apply (row_of_length _ _ _ n); [lia|done|lia]).
  assert (E : map_res (λ offs, if offs <? topk then load (cells src) (r * topk + offs) else Ok (-1)) (arange (next_power_of_2 topk))
    = Ok (row ++ replicate (Z.to_nat (next_power_of_2 topk - topk)) (-1))).
  { unfold arange. rewrite (map_res_ok _ (λ offs, if offs <? topk then row !!! Z.to_nat offs else -1)).
    - f_equal. replace (next_power_of_2 topk) with (topk + (next_power_of_2 topk - topk)) at 1 by lia.
      rewrite seqZ_app, fmap_app by lia. f_equal; apply list_eq; intros i; rewrite list_lookup_fmap.
      + destruct (decide (i < Z.to_nat topk)%nat) as [Hi|Hi].
        * rewrite lookup_seqZ_lt by lia. cbn [fmap option_fmap option_map]. rewrite (proj2 (Z.ltb_lt _ _)) by lia. symmetry.
          replace (Z.to_nat (0 + Z.of_nat i)) with i by lia. apply list_lookup_lookup_total_lt. lia.
        * rewrite lookup_seqZ_ge by lia. symmetry. apply lookup_ge_None_2. lia.
      + destruct (decide (i < Z.to_nat (next_power_of_2 topk - topk))%nat) as [Hi|Hi].
        * rewrite lookup_seqZ_lt by lia. cbn [fmap option_fmap option_map]. rewrite (proj2 (Z.ltb_ge _ _)) by lia. symmetry. by apply lookup_replicate_2.
        * rewrite lookup_seqZ_ge by lia. symmetry. apply lookup_ge_None_2. rewrite length_replicate. lia.
    - intros offs Ho%elem_of_seqZ. destruct (Z.ltb_spec offs topk); [|done].
      pose proof (row_of_lookup topk (cells src) (Z.to_nat r) offs ltac:(lia)) as Hl. rewrite Z2Nat.id in Hl by lia. fold row in Hl.
      destruct (lookup_lt_is_Some_2 row (Z.to_nat offs) ltac:(lia)) as [v Hv]. rewrite (list_lookup_total_correct _ _ _ Hv).
      apply load_ok. split; [nia|]. by rewrite <- Hl. }
  rewrite E. cbn [mbind res_bind]. fold (valid_of (row ++ replicate (Z.to_nat (next_power_of_2 topk - topk)) (-1))).
  unfold cumsum. rewrite compact_places, zsum_valid, kept_pad. unfold ops, flt. fold row. f_equal. f_equal.
  unfold write_ops, w_row, w_start, w_content. cbn [fst snd]. apply list_eq. intros i. rewrite !list_lookup_fmap.
  destruct (kept row !! i) as [v|] eqn:Hv.
  - pose proof (lookup_lt_Some _ _ _ Hv). assert (zip (seqZ 0 (Z.of_nat (length (kept row)))) (kept row) !! i = Some (Z.of_nat i, v)) as ->.
    2:{ rewrite lookup_seqZ_lt by lia. cbn [fmap option_fmap option_map fst snd].
      replace (Z.to_nat (0 + Z.of_nat i)) with i by lia. rewrite (list_lookup_total_correct _ _ _ Hv). do 2 f_equal. lia. }
    apply lookup_zip_with_Some. exists (Z.of_nat i), v. rewrite lookup_seqZ_lt by lia. split_and!; [done|f_equal; lia|done].
  - apply lookup_ge_None in Hv. rewrite lookup_seqZ_ge by lia. rewrite (lookup_ge_None_2 (zip _ _)); [done|]. rewrite length_zip_with. lia.
Qed.

Let out0 := replicate (length (cells src)) (-1).
Let counts0 := empty_cells n.

Lemma compact_in_bounds r op : r ∈ seqZ 0 (Z.of_nat n) → op ∈ ops r → is_Some (cell [out0; counts0] (op_key op)).
Proof using All.
  intros Hr%elem_of_seqZ [Ho|Ho]%elem_of_app.
  - apply elem_of_write_ops in Ho as (k & v & Hk%lookup_lt_Some & ->). unfold w_row, w_start, w_content in *. cbn [fst snd op_key] in *.
    pose proof (flt_length (Z.to_nat r) ltac:(lia)). eapply cell_is_Some; [done|]. unfold out0. rewrite length_replicate. nia.
  - apply list_elem_of_singleton in Ho as ->. cbn [op_key]. eapply cell_is_Some; [done|]. unfold counts0. rewrite empty_cells_length. lia.
Qed.

Lemma compact_once : NoDup (op_key <$> (seqZ 0 (Z.of_nat n) ≫= ops)).
Proof using All.
  apply NoDup_grid; [apply NoDup_seqZ| |].
  - intros r _. unfold ops. rewrite fmap_app. apply NoDup_app. split_and!.
    + unfold write_ops. rewrite <- list_fmap_compose. apply NoDup_fmap_2_strong; [|apply NoDup_seqZ]. intros x y _ _ E. cbn in E. injection E. lia.
    + intros k (o & -> & (j & v & _ & ->)%elem_of_write_ops)%list_elem_of_fmap. cbn. by intros [=]%list_elem_of_singleton.
    + apply NoDup_singleton.
  - intros p q o o' Hp%elem_of_seqZ Hq%elem_of_seqZ [Ho|Ho]%elem_of_app [Ho'|Ho']%elem_of_app E.
    + apply elem_of_write_ops in Ho as (k & v & Hk%lookup_lt_Some & ->), Ho' as (k' & v' & Hk'%lookup_lt_Some & ->).
      unfold w_row, w_start, w_content in *. cbn [fst snd op_key] in *. injection E as E.
      pose proof (flt_length (Z.to_nat p) ltac:(lia)). pose proof (flt_length (Z.to_nat q) ltac:(lia)).
      destruct (row_address topk p (Z.of_nat k) q (Z.of_nat k')); lia.
    + apply elem_of_write_ops in Ho as (k & v & _ & ->). apply list_elem_of_singleton in Ho' as ->. done.
    + apply elem_of_write_ops in Ho' as (k & v & _ & ->). apply list_elem_of_singleton in Ho as ->. done.
    + apply list_elem_of_singleton in Ho as ->. apply list_elem_of_singleton in Ho' as ->. cbn in E. by injection E.
Qed.

Lemma compact_launch : ∃ mem out counts,
  launch (seqZ 0 (Z.of_nat n)) (_compact_dcp_candidates_kernel (cells src) topk topk topk (next_power_of_2 topk)) [out0; counts0] = Ok mem ∧
  mem !! 0%nat = Some out ∧ mem !! 1%nat = Some counts ∧ length out = length (cells src) ∧
  counts = (λ t, Z.of_nat (length (flt t))) <$> seq 0 n ∧
  ∀ t i, (t < n)%nat → 0 ≤ i < topk →
    out !! Z.to_nat (Z.of_nat t * topk + i) = Some (match flt t !! Z.to_nat i with Some v => v | None => -1 end).
Proof using All.
  destruct (launch_stores (seqZ 0 (Z.of_nat n)) (_compact_dcp_candidates_kernel (cells src) topk topk topk (next_power_of_2 topk)) ops
    [out0; counts0] compact_kernel_ok compact_in_bounds compact_once) as (mem & Hr & Hs & Hst & Hother).
  destruct (same_shape_lookup _ _ 0 out0 Hs eq_refl) as (out & Hout & Hol). unfold out0 in Hol. rewrite length_replicate in Hol.
  destruct (same_shape_lookup _ _ 1 counts0 Hs eq_refl) as (counts & Hcounts & Hcl). unfold counts0 in Hcl. rewrite empty_cells_length in Hcl.
  exists mem, out, counts. split_and!; try done.
  - apply list_eq. intros t. rewrite list_lookup_fmap. destruct (decide (t < n)%nat) as [Ht|Ht].
    + rewrite lookup_seq_lt by done. cbn. rewrite <- (cell_lookup mem 1 counts t Hcounts). apply Hst. apply list_elem_of_bind.
      exists (Z.of_nat t). split; [|apply elem_of_seqZ; lia]. unfold ops. rewrite Nat2Z.id. apply elem_of_app. right. by left.
    + rewrite lookup_seq_ge, lookup_ge_None_2 by lia. done.
  - intros t i Ht Hi. rewrite <- (cell_lookup mem 0 out _ Hout), Z2Nat.id by lia. destruct (flt t !! Z.to_nat i) as [v|] eqn:Hv.
    + apply Hst. apply list_elem_of_bind. exists (Z.of_nat t).
      split; [|apply elem_of_seqZ; lia]. unfold ops. rewrite Nat2Z.id. apply elem_of_app. left. apply elem_of_write_ops. exists (Z.to_nat i), v.
      unfold w_row, w_start. cbn [fst snd]. split; [done|]. f_equal. lia.
    + apply lookup_ge_None in Hv. rewrite Hother.
      * rewrite <- (Z2Nat.id (Z.of_nat t * topk + i)) by lia. rewrite (cell_lookup _ 0 out0) by done. unfold out0. apply lookup_replicate_2. nia.
      * intros (o & E & (r & [Ho|Ho]%elem_of_app & Hr'%elem_of_seqZ)%list_elem_of_bind)%list_elem_of_fmap; [|by apply list_elem_of_singleton in Ho as ->].
        apply elem_of_write_ops in Ho as (k & v & Hk%lookup_lt_Some & ->). unfold w_row, w_start, w_content in *. cbn [fst snd op_key] in *.
        injection E as E. pose proof (flt_length (Z.to_nat r) ltac:(lia)).
        destruct (row_address topk (Z.of_nat t) i r (Z.of_nat k)) as [Er Ec]; [lia..|]. subst r. rewrite Nat2Z.id in Hk. lia.
Qed.

(** Every row of the result: the valid candidates in their order, then -1; the
    length is their number, and at least one. *)
Lemma compact_ok return_empty : ∃ out lengths,
  compact_dcp_candidates n src return_empty = Ok (mkTensor topk out, lengths,
    if return_empty then Some ((λ t, bool_decide (flt t = [])) <$> seq 0 n) else None) ∧
  length lengths = n ∧ ∀ t, (t < n)%nat →
    row_of topk out t = flt t ++ replicate (Z.to_nat topk - length (flt t)) (-1) ∧
    lengths !! t = Some (Z.max 1 (Z.of_nat (length (flt t)))).
Proof using All.
  destruct compact_launch as (mem & out & counts & Hr & Hout & Hcounts & Hol & Ec & Hcell). exists out, (Z.max 1 <$> counts). split.
  - unfold compact_dcp_candidates. fold topk. fold out0. fold counts0. rewrite Hr. cbn [mbind res_bind]. unfold nth_res.
    rewrite Hout, Hcounts. cbn [res_of_option mbind res_bind]. do 2 f_equal. destruct return_empty; [|done]. f_equal.
    rewrite Ec, <- list_fmap_compose. apply list_fmap_ext. intros j t _. cbn. apply bool_decide_ext.
    destruct (flt t); cbn; split; (done || lia).
  - split; [by rewrite length_fmap, Ec, length_fmap, length_seq|]. intros t Ht.
    split; [|by rewrite list_lookup_fmap, Ec, list_lookup_fmap, lookup_seq_lt by done].
    pose proof (flt_length t Ht) as Hfl. apply list_eq. intros i. destruct (decide (i < Z.to_nat topk)%nat) as [Hi|Hi].
    + rewrite <- (Nat2Z.id i) at 1. rewrite row_of_lookup, (Hcell t (Z.of_nat i) Ht), Nat2Z.id by lia. destruct (flt t !! i) as [v|] eqn:Hv.
      * rewrite lookup_app_l by (by eapply lookup_lt_Some). done.
      * apply lookup_ge_None in Hv. rewrite lookup_app_r by done. by rewrite lookup_replicate_2 by lia.
    + rewrite !lookup_ge_None_2; [done| |].
      * rewrite length_app, length_replicate. lia.
      * rewrite (row_of_length topk out t n); [lia|lia| |done]. by rewrite Hol.
Qed.
End compact.

(** * Filter, then compaction *)

(** The candidates of a row that a rank holds, in their order. *)
Definition mine (N I rank : Z) (row : list Z) : list Z := filter (λ p, 0 ≤ p ∧ owner N I p = rank) row.

Lemma kept_map (f h : Z → Z) N I rank row :
  (∀ p, p ∈ row → if decide (0 ≤ p ∧ owner N I p = rank) then f p = h p ∧ 0 ≤ h p else f p = -1) →
  kept (f <$> row) = h <$> mine N I rank row.
Proof.
  induction row as [|p row IH]; intros Hf; [done|]. cbn [fmap list_fmap]. rewrite kept_cons. unfold mine. rewrite filter_cons.
  specialize (Hf p ltac:(by left)) as Hp. rewrite IH by (intros q Hq; apply Hf; by right).
  case_decide; [destruct Hp as [-> Hh]; by rewrite (proj2 (Z.leb_le 0 _))|]. by rewrite Hp.
Qed.

Lemma zsum_mine N I rank row :
  zsum ((λ p, if decide (0 ≤ p ∧ owner N I p = rank) then 1 else 0) <$> row) = Z.of_nat (length (mine N I rank row)).
Proof.
  induction row as [|p row IH]; [done|]. unfold mine, zsum in *. cbn [fmap list_fmap foldr]. rewrite filter_cons, IH.
  case_decide; cbn [length]; lia.
Qed.

Lemma zsum_one (o : Z) (l : list Z) : NoDup l → zsum ((λ r, if decide (o = r) then 1 else 0) <$> l) = if decide (o ∈ l) then 1 else 0.
Proof.
  induction l as [|r l IH]; intros Hnd; [by rewrite decide_False by (by apply not_elem_of_nil)|].
  apply NoDup_cons in Hnd as [Hn Hnd]. unfold zsum in *. cbn [fmap list_fmap foldr]. rewrite IH by done.
  destruct (decide (o = r)) as [->|Hne]; [rewrite (decide_False (P := r ∈ l)), decide_True by (done || by left); lia|].
  destruct (decide (o ∈ l)) as [Hin|Hin]; [by rewrite decide_True by (by right)|]. rewrite decide_False; [done|]. set_solver.
Qed.
Lemma zsum_add {A} (f g : A → Z) (l : list A) : zsum ((λ x, f x + g x) <$> l) = zsum (f <$> l) + zsum (g <$> l).
Proof. induction l as [|x l IH]; [done|]. unfold zsum in *. cbn [fmap list_fmap foldr]. lia. Qed.

(** Every valid candidate is held by exactly one rank. *)
Lemma ranks_share N I row : 0 < N →
  zsum ((λ rank, Z.of_nat (length (mine N I rank row))) <$> seqZ 0 N) = Z.of_nat (length (kept row)).
Proof.
  intros HN. induction row as [|p row IH].
  { cbn. generalize (seqZ 0 N). intros l. induction l as [|x l IHl]; [done|]. unfold zsum in *. cbn. lia. }
  rewrite kept_cons. pose proof (owner_range N I p HN) as Ho.
  assert (E : (λ rank, Z.of_nat (length (mine N I rank (p :: row)))) <$> seqZ 0 N =
    (λ rank, (if decide (owner N I p = rank) then if 0 <=? p then 1 else 0 else 0) + Z.of_nat (length (mine N I rank row))) <$> seqZ 0 N).
  { apply list_fmap_ext. intros j rank _. unfold mine. rewrite filter_cons. destruct (Z.leb_spec 0 p), (decide (owner N I p = rank)).
    - rewrite decide_True by done. cbn [length]. lia.
    - rewrite decide_False by tauto. lia.
    - rewrite decide_False by lia. lia.
    - rewrite decide_False by lia. lia. }
  rewrite E, zsum_add, IH. destruct (Z.leb_spec 0 p) as [Hp|Hp].
  - rewrite zsum_one by apply NoDup_seqZ. rewrite decide_True by (apply elem_of_seqZ; lia). cbn [length]. lia.
  - replace (zsum _) with 0; [lia|]. generalize (seqZ 0 N). intros l. induction l as [|x l IHl]; [done|].
    unfold zsum in *. cbn [fmap list_fmap foldr]. rewrite <- IHl. by case_decide.
Qed.

(** The candidates of a token whose request has the blocks [x] are valid. *)
Definition candidate_ok (kbs N I : Z) (x : list Z) (p : Z) : Prop :=
  p < 0 ∨ (local_of N I p / kbs < Z.of_nat (length x) ∧ 0 ≤ slot_of kbs x (local_of N I p) < 2 ^ 31).

Section filtered.
Context {G : Gpu} {GL : GpuLaws G}.
Context (req_id : list Z) (d token_indices : GpuTensor) (topk BLOCK_N_ kbs N I rank : Z) (x : nat → list Z).
Hypothesis Hargs : filter_args req_id d token_indices topk BLOCK_N_.
Hypothesis Hsz : 0 < kbs ∧ 0 < I ∧ kbs `mod` I = 0 ∧ 0 < topk.
Hypothesis Hrank : 0 ≤ rank < N.
Hypothesis Hrows : ∀ q, (q < length req_id)%nat →
  row_holds (width d) (cells d) (req_id !!! q) (x q) ∧ Z.of_nat (length (x q)) ≤ width d.
Let cands (q : nat) : list Z := row_of topk (cells token_indices) q.
Hypothesis Hcands : ∀ q p, (q < length req_id)%nat → p ∈ cands q → candidate_ok kbs N I (x q) p.

Let k := filter_consts (width d) kbs BLOCK_N_ true N rank I.
Let out_of (q : nat) (p : Z) : Z := if decide (0 ≤ p ∧ owner N I p = rank) then slot_of kbs (x q) (local_of N I p) else -1.

(** The lane of a candidate. *)
Lemma filtered_lane q p r : (q < length req_id)%nat → p ∈ cands q →
  convert_lane k (cells d) [] (width d) (req_id !!! q) (-1) p = Ok r →
  r = (out_of q p, negb (bool_decide (0 ≤ p ∧ owner N I p = rank))).
Proof using Hargs Hsz Hrank Hrows Hcands.
  intros Hq Hp Hr. destruct Hsz as (Hk & HI & Hdiv & _). unfold out_of.
  assert (Hpre : HAS_PREFILL k = false) by (unfold k, filter_consts; by destruct (N =? 1)).
  destruct (Z.lt_ge_cases p 0) as [Hneg|H0].
  { apply convert_lane_negative in Hr as ->; [|done|done]. by rewrite decide_False, bool_decide_eq_false_2 by lia. }
  destruct (Hcands q p Hq Hp) as [?|[Hb Hv]]; [lia|]. destruct (Hrows q Hq) as [Hh Hl].
  pose proof (fa_rows _ _ _ _ _ Hargs) as (m & _ & Hreq).
  destruct (lookup_lt_is_Some_2 req_id q Hq) as [req Hrq]. rewrite (list_lookup_total_correct _ _ _ Hrq) in *.
  pose proof (proj1 (Forall_lookup _ _) Hreq _ _ Hrq) as Hrange. cbn in Hrange.
  pose proof (convert_lane_spec k (cells d) [] req (x q) p Hpre) as Hspec. unfold k, filter_consts in Hspec, Hr.
  destruct (Z.eqb_spec N 1) as [->|Hne]; cbn in Hspec, Hr.
  - rewrite local_of_one in Hspec by lia. rewrite local_of_one in Hb, Hv |- * by lia.
    rewrite Hspec in Hr by (done || lia). injection Hr as <-.
    assert (Ho : 0 ≤ p ∧ owner 1 I p = rank) by (unfold owner; rewrite Z.mod_1_r; lia).
    rewrite decide_True, bool_decide_eq_true_2 by done. rewrite wrap32_small by (unfold is_int32; lia). done.
  - rewrite Hspec in Hr by (done || lia). rewrite (proj2 (Z.eqb_neq N 1)) in Hr by done. cbn [orb] in Hr. injection Hr as <-.
    destruct (Z.eqb_spec (owner N I p) rank) as [E|E].
    + rewrite decide_True, bool_decide_eq_true_2 by done. rewrite wrap32_small by (unfold is_int32; lia). done.
    + rewrite decide_False, bool_decide_eq_false_2 by tauto. done.
Qed.

Lemma cands_lookup q i : (q < length req_id)%nat → 0 ≤ i < topk →
  cands q !! Z.to_nat i = Some (cells token_indices !!! Z.to_nat (Z.of_nat q * topk + i)).
Proof using All.
  intros Hq Hi. unfold cands. rewrite row_of_lookup by done. apply list_lookup_lookup_total_lt. pose proof (fa_cells _ _ _ _ _ Hargs). nia.
Qed.
Lemma cands_length q : (q < length req_id)%nat → length (cands q) = Z.to_nat topk.
Proof using All. intros Hq. apply (row_of_length _ _ _ (length req_id)); [lia|apply Hargs|done]. Qed.

(** The filter and its counts, row by row. *)
Lemma filtered_rows : ∃ out cs,
  triton_filter_and_convert_dcp_index req_id d token_indices N rank I kbs topk BLOCK_N_ true = Ok (mkTensor topk out, Some cs) ∧
  Z.of_nat (length out) = Z.of_nat (length req_id) * topk ∧
  ∀ q, (q < length req_id)%nat → row_of topk out q = out_of q <$> cands q ∧ cs !! q = Some (Z.of_nat (length (mine N I rank (cands q)))).
Proof using All.
  destruct Hsz as (Hk & HI & Hdiv & Ht).
  destruct (filter_ok req_id d token_indices kbs topk BLOCK_N_ true N rank I Hargs Hrank HI Hdiv) as (out & cs & E & Hl & Hout & Hcs).
  destruct (Hcs eq_refl) as (c & -> & Hcl & Hc). exists out, c. split; [done|]. split; [rewrite Hl; apply Hargs|].
  intros q Hq.
  assert (Hlane : ∀ i, 0 ≤ i < topk → ∃ p, cands q !! Z.to_nat i = Some p ∧ out !! Z.to_nat (Z.of_nat q * topk + i) = Some (out_of q p) ∧
    convert_lane k (cells d) [] (width d) (req_id !!! q) (-1) (cells token_indices !!! Z.to_nat (Z.of_nat q * topk + i))
      = Ok (out_of q p, negb (bool_decide (0 ≤ p ∧ owner N I p = rank)))).
  { intros i Hi. pose proof (cands_lookup q i Hq Hi) as Hp. destruct (Hout q i Hq Hi) as (r & Hr & Ho). fold k in Hr.
    set (p := cells token_indices !!! _) in *. pose proof (filtered_lane q p r Hq ltac:(by eapply list_elem_of_lookup_2) Hr) as ->.
    exists p. done. }
  split.
  - apply list_eq. intros i. destruct (decide (i < Z.to_nat topk)%nat) as [Hi|Hi].
    + destruct (Hlane (Z.of_nat i) ltac:(lia)) as (p & Hp & Ho & _). rewrite Nat2Z.id in Hp. rewrite list_lookup_fmap, Hp.
      rewrite <- (Nat2Z.id i) at 1. rewrite row_of_lookup by lia. exact Ho.
    + rewrite !lookup_ge_None_2; [done| |].
      * rewrite length_fmap, cands_length by done. lia.
      * rewrite (row_of_length _ _ _ (length req_id)); [lia|lia|rewrite Hl; apply Hargs|done].
  - rewrite (Hc q Hq). f_equal. rewrite <- zsum_mine. f_equal. apply list_eq. intros i. rewrite !list_lookup_fmap.
    destruct (decide (i < Z.to_nat topk)%nat) as [Hi|Hi].
    + rewrite lookup_seqZ_lt by lia. cbn [fmap option_fmap option_map]. destruct (Hlane (0 + Z.of_nat i) ltac:(lia)) as (p & Hp & _ & Hln).
      replace (Z.to_nat (0 + Z.of_nat i)) with i in Hp by lia. fold k. rewrite Hp, Hln. cbn. f_equal.
      destruct (decide (0 ≤ p ∧ owner N I p = rank)); [by rewrite bool_decide_eq_true_2|by rewrite bool_decide_eq_false_2].
    + rewrite lookup_seqZ_ge by lia. rewrite lookup_ge_None_2; [done|]. rewrite cands_length by done. lia.
Qed.

Lemma filtered_kept q : (q < length req_id)%nat →
  kept (out_of q <$> cands q) = (λ p, slot_of kbs (x q) (local_of N I p)) <$> mine N I rank (cands q).
Proof using All.
  intros Hq. apply kept_map. intros p Hp. unfold out_of. case_decide as Hd; [|done]. split; [done|].
  destruct (Hcands q p Hq Hp) as [?|[_ ?]]; [lia|]. lia.
Qed.
End filtered.
