(* ===== verification/CpProps.v ===== *)
(** Properties of the worker's block tables, slots and index filter. *)
From S2P Require Import Prelude CpBuffers CpTables CpIndex CpStaged CpTablesInv CpSessions CpSlots CpIndexSpec.
From stdpp Require Import base list gmap sets.
From Stdlib Require Import ZArith Lia.
#[local] Open Scope Z_scope.

(** * The configuration of a worker *)

Record Config := mkCfg {
  c_block_sizes : list Z; c_kernel_block_sizes : list Z; c_max_num_reqs : Z; c_max_num_batched_tokens : Z;
  c_max_num_blocks : list Z; c_cp_size : Z; c_cp_rank : Z; c_interleave : Z;
  c_enabled : option (list bool); c_cp_sizes : option (list Z); c_concurrency : nat }.
Definition init `{Gpu} (c : Config) : res BlockTables :=
  BlockTables_init (c_block_sizes c) (c_max_num_reqs c) (c_max_num_batched_tokens c) (c_max_num_blocks c) (c_kernel_block_sizes c)
    (c_cp_size c) (c_cp_rank c) (c_interleave c) (c_enabled c) (c_cp_sizes c) (c_concurrency c).

(** Sizes a worker is built with: there are groups and buffers, kernel blocks
    are no longer than blocks, and runs of positions do not straddle blocks. *)
Record config_ok (c : Config) : Prop := {
  co_groups : c_block_sizes c ≠ [];
  co_buffers : (0 < c_concurrency c)%nat;
  co_sizes : sizes_ok (c_block_sizes c) (c_kernel_block_sizes c);
  co_cp : 0 < c_cp_size c ∧ 0 < c_interleave c;
  co_runs : Forall (λ k, (c_interleave c | k)) (c_block_sizes c) }.

Definition reqs (c : Config) : nat := Z.to_nat (c_max_num_reqs c).
(** The blocks of the requests after the events [es], and the tables after
    their application. *)
Definition rows_after (c : Config) (b0 : BlockTables) (es : list Event) : list (list (list Z)) :=
  (spec_events b0 es (no_rows (length (c_block_sizes c)) (reqs c))).2.
Definition tables_after `{Gpu} (b0 : BlockTables) (es : list Event) : BlockTables := (run_events (es ++ [EApply]) b0).2.

(** The arguments of the filter for a step of [padded] rows. *)
Record candidates_ok (req_id : list Z) (token_indices : GpuTensor) (topk BLOCK_N_ padded : Z) : Prop := {
  ca_requests : Forall (λ q, 0 ≤ q < padded) req_id;
  ca_width : width token_indices = topk;
  ca_cells : Z.of_nat (length (cells token_indices)) = Z.of_nat (length req_id) * topk;
  ca_tiles : 0 < BLOCK_N_ ∧ 0 ≤ topk ∧ topk `mod` BLOCK_N_ = 0 }.
Lemma candidates_filter_args req_id token_indices topk BLOCK_N_ padded d : candidates_ok req_id token_indices topk BLOCK_N_ padded →
  0 ≤ padded → Z.of_nat (length (cells d)) = padded * width d → filter_args req_id d token_indices topk BLOCK_N_.
Proof.
  intros [] Hp Hd. constructor; try done. exists (Z.to_nat padded). rewrite Z2Nat.id by done. done.
Qed.

Section config.
Context {G : Gpu} {GL : GpuLaws G}.
Context (c : Config) (b0 : BlockTables).
Hypothesis Hc : config_ok c.
Hypothesis Hinit : init c = Ok b0.

Lemma init_built : built (c_block_sizes c) (c_kernel_block_sizes c) (c_max_num_reqs c) (c_max_num_batched_tokens c)
  (c_cp_size c) (c_cp_rank c) (c_interleave c) b0.
Proof using Hc Hinit GL. eapply BlockTables_init_ok; [|apply Hc|exact Hinit]. apply Hc. Qed.
Lemma init_groups : num_kv_cache_groups b0 = length (c_block_sizes c) ∧ (0 < num_kv_cache_groups b0)%nat.
Proof using Hc Hinit GL.
  unfold num_kv_cache_groups. rewrite (bu_sizes _ _ _ _ _ _ _ _ init_built). split; [done|]. pose proof (co_groups _ Hc).
  destruct (c_block_sizes c); [done|cbn; lia].
Qed.

Lemma after_settled es : legal b0 [] es → settled_tables (reqs c) (tables_after b0 es) (rows_after c b0 es) ∧
  statics (tables_after b0 es) = statics b0.
Proof using Hc Hinit GL.
  intros Hleg. destruct (session_settles b0 (reqs c) es b0 _ (no_rows (length (c_block_sizes c)) (reqs c)) eq_refl
    (bu_tables _ _ _ _ _ _ _ _ init_built)) as (_ & H1 & H2); [intros q; apply clean_replicate|done|done].
Qed.

(** More events, after an application. *)
Lemma later_settled es1 es2 : legal b0 [] es1 → legal b0 [] es2 →
  settled_tables (reqs c) (tables_after (tables_after b0 es1) es2) (spec_events b0 es2 (rows_after c b0 es1)).2 ∧
  statics (tables_after (tables_after b0 es1) es2) = statics b0.
Proof using Hc Hinit GL.
  intros H1 H2. destruct (after_settled es1 H1) as [[Hok _] Hs].
  destruct (session_settles b0 (reqs c) es2 (tables_after b0 es1) _ _ Hs Hok) as (_ & H3 & H4); [intros q; apply clean_replicate|done|done].
Qed.

(** The argument tensors of a group are those of the configuration. *)
Lemma group_args_ok n b rows g a : statics b = statics b0 → settled_tables n b rows → group_args b !! g = Some a →
  ∃ t, block_tables b !! g = Some t ∧ g_table a = cells (gpu t) ∧ g_stride a = width (gpu t) ∧
    c_block_sizes c !! g = Some (g_kv_block_size a) ∧ c_kernel_block_sizes c !! g = Some (g_kernel_block_size a) ∧
    (g_cp_size a = 1 ∨ g_cp_size a = c_cp_size c) ∧
    cp_sizes b0 !! g = Some (g_cp_size a) ∧ slot_mapping_enabled b0 !! g = Some (g_enabled a).
Proof using Hc Hinit GL.
  intros Hs Hset Ha. pose proof init_built as Hb. unfold group_args in Ha.
  apply lookup_zip_with_Some in Ha as (t & f & -> & Ht & Hf). apply lookup_zip_with_Some in Hf as (bs & f1 & -> & Hbs & Hf).
  apply lookup_zip_with_Some in Hf as (kbs & f2 & -> & Hkbs & Hf). apply lookup_zip_with_Some in Hf as (e & cs & -> & He & Hcs).
  exists t. cbn. pose proof (f_equal (λ x, x.1.1.1.1.1.1.1) Hs) as E1. pose proof (f_equal (λ x, x.1.1.1.1.1.1.2) Hs) as E2.
  pose proof (f_equal (λ x, x.1.1.2.1.1) Hs) as E3. pose proof (f_equal (λ x, x.1.1.2.1.2) Hs) as E4. cbn in E1, E2, E3, E4.
  rewrite E1, (bu_sizes _ _ _ _ _ _ _ _ Hb) in Hbs. rewrite E2, (bu_kernel _ _ _ _ _ _ _ _ Hb) in Hkbs. rewrite E3 in Hcs. rewrite E4 in He.
  split_and!; try done. exact (proj1 (Forall_lookup _ _) (bu_cp_sizes _ _ _ _ _ _ _ _ Hb) _ _ Hcs).
Qed.

Lemma group_args_lookup b g : statics b = statics b0 → length (block_tables b) = num_kv_cache_groups b → (g < num_kv_cache_groups b0)%nat →
  ∃ a, group_args b !! g = Some a.
Proof using Hc Hinit GL.
  intros Hs Hl Hg. pose proof init_built as Hb. pose proof init_groups as [Hk _]. pose proof (statics_groups _ _ Hs) as Hks.
  pose proof (f_equal (λ x, x.1.1.1.1.1.1.1) Hs) as E1. pose proof (f_equal (λ x, x.1.1.1.1.1.1.2) Hs) as E2.
  pose proof (f_equal (λ x, x.1.1.2.1.1) Hs) as E3. pose proof (f_equal (λ x, x.1.1.2.1.2) Hs) as E4. cbn in E1, E2, E3, E4.
  destruct (bu_groups _ _ _ _ _ _ _ _ Hb) as (H1 & H2 & H3). apply lookup_lt_is_Some_2. unfold group_args.
  rewrite !length_zip_with, E1, E2, E3, E4, H1, H2, (bu_sizes _ _ _ _ _ _ _ _ Hb), (bu_kernel _ _ _ _ _ _ _ _ Hb). lia.
Qed.

Lemma groups_are_ok b rows : statics b = statics b0 → settled_tables (reqs c) b rows → groups_ok (reqs c) b.
Proof using Hc Hinit GL.
  intros Hs Hset. pose proof init_groups as [Hk _]. pose proof (statics_groups _ _ Hs) as Hks.
  pose proof (lo_tables _ _ (to_layout _ _ _ _ (proj1 Hset))) as Hl.
  assert (Hlen : length (group_args b) = num_kv_cache_groups b).
  { apply Nat.le_antisymm.
    - unfold group_args. rewrite length_zip_with. lia.
    - destruct (num_kv_cache_groups b) as [|k] eqn:Ek; [lia|]. destruct (group_args_lookup b k Hs ltac:(lia) ltac:(lia)) as [a Ha%lookup_lt_Some]. lia. }
  split; [done|]. pose proof (co_cp _ Hc) as [Hcp HI]. split.
  - pose proof (f_equal (λ x, x.1.1.1.2.2) Hs) as E. cbn in E. rewrite E. destruct (bu_cp _ _ _ _ _ _ _ _ init_built) as (_ & _ & ->). done.
  - apply Forall_lookup. intros g a Ha. destruct (group_args_ok _ b rows g a Hs Hset Ha) as (t & Ht & Et & Ew & Hbs & Hkbs & Hcs & _).
    pose proof (co_sizes _ Hc g _ _ Hbs Hkbs) as Hsz. split; [destruct Hcs as [->| ->]; lia|].
    assert (Hg : (g < num_kv_cache_groups b)%nat) by (rewrite <- Hl; by eapply lookup_lt_Some).
    destruct (tables_lookup _ _ _ _ g (proj1 Hset) Hg) as (t0 & cnt & k & ws & R & Ht0 & _ & _ & _ & _ & _ & [[] _ _ _ _]).
    assert (t0 = t) as -> by congruence. by rewrite Et, Ew.
Qed.

(** The tensors that a step reads have the shape of the tables. *)
Lemma inputs_shape b rows : statics b = statics b0 → settled_tables (reqs c) b rows →
  Forall2 (λ t d, width d = width (gpu t) ∧ length (cells d) = length (cells (gpu t))) (block_tables b) (input_block_tables b).
Proof using Hc Hinit GL.
  intros Hs Hset. pose proof init_built as Hb. pose proof (f_equal (λ x, x.2.1) Hs) as Ei. cbn in Ei. rewrite Ei, (bu_inputs _ _ _ _ _ _ _ _ Hb).
  pose proof (lo_tables _ _ (to_layout _ _ _ _ (proj1 Hset))) as Hl. pose proof (lo_tables _ _ (to_layout _ _ _ _ (bu_tables _ _ _ _ _ _ _ _ Hb))) as Hl0.
  apply Forall2_same_length_lookup. split; [rewrite length_fmap, Hl, Hl0; by apply statics_groups|].
  intros g t d Ht Hd. rewrite list_lookup_fmap in Hd. destruct (block_tables b0 !! g) as [t0|] eqn:Ht0; [|done]. injection Hd as <-.
  pose proof (statics_width _ _ g Hs) as Hw. rewrite Ht, Ht0 in Hw. injection Hw as Hw. cbn. split; [done|]. rewrite length_replicate.
  pose proof (lookup_lt_Some _ _ _ Ht) as Hg. rewrite Hl in Hg. pose proof (lookup_lt_Some _ _ _ Ht0) as Hg0. rewrite Hl0 in Hg0.
  destruct (tables_lookup _ _ _ _ g (proj1 Hset) Hg) as (t1 & ? & ? & ? & ? & Ht1 & _ & _ & _ & _ & _ & [[_ Hc1 _ _ _ _ _ _] _ _ _ _]).
  destruct (tables_lookup _ _ _ _ g (bu_tables _ _ _ _ _ _ _ _ Hb) Hg0) as (t2 & ? & ? & ? & ? & Ht2 & _ & _ & _ & _ & _ & [[_ Hc2 _ _ _ _ _ _] _ _ _ _]).
  assert (t1 = t) as -> by congruence. assert (t2 = t0) as -> by congruence. unfold reqs in Hc1. rewrite Hw in Hc1. lia.
Qed.

Lemma gather_args_ok b rows idx_mapping padded : statics b = statics b0 → settled_tables (reqs c) b rows →
  Forall (λ r, 0 ≤ r < c_max_num_reqs c) idx_mapping → 0 ≤ padded ≤ c_max_num_reqs c →
  gather_args (reqs c) b idx_mapping padded (input_block_tables b).
Proof using Hc Hinit GL.
  intros Hs Hset Hi Hp. constructor; [|unfold reqs; lia|by eapply inputs_shape].
  eapply Forall_impl; [done|]. intros r Hr. cbn in *. unfold reqs. lia.
Qed.

(** C9: The tables an attention kernel reads hold the blocks of its requests.
    Take tables the constructor made from a valid configuration and a session
    of appends (fresh, extending or overwriting, some refused because they do
    not fit) and applications that follows the discipline of the engine's
    steps: between two applications a request is appended to at most once
    (two staged writes of one row would race on the GPU), and the kernel block numbers
    fit in int32. Then every call answers what the specification of lists
    answers, a refused append changing nothing; and after a last application,
    for a batch of requests of the table, whatever order the GPU runs its
    programs in, [gather_block_tables] does not fail, the row of every batch
    entry begins with the kernel blocks appended for its request, expanded
    from the larger blocks of the group, and the rows of the padding are
    zero. *)
Theorem gathered_tables_hold_requests es rs b idx_mapping padded :
  legal b0 [] es → run_events (es ++ [EApply]) b0 = (rs, b) →
  Forall (λ r, 0 ≤ r < c_max_num_reqs c) idx_mapping → 0 ≤ padded ≤ c_max_num_reqs c →
  rs = (spec_events b0 es (no_rows (length (c_block_sizes c)) (reqs c))).1 ++ [Ok tt] ∧
  ∃ tables b', gather_block_tables idx_mapping padded None false b = (Ok tables, b') ∧
    ∀ g R, rows_after c b0 es !! g = Some R → ∃ d, tables !! g = Some d ∧ Z.of_nat (length (cells d)) = padded * width d ∧
      ∀ i, 0 ≤ i < padded → row_holds (width d) (cells d) i (gathered_row R idx_mapping (width d) i).
Proof using Hc Hinit GL.
  intros Hleg Hrun Hi Hp.
  destruct (session_settles b0 (reqs c) es b0 _ (no_rows (length (c_block_sizes c)) (reqs c)) eq_refl
    (bu_tables _ _ _ _ _ _ _ _ init_built)) as (H1 & _ & _); [intros q; apply clean_replicate|done|].
  rewrite Hrun in H1. split; [done|]. destruct (after_settled es Hleg) as [Hset Hs]. unfold tables_after in Hset, Hs. rewrite Hrun in Hset, Hs.
  cbn [snd] in Hset, Hs. pose proof (statics_groups _ _ Hs) as Hk. pose proof init_groups as [_ Hk0].
  destruct (gather_ok (reqs c) b _ idx_mapping padded None false Hset ltac:(lia) I (gather_args_ok b _ _ _ Hs Hset Hi Hp)) as (tables & b' & E & Hrow).
  exists tables, b'. split; [done|]. intros g R HR. pose proof (lookup_lt_Some _ _ _ HR) as Hg. rewrite (to_rows _ _ _ _ (proj1 Hset)) in Hg.
  destruct (tables_lookup _ _ _ _ g (proj1 Hset) Hg) as (t & ? & ? & ? & ? & Ht & _). destruct (Hrow g R t HR Ht) as (d & Hd & _ & Hdl & Hh). eauto.
Qed.

(** Group [g] keeps positions on [N] ranks, in kernel blocks of [kbs] tokens,
    and has slots. *)
Definition group_is (g : nat) (N kbs : Z) : Prop :=
  cp_sizes b0 !! g = Some N ∧ c_kernel_block_sizes c !! g = Some kbs ∧ slot_mapping_enabled b0 !! g = Some true.
(** The rank holds position [p]; its slot for a request with the kernel blocks
    [x]; its block is among them. *)
Definition holds (N p : Z) : bool := (N =? 1) || (owner N (c_interleave c) p =? c_cp_rank c).
Definition slot (N kbs : Z) (x : list Z) (p : Z) : Z := slot_of kbs x (local_of N (c_interleave c) p).
Definition covered (N kbs : Z) (x : list Z) (p : Z) : Prop :=
  0 ≤ p ∧ local_of N (c_interleave c) p / kbs < Z.of_nat (length x).

Lemma group_is_args b rows g N kbs : group_is g N kbs → statics b = statics b0 → settled_tables (reqs c) b rows →
  ∃ a, group_args b !! g = Some a ∧ g_cp_size a = N ∧ g_kernel_block_size a = kbs ∧ g_enabled a = true.
Proof using Hc Hinit GL.
  intros (HN & Hk & He) Hs Hset. destruct (bu_groups _ _ _ _ _ _ _ _ init_built) as (Hl & _ & _). pose proof init_groups as [Hk0 _].
  destruct (group_args_lookup b g Hs (lo_tables _ _ (to_layout _ _ _ _ (proj1 Hset)))) as [a Ha]; [apply lookup_lt_Some in HN; lia|].
  exists a. destruct (group_args_ok _ b rows g a Hs Hset Ha) as (t & _ & _ & _ & _ & Hk' & _ & HN' & He'). split_and!; congruence.
Qed.

Lemma runs_fit b rows g a : statics b = statics b0 → settled_tables (reqs c) b rows → group_args b !! g = Some a →
  (c_interleave c | g_kv_block_size a) ∧ (0 < g_kv_block_size a ∧ 0 < g_kernel_block_size a ∧ 0 < g_cp_size a ∧ 0 < c_interleave c).
Proof using Hc Hinit GL.
  intros Hs Hset Ha. destruct (group_args_ok _ b rows g a Hs Hset Ha) as (t & _ & _ & _ & Hbs & Hkbs & Hcs & _).
  pose proof (co_sizes _ Hc g _ _ Hbs Hkbs). pose proof (co_cp _ Hc) as [? ?]. split; [exact (proj1 (Forall_lookup _ _) (co_runs _ Hc) _ _ Hbs)|].
  destruct Hcs as [->| ->]; lia.
Qed.

(** The row of a request in a settled table. *)
Lemma settled_row n b rows g R (r : nat) x a : settled_tables n b rows → rows !! g = Some R → R !! r = Some x →
  statics b = statics b0 → group_args b !! g = Some a →
  row_holds (g_stride a) (g_table a) (Z.of_nat r) x ∧ Z.of_nat (length x) ≤ g_stride a ∧ (r < n)%nat.
Proof using Hc Hinit GL.
  intros Hset HR Hx Hs Ha. pose proof (lookup_lt_Some _ _ _ HR) as Hg. rewrite (to_rows _ _ _ _ (proj1 Hset)) in Hg.
  destruct (tables_lookup _ _ _ _ g (proj1 Hset) Hg) as (t & cnt & k & ws & R' & Ht & _ & _ & _ & Hws & HR' & [_ Hlen _ Hfit Hrep]).
  destruct (group_args_ok n b rows g a Hs Hset Ha) as (t' & Ht' & -> & -> & _). assert (t' = t) as -> by congruence.
  assert (R' = R) as -> by congruence. apply lookup_replicate in Hws as [-> _]. split_and!.
  - destruct (Hrep r x Hx) as [[_ Hh]|(? & ? & _ & _ & Hin)]; [done|by apply not_elem_of_nil in Hin].
  - exact (proj1 (Forall_lookup _ _) Hfit _ _ Hx).
  - rewrite <- Hlen. by eapply lookup_lt_Some.
Qed.

(** Token [t] of a step, among the first [padded], is at position [p] of
    request [r]. *)
Definition token_at (idx_mapping query_start_loc positions : list Z) (padded : Z) (t r : nat) (p : Z) : Prop :=
  ∃ i s e, idx_mapping !! i = Some (Z.of_nat r) ∧ query_start_loc !! i = Some s ∧ query_start_loc !! S i = Some e ∧
    s ≤ Z.of_nat t < e ∧ positions !! t = Some p ∧ Z.of_nat t < padded.

Section step.
Context (PAD_SLOT_ID : Z) (es : list Event) (idx_mapping query_start_loc positions : list Z) (padded : Z).
Hypothesis Hleg : legal b0 [] es.
Hypothesis Hargs : slots_args (reqs c) b0 idx_mapping query_start_loc positions (slot_mappings b0).

(** The slots of a step, in a session. *)
Lemma step_slots : ∃ slots b', compute_slot_mappings PAD_SLOT_ID idx_mapping query_start_loc positions padded None (tables_after b0 es) = (Ok slots, b') ∧
  ∀ g N kbs, group_is g N kbs → ∃ row, slots !! g = Some row ∧
    (∀ t r p R x, token_at idx_mapping query_start_loc positions padded t r p → rows_after c b0 es !! g = Some R → R !! r = Some x →
       covered N kbs x p → row !! t = Some (if holds N p then slot N kbs x p else PAD_SLOT_ID)) ∧
    (∀ s t, query_start_loc !! length idx_mapping = Some s → s ≤ Z.of_nat t < c_max_num_batched_tokens c → Z.of_nat t < padded →
       row !! t = Some PAD_SLOT_ID).
Proof using Hc Hinit GL Hleg Hargs.
  destruct (after_settled es Hleg) as [Hset Hs]. set (b := tables_after b0 es) in *.
  pose proof (f_equal (λ x, x.2.2) Hs) as Esl. cbn in Esl. pose proof (statics_groups _ _ Hs) as Hk. pose proof init_groups as [_ Hk0].
  assert (Hargs' : slots_args (reqs c) b idx_mapping query_start_loc positions (slot_mappings b)).
  { rewrite Esl. destruct Hargs. constructor; try done. by rewrite Hk. }
  destruct (compute_slot_mappings_ok PAD_SLOT_ID (reqs c) b _ _ _ _ Hargs' (groups_are_ok b _ Hs Hset) padded None eq_refl ltac:(lia))
    as (slots & b' & E & Hrow).
  exists slots, b'. split; [done|]. intros g N kbs Hg. destruct (group_is_args b _ g N kbs Hg Hs Hset) as (a & Ha & <- & <- & Hen).
  destruct (Hrow g a Ha) as (row & Hr & Htok & Hpad). exists row. split; [done|]. split.
  - intros t r p R x (i & s & e & Hi & Hqs & Hqe & Ht & Hp & Htp) HR Hx [Hp0 Hcov].
    destruct (Htok i (Z.of_nat r) s e t p Hi Hqs Hqe Ht Hp Htp) as (v & Hv & Hlane). rewrite Hv. f_equal.
    destruct (settled_row _ _ _ _ _ _ _ _ Hset HR Hx Hs Ha) as (Hh & Hl & _). destruct (runs_fit b _ g a Hs Hset Ha) as (Hdiv & Hsz).
    pose proof (f_equal (λ x, x.1.1.1.2.2) Hs) as Ei. pose proof (f_equal (λ x, x.1.1.1.2.1.2) Hs) as Er. cbn in Ei, Er.
    destruct (bu_cp _ _ _ _ _ _ _ _ init_built) as (_ & Er0 & Ei0). rewrite Ei, Er, Ei0, Er0 in Hlane.
    rewrite (slot_lane_spec a (c_cp_rank c) (c_interleave c) PAD_SLOT_ID Hsz (Z.of_nat r) p x Hen Hdiv ltac:(lia) Hp0 Hh Hl Hcov) in Hlane.
    by injection Hlane as <-.
  - intros s t Hqs Ht Htp. apply (Hpad s t Hqs); [|done]. rewrite Esl. destruct (bu_slots _ _ _ _ _ _ _ _ init_built) as [_ ->]. done.
Qed.
End step.

Lemma slot_of_prefix kbs x y l : 0 < kbs → 0 ≤ l → l / kbs < Z.of_nat (length x) → slot_of kbs (x ++ y) l = slot_of kbs x l.
Proof using.
  intros Hk Hl Hb. pose proof (Z.div_pos l kbs Hl Hk). unfold slot_of. do 2 f_equal.
  destruct (lookup_lt_is_Some_2 x (Z.to_nat (l / kbs)) ltac:(lia)) as [v Hv]. rewrite (list_lookup_total_correct _ _ _ Hv).
  apply list_lookup_total_correct. by rewrite lookup_app_l by (by eapply lookup_lt_Some).
Qed.

(** The lane of a candidate in the row of its request, which may have grown
    since the token was written. *)
Lemma read_lane d BLOCK_N_ counts N kbs dcp_rank j x y p v : 0 < N → 0 < kbs → 0 < c_interleave c → (N ≠ 1 → dcp_rank = c_cp_rank c) →
  0 ≤ j → covered N kbs x p → is_int32 (slot N kbs x p) → row_holds (width d) (cells d) j (x ++ y) → Z.of_nat (length (x ++ y)) ≤ width d →
  convert_lane (filter_consts (width d) kbs BLOCK_N_ counts N dcp_rank (c_interleave c)) (cells d) [] (width d) j (-1) p = Ok v →
  v.1 = if holds N p then slot N kbs x p else -1.
Proof using.
  intros HN Hk HI Hrank Hj [Hp0 Hcov] H32 Hh Hl Hlane. pose proof (length_app x y) as Hxy.
  pose proof (local_of_nonneg N (c_interleave c) p HN HI Hp0) as Hl0. unfold holds, slot in *.
  pose proof (convert_lane_spec (filter_consts (width d) kbs BLOCK_N_ counts N dcp_rank (c_interleave c)) (cells d) [] j (x ++ y) p) as Hspec.
  unfold filter_consts in Hspec, Hlane. destruct (Z.eqb_spec N 1) as [->|Hne]; cbn in Hspec, Hlane.
  - rewrite (local_of_one 1) in Hspec by lia. rewrite local_of_one in * by lia.
    rewrite Hspec in Hlane by (done || lia). injection Hlane as <-. cbn. by rewrite slot_of_prefix, wrap32_small.
  - rewrite Hspec in Hlane by (done || lia). injection Hlane as <-. rewrite (Hrank Hne), (proj2 (Z.eqb_neq N 1)) by done. cbn [orb fst].
    destruct (_ =? c_cp_rank c); [|done]. by rewrite slot_of_prefix, wrap32_small.
Qed.


Lemma covered_block N kbs x p : 0 < kbs → 0 < N → 0 < c_interleave c → covered N kbs x p →
  ∃ u, x !! Z.to_nat (local_of N (c_interleave c) p / kbs) = Some u ∧ 0 ≤ local_of N (c_interleave c) p / kbs.
Proof using.
  intros Hk HN HI [H0 Hb]. pose proof (local_of_nonneg N (c_interleave c) p HN HI H0) as Hl. pose proof (Z.div_pos _ kbs Hl Hk).
  destruct (lookup_lt_is_Some_2 x (Z.to_nat (local_of N (c_interleave c) p / kbs)) ltac:(lia)) as [u Hu]. eauto.
Qed.

End config.

(** C29: The ranks share the candidates of a token without losing or repeating
    one.  For candidate positions whose blocks are in the table, every rank's
    filter followed by the compaction gives a row that begins with the slots of
    the candidates the rank holds, in their order, and then -1; its length is their number
    (at least one, as the kernels need) and it is marked empty when there are
    none; the filter's count of valid entries is that number; and the numbers
    of all ranks add up to the number of candidates, whatever order the GPU
    runs the programs and the atomic additions in. *)
Theorem candidates_shared {G : Gpu} {GL : GpuLaws G} req_id d token_indices topk BLOCK_N_ kbs N I (x : nat → list Z) :
  filter_args req_id d token_indices topk BLOCK_N_ → 0 < kbs → 0 < I → kbs `mod` I = 0 → 0 < topk → 0 < N →
  (∀ q, (q < length req_id)%nat → row_holds (width d) (cells d) (req_id !!! q) (x q) ∧ Z.of_nat (length (x q)) ≤ width d) →
  (∀ q p, (q < length req_id)%nat → p ∈ row_of topk (cells token_indices) q → candidate_ok kbs N I (x q) p) →
  (∀ rank, 0 ≤ rank < N → ∃ out cs compacted lengths empty,
     triton_filter_and_convert_dcp_index req_id d token_indices N rank I kbs topk BLOCK_N_ true = Ok (out, Some cs) ∧
     compact_dcp_candidates (length req_id) out true = Ok (compacted, lengths, Some empty) ∧
     ∀ q, (q < length req_id)%nat →
       let held := mine N I rank (row_of topk (cells token_indices) q) in
       row_of topk (cells compacted) q = ((λ p, slot_of kbs (x q) (local_of N I p)) <$> held) ++ replicate (Z.to_nat topk - length held) (-1) ∧
       lengths !! q = Some (Z.max 1 (Z.of_nat (length held))) ∧ empty !! q = Some (bool_decide (held = [])) ∧
       cs !! q = Some (Z.of_nat (length held))) ∧
  (∀ q, zsum ((λ rank, Z.of_nat (length (mine N I rank (row_of topk (cells token_indices) q)))) <$> seqZ 0 N)
      = Z.of_nat (length (kept (row_of topk (cells token_indices) q)))).
Proof.
  intros Hargs Hk HI Hdiv Ht HN Hrows Hcands. split; [|intros q; by apply ranks_share]. intros rank Hrank.
  destruct (filtered_rows req_id d token_indices topk BLOCK_N_ kbs N I rank x Hargs ltac:(done) Hrank Hrows Hcands) as (out & cs & E & Hl & Hq).
  destruct (compact_ok (length req_id) (mkTensor topk out) Ht Hl true) as (compacted & lengths & Ec & Hll & Hc).
  eexists _, cs, _, lengths, _. split; [exact E|]. split; [exact Ec|]. intros q Hlt held. cbn [width cells] in *.
  destruct (Hc q Hlt) as [Hrow Hlen]. destruct (Hq q Hlt) as [Hout Hcs]. rewrite Hout in Hrow, Hlen.
  pose proof (filtered_kept req_id d token_indices topk BLOCK_N_ kbs N I rank x Hargs ltac:(done) Hrank Hrows Hcands q Hlt) as Hkept.
  rewrite Hkept in Hrow, Hlen. rewrite length_fmap in Hrow, Hlen.
  split_and!; [exact Hrow|exact Hlen| |exact Hcs].
  rewrite list_lookup_fmap, lookup_seq_lt by done. cbn [fmap option_fmap option_map plus]. f_equal. apply bool_decide_ext.
  rewrite Hout, Hkept. fold held. split; [apply fmap_nil_inv|by intros ->].
Qed.

(** * An instance *)

#[export] Instance is_int32_dec v : Decision (is_int32 v).
Proof. unfold is_int32. apply _. Defined.

(** Programs in the reverse order; fresh memory holds sevens. *)
Definition sample_gpu : Gpu := {|
  schedule := @rev GpuOp;
  to_device l := if bool_decide (Forall is_int32 l) then Ok l else Err RuntimeError;
  uva_available := true;
  empty_cells n := replicate n 7;
  next_power_of_2 n := 2 ^ Z.log2_up n |}.
Lemma sample_gpu_laws : GpuLaws sample_gpu.
Proof.
  constructor; cbn.
  - intros ops. apply Permutation_sym, Permutation_rev.
  - intros l Hl. by rewrite bool_decide_eq_true_2.
  - intros n. apply length_replicate.
  - intros n Hn. destruct (Z.eq_dec n 1) as [->|]; [done|]. apply Z.log2_up_spec. lia.
Qed.

Section sample.
#[local] Existing Instance sample_gpu.
#[local] Existing Instance sample_gpu_laws.

(** Rank 1 of 2, runs of 2 positions; the second group is replicated. *)
Definition sample_worker : Config := mkCfg [4; 4] [2; 4] 3 16 [3; 6] 2 1 2 None (Some [2; 1]) 2.
Definition sample_worker_tables : BlockTables := Eval vm_compute in
  match init sample_worker with Ok b => b | Err _ => mkBT [] [] 0 0 0 0 0 [] [] [] [] (mkBacked [] (mkPool 0 [] 0) (0, 0)%nat) None [] (mkTensor 0 []) end.
Definition sample_events : list Event :=
  [EAppend 2 [[5; 6]; [7; 8; 9]] true; EAppend 0 [[1]; [2]] true; EAppend 1 [[1; 2; 3; 4]; []] true; EApply; EAppend 2 [[10]; [11]] false].

Lemma sample_init : init sample_worker = Ok sample_worker_tables.
Proof. vm_compute. reflexivity. Qed.
Lemma sample_worker_ok : config_ok sample_worker.
Proof.
  constructor; cbn; [done|lia| |lia|].
  - intros [|[|i]] bs kbs; cbn; [intros [= <-] [= <-]; lia|intros [= <-] [= <-]; lia|done].
  - repeat constructor; by exists 2.
Qed.

Lemma sample_ids_int32 (ids : list (list Z)) :
  forallb (λ p, bool_decide (Forall is_int32 (expand p.1 p.2))) (zip [2; 1] ids) = true → ids_int32 sample_worker_tables ids.
Proof.
  intros H g l k Hl Hk. rewrite forallb_forall in H. apply (bool_decide_eq_true_1 _). apply (H (k, l)). apply list_elem_of_In, list_elem_of_lookup.
  exists g. apply lookup_zip_with_Some. by exists k, l.
Qed.
Lemma sample_legal : legal sample_worker_tables [] sample_events.
Proof. repeat (split || (apply sample_ids_int32; vm_compute; reflexivity)); set_solver by lia. Qed.

(** The refused append is among them. *)
Example sample_answers : (spec_events sample_worker_tables sample_events (no_rows 2 3)).1 = [Ok tt; Ok tt; Err ValueError; Ok tt; Ok tt].
Proof. vm_compute. reflexivity. Qed.

Lemma sample_rows : rows_after sample_worker sample_worker_tables sample_events !! 0%nat = Some [[2; 3]; []; [10; 11; 12; 13; 20; 21]].
Proof. vm_compute. reflexivity. Qed.

Lemma gathered_tables_hold_requests_witness :
  rows_after sample_worker sample_worker_tables sample_events !! 0%nat = Some [[2; 3]; []; [10; 11; 12; 13; 20; 21]] ∧
  ∃ tables b', gather_block_tables [2; 0] 3 None false (tables_after sample_worker_tables sample_events) = (Ok tables, b') ∧
    ∀ g R, rows_after sample_worker sample_worker_tables sample_events !! g = Some R →
      ∃ d, tables !! g = Some d ∧ Z.of_nat (length (cells d)) = 3 * width d ∧
        ∀ i, 0 ≤ i < 3 → row_holds (width d) (cells d) i (gathered_row R [2; 0] (width d) i).
Proof.
  split; [exact sample_rows|].
  refine (proj2 (gathered_tables_hold_requests sample_worker sample_worker_tables sample_worker_ok sample_init sample_events
    _ _ [2; 0] 3 sample_legal (surjective_pairing _) _ _)).
  - repeat constructor; cbn; lia.
  - cbn. lia.
Defined.

Definition sample_later : list Event := [EAppend 2 [[10]; [11]] false; EAppend 0 [[3]; [4]] false].
Definition sample_positions : list Z := [0; 1; 2; 3; 8; 9; 0; 1; 2].
Definition sample_candidates : GpuTensor := mkTensor 4 [0; 1; 2; 3; 1; 0; -1; -1; 3; 2; -1; 3].

Lemma sample_later_legal : legal sample_worker_tables [] sample_later.
Proof. repeat (split || (apply sample_ids_int32; vm_compute; reflexivity)); set_solver by lia. Qed.
Lemma sample_slots_args : slots_args (reqs sample_worker) sample_worker_tables [2; 0] [0; 6; 9] sample_positions (slot_mappings sample_worker_tables).
Proof.
  constructor; cbn; [repeat constructor; lia|done|repeat constructor; lia| |repeat constructor; lia|done|lia].
  intros [|[|[|i]]] s e; cbn; intros [= <-]; [intros [= <-]; lia|intros [= <-]; lia|done].
Qed.
Lemma sample_group : group_is sample_worker sample_worker_tables 0 2 2.
Proof. done. Qed.



(** A table of two rows: request 0 has the blocks 5 and 6, request 1 block 9. *)
Definition sample_row (q : nat) : list Z := if (q =? 1)%nat then [9] else [5; 6].
Definition sample_gathered : GpuTensor := mkTensor 3 [5; 6; 0; 9; 0; 0].
Definition sample_topk : GpuTensor := mkTensor 4 [4; 1; -1; 0; 2; -1; -1; 3].
Lemma sample_filter_args : filter_args [0; 1] sample_gathered sample_topk 4 2.
Proof. constructor; [exists 2%nat; split; [done|repeat constructor; lia]|done|done|by split_and!]. Qed.
Lemma sample_held q : (q < length [0; 1])%nat →
  row_holds (width sample_gathered) (cells sample_gathered) ([0; 1] !!! q) (sample_row q) ∧ Z.of_nat (length (sample_row q)) ≤ width sample_gathered.
Proof.
  destruct q as [|[|q]]; cbn [length]; [| |lia]; intros _; (split; [|cbn; lia]); intros [|[|i]] v; cbn; by intros [= <-].
Qed.
Lemma sample_cands q p : (q < length [0; 1])%nat → p ∈ row_of 4 (cells sample_topk) q → candidate_ok 2 2 2 (sample_row q) p.
Proof.
  intros Hq. apply Forall_forall. destruct q as [|[|q]]; cbn [length] in Hq; [| |lia].
  - change (row_of 4 (cells sample_topk) 0) with [4; 1; -1; 0]. repeat apply List.Forall_cons; try apply List.Forall_nil; first [left; lia|right; vm_compute; by repeat split].
  - change (row_of 4 (cells sample_topk) 1) with [2; -1; -1; 3]. repeat apply List.Forall_cons; try apply List.Forall_nil; first [left; lia|right; vm_compute; by repeat split].
Qed.

Lemma candidates_shared_witness : ∃ out cs compacted lengths empty,
  triton_filter_and_convert_dcp_index [0; 1] sample_gathered sample_topk 2 0 2 2 4 2 true = Ok (out, Some cs) ∧
  compact_dcp_candidates 2 out true = Ok (compacted, lengths, Some empty) ∧
  row_of 4 (cells compacted) 0 = [12; 11; 10; -1] ∧ lengths !! 0%nat = Some 3 ∧ empty !! 0%nat = Some false ∧ cs !! 0%nat = Some 3 ∧
  zsum ((λ rank, Z.of_nat (length (mine 2 2 rank (row_of 4 (cells sample_topk) 1)))) <$> seqZ 0 2) = 2.
Proof.
  destruct (candidates_shared [0; 1] sample_gathered sample_topk 4 2 2 2 2 sample_row sample_filter_args
    ltac:(lia) ltac:(lia) eq_refl ltac:(lia) ltac:(lia) sample_held sample_cands) as [Hranks Hsum].
  destruct (Hranks 0 ltac:(lia)) as (out & cs & compacted & lengths & empty & H1 & H2 & H).
  exists out, cs, compacted, lengths, empty. split; [exact H1|]. split; [exact H2|].
  destruct (H 0%nat) as (Hr & Hl & He & Hcs); [cbn; lia|]. rewrite Hr, Hl, He, Hcs, (Hsum 1%nat). vm_compute. done.
Defined.
End sample.
